(* ===== verification/_CoqProject ===== *)
-Q . S2P
Prelude.v
Buffer.v
Sats.v
Bsatn.v
Varint.v
Crc.v
Commit.v
IndexFile.v
Repo.v
Segment.v
Commitlog.v
Txdata.v
CommitlogRead.v
CommitlogInv.v
CommitlogReset.v
CommitlogThm.v
CommitlogFold.v
CommitlogAny.v
Mem.v
Indexes.v
BitSet.v
VarLen.v
BlobStore.v
Page.v
PageInv.v
PageRows.v
PageRead.v
PageCopy.v
PageThm.v
Pages.v
PointerMap.v
Layout.v
RowTypeVisitor.v
BflatnTo.v
BflatnFrom.v
BflatnWriter.v
BflatnRepr.v
BflatnWrite.v
BflatnThm.v
PagesThm.v
StaticLayout.v
RowEq.v
ValueHash.v
RowHash.v
StaticValidator.v
ValueOrd.v
BTreeMap.v
IndexMaps.v
ColList.v
RowBsatn.v
RowRef.v
TableIndex.v
Table.v
TableRows.v
TableThm.v
DeleteTable.v
Sequence.v
RowInsert.v
TxState.v
MutTx.v
TxSequence.v
TxTable.v
TxRows.v
TxUpdate.v
TxThm.v
TxRead.v
TxCommit.v
TxDb.v
