(* ===== verification/Prelude.v ===== *)
(** * SpacetimeDB: storage layer

    A verification library for the part of SpacetimeDB that stores data: the
    type system and binary format of values (crates/sats), the commitlog that
    makes transactions durable (crates/commitlog), the tables that hold the
    rows in memory, with their pages and indexes (crates/table), and the
    transactions over tables (crates/core/src/db/datastore).

    ** The program and its parts

    A table row is a value ([ProductValue]) of a product type.  It is encoded
    in the binary format BSATN wherever bytes leave the process; the mutations
    of a transaction, rows in BSATN, are the payload ([Txdata]) of a record of
    the commitlog.  The commitlog groups records in commits with a checksum and
    keeps commits in segments, each with an index from transaction offsets to
    bytes.  In memory, a row is kept in the format BFLATN: a fixed-size part at
    an offset of a page, computed by the layout of the row type, and the
    strings and arrays as linked granules of the same page or, when large, as
    blobs of a store shared by all pages.  Pages belong to the page manager of
    a table and are recycled in a pool.  A table is a set of rows: it finds
    them by their hash in a pointer map or, if it has one, by a unique index,
    keeps an index for each set of columns that has one, and checks the unique
    constraints.  A transaction does not change the committed tables: it has an
    insert table and a delete table for each of them, in which it keeps its new
    rows and the pointers of the committed rows that it deleted, and reads them
    together.  A commit deletes the marked rows from the committed tables,
    copies the new ones into them, and records both for the commitlog.

    ** Files

    Values and formats:
    - [Prelude]: results, the state monad, machine integers, little-endian
      bytes, lists and vectors.
    - [Buffer]: sats/src/buffer.rs; the traits [BufWriter] and [BufReader] as
      classes, their laws, and all instances.
    - [Sats]: sats/src/algebraic_type.rs, algebraic_value.rs; types, values,
      [typed].
    - [Bsatn]: sats/src/bsatn/ser.rs and de.rs; [serialize], [deserialize]
      over any lawful writer or reader, against the format [bsatn].

    The commitlog:
    - [Varint]: commitlog/src/varint.rs and varchar.rs.
    - [Crc]: CRC-32C, only the instance used by examples.
    - [Commit]: commitlog/src/commit.rs; framing and decoding of commits.
    - [IndexFile]: commitlog/src/index/indexfile.rs.
    - [Repo], [Segment], [Commitlog]: commitlog/src/repo, segment.rs and
      commitlog.rs; storage, segments and the type [Generic].
    - [Txdata]: commitlog/src/payload/txdata.rs; [Visitor] as a record of
      operations with the class [VisitorLaws].
    - [CommitlogRead], [CommitlogInv], [CommitlogReset]: lemmas on the layout
      of a log on disk, the invariant [log_inv] and the reset operations.
    - [CommitlogThm], [CommitlogFold], [CommitlogAny]: the theorems, on the
      transition system [log_step], on logs of transactions, and on arbitrary
      storage.

    Pages:
    - [Mem]: byte slices; [Indexes]: table/src/indexes.rs; [BitSet]:
      fixed_bit_set.rs; [VarLen]: var_len.rs, with the class [VarLenMembers].
    - [BlobStore]: blob_store.rs; the class [BlobStore] with its laws.
    - [Page]: page.rs, the operations; [PageInv], [PageRows], [PageRead],
      [PageCopy]: the invariant and what each operation does to the rows;
      [PageThm]: the theorems.
    - [Pages], [PagesThm]: pages.rs and page_pool.rs.
    - [PointerMap]: pointer_map.rs.
    - [Layout]: layout.rs; [RowTypeVisitor]: row_type_visitor.rs.
    - [BflatnTo], [BflatnFrom]: bflatn_to.rs and bflatn_from.rs;
      [BflatnWriter], [BflatnRepr], [BflatnWrite]: what is written represents
      the value; [BflatnThm]: the theorems.

    Rows of tables:
    - [StaticLayout]: static_layout.rs; [StaticValidator]:
      static_bsatn_validator.rs.
    - [RowEq]: eq.rs; [ValueHash]: sats/src/algebraic_value_hash.rs; [RowHash]:
      row_hash.rs.
    - [ColList]: primitives/src/col_list.rs.
    - [RowBsatn]: bflatn_from.rs with the serializer of bsatn/ser.rs.
    - [RowRef]: read_column.rs and the type [RowRef] of table.rs.

    Tables:
    - [ValueOrd]: the derived [Ord] of sats values, with the class [OrdLaws];
      [BTreeMap]: the standard map as a sorted list.
    - [IndexMaps]: table_index/multimap.rs, uniquemap.rs,
      unique_direct_index.rs and unique_direct_fixed_cap_index.rs; each is a
      bag of pairs of a key and a row pointer.
    - [TableIndex]: table_index/mod.rs and key_size.rs; an index with its key
      type and counters.
    - [Table]: table.rs, the operations; [TableRows]: the invariant, in two
      parts, the rows in the pages ([phys]) and those that pointer map, indexes
      and counters know ([logical]), and what inserting, deleting and updating
      do to them; [TableThm]: scanning, adding and removing indexes, restoring
      from pages, and the theorems on the transition system [table_reach].
    - [RowInsert]: decoding by a layout (layout.rs) and inserting rows from
      bytes (bflatn_to.rs, table.rs).

    Transactions (core/src/db/datastore/locking_tx_datastore):
    - [DeleteTable]: delete_table.rs; [Sequence]: sequence.rs, with the
      transition system [seq_step] of a sequence in memory and its stored
      allocation; [TxSequence]: how [get_next_sequence_value] steps in it.
    - [TxState]: tx_state.rs and committed_state.rs; the tables of a
      transaction, the committed tables, merging and rolling back.
    - [MutTx]: mut_tx.rs and state_view.rs; the operations of [MutTxId].
    - [TxTable]: the committed table and the insert table with the same
      structure, and searching in one for a row of the other; [TxRows]: the
      invariant [tx_inv] of the insert table, the delete table and the committed
      table, and inserting and deleting; [TxUpdate]: updating.
    - [TxThm]: the writing operations on the state of a transaction, against
      the view [tx_view] of a table: its committed rows, those deleted and
      those inserted; [TxRead]: the reading operations.
    - [TxCommit]: a commit on one table; [TxDb]: the database of all tables
      ([tx_db], [cs_db]), beginning, committing and rolling back.

    ** What the theorems show

    - Values: serializing and deserializing is the identity at every type; the
      deserializer accepts canonical encodings only, and always returns.
    - Log: in every state reached by the steps [log_step] the log reads back
      as its commits; commits succeed on working storage; folding shows the
      decoder every transaction once, in order.  Among the steps are writes that
      fail with a strict prefix of the commit on disk, and crashes that leave
      nothing, all, or at least the header of the commit.  Opening the log is
      decided for every crash, also for those that leave a part of a header, or
      a torn commit alone in its segment, after which the log does not go on as
      it should.  Writes that are reported as failed with all of the commit on
      disk, and resets with a stale index, are no steps: examples show what they
      lead to.  On storage with arbitrary contents the iterator ends and yields
      no gaps, also when it ends in a panic, which offsets beyond 64 bits cause.
    - Pages: a page is a map from offsets to rows, and with the layout, the
      visitor, the writer and the reader a map from offsets to values; the
      page manager is a map from pointers to values.  The free lists, granule
      chains, blob reference counts and counters are an invariant.
    - Rows: what is done to a row where it is stored agrees with what is done
      to its value: comparing, hashing, reading columns, projecting and
      encoding.  A static layout does the same by copying bytes, and the
      validator accepts exactly the encodings of the row type, if its sums have
      fewer than 256 variants.  Column lists are lists, except for the clone of
      an empty one on the heap.  Rows are equal if their values are, floats bit
      for bit.
    - Tables: an index is the bag of its keys and pointers.  A table reached by
      any operations is the set of its rows, and scans, pointers and indexes
      agree on them; insertion adds a row or says why not, and leaves no trace
      of a row that it refused; deletion and update do what they say; indexes
      can be added and removed, and a table restored from its pages.
    - Transactions: a transaction sees the committed rows that it did not
      delete and the rows that it inserted.  Insertion, update and deletion
      change what it sees as they say, or name the error and change nothing;
      iteration, pointers and counts agree on it, and so do ranges of columns,
      with and without an index that is a tree.  A commit gives each table of
      the database the rows that were seen, and records the difference.  All
      this is about states in which every table has a view ([tx_db]): a
      transaction begins in one, and the operations keep it.  The theorems on
      insertion and update are for tables without sequences; an insertion for
      which no value can be generated leaves a state without views.
    - A delete table is a set of row pointers; a sequence goes around between
      its bounds.  An ascending one never gives a value twice to transactions
      that commit, across allocations and restarts, unless it wraps around or a
      transaction that allocated values rolls back.
    - Where the code does not do what it says, a theorem shows the case: torn
      headers, a log forked by a write that was reported as failed, epochs lost by
      reopening, stale index entries, varints and
      lengths that panic, truncated layouts, roll-back with a stale tag, rows
      lost by copying, rows refused by the validator, a push that writes out of
      bounds, keys skipped by a range of a direct index, a duplicate that is
      reported as a violation, a counter of 31 bits, bytes after a row that
      are ignored, descending sequences that cannot allocate, a row that is
      left behind when no value can be generated for it, values of sequences
      that are repeated because a rollback keeps their allocation.

    ** How the code is modelled

    - A Rust function that returns a value is a function to [result]: [Ok],
      [Err], [Panic] or [OutOfFuel]; one on [&mut self] is in the state monad
      [st], whose state is kept on errors.
    - Integers are in [Z].  Arithmetic on [u8] to [u64] panics on overflow
      ([add_u] and the like); conversions with [as] wrap ([wrap_u]); [usize]
      counts bytes in memory and is not bounded.
    - Floats are their bit patterns, and equality of values is that of the bit
      patterns, as for rows in pages.  Where the code compares floats as values,
      in the order of keys, the comparison is a parameter (below).
    - Undefined behaviour of unsafe code (reads out of bounds,
      [unwrap_unchecked], unreachable code) is a panic, and [debug_assert!] is
      kept: a theorem that an operation returns [Ok] shows that its safety
      conditions hold.  Pages are 64-byte aligned and the target is
      little-endian.
    - Fuel: a loop over granules has 1024 steps, one more than a page has
      granules; the interpreter of visitor programs has one step more than the
      program has instructions, since jumps go forward; the writer of granules
      has the length of the slice; the log iterator has the sizes of segments.
      Theorems state [Ok], so that the fuel is shown to be enough.
    - Code outside of the repository is a parameter with named assumptions:
      the hash BLAKE3 has 32 bytes (class [Blake3]), and theorems on blobs
      assume that the blobs at hand do not collide; CRC-32C is any function to
      32 bits; the queue of the page pool is first-in first-out
      ([PageQueueLaws]); a hasher is any state with the calls that are made on
      it ([Hasher], [RowHasher]); floats, a library type, have any total order
      ([FloatOrd], [FloatOrdLaws]).
    - Traits are classes: [BufWriter], [BufReader], [BlobStore],
      [VarLenMembers].  Clients are proved against the laws.

    ** Not modelled

    Queries, subscriptions, the host and its clients: they are asynchronous, or
    call into wasm, the network and the file system.  Of the datastore, the
    changes of schemas and the schemas that are read from system tables, index
    scans with encoded bounds, read transactions, locks, replay and snapshots;
    of crates/table, heap statistics; of crates/sats, the derived
    implementations for Rust types and the JSON formats; of the commitlog,
    compression.  Functions of the tests are not
    modelled. *)

From Stdlib Require Import ZArith Lia Bool.
From Stdlib Require Export Init.Byte.
From Stdlib Require Strings.Byte.
From stdpp Require Export base list numbers option strings.

#[export] Set Warnings "-register-all,-clear-no-such-hyp".

#[export] Set Default Goal Selector "!".

(** ** Results *)

(** The outcome of a Rust computation: a returned [Ok], a returned [Err], a
    panic (failed index, [unwrap], [expect], [assert!]) or, for a function
    modelled with fuel, the fuel running out. *)
Inductive result (E A : Type) : Type :=
| Ok (a : A)
| Err (e : E)
| Panic
| OutOfFuel.
Arguments Ok {E A} a.
Arguments Err {E A} e.
Arguments Panic {E A}.
Arguments OutOfFuel {E A}.

Definition rbind {E A B} (m : result E A) (k : A → result E B) : result E B :=
  match m with
  | Ok a => k a
  | Err e => Err e
  | Panic => Panic
  | OutOfFuel => OutOfFuel
  end.

Definition rmap {E A B} (f : A → B) (m : result E A) : result E B :=
  rbind m (λ a, Ok (f a)).

(** [result] at a fixed error type. *)
Declare Scope result_scope.
Delimit Scope result_scope with result.
Notation "'let*' x := m 'in' k" := (rbind m (λ x, k))
  (at level 10, x name, m at level 100, k at level 200,
   format "'[v' 'let*'  x  :=  m  'in' '/' k ']'") : result_scope.
Notation "'let*' ' p := m 'in' k" := (rbind m (λ x, match x with p => k end))
  (at level 10, p pattern, m at level 100, k at level 200,
   format "'[v' 'let*'  ' p  :=  m  'in' '/' k ']'") : result_scope.

Definition is_ok {E A} (m : result E A) : bool :=
  match m with Ok _ => true | _ => false end.

(** Neither a panic nor an exhausted budget: the call returns. *)
Definition returns {E A} (m : result E A) : Prop :=
  match m with Ok _ | Err _ => True | Panic | OutOfFuel => False end.

Section result_lemmas.
Context {E A B : Type}.
Implicit Types m : result E A.

Lemma rbind_Ok_inv m (k : A → result E B) b :
  rbind m k = Ok b → ∃ a, m = Ok a ∧ k a = Ok b.
Proof. destruct m; naive_solver. Qed.

Lemma rbind_returns m (k : A → result E B) :
  returns m → (∀ a, m = Ok a → returns (k a)) → returns (rbind m k).
Proof. destruct m; naive_solver. Qed.
End result_lemmas.

(** [m'] has the outcome of [m], or [m] had too little fuel to have one. *)
Definition approx {E A} (m m' : result E A) : Prop := m = OutOfFuel ∨ m = m'.

Lemma approx_refl {E A} (m : result E A) : approx m m.
Proof. by right. Qed.

Lemma approx_bind {E A B} (m m' : result E A) (k k' : A → result E B) :
  approx m m' → (∀ a, approx (k a) (k' a)) → approx (rbind m k) (rbind m' k').
Proof. intros [->| ->] Hk; [by left|]. destruct m'; simpl; [apply Hk|by right|by right|by left]. Qed.

Lemma approx_eq {E A} (m m' : result E A) : approx m m' → m ≠ OutOfFuel → m' = m.
Proof. by intros [|]. Qed.

(** Splits every successful bind among the hypotheses. *)
Ltac inv_ok :=
  repeat match goal with
  | H : Ok _ = Ok _ |- _ => injection H as H; try subst
  | H : Err _ = Ok _ |- _ => discriminate H
  | H : Panic = Ok _ |- _ => discriminate H
  | H : OutOfFuel = Ok _ |- _ => discriminate H
  | H : rmap _ _ = Ok _ |- _ => unfold rmap in H
  | H : rbind _ _ = Ok _ |- _ =>
      let x := fresh "a" in let H1 := fresh "Hok" in
      apply rbind_Ok_inv in H as (x & H1 & H); cbv beta in H
  | H : (if ?b then _ else Err _) = Ok _ |- _ =>
      let Hc := fresh "Hcond" in destruct b eqn:Hc; [|discriminate H]
  | H : (if ?b then Err _ else _) = Ok _ |- _ =>
      let Hc := fresh "Hcond" in destruct b eqn:Hc; [discriminate H|]
  end.

(** ** Machine integers *)

Local Open Scope Z_scope.

(** [x as uN] of a value computed in the integers. *)
Definition wrap_u (w : Z) (z : Z) : Z := z mod 2 ^ w.

(** Two's-complement reinterpretation at width [w]. *)
Definition wrap_s (w : Z) (z : Z) : Z :=
  (z + 2 ^ (w - 1)) mod 2 ^ w - 2 ^ (w - 1).

Definition in_u (w : Z) (z : Z) : Prop := 0 ≤ z < 2 ^ w.
Definition in_s (w : Z) (z : Z) : Prop := - 2 ^ (w - 1) ≤ z < 2 ^ (w - 1).

#[export] Instance in_u_dec w z : Decision (in_u w z).
Proof. unfold in_u. apply _. Defined.
#[export] Instance in_s_dec w z : Decision (in_s w z).
Proof. unfold in_s. apply _. Defined.

Definition u8_MAX : Z := 2 ^ 8 - 1.
Definition u16_MAX : Z := 2 ^ 16 - 1.
Definition u32_MAX : Z := 2 ^ 32 - 1.
Definition isize_MAX : Z := 2 ^ 63 - 1.
Definition u64_MAX : Z := 2 ^ 64 - 1.

Lemma wrap_u_range w z : 0 ≤ w → in_u w (wrap_u w z).
Proof. intros. apply Z.mod_pos_bound. lia. Qed.

Lemma wrap_u_id w z : in_u w z → wrap_u w z = z.
Proof. intros H. by apply Z.mod_small. Qed.

Lemma pow2_half w : 0 < w → 2 ^ w = 2 * 2 ^ (w - 1).
Proof. intros. rewrite <-Z.pow_succ_r by lia. f_equal. lia. Qed.

Lemma wrap_s_range w z : 0 < w → in_s w (wrap_s w z).
Proof.
  intros. unfold in_s, wrap_s.
  pose proof (Z.mod_pos_bound (z + 2 ^ (w - 1)) (2 ^ w) ltac:(lia)).
  rewrite (pow2_half w) in * by lia. lia.
Qed.

Lemma wrap_s_of_mod w z : 0 < w → in_s w z → wrap_s w (z mod 2 ^ w) = z.
Proof.
  intros Hw Hz. unfold wrap_s, in_s in *.
  rewrite Z.add_mod_idemp_l by lia.
  rewrite Z.mod_small by (rewrite (pow2_half w) by lia; lia). lia.
Qed.

Lemma mod_of_wrap_s w z : 0 < w → in_u w z → wrap_s w z mod 2 ^ w = z.
Proof.
  intros Hw Hz. unfold wrap_s.
  rewrite Zminus_mod_idemp_l.
  rewrite Z.add_simpl_r. by apply Z.mod_small.
Qed.

(** ** Bytes *)

Definition byte_to_Z (b : byte) : Z := Z.of_N (Byte.to_N b).

(** The low eight bits of [z]. *)
Definition byte_of_Z (z : Z) : byte :=
  default x00 (Byte.of_N (Z.to_N (z mod 256))).

#[export] Instance byte_eq_dec : EqDecision byte := Byte.byte_eq_dec.

Lemma byte_to_Z_range b : 0 ≤ byte_to_Z b < 256.
Proof. unfold byte_to_Z. pose proof (Byte.to_N_bounded b). lia. Qed.

Lemma byte_to_of_Z z : byte_to_Z (byte_of_Z z) = z mod 256.
Proof.
  unfold byte_to_Z, byte_of_Z.
  pose proof (Z.mod_pos_bound z 256 ltac:(lia)).
  destruct (Byte.of_N (Z.to_N (z mod 256))) as [b|] eqn:Hb; simpl.
  - apply Byte.to_of_N in Hb. rewrite Hb. lia.
  - apply Byte.of_N_None_iff in Hb. lia.
Qed.

Lemma byte_to_Z_inj b1 b2 : byte_to_Z b1 = byte_to_Z b2 → b1 = b2.
Proof.
  unfold byte_to_Z. intros H. apply (f_equal Z.to_N) in H.
  rewrite !N2Z.id in H. apply (f_equal Byte.of_N) in H.
  rewrite !Byte.of_to_N in H. congruence.
Qed.

Lemma byte_of_to_Z b : byte_of_Z (byte_to_Z b) = b.
Proof.
  apply byte_to_Z_inj. rewrite byte_to_of_Z.
  apply Z.mod_small, byte_to_Z_range.
Qed.

(** ** Little-endian integers: [to_le_bytes] and [from_le_bytes] *)

Fixpoint le_bytes (n : nat) (z : Z) : list byte :=
  match n with
  | O => []
  | S n => byte_of_Z z :: le_bytes n (z / 256)
  end.

Fixpoint le_val (l : list byte) : Z :=
  match l with
  | [] => 0
  | b :: l => byte_to_Z b + 256 * le_val l
  end.

Lemma length_le_bytes n z : length (le_bytes n z) = n.
Proof. revert z. induction n; simpl; congruence. Qed.

Lemma pow256 n : 2 ^ (8 * Z.of_nat (S n)) = 256 * 2 ^ (8 * Z.of_nat n).
Proof.
  rewrite Nat2Z.inj_succ, Z.mul_succ_r, Z.add_comm, Z.pow_add_r by lia.
  reflexivity.
Qed.

Lemma le_val_le_bytes n z : le_val (le_bytes n z) = z mod 2 ^ (8 * Z.of_nat n).
Proof.
  revert z. induction n as [|n IH]; intros z; simpl le_bytes; simpl le_val.
  - by rewrite Z.mul_0_r, Z.pow_0_r, Z.mod_1_r.
  - rewrite byte_to_of_Z, IH, pow256, Z.rem_mul_r by lia. lia.
Qed.

Lemma le_val_range l : 0 ≤ le_val l < 2 ^ (8 * Z.of_nat (length l)).
Proof.
  induction l as [|b l IH]; [simpl; lia|].
  simpl le_val. simpl length. rewrite pow256.
  pose proof (byte_to_Z_range b). lia.
Qed.

Lemma le_bytes_le_val l : le_bytes (length l) (le_val l) = l.
Proof.
  induction l as [|b l IH]; [done|]. simpl. f_equal.
  - apply byte_to_Z_inj. rewrite byte_to_of_Z.
    pose proof (byte_to_Z_range b).
    rewrite (Z.mul_comm 256), Z.mod_add, Z.mod_small by lia. done.
  - pose proof (byte_to_Z_range b).
    rewrite (Z.mul_comm 256), Z.div_add, Z.div_small by lia. apply IH.
Qed.

Lemma le_bytes_mod n z : le_bytes n (z mod 2 ^ (8 * Z.of_nat n)) = le_bytes n z.
Proof.
  rewrite <-le_val_le_bytes.
  rewrite <-(length_le_bytes n z) at 1. apply le_bytes_le_val.
Qed.

Lemma le_bytes_1 z : le_bytes 1 z = [byte_of_Z z].
Proof. done. Qed.

Lemma le_val_1 b : le_val [b] = byte_to_Z b.
Proof. unfold le_val. lia. Qed.

#[global] Opaque le_bytes le_val.

(** ** Lists *)

Lemma filter_all {A} (P : A → Prop) `{∀ x, Decision (P x)} (l : list A) :
  Forall P l → filter P l = l.
Proof. induction 1; [done|]. rewrite filter_cons_True by done. by f_equal. Qed.

Lemma filter_none {A} (P : A → Prop) `{∀ x, Decision (P x)} (l : list A) :
  Forall (λ x, ¬ P x) l → filter P l = [].
Proof. induction 1; [done|]. by rewrite filter_cons_False. Qed.

(** A predicate that holds of the first [i] elements and of no later one. *)
Lemma filter_take {A} (P : A → Prop) `{∀ x, Decision (P x)} (l : list A) i :
  (∀ j x, l !! j = Some x → P x ↔ (j < i)%nat) → filter P l = take i l.
Proof.
  intros HP. rewrite <-(take_drop i l) at 1. rewrite filter_app.
  rewrite filter_all, filter_none, app_nil_r; [done| |].
  - apply Forall_lookup. intros j x Hj. rewrite lookup_drop in Hj.
    rewrite (HP _ _ Hj). lia.
  - apply Forall_lookup. intros j x Hj. apply lookup_take_Some in Hj as [Hj ?].
    by rewrite (HP _ _ Hj).
Qed.

Lemma filter_ext_elem {A} (P Q : A → Prop) `{∀ x, Decision (P x)} `{∀ x, Decision (Q x)}
    (l : list A) :
  (∀ x, x ∈ l → P x ↔ Q x) → filter P l = filter Q l.
Proof.
  induction l as [|x l IH]; [done|]. intros HP.
  rewrite !filter_cons. rewrite IH by (intros; apply HP; by right).
  pose proof (HP x ltac:(left)). do 2 case_decide; tauto || done.
Qed.

(** ** Stateful computations *)

(** A method on [&mut self]: the state it leaves is defined also when it
    returns an error. *)
Definition st (S E A : Type) : Type := S → result E A * S.

Definition sret {S E A} (a : A) : st S E A := λ s, (Ok a, s).
Definition sthrow {S E A} (e : E) : st S E A := λ s, (Err e, s).
Definition spanic {S E A} : st S E A := λ s, (Panic, s).
Definition sbind {S E A B} (m : st S E A) (k : A → st S E B) : st S E B := λ s,
  match m s with
  | (Ok a, s) => k a s
  | (Err e, s) => (Err e, s)
  | (Panic, s) => (Panic, s)
  | (OutOfFuel, s) => (OutOfFuel, s)
  end.

(** The state, a function of it, an update of it, a value computed from it. *)
Definition sget {S E} : st S E S := λ s, (Ok s, s).
Definition sgets {S E A} (f : S → A) : st S E A := λ s, (Ok (f s), s).
Definition smodify {S E} (f : S → S) : st S E unit := λ s, (Ok tt, f s).
Definition slift {S E A} (f : S → result E A) : st S E A := λ s, (f s, s).
Definition sres {S E A} (r : result E A) : st S E A := λ s, (r, s).

Declare Scope st_scope.
Delimit Scope st_scope with st.
Notation "'let!' x := m 'in' k" := (sbind m (λ x, k))
  (at level 10, x name, m at level 100, k at level 200,
   format "'[v' 'let!'  x  :=  m  'in' '/' k ']'") : st_scope.
Notation "'let!' ' p := m 'in' k" := (sbind m (λ x, match x with p => k end))
  (at level 10, p pattern, m at level 100, k at level 200,
   format "'[v' 'let!'  ' p  :=  m  'in' '/' k ']'") : st_scope.

(** [debug_assert!] and [assert!]. *)
Definition sassert {S E} (b : bool) : st S E unit := λ s, (if b then Ok tt else Panic, s).

Section st_lemmas.
Context {S E A B : Type}.
Implicit Types m : st S E A.

Lemma sbind_Ok m (k : A → st S E B) s s' a :
  m s = (Ok a, s') → sbind m k s = k a s'.
Proof. intros H. unfold sbind. by rewrite H. Qed.

Lemma sbind_Err m (k : A → st S E B) s s' e :
  m s = (Err e, s') → sbind m k s = (Err e, s').
Proof. intros H. unfold sbind. by rewrite H. Qed.

Lemma sbind_Ok_inv m (k : A → st S E B) s b s' :
  sbind m k s = (Ok b, s') → ∃ a s1, m s = (Ok a, s1) ∧ k a s1 = (Ok b, s').
Proof. unfold sbind. destruct (m s) as [[] s1]; naive_solver. Qed.
End st_lemmas.

(** ** Arithmetic on unsigned machine integers, a panic on overflow *)

Definition add_u {E} (w a b : Z) : result E Z :=
  if a + b <? 2 ^ w then Ok (a + b) else Panic.
Definition sub_u {E} (a b : Z) : result E Z :=
  if b <=? a then Ok (a - b) else Panic.
Definition mul_u {E} (w a b : Z) : result E Z :=
  if a * b <? 2 ^ w then Ok (a * b) else Panic.

Lemma add_u_Ok {E} w a b : a + b < 2 ^ w → add_u (E:=E) w a b = Ok (a + b).
Proof. intros. unfold add_u. by rewrite (proj2 (Z.ltb_lt _ _)). Qed.
Lemma sub_u_Ok {E} a b : b ≤ a → sub_u (E:=E) a b = Ok (a - b).
Proof. intros. unfold sub_u. by rewrite (proj2 (Z.leb_le _ _)). Qed.
Lemma mul_u_Ok {E} w a b : a * b < 2 ^ w → mul_u (E:=E) w a b = Ok (a * b).
Proof. intros. unfold mul_u. by rewrite (proj2 (Z.ltb_lt _ _)). Qed.

(** [usize::div_ceil]. *)
Definition div_ceil (a b : Z) : Z := (a + b - 1) / b.

(** ** [Vec] *)

(** [Vec::pop]: the last element and the rest. *)
Definition vec_pop {A} (v : list A) : option (A * list A) :=
  match reverse v with [] => None | x :: r => Some (x, reverse r) end.

(** [Vec::swap_remove] at an index in range. *)
Definition swap_remove {A} (i : nat) (v : list A) : list A :=
  match vec_pop v with None => [] | Some (x, r) => <[i := x]> r end.

(** [v[i]]: a panic when out of range. *)
Definition vec_get {E A} (v : list A) (i : Z) : result E A :=
  if i <? 0 then Panic else match v !! Z.to_nat i with Some x => Ok x | None => Panic end.

Lemma vec_pop_snoc {A} (v : list A) x : vec_pop (v ++ [x]) = Some (x, v).
Proof. unfold vec_pop. rewrite reverse_app. simpl. by rewrite reverse_involutive. Qed.

Lemma vec_get_Ok {E A} (v : list A) i x :
  0 ≤ i → v !! Z.to_nat i = Some x → vec_get (E:=E) v i = Ok x.
Proof. intros Hi Hx. unfold vec_get. rewrite (proj2 (Z.ltb_ge _ _) Hi). by rewrite Hx. Qed.

Lemma swap_remove_perm {A} (v : list A) i x : v !! i = Some x → x :: swap_remove i v ≡ₚ v.
Proof.
  destruct v as [|y v _] using rev_ind; [done|]. unfold swap_remove. rewrite vec_pop_snoc. intros Hi.
  destruct (decide (i < length v)%nat) as [Hlt|Hge].
  - rewrite lookup_app_l in Hi by done. rewrite (Permutation_app_comm v [y]). simpl.
    rewrite insert_take_drop, Permutation_middle, <-Permutation_middle by done.
    rewrite <-(take_drop_middle v i x Hi) at 3. rewrite <-!Permutation_middle. by constructor.
  - rewrite list_insert_ge by lia. rewrite lookup_app_r in Hi by lia.
    destruct (i - length v)%nat; [|done]. injection Hi as <-. apply Permutation_cons_append.
Qed.
