(* ===== verification/Buffer.v ===== *)
(** * Byte buffers (crates/sats/src/buffer.rs)

    The reader and writer traits every binary format of the database goes
    through.  [BufWriter] and [BufReader] are type classes with one
    operation each, like the traits; their laws are separate classes, so that
    the formats are proved against the interface.  Instances: growable vector,
    fixed slice, counting writer, tee writer; slice reader, cursor reader. *)

From Stdlib Require Import ZArith Lia.
From S2P Require Import Prelude.
Local Open Scope Z_scope.
Local Open Scope result_scope.

(** The decoding errors. *)
Inductive DecodeError : Type :=
| BufferLength (for_type : string) (expected given : Z)
| InvalidLen (expected given : Z)
| InvalidTag (tag : Z) (sum_name : option string)
| InvalidUtf8
| InvalidBool (b : Z)
| Other (msg : string).

(** ** Writers *)

(** [put_slice] may panic (a slice writer with too little room), it never
    returns an error; the error type is that of the caller. *)
Class BufWriter (W : Type) : Type :=
  put_slice : ∀ {E : Type}, W → list byte → result E W.

Class BufWriterLaws (W : Type) `{BufWriter W} : Prop := {
  put_slice_nil {E} (w : W) : put_slice (E:=E) w [] = Ok w;
  put_slice_app {E} (w : W) a b :
    put_slice (E:=E) w (a ++ b) = let* w' := put_slice w a in put_slice w' b
}.

(** The provided methods; [nb] is the size of the integer type in bytes. *)
Definition put_uint {W} `{BufWriter W} {E} (nb : nat) (w : W) (v : Z) : result E W :=
  put_slice w (le_bytes nb v).

Definition put_u8 {W} `{BufWriter W} {E} (w : W) (v : Z) : result E W := put_uint 1 w v.
Definition put_u16 {W} `{BufWriter W} {E} (w : W) (v : Z) : result E W := put_uint 2 w v.
Definition put_u32 {W} `{BufWriter W} {E} (w : W) (v : Z) : result E W := put_uint 4 w v.
Definition put_u64 {W} `{BufWriter W} {E} (w : W) (v : Z) : result E W := put_uint 8 w v.
Definition put_u128 {W} `{BufWriter W} {E} (w : W) (v : Z) : result E W := put_uint 16 w v.
Definition put_u256 {W} `{BufWriter W} {E} (w : W) (v : Z) : result E W := put_uint 32 w v.

(** [to_le_bytes] of a signed integer writes its two's complement, which is
    the little-endian expansion modulo [2 ^ (8 * nb)]. *)
Definition put_sint {W} `{BufWriter W} {E} (nb : nat) (w : W) (v : Z) : result E W :=
  put_slice w (le_bytes nb (v mod 2 ^ (8 * Z.of_nat nb))).

(** [Vec<u8>]. *)
#[export] Instance vec_writer : BufWriter (list byte) := λ E w slice, Ok (w ++ slice).

(** [&mut [u8]]: what was written so far and the room that is left. *)
Record SliceWriter := { sw_written : list byte; sw_room : nat }.

#[export] Instance slice_writer : BufWriter SliceWriter := λ E w slice,
  if (sw_room w <? length slice)%nat then Panic
  else Ok {| sw_written := sw_written w ++ slice;
             sw_room := sw_room w - length slice |}.

(** [CountWriter]. *)
Record CountWriter := { num_bytes : Z }.

Definition CountWriter_finish (w : CountWriter) : Z := num_bytes w.

#[export] Instance count_writer : BufWriter CountWriter := λ E w slice,
  Ok {| num_bytes := num_bytes w + Z.of_nat (length slice) |}.

(** [TeeWriter]: both writers, in order. *)
Record TeeWriter (W1 W2 : Type) := { w1 : W1; w2 : W2 }.
Arguments w1 {W1 W2}.
Arguments w2 {W1 W2}.

#[export] Instance tee_writer {W1 W2} `{BufWriter W1} `{BufWriter W2} :
  BufWriter (TeeWriter W1 W2) := λ E w slice,
  let* w1' := put_slice (w1 w) slice in
  let* w2' := put_slice (w2 w) slice in
  Ok {| w1 := w1'; w2 := w2' |}.

#[export] Instance vec_writer_laws : BufWriterLaws (list byte).
Proof.
  split; intros; unfold put_slice, vec_writer; simpl.
  - by rewrite app_nil_r.
  - by rewrite app_assoc.
Qed.

#[export] Instance count_writer_laws : BufWriterLaws CountWriter.
Proof.
  split; intros E [n]; intros; unfold put_slice, count_writer; simpl.
  - by rewrite Z.add_0_r.
  - by rewrite length_app, Nat2Z.inj_add, Z.add_assoc.
Qed.

(** Splitting a write in two panics exactly when the whole write does. *)
#[export] Instance slice_writer_laws : BufWriterLaws SliceWriter.
Proof.
  split; intros E [wr room]; intros; unfold put_slice, slice_writer; simpl.
  - by rewrite app_nil_r, Nat.sub_0_r.
  - rewrite length_app.
    destruct (Nat.ltb_spec room (length a)); simpl.
    { by rewrite (proj2 (Nat.ltb_lt _ _)) by lia. }
    destruct (Nat.ltb_spec room (length a + length b)).
    { by rewrite (proj2 (Nat.ltb_lt _ _)) by lia. }
    rewrite (proj2 (Nat.ltb_ge _ _)) by lia.
    by rewrite app_assoc, Nat.sub_add_distr.
Qed.

(** ** Readers *)

(** [get_chunk size] yields [None] when fewer than [size] bytes remain, and
    advances the reader otherwise; a cursor past the end of its buffer
    panics. *)
Class BufReader (R : Type) : Type := {
  get_chunk : ∀ {E : Type}, R → Z → result E (option (list byte * R));
  remaining : R → Z
}.

(** What a reader promises: [contents] are the bytes it will still deliver. *)
Class BufReaderLaws (R : Type) `{BufReader R} : Type := {
  reader_ok : R → Prop;
  contents : R → list byte;
  get_chunk_short {E} (r : R) n : reader_ok r →
    Z.of_nat (length (contents r)) < n → get_chunk (E:=E) r n = Ok None;
  get_chunk_full {E} (r : R) n : reader_ok r →
    0 ≤ n ≤ Z.of_nat (length (contents r)) →
    ∃ r', get_chunk (E:=E) r n = Ok (Some (take (Z.to_nat n) (contents r), r')) ∧
      reader_ok r' ∧ contents r' = drop (Z.to_nat n) (contents r);
  remaining_length (r : R) : reader_ok r → remaining r = Z.of_nat (length (contents r))
}.

Definition get_slice {R} `{BufReader R} (r : R) (size : Z) :
    result DecodeError (list byte * R) :=
  let* o := get_chunk r size in
  match o with
  | Some cr => Ok cr
  | None => Err (BufferLength "[u8]" size (remaining r))
  end.

(** The [get_int!] macro: [name] is [stringify!($int)], [nb] its size. *)
Definition get_int {R} `{BufReader R} (name : string) (nb : nat) (r : R) :
    result DecodeError (list byte * R) :=
  let* o := get_chunk r (Z.of_nat nb) in
  match o with
  | Some cr => Ok cr
  | None => Err (BufferLength name (Z.of_nat nb) (remaining r))
  end.

Definition get_uint {R} `{BufReader R} name nb (r : R) : result DecodeError (Z * R) :=
  let* '(arr, r) := get_int name nb r in Ok (le_val arr, r).

Definition get_sint {R} `{BufReader R} name nb (r : R) : result DecodeError (Z * R) :=
  let* '(arr, r) := get_int name nb r in
  Ok (wrap_s (8 * Z.of_nat nb) (le_val arr), r).

Definition get_u8 {R} `{BufReader R} (r : R) := get_uint "u8" 1 r.
Definition get_u16 {R} `{BufReader R} (r : R) := get_uint "u16" 2 r.
Definition get_u32 {R} `{BufReader R} (r : R) := get_uint "u32" 4 r.
Definition get_u64 {R} `{BufReader R} (r : R) := get_uint "u64" 8 r.

(** [&[u8]]. *)
#[export] Instance slice_reader : BufReader (list byte) := {
  get_chunk E r size :=
    if Z.of_nat (length r) <? size then Ok None
    else Ok (Some (take (Z.to_nat size) r, drop (Z.to_nat size) r));
  remaining r := Z.of_nat (length r)
}.

(** [Cursor]: a buffer and a position in it. *)
Record Cursor := { buf : list byte; pos : Z }.

Definition Cursor_new (b : list byte) : Cursor := {| buf := b; pos := 0 |}.

#[export] Instance cursor_reader : BufReader Cursor := {
  get_chunk E r size :=
    if Z.of_nat (length (buf r)) <? pos r then Panic
    else
      let b := drop (Z.to_nat (pos r)) (buf r) in
      if Z.of_nat (length b) <? size then Ok None
      else Ok (Some (take (Z.to_nat size) b, {| buf := buf r; pos := pos r + size |}));
  remaining r := Z.of_nat (length (buf r)) - pos r
}.

#[export] Program Instance slice_reader_laws : BufReaderLaws (list byte) := {
  reader_ok _ := True;
  contents r := r
}.
Next Obligation. intros E r n _ Hn. simpl. by rewrite (proj2 (Z.ltb_lt _ _)). Qed.
Next Obligation.
  intros E r n _ Hn. simpl. rewrite (proj2 (Z.ltb_ge _ _)) by lia. eauto.
Qed.
Next Obligation. done. Qed.

#[export] Program Instance cursor_reader_laws : BufReaderLaws Cursor := {
  reader_ok r := 0 ≤ pos r ≤ Z.of_nat (length (buf r));
  contents r := drop (Z.to_nat (pos r)) (buf r)
}.
Next Obligation.
  intros E r n Hr Hn. simpl in *. rewrite (proj2 (Z.ltb_ge _ (pos r))) by lia.
  by rewrite (proj2 (Z.ltb_lt _ n)).
Qed.
Next Obligation.
  intros E r n Hr Hn. simpl in *. rewrite (proj2 (Z.ltb_ge _ (pos r))) by lia.
  rewrite (proj2 (Z.ltb_ge _ n)) by lia. eexists; split; [done|].
  rewrite length_drop in Hn. simpl. split; [lia|].
  rewrite drop_drop. f_equal. lia.
Qed.
Next Obligation. intros r Hr. simpl in *. rewrite length_drop. lia. Qed.
