(* ===== verification/Sats.v ===== *)
(** * The SpacetimeDB Algebraic Type System (crates/sats/src)

    [AlgebraicType] and [AlgebraicValue] with their type context, and what it
    means for a value to inhabit a type.  The twelve integer variants of the
    source's enums are one constructor indexed by [IntTy], the two float
    variants one indexed by [FloatTy]; a float is its bit pattern and a string
    its UTF-8 bytes. *)

From Stdlib Require Import ZArith Lia.
From S2P Require Import Prelude Buffer.
Local Open Scope Z_scope.

(** ** Types *)

Inductive IntTy := I8 | U8 | I16 | U16 | I32 | U32 | I64 | U64 | I128 | U128 | I256 | U256.
Inductive FloatTy := F32 | F64.

#[export] Instance IntTy_eq_dec : EqDecision IntTy.
Proof. solve_decision. Defined.
#[export] Instance FloatTy_eq_dec : EqDecision FloatTy.
Proof. solve_decision. Defined.

(** Size in bytes of an integer type. *)
Definition int_size (k : IntTy) : nat :=
  match k with
  | I8 | U8 => 1 | I16 | U16 => 2 | I32 | U32 => 4
  | I64 | U64 => 8 | I128 | U128 => 16 | I256 | U256 => 32
  end.

Definition int_signed (k : IntTy) : bool :=
  match k with I8 | I16 | I32 | I64 | I128 | I256 => true | _ => false end.

Definition int_name (k : IntTy) : string :=
  match k with
  | I8 => "i8" | U8 => "u8" | I16 => "i16" | U16 => "u16"
  | I32 => "i32" | U32 => "u32" | I64 => "i64" | U64 => "u64"
  | I128 => "i128" | U128 => "u128" | I256 => "i256" | U256 => "u256"
  end.

Definition int_bits (k : IntTy) : Z := 8 * Z.of_nat (int_size k).

Definition int_range (k : IntTy) (z : Z) : Prop :=
  if int_signed k then in_s (int_bits k) z else in_u (int_bits k) z.

Definition float_size (k : FloatTy) : nat := match k with F32 => 4 | F64 => 8 end.

(** The integer type a float is read through ([f32::from_bits(get_u32)]). *)
Definition float_int_name (k : FloatTy) : string :=
  match k with F32 => "u32" | F64 => "u64" end.

(** [ProductTypeElement] and [SumTypeVariant]: an optional name and a type. *)
Record ProductTypeElement_ (T : Type) := { el_name : option string; el_type : T }.
Arguments el_name {T}.
Arguments el_type {T}.
Record SumTypeVariant_ (T : Type) := { var_name : option string; var_type : T }.
Arguments var_name {T}.
Arguments var_type {T}.

Inductive AlgebraicType : Type :=
| TRef (r : nat)
| TSum (variants : list (SumTypeVariant_ AlgebraicType))
| TProduct (elements : list (ProductTypeElement_ AlgebraicType))
| TArray (elem_ty : AlgebraicType)
| TString
| TBool
| TInt (k : IntTy)
| TFloat (k : FloatTy).

Abbreviation SumTypeVariant := (SumTypeVariant_ AlgebraicType).
Abbreviation ProductTypeElement := (ProductTypeElement_ AlgebraicType).

(** [Typespace]: what the references of a type point to. *)
Abbreviation Typespace := (list AlgebraicType).

Definition unit_type : AlgebraicType := TProduct [].
Definition bytes_type : AlgebraicType := TArray (TInt U8).

(** Induction over types, through the lists of elements and variants. *)
Section AlgebraicType_rect.
Variable P : AlgebraicType → Prop.
Hypothesis P_ref : ∀ r, P (TRef r).
Hypothesis P_sum : ∀ vs, Forall (λ v, P (var_type v)) vs → P (TSum vs).
Hypothesis P_prod : ∀ es, Forall (λ e, P (el_type e)) es → P (TProduct es).
Hypothesis P_array : ∀ t, P t → P (TArray t).
Hypothesis P_string : P TString.
Hypothesis P_bool : P TBool.
Hypothesis P_int : ∀ k, P (TInt k).
Hypothesis P_float : ∀ k, P (TFloat k).

Fixpoint AlgebraicType_nested_ind (t : AlgebraicType) : P t :=
  match t with
  | TRef r => P_ref r
  | TSum vs => P_sum vs
      ((fix go vs := match vs return Forall (λ v, P (var_type v)) vs with
        | [] => Forall_nil_2 _
        | v :: vs => Forall_cons_2 _ _ _ (AlgebraicType_nested_ind (var_type v)) (go vs)
        end) vs)
  | TProduct es => P_prod es
      ((fix go es := match es return Forall (λ e, P (el_type e)) es with
        | [] => Forall_nil_2 _
        | e :: es => Forall_cons_2 _ _ _ (AlgebraicType_nested_ind (el_type e)) (go es)
        end) es)
  | TArray t => P_array t (AlgebraicType_nested_ind t)
  | TString => P_string
  | TBool => P_bool
  | TInt k => P_int k
  | TFloat k => P_float k
  end.
End AlgebraicType_rect.

(** [AlgebraicType::contains_refs]. *)
Fixpoint contains_refs (t : AlgebraicType) : bool :=
  match t with
  | TRef _ => true
  | TProduct es => existsb (λ e, contains_refs (el_type e)) es
  | TSum vs => existsb (λ v, contains_refs (var_type v)) vs
  | TArray t => contains_refs t
  | _ => false
  end.

(** Nesting depth, the recursion depth of every traversal of the type. *)
Fixpoint type_depth (t : AlgebraicType) : nat :=
  match t with
  | TSum vs => S (max_list_with (λ v, type_depth (var_type v)) vs)
  | TProduct es => S (max_list_with (λ e, type_depth (el_type e)) es)
  | TArray t => S (type_depth t)
  | _ => 1
  end.

(** ** Values *)

Inductive AlgebraicValue : Type :=
| VMin
| VSum (s : SumValue)
| VProduct (p : ProductValue)
| VArray (a : ArrayValue)
| VBool (b : bool)
| VInt (k : IntTy) (z : Z)
| VFloat (k : FloatTy) (bits : Z)
| VString (s : list byte)
| VMax
with SumValue : Type :=
| MkSumValue (tag : Z) (value : AlgebraicValue)
with ProductValue : Type :=
| MkProductValue (elements : list AlgebraicValue)
with ArrayValue : Type :=
| ASum (l : list SumValue)
| AProduct (l : list ProductValue)
| ABool (l : list bool)
| AInt (k : IntTy) (l : list Z)
| AFloat (k : FloatTy) (l : list Z)
| AString (l : list (list byte))
| AArray (l : list ArrayValue).

Section AlgebraicValue_rect.
Variable P : AlgebraicValue → Prop.
Variable Ps : SumValue → Prop.
Variable Pp : ProductValue → Prop.
Variable Pa : ArrayValue → Prop.
Hypothesis P_min : P VMin.
Hypothesis P_max : P VMax.
Hypothesis P_sum : ∀ s, Ps s → P (VSum s).
Hypothesis P_prod : ∀ p, Pp p → P (VProduct p).
Hypothesis P_arr : ∀ a, Pa a → P (VArray a).
Hypothesis P_bool : ∀ b, P (VBool b).
Hypothesis P_int : ∀ k z, P (VInt k z).
Hypothesis P_float : ∀ k z, P (VFloat k z).
Hypothesis P_string : ∀ s, P (VString s).
Hypothesis Ps_mk : ∀ tag v, P v → Ps (MkSumValue tag v).
Hypothesis Pp_mk : ∀ l, Forall P l → Pp (MkProductValue l).
Hypothesis Pa_sum : ∀ l, Forall Ps l → Pa (ASum l).
Hypothesis Pa_prod : ∀ l, Forall Pp l → Pa (AProduct l).
Hypothesis Pa_bool : ∀ l, Pa (ABool l).
Hypothesis Pa_int : ∀ k l, Pa (AInt k l).
Hypothesis Pa_float : ∀ k l, Pa (AFloat k l).
Hypothesis Pa_string : ∀ l, Pa (AString l).
Hypothesis Pa_arr : ∀ l, Forall Pa l → Pa (AArray l).

Fixpoint AlgebraicValue_mut (v : AlgebraicValue) : P v :=
  match v with
  | VMin => P_min
  | VMax => P_max
  | VSum s => P_sum s (SumValue_mut s)
  | VProduct p => P_prod p (ProductValue_mut p)
  | VArray a => P_arr a (ArrayValue_mut a)
  | VBool b => P_bool b
  | VInt k z => P_int k z
  | VFloat k z => P_float k z
  | VString s => P_string s
  end
with SumValue_mut (s : SumValue) : Ps s :=
  match s with MkSumValue tag v => Ps_mk tag v (AlgebraicValue_mut v) end
with ProductValue_mut (p : ProductValue) : Pp p :=
  match p with
  | MkProductValue l => Pp_mk l
      ((fix go l := match l return Forall P l with
        | [] => Forall_nil_2 _
        | x :: l => Forall_cons_2 _ _ _ (AlgebraicValue_mut x) (go l)
        end) l)
  end
with ArrayValue_mut (a : ArrayValue) : Pa a :=
  match a with
  | ASum l => Pa_sum l
      ((fix go l := match l return Forall Ps l with
        | [] => Forall_nil_2 _
        | x :: l => Forall_cons_2 _ _ _ (SumValue_mut x) (go l)
        end) l)
  | AProduct l => Pa_prod l
      ((fix go l := match l return Forall Pp l with
        | [] => Forall_nil_2 _
        | x :: l => Forall_cons_2 _ _ _ (ProductValue_mut x) (go l)
        end) l)
  | ABool l => Pa_bool l
  | AInt k l => Pa_int k l
  | AFloat k l => Pa_float k l
  | AString l => Pa_string l
  | AArray l => Pa_arr l
      ((fix go l := match l return Forall Pa l with
        | [] => Forall_nil_2 _
        | x :: l => Forall_cons_2 _ _ _ (ArrayValue_mut x) (go l)
        end) l)
  end.
End AlgebraicValue_rect.

(** [ArrayValue::len]. *)
Definition ArrayValue_len (a : ArrayValue) : nat :=
  match a with
  | ASum l => length l
  | AProduct l => length l
  | ABool l => length l
  | AInt _ l => length l
  | AFloat _ l => length l
  | AString l => length l
  | AArray l => length l
  end.

(** ** UTF-8 validity, as [core::str::from_utf8] checks it *)

Definition in_range (lo hi : Z) (b : byte) : bool :=
  (lo <=? byte_to_Z b) && (byte_to_Z b <=? hi).
Definition cont : byte → bool := in_range 128 191.

Fixpoint utf8_valid (s : list byte) : bool :=
  match s with
  | [] => true
  | b0 :: s0 =>
      if in_range 0 127 b0 then utf8_valid s0
      else if in_range 194 223 b0 then
        match s0 with b1 :: s1 => cont b1 && utf8_valid s1 | _ => false end
      else if in_range 224 239 b0 then
        match s0 with
        | b1 :: b2 :: s2 =>
            (if in_range 224 224 b0 then in_range 160 191 b1
             else if in_range 237 237 b0 then in_range 128 159 b1
             else cont b1) && cont b2 && utf8_valid s2
        | _ => false
        end
      else if in_range 240 244 b0 then
        match s0 with
        | b1 :: b2 :: b3 :: s3 =>
            (if in_range 240 240 b0 then in_range 144 191 b1
             else if in_range 244 244 b0 then in_range 128 143 b1
             else cont b1) && cont b2 && cont b3 && utf8_valid s3
        | _ => false
        end
      else false
  end.

(** ** Typing *)

(** Following references in the type context to the first type that is not
    one. *)
Inductive resolves (ts : Typespace) : AlgebraicType → AlgebraicType → Prop :=
| resolves_here t : (∀ r, t ≠ TRef r) → resolves ts t t
| resolves_ref r t t' : ts !! r = Some t → resolves ts t t' → resolves ts (TRef r) t'.

(** [Forall] and [Forall2] as functions, so that predicates on values can be
    defined by recursion through them. *)
Definition all_list {A} (P : A → Prop) : list A → Prop :=
  fix go l := match l with [] => True | x :: l => P x ∧ go l end.
Definition all_list2 {A B} (P : A → B → Prop) : list B → list A → Prop :=
  fix go l k {struct k} :=
    match l, k with
    | [], [] => True
    | y :: l, x :: k => P x y ∧ go l k
    | _, _ => False
    end.

Definition fits_u32 {A} (l : list A) : Prop := Z.of_nat (length l) ≤ u32_MAX.
Definition string_ok (s : list byte) : Prop := utf8_valid s = true ∧ fits_u32 s.
Definition float_range (k : FloatTy) (bits : Z) : Prop :=
  in_u (8 * Z.of_nat (float_size k)) bits.

(** [typed ts ty v]: [v] is a value of type [ty] in the context [ts] that a
    32-bit length can describe. *)
Fixpoint typed (ts : Typespace) (ty : AlgebraicType) (v : AlgebraicValue) {struct v} : Prop :=
  ∃ ty', resolves ts ty ty' ∧
  match v, ty' with
  | VSum s, TSum vs => typed_sum ts vs s
  | VProduct p, TProduct es => typed_product ts es p
  | VArray a, TArray t => typed_array ts t a
  | VBool _, TBool => True
  | VInt k z, TInt k' => k = k' ∧ int_range k z
  | VFloat k z, TFloat k' => k = k' ∧ float_range k z
  | VString s, TString => string_ok s
  | _, _ => False
  end
with typed_sum (ts : Typespace) (vs : list SumTypeVariant) (s : SumValue) {struct s} : Prop :=
  match s with
  | MkSumValue tag v =>
      in_u 8 tag ∧ ∃ var, vs !! Z.to_nat tag = Some var ∧ typed ts (var_type var) v
  end
with typed_product (ts : Typespace) (es : list ProductTypeElement) (p : ProductValue)
    {struct p} : Prop :=
  match p with
  | MkProductValue l => all_list2 (λ v e, typed ts (el_type e) v) es l
  end
with typed_array (ts : Typespace) (t : AlgebraicType) (a : ArrayValue) {struct a} : Prop :=
  ∃ t', resolves ts t t' ∧
  match a, t' with
  | ASum l, TSum vs => fits_u32 l ∧ all_list (typed_sum ts vs) l
  | AProduct l, TProduct es => fits_u32 l ∧ all_list (typed_product ts es) l
  | ABool l, TBool => fits_u32 l
  | AInt k l, TInt k' => k = k' ∧ fits_u32 l ∧ all_list (int_range k) l
  | AFloat k l, TFloat k' => k = k' ∧ fits_u32 l ∧ all_list (float_range k) l
  | AString l, TString => fits_u32 l ∧ all_list string_ok l
  | AArray l, TArray t => fits_u32 l ∧ all_list (typed_array ts t) l
  | _, _ => False
  end.
