(* ===== verification/Bsatn.v ===== *)
(** * BSATN, the binary format of values (crates/sats/src/bsatn)

    The serializer (over any [BufWriter]) and the deserializer (over any
    [BufReader]) of [AlgebraicValue]s, the format they implement as a pure
    function [bsatn], and the theorems that relate the three: the serializer
    writes [bsatn v] on every lawful writer, the deserializer inverts it
    on every lawful reader, accepts nothing else and always returns. *)

From Stdlib Require Import ZArith Lia.
From S2P Require Import Prelude Buffer Sats.
Local Open Scope Z_scope.
Local Open Scope result_scope.

(** ** Serializer (bsatn/ser.rs, ser/impls.rs) *)

Definition BsatnError := string.

Section Serializer.
Context {W : Type} `{BufWriter W}.

Definition put_len (w : W) (len : nat) : result BsatnError W :=
  if Z.of_nat len <=? u32_MAX then put_u32 w (Z.of_nat len) else Err "len too long"%string.

Definition serialize_bool (w : W) (b : bool) : result BsatnError W :=
  put_u8 w (if b then 1 else 0).

Definition serialize_int (k : IntTy) (w : W) (z : Z) : result BsatnError W :=
  if int_signed k then put_sint (int_size k) w z else put_uint (int_size k) w z.

Definition serialize_float (k : FloatTy) (w : W) (bits : Z) : result BsatnError W :=
  put_uint (float_size k) w bits.

Definition serialize_bytes (w : W) (v : list byte) : result BsatnError W :=
  let* w := put_len w (length v) in put_slice w v.

Definition serialize_str (w : W) (v : list byte) : result BsatnError W :=
  serialize_bytes w v.

(** [serialize_element] in a loop. *)
Definition serialize_elements {A} (f : W → A → result BsatnError W) :
    W → list A → result BsatnError W :=
  fix go w l {struct l} :=
    match l with
    | [] => Ok w
    | x :: l => let* w := f w x in go w l
    end.

(** [Serialize::__serialize_array]. *)
Definition serialize_array {A} (f : W → A → result BsatnError W) (w : W) (l : list A) :
    result BsatnError W :=
  let* w := put_len w (length l) in serialize_elements f w l.

(** [Serialize] for [AlgebraicValue], [SumValue], [ProductValue] and
    [ArrayValue].  [u8] arrays are written as bytes. *)
Fixpoint serialize (w : W) (v : AlgebraicValue) {struct v} : result BsatnError W :=
  match v with
  | VSum s => serialize_sum w s
  | VProduct p => serialize_product w p
  | VArray a => serialize_array_value w a
  | VBool b => serialize_bool w b
  | VInt k z => serialize_int k w z
  | VFloat k bits => serialize_float k w bits
  | VString s => serialize_str w s
  | VMin | VMax => Panic
  end
with serialize_sum (w : W) (s : SumValue) {struct s} : result BsatnError W :=
  match s with
  | MkSumValue tag v => let* w := put_u8 w tag in serialize w v
  end
with serialize_product (w : W) (p : ProductValue) {struct p} : result BsatnError W :=
  match p with
  | MkProductValue l => serialize_elements serialize w l
  end
with serialize_array_value (w : W) (a : ArrayValue) {struct a} : result BsatnError W :=
  match a with
  | ASum l => serialize_array serialize_sum w l
  | AProduct l => serialize_array serialize_product w l
  | ABool l => serialize_array serialize_bool w l
  | AInt U8 l => serialize_bytes w (map byte_of_Z l)
  | AInt k l => serialize_array (serialize_int k) w l
  | AFloat k l => serialize_array (serialize_float k) w l
  | AString l => serialize_array serialize_str w l
  | AArray l => serialize_array serialize_array_value w l
  end.

Definition to_writer (w : W) (v : AlgebraicValue) : result BsatnError W := serialize w v.
End Serializer.

Definition to_vec (v : AlgebraicValue) : result BsatnError (list byte) :=
  to_writer [] v.

Definition to_len (v : AlgebraicValue) : result BsatnError Z :=
  rmap CountWriter_finish (to_writer {| num_bytes := 0 |} v).

(** ** Deserializer (bsatn/de.rs, de/impls.rs) *)

Section Deserializer.
Context {R : Type} `{BufReader R}.
Abbreviation reads_as A := (result DecodeError (A * R)).

Definition deserialize_len (r : R) : reads_as Z := get_u32 r.

Definition deserialize_bytes_inner (r : R) : reads_as (list byte) :=
  let* '(len, r) := deserialize_len r in get_slice r len.

Definition deserialize_str (r : R) : reads_as (list byte) :=
  let* '(s, r) := deserialize_bytes_inner r in
  if utf8_valid s then Ok (s, r) else Err InvalidUtf8.

Definition deserialize_bool (r : R) : reads_as bool :=
  let* '(b, r) := get_u8 r in
  if b =? 0 then Ok (false, r)
  else if b =? 1 then Ok (true, r)
  else Err (InvalidBool b).

Definition deserialize_int (k : IntTy) (r : R) : reads_as Z :=
  if int_signed k then get_sint (int_name k) (int_size k) r
  else get_uint (int_name k) (int_size k) r.

Definition deserialize_float (k : FloatTy) (r : R) : reads_as Z :=
  get_uint (float_int_name k) (float_size k) r.

(** [array_visit] over an [ArrayAccess] that repeats its seed [n] times. *)
Definition array_visit {A} (f : R → reads_as A) : nat → R → reads_as (list A) :=
  fix go n r :=
    match n with
    | O => Ok ([], r)
    | S n => let* '(x, r) := f r in let* '(l, r) := go n r in Ok (x :: l, r)
    end.

Definition deserialize_array_seed {A} (f : R → reads_as A) (r : R) : reads_as (list A) :=
  let* '(len, r) := deserialize_len r in array_visit f (Z.to_nat len) r.

(** [visit_sum] with [variant] and [visit_tag]: the tag is checked against
    the variants before it is used to index them. *)
Definition visit_sum (f : AlgebraicType → R → reads_as AlgebraicValue)
    (vs : list SumTypeVariant) (r : R) : reads_as SumValue :=
  let* '(tag, r) := get_u8 r in
  match vs !! Z.to_nat tag with
  | None => Err (InvalidTag tag None)
  | Some var => let* '(v, r) := f (var_type var) r in Ok (MkSumValue tag v, r)
  end.

Definition visit_elements (f : AlgebraicType → R → reads_as AlgebraicValue) :
    list ProductTypeElement → R → reads_as (list AlgebraicValue) :=
  fix go es r :=
    match es with
    | [] => Ok ([], r)
    | e :: es => let* '(v, r) := f (el_type e) r in let* '(l, r) := go es r in Ok (v :: l, r)
    end.

Definition visit_seq_product (f : AlgebraicType → R → reads_as AlgebraicValue)
    (es : list ProductTypeElement) (r : R) : reads_as ProductValue :=
  let* '(l, r) := visit_elements f es r in Ok (MkProductValue l, r).

Definition rmapfst {A B} (f : A → B) (m : reads_as A) : reads_as B :=
  rmap (λ xr, (f xr.1, xr.2)) m.

(** [DeserializeSeed] for [WithTypespace<AlgebraicType>] and, for the element
    type of an array, [WithTypespace<ArrayType>].  A reference is looked up
    by index and so panics when it dangles. *)
Fixpoint deserialize (fuel : nat) (ts : Typespace) (ty : AlgebraicType) (r : R)
    {struct fuel} : reads_as AlgebraicValue :=
  match fuel with
  | O => OutOfFuel
  | S fuel =>
    match ty with
    | TRef i => match ts !! i with None => Panic | Some ty => deserialize fuel ts ty r end
    | TSum vs => rmapfst VSum (visit_sum (deserialize fuel ts) vs r)
    | TProduct es => rmapfst VProduct (visit_seq_product (deserialize fuel ts) es r)
    | TArray t => rmapfst VArray (deserialize_array fuel ts t r)
    | TBool => rmapfst VBool (deserialize_bool r)
    | TInt k => rmapfst (VInt k) (deserialize_int k r)
    | TFloat k => rmapfst (VFloat k) (deserialize_float k r)
    | TString => rmapfst VString (deserialize_str r)
    end
  end
with deserialize_array (fuel : nat) (ts : Typespace) (ty : AlgebraicType) (r : R)
    {struct fuel} : reads_as ArrayValue :=
  match fuel with
  | O => OutOfFuel
  | S fuel =>
    match ty with
    | TRef i => match ts !! i with None => Panic | Some ty => deserialize_array fuel ts ty r end
    | TSum vs =>
        rmapfst ASum (deserialize_array_seed (visit_sum (deserialize fuel ts) vs) r)
    | TProduct es =>
        rmapfst AProduct (deserialize_array_seed (visit_seq_product (deserialize fuel ts) es) r)
    | TArray t =>
        rmapfst AArray (deserialize_array_seed (deserialize_array fuel ts t) r)
    | TBool => rmapfst ABool (deserialize_array_seed deserialize_bool r)
    | TInt U8 => rmapfst (λ s, AInt U8 (map byte_to_Z s)) (deserialize_bytes_inner r)
    | TInt k => rmapfst (AInt k) (deserialize_array_seed (deserialize_int k) r)
    | TFloat k => rmapfst (AFloat k) (deserialize_array_seed (deserialize_float k) r)
    | TString => rmapfst AString (deserialize_array_seed deserialize_str r)
    end
  end.
End Deserializer.

(** [AlgebraicValue::decode]: no type context. *)
Definition decode {R} `{BufReader R} (ty : AlgebraicType) (r : R) :
    result DecodeError (AlgebraicValue * R) :=
  deserialize (type_depth ty) [] ty r.

(** ** The format *)

Definition len_prefixed (n : nat) (body : option (list byte)) : option (list byte) :=
  b ← body;
  if Z.of_nat n <=? u32_MAX then Some (le_bytes 4 (Z.of_nat n) ++ b) else None.

Definition bsatn_list {A} (g : A → option (list byte)) : list A → option (list byte) :=
  fix go l :=
    match l with
    | [] => Some []
    | x :: l => a ← g x; b ← go l; Some (a ++ b)
    end.

Definition bsatn_bool (b : bool) : option (list byte) := Some [if b then x01 else x00].
Definition bsatn_int (k : IntTy) (z : Z) : option (list byte) :=
  Some (le_bytes (int_size k) z).
Definition bsatn_float (k : FloatTy) (z : Z) : option (list byte) :=
  Some (le_bytes (float_size k) z).
Definition bsatn_bytes (s : list byte) : option (list byte) :=
  len_prefixed (length s) (Some s).
Definition bsatn_array {A} (g : A → option (list byte)) (l : list A) : option (list byte) :=
  len_prefixed (length l) (bsatn_list g l).

(** What BSATN is: little-endian scalars, [u32] length prefixes, one tag byte
    for sums, fields side by side; [None] for what has no encoding. *)
Fixpoint bsatn (v : AlgebraicValue) : option (list byte) :=
  match v with
  | VSum s => bsatn_sum s
  | VProduct p => bsatn_product p
  | VArray a => bsatn_array_value a
  | VBool b => bsatn_bool b
  | VInt k z => bsatn_int k z
  | VFloat k z => bsatn_float k z
  | VString s => bsatn_bytes s
  | VMin | VMax => None
  end
with bsatn_sum (s : SumValue) : option (list byte) :=
  match s with
  | MkSumValue tag v => b ← bsatn v; Some (byte_of_Z tag :: b)
  end
with bsatn_product (p : ProductValue) : option (list byte) :=
  match p with
  | MkProductValue l => bsatn_list bsatn l
  end
with bsatn_array_value (a : ArrayValue) : option (list byte) :=
  match a with
  | ASum l => bsatn_array bsatn_sum l
  | AProduct l => bsatn_array bsatn_product l
  | ABool l => bsatn_array bsatn_bool l
  | AInt k l => bsatn_array (bsatn_int k) l
  | AFloat k l => bsatn_array (bsatn_float k) l
  | AString l => bsatn_array bsatn_bytes l
  | AArray l => bsatn_array bsatn_array_value l
  end.

(** ** The serializer writes the format *)

(** [f] writes what [g] prescribes: on a lawful writer exactly those bytes,
    and no writer succeeds where the format has no encoding. *)
Definition writes {A} (g : A → option (list byte))
    (f : ∀ W, BufWriter W → W → A → result BsatnError W) (x : A) : Prop :=
  match g x with
  | Some bs => ∀ W (HW : BufWriter W) (HL : BufWriterLaws W) (w : W), f W _ w x = put_slice w bs
  | None => ∀ W (HW : BufWriter W) (w : W), is_ok (f W _ w x) = false
  end.

Lemma is_ok_rbind_false {E A B} (m : result E A) (k : A → result E B) :
  (∀ a, is_ok (k a) = false) → is_ok (rbind m k) = false.
Proof. destruct m; naive_solver. Qed.

Lemma is_ok_rbind_false_l {E A B} (m : result E A) (k : A → result E B) :
  is_ok m = false → is_ok (rbind m k) = false.
Proof. by destruct m. Qed.

Lemma writes_bool b : writes bsatn_bool (λ W _, serialize_bool) b.
Proof. intros W ? ? w. unfold serialize_bool, put_u8, put_uint. by rewrite le_bytes_1; destruct b. Qed.

Lemma writes_int k z : writes (bsatn_int k) (λ W _, serialize_int k) z.
Proof.
  intros W ? ? w. unfold serialize_int, put_sint, put_uint.
  destruct (int_signed k); by rewrite ?le_bytes_mod.
Qed.

Lemma writes_float k z : writes (bsatn_float k) (λ W _, serialize_float k) z.
Proof. by intros W ? ? w. Qed.

Lemma put_len_ok {W} `{BufWriterLaws W} (w : W) n :
  Z.of_nat n ≤ u32_MAX → put_len w n = put_slice w (le_bytes 4 (Z.of_nat n)).
Proof. intros. unfold put_len. by rewrite (proj2 (Z.leb_le _ _)). Qed.

Lemma writes_bytes s : writes bsatn_bytes (λ W _, serialize_bytes) s.
Proof.
  unfold writes, bsatn_bytes, len_prefixed. simpl.
  destruct (Z.leb_spec (Z.of_nat (length s)) u32_MAX); intros.
  - unfold serialize_bytes. by rewrite put_len_ok, put_slice_app.
  - unfold serialize_bytes, put_len. by rewrite (proj2 (Z.leb_gt _ _)).
Qed.

Lemma writes_list {A} g (f : ∀ W, BufWriter W → W → A → result BsatnError W) l :
  Forall (writes g f) l → writes (bsatn_list g) (λ W _, serialize_elements (f W _)) l.
Proof.
  unfold writes at 2.
  induction 1 as [|x l Hx Hl IH]; simpl.
  - intros. by rewrite put_slice_nil.
  - unfold writes in Hx. destruct (g x) as [a|]; simpl.
    2:{ intros. by apply is_ok_rbind_false_l. }
    destruct (bsatn_list g l) as [b|]; simpl; intros.
    + rewrite (Hx W HW HL), put_slice_app.
      destruct (put_slice w a); simpl; by rewrite ?(IH W HW HL).
    + apply is_ok_rbind_false; intros. by apply IH.
Qed.

Lemma writes_array {A} g (f : ∀ W, BufWriter W → W → A → result BsatnError W) l :
  Forall (writes g f) l → writes (bsatn_array g) (λ W _, serialize_array (f W _)) l.
Proof.
  intros Hl. apply writes_list in Hl. unfold writes, bsatn_array, len_prefixed in *.
  destruct (bsatn_list g l) as [b|]; simpl.
  - destruct (Z.leb_spec (Z.of_nat (length l)) u32_MAX); intros; unfold serialize_array.
    + rewrite put_len_ok, put_slice_app by done.
      destruct (put_slice w _); simpl; by rewrite ?(Hl W HW HL).
    + unfold put_len. by rewrite (proj2 (Z.leb_gt _ _)).
  - intros. by apply is_ok_rbind_false.
Qed.

Lemma bsatn_u8_array l :
  bsatn_array (bsatn_int U8) l = bsatn_bytes (map byte_of_Z l).
Proof.
  unfold bsatn_array, bsatn_bytes. rewrite length_map. f_equal.
  induction l as [|z l IH]; [done|]. simpl in *. rewrite IH, le_bytes_1. done.
Qed.

Lemma writes_value v : writes bsatn (λ W _, serialize) v.
Proof.
  apply (AlgebraicValue_mut _ (writes bsatn_sum (λ W _, serialize_sum))
    (writes bsatn_product (λ W _, serialize_product))
    (writes bsatn_array_value (λ W _, serialize_array_value)));
    try (by intros; apply writes_array, Forall_true; intros;
            auto using writes_bool, writes_int, writes_float, writes_bytes).
  - done.
  - done.
  - done.
  - done.
  - done.
  - apply writes_bool.
  - apply writes_int.
  - apply writes_float.
  - apply writes_bytes.
  - intros tag v' IH. unfold writes in *. simpl.
    destruct (bsatn v') as [b|]; simpl; intros.
    + change (byte_of_Z tag :: b) with ([byte_of_Z tag] ++ b). rewrite <-le_bytes_1.
      rewrite put_slice_app. unfold put_u8, put_uint.
      destruct (put_slice w _); simpl; by rewrite ?(IH W HW HL).
    + by apply is_ok_rbind_false.
  - apply writes_list.
  - apply writes_array.
  - apply writes_array.
  - intros k l.
    destruct (decide (k = U8)) as [->|Hk].
    + unfold writes. simpl bsatn_array_value. rewrite bsatn_u8_array.
      apply writes_bytes.
    + pose proof (writes_array (bsatn_int k) (λ W _, serialize_int k) l) as Hw.
      ospecialize (Hw _); [apply Forall_true, writes_int|].
      by destruct k.
  - apply writes_array.
Qed.

(** ** Decoding a slice: primitives *)

(** [f] reads [x] off the front of any input that starts with [bs]. *)
Definition reads {A} (f : list byte → result DecodeError (A * list byte))
    (x : A) (bs : list byte) : Prop :=
  ∀ rest, f (bs ++ rest) = Ok (x, rest).

(** What [f] accepts satisfies [P] and was encoded by [g]. *)
Definition accepts {A} (P : A → Prop) (g : A → option (list byte))
    (f : list byte → result DecodeError (A * list byte)) : Prop :=
  ∀ b x rest, f b = Ok (x, rest) → P x ∧ ∃ bs, g x = Some bs ∧ b = bs ++ rest.

Lemma get_int_app name nb (bs rest : list byte) :
  length bs = nb → get_int name nb (bs ++ rest) = Ok (bs, rest).
Proof.
  intros <-. unfold get_int. simpl.
  rewrite (proj2 (Z.ltb_ge _ _)) by (rewrite length_app; lia). simpl.
  by rewrite Nat2Z.id, take_app_length, drop_app_length.
Qed.

Lemma get_slice_app (bs rest : list byte) n :
  Z.of_nat (length bs) = n → get_slice (bs ++ rest) n = Ok (bs, rest).
Proof.
  intros <-. unfold get_slice. simpl.
  rewrite (proj2 (Z.ltb_ge _ _)) by (rewrite length_app; lia). simpl.
  by rewrite Nat2Z.id, take_app_length, drop_app_length.
Qed.

Lemma get_int_inv name nb (b arr rest : list byte) :
  get_int name nb b = Ok (arr, rest) → b = arr ++ rest ∧ length arr = nb.
Proof.
  unfold get_int. simpl.
  destruct (Z.ltb_spec (Z.of_nat (length b)) (Z.of_nat nb)); simpl; [done|].
  rewrite Nat2Z.id. intros [= <- <-]. rewrite take_drop, length_take. split; [done|lia].
Qed.

Lemma get_slice_inv (b s rest : list byte) n :
  0 ≤ n → get_slice b n = Ok (s, rest) → b = s ++ rest ∧ Z.of_nat (length s) = n.
Proof.
  intros Hn. unfold get_slice. simpl.
  destruct (Z.ltb_spec (Z.of_nat (length b)) n); simpl; [done|].
  intros [= <- <-]. rewrite take_drop, length_take. split; [done|lia].
Qed.

Lemma reads_uint name nb z :
  in_u (8 * Z.of_nat nb) z → reads (get_uint name nb) z (le_bytes nb z).
Proof.
  intros Hz rest. unfold get_uint.
  rewrite get_int_app by apply length_le_bytes. simpl.
  rewrite le_val_le_bytes. by rewrite Z.mod_small.
Qed.

Lemma accepts_uint name nb :
  accepts (in_u (8 * Z.of_nat nb)) (λ z, Some (le_bytes nb z)) (get_uint name nb).
Proof.
  intros b z rest Hz. unfold get_uint in Hz. inv_ok. destruct a as [arr r].
  inv_ok. simplify_eq. apply get_int_inv in Hok as [-> <-].
  split; [apply le_val_range|]. eexists; split; [done|]. by rewrite le_bytes_le_val.
Qed.

Lemma int_size_pos k : (0 < int_size k)%nat.
Proof. destruct k; simpl; lia. Qed.

Lemma reads_int k z :
  int_range k z → reads (deserialize_int k) z (le_bytes (int_size k) z).
Proof.
  unfold int_range, deserialize_int. pose proof (int_size_pos k).
  destruct (int_signed k); [|apply reads_uint].
  intros Hz rest. unfold get_sint.
  rewrite get_int_app by apply length_le_bytes. simpl.
  rewrite le_val_le_bytes. by rewrite wrap_s_of_mod by (unfold int_bits in *; done || lia).
Qed.

Lemma accepts_int k : accepts (int_range k) (bsatn_int k) (deserialize_int k).
Proof.
  unfold int_range, deserialize_int. pose proof (int_size_pos k).
  destruct (int_signed k); [|apply accepts_uint].
  intros b z rest Hz. unfold get_sint in Hz. inv_ok. destruct a as [arr r].
  inv_ok. simplify_eq. apply get_int_inv in Hok as [-> Hlen].
  split; [apply wrap_s_range; lia|].
  eexists; split; [done|]. f_equal. rewrite <-le_bytes_mod, <-Hlen.
  rewrite mod_of_wrap_s by (try apply le_val_range; lia). by rewrite le_bytes_le_val.
Qed.

Lemma reads_float k z : float_range k z → reads (deserialize_float k) z (le_bytes (float_size k) z).
Proof. apply reads_uint. Qed.

Lemma accepts_float k : accepts (float_range k) (bsatn_float k) (deserialize_float k).
Proof. apply accepts_uint. Qed.

Lemma reads_len n : Z.of_nat n ≤ u32_MAX →
  reads deserialize_len (Z.of_nat n) (le_bytes 4 (Z.of_nat n)).
Proof. intros. apply reads_uint. unfold in_u, u32_MAX in *. lia. Qed.

Lemma accepts_len :
  accepts (λ z, 0 ≤ z ≤ u32_MAX) (λ z, Some (le_bytes 4 z)) deserialize_len.
Proof.
  intros b z rest Hz. apply accepts_uint in Hz as [Hz ?]. split; [|done].
  unfold in_u, u32_MAX in *. lia.
Qed.

Lemma reads_bool b : reads deserialize_bool b [if b then x01 else x00].
Proof.
  intros rest. unfold deserialize_bool, get_u8, get_uint.
  rewrite get_int_app by done. simpl. rewrite le_val_1. by destruct b.
Qed.

Lemma accepts_bool : accepts (λ _, True) bsatn_bool deserialize_bool.
Proof.
  intros b x rest Hx. unfold deserialize_bool in Hx. inv_ok. destruct a as [z r].
  apply accepts_uint in Hok as (_ & bs & [= <-] & ->). split; [done|].
  rewrite le_bytes_1.
  destruct (Z.eqb_spec z 0) as [->|]; [by simplify_eq; eauto|].
  destruct (Z.eqb_spec z 1) as [->|]; [by simplify_eq; eauto|done].
Qed.

Lemma reads_bytes s : fits_u32 s →
  reads deserialize_bytes_inner s (le_bytes 4 (Z.of_nat (length s)) ++ s).
Proof.
  intros Hs rest. unfold deserialize_bytes_inner.
  rewrite <-app_assoc, reads_len by done. simpl. by apply get_slice_app.
Qed.

Lemma bsatn_bytes_fits s : fits_u32 s →
  bsatn_bytes s = Some (le_bytes 4 (Z.of_nat (length s)) ++ s).
Proof.
  intros. unfold bsatn_bytes, len_prefixed. simpl. by rewrite (proj2 (Z.leb_le _ _)).
Qed.

Lemma accepts_bytes : accepts fits_u32 bsatn_bytes deserialize_bytes_inner.
Proof.
  intros b s rest Hs. unfold deserialize_bytes_inner in Hs. inv_ok. destruct a as [n r].
  apply accepts_len in Hok as (Hn & bs & [= <-] & ->).
  apply get_slice_inv in Hs as [-> <-]; [|lia].
  split; [unfold fits_u32; lia|]. rewrite bsatn_bytes_fits by (unfold fits_u32; lia).
  eexists; split; [done|]. by rewrite app_assoc.
Qed.

Lemma reads_str s : string_ok s →
  reads deserialize_str s (le_bytes 4 (Z.of_nat (length s)) ++ s).
Proof.
  intros [Hu Hs] rest. unfold deserialize_str. rewrite reads_bytes by done. simpl.
  by rewrite Hu.
Qed.

Lemma accepts_str : accepts string_ok bsatn_bytes deserialize_str.
Proof.
  intros b s rest Hs. unfold deserialize_str in Hs. inv_ok. destruct a as [s' r].
  inv_ok. simplify_eq. apply accepts_bytes in Hok as [? ?]. by repeat split.
Qed.

(** ** What is accepted was encoded *)

Lemma accepts_rmapfst {A B} (P : A → Prop) g f (c : A → B) (Q : B → Prop) g' :
  accepts P g f → (∀ x, P x → Q (c x)) → (∀ x, P x → g' (c x) = g x) →
  accepts Q g' (λ b, rmapfst c (f b)).
Proof.
  intros Hf HQ Hg b y rest Hy. unfold rmapfst in Hy. inv_ok. destruct a as [x r].
  simpl in *. simplify_eq. apply Hf in Hok as (Hx & bs & Hbs & ->).
  split; [auto|]. exists bs. by rewrite Hg.
Qed.

Lemma accepts_array_visit {A} (P : A → Prop) g f n b l rest :
  accepts P g f → array_visit f n b = Ok (l, rest) →
  length l = n ∧ all_list P l ∧ ∃ bs, bsatn_list g l = Some bs ∧ b = bs ++ rest.
Proof.
  intros Hf. revert b l. induction n as [|n IH]; intros b l Hl; simpl in Hl.
  - simplify_eq. split_and!; [done..|]. by exists [].
  - inv_ok. destruct a as [x r]. inv_ok. destruct a as [l' r']. simplify_eq.
    apply Hf in Hok as (Hx & bs & Hbs & ->).
    apply IH in Hok0 as (<- & Hl & bs' & Hbs' & ->). simpl.
    rewrite Hbs, Hbs'. split_and!; [done..|]. eexists; split; [done|].
    by rewrite app_assoc.
Qed.

Lemma accepts_array_seed {A} (P : A → Prop) g f :
  accepts P g f →
  accepts (λ l, fits_u32 l ∧ all_list P l) (bsatn_array g) (deserialize_array_seed f).
Proof.
  intros Hf b l rest Hl. unfold deserialize_array_seed in Hl. inv_ok. destruct a as [n r].
  apply accepts_len in Hok as (Hn & bs & [= <-] & ->).
  apply (accepts_array_visit P g) in Hl as (Hlen & Hl & bs & Hbs & ->); [|done].
  unfold fits_u32. split; [split; [lia|done]|].
  unfold bsatn_array, len_prefixed. rewrite Hbs. simpl.
  rewrite (proj2 (Z.leb_le _ _)) by lia. eexists; split; [done|].
  rewrite Hlen, Z2Nat.id by lia. by rewrite app_assoc.
Qed.

Lemma accepts_sum ts vs f :
  (∀ ty, accepts (typed ts ty) bsatn (f ty)) →
  accepts (typed_sum ts vs) bsatn_sum (visit_sum f vs).
Proof.
  intros Hf b s rest Hs. unfold visit_sum in Hs. inv_ok. destruct a as [tag r].
  apply accepts_uint in Hok as (Htag & bs & [= <-] & ->).
  destruct (vs !! Z.to_nat tag) as [var|] eqn:Hvar; [|done].
  inv_ok. destruct a as [v r']. simplify_eq.
  apply Hf in Hok as (Hv & bs & Hbs & ->). simpl. split; [by eauto|].
  rewrite Hbs, le_bytes_1. by eexists.
Qed.

Lemma accepts_elements ts f es b l rest :
  (∀ ty, accepts (typed ts ty) bsatn (f ty)) →
  visit_elements f es b = Ok (l, rest) →
  all_list2 (λ v e, typed ts (el_type e) v) es l ∧
  ∃ bs, bsatn_list bsatn l = Some bs ∧ b = bs ++ rest.
Proof.
  intros Hf. revert b l. induction es as [|e es IH]; intros b l Hl; simpl in Hl.
  - simplify_eq. split; [done|]. by exists [].
  - inv_ok. destruct a as [v r]. inv_ok. destruct a as [l' r']. simplify_eq.
    apply Hf in Hok as (Hv & bs & Hbs & ->).
    apply IH in Hok0 as (Hl & bs' & Hbs' & ->).
    split; [done|]. cbn [bsatn_list]. fold (bsatn_list bsatn).
    rewrite Hbs. cbn [mbind option_bind]. setoid_rewrite Hbs'.
    eexists; split; [done|]. by rewrite app_assoc.
Qed.

Lemma accepts_product ts es f :
  (∀ ty, accepts (typed ts ty) bsatn (f ty)) →
  accepts (typed_product ts es) bsatn_product (visit_seq_product f es).
Proof.
  intros Hf b p rest Hp. unfold visit_seq_product in Hp. inv_ok. destruct a as [l r].
  simplify_eq. by apply (accepts_elements ts f).
Qed.

Definition inhabits (ts : Typespace) (v : AlgebraicValue) (ty' : AlgebraicType) : Prop :=
  match v, ty' with
  | VSum s, TSum vs => typed_sum ts vs s
  | VProduct p, TProduct es => typed_product ts es p
  | VArray a, TArray t => typed_array ts t a
  | VBool _, TBool => True
  | VInt k z, TInt k' => k = k' ∧ int_range k z
  | VFloat k z, TFloat k' => k = k' ∧ float_range k z
  | VString s, TString => string_ok s
  | _, _ => False
  end.

Definition inhabits_array (ts : Typespace) (a : ArrayValue) (t' : AlgebraicType) : Prop :=
  match a, t' with
  | ASum l, TSum vs => fits_u32 l ∧ all_list (typed_sum ts vs) l
  | AProduct l, TProduct es => fits_u32 l ∧ all_list (typed_product ts es) l
  | ABool l, TBool => fits_u32 l
  | AInt k l, TInt k' => k = k' ∧ fits_u32 l ∧ all_list (int_range k) l
  | AFloat k l, TFloat k' => k = k' ∧ fits_u32 l ∧ all_list (float_range k) l
  | AString l, TString => fits_u32 l ∧ all_list string_ok l
  | AArray l, TArray t => fits_u32 l ∧ all_list (typed_array ts t) l
  | _, _ => False
  end.

Lemma typed_unfold ts ty v :
  typed ts ty v ↔ ∃ ty', resolves ts ty ty' ∧ inhabits ts v ty'.
Proof. by destruct v. Qed.

Lemma typed_array_unfold ts t a :
  typed_array ts t a ↔ ∃ t', resolves ts t t' ∧ inhabits_array ts a t'.
Proof. by destruct a. Qed.

Lemma typed_here ts ty v :
  (∀ r, ty ≠ TRef r) → inhabits ts v ty → typed ts ty v.
Proof. intros. apply typed_unfold. eauto using resolves_here. Qed.

Lemma typed_array_here ts t a :
  (∀ r, t ≠ TRef r) → inhabits_array ts a t → typed_array ts t a.
Proof. intros. apply typed_array_unfold. eauto using resolves_here. Qed.

Lemma typed_ref ts r ty v :
  ts !! r = Some ty → typed ts ty v → typed ts (TRef r) v.
Proof. rewrite !typed_unfold. intros ? (ty' & ? & ?). eauto using resolves_ref. Qed.

Lemma typed_array_ref ts r ty a :
  ts !! r = Some ty → typed_array ts ty a → typed_array ts (TRef r) a.
Proof. rewrite !typed_array_unfold. intros ? (ty' & ? & ?). eauto using resolves_ref. Qed.

Lemma accepts_u8_array :
  accepts (λ s, fits_u32 s ∧ all_list (int_range U8) (map byte_to_Z s))
    (λ s, bsatn_array (bsatn_int U8) (map byte_to_Z s)) deserialize_bytes_inner.
Proof.
  intros b s rest Hs. apply accepts_bytes in Hs as (Hs & bs & Hbs & ->).
  rewrite bsatn_u8_array, map_map. split; [split; [done|]|].
  - clear. induction s as [|b s IH]; [done|]. split; [|done].
    apply byte_to_Z_range.
  - exists bs. split; [|done]. rewrite <-Hbs. f_equal.
    rewrite <-(map_id s) at 2. apply map_ext, byte_of_to_Z.
Qed.

Lemma accepts_deserialize fuel ts ty :
  accepts (typed ts ty) bsatn (deserialize fuel ts ty) ∧
  accepts (typed_array ts ty) bsatn_array_value (deserialize_array fuel ts ty).
Proof.
  revert ty. induction fuel as [|fuel IH]; intros ty; [done|].
  assert (∀ ty, accepts (typed ts ty) bsatn (deserialize fuel ts ty)) as IHv by apply IH.
  assert (∀ ty, accepts (typed_array ts ty) bsatn_array_value
    (deserialize_array fuel ts ty)) as IHa by apply IH.
  split.
  - destruct ty as [r|vs|es|t| | |k|k]; cbn [deserialize].
    + destruct (ts !! r) as [ty|] eqn:Hr; [|done].
      intros b v rest Hv. apply IHv in Hv as [? ?]. eauto using typed_ref.
    + eapply accepts_rmapfst; [by apply accepts_sum|by intros; apply typed_here|done].
    + eapply accepts_rmapfst; [by apply accepts_product|by intros; apply typed_here|done].
    + eapply accepts_rmapfst; [by apply IHa|by intros; apply typed_here|done].
    + eapply accepts_rmapfst; [by apply accepts_str|by intros; apply typed_here|done].
    + eapply accepts_rmapfst; [by apply accepts_bool|by intros; apply typed_here|done].
    + eapply accepts_rmapfst; [by apply accepts_int|by intros; apply typed_here|done].
    + eapply accepts_rmapfst; [by apply accepts_float|by intros; apply typed_here|done].
  - destruct ty as [r|vs|es|t| | |k|k]; cbn [deserialize_array].
    + destruct (ts !! r) as [ty|] eqn:Hr; [|done].
      intros b v rest Hv. apply IHa in Hv as [? ?]. eauto using typed_array_ref.
    + eapply accepts_rmapfst;
        [by apply accepts_array_seed, accepts_sum|by intros; apply typed_array_here|done].
    + eapply accepts_rmapfst;
        [by apply accepts_array_seed, accepts_product|by intros; apply typed_array_here|done].
    + eapply accepts_rmapfst;
        [by apply accepts_array_seed, IHa|by intros; apply typed_array_here|done].
    + eapply accepts_rmapfst;
        [by apply accepts_array_seed, accepts_str|by intros; apply typed_array_here|done].
    + eapply accepts_rmapfst;
        [by apply accepts_array_seed, accepts_bool
        |by intros ? []; apply typed_array_here|done].
    + destruct (decide (k = U8)) as [->|Hk].
      * eapply accepts_rmapfst; [apply accepts_u8_array| |done].
        intros s [Hs ?]. apply typed_array_here; [done|].
        split_and!; [done| |done]. unfold fits_u32 in *. by rewrite length_map.
      * destruct k; try done;
        (eapply accepts_rmapfst;
          [by apply accepts_array_seed, accepts_int
          |by intros ? []; apply typed_array_here|done]).
    + eapply accepts_rmapfst;
        [by apply accepts_array_seed, accepts_float
        |by intros ? []; apply typed_array_here|done].
Qed.

(** ** What is encoded is read back *)

(** With enough fuel [F] reads [x] off the front of its encoding by [g]. *)
Definition ev_reads {A} (F : nat → list byte → result DecodeError (A * list byte))
    (g : A → option (list byte)) (x : A) : Prop :=
  ∃ bs, g x = Some bs ∧ ∃ n, ∀ m, (n ≤ m)%nat → reads (F m) x bs.

Lemma ev_const {A} (f : list byte → result DecodeError (A * list byte)) g x bs :
  g x = Some bs → reads f x bs → ev_reads (λ _, f) g x.
Proof. intros. exists bs. split; [done|]. by exists O. Qed.

Lemma ev_S {A} (F G : nat → list byte → result DecodeError (A * list byte)) g x :
  (∀ m b, F (S m) b = G m b) → ev_reads G g x → ev_reads F g x.
Proof.
  intros HFG (bs & Hbs & n & Hn). exists bs. split; [done|]. exists (S n).
  intros [|m] Hm rest; [lia|]. rewrite HFG. apply Hn. lia.
Qed.

Lemma ev_rmapfst {A B} F g (x : A) (c : A → B) g' :
  ev_reads F g x → g' (c x) = g x → ev_reads (λ m b, rmapfst c (F m b)) g' (c x).
Proof.
  intros (bs & Hbs & n & Hn) Hg. exists bs. split; [congruence|]. exists n.
  intros m Hm rest. unfold rmapfst, rmap. by rewrite Hn.
Qed.

Lemma ev_list {A} (F : nat → list byte → result DecodeError (A * list byte)) g l :
  Forall (ev_reads F g) l →
  ∃ bs, bsatn_list g l = Some bs ∧
    ∃ n, ∀ m, (n ≤ m)%nat → reads (array_visit (F m) (length l)) l bs.
Proof.
  induction 1 as [|x l (a & Ha & n & Hn) _ (b & Hb & n' & Hn')].
  - exists []. split; [done|]. by exists O.
  - exists (a ++ b). cbn [bsatn_list]. fold (bsatn_list g). rewrite Ha.
    cbn [mbind option_bind]. setoid_rewrite Hb. split; [done|]. exists (n `max` n')%nat.
    intros m Hm rest. simpl. rewrite <-app_assoc, Hn by lia. simpl.
    by rewrite Hn' by lia.
Qed.

Lemma ev_array {A} (F : nat → list byte → result DecodeError (A * list byte)) g l :
  fits_u32 l → Forall (ev_reads F g) l →
  ev_reads (λ m, deserialize_array_seed (F m)) (bsatn_array g) l.
Proof.
  intros Hl Hf. apply ev_list in Hf as (bs & Hbs & n & Hn).
  exists (le_bytes 4 (Z.of_nat (length l)) ++ bs). split.
  - unfold bsatn_array, len_prefixed. rewrite Hbs. simpl.
    by rewrite (proj2 (Z.leb_le _ _)).
  - exists n. intros m Hm rest. unfold deserialize_array_seed.
    rewrite <-app_assoc, reads_len by done. simpl. rewrite Nat2Z.id. by apply Hn.
Qed.

Lemma all_list_Forall {A} (P : A → Prop) l : all_list P l ↔ Forall P l.
Proof.
  induction l as [|x l IH]; simpl; [by split|].
  by rewrite IH, Forall_cons.
Qed.

Lemma ev_array_all {A} (P : A → Prop) F g l :
  fits_u32 l → all_list P l → (∀ x, P x → ev_reads F g x) →
  ev_reads (λ m, deserialize_array_seed (F m)) (bsatn_array g) l.
Proof.
  intros Hl HP Hf. apply ev_array; [done|]. apply all_list_Forall in HP.
  eapply Forall_impl; eauto.
Qed.

Lemma ev_array_ind {A} (P Q : A → Prop) F g l :
  fits_u32 l → all_list P l → Forall Q l → (∀ x, Q x → P x → ev_reads F g x) →
  ev_reads (λ m, deserialize_array_seed (F m)) (bsatn_array g) l.
Proof.
  intros Hl HP HQ Hf. apply ev_array; [done|]. apply all_list_Forall in HP.
  apply Forall_forall. intros x Hx. apply Hf.
  - by eapply Forall_forall in HQ.
  - by eapply Forall_forall in HP.
Qed.

Lemma ev_resolve ts ty ty' v :
  resolves ts ty ty' → ev_reads (λ m, deserialize m ts ty') bsatn v →
  ev_reads (λ m, deserialize m ts ty) bsatn v.
Proof.
  induction 1 as [|r t t' Hr _ IH]; [done|]. intros Hv. eapply ev_S; [|by apply IH].
  intros m b. simpl. by rewrite Hr.
Qed.

Lemma ev_resolve_array ts ty ty' a :
  resolves ts ty ty' → ev_reads (λ m, deserialize_array m ts ty') bsatn_array_value a →
  ev_reads (λ m, deserialize_array m ts ty) bsatn_array_value a.
Proof.
  induction 1 as [|r t t' Hr _ IH]; [done|]. intros Hv. eapply ev_S; [|by apply IH].
  intros m b. simpl. by rewrite Hr.
Qed.

Lemma ev_sum ts vs tag v :
  (∀ ty, typed ts ty v → ev_reads (λ m, deserialize m ts ty) bsatn v) →
  typed_sum ts vs (MkSumValue tag v) →
  ev_reads (λ m, visit_sum (deserialize m ts) vs) bsatn_sum (MkSumValue tag v).
Proof.
  intros IH (Htag & var & Hvar & Hv). apply IH in Hv as (bs & Hbs & n & Hn).
  exists (byte_of_Z tag :: bs). simpl. rewrite Hbs. split; [done|]. exists n.
  intros m Hm rest. unfold visit_sum, get_u8.
  change ((byte_of_Z tag :: bs) ++ rest) with ([byte_of_Z tag] ++ bs ++ rest).
  rewrite <-le_bytes_1, reads_uint by done. simpl. rewrite Hvar, Hn by done. done.
Qed.

Lemma ev_product ts es l :
  Forall (λ v, ∀ ts ty, typed ts ty v → ev_reads (λ m, deserialize m ts ty) bsatn v) l →
  typed_product ts es (MkProductValue l) →
  ev_reads (λ m, visit_seq_product (deserialize m ts) es) bsatn_product (MkProductValue l).
Proof.
  intros IH Hl. simpl in Hl.
  assert (∃ bs, bsatn_list bsatn l = Some bs ∧
    ∃ n, ∀ m, (n ≤ m)%nat → reads (visit_elements (deserialize m ts) es) l bs)
    as (bs & Hbs & n & Hn).
  - revert es Hl. induction IH as [|v l Hv _ IH]; intros [|e es] Hl; try done.
    + exists []. split; [done|]. by exists O.
    + destruct Hl as [Hvt Hl]. apply Hv in Hvt as (a & Ha & n & Hn).
      apply IH in Hl as (b & Hb & n' & Hn').
      exists (a ++ b). cbn [bsatn_list]. fold (bsatn_list bsatn). rewrite Ha.
      cbn [mbind option_bind]. setoid_rewrite Hb. split; [done|].
      exists (n `max` n')%nat. intros m Hm rest. simpl.
      rewrite <-app_assoc, Hn by lia. simpl. by rewrite Hn' by lia.
  - exists bs. split; [done|]. exists n. intros m Hm rest.
    unfold visit_seq_product. by rewrite Hn.
Qed.

Lemma ev_leaf {A B} (F : nat → list byte → result DecodeError (B * list byte))
    (f : list byte → result DecodeError (A * list byte)) (c : A → B) g g' x bs :
  (∀ m b, F (S m) b = rmapfst c (f b)) → g x = Some bs → reads f x bs →
  g' (c x) = g x → ev_reads F g' (c x).
Proof.
  intros HF Hg Hf Hc. eapply ev_S; [apply HF|].
  apply (ev_rmapfst (λ _, f) g); [by eapply ev_const|done].
Qed.

Lemma map_byte_to_of_Z l :
  all_list (int_range U8) l → map byte_to_Z (map byte_of_Z l) = l.
Proof.
  induction l as [|z l IH]; [done|]. intros [Hz Hl]. simpl. rewrite IH by done.
  rewrite byte_to_of_Z, Z.mod_small by apply Hz. done.
Qed.

Lemma ev_int_array ts k l :
  fits_u32 l → all_list (int_range k) l →
  ev_reads (λ m, deserialize_array m ts (TInt k)) bsatn_array_value (AInt k l).
Proof.
  intros Hf Hl. destruct (decide (k = U8)) as [->|Hk].
  - assert (fits_u32 (map byte_of_Z l)) by (unfold fits_u32; by rewrite length_map).
    rewrite <-(map_byte_to_of_Z l) by done.
    eapply (ev_leaf _ deserialize_bytes_inner (λ s, AInt U8 (map byte_to_Z s)) bsatn_bytes);
      [done|by apply bsatn_bytes_fits|by apply reads_bytes|].
    cbn [bsatn_array_value]. rewrite bsatn_u8_array. by rewrite map_byte_to_of_Z.
  - eapply (ev_S _ (λ _ b, rmapfst (AInt k) (deserialize_array_seed (deserialize_int k) b))).
    { by destruct k. }
    eapply (ev_rmapfst (λ _, deserialize_array_seed (deserialize_int k))
      (bsatn_array (bsatn_int k))); [|done].
    eapply (ev_array_all _ (λ _, deserialize_int k)); [eassumption..|].
    intros z Hz. eapply ev_const; [done|by apply reads_int].
Qed.

Lemma ev_value v ts ty : typed ts ty v → ev_reads (λ m, deserialize m ts ty) bsatn v.
Proof.
  revert ts ty.
  apply (AlgebraicValue_mut
    (λ v, ∀ ts ty, typed ts ty v → ev_reads (λ m, deserialize m ts ty) bsatn v)
    (λ s, ∀ ts vs, typed_sum ts vs s →
       ev_reads (λ m, visit_sum (deserialize m ts) vs) bsatn_sum s)
    (λ p, ∀ ts es, typed_product ts es p →
       ev_reads (λ m, visit_seq_product (deserialize m ts) es) bsatn_product p)
    (λ a, ∀ ts t, typed_array ts t a →
       ev_reads (λ m, deserialize_array m ts t) bsatn_array_value a));
    try (by intros; eapply ev_sum; eauto); try (by intros; eapply ev_product; eauto);
    intros;
    first [ match goal with H : typed _ _ _ |- _ =>
              apply typed_unfold in H as (ty' & Hr & Hv) end;
            eapply ev_resolve; [done|]; destruct ty'; try done; simpl in Hv
          | match goal with H : typed_array _ _ _ |- _ =>
              apply typed_array_unfold in H as (ty' & Hr & Hv) end;
            eapply ev_resolve_array; [done|]; destruct ty'; try done; simpl in Hv ].
  - eapply ev_S; [done|]. by eapply ev_rmapfst; [eauto|].
  - eapply ev_S; [done|]. by eapply ev_rmapfst; [eauto|].
  - eapply ev_S; [done|]. by eapply ev_rmapfst; [eauto|].
  - by eapply (ev_leaf _ deserialize_bool VBool bsatn_bool); [| |apply reads_bool|].
  - destruct Hv as [<- Hv].
    by eapply (ev_leaf _ (deserialize_int k) (VInt k) (bsatn_int k)); [| |by apply reads_int|].
  - destruct Hv as [<- Hv].
    by eapply (ev_leaf _ (deserialize_float k) (VFloat k) (bsatn_float k));
      [| |by apply reads_float|].
  - eapply (ev_leaf _ deserialize_str VString bsatn_bytes); [done| |by apply reads_str|done].
    by apply bsatn_bytes_fits, Hv.
  - destruct Hv as [Hf Hl]. eapply ev_S; [done|]. eapply ev_rmapfst; [|done].
    eapply ev_array_ind; [eassumption..|]. by auto.
  - destruct Hv as [Hf Hl]. eapply ev_S; [done|]. eapply ev_rmapfst; [|done].
    eapply ev_array_ind; [eassumption..|]. by auto.
  - eapply ev_S; [done|]. eapply ev_rmapfst; [|done].
    apply (ev_array_all (λ _, True) (λ _, deserialize_bool)); [done| |].
    + by apply all_list_Forall, Forall_true.
    + intros b _. eapply ev_const; [done|apply reads_bool].
  - destruct Hv as (<- & Hf & Hl). by apply ev_int_array.
  - destruct Hv as (<- & Hf & Hl). eapply ev_S; [done|]. eapply ev_rmapfst; [|done].
    eapply (ev_array_all _ (λ _, deserialize_float k)); [eassumption..|].
    intros z Hz. eapply ev_const; [done|by apply reads_float].
  - destruct Hv as (Hf & Hl). eapply ev_S; [done|]. eapply ev_rmapfst; [|done].
    eapply (ev_array_all _ (λ _, deserialize_str)); [eassumption..|].
    intros z Hz. eapply ev_const; [by apply bsatn_bytes_fits, Hz|by apply reads_str].
  - destruct Hv as [Hf Hl]. eapply ev_S; [done|]. eapply ev_rmapfst; [|done].
    eapply ev_array_ind; [eassumption..|]. by auto.
Qed.

(** ** More fuel changes nothing *)

Section more_fuel.
Context {R : Type} `{BufReader R}.

Lemma approx_rmapfst {A B} (c : A → B) (m m' : result DecodeError (A * R)) :
  approx m m' → approx (rmapfst c m) (rmapfst c m').
Proof. intros Hm. apply approx_bind; [done|]. intros a. apply approx_refl. Qed.

Lemma approx_array_seed {A} (f f' : R → result DecodeError (A * R)) r :
  (∀ r, approx (f r) (f' r)) → approx (deserialize_array_seed f r) (deserialize_array_seed f' r).
Proof.
  intros Hf. apply approx_bind; [apply approx_refl|]. intros [n r0].
  generalize (Z.to_nat n); intros k. revert r0.
  induction k as [|k IH]; intros r0; [apply approx_refl|]. simpl.
  apply approx_bind; [apply Hf|]. intros [x r1].
  apply approx_bind; [apply IH|]. intros []. apply approx_refl.
Qed.

Lemma approx_sum f f' vs (r : R) :
  (∀ ty r, approx (f ty r) (f' ty r)) → approx (visit_sum f vs r) (visit_sum f' vs r).
Proof.
  intros Hf. apply approx_bind; [apply approx_refl|]. intros [tag r0].
  destruct (vs !! Z.to_nat tag); [|apply approx_refl].
  apply approx_bind; [apply Hf|]. intros []. apply approx_refl.
Qed.

Lemma approx_product f f' es (r : R) :
  (∀ ty r, approx (f ty r) (f' ty r)) →
  approx (visit_seq_product f es r) (visit_seq_product f' es r).
Proof.
  intros Hf. apply approx_bind; [|intros []; apply approx_refl]. revert r.
  induction es as [|e es IH]; intros r; [apply approx_refl|]. simpl.
  apply approx_bind; [apply Hf|]. intros [v r1].
  apply approx_bind; [apply IH|]. intros []. apply approx_refl.
Qed.

Lemma deserialize_more fuel fuel' ts : (fuel ≤ fuel')%nat → ∀ ty (r : R),
  approx (deserialize fuel ts ty r) (deserialize fuel' ts ty r) ∧
  approx (deserialize_array fuel ts ty r) (deserialize_array fuel' ts ty r).
Proof.
  revert fuel'. induction fuel as [|fuel IH]; intros fuel' Hle ty r; [by split; left|].
  destruct fuel' as [|fuel']; [lia|].
  assert (∀ ty r, approx (deserialize fuel ts ty r) (deserialize fuel' ts ty r)) as H1
    by (intros; apply IH; lia).
  assert (∀ ty r, approx (deserialize_array fuel ts ty r) (deserialize_array fuel' ts ty r)) as H2
    by (intros; apply IH; lia).
  split; destruct ty as [i| | | | | |k|k]; cbn [deserialize deserialize_array];
    try apply approx_refl; try (destruct (ts !! i); [auto|apply approx_refl]);
    try (apply approx_rmapfst; auto using approx_sum, approx_product, approx_array_seed).
Qed.
End more_fuel.

(** ** Decoding always returns *)

Lemma returns_rmapfst {A B} (c : A → B) (m : result DecodeError (A * list byte)) :
  returns m → returns (rmapfst c m).
Proof. by destruct m. Qed.

Lemma returns_get_int name nb (b : list byte) : returns (get_int name nb b).
Proof. unfold get_int. simpl. by destruct (_ <? _). Qed.

Lemma returns_get_slice n (b : list byte) : returns (get_slice b n).
Proof. unfold get_slice. simpl. by destruct (_ <? _). Qed.

Lemma returns_uint name nb (b : list byte) : returns (get_uint name nb b).
Proof. apply rbind_returns; [apply returns_get_int|]. by intros [] _. Qed.

Lemma returns_int k (b : list byte) : returns (deserialize_int k b).
Proof.
  unfold deserialize_int. destruct (int_signed k); [|apply returns_uint].
  apply rbind_returns; [apply returns_get_int|]. by intros [] _.
Qed.

Lemma returns_bool (b : list byte) : returns (deserialize_bool b).
Proof.
  apply rbind_returns; [apply returns_uint|]. intros [z r] _.
  destruct (z =? 0); [done|]. by destruct (z =? 1).
Qed.

Lemma returns_bytes (b : list byte) : returns (deserialize_bytes_inner b).
Proof.
  apply rbind_returns; [apply returns_uint|]. intros [z r] _. apply returns_get_slice.
Qed.

Lemma returns_str (b : list byte) : returns (deserialize_str b).
Proof.
  apply rbind_returns; [apply returns_bytes|]. intros [z r] _. by destruct (utf8_valid z).
Qed.

Lemma returns_array_seed {A} (f : list byte → result DecodeError (A * list byte)) b :
  (∀ b, returns (f b)) → returns (deserialize_array_seed f b).
Proof.
  intros Hf. apply rbind_returns; [apply returns_uint|]. intros [n r] _.
  generalize (Z.to_nat n); intros k. revert r.
  induction k as [|k IH]; intros r; [done|]. simpl.
  apply rbind_returns; [apply Hf|]. intros [x r'] _.
  apply rbind_returns; [apply IH|]. by intros [] _.
Qed.

Lemma returns_sum f vs (b : list byte) :
  Forall (λ v, ∀ b : list byte, returns (f (var_type v) b)) vs → returns (visit_sum f vs b).
Proof.
  intros Hf. apply rbind_returns; [apply returns_uint|]. intros [tag r] _.
  destruct (vs !! Z.to_nat tag) as [var|] eqn:Hvar; [|done].
  eapply Forall_lookup_1 in Hf; [|done].
  apply rbind_returns; [apply Hf|]. by intros [] _.
Qed.

Lemma returns_product f es (b : list byte) :
  Forall (λ e, ∀ b : list byte, returns (f (el_type e) b)) es →
  returns (visit_seq_product f es b).
Proof.
  intros Hf. apply rbind_returns; [|by intros [] _]. revert b.
  induction Hf as [|e es He _ IH]; intros b; [done|]. simpl.
  apply rbind_returns; [apply He|]. intros [x r'] _.
  apply rbind_returns; [apply IH|]. by intros [] _.
Qed.

Lemma existsb_false_Forall {A} (p : A → bool) l :
  existsb p l = false ↔ Forall (λ x, p x = false) l.
Proof.
  induction l as [|x l IH]; simpl; [by split|].
  by rewrite orb_false_iff, IH, Forall_cons.
Qed.

Lemma max_list_with_le {A} (f : A → nat) l n :
  (max_list_with f l ≤ n)%nat → Forall (λ x, (f x ≤ n)%nat) l.
Proof. induction l as [|x l IH]; simpl; [done|]. intros. constructor; [lia|]. apply IH. lia. Qed.

Lemma deserialize_returns ts ty fuel :
  contains_refs ty = false → (type_depth ty ≤ fuel)%nat →
  (∀ b : list byte, returns (deserialize fuel ts ty b)) ∧
  (∀ b : list byte, returns (deserialize_array fuel ts ty b)).
Proof.
  revert fuel. induction ty as [r|vs IH|es IH|t IH| | |k|k] using AlgebraicType_nested_ind;
    intros fuel Hr Hd; simpl in Hr; try done; destruct fuel as [|fuel]; simpl in Hd; try lia.
  - assert (Forall (λ v, ∀ b : list byte, returns (deserialize fuel ts (var_type v) b)) vs).
    { apply existsb_false_Forall in Hr. apply le_S_n, max_list_with_le in Hd.
      rewrite !Forall_forall in *. intros v Hv. by apply IH; auto. }
    split; intros b; simpl; apply returns_rmapfst; [by apply returns_sum|].
    apply returns_array_seed; intros. by apply returns_sum.
  - assert (Forall (λ e, ∀ b : list byte, returns (deserialize fuel ts (el_type e) b)) es).
    { apply existsb_false_Forall in Hr. apply le_S_n, max_list_with_le in Hd.
      rewrite !Forall_forall in *. intros v Hv. by apply IH; auto. }
    split; intros b; simpl; apply returns_rmapfst; [by apply returns_product|].
    apply returns_array_seed; intros. by apply returns_product.
  - destruct (IH fuel) as [_ IHa]; [done|lia|].
    split; intros b; simpl; apply returns_rmapfst; [done|]. by apply returns_array_seed.
  - split; intros b; simpl; apply returns_rmapfst;
      auto using returns_array_seed, returns_str.
  - split; intros b; simpl; apply returns_rmapfst;
      auto using returns_array_seed, returns_bool.
  - split; intros b; simpl; [apply returns_rmapfst, returns_int|].
    destruct k; apply returns_rmapfst; auto using returns_array_seed, returns_int, returns_bytes.
  - split; intros b; simpl; apply returns_rmapfst; try apply returns_array_seed; intros;
      apply returns_uint.
Qed.

(** ** Every lawful reader decodes like a slice *)

Section any_reader.
Context {R : Type} `{BufReaderLaws R}.

(** The two reads agree: same value and same rest, same error, same panic. *)
Definition same_read {A} (m : result DecodeError (A * R))
    (m' : result DecodeError (A * list byte)) : Prop :=
  match m, m' with
  | Ok (x, r), Ok (x', b) => x = x' ∧ reader_ok r ∧ contents r = b
  | Err e, Err e' => e = e'
  | Panic, Panic | OutOfFuel, OutOfFuel => True
  | _, _ => False
  end.

Definition simulates {A} (f : R → result DecodeError (A * R))
    (f' : list byte → result DecodeError (A * list byte)) : Prop :=
  ∀ r, reader_ok r → same_read (f r) (f' (contents r)).

Lemma same_read_bind {A B} m m' (k : A * R → result DecodeError (B * R)) k' :
  same_read m m' →
  (∀ x r, reader_ok r → same_read (k (x, r)) (k' (x, contents r))) →
  same_read (rbind m k) (rbind m' k').
Proof.
  intros Hm Hk. destruct m as [[x r]| | |], m' as [[x' b]| | |]; try done.
  destruct Hm as (-> & Hr & <-). by apply Hk.
Qed.

Lemma simulates_int name nb : simulates (get_int name nb) (get_int name nb).
Proof.
  intros r Hr. unfold get_int.
  destruct (Z.ltb_spec (Z.of_nat (length (contents r))) (Z.of_nat nb)).
  - rewrite get_chunk_short by done. simpl. rewrite (proj2 (Z.ltb_lt _ _)) by done. simpl.
    by rewrite remaining_length.
  - destruct (get_chunk_full (E:=DecodeError) r (Z.of_nat nb)) as (r' & -> & ? & ?);
      [done|lia|]. simpl. by rewrite (proj2 (Z.ltb_ge _ _)).
Qed.

Lemma simulates_slice n : 0 ≤ n → simulates (λ r, get_slice r n) (λ b, get_slice b n).
Proof.
  intros Hn r Hr. unfold get_slice.
  destruct (Z.ltb_spec (Z.of_nat (length (contents r))) n).
  - rewrite get_chunk_short by done. simpl. rewrite (proj2 (Z.ltb_lt _ _)) by done. simpl.
    by rewrite remaining_length.
  - destruct (get_chunk_full (E:=DecodeError) r n) as (r' & -> & ? & ?);
      [done|lia|]. simpl. by rewrite (proj2 (Z.ltb_ge _ _)).
Qed.

Lemma simulates_uint name nb : simulates (get_uint name nb) (get_uint name nb).
Proof. intros r Hr. apply same_read_bind; [by apply simulates_int|]. done. Qed.

Lemma simulates_float k : simulates (deserialize_float k) (deserialize_float k).
Proof. apply simulates_uint. Qed.

Lemma simulates_deser_int k : simulates (deserialize_int k) (deserialize_int k).
Proof.
  intros r Hr. unfold deserialize_int. destruct (int_signed k); [|by apply simulates_uint].
  apply same_read_bind; [by apply simulates_int|]. done.
Qed.

Lemma simulates_bool : simulates deserialize_bool deserialize_bool.
Proof.
  intros r Hr. apply same_read_bind; [by apply simulates_uint|]. intros z r' Hr'.
  destruct (z =? 0); [done|]. by destruct (z =? 1).
Qed.

(** The length a reader delivers is not negative. *)
Lemma same_read_len {B} r (k : Z * R → result DecodeError (B * R)) k' :
  reader_ok r →
  (∀ n r, 0 ≤ n → reader_ok r → same_read (k (n, r)) (k' (n, contents r))) →
  same_read (rbind (deserialize_len r) k) (rbind (deserialize_len (contents r)) k').
Proof.
  intros Hr Hk. pose proof (simulates_uint "u32" 4 r Hr) as Hs.
  unfold deserialize_len, get_u32.
  destruct (get_uint "u32" 4 (contents r)) as [[n b]| | |] eqn:Hn;
    destruct (get_uint "u32" 4 r) as [[n' r']| | |]; try done.
  destruct Hs as (-> & Hr' & <-). apply accepts_uint in Hn as [[Hn _] _]. by apply Hk.
Qed.

Lemma simulates_bytes : simulates deserialize_bytes_inner deserialize_bytes_inner.
Proof. intros r Hr. apply same_read_len; [done|]. intros. by apply simulates_slice. Qed.

Lemma simulates_str : simulates deserialize_str deserialize_str.
Proof.
  intros r Hr. apply same_read_bind; [by apply simulates_bytes|]. intros s r' Hr'.
  by destruct (utf8_valid s).
Qed.

Lemma simulates_array_seed {A} (f : R → result DecodeError (A * R)) f' :
  simulates f f' → simulates (deserialize_array_seed f) (deserialize_array_seed f').
Proof.
  intros Hf r Hr. apply same_read_len; [done|]. intros n r' _ Hr'.
  generalize (Z.to_nat n); intros k. revert r' Hr'.
  induction k as [|k IH]; intros r' Hr'; [done|]. simpl.
  apply same_read_bind; [by apply Hf|]. intros x r'' Hr''.
  apply same_read_bind; [by apply IH|]. done.
Qed.

Lemma simulates_rmapfst {A B} (c : A → B) (f : R → result DecodeError (A * R)) f' :
  simulates f f' → simulates (λ r, rmapfst c (f r)) (λ b, rmapfst c (f' b)).
Proof. intros Hf r Hr. apply same_read_bind; [by apply Hf|]. done. Qed.

Lemma simulates_sum f f' vs :
  (∀ ty, simulates (f ty) (f' ty)) → simulates (visit_sum f vs) (visit_sum f' vs).
Proof.
  intros Hf r Hr. apply same_read_bind; [by apply simulates_uint|]. intros tag r' Hr'.
  destruct (vs !! Z.to_nat tag); [|done]. apply same_read_bind; [by apply Hf|]. done.
Qed.

Lemma simulates_product f f' es :
  (∀ ty, simulates (f ty) (f' ty)) →
  simulates (visit_seq_product f es) (visit_seq_product f' es).
Proof.
  intros Hf r Hr. apply same_read_bind; [|done]. revert r Hr.
  induction es as [|e es IH]; intros r Hr; [done|]. simpl.
  apply same_read_bind; [by apply Hf|]. intros x r' Hr'.
  apply same_read_bind; [by apply IH|]. done.
Qed.

Lemma simulates_deserialize fuel ts ty :
  simulates (deserialize fuel ts ty) (deserialize fuel ts ty) ∧
  simulates (deserialize_array fuel ts ty) (deserialize_array fuel ts ty).
Proof.
  revert ty. induction fuel as [|fuel IH]; intros ty; [done|].
  assert (∀ ty, simulates (deserialize fuel ts ty) (deserialize fuel ts ty)) by apply IH.
  assert (∀ ty, simulates (deserialize_array fuel ts ty) (deserialize_array fuel ts ty))
    by apply IH.
  split; destruct ty as [i|vs|es|t| | |k|k]; simpl; try (by destruct (ts !! i); auto);
    try (destruct k);
    apply simulates_rmapfst;
    auto using simulates_sum, simulates_product, simulates_bool, simulates_str,
      simulates_deser_int, simulates_bytes, simulates_array_seed, simulates_float.
Qed.
End any_reader.

(** ** The theorems about the format *)

(** The serializer into a vector is the format. *)
Lemma to_vec_bsatn v bs : to_vec v = Ok bs ↔ bsatn v = Some bs.
Proof.
  pose proof (writes_value v) as Hv. unfold writes in Hv. unfold to_vec, to_writer.
  destruct (bsatn v) as [b|].
  - rewrite (Hv _ _ vec_writer_laws). unfold put_slice, vec_writer. simpl. naive_solver.
  - specialize (Hv (list byte) _ []). split; [|done]. intros Hs. by rewrite Hs in Hv.
Qed.

(** At a type without references the fuel of [decode] is enough. *)
Lemma decode_enough ty v (b rest : list byte) n :
  contains_refs ty = false →
  (∀ m rest, (n ≤ m)%nat → deserialize m [] ty (b ++ rest) = Ok (v, rest)) →
  decode ty (b ++ rest) = Ok (v, rest).
Proof.
  intros Hr Hn. unfold decode.
  pose proof (deserialize_returns [] ty (type_depth ty) Hr (le_n _)) as [Hret _].
  destruct (deserialize_more (R:=list byte) (type_depth ty) (Nat.max n (type_depth ty)) []
    ltac:(lia) ty (b ++ rest))
    as [Hap _].
  rewrite (Hn (Nat.max n (type_depth ty))) in Hap by lia. destruct Hap as [Ho|]; [|done].
  specialize (Hret (b ++ rest)). by rewrite Ho in Hret.
Qed.

(** Values of a type without references have different encodings. *)
Lemma bsatn_inj ty v1 v2 bs :
  contains_refs ty = false → typed [] ty v1 → typed [] ty v2 → bsatn v1 = Some bs → bsatn v2 = Some bs → v1 = v2.
Proof.
  intros Hr (b1 & H1 & n1 & D1)%ev_value (b2 & H2 & n2 & D2)%ev_value E1 E2.
  rewrite E1 in H1. rewrite E2 in H2. injection H1 as <-. injection H2 as <-.
  pose proof (decode_enough ty v1 bs [] n1 Hr) as H1. pose proof (decode_enough ty v2 bs [] n2 Hr) as H2.
  rewrite H1 in H2; [|intros; by apply D1]. specialize (H2 ltac:(intros; by apply D2)). congruence.
Qed.

(** C18. A well-typed value survives serialization: [to_vec] succeeds and, given
    enough fuel, deserializing its output at the value's type in its type
    context gives the value back, whatever bytes follow. *)
Theorem bsatn_roundtrip ts ty v :
  typed ts ty v →
  ∃ bs n, to_vec v = Ok bs ∧
    (∀ m rest, (n ≤ m)%nat → deserialize m ts ty (bs ++ rest) = Ok (v, rest)) ∧
    (ts = [] → contains_refs ty = false → ∀ rest, decode ty (bs ++ rest) = Ok (v, rest)).
Proof.
  intros (bs & Hbs & n & Hn)%ev_value. exists bs, n. split_and!; [by apply to_vec_bsatn| |].
  - intros m rest Hm. by apply Hn.
  - intros -> Hr rest. eapply decode_enough; [done|]. intros m rest' Hm. by apply Hn.
Qed.

(** C32. The encoding is canonical: whatever the deserializer accepts at a type
    is a value of that type, and the bytes it consumed are exactly that value's
    serialization. *)
Theorem bsatn_canonical fuel ts ty b v rest :
  deserialize fuel ts ty b = Ok (v, rest) →
  typed ts ty v ∧ ∃ bs, to_vec v = Ok bs ∧ b = bs ++ rest.
Proof.
  intros Hv. apply accepts_deserialize in Hv as (Ht & bs & Hbs & ->).
  split; [done|]. exists bs. split; [by apply to_vec_bsatn|done].
Qed.

(** [AlgebraicValue::decode] at a type without references is total: on any
    bytes it returns a value or an error, it neither panics nor runs out of
    the fuel [type_depth ty]. *)
Theorem decode_total ty (b : list byte) :
  contains_refs ty = false → returns (decode ty b).
Proof. intros Hr. by apply (deserialize_returns [] ty (type_depth ty)). Qed.

(** Any lawful writer receives exactly the bytes [to_vec] produces; in
    particular [to_len] is the length of [to_vec], and a slice writer panics
    exactly when the bytes do not fit. *)
Theorem to_writer_agrees v bs :
  to_vec v = Ok bs →
  (∀ W (HW : BufWriter W) (HL : BufWriterLaws W) (w : W), to_writer w v = put_slice w bs) ∧
  to_len v = Ok (Z.of_nat (length bs)) ∧
  (∀ room, to_writer {| sw_written := []; sw_room := room |} v =
     if (room <? length bs)%nat then Panic
     else Ok {| sw_written := bs; sw_room := room - length bs |}).
Proof.
  intros Hbs%to_vec_bsatn. pose proof (writes_value v) as Hv. unfold writes in Hv.
  rewrite Hbs in Hv. split_and!.
  - apply Hv.
  - unfold to_len, to_writer. by rewrite (Hv _ _ count_writer_laws).
  - intros room. unfold to_writer. by rewrite (Hv _ _ slice_writer_laws).
Qed.

(** Decoding does not depend on the reader: every lawful reader gives the
    value, the error or the panic that the slice of its remaining bytes gives,
    and is left at the same place; the cursor reader is one of them. *)
Theorem deserialize_any_reader {R} `{BufReaderLaws R} fuel ts ty (r : R) :
  reader_ok r →
  same_read (deserialize fuel ts ty r) (deserialize fuel ts ty (contents r)).
Proof. apply simulates_deserialize. Qed.

(** ** A value to try the theorems on

    A recursive list of [u16] through a reference, an optional string and
    bytes. *)
Module Examples.
Definition list_ty : AlgebraicType :=
  TSum [{| var_name := Some "nil"; var_type := unit_type |};
        {| var_name := Some "cons"; var_type :=
             TProduct [{| el_name := None; el_type := TInt U16 |};
                       {| el_name := None; el_type := TRef 0 |}] |}].

Definition ex_ts : Typespace := [list_ty].

Definition vnil : AlgebraicValue := VSum (MkSumValue 0 (VProduct (MkProductValue []))).
Definition vcons (z : Z) (v : AlgebraicValue) : AlgebraicValue :=
  VSum (MkSumValue 1 (VProduct (MkProductValue [VInt U16 z; v]))).

Definition ex_value : AlgebraicValue := vcons 258 (vcons 7 vnil).
Definition ex_bytes : list byte := [x01; x02; x01; x01; x07; x00; x00].

Lemma list_ty_resolves : resolves ex_ts (TRef 0) list_ty.
Proof. eapply resolves_ref; [done|]. by constructor. Qed.

Lemma typed_vnil : typed ex_ts (TRef 0) vnil.
Proof.
  exists list_ty. split; [apply list_ty_resolves|]. split; [by vm_compute|].
  eexists. split; [done|]. exists unit_type. split; [by constructor|done].
Qed.

Lemma typed_vcons z v : in_u 16 z → typed ex_ts (TRef 0) v → typed ex_ts (TRef 0) (vcons z v).
Proof.
  intros Hz Hv. exists list_ty. split; [apply list_ty_resolves|]. split; [by vm_compute|].
  eexists. split; [done|]. eexists. split; [by constructor|]. simpl. split_and!; [|done|done].
  exists (TInt U16). split; [by constructor|done].
Qed.

Lemma bsatn_roundtrip_witness :
  ∃ bs n, to_vec ex_value = Ok bs ∧
    ∀ m rest, (n ≤ m)%nat → deserialize m ex_ts (TRef 0) (bs ++ rest) = Ok (ex_value, rest).
Proof.
  destruct (bsatn_roundtrip ex_ts (TRef 0) ex_value) as (bs & n & Hbs & Hn & _).
  - apply typed_vcons; [by vm_compute|]. apply typed_vcons; [by vm_compute|]. apply typed_vnil.
  - exists bs, n. exact (conj Hbs Hn).
Defined.

Lemma bsatn_canonical_witness :
  typed ex_ts (TRef 0) ex_value ∧
  ∃ bs, to_vec ex_value = Ok bs ∧ ex_bytes ++ [xff] = bs ++ [xff].
Proof.
  apply (bsatn_canonical 20 ex_ts (TRef 0) (ex_bytes ++ [xff])).
  vm_compute. reflexivity.
Defined.

Lemma decode_total_witness : returns (decode (TArray (TArray TString)) [x02; x00; x00; x00; x01]).
Proof. apply decode_total. reflexivity. Defined.

Lemma to_writer_agrees_witness :
  to_len ex_value = Ok 7 ∧ to_writer {| sw_written := []; sw_room := 6 |} ex_value = Panic.
Proof.
  destruct (to_writer_agrees ex_value ex_bytes) as (_ & Hlen & Hslice);
    [vm_compute; reflexivity|].
  split; [exact Hlen|exact (Hslice 6%nat)].
Defined.

Lemma deserialize_any_reader_witness :
  same_read (deserialize 20 ex_ts (TRef 0) {| buf := xaa :: ex_bytes; pos := 1 |})
    (deserialize 20 ex_ts (TRef 0) (contents {| buf := xaa :: ex_bytes; pos := 1 |})).
Proof. apply deserialize_any_reader. simpl. lia. Defined.
End Examples.
