(* ===== verification/Varint.v ===== *)
(** * Varints and bounded strings (crates/commitlog/src/varint.rs, varchar.rs)

    Base-128 encoding of lengths, and [Varchar<N>], strings of at most [N]
    bytes.  A shift by the width of the type or more is an overflow, which
    panics. *)

From Stdlib Require Import ZArith Lia.
From S2P Require Import Prelude Buffer Sats.
Local Open Scope Z_scope.
Local Open Scope result_scope.

(** ** Varints *)

(** [encode_varint], on a [Vec<u8>]; ten turns do for 64 bits. *)
Fixpoint encode_varint_loop (fuel : nat) (value : Z) (out : list byte) : result unit (list byte) :=
  match fuel with
  | O => OutOfFuel
  | S fuel =>
      if value <? 128 then put_u8 out value
      else let* out := put_u8 out (Z.lor (Z.land value 127) 128) in
           encode_varint_loop fuel (Z.shiftr value 7) out
  end.

Definition encode_varint (value : Z) (out : list byte) : result unit (list byte) :=
  encode_varint_loop 10 value out.

(** [decode_varint].  The eleventh byte would be shifted by 70. *)
Fixpoint decode_varint_loop {R} `{BufReader R} (fuel : nat) (acc shift : Z) (r : R) :
    result DecodeError (Z * R) :=
  match fuel with
  | O => OutOfFuel
  | S fuel =>
      let* '(b, r) := get_u8 r in
      if 64 <=? shift then Panic
      else if Z.land b 128 =? 0 then Ok (Z.lor acc (wrap_u 64 (Z.shiftl b shift)), r)
      else decode_varint_loop fuel
             (Z.lor acc (wrap_u 64 (Z.shiftl (Z.land b 127) shift))) (shift + 7) r
  end.

Definition decode_varint {R} `{BufReader R} (r : R) : result DecodeError (Z * R) :=
  decode_varint_loop 11 0 0 r.

(** The encoding as a function of the value. *)
Fixpoint varint_bytes (fuel : nat) (v : Z) : list byte :=
  match fuel with
  | O => []
  | S fuel =>
      if v <? 128 then [byte_of_Z v]
      else byte_of_Z (Z.lor (Z.land v 127) 128) :: varint_bytes fuel (Z.shiftr v 7)
  end.

Lemma put_u8_vec {E} (w : list byte) z : put_u8 (E:=E) w z = Ok (w ++ [byte_of_Z z]).
Proof. unfold put_u8, put_uint, put_slice, vec_writer. by rewrite le_bytes_1. Qed.

Lemma shiftr_7_bound v k : 0 ≤ v < 2 ^ (7 * Z.of_nat (S k)) → 0 ≤ Z.shiftr v 7 < 2 ^ (7 * Z.of_nat k).
Proof.
  intros [H0 H1]. rewrite Z.shiftr_div_pow2 by lia. split; [apply Z.div_pos; lia|].
  apply Z.div_lt_upper_bound; [lia|]. rewrite <-Z.pow_add_r by lia.
  by replace (7 + 7 * Z.of_nat k) with (7 * Z.of_nat (S k)) by lia.
Qed.

Lemma encode_varint_loop_bytes fuel v w :
  0 ≤ v < 2 ^ (7 * Z.of_nat fuel) → (0 < fuel)%nat →
  encode_varint_loop fuel v w = Ok (w ++ varint_bytes fuel v) ∧
  (1 ≤ length (varint_bytes fuel v) ≤ fuel)%nat.
Proof.
  revert v w. induction fuel as [|fuel IH]; intros v w Hv Hf; [lia|].
  cbn [encode_varint_loop varint_bytes]. destruct (Z.ltb_spec v 128) as [|Hge].
  { rewrite put_u8_vec. split; [done|simpl; lia]. }
  rewrite put_u8_vec. cbn [rbind]. apply shiftr_7_bound in Hv.
  destruct (decide (fuel = O)) as [->|Hf'].
  { exfalso. change (2 ^ (7 * Z.of_nat 0)) with 1 in Hv.
    assert (Z.shiftr v 7 = 0) as Hz by lia. rewrite Z.shiftr_div_pow2 in Hz by lia.
    apply Z.div_small_iff in Hz; lia. }
  destruct (IH (Z.shiftr v 7) (w ++ [byte_of_Z (Z.lor (Z.land v 127) 128)]) Hv) as [-> Hl]; [lia|].
  rewrite <-app_assoc. split; [done|simpl; lia].
Qed.

Lemma encode_varint_vec v w : in_u 64 v →
  encode_varint v w = Ok (w ++ varint_bytes 10 v) ∧ (1 ≤ length (varint_bytes 10 v) ≤ 10)%nat.
Proof.
  intros [? Hv]. apply encode_varint_loop_bytes; [|lia]. split; [lia|].
  eapply Z.lt_trans; [exact Hv|]. by vm_compute.
Qed.

Lemma get_u8_cons (b : byte) (r : list byte) : get_u8 (b :: r) = Ok (byte_to_Z b, r).
Proof.
  unfold get_u8, get_uint, get_int. simpl.
  rewrite (proj2 (Z.ltb_ge _ _)) by (simpl; lia). simpl. by rewrite le_val_1, drop_0.
Qed.

Lemma byte_of_Z_small z : 0 ≤ z < 256 → byte_to_Z (byte_of_Z z) = z.
Proof. intros Hz. rewrite <-le_val_1, <-le_bytes_1, le_val_le_bytes. by apply Z.mod_small. Qed.

(** Seven bits at a time. *)
Lemma lor_low_high v s : 0 ≤ s → Z.lor (v mod 2 ^ s) (Z.shiftl (Z.shiftr v s) s) = v.
Proof.
  intros Hs. apply Z.bits_inj'. intros i Hi. rewrite Z.lor_spec.
  destruct (decide (i < s)).
  - rewrite Z.mod_pow2_bits_low, Z.shiftl_spec_low by lia. by rewrite orb_false_r.
  - rewrite Z.mod_pow2_bits_high, Z.shiftl_spec, Z.shiftr_spec by lia. simpl. f_equal. lia.
Qed.

Lemma lor_low_7 v s : 0 ≤ s →
  Z.lor (v mod 2 ^ s) (Z.shiftl (Z.land (Z.shiftr v s) 127) s) = v mod 2 ^ (s + 7).
Proof.
  intros Hs. apply Z.bits_inj'. intros i Hi. rewrite Z.lor_spec.
  change 127 with (Z.ones 7). destruct (decide (i < s)).
  - rewrite !Z.mod_pow2_bits_low, Z.shiftl_spec_low by lia. by rewrite orb_false_r.
  - rewrite Z.mod_pow2_bits_high, Z.shiftl_spec, Z.land_spec, Z.shiftr_spec by lia. simpl.
    destruct (decide (i < s + 7)).
    + rewrite Z.mod_pow2_bits_low, Z.ones_spec_low by lia. rewrite andb_true_r. f_equal. lia.
    + rewrite Z.mod_pow2_bits_high, Z.ones_spec_high by lia. apply andb_false_r.
Qed.

Lemma lor_128 m : 0 ≤ m < 128 → Z.lor m 128 = m + 128.
Proof.
  intros Hm. rewrite <-(lor_low_high (m + 128) 7) by lia.
  replace ((m + 128) mod 2 ^ 7) with m by (Z.div_mod_to_equations; lia).
  replace (Z.shiftr (m + 128) 7) with 1; [done|].
  rewrite Z.shiftr_div_pow2 by lia. Z.div_mod_to_equations; lia.
Qed.

Lemma land_127 v : Z.land v 127 = v mod 128.
Proof. change 127 with (Z.ones 7). by rewrite Z.land_ones by lia. Qed.

(** The high bit of a byte. *)
Lemma land_128 b : 0 ≤ b < 256 → (Z.land b 128 =? 0) = (b <? 128).
Proof.
  intros Hb.
  assert (Z.testbit b 7 = negb (b <? 128)) as Ht.
  { rewrite Z.testbit_eqb by lia. destruct (Z.ltb_spec b 128); simpl.
    - apply Z.eqb_neq. change (2 ^ 7) with 128. Z.div_mod_to_equations; lia.
    - apply Z.eqb_eq. change (2 ^ 7) with 128. Z.div_mod_to_equations; lia. }
  replace (Z.land b 128) with (if Z.testbit b 7 then 128 else 0).
  { rewrite Ht. by destruct (b <? 128). }
  apply Z.bits_inj'. intros i Hi. rewrite Z.land_spec. change 128 with (2 ^ 7).
  rewrite Z.pow2_bits_eqb by lia. destruct (Z.eqb_spec 7 i) as [<-|Hne].
  - rewrite andb_true_r. by destruct (Z.testbit b 7).
  - rewrite andb_false_r. destruct (Z.testbit b 7); [|apply Z.bits_0].
    by rewrite Z.pow2_bits_eqb, (proj2 (Z.eqb_neq _ _)) by lia.
Qed.

Lemma shiftr_pos_bound v0 s : in_u 64 v0 → 0 ≤ s → 128 ≤ Z.shiftr v0 s → s + 7 < 64.
Proof.
  intros [_ Hv] Hs H. rewrite Z.shiftr_div_pow2 in H by lia.
  destruct (decide (s + 7 < 64)) as [|Hge]; [done|]. exfalso.
  assert (2 ^ 64 ≤ 2 ^ (s + 7)) as Hp by (apply Z.pow_le_mono_r; lia).
  rewrite Z.pow_add_r in Hp by lia. change (2 ^ 7) with 128 in Hp.
  assert (128 * 2 ^ s ≤ v0); [|lia].
  pose proof (Z.mul_div_le v0 (2 ^ s) ltac:(lia)). nia.
Qed.

Lemma shiftl_shiftr_le v0 s z : 0 ≤ v0 → 0 ≤ s → 0 ≤ z ≤ Z.shiftr v0 s → 0 ≤ Z.shiftl z s ≤ v0.
Proof.
  intros Hv Hs Hz. rewrite Z.shiftl_mul_pow2, Z.shiftr_div_pow2 in * by lia.
  pose proof (Z.mul_div_le v0 (2 ^ s) ltac:(lia)). nia.
Qed.

Lemma decode_varint_loop_bytes fuel k j v0 rest :
  in_u 64 v0 → (0 < k)%nat → (j + k = 10)%nat → (k ≤ fuel)%nat →
  decode_varint_loop fuel (v0 mod 2 ^ (7 * Z.of_nat j)) (7 * Z.of_nat j)
    (varint_bytes k (Z.shiftr v0 (7 * Z.of_nat j)) ++ rest) = Ok (v0, rest).
Proof.
  intros Hv. revert j fuel. induction k as [|k IH]; intros j fuel Hk Hjk Hf; [lia|].
  destruct fuel as [|fuel]; [lia|]. cbn [varint_bytes decode_varint_loop].
  set (s := 7 * Z.of_nat j). assert (0 ≤ s ≤ 63) as Hs by lia.
  assert (0 ≤ Z.shiftr v0 s) as Hpos by (apply Z.shiftr_nonneg; apply Hv).
  destruct (Z.ltb_spec (Z.shiftr v0 s) 128) as [Hlt|Hge]; cbn [app];
    rewrite get_u8_cons; cbn [rbind]; rewrite (proj2 (Z.leb_gt 64 s)) by lia.
  - rewrite byte_of_Z_small, land_128, (proj2 (Z.ltb_lt _ _)) by lia.
    destruct (shiftl_shiftr_le v0 s (Z.shiftr v0 s)) as [? ?]; [apply Hv|lia|lia|].
    rewrite wrap_u_id by (unfold in_u in *; lia). by rewrite lor_low_high by lia.
  - pose proof (shiftr_pos_bound v0 s Hv ltac:(lia) Hge) as Hs7.
    rewrite land_127, lor_128 by (apply Z.mod_pos_bound; lia).
    pose proof (Z.mod_pos_bound (Z.shiftr v0 s) 128 ltac:(lia)) as Hm.
    rewrite byte_of_Z_small, land_128, (proj2 (Z.ltb_ge _ _)) by lia.
    rewrite (land_127 (_ + _)).
    replace ((Z.shiftr v0 s mod 128 + 128) mod 128) with (Z.shiftr v0 s mod 128)
      by (Z.div_mod_to_equations; lia).
    destruct (shiftl_shiftr_le v0 s (Z.shiftr v0 s mod 128)) as [? ?];
      [apply Hv|lia|split; [lia|apply Z.mod_le; lia]|].
    rewrite wrap_u_id by (unfold in_u in *; lia).
    rewrite <-land_127, lor_low_7, Z.shiftr_shiftr by lia.
    replace (s + 7) with (7 * Z.of_nat (S j)) by lia. apply IH; lia.
Qed.

Lemma decode_varint_bytes v rest : in_u 64 v →
  decode_varint (varint_bytes 10 v ++ rest) = Ok (v, rest).
Proof.
  intros Hv. pose proof (decode_varint_loop_bytes 11 10 0 v rest Hv) as Hd.
  change (7 * Z.of_nat 0) with 0 in Hd. rewrite Z.shiftr_0_r in Hd.
  replace (v mod 2 ^ 0) with 0 in Hd by (rewrite Z.mod_1_r; done).
  apply Hd; lia.
Qed.

(** Varints round-trip: decoding what [encode_varint] appended gives the value
    back and leaves what follows; at most ten bytes are written. *)
Theorem varint_roundtrip v w rest :
  in_u 64 v →
  ∃ bs, encode_varint v w = Ok (w ++ bs) ∧ (1 ≤ length bs ≤ 10)%nat ∧
    decode_varint (bs ++ rest) = Ok (v, rest).
Proof.
  intros Hv. destruct (encode_varint_vec v w Hv) as [He Hl].
  exists (varint_bytes 10 v). split_and!; [done|lia|lia|by apply decode_varint_bytes].
Qed.

Lemma varint_roundtrip_witness :
  ∃ bs, encode_varint 300 [xaa] = Ok ([xaa] ++ bs) ∧ (1 ≤ length bs ≤ 10)%nat ∧
    decode_varint (bs ++ [xbb]) = Ok (300, [xbb]).
Proof. apply varint_roundtrip. unfold in_u. lia. Defined.

Lemma decode_varint_loop_cont fuel acc shift bs (r : list byte) :
  Forall (λ b, 128 ≤ byte_to_Z b) bs → (length bs ≤ fuel)%nat →
  shift + 7 * Z.of_nat (length bs) ≤ 70 →
  ∃ acc', decode_varint_loop fuel acc shift (bs ++ r) =
    decode_varint_loop (fuel - length bs) acc' (shift + 7 * Z.of_nat (length bs)) r.
Proof.
  intros Hbs. revert fuel acc shift. induction Hbs as [|b bs Hb _ IH]; intros fuel acc shift Hf Hs.
  { exists acc. by rewrite Nat.sub_0_r, Z.add_0_r. }
  destruct fuel as [|fuel]; [simpl in Hf; lia|]. cbn [app decode_varint_loop].
  rewrite get_u8_cons. cbn [rbind length] in *. rewrite (proj2 (Z.leb_gt _ _)) by lia.
  pose proof (byte_to_Z_range b). rewrite land_128, (proj2 (Z.ltb_ge _ _)) by lia.
  edestruct (IH fuel) as [acc' ->]; [lia|lia|]. exists acc'. cbn [Nat.sub]. f_equal. lia.
Qed.

(** [decode_varint] neither rejects nor survives a varint that is too long:
    ten bytes with the high bit set and one more of any value make it panic. *)
Theorem decode_varint_panics bs b rest :
  length bs = 10%nat → Forall (λ b, 128 ≤ byte_to_Z b) bs →
  decode_varint (bs ++ b :: rest) = Panic.
Proof.
  intros Hl Hbs. unfold decode_varint.
  destruct (decode_varint_loop_cont 11 0 0 bs (b :: rest)) as [acc ->]; [done|lia|lia|].
  rewrite Hl. cbn [Nat.sub decode_varint_loop]. by rewrite get_u8_cons.
Qed.

Lemma decode_varint_panics_witness : decode_varint (replicate 10 x80 ++ [x00]) = Panic.
Proof.
  apply (decode_varint_panics (replicate 10 x80) x00 []); [reflexivity|].
  apply Forall_replicate. by vm_compute.
Defined.

(** ** Bounded strings *)

(** A [String] is its UTF-8 bytes; [pop] removes the last character: the
    trailing continuation bytes and the byte before them. *)
Fixpoint drop_char (l : list byte) : list byte :=
  match l with
  | [] => []
  | b :: l => if cont b then drop_char l else l
  end.

Definition pop (s : list byte) : option (list byte) :=
  match s with
  | [] => None
  | _ => Some (reverse (drop_char (reverse s)))
  end.

(** [Varchar::from_str] and [from_string]. *)
Definition from_str (N : nat) (s : list byte) : option (list byte) :=
  if (length s <=? N)%nat then Some s else None.

(** The loop of [from_str_truncate] and [from_string_truncate]. *)
Fixpoint truncate_loop (fuel N : nat) (s : list byte) : result unit (list byte) :=
  match fuel with
  | O => OutOfFuel
  | S fuel =>
      if (N <? length s)%nat then
        match pop s with
        | Some s => truncate_loop fuel N s
        | None => Panic
        end
      else Ok s
  end.

Definition from_str_truncate (N : nat) (s : list byte) : result unit (list byte) :=
  match from_str N s with
  | Some s => Ok s
  | None => truncate_loop (S (length s)) N s
  end.

(** A UTF-8 character: one to four bytes, of which only the first is not a
    continuation byte; it may be prepended to any valid string. *)
Definition is_char (c : list byte) : Prop :=
  ∃ b cs, c = b :: cs ∧ cont b = false ∧ Forall (λ b, cont b = true) cs ∧ (length cs ≤ 3)%nat ∧
    ∀ s, utf8_valid (c ++ s) = utf8_valid s.

Lemma in_range_not_cont lo hi b : in_range lo hi b = true → hi < 128 ∨ 191 < lo → cont b = false.
Proof.
  unfold cont, in_range. intros [H1%Z.leb_le H2%Z.leb_le]%andb_true_iff H.
  apply andb_false_iff. destruct H; [left; apply Z.leb_gt; lia|right; apply Z.leb_gt; lia].
Qed.

Lemma in_range_cont lo hi b : in_range lo hi b = true → 128 ≤ lo → hi ≤ 191 → cont b = true.
Proof.
  unfold cont, in_range. intros [H1%Z.leb_le H2%Z.leb_le]%andb_true_iff H H'.
  apply andb_true_iff. rewrite !Z.leb_le. lia.
Qed.

Lemma utf8_valid_uncons s : utf8_valid s = true → s ≠ [] →
  ∃ c s', s = c ++ s' ∧ is_char c ∧ utf8_valid s' = true.
Proof.
  destruct s as [|b0 s0]; [done|]. intros H _. cbn [utf8_valid] in H.
  destruct (in_range 0 127 b0) eqn:E0.
  { exists [b0], s0. split_and!; [done| |done]. exists b0, []. split_and!; try done.
    - eapply in_range_not_cont; [done|lia].
    - simpl. lia.
    - intros s. simpl. by rewrite E0. }
  destruct (in_range 194 223 b0) eqn:E1.
  { destruct s0 as [|b1 s1]; [done|]. apply andb_true_iff in H as [Hc H].
    exists [b0; b1], s1. split_and!; [done| |done]. exists b0, [b1]. split_and!; try done.
    - eapply in_range_not_cont; [done|lia].
    - by repeat constructor.
    - simpl. lia.
    - intros s. simpl. by rewrite E0, E1, Hc. }
  destruct (in_range 224 239 b0) eqn:E2.
  { destruct s0 as [|b1 [|b2 s2]]; [done..|].
    apply andb_true_iff in H as [[Hb1 Hb2]%andb_true_iff H].
    exists [b0; b1; b2], s2. split_and!; [done| |done]. exists b0, [b1; b2]. split_and!; try done.
    - eapply in_range_not_cont; [done|lia].
    - repeat constructor; [|done]. destruct (in_range 224 224 b0); [|destruct (in_range 237 237 b0)];
        [eapply in_range_cont; [done|lia|lia]..|done].
    - simpl. lia.
    - intros s. simpl. rewrite E0, E1, E2, Hb2. simpl.
      rewrite Hb1. done. }
  destruct (in_range 240 244 b0) eqn:E3; [|done].
  destruct s0 as [|b1 [|b2 [|b3 s3]]]; [done..|].
  apply andb_true_iff in H as [[[Hb1 Hb2]%andb_true_iff Hb3]%andb_true_iff H].
  exists [b0; b1; b2; b3], s3. split_and!; [done| |done]. exists b0, [b1; b2; b3]. split_and!; try done.
  - eapply in_range_not_cont; [done|lia].
  - repeat constructor; [|done|done].
    destruct (in_range 240 240 b0); [|destruct (in_range 244 244 b0)];
      [eapply in_range_cont; [done|lia|lia]..|done].
  - intros s. simpl. rewrite E0, E1, E2, E3, Hb2, Hb3. simpl. rewrite Hb1. done.
Qed.

Lemma utf8_valid_chars s : utf8_valid s = true → ∃ cs, Forall is_char cs ∧ s = concat cs.
Proof.
  remember (length s) as k eqn:Hk. revert s Hk.
  induction (Nat.lt_wf_0 k) as [k _ IH]. intros s Hk Hs. subst k.
  destruct (decide (s = [])) as [->|Hne]; [by exists []|].
  destruct (utf8_valid_uncons s Hs Hne) as (c & s' & -> & Hc & Hs').
  pose proof Hc as (b & cs & -> & _). destruct (IH (length s') ltac:(rewrite length_app; simpl; lia) s' eq_refl Hs')
    as (cs' & Hcs & ->).
  exists ((b :: cs) :: cs'). split; [by constructor|done].
Qed.

Lemma chars_utf8_valid cs : Forall is_char cs → utf8_valid (concat cs) = true.
Proof.
  induction 1 as [|c cs (b & cs' & -> & _ & _ & _ & Hc) _ IH]; [done|].
  cbn [concat]. by rewrite Hc.
Qed.

Lemma drop_char_conts l b s :
  Forall (λ b, cont b = true) l → cont b = false → drop_char (l ++ b :: s) = s.
Proof. induction 1 as [|x l Hx _ IH]; intros Hb; simpl; [by rewrite Hb|]. rewrite Hx. auto. Qed.

Lemma pop_chars cs c : is_char c → pop (concat (cs ++ [c])) = Some (concat cs).
Proof.
  intros (b & l & -> & Hb & Hl & _). rewrite concat_app. simpl. rewrite app_nil_r.
  assert (concat cs ++ b :: l ≠ []) as Hne by (by destruct (concat cs)).
  unfold pop. destruct (concat cs ++ b :: l) eqn:Hs; [done|]. rewrite <-Hs.
  rewrite reverse_app, reverse_cons, <-app_assoc. simpl.
  rewrite drop_char_conts; [by rewrite reverse_involutive| |done].
  by rewrite Forall_reverse.
Qed.

Lemma truncate_loop_chars fuel N cs :
  Forall is_char cs → (length (concat cs) < fuel)%nat →
  ∃ cs1 cs2, cs = cs1 ++ cs2 ∧ truncate_loop fuel N (concat cs) = Ok (concat cs1) ∧
    (length (concat cs1) ≤ N)%nat ∧ (cs2 = [] ∨ (N < length (concat cs1) + 4)%nat).
Proof.
  revert cs. induction fuel as [|fuel IH]; intros cs Hcs Hf; [lia|]. cbn [truncate_loop].
  destruct (Nat.ltb_spec N (length (concat cs))) as [Hlt|Hle].
  2:{ exists cs, []. rewrite app_nil_r. split_and!; [done|done|lia|by left]. }
  destruct cs as [|c cs _] using rev_ind; [simpl in Hlt; lia|].
  apply Forall_app in Hcs as [Hcs Hc]. apply (Forall_singleton is_char) in Hc.
  rewrite pop_chars by done. rewrite concat_app, length_app in *. simpl in *.
  rewrite app_nil_r in *. pose proof Hc as (b & l & -> & _ & _ & Hl & _). simpl in *.
  destruct (IH cs Hcs) as (cs1 & cs2 & -> & -> & HN & Hmax); [lia|].
  exists cs1, (cs2 ++ [b :: l]). rewrite <-app_assoc. split_and!; try done. right.
  destruct Hmax as [->|]; [|done]. rewrite app_nil_r in Hlt. lia.
Qed.

(** Truncating a string to [N] bytes always succeeds and gives a prefix that
    is a valid string of at most [N] bytes, the whole string if it is short
    enough, and never more than three bytes less than [N] otherwise. *)
Theorem varchar_truncate N s :
  utf8_valid s = true →
  ∃ t rest, from_str_truncate N s = Ok t ∧ s = t ++ rest ∧ utf8_valid t = true ∧
    from_str N t = Some t ∧ (rest = [] ∨ (N < length t + 4)%nat) ∧
    ((length s ≤ N)%nat → t = s).
Proof.
  intros Hs. unfold from_str_truncate, from_str at 1.
  destruct (Nat.leb_spec (length s) N) as [Hle|Hgt].
  { exists s, []. rewrite app_nil_r. unfold from_str. rewrite (proj2 (Nat.leb_le _ _)) by done.
    split_and!; auto. }
  destruct (utf8_valid_chars s Hs) as (cs & Hcs & ->).
  destruct (truncate_loop_chars (S (length (concat cs))) N cs Hcs) as
    (cs1 & cs2 & -> & Ht & HN & Hmax); [lia|].
  exists (concat cs1), (concat cs2). rewrite Ht. apply Forall_app in Hcs as [Hcs1 _].
  unfold from_str. rewrite (proj2 (Nat.leb_le _ _)) by done.
  split_and!; [done|by rewrite concat_app|by apply chars_utf8_valid|done| |lia].
  destruct Hmax as [->|]; [by left|by right].
Qed.

(** Two characters of three bytes each, cut to five bytes. *)
Lemma varchar_truncate_witness :
  ∃ t rest, from_str_truncate 5 [xe2; x82; xac; xe2; x82; xac] = Ok t ∧
    [xe2; x82; xac; xe2; x82; xac] = t ++ rest.
Proof.
  destruct (varchar_truncate 5 [xe2; x82; xac; xe2; x82; xac]) as (t & rest & Ht & Hs & _);
    [reflexivity|]. exists t, rest. exact (conj Ht Hs).
Defined.
