(* ===== verification/Crc.v ===== *)
(** * CRC-32C

    The checksum the [crc32c] crate computes (Castagnoli polynomial, reflected,
    initial value and final xor all ones).  The development takes the checksum
    as a parameter; this is the instance its examples are evaluated with. *)

From Stdlib Require Import ZArith Lia.
From S2P Require Import Prelude.
Local Open Scope Z_scope.

Definition crc_poly : Z := 0x82F63B78.

Definition crc_bit (c : Z) : Z :=
  if Z.testbit c 0 then Z.lxor (Z.shiftr c 1) crc_poly else Z.shiftr c 1.

Definition crc_byte (c : Z) (b : byte) : Z := Nat.iter 8 crc_bit (Z.lxor c (Z.of_N (Byte.to_N b))).

Definition crc32c (l : list byte) : Z :=
  wrap_u 32 (Z.lxor (fold_left crc_byte l 0xFFFFFFFF) 0xFFFFFFFF).

Lemma crc32c_range l : in_u 32 (crc32c l).
Proof. unfold crc32c, wrap_u, in_u. apply Z.mod_pos_bound. lia. Qed.

(** The check value of the algorithm: "123456789". *)
Lemma crc32c_check : crc32c [x31; x32; x33; x34; x35; x36; x37; x38; x39] = 0xE3069283.
Proof. vm_compute. reflexivity. Qed.
