(* ===== verification/Commit.v ===== *)
(** * Commits (crates/commitlog/src/commit.rs)

    The entry of the commitlog: its framing (header, records, CRC) and the
    decoder that recovers it, for both versions of the log format.  CRC-32C is
    computed by an external crate; it is the parameter [crc32c].  A reader is
    the list of the bytes still ahead of it. *)

From Stdlib Require Import ZArith Lia.
From S2P Require Import Prelude Buffer.
Local Open Scope Z_scope.
Local Open Scope result_scope.

(** What the inner error of an [InvalidData] error is. *)
Inductive invalid_data :=
| ChecksumMismatch
| InvalidDataMsg (msg : string).

(** [io::Error], by the kinds the log produces or inspects; [OsError] is a
    failure of the storage underneath. *)
Inductive io_error :=
| UnexpectedEof
| InvalidData (inner : invalid_data)
| AlreadyExists
| NotFound
| InvalidInput
| Other
| OsError.

Abbreviation io A := (result io_error A).

(** [Read::read_exact]: all bytes are consumed when there are too few. *)
Definition read_exact (n : nat) (r : list byte) : io (list byte * list byte) :=
  if (length r <? n)%nat then Err UnexpectedEof else Ok (take n r, drop n r).

(** [read_exact] into a buffer whose length was itself read. *)
Definition read_exact_len (len : Z) (r : list byte) : io (list byte * list byte) :=
  if Z.of_nat (length r) <? len then Err UnexpectedEof else read_exact (Z.to_nat len) r.

Lemma read_exact_len_eq len r : read_exact_len len r = read_exact (Z.to_nat len) r.
Proof.
  unfold read_exact_len, read_exact. destruct (Z.ltb_spec (Z.of_nat (length r)) len); [|done].
  by rewrite (proj2 (Nat.ltb_lt _ _)) by lia.
Qed.

(** [commit::Header]. *)
Record CommitHeader := {
  hdr_min_tx_offset : Z;
  hdr_epoch : Z;
  hdr_n : Z;
  hdr_len : Z
}.

Definition CommitHeader_LEN : nat := 8 + 8 + 2 + 4.

Definition DEFAULT_EPOCH : Z := 0.

(** [buf.get_u64()] and the like on the header's bytes; the buffer has its
    full length, so the length errors cannot occur. *)
Definition u64_at (i : nat) (buf : list byte) : Z := le_val (take 8 (drop i buf)).
Definition u32_at (i : nat) (buf : list byte) : Z := le_val (take 4 (drop i buf)).
Definition u16_at (i : nat) (buf : list byte) : Z := le_val (take 2 (drop i buf)).

(** The slice pattern of both decoders: fourteen zero bytes. *)
Definition all_zero_pattern : list byte := replicate 14 x00.

(** [Header::decode_v0]: no epoch.  [None] at the end of the input or on a
    header of zeroes. *)
Definition decode_v0 (r : list byte) : io (option CommitHeader * list byte) :=
  match read_exact (CommitHeader_LEN - 8) r with
  | Err UnexpectedEof => Ok (None, [])
  | Ok (hdr, r) =>
      if decide (hdr = all_zero_pattern) then Ok (None, r)
      else Ok (Some {| hdr_min_tx_offset := u64_at 0 hdr; hdr_epoch := DEFAULT_EPOCH;
                       hdr_n := u16_at 8 hdr; hdr_len := u32_at 10 hdr |}, r)
  | Err e => Err e
  | Panic => Panic
  | OutOfFuel => OutOfFuel
  end.

(** [Header::decode_v1]. *)
Definition decode_v1 (r : list byte) : io (option CommitHeader * list byte) :=
  match read_exact CommitHeader_LEN r with
  | Err UnexpectedEof => Ok (None, [])
  | Ok (hdr, r) =>
      if decide (hdr = all_zero_pattern) then Ok (None, r)
      else Ok (Some {| hdr_min_tx_offset := u64_at 0 hdr; hdr_epoch := u64_at 8 hdr;
                       hdr_n := u16_at 16 hdr; hdr_len := u32_at 18 hdr |}, r)
  | Err e => Err e
  | Panic => Panic
  | OutOfFuel => OutOfFuel
  end.

(** [Header::decode_internal] with [StoredCommit::decode_internal]'s choice of
    version. *)
Definition header_decode_internal (log_format_version : Z) (r : list byte) :
    io (option CommitHeader * list byte) :=
  if log_format_version =? 0 then decode_v0 r else decode_v1 r.

Record Commit := {
  min_tx_offset : Z;
  epoch : Z;
  n : Z;
  records : list byte
}.

Record StoredCommit := {
  sc_commit : Commit;
  sc_checksum : Z
}.

#[export] Instance Commit_eq_dec : EqDecision Commit.
Proof. solve_decision. Defined.
#[export] Instance StoredCommit_eq_dec : EqDecision StoredCommit.
Proof. solve_decision. Defined.

Definition CHECKSUM_LEN : nat := 4.
Definition FRAMING_LEN : nat := CommitHeader_LEN + CHECKSUM_LEN.
Definition CHECKSUM_ALGORITHM_CRC32C : Z := 0.

(** [Commit::tx_range]: start and exclusive end, which must fit 64 bits. *)
Definition tx_range {E} (c : Commit) : result E (Z * Z) :=
  let* tx_end := add_u 64 (min_tx_offset c) (n c) in Ok (min_tx_offset c, tx_end).

Definition encoded_len (c : Commit) : Z := Z.of_nat (FRAMING_LEN + length (records c)).

(** [commit::Metadata]. *)
Record CommitMetadata := {
  cm_tx_range : Z * Z;
  cm_size_in_bytes : Z;
  cm_epoch : Z
}.

Definition CommitMetadata_from {E} (c : Commit) : result E CommitMetadata :=
  let* range := tx_range c in
  Ok {| cm_tx_range := range; cm_size_in_bytes := encoded_len c; cm_epoch := epoch c |}.

(** What [Commit::write] feeds the checksum with: header and records. *)
Definition commit_body (c : Commit) : list byte :=
  le_bytes 8 (min_tx_offset c) ++ le_bytes 8 (epoch c) ++ le_bytes 2 (n c) ++
  le_bytes 4 (Z.of_nat (length (records c))) ++ records c.

Section with_crc.
Context (crc32c : list byte → Z).

(** [Commit::write]: the bytes appended to the output. *)
Definition commit_write (c : Commit) : list byte :=
  commit_body c ++ le_bytes 4 (crc32c (commit_body c)).

(** [StoredCommit::decode_internal], with the bytes left for the reader
    afterwards: nothing after a read past the end, what follows the commit
    after a checksum mismatch.  The checksum covers all bytes read before it. *)
Definition decode_internal (log_format_version : Z) (r : list byte) :
    io (option StoredCommit) * list byte :=
  match header_decode_internal log_format_version r with
  | Ok (None, r1) => (Ok None, r1)
  | Ok (Some hdr, r1) =>
      match read_exact_len (hdr_len hdr) r1 with
      | Ok (recs, r2) =>
          let chk := crc32c (take (length r - length r2) r) in
          match read_exact 4 r2 with
          | Ok (crc, r3) =>
              if chk =? le_val crc then
                (Ok (Some {| sc_commit := {| min_tx_offset := hdr_min_tx_offset hdr;
                                             epoch := hdr_epoch hdr; n := hdr_n hdr;
                                             records := recs |};
                             sc_checksum := le_val crc |}), r3)
              else (Err (InvalidData ChecksumMismatch), r3)
          | Err e => (Err e, [])
          | Panic => (Panic, [])
          | OutOfFuel => (OutOfFuel, [])
          end
      | Err e => (Err e, [])
      | Panic => (Panic, [])
      | OutOfFuel => (OutOfFuel, [])
      end
  | Err e => (Err e, [])
  | Panic => (Panic, [])
  | OutOfFuel => (OutOfFuel, [])
  end.

(** [Commit::decode] and [commit::Metadata::extract]: the default version. *)
Definition DEFAULT_LOG_FORMAT_VERSION : Z := 1.

Definition commit_decode (r : list byte) : io (option Commit) * list byte :=
  let '(c, r) := decode_internal DEFAULT_LOG_FORMAT_VERSION r in
  (let* c := c in Ok (sc_commit <$> c), r).

Definition CommitMetadata_extract (r : list byte) : io (option CommitMetadata) * list byte :=
  let '(c, r) := commit_decode r in
  (let* c := c in
   match c with
   | Some c => let* m := CommitMetadata_from c in Ok (Some m)
   | None => Ok None
   end, r).
End with_crc.

(** ** Lemmas *)

(** The field widths of a commit that can be written without truncation, and
    whose transaction offsets fit 64 bits. *)
Definition commit_wf (c : Commit) : Prop :=
  in_u 64 (min_tx_offset c) ∧ in_u 64 (epoch c) ∧ in_u 16 (n c) ∧
  Z.of_nat (length (records c)) ≤ u32_MAX ∧ in_u 64 (min_tx_offset c + n c).

#[export] Instance commit_wf_dec c : Decision (commit_wf c).
Proof. unfold commit_wf. apply _. Defined.

Lemma tx_range_Ok {E} c : min_tx_offset c + n c < 2 ^ 64 →
  tx_range (E:=E) c = Ok (min_tx_offset c, min_tx_offset c + n c).
Proof. intros. unfold tx_range. by rewrite add_u_Ok. Qed.

Lemma tx_range_wf {E} c : commit_wf c → tx_range (E:=E) c = Ok (min_tx_offset c, min_tx_offset c + n c).
Proof. intros (_ & _ & _ & _ & [_ ?]). by apply tx_range_Ok. Qed.

Lemma CommitMetadata_from_wf {E} c : commit_wf c →
  CommitMetadata_from (E:=E) c =
  Ok {| cm_tx_range := (min_tx_offset c, min_tx_offset c + n c); cm_size_in_bytes := encoded_len c; cm_epoch := epoch c |}.
Proof. intros. unfold CommitMetadata_from. by rewrite tx_range_wf. Qed.

Lemma read_exact_app a b k : length a = k → read_exact k (a ++ b) = Ok (a, b).
Proof.
  intros <-. unfold read_exact. rewrite length_app.
  rewrite (proj2 (Nat.ltb_ge _ _)) by lia. by rewrite take_app_length, drop_app_length.
Qed.

Lemma read_exact_short k b : (length b < k)%nat → read_exact k b = Err UnexpectedEof.
Proof. intros. unfold read_exact. by rewrite (proj2 (Nat.ltb_lt _ _)). Qed.

Lemma read_exact_inv k b x r : read_exact k b = Ok (x, r) → b = x ++ r ∧ length x = k.
Proof.
  unfold read_exact. destruct (Nat.ltb_spec (length b) k); [done|].
  intros [= <- <-]. rewrite take_drop, length_take. split; [done|lia].
Qed.

Lemma length_commit_body c : length (commit_body c) = (CommitHeader_LEN + length (records c))%nat.
Proof. unfold commit_body. rewrite !length_app, !length_le_bytes. unfold CommitHeader_LEN. lia. Qed.

Lemma length_commit_write crc c : Z.of_nat (length (commit_write crc c)) = encoded_len c.
Proof.
  unfold commit_write, encoded_len. rewrite length_app, length_commit_body, length_le_bytes.
  unfold FRAMING_LEN, CHECKSUM_LEN. lia.
Qed.

Lemma le_val_le_bytes_u nb z : in_u (8 * Z.of_nat nb) z → le_val (le_bytes nb z) = z.
Proof. intros. rewrite le_val_le_bytes. by apply Z.mod_small. Qed.

(** The header of a written commit, split off its bytes. *)
Definition header_bytes (c : Commit) : list byte :=
  le_bytes 8 (min_tx_offset c) ++ le_bytes 8 (epoch c) ++ le_bytes 2 (n c) ++
  le_bytes 4 (Z.of_nat (length (records c))).

Lemma length_header_bytes c : length (header_bytes c) = CommitHeader_LEN.
Proof. unfold header_bytes. rewrite !length_app, !length_le_bytes. done. Qed.

Lemma commit_body_header c : commit_body c = header_bytes c ++ records c.
Proof. unfold commit_body, header_bytes. by rewrite <-!app_assoc. Qed.

Lemma field_at (pre x post : list byte) i k :
  length pre = i → length x = k → take k (drop i (pre ++ x ++ post)) = x.
Proof. intros <- <-. by rewrite drop_app_length, take_app_length. Qed.

Lemma header_bytes_fields c : commit_wf c →
  u64_at 0 (header_bytes c) = min_tx_offset c ∧ u64_at 8 (header_bytes c) = epoch c ∧
  u16_at 16 (header_bytes c) = n c ∧
  u32_at 18 (header_bytes c) = Z.of_nat (length (records c)).
Proof.
  intros (Hm & He & Hn & Hr & _). unfold u64_at, u32_at, u16_at, header_bytes. split_and!.
  - rewrite drop_0, take_app_length' by (by rewrite length_le_bytes).
    by apply le_val_le_bytes_u.
  - rewrite (field_at (le_bytes 8 _) (le_bytes 8 _)) by apply length_le_bytes.
    by apply le_val_le_bytes_u.
  - rewrite (app_assoc _ (le_bytes 8 _)).
    rewrite (field_at (_ ++ _) (le_bytes 2 _)) by (rewrite ?length_app, ?length_le_bytes; done).
    by apply le_val_le_bytes_u.
  - rewrite !(app_assoc _ (le_bytes _ _)). rewrite <-(app_nil_r (_ ++ _)), <-app_assoc.
    rewrite field_at by (rewrite ?length_app, ?length_le_bytes; done).
    apply le_val_le_bytes_u. unfold in_u, u32_MAX in *. lia.
Qed.

(** A v1 header is longer than the pattern for zeroes: the test never fires. *)
Lemma decode_v1_app hdr r : length hdr = CommitHeader_LEN →
  decode_v1 (hdr ++ r) =
  Ok (Some {| hdr_min_tx_offset := u64_at 0 hdr; hdr_epoch := u64_at 8 hdr;
              hdr_n := u16_at 16 hdr; hdr_len := u32_at 18 hdr |}, r).
Proof.
  intros Hlen. unfold decode_v1. rewrite read_exact_app by done.
  destruct (decide _) as [->|]; [done|done].
Qed.

Lemma decode_v1_short r : (length r < CommitHeader_LEN)%nat → decode_v1 r = Ok (None, []).
Proof. intros. unfold decode_v1. by rewrite read_exact_short. Qed.

Section crc_lemmas.
Context (crc32c : list byte → Z).
Hypothesis crc_range : ∀ l, in_u 32 (crc32c l).

(** Decoding a written commit off the front of the input. *)
Lemma decode_internal_write v c r : v ≠ 0 → commit_wf c →
  decode_internal crc32c v (commit_write crc32c c ++ r) =
  (Ok (Some {| sc_commit := c; sc_checksum := crc32c (commit_body c) |}), r).
Proof using crc_range.
  intros Hv Hwf. pose proof (header_bytes_fields c Hwf) as (Hm & He & Hn & Hl).
  unfold decode_internal, header_decode_internal. rewrite (proj2 (Z.eqb_neq _ _)) by done.
  unfold commit_write. rewrite commit_body_header at 1. rewrite <-!app_assoc.
  rewrite decode_v1_app by apply length_header_bytes. simpl.
  rewrite read_exact_len_eq, Hl, Nat2Z.id, read_exact_app by done. simpl.
  replace (take _ _) with (commit_body c).
  - rewrite read_exact_app by apply length_le_bytes. simpl.
    rewrite le_val_le_bytes_u by apply crc_range. rewrite Z.eqb_refl, Hm, He, Hn.
    by destruct c.
  - symmetry. replace (length _ - length _)%nat with (length (commit_body c))
      by (rewrite !length_app; lia).
    apply take_app_length.
Qed.

(** A strict prefix of a written commit: too short for its header it reads as
    the end of the segment, otherwise as an unexpected end of file. *)
Lemma decode_internal_torn v c k : v ≠ 0 → commit_wf c →
  (k < length (commit_write crc32c c))%nat →
  decode_internal crc32c v (take k (commit_write crc32c c)) =
  (if (k <? CommitHeader_LEN)%nat then Ok None else Err UnexpectedEof, []).
Proof using.
  intros Hv Hwf Hk. pose proof (header_bytes_fields c Hwf) as (_ & _ & _ & Hl).
  unfold decode_internal, header_decode_internal. rewrite (proj2 (Z.eqb_neq _ _)) by done.
  destruct (Nat.ltb_spec k CommitHeader_LEN) as [Hs|Hs].
  { rewrite decode_v1_short; [done|]. rewrite length_take. lia. }
  unfold commit_write in *. rewrite commit_body_header in *. rewrite <-!app_assoc in *.
  rewrite take_app_ge by (rewrite length_header_bytes; lia).
  rewrite decode_v1_app by apply length_header_bytes. simpl.
  rewrite read_exact_len_eq, Hl, Nat2Z.id, length_header_bytes.
  rewrite !length_app, length_header_bytes, length_le_bytes in Hk.
  set (j := (k - CommitHeader_LEN)%nat) in *.
  destruct (decide (j < length (records c))%nat).
  { rewrite read_exact_short; [done|].
    rewrite take_app_le by lia. rewrite length_take. lia. }
  rewrite take_app_ge by lia. rewrite read_exact_app by done. simpl.
  rewrite read_exact_short; [done|]. rewrite length_take. lia.
Qed.

Lemma header_decode_len v r h r1 :
  header_decode_internal v r = Ok (h, r1) → (length r1 ≤ length r)%nat.
Proof.
  unfold header_decode_internal, decode_v0, decode_v1. intros H.
  destruct (v =? 0); destruct (read_exact _ r) as [[h' r1']|[]| |] eqn:Hr; try done;
    simplify_eq/=; try lia; apply read_exact_inv in Hr as [-> _];
    destruct (decide _); simplify_eq; rewrite length_app; lia.
Qed.

Lemma read_exact_cases k r :
  (∃ x r', read_exact k r = Ok (x, r')) ∨ read_exact k r = Err UnexpectedEof.
Proof. unfold read_exact. destruct (_ <? _)%nat; eauto. Qed.

Lemma header_decode_total v r :
  ∃ h r', header_decode_internal v r = Ok (h, r') ∧
    (h = None ∨ (length r' < length r)%nat).
Proof.
  unfold header_decode_internal, decode_v0, decode_v1.
  destruct (v =? 0);
    (match goal with |- context [read_exact ?k r] =>
       destruct (read_exact_cases k r) as [(x & r' & Hr)|Hr]; rewrite Hr; [|by eauto] end);
    apply read_exact_inv in Hr as [-> Hl]; (destruct (decide _); [by eauto|]);
    eexists _, _; (split; [done|]); right; rewrite length_app, Hl;
    unfold CommitHeader_LEN; lia.
Qed.

(** Decoding consumes input unless it is at the end, and never gives any
    back. *)
Lemma decode_internal_len v r res r' :
  decode_internal crc32c v r = (res, r') →
  (length r' ≤ length r)%nat ∧ res = Ok None ∨
  (length r' < length r)%nat ∧ ((∃ c, res = Ok (Some c)) ∨ ∃ e, res = Err e).
Proof.
  unfold decode_internal. intros H.
  destruct (header_decode_total v r) as (h & r1 & Hh & Hlen). rewrite Hh in H.
  apply header_decode_len in Hh. destruct h as [hdr|]; simplify_eq/=; [|by left].
  destruct Hlen as [|Hlen]; [done|]. right. rewrite read_exact_len_eq in H.
  destruct (read_exact_cases (Z.to_nat (hdr_len hdr)) r1) as [(recs & r2 & Hr)|Hr];
    rewrite Hr in H; [|simplify_eq/=; split; [lia|eauto]].
  destruct (read_exact_cases 4 r2) as [(crc & r3 & Hr2)|Hr2];
    rewrite Hr2 in H; [|simplify_eq/=; split; [lia|eauto]].
  apply read_exact_inv in Hr as [-> _], Hr2 as [-> _]. rewrite !length_app in Hh, Hlen.
  destruct (_ =? _); simplify_eq/=; split; eauto; lia.
Qed.
End crc_lemmas.
