(* ===== verification/IndexFile.v ===== *)
(** * Offset index files (crates/commitlog/src/index/indexfile.rs)

    A segment's index maps transaction offsets to byte offsets.  The memory map
    behind it is an array of [cap] entries, a pair of 64-bit integers each; a
    zero key marks an unused entry.  The theorems say that the binary search
    finds the last key not above the one asked for, and what [append],
    [truncate] and reopening do to the list of entries. *)

From Stdlib Require Import ZArith Lia Sorted.
From S2P Require Import Prelude.
Local Open Scope Z_scope.
Local Open Scope result_scope.

Inductive IndexError :=
| IndexIo
| KeyNotFound
| IndexInvalidInput (last_key key : Z)
| OutOfRange
| IndexInvalidFormat.

Record IndexFile := {
  inner : list (Z * Z);
  num_entries : nat
}.

(** [index_lookup]. *)
Definition index_lookup (f : IndexFile) (index : nat) : result IndexError (Z * Z) :=
  match inner f !! index with
  | Some e => Ok e
  | None => Err OutOfRange
  end.

(** [num_entries()]: the position of the first zero key, or the end. *)
Fixpoint count_entries (l : list (Z * Z)) : nat :=
  match l with
  | [] => 0
  | (k, _) :: l => if k =? 0 then 0 else S (count_entries l)
  end.

(** [File::set_len] on the entries: truncate or extend with zeroes. *)
Definition set_len (cap : nat) (l : list (Z * Z)) : list (Z * Z) :=
  take cap l ++ replicate (cap - length l) (0, 0).

Definition create_index_file (cap : nat) : IndexFile :=
  {| inner := replicate cap (0, 0); num_entries := 0 |}.

Definition open_index_file (cap : nat) (file : list (Z * Z)) : IndexFile :=
  let m := set_len cap file in {| inner := m; num_entries := count_entries m |}.

(** The loop of [find_index]. *)
Fixpoint find_index_loop (fuel : nat) (f : IndexFile) (key : Z) (low high : nat) :
    result IndexError nat :=
  match fuel with
  | O => OutOfFuel
  | S fuel =>
    if (low <? high)%nat then
      let mid := (low + (high - low) / 2)%nat in
      let* '(mid_key, _) := index_lookup f mid in
      let low' := if key <? mid_key then low else mid in
      let high' := if key <? mid_key then mid else high in
      if (high' - low' =? 1)%nat then Ok low' else find_index_loop fuel f key low' high'
    else Ok low
  end.

Definition find_index (f : IndexFile) (key : Z) : result IndexError (Z * nat) :=
  let* low := find_index_loop (S (num_entries f)) f key 0 (num_entries f) in
  let* '(low_key, _) := index_lookup f low in
  if (low =? 0)%nat && (key <? low_key) then Err KeyNotFound
  else if low_key =? 0 then Err KeyNotFound
  else Ok (low_key, low).

Definition key_lookup (f : IndexFile) (key : Z) : result IndexError (Z * Z) :=
  let* '(_, idx) := find_index f key in index_lookup f idx.

Definition last_key (f : IndexFile) : result IndexError Z :=
  if (num_entries f =? 0)%nat then Ok 0
  else match inner f !! (num_entries f - 1)%nat with
       | Some (k, _) => Ok k
       | None => Panic
       end.

Definition append (f : IndexFile) (key value : Z) : result IndexError IndexFile :=
  let* last := last_key f in
  if key <=? last then Err (IndexInvalidInput last key)
  else if (length (inner f) <? num_entries f + 1)%nat then Err OutOfRange
  else Ok {| inner := <[num_entries f := (key, value)]> (inner f);
             num_entries := num_entries f + 1 |}.

Definition truncate (f : IndexFile) (key : Z) : result IndexError IndexFile :=
  let* '(found_key, index) := find_index f key in
  let num := if found_key =? key then index else S index in
  Ok {| inner := take num (inner f) ++ replicate (length (inner f) - num) (0, 0);
        num_entries := num |}.

(** [Entries]: the used part of the map. *)
Definition entries (f : IndexFile) : list (Z * Z) := take (num_entries f) (inner f).

(** ** Well-formed index files *)

(** Keys ascend strictly, start above zero, and nothing follows them. *)
Definition index_wf (f : IndexFile) : Prop :=
  (num_entries f ≤ length (inner f))%nat ∧
  StronglySorted Z.lt (0 :: (entries f).*1) ∧
  drop (num_entries f) (inner f) = replicate (length (inner f) - num_entries f) (0, 0).

Section wf.
Context (f : IndexFile) (Hwf : index_wf f).

Lemma index_lookup_entry i : (i < num_entries f)%nat →
  ∃ e, entries f !! i = Some e ∧ index_lookup f i = Ok e.
Proof using Hwf.
  destruct Hwf as (Hlen & _ & _). intros Hi.
  destruct (lookup_lt_is_Some_2 (inner f) i) as [e He]; [lia|]. exists e.
  unfold entries, index_lookup. rewrite lookup_take_lt by lia. by rewrite He.
Qed.

Lemma entries_keys_lt i j e e' : entries f !! i = Some e → entries f !! j = Some e' →
  (i < j)%nat → e.1 < e'.1.
Proof using Hwf.
  destruct Hwf as (_ & Hs & _). intros Hi Hj Hij.
  apply StronglySorted_inv in Hs as [Hs _].
  assert (∀ l : list Z, StronglySorted Z.lt l → ∀ i j x y,
    l !! i = Some x → l !! j = Some y → (i < j)%nat → x < y) as Hgen.
  { clear. induction 1 as [|a l _ IH Ha]; intros i j x y Hx Hy Hij; [done|].
    destruct j as [|j]; [lia|]. destruct i as [|i]; simpl in *; simplify_eq.
    - by eapply Forall_lookup_1 in Ha.
    - eapply IH; eauto with lia. }
  eapply (Hgen _ Hs i j); [by rewrite list_lookup_fmap, Hi|by rewrite list_lookup_fmap, Hj|done].
Qed.

Lemma entries_key_pos i e : entries f !! i = Some e → 0 < e.1.
Proof using Hwf.
  destruct Hwf as (_ & Hs & _). intros Hi. apply StronglySorted_inv in Hs as [_ H0].
  eapply Forall_lookup_1 in H0; [done|]. by rewrite list_lookup_fmap, Hi.
Qed.

Lemma entries_length : length (entries f) = num_entries f.
Proof using Hwf. destruct Hwf as (? & _). unfold entries. rewrite length_take. lia. Qed.

(** What the search maintains: every entry below [low] is not above [key],
    every entry from [high] on is. *)
Lemma find_index_loop_ok key fuel low high :
  (low ≤ high ≤ num_entries f)%nat → (high - low < fuel)%nat →
  (low = O ∨ ∃ e, entries f !! low = Some e ∧ e.1 ≤ key) →
  (∀ i e, (high ≤ i)%nat → entries f !! i = Some e → key < e.1) →
  ∃ r, find_index_loop fuel f key low high = Ok r ∧
    (r = O ∨ ∃ e, entries f !! r = Some e ∧ e.1 ≤ key) ∧
    (∀ i e, (r < i)%nat → entries f !! i = Some e → key < e.1).
Proof using Hwf.
  revert low high. induction fuel as [|fuel IH]; intros low high Hlh Hf Hlow Hhigh; [lia|].
  cbn [find_index_loop]. destruct (Nat.ltb_spec low high) as [Hlt|Hge].
  2:{ exists low. split_and!; [done|done|]. intros i e Hi. apply Hhigh. lia. }
  set (mid := (low + (high - low) / 2)%nat).
  assert (low ≤ mid < high ∧ (2 ≤ high - low → low < mid))%nat as [Hmid Hmid2].
  { unfold mid. pose proof (Nat.div_mod_eq (high - low) 2).
    pose proof (Nat.mod_upper_bound (high - low) 2). lia. }
  destruct (index_lookup_entry mid) as ([mk mv] & Hmk & ->); [lia|]. cbn [rbind].
  destruct (Z.ltb_spec key mk) as [Hk|Hk].
  - assert (∀ i e, (mid ≤ i)%nat → entries f !! i = Some e → key < e.1) as Hhigh'.
    { intros i e Hi He. destruct (decide (i = mid)) as [->|]; [by simplify_eq|].
      pose proof (entries_keys_lt mid i _ _ Hmk He ltac:(lia)). simpl in *. lia. }
    destruct (Nat.eqb_spec (mid - low) 1) as [Hd|Hd].
    + exists low. split_and!; [done|done|]. intros i e Hi. apply Hhigh'. lia.
    + apply IH; [lia|lia|done|done].
  - assert (∃ e, entries f !! mid = Some e ∧ e.1 ≤ key) as Hmid' by eauto.
    destruct (Nat.eqb_spec (high - mid) 1) as [Hd|Hd].
    + exists mid. split_and!; [done|by right|]. intros i e Hi. apply Hhigh. lia.
    + apply IH; [lia|lia|by right|done].
Qed.

(** [find_index] on a well-formed index with room for one entry. *)
Lemma find_index_spec key : inner f ≠ [] → 0 ≤ key →
  (∃ i e, find_index f key = Ok (e.1, i) ∧ entries f !! i = Some e ∧ e.1 ≤ key ∧
     ∀ j e', (i < j)%nat → entries f !! j = Some e' → key < e'.1) ∨
  (find_index f key = Err KeyNotFound ∧ ∀ e, e ∈ entries f → key < e.1).
Proof using Hwf.
  intros Hne Hkey.
  destruct (find_index_loop_ok key (S (num_entries f)) 0 (num_entries f))
    as (r & Hr & Hlow & Hhigh); [lia|lia|by left| |].
  { intros i e Hi He. apply lookup_lt_Some in He. rewrite entries_length in He. lia. }
  unfold find_index. rewrite Hr. cbn [rbind].
  destruct (decide (num_entries f = 0)%nat) as [H0|H0].
  - right. assert (entries f = []) as He by (unfold entries; by rewrite H0).
    assert (r = O) as -> by (destruct Hlow as [|(e & Hl & _)]; [done|by rewrite He in Hl]).
    split; [|rewrite He; by intros e ?%elem_of_nil].
    destruct Hwf as (_ & _ & Hd). rewrite H0, drop_0, Nat.sub_0_r in Hd.
    unfold index_lookup. rewrite Hd, lookup_replicate_2
      by (destruct (inner f); [done|simpl; lia]). cbn [rbind].
    by destruct (_ && _).
  - assert (∃ e, entries f !! r = Some e) as [e He].
    { destruct Hlow as [->|(e & ? & _)]; [|eauto].
      destruct (index_lookup_entry 0) as (e & ? & _); [lia|eauto]. }
    destruct (index_lookup_entry r) as (e' & He' & ->).
    { apply lookup_lt_Some in He. by rewrite entries_length in He. }
    simplify_eq. destruct e as [k v]. cbn [rbind].
    pose proof (entries_key_pos _ _ He) as Hpos. simpl in Hpos.
    rewrite (proj2 (Z.eqb_neq k 0)) by lia.
    destruct (Nat.eqb_spec r 0) as [->|Hr0]; simpl.
    + destruct (Z.ltb_spec key k) as [Hlt|Hge].
      * right. split; [done|]. intros e [i Hi]%list_elem_of_lookup.
        destruct i as [|i]; [by simplify_eq|]. apply (Hhigh (S i)); [lia|done].
      * left. eexists _, (k, v). split_and!; [done|done|done|]. eauto.
    + destruct Hlow as [|(e & He2 & Hle)]; [done|]. simplify_eq.
      left. eexists _, (k, v). split_and!; [done|done|done|]. eauto.
Qed.
End wf.

Lemma last_key_entries f : index_wf f → last_key f = Ok (default 0 (fst <$> last (entries f))).
Proof.
  intros Hwf. unfold last_key. rewrite last_lookup, entries_length by done.
  destruct (Nat.eqb_spec (num_entries f) 0) as [H0|H0].
  - assert (entries f = []) as -> by (unfold entries; by rewrite H0). done.
  - destruct (index_lookup_entry f Hwf (num_entries f - 1)) as ([k v] & He & _); [lia|].
    rewrite <-Nat.sub_1_r, He. unfold entries in He.
    apply lookup_take_Some in He as [-> _]. done.
Qed.

Lemma entries_wf_intro (l : list (Z * Z)) cap num :
  num = length l → (num ≤ cap)%nat → StronglySorted Z.lt (0 :: l.*1) →
  index_wf {| inner := l ++ replicate (cap - num) (0, 0); num_entries := num |} ∧
  entries {| inner := l ++ replicate (cap - num) (0, 0); num_entries := num |} = l.
Proof.
  intros -> Hcap Hs.
  assert (entries {| inner := l ++ replicate (cap - length l) (0, 0);
    num_entries := length l |} = l) as He by (unfold entries; simpl; apply take_app_length).
  split; [|done]. unfold index_wf. rewrite He. cbn [inner num_entries].
  rewrite length_app, length_replicate, drop_app_length. split_and!; [lia|done|].
  f_equal. lia.
Qed.

Lemma inner_entries f : index_wf f →
  inner f = entries f ++ replicate (length (inner f) - num_entries f) (0, 0).
Proof. intros (_ & _ & Hd). rewrite <-Hd. symmetry. apply take_drop. Qed.

Lemma StronglySorted_take {A} (R : A → A → Prop) l i :
  StronglySorted R l → StronglySorted R (take i l).
Proof.
  intros Hs. revert i. induction Hs as [|x l _ IH Hx]; intros [|i]; simpl; try constructor.
  - apply IH.
  - by apply Forall_take.
Qed.

Lemma StronglySorted_snoc {A} (R : A → A → Prop) l x :
  StronglySorted R l → Forall (λ y, R y x) l → StronglySorted R (l ++ [x]).
Proof.
  induction 1 as [|y l _ IH Hy]; intros Hx; simpl.
  - repeat constructor.
  - apply Forall_cons in Hx as [? ?]. constructor; [by apply IH|].
    apply Forall_app; split; [done|by constructor].
Qed.

(** In a strictly ascending list, what is below a bound on the last is below
    it everywhere. *)
Lemma StronglySorted_last (l : list Z) d x :
  StronglySorted Z.lt (d :: l) → default d (last l) < x → Forall (λ y, y < x) (d :: l).
Proof.
  revert d. induction l as [|a l IH]; intros d Hs Hx.
  - by repeat constructor.
  - apply StronglySorted_inv in Hs as [Hs Hd].
    assert (Forall (λ y, y < x) (a :: l)) as Hl.
    { apply IH; [done|]. rewrite last_cons in Hx. by destruct (last l). }
    constructor; [|done]. apply Forall_cons in Hd as [? _], Hl as [? _]. lia.
Qed.

(** [key_lookup] on a well-formed index is the binary-search answer: the
    entry with the largest key not above the one asked for, [KeyNotFound] when
    there is none. *)
Lemma key_lookup_filter f key :
  index_wf f → inner f ≠ [] → 0 ≤ key →
  key_lookup f key =
  match last (filter (λ e, e.1 ≤ key) (entries f)) with
  | Some e => Ok e
  | None => Err KeyNotFound
  end.
Proof.
  intros Hwf Hne Hkey. unfold key_lookup.
  destruct (find_index_spec f Hwf key Hne Hkey) as [(i & e & -> & He & Hle & Hgt)|[-> Hall]].
  - rewrite (filter_take _ _ (S i)).
    + cbn [rbind]. destruct (index_lookup_entry f Hwf i) as (e' & He' & ->).
      { apply lookup_lt_Some in He. by rewrite entries_length in He. }
      rewrite last_lookup, length_take, lookup_take_lt;
        apply lookup_lt_Some in He as Hlt; [|lia].
      replace (Nat.pred _) with i by lia. by rewrite He'.
    + intros j x Hx. split; [|intros Hj].
      * intros Hx'. destruct (decide (i < j)%nat); [|lia].
        specialize (Hgt j x ltac:(done) Hx). lia.
      * destruct (decide (j = i)) as [->|]; [by simplify_eq|].
        pose proof (entries_keys_lt f Hwf j i _ _ Hx He ltac:(lia)). lia.
  - rewrite filter_none; [done|]. apply Forall_forall. intros e He.
    specialize (Hall e He). lia.
Qed.

(** [append] on a well-formed index: a key not above the last one is
    rejected, a full index is reported, otherwise the pair becomes the last
    entry and the index stays well-formed with the same capacity. *)
Lemma append_cases f key value :
  index_wf f →
  let lk := default 0 (fst <$> last (entries f)) in
  if key <=? lk then append f key value = Err (IndexInvalidInput lk key)
  else if (num_entries f =? length (inner f))%nat then append f key value = Err OutOfRange
  else ∃ f', append f key value = Ok f' ∧ index_wf f' ∧
    entries f' = entries f ++ [(key, value)] ∧ length (inner f') = length (inner f).
Proof.
  intros Hwf lk. unfold append. rewrite last_key_entries by done. cbn [rbind]. fold lk.
  destruct (Z.leb_spec key lk) as [|Hlt]; [done|].
  pose proof Hwf as (Hlen & Hs & _). pose proof (entries_length f Hwf) as Hel.
  destruct (Nat.eqb_spec (num_entries f) (length (inner f))) as [Heq|Hne].
  { by rewrite (proj2 (Nat.ltb_lt _ _)) by lia. }
  rewrite (proj2 (Nat.ltb_ge _ _)) by lia. eexists; split; [done|].
  assert (<[num_entries f := (key, value)]> (inner f) = (entries f ++ [(key, value)]) ++
    replicate (length (inner f) - (num_entries f + 1)) (0, 0)) as ->.
  { rewrite (inner_entries f Hwf) at 1.
    replace (length (inner f) - num_entries f)%nat
      with (S (length (inner f) - (num_entries f + 1))) by lia.
    rewrite <-Hel at 1. rewrite insert_app_r_alt, Nat.sub_diag by done.
    by rewrite <-app_assoc. }
  destruct (entries_wf_intro (entries f ++ [(key, value)]) (length (inner f))
    (num_entries f + 1)) as [Hw He].
  - by rewrite length_app, Hel.
  - lia.
  - rewrite fmap_app. apply (StronglySorted_snoc _ (0 :: _)); [done|].
    apply StronglySorted_last; [done|]. by rewrite fmap_last.
  - split_and!; [done|done|]. cbn [inner].
    rewrite !length_app, length_replicate. simpl. lia.
Qed.

(** [truncate] on a well-formed index that has a key not above the one
    given keeps exactly the entries with a smaller key; when every entry
    is above it, it fails and the index is left as it is. *)
Lemma truncate_cases f key :
  index_wf f → inner f ≠ [] → 0 ≤ key →
  (∃ f', truncate f key = Ok f' ∧ index_wf f' ∧
     entries f' = filter (λ e, e.1 < key) (entries f) ∧
     length (inner f') = length (inner f)) ∨
  (truncate f key = Err KeyNotFound ∧ ∀ e, e ∈ entries f → key < e.1).
Proof.
  intros Hwf Hne Hkey. unfold truncate.
  destruct (find_index_spec f Hwf key Hne Hkey) as [(i & e & -> & He & Hle & Hgt)|[-> Hall]];
    [left|by right].
  cbn [rbind]. set (num := if e.1 =? key then i else S i). eexists; split; [done|].
  assert (i < num_entries f)%nat as Hi.
  { apply lookup_lt_Some in He. by rewrite entries_length in He. }
  pose proof Hwf as (Hlen & Hs & _).
  assert (num ≤ num_entries f)%nat as Hnum by (unfold num; destruct (_ =? _); lia).
  replace (take num (inner f)) with (take num (entries f))
    by (unfold entries; rewrite take_take; f_equal; lia).
  destruct (entries_wf_intro (take num (entries f)) (length (inner f)) num) as [Hw ->].
  - rewrite length_take, entries_length by done. lia.
  - lia.
  - rewrite fmap_take. apply (StronglySorted_take _ _ (S num)) in Hs. done.
  - split_and!; [done| |].
    + symmetry. apply filter_take. intros j x Hx. unfold num.
      destruct (decide (j < i)%nat) as [Hj|Hj].
      { pose proof (entries_keys_lt f Hwf j i _ _ Hx He Hj).
        destruct (_ =? _); lia. }
      destruct (decide (j = i)) as [->|].
      { assert (x = e) as -> by congruence. destruct (Z.eqb_spec (e.1) key); lia. }
      specialize (Hgt j x ltac:(lia) Hx). destruct (_ =? _); lia.
    + simpl. rewrite length_app, length_replicate, length_take, entries_length by done. lia.
Qed.

Lemma count_entries_wf f : index_wf f → count_entries (inner f) = num_entries f.
Proof.
  intros Hwf. rewrite (inner_entries f Hwf). pose proof (entries_length f Hwf) as <-.
  generalize (length (inner f) - length (entries f))%nat; intros k.
  pose proof Hwf as (_ & Hs & _). apply StronglySorted_inv in Hs as [_ Hpos].
  induction (entries f) as [|[a b] l IH]; simpl in *.
  - by destruct k.
  - apply Forall_cons in Hpos as [? ?]. rewrite (proj2 (Z.eqb_neq _ _)) by lia. auto.
Qed.

(** Reopening an index file with its capacity recovers it. *)
Lemma open_index_file_wf f :
  index_wf f → open_index_file (length (inner f)) (inner f) = f.
Proof.
  intros Hwf. unfold open_index_file, set_len.
  rewrite firstn_all, Nat.sub_diag, app_nil_r, count_entries_wf by done. by destruct f.
Qed.

(** Reopening with any capacity keeps a well-formed index so, and drops at most
    its last entries. *)
Lemma open_index_file_cap cap f :
  index_wf f →
  index_wf (open_index_file cap (inner f)) ∧
  entries (open_index_file cap (inner f)) = take cap (entries f).
Proof.
  intros Hwf. unfold open_index_file.
  assert (set_len cap (inner f) = take cap (entries f) ++
    replicate (cap - length (take cap (entries f))) (0, 0)) as Hset.
  { unfold set_len. rewrite (inner_entries f Hwf), take_app, take_replicate, <-app_assoc.
    rewrite <-replicate_add, !length_app, length_replicate, length_take, entries_length by done.
    destruct Hwf as (Hl & _). do 2 f_equal. lia. }
  destruct (entries_wf_intro (take cap (entries f)) cap (length (take cap (entries f))))
    as [Hw He]; [done|rewrite length_take; lia| |].
  { destruct Hwf as (_ & Hs & _). rewrite fmap_take.
    by apply (StronglySorted_take _ _ (S cap)) in Hs. }
  rewrite Hset. pose proof (count_entries_wf _ Hw) as Hc. cbn [inner num_entries] in Hc.
  by rewrite Hc.
Qed.

Lemma create_index_file_wf cap :
  index_wf (create_index_file cap) ∧ entries (create_index_file cap) = [].
Proof.
  split; [|done]. unfold index_wf. simpl. rewrite length_replicate, Nat.sub_0_r.
  split_and!; [lia|by repeat constructor|done].
Qed.

(** ** The index as a list of entries *)

(** What a client does with an index file; a failing operation is ignored. *)
Inductive index_op :=
| IxAppend (key value : Z)
| IxTruncate (key : Z)
| IxReopen.

Definition or_else_keep (f : IndexFile) (r : result IndexError IndexFile) : IndexFile :=
  match r with Ok f' => f' | _ => f end.

Definition index_step (f : IndexFile) (op : index_op) : IndexFile :=
  match op with
  | IxAppend k v => or_else_keep f (append f k v)
  | IxTruncate k => or_else_keep f (truncate f k)
  | IxReopen => open_index_file (length (inner f)) (inner f)
  end.

(** The same on the list of entries of an index with room for [cap]. *)
Definition list_step (cap : nat) (l : list (Z * Z)) (op : index_op) : list (Z * Z) :=
  match op with
  | IxAppend k v =>
      if (k <=? default 0 (fst <$> last l)) || (length l =? cap)%nat then l
      else l ++ [(k, v)]
  | IxTruncate k =>
      if forallb (λ e, k <? e.1) l then l else filter (λ e, e.1 < k) l
  | IxReopen => l
  end.

Definition op_key_ok (op : index_op) : Prop :=
  match op with
  | IxAppend k _ | IxTruncate k => 0 ≤ k
  | IxReopen => True
  end.

Lemma index_step_refines f op :
  index_wf f → inner f ≠ [] → op_key_ok op →
  index_wf (index_step f op) ∧ length (inner (index_step f op)) = length (inner f) ∧
  entries (index_step f op) = list_step (length (inner f)) (entries f) op.
Proof.
  intros Hwf Hne Hk. destruct op as [k v|k|]; cbn [index_step list_step].
  - pose proof (append_cases f k v Hwf) as H. rewrite entries_length by done.
    cbv zeta in H. destruct (k <=? _); [by rewrite H|]. cbn [orb].
    destruct (_ =? _)%nat; [by rewrite H|]. destruct H as (f' & -> & ? & ? & ?). done.
  - destruct (truncate_cases f k Hwf Hne Hk) as [(f' & Hf & ? & He & ?)|[Hf Hall]].
    + rewrite Hf. cbn [or_else_keep]. split_and!; [done|done|].
      rewrite He. destruct (forallb _ _) eqn:Hb; [|done]. exfalso.
      unfold truncate in Hf.
      destruct (find_index_spec f Hwf k Hne Hk) as [(i & e & _ & Hi & Hle & _)|[Hfe _]];
        [|by rewrite Hfe in Hf].
      rewrite forallb_forall in Hb. specialize (Hb e).
      rewrite <-list_elem_of_In, Z.ltb_lt in Hb.
      specialize (Hb (list_elem_of_lookup_2 _ _ _ Hi)). lia.
    + rewrite Hf. cbn [or_else_keep]. split_and!; [done|done|].
      rewrite (proj2 (forallb_forall _ _)); [done|]. intros e He.
      apply Z.ltb_lt, Hall. by apply list_elem_of_In.
  - by rewrite open_index_file_wf.
Qed.


