(* ===== verification/Repo.v ===== *)
(** * Segment storage (crates/commitlog/src/repo/mod.rs, mem.rs and fs.rs)

    A repository is what all of its clones share: the bytes of every segment by
    its offset and, for the file system, the entries of the offset index file
    beside it.  The in-memory repository has no offset indexes: it keeps the
    trait's default methods, which fail. *)

From Stdlib Require Import ZArith Lia Sorted.
From stdpp Require Import gmap sorting.
From S2P Require Import Prelude Commit IndexFile.
Local Open Scope Z_scope.
Local Open Scope result_scope.

Record Repo := {
  segments : gmap Z (list byte);
  indexes : option (gmap Z (list (Z * Z)))
}.

Definition set_segments (s : gmap Z (list byte)) (r : Repo) : Repo :=
  {| segments := s; indexes := indexes r |}.
Definition set_indexes (i : option (gmap Z (list (Z * Z)))) (r : Repo) : Repo :=
  {| segments := segments r; indexes := i |}.

(** [Memory::new] and a fresh directory. *)
Definition empty_memory : Repo := {| segments := ∅; indexes := None |}.
Definition empty_fs : Repo := {| segments := ∅; indexes := Some ∅ |}.

(** [existing_offsets]: in ascending order. *)
Definition existing_offsets (r : Repo) : list Z :=
  merge_sort Z.le (map_to_list (segments r)).*1.

(** [create_segment]: a segment without a byte may be created again. *)
Definition create_segment (r : Repo) (offset : Z) : io Repo :=
  match segments r !! offset with
  | Some [] => Ok r
  | Some _ => Err AlreadyExists
  | None => Ok (set_segments (<[offset := []]> (segments r)) r)
  end.

(** [open_segment_writer] and [open_segment_reader]: the bytes found there. *)
Definition open_segment (r : Repo) (offset : Z) : io (list byte) :=
  match segments r !! offset with
  | Some b => Ok b
  | None => Err NotFound
  end.

(** [remove_offset_index] deletes the file; its failure is only logged. *)
Definition remove_offset_index (r : Repo) (offset : Z) : Repo :=
  set_indexes (delete offset <$> indexes r) r.

Definition remove_segment (r : Repo) (offset : Z) : Repo * io unit :=
  let r := remove_offset_index r offset in
  match segments r !! offset with
  | Some _ => (set_segments (delete offset (segments r)) r, Ok tt)
  | None => (r, Err NotFound)
  end.

(** Writing to a segment opened for appending. *)
Definition append_segment (r : Repo) (offset : Z) (b : list byte) : Repo :=
  set_segments (alter (λ s, s ++ b) offset (segments r)) r.

(** [ftruncate] of a segment: cut or extended with zeroes. *)
Definition ftruncate_segment (r : Repo) (offset : Z) (size : nat) : Repo :=
  set_segments (alter (resize size x00) offset (segments r)) r.

(** [create_offset_index]: creates the file or opens the one there with
    capacity [cap]. *)
Definition create_offset_index (r : Repo) (offset : Z) (cap : nat) : io (IndexFile * Repo) :=
  match indexes r with
  | None => Err Other
  | Some m =>
      let idx := match m !! offset with
                 | None => create_index_file cap
                 | Some raw => open_index_file cap raw
                 end in
      Ok (idx, set_indexes (Some (<[offset := inner idx]> m)) r)
  end.

(** [get_offset_index] ([IndexFile::open_index_file]) maps the file as it is. *)
Definition get_offset_index (r : Repo) (offset : Z) : io IndexFile :=
  match indexes r with
  | None => Err Other
  | Some m =>
      match m !! offset with
      | None => Err NotFound
      | Some raw => Ok {| inner := raw; num_entries := count_entries raw |}
      end
  end.

(** The memory map of an open index writes through to its file. *)
Definition store_offset_index (r : Repo) (offset : Z) (idx : IndexFile) : Repo :=
  set_indexes ((<[offset := inner idx]>) <$> indexes r) r.

(** ** Lemmas *)

#[export] Instance Zle_total : Total Z.le.
Proof. intros x y. lia. Qed.

Lemma existing_offsets_sorted r : StronglySorted Z.le (existing_offsets r).
Proof. apply StronglySorted_merge_sort; apply _. Qed.

Lemma existing_offsets_perm r : existing_offsets r ≡ₚ (map_to_list (segments r)).*1.
Proof. apply merge_sort_Permutation. Qed.

Lemma existing_offsets_unique r l :
  StronglySorted Z.lt l → l ≡ₚ (map_to_list (segments r)).*1 → existing_offsets r = l.
Proof.
  intros Hs Hp. eapply (StronglySorted_unique Z.le).
  - apply existing_offsets_sorted.
  - clear Hp. induction Hs as [|x l _ IH Hx]; constructor; [done|].
    eapply Forall_impl; [done|]. simpl. intros. lia.
  - by rewrite existing_offsets_perm, Hp.
Qed.

Lemma elem_of_existing_offsets r k : k ∈ existing_offsets r ↔ is_Some (segments r !! k).
Proof.
  rewrite existing_offsets_perm, list_elem_of_fmap. split.
  - intros ([k' v] & -> & Hin). apply elem_of_map_to_list in Hin. eauto.
  - intros [v Hv]. exists (k, v). split; [done|]. by apply elem_of_map_to_list.
Qed.

Lemma existing_offsets_NoDup r : NoDup (existing_offsets r).
Proof. rewrite existing_offsets_perm. apply NoDup_fst_map_to_list. Qed.

Lemma existing_offsets_strict r : StronglySorted Z.lt (existing_offsets r).
Proof.
  pose proof (existing_offsets_NoDup r) as Hnd. pose proof (existing_offsets_sorted r) as Hs.
  induction Hs as [|x l _ IH Hx]; [constructor|].
  apply NoDup_cons in Hnd as [Hnin Hnd]. constructor; [by apply IH|].
  apply Forall_forall. intros y Hy. rewrite Forall_forall in Hx.
  specialize (Hx y Hy). destruct (decide (x = y)); [by subst|lia].
Qed.

(** The offsets are determined by the keys alone. *)
Lemma existing_offsets_dom r l :
  StronglySorted Z.lt l → (∀ k, k ∈ l ↔ is_Some (segments r !! k)) → existing_offsets r = l.
Proof.
  intros Hs Hin. apply existing_offsets_unique; [done|].
  apply NoDup_Permutation.
  - clear Hin. induction Hs as [|x l _ IH Hx]; constructor; [|done].
    intros Hx'. rewrite Forall_forall in Hx. specialize (Hx x Hx'). lia.
  - apply NoDup_fst_map_to_list.
  - intros k. by rewrite Hin, <-elem_of_existing_offsets, existing_offsets_perm.
Qed.

Lemma existing_offsets_ext r r' :
  (∀ k, is_Some (segments r !! k) ↔ is_Some (segments r' !! k)) →
  existing_offsets r = existing_offsets r'.
Proof.
  intros H. apply existing_offsets_dom; [apply existing_offsets_strict|].
  intros k. by rewrite elem_of_existing_offsets, H.
Qed.
