(* ===== verification/Segment.v ===== *)
(** * Log segments (crates/commitlog/src/segment.rs)

    The segment header, the writer that buffers records into a commit and
    appends it to the segment, the writer of the offset index, the reader and
    the traversal that recovers a segment's metadata.  A failing write is an
    argument of the operation: [Some k] means that the storage took the first
    [k] bytes and then failed. *)

From Stdlib Require Import ZArith Lia.
From stdpp Require Import gmap.
From S2P Require Import Prelude Buffer Commit IndexFile Repo.
Local Open Scope Z_scope.
Local Open Scope result_scope.

(** ** The header *)

Definition MAGIC : list byte := [x28; x64; x73; x29; x5e; x32].

Record Header := {
  log_format_version : Z;
  checksum_algorithm : Z
}.

Definition Header_LEN : nat := 10.

Definition header_write (h : Header) : list byte :=
  MAGIC ++ le_bytes 1 (log_format_version h) ++ le_bytes 1 (checksum_algorithm h) ++ [x00; x00].

Definition header_decode (r : list byte) : io (Header * list byte) :=
  let* '(buf, r) := read_exact Header_LEN r in
  if decide (take 6 buf = MAGIC) then
    Ok ({| log_format_version := le_val (take 1 (drop 6 buf));
           checksum_algorithm := le_val (take 1 (drop 7 buf)) |}, r)
  else Err (InvalidData (InvalidDataMsg "segment header does not start with magic")).

Definition ensure_compatible (h : Header) (max_log_format_version checksum_alg : Z) :
    io unit :=
  if max_log_format_version <? log_format_version h then
    Err (InvalidData (InvalidDataMsg "unsupported log format version"))
  else if negb (checksum_algorithm h =? checksum_alg) then
    Err (InvalidData (InvalidDataMsg "unsupported checksum algorithm"))
  else Ok tt.

(** ** Options (lib.rs) *)

Record Options := {
  opt_log_format_version : Z;
  max_segment_size : Z;
  opt_max_records_in_commit : Z;
  offset_index_interval_bytes : Z;
  offset_index_require_segment_fsync : bool
}.

Definition default_options : Options :=
  {| opt_log_format_version := DEFAULT_LOG_FORMAT_VERSION;
     max_segment_size := 1024 * 1024 * 1024;
     opt_max_records_in_commit := 65535;
     offset_index_interval_bytes := 4096;
     offset_index_require_segment_fsync := false |}.

Definition offset_index_len (o : Options) : Z :=
  max_segment_size o / offset_index_interval_bytes o.

(** ** The offset index writer *)

Record OffsetIndexWriter := {
  oi_head : IndexFile;
  require_segment_fsync : bool;
  min_write_interval : Z;
  candidate_min_tx_offset : Z;
  candidate_byte_offset : Z;
  bytes_since_last_index : Z
}.

Definition OffsetIndexWriter_new (head : IndexFile) (opts : Options) : OffsetIndexWriter :=
  {| oi_head := head;
     require_segment_fsync := offset_index_require_segment_fsync opts;
     min_write_interval := offset_index_interval_bytes opts;
     candidate_min_tx_offset := 0; candidate_byte_offset := 0;
     bytes_since_last_index := 0 |}.

Definition oi_reset (head : IndexFile) (w : OffsetIndexWriter) : OffsetIndexWriter :=
  {| oi_head := head;
     require_segment_fsync := require_segment_fsync w;
     min_write_interval := min_write_interval w;
     candidate_min_tx_offset := 0; candidate_byte_offset := 0;
     bytes_since_last_index := 0 |}.

(** [append_internal]; a failing [append] leaves the writer as it is. *)
Definition append_internal (w : OffsetIndexWriter) :
    OffsetIndexWriter * result IndexError unit :=
  if candidate_min_tx_offset w =? 0 then (w, Ok tt)
  else if bytes_since_last_index w <? min_write_interval w then (w, Ok tt)
  else match IndexFile.append (oi_head w) (candidate_min_tx_offset w)
               (candidate_byte_offset w) with
       | Ok head => (oi_reset head w, Ok tt)
       | Err e => (w, Err e)
       | Panic => (w, Panic)
       | OutOfFuel => (w, OutOfFuel)
       end.

Definition append_after_commit (w : OffsetIndexWriter)
    (min_tx_offset byte_offset commit_len : Z) : OffsetIndexWriter * result IndexError unit :=
  let first := candidate_min_tx_offset w =? 0 in
  let w := {| oi_head := oi_head w;
              require_segment_fsync := require_segment_fsync w;
              min_write_interval := min_write_interval w;
              candidate_min_tx_offset :=
                if first then min_tx_offset else candidate_min_tx_offset w;
              candidate_byte_offset :=
                if first then byte_offset else candidate_byte_offset w;
              bytes_since_last_index := bytes_since_last_index w + commit_len |} in
  if negb (require_segment_fsync w) then append_internal w else (w, Ok tt).

(** [FileLike] for the index writer. *)
Definition oi_fsync (w : OffsetIndexWriter) : OffsetIndexWriter := (append_internal w).1.

Definition oi_ftruncate (w : OffsetIndexWriter) (tx_offset : Z) : OffsetIndexWriter :=
  match truncate (oi_head w) tx_offset with
  | Ok head => oi_reset head w
  | _ => oi_reset (oi_head w) w
  end.

(** ** The segment writer *)

(** [Committed]. *)
Record Committed := {
  cd_tx_range : Z * Z;
  cd_checksum : Z
}.

(** [Writer]; its file is the segment of the repository at
    [w_min_tx_offset]. *)
Record Writer := {
  w_commit : Commit;
  w_min_tx_offset : Z;
  w_bytes_written : Z;
  max_records_in_commit : Z;
  offset_index_head : option OffsetIndexWriter
}.

Definition set_commit (c : Commit) (w : Writer) : Writer :=
  {| w_commit := c; w_min_tx_offset := w_min_tx_offset w;
     w_bytes_written := w_bytes_written w;
     max_records_in_commit := max_records_in_commit w;
     offset_index_head := offset_index_head w |}.

Definition set_index_head (i : option OffsetIndexWriter) (w : Writer) : Writer :=
  {| w_commit := w_commit w; w_min_tx_offset := w_min_tx_offset w;
     w_bytes_written := w_bytes_written w;
     max_records_in_commit := max_records_in_commit w;
     offset_index_head := i |}.

(** [Writer::append] of a record encoded as [rec]: [None] gives the record
    back. *)
Definition writer_append (w : Writer) (rec : list byte) : option Writer :=
  let c := w_commit w in
  if (n c =? u16_MAX) || (max_records_in_commit w <? n c + 1) then None
  else Some (set_commit {| min_tx_offset := min_tx_offset c; epoch := epoch c;
                           n := n c + 1; records := records c ++ rec |} w).

Definition writer_epoch (w : Writer) : Z := epoch (w_commit w).

Definition writer_set_epoch (e : Z) (w : Writer) : Writer :=
  let c := w_commit w in
  set_commit {| min_tx_offset := min_tx_offset c; epoch := e; n := n c;
                records := records c |} w.

Definition next_tx_offset (w : Writer) : Z := min_tx_offset (w_commit w).
Definition writer_is_empty (w : Writer) : bool := w_bytes_written w <=? Z.of_nat Header_LEN.

(** The index of a writer, stored. *)
Definition store_index_head (w : Writer) (r : Repo) : Repo :=
  match offset_index_head w with
  | Some i => store_offset_index r (w_min_tx_offset w) (oi_head i)
  | None => r
  end.

Section with_crc.
Context (crc32c : list byte → Z).

(** [Writer::commit].  Errors of the offset index are only logged. *)
Definition writer_commit (fault : option nat) (w : Writer) (r : Repo) :
    Writer * Repo * io (option Committed) :=
  let c := w_commit w in
  if n c =? 0 then (w, r, Ok None)
  else
    let bytes := commit_write crc32c c in
    match fault with
    | Some k =>
        (w, append_segment r (w_min_tx_offset w) (take k bytes), Err OsError)
    | None =>
        let r := append_segment r (w_min_tx_offset w) bytes in
        let commit_len := encoded_len c in
        let idx := (λ i, (append_after_commit i (min_tx_offset c) (w_bytes_written w)
                            commit_len).1) <$> offset_index_head w in
        let w' c := {| w_commit := c; w_min_tx_offset := w_min_tx_offset w;
                       w_bytes_written := w_bytes_written w + commit_len;
                       max_records_in_commit := max_records_in_commit w;
                       offset_index_head := idx |} in
        match add_u (E:=io_error) 64 (min_tx_offset c) (n c) with
        | Ok next =>
            let w' := w' {| min_tx_offset := next; epoch := epoch c; n := 0; records := [] |} in
            (w', store_index_head w' r,
             Ok (Some {| cd_tx_range := (min_tx_offset c, next);
                         cd_checksum := crc32c (commit_body c) |}))
        | _ => (w' c, store_index_head (w' c) r, Panic)
        end
    end.

(** [FileLike::fsync] of the writer; [ok] is what the file's own gives. *)
Definition writer_fsync (ok : bool) (w : Writer) (r : Repo) : Writer * Repo * io unit :=
  if ok then
    let w := set_index_head (oi_fsync <$> offset_index_head w) w in
    (w, store_index_head w r, Ok tt)
  else (w, r, Err OsError).

(** [FileLike::ftruncate] of the writer. *)
Definition writer_ftruncate (tx_offset : Z) (size : nat) (w : Writer) (r : Repo) :
    Writer * Repo :=
  let r := ftruncate_segment r (w_min_tx_offset w) size in
  let w := set_index_head ((λ i, oi_ftruncate i tx_offset) <$> offset_index_head w) w in
  (w, store_index_head w r).

(** ** Reading *)

(** [Reader]: the whole segment, for seeking, and the bytes ahead. *)
Record Reader := {
  rd_header : Header;
  rd_min_tx_offset : Z;
  rd_file : list byte;
  rd_inner : list byte
}.

Definition Reader_new (max_log_format_version min_tx_offset : Z) (file : list byte) :
    io Reader :=
  let* '(header, rest) := header_decode file in
  let* _ := ensure_compatible header max_log_format_version CHECKSUM_ALGORITHM_CRC32C in
  Ok {| rd_header := header; rd_min_tx_offset := min_tx_offset;
        rd_file := file; rd_inner := rest |}.

(** The error of [seek_to_offset]: an [IndexError] or an I/O error in one. *)
Inductive seek_error :=
| SeekIndex (e : IndexError)
| SeekIo (e : io_error).

(** [validate_commit_header]. *)
Definition validate_commit_header (file : list byte) (byte_offset : Z) : io CommitHeader :=
  let* '(hdr, _) := decode_v1 (drop (Z.to_nat byte_offset) file) in
  match hdr with
  | Some hdr => Ok hdr
  | None => Err UnexpectedEof
  end.

(** [seek_to_offset]: the reader, advanced. *)
Definition seek_to_offset (rd : Reader) (index_file : IndexFile) (start_tx_offset : Z) :
    result seek_error Reader :=
  match key_lookup index_file start_tx_offset with
  | Err e => Err (SeekIndex e)
  | Panic => Panic
  | OutOfFuel => OutOfFuel
  | Ok (index_key, byte_offset) =>
      if index_key =? 0 then Err (SeekIndex KeyNotFound)
      else match validate_commit_header (rd_file rd) byte_offset with
           | Err e => Err (SeekIo e)
           | Panic => Panic
           | OutOfFuel => OutOfFuel
           | Ok hdr =>
               if hdr_min_tx_offset hdr =? index_key then
                 Ok {| rd_header := rd_header rd;
                       rd_min_tx_offset := rd_min_tx_offset rd; rd_file := rd_file rd;
                       rd_inner := drop (Z.to_nat byte_offset) (rd_file rd) |}
               else Err (SeekIo (InvalidData
                          (InvalidDataMsg "mismatch key in index offset file")))
           end
  end.

(** [segment::Commits] and its [next]. *)
Record SegCommits := {
  sc_header : Header;
  sc_reader : list byte
}.

Definition Reader_commits (rd : Reader) : SegCommits :=
  {| sc_header := rd_header rd; sc_reader := rd_inner rd |}.

Definition seg_commits_next (s : SegCommits) : io (option StoredCommit) * SegCommits :=
  let '(res, rest) :=
    decode_internal crc32c (log_format_version (sc_header s)) (sc_reader s) in
  (res, {| sc_header := sc_header s; sc_reader := rest |}).

(** ** Metadata *)

Record Metadata := {
  md_header : Header;
  md_tx_range : Z * Z;
  md_size_in_bytes : Z;
  max_epoch : Z;
  max_commit_offset : Z
}.

Inductive SegmentMetadataError :=
| InvalidCommit (sofar : Metadata) (source : io_error)
| MetaIo (e : io_error).

Definition validate_commit_at_offset (file : list byte) (tx_offset byte_offset : Z) :
    io CommitMetadata :=
  let '(res, _) := CommitMetadata_extract crc32c (drop (Z.to_nat byte_offset) file) in
  let* c := res in
  match c with
  | None => Err (InvalidData (InvalidDataMsg "failed to decode commit"))
  | Some c =>
      if (cm_tx_range c).1 =? tx_offset then Ok c
      else Err (InvalidData (InvalidDataMsg "mismatch key in index offset file"))
  end.

(** The loop of [find_valid_indexed_commit]: the keys it visits descend. *)
Fixpoint find_valid_indexed_commit_loop (fuel : nat) (start : Z) (header : Header)
    (file : list byte) (offset_index : IndexFile) (candidate_last_key : Z) : io Metadata :=
  match fuel with
  | O => OutOfFuel
  | S fuel =>
      let none := Err (InvalidData (InvalidDataMsg "No valid commit found in index")) in
      match key_lookup offset_index candidate_last_key with
      | Ok (key, byte_offset) =>
          match validate_commit_at_offset file key byte_offset with
          | Ok c =>
              Ok {| md_header := header; md_tx_range := (start, (cm_tx_range c).2);
                    md_size_in_bytes := byte_offset + cm_size_in_bytes c;
                    max_epoch := cm_epoch c; max_commit_offset := (cm_tx_range c).1 |}
          | Err _ =>
              let candidate := Z.max 0 (key - 1) in
              if candidate =? 0 then none
              else find_valid_indexed_commit_loop fuel start header file offset_index candidate
          | Panic => Panic
          | OutOfFuel => OutOfFuel
          end
      | _ => none
      end
  end.

Definition find_valid_indexed_commit (start : Z) (header : Header) (file : list byte)
    (offset_index : IndexFile) : io Metadata :=
  find_valid_indexed_commit_loop (S (length (inner offset_index))) start header file
    offset_index u64_MAX.

(** The loop of [with_header]. *)
Fixpoint metadata_loop (fuel : nat) (sofar : Metadata) (r : list byte) :
    result SegmentMetadataError Metadata :=
  match fuel with
  | O => OutOfFuel
  | S fuel =>
      match CommitMetadata_extract crc32c r with
      | (Ok None, _) => Ok sofar
      | (Ok (Some c), r) =>
          if negb ((cm_tx_range c).1 =? (md_tx_range sofar).2) then
            Err (MetaIo (InvalidData (InvalidDataMsg "out-of-order offset")))
          else metadata_loop fuel
            {| md_header := md_header sofar;
               md_tx_range := ((md_tx_range sofar).1, (cm_tx_range c).2);
               md_size_in_bytes := md_size_in_bytes sofar + cm_size_in_bytes c;
               max_epoch := Z.max (cm_epoch c) (max_epoch sofar);
               max_commit_offset := (cm_tx_range c).1 |} r
      | (Err (InvalidData _ as e), _) | (Err (UnexpectedEof as e), _) =>
          Err (InvalidCommit sofar e)
      | (Err e, _) => Err (MetaIo e)
      | (Panic, _) => Panic
      | (OutOfFuel, _) => OutOfFuel
      end
  end.

Definition initial_metadata (min_tx_offset : Z) (header : Header) : Metadata :=
  {| md_header := header; md_tx_range := (min_tx_offset, min_tx_offset);
     md_size_in_bytes := Z.of_nat Header_LEN; max_epoch := 0;
     max_commit_offset := min_tx_offset |}.

Definition with_header (min_tx_offset : Z) (header : Header) (file : list byte)
    (offset_index : option IndexFile) : result SegmentMetadataError Metadata :=
  let* sofar :=
    match offset_index with
    | Some index =>
        match find_valid_indexed_commit min_tx_offset header file index with
        | Ok m => Ok m
        | Err _ => Ok (initial_metadata min_tx_offset header)
        | Panic => Panic
        | OutOfFuel => OutOfFuel
        end
    | None => Ok (initial_metadata min_tx_offset header)
    end in
  let r := drop (Z.to_nat (md_size_in_bytes sofar)) file in
  metadata_loop (S (length r)) sofar r.

(** [Metadata::extract]. *)
Definition metadata_extract (min_tx_offset : Z) (file : list byte)
    (offset_index : option IndexFile) : result SegmentMetadataError Metadata :=
  match header_decode file with
  | Ok (header, _) => with_header min_tx_offset header file offset_index
  | Err e => Err (MetaIo e)
  | Panic => Panic
  | OutOfFuel => OutOfFuel
  end.
End with_crc.
