(* ===== verification/Commitlog.v ===== *)
(** * The commitlog (crates/commitlog/src/commitlog.rs, repo/mod.rs)

    [Generic]: opening, appending, committing with segment rotation, syncing,
    resetting, and the [Commits] iterator that reads a log back.  Everything
    the log does to its repository goes through the repository's state; the
    failures of the storage are the argument [Faults] of the operations that
    write. *)

From Stdlib Require Import ZArith Lia.
From stdpp Require Import gmap.
From S2P Require Import Prelude Buffer Commit IndexFile Repo Segment.
Local Open Scope Z_scope.
Local Open Scope result_scope.

(** How the storage fails during one operation: writing a commit stops after
    that many bytes, writing the header of a new segment does, syncing fails. *)
Record Faults := {
  f_write : option nat;
  f_create : option nat;
  f_fsync : bool
}.

Definition no_faults : Faults := {| f_write := None; f_create := None; f_fsync := false |}.

(** ** Opening segments (repo/mod.rs) *)

Definition create_offset_index_writer (r : Repo) (offset : Z) (opts : Options) :
    option OffsetIndexWriter * Repo :=
  match create_offset_index r offset (Z.to_nat (offset_index_len opts)) with
  | Ok (index, r) => (Some (OffsetIndexWriter_new index opts), r)
  | _ => (None, r)
  end.

Definition new_header (opts : Options) : Header :=
  {| log_format_version := opt_log_format_version opts;
     checksum_algorithm := CHECKSUM_ALGORITHM_CRC32C |}.

Definition create_segment_writer (f : Faults) (r : Repo) (opts : Options) (epoch offset : Z) :
    Repo * io Writer :=
  match create_segment r offset with
  | Ok r =>
      let hdr := header_write (new_header opts) in
      match f_create f with
      | Some k => (append_segment r offset (take k hdr), Err OsError)
      | None =>
          let r := append_segment r offset hdr in
          let '(index, r) := create_offset_index_writer r offset opts in
          (r, Ok {| w_commit := {| min_tx_offset := offset; epoch := epoch; n := 0;
                                   records := [] |};
                    w_min_tx_offset := offset;
                    w_bytes_written := Z.of_nat Header_LEN;
                    max_records_in_commit := opt_max_records_in_commit opts;
                    offset_index_head := index |})
      end
  | Err e => (r, Err e)
  | Panic => (r, Panic)
  | OutOfFuel => (r, OutOfFuel)
  end.

Definition open_segment_reader (r : Repo) (max_log_format_version offset : Z) : io Reader :=
  let* file := open_segment r offset in Reader_new max_log_format_version offset file.

Definition opt_index (x : io IndexFile) : option IndexFile :=
  match x with Ok i => Some i | _ => None end.

(** ** The log *)

Record Generic := {
  repo : Repo;
  head : Writer;
  tail : list Z;
  opts : Options;
  panicked : bool
}.

Definition set_head (w : Writer) (r : Repo) (g : Generic) : Generic :=
  {| repo := r; head := w; tail := tail g; opts := opts g; panicked := panicked g |}.
Definition set_repo (r : Repo) (g : Generic) : Generic := set_head (head g) r g.
Definition set_panicked (b : bool) (g : Generic) : Generic :=
  {| repo := repo g; head := head g; tail := tail g; opts := opts g; panicked := b |}.

Definition generic_epoch (g : Generic) : Z := epoch (w_commit (head g)).

(** [max_committed_offset]: the checked subtraction. *)
Definition max_committed_offset (g : Generic) : option Z :=
  if next_tx_offset (head g) =? 0 then None else Some (next_tx_offset (head g) - 1).

Definition min_committed_offset (g : Generic) : option Z :=
  match tail g with
  | off :: _ => Some off
  | [] => if writer_is_empty (head g) then None else Some (w_min_tx_offset (head g))
  end.

(** [start_new_segment]: the buffered commit moves to the new head. *)
Definition start_new_segment (f : Faults) (g : Generic) : Generic * io unit :=
  match create_segment_writer f (repo g) (opts g) (writer_epoch (head g))
          (next_tx_offset (head g)) with
  | (r, Ok new) =>
      ({| repo := r; head := set_commit (w_commit (head g)) new;
          tail := tail g ++ [w_min_tx_offset (head g)]; opts := opts g;
          panicked := panicked g |}, Ok tt)
  | (r, Err e) => (set_repo r g, Err e)
  | (r, Panic) => (set_repo r g, Panic)
  | (r, OutOfFuel) => (set_repo r g, OutOfFuel)
  end.

(** [sync]: panics when the sync fails. *)
Definition sync (f : Faults) (g : Generic) : Generic * io unit :=
  let g := set_panicked true g in
  match writer_fsync (negb (f_fsync f)) (head g) (repo g) with
  | (w, r, Ok _) => (set_panicked false (set_head w r g), Ok tt)
  | (w, r, _) => (set_head w r g, Panic)
  end.

(** [append]: [None] gives the record back. *)
Definition append (g : Generic) (rec : list byte) : option Generic :=
  (λ w, set_head w (repo g) g) <$> writer_append (head g) rec.

(** ** Iterating over commits *)

Inductive Traversal :=
| OutOfOrder (expected_offset actual_offset : Z) (prev_error : option Traversal)
| Forked (offset : Z)
| Checksum (offset : Z)
| TraversalIo (e : io_error).

Inductive CommitInfo :=
| Initial (next_offset : Z)
| LastSeen (tx_range : Z * Z) (checksum : Z).

Definition same_offset_as (i : CommitInfo) (c : StoredCommit) : bool :=
  match i with
  | Initial _ => false
  | LastSeen tx_range _ => tx_range.1 =? min_tx_offset (sc_commit c)
  end.

Definition info_checksum (i : CommitInfo) : option Z :=
  match i with
  | Initial _ => None
  | LastSeen _ checksum => Some checksum
  end.

Definition same_checksum_as (i : CommitInfo) (c : StoredCommit) : bool :=
  match info_checksum i with
  | Some checksum => checksum =? sc_checksum c
  | None => false
  end.

Definition expected_offset (i : CommitInfo) : Z :=
  match i with
  | Initial next_offset => next_offset
  | LastSeen tx_range _ => tx_range.2
  end.

(** [adjust_initial_offset]: whether to skip the commit, and the new state.
    The offset of the commit's last transaction must fit 64 bits. *)
Definition adjust_initial_offset (i : CommitInfo) (c : StoredCommit) :
    result unit (bool * CommitInfo) :=
  match i with
  | Initial next_offset =>
      let c := sc_commit c in
      let last_tx_offset := min_tx_offset c + n c - 1 in
      if (u64_MAX <? last_tx_offset + 1) || (last_tx_offset <? 0) then Panic
      else if last_tx_offset <? next_offset then Ok (true, i)
      else Ok (false, Initial (min_tx_offset c))
  | LastSeen _ _ => Ok (false, i)
  end.

(** [Commits], with the [Segments] iterator inlined. *)
Record Commits := {
  it_inner : option SegCommits;
  it_repo : Repo;
  it_offs : list Z;
  it_max_log_format_version : Z;
  it_last_commit : CommitInfo;
  it_last_error : option Traversal
}.

Definition it_set (inner : option SegCommits) (i : CommitInfo) (e : option Traversal)
    (it : Commits) : Commits :=
  {| it_inner := inner; it_repo := it_repo it; it_offs := it_offs it;
     it_max_log_format_version := it_max_log_format_version it;
     it_last_commit := i; it_last_error := e |}.

(** [set_last_error]. *)
Definition last_error_of (i : CommitInfo) (e : io_error) : Traversal :=
  match e with
  | InvalidData ChecksumMismatch => Checksum (expected_offset i)
  | e => TraversalIo e
  end.

(** [segment_offsets_from]: from the last segment not beyond [offset]. *)
Fixpoint rposition_le (offset : Z) (l : list Z) : option nat :=
  match l with
  | [] => None
  | off :: l =>
      match rposition_le offset l with
      | Some i => Some (S i)
      | None => if off <=? offset then Some O else None
      end
  end.

Definition segment_offsets_from (g : Generic) (offset : Z) : list Z :=
  if w_min_tx_offset (head g) <=? offset then [w_min_tx_offset (head g)]
  else match rposition_le offset (tail g) with
       | Some pos => drop pos (tail g) ++ [w_min_tx_offset (head g)]
       | None => []
       end.

Definition initial_commits (r : Repo) (offs : list Z) (max_log_format_version offset : Z) :
    Commits :=
  {| it_inner := None; it_repo := r; it_offs := offs;
     it_max_log_format_version := max_log_format_version;
     it_last_commit := Initial offset; it_last_error := None |}.

(** [Generic::commits_from] and the free-standing [commits_from]. *)
Definition generic_commits_from (g : Generic) (offset : Z) : Commits :=
  initial_commits (repo g) (segment_offsets_from g offset)
    (opt_log_format_version (opts g)) offset.

Definition commits_from (r : Repo) (max_log_format_version offset : Z) : Commits :=
  let offs := existing_offsets r in
  let offs := match rposition_le offset offs with
              | Some pos => drop pos offs
              | None => offs
              end in
  initial_commits r offs max_log_format_version offset.

(** [try_seek_to_initial_offset]: failures leave the reader where it is. *)
Definition try_seek_to_initial_offset (it : Commits) (rd : Reader) : Reader :=
  match it_last_commit it with
  | Initial next_offset =>
      match get_offset_index (it_repo it) (rd_min_tx_offset rd) with
      | Ok index_file =>
          match seek_to_offset rd index_file next_offset with
          | Ok rd => rd
          | _ => rd
          end
      | _ => rd
      end
  | LastSeen _ _ => rd
  end.

Section with_crc.
Context (crc32c : list byte → Z).

(** The loop of [next_commit]; each turn consumes a commit of the segment. *)
Fixpoint next_commit_loop (fuel : nat) (it : Commits) :
    result unit (option (Traversal + StoredCommit)) * Commits :=
  match fuel with
  | O => (OutOfFuel, it)
  | S fuel =>
      match it_inner it with
      | None => (Ok None, it)
      | Some inner =>
          match seg_commits_next crc32c inner with
          | (Ok None, inner) =>
              (Ok None, it_set (Some inner) (it_last_commit it) (it_last_error it) it)
          | (Ok (Some commit), inner) =>
              let prev_error := it_last_error it in
              let off := min_tx_offset (sc_commit commit) in
              match adjust_initial_offset (it_last_commit it) commit with
              | Ok (skip, info) =>
                  let it := it_set (Some inner) info None it in
                  if skip then next_commit_loop fuel it
                  else if same_offset_as info commit then
                    if negb (same_checksum_as info commit)
                    then (Ok (Some (inl (Forked off))), it)
                    else next_commit_loop fuel it
                  else if negb (expected_offset info =? off) then
                    (Ok (Some (inl (OutOfOrder (expected_offset info) off prev_error))), it)
                  else
                    match tx_range (E:=unit) (sc_commit commit) with
                    | Ok range =>
                        (Ok (Some (inr commit)),
                         it_set (Some inner) (LastSeen range (sc_checksum commit)) None it)
                    | _ => (Panic, it)
                    end
              | _ => (Panic, it_set (Some inner) (it_last_commit it) None it)
              end
          | (Err e, inner) =>
              (Ok None, it_set (Some inner) (it_last_commit it)
                          (Some (last_error_of (it_last_commit it) e)) it)
          | (Panic, inner) => (Panic, it_set (Some inner) (it_last_commit it) (it_last_error it) it)
          | (OutOfFuel, inner) =>
              (OutOfFuel, it_set (Some inner) (it_last_commit it) (it_last_error it) it)
          end
      end
  end.

Definition next_commit (it : Commits) :
    result unit (option (Traversal + StoredCommit)) * Commits :=
  next_commit_loop
    (S (match it_inner it with Some s => length (sc_reader s) | None => O end)) it.

(** [Iterator::next]: one segment after another until an item is found. *)
Fixpoint commits_next_loop (offs : list Z) (it : Commits) :
    result unit (option (Traversal + StoredCommit)) * Commits :=
  match next_commit it with
  | (Ok (Some item), it) => (Ok (Some item), it)
  | (Ok None, it) =>
      match offs with
      | [] => (Ok (inl <$> it_last_error it), it_set (it_inner it) (it_last_commit it) None it)
      | off :: offs =>
          let it := {| it_inner := it_inner it; it_repo := it_repo it; it_offs := offs;
                       it_max_log_format_version := it_max_log_format_version it;
                       it_last_commit := it_last_commit it;
                       it_last_error := it_last_error it |} in
          match open_segment_reader (it_repo it) (it_max_log_format_version it) off with
          | Ok rd =>
              let rd := try_seek_to_initial_offset it rd in
              commits_next_loop offs
                (it_set (Some (Reader_commits rd)) (it_last_commit it) (it_last_error it) it)
          | Err e => (Ok (Some (inl (TraversalIo e))), it)
          | Panic => (Panic, it)
          | OutOfFuel => (OutOfFuel, it)
          end
      end
  | (r, it) => (r, it)
  end.

Definition commits_next (it : Commits) :
    result unit (option (Traversal + StoredCommit)) * Commits :=
  commits_next_loop (it_offs it) it.

(** [current_segment_header]. *)
Definition current_segment_header (it : Commits) : option Header :=
  sc_header <$> it_inner it.

(** Draining the iterator: every item up to the first [None]. *)
Fixpoint drain (fuel : nat) (it : Commits) : result unit (list (Traversal + StoredCommit)) :=
  match fuel with
  | O => OutOfFuel
  | S fuel =>
      match commits_next it with
      | (Ok None, _) => Ok []
      | (Ok (Some x), it) => let* xs := drain fuel it in Ok (x :: xs)
      | (Err e, _) => Err e
      | (Panic, _) => Panic
      | (OutOfFuel, _) => OutOfFuel
      end
  end.

(** ** Writing *)

(** [resume_segment_writer]: the inner [Err] carries the metadata of the
    readable prefix. *)
Definition resume_segment_writer (r : Repo) (opts : Options) (offset : Z) :
    Repo * io (Writer + Metadata) :=
  match open_segment r offset with
  | Ok file =>
      let offset_index := opt_index (get_offset_index r offset) in
      match metadata_extract crc32c offset file offset_index with
      | Err (InvalidCommit sofar _) => (r, Ok (inr sofar))
      | Err (MetaIo e) => (r, Err e)
      | Panic => (r, Panic)
      | OutOfFuel => (r, OutOfFuel)
      | Ok meta =>
          match ensure_compatible (md_header meta) (opt_log_format_version opts)
                  CHECKSUM_ALGORITHM_CRC32C with
          | Ok _ =>
              if negb (log_format_version (md_header meta) =? opt_log_format_version opts) then
                (r, Err (InvalidData (InvalidDataMsg "log format version mismatch")))
              else
                let '(index, r) := create_offset_index_writer r offset opts in
                (r, Ok (inl
                  {| w_commit := {| min_tx_offset := (md_tx_range meta).2;
                                    epoch := max_epoch meta; n := 0; records := [] |};
                     w_min_tx_offset := (md_tx_range meta).1;
                     w_bytes_written := md_size_in_bytes meta;
                     max_records_in_commit := opt_max_records_in_commit opts;
                     offset_index_head := index |}))
          | Err e => (r, Err e)
          | Panic => (r, Panic)
          | OutOfFuel => (r, OutOfFuel)
          end
      end
  | Err e => (r, Err e)
  | Panic => (r, Panic)
  | OutOfFuel => (r, OutOfFuel)
  end.

Definition mk_generic (opts : Options) (tail : list Z) (rw : Repo * io Writer) :
    Repo * io Generic :=
  let '(r, w) := rw in
  (r, let* w := w in
      Ok {| repo := r; head := w; tail := tail; opts := opts; panicked := false |}).

(** [Generic::open]; the repository is returned for when it fails. *)
Definition open (f : Faults) (r : Repo) (opts : Options) : Repo * io Generic :=
  let offs := existing_offsets r in
  match last offs with
  | Some last =>
      let tail := removelast offs in
      match resume_segment_writer r opts last with
      | (r, Ok (inl w)) => mk_generic opts tail (r, Ok w)
      | (r, Ok (inr meta)) =>
          mk_generic opts (tail ++ [(md_tx_range meta).1])
            (create_segment_writer f r opts (max_epoch meta) (md_tx_range meta).2)
      | (r, Err e) => (r, Err e)
      | (r, Panic) => (r, Panic)
      | (r, OutOfFuel) => (r, OutOfFuel)
      end
  | None => mk_generic opts [] (create_segment_writer f r opts DEFAULT_EPOCH 0)
  end.

(** [commit]: rotates first when the segment would grow too large; a failed
    write starts a new segment with the commit still buffered. *)
Definition commit (f : Faults) (g : Generic) : Generic * io (option Committed) :=
  let g := set_panicked true g in
  let sz := encoded_len (w_commit (head g)) in
  let should_rotate := negb (writer_is_empty (head g)) &&
    (max_segment_size (opts g) <? w_bytes_written (head g) + sz) in
  let '(g, rotated) :=
    if should_rotate then
      match sync f g with
      | (g, Ok _) => start_new_segment f g
      | (g, e) => (g, e)
      end
    else (g, Ok tt) in
  match rotated with
  | Ok _ =>
      match writer_commit crc32c (f_write f) (head g) (repo g) with
      | (w, r, Err e) =>
          let '(g, started) := start_new_segment f (set_head w r g) in
          (set_panicked false g, let* _ := started in Err e)
      | (w, r, ret) => (set_panicked false (set_head w r g), ret)
      end
  | Err e => (g, Err e)
  | Panic => (g, Panic)
  | OutOfFuel => (g, OutOfFuel)
  end.

Definition set_epoch (f : Faults) (e : Z) (g : Generic) : Generic * io (option Committed) :=
  match e ?= generic_epoch g with
  | Lt => (g, Err InvalidInput)
  | Eq => (g, Ok None)
  | Gt =>
      match commit f g with
      | (g, Ok res) => (set_head (writer_set_epoch e (head g)) (repo g) g, Ok res)
      | (g, err) => (g, err)
      end
  end.

(** [Drop]: what is still buffered is committed unless an operation failed
    half-way. *)
Definition drop_log (f : Faults) (g : Generic) : Repo :=
  if panicked g then repo g else (writer_commit crc32c (f_write f) (head g) (repo g)).1.2.

(** [committed_meta]. *)
Definition committed_meta (r : Repo) : result SegmentMetadataError (option Metadata) :=
  match last (existing_offsets r) with
  | None => Ok None
  | Some last =>
      match open_segment r last with
      | Ok file =>
          let* m := metadata_extract crc32c last file (opt_index (get_offset_index r last)) in
          Ok (Some m)
      | Err e => Err (MetaIo e)
      | Panic => Panic
      | OutOfFuel => OutOfFuel
      end
  end.

(** ** Resetting *)

(** The loop over the commits of a segment in [reset_to_internal]. *)
Fixpoint reset_scan (fuel : nat) (offset : Z) (s : SegCommits) (byte_offset : Z) : io Z :=
  match fuel with
  | O => OutOfFuel
  | S fuel =>
      match seg_commits_next crc32c s with
      | (Ok None, _) => Ok byte_offset
      | (Ok (Some c), s) =>
          if offset <? min_tx_offset (sc_commit c) then Ok byte_offset
          else reset_scan fuel offset s (byte_offset + encoded_len (sc_commit c))
      | (Err e, _) => Err e
      | (Panic, _) => Panic
      | (OutOfFuel, _) => OutOfFuel
      end
  end.

(** Where to start scanning: at the indexed commit, or after the header. *)
Definition reset_start (r : Repo) (segment offset : Z) (rd : Reader) :
    option IndexFile * Z * Reader :=
  match get_offset_index r segment with
  | Ok index_file =>
      match key_lookup index_file offset with
      | Ok (key, byte_offset) =>
          match seek_to_offset rd index_file key with
          | Ok rd => (Some index_file, byte_offset, rd)
          | _ => (None, Z.of_nat Header_LEN, rd)
          end
      | _ => (None, Z.of_nat Header_LEN, rd)
      end
  | _ => (None, Z.of_nat Header_LEN, rd)
  end.

(** The body of the loop for a segment not beyond the offset; [true] when the
    loop is left. *)
Definition reset_segment (r : Repo) (segment offset : Z) : Repo * io bool :=
  match open_segment_reader r DEFAULT_LOG_FORMAT_VERSION segment with
  | Ok rd =>
      let '(index_file, byte_offset, rd) := reset_start r segment offset rd in
      let s := Reader_commits rd in
      match reset_scan (S (length (sc_reader s))) offset s byte_offset with
      | Ok byte_offset =>
          if byte_offset =? Z.of_nat Header_LEN then
            let '(r, res) := remove_segment r segment in
            (r, let* _ := res in Ok false)
          else
            match index_file with
            | Some index_file =>
                match (let* next := add_u 64 offset 1 in truncate index_file next) with
                | Ok index_file =>
                    (ftruncate_segment (store_offset_index r segment index_file) segment
                       (Z.to_nat byte_offset), Ok true)
                | Err _ => (r, Err (InvalidData (InvalidDataMsg "Failed to truncate offset index")))
                | Panic => (r, Panic)
                | OutOfFuel => (r, OutOfFuel)
                end
            | None => (ftruncate_segment r segment (Z.to_nat byte_offset), Ok true)
            end
      | Err e => (r, Err e)
      | Panic => (r, Panic)
      | OutOfFuel => (r, OutOfFuel)
      end
  | Err e => (r, Err e)
  | Panic => (r, Panic)
  | OutOfFuel => (r, OutOfFuel)
  end.

(** [reset_to_internal] over the segments in descending order. *)
Fixpoint reset_to_internal_rev (r : Repo) (segments : list Z) (offset : Z) : Repo * io unit :=
  match segments with
  | [] => (r, Ok tt)
  | segment :: segments =>
      if offset <? segment then
        match remove_segment r segment with
        | (r, Ok _) => reset_to_internal_rev r segments offset
        | (r, e) => (r, e)
        end
      else
        match reset_segment r segment offset with
        | (r, Ok true) => (r, Ok tt)
        | (r, Ok false) => reset_to_internal_rev r segments offset
        | (r, Err e) => (r, Err e)
        | (r, Panic) => (r, Panic)
        | (r, OutOfFuel) => (r, OutOfFuel)
        end
  end.

Definition reset_to_internal (r : Repo) (segments : list Z) (offset : Z) : Repo * io unit :=
  reset_to_internal_rev r (reverse segments) offset.

(** The free-standing [reset_to] and [Generic::reset_to]. *)
Definition reset_to (r : Repo) (offset : Z) : Repo * io unit :=
  reset_to_internal r (existing_offsets r) offset.

Definition generic_reset_to (f : Faults) (g : Generic) (offset : Z) : Repo * io Generic :=
  match reset_to_internal (repo g) (tail g ++ [w_min_tx_offset (head g)]) offset with
  | (r, Ok _) => open f r (opts g)
  | (r, Err e) => (r, Err e)
  | (r, Panic) => (r, Panic)
  | (r, OutOfFuel) => (r, OutOfFuel)
  end.

(** [Generic::reset]: removes the segments from the newest on. *)
Fixpoint remove_segments (r : Repo) (segments : list Z) : Repo * io unit :=
  match segments with
  | [] => (r, Ok tt)
  | segment :: segments =>
      match remove_segment r segment with
      | (r, Ok _) => remove_segments r segments
      | (r, e) => (r, e)
      end
  end.

Definition generic_reset (f : Faults) (g : Generic) : Repo * io Generic :=
  match remove_segments (repo g) (reverse (tail g ++ [w_min_tx_offset (head g)])) with
  | (r, Ok _) => open f r (opts g)
  | (r, Err e) => (r, Err e)
  | (r, Panic) => (r, Panic)
  | (r, OutOfFuel) => (r, OutOfFuel)
  end.
End with_crc.
