(* ===== verification/Txdata.v ===== *)
(** * Transaction payloads (crates/commitlog/src/payload/txdata.rs)

    The canonical record of the commitlog: inputs, outputs and mutations of a
    transaction, their encoding, and the three traversals (decode, consume,
    skip) that drive a [Visitor].  The visitor is an interface: a record of its
    methods on its state; what it promises to the traversals is the class
    [VisitorLaws], which the visitor of rows with a fixed schema discharges.
    A reader is the list of the bytes still ahead of it. *)

From Stdlib Require Import ZArith Lia.
From S2P Require Import Prelude Buffer Sats Bsatn Varint Commit Commitlog.
Local Open Scope Z_scope.
Local Open Scope result_scope.

(** ** Payloads *)

Record Inputs := {
  reducer_name : list byte;
  reducer_args : list byte
}.

Record Outputs := { reducer_output : list byte }.

Record Ops (T : Type) := {
  ops_table_id : Z;
  rowdata : list T
}.
Arguments ops_table_id {T}.
Arguments rowdata {T}.

Record Mutations (T : Type) := {
  inserts : list (Ops T);
  deletes : list (Ops T);
  truncates : list Z
}.
Arguments inserts {T}.
Arguments deletes {T}.
Arguments truncates {T}.

Record Txdata (T : Type) := {
  inputs : option Inputs;
  outputs : option Outputs;
  mutations : option (Mutations T)
}.
Arguments inputs {T}.
Arguments outputs {T}.
Arguments mutations {T}.

Definition Mutations_is_empty {T} (m : Mutations T) : bool :=
  match inserts m, deletes m, truncates m with
  | [], [], [] => true
  | _, _, _ => false
  end.

Definition Txdata_is_empty {T} (t : Txdata T) : bool :=
  match inputs t, outputs t with
  | None, None =>
      match mutations t with Some m => Mutations_is_empty m | None => true end
  | _, _ => false
  end.

Definition HAVE_INPUTS : Z := 128.
Definition HAVE_OUTPUTS : Z := 64.
Definition HAVE_MUTATIONS : Z := 32.

(** [Flags::set] from [empty], and [contains]. *)
Definition flags_bits (i o m : bool) : Z :=
  Z.lor (if i then HAVE_INPUTS else 0)
    (Z.lor (if o then HAVE_OUTPUTS else 0) (if m then HAVE_MUTATIONS else 0)).
Definition flags_contains (flags f : Z) : bool := Z.land flags f =? f.

(** ** Encoding, into the records of a commit *)

Local Abbreviation vec := (list byte).
Local Abbreviation writes_vec := (result unit vec).

(** [Encode]. *)
Class Encode (T : Type) := encode_record : T → vec → writes_vec.

Definition inputs_encode (i : Inputs) (buf : vec) : writes_vec :=
  let slen := wrap_u 8 (Z.of_nat (length (reducer_name i))) in
  let len := 1 + slen + Z.of_nat (length (reducer_args i)) in
  let* buf := put_u32 buf (wrap_u 32 len) in
  let* buf := put_u8 buf slen in
  let* buf := put_slice buf (reducer_name i) in
  put_slice buf (reducer_args i).

Definition outputs_encode (o : Outputs) (buf : vec) : writes_vec :=
  let* buf := put_u8 buf (wrap_u 8 (Z.of_nat (length (reducer_output o)))) in
  put_slice buf (reducer_output o).

(** A [for] loop that writes. *)
Fixpoint for_each {A} (f : A → vec → writes_vec) (l : list A) (buf : vec) : writes_vec :=
  match l with
  | [] => Ok buf
  | x :: l => let* buf := f x buf in for_each f l buf
  end.

#[export] Instance encode_product_value : Encode ProductValue := λ p buf,
  match serialize_product buf p with
  | Ok buf => Ok buf
  | OutOfFuel => OutOfFuel
  | _ => Panic
  end.

#[export] Instance encode_unit : Encode unit := λ _ buf, Ok buf.

Section encode.
Context {T : Type} `{Encode T}.

Definition ops_encode (o : Ops T) (buf : vec) : writes_vec :=
  let* buf := put_u32 buf (ops_table_id o) in
  let* buf := encode_varint (Z.of_nat (length (rowdata o))) buf in
  for_each encode_record (rowdata o) buf.

Definition mutations_encode (m : Mutations T) (buf : vec) : writes_vec :=
  let* buf := encode_varint (Z.of_nat (length (inserts m))) buf in
  let* buf := for_each ops_encode (inserts m) buf in
  let* buf := encode_varint (Z.of_nat (length (deletes m))) buf in
  let* buf := for_each ops_encode (deletes m) buf in
  let* buf := encode_varint (Z.of_nat (length (truncates m))) buf in
  for_each (λ tid buf, put_u32 buf tid) (truncates m) buf.

Definition opt_encode {A} (f : A → vec → writes_vec) (x : option A) (buf : vec) : writes_vec :=
  match x with Some x => f x buf | None => Ok buf end.

Definition is_some {A} (x : option A) : bool := match x with Some _ => true | None => false end.

Definition txdata_encode (t : Txdata T) (buf : vec) : writes_vec :=
  let flags := flags_bits (is_some (inputs t)) (is_some (outputs t)) (is_some (mutations t)) in
  let* buf := put_u8 buf flags in
  let* buf := opt_encode inputs_encode (inputs t) buf in
  let* buf := opt_encode outputs_encode (outputs t) buf in
  opt_encode mutations_encode (mutations t) buf.

#[export] Instance encode_txdata : Encode (Txdata T) := txdata_encode.
End encode.

(** ** Decoding *)

Definition inputs_decode (r : list byte) : result DecodeError (Inputs * list byte) :=
  let* '(len, r) := get_u32 r in
  let* '(slen, r) := get_u8 r in
  let* '(bytes, r) := get_slice r slen in
  if utf8_valid bytes then
    match from_str 255 bytes with
    | None => Panic
    | Some name =>
        if len - 1 - slen <? 0 then Panic
        else let* '(args, r) := get_slice r (len - 1 - slen) in
             Ok ({| reducer_name := name; reducer_args := args |}, r)
    end
  else Err InvalidUtf8.

Definition outputs_decode (r : list byte) : result DecodeError (Outputs * list byte) :=
  let* '(slen, r) := get_u8 r in
  let* '(bytes, r) := get_slice r slen in
  if utf8_valid bytes then
    match from_str 255 bytes with
    | None => Panic
    | Some s => Ok ({| reducer_output := s |}, r)
    end
  else Err InvalidUtf8.

(** A computation on the visitor and the reader, both mutable. *)
Definition dec (V E A : Type) : Type := V * list byte → result E A * (V * list byte).

Definition dret {V E A} (a : A) : dec V E A := λ s, (Ok a, s).
Definition dbind {V E A B} (m : dec V E A) (k : A → dec V E B) : dec V E B := λ s,
  match m s with
  | (Ok a, s) => k a s
  | (Err e, s) => (Err e, s)
  | (Panic, s) => (Panic, s)
  | (OutOfFuel, s) => (OutOfFuel, s)
  end.

Declare Scope dec_scope.
Notation "'let!' x := m 'in' k" := (dbind m (λ x, k))
  (at level 10, x name, m at level 100, k at level 200,
   format "'[v' 'let!'  x  :=  m  'in' '/' k ']'") : dec_scope.
Local Open Scope dec_scope.

(** The body of a [for _ in 0..n] loop, with and without its results. *)
Fixpoint times {V E A} (n : nat) (m : dec V E A) : dec V E (list A) :=
  match n with
  | O => dret []
  | S n => let! x := m in let! l := times n m in dret (x :: l)
  end.

Fixpoint times_ {V E A} (n : nat) (m : dec V E A) : dec V E unit :=
  match n with
  | O => dret tt
  | S n => let! _ := m in times_ n m
  end.


(** The size of a row, of [Ops] (a table id and a fat pointer) and of [TableId]. *)
Class SizeOf (T : Type) := size_of : Z.
Definition size_of_ops : Z := 24.
Definition size_of_table_id : Z := 4.

(** [Visitor]; a method on the state alone does not see the reader. *)
Record Visitor (V T E : Type) := {
  from_decode_error : DecodeError → E;
  visit_insert : Z → dec V E T;
  visit_delete : Z → dec V E T;
  skip_row : Z → dec V E unit;
  visit_truncate : Z → V → result E unit * V;
  visit_tx_start : Z → V → result E unit * V;
  visit_tx_end : V → result E unit * V;
  visit_inputs : Inputs → V → result E unit * V;
  visit_outputs : Outputs → V → result E unit * V
}.
Arguments from_decode_error {V T E}.
Arguments visit_insert {V T E}.
Arguments visit_delete {V T E}.
Arguments skip_row {V T E}.
Arguments visit_truncate {V T E}.
Arguments visit_tx_start {V T E}.
Arguments visit_tx_end {V T E}.
Arguments visit_inputs {V T E}.
Arguments visit_outputs {V T E}.

(** Reading off the reader, with [From<DecodeError>] for the error; what is left
    of the reader after an error is not used. *)
Definition read_with {V E A} (from : DecodeError → E)
    (f : list byte → result DecodeError (A * list byte)) : dec V E A := λ s,
  match f s.2 with
  | Ok (a, r) => (Ok a, (s.1, r))
  | Err e => (Err (from e), s)
  | Panic => (Panic, s)
  | OutOfFuel => (OutOfFuel, s)
  end.

Section decode.
Context {V T E : Type} `{!SizeOf T} (visitor : Visitor V T E).
Local Abbreviation dec A := (dec V E A).

Definition read {A} : (list byte → result DecodeError (A * list byte)) → dec A :=
  read_with (from_decode_error visitor).

Definition visit (f : V → result E unit * V) : dec unit := λ s,
  let '(res, v) := f s.1 in (res, (v, s.2)).

(** [Vec::with_capacity] of elements of [size] bytes: more than [isize::MAX]
    bytes is a capacity overflow, in every build profile. *)
Definition with_capacity (size n : Z) : dec unit := λ s,
  (if isize_MAX <? size * n then Panic else Ok tt, s).

(** The insert and delete sections of [Mutations]. *)
Definition ops_decode (row : Z → dec T) : dec (list (Ops T)) :=
  let! n := read decode_varint in
  let! _ := with_capacity size_of_ops n in
  times (Z.to_nat n)
    (let! table_id := read get_u32 in
     let! m := read decode_varint in
     let! _ := with_capacity (size_of (T:=T)) m in
     let! rows := times (Z.to_nat m) (row table_id) in
     dret {| ops_table_id := table_id; rowdata := rows |}).

Definition ops_consume {A} (row : Z → dec A) : dec unit :=
  let! n := read decode_varint in
  times_ (Z.to_nat n)
    (let! table_id := read get_u32 in
     let! m := read decode_varint in
     times_ (Z.to_nat m) (row table_id)).

Definition mutations_decode : dec (Mutations T) :=
  let! ins := ops_decode (visit_insert visitor) in
  let! del := ops_decode (visit_delete visitor) in
  let! n := read decode_varint in
  let! _ := with_capacity size_of_table_id n in
  let! trunc := times (Z.to_nat n)
    (let! table_id := read get_u32 in
     let! _ := visit (visit_truncate visitor table_id) in
     dret table_id) in
  dret {| inserts := ins; deletes := del; truncates := trunc |}.

Definition mutations_consume : dec unit :=
  let! _ := ops_consume (visit_insert visitor) in
  let! _ := ops_consume (visit_delete visitor) in
  let! n := read decode_varint in
  times_ (Z.to_nat n)
    (let! table_id := read get_u32 in visit (visit_truncate visitor table_id)).

Definition mutations_skip : dec unit :=
  let! _ := ops_consume (skip_row visitor) in
  let! _ := ops_consume (skip_row visitor) in
  let! n := read decode_varint in
  times_ (Z.to_nat n) (read get_u32).

(** [then] with [transpose]. *)
Definition dwhen {A} (b : bool) (m : dec A) : dec (option A) :=
  if b then (let! x := m in dret (Some x)) else dret None.
Definition dwhen_ {A} (b : bool) (m : dec A) : dec unit :=
  if b then (let! _ := m in dret tt) else dret tt.

Definition txdata_decode : dec (Txdata T) :=
  let! flags := read get_u8 in
  let! ins := dwhen (flags_contains flags HAVE_INPUTS) (read inputs_decode) in
  let! _ := match ins with Some i => visit (visit_inputs visitor i) | None => dret tt end in
  let! outs := dwhen (flags_contains flags HAVE_OUTPUTS) (read outputs_decode) in
  let! _ := match outs with Some o => visit (visit_outputs visitor o) | None => dret tt end in
  let! muts := dwhen (flags_contains flags HAVE_MUTATIONS) mutations_decode in
  dret {| inputs := ins; outputs := outs; mutations := muts |}.

Definition txdata_consume : dec unit :=
  let! flags := read get_u8 in
  let! _ := dwhen_ (flags_contains flags HAVE_INPUTS)
    (let! i := read inputs_decode in visit (visit_inputs visitor i)) in
  let! _ := dwhen_ (flags_contains flags HAVE_OUTPUTS)
    (let! o := read outputs_decode in visit (visit_outputs visitor o)) in
  dwhen_ (flags_contains flags HAVE_MUTATIONS) mutations_consume.

Definition txdata_skip : dec unit :=
  let! flags := read get_u8 in
  let! _ := dwhen_ (flags_contains flags HAVE_INPUTS) (read inputs_decode) in
  let! _ := dwhen_ (flags_contains flags HAVE_OUTPUTS) (read outputs_decode) in
  dwhen_ (flags_contains flags HAVE_MUTATIONS) mutations_skip.
End decode.

(** ** Records (decode_record_fn and the like) *)

Inductive DecoderError (E : Type) :=
| UnsupportedVersion (supported given : Z)
| Decode (e : DecodeError)
| VisitorError (e : E)
| Traverse (e : Traversal).
Arguments UnsupportedVersion {E}.
Arguments Decode {E}.
Arguments VisitorError {E}.
Arguments Traverse {E}.

Definition TXDATA_VERSION : Z := DEFAULT_LOG_FORMAT_VERSION.

Definition map_visitor_err {V E A} (m : dec V E A) : dec V (DecoderError E) A := λ s,
  let '(res, s) := m s in
  (match res with
   | Ok a => Ok a
   | Err e => Err (VisitorError e)
   | Panic => Panic
   | OutOfFuel => OutOfFuel
   end, s).

Section records.
Context {V T E : Type} `{!SizeOf T} (visitor : Visitor V T E).

Definition process_record {A} (version tx_offset : Z) (decode_txdata : dec V E A) :
    dec V (DecoderError E) A :=
  if TXDATA_VERSION <? version then λ s, (Err (UnsupportedVersion TXDATA_VERSION version), s)
  else
    let! _ := map_visitor_err (visit (visit_tx_start visitor tx_offset)) in
    let! record := map_visitor_err decode_txdata in
    let! _ := map_visitor_err (visit (visit_tx_end visitor)) in
    dret record.

Definition decode_record_fn (version tx_offset : Z) : dec V (DecoderError E) (Txdata T) :=
  process_record version tx_offset (txdata_decode visitor).

Definition consume_record_fn (version tx_offset : Z) : dec V (DecoderError E) unit :=
  process_record version tx_offset (txdata_consume visitor).

Definition skip_record_fn (version : Z) : dec V (DecoderError E) unit :=
  if TXDATA_VERSION <? version then λ s, (Err (UnsupportedVersion TXDATA_VERSION version), s)
  else map_visitor_err (txdata_skip visitor).
End records.

(** ** What a visitor promises *)

(** The records of a value: what its encoder appends to any buffer. *)
Definition encodes {T} `{Encode T} (x : T) (bs : list byte) : Prop :=
  ∀ w, encode_record x w = Ok (w ++ bs).

Lemma encodes_unique {T} `{Encode T} (t : T) bs bs' : encodes t bs → encodes t bs' → bs = bs'.
Proof. intros H1 H2. specialize (H1 []). rewrite (H2 []) in H1. by simplify_eq/=. Qed.

(** [m] reads [a] off the front of any input that starts with [bs], and takes
    the visitor from [v] to [v']. *)
Definition runs {V E A} (m : dec V E A) (v : V) (bs : list byte) (a : A) (v' : V) : Prop :=
  ∀ rest, m (v, bs ++ rest) = (Ok a, (v', rest)).

(** Rows as the visitor sees them: [on_insert tid x v v'] when [x] is a row of
    table [tid] in state [v], and visiting it leads to [v'].  Visiting such a row
    reads exactly its encoding. *)
Class VisitorLaws {V T E} `{Encode T} (visitor : Visitor V T E) := {
  on_insert : Z → T → V → V → Prop;
  on_delete : Z → T → V → V → Prop;
  on_skip : Z → T → V → V → Prop;
  visit_insert_reads tid x v v' : on_insert tid x v v' →
    ∃ bs, encodes x bs ∧ runs (visit_insert visitor tid) v bs x v';
  visit_delete_reads tid x v v' : on_delete tid x v v' →
    ∃ bs, encodes x bs ∧ runs (visit_delete visitor tid) v bs x v';
  skip_row_reads tid x v v' : on_skip tid x v v' →
    ∃ bs, encodes x bs ∧ runs (skip_row visitor tid) v bs tt v'
}.

(** A visit that succeeds. *)
Definition visits {V E} (f : V → result E unit * V) (v v' : V) : Prop := f v = (Ok tt, v').

Fixpoint replay_list {V A} (f : A → V → V → Prop) (l : list A) (v v' : V) : Prop :=
  match l with
  | [] => v' = v
  | x :: l => ∃ v1, f x v v1 ∧ replay_list f l v1 v'
  end.

Definition replay_ops {V T} (f : Z → T → V → V → Prop) : list (Ops T) → V → V → Prop :=
  replay_list (λ o, replay_list (f (ops_table_id o)) (rowdata o)).

Definition replay_opt {V A} (f : A → V → V → Prop) (x : option A) (v v' : V) : Prop :=
  match x with Some x => f x v v' | None => v' = v end.

(** What a transaction does to a visitor: every part in the order of the
    record, between the start and the end of the transaction. *)
Section replay.
Context {V T E : Type} `{!Encode T} (visitor : Visitor V T E) `{!VisitorLaws visitor}.

Definition replay_mutations (m : Mutations T) (v v' : V) : Prop :=
  ∃ v1 v2, replay_ops on_insert (inserts m) v v1 ∧ replay_ops on_delete (deletes m) v1 v2 ∧
    replay_list (λ tid, visits (visit_truncate visitor tid)) (truncates m) v2 v'.

Definition replay (t : Txdata T) (v v' : V) : Prop :=
  ∃ v1 v2, replay_opt (λ i, visits (visit_inputs visitor i)) (inputs t) v v1 ∧
    replay_opt (λ o, visits (visit_outputs visitor o)) (outputs t) v1 v2 ∧
    replay_opt replay_mutations (mutations t) v2 v'.

Definition replay_record (tx_offset : Z) (t : Txdata T) (v v' : V) : Prop :=
  ∃ v1 v2, visits (visit_tx_start visitor tx_offset) v v1 ∧ replay t v1 v2 ∧
    visits (visit_tx_end visitor) v2 v'.

(** Skipping a transaction only visits its rows. *)
Definition skip_mutations (m : Mutations T) (v v' : V) : Prop :=
  ∃ v1, replay_ops on_skip (inserts m) v v1 ∧ replay_ops on_skip (deletes m) v1 v'.

Definition replay_skip (t : Txdata T) : V → V → Prop := replay_opt skip_mutations (mutations t).
End replay.

(** The bounds Rust puts on the parts of a transaction: strings of at most 255
    bytes, 32-bit table ids, slices that fit the address space; and the length
    of the inputs must fit its 32-bit prefix. *)
Definition varchar_ok (s : list byte) : Prop := utf8_valid s = true ∧ (length s ≤ 255)%nat.

Definition inputs_fit (i : Inputs) : Prop :=
  varchar_ok (reducer_name i) ∧
  1 + Z.of_nat (length (reducer_name i)) + Z.of_nat (length (reducer_args i)) ≤ u32_MAX.

Definition slice_fits {A} (size : Z) (l : list A) : Prop :=
  in_u 64 (Z.of_nat (length l)) ∧ size * Z.of_nat (length l) ≤ isize_MAX.

Definition ops_fit {T} `{SizeOf T} (l : list (Ops T)) : Prop :=
  slice_fits size_of_ops l ∧
  Forall (λ o, in_u 32 (ops_table_id o) ∧ slice_fits size_of (rowdata o)) l.

Definition mutations_fit {T} `{SizeOf T} (m : Mutations T) : Prop :=
  ops_fit (inserts m) ∧ ops_fit (deletes m) ∧
  slice_fits size_of_table_id (truncates m) ∧ Forall (in_u 32) (truncates m).

Definition opt_all {A} (P : A → Prop) (x : option A) : Prop :=
  match x with Some x => P x | None => True end.

Definition txdata_fits {T} `{SizeOf T} (t : Txdata T) : Prop :=
  opt_all inputs_fit (inputs t) ∧
  opt_all (λ o, varchar_ok (reducer_output o)) (outputs t) ∧
  opt_all mutations_fit (mutations t).

(** ** Lemmas *)

Section runs.
Context {V E : Type}.
Implicit Types v : V.

Lemma runs_ret {A} (a : A) v : runs (E:=E) (dret a) v [] a v.
Proof. by intros rest. Qed.

Lemma runs_bind {A B} (m : dec V E A) (k : A → dec V E B) v v' v'' b1 b2 a c :
  runs m v b1 a v' → runs (k a) v' b2 c v'' → runs (let! x := m in k x) v (b1 ++ b2) c v''.
Proof. intros H1 H2 rest. unfold dbind. by rewrite <-app_assoc, H1, H2. Qed.

(** Steps that read nothing, before and after. *)
Lemma runs_bind_l {A B} (m : dec V E A) (k : A → dec V E B) v v' v'' b a c :
  runs m v [] a v' → runs (k a) v' b c v'' → runs (let! x := m in k x) v b c v''.
Proof. apply runs_bind. Qed.

Lemma runs_bind_r {A B} (m : dec V E A) (k : A → dec V E B) v v' v'' b a c :
  runs m v b a v' → runs (k a) v' [] c v'' → runs (let! x := m in k x) v b c v''.
Proof. intros H1 H2. rewrite <-(app_nil_r b). by eapply runs_bind. Qed.

Lemma runs_times {A B} (g : A → B) (bytes : A → list byte → Prop) (m : dec V E B)
    (f : A → V → V → Prop) l v v' :
  replay_list f l v v' →
  (∀ x v v', x ∈ l → f x v v' → ∃ bs, bytes x bs ∧ runs m v bs (g x) v') →
  ∃ bss, Forall2 bytes l bss ∧ runs (times (length l) m) v (concat bss) (g <$> l) v' ∧
    runs (times_ (length l) m) v (concat bss) tt v'.
Proof.
  revert v. induction l as [|x l IH]; intros v Hl Hf; simpl in Hl.
  { subst. exists []. split_and!; [constructor|apply runs_ret..]. }
  destruct Hl as (v1 & Hx & Hl).
  destruct (Hf x v v1) as (bs & Hbs & Hr); [apply list_elem_of_here|done|].
  destruct (IH v1) as (bss & Hbss & Hr1 & Hr2); [done| |].
  { intros y w w' Hy. apply Hf. by apply list_elem_of_further. }
  exists (bs :: bss). cbn [length times times_ concat fmap list_fmap]. split_and!; [by constructor| |].
  - eapply runs_bind; [done|]. eapply runs_bind_r; [done|]. apply runs_ret.
  - by eapply runs_bind.
Qed.
End runs.

Lemma for_each_bytes {A} (f : A → list byte → result unit (list byte)) l bss w :
  Forall2 (λ x bs, ∀ w, f x w = Ok (w ++ bs)) l bss → for_each f l w = Ok (w ++ concat bss).
Proof.
  intros Hl. revert w. induction Hl as [|x bs l bss Hx _ IH]; intros w; simpl.
  { by rewrite app_nil_r. }
  rewrite Hx. simpl. by rewrite IH, app_assoc.
Qed.

Lemma put_u32_vec {E} (w : list byte) z : put_u32 (E:=E) w z = Ok (w ++ le_bytes 4 z).
Proof. done. Qed.

(** The bytes of a bounded string behind its length. *)
Definition varchar_bytes (s : list byte) : list byte :=
  byte_of_Z (Z.of_nat (length s)) :: s.

Definition inputs_bytes (i : Inputs) : list byte :=
  le_bytes 4 (1 + Z.of_nat (length (reducer_name i)) + Z.of_nat (length (reducer_args i))) ++
  varchar_bytes (reducer_name i) ++ reducer_args i.

Lemma varchar_len s : varchar_ok s →
  wrap_u 8 (Z.of_nat (length s)) = Z.of_nat (length s) ∧ from_str 255 s = Some s.
Proof.
  intros [_ Hl]. split; [apply wrap_u_id; unfold in_u; lia|].
  unfold from_str. by rewrite (proj2 (Nat.leb_le _ _)).
Qed.

Lemma get_varchar s rest : varchar_ok s →
  get_u8 (varchar_bytes s ++ rest) = Ok (Z.of_nat (length s), s ++ rest) ∧
  get_slice (s ++ rest) (Z.of_nat (length s)) = Ok (s, rest).
Proof.
  intros [_ Hl]. split; [|by apply get_slice_app].
  unfold varchar_bytes. rewrite <-app_comm_cons, get_u8_cons, byte_of_Z_small by lia. done.
Qed.

Lemma inputs_encode_bytes i w : inputs_fit i → inputs_encode i w = Ok (w ++ inputs_bytes i).
Proof.
  intros [Hs Hl]. unfold inputs_encode, inputs_bytes. destruct (varchar_len _ Hs) as [-> _].
  rewrite wrap_u_id by (unfold in_u, u32_MAX in *; lia).
  rewrite put_u32_vec. cbn [rbind]. rewrite put_u8_vec. cbn [rbind].
  unfold put_slice, vec_writer. cbn [rbind]. by rewrite <-!app_assoc.
Qed.

Lemma reads_inputs i : inputs_fit i → reads inputs_decode i (inputs_bytes i).
Proof.
  intros [Hs Hl] rest. unfold inputs_decode, inputs_bytes, get_u32. rewrite <-!app_assoc.
  rewrite (reads_uint "u32" 4) by (unfold in_u, u32_MAX in *; lia). cbn [rbind].
  destruct (get_varchar (reducer_name i) (reducer_args i ++ rest) Hs) as [-> Hg]. cbn [rbind].
  rewrite Hg. cbn [rbind]. destruct (varchar_len _ Hs) as [_ ->]. destruct Hs as [-> _].
  rewrite (proj2 (Z.ltb_ge _ 0)) by lia. rewrite get_slice_app by lia. by destruct i.
Qed.

Lemma outputs_encode_bytes o w : varchar_ok (reducer_output o) →
  outputs_encode o w = Ok (w ++ varchar_bytes (reducer_output o)).
Proof.
  intros Hs. unfold outputs_encode. destruct (varchar_len _ Hs) as [-> _].
  rewrite put_u8_vec. cbn [rbind].
  unfold put_slice, vec_writer. cbn [rbind]. by rewrite <-!app_assoc.
Qed.

Lemma reads_outputs o : varchar_ok (reducer_output o) →
  reads outputs_decode o (varchar_bytes (reducer_output o)).
Proof.
  intros Hs rest. unfold outputs_decode.
  destruct (get_varchar (reducer_output o) rest Hs) as [-> Hg]. cbn [rbind]. rewrite Hg.
  cbn [rbind]. destruct (varchar_len _ Hs) as [_ ->]. destruct Hs as [-> _]. by destruct o.
Qed.

Definition opt_bytes {A} (f : A → list byte) (x : option A) : list byte :=
  match x with Some x => f x | None => [] end.

Lemma flags_contains_bits i o m :
  flags_contains (flags_bits i o m) HAVE_INPUTS = i ∧
  flags_contains (flags_bits i o m) HAVE_OUTPUTS = o ∧
  flags_contains (flags_bits i o m) HAVE_MUTATIONS = m ∧ 0 ≤ flags_bits i o m < 256.
Proof. destruct i, o, m; by vm_compute. Qed.

Section roundtrip.
Context {V T E : Type} `{!Encode T, !SizeOf T} (visitor : Visitor V T E).

Lemma runs_read {A} (f : list byte → result DecodeError (A * list byte)) x bs v :
  reads f x bs → runs (read visitor f) v bs x v.
Proof. intros Hf rest. unfold read, read_with. simpl. by rewrite Hf. Qed.

Lemma runs_u32 z v : in_u 32 z → runs (read visitor get_u32) v (le_bytes 4 z) z v.
Proof. intros Hz. apply runs_read. by apply (reads_uint "u32" 4). Qed.

Lemma runs_varint z v : in_u 64 z → runs (read visitor decode_varint) v (varint_bytes 10 z) z v.
Proof. intros Hz. apply runs_read. intros rest. by apply decode_varint_bytes. Qed.

Lemma runs_visit f (v v' : V) : visits f v v' → runs (E:=E) (visit f) v [] tt v'.
Proof. intros Hf rest. unfold visit. simpl. by rewrite Hf. Qed.

Lemma runs_capacity size n (v : V) : size * n ≤ isize_MAX → runs (E:=E) (with_capacity size n) v [] tt v.
Proof. intros Hn rest. unfold with_capacity. by rewrite (proj2 (Z.ltb_ge _ _)). Qed.

(** The length prefix of a list, and the list. *)
Lemma encode_list {A} (f : A → list byte → result unit (list byte)) l bss w :
  in_u 64 (Z.of_nat (length l)) → Forall2 (λ x bs, ∀ w, f x w = Ok (w ++ bs)) l bss →
  (let* w := encode_varint (Z.of_nat (length l)) w in for_each f l w) =
    Ok (w ++ varint_bytes 10 (Z.of_nat (length l)) ++ concat bss).
Proof.
  intros Hn Hl. destruct (encode_varint_vec _ w Hn) as [-> _]. cbn [rbind].
  rewrite (for_each_bytes _ _ _ _ Hl). by rewrite <-app_assoc.
Qed.

Definition ops_bytes (o : Ops T) (bs : list byte) : Prop := ∀ w, ops_encode o w = Ok (w ++ bs).

Lemma ops_encode_bytes o bss : in_u 64 (Z.of_nat (length (rowdata o))) →
  Forall2 encodes (rowdata o) bss →
  ops_bytes o (le_bytes 4 (ops_table_id o) ++ varint_bytes 10 (Z.of_nat (length (rowdata o))) ++
    concat bss).
Proof.
  intros Hn Hl w. unfold ops_encode. rewrite put_u32_vec. cbn [rbind].
  by rewrite (encode_list _ _ bss), <-app_assoc.
Qed.

Section rows.
Context (f : Z → T → V → V → Prop).

Lemma runs_ops (row : Z → dec V E T) l v v' :
  (∀ tid x v v', f tid x v v' → ∃ bs, encodes x bs ∧ runs (row tid) v bs x v') →
  ops_fit l → replay_ops f l v v' →
  ∃ bss, Forall2 ops_bytes l bss ∧
    runs (ops_decode visitor row) v
      (varint_bytes 10 (Z.of_nat (length l)) ++ concat bss) l v'.
Proof.
  intros Hrow [[Hn Hcap] Hfit] Hl. rewrite Forall_forall in Hfit.
  destruct (runs_times id ops_bytes
    (let! table_id := read visitor get_u32 in
     let! m := read visitor decode_varint in
     let! _ := with_capacity (size_of (T:=T)) m in
     let! rows := times (Z.to_nat m) (row table_id) in
     dret {| ops_table_id := table_id; rowdata := rows |}) _ _ _ _ Hl)
    as (bss & Hbss & Hr & _).
  { intros o w w' Ho Hw. destruct (Hfit o Ho) as [Hid [Hm Hmc]].
    destruct (runs_times id encodes (row (ops_table_id o)) _ _ _ _ Hw)
      as (bss & Hbss & Hr & _); [intros; by apply Hrow|]. rewrite list_fmap_id in Hr.
    eexists. split; [by apply ops_encode_bytes|].
    eapply runs_bind; [by apply runs_u32|]. eapply runs_bind; [by apply runs_varint|].
    eapply runs_bind_l; [by apply runs_capacity|]. rewrite Nat2Z.id.
    eapply runs_bind_r; [done|]. destruct o. apply runs_ret. }
  exists bss. split; [done|]. eapply runs_bind; [by apply runs_varint|].
  eapply runs_bind_l; [by apply runs_capacity|]. rewrite Nat2Z.id. by rewrite list_fmap_id in Hr.
Qed.

Lemma runs_ops_consume (row : Z → dec V E unit) l v v' :
  (∀ tid x v v', f tid x v v' → ∃ bs, encodes x bs ∧ runs (row tid) v bs tt v') →
  ops_fit l → replay_ops f l v v' →
  ∃ bss, Forall2 ops_bytes l bss ∧
    runs (ops_consume visitor row) v
      (varint_bytes 10 (Z.of_nat (length l)) ++ concat bss) tt v'.
Proof.
  intros Hrow [[Hn _] Hfit] Hl. rewrite Forall_forall in Hfit.
  destruct (runs_times (λ _, tt) ops_bytes
    (let! table_id := read visitor get_u32 in
     let! m := read visitor decode_varint in
     times_ (Z.to_nat m) (row table_id)) _ _ _ _ Hl) as (bss & Hbss & _ & Hr).
  { intros o w w' Ho Hw. destruct (Hfit o Ho) as [Hid [Hm _]].
    destruct (runs_times (λ _, tt) encodes (row (ops_table_id o)) _ _ _ _ Hw)
      as (bss & Hbss & _ & Hr); [intros; by apply Hrow|].
    eexists. split; [by apply ops_encode_bytes|].
    eapply runs_bind; [by apply runs_u32|]. eapply runs_bind; [by apply runs_varint|].
    by rewrite Nat2Z.id. }
  exists bss. split; [done|]. eapply runs_bind; [by apply runs_varint|]. by rewrite Nat2Z.id.
Qed.
End rows.

(** The truncated tables. *)
Lemma runs_truncates {A} (m : dec V E A) (f : Z → V → V → Prop) (g : Z → A) l v v' :
  slice_fits size_of_table_id l → Forall (in_u 32) l → replay_list f l v v' →
  (∀ tid v v', in_u 32 tid → f tid v v' → runs m v (le_bytes 4 tid) (g tid) v') →
  ∃ bs, (∀ w, (let* w := encode_varint (Z.of_nat (length l)) w in
               for_each (λ tid w, put_u32 w tid) l w) = Ok (w ++ bs)) ∧
    runs (let! n := read visitor decode_varint in
          let! _ := with_capacity size_of_table_id n in times (Z.to_nat n) m) v bs (g <$> l) v' ∧
    runs (let! n := read visitor decode_varint in times_ (Z.to_nat n) m) v bs tt v'.
Proof.
  intros [Hn Hcap] Hl Hrep Hm. rewrite Forall_forall in Hl.
  destruct (runs_times g (λ tid bs, ∀ w, put_u32 (E:=unit) w tid = Ok (w ++ bs)) m _ _ _ _ Hrep)
    as (bss & Hbss & Hr & Hr'); [by eauto using put_u32_vec|].
  eexists. split; [intros w; by apply encode_list|]. split.
  - eapply runs_bind; [by apply runs_varint|]. eapply runs_bind_l; [by apply runs_capacity|].
    by rewrite Nat2Z.id.
  - eapply runs_bind; [by apply runs_varint|]. by rewrite Nat2Z.id.
Qed.

Section laws.
Context `{!VisitorLaws visitor}.

Lemma mutations_encode_bytes (m : Mutations T) b1 b2 b3 w :
  mutations_fit m → Forall2 ops_bytes (inserts m) b1 → Forall2 ops_bytes (deletes m) b2 →
  (∀ w, (let* w := encode_varint (Z.of_nat (length (truncates m))) w in
         for_each (λ tid w, put_u32 w tid) (truncates m) w) = Ok (w ++ b3)) →
  mutations_encode m w = Ok (w ++ (varint_bytes 10 (Z.of_nat (length (inserts m))) ++ concat b1) ++
    (varint_bytes 10 (Z.of_nat (length (deletes m))) ++ concat b2) ++ b3).
Proof using Type.
  intros ([[Hi _] _] & [[Hd _] _] & _) H1 H2 H3. unfold mutations_encode.
  pose proof (encode_list ops_encode _ b1 w Hi H1) as He1.
  destruct (encode_varint _ w) as [w1| | |] eqn:Hw1; try done. cbn [rbind] in *. rewrite He1.
  cbn [rbind]. set (w2 := w ++ _).
  pose proof (encode_list ops_encode _ b2 w2 Hd H2) as He2.
  destruct (encode_varint (Z.of_nat (length (deletes m))) w2) as [w3| | |]; try done.
  cbn [rbind] in *. rewrite He2. cbn [rbind]. rewrite H3. subst w2. by rewrite <-!app_assoc.
Qed.

Lemma runs_mutations m v v' : mutations_fit m → replay_mutations visitor m v v' →
  ∃ bs, (∀ w, mutations_encode m w = Ok (w ++ bs)) ∧ runs (mutations_decode visitor) v bs m v'.
Proof using Type.
  intros Hfit Hrep. pose proof Hfit as (Hi & Hd & Ht & Ht').
  destruct Hrep as (v1 & v2 & Hv1 & Hv2 & Hv3).
  destruct (runs_ops _ (visit_insert visitor) _ _ _ visit_insert_reads Hi Hv1)
    as (b1 & Hb1 & Hr1).
  destruct (runs_ops _ (visit_delete visitor) _ _ _ visit_delete_reads Hd Hv2)
    as (b2 & Hb2 & Hr2).
  destruct (runs_truncates (let! table_id := read visitor get_u32 in
    let! _ := visit (visit_truncate visitor table_id) in dret table_id) _ id _ _ _ Ht Ht' Hv3)
    as (b3 & Hb3 & Hr3 & _).
  { intros tid w w' Htid Hw. eapply runs_bind_r; [by apply runs_u32|].
    eapply runs_bind_l; [by apply runs_visit|]. apply runs_ret. }
  eexists. split; [intros w; by apply mutations_encode_bytes|].
  eapply runs_bind; [done|]. eapply runs_bind; [done|].
  intros rest. specialize (Hr3 rest). unfold dbind in *.
  destruct (read visitor decode_varint (v2, b3 ++ rest)) as [[n| | |] s1]; try done.
  destruct (with_capacity size_of_table_id n s1) as [[[]| | |] s2]; try done.
  destruct (times _ _ s2) as [[l| | |] s3]; try done. injection Hr3 as -> ->.
  rewrite list_fmap_id. by destruct m.
Qed.

Lemma runs_skip_mutations m v v' : mutations_fit m → skip_mutations visitor m v v' →
  ∃ bs, (∀ w, mutations_encode m w = Ok (w ++ bs)) ∧ runs (mutations_skip visitor) v bs tt v'.
Proof using Type.
  intros Hfit Hrep. pose proof Hfit as (Hi & Hd & Ht & Ht').
  destruct Hrep as (v1 & Hv1 & Hv2).
  destruct (runs_ops_consume _ (skip_row visitor) _ _ _ skip_row_reads Hi Hv1)
    as (b1 & Hb1 & Hr1).
  destruct (runs_ops_consume _ (skip_row visitor) _ _ _ skip_row_reads Hd Hv2)
    as (b2 & Hb2 & Hr2).
  destruct (runs_truncates (read visitor get_u32) (λ _ v v', v' = v) id (truncates m) v' v' Ht Ht')
    as (b3 & Hb3 & _ & Hr3).
  { clear. induction (truncates m); simpl; eauto. }
  { intros tid w w' Htid ->. by apply runs_u32. }
  eexists. split; [intros w; by apply mutations_encode_bytes|].
  eapply runs_bind; [done|]. by eapply runs_bind.
Qed.

Local Abbreviation flags_of t :=
  (flags_bits (is_some (inputs t)) (is_some (outputs t)) (is_some (mutations t))).

(** The bytes before the mutations. *)
Local Abbreviation head_bytes t :=
  ([byte_of_Z (flags_of t)] ++ opt_bytes inputs_bytes (inputs t) ++
   opt_bytes (λ o, varchar_bytes (reducer_output o)) (outputs t)).

Lemma txdata_encode_bytes (t : Txdata T) bm w :
  txdata_fits t → (∀ w, opt_encode mutations_encode (mutations t) w = Ok (w ++ bm)) →
  txdata_encode t w = Ok (w ++ head_bytes t ++ bm).
Proof using Type.
  intros (Hi & Ho & _) Hm. unfold txdata_encode. rewrite put_u8_vec. cbn [rbind].
  assert (∀ w, opt_encode inputs_encode (inputs t) w = Ok (w ++ opt_bytes inputs_bytes (inputs t)))
    as Hie.
  { intros. destruct (inputs t); cbn; [by apply inputs_encode_bytes|by rewrite app_nil_r]. }
  assert (∀ w, opt_encode outputs_encode (outputs t) w =
    Ok (w ++ opt_bytes (λ o, varchar_bytes (reducer_output o)) (outputs t))) as Hoe.
  { intros. destruct (outputs t); cbn; [by apply outputs_encode_bytes|by rewrite app_nil_r]. }
  rewrite Hie. cbn [rbind]. rewrite Hoe. cbn [rbind]. rewrite Hm. by rewrite <-!app_assoc.
Qed.

Lemma runs_flags (t : Txdata T) v :
  runs (read visitor get_u8) v [byte_of_Z (flags_of t)] (flags_of t) v.
Proof using Type.
  apply runs_read. intros rest. cbn [app]. rewrite get_u8_cons, byte_of_Z_small; [done|].
  apply flags_contains_bits.
Qed.

Lemma runs_inputs (t : Txdata T) v : txdata_fits t →
  runs (dwhen (is_some (inputs t)) (read visitor inputs_decode)) v
    (opt_bytes inputs_bytes (inputs t)) (inputs t) v.
Proof using Type.
  intros (Hi & _). destruct (inputs t); cbn; [|apply runs_ret].
  eapply runs_bind_r; [by apply runs_read, reads_inputs|apply runs_ret].
Qed.

Lemma runs_outputs (t : Txdata T) v : txdata_fits t →
  runs (dwhen (is_some (outputs t)) (read visitor outputs_decode)) v
    (opt_bytes (λ o, varchar_bytes (reducer_output o)) (outputs t)) (outputs t) v.
Proof using Type.
  intros (_ & Ho & _). destruct (outputs t); cbn; [|apply runs_ret].
  eapply runs_bind_r; [by apply runs_read, reads_outputs|apply runs_ret].
Qed.

Lemma runs_replay_opt {A} (f : A → V → result E unit * V) x v v' :
  replay_opt (λ a, visits (f a)) x v v' →
  runs (match x with Some a => visit (f a) | None => dret tt end) v [] tt v'.
Proof using Type.
  destruct x; cbn; [by apply runs_visit|]. intros ->. apply runs_ret.
Qed.

Lemma runs_txdata t v v' : txdata_fits t → replay visitor t v v' →
  ∃ bs, encodes t bs ∧ runs (txdata_decode visitor) v bs t v'.
Proof using Type.
  intros Hfit (v1 & v2 & Hv1 & Hv2 & Hv3).
  destruct (flags_contains_bits (is_some (inputs t)) (is_some (outputs t)) (is_some (mutations t)))
    as (Fi & Fo & Fm & _).
  assert (∃ bm, (∀ w, opt_encode mutations_encode (mutations t) w = Ok (w ++ bm)) ∧
    runs (dwhen (is_some (mutations t)) (mutations_decode visitor)) v2 bm (mutations t) v')
    as (bm & Hbm & Hr).
  { destruct Hfit as (_ & _ & Hm). destruct (mutations t) as [m|]; cbn in *.
    - destruct (runs_mutations m v2 v' Hm Hv3) as (bm & Hbm & Hr). exists bm. split; [done|].
      eapply runs_bind_r; [done|apply runs_ret].
    - subst. exists []. split; [intros; by rewrite app_nil_r|apply runs_ret]. }
  exists (head_bytes t ++ bm). split; [intros w; by apply txdata_encode_bytes|].
  rewrite <-!app_assoc. unfold txdata_decode.
  eapply runs_bind; [apply runs_flags|]. rewrite Fi, Fo, Fm.
  eapply runs_bind; [by apply runs_inputs|]. eapply runs_bind_l; [by apply runs_replay_opt|].
  eapply runs_bind; [by apply runs_outputs|]. eapply runs_bind_l; [by apply runs_replay_opt|].
  eapply runs_bind_r; [done|]. destruct t. apply runs_ret.
Qed.

Lemma runs_dwhen_ {A B} (x : option A) (m : dec V E B) (f : A → B) bs v v' :
  match x with Some a => runs m v bs (f a) v' | None => bs = [] ∧ v' = v end →
  runs (dwhen_ (is_some x) m) v bs tt v'.
Proof using Type.
  destruct x; cbn; [|intros [-> ->]; apply runs_ret].
  intros Hm. eapply runs_bind_r; [done|apply runs_ret].
Qed.

Lemma runs_txdata_skip t v v' : txdata_fits t → replay_skip visitor t v v' →
  ∃ bs, encodes t bs ∧ runs (txdata_skip visitor) v bs tt v'.
Proof using Type.
  intros Hfit Hrep.
  destruct (flags_contains_bits (is_some (inputs t)) (is_some (outputs t)) (is_some (mutations t)))
    as (Fi & Fo & Fm & _).
  assert (∃ bm, (∀ w, opt_encode mutations_encode (mutations t) w = Ok (w ++ bm)) ∧
    runs (dwhen_ (is_some (mutations t)) (mutations_skip visitor)) v bm tt v') as (bm & Hbm & Hr).
  { destruct Hfit as (_ & _ & Hm). unfold replay_skip in Hrep.
    destruct (mutations t) as [m|]; cbn in *.
    - destruct (runs_skip_mutations m v v' Hm Hrep) as (bm & Hbm & Hr). exists bm. split; [done|].
      eapply runs_bind_r; [done|apply runs_ret].
    - subst. exists []. split; [intros; by rewrite app_nil_r|apply runs_ret]. }
  exists (head_bytes t ++ bm). split; [intros w; by apply txdata_encode_bytes|].
  rewrite <-!app_assoc. unfold txdata_skip. destruct Hfit as (Hi & Ho & _).
  eapply runs_bind; [apply runs_flags|]. rewrite Fi, Fo, Fm. eapply runs_bind.
  { apply (runs_dwhen_ _ _ id). destruct (inputs t); [|done]. by apply runs_read, reads_inputs. }
  eapply runs_bind; [|done].
  apply (runs_dwhen_ _ _ id). destruct (outputs t); [|done]. by apply runs_read, reads_outputs.
Qed.
End laws.
End roundtrip.

(** Two computations that agree on everything but the value they return, unless
    the first panics. *)
Definition agrees {V E A B} (m : dec V E A) (m' : dec V E B) : Prop :=
  ∀ s, (m s).1 = Panic ∨
    rmap (λ _, tt) (m s).1 = rmap (λ _, tt) (m' s).1 ∧ (m s).2 = (m' s).2.

Section agrees.
Context {V E : Type}.

Lemma agrees_refl {A} (m : dec V E A) : agrees m m.
Proof. intros s. by right. Qed.

Lemma agrees_ret {A B} (a : A) (b : B) : agrees (V:=V) (E:=E) (dret a) (dret b).
Proof. intros s. by right. Qed.

Lemma agrees_bind {A B A' B'} (m : dec V E A) (m' : dec V E A') (k : A → dec V E B)
    (k' : A' → dec V E B') :
  agrees m m' → (∀ a a', agrees (k a) (k' a')) →
  agrees (let! x := m in k x) (let! x := m' in k' x).
Proof.
  intros Hm Hk s. unfold dbind. destruct (Hm s) as [Hp|[Hr Hs]].
  { left. destruct (m s) as [r ?]. simpl in Hp. by subst. }
  destruct (m s) as [r s1], (m' s) as [r' s2]. simpl in *. subst s2.
  destruct r, r'; simplify_eq/=; [apply Hk|by right..].
Qed.

Lemma agrees_bind_eq {A B B'} (m : dec V E A) (k : A → dec V E B) (k' : A → dec V E B') :
  (∀ a, agrees (k a) (k' a)) → agrees (let! x := m in k x) (let! x := m in k' x).
Proof.
  intros Hk s. unfold dbind. destruct (m s) as [[a| | |] s1]; [apply Hk|by right..].
Qed.

Lemma agrees_drop {A B C} (m : dec V E A) (f : A → B) (m' : dec V E C) :
  agrees m m' → agrees (let! x := m in dret (f x)) m'.
Proof.
  intros Hm s. unfold dbind. destruct (Hm s) as [Hp|[Hr Hs]];
    destruct (m s) as [[a| | |] s1]; simpl in *; naive_solver.
Qed.

Lemma agrees_drop_r {A B C} (m : dec V E A) (m' : dec V E B) (c : C) :
  agrees m m' → agrees m (let! _ := m' in dret c).
Proof.
  intros Hm s. unfold dbind. destruct (Hm s) as [Hp|[Hr Hs]]; [by left|].
  destruct (m' s) as [[a| | |] s1]; simpl in *; naive_solver.
Qed.

Lemma agrees_capacity {A B} size n (m : dec V E A) (m' : dec V E B) :
  agrees m m' → agrees (let! _ := with_capacity size n in m) m'.
Proof.
  intros Hm s. unfold dbind, with_capacity. destruct (_ <? _); [by left|apply Hm].
Qed.

Lemma agrees_times {A B} n (m : dec V E A) (m' : dec V E B) :
  agrees m m' → agrees (times n m) (times_ n m').
Proof.
  intros Hm. induction n as [|n IH]; cbn [times times_]; [apply agrees_ret|].
  apply agrees_bind; [done|]. intros a _. by apply agrees_drop.
Qed.
End agrees.

Section consume.
Context {V T E : Type} `{!SizeOf T} (visitor : Visitor V T E).

Lemma agrees_ops (row : Z → dec V E T) :
  agrees (ops_decode visitor row) (ops_consume visitor row).
Proof.
  apply agrees_bind_eq. intros n. apply agrees_capacity, agrees_times.
  apply agrees_bind_eq. intros tid. apply agrees_bind_eq. intros m.
  apply agrees_capacity, agrees_drop, agrees_times, agrees_refl.
Qed.

Lemma agrees_mutations : agrees (mutations_decode visitor) (mutations_consume visitor).
Proof.
  apply agrees_bind; [apply agrees_ops|intros ins _].
  apply agrees_bind; [apply agrees_ops|intros del _].
  apply agrees_bind_eq. intros n. apply agrees_capacity, agrees_drop, agrees_times.
  apply agrees_bind_eq. intros tid. apply agrees_drop, agrees_refl.
Qed.

(** An optional part that is decoded and then visited. *)
Lemma agrees_part {A B C} b (m : dec V E A) (f : A → V → result E unit * V)
    (k : option A → dec V E B) (k' : dec V E C) :
  (∀ x, agrees (k x) k') →
  agrees
    (let! x := dwhen b m in
     let! _ := match x with Some a => visit (f a) | None => dret tt end in k x)
    (let! _ := dwhen_ b (let! a := m in visit (f a)) in k').
Proof.
  intros Hk s. unfold dwhen, dwhen_, dbind. destruct b; [|by apply Hk].
  destruct (m s) as [[a| | |] s1]; [|by right..]. simpl.
  destruct (visit (f a) s1) as [[[]| | |] s2]; [apply Hk|by right..].
Qed.

Lemma agrees_txdata : agrees (txdata_decode visitor) (txdata_consume visitor).
Proof.
  apply agrees_bind_eq. intros flags. apply agrees_part. intros i. apply agrees_part. intros o.
  apply agrees_drop. unfold dwhen, dwhen_. destruct (flags_contains _ _); [|apply agrees_ret].
  apply agrees_drop, agrees_drop_r, agrees_mutations.
Qed.

Lemma agrees_map_err {A B} (m : dec V E A) (m' : dec V E B) :
  agrees m m' → agrees (map_visitor_err m) (map_visitor_err m').
Proof.
  intros Hm s. unfold map_visitor_err. destruct (Hm s) as [Hp|[Hr Hs]];
    destruct (m s) as [[| | |] ?], (m' s) as [[| | |] ?]; simplify_eq/=; auto.
Qed.

Lemma agrees_process {A B} version off (m : dec V E A) (m' : dec V E B) :
  agrees m m' → agrees (process_record visitor version off m) (process_record visitor version off m').
Proof.
  intros Hm. unfold process_record. destruct (_ <? _); [intros s; by right|].
  apply agrees_bind_eq. intros _. apply agrees_bind; [by apply agrees_map_err|intros a a'].
  apply agrees_bind_eq. intros _. apply agrees_ret.
Qed.
End consume.

(** ** Rows of a fixed type

    [ProductValue::decode] and the visitor of the tests, whose tables all have
    rows of type [ty]. *)

Definition product_decode (ty : list ProductTypeElement) (r : list byte) :
    result DecodeError (ProductValue * list byte) :=
  visit_seq_product (deserialize (pred (type_depth (TProduct ty))) []) ty r.

(** A boxed slice. *)
#[export] Instance size_of_product_value : SizeOf ProductValue := 16.

Definition mock_visitor (ty : list ProductTypeElement) : Visitor unit ProductValue DecodeError := {|
  from_decode_error := id;
  visit_insert _ := read_with id (product_decode ty);
  visit_delete _ := read_with id (product_decode ty);
  skip_row _ := let! _ := read_with id (product_decode ty) in dret tt;
  visit_truncate _ v := (Ok tt, v);
  visit_tx_start _ v := (Ok tt, v);
  visit_tx_end v := (Ok tt, v);
  visit_inputs _ v := (Ok tt, v);
  visit_outputs _ v := (Ok tt, v)
|}.

(** A row of the type. *)
Definition row_ok (ty : list ProductTypeElement) (p : ProductValue) : Prop :=
  contains_refs (TProduct ty) = false ∧ typed [] (TProduct ty) (VProduct p).

Lemma product_reads ty p : row_ok ty p → ∃ bs, encodes p bs ∧ reads (product_decode ty) p bs.
Proof.
  intros [Hrefs Ht]. destruct (ev_value _ _ _ Ht) as (bs & Hbs & n & Hn).
  exists bs. split.
  - intros w. pose proof (writes_value (VProduct p)) as Hw. unfold writes in Hw.
    rewrite Hbs in Hw. unfold encode_record, encode_product_value.
    change (serialize_product w p) with (serialize w (VProduct p)).
    by rewrite (Hw _ _ vec_writer_laws).
  - intros rest.
    assert (decode (TProduct ty) (bs ++ rest) = Ok (VProduct p, rest)) as Hd
      by (eapply decode_enough; [done|]; intros; by apply Hn).
    unfold decode in Hd. cbn [type_depth deserialize] in Hd. unfold product_decode.
    cbn [type_depth pred]. destruct (visit_seq_product _ _ _) as [[p' r]| | |]; by simplify_eq/=.
Qed.

#[export] Instance mock_visitor_laws ty : VisitorLaws (mock_visitor ty).
Proof.
  refine {| on_insert _ p _ _ := row_ok ty p; on_delete _ p _ _ := row_ok ty p;
            on_skip _ p _ _ := row_ok ty p |};
    intros tid p [] [] (bs & Hbs & Hr)%product_reads; exists bs; (split; [done|]);
    intros rest; cbn; unfold dbind, read_with; cbn [fst snd]; by rewrite Hr.
Defined.

(** Records: the transaction between the visits of its start and its end. *)
Section records_laws.
Context {V T E : Type} `{!Encode T, !SizeOf T} (visitor : Visitor V T E) `{!VisitorLaws visitor}.

Lemma runs_decode_record version off t v v' :
  version ≤ TXDATA_VERSION → txdata_fits t → replay_record visitor off t v v' →
  ∃ bs, encodes t bs ∧ runs (decode_record_fn visitor version off) v bs t v'.
Proof using Type.
  intros Hv Hfit (v1 & v2 & Hstart & Hrep & Hend).
  destruct (runs_txdata visitor t v1 v2 Hfit Hrep) as (bs & Hbs & Hr).
  exists bs. split; [done|]. intros rest. unfold decode_record_fn, process_record.
  rewrite (proj2 (Z.ltb_ge _ _)) by done. unfold dbind, map_visitor_err, visit. cbn [fst snd].
  rewrite Hstart, Hr. cbn [fst snd]. by rewrite Hend.
Qed.

Lemma runs_skip_record version t v v' :
  version ≤ TXDATA_VERSION → txdata_fits t → replay_skip visitor t v v' →
  ∃ bs, encodes t bs ∧ runs (skip_record_fn visitor version) v bs tt v'.
Proof using Type.
  intros Hv Hfit Hrep. destruct (runs_txdata_skip visitor t v v' Hfit Hrep) as (bs & Hbs & Hr).
  exists bs. split; [done|]. intros rest. unfold skip_record_fn.
  rewrite (proj2 (Z.ltb_ge _ _)) by done. unfold map_visitor_err. by rewrite Hr.
Qed.

Lemma consume_decode_record version off s res s' :
  decode_record_fn visitor version off s = (res, s') → res ≠ Panic →
  consume_record_fn visitor version off s = (rmap (λ _, tt) res, s').
Proof using Type.
  intros Hd Hp. destruct (agrees_process visitor version off _ _ (agrees_txdata visitor) s)
    as [Hx|[Hr Hs]]; unfold decode_record_fn in Hd; rewrite Hd in *; [done|]. cbn [fst snd] in *.
  unfold consume_record_fn. clear Hd.
  destruct (process_record _ _ _ (txdata_consume visitor) s) as [[[]| | |] s2];
    destruct res; by simplify_eq/=.
Qed.

Lemma runs_consume_record version off t v v' bs :
  runs (decode_record_fn visitor version off) v bs t v' →
  runs (consume_record_fn visitor version off) v bs tt v'.
Proof using Type. intros Hr rest. by eapply (consume_decode_record _ _ _ (Ok t)). Qed.
End records_laws.

(** ** The theorems *)

(** C38. A transaction record survives encoding: for every visitor that keeps its
    promise, decoding what was appended gives the transaction back, reads no
    byte of what follows, and shows the visitor the start of the transaction,
    every part of it in order, and its end; skipping the record instead moves
    the reader to the same place and shows the visitor nothing but rows to
    skip. *)
Theorem txdata_roundtrip {V T E} `{Encode T, SizeOf T} (visitor : Visitor V T E)
    `{!VisitorLaws visitor} version off t v v' v'' w :
  version ≤ TXDATA_VERSION → txdata_fits t →
  replay_record visitor off t v v' → replay_skip visitor t v v'' →
  ∃ bs, encode_record t w = Ok (w ++ bs) ∧ ∀ rest,
    decode_record_fn visitor version off (v, bs ++ rest) = (Ok t, (v', rest)) ∧
    skip_record_fn visitor version (v, bs ++ rest) = (Ok tt, (v'', rest)).
Proof.
  intros Hv Hfit Hrep Hskip.
  destruct (runs_decode_record visitor version off t v v' Hv Hfit Hrep) as (bs & Hbs & Hr).
  destruct (runs_skip_record visitor version t v v'' Hv Hfit Hskip) as (bs' & Hbs' & Hr').
  rewrite (encodes_unique _ _ _ Hbs' Hbs) in Hr'. exists bs. split; [apply Hbs|].
  intros rest. by rewrite Hr, Hr'.
Qed.

(** Consuming a record is decoding it without its value, for every visitor and
    on any bytes: the same error, the same visits and the same position, unless
    decoding panics. *)
Theorem txdata_consume_record {V T E} `{SizeOf T} (visitor : Visitor V T E) version off s res s' :
  decode_record_fn visitor version off s = (res, s') → res ≠ Panic →
  consume_record_fn visitor version off s = (rmap (λ _, tt) res, s').
Proof. apply consume_decode_record. Qed.

(** [Inputs::decode] subtracts lengths it has not compared: when the length
    prefix does not cover the name, it panics with overflow checks. *)
Theorem inputs_decode_underflow len name rest :
  in_u 32 len → varchar_ok name → len < 1 + Z.of_nat (length name) →
  inputs_decode (le_bytes 4 len ++ varchar_bytes name ++ rest) = Panic.
Proof.
  intros Hl Hs Hlt. unfold inputs_decode, get_u32.
  rewrite (reads_uint "u32" 4) by done. cbn [rbind].
  destruct (get_varchar name rest Hs) as [-> Hg]. cbn [rbind]. rewrite Hg. cbn [rbind].
  destruct (varchar_len _ Hs) as [_ ->]. destruct Hs as [-> _].
  by rewrite (proj2 (Z.ltb_lt _ 0)) by lia.
Qed.

(** Decoding mutations allocates for the number of operations before it has
    seen them: a number that is too large panics, where consuming the same
    record reports the end of the input. *)
Theorem txdata_decode_capacity {V T E} `{SizeOf T} (visitor : Visitor V T E) v n :
  in_u 64 n → isize_MAX < size_of_ops * n →
  (txdata_decode visitor (v, x20 :: varint_bytes 10 n)).1 = Panic ∧
  (txdata_consume visitor (v, x20 :: varint_bytes 10 n)).1 =
    Err (from_decode_error visitor (BufferLength "u32" 4 0)).
Proof.
  intros Hn Hcap. rewrite <-(app_nil_r (varint_bytes _ _)).
  assert (∃ k, Z.to_nat n = S k) as [k Hk].
  { exists (pred (Z.to_nat n)). unfold size_of_ops, isize_MAX in Hcap. lia. }
  unfold txdata_decode, txdata_consume, dbind, dwhen, dwhen_, read, read_with. cbn [fst snd].
  rewrite get_u8_cons. change (byte_to_Z x20) with 32.
  change (flags_contains 32 HAVE_INPUTS) with false.
  change (flags_contains 32 HAVE_OUTPUTS) with false.
  change (flags_contains 32 HAVE_MUTATIONS) with true. cbv iota. unfold dret.
  unfold mutations_decode, mutations_consume, ops_decode, ops_consume, dbind, read, read_with.
  cbn [fst snd]. rewrite decode_varint_bytes by done. unfold with_capacity.
  rewrite (proj2 (Z.ltb_lt _ _)) by done. split; [done|]. by rewrite Hk.
Qed.

(** ** A transaction to try the theorems on

    The row of the tests, inserted twice into table 4096, and a truncated table. *)
Module Examples.
Definition some_ty : list ProductTypeElement :=
  [{| el_name := Some "id"; el_type := TInt U64 |};
   {| el_name := Some "name"; el_type := TString |};
   {| el_name := Some "x"; el_type := TInt U32 |}].

Definition some_pv : ProductValue :=
  MkProductValue [VInt U64 42; VString [x6b; x65; x72; x6d; x69; x74]; VInt U32 4].

Definition some_tx : Txdata ProductValue :=
  {| inputs := Some {| reducer_name := [x61; x64; x64]; reducer_args := [x01; x02] |};
     outputs := Some {| reducer_output := [] |};
     mutations := Some
       {| inserts := [{| ops_table_id := 4096; rowdata := [some_pv; some_pv] |}];
          deletes := [{| ops_table_id := 1; rowdata := [] |}];
          truncates := [4097] |} |}.

Lemma some_row_ok : row_ok some_ty some_pv.
Proof.
  split; [done|]. exists (TProduct some_ty). split; [by constructor|].
  cbn. split_and!; [| | |done]; (eexists; split; [by constructor|by vm_compute]).
Qed.

Lemma some_tx_fits : txdata_fits some_tx.
Proof. repeat (split || constructor); by vm_compute. Qed.

Lemma some_tx_replays off : replay_record (mock_visitor some_ty) off some_tx tt tt.
Proof.
  exists tt, tt. split; [reflexivity|]. split; [|reflexivity].
  exists tt, tt. split; [reflexivity|]. split; [reflexivity|]. exists tt, tt.
  split; [|split]; repeat (exists tt || split || apply some_row_ok).
Qed.

Lemma some_tx_skips : replay_skip (mock_visitor some_ty) some_tx tt tt.
Proof. exists tt. split; repeat (exists tt || split || apply some_row_ok). Qed.

Lemma txdata_roundtrip_witness :
  ∃ bs, encode_record some_tx [] = Ok ([] ++ bs) ∧ ∀ rest,
    decode_record_fn (mock_visitor some_ty) 1 7 (tt, bs ++ rest) = (Ok some_tx, (tt, rest)) ∧
    skip_record_fn (mock_visitor some_ty) 1 (tt, bs ++ rest) = (Ok tt, (tt, rest)).
Proof.
  apply (txdata_roundtrip (mock_visitor some_ty)) with (v' := tt) (v'' := tt);
    [by vm_compute|apply some_tx_fits|apply some_tx_replays|apply some_tx_skips].
Defined.

(** A record that ends in the middle of its inputs. *)
Lemma txdata_consume_record_witness :
  consume_record_fn (mock_visitor some_ty) 1 7 (tt, [x80; x05; x00; x00; x00; x03; x61]) =
    (Err (VisitorError (BufferLength "[u8]" 3 1)), (tt, [x05; x00; x00; x00; x03; x61])).
Proof.
  apply (txdata_consume_record (mock_visitor some_ty) 1 7 _
    (Err (VisitorError (BufferLength "[u8]" 3 1)))); [vm_compute; reflexivity|discriminate].
Defined.

Lemma inputs_decode_underflow_witness :
  inputs_decode (le_bytes 4 1 ++ varchar_bytes [x61] ++ []) = Panic.
Proof.
  apply inputs_decode_underflow; [by vm_compute|split; [reflexivity|simpl; lia]|simpl; lia].
Defined.

Lemma txdata_decode_capacity_witness :
  (txdata_decode (mock_visitor some_ty) (tt, x20 :: varint_bytes 10 (2 ^ 60))).1 = Panic ∧
  (txdata_consume (mock_visitor some_ty) (tt, x20 :: varint_bytes 10 (2 ^ 60))).1 =
    Err (BufferLength "u32" 4 0).
Proof. apply (txdata_decode_capacity (mock_visitor some_ty)); by vm_compute. Defined.
End Examples.
