(* ===== verification/CommitlogRead.v ===== *)
(** * Reading a commitlog back

    What the segments of a log hold on disk ([seg_file], [layout]): contiguous
    commits and possibly the torn front of one whose write failed.  The
    iterator of commitlog.rs over such segments yields exactly the commits from
    the requested offset on, whether or not offset indexes are used. *)

From Stdlib Require Import ZArith Lia Sorted.
From stdpp Require Import gmap.
From S2P Require Import Prelude Buffer Commit IndexFile Repo Segment Commitlog.
Local Open Scope Z_scope.
Local Open Scope result_scope.

(** ** Contiguous commits *)

Definition tx_end (c : Commit) : Z := min_tx_offset c + n c.

Fixpoint chain (a : Z) (cs : list Commit) : Prop :=
  match cs with
  | [] => True
  | c :: cs => min_tx_offset c = a ∧ 0 < n c ∧ commit_wf c ∧ chain (a + n c) cs
  end.

Fixpoint chain_end (a : Z) (cs : list Commit) : Z :=
  match cs with
  | [] => a
  | c :: cs => chain_end (a + n c) cs
  end.

Lemma chain_app a cs cs' : chain a (cs ++ cs') ↔ chain a cs ∧ chain (chain_end a cs) cs'.
Proof. revert a. induction cs as [|c cs IH]; intros a; simpl; [tauto|]. rewrite IH. tauto. Qed.

Lemma chain_end_app a cs cs' : chain_end a (cs ++ cs') = chain_end (chain_end a cs) cs'.
Proof. revert a. induction cs as [|c cs IH]; intros a; simpl; [done|]. by rewrite IH. Qed.

Lemma chain_end_le a cs : chain a cs → a ≤ chain_end a cs.
Proof.
  revert a. induction cs as [|c cs IH]; intros a; simpl; [lia|].
  intros (_ & Hn & _ & Hc). specialize (IH _ Hc). lia.
Qed.

Lemma chain_end_lt a cs : chain a cs → cs ≠ [] → a < chain_end a cs.
Proof.
  destruct cs as [|c cs]; simpl; [done|]. intros (_ & Hn & _ & Hc) _.
  apply chain_end_le in Hc. lia.
Qed.

Lemma chain_bounds a cs c : chain a cs → c ∈ cs → a ≤ min_tx_offset c ∧ tx_end c ≤ chain_end a cs.
Proof.
  intros Hc Hin. apply list_elem_of_split in Hin as (l1 & l2 & ->).
  apply chain_app in Hc as [H1 (Hm & Hn & _ & H2)]. rewrite chain_end_app. simpl.
  apply chain_end_le in H1, H2. unfold tx_end. lia.
Qed.

(** The commits from the one that holds [off] on. *)
Fixpoint skip (off : Z) (cs : list Commit) : list Commit :=
  match cs with
  | [] => []
  | c :: cs => if tx_end c <=? off then skip off cs else c :: cs
  end.

Lemma skip_app_left off cs cs' :
  Forall (λ c, tx_end c ≤ off) cs → skip off (cs ++ cs') = skip off cs'.
Proof.
  induction 1 as [|c cs Hc _ IH]; [done|]. simpl. by rewrite (proj2 (Z.leb_le _ _)) by done.
Qed.

Lemma skip_nil off cs : skip off cs = [] → Forall (λ c, tx_end c ≤ off) cs.
Proof.
  induction cs as [|c cs IH]; simpl; [constructor|].
  destruct (Z.leb_spec (tx_end c) off); [|done]. intros. constructor; auto.
Qed.

Lemma skip_filter a off cs : chain a cs → skip off cs = filter (λ c, off < tx_end c) cs.
Proof.
  revert a. induction cs as [|c cs IH]; intros a; simpl; [done|].
  intros (Hm & Hn & Hwf & Hc). destruct (Z.leb_spec (tx_end c) off).
  - rewrite filter_cons_False by lia. eauto.
  - rewrite filter_all; [done|]. constructor; [done|]. apply Forall_forall. intros d Hd.
    apply (chain_bounds _ _ _ Hc) in Hd as Hb. unfold tx_end in *.
    assert (0 < n d); [|lia].
    apply list_elem_of_split in Hd as (l1 & l2 & ->). apply chain_app in Hc as [_ Hc].
    by destruct Hc as (_ & ? & _).
Qed.

(** ** Segments on disk *)

Record SegLayout := {
  s_off : Z;
  s_commits : list Commit;
  s_torn : list byte
}.

Section with_crc.
Context (crc32c : list byte → Z).
Hypothesis crc_range : ∀ l, in_u 32 (crc32c l).
Context (opts : Options).
Hypothesis version_ok : 1 ≤ opt_log_format_version opts ≤ 255.

Definition stored (c : Commit) : StoredCommit :=
  {| sc_commit := c; sc_checksum := crc32c (commit_body c) |}.

Fixpoint enc (cs : list Commit) : list byte :=
  match cs with
  | [] => []
  | c :: cs => commit_write crc32c c ++ enc cs
  end.

Lemma enc_app cs cs' : enc (cs ++ cs') = enc cs ++ enc cs'.
Proof using. induction cs; simpl; [done|]. by rewrite <-app_assoc, IHcs. Qed.

(** What a failed write leaves behind. *)
Definition torn_ok (t : list byte) : Prop :=
  ∃ c k, commit_wf c ∧ (k < length (commit_write crc32c c))%nat ∧
         t = take k (commit_write crc32c c).

Definition seg_file (s : SegLayout) : list byte :=
  header_write (new_header opts) ++ enc (s_commits s) ++ s_torn s.

Fixpoint layout (a : Z) (segs : list SegLayout) : Prop :=
  match segs with
  | [] => True
  | s :: segs =>
      s_off s = a ∧ chain a (s_commits s) ∧ torn_ok (s_torn s) ∧
      layout (chain_end a (s_commits s)) segs
  end.

Fixpoint layout_end (a : Z) (segs : list SegLayout) : Z :=
  match segs with
  | [] => a
  | s :: segs => layout_end (chain_end a (s_commits s)) segs
  end.

Definition all_commits (segs : list SegLayout) : list Commit := segs ≫= s_commits.

(** An index points at commits of its segment. *)
Definition index_sound (s : SegLayout) (idx : IndexFile) : Prop :=
  index_wf idx ∧
  ∀ k b, (k, b) ∈ entries idx → ∃ pre c post,
    s_commits s = pre ++ c :: post ∧ k = min_tx_offset c ∧
    b = Z.of_nat (Header_LEN + length (enc pre)).

Definition repo_segs (r : Repo) (segs : list SegLayout) : Prop :=
  ∀ s, s ∈ segs →
    segments r !! s_off s = Some (seg_file s) ∧
    ∀ idx, get_offset_index r (s_off s) = Ok idx → index_sound s idx.

Lemma length_header_write h : length (header_write h) = Header_LEN.
Proof using. unfold header_write. rewrite !length_app, !length_le_bytes. done. Qed.

Lemma header_decode_write h r :
  in_u 8 (log_format_version h) → in_u 8 (checksum_algorithm h) →
  header_decode (header_write h ++ r) = Ok (h, r).
Proof using.
  intros Hv Ha. unfold header_decode.
  rewrite read_exact_app by apply length_header_write. cbn [rbind]. unfold header_write.
  rewrite take_app_length' by done. rewrite decide_True by done.
  rewrite (field_at MAGIC) by (done || apply length_le_bytes).
  rewrite app_assoc.
  rewrite (field_at (_ ++ _)) by (rewrite ?length_app, ?length_le_bytes; done).
  rewrite !le_val_le_bytes_u by done. by destruct h.
Qed.

Lemma new_header_decode r :
  header_decode (header_write (new_header opts) ++ r) = Ok (new_header opts, r).
Proof using version_ok.
  apply header_decode_write; unfold in_u, new_header, CHECKSUM_ALGORITHM_CRC32C;
    cbn [log_format_version checksum_algorithm]; lia.
Qed.

Definition layout_reader (s : SegLayout) (rest : list Commit) : Reader :=
  {| rd_header := new_header opts; rd_min_tx_offset := s_off s; rd_file := seg_file s;
     rd_inner := enc rest ++ s_torn s |}.

Lemma open_segment_reader_ok r s v :
  segments r !! s_off s = Some (seg_file s) → opt_log_format_version opts ≤ v →
  open_segment_reader r v (s_off s) = Ok (layout_reader s (s_commits s)).
Proof using version_ok.
  intros Hs Hv. unfold open_segment_reader, open_segment. rewrite Hs. cbn [rbind].
  unfold Reader_new. unfold seg_file at 1. rewrite new_header_decode. cbn [rbind].
  unfold ensure_compatible. simpl. by rewrite (proj2 (Z.ltb_ge _ _)) by lia.
Qed.

Lemma key_lookup_cases idx key : index_wf idx → 0 ≤ key →
  (∃ e, key_lookup idx key = Ok e ∧ e ∈ entries idx ∧ e.1 ≤ key) ∨
  (∃ e, key_lookup idx key = Err e).
Proof using.
  intros Hwf Hkey. destruct (decide (inner idx = [])) as [Hi|Hi].
  - right. unfold key_lookup, find_index.
    assert (num_entries idx = O) as ->.
    { destruct Hwf as [Hl _]. rewrite Hi in Hl. simpl in Hl. lia. }
    simpl. unfold index_lookup. rewrite Hi. simpl. eauto.
  - destruct (find_index_spec idx Hwf key Hi Hkey) as [(i & e & Hf & He & Hle & _)|[Hf _]].
    + left. exists e. unfold key_lookup. rewrite Hf. cbn [rbind].
      destruct (index_lookup_entry idx Hwf i) as (e' & He' & ->).
      { apply lookup_lt_Some in He. by rewrite entries_length in He. }
      simplify_eq. split_and!; [done| |done]. by eapply list_elem_of_lookup_2.
    + right. unfold key_lookup. rewrite Hf. simpl. eauto.
Qed.

(** A byte offset of a sound index leads to the header of its commit. *)
Lemma seg_file_at s pre post : s_commits s = pre ++ post →
  drop (Header_LEN + length (enc pre)) (seg_file s) = enc post ++ s_torn s.
Proof using.
  intros Hs. unfold seg_file. rewrite Hs, enc_app, <-(app_assoc (enc pre)), app_assoc.
  apply drop_app_length'. by rewrite length_app, length_header_write.
Qed.

Lemma commit_write_header c r : commit_wf c →
  ∃ h r', decode_v1 (commit_write crc32c c ++ r) = Ok (Some h, r') ∧
    hdr_min_tx_offset h = min_tx_offset c.
Proof using.
  intros Hwf. unfold commit_write. rewrite commit_body_header, <-!app_assoc.
  rewrite decode_v1_app by apply length_header_bytes. eexists _, _. split; [done|].
  by apply header_bytes_fields.
Qed.

Lemma seek_ok s idx a off :
  index_sound s idx → chain a (s_commits s) → 0 ≤ off →
  (∃ pre c post, s_commits s = pre ++ c :: post ∧ min_tx_offset c ≤ off ∧
     key_lookup idx off = Ok (min_tx_offset c, Z.of_nat (Header_LEN + length (enc pre))) ∧
     seek_to_offset (layout_reader s (s_commits s)) idx off = Ok (layout_reader s (c :: post))) ∨
  (∃ e, key_lookup idx off = Err e ∧
        seek_to_offset (layout_reader s (s_commits s)) idx off = Err (SeekIndex e)).
Proof using.
  intros [Hwf Hidx] Hc Hoff. unfold seek_to_offset.
  destruct (key_lookup_cases idx off Hwf Hoff) as [([k b] & -> & Hin & Hle)|[e ->]];
    [left|right; eauto].
  assert (0 < k) as Hk.
  { apply list_elem_of_lookup in Hin as [i Hi]. apply (entries_key_pos idx Hwf _ _ Hi). }
  destruct (Hidx _ _ Hin) as (pre & c & post & Hs & -> & ->).
  exists pre, c, post. split_and!; [done|done|done|].
  rewrite (proj2 (Z.eqb_neq _ _)) by lia.
  unfold validate_commit_header. cbn [rd_file layout_reader].
  rewrite Nat2Z.id, (seg_file_at _ _ _ Hs).
  rewrite Hs in Hc. apply chain_app in Hc as [_ (_ & _ & Hwfc & _)].
  cbn [enc]. rewrite <-app_assoc.
  destruct (commit_write_header c (enc post ++ s_torn s) Hwfc) as (h & r' & -> & Hh).
  cbn [rbind]. rewrite Hh, Z.eqb_refl. unfold layout_reader. simpl. by rewrite <-app_assoc.
Qed.

(** Seeking leaves out only commits before the offset. *)
Lemma try_seek_ok it s a :
  (∀ idx, get_offset_index (it_repo it) (s_off s) = Ok idx → index_sound s idx) →
  chain a (s_commits s) →
  (∀ off, it_last_commit it = Initial off → 0 ≤ off) →
  ∃ pre post, s_commits s = pre ++ post ∧ (pre ≠ [] → post ≠ []) ∧
    try_seek_to_initial_offset it (layout_reader s (s_commits s)) = layout_reader s post ∧
    match it_last_commit it with
    | Initial off => Forall (λ c, tx_end c ≤ off) pre
    | LastSeen _ _ => pre = []
    end.
Proof using.
  intros Hidx Hc Hoff. unfold try_seek_to_initial_offset.
  destruct (it_last_commit it) as [off|]; [|by exists [], (s_commits s)].
  specialize (Hoff off eq_refl). cbn [rd_min_tx_offset layout_reader].
  destruct (get_offset_index _ _) as [idx| | |]; try (by exists [], (s_commits s)).
  destruct (seek_ok s idx a off) as [(pre & c & post & Hs & Hle & _ & Hseek)|(e & _ & Hseek)];
    [by apply Hidx|done|done|rewrite Hseek..].
  - exists pre, (c :: post). split_and!; [done|done|done|].
    rewrite Hs in Hc. apply chain_app in Hc as [Hpre (Hm & _ & _ & _)].
    apply Forall_forall. intros d Hd. destruct (chain_bounds _ _ _ Hpre Hd) as [_ ?].
    simplify_eq. lia.
  - by exists [], (s_commits s).
Qed.

(** ** One segment *)

Definition seg_iter (bytes : list byte) : option SegCommits :=
  Some {| sc_header := new_header opts; sc_reader := bytes |}.

(** The pending error once the rest of a segment has been read. *)
Definition upd_err (cs : list Commit) (t : list byte) (e : option Traversal) :
    option Traversal :=
  if (CommitHeader_LEN <=? length t)%nat then Some (TraversalIo UnexpectedEof)
  else match cs with [] => e | _ => None end.

Definition info_ok (i : CommitInfo) (a : Z) : Prop :=
  match i with
  | Initial off => 0 ≤ off
  | LastSeen (s, e) _ => e = a ∧ s < a
  end.

Definition out (i : CommitInfo) (cs : list Commit) : list Commit :=
  match i with
  | Initial off => skip off cs
  | LastSeen _ _ => cs
  end.

Definition seen (c : Commit) : CommitInfo := LastSeen (min_tx_offset c, tx_end c) (crc32c (commit_body c)).

Lemma seg_next_torn t : torn_ok t →
  seg_commits_next crc32c {| sc_header := new_header opts; sc_reader := t |} =
  (if (CommitHeader_LEN <=? length t)%nat then Err UnexpectedEof else Ok None,
   {| sc_header := new_header opts; sc_reader := [] |}).
Proof using version_ok.
  intros (c & k & Hwf & Hk & ->). unfold seg_commits_next. cbn [sc_header sc_reader].
  rewrite decode_internal_torn by (done || (simpl; lia)).
  rewrite length_take_le by lia.
  destruct (Nat.ltb_spec k CommitHeader_LEN), (Nat.leb_spec CommitHeader_LEN k);
    (done || lia).
Qed.

Lemma seg_next_commit c r : commit_wf c →
  seg_commits_next crc32c
    {| sc_header := new_header opts; sc_reader := commit_write crc32c c ++ r |} =
  (Ok (Some (stored c)), {| sc_header := new_header opts; sc_reader := r |}).
Proof using crc_range version_ok.
  intros Hwf. unfold seg_commits_next. cbn [sc_header sc_reader].
  by rewrite decode_internal_write by (done || (simpl; lia)).
Qed.

Lemma it_set_twice i1 i2 a1 a2 e1 e2 it :
  it_set i1 a1 e1 (it_set i2 a2 e2 it) = it_set i1 a1 e1 it.
Proof using. done. Qed.

Lemma next_commit_loop_spec fuel it cs t a :
  it_inner it = seg_iter (enc cs ++ t) → chain a cs → torn_ok t →
  info_ok (it_last_commit it) a → (length (enc cs ++ t) < fuel)%nat →
  next_commit_loop crc32c fuel it =
  match out (it_last_commit it) cs with
  | [] => (Ok None, it_set (seg_iter []) (it_last_commit it)
                      (upd_err cs t (it_last_error it)) it)
  | c :: rest => (Ok (Some (inr (stored c))), it_set (seg_iter (enc rest ++ t)) (seen c) None it)
  end.
Proof using crc_range version_ok.
  revert it cs a. induction fuel as [|fuel IH]; intros it cs a Hin Hc Ht Hi Hf; [lia|].
  cbn [next_commit_loop]. rewrite Hin. unfold seg_iter at 1. destruct cs as [|c cs].
  { cbn [enc app]. rewrite seg_next_torn by done. unfold upd_err.
    replace (out _ []) with ([] : list Commit) by (by destruct (it_last_commit it)).
    by destruct (Nat.leb_spec CommitHeader_LEN (length t)). }
  destruct Hc as (Hm & Hn & Hwf & Hc). cbn [enc]. rewrite <-app_assoc.
  rewrite seg_next_commit by done. cbn [stored sc_commit].
  destruct (it_last_commit it) as [off|[s e] chk] eqn:Hlc; cbn [adjust_initial_offset].
  - cbn [sc_commit stored out skip]. unfold tx_end.
    destruct Hwf as ([? _] & _ & _ & _ & [_ Hmax]).
    rewrite (proj2 (Z.ltb_ge u64_MAX _)), (proj2 (Z.ltb_ge _ 0)) by (unfold u64_MAX; lia).
    cbn [orb]. destruct (Z.ltb_spec (min_tx_offset c + n c - 1) off), (Z.leb_spec (min_tx_offset c + n c) off);
      [|lia|lia|].
    + rewrite (IH _ cs (a + n c)); [|done|done|done|done|].
      * cbn [it_last_commit it_set it_last_error out]. destruct (skip off cs) eqn:Hsk; [|done].
        rewrite it_set_twice. do 2 f_equal. unfold upd_err.
        destruct (_ <=? _)%nat; [done|by destruct cs].
      * cbn [enc] in Hf. rewrite !length_app in *. pose proof (length_commit_write crc32c c).
        unfold encoded_len, FRAMING_LEN, CommitHeader_LEN in *. lia.
    + cbn [same_offset_as expected_offset]. rewrite Z.eqb_refl. by rewrite tx_range_Ok.
  - destruct Hi as [-> Hs]. cbn [same_offset_as expected_offset fst snd stored sc_commit].
    rewrite (proj2 (Z.eqb_neq s _)) by lia. rewrite (tx_range_wf c Hwf), Hm, Z.eqb_refl. by rewrite <-Hm.
Qed.

(** ** The whole log *)

(** The iterator is in a segment with [cs] and [t] ahead, [segs] follow. *)
Record todo (it : Commits) (cs : list Commit) (t : list byte) (segs : list SegLayout)
    (a : Z) : Prop := {
  todo_inner : it_inner it = seg_iter (enc cs ++ t) ∨
               it_inner it = None ∧ cs = [] ∧ t = [];
  todo_offs : it_offs it = s_off <$> segs;
  todo_version : opt_log_format_version opts ≤ it_max_log_format_version it;
  todo_repo : repo_segs (it_repo it) segs;
  todo_torn : torn_ok t;
  todo_chain : chain a cs;
  todo_layout : layout (chain_end a cs) segs;
  todo_info : info_ok (it_last_commit it) a
}.

(** The error left when all segments have been read. *)
Fixpoint trailing (e : option Traversal) (segs : list SegLayout) : option Traversal :=
  match segs with
  | [] => e
  | s :: segs => trailing (upd_err (s_commits s) (s_torn s) e) segs
  end.

Lemma torn_ok_nil : torn_ok [].
Proof using.
  exists {| min_tx_offset := 0; epoch := 0; n := 0; records := [] |}, O.
  split_and!; [by vm_compute| |done].
  unfold commit_write. rewrite length_app, length_commit_body. unfold CommitHeader_LEN. lia.
Qed.

Lemma next_commit_spec it cs t segs a : todo it cs t segs a →
  match out (it_last_commit it) cs with
  | [] => ∃ inner, (inner = seg_iter [] ∨ inner = None) ∧
      next_commit crc32c it =
      (Ok None, it_set inner (it_last_commit it) (upd_err cs t (it_last_error it)) it)
  | c :: rest => next_commit crc32c it =
      (Ok (Some (inr (stored c))), it_set (seg_iter (enc rest ++ t)) (seen c) None it)
  end.
Proof using crc_range version_ok.
  intros H. destruct (todo_inner _ _ _ _ _ H) as [Hin|(Hin & -> & ->)].
  - pose proof (next_commit_loop_spec (S (length (enc cs ++ t))) it cs t a Hin
      (todo_chain _ _ _ _ _ H) (todo_torn _ _ _ _ _ H) (todo_info _ _ _ _ _ H) ltac:(lia)) as Hs.
    unfold next_commit. rewrite Hin. unfold seg_iter at 1. cbn [sc_reader].
    destruct (out _ cs); [|done]. eexists. split; [by left|done].
  - replace (out _ []) with ([] : list Commit) by (by destruct (it_last_commit it)).
    exists None. split; [by right|]. unfold next_commit. rewrite Hin. simpl. rewrite Hin.
    unfold it_set. destruct it; simpl in *. by subst.
Qed.

Lemma skip_suffix off cs c rest : skip off cs = c :: rest →
  ∃ pre, cs = pre ++ c :: rest ∧ Forall (λ c, tx_end c ≤ off) pre.
Proof using.
  induction cs as [|d cs IH]; simpl; [done|]. destruct (Z.leb_spec (tx_end d) off).
  - intros Hs. destruct (IH Hs) as (pre & -> & ?). exists (d :: pre). split; [done|by constructor].
  - intros [= -> ->]. by exists [].
Qed.

Lemma out_suffix i cs c rest : out i cs = c :: rest → ∃ pre, cs = pre ++ c :: rest.
Proof using.
  destruct i; simpl; intros Hs; [|by exists []].
  by apply skip_suffix in Hs as (pre & -> & _); exists pre.
Qed.

Lemma out_app i cs cs' :
  out i (cs ++ cs') = match out i cs with [] => out i cs' | _ => out i cs ++ cs' end.
Proof using.
  destruct i as [off|]; simpl; [|by destruct cs].
  induction cs as [|c cs IH]; simpl; [done|]. by destruct (_ <=? off).
Qed.

Lemma chain_suffix a pre c rest : chain a (pre ++ c :: rest) →
  chain (tx_end c) rest ∧ chain_end (tx_end c) rest = chain_end a (pre ++ c :: rest) ∧
  min_tx_offset c < tx_end c.
Proof using.
  intros [_ (Hm & Hn & _ & Hc)]%chain_app. rewrite chain_end_app. simpl.
  unfold tx_end. rewrite Hm. split_and!; [done|done|lia].
Qed.

Lemma todo_yield it cs t segs a c rest :
  todo it cs t segs a → out (it_last_commit it) cs = c :: rest →
  todo (it_set (seg_iter (enc rest ++ t)) (seen c) None it) rest t segs (tx_end c) ∧
  upd_err rest t None = upd_err cs t (it_last_error it).
Proof using.
  intros [_ ? ? ? ? Hch Hlay _] Hout. destruct (out_suffix _ _ _ _ Hout) as [pre ->].
  destruct (chain_suffix _ _ _ _ Hch) as (Hc1 & Hc2 & Hlt). split.
  - constructor; try done; [by left|by rewrite Hc2].
  - unfold upd_err. destruct (_ <=? _)%nat; [done|by destruct pre, rest].
Qed.

(** [Iterator::next] yields the next commit due, or ends with the pending
    error. *)
Lemma commits_next_spec segs it cs t a : todo it cs t segs a →
  match out (it_last_commit it) (cs ++ all_commits segs) with
  | c :: rest => ∃ it' cs' t' segs',
      commits_next_loop crc32c (it_offs it) it = (Ok (Some (inr (stored c))), it') ∧
      todo it' cs' t' segs' (tx_end c) ∧ it_last_commit it' = seen c ∧
      current_segment_header it' = Some (new_header opts) ∧ cs' ++ all_commits segs' = rest ∧
      trailing (upd_err cs' t' (it_last_error it')) segs' =
      trailing (upd_err cs t (it_last_error it)) segs
  | [] => ∃ it', commits_next_loop crc32c (it_offs it) it =
      (Ok (inl <$> trailing (upd_err cs t (it_last_error it)) segs), it') ∧
      todo it' [] [] [] (layout_end (chain_end a cs) segs) ∧ it_last_error it' = None
  end.
Proof using crc_range version_ok.
  revert it cs t a. induction segs as [|s segs IH]; intros it cs t a H;
    pose proof H as [_ Hoffs Hver Hrepo Htorn Hch Hlay Hinfo];
    rewrite out_app; pose proof (next_commit_spec _ _ _ _ _ H) as Hnext;
    rewrite Hoffs; cbn [fmap list_fmap commits_next_loop];
    (destruct (out (it_last_commit it) cs) as [|c rest] eqn:Hout;
     [destruct Hnext as (inner & Hinner & ->)|rewrite Hnext]).
  2,4: destruct (todo_yield _ _ _ _ _ _ _ H Hout) as [Htodo Herr];
    cbn [app]; eexists _, rest, t, _; split_and!; [done|done|done|done|done|];
    cbn [it_set it_last_error]; by rewrite Herr.
  - replace (out _ (all_commits [])) with ([] : list Commit) by (by destruct (it_last_commit it)).
    eexists. split; [done|]. split; [|done].
    constructor; simpl; auto using torn_ok_nil.
    + destruct Hinner as [->| ->]; [by left|by right].
    + destruct (it_last_commit it) as [|[s e] ?]; simpl in *; [done|].
      apply chain_end_le in Hch. cbn [out] in Hout. subst cs. simpl in *. lia.
  - destruct Hlay as (Hso & Hsc & Hst & Hlay).
    cbn [it_repo it_max_log_format_version it_set].
    destruct (Hrepo s ltac:(by left)) as [Hfile Hidx].
    rewrite (open_segment_reader_ok _ s) by done.
    edestruct (try_seek_ok {| it_inner := inner; it_repo := it_repo it;
      it_offs := s_off <$> segs; it_max_log_format_version := it_max_log_format_version it;
      it_last_commit := it_last_commit it;
      it_last_error := upd_err cs t (it_last_error it) |} s)
      as (pre & post & Hs & Hne & Hseek & Hpre); [exact Hidx|exact Hsc| |].
    { simpl. intros off Heq. by rewrite Heq in Hinfo. }
    cbn [it_set it_inner it_repo it_offs it_max_log_format_version it_last_commit
         it_last_error] in *. rewrite Hseek.
    assert (chain_end a cs = a ∨ ∃ off, it_last_commit it = Initial off) as Ha.
    { destruct (it_last_commit it); [eauto|]. cbn [out] in Hout. subst cs. by left. }
    match goal with |- context [commits_next_loop _ _ ?i] => set (it1 := i) end.
    assert (todo it1 post (s_torn s) segs (chain_end (chain_end a cs) pre)) as Htodo.
    { constructor; simpl; [by left|done|done| |done| | |].
      - intros x Hx. apply Hrepo. by right.
      - rewrite Hs in Hsc. by apply chain_app in Hsc as [_ ?].
      - by rewrite <-chain_end_app, <-Hs.
      - destruct (it_last_commit it) as [|[s' e] ?]; [done|]. subst pre. simpl in *.
        by subst cs. }
    specialize (IH it1 post (s_torn s) _ Htodo).
    replace (out (it_last_commit it) (all_commits (s :: segs)))
      with (out (it_last_commit it1) (post ++ all_commits segs)).
    2:{ unfold all_commits. cbn [mbind list_bind]. rewrite Hs. unfold it1. simpl.
        rewrite <-app_assoc. destruct (it_last_commit it); simpl in *; [|by subst].
        symmetry. by apply skip_app_left. }
    replace (upd_err post (s_torn s) (it_last_error it1)) with
      (upd_err (s_commits s) (s_torn s) (upd_err cs t (it_last_error it))) in IH.
    2:{ unfold it1. simpl. unfold upd_err at 1 3. destruct (_ <=? _)%nat; [done|].
        rewrite Hs. destruct pre, post; try done. exfalso. by apply Hne. }
    rewrite <-chain_end_app, <-Hs in IH. exact IH.
Qed.

Lemma drain_spec fuel segs it cs t a :
  todo it cs t segs a →
  (length (out (it_last_commit it) (cs ++ all_commits segs)) +
   length (option_list (trailing (upd_err cs t (it_last_error it)) segs)) < fuel)%nat →
  drain crc32c fuel it =
  Ok ((inr ∘ stored <$> out (it_last_commit it) (cs ++ all_commits segs)) ++
      (inl <$> option_list (trailing (upd_err cs t (it_last_error it)) segs))).
Proof using crc_range version_ok.
  revert segs it cs t a. induction fuel as [|fuel IH]; intros segs it cs t a H Hf; [lia|].
  cbn [drain]. unfold commits_next. pose proof (commits_next_spec _ _ _ _ _ H) as Hn.
  destruct (out _ _) as [|c rest] eqn:Hout.
  - destruct Hn as (it' & -> & Htodo & Herr). destruct (trailing _ _) as [e|]; [|done].
    cbn [fmap option_fmap option_map].
    rewrite (IH _ _ _ _ _ Htodo); replace (out _ ([] ++ all_commits [])) with ([] : list Commit)
      by (by destruct (it_last_commit it'));
      unfold trailing, upd_err; simpl; rewrite Herr; [done|simpl in *; lia].
  - destruct Hn as (it' & cs' & t' & segs' & -> & Htodo & Hseen & _ & Hrest & Htr).
    rewrite (IH _ _ _ _ _ Htodo); rewrite Hseen; cbn [out seen]; rewrite Hrest, Htr;
      [done|simpl in Hf; lia].
Qed.
End with_crc.
