(* ===== verification/CommitlogInv.v ===== *)
(** * The invariant of a commitlog under operation

    Every operation of commitlog.rs, including ones whose writes fail half-way
    and crashes followed by reopening, keeps the log a contiguous sequence of
    the commits it has acknowledged.  [log_inv] is that invariant, [log_step]
    the operations as a transition relation, labelled by what they acknowledge. *)

From Stdlib Require Import ZArith Lia Sorted.
From stdpp Require Import gmap relations.
From S2P Require Import Prelude Buffer Commit IndexFile Repo Segment Commitlog CommitlogRead.
Local Open Scope Z_scope.
Local Open Scope result_scope.

Section with_crc.
Context (crc32c : list byte → Z).
Hypothesis crc_range : ∀ l, in_u 32 (crc32c l).
Context (opts : Options).
Hypothesis version_ok : 1 ≤ opt_log_format_version opts ≤ 255.

Local Abbreviation enc := (enc crc32c).
Local Abbreviation seg_file := (seg_file crc32c opts).
Local Abbreviation layout := (layout crc32c).
Local Abbreviation torn_ok := (torn_ok crc32c).
Local Abbreviation index_sound := (index_sound crc32c).
Local Abbreviation repo_segs := (repo_segs crc32c opts).

(** ** The invariant *)

(** [(k, b)] is a commit of the segment and where it starts. *)
Definition points_at (s : SegLayout) (k b : Z) : Prop :=
  ∃ pre c post, s_commits s = pre ++ c :: post ∧ k = min_tx_offset c ∧
    b = Z.of_nat (Header_LEN + length (enc pre)).

(** The offset index writer of the head segment. *)
Definition oi_inv (r : Repo) (s : SegLayout) (i : OffsetIndexWriter) : Prop :=
  (∃ m, indexes r = Some m ∧ m !! s_off s = Some (inner (oi_head i))) ∧
  index_sound s (oi_head i) ∧
  (candidate_min_tx_offset i = 0 ∨
   points_at s (candidate_min_tx_offset i) (candidate_byte_offset i)).

(** The repository holds exactly the segments [segs], and index files only
    for them. *)
Definition repo_exact (r : Repo) (segs : list SegLayout) : Prop :=
  repo_segs r segs ∧
  (∀ k, is_Some (segments r !! k) → k ∈ s_off <$> segs) ∧
  (∀ m k, indexes r = Some m → is_Some (m !! k) → k ∈ s_off <$> segs).

(** [init] are the segments of the tail, [hs] the one being written. *)
Record log_inv (a : Z) (g : Generic) (init : list SegLayout) (hs : SegLayout) : Prop := {
  inv_start : 0 ≤ a;
  inv_layout : layout a (init ++ [hs]);
  inv_nonempty : Forall (λ s, s_commits s ≠ []) init;
  inv_repo : repo_exact (repo g) (init ++ [hs]);
  inv_tail : tail g = s_off <$> init;
  inv_min : w_min_tx_offset (head g) = s_off hs;
  inv_next : next_tx_offset (head g) = layout_end a (init ++ [hs]);
  inv_bytes : w_bytes_written (head g) = Z.of_nat (Header_LEN + length (enc (s_commits hs)));
  inv_opts : Commitlog.opts g = opts;
  inv_index : ∀ i, offset_index_head (head g) = Some i → oi_inv (repo g) hs i
}.

(** ** Segments and their offsets *)

Lemma layout_app a segs segs' :
  layout a (segs ++ segs') ↔ layout a segs ∧ layout (layout_end a segs) segs'.
Proof using.
  clear version_ok. revert a.
  induction segs as [|s segs IH]; intros a; simpl; [tauto|]. rewrite IH. tauto.
Qed.

Lemma layout_end_app a segs segs' :
  layout_end a (segs ++ segs') = layout_end (layout_end a segs) segs'.
Proof using. revert a. induction segs as [|s segs IH]; intros a; simpl; [done|]. by rewrite IH. Qed.

Lemma layout_end_le a segs : layout a segs → a ≤ layout_end a segs.
Proof using.
  revert a. induction segs as [|s segs IH]; intros a; simpl; [lia|].
  intros (_ & Hc & _ & Hl). apply chain_end_le in Hc. apply IH in Hl. lia.
Qed.

Lemma layout_chain a segs : layout a segs →
  chain a (all_commits segs) ∧ chain_end a (all_commits segs) = layout_end a segs.
Proof using.
  revert a. induction segs as [|s segs IH]; intros a; simpl; [done|].
  intros (_ & Hc & _ & Hl). destruct (IH _ Hl) as [? ?].
  rewrite chain_app, chain_end_app. done.
Qed.

Lemma layout_offs a segs : layout a segs → Forall (λ k, a ≤ k ≤ layout_end a segs) (s_off <$> segs).
Proof using.
  revert a. induction segs as [|s segs IH]; intros a; simpl; [constructor|].
  intros (Hs & Hc & _ & Hl). apply chain_end_le in Hc as Hle.
  pose proof (layout_end_le _ _ Hl). constructor; [lia|].
  eapply Forall_impl; [by apply IH|]. simpl. intros. lia.
Qed.

(** Segments ascend because only the last one may be empty. *)
Lemma layout_sorted a init hs : layout a (init ++ [hs]) →
  Forall (λ s, s_commits s ≠ []) init → StronglySorted Z.lt (s_off <$> init ++ [hs]).
Proof using.
  revert a. induction init as [|s init IH]; intros a.
  - intros _ _. repeat constructor.
  - intros (Hs & Hc & _ & Hl) [Hne Hin]%Forall_cons. cbn [app fmap list_fmap].
    constructor; [by eapply IH|]. apply layout_offs in Hl.
    apply chain_end_lt in Hc; [|done].
    eapply Forall_impl; [exact Hl|]. simpl. intros. lia.
Qed.

Lemma layout_init_lt a init hs : layout a (init ++ [hs]) →
  Forall (λ s, s_commits s ≠ []) init →
  ∀ s, s ∈ init → s_off s < s_off hs.
Proof using.
  intros Hl Hne s Hs. pose proof (layout_sorted _ _ _ Hl Hne) as Hsort.
  apply list_elem_of_split in Hs as (l1 & l2 & ->). clear Hl Hne.
  rewrite <-app_assoc in Hsort. simpl in Hsort. rewrite fmap_app in Hsort.
  induction (s_off <$> l1) as [|x l IH]; simpl in *.
  - apply StronglySorted_inv in Hsort as [_ Hall]. rewrite Forall_forall in Hall.
    apply Hall. rewrite fmap_app. apply elem_of_app. right. by left.
  - apply StronglySorted_inv in Hsort as [? _]. auto.
Qed.

Lemma all_commits_app l l' : all_commits (l ++ l') = all_commits l ++ all_commits l'.
Proof using. unfold all_commits. apply bind_app. Qed.

Lemma all_commits_snoc l s : all_commits (l ++ [s]) = all_commits l ++ s_commits s.
Proof using. rewrite all_commits_app. f_equal. apply app_nil_r. Qed.

(** ** Offset indexes *)

Lemma index_sound_grow s s' idx :
  s_off s' = s_off s → (∃ cs, s_commits s' = s_commits s ++ cs) →
  index_sound s idx → index_sound s' idx.
Proof using.
  intros Ho [cs Hcs] [Hwf H]. split; [done|]. intros k b Hin.
  destruct (H k b Hin) as (pre & c & post & Hs & -> & ->).
  exists pre, c, (post ++ cs). split_and!; [|done|done]. by rewrite Hcs, Hs, <-app_assoc.
Qed.

Lemma points_at_grow s s' k b :
  (∃ cs, s_commits s' = s_commits s ++ cs) → points_at s k b → points_at s' k b.
Proof using.
  intros [cs Hcs] (pre & c & post & Hs & -> & ->).
  exists pre, c, (post ++ cs). split_and!; [|done|done]. by rewrite Hcs, Hs, <-app_assoc.
Qed.

Lemma append_internal_inv s i :
  index_sound s (oi_head i) →
  (candidate_min_tx_offset i = 0 ∨
   points_at s (candidate_min_tx_offset i) (candidate_byte_offset i)) →
  let i' := (append_internal i).1 in
  index_sound s (oi_head i') ∧
  (candidate_min_tx_offset i' = 0 ∨
   points_at s (candidate_min_tx_offset i') (candidate_byte_offset i')).
Proof using.
  intros Hs Hc. unfold append_internal.
  destruct (Z.eqb_spec (candidate_min_tx_offset i) 0) as [|H0]; [done|].
  destruct (_ <? _); [done|]. destruct Hc as [|Hc]; [done|].
  pose proof Hs as [Hwf He].
  pose proof (append_cases (oi_head i) (candidate_min_tx_offset i)
    (candidate_byte_offset i) Hwf) as Happ. cbv zeta in Happ.
  destruct (_ <=? _); [rewrite Happ; cbn; auto|].
  destruct (_ =? _)%nat; [rewrite Happ; cbn; auto|].
  destruct Happ as (f' & -> & Hwf' & He' & _). cbn. split; [|by left].
  split; [done|]. intros k b Hin. rewrite He' in Hin.
  apply elem_of_app in Hin as [Hin|Hin]; [by apply He|].
  apply list_elem_of_singleton in Hin. by simplify_eq.
Qed.

Lemma oi_head_count s i : index_sound s (oi_head i) →
  {| inner := inner (oi_head i); num_entries := count_entries (inner (oi_head i)) |} = oi_head i.
Proof using. intros [Hwf _]. rewrite count_entries_wf by done. by destruct (oi_head i). Qed.

Lemma get_offset_index_store r off idx k :
  get_offset_index (store_offset_index r off idx) k =
  if decide (k = off) then
    match indexes r with
    | None => Err Other
    | Some _ => Ok {| inner := inner idx; num_entries := count_entries (inner idx) |}
    end
  else get_offset_index r k.
Proof using.
  unfold get_offset_index, store_offset_index. simpl. destruct (indexes r) as [m|]; simpl.
  - destruct (decide (k = off)) as [->|Hne]; [by rewrite lookup_insert_eq|].
    by rewrite lookup_insert_ne.
  - by destruct (decide _).
Qed.

(** ** Changing the head segment *)

(** What a change of the head segment must do to the repository. *)
Record head_update (r r' : Repo) (hs hs' : SegLayout) : Prop := {
  hu_off : s_off hs' = s_off hs;
  hu_file : segments r' !! s_off hs = Some (seg_file hs');
  hu_segs : ∀ k, k ≠ s_off hs → segments r' !! k = segments r !! k;
  hu_index : ∀ k, k ≠ s_off hs → get_offset_index r' k = get_offset_index r k;
  hu_head : ∀ idx, get_offset_index r' (s_off hs) = Ok idx → index_sound hs' idx;
  hu_dom : ∀ m' k, indexes r' = Some m' → is_Some (m' !! k) →
    k = s_off hs ∨ ∃ m, indexes r = Some m ∧ is_Some (m !! k)
}.

Lemma repo_exact_update r r' init hs hs' :
  repo_exact r (init ++ [hs]) → (∀ s, s ∈ init → s_off s ≠ s_off hs) →
  head_update r r' hs hs' → repo_exact r' (init ++ [hs']).
Proof using.
  intros (Hsegs & Hdom & Hidom) Hne [Ho Hf Hs Hi Hh Hd]. split_and!.
  - intros s Hin. apply elem_of_app in Hin as [Hin|Hin].
    + destruct (Hsegs s ltac:(by apply elem_of_app; left)) as [Hsf Hsi].
      rewrite Hs, Hi by auto. done.
    + apply list_elem_of_singleton in Hin as ->. rewrite Ho. done.
  - intros k Hk. rewrite fmap_app. simpl. rewrite Ho.
    destruct (decide (k = s_off hs)) as [->|Hk']; [apply elem_of_app; right; by left|].
    rewrite Hs in Hk by done. apply Hdom in Hk. by rewrite fmap_app in Hk.
  - intros m k Hm Hk. rewrite fmap_app. simpl. rewrite Ho.
    destruct (Hd _ _ Hm Hk) as [->|(m0 & Hm0 & Hk0)]; [apply elem_of_app; right; by left|].
    specialize (Hidom _ _ Hm0 Hk0). by rewrite fmap_app in Hidom.
Qed.

Lemma head_update_append r hs hs' init b :
  repo_exact r (init ++ [hs]) → s_off hs' = s_off hs →
  (∃ cs, s_commits hs' = s_commits hs ++ cs) → seg_file hs ++ b = seg_file hs' →
  head_update r (append_segment r (s_off hs) b) hs hs'.
Proof using.
  intros (Hsegs & _ & _) Ho Hgrow Hb.
  destruct (Hsegs hs ltac:(apply elem_of_app; right; by left)) as [Hf Hi].
  constructor; simpl; auto.
  - by rewrite lookup_alter_eq, Hf, <-Hb.
  - intros k Hk. by rewrite lookup_alter_ne.
  - intros idx Hidx. apply (index_sound_grow hs); [done|done|]. by apply Hi.
  - intros m k Hm Hk. right. eauto.
Qed.

Lemma head_update_store r r' hs hs' i :
  head_update r r' hs hs' → index_sound hs' (oi_head i) →
  head_update r (store_offset_index r' (s_off hs) (oi_head i)) hs hs'.
Proof using.
  intros [Ho Hf Hs Hi Hh Hd] Hsound. constructor; simpl; auto.
  - intros k Hk. rewrite get_offset_index_store. rewrite decide_False by done. auto.
  - intros idx. rewrite get_offset_index_store, decide_True by done.
    destruct (indexes r'); intros ?; simplify_eq. by erewrite oi_head_count.
  - intros m k Hm Hk. destruct (indexes r') as [m'|] eqn:Hm'; simplify_eq/=.
    destruct (decide (k = s_off hs)) as [->|Hne]; [by left|].
    rewrite lookup_insert_ne in Hk by done. eauto.
Qed.

Lemma log_inv_head_in a g init hs : log_inv a g init hs →
  ∀ s, s ∈ init → s_off s ≠ s_off hs.
Proof using.
  intros H s Hs. pose proof (layout_init_lt _ _ _ (inv_layout _ _ _ _ H)
    (inv_nonempty _ _ _ _ H) s Hs). lia.
Qed.

Definition grow (hs : SegLayout) (c : Commit) : SegLayout :=
  {| s_off := s_off hs; s_commits := s_commits hs ++ [c]; s_torn := [] |}.

Definition tear (hs : SegLayout) (t : list byte) : SegLayout :=
  {| s_off := s_off hs; s_commits := s_commits hs; s_torn := t |}.

Definition next_buffer (c : Commit) : Commit :=
  {| min_tx_offset := tx_end c; epoch := epoch c; n := 0; records := [] |}.

Lemma seg_file_grow hs c : s_torn hs = [] →
  seg_file hs ++ commit_write crc32c c = seg_file (grow hs c).
Proof using.
  intros Ht. unfold CommitlogRead.seg_file, grow. simpl. rewrite Ht, !app_nil_r.
  rewrite enc_app, <-!app_assoc. simpl. by rewrite app_nil_r.
Qed.

Lemma layout_grow a init hs c :
  layout a (init ++ [hs]) → min_tx_offset c = layout_end a (init ++ [hs]) →
  0 < n c → commit_wf c → layout a (init ++ [grow hs c]) ∧
  layout_end a (init ++ [grow hs c]) = tx_end c.
Proof using.
  rewrite !layout_app, !layout_end_app. simpl. intros (Hl & Ho & Hc & _ & _) Hm Hn Hwf.
  rewrite chain_end_app. simpl. rewrite <-Hm. split_and!; try done.
  - apply chain_app. split; [done|]. simpl. by rewrite Hm.
  - apply torn_ok_nil.
Qed.

(** ** Writing *)

Lemma append_after_commit_inv hs i c b len :
  index_sound hs (oi_head i) → s_torn hs = [] →
  (candidate_min_tx_offset i = 0 ∨
   points_at hs (candidate_min_tx_offset i) (candidate_byte_offset i)) →
  b = Z.of_nat (Header_LEN + length (enc (s_commits hs))) →
  let i' := (append_after_commit i (min_tx_offset c) b len).1 in
  index_sound (grow hs c) (oi_head i') ∧
  (candidate_min_tx_offset i' = 0 ∨
   points_at (grow hs c) (candidate_min_tx_offset i') (candidate_byte_offset i')).
Proof using.
  intros Hs Ht Hc Hb.
  assert (index_sound (grow hs c) (oi_head i)) as Hs'
    by (apply (index_sound_grow hs); [done|by eexists|done]).
  unfold append_after_commit. cbv zeta. cbn [require_segment_fsync].
  match goal with |- context [append_internal ?j] => set (i1 := j) end.
  assert (candidate_min_tx_offset i1 = 0 ∨
   points_at (grow hs c) (candidate_min_tx_offset i1) (candidate_byte_offset i1)) as Hc1.
  { subst i1. simpl. destruct (Z.eqb_spec (candidate_min_tx_offset i) 0).
    - right. exists (s_commits hs), c, []. done.
    - destruct Hc as [|Hc]; [done|]. right. eapply points_at_grow; [|done]. by eexists. }
  destruct (negb _); [|done]. by apply append_internal_inv.
Qed.

Lemma oi_inv_store r w hs i :
  (∃ m, indexes r = Some m ∧ is_Some (m !! s_off hs)) → w_min_tx_offset w = s_off hs →
  offset_index_head w = Some i → index_sound hs (oi_head i) →
  (candidate_min_tx_offset i = 0 ∨
   points_at hs (candidate_min_tx_offset i) (candidate_byte_offset i)) →
  oi_inv (store_index_head w r) hs i.
Proof using.
  intros (m & Hm & _) Hw Hi Hs Hc. unfold store_index_head. rewrite Hi, Hw.
  split_and!; [|done|done]. simpl. rewrite Hm. simpl. eexists. split; [done|].
  apply lookup_insert_eq.
Qed.

(** A successful write appends the buffered commit to the head segment. *)
Lemma writer_commit_inv a g init hs :
  log_inv a g init hs → s_torn hs = [] →
  0 < n (w_commit (head g)) → commit_wf (w_commit (head g)) →
  ∃ w r, writer_commit crc32c None (head g) (repo g) =
    (w, r, Ok (Some {| cd_tx_range := (min_tx_offset (w_commit (head g)), tx_end (w_commit (head g)));
                       cd_checksum := crc32c (commit_body (w_commit (head g))) |})) ∧
    w_commit w = next_buffer (w_commit (head g)) ∧
    log_inv a (set_head w r g) init (grow hs (w_commit (head g))).
Proof using.
  intros H Ht Hn Hwf. pose proof (log_inv_head_in _ _ _ _ H) as Hne.
  destruct H as [Ha Hlay Hnone Hrepo Htail Hmin Hnext Hbytes Hopts Hidx].
  set (c := w_commit (head g)) in *. unfold writer_commit. fold c.
  rewrite (proj2 (Z.eqb_neq _ _)) by lia. rewrite add_u_Ok by apply Hwf.
  eexists _, _. split; [done|]. split; [done|].
  destruct (layout_grow _ _ _ c Hlay) as [Hlay' Hend]; [done|done|done|].
  pose proof (head_update_append (repo g) hs (grow hs c) init (commit_write crc32c c) Hrepo
    eq_refl ltac:(by eexists) (seg_file_grow hs c Ht)) as Hup.
  assert (∀ i, offset_index_head (head g) = Some i →
    let i' := (append_after_commit i (min_tx_offset c) (w_bytes_written (head g))
                 (encoded_len c)).1 in
    index_sound (grow hs c) (oi_head i') ∧ (candidate_min_tx_offset i' = 0 ∨
      points_at (grow hs c) (candidate_min_tx_offset i') (candidate_byte_offset i'))) as Hi'.
  { intros i Hi. destruct (Hidx i Hi) as (_ & Hs & Hc). by apply append_after_commit_inv. }
  constructor; simpl; try done.
  - eapply repo_exact_update; [done|done|]. unfold store_index_head. simpl.
    destruct (offset_index_head (head g)) as [i|] eqn:Hi; simpl; rewrite Hmin; [|done].
    apply head_update_store; [done|]. by apply Hi'.
  - rewrite Hbytes, enc_app, length_app. pose proof (length_commit_write crc32c c) as Hl.
    cbn [enc]. rewrite app_nil_r. unfold Header_LEN. lia.
  - intros i' Hi. destruct (offset_index_head (head g)) as [i|] eqn:Hi0; [|done].
    destruct (Hidx i eq_refl) as ((m & Hm & Hmi) & _ & _). destruct (Hi' i eq_refl) as [Hs Hc].
    simplify_eq/=. apply oi_inv_store; [|done|done|done|done].
    exists m. simpl. by rewrite Hmi.
Qed.

(** A failed write leaves the front of the commit in the head segment. *)
Lemma writer_commit_torn a g init hs k :
  log_inv a g init hs → s_torn hs = [] →
  0 < n (w_commit (head g)) → commit_wf (w_commit (head g)) →
  (k < length (commit_write crc32c (w_commit (head g))))%nat →
  ∃ r, writer_commit crc32c (Some k) (head g) (repo g) = (head g, r, Err OsError) ∧
    log_inv a (set_head (head g) r g) init
      (tear hs (take k (commit_write crc32c (w_commit (head g))))).
Proof using.
  intros H Ht Hn Hwf Hk. pose proof (log_inv_head_in _ _ _ _ H) as Hne.
  destruct H as [Ha Hlay Hnone Hrepo Htail Hmin Hnext Hbytes Hopts Hidx].
  set (c := w_commit (head g)) in *. unfold writer_commit. fold c.
  rewrite (proj2 (Z.eqb_neq _ _)) by lia.
  eexists. split; [done|]. rewrite Hmin.
  constructor; simpl; try done.
  - rewrite layout_app in *. simpl in *. destruct Hlay as (? & ? & ? & _ & _).
    split_and!; try done. by exists c, k.
  - eapply repo_exact_update; [done|done|]. eapply head_update_append; [done|done| |].
    + exists []. simpl. by rewrite app_nil_r.
    + unfold CommitlogRead.seg_file. simpl. by rewrite Ht, app_nil_r, <-app_assoc.
  - by rewrite layout_end_app in *.
Qed.

(** ** Starting segments *)

Definition fresh (off : Z) : SegLayout := {| s_off := off; s_commits := []; s_torn := [] |}.

Lemma index_sound_fresh off cap : index_sound (fresh off) (create_index_file cap).
Proof using.
  split; [apply create_index_file_wf|]. by intros k b ?%elem_of_nil.
Qed.

(** The writer of a segment just created. *)
Definition fresh_writer (w : Writer) (e off : Z) : Prop :=
  w_commit w = {| min_tx_offset := off; epoch := e; n := 0; records := [] |} ∧
  w_min_tx_offset w = off ∧ w_bytes_written w = Z.of_nat Header_LEN ∧
  max_records_in_commit w = opt_max_records_in_commit opts.

Lemma repo_exact_add r r' segs off :
  repo_exact r segs → off ∉ s_off <$> segs →
  segments r' = <[off := seg_file (fresh off)]> (segments r) →
  (indexes r' = indexes r ∨
   ∃ m cap, indexes r = Some m ∧
     indexes r' = Some (<[off := inner (create_index_file cap)]> m)) →
  repo_exact r' (segs ++ [fresh off]).
Proof using.
  intros (Hsegs & Hdom & Hidom) Hoff Hs Hi.
  assert (∀ k, k ≠ off → get_offset_index r' k = get_offset_index r k) as Hget.
  { intros k Hk. unfold get_offset_index. destruct Hi as [->|(m & cap & Hm & ->)]; [done|].
    rewrite Hm. by rewrite lookup_insert_ne. }
  assert (∀ m, indexes r = Some m → m !! off = None) as Hnone.
  { intros m Hm. destruct (m !! off) eqn:Hmo; [|done]. exfalso. apply Hoff. eauto. }
  split_and!.
  - intros s Hin. apply elem_of_app in Hin as [Hin|Hin].
    + assert (s_off s ≠ off) as Hne.
      { intros <-. apply Hoff. by apply list_elem_of_fmap_2. }
      rewrite Hs, lookup_insert_ne, Hget by done. by apply Hsegs.
    + apply list_elem_of_singleton in Hin as ->. cbn [s_off fresh]. split.
      * by rewrite Hs, lookup_insert_eq.
      * intros idx. unfold get_offset_index. destruct Hi as [->|(m & cap & Hm & ->)].
        { destruct (indexes r) as [m|] eqn:Hm; [|done]. by rewrite (Hnone m eq_refl). }
        rewrite lookup_insert_eq. intros [= <-].
        destruct (index_sound_fresh off cap) as [Hwf ?].
        apply count_entries_wf in Hwf. cbn [create_index_file inner num_entries] in Hwf.
        rewrite Hwf. apply index_sound_fresh.
  - intros k Hk. rewrite Hs in Hk. rewrite fmap_app. apply elem_of_app.
    destruct (decide (k = off)) as [->|Hne]; [right; by left|].
    rewrite lookup_insert_ne in Hk by done. left. auto.
  - intros m' k Hm' Hk. rewrite fmap_app. apply elem_of_app.
    destruct (decide (k = off)) as [->|Hne]; [right; by left|]. left.
    destruct Hi as [Hi|(m & cap & Hm & Hi)]; rewrite Hi in Hm'; [by eapply Hidom|].
    simplify_eq. rewrite lookup_insert_ne in Hk by done. eauto.
Qed.

Lemma create_segment_writer_ok f r e off segs :
  repo_exact r segs → off ∉ s_off <$> segs → f_create f = None →
  ∃ w r', create_segment_writer f r opts e off = (r', Ok w) ∧
    repo_exact r' (segs ++ [fresh off]) ∧ fresh_writer w e off ∧
    (∀ i, offset_index_head w = Some i → oi_inv r' (fresh off) i).
Proof using.
  intros Hr Hoff Hf. pose proof Hr as (Hsegs & Hdom & Hidom).
  assert (segments r !! off = None) as Hso.
  { destruct (segments r !! off) eqn:Hso; [|done]. exfalso. apply Hoff. eauto. }
  unfold create_segment_writer, create_segment. rewrite Hso, Hf.
  unfold create_offset_index_writer, create_offset_index. simpl.
  assert (alter (λ s, s ++ header_write (new_header opts)) off (<[off:=[]]> (segments r)) =
    <[off := seg_file (fresh off)]> (segments r)) as Halt.
  { rewrite alter_insert_eq. simpl. unfold CommitlogRead.seg_file. simpl. by rewrite app_nil_r. }
  destruct (indexes r) as [m|] eqn:Hm; simpl.
  - assert (m !! off = None) as Hmo.
    { destruct (m !! off) eqn:Hmo; [|done]. exfalso. apply Hoff. eauto. }
    rewrite Hmo. eexists _, _. split; [done|]. split_and!; try done.
    + eapply repo_exact_add; [done|done|exact Halt|]. right. eauto.
    + intros i Hi. simplify_eq/=. split_and!.
      * eexists. split; [done|]. simpl. by rewrite lookup_insert_eq.
      * apply index_sound_fresh.
      * by left.
  - eexists _, _. split; [done|]. split_and!; try done.
    eapply repo_exact_add; [done|done|exact Halt|]. by left.
Qed.

(** A segment that holds a header cannot be created again. *)
Lemma create_segment_writer_exists f r e off segs :
  repo_exact r segs → off ∈ s_off <$> segs →
  create_segment_writer f r opts e off = (r, Err AlreadyExists).
Proof using.
  intros (Hsegs & _) (s & -> & Hs)%list_elem_of_fmap. unfold create_segment_writer, create_segment.
  destruct (Hsegs s Hs) as [-> _]. unfold CommitlogRead.seg_file, header_write. done.
Qed.

Lemma start_new_segment_inv f a g init hs :
  log_inv a g init hs → s_commits hs ≠ [] → f_create f = None →
  ∃ g', start_new_segment f g = (g', Ok tt) ∧
    log_inv a g' (init ++ [hs]) (fresh (next_tx_offset (head g))) ∧
    w_commit (head g') = w_commit (head g) ∧ panicked g' = panicked g ∧
    max_records_in_commit (head g') = opt_max_records_in_commit opts.
Proof using.
  intros H Hne Hf. destruct H as [Ha Hlay Hnone Hrepo Htail Hmin Hnext Hbytes Hopts Hidx].
  unfold start_new_segment. rewrite Hopts.
  destruct (create_segment_writer_ok f (repo g) (writer_epoch (head g))
    (next_tx_offset (head g)) (init ++ [hs])) as (w & r & -> & Hr & (Hc & Hm & Hb & Hmax) & Hi);
    [done| |done|].
  { rewrite Hnext. intros Hin. rewrite fmap_app in Hin.
    rewrite layout_end_app in Hin. simpl in Hin. apply layout_app in Hlay as [Hl (Ho & Hch & _)].
    apply chain_end_lt in Hch; [|done]. apply layout_offs in Hl. rewrite Forall_forall in Hl.
    apply elem_of_app in Hin as [Hin|Hin%list_elem_of_singleton]; [|lia].
    specialize (Hl _ Hin). lia. }
  eexists. split; [done|]. split_and!; try done. constructor; simpl; try done.
  - apply layout_app. split; [done|]. simpl. split_and!; try done. apply torn_ok_nil.
  - apply Forall_app. split; [done|by constructor].
  - by rewrite fmap_app, Htail, Hmin.
  - unfold next_tx_offset. simpl. rewrite layout_end_app. simpl. exact Hnext.
Qed.

Lemma start_new_segment_exists f a g init hs :
  log_inv a g init hs → s_commits hs = [] →
  start_new_segment f g = (g, Err AlreadyExists).
Proof using.
  intros [Ha Hlay Hnone Hrepo Htail Hmin Hnext Hbytes Hopts Hidx] He.
  unfold start_new_segment. rewrite Hopts.
  rewrite (create_segment_writer_exists _ _ _ _ (init ++ [hs])); [by destruct g|done|].
  rewrite Hnext, layout_end_app, fmap_app. simpl. rewrite He.
  apply layout_app in Hlay as [_ (Ho & _)]. simpl. rewrite <-Ho.
  apply elem_of_app. right. by left.
Qed.

(** ** The operations *)

Lemma set_panicked_inv a b g init hs :
  log_inv a g init hs → log_inv a (set_panicked b g) init hs.
Proof using. by intros []. Qed.

Lemma oi_fsync_inv r hs i : oi_inv r hs i → 
  index_sound hs (oi_head (oi_fsync i)) ∧
  (candidate_min_tx_offset (oi_fsync i) = 0 ∨
   points_at hs (candidate_min_tx_offset (oi_fsync i)) (candidate_byte_offset (oi_fsync i))).
Proof using. intros (_ & Hs & Hc). by apply append_internal_inv. Qed.

Lemma head_update_refl r init hs : repo_exact r (init ++ [hs]) → head_update r r hs hs.
Proof using.
  intros (Hsegs & _). destruct (Hsegs hs ltac:(apply elem_of_app; right; by left)).
  constructor; eauto.
Qed.

Lemma sync_inv f a g init hs :
  log_inv a g init hs → f_fsync f = false →
  ∃ g', sync f g = (g', Ok tt) ∧ log_inv a g' init hs ∧
    w_commit (head g') = w_commit (head g) ∧ panicked g' = false.
Proof using.
  intros H Hf. pose proof (log_inv_head_in _ _ _ _ H) as Hne.
  destruct H as [Ha Hlay Hnone Hrepo Htail Hmin Hnext Hbytes Hopts Hidx].
  unfold sync. rewrite Hf. simpl. eexists. split; [done|]. split_and!; try done.
  constructor; simpl; try done.
  - eapply repo_exact_update; [done|done|]. unfold store_index_head. simpl.
    pose proof (head_update_refl _ _ _ Hrepo) as Hup.
    destruct (offset_index_head (head g)) as [i|] eqn:Hi; simpl; [|done]. rewrite Hmin.
    apply head_update_store; [done|]. by apply (oi_fsync_inv _ _ _ (Hidx i eq_refl)).
  - intros i' Hi. destruct (offset_index_head (head g)) as [i|] eqn:Hi0; [|done].
    simplify_eq/=. destruct (oi_fsync_inv _ _ _ (Hidx i eq_refl)) as [Hs Hc].
    destruct (Hidx i eq_refl) as ((m & Hm & Hmi) & _ & _).
    apply oi_inv_store; [|done|done|done|done]. exists m. by rewrite Hmi.
Qed.

(** Rotation leaves the commits and the buffer as they are. *)
Lemma rotate_inv f a g init hs :
  log_inv a g init hs → s_torn hs = [] → f_create f = None → f_fsync f = false →
  let should_rotate := negb (writer_is_empty (head g)) &&
    (max_segment_size (Commitlog.opts g) <?
     w_bytes_written (head g) + encoded_len (w_commit (head g))) in
  ∃ g' init' hs',
    (if should_rotate then
       match sync f g with
       | (g, Ok _) => start_new_segment f g
       | (g, e) => (g, e)
       end
     else (g, Ok tt)) = (g', Ok tt) ∧
    log_inv a g' init' hs' ∧ s_torn hs' = [] ∧
    all_commits (init' ++ [hs']) = all_commits (init ++ [hs]) ∧
    w_commit (head g') = w_commit (head g).
Proof using.
  intros H Ht Hfc Hff rot. destruct rot eqn:Hrot; [|by exists g, init, hs].
  apply andb_true_iff in Hrot as [Hempty _].
  destruct (sync_inv f a g init hs H Hff) as (g1 & -> & H1 & Hc1 & _).
  assert (s_commits hs ≠ []) as Hne.
  { intros He. unfold writer_is_empty in Hempty.
    rewrite (inv_bytes _ _ _ _ H), He in Hempty. by vm_compute in Hempty. }
  destruct (start_new_segment_inv f a g1 init hs H1 Hne Hfc) as (g2 & -> & H2 & Hc2 & _ & _).
  eexists _, _, _. split; [done|]. split; [done|]. split; [done|]. split; [|congruence].
  rewrite all_commits_snoc. by rewrite app_nil_r.
Qed.

(** With working storage [commit] always succeeds and appends the buffered
    commit. *)
Lemma commit_ok f a g init hs :
  log_inv a g init hs → s_torn hs = [] →
  f_create f = None → f_fsync f = false → f_write f = None →
  0 < n (w_commit (head g)) → commit_wf (w_commit (head g)) →
  ∃ g' init' hs',
    commit crc32c f g =
      (g', Ok (Some {| cd_tx_range := (min_tx_offset (w_commit (head g)), tx_end (w_commit (head g)));
                       cd_checksum := crc32c (commit_body (w_commit (head g))) |})) ∧
    log_inv a g' init' hs' ∧ s_torn hs' = [] ∧
    all_commits (init' ++ [hs']) = all_commits (init ++ [hs]) ++ [w_commit (head g)] ∧
    w_commit (head g') = next_buffer (w_commit (head g)) ∧ panicked g' = false.
Proof using.
  intros H Ht Hfc Hff Hfw Hn Hwf. unfold commit.
  destruct (rotate_inv f a (set_panicked true g) init hs) as
    (g1 & init1 & hs1 & Hrot & H1 & Ht1 & Hall & Hc1); [by apply set_panicked_inv|done..|].
  rewrite Hrot. rewrite Hfw. cbn [head set_panicked] in Hc1.
  destruct (writer_commit_inv a g1 init1 hs1) as (w & r & -> & Hw & H2);
    [done|done|by rewrite Hc1|by rewrite Hc1|].
  rewrite Hc1 in *. eexists _, init1, _. split; [done|]. split_and!.
  - by apply set_panicked_inv.
  - done.
  - rewrite <-Hall, !all_commits_snoc. simpl. by rewrite app_assoc.
  - done.
  - done.
Qed.

(** A failed write either starts a new segment with the commit still buffered,
    or finds that the segment it would start is the one it failed to write to. *)
Lemma commit_fail f a g init hs k :
  log_inv a g init hs → s_torn hs = [] →
  f_create f = None → f_fsync f = false → f_write f = Some k →
  0 < n (w_commit (head g)) → commit_wf (w_commit (head g)) →
  (k < length (commit_write crc32c (w_commit (head g))))%nat →
  ∃ g', commit crc32c f g = (g', Err AlreadyExists) ∨
    ∃ init' hs', commit crc32c f g = (g', Err OsError) ∧
    log_inv a g' init' hs' ∧ s_torn hs' = [] ∧
    all_commits (init' ++ [hs']) = all_commits (init ++ [hs]) ∧
    w_commit (head g') = w_commit (head g) ∧ panicked g' = false.
Proof using.
  intros H Ht Hfc Hff Hfw Hn Hwf Hk. unfold commit.
  destruct (rotate_inv f a (set_panicked true g) init hs) as
    (g1 & init1 & hs1 & Hrot & H1 & Ht1 & Hall & Hc1); [by apply set_panicked_inv|done..|].
  rewrite Hrot, Hfw. cbn [head set_panicked] in Hc1.
  destruct (writer_commit_torn a g1 init1 hs1 k) as (r & -> & H2);
    [done|done|by rewrite Hc1..|].
  set (hs2 := tear hs1 _) in H2. destruct (decide (s_commits hs2 = [])) as [He|Hne].
  - rewrite (start_new_segment_exists _ _ _ _ _ H2 He). eexists. by left.
  - destruct (start_new_segment_inv f _ _ _ _ H2 Hne Hfc) as (g2 & -> & H3 & Hc3 & _ & _).
    eexists. right. eexists _, _. split; [done|]. split_and!.
    + by apply set_panicked_inv.
    + done.
    + rewrite <-Hall, !all_commits_snoc. by rewrite app_nil_r.
    + simpl. by rewrite Hc3.
    + done.
Qed.

(** Nothing buffered: nothing is written. *)
Lemma commit_none f a g init hs :
  log_inv a g init hs → s_torn hs = [] → f_create f = None → f_fsync f = false →
  n (w_commit (head g)) = 0 →
  ∃ g' init' hs', commit crc32c f g = (g', Ok None) ∧
    log_inv a g' init' hs' ∧ s_torn hs' = [] ∧
    all_commits (init' ++ [hs']) = all_commits (init ++ [hs]) ∧
    w_commit (head g') = w_commit (head g) ∧ panicked g' = false.
Proof using.
  intros H Ht Hfc Hff Hn. unfold commit.
  destruct (rotate_inv f a (set_panicked true g) init hs) as
    (g1 & init1 & hs1 & Hrot & H1 & Ht1 & Hall & Hc1); [by apply set_panicked_inv|done..|].
  rewrite Hrot. cbn [head set_panicked] in Hc1. unfold writer_commit. rewrite Hc1, Hn. simpl.
  eexists _, init1, hs1. split; [done|]. split_and!; try done.
  by destruct H1.
Qed.

(** ** Recovery *)

(** The metadata after reading the commits [cs]. *)
Fixpoint md_read (m : Metadata) (cs : list Commit) : Metadata :=
  match cs with
  | [] => m
  | c :: cs =>
      md_read {| md_header := md_header m; md_tx_range := ((md_tx_range m).1, tx_end c);
                 md_size_in_bytes := md_size_in_bytes m + encoded_len c;
                 max_epoch := Z.max (epoch c) (max_epoch m);
                 max_commit_offset := min_tx_offset c |} cs
  end.

Lemma md_read_fields m cs :
  md_header (md_read m cs) = md_header m ∧
  (md_tx_range (md_read m cs)).1 = (md_tx_range m).1 ∧
  md_size_in_bytes (md_read m cs) = md_size_in_bytes m + Z.of_nat (length (enc cs)) ∧
  max_epoch (md_read m cs) = foldl Z.max (max_epoch m) (epoch <$> cs) ∧
  (chain (md_tx_range m).2 cs → (md_tx_range (md_read m cs)).2 = chain_end (md_tx_range m).2 cs).
Proof using.
  revert m. induction cs as [|c cs IH]; intros m; simpl.
  { split_and!; try done. lia. }
  destruct (IH {| md_header := md_header m; md_tx_range := ((md_tx_range m).1, tx_end c);
                 md_size_in_bytes := md_size_in_bytes m + encoded_len c;
                 max_epoch := Z.max (epoch c) (max_epoch m);
                 max_commit_offset := min_tx_offset c |}) as (-> & -> & -> & -> & He).
  simpl in *. split_and!; try done.
  - pose proof (length_commit_write crc32c c). rewrite length_app. lia.
  - by rewrite (Z.max_comm (epoch c)).
  - intros (Hm & _ & _ & Hc). rewrite He; unfold tx_end; by rewrite Hm.
Qed.

Lemma extract_commit c r : commit_wf c →
  CommitMetadata_extract crc32c (commit_write crc32c c ++ r) =
  (Ok (Some {| cm_tx_range := (min_tx_offset c, tx_end c); cm_size_in_bytes := encoded_len c; cm_epoch := epoch c |}), r).
Proof using crc_range.
  intros Hwf. unfold CommitMetadata_extract, commit_decode.
  rewrite decode_internal_write by (done || (unfold DEFAULT_LOG_FORMAT_VERSION; lia)). cbn [rbind fmap option_fmap option_map sc_commit].
  by rewrite CommitMetadata_from_wf.
Qed.

Lemma extract_torn t : torn_ok t →
  CommitMetadata_extract crc32c t =
  (if (CommitHeader_LEN <=? length t)%nat then Err UnexpectedEof else Ok None, []).
Proof using.
  intros (c & k & Hwf & Hk & ->). unfold CommitMetadata_extract, commit_decode.
  rewrite decode_internal_torn by (done || (unfold DEFAULT_LOG_FORMAT_VERSION; lia)).
  rewrite length_take_le by lia.
  destruct (Nat.ltb_spec k CommitHeader_LEN), (Nat.leb_spec CommitHeader_LEN k);
    (done || lia).
Qed.

Lemma metadata_loop_spec fuel m cs t :
  chain (md_tx_range m).2 cs → torn_ok t → (length (enc cs ++ t) < fuel)%nat →
  metadata_loop crc32c fuel m (enc cs ++ t) =
  if (CommitHeader_LEN <=? length t)%nat then Err (InvalidCommit (md_read m cs) UnexpectedEof)
  else Ok (md_read m cs).
Proof using crc_range.
  revert m cs. induction fuel as [|fuel IH]; intros m cs Hc Ht Hf; [lia|].
  destruct cs as [|c cs]; cbn [metadata_loop enc app].
  - rewrite extract_torn by done. by destruct (_ <=? _)%nat.
  - destruct Hc as (Hm & Hn & Hwf & Hc). rewrite <-app_assoc, extract_commit by done.
    cbn [cm_tx_range cm_size_in_bytes cm_epoch fst snd].
    rewrite Hm, Z.eqb_refl. cbn [negb]. unfold tx_end in *. rewrite Hm in *. rewrite IH; [cbn [md_read]; by rewrite <-Hm|done|done|].
    cbn [enc] in Hf. rewrite !length_app in *. pose proof (length_commit_write crc32c c).
    unfold encoded_len, FRAMING_LEN, CommitHeader_LEN in *. lia.
Qed.

Lemma find_valid_indexed_commit_spec s a i :
  index_sound s i → chain a (s_commits s) →
  (∃ pre c post, s_commits s = pre ++ c :: post ∧ commit_wf c ∧
     find_valid_indexed_commit crc32c a (new_header opts) (seg_file s) i =
     Ok {| md_header := new_header opts; md_tx_range := (a, tx_end c);
           md_size_in_bytes := Z.of_nat (Header_LEN + length (enc (pre ++ [c])));
           max_epoch := epoch c; max_commit_offset := min_tx_offset c |}) ∨
  (∃ e, find_valid_indexed_commit crc32c a (new_header opts) (seg_file s) i = Err e).
Proof using crc_range.
  intros [Hwf He] Hc. unfold find_valid_indexed_commit. cbn [find_valid_indexed_commit_loop].
  destruct (key_lookup_cases i u64_MAX Hwf ltac:(done)) as [([k b] & -> & Hin & _)|[e ->]];
    [left|right; eauto].
  destruct (He _ _ Hin) as (pre & c & post & Hs & -> & ->).
  rewrite Hs in Hc. apply chain_app in Hc as [_ (_ & _ & Hwfc & _)].
  exists pre, c, post. split_and!; [done|done|].
  unfold validate_commit_at_offset. rewrite Nat2Z.id, (seg_file_at _ _ _ _ _ Hs).
  cbn [CommitlogRead.enc]. rewrite <-app_assoc, extract_commit by done. cbn [rbind].
  cbn [cm_tx_range cm_size_in_bytes cm_epoch fst snd].
  rewrite Z.eqb_refl, enc_app, length_app. cbn [CommitlogRead.enc].
  rewrite app_nil_r. pose proof (length_commit_write crc32c c). do 2 f_equal. cbn [cm_size_in_bytes]. lia.
Qed.

(** Reading on from the metadata [m] of the commits [pre]. *)
Lemma metadata_read_on s a m pre post :
  s_commits s = pre ++ post → chain a (s_commits s) → torn_ok (s_torn s) →
  md_tx_range m = (a, chain_end a pre) →
  md_size_in_bytes m = Z.of_nat (Header_LEN + length (enc pre)) →
  let r := drop (Z.to_nat (md_size_in_bytes m)) (seg_file s) in
  metadata_loop crc32c (S (length r)) m r =
    (if (CommitHeader_LEN <=? length (s_torn s))%nat
     then Err (InvalidCommit (md_read m post) UnexpectedEof) else Ok (md_read m post)) ∧
  md_tx_range (md_read m post) = (a, chain_end a (s_commits s)) ∧
  md_size_in_bytes (md_read m post) = Z.of_nat (Header_LEN + length (enc (s_commits s))).
Proof using crc_range.
  intros Hs Hc Ht Hr Hsz r. destruct (md_read_fields m post) as (_ & H1 & H2 & _ & H3).
  subst r. rewrite Hsz, Nat2Z.id, (seg_file_at _ _ _ _ _ Hs).
  rewrite Hs in *. apply chain_app in Hc as [_ Hc]. rewrite Hr in *. cbn [fst snd] in *.
  split_and!.
  - apply metadata_loop_spec; [by rewrite Hr|done|lia].
  - rewrite chain_end_app, <-H3, <-H1 by done. by destruct (md_tx_range (md_read m post)).
  - rewrite H2, Hsz, enc_app, length_app. lia.
Qed.

(** With a sound index the traversal starts at an indexed commit [c]; the
    result differs from a full traversal at most in the epoch, which only
    takes the commits from [c] on into account. *)
Lemma metadata_extract_spec s a idx :
  (∀ i, idx = Some i → index_sound s i) → chain a (s_commits s) → torn_ok (s_torn s) →
  ∃ m pre post, s_commits s = pre ++ post ∧ (pre ≠ [] → post ≠ []) ∧
    (idx = None → pre = []) ∧
    metadata_extract crc32c a (seg_file s) idx =
      (if (CommitHeader_LEN <=? length (s_torn s))%nat then Err (InvalidCommit m UnexpectedEof)
       else Ok m) ∧
    md_header m = new_header opts ∧
    md_tx_range m = (a, chain_end a (s_commits s)) ∧
    md_size_in_bytes m = Z.of_nat (Header_LEN + length (enc (s_commits s))) ∧
    max_epoch m = foldl Z.max 0 (epoch <$> post).
Proof using crc_range version_ok.
  intros Hidx Hc Ht. unfold metadata_extract. unfold CommitlogRead.seg_file at 1.
  rewrite new_header_decode by done. cbn beta iota. unfold with_header.
  destruct (metadata_read_on s a (initial_metadata a (new_header opts)) [] (s_commits s))
    as (Hr & Hrange & Hsize); [done..|].
  destruct (md_read_fields (initial_metadata a (new_header opts)) (s_commits s))
    as (Hh & _ & _ & He & _).
  destruct idx as [i|]; [|eexists _, [], (s_commits s); split_and!; done].
  destruct (find_valid_indexed_commit_spec s a i) as
    [(pre & c & post & Hs & Hwf & ->)|(e & ->)];
    [auto|done| |eexists _, [], (s_commits s); split_and!; done].
  set (m0 := Build_Metadata _ _ _ _ _).
  destruct (metadata_read_on s a m0 (pre ++ [c]) post) as (Hr' & Hrange' & Hsize');
    [by rewrite Hs, <-app_assoc|done|done| |done|].
  { rewrite Hs in Hc. apply chain_app in Hc as [_ (Hm & _)].
    rewrite chain_end_app. simpl. unfold tx_end. by rewrite Hm. }
  destruct (md_read_fields m0 post) as (Hh' & _ & _ & He' & _).
  eexists _, pre, (c :: post). split_and!; try done.
  rewrite He'. simpl. f_equal. destruct Hwf as (_ & [? _] & _). lia.
Qed.

Lemma index_sound_reopen s i cap :
  index_sound s i → index_sound s (open_index_file cap (inner i)).
Proof using.
  intros [Hwf H]. destruct (open_index_file_cap cap i Hwf) as [Hwf' He].
  split; [done|]. intros k b Hin. rewrite He in Hin. apply H.
  apply list_elem_of_lookup in Hin as [j Hj]. apply lookup_take_Some in Hj as [Hj _].
  by eapply list_elem_of_lookup_2.
Qed.

Lemma opt_index_Some x i : opt_index x = Some i → x = Ok i.
Proof using. by destruct x; simpl; intros; simplify_eq. Qed.

(** Opening the index of the segment a writer resumes. *)
Lemma create_offset_index_writer_ok r init hs i r' :
  repo_exact r (init ++ [hs]) → (∀ s, s ∈ init → s_off s ≠ s_off hs) →
  create_offset_index_writer r (s_off hs) opts = (i, r') →
  repo_exact r' (init ++ [hs]) ∧ (∀ w, i = Some w → oi_inv r' hs w).
Proof using.
  intros Hr Hne. unfold create_offset_index_writer, create_offset_index.
  destruct (indexes r) as [m|] eqn:Hm; [|intros [= <- <-]; by split].
  set (cap := Z.to_nat _). set (idx := match m !! s_off hs with Some _ => _ | None => _ end).
  assert (index_sound hs idx) as Hs.
  { subst idx. destruct (m !! s_off hs) as [raw|] eqn:Hraw.
    - destruct Hr as (Hsegs & _ & _).
      destruct (Hsegs hs ltac:(apply elem_of_app; right; by left)) as [_ Hi].
      unfold get_offset_index in Hi. rewrite Hm, Hraw in Hi.
      apply (index_sound_reopen _ _ cap (Hi _ eq_refl)).
    - split; [apply create_index_file_wf|]. by intros k b ?%elem_of_nil. }
  intros [= <- <-]. split.
  - eapply repo_exact_update; [done|done|].
    pose proof (head_update_store r r hs hs (OffsetIndexWriter_new idx opts)
      (head_update_refl _ _ _ Hr) Hs) as Hup.
    unfold store_offset_index in Hup. by rewrite Hm in Hup.
  - intros w [= <-]. split_and!; [|done|by left]. eexists. split; [done|]. apply lookup_insert_eq.
Qed.

Lemma existing_offsets_layout a r init hs :
  layout a (init ++ [hs]) → Forall (λ s, s_commits s ≠ []) init →
  repo_exact r (init ++ [hs]) → existing_offsets r = (s_off <$> init) ++ [s_off hs].
Proof using.
  intros Hlay Hne (Hsegs & Hdom & _).
  replace ((s_off <$> init) ++ [s_off hs]) with (s_off <$> (init ++ [hs]))
    by (by rewrite fmap_app).
  apply existing_offsets_dom; [by eapply layout_sorted|]. intros k. split; [|auto].
  intros (s & -> & Hs)%list_elem_of_fmap. destruct (Hsegs s Hs) as [-> _]. eauto.
Qed.

(** The log that [open] returns. *)
Local Ltac exists_opened :=
  unfold mk_generic; cbn [rbind];
  match goal with |- ∃ g, (_, Ok ?x) = _ ∧ _ => exists x end; split; [done|].

(** What [open] finds when the last write to the log was torn: nothing of it,
    less than a header of it, or more. *)
Lemma open_spec f a r init hs :
  0 ≤ a → layout a (init ++ [hs]) → Forall (λ s, s_commits s ≠ []) init →
  repo_exact r (init ++ [hs]) → f_create f = None →
  let next := layout_end a (init ++ [hs]) in
  ∃ pre post, s_commits hs = pre ++ post ∧ (pre ≠ [] → post ≠ []) ∧
    (indexes r = None → pre = []) ∧
  let buffer := {| min_tx_offset := next; epoch := foldl Z.max 0 (epoch <$> post);
                   n := 0; records := [] |} in
  if (length (s_torn hs) <? CommitHeader_LEN)%nat then
    ∃ g, open crc32c f r opts = (repo g, Ok g) ∧ log_inv a g init hs ∧
      w_commit (head g) = buffer ∧ panicked g = false ∧
      max_records_in_commit (head g) = opt_max_records_in_commit opts
  else if decide (s_commits hs = []) then
    open crc32c f r opts = (r, Err AlreadyExists)
  else
    ∃ g, open crc32c f r opts = (repo g, Ok g) ∧ log_inv a g (init ++ [hs]) (fresh next) ∧
      w_commit (head g) = buffer ∧ panicked g = false ∧
      max_records_in_commit (head g) = opt_max_records_in_commit opts.
Proof using crc_range version_ok.
  intros Ha Hlay Hne Hr Hf next.
  pose proof Hlay as (_ & Ho & Hc & Ht & _)%layout_app.
  assert (next = chain_end (s_off hs) (s_commits hs)) as Hnext.
  { subst next. rewrite layout_end_app, Ho. done. }
  rewrite <-Ho in Hc.
  assert (∀ s, s ∈ init → s_off s ≠ s_off hs) as Hlt.
  { intros s Hs. pose proof (layout_init_lt _ _ _ Hlay Hne s Hs). lia. }
  destruct (metadata_extract_spec hs (s_off hs) (opt_index (get_offset_index r (s_off hs))))
    as (m & pre & post & Hs & Hpp & Hnone & Hmeta & Hmh & Hmr & Hms & Hme); [|done|done|].
  { intros i Hi%opt_index_Some. destruct Hr as (Hsegs & _).
    by apply (Hsegs hs ltac:(apply elem_of_app; right; by left)). }
  exists pre, post. split_and!; [done|done| |].
  { intros Hi. apply Hnone. unfold get_offset_index. by rewrite Hi. }
  unfold open. rewrite (existing_offsets_layout a r init hs) by done.
  rewrite last_snoc, removelast_last.
  unfold resume_segment_writer, open_segment.
  destruct (proj1 Hr hs ltac:(apply elem_of_app; right; by left)) as [-> _].
  rewrite Hmeta. rewrite <-Hme, Hnext.
  destruct (Nat.ltb_spec (length (s_torn hs)) CommitHeader_LEN) as [Hshort|Hlong].
  - rewrite (proj2 (Nat.leb_gt _ _)) by done.
    unfold ensure_compatible. rewrite Hmh. cbn [new_header log_format_version checksum_algorithm].
    rewrite Z.ltb_irrefl, !Z.eqb_refl. cbn [negb].
    destruct (create_offset_index_writer r (s_off hs) opts) as [i r'] eqn:Hi.
    destruct (create_offset_index_writer_ok _ _ _ _ _ Hr Hlt Hi) as [Hr' Hoi].
    rewrite Hmr, Hms. exists_opened. by split_and!.
  - rewrite (proj2 (Nat.leb_le _ _)) by done. rewrite Hmr. cbn [fst snd].
    destruct (decide (s_commits hs = [])) as [He|He].
    + rewrite He. cbn [chain_end].
      rewrite (create_segment_writer_exists _ _ _ _ (init ++ [hs])); [done|done|].
      rewrite fmap_app. apply elem_of_app. right. by left.
    + destruct (create_segment_writer_ok f r (max_epoch m) (chain_end (s_off hs) (s_commits hs))
        (init ++ [hs])) as (w & r' & -> & Hr' & (Hwc & Hwm & Hwb & Hwx) & Hwi); [done| |done|].
      { rewrite <-Hnext. intros Hin. pose proof (chain_end_lt _ _ Hc He).
        apply layout_app in Hlay as [Hl _]. apply layout_offs in Hl.
        rewrite fmap_app in Hin. apply elem_of_app in Hin as [Hin|Hin%list_elem_of_singleton].
        - rewrite Forall_forall in Hl. specialize (Hl _ Hin). lia.
        - lia. }
      exists_opened. split_and!; try done.
      constructor; simpl; try done.
      * apply layout_app. split; [done|]. simpl. fold next. split_and!; try done. apply torn_ok_nil.
      * apply Forall_app. split; [done|by constructor].
      * by rewrite fmap_app.
      * rewrite layout_end_app. simpl. fold next. unfold next_tx_offset. by rewrite Hwc, Hnext.
Qed.

(** A log opened in an empty repository. *)
Lemma open_empty f r :
  segments r = ∅ → (∀ m, indexes r = Some m → m = ∅) → f_create f = None →
  ∃ g, open crc32c f r opts = (repo g, Ok g) ∧ log_inv 0 g [] (fresh 0) ∧
    w_commit (head g) = {| min_tx_offset := 0; epoch := 0; n := 0; records := [] |} ∧
    panicked g = false ∧ max_records_in_commit (head g) = opt_max_records_in_commit opts.
Proof using.
  intros Hs Hi Hf. unfold open, existing_offsets. rewrite Hs, map_to_list_empty. simpl.
  destruct (create_segment_writer_ok f r DEFAULT_EPOCH 0 []) as
    (w & r' & -> & Hr' & (Hwc & Hwm & Hwb & Hwx) & Hwi); [|by intros ?%elem_of_nil|done|].
  { split_and!.
    - by intros s ?%elem_of_nil.
    - intros k. rewrite Hs, lookup_empty. by intros [].
    - intros m k Hm. rewrite (Hi m Hm), lookup_empty. by intros []. }
  exists_opened. split_and!; try done.
  constructor; simpl; try done.
  - split_and!; try done. apply torn_ok_nil.
  - unfold next_tx_offset. by rewrite Hwc.
Qed.

(** A log at rest that holds the commits of a list. *)
Definition good (s : Generic * list Commit) : Prop :=
  ∃ init hs, log_inv 0 s.1 init hs ∧ s_torn hs = [] ∧
    all_commits (init ++ [hs]) = s.2 ∧ 0 ≤ n (w_commit (head s.1)).

End with_crc.
