(* ===== verification/CommitlogReset.v ===== *)
(** * Resetting a commitlog

    [reset_to] and [reset] of commitlog.rs, on the segments a log leaves on
    disk: which commits remain, what happens to the offset index, and what
    reopening gives. *)

From Stdlib Require Import ZArith Lia Sorted.
From stdpp Require Import gmap.
From S2P Require Import Prelude Buffer Crc Commit IndexFile Repo Segment Commitlog.
From S2P Require Import CommitlogRead CommitlogInv.
Local Open Scope Z_scope.
Local Open Scope result_scope.

(** Looking an indexed key up finds its own entry. *)
Lemma key_lookup_self f k e :
  index_wf f → inner f ≠ [] → 0 ≤ k → key_lookup f k = Ok e → key_lookup f e.1 = Ok e.
Proof.
  intros Hwf Hne Hk. unfold key_lookup.
  destruct (find_index_spec f Hwf k Hne Hk) as [(i & e1 & -> & He & Hle & Hgt)|[-> _]]; [|done].
  cbn [rbind]. destruct (index_lookup_entry f Hwf i) as (e' & He' & Hl).
  { apply lookup_lt_Some in He. by rewrite entries_length in He. }
  rewrite Hl. intros [= <-]. assert (e1 = e') as -> by congruence. clear He'.
  pose proof (entries_key_pos f Hwf _ _ He) as Hpos.
  destruct (find_index_spec f Hwf (e'.1) Hne ltac:(lia))
    as [(i' & e2 & -> & He2 & Hle2 & Hgt2)|[_ Hall]].
  - cbn [rbind]. destruct (Nat.lt_trichotomy i i') as [Hi|[<-|Hi]].
    + pose proof (entries_keys_lt f Hwf _ _ _ _ He He2 Hi). lia.
    + done.
    + specialize (Hgt2 i e' Hi He). lia.
  - specialize (Hall e' (list_elem_of_lookup_2 _ _ _ He)). lia.
Qed.

(** The commits [reset_to off] keeps. *)
Definition keep (off : Z) (cs : list Commit) : list Commit :=
  filter (λ c, min_tx_offset c ≤ off) cs.

Lemma keep_app off cs cs' : keep off (cs ++ cs') = keep off cs ++ keep off cs'.
Proof. apply filter_app. Qed.

Lemma keep_none a cs off : chain a cs → off < a → keep off cs = [].
Proof.
  intros Hc Ha. apply filter_none, Forall_forall. intros c Hin.
  destruct (chain_bounds _ _ _ Hc Hin). lia.
Qed.

Lemma keep_cons a c cs off : chain a (c :: cs) →
  keep off (c :: cs) = if off <? min_tx_offset c then [] else c :: keep off cs.
Proof.
  intros Hc. destruct (Z.ltb_spec off (min_tx_offset c)) as [H|H].
  - eapply keep_none; [exact Hc|]. destruct Hc as [<- _]. done.
  - unfold keep. by rewrite filter_cons_True.
Qed.

Lemma keep_prefix a cs off : chain a cs → ∃ rest, cs = keep off cs ++ rest.
Proof.
  revert a. induction cs as [|c cs IH]; intros a Hc; [by exists []|].
  rewrite (keep_cons a) by done. destruct (off <? _); [by eexists|].
  destruct Hc as (_ & _ & _ & Hc). destruct (IH _ Hc) as [rest Hr].
  exists rest. simpl. by rewrite <-Hr.
Qed.

Lemma keep_all a cs off : chain a cs → chain_end a cs ≤ off → keep off cs = cs.
Proof.
  intros Hc He. apply filter_all, Forall_forall. intros c Hin.
  destruct (chain_bounds _ _ _ Hc Hin). unfold tx_end in *.
  apply list_elem_of_split in Hin as (l1 & l2 & ->).
  apply chain_app in Hc as [_ (_ & ? & _)]. lia.
Qed.

Lemma last_keep a cs off : chain a cs → a ≤ off < chain_end a cs →
  ∃ c, last (keep off cs) = Some c ∧ min_tx_offset c ≤ off < tx_end c.
Proof.
  revert a. induction cs as [|c cs IH]; intros a Hc Ha; simpl in Ha; [lia|].
  rewrite (keep_cons a) by done. destruct Hc as (Hm & Hn & _ & Hc).
  rewrite (proj2 (Z.ltb_ge _ _)) by lia. rewrite last_cons.
  destruct (decide (a + n c ≤ off)) as [Hle|Hgt].
  - destruct (IH _ Hc) as (d & -> & Hd); [lia|]. eauto.
  - rewrite (keep_none _ _ _ Hc) by lia. exists c. unfold tx_end. split; [done|lia].
Qed.

Section with_crc.
Context (crc32c : list byte → Z).
Hypothesis crc_range : ∀ l, in_u 32 (crc32c l).
Context (o : Options).
Hypothesis version_ok : opt_log_format_version o = 1.

Local Abbreviation enc := (enc crc32c).
Local Abbreviation seg_file := (seg_file crc32c o).
Local Abbreviation layout := (layout crc32c).
Local Abbreviation index_sound := (index_sound crc32c).
Local Abbreviation repo_exact := (repo_exact crc32c o).

Lemma version_range : 1 ≤ opt_log_format_version o ≤ 255.
Proof using version_ok. lia. Qed.

(** The commits of a segment are read up to the first beyond the offset. *)
Lemma reset_scan_spec fuel off cs t b a :
  chain a cs → torn_ok crc32c t → (length (enc cs ++ t) < fuel)%nat →
  reset_scan crc32c fuel off {| sc_header := new_header o; sc_reader := enc cs ++ t |} b =
  (if decide (keep off cs = cs) then
     if (CommitHeader_LEN <=? length t)%nat then Err UnexpectedEof
     else Ok (b + Z.of_nat (length (enc cs)))
   else Ok (b + Z.of_nat (length (enc (keep off cs))))).
Proof using crc_range version_ok.
  pose proof version_range as Hv.
  revert cs b a. induction fuel as [|fuel IH]; intros cs b a Hc Ht Hf; [lia|].
  cbn [reset_scan]. destruct cs as [|c cs].
  { cbn [CommitlogRead.enc app]. rewrite seg_next_torn by done.
    rewrite decide_True by done. destruct (_ <=? _)%nat; [done|]. simpl. by rewrite Z.add_0_r. }
  rewrite (keep_cons a) by done. pose proof Hc as (Hm & Hn & Hwf & Hc').
  cbn [CommitlogRead.enc]. rewrite <-app_assoc, seg_next_commit by done.
  cbn [stored sc_commit]. destruct (off <? min_tx_offset c).
  { rewrite decide_False by done. simpl. by rewrite Z.add_0_r. }
  rewrite (IH cs _ (a + n c)); [|done|done|].
  2:{ cbn [CommitlogRead.enc] in Hf. rewrite !length_app in *.
      pose proof (length_commit_write crc32c c).
      unfold encoded_len, FRAMING_LEN, CommitHeader_LEN in *. lia. }
  pose proof (length_commit_write crc32c c) as Hl.
  destruct (decide (keep off cs = cs)) as [He|He].
  - rewrite decide_True by congruence. destruct (_ <=? _)%nat; [done|].
    f_equal. rewrite length_app. lia.
  - rewrite decide_False by congruence. f_equal. cbn [CommitlogRead.enc]. rewrite length_app. lia.
Qed.

(** An index with entries has one for the offset, or none is due. *)
Definition index_covers (r : Repo) (off : Z) : Prop :=
  ∀ seg idx, seg ≤ off → get_offset_index r seg = Ok idx →
    entries idx = [] ∨ ∃ e, e ∈ entries idx ∧ e.1 ≤ off.

(** Where the scan starts: at a commit of the segment not beyond the offset. *)
Lemma reset_start_spec r s a off :
  (∀ idx, get_offset_index r (s_off s) = Ok idx → index_sound s idx) →
  chain a (s_commits s) → 0 ≤ off → s_off s ≤ off → index_covers r off →
  ∃ i pre post, s_commits s = pre ++ post ∧ keep off pre = pre ∧
    reset_start r (s_off s) off (layout_reader crc32c o s (s_commits s)) =
      (i, Z.of_nat (Header_LEN + length (enc pre)), layout_reader crc32c o s post) ∧
    match i with
    | Some idx => get_offset_index r (s_off s) = Ok idx ∧
        (∃ e, e ∈ entries idx ∧ e.1 ≤ off)
    | None => pre = [] ∧ (∀ idx, get_offset_index r (s_off s) = Ok idx → entries idx = [])
    end.
Proof using.
  intros Hidx Hc Hoff Hs Hcov. unfold reset_start.
  destruct (get_offset_index r (s_off s)) as [idx| | |] eqn:Hget;
    try (by exists None, [], (s_commits s)).
  specialize (Hidx idx eq_refl). pose proof Hidx as [Hwf _].
  destruct (seek_ok crc32c o s idx a off Hidx Hc Hoff)
    as [(pre & c & post & Hcs & Hle & Hlook & Hseek)|(e & Hlook & Hseek)].
  - rewrite Hlook. assert (inner idx ≠ []) as Hne.
    { intros Hi. unfold key_lookup, find_index in Hlook.
      assert (num_entries idx = O) as Hn0.
      { destruct Hwf as [Hl _]. rewrite Hi in Hl. simpl in Hl. lia. }
      rewrite Hn0 in Hlook. cbn in Hlook. unfold index_lookup in Hlook. by rewrite Hi in Hlook. }
    pose proof (key_lookup_self idx off _ Hwf Hne Hoff Hlook) as Hself. cbn [fst] in Hself.
    unfold seek_to_offset. rewrite Hself. unfold seek_to_offset in Hseek. rewrite Hlook in Hseek.
    rewrite Hseek. exists (Some idx), pre, (c :: post). split_and!; [done| |done|done|].
    + rewrite Hcs in Hc. apply chain_app in Hc as [Hp (Hm & _)]. eapply keep_all; [done|]. lia.
    + destruct (key_lookup_cases idx off Hwf Hoff) as [(e & He & Hin & Hle')|(e & He)];
        rewrite He in Hlook; simplify_eq. eauto.
  - rewrite Hlook. exists None, [], (s_commits s). split_and!; [done|done|done|done|].
    intros idx' [= <-]. destruct (Hcov _ _ Hs Hget) as [|(e' & Hin & Hle)]; [done|].
    exfalso. destruct (decide (inner idx = [])) as [Hi|Hi].
    { unfold entries in Hin. rewrite Hi, take_nil in Hin. by apply elem_of_nil in Hin. }
    rewrite (key_lookup_filter idx off Hwf Hi Hoff) in Hlook.
    destruct (last _) eqn:Hlast in Hlook; [done|]. apply last_None in Hlast.
    apply (elem_of_nil e'). rewrite <-Hlast. apply list_elem_of_filter. done.
Qed.

(** ** One segment *)

Definition cut (off : Z) (s : SegLayout) : SegLayout :=
  {| s_off := s_off s; s_commits := keep off (s_commits s); s_torn := [] |}.

Lemma index_sound_cut off s idx idx' :
  index_sound s idx → index_wf idx' →
  entries idx' = filter (λ e, e.1 < off + 1) (entries idx) →
  chain (s_off s) (s_commits s) → index_sound (cut off s) idx'.
Proof using.
  intros [Hwf H] Hwf' He Hc. split; [done|]. intros k b Hin. rewrite He in Hin.
  apply list_elem_of_filter in Hin as [Hlt Hin]. simpl in Hlt.
  destruct (H k b Hin) as (pre & c & post & Hs & -> & ->).
  pose proof Hc as Hc0. rewrite Hs in Hc0. apply chain_app in Hc0 as [Hp Hcp].
  exists pre, c, (keep off post). split_and!; [|done|done]. cbn [cut s_commits].
  rewrite Hs, keep_app, (keep_cons _ _ _ _ Hcp).
  destruct Hcp as [Hm _]. rewrite (keep_all _ _ _ Hp) by lia.
  by rewrite (proj2 (Z.ltb_ge _ _)) by lia.
Qed.

Lemma get_offset_index_remove r off k :
  get_offset_index (remove_segment r off).1 k =
  if decide (k = off) then (match indexes r with None => Err Other | Some _ => Err NotFound end)
  else get_offset_index r k.
Proof using.
  unfold remove_segment, remove_offset_index, get_offset_index. cbn [segments set_indexes].
  destruct (segments r !! off); cbn [fst indexes set_segments set_indexes];
    (destruct (indexes r) as [m|]; cbn [fmap option_fmap option_map];
     [destruct (decide (k = off)) as [->|Hne];
      [by rewrite lookup_delete_eq|by rewrite lookup_delete_ne]|by destruct (decide _)]).
Qed.

Lemma remove_head r init hs off :
  repo_exact r (init ++ [hs]) → (∀ s, s ∈ init → s_off s ≠ s_off hs) →
  ∃ r', remove_segment r (s_off hs) = (r', Ok tt) ∧ repo_exact r' init ∧
    (index_covers r off → index_covers r' off).
Proof using.
  intros (Hsegs & Hdom & Hidom) Hne.
  destruct (Hsegs hs ltac:(apply elem_of_app; right; by left)) as [Hf _].
  pose proof (get_offset_index_remove r (s_off hs)) as Hget.
  unfold remove_segment in *. cbn [segments remove_offset_index set_indexes] in *.
  rewrite Hf in *. cbn [fst] in Hget.
  eexists. split; [done|]. split; [split_and!|].
  - intros s Hs. rewrite Hget, decide_False by auto.
    cbn [segments set_segments]. rewrite lookup_delete_ne by (apply not_eq_sym; auto).
    apply Hsegs. apply elem_of_app. by left.
  - intros k Hk. cbn [segments set_segments] in Hk. destruct (decide (k = s_off hs)) as [->|Hk'].
    { rewrite lookup_delete_eq in Hk. by destruct Hk. }
    rewrite lookup_delete_ne in Hk by done. apply Hdom in Hk. rewrite fmap_app in Hk.
    apply elem_of_app in Hk as [|Hk%list_elem_of_singleton]; done.
  - intros m k Hm Hk. cbn [indexes set_segments set_indexes remove_offset_index] in Hm.
    destruct (indexes r) as [m0|] eqn:Hm0; [|done]. simplify_eq/=.
    destruct (decide (k = s_off hs)) as [->|Hk'].
    { rewrite lookup_delete_eq in Hk. by destruct Hk. }
    rewrite lookup_delete_ne in Hk by done. specialize (Hidom _ _ eq_refl Hk).
    rewrite fmap_app in Hidom. apply elem_of_app in Hidom as [|Hk2%list_elem_of_singleton]; done.
  - intros Hcov seg idx Hseg Hi. rewrite Hget in Hi.
    destruct (decide _); [by destruct (indexes r)|]. eauto.
Qed.

Lemma head_update_cut r r' hs off init :
  repo_exact r (init ++ [hs]) → chain (s_off hs) (s_commits hs) →
  segments r' = segments (ftruncate_segment r (s_off hs)
    (Header_LEN + length (enc (keep off (s_commits hs))))) →
  (∀ k, k ≠ s_off hs → get_offset_index r' k = get_offset_index r k) →
  (∀ idx, get_offset_index r' (s_off hs) = Ok idx → index_sound (cut off hs) idx) →
  (∀ m' k, indexes r' = Some m' → is_Some (m' !! k) →
     k = s_off hs ∨ ∃ m, indexes r = Some m ∧ is_Some (m !! k)) →
  head_update crc32c o r r' hs (cut off hs).
Proof using.
  intros (Hsegs & _) Hc Hs Hi Hh Hd.
  destruct (Hsegs hs ltac:(apply elem_of_app; right; by left)) as [Hf _].
  constructor; rewrite ?Hs; cbn [ftruncate_segment segments set_segments]; auto.
  - rewrite lookup_alter_eq, Hf. cbn [fmap option_fmap option_map]. f_equal.
    destruct (keep_prefix _ _ off Hc) as [rest Hr].
    unfold CommitlogRead.seg_file. cbn [cut s_commits s_torn]. rewrite app_nil_r.
    rewrite Hr at 2. rewrite enc_app, <-app_assoc, app_assoc.
    rewrite resize_le.
    + rewrite take_app_length'; [done|]. by rewrite length_app, length_header_write.
    + rewrite !length_app, length_header_write. lia.
  - intros k Hk.
    by rewrite lookup_alter_ne.
Qed.

Lemma reset_segment_spec a r init hs off :
  layout a (init ++ [hs]) → Forall (λ s, s_commits s ≠ []) init →
  repo_exact r (init ++ [hs]) → 0 ≤ off < u64_MAX → s_off hs ≤ off → index_covers r off →
  reset_segment crc32c r (s_off hs) off = (r, Err UnexpectedEof) ∧ (CommitHeader_LEN ≤ length (s_torn hs))%nat ∨
  (∃ r', reset_segment crc32c r (s_off hs) off = (r', Ok false) ∧ s_commits hs = [] ∧
     repo_exact r' init ∧ index_covers r' off) ∨
  (∃ r', reset_segment crc32c r (s_off hs) off = (r', Ok true) ∧ s_commits hs ≠ [] ∧
     repo_exact r' (init ++ [cut off hs])).
Proof using crc_range version_ok.
  intros Hlay Hne Hr [Hoff Hoff'] Hle Hcov.
  assert (∀ s, s ∈ init → s_off s ≠ s_off hs) as Hdist.
  { intros s Hs. pose proof (layout_init_lt _ _ _ _ Hlay Hne s Hs). lia. }
  pose proof Hlay as (_ & Ho & Hc & Ht & _)%layout_app. rewrite <-Ho in Hc.
  destruct (proj1 Hr hs ltac:(apply elem_of_app; right; by left)) as [Hf Hidx].
  unfold reset_segment. rewrite (open_segment_reader_ok crc32c o version_range r hs)
    by (done || (unfold DEFAULT_LOG_FORMAT_VERSION; lia)).
  destruct (reset_start_spec r hs _ off Hidx Hc Hoff Hle Hcov)
    as (i & pre & post & Hs & Hkp & -> & Hi).
  cbv zeta. unfold Reader_commits. cbn [layout_reader rd_header rd_inner sc_reader].
  pose proof Hc as Hcp. rewrite Hs in Hcp. apply chain_app in Hcp as [_ Hcp].
  rewrite (reset_scan_spec _ _ _ _ _ _ Hcp Ht) by lia.
  assert (keep off (s_commits hs) = pre ++ keep off post) as Hkeep
    by (by rewrite Hs, keep_app, Hkp).
  destruct (decide (keep off post = post ∧ (CommitHeader_LEN ≤ length (s_torn hs))%nat))
    as [[He Hl]|Hok].
  { left. rewrite decide_True by done. rewrite (proj2 (Nat.leb_le _ _)) by done. by split. }
  right.
  replace (if decide (keep off post = post) then _ else _) with
    (Ok (Z.of_nat (Header_LEN + length (enc (keep off (s_commits hs))))) : io Z).
  2:{ rewrite Hkeep, enc_app, length_app. destruct (decide (keep off post = post)) as [He|He].
      - destruct (Nat.leb_spec CommitHeader_LEN (length (s_torn hs))); [by destruct Hok|].
        rewrite He. f_equal. lia.
      - f_equal. lia. }
  clear Hok. destruct (decide (s_commits hs = [])) as [Hnil|Hnn].
  - left. rewrite Hnil. cbn [keep filter list_filter CommitlogRead.enc length].
    rewrite Nat.add_0_r, Z.eqb_refl.
    destruct (remove_head r init hs off Hr Hdist) as (r' & -> & Hr' & Hcov').
    exists r'. split_and!; auto.
  - right.
    assert (keep off (s_commits hs) ≠ []) as Hkn.
    { destruct (s_commits hs) as [|c cs] eqn:Hcs; [done|]. rewrite (keep_cons _ _ _ _ Hc).
      destruct Hc as [Hm _]. by rewrite (proj2 (Z.ltb_ge _ _)) by lia. }
    rewrite (proj2 (Z.eqb_neq _ _)).
    2:{ destruct (keep off (s_commits hs)) as [|c cs]; [done|].
        pose proof (length_commit_write crc32c c). cbn [CommitlogRead.enc]. rewrite length_app.
        unfold encoded_len, FRAMING_LEN, CommitHeader_LEN in *. lia. }
    destruct i as [idx|].
    + destruct Hi as [Hget (e & Hin & Hele)]. specialize (Hidx idx Hget). pose proof Hidx as [Hwf _].
      rewrite add_u_Ok by (unfold u64_MAX in *; lia). cbn [rbind].
      destruct (truncate_cases idx (off + 1) Hwf) as [(f' & -> & Hwf' & He' & _)|[_ Hall]];
        [|lia| |].
      { intros Hi. unfold entries in Hin. rewrite Hi, take_nil in Hin. by apply elem_of_nil in Hin. }
      2:{ specialize (Hall e Hin). lia. }
      rewrite Nat2Z.id. eexists. split; [done|]. split; [done|].
      eapply repo_exact_update; [done|done|].
      pose proof (index_sound_cut off hs idx f' Hidx Hwf' He' Hc) as Hcut.
      eapply head_update_cut; [done|done|done| | |].
      * intros k Hk. unfold ftruncate_segment.
        change (get_offset_index (store_offset_index r (s_off hs) f') k = get_offset_index r k).
        by rewrite get_offset_index_store, decide_False.
      * intros idx' Hget'.
        change (get_offset_index (store_offset_index r (s_off hs) f') (s_off hs) = Ok idx') in Hget'.
        rewrite get_offset_index_store, decide_True in Hget' by done.
        destruct (indexes r); [|done]. simplify_eq. rewrite count_entries_wf by done.
        by destruct f'.
      * cbn. intros m' k Hm' Hk. destruct (indexes r) as [m|]; [|done]. simplify_eq/=.
        destruct (decide (k = s_off hs)) as [->|Hne']; [by left|].
        rewrite lookup_insert_ne in Hk by done. right. eauto.
    + destruct Hi as [-> Hnone]. rewrite Nat2Z.id. eexists. split; [done|]. split; [done|].
      eapply repo_exact_update; [done|done|].
      eapply head_update_cut; [done|done|done|done| |cbn; eauto].
      intros idx Hget. specialize (Hidx idx Hget). pose proof Hidx as [Hwf _].
      eapply index_sound_cut; [done|done| |done]. by rewrite (Hnone idx Hget).
Qed.

(** ** All segments *)

(** Segments of which all but the last hold commits. *)
Definition segs_ok (segs : list SegLayout) : Prop :=
  layout 0 segs ∧ ∀ init hs, segs = init ++ [hs] → Forall (λ s, s_commits s ≠ []) init.

Lemma segs_ok_init init hs : segs_ok (init ++ [hs]) → segs_ok init.
Proof using.
  intros [Hl Hne]. apply layout_app in Hl as [Hl _]. split; [done|].
  intros init' hs' ->. specialize (Hne _ _ eq_refl). by apply Forall_app in Hne as [? _].
Qed.

(** What is left of a log: nothing, or segments that end in a whole commit. *)
Definition reset_post (off : Z) (log : list Commit) (r : Repo) : Prop :=
  ∃ segs, segs_ok segs ∧ repo_exact r segs ∧ all_commits segs = keep off log ∧
    ∀ init hs, segs = init ++ [hs] → s_torn hs = [].

Lemma reset_loop_spec off segs r :
  segs_ok segs → repo_exact r segs → 0 ≤ off < u64_MAX → index_covers r off →
  (∃ r', reset_to_internal_rev crc32c r (reverse (s_off <$> segs)) off = (r', Err UnexpectedEof) ∧
     ∃ s, s ∈ segs ∧ (CommitHeader_LEN ≤ length (s_torn s))%nat) ∨
  (∃ r', reset_to_internal_rev crc32c r (reverse (s_off <$> segs)) off = (r', Ok tt) ∧
     reset_post off (all_commits segs) r').
Proof using crc_range version_ok.
  intros Hok Hr Hoff Hcov. revert r Hr Hcov.
  induction segs as [|hs init IH] using rev_ind; intros r Hr Hcov.
  { right. exists r. split; [done|]. exists []. split_and!; try done. by intros [] ?. }
  rewrite fmap_app, reverse_app. cbn [reverse rev_append fmap list_fmap app reset_to_internal_rev].
  pose proof (segs_ok_init _ _ Hok) as Hoki. pose proof Hok as [Hlay Hne].
  specialize (Hne _ _ eq_refl).
  assert (∀ s, s ∈ init → s_off s ≠ s_off hs) as Hdist.
  { intros s Hs. pose proof (layout_init_lt _ _ _ _ Hlay Hne s Hs). lia. }
  pose proof Hlay as (_ & Ho & Hc & Ht & _)%layout_app.
  assert (∀ r', keep off (s_commits hs) = [] → reset_post off (all_commits init) r' →
    reset_post off (all_commits (init ++ [hs])) r') as Hpost.
  { intros r' Hk (segs & ? & ? & Ha & ?). exists segs. split_and!; try done.
    by rewrite all_commits_snoc, keep_app, Hk, app_nil_r. }
  assert (∀ r', keep off (s_commits hs) = [] → repo_exact r' init → index_covers r' off →
    (∃ r'', reset_to_internal_rev crc32c r' (reverse (s_off <$> init)) off =
        (r'', Err UnexpectedEof) ∧ ∃ s, s ∈ init ++ [hs] ∧ (CommitHeader_LEN ≤ length (s_torn s))%nat) ∨
    (∃ r'', reset_to_internal_rev crc32c r' (reverse (s_off <$> init)) off = (r'', Ok tt) ∧
        reset_post off (all_commits (init ++ [hs])) r'')) as Hrec.
  { intros r' Hk Hr' Hcov'. destruct (IH Hoki r' Hr' Hcov') as [(r'' & -> & s & Hs & Hst)|
      (r'' & -> & Hp)]; [left|right; eauto]. exists r''. split; [done|]. exists s.
    split; [|done]. apply elem_of_app. by left. }
  destruct (Z.ltb_spec off (s_off hs)) as [Hlt|Hge].
  - destruct (remove_head r init hs off Hr Hdist) as (r' & -> & Hr' & Hcov').
    apply Hrec; [|done|auto]. eapply keep_none; [done|]. lia.
  - destruct (reset_segment_spec 0 r init hs off Hlay Hne Hr Hoff Hge Hcov)
      as [[-> Hst]|[(r' & -> & Hnil & Hr' & Hcov')|(r' & -> & Hnn & Hr')]].
    + left. eexists. split; [done|]. exists hs. split; [|done]. apply elem_of_app. right. by left.
    + apply Hrec; [by rewrite Hnil|done|done].
    + right. exists r'. split; [done|]. exists (init ++ [cut off hs]). split_and!; [|done| |].
      * destruct (keep_prefix _ _ off Hc) as [rest Hrest]. split.
        { apply layout_app in Hlay as [Hl _]. apply layout_app. split; [done|].
          split_and!; try done; [|apply torn_ok_nil]. cbn [cut s_commits].
          rewrite Hrest in Hc. by apply chain_app in Hc as [? _]. }
        intros init' hs' [-> _]%app_inj_tail. done.
      * rewrite !all_commits_snoc, keep_app. cbn [cut s_commits]. f_equal.
        apply layout_app in Hlay as [Hl _]. apply layout_chain in Hl as [Hch He].
        symmetry. eapply keep_all; [done|]. lia.
      * by intros init' hs' [_ <-]%app_inj_tail.
Qed.

(** ** Remains of failed writes *)

Fixpoint commits_intact (fuel : nat) (s : SegCommits) : bool :=
  match fuel with
  | O => false
  | S fuel =>
      match seg_commits_next crc32c s with
      | (Ok None, _) => true
      | (Ok (Some _), s) => commits_intact fuel s
      | _ => false
      end
  end.
(** All segments are read to their ends without an error. *)
Definition segment_intact (file : list byte) : bool :=
  match header_decode file with
  | Ok (header, rest) => commits_intact (S (length rest)) {| sc_header := header; sc_reader := rest |}
  | _ => false
  end.
Definition intact (r : Repo) : bool := forallb (λ e, segment_intact e.2) (map_to_list (segments r)).

Lemma commits_intact_torn fuel a cs t :
  chain a cs → torn_ok crc32c t → (length (enc cs ++ t) < fuel)%nat →
  commits_intact fuel {| sc_header := new_header o; sc_reader := enc cs ++ t |} = (length t <? CommitHeader_LEN)%nat.
Proof using crc_range version_ok.
  revert a cs. induction fuel as [|fuel IH]; intros a cs Hc Ht Hf; [lia|]. cbn [commits_intact]. destruct cs as [|c cs].
  - cbn [CommitlogRead.enc app]. rewrite (seg_next_torn crc32c o version_range) by done.
    destruct (Nat.leb_spec CommitHeader_LEN (length t)), (Nat.ltb_spec (length t) CommitHeader_LEN); (done || lia).
  - destruct Hc as (_ & _ & Hwf & Hc). cbn [CommitlogRead.enc] in *. rewrite <-app_assoc in *.
    rewrite (seg_next_commit crc32c crc_range o version_range) by done. eapply IH; [done|done|].
    rewrite !length_app in *. pose proof (length_commit_write crc32c c).
    unfold encoded_len, FRAMING_LEN, CommitHeader_LEN in *. lia.
Qed.

Lemma torn_not_intact r segs s :
  layout 0 segs → repo_exact r segs → s ∈ segs → (CommitHeader_LEN ≤ length (s_torn s))%nat → intact r = false.
Proof using crc_range version_ok.
  intros Hlay (Hsegs & _) Hs Hl. destruct (Hsegs s Hs) as [Hf _].
  apply list_elem_of_split in Hs as (segs1 & segs2 & ->). apply layout_app in Hlay as [_ (_ & Hc & Ht & _)].
  apply not_true_is_false. unfold intact. rewrite forallb_forall. intros Hall.
  specialize (Hall (s_off s, seg_file s)). cbn [snd] in Hall. rewrite <-list_elem_of_In in Hall.
  specialize (Hall (proj2 (elem_of_map_to_list _ _ _) Hf)). revert Hall.
  unfold segment_intact, CommitlogRead.seg_file. rewrite new_header_decode by apply version_range.
  rewrite (commits_intact_torn _ _ _ _ Hc Ht) by lia. rewrite (proj2 (Nat.ltb_ge _ _)) by lia. done.
Qed.

Lemma remove_segments_spec segs r :
  segs_ok segs → repo_exact r segs →
  ∃ r', remove_segments r (reverse (s_off <$> segs)) = (r', Ok tt) ∧ repo_exact r' [].
Proof using.
  intros Hok Hr. revert r Hr. induction segs as [|hs init IH] using rev_ind; intros r Hr; [by exists r|].
  rewrite fmap_app, reverse_app. cbn [reverse rev_append fmap list_fmap app remove_segments].
  pose proof Hok as [Hlay Hne]. specialize (Hne _ _ eq_refl).
  destruct (remove_head r init hs (-1) Hr) as (r' & -> & Hr' & _).
  - intros s Hs. pose proof (layout_init_lt _ _ _ _ Hlay Hne s Hs). lia.
  - apply IH; [by eapply segs_ok_init|done].
Qed.
End with_crc.

Section reopen.
Context (crc32c : list byte → Z).
Hypothesis crc_range : ∀ l, in_u 32 (crc32c l).
Context (o : Options).
Hypothesis version_ok : 1 ≤ opt_log_format_version o ≤ 255.

(** A commit without records. *)
Definition emptied (c : Commit) : Prop := n c = 0 ∧ records c = [].

(** Opening what a reset has left. *)
Lemma open_after_reset off log r :
  reset_post crc32c o off log r →
  ∃ g, open crc32c no_faults r o = (repo g, Ok g) ∧ good crc32c o (g, keep off log) ∧
    emptied (w_commit (head g)).
Proof using crc_range version_ok.
  intros (segs & [Hlay Hne] & Hr & Hall & Ht). destruct segs as [|hs init _] using rev_ind.
  - destruct Hr as (_ & Hdom & Hidom).
    destruct (open_empty crc32c o no_faults r) as (g & Ho & Hinv & Hb & _); [| |done|].
    + apply map_empty. intros k. destruct (segments r !! k) eqn:Hk; [|done].
      exfalso. apply (elem_of_nil k). apply Hdom. by rewrite Hk.
    + intros m Hm. apply map_empty. intros k. destruct (m !! k) eqn:Hk; [|done].
      exfalso. apply (elem_of_nil k). apply (Hidom m); [done|]. by rewrite Hk.
    + exists g. split; [done|]. rewrite Hb. split; [|done]. exists [], (fresh 0).
      split_and!; try done. simpl. by rewrite Hb.
  - specialize (Hne _ _ eq_refl). specialize (Ht _ _ eq_refl).
    destruct (open_spec crc32c crc_range o version_ok no_faults 0 r init hs)
      as (pre & post & _ & _ & _ & Hspec); try done.
    rewrite Ht in Hspec. cbn [length] in Hspec.
    destruct Hspec as (g & Ho & Hinv & Hb & _). exists g. split; [done|].
    rewrite Hb. split; [|done]. exists init, hs. split_and!; try done. simpl. by rewrite Hb.
Qed.

End reopen.
