(* ===== verification/CommitlogThm.v ===== *)
(** * What the commitlog promises

    The transition system of a log ([log_step]) and the theorems about every
    state it reaches: what was acknowledged is read back, commits go through
    when the storage works, a crash loses nothing that was acknowledged; and
    the cases in which that is not so. *)

From Stdlib Require Import ZArith Lia Sorted.
From stdpp Require Import gmap relations.
From S2P Require Import Prelude Buffer Crc Commit IndexFile Repo Segment Commitlog.
From S2P Require Import CommitlogRead CommitlogInv CommitlogReset.
Local Open Scope Z_scope.
Local Open Scope result_scope.

Section with_crc.
Context (crc32c : list byte → Z).

(** ** The transition system *)

(** New segments can be created and synced; a write may stop short of the end
    of the commit.  When a write is reported as failed although all of the
    commit is on disk, the log forks ([failed_write_forks]). *)
Definition storage_ok (f : Faults) (c : Commit) : Prop :=
  f_create f = None ∧ f_fsync f = false ∧
  ∀ k, f_write f = Some k → (k < length (commit_write crc32c c))%nat.

(** What an operation acknowledges, if anything: the buffered commit. *)
Definition acked (c : Commit) (res : io (option Committed)) : list Commit :=
  match res with
  | Ok (Some _) => [c]
  | _ => []
  end.

(** A crash while the buffered commit is written to the head segment, of which
    [k] bytes reach the disk. *)
Definition crashed (g : Generic) (k : nat) : Repo :=
  append_segment (repo g) (w_min_tx_offset (head g))
    (take k (commit_write crc32c (w_commit (head g)))).

(** The crashes after which the log goes on with what was acknowledged leave
    nothing of the commit, or a part with at least the header.  A shorter part
    goes unnoticed ([torn_header_loses_commit]). *)
Definition crash_ok (c : Commit) (k : nat) : Prop :=
  k = O ∨ (CommitHeader_LEN ≤ k < length (commit_write crc32c c))%nat ∧ commit_wf c.

(** All crashes before the commit is on disk as a whole. *)
Definition crash_part (c : Commit) (k : nat) : Prop :=
  k = O ∨ (k < length (commit_write crc32c c))%nat ∧ commit_wf c.

(** The operations, on a log and the list of its commits so far: those that
    were acknowledged, and those that were on disk as a whole when a crash came
    before the acknowledgement.  Operations that fail with [AlreadyExists] or
    panic end the life of the log and have no step. *)
Inductive op_step : Generic * list Commit → Generic * list Commit → Prop :=
| step_commit f g g' res log :
    storage_ok f (w_commit (head g)) → commit_wf (w_commit (head g)) →
    commit crc32c f g = (g', res) → (∃ r, res = Ok r) ∨ res = Err OsError →
    op_step (g, log) (g', log ++ acked (w_commit (head g)) res)
| step_set_epoch f e g g' res log :
    storage_ok f (w_commit (head g)) → commit_wf (w_commit (head g)) →
    set_epoch crc32c f e g = (g', Ok res) →
    op_step (g, log) (g', log ++ acked (w_commit (head g)) (Ok res))
| step_sync f g g' log :
    f_fsync f = false → sync f g = (g', Ok tt) → op_step (g, log) (g', log)
| step_crash k r g g' log :
    crash_ok (w_commit (head g)) k →
    open crc32c no_faults (crashed g k) (opts g) = (r, Ok g') →
    op_step (g, log) (g', log)
| step_crash_whole r g g' log :
    0 < n (w_commit (head g)) → commit_wf (w_commit (head g)) →
    open crc32c no_faults (crashed g (length (commit_write crc32c (w_commit (head g))))) (opts g) = (r, Ok g') →
    op_step (g, log) (g', log ++ [w_commit (head g)])
| step_reset_to off r g g' log :
    opt_log_format_version (opts g) = 1 → 0 ≤ off < u64_MAX → index_covers (repo g) off →
    generic_reset_to crc32c no_faults g off = (r, Ok g') →
    op_step (g, log) (g', keep off log)
| step_reset r g g' log :
    generic_reset crc32c no_faults g = (r, Ok g') → op_step (g, log) (g', []).

(** Records are appended to the buffered commit. *)
Inductive log_step : Generic * list Commit → Generic * list Commit → Prop :=
| step_append g g' rec log :
    append g rec = Some g' → log_step (g, log) (g', log)
| step_op s s' : op_step s s' → log_step s s'.

(** A log starts in an empty repository, in memory or on disk. *)
Definition log_start (o : Options) (s : Generic * list Commit) : Prop :=
  ∃ r, (r = empty_memory ∨ r = empty_fs) ∧
    open crc32c no_faults r o = (repo s.1, Ok s.1) ∧ s.2 = [].

Definition reachable (o : Options) (s : Generic * list Commit) : Prop :=
  ∃ s0, log_start o s0 ∧ rtc log_step s0 s.

Hypothesis crc_range : ∀ l, in_u 32 (crc32c l).
Context (o : Options).
Hypothesis version_ok : 1 ≤ opt_log_format_version o ≤ 255.

Local Abbreviation log_inv := (log_inv crc32c o).

Local Abbreviation good := (good crc32c o).

Lemma set_buffer_inv a g init hs c :
  log_inv a g init hs → min_tx_offset c = next_tx_offset (head g) →
  log_inv a (set_head (set_commit c (head g)) (repo g) g) init hs.
Proof using. intros [] Hc. constructor; simpl; try done. unfold next_tx_offset. simpl. congruence. Qed.

Lemma good_append g g' rec log : good (g, log) → append g rec = Some g' → good (g', log).
Proof using.
  intros (init & hs & Hinv & Ht & Hall & Hn) Happ. unfold append, writer_append in Happ.
  destruct (_ || _); [done|]. simplify_eq/=. exists init, hs. split_and!; try done.
  - by apply set_buffer_inv.
  - simpl. simpl in Hn. lia.
Qed.

(** What an operation does to the buffered commit and the acknowledged ones: it
    acknowledges the buffer and empties it, leaves the records in it alone, or
    empties it and keeps a prefix of the log. *)
Definition advance (c : Commit) (log : list Commit) (c' : Commit) (log' : list Commit) : Prop :=
  log' = log ++ [c] ∧ emptied c' ∨
  log' = log ∧ n c' = n c ∧ records c' = records c ∨
  log' `prefix_of` log ∧ emptied c'.

Lemma advance_same c log c' : c' = c → advance c log c' log.
Proof using. intros ->. by right; left. Qed.

Lemma good_commit f g g' res log :
  good (g, log) → storage_ok f (w_commit (head g)) → commit_wf (w_commit (head g)) →
  commit crc32c f g = (g', res) → (∃ r, res = Ok r) ∨ res = Err OsError →
  good (g', log ++ acked (w_commit (head g)) res) ∧
  advance (w_commit (head g)) log (w_commit (head g')) (log ++ acked (w_commit (head g)) res).
Proof using.
  intros (init & hs & Hinv & Ht & Hall & Hn) (Hfc & Hff & Hfw) Hwf Hcom Hres. simpl in *.
  destruct (decide (n (w_commit (head g)) = 0)) as [H0|H0].
  { destruct (commit_none crc32c o f 0 g init hs Hinv Ht Hfc Hff H0)
      as (g1 & init' & hs' & Hc & Hi & Ht' & Ha' & Hb & _).
    rewrite Hc in Hcom. simplify_eq/=. rewrite app_nil_r. split; [|by apply advance_same].
    exists init', hs'. rewrite Ha'. split_and!; try done. simpl. by rewrite Hb. }
  destruct (f_write f) as [k|] eqn:Hw.
  - destruct (commit_fail crc32c o f 0 g init hs k Hinv Ht Hfc Hff Hw ltac:(lia) Hwf
      (Hfw k eq_refl)) as (g1 & [Hc|(init' & hs' & Hc & Hi & Ht' & Ha' & Hb & _)]).
    { rewrite Hc in Hcom. simplify_eq/=. by destruct Hres as [[? ?]|?]. }
    rewrite Hc in Hcom. simplify_eq/=. rewrite app_nil_r. split; [|by apply advance_same].
    exists init', hs'. rewrite Ha'. split_and!; try done. simpl. by rewrite Hb.
  - destruct (commit_ok crc32c o f 0 g init hs Hinv Ht Hfc Hff Hw ltac:(lia) Hwf)
      as (g1 & init' & hs' & Hc & Hi & Ht' & Ha' & Hb & _).
    rewrite Hc in Hcom. simplify_eq/=. split; [|by left; rewrite Hb].
    exists init', hs'. rewrite Ha'. split_and!; try done. simpl. by rewrite Hb.
Qed.

Lemma good_set_epoch f e g g' res log :
  good (g, log) → storage_ok f (w_commit (head g)) → commit_wf (w_commit (head g)) →
  set_epoch crc32c f e g = (g', Ok res) →
  good (g', log ++ acked (w_commit (head g)) (Ok res)) ∧
  advance (w_commit (head g)) log (w_commit (head g')) (log ++ acked (w_commit (head g)) (Ok res)).
Proof using.
  intros Hg Hf Hwf Hset. unfold set_epoch in Hset.
  destruct (e ?= generic_epoch g); simplify_eq/=.
  { rewrite app_nil_r. split; [done|by apply advance_same]. }
  destruct (commit crc32c f g) as [g1 [r| | |]] eqn:Hc; simplify_eq/=.
  destruct (good_commit f g g1 (Ok res) log) as [(init & hs & Hinv & Ht & Hall & Hn) Hadv]; eauto.
  split; [|done]. exists init, hs. split_and!; try done. by apply set_buffer_inv.
Qed.

Lemma crash_ok_part c k : crash_ok c k → crash_part c k.
Proof using. intros [->|[[_ ?] ?]]; [by left|by right]. Qed.

(** The repository after a crash. *)
Lemma crashed_repo g init hs k log :
  log_inv 0 g init hs → s_torn hs = [] → all_commits (init ++ [hs]) = log →
  crash_part (w_commit (head g)) k →
  let t := take k (commit_write crc32c (w_commit (head g))) in
  layout crc32c 0 (init ++ [tear hs t]) ∧
  repo_exact crc32c o (crashed g k) (init ++ [tear hs t]) ∧
  all_commits (init ++ [tear hs t]) = log ∧ length t = k.
Proof using.
  intros Hinv Ht Hall Hk t.
  pose proof (log_inv_head_in _ _ _ _ _ _ Hinv) as Hne.
  destruct Hinv as [_ Hlay Hnone Hrepo _ Hmin _ _ _ _]. split_and!.
  - rewrite layout_app in *. simpl in *. destruct Hlay as (? & ? & ? & _ & _).
    split_and!; try done. destruct Hk as [->|[? ?]]; [apply torn_ok_nil|].
    by exists (w_commit (head g)), k.
  - unfold crashed. rewrite Hmin. eapply repo_exact_update; [done|done|].
    eapply head_update_append; [done|done| |].
    + exists []. simpl. by rewrite app_nil_r.
    + unfold seg_file. simpl. by rewrite Ht, app_nil_r, <-app_assoc.
  - rewrite <-Hall, !all_commits_snoc. done.
  - subst t. rewrite length_take. destruct Hk as [->|[Hk _]]; lia.
Qed.

Lemma good_crash k r g g' log :
  good (g, log) → crash_ok (w_commit (head g)) k →
  open crc32c no_faults (crashed g k) (opts g) = (r, Ok g') →
  good (g', log) ∧ emptied (w_commit (head g')).
Proof using crc_range version_ok.
  intros (init & hs & Hinv & Ht & Hall & Hn) Hk Hopen. simpl in *.
  destruct (crashed_repo g init hs k log Hinv Ht Hall (crash_ok_part _ _ Hk)) as (Hlay & Hrepo & Hall' & Hlen).
  rewrite (inv_opts _ _ _ _ _ _ Hinv) in Hopen.
  set (t := take k _) in *.
  destruct (open_spec crc32c crc_range o version_ok no_faults 0 (crashed g k) init (tear hs t))
    as (pre & post & _ & _ & _ & Hspec);
    [done|done|by apply Hinv|done|done|]. cbn [s_torn tear] in Hspec. rewrite Hlen in Hspec.
  destruct Hk as [->|[[Hk _] _]].
  - destruct Hspec as (g1 & Ho & Hi & Hb & _). rewrite Ho in Hopen. simplify_eq.
    rewrite Hb. split; [|done].
    exists init, (tear hs t). split_and!; try done. simpl. by rewrite Hb.
  - rewrite (proj2 (Nat.ltb_ge _ _)) in Hspec by done. destruct (decide _).
    { rewrite Hspec in Hopen. done. }
    destruct Hspec as (g1 & Ho & Hi & Hb & _). rewrite Ho in Hopen. simplify_eq.
    rewrite Hb. split; [|done]. eexists _, _. split; [done|]. split_and!; try done.
    + rewrite all_commits_snoc. simpl. by rewrite app_nil_r.
    + simpl. by rewrite Hb.
Qed.

(** The crash came when all of the commit was on disk. *)
Lemma crashed_whole g log :
  let c := w_commit (head g) in
  good (g, log) → 0 < n c → commit_wf c →
  ∃ g', open crc32c no_faults (crashed g (length (commit_write crc32c c))) (opts g) = (repo g', Ok g') ∧
    good (g', log ++ [c]) ∧ emptied (w_commit (head g')) ∧ next_tx_offset (head g') = tx_end c.
Proof using crc_range version_ok.
  intros c (init & hs & Hinv & Ht & Hall & _) Hn Hwf. cbn [fst snd] in *.
  pose proof (log_inv_head_in _ _ _ _ _ _ Hinv) as Hin.
  pose proof Hinv as [Ha Hlay Hne Hrepo _ Hmin Hnext _ Hopts _].
  destruct (layout_grow crc32c _ _ _ c Hlay Hnext Hn Hwf) as [Hlay' Hend].
  assert (repo_exact crc32c o (crashed g (length (commit_write crc32c c))) (init ++ [grow hs c])) as Hrepo'.
  { unfold crashed. fold c. rewrite firstn_all, Hmin. eapply repo_exact_update; [done|done|].
    eapply head_update_append; [done|done|by eexists|by apply seg_file_grow]. }
  destruct (open_spec crc32c crc_range o version_ok no_faults 0 _ init (grow hs c) Ha Hlay' Hne Hrepo' eq_refl)
    as (pre & post & _ & _ & _ & g' & Ho & Hi & Hb & _).
  rewrite Hopts. exists g'. split; [done|]. unfold next_tx_offset. rewrite Hb. split; [|by split].
  exists init, (grow hs c). split_and!; try done; cbn [fst snd].
  - rewrite <-Hall, !all_commits_snoc. cbn [grow s_commits]. by rewrite app_assoc.
  - by rewrite Hb.
Qed.

Lemma good_segs g log : good (g, log) →
  ∃ init hs, log_inv 0 g init hs ∧ s_torn hs = [] ∧ all_commits (init ++ [hs]) = log ∧
    segs_ok crc32c (init ++ [hs]) ∧
    tail g ++ [w_min_tx_offset (head g)] = s_off <$> (init ++ [hs]).
Proof using.
  intros (init & hs & Hinv & Ht & Hall & _). exists init, hs. cbn [fst snd] in *.
  split_and!; try done.
  - split; [apply Hinv|]. intros init' hs' [<- _]%app_inj_tail. apply Hinv.
  - rewrite fmap_app, (inv_tail _ _ _ _ _ _ Hinv), (inv_min _ _ _ _ _ _ Hinv). done.
Qed.

Lemma good_reset_to off g log :
  good (g, log) → opt_log_format_version o = 1 → 0 ≤ off < u64_MAX → index_covers (repo g) off →
  (∃ r, generic_reset_to crc32c no_faults g off = (r, Err UnexpectedEof) ∧ intact crc32c (repo g) = false) ∨
  (∃ g', generic_reset_to crc32c no_faults g off = (repo g', Ok g') ∧
     good (g', keep off log) ∧ emptied (w_commit (head g'))).
Proof using crc_range version_ok.
  intros Hg Hv Hoff Hcov.
  destruct (good_segs g log Hg) as (init & hs & Hinv & Ht & Hall & Hok & Hsegs).
  unfold generic_reset_to, reset_to_internal. rewrite Hsegs, (inv_opts _ _ _ _ _ _ Hinv).
  destruct (reset_loop_spec crc32c crc_range o Hv off (init ++ [hs]) (repo g))
    as [(r & -> & s & Hs & Hst)|(r & -> & Hp)]; [done|apply Hinv|done|done|left|right].
  - exists r. split; [done|].
    by apply (torn_not_intact crc32c crc_range o Hv (repo g) (init ++ [hs]) s); [apply Hok|apply Hinv|..].
  - rewrite Hall in Hp. by apply open_after_reset.
Qed.

Lemma good_reset g log : good (g, log) →
  ∃ g', generic_reset crc32c no_faults g = (repo g', Ok g') ∧ good (g', []) ∧
    emptied (w_commit (head g')).
Proof using crc_range version_ok.
  intros Hg. destruct (good_segs g log Hg) as (init & hs & Hinv & Ht & Hall & Hok & Hsegs).
  unfold generic_reset. rewrite Hsegs, (inv_opts _ _ _ _ _ _ Hinv).
  destruct (remove_segments_spec crc32c o (init ++ [hs]) (repo g)) as (r & -> & Hr);
    [done|apply Hinv|].
  destruct (open_after_reset crc32c crc_range o version_ok 0 [] r) as (g' & Ho & Hg' & Hn);
    [|by exists g'].
  exists []. split_and!; try done; [|by intros [] ?]. split; [done|]. by intros [] ?.
Qed.

Lemma good_op s s' : good s → op_step s s' →
  good s' ∧ advance (w_commit (head s.1)) s.2 (w_commit (head s'.1)) s'.2.
Proof using crc_range version_ok.
  intros Hg Hstep. destruct Hstep; cbn [fst snd].
  - by eapply good_commit.
  - by eapply good_set_epoch.
  - destruct Hg as (init & hs & Hinv & Ht & Hall & Hn).
    destruct (sync_inv crc32c o f 0 g init hs Hinv) as (g1 & Hs & Hi & Hb & _); [done|].
    rewrite Hs in *. simplify_eq. split; [|by apply advance_same].
    exists init, hs. split_and!; try done. simpl. by rewrite Hb.
  - edestruct good_crash as [Hg' He]; [done|done|done|]. split; [done|]. right; right. by split.
  - destruct (crashed_whole g log Hg) as (g1 & Ho & Hg' & He & _); [done..|]. rewrite Ho in *. simplify_eq.
    split; [done|]. by left.
  - assert (opts g = o) as Ho by (destruct Hg as (? & ? & Hinv & _); apply Hinv).
    rewrite Ho in *.
    destruct (good_reset_to off g log) as [(r' & Hr & _)|(g1 & Hr & Hg' & He)];
      try done; rewrite Hr in *; simplify_eq. split; [done|]. right; right. split; [|done].
    destruct Hg as (? & ? & Hinv & _ & Hall & _). cbn [snd] in Hall. subst log.
    apply keep_prefix with 0. eapply proj1, layout_chain, Hinv.
  - destruct (good_reset g log Hg) as (g1 & Hr & Hg' & He). rewrite Hr in *. simplify_eq.
    split; [done|]. right; right. split; [apply prefix_nil|done].
Qed.

Lemma reachable_good s : reachable o s → good s.
Proof using crc_range version_ok.
  intros (s0 & (r & Hr & Hopen & Hlog) & Hrtc).
  assert (good s0) as Hg.
  { destruct s0 as [g0 log0]. simpl in *. subst log0.
    destruct (open_empty crc32c o no_faults r) as (g & Ho & Hinv & Hb & _);
      [by destruct Hr as [->| ->]|destruct Hr as [->| ->]; simpl; intros; by simplify_eq|done|].
    rewrite Ho in Hopen. simplify_eq. exists [], (fresh 0).
    split_and!; try done. simpl. by rewrite Hb. }
  clear Hr Hopen Hlog. induction Hrtc as [|s1 s2 s3 Hstep _ IH]; [done|]. apply IH.
  destruct Hstep; [by eapply good_append|by eapply good_op].
Qed.

(** ** Reading *)

Lemma rposition_le_Some off l pos :
  rposition_le off l = Some pos → ∃ x, l !! pos = Some x ∧ x ≤ off.
Proof using.
  revert pos. induction l as [|y l IH]; simpl; intros pos Hp; [done|].
  destruct (rposition_le off l) as [i|] eqn:Hr; simplify_eq/=; [by apply IH|].
  destruct (Z.leb_spec y off); simplify_eq. by exists y.
Qed.

Lemma rposition_le_None off l : rposition_le off l = None → Forall (λ x, off < x) l.
Proof using.
  induction l as [|y l IH]; simpl; [constructor|].
  destruct (rposition_le off l); [done|]. destruct (Z.leb_spec y off); [done|]. eauto.
Qed.

(** The commits before a segment end where it starts. *)
Lemma before_segment a segs1 s segs2 off :
  layout crc32c a (segs1 ++ s :: segs2) → s_off s ≤ off →
  Forall (λ c, tx_end c ≤ off) (all_commits segs1) ∧
  layout crc32c (layout_end a segs1) (s :: segs2).
Proof using.
  intros [H1 H2]%layout_app Hoff. split; [|done].
  apply layout_chain in H1 as [Hc He]. destruct H2 as (Hs & _).
  apply Forall_forall. intros c Hin. destruct (chain_bounds _ _ _ Hc Hin). lia.
Qed.

Lemma segment_offsets_from_spec g init hs off :
  log_inv 0 g init hs → 0 ≤ off →
  ∃ segs1 s segs2, init ++ [hs] = segs1 ++ s :: segs2 ∧ s_off s ≤ off ∧
    segment_offsets_from g off = s_off <$> s :: segs2.
Proof using.
  intros Hinv Hoff. destruct Hinv as [_ Hlay Hne _ Htail Hmin _ _ _ _].
  unfold segment_offsets_from. rewrite Hmin, Htail.
  destruct (Z.leb_spec (s_off hs) off) as [Hle|Hgt]; [by exists init, hs, []|].
  destruct (rposition_le off (s_off <$> init)) as [pos|] eqn:Hpos.
  - apply rposition_le_Some in Hpos as (x & Hx & Hle). rewrite list_lookup_fmap in Hx.
    destruct (init !! pos) as [s|] eqn:Hs; simplify_eq/=.
    exists (take pos init), s, (drop (S pos) init ++ [hs]).
    split_and!; [|done|].
    + by rewrite app_comm_cons, <-(drop_S _ _ _ Hs), app_assoc, take_drop.
    + rewrite <-fmap_drop, (drop_S _ _ _ Hs). simpl. by rewrite fmap_app.
  - apply rposition_le_None in Hpos. destruct init as [|s init].
    + destruct Hlay as [Hs _]. rewrite Hs in Hgt. lia.
    + destruct Hlay as [Hs _]. simpl in Hpos. apply Forall_cons in Hpos as [Hlt _]. lia.
Qed.

Lemma trailing_cases e segs :
  e = None ∨ e = Some (TraversalIo UnexpectedEof) →
  trailing e segs = None ∨ trailing e segs = Some (TraversalIo UnexpectedEof).
Proof using.
  revert e. induction segs as [|s segs IH]; intros e He; [done|]. simpl. apply IH.
  unfold upd_err. destruct (_ <=? _)%nat; [by right|]. destruct (s_commits s); auto.
Qed.

Lemma trailing_app e segs segs' : trailing e (segs ++ segs') = trailing (trailing e segs) segs'.
Proof using. revert e. induction segs as [|s segs IH]; intros e; [done|]. simpl. apply IH. Qed.

(** Reading a log: the iterator has the commits after [off] before it, and at
    most one error behind them. *)
Lemma inv_todo g init hs off :
  let log := all_commits (init ++ [hs]) in
  log_inv 0 g init hs → (length (s_torn hs) < CommitHeader_LEN)%nat → 0 ≤ off →
  ∃ segs a, todo crc32c o (generic_commits_from g off) [] [] segs a ∧
    out (Initial off) (all_commits segs) = filter (λ c, off < tx_end c) log ∧
    let e := trailing (upd_err [] [] None) segs in
    (e = None ∨ e = Some (TraversalIo UnexpectedEof)) ∧
    (writer_is_empty (head g) = false → e = None) ∧
    chain 0 log ∧ chain_end 0 log = next_tx_offset (head g).
Proof using.
  intros log Hinv Ht Hoff.
  destruct (segment_offsets_from_spec g init hs off Hinv Hoff)
    as (segs1 & s & segs2 & Hsegs & Hle & Hoffs).
  pose proof (inv_layout _ _ _ _ _ _ Hinv) as Hlay.
  destruct (layout_chain _ _ _ Hlay) as [Hchain Hend]. fold log in Hchain, Hend.
  rewrite Hsegs in Hlay. destruct (before_segment _ _ _ _ _ Hlay Hle) as [Hbef Hlay2].
  exists (s :: segs2), (layout_end 0 segs1). cbv zeta. split_and!.
  - constructor; simpl; [by right|by rewrite Hoffs|by rewrite (inv_opts _ _ _ _ _ _ Hinv)| |
      apply torn_ok_nil|done|done|done].
    intros x Hx. apply (proj1 (inv_repo _ _ _ _ _ _ Hinv)). rewrite Hsegs.
    apply elem_of_app. by right.
  - cbn [out]. rewrite <-(skip_filter 0) by done.
    unfold log. rewrite Hsegs, all_commits_app. by rewrite skip_app_left.
  - apply trailing_cases. by left.
  - assert (Hupd : ∀ e, writer_is_empty (head g) = false → upd_err (s_commits hs) (s_torn hs) e = None).
    { intros e He. unfold upd_err. rewrite (proj2 (Nat.leb_gt _ _)) by done.
      destruct (s_commits hs) eqn:Hc; [|done]. unfold writer_is_empty in He.
      rewrite (inv_bytes _ _ _ _ _ _ Hinv), Hc in He. by vm_compute in He. }
    intros He. destruct segs2 as [|s2 segs2 _] using rev_ind.
    + apply app_inj_tail in Hsegs as [_ <-]. by apply Hupd.
    + rewrite app_comm_cons, app_assoc in Hsegs. apply app_inj_tail in Hsegs as [_ <-].
      rewrite app_comm_cons, trailing_app. by apply Hupd.
  - done.
  - rewrite Hend. symmetry. apply Hinv.
Qed.

Lemma good_todo g log off :
  good (g, log) → 0 ≤ off →
  ∃ segs a, todo crc32c o (generic_commits_from g off) [] [] segs a ∧
    out (Initial off) (all_commits segs) = filter (λ c, off < tx_end c) log ∧
    let e := trailing (upd_err [] [] None) segs in
    (e = None ∨ e = Some (TraversalIo UnexpectedEof)) ∧
    (writer_is_empty (head g) = false → e = None) ∧
    chain 0 log ∧ chain_end 0 log = next_tx_offset (head g).
Proof using.
  intros (init & hs & Hinv & Ht & Hall & _) Hoff. cbn [fst snd] in *. subst log.
  apply inv_todo; [done| |done]. rewrite Ht. unfold CommitHeader_LEN. simpl. lia.
Qed.

(** What [drain] gives for a log with the commits [log]. *)
Definition reads g log : Prop := ∀ off, 0 ≤ off →
  ∃ errs, drain crc32c (2 + length log) (generic_commits_from g off) =
    Ok ((inr ∘ stored crc32c <$> filter (λ c, off < tx_end c) log) ++ (inl <$> errs)) ∧
    (errs = [] ∨ errs = [TraversalIo UnexpectedEof]) ∧
    (writer_is_empty (head g) = false → errs = []).

Lemma inv_read g init hs :
  log_inv 0 g init hs → (length (s_torn hs) < CommitHeader_LEN)%nat → reads g (all_commits (init ++ [hs])).
Proof using crc_range version_ok.
  intros Hinv Ht off Hoff. set (log := all_commits _).
  destruct (inv_todo g init hs off Hinv Ht Hoff) as (segs & a & Htodo & Hout & He & Hw & _).
  exists (option_list (trailing (upd_err [] [] None) segs)). split_and!.
  - rewrite (drain_spec crc32c crc_range o version_ok _ _ _ _ _ _ Htodo);
      cbn [it_last_commit generic_commits_from initial_commits it_last_error app]; rewrite Hout.
    + done.
    + pose proof (length_filter (λ c, off < tx_end c) log).
      fold log. destruct (trailing _ _); simpl; lia.
  - destruct He as [->| ->]; [by left|by right].
  - intros Hne. by rewrite Hw.
Qed.

Lemma good_read g log :
  good (g, log) → reads g log ∧ chain 0 log ∧ chain_end 0 log = next_tx_offset (head g).
Proof using crc_range version_ok.
  intros Hg. split; [|by destruct (good_todo g log 0 Hg) as (? & ? & _ & _ & _ & _ & ? & ?)].
  destruct Hg as (init & hs & Hinv & Ht & Hall & _). cbn [fst snd] in *. subst log.
  apply inv_read; [done|]. rewrite Ht. unfold CommitHeader_LEN. simpl. lia.
Qed.

(** ** The theorems *)

Lemma reachable_step s s' : reachable o s → log_step s s' → reachable o s'.
Proof using.
  intros (s0 & H0 & Hs) Hstep. exists s0. split; [done|]. by eapply rtc_r.
Qed.

Lemma no_faults_ok c : storage_ok no_faults c.
Proof using. by split_and!. Qed.

(** C1. A log reads back as its commits.  The log is opened in an empty
    repository, and goes through any number of these steps: appends; commits,
    with rotation of segments, whose write may fail with a strict prefix of
    the commit on disk; epoch changes; syncs; resets; and crashes while a commit
    is written, each with the log opened again, that leave nothing of the
    commit, all of it, or a part with at least its header.  The log has the
    commits that were acknowledged and not reset, and those that a crash left as
    a whole.  In every state that is reached, iterating from [off] yields
    exactly the commits that end after [off], in order and each with its
    checksum; at most one error follows, and none once the head segment holds a
    commit.  The commits are contiguous from offset zero up to the next offset.
    The steps leave out what makes the log lose or refuse commits: a part of a
    header that a crash leaves ([torn_header_loses_commit]), a write that is
    reported as failed with all of the commit on disk ([failed_write_forks]),
    storage that fails when a segment is created or synced, and a reset with a
    stale index ([reset_to_stale_index]). *)
Theorem log_reads_back g log off :
  reachable o (g, log) → 0 ≤ off →
  ∃ errs, drain crc32c (2 + length log) (generic_commits_from g off) =
    Ok ((inr ∘ stored crc32c <$> filter (λ c, off < tx_end c) log) ++ (inl <$> errs)) ∧
    (errs = [] ∨ errs = [TraversalIo UnexpectedEof]) ∧
    (writer_is_empty (head g) = false → errs = []) ∧
    chain 0 log ∧ chain_end 0 log = next_tx_offset (head g).
Proof using crc_range version_ok.
  intros Hr Hoff. destruct (good_read g log (reachable_good _ Hr)) as (Hread & Hc & He).
  destruct (Hread off Hoff) as (errs & Hd & ? & ?). by exists errs.
Qed.

(** C11. In every state a log reaches, [commit] succeeds when the storage works:
    it reports the range and checksum of the buffered commit, which becomes the
    last of the log, and leaves the buffer empty after it. *)
Theorem log_commit_progress g log :
  let c := w_commit (head g) in
  reachable o (g, log) → 0 < n c → commit_wf c →
  ∃ g', commit crc32c no_faults g =
      (g', Ok (Some {| cd_tx_range := (min_tx_offset c, tx_end c); cd_checksum := crc32c (commit_body c) |})) ∧
    reachable o (g', log ++ [c]) ∧ w_commit (head g') = next_buffer c ∧
    max_committed_offset g' = Some (tx_end c - 1).
Proof using crc_range version_ok.
  intros c Hr Hn Hwf.
  destruct (reachable_good _ Hr) as (init & hs & Hinv & Ht & Hall & _).
  destruct (commit_ok crc32c o no_faults 0 g init hs) as (g' & init' & hs' & Hc & _ & _ & _ & Hb & _);
    [done..|].
  exists g'. split_and!; [done| |done|].
  - eapply reachable_step; [done|].
    change [c] with (acked c (Ok (Some {| cd_tx_range := (min_tx_offset c, tx_end c);
      cd_checksum := crc32c (commit_body c) |}))).
    eapply step_op, step_commit; eauto using no_faults_ok.
  - unfold max_committed_offset, next_tx_offset. rewrite Hb. simpl.
    destruct Hwf as ([Hm _] & _). unfold tx_end. fold c.
    by rewrite (proj2 (Z.eqb_neq _ _)) by lia.
Qed.

(** A write that failed half-way is made good by the next commit: when
    [commit] has failed to write (and started a new segment for the commit),
    committing again with working storage writes the very same commit, and the
    log goes on with it. *)
Theorem log_commit_retry f k g g' log :
  let c := w_commit (head g) in
  reachable o (g, log) → 0 < n c → commit_wf c →
  storage_ok f c → f_write f = Some k → commit crc32c f g = (g', Err OsError) →
  ∃ g'', commit crc32c no_faults g' =
      (g'', Ok (Some {| cd_tx_range := (min_tx_offset c, tx_end c); cd_checksum := crc32c (commit_body c) |})) ∧
    reachable o (g'', log ++ [c]).
Proof using crc_range version_ok.
  intros c Hr Hn Hwf Hf Hk Hc.
  assert (reachable o (g', log)) as Hr'.
  { eapply reachable_step; [done|]. rewrite <-(app_nil_r log) at 2.
    change [] with (acked c (Err OsError)). eapply step_op, step_commit; eauto. }
  destruct (reachable_good _ Hr) as (init & hs & Hinv & Ht & Hall & _).
  pose proof Hf as (Hfc & Hff & Hfw).
  destruct (commit_fail crc32c o f 0 g init hs k) as
    (g1 & [Hc1|(init' & hs' & Hc1 & Hinv' & Ht' & Ha' & Hb & _)]); [by auto..| |];
    rewrite Hc1 in Hc; simplify_eq.
  destruct (commit_ok crc32c o no_faults 0 g' init' hs') as
    (g2 & init2 & hs2 & Hc2 & _); try done; [by rewrite Hb..|].
  rewrite Hb in Hc2. exists g2. split; [done|].
  eapply reachable_step; [done|].
  assert (log_step (g', log) (g2, log ++ acked (w_commit (head g')) (commit crc32c no_faults g').2))
    as Hstep.
  { eapply step_op, step_commit; [apply no_faults_ok|by rewrite Hb|by rewrite Hc2|].
    rewrite Hc2. simpl. eauto. }
  rewrite Hc2 in Hstep. simpl in Hstep. by rewrite Hb in Hstep.
Qed.

Lemma inv_is_empty a g init hs :
  log_inv a g init hs → writer_is_empty (head g) = true ↔ s_commits hs = [].
Proof using.
  intros Hinv. unfold writer_is_empty. rewrite (inv_bytes _ _ _ _ _ _ Hinv), Z.leb_le.
  destruct (s_commits hs) as [|c cs]; cbn [enc length]; [split; [done|lia]|]. split; [|done].
  pose proof (length_commit_write crc32c c). rewrite length_app.
  unfold encoded_len, FRAMING_LEN, CommitHeader_LEN in *. lia.
Qed.

(** What opening the log after a crash gives. *)
Lemma open_crashed g log k :
  reachable o (g, log) → crash_part (w_commit (head g)) k →
  ∃ init hs, log_inv 0 g init hs ∧ all_commits (init ++ [hs]) = log ∧
  if decide ((CommitHeader_LEN ≤ k)%nat ∧ s_commits hs = []) then
    open crc32c no_faults (crashed g k) o = (crashed g k, Err AlreadyExists)
  else
    ∃ g' init' hs', open crc32c no_faults (crashed g k) o = (repo g', Ok g') ∧
      log_inv 0 g' init' hs' ∧ all_commits (init' ++ [hs']) = log ∧
      (length (s_torn hs') < CommitHeader_LEN)%nat ∧
      n (w_commit (head g')) = 0 ∧ (k = O → s_commits hs = [] → generic_epoch g' = 0).
Proof using crc_range version_ok.
  intros Hr Hk. destruct (reachable_good _ Hr) as (init & hs & Hinv & Ht & Hall & _).
  exists init, hs. split_and!; [done|done|]. cbn [fst snd] in *.
  destruct (crashed_repo g init hs k log Hinv Ht Hall Hk) as (Hlay & Hrepo & Hall' & Hlen).
  set (t := take k _) in *.
  destruct (open_spec crc32c crc_range o version_ok no_faults 0 (crashed g k) init (tear hs t))
    as (pre & post & Hpp & _ & _ & Hspec);
    [done|done|by apply Hinv|done|done|]. cbn [s_torn s_commits tear] in *. rewrite Hlen in Hspec.
  destruct (Nat.ltb_spec k CommitHeader_LEN) as [Hlt|Hge].
  - rewrite decide_False by (intros [? _]; lia). destruct Hspec as (g1 & Ho & Hi & Hb & _).
    eexists _, _, _. split_and!; [done|exact Hi|done|cbn [s_torn tear]; lia|by rewrite Hb|].
    intros _ He. unfold generic_epoch. rewrite Hb. rewrite He in Hpp. simpl.
    symmetry in Hpp. apply app_eq_nil in Hpp as [_ ->]. done.
  - destruct (decide (s_commits hs = [])) as [He|He].
    + by rewrite decide_True by done.
    + rewrite decide_False by tauto. destruct Hspec as (g1 & Ho & Hi & Hb & _).
      eexists _, _, _. split_and!; [done|exact Hi| |unfold CommitHeader_LEN; simpl; lia|by rewrite Hb|].
      * rewrite all_commits_snoc. simpl. by rewrite app_nil_r.
      * unfold CommitHeader_LEN in Hge. lia.
Qed.

(** C14. Opening a log after a crash, whichever part of the buffered commit is
    on disk.  If it is all of it, the log is opened with the commit as its
    last.  If it is the header and not all of the rest, and the head segment
    has no commit before it, opening fails with [AlreadyExists] and changes
    nothing: the segment that would replace the torn one has the same offset.
    Otherwise the log is opened with the commits that it had, at the next
    offset and with an empty buffer; it reads back as these commits, and goes
    on as any log does, unless the part is shorter than a header: the bytes then
    stay in front of the next commit ([torn_header_loses_commit]). *)
Theorem log_crash_recovery g log k :
  let c := w_commit (head g) in
  reachable o (g, log) → k = O ∨ 0 < n c ∧ commit_wf c ∧ (k ≤ length (commit_write crc32c c))%nat →
  let opened := open crc32c no_faults (crashed g k) o in
  if decide (k = length (commit_write crc32c c)) then
    ∃ g', opened = (repo g', Ok g') ∧ reachable o (g', log ++ [c]) ∧
      next_tx_offset (head g') = tx_end c ∧ n (w_commit (head g')) = 0
  else if decide ((CommitHeader_LEN ≤ k)%nat ∧ writer_is_empty (head g) = true) then
    opened = (crashed g k, Err AlreadyExists)
  else
    ∃ g', opened = (repo g', Ok g') ∧ reads g' log ∧
      next_tx_offset (head g') = next_tx_offset (head g) ∧ n (w_commit (head g')) = 0 ∧
      (k = O ∨ (CommitHeader_LEN ≤ k)%nat → reachable o (g', log)).
Proof using crc_range version_ok.
  intros c Hr Hk opened. pose proof (reachable_good _ Hr) as Hg.
  assert (opts g = o) as Hopts by (destruct Hg as (? & ? & Hinv & _); apply Hinv).
  destruct (decide (k = length (commit_write crc32c c))) as [Hw|Hw].
  { assert (k ≠ O) by (pose proof (length_commit_write crc32c c) as Hlen; unfold encoded_len, FRAMING_LEN, CommitHeader_LEN in Hlen; lia).
    destruct Hk as [?|(Hn & Hwf & _)]; [done|]. destruct (crashed_whole g log Hg Hn Hwf) as (g' & Ho & _ & [He _] & Hnext).
    subst opened k. exists g'. rewrite <-Hopts at 1. split_and!; try done.
    eapply reachable_step; [done|]. by eapply step_op, step_crash_whole. }
  assert (crash_part c k) as Hp by (destruct Hk as [?|(? & ? & ?)]; [by left|right; split; [lia|done]]).
  destruct (open_crashed g log k Hr Hp) as (init & hs & Hinv & Hall & Hspec).
  destruct (decide (_ ∧ writer_is_empty (head g) = true)) as [[Hh He]|Hne].
  { by rewrite decide_True in Hspec by (split; [done|by apply (inv_is_empty _ _ _ _ Hinv)]). }
  rewrite decide_False in Hspec by (intros [? Hnil]; apply Hne; split; [done|by apply (inv_is_empty _ _ _ _ Hinv)]).
  destruct Hspec as (g' & init' & hs' & Ho & Hinv' & Hall' & Ht' & Hn & _).
  exists g'. split_and!; [done| | |done|].
  - rewrite <-Hall'. by apply inv_read.
  - rewrite (inv_next _ _ _ _ _ _ Hinv), (inv_next _ _ _ _ _ _ Hinv').
    destruct (layout_chain _ _ _ (inv_layout _ _ _ _ _ _ Hinv)) as [_ <-].
    destruct (layout_chain _ _ _ (inv_layout _ _ _ _ _ _ Hinv')) as [_ <-].
    by rewrite Hall, Hall'.
  - intros Hk'. eapply reachable_step; [done|]. eapply step_op, (step_crash k); [|by rewrite Hopts].
    destruct Hk' as [?|?]; [by left|]. destruct Hp as [?|[? ?]]; [by left|]. right. by split; [|].
Qed.

(** When the crash tears the first commit of a segment, and leaves at least
    its header, the log can no longer be opened: the segment that would replace
    the torn one has the same offset and exists. *)
Theorem log_crash_first_commit g log k :
  reachable o (g, log) → crash_ok (w_commit (head g)) k → k ≠ O →
  writer_is_empty (head g) = true →
  open crc32c no_faults (crashed g k) o = (crashed g k, Err AlreadyExists).
Proof using crc_range version_ok.
  intros Hr Hk Hk0 He. destruct (open_crashed g log k Hr (crash_ok_part _ _ Hk)) as (init & hs & Hinv & _ & Hspec).
  destruct Hk as [?|[[? _] _]]; [done|].
  by rewrite decide_True in Hspec by (split; [done|by apply (inv_is_empty _ _ _ _ Hinv)]).
Qed.

(** Reopening a log whose head segment holds no commit yet sets the epoch
    back to zero, whatever the epoch of the commits before it. *)
Theorem log_reopen_epoch_lost g log :
  reachable o (g, log) → writer_is_empty (head g) = true →
  ∃ g', open crc32c no_faults (crashed g 0) o = (repo g', Ok g') ∧ generic_epoch g' = 0.
Proof using crc_range version_ok.
  intros Hr He. destruct (open_crashed g log 0 Hr (or_introl eq_refl))
    as (init & hs & Hinv & _ & Hspec).
  rewrite decide_False in Hspec by (unfold CommitHeader_LEN; intros [? _]; lia).
  destruct Hspec as (g' & init' & hs' & Ho & _ & _ & _ & _ & Hep).
  exists g'. split; [done|]. apply Hep; [done|]. by apply (inv_is_empty _ _ _ _ Hinv).
Qed.

(** C40. Resetting a log of format version 1 whose offset indexes, where they
    have entries, have one at or below the offset asked for.  [reset_to] keeps
    exactly the commits that start not after the offset, so that the last one
    holds it, and the log goes on from there with an empty buffer.  This is so
    whenever all segments can be read to their ends ([intact]); if a write
    failed before and its remains are in a segment, the only other outcome is
    the error [UnexpectedEof].  With an index whose entries are all above the
    offset, the index is left as it is ([reset_to_stale_index]). *)
Theorem log_reset_to g log off :
  reachable o (g, log) → opt_log_format_version o = 1 → 0 ≤ off < u64_MAX → index_covers (repo g) off →
  (∃ g', generic_reset_to crc32c no_faults g off = (repo g', Ok g') ∧
     reachable o (g', keep off log) ∧ n (w_commit (head g')) = 0 ∧
     (off < next_tx_offset (head g) →
      ∃ c, last (keep off log) = Some c ∧ min_tx_offset c ≤ off < tx_end c)) ∨
  (∃ r, generic_reset_to crc32c no_faults g off = (r, Err UnexpectedEof) ∧ intact crc32c (repo g) = false).
Proof using crc_range version_ok.
  intros Hr Hv Hoff Hcov. pose proof (reachable_good _ Hr) as Hg.
  destruct (good_reset_to off g log Hg Hv Hoff Hcov) as [|(g' & Hres & Hg' & Hn)]; [by right|left].
  destruct (good_segs g log Hg) as (init & hs & Hinv & _ & Hall & [Hlay _] & _).
  exists g'. split_and!; [done| |apply Hn|].
  - eapply reachable_step; [done|]. eapply step_op, step_reset_to; [|done|done|done].
    by rewrite (inv_opts _ _ _ _ _ _ Hinv).
  - rewrite (inv_next _ _ _ _ _ _ Hinv). intros Hlt.
    destruct (layout_chain _ _ _ Hlay) as [Hc He]. rewrite Hall in *.
    apply (last_keep 0); [done|]. rewrite He. lia.
Qed.

(** [reset] succeeds and leaves an empty log. *)
Theorem log_reset g log :
  reachable o (g, log) →
  ∃ g', generic_reset crc32c no_faults g = (repo g', Ok g') ∧ reachable o (g', []) ∧
    max_committed_offset g' = None ∧ existing_offsets (repo g') = [0].
Proof using crc_range version_ok.
  intros Hr. destruct (good_reset g log (reachable_good _ Hr)) as (g' & Hres & Hg' & Hn).
  exists g'. assert (reachable o (g', [])) as Hr'.
  { eapply reachable_step; [done|]. by eapply step_op, step_reset. }
  destruct Hg' as (init & hs & Hinv & _ & Hall & _). cbn [fst snd] in *.
  destruct (layout_chain _ _ _ (inv_layout _ _ _ _ _ _ Hinv)) as [_ He].
  rewrite Hall, <-(inv_next _ _ _ _ _ _ Hinv) in He. simpl in He.
  split_and!; [done|done| |].
  - unfold max_committed_offset. by rewrite <-He.
  - rewrite (existing_offsets_layout crc32c o 0 _ init hs) by apply Hinv.
    destruct init as [|s init].
    + destruct (inv_layout _ _ _ _ _ _ Hinv) as [-> _]. done.
    + exfalso. pose proof (inv_nonempty _ _ _ _ _ _ Hinv) as Hne.
      apply Forall_cons in Hne as [Hne _]. unfold all_commits in Hall. simpl in Hall.
      by apply app_eq_nil in Hall as [? _].
Qed.
End with_crc.

(** ** A concrete log

    Small segments on a file system, with CRC-32C: two records committed, a
    write torn after 30 bytes, then the commit retried. *)
Module Examples.
Definition ex_opts : Options :=
  {| opt_log_format_version := 1; max_segment_size := 100; opt_max_records_in_commit := 10;
     offset_index_interval_bytes := 20; offset_index_require_segment_fsync := false |}.

Definition tear_at (k : nat) : Faults :=
  {| f_write := Some k; f_create := None; f_fsync := false |}.

Definition ex_open (r : Repo) : Generic :=
  match (open crc32c no_faults r ex_opts).2 with
  | Ok g => g
  | _ => {| repo := r;
            head := {| w_commit := {| min_tx_offset := 0; epoch := 0; n := 0; records := [] |};
                       w_min_tx_offset := 0; w_bytes_written := 0; max_records_in_commit := 0;
                       offset_index_head := None |};
            tail := []; opts := ex_opts; panicked := true |}
  end.

Definition ex_append (g : Generic) (rec : list byte) : Generic := default g (append g rec).
Definition ex_commit (f : Faults) (g : Generic) : Generic := (commit crc32c f g).1.
Definition ex_set_epoch (e : Z) (g : Generic) : Generic := (set_epoch crc32c no_faults e g).1.

Definition g0 : Generic := ex_open empty_fs.
Definition g1 : Generic := ex_set_epoch 5 g0.
Definition g2 : Generic := ex_append g1 [x01; x02].
Definition g3 : Generic := ex_commit no_faults g2.
Definition g4 : Generic := ex_append g3 [x03].
Definition g5 : Generic := ex_commit (tear_at 25) g4.
Definition g6 : Generic := ex_commit no_faults g5.
Definition c1 : Commit := {| min_tx_offset := 0; epoch := 5; n := 1; records := [x01; x02] |}.
Definition c2 : Commit := {| min_tx_offset := 1; epoch := 5; n := 1; records := [x03] |}.

Lemma ex_version : 1 ≤ opt_log_format_version ex_opts ≤ 255.
Proof. simpl. lia. Qed.

Lemma commit_wf_c1 : commit_wf c1.
Proof. by vm_compute. Qed.
Lemma commit_wf_c2 : commit_wf c2.
Proof. by vm_compute. Qed.

Lemma ex_reach0 : reachable crc32c ex_opts (g0, []).
Proof.
  exists (g0, []). split; [|done]. exists empty_fs. split; [by right|]. split; [|done].
  vm_compute. reflexivity.
Qed.

Lemma ex_reach2 : reachable crc32c ex_opts (g2, []).
Proof.
  eapply reachable_step; [|apply (step_append _ g1 g2 [x01; x02]); vm_compute; reflexivity].
  eapply reachable_step; [apply ex_reach0|].
  apply step_op, (step_set_epoch _ no_faults 5 g0 g1 None []).
  - apply no_faults_ok.
  - by vm_compute.
  - vm_compute. reflexivity.
Qed.

Lemma ex_reach4 : reachable crc32c ex_opts (g4, [c1]).
Proof.
  eapply reachable_step; [|apply (step_append _ g3 g4 [x03]); vm_compute; reflexivity].
  eapply reachable_step; [apply ex_reach2|].
  apply step_op, (step_commit _ no_faults g2 g3 (commit crc32c no_faults g2).2 []).
  - apply no_faults_ok.
  - apply commit_wf_c1.
  - vm_compute. reflexivity.
  - left. eexists. vm_compute. reflexivity.
Qed.

Lemma ex_tear_ok : storage_ok crc32c (tear_at 25) c2.
Proof. split_and!; [done|done|]. intros k [= <-]. vm_compute. lia. Qed.

Lemma ex_reach5 : reachable crc32c ex_opts (g5, [c1]).
Proof.
  eapply reachable_step; [apply ex_reach4|].
  apply step_op, (step_commit _ (tear_at 25) g4 g5 (commit crc32c (tear_at 25) g4).2 [c1]).
  - apply ex_tear_ok.
  - apply commit_wf_c2.
  - vm_compute. reflexivity.
  - right. vm_compute. reflexivity.
Qed.

Lemma log_reads_back_witness :
  ∃ errs, drain crc32c (2 + length [c1]) (generic_commits_from g5 0) =
    Ok ((inr ∘ stored crc32c <$> [c1]) ++ (inl <$> errs)) ∧
    (errs = [] ∨ errs = [TraversalIo UnexpectedEof]).
Proof.
  assert (filter (λ c, 0 < tx_end c) [c1] = [c1]) as Hf by (vm_compute; reflexivity).
  destruct (log_reads_back crc32c crc32c_range ex_opts ex_version g5 [c1] 0 ex_reach5)
    as (errs & Hd & He & _); [lia|]. rewrite Hf in Hd. exists errs. exact (conj Hd He).
Defined.

Lemma buffer_g2 : w_commit (head g2) = c1.
Proof. vm_compute. reflexivity. Qed.
Lemma buffer_g4 : w_commit (head g4) = c2.
Proof. vm_compute. reflexivity. Qed.

Lemma log_commit_progress_witness :
  ∃ g', commit crc32c no_faults g4 = (g', Ok (Some {| cd_tx_range := (min_tx_offset c2, tx_end c2);
          cd_checksum := crc32c (commit_body c2) |})) ∧ reachable crc32c ex_opts (g', [c1] ++ [c2]).
Proof.
  rewrite <-buffer_g4.
  destruct (log_commit_progress crc32c crc32c_range ex_opts ex_version g4 [c1] ex_reach4)
    as (g' & Hc & Hr & _); [by rewrite buffer_g4|rewrite buffer_g4; apply commit_wf_c2|].
  exists g'. exact (conj Hc Hr).
Defined.

Lemma log_commit_retry_witness :
  ∃ g'', commit crc32c no_faults g5 = (g'', Ok (Some {| cd_tx_range := (min_tx_offset c2, tx_end c2);
          cd_checksum := crc32c (commit_body c2) |})) ∧ reachable crc32c ex_opts (g'', [c1] ++ [c2]).
Proof.
  rewrite <-buffer_g4.
  apply (log_commit_retry crc32c crc32c_range ex_opts ex_version (tear_at 25) 25 g4 g5 [c1]
    ex_reach4); rewrite ?buffer_g4;
    [done|apply commit_wf_c2|apply ex_tear_ok|done|vm_compute; reflexivity].
Defined.

Lemma ex_crash_ok k c : commit_wf c → (22 ≤ k < length (commit_write crc32c c))%nat →
  crash_ok crc32c c k.
Proof. intros Hwf Hk. right. unfold CommitHeader_LEN. split; [lia|done]. Qed.

(** A part of [c2] on disk, all of it, and a part of the first commit. *)
Lemma log_crash_recovery_witness :
  (∃ g', open crc32c no_faults (crashed crc32c g4 24) ex_opts = (repo g', Ok g') ∧ reachable crc32c ex_opts (g', [c1])) ∧
  (∃ g', open crc32c no_faults (crashed crc32c g4 27) ex_opts = (repo g', Ok g') ∧ reachable crc32c ex_opts (g', [c1; c2])) ∧
  (∃ g', open crc32c no_faults (crashed crc32c g4 5) ex_opts = (repo g', Ok g') ∧ reads crc32c g' [c1]) ∧
  open crc32c no_faults (crashed crc32c g2 24) ex_opts = (crashed crc32c g2 24, Err AlreadyExists).
Proof.
  assert (length (commit_write crc32c c2) = 27%nat) as H2 by (vm_compute; reflexivity).
  assert (length (commit_write crc32c c1) = 28%nat) as H1 by (vm_compute; reflexivity).
  pose proof (λ k, log_crash_recovery crc32c crc32c_range ex_opts ex_version g4 [c1] k ex_reach4) as Hk.
  pose proof (log_crash_recovery crc32c crc32c_range ex_opts ex_version g2 [] 24 ex_reach2) as Hf.
  cbv zeta in Hk, Hf. rewrite buffer_g4, H2 in Hk. rewrite buffer_g2, H1 in Hf.
  assert (∀ k, (k ≤ 27)%nat → k = O ∨ 0 < n c2 ∧ commit_wf c2 ∧ (k ≤ 27)%nat) as Hc by (intros k ?; right; split; [done|split; [apply commit_wf_c2|done]]).
  assert (writer_is_empty (head g4) = false ∧ writer_is_empty (head g2) = true) as [Hw4 Hw2] by (split; vm_compute; reflexivity).
  rewrite Hw4 in Hk. rewrite Hw2 in Hf. split_and!.
  - destruct (Hk 24%nat) as (g' & Ho & _ & _ & _ & Hr); [apply Hc; lia|]. exists g'. split; [exact Ho|]. apply Hr. right. unfold CommitHeader_LEN. lia.
  - destruct (Hk 27%nat) as (g' & Ho & Hr & _); [apply Hc; lia|]. exists g'. exact (conj Ho Hr).
  - destruct (Hk 5%nat) as (g' & Ho & Hr & _); [apply Hc; lia|]. exists g'. exact (conj Ho Hr).
  - apply Hf. right. split; [done|]. split; [apply commit_wf_c1|]. lia.
Defined.

Lemma log_crash_first_commit_witness :
  open crc32c no_faults (crashed crc32c g2 24) ex_opts = (crashed crc32c g2 24, Err AlreadyExists).
Proof.
  apply (log_crash_first_commit crc32c crc32c_range ex_opts ex_version g2 [] 24 ex_reach2).
  - rewrite buffer_g2. apply ex_crash_ok; [apply commit_wf_c1|]. vm_compute. lia.
  - done.
  - vm_compute. reflexivity.
Defined.

Lemma log_reopen_epoch_lost_witness :
  generic_epoch g5 = 5 ∧
  ∃ g', open crc32c no_faults (crashed crc32c g5 0) ex_opts = (repo g', Ok g') ∧
    generic_epoch g' = 0.
Proof.
  split; [vm_compute; reflexivity|].
  apply (log_reopen_epoch_lost crc32c crc32c_range ex_opts ex_version g5 [c1] ex_reach5).
  vm_compute. reflexivity.
Defined.

(** ** A torn write shorter than a commit header *)

(** [c2] is being written when the process dies; five bytes of it reach the
    disk.  The log is reopened, and another record committed. *)
Definition g7 : Generic := ex_open (crashed crc32c g4 5).
Definition g8 : Generic := ex_append g7 [x09].

(** A torn write shorter than a commit header goes unnoticed: the log opens,
    the next commit is acknowledged, and is lost: it lies behind the torn bytes,
    and neither the log at hand nor a reopened one reads it. *)
Theorem torn_header_loses_commit :
  (commit crc32c no_faults g8).2 =
    Ok (Some {| cd_tx_range := (1, 2);
                cd_checksum := crc32c (commit_body (w_commit (head g8))) |}) ∧
  drain crc32c 10 (generic_commits_from (ex_commit no_faults g8) 0) =
    Ok [inr (stored crc32c c1); inl (TraversalIo UnexpectedEof)] ∧
  max_committed_offset (ex_open (repo (ex_commit no_faults g8))) = Some 0.
Proof. split_and!; vm_compute; reflexivity. Qed.

(** ** A write that fails with all of the commit on disk *)

(** All bytes of [c2] reach the disk, but the write is reported as failed.
    Another record is appended, and the commit retried. *)
Definition f5 : Generic := ex_commit (tear_at 27) g4.
Definition f6 : Generic := ex_commit no_faults (ex_append f5 [x04]).

(** The commit that was reported as failed is read, and then the log ends with
    an error: the commit that was acknowledged has the same offset. *)
Theorem failed_write_forks :
  (commit crc32c (tear_at 27) g4).2 = Err OsError ∧
  (commit crc32c no_faults (ex_append f5 [x04])).2 =
    Ok (Some {| cd_tx_range := (1, 3);
                cd_checksum := crc32c (commit_body (w_commit (head (ex_append f5 [x04])))) |}) ∧
  drain crc32c 10 (generic_commits_from f6 0) =
    Ok [inr (stored crc32c c1); inr (stored crc32c c2); inl (Forked 1)].
Proof. split_and!; vm_compute; reflexivity. Qed.

(** ** Resetting *)

Definition h2 : Generic := ex_commit no_faults g4.
Definition h3 : Generic := ex_append h2 [x04].
Definition c3 : Commit := {| min_tx_offset := 2; epoch := 5; n := 1; records := [x04] |}.
Definition h4 : Generic := ex_commit no_faults h3.

Lemma ex_commit_step g log c :
  reachable crc32c ex_opts (g, log) → w_commit (head g) = c → commit_wf c →
  (∃ r, (commit crc32c no_faults g).2 = Ok (Some r)) →
  reachable crc32c ex_opts (ex_commit no_faults g, log ++ [c]).
Proof.
  intros Hr Hc Hwf [r Hres].
  assert (log_step crc32c (g, log)
    (ex_commit no_faults g, log ++ acked (w_commit (head g)) (Ok (Some r)))) as Hstep.
  { eapply step_op, step_commit; [apply no_faults_ok|by rewrite Hc| |by eauto].
    rewrite <-Hres. apply surjective_pairing. }
  rewrite Hc in Hstep. by eapply reachable_step.
Qed.

Lemma ex_reach_h4 : reachable crc32c ex_opts (h4, [c1; c2; c3]).
Proof.
  apply (ex_commit_step h3 [c1; c2] c3); [|vm_compute; reflexivity|by vm_compute|].
  - eapply reachable_step; [|apply (step_append _ h2 h3 [x04]); vm_compute; reflexivity].
    apply (ex_commit_step g4 [c1] c2); [apply ex_reach4|apply buffer_g4|apply commit_wf_c2|].
    eexists. vm_compute. reflexivity.
  - eexists. vm_compute. reflexivity.
Qed.

Lemma ex_covers : index_covers (repo h4) 1.
Proof.
  assert (∃ raw, indexes (repo h4) = Some (<[0 := raw]> ∅) ∧
    (1, 38) ∈ entries {| inner := raw; num_entries := count_entries raw |})
    as (raw & Hm & Hin).
  { eexists. split; [vm_compute; reflexivity|]. vm_compute. by left. }
  intros seg idx Hseg. unfold get_offset_index. rewrite Hm.
  destruct (decide (seg = 0)) as [->|H0].
  - rewrite lookup_insert_eq. intros [= <-]. right. exists (1, 38). split; [done|simpl; lia].
  - by rewrite lookup_insert_ne, lookup_empty by lia.
Qed.

Lemma log_reset_to_witness :
  ∃ g', generic_reset_to crc32c no_faults h4 1 = (repo g', Ok g') ∧ reachable crc32c ex_opts (g', [c1; c2]).
Proof.
  assert (keep 1 [c1; c2; c3] = [c1; c2]) as Hk by (vm_compute; reflexivity).
  assert (intact crc32c (repo h4) = true) as Hi by (vm_compute; reflexivity).
  destruct (log_reset_to crc32c crc32c_range ex_opts ex_version h4 [c1; c2; c3] 1 ex_reach_h4)
    as [(g' & Hres & Hr & _)|(r & _ & Hn)]; [reflexivity|unfold u64_MAX; lia|apply ex_covers| |].
  - exists g'. rewrite Hk in Hr. exact (conj Hres Hr).
  - rewrite Hi in Hn. discriminate Hn.
Defined.

Lemma log_reset_witness :
  ∃ g', generic_reset crc32c no_faults h4 = (repo g', Ok g') ∧ reachable crc32c ex_opts (g', []).
Proof.
  destruct (log_reset crc32c crc32c_range ex_opts ex_version h4 [c1; c2; c3] ex_reach_h4)
    as (g' & Hres & Hr & _). exists g'. exact (conj Hres Hr).
Defined.

(** ** An offset index that outlives its commits

    [k3] holds three commits of which the index has the last two, [k4] is the
    log reset to the first.  The index is left as it was.  A record of the next
    commit then holds the bytes of a commit of its own, where the index says
    that the commit at offset 3 is. *)
Definition k_opts : Options :=
  {| opt_log_format_version := 1; max_segment_size := 400; opt_max_records_in_commit := 10;
     offset_index_interval_bytes := 20; offset_index_require_segment_fsync := false |}.

Definition k_open (r : Repo) : Generic := default g0 (match (open crc32c no_faults r k_opts).2 with
  | Ok g => Some g | _ => None end).

Definition k1 : Generic := ex_commit no_faults (ex_append (ex_append (k_open empty_fs) [x01]) [x02]).
Definition k2 : Generic := ex_commit no_faults (ex_append k1 [x03]).
Definition k3 : Generic := ex_commit no_faults (ex_append k2 [x04]).
Definition k4 : Generic := match (generic_reset_to crc32c no_faults k3 0).2 with
  | Ok g => g | _ => k3 end.

Definition forged : Commit := {| min_tx_offset := 3; epoch := 0; n := 1; records := [xff] |}.
Definition k5 : Generic :=
  ex_commit no_faults (ex_append k4 (replicate 5 x00 ++ commit_write crc32c forged)).
Definition k6 : Generic := ex_commit no_faults (ex_append k5 [x05]).

(** [reset_to] to an offset before the first one indexed leaves the offset
    index as it is, with entries beyond the end of the segment.  What
    is written there later is then taken for a commit if it looks like one:
    reading from offset 3 yields a commit that is not in the log, and not the
    one that is. *)
Theorem reset_to_stale_index :
  existing_offsets (repo k4) = [0] ∧
  indexes (repo k4) = indexes (repo k3) ∧
  (drain crc32c 10 (generic_commits_from k6 0) =
     Ok [inr (stored crc32c {| min_tx_offset := 0; epoch := 0; n := 2; records := [x01; x02] |});
         inr (stored crc32c {| min_tx_offset := 2; epoch := 0; n := 1;
                               records := replicate 5 x00 ++ commit_write crc32c forged |});
         inr (stored crc32c {| min_tx_offset := 3; epoch := 0; n := 1; records := [x05] |})]) ∧
  (commits_next crc32c (generic_commits_from k6 3)).1 = Ok (Some (inr (stored crc32c forged))).
Proof. split_and!; vm_compute; reflexivity. Qed.

(** A log that reads back without an error, but in which a write has failed
    and was retried, cannot be reset to the end of the segment in which it
    failed: the newer segments are removed, then the reset stops at the remains
    of the failed write. *)
Theorem reset_to_torn_fails :
  drain crc32c 10 (generic_commits_from g6 0) =
    Ok [inr (stored crc32c c1); inr (stored crc32c c2)] ∧
  existing_offsets (repo g6) = [0; 1] ∧
  (generic_reset_to crc32c no_faults g6 0).2 = Err UnexpectedEof ∧
  existing_offsets (generic_reset_to crc32c no_faults g6 0).1 = [0].
Proof. split_and!; vm_compute; reflexivity. Qed.
End Examples.
