(* ===== verification/CommitlogFold.v ===== *)
(** * Transactions of the log (crates/commitlog/src/payload.rs, commit.rs,
    commitlog.rs)

    The [Decoder] interface, the iteration over the transactions of a log
    ([transactions_from]) and folding over them ([fold_transactions_from]).  The
    theorems follow the transactions from [append] to the decoder: a log of
    transactions ([tx_step]) keeps what was appended next to each commit. *)

From Stdlib Require Import ZArith Lia.
From stdpp Require Import relations.
From S2P Require Import Prelude Buffer Sats Bsatn Varint Crc Commit IndexFile Repo Segment.
From S2P Require Import Commitlog Txdata CommitlogRead CommitlogInv CommitlogReset CommitlogThm.
Local Open Scope Z_scope.
Local Open Scope result_scope.
Local Open Scope dec_scope.

(** ** Decoders *)

(** [Decoder]; its state is what it keeps behind [&self]. *)
Record Decoder (D T E : Type) := {
  from_traversal : Traversal → E;
  decode_record : Z → Z → dec D E T;
  consume_record : Z → Z → dec D E unit;
  skip_record : Z → Z → dec D E unit
}.
Arguments from_traversal {D T E}.
Arguments decode_record {D T E}.
Arguments consume_record {D T E}.
Arguments skip_record {D T E}.

(** The decoder of transaction records that drives a visitor, as [Replay] of the
    datastore does. *)
Definition txdata_decoder {V T E} `{SizeOf T} (visitor : Visitor V T E) :
    Decoder V (Txdata T) (DecoderError E) :=
  {| from_traversal := Traverse;
     decode_record := decode_record_fn visitor;
     consume_record := consume_record_fn visitor;
     skip_record version _ := skip_record_fn visitor version |}.

(** [ArrayDecoder<N>], with records of [N] bytes; [consume_record] is the default
    implementation of the trait. *)
Inductive ArrayDecodeError :=
| ArrayDecode (e : DecodeError)
| ArrayTraversal (e : Traversal)
| ArrayIo (e : io_error).

Definition get_array (N : nat) (r : list byte) : result DecodeError (list byte * list byte) :=
  get_int "[u8; _]" N r.

#[export] Instance encode_array : Encode (list byte) := λ a buf, put_slice buf a.

Definition array_decoder (N : nat) : Decoder unit (list byte) ArrayDecodeError :=
  let decode := read_with ArrayDecode (get_array N) in
  {| from_traversal := ArrayTraversal;
     decode_record _ _ := decode;
     consume_record _ _ := let! _ := decode in dret tt;
     skip_record _ _ := let! _ := decode in dret tt |}.

(** ** Iterating and folding *)

Section with_crc.
Context (crc32c : list byte → Z).

(** [CommitsWithVersion::next]. *)
Definition versioned_next (it : Commits) :
    result unit (option (Traversal + (Z * Commit))) * Commits :=
  match commits_next crc32c it with
  | (Ok None, it) => (Ok None, it)
  | (Ok (Some (inl e)), it) => (Ok (Some (inl e)), it)
  | (Ok (Some (inr c)), it) =>
      match current_segment_header it with
      | Some hdr => (Ok (Some (inr (log_format_version hdr, sc_commit c))), it)
      | None => (Panic, it)
      end
  | (Err e, it) => (Err e, it)
  | (Panic, it) => (Panic, it)
  | (OutOfFuel, it) => (OutOfFuel, it)
  end.

Section decoder.
Context {D T E : Type} (de : Decoder D T E).

(** The loop over the records of a commit in [fold_transactions_internal]. *)
Fixpoint fold_records (version from : Z) (k : nat) (tx_offset : Z) : dec D E unit :=
  match k with
  | O => dret tt
  | S k =>
      let! _ := if tx_offset <? from then skip_record de version tx_offset
                else consume_record de version tx_offset in
      fold_records version from k (tx_offset + 1)
  end.

(** [fold_transactions_internal]; the iterator ends, so enough fuel is one turn
    for each of its items. *)
Fixpoint fold_transactions_internal (fuel : nat) (commits : Commits) (from : Z) (d : D) :
    result E unit * D :=
  match fuel with
  | O => (OutOfFuel, d)
  | S fuel =>
      match versioned_next commits with
      | (Ok None, _) => (Ok tt, d)
      | (Ok (Some (inl e)), commits) =>
          match versioned_next commits with
          | (Ok None, _) => (Ok tt, d)
          | (Ok (Some _), _) => (Err (from_traversal de e), d)
          | (OutOfFuel, _) => (OutOfFuel, d)
          | _ => (Panic, d)
          end
      | (Ok (Some (inr (version, commit))), commits) =>
          let max_tx_offset := min_tx_offset commit + n commit in
          if u64_MAX <? max_tx_offset then (Panic, d)
          else if max_tx_offset <=? from then fold_transactions_internal fuel commits from d
          else
            match fold_records version from (Z.to_nat (n commit)) (min_tx_offset commit)
                    (d, records commit) with
            | (Ok _, (d, _)) => fold_transactions_internal fuel commits from d
            | (r, (d, _)) => (r, d)
            end
      | (OutOfFuel, _) => (OutOfFuel, d)
      | _ => (Panic, d)
      end
  end.

(** [Commit::into_transactions], up to the first error: the transactions with
    their offsets. *)
Fixpoint tx_records (version from_offset : Z) (k : nat) (offset : Z) : dec D E (list (Z * T)) :=
  match k with
  | O => dret []
  | S k =>
      if offset <? from_offset then
        let! _ := skip_record de version offset in tx_records version from_offset k (offset + 1)
      else
        let! txdata := decode_record de version offset in
        let! txs := tx_records version from_offset k (offset + 1) in
        dret ((offset, txdata) :: txs)
  end.

Definition into_transactions (commit : Commit) (version from_offset : Z) (d : D) :
    result E (list (Z * T)) * D :=
  if u64_MAX <? min_tx_offset commit + n commit then (Panic, d)
  else let '(r, (d, _)) := tx_records version from_offset (Z.to_nat (n commit))
                             (min_tx_offset commit) (d, records commit) in (r, d).

(** [transactions_from_internal], collected up to the first error. *)
Fixpoint transactions_from_internal (fuel : nat) (commits : Commits) (offset : Z) (d : D) :
    result E (list (Z * T)) * D :=
  match fuel with
  | O => (OutOfFuel, d)
  | S fuel =>
      match versioned_next commits with
      | (Ok None, _) => (Ok [], d)
      | (Ok (Some (inl e)), _) => (Err (from_traversal de e), d)
      | (Ok (Some (inr (version, commit))), commits) =>
          match into_transactions commit version offset d with
          | (Ok txs, d) =>
              let '(r, d) := transactions_from_internal fuel commits offset d in
              (let* txs' := r in Ok (txs ++ txs'), d)
          | (r, d) => (r, d)
          end
      | (OutOfFuel, _) => (OutOfFuel, d)
      | _ => (Panic, d)
      end
  end.

(** [Generic::fold_transactions_from] and [transactions_from]. *)
Definition generic_fold_transactions_from (fuel : nat) (g : Generic) (offset : Z) (d : D) :
    result E unit * D :=
  fold_transactions_internal fuel (generic_commits_from g offset) offset d.

Definition generic_transactions_from (fuel : nat) (g : Generic) (offset : Z) (d : D) :
    result E (list (Z * T)) * D :=
  transactions_from_internal fuel (generic_commits_from g offset) offset d.
End decoder.
End with_crc.

(** ** What a decoder promises *)

(** [on_record off t d d']: record [t] at offset [off] takes the decoder from [d]
    to [d'], whether it is decoded or consumed; [on_skip_record] likewise for a
    record that is skipped.  Each reads exactly the encoding of the record. *)
Class DecoderLaws {D T E} `{Encode T} (de : Decoder D T E) := {
  supports : Z → Prop;
  on_record : Z → T → D → D → Prop;
  on_skip_record : Z → T → D → D → Prop;
  decode_record_reads version off t d d' : supports version → on_record off t d d' →
    ∃ bs, encodes t bs ∧ runs (decode_record de version off) d bs t d';
  consume_record_reads version off t d d' : supports version → on_record off t d d' →
    ∃ bs, encodes t bs ∧ runs (consume_record de version off) d bs tt d';
  skip_record_reads version off t d d' : supports version → on_skip_record off t d d' →
    ∃ bs, encodes t bs ∧ runs (skip_record de version off) d bs tt d'
}.

(** The decoder of a lawful visitor, and the array decoder. *)
#[export] Instance txdata_decoder_laws {V T E} `{!Encode T, !SizeOf T} (visitor : Visitor V T E)
    `{!VisitorLaws visitor} : DecoderLaws (txdata_decoder visitor).
Proof.
  refine {| supports version := version ≤ TXDATA_VERSION;
            on_record off t v v' := txdata_fits t ∧ replay_record visitor off t v v';
            on_skip_record _ t v v' := txdata_fits t ∧ replay_skip visitor t v v' |}.
  - intros version off t v v' Hv [? ?]. by apply (runs_decode_record visitor).
  - intros version off t v v' Hv [Hf Hr].
    destruct (runs_decode_record visitor version off t v v' Hv Hf Hr) as (bs & ? & ?).
    exists bs. split; [done|]. by eapply runs_consume_record.
  - intros version off t v v' Hv [? ?]. by apply (runs_skip_record visitor).
Defined.

#[export] Instance array_decoder_laws N : DecoderLaws (array_decoder N).
Proof.
  refine {| supports _ := True; on_record _ a _ _ := length a = N;
            on_skip_record _ a _ _ := length a = N |};
    intros version off a [] [] _ Ha; exists a; (split; [done|]); intros rest; cbn;
    unfold dbind, read_with, get_array; cbn [fst snd]; by rewrite get_int_app.
Defined.

(** Consecutive records from an offset on, those before [from] skipped. *)
Definition on_from {D T E} `{Encode T} (de : Decoder D T E) `{!DecoderLaws de}
    (from off : Z) : T → D → D → Prop :=
  if off <? from then on_skip_record off else on_record off.

Fixpoint replay_from {D T} (f : Z → T → D → D → Prop) (off : Z) (ts : list T) (d d' : D) : Prop :=
  match ts with
  | [] => d' = d
  | t :: ts => ∃ d1, f off t d d1 ∧ replay_from f (off + 1) ts d1 d'
  end.

Lemma replay_from_app {D T} (f : Z → T → D → D → Prop) off ts ts' d d' :
  replay_from f off (ts ++ ts') d d' ↔
  ∃ d1, replay_from f off ts d d1 ∧ replay_from f (off + Z.of_nat (length ts)) ts' d1 d'.
Proof.
  revert off d. induction ts as [|t ts IH]; intros off d; cbn [app replay_from length].
  { rewrite Z.add_0_r. split; [by eauto|]. by intros (? & -> & ?). }
  replace (off + Z.of_nat (S (length ts))) with (off + 1 + Z.of_nat (length ts)) by lia.
  split.
  - intros (d1 & ? & (d2 & ? & ?)%IH). eauto.
  - intros (d2 & (d1 & ? & ?) & ?). exists d1. split; [done|]. apply IH. eauto.
Qed.

(** A commit of these transactions. *)
Definition commit_of {T} `{Encode T} (c : Commit) (ts : list T) : Prop :=
  n c = Z.of_nat (length ts) ∧ ∃ bss, Forall2 encodes ts bss ∧ records c = concat bss.

Section decoder.
Context {D T E : Type} `{!Encode T} (de : Decoder D T E) `{!DecoderLaws de}.

Lemma fold_records_runs version from off ts bss d d' :
  supports version → Forall2 encodes ts bss → replay_from (on_from de from) off ts d d' →
  runs (fold_records de version from (length ts) off) d (concat bss) tt d'.
Proof.
  intros Hv Hbs. revert off d. induction Hbs as [|t bs ts bss Ht _ IH]; intros off d Hr;
    cbn [length fold_records concat replay_from] in *; [subst; apply runs_ret|].
  destruct Hr as (d1 & H1 & Hr). eapply runs_bind; [|by apply IH].
  unfold on_from in H1. destruct (off <? from).
  - destruct (skip_record_reads version _ _ _ _ Hv H1) as (bs' & Hbs' & H).
    by rewrite (encodes_unique _ _ _ Ht Hbs').
  - destruct (consume_record_reads version _ _ _ _ Hv H1) as (bs' & Hbs' & H).
    by rewrite (encodes_unique _ _ _ Ht Hbs').
Qed.

(** The transactions with their offsets, from [from] on. *)
Fixpoint numbered (from off : Z) (ts : list T) : list (Z * T) :=
  match ts with
  | [] => []
  | t :: ts => if off <? from then numbered from (off + 1) ts
               else (off, t) :: numbered from (off + 1) ts
  end.

Lemma numbered_app from off ts ts' :
  numbered from off (ts ++ ts') =
  numbered from off ts ++ numbered from (off + Z.of_nat (length ts)) ts'.
Proof.
  revert off. induction ts as [|t ts IH]; intros off; cbn [app numbered length].
  { by rewrite Z.add_0_r. }
  rewrite IH. replace (off + 1 + Z.of_nat (length ts)) with (off + Z.of_nat (S (length ts))) by lia.
  by destruct (off <? from).
Qed.

(** Transactions before [from] do not count. *)
Lemma numbered_before from off ts :
  off + Z.of_nat (length ts) ≤ from → numbered from off ts = [].
Proof.
  revert off. induction ts as [|t ts IH]; intros off Hf; cbn [numbered length] in *; [done|].
  rewrite (proj2 (Z.ltb_lt _ _)) by lia. apply IH. lia.
Qed.

Lemma numbered_drop from k ts : Z.of_nat k ≤ from →
  numbered from (Z.of_nat k) (drop k ts) = numbered from 0 ts.
Proof.
  intros Hk. destruct (decide (k ≤ length ts)%nat) as [Hle|Hgt].
  - rewrite <-(take_drop k ts) at 2. rewrite numbered_app, length_take_le by done.
    by rewrite (numbered_before from 0 (take k ts)) by (rewrite length_take_le by done; lia).
  - rewrite drop_ge by lia. by rewrite (numbered_before from 0 ts) by lia.
Qed.

Lemma tx_records_runs version from off ts bss d d' :
  supports version → Forall2 encodes ts bss → replay_from (on_from de from) off ts d d' →
  runs (tx_records de version from (length ts) off) d (concat bss) (numbered from off ts) d'.
Proof.
  intros Hv Hbs. revert off d. induction Hbs as [|t bs ts bss Ht _ IH]; intros off d Hr;
    cbn [length tx_records concat replay_from numbered] in *; [subst; apply runs_ret|].
  destruct Hr as (d1 & H1 & Hr). unfold on_from in H1. destruct (off <? from).
  - destruct (skip_record_reads version _ _ _ _ Hv H1) as (bs' & Hbs' & H).
    eapply runs_bind; [|by apply IH]. by rewrite (encodes_unique _ _ _ Ht Hbs').
  - destruct (decode_record_reads version _ _ _ _ Hv H1) as (bs' & Hbs' & H).
    rewrite (encodes_unique _ _ _ Ht Hbs'). eapply runs_bind; [done|].
    eapply runs_bind_r; [by apply IH|]. apply runs_ret.
Qed.

Section with_crc.
Context (crc32c : list byte → Z) (crc_range : ∀ l, in_u 32 (crc32c l)).
Context (o : Options) (version_ok : 1 ≤ opt_log_format_version o ≤ 255).
Hypothesis supported : supports (opt_log_format_version o).

(** The next commit due, with the version of its segment. *)
Lemma versioned_next_spec segs it cs t a : todo crc32c o it cs t segs a →
  match out (it_last_commit it) (cs ++ all_commits segs) with
  | c :: rest => ∃ it' cs' t' segs',
      versioned_next crc32c it = (Ok (Some (inr (opt_log_format_version o, c))), it') ∧
      todo crc32c o it' cs' t' segs' (tx_end c) ∧ it_last_commit it' = seen crc32c c ∧
      cs' ++ all_commits segs' = rest ∧
      trailing (upd_err cs' t' (it_last_error it')) segs' =
      trailing (upd_err cs t (it_last_error it)) segs
  | [] => ∃ it', versioned_next crc32c it =
      (Ok (inl <$> trailing (upd_err cs t (it_last_error it)) segs), it') ∧
      ∃ it2, versioned_next crc32c it' = (Ok None, it2)
  end.
Proof using crc_range version_ok.
  intros H. pose proof (commits_next_spec crc32c crc_range o version_ok _ _ _ _ _ H) as Hn.
  unfold versioned_next, commits_next. destruct (out _ _) as [|c rest].
  - destruct Hn as (it' & -> & H' & He). exists it'. split.
    { by destruct (trailing _ _). }
    pose proof (commits_next_spec crc32c crc_range o version_ok _ _ _ _ _ H') as Hn'.
    replace (out _ ([] ++ all_commits [])) with ([] : list Commit) in Hn'
      by (by destruct (it_last_commit it')).
    destruct Hn' as (it2 & Hn' & _). rewrite Hn', He. by exists it2.
  - destruct Hn as (it' & cs' & t' & segs' & -> & Htodo & Hseen & Hh & Hrest & Htr).
    rewrite Hh. by exists it', cs', t', segs'.
Qed.

(** The commits that are still to come, and their transactions. *)
Local Abbreviation due from a cs tss := (chain a cs ∧ Forall2 (commit_of (T:=T)) cs tss ∧
  Forall (λ c, from < tx_end c) cs).

Lemma due_cons from a c cs tss : due from a (c :: cs) tss →
  ∃ ts tss', tss = ts :: tss' ∧ commit_of c ts ∧ due from (tx_end c) cs tss' ∧
    min_tx_offset c = a ∧ from < tx_end c ≤ u64_MAX ∧ tx_end c = a + Z.of_nat (length ts).
Proof using Type.
  intros ((Hm & Hn & Hwf & Hc) & (ts & tss' & Hts & Htss & ->)%Forall2_cons_inv_l &
    [Hf Hfs]%Forall_cons).
  exists ts, tss'. pose proof Hts as [Hl _]. destruct Hwf as (_ & _ & _ & _ & [_ Hmax]).
  unfold tx_end in *. unfold u64_MAX. split_and!; try done; [by rewrite Hm|lia|lia].
Qed.

Lemma fold_spec fuel from segs it cs t a a' tss d d' :
  todo crc32c o it cs t segs a →
  due from a' (out (it_last_commit it) (cs ++ all_commits segs)) tss →
  replay_from (on_from de from) a' (concat tss) d d' →
  (length (out (it_last_commit it) (cs ++ all_commits segs)) < fuel)%nat →
  fold_transactions_internal crc32c de fuel it from d = (Ok tt, d').
Proof using crc_range version_ok supported.
  revert segs it cs t a a' tss d. induction fuel as [|fuel IH];
    intros segs it cs t a a' tss d Hit Hdue Hr Hf; [lia|].
  cbn [fold_transactions_internal]. pose proof (versioned_next_spec _ _ _ _ _ Hit) as Hn.
  destruct (out _ _) as [|c rest].
  - destruct Hn as (it' & -> & it2 & Hn'). destruct Hdue as (_ & ->%Forall2_nil_inv_l & _).
    cbn [concat replay_from] in Hr. subst d'. destruct (trailing _ _) as [e|]; cbn; [|done].
    by rewrite Hn'.
  - destruct Hn as (it' & cs' & t' & segs' & -> & Htodo & Hseen & Hrest & _).
    apply due_cons in Hdue as (ts & tss' & -> & [Hlen (bss & Hbss & Hrec)] & Hdue & Hm & Hend & He).
    cbn [concat] in Hr. apply replay_from_app in Hr as (d1 & Hr1 & Hr2).
    unfold tx_end in Hend. rewrite (proj2 (Z.ltb_ge _ _)), (proj2 (Z.leb_gt _ _)) by lia.
    rewrite Hlen, Nat2Z.id, Hm, Hrec, <-(app_nil_r (concat bss)).
    rewrite (fold_records_runs _ _ _ _ _ _ _ supported Hbss Hr1).
    rewrite <-He in Hr2. eapply IH; [done| |done|]; rewrite Hseen; cbn [out seen]; rewrite Hrest;
      [done|simpl in Hf; lia].
Qed.

Lemma transactions_spec fuel from segs it cs t a a' tss d d' :
  todo crc32c o it cs t segs a →
  due from a' (out (it_last_commit it) (cs ++ all_commits segs)) tss →
  replay_from (on_from de from) a' (concat tss) d d' →
  (length (out (it_last_commit it) (cs ++ all_commits segs)) < fuel)%nat →
  transactions_from_internal crc32c de fuel it from d =
    (match trailing (upd_err cs t (it_last_error it)) segs with
     | None => Ok (numbered from a' (concat tss))
     | Some e => Err (from_traversal de e)
     end, d').
Proof using crc_range version_ok supported.
  revert segs it cs t a a' tss d. induction fuel as [|fuel IH];
    intros segs it cs t a a' tss d Hit Hdue Hr Hf; [lia|].
  cbn [transactions_from_internal]. pose proof (versioned_next_spec _ _ _ _ _ Hit) as Hn.
  destruct (out _ _) as [|c rest].
  - destruct Hn as (it' & -> & _). destruct Hdue as (_ & ->%Forall2_nil_inv_l & _).
    cbn [concat replay_from] in Hr. subst d'. by destruct (trailing _ _) as [e|].
  - destruct Hn as (it' & cs' & t' & segs' & -> & Htodo & Hseen & Hrest & <-).
    apply due_cons in Hdue as (ts & tss' & -> & [Hlen (bss & Hbss & Hrec)] & Hdue & Hm & Hend & He).
    cbn [concat] in *. apply replay_from_app in Hr as (d1 & Hr1 & Hr2).
    unfold into_transactions. unfold tx_end in Hend. rewrite (proj2 (Z.ltb_ge _ _)) by lia.
    rewrite Hlen, Nat2Z.id, Hm, Hrec, <-(app_nil_r (concat bss)).
    rewrite (tx_records_runs _ _ _ _ _ _ _ supported Hbss Hr1).
    rewrite numbered_app, <-He in *.
    rewrite (IH segs' it' cs' t' (tx_end c) (tx_end c) tss' d1);
      [by destruct (trailing _ _)|done| |done|]; rewrite Hseen; cbn [out seen]; rewrite Hrest;
      [done|simpl in Hf; lia].
Qed.
End with_crc.
End decoder.

(** ** A log of transactions *)

(** The log, the acknowledged commits, the transactions of each of them, and the
    transactions appended since. *)
Record TxLog (T : Type) := {
  tl_log : Generic;
  tl_commits : list Commit;
  tl_acked : list (list T);
  tl_pending : list T
}.
Arguments tl_log {T}.
Arguments tl_commits {T}.
Arguments tl_acked {T}.
Arguments tl_pending {T}.

Section tx_step.
Context (crc32c : list byte → Z) {T : Type} `{!Encode T}.

(** [append] adds a transaction to the pending ones.  Any other operation that
    acknowledges a commit acknowledges the pending ones with it; when it leaves
    the buffer empty, nothing is pending. *)
Inductive tx_step : TxLog T → TxLog T → Prop :=
| tx_append l g' t rec :
    encodes t rec → append (tl_log l) rec = Some g' →
    tx_step l {| tl_log := g'; tl_commits := tl_commits l; tl_acked := tl_acked l;
                 tl_pending := tl_pending l ++ [t] |}
| tx_op l g' log' :
    op_step crc32c (tl_log l, tl_commits l) (g', log') →
    tx_step l {| tl_log := g'; tl_commits := log';
                 tl_acked := take (length log') (tl_acked l ++ [tl_pending l]);
                 tl_pending := if n (w_commit (head g')) =? 0 then [] else tl_pending l |}.

Definition tx_reachable (o : Options) (l : TxLog T) : Prop :=
  ∃ g0, log_start crc32c o (g0, []) ∧
    rtc tx_step {| tl_log := g0; tl_commits := []; tl_acked := []; tl_pending := [] |} l.

Definition tl_good (o : Options) (l : TxLog T) : Prop :=
  reachable crc32c o (tl_log l, tl_commits l) ∧ Forall2 commit_of (tl_commits l) (tl_acked l) ∧
  commit_of (w_commit (head (tl_log l))) (tl_pending l).

Lemma commit_of_nil c : emptied c → commit_of (T:=T) c [].
Proof using Type.
  intros [Hn Hr]. split; [done|]. exists []. by split; [constructor|].
Qed.

Lemma commit_of_append c (ts : list T) t rec :
  commit_of c ts → encodes t rec →
  commit_of {| min_tx_offset := min_tx_offset c; epoch := epoch c; n := n c + 1;
               records := records c ++ rec |} (ts ++ [t]).
Proof using Type.
  intros [Hn (bss & Hbss & Hr)] Ht. split; simpl; [rewrite length_app; simpl; lia|].
  exists (bss ++ [rec]). split; [by apply Forall2_app; [|constructor]|].
  rewrite concat_app, Hr. simpl. by rewrite app_nil_r.
Qed.

Context (crc_range : ∀ l, in_u 32 (crc32c l)).
Context (o : Options) (version_ok : 1 ≤ opt_log_format_version o ≤ 255).

Lemma tl_good_step l l' : tl_good o l → tx_step l l' → tl_good o l'.
Proof using crc_range version_ok.
  intros (Hr & Hacked & Hpend) Hstep. destruct Hstep as [l g' t rec Ht Happ|l g' log' Hop].
  - split_and!; cbn; [|done|].
    + eapply reachable_step; [done|]. by eapply step_append.
    + unfold append, writer_append in Happ. destruct (_ || _); simplify_eq/=.
      by apply commit_of_append.
  - destruct (good_op crc32c crc_range o version_ok _ _
      (reachable_good crc32c crc_range o version_ok _ Hr) Hop) as [_ Hadv].
    cbn [fst snd] in Hadv. split; [by eapply reachable_step, step_op|].
    pose proof (Forall2_length _ _ _ Hacked) as Hlen. cbn.
    destruct Hadv as [(-> & He)|[(-> & Hn & Hrec)|[[rest Hpre] He]]].
    + rewrite (proj1 He), take_ge by (rewrite !length_app, Hlen; simpl; lia).
      split; [|by apply commit_of_nil]. by apply Forall2_app; [|constructor].
    + rewrite take_app_length' by done. split; [done|].
      destruct Hpend as (Hn' & bss & Hbss & Hrec'). rewrite Hn, Hn'.
      destruct (Z.eqb_spec (Z.of_nat (length (tl_pending l))) 0) as [H0|H0].
      * destruct (tl_pending l); [|simpl in H0; lia]. apply Forall2_nil_inv_l in Hbss. subst bss.
        apply commit_of_nil. split; simpl in *; congruence.
      * split; [by rewrite Hn|]. exists bss. split; [done|]. by rewrite Hrec.
    + rewrite (proj1 He). split; [|by apply commit_of_nil].
      rewrite take_app_le by (rewrite <-Hlen, Hpre, length_app; lia).
      rewrite Hpre in Hacked. apply Forall2_app_inv_l in Hacked as (a1 & a2 & H1 & _ & ->).
      by rewrite take_app_length' by (symmetry; by apply Forall2_length in H1).
Qed.

Lemma tx_reachable_good l : tx_reachable o l → tl_good o l.
Proof using crc_range version_ok.
  intros (g0 & H0 & Hs).
  assert (tl_good o {| tl_log := g0; tl_commits := []; tl_acked := []; tl_pending := [] |}) as Hg.
  { split_and!; cbn; [|constructor|].
    - exists (g0, []). by split.
    - apply commit_of_nil. destruct H0 as (r & Hr & Hopen & _). cbn [fst] in Hopen.
      destruct (open_empty crc32c o no_faults r) as (g & Ho & _ & Hb & _);
        [by destruct Hr as [->| ->]|destruct Hr as [->| ->]; simpl; intros; by simplify_eq|done|].
      rewrite Ho in Hopen. simplify_eq. by rewrite Hb. }
  revert Hg. induction Hs as [|l1 l2 l3 Hstep _ IH]; [done|]. intros Hg.
  by eapply IH, tl_good_step.
Qed.
End tx_step.

(** ** The theorems *)

Section theorems.
Context (crc32c : list byte → Z).
Hypothesis crc_range : ∀ l, in_u 32 (crc32c l).
Context (o : Options).
Hypothesis version_ok : 1 ≤ opt_log_format_version o ≤ 255.
Context {D T E : Type} `{!Encode T} (de : Decoder D T E) `{!DecoderLaws de}.
Hypothesis supported : supports (opt_log_format_version o).

(** The transactions of the commits before an offset come before it. *)
Lemma acked_split a cs (tss : list (list T)) off :
  chain a cs → Forall2 commit_of cs tss → a ≤ off →
  ∃ tss1 tss2 k, tss = tss1 ++ tss2 ∧ length (concat tss1) = k ∧ a + Z.of_nat k ≤ off ∧
    chain (a + Z.of_nat k) (skip off cs) ∧ Forall2 commit_of (skip off cs) tss2.
Proof using Type.
  intros Hc Hts. revert a Hc. induction Hts as [|c ts cs tss Hts Htss IH]; intros a Hc Ha.
  { exists [], [], O. split_and!; (done || lia || constructor). }
  destruct Hc as (Hm & Hn & Hwf & Hc). cbn [skip]. unfold tx_end.
  pose proof Hts as [Hlen _]. destruct (Z.leb_spec (min_tx_offset c + n c) off) as [Hle|Hgt].
  - destruct (IH (a + n c) Hc ltac:(lia)) as (tss1 & tss2 & k & -> & Hk & Hko & Hc' & Hf).
    exists (ts :: tss1), tss2, (length ts + k)%nat. cbn [concat]. rewrite length_app, Hk.
    replace (a + Z.of_nat (length ts + k)) with (a + n c + Z.of_nat k) by lia. by split_and!.
  - exists [], (ts :: tss), O. rewrite Z.add_0_r. split_and!; (done || lia || by constructor).
Qed.

(** What the iterator from [off] has before it, as transactions. *)
Lemma tl_due l off : tx_reachable crc32c o l → 0 ≤ off →
  ∃ segs a k tss, todo crc32c o (generic_commits_from (tl_log l) off) [] [] segs a ∧
    let cs := out (Initial off) (all_commits segs) in
    chain (Z.of_nat k) cs ∧ Forall2 (commit_of (T:=T)) cs tss ∧ Forall (λ c, off < tx_end c) cs ∧
    (length cs ≤ length (tl_commits l))%nat ∧
    Z.of_nat k ≤ off ∧ concat tss = drop k (concat (tl_acked l)) ∧
    (writer_is_empty (head (tl_log l)) = false → trailing (upd_err [] [] None) segs = None) ∧
    (trailing (upd_err [] [] None) segs = None ∨
     trailing (upd_err [] [] None) segs = Some (TraversalIo UnexpectedEof)).
Proof using crc_range version_ok.
  intros (Hr & Hacked & _)%(tx_reachable_good crc32c crc_range o version_ok) Hoff.
  apply (reachable_good crc32c crc_range o version_ok) in Hr.
  destruct (good_todo crc32c o _ _ off Hr Hoff) as (segs & a & Htodo & Hout & He & Hw & Hc & _).
  destruct (acked_split 0 _ _ off Hc Hacked Hoff) as (tss1 & tss2 & k & Hsp & Hk & Hko & Hc' & Hf).
  exists segs, a, k, tss2. cbv zeta. rewrite Hout.
  rewrite (skip_filter 0) in Hc', Hf by done. split_and!; try done.
  - apply Forall_forall. by intros c [? _]%list_elem_of_filter.
  - apply length_filter.
  - by rewrite Hsp, concat_app, drop_app_length'.
Qed.

(** C19. Folding over a log of transactions from an offset succeeds in every
    state that the steps of a log reach from an empty repository.  The steps are
    those of [log_reads_back], with its exceptions: a failed write leaves a
    strict prefix of the commit, a crash nothing, all, or at least the header of
    it, and a reset finds an index that is not stale.  The decoder sees exactly
    the transactions that were acknowledged, and those of a commit that a crash
    left as a whole, in order and with their offsets, those from the offset on
    to be consumed and those of the same commit before it to be skipped. *)
Theorem fold_reads_back l off :
  tx_reachable crc32c o l → 0 ≤ off →
  ∃ k, Z.of_nat k ≤ off ∧ ∀ d d',
    replay_from (on_from de off) (Z.of_nat k) (drop k (concat (tl_acked l))) d d' →
    generic_fold_transactions_from crc32c de (2 + length (tl_commits l)) (tl_log l) off d =
      (Ok tt, d').
Proof using crc_range version_ok supported.
  intros Hl Hoff.
  destruct (tl_due l off Hl Hoff) as (segs & a & k & tss & Htodo & Hc & Hf & Hend & Hlen & Hk & Htss & _).
  exists k. split; [done|]. intros d d' Hrep. rewrite <-Htss in Hrep.
  eapply (fold_spec de crc32c crc_range o version_ok supported); [done|by split_and!|done|].
  cbn [it_last_commit generic_commits_from initial_commits app]. lia.
Qed.

(** The iterator over transactions yields the acknowledged transactions from
    the offset on, each with its offset, and is followed by an error only while
    the head segment is empty. *)
Theorem transactions_read_back l off :
  tx_reachable crc32c o l → 0 ≤ off →
  ∃ k, Z.of_nat k ≤ off ∧ ∀ d d',
    replay_from (on_from de off) (Z.of_nat k) (drop k (concat (tl_acked l))) d d' →
    let r := generic_transactions_from crc32c de (2 + length (tl_commits l)) (tl_log l) off d in
    r = (Ok (numbered off 0 (concat (tl_acked l))), d') ∨
    r = (Err (from_traversal de (TraversalIo UnexpectedEof)), d') ∧
      writer_is_empty (head (tl_log l)) = true.
Proof using crc_range version_ok supported.
  intros Hl Hoff.
  destruct (tl_due l off Hl Hoff)
    as (segs & a & k & tss & Htodo & Hc & Hf & Hend & Hlen & Hk & Htss & Hw & He).
  exists k. split; [done|]. intros d d' Hrep r. subst r.
  rewrite <-(numbered_drop off k) by done. rewrite <-Htss in *. unfold generic_transactions_from.
  rewrite (transactions_spec de crc32c crc_range o version_ok supported _ _ _ _ _ _ _
    (Z.of_nat k) tss d d' Htodo); [|by split_and!|done|];
    cbn [it_last_commit it_last_error generic_commits_from initial_commits app]; [|lia].
  destruct He as [He|He]; rewrite He in *; [by left|right]. split; [done|].
  destruct (writer_is_empty _); [done|]. by specialize (Hw eq_refl).
Qed.
End theorems.

(** ** A log of transactions to try the theorems on

    Three transactions, two in one commit; the write of the third fails
    half-way. *)
Module Examples.
Import CommitlogThm.Examples Txdata.Examples.

Definition small_tx : Txdata ProductValue :=
  {| inputs := None; outputs := Some {| reducer_output := [x6e; x6f] |}; mutations := None |}.

Definition record_of (t : Txdata ProductValue) : list byte :=
  match encode_record t [] with Ok bs => bs | _ => [] end.

Definition tx_opts : Options :=
  {| opt_log_format_version := 1; max_segment_size := 1000; opt_max_records_in_commit := 10;
     offset_index_interval_bytes := 20; offset_index_require_segment_fsync := false |}.

Definition t0 : Generic :=
  match (open crc32c no_faults empty_fs tx_opts).2 with Ok g => g | _ => g0 end.
Definition t1 : Generic := ex_append t0 (record_of some_tx).
Definition t2 : Generic := ex_append t1 (record_of small_tx).
Definition t3 : Generic := ex_commit no_faults t2.
Definition t4 : Generic := ex_append t3 (record_of some_tx).
Definition t5 : Generic := ex_commit (tear_at 25) t4.
Definition tc : Commit := w_commit (head t2).

Definition tx_log : TxLog (Txdata ProductValue) :=
  {| tl_log := t5; tl_commits := [tc]; tl_acked := [[some_tx; small_tx]];
     tl_pending := [some_tx] |}.

Lemma tx_version : 1 ≤ opt_log_format_version tx_opts ≤ 255.
Proof. simpl. lia. Qed.

Lemma tx_supported :
  supports (de := txdata_decoder (mock_visitor some_ty)) (opt_log_format_version tx_opts).
Proof. exact (Z.le_refl 1). Qed.

Lemma small_tx_fits : txdata_fits small_tx.
Proof. repeat (split || constructor); by vm_compute. Qed.

Lemma small_tx_replays off : replay_record (mock_visitor some_ty) off small_tx tt tt.
Proof. repeat (exists tt || split). Qed.

Lemma record_of_encodes t :
  txdata_fits t → replay_record (mock_visitor some_ty) 0 t tt tt → encodes t (record_of t).
Proof.
  intros Hf Hr.
  destruct (runs_decode_record (mock_visitor some_ty) 1 0 t tt tt ltac:(done) Hf Hr) as (bs & Hbs & _).
  unfold record_of. by rewrite (Hbs []).
Qed.

Lemma record_some_tx : encodes some_tx (record_of some_tx).
Proof. apply record_of_encodes; [apply some_tx_fits|apply some_tx_replays]. Qed.

Lemma record_small_tx : encodes small_tx (record_of small_tx).
Proof. apply record_of_encodes; [apply small_tx_fits|apply small_tx_replays]. Qed.

Lemma tc_wf : commit_wf tc.
Proof. by vm_compute. Qed.

Lemma t4_wf : commit_wf (w_commit (head t4)).
Proof. by vm_compute. Qed.

Lemma tear_t4 : storage_ok crc32c (tear_at 25) (w_commit (head t4)).
Proof. split_and!; [done|done|]. intros k [= <-]. vm_compute. lia. Qed.

Local Abbreviation log_of g cs acked pending :=
  {| tl_log := g; tl_commits := cs; tl_acked := acked; tl_pending := pending |}.

Lemma commit_t2 : tx_step crc32c (log_of t2 [] [] [some_tx; small_tx])
  (log_of t3 [tc] [[some_tx; small_tx]] []).
Proof.
  assert ((n (w_commit (head t3)) =? 0) = true) as Hn by (vm_compute; reflexivity).
  pose proof (tx_op crc32c (log_of t2 [] [] [some_tx; small_tx]) t3 [tc]) as Hs.
  rewrite Hn in Hs. apply Hs. cbn [tl_log tl_commits].
  assert ([tc] = [] ++ acked (w_commit (head t2)) (commit crc32c no_faults t2).2) as ->
    by (vm_compute; reflexivity).
  apply (step_commit _ no_faults t2 t3 (commit crc32c no_faults t2).2 []).
  - apply no_faults_ok.
  - apply tc_wf.
  - apply surjective_pairing.
  - left. eexists. vm_compute. reflexivity.
Qed.

Lemma commit_t4 : tx_step crc32c (log_of t4 [tc] [[some_tx; small_tx]] [some_tx]) tx_log.
Proof.
  assert ((n (w_commit (head t5)) =? 0) = false) as Hn by (vm_compute; reflexivity).
  pose proof (tx_op crc32c (log_of t4 [tc] [[some_tx; small_tx]] [some_tx]) t5 [tc]) as Hs.
  rewrite Hn in Hs. apply Hs. cbn [tl_log tl_commits].
  assert ([tc] = [tc] ++ acked (w_commit (head t4)) (commit crc32c (tear_at 25) t4).2) as He
    by (vm_compute; reflexivity).
  rewrite He at 2.
  apply (step_commit _ (tear_at 25) t4 t5 (commit crc32c (tear_at 25) t4).2 [tc]).
  - apply tear_t4.
  - apply t4_wf.
  - apply surjective_pairing.
  - right. vm_compute. reflexivity.
Qed.

Lemma tx_log_reachable : tx_reachable crc32c tx_opts tx_log.
Proof.
  exists t0. split.
  { exists empty_fs. split; [by right|]. split; [|done]. vm_compute. reflexivity. }
  eapply rtc_l.
  { apply (tx_append crc32c (log_of t0 [] [] []) t1 some_tx _ record_some_tx).
    vm_compute. reflexivity. }
  eapply rtc_l.
  { apply (tx_append crc32c (log_of t1 [] [] [some_tx]) t2 small_tx _ record_small_tx).
    vm_compute. reflexivity. }
  eapply rtc_l; [apply commit_t2|].
  eapply rtc_l; [|apply rtc_once, commit_t4].
  apply (tx_append crc32c (log_of t3 [tc] [[some_tx; small_tx]] []) t4 some_tx _ record_some_tx).
  vm_compute. reflexivity.
Qed.

(** From the second transaction on. *)
Lemma ex_replay k : Z.of_nat k ≤ 1 →
  replay_from (on_from (txdata_decoder (mock_visitor some_ty)) 1) (Z.of_nat k)
    (drop k [some_tx; small_tx]) tt tt.
Proof.
  assert (on_from (txdata_decoder (mock_visitor some_ty)) 1 1 small_tx tt tt) as H1
    by exact (conj small_tx_fits (small_tx_replays 1)).
  intros Hk. destruct k as [|[|k]]; [| |lia]; cbn.
  - exists tt. split; [exact (conj some_tx_fits some_tx_skips)|]. exists tt. by split.
  - exists tt. by split.
Qed.

Lemma fold_reads_back_witness :
  generic_fold_transactions_from crc32c (txdata_decoder (mock_visitor some_ty)) 3 t5 1 tt =
    (Ok tt, tt).
Proof.
  destruct (fold_reads_back crc32c crc32c_range tx_opts tx_version
    (txdata_decoder (mock_visitor some_ty)) tx_supported tx_log 1 tx_log_reachable)
    as (k & Hk & Hf); [lia|]. apply Hf, ex_replay, Hk.
Defined.

Lemma transactions_read_back_witness :
  let r := generic_transactions_from crc32c (txdata_decoder (mock_visitor some_ty)) 3 t5 1 tt in
  r = (Ok [(1, small_tx)], tt) ∨
  r = (Err (Traverse (TraversalIo UnexpectedEof)), tt) ∧ writer_is_empty (head t5) = true.
Proof.
  destruct (transactions_read_back crc32c crc32c_range tx_opts tx_version
    (txdata_decoder (mock_visitor some_ty)) tx_supported tx_log 1 tx_log_reachable)
    as (k & Hk & Hf); [lia|]. apply (Hf tt tt), ex_replay, Hk.
Defined.
End Examples.
