(* ===== verification/CommitlogAny.v ===== *)
(** * The commit iterator on arbitrary storage

    Nothing is assumed here about what the segments and index files of a
    repository hold: they may be corrupted in any way.  The iterator still
    ends, and the commits it yields have no gaps between them; it panics only
    at a stored commit whose offsets do not fit 64 bits. *)

From Stdlib Require Import ZArith Lia.
From stdpp Require Import gmap.
From S2P Require Import Prelude Buffer Crc Commit IndexFile Repo Segment Commitlog.
Local Open Scope Z_scope.
Local Open Scope result_scope.

(** [c] may follow what the iterator has seen. *)
Definition follows (i : CommitInfo) (c : Commit) : Prop :=
  match i with
  | Initial off => off < min_tx_offset c + n c
  | LastSeen range _ => min_tx_offset c = range.2
  end.

Definition info_of (c : StoredCommit) : CommitInfo :=
  let c' := sc_commit c in LastSeen (min_tx_offset c', min_tx_offset c' + n c') (sc_checksum c).

(** Commits one after the other. *)
Fixpoint linked (i : CommitInfo) (cs : list StoredCommit) : Prop :=
  match cs with
  | [] => True
  | c :: cs => follows i (sc_commit c) ∧ linked (info_of c) cs
  end.

(** The commits among the items of the iterator. *)
Definition yielded (xs : list (Traversal + StoredCommit)) : list StoredCommit :=
  omap (λ x, match x with inl _ => None | inr c => Some c end) xs.

(** All items up to the end of the iteration, and how it ends. *)
Fixpoint drain_all (crc32c : list byte → Z) (fuel : nat) (it : Commits) :
    list (Traversal + StoredCommit) * result unit unit :=
  match fuel with
  | O => ([], OutOfFuel)
  | S fuel =>
      match commits_next crc32c it with
      | (Ok None, _) => ([], Ok tt)
      | (Ok (Some x), it) => let '(xs, e) := drain_all crc32c fuel it in (x :: xs, e)
      | (Err e, _) => ([], Err e)
      | (Panic, _) => ([], Panic)
      | (OutOfFuel, _) => ([], OutOfFuel)
      end
  end.

Lemma drain_drain_all crc32c fuel it :
  drain crc32c fuel it = let* _ := (drain_all crc32c fuel it).2 in Ok (drain_all crc32c fuel it).1.
Proof.
  revert it. induction fuel as [|fuel IH]; intros it; [done|]. cbn [drain drain_all].
  destruct (commits_next crc32c it) as [[[x|]| | |] it']; try done. rewrite IH.
  by destruct (drain_all crc32c fuel it') as [xs []].
Qed.

(** ** What is stored *)

(** The offset after the commit, and the one of its last transaction, fit 64 bits. *)
Definition offsets_fit (c : Commit) : Prop := 1 ≤ min_tx_offset c + n c ≤ u64_MAX.

(** [c] can be decoded somewhere in a segment. *)
Definition stored_in (crc32c : list byte → Z) (r : Repo) (c : StoredCommit) : Prop :=
  ∃ off file bytes v rest, segments r !! off = Some file ∧ bytes `suffix_of` file ∧
    decode_internal crc32c v bytes = (Ok (Some c), rest).

(** ** How much is left to read *)

Definition inner_len (i : option SegCommits) : nat :=
  match i with Some s => length (sc_reader s) | None => O end.
Definition err_len (e : option Traversal) : nat := match e with Some _ => 1 | None => 0 end.
Definition file_len (r : Repo) (off : Z) : nat := length (default [] (segments r !! off)).
Definition segs_len (r : Repo) (offs : list Z) : nat :=
  sum_list_with (λ off, S (file_len r off)) offs.

(** An upper bound for the number of items the iterator still yields. *)
Definition items_left (it : Commits) : nat :=
  inner_len (it_inner it) + segs_len (it_repo it) (it_offs it) + err_len (it_last_error it).

Section with_crc.
Context (crc32c : list byte → Z).

Lemma read_exact_suffix k b x r : read_exact k b = Ok (x, r) → r `suffix_of` b.
Proof using. intros [-> _]%read_exact_inv. by exists x. Qed.

Lemma header_suffix v r h r1 : header_decode_internal v r = Ok (h, r1) → r1 `suffix_of` r.
Proof using.
  unfold header_decode_internal, decode_v0, decode_v1. intros H.
  destruct (v =? 0); destruct (read_exact _ r) as [[h' r1']|[]| |] eqn:Hr; try done;
    simplify_eq/=; try apply suffix_nil; apply read_exact_suffix in Hr; by destruct (decide _); simplify_eq.
Qed.

Lemma decode_internal_suffix v r : (decode_internal crc32c v r).2 `suffix_of` r.
Proof using.
  unfold decode_internal. destruct (header_decode_internal v r) as [[[h|] r1]|e| |] eqn:Hh; try apply suffix_nil;
    [|by apply header_suffix in Hh]. apply header_suffix in Hh. rewrite read_exact_len_eq.
  destruct (read_exact _ r1) as [[recs r2]|e| |] eqn:H2; try apply suffix_nil. apply read_exact_suffix in H2.
  destruct (read_exact 4 r2) as [[crc r3]|e| |] eqn:H3; try apply suffix_nil. apply read_exact_suffix in H3.
  assert (r3 `suffix_of` r) by (by etrans; [exact H3|etrans]). by destruct (_ =? _).
Qed.

(** The reader is in one of the segments. *)
Definition inner_in (r : Repo) (i : option SegCommits) : Prop :=
  ∀ s, i = Some s → ∃ off file, segments r !! off = Some file ∧ sc_reader s `suffix_of` file.

Lemma seg_next_in r s res s' :
  inner_in r (Some s) → seg_commits_next crc32c s = (res, s') →
  inner_in r (Some s') ∧ ∀ c, res = Ok (Some c) → stored_in crc32c r c.
Proof using.
  intros Hin. destruct (Hin s eq_refl) as (off & file & Hf & Hs). unfold seg_commits_next.
  pose proof (decode_internal_suffix (log_format_version (sc_header s)) (sc_reader s)) as Hsuf.
  destruct (decode_internal _ _ _) as [res1 rest] eqn:Hd. intros [= <- <-]. split.
  - intros ? [= <-]. exists off, file. split; [done|]. cbn [sc_reader]. by etrans.
  - intros c ->. by exists off, file, (sc_reader s), (log_format_version (sc_header s)), rest.
Qed.

Lemma seg_next_len s res s' :
  seg_commits_next crc32c s = (res, s') →
  (length (sc_reader s') ≤ length (sc_reader s))%nat ∧ res = Ok None ∨
  (length (sc_reader s') < length (sc_reader s))%nat ∧
    ((∃ c, res = Ok (Some c)) ∨ ∃ e, res = Err e).
Proof using.
  unfold seg_commits_next. destruct (decode_internal _ _ _) as [res1 rest] eqn:Hd.
  intros [= <- <-]. by apply decode_internal_len in Hd.
Qed.

(** The result of [next_commit], from the state [it]. *)
Definition next_post (it : Commits) (res : result unit (option (Traversal + StoredCommit)))
    (it' : Commits) : Prop :=
  it_repo it' = it_repo it ∧ it_offs it' = it_offs it ∧ inner_in (it_repo it) (it_inner it') ∧
  match res with
  | Ok (Some x) =>
      (inner_len (it_inner it') < inner_len (it_inner it))%nat ∧ it_last_error it' = None ∧
      match x with
      | inr c => follows (it_last_commit it) (sc_commit c) ∧ it_last_commit it' = info_of c
      | inl _ => it_last_commit it' = it_last_commit it
      end
  | Ok None =>
      (inner_len (it_inner it') + err_len (it_last_error it') ≤
       inner_len (it_inner it) + err_len (it_last_error it))%nat ∧
      it_last_commit it' = it_last_commit it
  | Panic => ∃ c, stored_in crc32c (it_repo it) c ∧ ¬ offsets_fit (sc_commit c)
  | _ => False
  end.

(** Going on after a commit that is passed over. *)
Lemma next_post_skip it inner s res it' :
  it_inner it = Some s → (length (sc_reader inner) < length (sc_reader s))%nat →
  next_post (it_set (Some inner) (it_last_commit it) None it) res it' → next_post it res it'.
Proof using.
  intros Hi Hlt (Hr & Ho & Hn & Hres). split_and!; [done|done|done|]. cbn [it_set it_inner it_last_commit
    it_last_error inner_len err_len] in Hres. rewrite Hi. cbn [inner_len].
  destruct res as [[x|]| | |]; try done.
  - destruct Hres as (? & ? & ?). split_and!; [lia|done|done].
  - destruct Hres as (? & ?). split; [lia|done].
Qed.

(** The initial offset is adjusted to a commit whose offsets fit. *)
Lemma adjust_post i c :
  match adjust_initial_offset i c with
  | Ok (true, info) => info = i
  | Ok (false, info) =>
      (expected_offset info = min_tx_offset (sc_commit c) → follows i (sc_commit c)) ∧
      (same_offset_as info c = true ∨ expected_offset info ≠ min_tx_offset (sc_commit c) → info = i)
  | Panic => ¬ offsets_fit (sc_commit c)
  | _ => False
  end.
Proof using.
  unfold adjust_initial_offset. destruct i as [off|]; [|by split].
  destruct (_ || _) eqn:Hp.
  - unfold offsets_fit. apply orb_true_iff in Hp as [Hp%Z.ltb_lt|Hp%Z.ltb_lt]; lia.
  - destruct (Z.ltb_spec (min_tx_offset (sc_commit c) + n (sc_commit c) - 1) off); [done|]. cbn [expected_offset same_offset_as follows].
    split; [lia|]. by intros [?|?].
Qed.

Lemma next_commit_loop_post fuel it :
  inner_in (it_repo it) (it_inner it) → (inner_len (it_inner it) < fuel)%nat →
  next_post it (next_commit_loop crc32c fuel it).1 (next_commit_loop crc32c fuel it).2.
Proof using.
  revert it. induction fuel as [|fuel IH]; intros it Hseg Hf; [lia|]. cbn [next_commit_loop].
  destruct (it_inner it) as [s|] eqn:Hin; [|split_and!; simpl; rewrite ?Hin; done].
  cbn [inner_len] in Hf. destruct (seg_commits_next crc32c s) as [res s'] eqn:Hn.
  destruct (seg_next_in _ _ _ _ Hseg Hn) as [Hseg' Hst].
  apply seg_next_len in Hn as [[Hle ->]|[Hlt [[c ->]|[e ->]]]].
  - split_and!; try done. cbn [fst snd it_set it_inner it_last_error it_last_commit]. rewrite Hin.
    simpl. split; [lia|done].
  - specialize (Hst c eq_refl). pose proof (adjust_post (it_last_commit it) c) as Hadj.
    destruct (adjust_initial_offset (it_last_commit it) c) as [[[] info]| | |]; [| |done| |done].
    { subst info. eapply next_post_skip; [done|done|]. apply IH; [done|]. simpl. lia. }
    2:{ split_and!; try done. by exists c. }
    destruct Hadj as [Hfol Hsame]. destruct (same_offset_as info c) eqn:Hso.
    + rewrite Hsame by auto. destruct (negb _).
      * split_and!; try done. simpl. rewrite Hin. simpl. by split_and!.
      * eapply next_post_skip; [done|done|]. apply IH; [done|]. simpl. lia.
    + destruct (Z.eqb_spec (expected_offset info) (min_tx_offset (sc_commit c))) as [He|He];
        cbn [negb].
      * unfold tx_range, add_u. destruct (Z.ltb_spec (min_tx_offset (sc_commit c) + n (sc_commit c)) (2 ^ 64)); cbn [rbind].
        -- split_and!; try done. simpl. rewrite Hin. simpl. by split_and!; auto.
        -- split_and!; try done. exists c. split; [done|]. unfold offsets_fit, u64_MAX. lia.
      * rewrite Hsame by auto. split_and!; try done. simpl. rewrite Hin. simpl. by split_and!.
  - split_and!; try done. simpl. rewrite Hin. simpl. split; [lia|done].
Qed.

Lemma next_commit_post it : inner_in (it_repo it) (it_inner it) →
  next_post it (next_commit crc32c it).1 (next_commit crc32c it).2.
Proof using. intros. apply next_commit_loop_post; [done|]. unfold inner_len. lia. Qed.

Lemma open_reader_in r v off rd :
  open_segment_reader r v off = Ok rd →
  segments r !! off = Some (rd_file rd) ∧ rd_inner rd `suffix_of` rd_file rd.
Proof using.
  unfold open_segment_reader, open_segment. destruct (segments r !! off) as [f|]; [|done].
  cbn [rbind]. unfold Reader_new, header_decode. intros H.
  destruct (read_exact_cases Header_LEN f) as [(x & r' & Hr)|Hr]; rewrite Hr in H; [|done].
  apply read_exact_suffix in Hr. cbn [rbind] in H.
  destruct (decide _); [|done]. cbn [rbind] in H. inv_ok. by simplify_eq/=.
Qed.

Lemma try_seek_in it rd :
  rd_inner rd `suffix_of` rd_file rd → rd_inner (try_seek_to_initial_offset it rd) `suffix_of` rd_file rd.
Proof using.
  intros Hl. unfold try_seek_to_initial_offset, seek_to_offset.
  repeat case_match; simplify_eq/=; try done. exists (take (Z.to_nat z0) (rd_file rd)). by rewrite take_drop.
Qed.

(** The result of [Iterator::next]. *)
Definition commits_post (it : Commits)
    (res : result unit (option (Traversal + StoredCommit))) (it' : Commits) : Prop :=
  match res with
  | Ok (Some x) => (items_left it' < items_left it)%nat ∧ it_repo it' = it_repo it ∧
      inner_in (it_repo it') (it_inner it') ∧
      match x with
      | inr c => follows (it_last_commit it) (sc_commit c) ∧ it_last_commit it' = info_of c
      | inl _ => it_last_commit it' = it_last_commit it
      end
  | Ok None => True
  | Panic => ∃ c, stored_in crc32c (it_repo it) c ∧ ¬ offsets_fit (sc_commit c)
  | _ => False
  end.

Lemma commits_post_trans it it1 res it' :
  it_last_commit it1 = it_last_commit it → it_repo it1 = it_repo it → (items_left it1 ≤ items_left it)%nat →
  commits_post it1 res it' → commits_post it res it'.
Proof using.
  intros Hi Hr Hl. unfold commits_post. rewrite Hi, Hr.
  destruct res as [[x|]| | |]; try done. intros [? ?]. split; [lia|done].
Qed.

(** One segment is read to its end. *)
Lemma commits_post_next it it' x :
  next_post it (Ok (Some x)) it' → commits_post it (Ok (Some x)) it'.
Proof using.
  intros (Hr & Ho & Hi & Hlt & He & Hx). split_and!; [|done|by rewrite Hr|done].
  unfold items_left. rewrite Hr, Ho, He. simpl. lia.
Qed.

Lemma commits_next_loop_post offs it : it_offs it = offs → inner_in (it_repo it) (it_inner it) →
  commits_post it (commits_next_loop crc32c offs it).1 (commits_next_loop crc32c offs it).2.
Proof using.
  revert it. induction offs as [|off offs IH]; intros it Hoffs Hseg; cbn [commits_next_loop];
    pose proof (next_commit_post it Hseg) as Hpost;
    destruct (next_commit crc32c it) as [[[x|]| | |] it1]; cbn [fst snd] in *; try (by apply commits_post_next);
    destruct Hpost as (Hr & Ho & Hi & Hres); try done; destruct Hres as [Hle Hl].
  - destruct (it_last_error it1) as [e|] eqn:He; [|done]. split_and!; [|done|cbn; by rewrite Hr|done].
    unfold items_left. cbn [it_set it_inner it_repo it_offs it_last_error]. rewrite Hr, Ho. simpl in *. lia.
  - cbn [it_repo it_max_log_format_version].
    assert (items_left it1 ≤ items_left it)%nat as Hleft.
    { unfold items_left. rewrite Hr, Ho. lia. }
    destruct (open_segment_reader _ _ off) as [rd|e| |] eqn:Hop.
    + apply open_reader_in in Hop as [Hfile Hsuf].
      eapply (commits_post_trans it it1); [exact Hl|exact Hr|exact Hleft|].
      match goal with |- context [try_seek_to_initial_offset ?i rd] => pose proof (try_seek_in i rd Hsuf) as Hseek end.
      eapply (commits_post_trans it1); [| | |apply IH]; [done|done| |done|].
      * unfold items_left. cbn [it_set it_inner it_repo it_offs it_last_error inner_len
          Reader_commits sc_reader]. rewrite Ho, Hoffs. unfold segs_len, file_len. simpl. rewrite Hfile. simpl.
        apply suffix_length in Hseek. lia.
      * intros s [= <-]. by exists off, (rd_file rd).
    + eapply (commits_post_trans it it1); [done|done|done|]. simpl. split_and!; [|done|by rewrite Hr|done].
      unfold items_left. simpl. rewrite Ho, Hoffs. unfold segs_len. simpl. lia.
    + exfalso. unfold open_segment_reader, open_segment, Reader_new, header_decode,
        read_exact, ensure_compatible in Hop. repeat (case_match; simplify_eq/=).
    + exfalso. unfold open_segment_reader, open_segment, Reader_new, header_decode,
        read_exact, ensure_compatible in Hop. repeat (case_match; simplify_eq/=).
Qed.

Lemma drain_any fuel it : inner_in (it_repo it) (it_inner it) → (items_left it < fuel)%nat →
  let '(xs, e) := drain_all crc32c fuel it in
  (length xs ≤ items_left it)%nat ∧ linked (it_last_commit it) (yielded xs) ∧
  (e = Ok tt ∨ e = Panic ∧ ∃ c, stored_in crc32c (it_repo it) c ∧ ¬ offsets_fit (sc_commit c)).
Proof using.
  revert it. induction fuel as [|fuel IH]; intros it Hseg Hf; [lia|]. cbn [drain_all].
  unfold commits_next.
  pose proof (commits_next_loop_post (it_offs it) it eq_refl Hseg) as Hpost.
  destruct (commits_next_loop _ _ it) as [[[x|]| | |] it']; cbn [fst snd commits_post] in Hpost;
    try done; [|split_and!; [simpl; lia|done|by left]|split_and!; [simpl; lia|done|by right]].
  destruct Hpost as (Hlt & Hr & Hi & Hx). specialize (IH it' Hi ltac:(lia)).
  destruct (drain_all crc32c fuel it') as [xs e]. destruct IH as (Hlen & Hlink & He). rewrite Hr in He.
  split_and!; [simpl; lia| |done]. destruct x as [t|c]; cbn [yielded omap list_omap].
  - by rewrite <-Hx.
  - destruct Hx as [Hfol Hinfo]. by rewrite Hinfo in Hlink.
Qed.

End with_crc.

(** Two commits of which the second should start at one, then garbage; and a
    commit at the last offset, where the range of the next one overflows. *)
Module Examples.
Definition c_at (off : Z) : Commit :=
  {| min_tx_offset := off; epoch := 0; n := 1; records := [x2a] |}.
Definition segment_of (bytes : list byte) : Repo :=
  {| segments := {[ 0 := header_write {| log_format_version := 1; checksum_algorithm := 0 |} ++ bytes ]}; indexes := None |}.

Definition bad_repo : Repo :=
  segment_of (commit_write crc32c (c_at 0) ++ commit_write crc32c (c_at 7) ++ commit_write crc32c (c_at 1) ++ replicate 40 xff).
Definition last_repo : Repo := segment_of (commit_write crc32c (c_at (u64_MAX - 1)) ++ commit_write crc32c (c_at u64_MAX)).

Definition ends (r : Repo) (off : Z) : nat * nat * result unit unit :=
  let '(xs, e) := drain_all crc32c (S (items_left (commits_from r 1 off))) (commits_from r 1 off) in (length xs, length (yielded xs), e).

Example commits_contiguous_examples : ends bad_repo 0 = (4%nat, 2%nat, Ok tt) ∧ ends last_repo (u64_MAX - 1) = (1%nat, 1%nat, Panic).
Proof. split; vm_compute; reflexivity. Qed.
End Examples.
