(* ===== verification/Mem.v ===== *)
(** * Byte slices

    Reading and writing ranges of a byte slice, the operations the pages of
    crates/table are made of: slice indexing with its bounds check,
    [copy_from_slice], and the typed references [get_ref] and [get_mut] of
    page.rs, which read and write a little-endian value at an offset.  The
    unsafe reads and writes out of bounds, undefined in the source, are a
    panic in the model, so that a theorem that an operation returns shows
    that it does not make one. *)

From Stdlib Require Import ZArith Lia.
From S2P Require Import Prelude.
Local Open Scope Z_scope.

(** Length of a slice, as a [usize]. *)
Definition len {A} (l : list A) : Z := Z.of_nat (length l).

(** [n] bytes from offset [a] on. *)
Definition peek (l : list byte) (a n : Z) : list byte :=
  take (Z.to_nat n) (drop (Z.to_nat a) l).

(** [bs] written at offset [a]. *)
Definition poke (l : list byte) (a : Z) (bs : list byte) : list byte :=
  take (Z.to_nat a) l ++ bs ++ drop (Z.to_nat a + length bs) l.

(** [0 ≤ a], [0 ≤ n] and [a + n] is no more than the length. *)
Definition in_bounds (l : list byte) (a n : Z) : bool :=
  (0 <=? a) && (0 <=? n) && (a + n <=? len l).

(** [&l[a..a + n]] and [l[a..a + n].copy_from_slice(bs)]. *)
Definition slice {E} (l : list byte) (a n : Z) : result E (list byte) :=
  if in_bounds l a n then Ok (peek l a n) else Panic.
Definition slice_write {E} (l : list byte) (a : Z) (bs : list byte) : result E (list byte) :=
  if in_bounds l a (len bs) then Ok (poke l a bs) else Panic.

(** A [u16] at offset [a]. *)
Definition peek_u16 (l : list byte) (a : Z) : Z := le_val (peek l a 2).
Definition poke_u16 (l : list byte) (a : Z) (v : Z) : list byte := poke l a (le_bytes 2 v).

Section lemmas.
Implicit Types l bs : list byte.

Lemma in_bounds_spec l a n :
  in_bounds l a n = true ↔ 0 ≤ a ∧ 0 ≤ n ∧ a + n ≤ len l.
Proof. unfold in_bounds. rewrite !andb_true_iff, !Z.leb_le. tauto. Qed.

Lemma slice_Ok {E} l a n :
  0 ≤ a → 0 ≤ n → a + n ≤ len l → slice (E:=E) l a n = Ok (peek l a n).
Proof. intros. unfold slice. by rewrite (proj2 (in_bounds_spec _ _ _)). Qed.

Lemma slice_write_Ok {E} l a bs :
  0 ≤ a → a + len bs ≤ len l → slice_write (E:=E) l a bs = Ok (poke l a bs).
Proof.
  intros. unfold slice_write, len in *. rewrite (proj2 (in_bounds_spec _ _ _)); [done|].
  unfold len. lia.
Qed.

Lemma len_nonneg {A} (l : list A) : 0 ≤ len l.
Proof. unfold len. lia. Qed.

Lemma len_app {A} (l k : list A) : len (l ++ k) = len l + len k.
Proof. unfold len. rewrite length_app. lia. Qed.

Lemma len_peek l a n : 0 ≤ a → 0 ≤ n → a + n ≤ len l → len (peek l a n) = n.
Proof. unfold peek, len. intros. rewrite length_take, length_drop. lia. Qed.

Lemma length_peek l a n :
  0 ≤ a → 0 ≤ n → a + n ≤ len l → length (peek l a n) = Z.to_nat n.
Proof. intros. pose proof (len_peek l a n). unfold len in *. lia. Qed.

Lemma len_poke l a bs : 0 ≤ a → a + len bs ≤ len l → len (poke l a bs) = len l.
Proof.
  unfold poke, len. intros. rewrite !length_app, length_take, length_drop. lia.
Qed.

Lemma lookup_peek l a n i :
  peek l a n !! i = if decide (i < Z.to_nat n)%nat then l !! (Z.to_nat a + i)%nat else None.
Proof.
  unfold peek. case_decide.
  - rewrite lookup_take_lt by done. by rewrite lookup_drop.
  - apply lookup_take_ge. lia.
Qed.

Lemma lookup_poke l a bs i :
  0 ≤ a → a + len bs ≤ len l →
  poke l a bs !! i =
    if decide (Z.to_nat a ≤ i < Z.to_nat a + length bs)%nat then bs !! (i - Z.to_nat a)%nat
    else l !! i.
Proof.
  unfold poke, len. intros. case_decide.
  - rewrite lookup_app_r by (rewrite length_take; lia).
    rewrite length_take, Nat.min_l by lia. by rewrite lookup_app_l by lia.
  - destruct (decide (i < Z.to_nat a)%nat).
    + rewrite lookup_app_l by (rewrite length_take; lia). by rewrite lookup_take_lt by lia.
    + rewrite !app_assoc, lookup_app_r by (rewrite length_app, length_take; lia).
      rewrite length_app, length_take, lookup_drop. f_equal. lia.
Qed.

Lemma peek_ext l l' a n :
  (∀ i, (Z.to_nat a ≤ i < Z.to_nat a + Z.to_nat n)%nat → l !! i = l' !! i) →
  peek l a n = peek l' a n.
Proof.
  intros H. apply list_eq. intros i. rewrite !lookup_peek.
  case_decide; [|done]. apply H. lia.
Qed.

(** A write is invisible outside its range. *)
Lemma peek_poke_ne l a bs b n :
  0 ≤ a → a + len bs ≤ len l → 0 ≤ b →
  b + n ≤ a ∨ a + len bs ≤ b → peek (poke l a bs) b n = peek l b n.
Proof.
  intros. apply peek_ext. intros i Hi. rewrite lookup_poke by done.
  unfold len in *. rewrite decide_False by lia. done.
Qed.

Lemma peek_poke_eq l a bs n :
  0 ≤ a → a + len bs ≤ len l → n = len bs → peek (poke l a bs) a n = bs.
Proof.
  intros ? ? ->. apply list_eq. intros i. rewrite lookup_peek, lookup_poke by done.
  unfold len in *. rewrite Nat2Z.id.
  case_decide; [rewrite decide_True by lia; f_equal; lia|].
  symmetry. apply lookup_ge_None. lia.
Qed.

(** A write read through a range around it. *)
Lemma peek_poke_in l a bs b n :
  0 ≤ b → b ≤ a → a + len bs ≤ b + n → b + n ≤ len l →
  peek (poke l a bs) b n = poke (peek l b n) (a - b) bs.
Proof.
  intros. assert (len (peek l b n) = n) by (apply len_peek; unfold len in *; lia).
  apply list_eq. intros i.
  rewrite (lookup_poke (peek l b n)) by lia.
  rewrite !lookup_peek. rewrite lookup_poke by lia. unfold len in *.
  destruct (decide (Z.to_nat (a - b) ≤ i < Z.to_nat (a - b) + length bs)%nat).
  - rewrite decide_True by lia. rewrite decide_True by lia. f_equal. lia.
  - case_decide; [|done]. by rewrite decide_False by lia.
Qed.

(** A range inside a write. *)
Lemma peek_poke_sub l a bs b n :
  0 ≤ a → a + len bs ≤ len l → a ≤ b → b + n ≤ a + len bs →
  peek (poke l a bs) b n = peek bs (b - a) n.
Proof.
  intros. apply list_eq. intros i. rewrite !lookup_peek, lookup_poke by done.
  unfold len in *. case_decide; [|done]. rewrite decide_True by lia. f_equal. lia.
Qed.

Lemma peek_peek l a n b m :
  0 ≤ a → 0 ≤ b → b + m ≤ n → peek (peek l a n) b m = peek l (a + b) m.
Proof.
  intros. apply list_eq. intros i. rewrite !lookup_peek.
  case_decide; [|done]. rewrite decide_True by lia. f_equal. lia.
Qed.

Lemma peek_app l a n m :
  0 ≤ a → 0 ≤ n → 0 ≤ m → a + n + m ≤ len l →
  peek l a (n + m) = peek l a n ++ peek l (a + n) m.
Proof.
  intros. apply list_eq. intros i. rewrite lookup_peek.
  assert (length (peek l a n) = Z.to_nat n) as Hl by (apply length_peek; lia).
  destruct (decide (i < Z.to_nat n)%nat).
  - rewrite lookup_app_l by lia. rewrite lookup_peek, !decide_True by lia. done.
  - rewrite lookup_app_r by lia. rewrite Hl, lookup_peek.
    destruct (decide (i - Z.to_nat n < Z.to_nat m)%nat).
    + rewrite decide_True by lia. f_equal. lia.
    + by rewrite decide_False by lia.
Qed.

Lemma peek_all l : peek l 0 (len l) = l.
Proof. unfold peek, len. rewrite drop_0, Nat2Z.id. by apply firstn_all. Qed.

Lemma poke_all l bs : len bs = len l → poke l 0 bs = bs.
Proof.
  intros Hl. rewrite <-(peek_all (poke l 0 bs)), len_poke by lia. rewrite <-Hl.
  apply peek_poke_eq; lia.
Qed.

Lemma peek_1 l a b : l !! Z.to_nat a = Some b → peek l a 1 = [b].
Proof.
  intros H. apply list_eq. intros i. rewrite lookup_peek. case_decide as Hi.
  - assert (i = 0%nat) as -> by lia. by rewrite Nat.add_0_r.
  - symmetry. apply lookup_ge_None_2. simpl. lia.
Qed.
Lemma peek_0 l a : peek l a 0 = [].
Proof. done. Qed.

Lemma poke_peek_id l a n :
  0 ≤ a → 0 ≤ n → a + n ≤ len l → poke l a (peek l a n) = l.
Proof.
  intros. apply list_eq. intros i.
  rewrite lookup_poke by (rewrite ?len_peek; lia). case_decide as Hi; [|done].
  rewrite length_peek in Hi by lia.
  rewrite lookup_peek, decide_True by lia. f_equal. lia.
Qed.

Lemma peek_app_1 l1 l2 n : n = len l1 → peek (l1 ++ l2) 0 n = l1.
Proof.
  intros ->. unfold peek, len. rewrite Nat2Z.id, drop_0. apply take_app_length.
Qed.

Lemma peek_app_2 l1 l2 a n : a = len l1 → n = len l2 → peek (l1 ++ l2) a n = l2.
Proof.
  intros -> ->. unfold peek, len. rewrite !Nat2Z.id, drop_app_length. by apply firstn_all.
Qed.

Lemma len_le_bytes n z : len (le_bytes n z) = Z.of_nat n.
Proof. unfold len. by rewrite length_le_bytes. Qed.

Lemma peek_u16_range l a : in_u 16 (peek_u16 l a).
Proof.
  unfold peek_u16, in_u. pose proof (le_val_range (peek l a 2)) as [H1 H2]. split; [done|].
  eapply Z.lt_le_trans; [exact H2|]. apply Z.pow_le_mono_r; [lia|].
  unfold peek. rewrite length_take. lia.
Qed.

Lemma peek_poke_u16_eq l a v :
  0 ≤ a → a + 2 ≤ len l → in_u 16 v → peek_u16 (poke_u16 l a v) a = v.
Proof.
  intros. unfold peek_u16, poke_u16. rewrite peek_poke_eq by (rewrite ?len_le_bytes; lia).
  rewrite le_val_le_bytes. by apply Z.mod_small.
Qed.

Lemma peek_u16_peek l a n b :
  0 ≤ a → 0 ≤ b → b + 2 ≤ n → peek_u16 (peek l a n) b = peek_u16 l (a + b).
Proof. intros. unfold peek_u16. by rewrite peek_peek. Qed.

Lemma len_poke_u16 l a v : 0 ≤ a → a + 2 ≤ len l → len (poke_u16 l a v) = len l.
Proof. intros. apply len_poke; rewrite ?len_le_bytes; lia. Qed.

Lemma peek_poke_u16_ne l a v b n :
  0 ≤ a → a + 2 ≤ len l → 0 ≤ b → b + n ≤ a ∨ a + 2 ≤ b →
  peek (poke_u16 l a v) b n = peek l b n.
Proof. intros. apply peek_poke_ne; rewrite ?len_le_bytes; lia. Qed.
End lemmas.

#[global] Opaque peek poke.
