(* ===== verification/Indexes.v ===== *)
(** * Offsets, sizes and row pointers (crates/table/src/indexes.rs)

    [Size], [PageOffset], [PageIndex] and [SquashedOffset] are their numbers;
    [RowPointer] is a 64-bit word packed from four bit fields. *)

From Stdlib Require Import ZArith Lia.
From S2P Require Import Prelude Mem.
Local Open Scope Z_scope.

(** ** Pages, sizes and offsets *)

Definition PAGE_SIZE : Z := u16_MAX + 1.
Definition PAGE_HEADER_SIZE : Z := 64.
Definition PAGE_DATA_SIZE : Z := PAGE_SIZE - PAGE_HEADER_SIZE.

Definition VAR_LEN_NULL : Z := 0.
Definition PAGE_END : Z := wrap_u 16 PAGE_DATA_SIZE.

Definition is_var_len_null (o : Z) : bool := o =? VAR_LEN_NULL.
Definition is_at_end (o : Z) : bool := o =? PAGE_END.

(** [impl Mul<usize> for Size]. *)
Definition size_mul (size rhs : Z) : Z := wrap_u 16 (size * rhs).

(** [AddAssign<Size>], [SubAssign<Size>] and [Sub] of offsets. *)
Definition offset_add {E} (o size : Z) : result E Z := add_u 16 o size.
Definition offset_sub {E} (o size : Z) : result E Z := sub_u o size.

(** [impl Div<Size> for PageOffset]: a division by zero panics. *)
Definition offset_div {E} (o size : Z) : result E Z :=
  if size =? 0 then Panic else Ok (o / size).

Definition max_rows_in_page (fixed_row_size : Z) : Z := div_ceil PAGE_END fixed_row_size.

(** [SquashedOffset]. *)
Definition TX_STATE : Z := 0.
Definition COMMITTED_STATE : Z := 1.
Definition is_tx_state (s : Z) : bool := s =? TX_STATE.
Definition is_committed_state (s : Z) : bool := s =? COMMITTED_STATE.

Lemma PAGE_END_val : PAGE_END = 65472.
Proof. reflexivity. Qed.

(** ** Row pointers *)

Definition OFFSET_RB : Z := 0.
Definition BITS_RB : Z := 1.
Definition OFFSET_PI : Z := OFFSET_RB + BITS_RB.
Definition BITS_PI : Z := 39.
Definition OFFSET_PO : Z := OFFSET_PI + BITS_PI.
Definition BITS_PO : Z := 16.
Definition OFFSET_SQ : Z := OFFSET_PO + BITS_PO.
Definition BITS_SQ : Z := 8.

(** [!x] at 64 bits. *)
Definition not_u64 (x : Z) : Z := u64_MAX - x.

Definition MASK_RB : Z := Z.shiftl 1 BITS_RB - 1.
Definition MASK_PI : Z := Z.shiftl 1 BITS_PI - 1.
Definition MASK_PO : Z := Z.shiftl 1 BITS_PO - 1.
Definition MASK_SQ : Z := Z.shiftl 1 BITS_SQ - 1.

Definition MASK_ZERO_RB : Z := not_u64 (Z.shiftl MASK_RB OFFSET_RB).
Definition MASK_ZERO_PI : Z := not_u64 (Z.shiftl MASK_PI OFFSET_PI).
Definition MASK_ZERO_PO : Z := not_u64 (Z.shiftl MASK_PO OFFSET_PO).
Definition MASK_ZERO_SQ : Z := not_u64 (Z.shiftl MASK_SQ OFFSET_SQ).

(** [PageIndex::MAX]. *)
Definition PageIndex_MAX : Z := MASK_PI.

(** [RowPointer::with]. *)
Definition with_field (p v mask offset zero : Z) : Z :=
  let vmoved := wrap_u 64 (Z.shiftl (Z.land v mask) offset) in
  Z.lor (Z.land p zero) vmoved.

Definition with_reserved_bit (p : Z) (reserved_bit : bool) : Z :=
  with_field p (Z.b2z reserved_bit) MASK_RB OFFSET_RB MASK_ZERO_RB.
Definition with_page_index (p page_index : Z) : Z :=
  with_field p page_index MASK_PI OFFSET_PI MASK_ZERO_PI.
Definition with_page_offset (p page_offset : Z) : Z :=
  with_field p page_offset MASK_PO OFFSET_PO MASK_ZERO_PO.
Definition with_squashed_offset (p squashed_offset : Z) : Z :=
  with_field p squashed_offset MASK_SQ OFFSET_SQ MASK_ZERO_SQ.

Definition reserved_bit (p : Z) : bool :=
  negb (Z.land (Z.shiftr p OFFSET_RB) MASK_RB =? 0).
Definition page_index (p : Z) : Z := Z.land (Z.shiftr p OFFSET_PI) MASK_PI.
Definition page_offset (p : Z) : Z :=
  wrap_u 16 (Z.land (Z.shiftr p OFFSET_PO) MASK_PO).
Definition squashed_offset (p : Z) : Z :=
  wrap_u 8 (Z.land (Z.shiftr p OFFSET_SQ) MASK_SQ).

(** [RowPointer::new]. *)
Definition RowPointer_new (reserved_bit : bool) (page_index page_offset squashed_offset : Z) : Z :=
  with_page_offset
    (with_page_index
       (with_squashed_offset (with_reserved_bit 0 reserved_bit) squashed_offset)
       page_index)
    page_offset.

(** ** Bit fields *)

(** The field of [n] bits at [o], and the word with that field replaced. *)
Definition field (p o n : Z) : Z := Z.land (Z.shiftr p o) (Z.ones n).
Definition set_field (p v o n : Z) : Z :=
  with_field p v (Z.ones n) o (not_u64 (Z.shiftl (Z.ones n) o)).

Lemma testbit_ones i n : 0 ≤ n → Z.testbit (Z.ones n) i = ((0 <=? i) && (i <? n)).
Proof. intros. by apply Z.testbit_ones. Qed.

Lemma field_range p o n : 0 ≤ n → in_u n (field p o n).
Proof. intros. unfold field. rewrite Z.land_ones by done. apply Z.mod_pos_bound. lia. Qed.

Lemma testbit_field p o n i :
  0 ≤ i → 0 ≤ o → 0 ≤ n → Z.testbit (field p o n) i = Z.testbit p (i + o) && (i <? n).
Proof.
  intros. unfold field. rewrite Z.land_spec, Z.shiftr_spec by done.
  rewrite testbit_ones by done. by rewrite (proj2 (Z.leb_le 0 i)).
Qed.

Lemma testbit_not_u64 x i :
  in_u 64 x → 0 ≤ i → Z.testbit (not_u64 x) i = negb (Z.testbit x i) && (i <? 64).
Proof.
  intros Hx Hi. unfold not_u64, u64_MAX.
  replace (2 ^ 64 - 1 - x) with (Z.lnot x mod 2 ^ 64).
  - destruct (Z.ltb_spec i 64) as [H|H].
    + rewrite Z.mod_pow2_bits_low, Z.lnot_spec by lia. by rewrite andb_true_r.
    + rewrite Z.mod_pow2_bits_high by lia. by rewrite andb_false_r.
  - unfold Z.lnot, in_u in *. rewrite <-(Z_mod_plus_full _ 1), Z.mod_small; lia.
Qed.

Lemma testbit_set_field p v o n i :
  0 ≤ o → 0 < n → o + n ≤ 64 → 0 ≤ i →
  Z.testbit (set_field p v o n) i =
    if decide (o ≤ i < o + n) then Z.testbit v (i - o) else Z.testbit p i && (i <? 64).
Proof.
  intros Ho Hn Hon Hi. unfold set_field, with_field, wrap_u.
  assert (Hm : in_u 64 (Z.shiftl (Z.ones n) o)).
  { rewrite Z.shiftl_mul_pow2, Z.ones_equiv by lia. unfold in_u.
    assert (2 ^ n * 2 ^ o ≤ 2 ^ 64).
    { rewrite <-Z.pow_add_r by lia. apply Z.pow_le_mono_r; lia. }
    pose proof (Z.pow_pos_nonneg 2 o). pose proof (Z.pow_pos_nonneg 2 n).
    rewrite Z.mul_pred_l. nia. }
  rewrite Z.lor_spec, Z.land_spec, testbit_not_u64 by done.
  rewrite Z.shiftl_spec, testbit_ones by lia.
  assert (Z.testbit (Z.shiftl (Z.land v (Z.ones n)) o mod 2 ^ 64) i =
    Z.testbit v (i - o) && ((0 <=? i - o) && (i - o <? n))) as ->.
  { destruct (Z.ltb_spec i 64).
    - rewrite Z.mod_pow2_bits_low, Z.shiftl_spec, Z.land_spec, testbit_ones by lia. done.
    - rewrite Z.mod_pow2_bits_high by lia.
      rewrite (proj2 (Z.ltb_ge (i - o) n)) by lia. by rewrite !andb_false_r. }
  case_decide as Hd.
  - rewrite (proj2 (Z.leb_le 0 (i - o))), (proj2 (Z.ltb_lt (i - o) n)) by lia.
    simpl. by rewrite andb_false_r, andb_true_r.
  - assert ((0 <=? i - o) && (i - o <? n) = false) as ->.
    { destruct (Z.leb_spec 0 (i - o)), (Z.ltb_spec (i - o) n); simpl; lia. }
    simpl. by rewrite andb_false_r, orb_false_r.
Qed.

(** The field that was set. *)
Lemma field_set_eq p v o n :
  0 ≤ o → 0 < n → o + n ≤ 64 → in_u n v → field (set_field p v o n) o n = v.
Proof.
  intros Ho Hn Hon Hv. apply Z.bits_inj'. intros i Hi.
  rewrite testbit_field, testbit_set_field by lia.
  destruct (Z.ltb_spec i n).
  - rewrite decide_True by lia. rewrite andb_true_r. f_equal. lia.
  - rewrite andb_false_r. unfold in_u in Hv.
    destruct (decide (v = 0)) as [->|]; [by rewrite Z.bits_0|].
    rewrite Z.bits_above_log2; [done|lia|]. apply Z.log2_lt_pow2; [lia|].
    eapply Z.lt_le_trans; [apply Hv|]. apply Z.pow_le_mono_r; lia.
Qed.

(** A field apart from the one that was set. *)
Lemma field_set_ne p v o n o' n' :
  0 ≤ o → 0 < n → o + n ≤ 64 → 0 ≤ o' → 0 ≤ n' → o' + n' ≤ 64 →
  o' + n' ≤ o ∨ o + n ≤ o' → field (set_field p v o n) o' n' = field p o' n'.
Proof.
  intros. apply Z.bits_inj'. intros i Hi. rewrite !testbit_field, testbit_set_field by lia.
  destruct (Z.ltb_spec i n'); [|by rewrite !andb_false_r].
  rewrite decide_False by lia. rewrite (proj2 (Z.ltb_lt (i + o') 64)) by lia.
  by rewrite !andb_true_r.
Qed.

Lemma set_field_range p v o n :
  0 ≤ o → 0 < n → o + n ≤ 64 → in_u 64 p → in_u 64 (set_field p v o n).
Proof.
  intros ? ? ? Hp. unfold set_field, with_field, in_u in *.
  set (x := Z.lor _ _). assert (0 ≤ x).
  { apply Z.lor_nonneg. split; [apply Z.land_nonneg; lia|].
    apply Z.mod_pos_bound. lia. }
  split; [done|]. destruct (decide (x = 0)) as [->|]; [lia|].
  apply Z.log2_lt_pow2; [lia|]. destruct (Z.lt_ge_cases (Z.log2 x) 64) as [|Hge]; [done|].
  pose proof (Z.bit_log2 x ltac:(lia)) as Hb. unfold x in Hb at 1.
  change (Z.testbit (set_field p v o n) (Z.log2 x) = true) in Hb.
  rewrite testbit_set_field in Hb by lia. rewrite decide_False in Hb by lia.
  rewrite (proj2 (Z.ltb_ge _ 64)) in Hb by lia. by rewrite andb_false_r in Hb.
Qed.

(** ** The fields of a row pointer *)

Lemma reserved_bit_field p : reserved_bit p = negb (field p 0 1 =? 0).
Proof. reflexivity. Qed.
Lemma page_index_field p : page_index p = field p 1 39.
Proof. reflexivity. Qed.
Lemma page_offset_field p : page_offset p = field p 40 16.
Proof. apply (wrap_u_id 16), field_range. lia. Qed.
Lemma squashed_offset_field p : squashed_offset p = field p 56 8.
Proof. apply (wrap_u_id 8), field_range. lia. Qed.

Lemma with_reserved_bit_set p b : with_reserved_bit p b = set_field p (Z.b2z b) 0 1.
Proof. reflexivity. Qed.
Lemma with_page_index_set p v : with_page_index p v = set_field p v 1 39.
Proof. reflexivity. Qed.
Lemma with_page_offset_set p v : with_page_offset p v = set_field p v 40 16.
Proof. reflexivity. Qed.
Lemma with_squashed_offset_set p v : with_squashed_offset p v = set_field p v 56 8.
Proof. reflexivity. Qed.

(** The bit fields of the pointer of each operation. *)
Ltac ptr_fields :=
  rewrite ?reserved_bit_field, ?page_index_field, ?page_offset_field, ?squashed_offset_field,
    ?with_reserved_bit_set, ?with_page_index_set, ?with_page_offset_set,
    ?with_squashed_offset_set in *.

Lemma field_bit p : Z.b2z (negb (field p 0 1 =? 0)) = field p 0 1.
Proof.
  pose proof (field_range p 0 1 ltac:(lia)) as [H1 H2]. change (2 ^ 1) with 2 in H2.
  destruct (Z.eqb_spec (field p 0 1) 0); simpl; lia.
Qed.

Lemma b2z_range b : in_u 1 (Z.b2z b).
Proof. destruct b; unfold in_u; simpl; lia. Qed.

Lemma b2z_nonzero b : negb (Z.b2z b =? 0) = b.
Proof. by destruct b. Qed.

(** Two words with the same four fields are the same. *)
Lemma fields_ext p q :
  in_u 64 p → in_u 64 q →
  field p 0 1 = field q 0 1 → field p 1 39 = field q 1 39 →
  field p 40 16 = field q 40 16 → field p 56 8 = field q 56 8 → p = q.
Proof.
  intros Hp Hq H1 H2 H3 H4. apply Z.bits_inj'. intros i Hi.
  assert (Hw : ∀ o n, 0 ≤ o → 0 ≤ n → field p o n = field q o n →
    o ≤ i < o + n → Z.testbit p i = Z.testbit q i).
  { intros o n Ho Hn Hf Hin. apply (f_equal (λ x, Z.testbit x (i - o))) in Hf.
    rewrite !testbit_field in Hf by lia. rewrite Z.sub_add in Hf.
    rewrite (proj2 (Z.ltb_lt (i - o) n)) in Hf by lia. by rewrite !andb_true_r in Hf. }
  destruct (decide (i < 1)); [by apply (Hw 0 1); try lia|].
  destruct (decide (i < 40)); [by apply (Hw 1 39); try lia|].
  destruct (decide (i < 56)); [by apply (Hw 40 16); try lia|].
  destruct (decide (i < 64)); [by apply (Hw 56 8); try lia|].
  assert (Hz : ∀ x, in_u 64 x → Z.testbit x i = false); [|by rewrite !Hz].
  intros x [Hx1 Hx2]. destruct (decide (x = 0)) as [->|]; [apply Z.bits_0|].
  apply Z.bits_above_log2; [done|]. apply Z.lt_le_trans with 64; [|lia].
  apply Z.log2_lt_pow2; lia.
Qed.

Section row_pointer.
Variables (rb : bool) (pi po sq : Z).
Hypothesis (Hpi : in_u 39 pi) (Hpo : in_u 16 po) (Hsq : in_u 8 sq).

Lemma RowPointer_new_range : in_u 64 (RowPointer_new rb pi po sq).
Proof.
  unfold RowPointer_new. ptr_fields.
  repeat (apply set_field_range; [lia|lia|lia|]). unfold in_u; lia.
Qed.

Lemma page_index_new : page_index (RowPointer_new rb pi po sq) = pi.
Proof using Hpi.
  unfold RowPointer_new. ptr_fields. rewrite field_set_ne by lia. by apply field_set_eq; try lia.
Qed.

Lemma page_offset_new : page_offset (RowPointer_new rb pi po sq) = po.
Proof using Hpo. unfold RowPointer_new. ptr_fields. by apply field_set_eq; try lia. Qed.

Lemma squashed_offset_new : squashed_offset (RowPointer_new rb pi po sq) = sq.
Proof using Hsq.
  unfold RowPointer_new. ptr_fields. rewrite !field_set_ne by lia. by apply field_set_eq; try lia.
Qed.

Lemma reserved_bit_new : reserved_bit (RowPointer_new rb pi po sq) = rb.
Proof.
  unfold RowPointer_new. ptr_fields. rewrite !field_set_ne by lia.
  rewrite field_set_eq by (try apply b2z_range; lia). apply b2z_nonzero.
Qed.
End row_pointer.

Lemma RowPointer_new_fields p :
  in_u 64 p →
  RowPointer_new (reserved_bit p) (page_index p) (page_offset p) (squashed_offset p) = p.
Proof.
  intros Hp. apply fields_ext; [by apply RowPointer_new_range|done|..];
    unfold RowPointer_new; ptr_fields.
  - rewrite !field_set_ne by lia. rewrite field_set_eq by (try apply b2z_range; lia).
    apply field_bit.
  - rewrite field_set_ne by lia. rewrite field_set_eq; try lia. apply field_range. lia.
  - rewrite field_set_eq; try lia. apply field_range. lia.
  - rewrite !field_set_ne by lia. rewrite field_set_eq; try lia. apply field_range. lia.
Qed.

(** A row pointer packs its four fields without loss in both directions:
    a pointer built from a page index of 39 bits, a page offset of 16, a
    squashed offset of 8 and the reserved bit is a 64-bit word that gives
    each of them back, and every 64-bit word is the pointer built from its
    fields. *)
Theorem row_pointer_packing rb pi po sq p :
  in_u 39 pi → in_u 16 po → in_u 8 sq → in_u 64 p →
  let q := RowPointer_new rb pi po sq in
  in_u 64 q ∧ reserved_bit q = rb ∧ page_index q = pi ∧ page_offset q = po ∧
  squashed_offset q = sq ∧ pi ≤ PageIndex_MAX ∧
  RowPointer_new (reserved_bit p) (page_index p) (page_offset p) (squashed_offset p) = p.
Proof.
  intros Hpi Hpo Hsq Hp q. subst q.
  rewrite reserved_bit_new, page_index_new, page_offset_new, squashed_offset_new by done.
  pose proof (RowPointer_new_range rb pi po sq). rewrite RowPointer_new_fields by done.
  repeat split; try done; try apply H. change PageIndex_MAX with (2 ^ 39 - 1).
  unfold in_u in Hpi. lia.
Qed.

Lemma row_pointer_packing_witness :
  RowPointer_new (reserved_bit 72620543991349255) (page_index 72620543991349255)
    (page_offset 72620543991349255) (squashed_offset 72620543991349255) = 72620543991349255 ∧
  page_offset (RowPointer_new true 3 512 COMMITTED_STATE) = 512.
Proof.
  edestruct (row_pointer_packing true 3 512 COMMITTED_STATE 72620543991349255)
    as (_ & _ & _ & H1 & _ & _ & H2); [unfold in_u, COMMITTED_STATE; lia..|].
  split; [exact H2|exact H1].
Defined.

(** Replacing one field leaves the other three. *)
Lemma with_reserved_bit_fields p b :
  in_u 64 p → let q := with_reserved_bit p b in
  in_u 64 q ∧ reserved_bit q = b ∧ page_index q = page_index p ∧
  page_offset q = page_offset p ∧ squashed_offset q = squashed_offset p.
Proof.
  intros Hp q. subst q. ptr_fields. rewrite field_set_eq by (try apply b2z_range; lia).
  rewrite !field_set_ne by lia. rewrite b2z_nonzero. split; [|done].
  by apply set_field_range; try lia.
Qed.

(** A pointer whose reserved bit is clear already. *)
Lemma with_reserved_bit_id p :
  in_u 64 p → reserved_bit p = false → with_reserved_bit p false = p.
Proof.
  intros Hp Hr. destruct (with_reserved_bit_fields p false Hp) as (? & H1 & H2 & H3 & H4).
  rewrite <-(RowPointer_new_fields (with_reserved_bit p false)) by done.
  rewrite H1, H2, H3, H4, <-Hr. by apply RowPointer_new_fields.
Qed.
