(* ===== verification/BitSet.v ===== *)
(** * The fixed-size bit set (crates/table/src/fixed_bit_set.rs)

    A bit set is its blocks of 64 bits.  Besides reading and writing a bit,
    the iterators over the set bits are proved to yield exactly the indices
    of the set bits, in ascending order. *)

From Stdlib Require Import ZArith Lia.
From Stdlib Require Import Sorting.Sorted.
From S2P Require Import Prelude Mem Indexes.
Local Open Scope Z_scope.
Local Open Scope result_scope.

(** [impl BitBlock for u64]. *)
Definition BITS : Z := 64.

Definition wrapping_sub (a b : Z) : Z := wrap_u 64 (a - b).

(** The index of the lowest set bit from [i] on, among [n] bits. *)
Fixpoint trailing_zeros_from (n : nat) (i : Z) (b : Z) : Z :=
  match n with
  | O => i
  | S n => if Z.testbit b i then i else trailing_zeros_from n (i + 1) b
  end.
Definition trailing_zeros (b : Z) : Z := trailing_zeros_from 64 0 b.

(** [FixedBitSet]: its blocks. *)
Abbreviation FixedBitSet := (list Z) (only parsing).

(** [from_boxed_slice], with its assertion on the number of blocks. *)
Definition from_boxed_slice {E} (storage : list Z) : result E FixedBitSet :=
  if len storage <=? u16_MAX then Ok storage else Panic.

Definition blocks_for_bits (bits : Z) : Z := div_ceil bits BITS.

Definition new_for_blocks {E} (nblocks : Z) : result E FixedBitSet :=
  from_boxed_slice (replicate (Z.to_nat nblocks) 0).

(** [FixedBitSet::new]. *)
Definition bitset_new {E} (bits : Z) : result E FixedBitSet :=
  new_for_blocks (blocks_for_bits bits).

Definition idx_to_pos (idx : Z) : Z * Z := (idx / BITS, idx mod BITS).

(** [get] and [set]: indexing the storage panics out of range. *)
Definition bitset_get {E} (s : FixedBitSet) (idx : Z) : result E bool :=
  let '(block_idx, pos_in_block) := idx_to_pos idx in
  match s !! Z.to_nat block_idx with
  | Some block => Ok (negb (Z.land block (Z.shiftl 1 pos_in_block) =? 0))
  | None => Panic
  end.

Definition bitset_set {E} (s : FixedBitSet) (idx : Z) (val : bool) : result E FixedBitSet :=
  let '(block_idx, pos_in_block) := idx_to_pos idx in
  match s !! Z.to_nat block_idx with
  | Some block =>
      let flag := Z.shiftl 1 pos_in_block in
      Ok (<[Z.to_nat block_idx := if val then Z.lor block flag
                                  else Z.land block (not_u64 flag)]> s)
  | None => Panic
  end.

Definition bitset_clear (s : FixedBitSet) : FixedBitSet := replicate (length s) 0.

(** [reset_for]: the storage is kept when it has the right size. *)
Definition bitset_reset_for {E} (s : FixedBitSet) (bits : Z) : result E FixedBitSet :=
  let nblocks := blocks_for_bits bits in
  if nblocks =? len s then Ok (bitset_clear s) else new_for_blocks nblocks.

(** [bits]. *)
Definition bitset_bits (s : FixedBitSet) : Z := len s * BITS.

(** [IterSet]: the blocks to come, what is left of the current one, and its
    index. *)
Record IterSet := { it_inner : list Z; it_curr : Z; it_block_idx : Z }.

Definition iter_set (s : FixedBitSet) : IterSet :=
  {| it_inner := tail s; it_curr := default 0 (head s); it_block_idx := 0 |}.

Definition iter_set_from {E} (s : FixedBitSet) (start_idx : Z) : result E IterSet :=
  let '(block_idx, pos_in_block) := idx_to_pos start_idx in
  if block_idx <=? len s then
    let inner := drop (Z.to_nat block_idx) s in
    let zero_preceding_mask := wrapping_sub 0 (Z.shiftl 1 pos_in_block) in
    Ok {| it_inner := tail inner;
          it_curr := Z.land (default 0 (head inner)) zero_preceding_mask;
          it_block_idx := wrap_u 16 block_idx |}
  else Panic.

(** [IterSet::next]: every round of the loop that does not return moves to
    the next block. *)
Fixpoint iter_set_next_loop {E} (inner : list Z) (curr block_idx : Z) :
    result E (option Z * IterSet) :=
  let tz := trailing_zeros curr in
  if tz <? BITS then
    let* base := mul_u 32 block_idx BITS in
    let* idx := add_u 32 base tz in
    Ok (Some idx, {| it_inner := inner; it_curr := Z.land curr (wrapping_sub curr 1);
                     it_block_idx := block_idx |})
  else
    match inner with
    | [] => Ok (None, {| it_inner := []; it_curr := curr; it_block_idx := block_idx |})
    | b :: inner =>
        let* block_idx := add_u 16 block_idx 1 in
        iter_set_next_loop inner b block_idx
    end.

Definition iter_set_next {E} (it : IterSet) : result E (option Z * IterSet) :=
  iter_set_next_loop (it_inner it) (it_curr it) (it_block_idx it).

(** What the iterator yields until it ends. *)
Fixpoint iter_set_collect {E} (fuel : nat) (it : IterSet) : result E (list Z) :=
  match fuel with
  | O => OutOfFuel
  | S fuel =>
      let* ' (next, it) := iter_set_next it in
      match next with
      | None => Ok []
      | Some i => let* rest := iter_set_collect fuel it in Ok (i :: rest)
      end
  end.

(** ** The bits of a set *)

(** Bit [i] of a set, false out of range. *)
Definition bit (s : FixedBitSet) (i : Z) : bool :=
  Z.testbit (default 0 (s !! Z.to_nat (i / BITS))) (i mod BITS).

(** The indices from [a] up to [a + n] at which [f] holds. *)
Definition true_from (f : Z → bool) (a : Z) (n : nat) : list Z :=
  filter (λ i, f i = true) (seqZ a (Z.of_nat n)).

(** The set bits in ascending order, from index [i] on. *)
Definition bits_from (s : FixedBitSet) (i : Z) : list Z :=
  true_from (bit s) i (Z.to_nat (bitset_bits s - i)).

Definition blocks_ok (s : FixedBitSet) : Prop := Forall (in_u 64) s ∧ len s ≤ u16_MAX.

Lemma testbit_flag pos i : 0 ≤ pos → 0 ≤ i → Z.testbit (Z.shiftl 1 pos) i = bool_decide (i = pos).
Proof.
  intros. rewrite Z.shiftl_1_l, Z.pow2_bits_eqb by done.
  case_bool_decide; [subst; apply Z.eqb_refl|]. apply Z.eqb_neq. lia.
Qed.

Lemma land_flag b pos :
  0 ≤ pos → negb (Z.land b (Z.shiftl 1 pos) =? 0) = Z.testbit b pos.
Proof.
  intros. destruct (Z.testbit b pos) eqn:Hb.
  - destruct (Z.eqb_spec (Z.land b (Z.shiftl 1 pos)) 0) as [He|]; [|done].
    apply (f_equal (λ x, Z.testbit x pos)) in He.
    rewrite Z.land_spec, testbit_flag, Z.bits_0, Hb, bool_decide_true in He by done. done.
  - rewrite (proj2 (Z.eqb_eq _ 0)); [done|]. apply Z.bits_inj'. intros i Hi.
    rewrite Z.land_spec, testbit_flag, Z.bits_0 by done.
    case_bool_decide; [subst; by rewrite Hb|apply andb_false_r].
Qed.

Lemma pos_range i : 0 ≤ i mod BITS < 64.
Proof. apply Z.mod_pos_bound. done. Qed.

Lemma block_in s i : 0 ≤ i < bitset_bits s → ∃ b, s !! Z.to_nat (i / BITS) = Some b.
Proof.
  unfold bitset_bits, len. intros. apply lookup_lt_is_Some.
  enough (i / BITS < Z.of_nat (length s)) by (pose proof (Z.div_pos i BITS); unfold BITS in *; lia).
  apply Z.div_lt_upper_bound; unfold BITS in *; lia.
Qed.

Lemma bitset_get_bit {E} s i :
  0 ≤ i < bitset_bits s → bitset_get (E:=E) s i = Ok (bit s i).
Proof.
  intros Hi. destruct (block_in s i Hi) as [b Hb].
  unfold bitset_get, idx_to_pos, bit. rewrite Hb. simpl.
  by rewrite land_flag by apply pos_range.
Qed.

Lemma bit_out s i : bitset_bits s ≤ i → bit s i = false.
Proof.
  intros. unfold bit. rewrite lookup_ge_None_2; [apply Z.bits_0|].
  enough (len s ≤ i / BITS) by (unfold len in *; lia).
  apply Z.div_le_lower_bound; unfold bitset_bits, BITS in *; lia.
Qed.

Lemma bitset_set_bit {E} s i v :
  blocks_ok s → 0 ≤ i < bitset_bits s →
  ∃ s', bitset_set (E:=E) s i v = Ok s' ∧ blocks_ok s' ∧ length s' = length s ∧
    ∀ j, 0 ≤ j → bit s' j = if decide (j = i) then v else bit s j.
Proof.
  intros [Hs Hlen] Hi. destruct (block_in s i Hi) as [b Hb].
  unfold bitset_set, idx_to_pos. rewrite Hb.
  set (pos := i mod BITS). pose proof (pos_range i) as Hpos. fold pos in Hpos.
  assert (Hu : in_u 64 b) by by apply (Forall_lookup_1 _ _ _ _ Hs Hb).
  assert (Hf : in_u 64 (Z.shiftl 1 pos)).
  { rewrite Z.shiftl_1_l. unfold in_u. split; [lia|]. apply Z.pow_lt_mono_r; lia. }
  set (b' := if v then _ else _).
  assert (Hb' : ∀ j, 0 ≤ j < 64 →
    Z.testbit b' j = if decide (j = pos) then v else Z.testbit b j).
  { intros j Hj. subst b'. destruct v.
    - rewrite Z.lor_spec, testbit_flag by lia. case_bool_decide; case_decide; try done;
        [apply orb_true_r|apply orb_false_r].
    - rewrite Z.land_spec, testbit_not_u64, testbit_flag by (done || lia).
      rewrite (proj2 (Z.ltb_lt j 64)), andb_true_r by lia.
      case_bool_decide; case_decide; try done; [apply andb_false_r|apply andb_true_r]. }
  eexists. split; [done|]. repeat split.
  - apply Forall_insert; [done|]. subst b'. unfold in_u in *. destruct v.
    + split; [apply Z.lor_nonneg; lia|].
      destruct (decide (Z.lor b (Z.shiftl 1 pos) = 0)) as [->|]; [lia|].
      apply Z.log2_lt_pow2; [pose proof (proj2 (Z.lor_nonneg b (Z.shiftl 1 pos))); lia|].
      rewrite Z.log2_lor by lia. apply Z.max_lub_lt.
      * destruct (decide (b = 0)) as [->|]; [done|]. apply Z.log2_lt_pow2; lia.
      * rewrite Z.shiftl_1_l, Z.log2_pow2; lia.
    + assert (0 ≤ not_u64 (Z.shiftl 1 pos)) by (unfold not_u64, u64_MAX; lia).
      split; [apply Z.land_nonneg; lia|].
      destruct (decide (Z.land b (not_u64 (Z.shiftl 1 pos)) = 0)) as [->|]; [lia|].
      destruct (decide (b = 0)) as [->|]; [by rewrite Z.land_0_l|].
      apply Z.log2_lt_pow2; [pose proof (proj2 (Z.land_nonneg b (not_u64 (Z.shiftl 1 pos)))); lia|].
      eapply Z.le_lt_trans; [apply Z.log2_land; lia|]. eapply Z.le_lt_trans; [apply Z.le_min_l|].
      apply Z.log2_lt_pow2; lia.
  - unfold len in *. by rewrite length_insert.
  - by rewrite length_insert.
  - intros j Hj. unfold bit. destruct (decide (j / BITS = i / BITS)) as [He|He].
    + rewrite He, list_lookup_insert_eq by (by apply lookup_lt_Some in Hb). simpl.
      rewrite Hb' by apply pos_range. rewrite Hb. simpl.
      destruct (decide (j mod BITS = pos)), (decide (j = i)); subst; try done.
      exfalso. apply n. rewrite (Z.div_mod j BITS), (Z.div_mod i BITS), He by done.
      subst pos. lia.
    + rewrite list_lookup_insert_ne.
      * by rewrite decide_False by congruence.
      * pose proof (Z.div_pos j BITS Hj ltac:(done)). pose proof (Z.div_pos i BITS). unfold BITS in *. lia.
Qed.

Lemma bit_replicate n i : bit (replicate n 0) i = false.
Proof.
  unfold bit. destruct (replicate n 0 !! Z.to_nat (i / BITS)) as [b|] eqn:Hb; simpl.
  - apply lookup_replicate in Hb as [-> _]. apply Z.bits_0.
  - apply Z.bits_0.
Qed.

Lemma blocks_ok_replicate n : Z.of_nat n ≤ u16_MAX → blocks_ok (replicate n 0).
Proof.
  intros. split; [|unfold len; by rewrite length_replicate].
  apply Forall_replicate. unfold in_u. lia.
Qed.

(** ** Iteration *)

(** Clearing the lowest set bit. *)
Lemma clear_lowest b t j :
  0 ≤ b < 2 ^ 64 → 0 ≤ t → Z.testbit b t = true → (∀ i, 0 ≤ i < t → Z.testbit b i = false) →
  0 ≤ j → Z.testbit (Z.land b (wrapping_sub b 1)) j = Z.testbit b j && negb (j =? t).
Proof.
  intros Hb Ht Hbt Hlow Hj.
  assert (Hge : 2 ^ t ≤ b).
  { destruct (Z.lt_ge_cases b (2 ^ t)); [|done]. destruct (decide (b = 0)) as [->|].
    - by rewrite Z.bits_0 in Hbt.
    - rewrite Z.bits_above_log2 in Hbt; [done|lia|]. apply Z.log2_lt_pow2; lia. }
  assert (Hd : b - 2 ^ t = Z.ldiff b (2 ^ t)).
  { apply Z.sub_nocarry_ldiff. apply Z.bits_inj'. intros i Hi.
    rewrite Z.ldiff_spec, Z.pow2_bits_eqb, Z.bits_0 by done.
    destruct (Z.eqb_spec t i); [subst; by rewrite Hbt|done]. }
  assert (He : b - 1 = Z.lxor (Z.ldiff b (2 ^ t)) (Z.ones t)).
  { rewrite <-Z.add_nocarry_lxor.
    - rewrite <-Hd, Z.ones_equiv. lia.
    - apply Z.bits_inj'. intros i Hi.
      rewrite Z.land_spec, Z.ldiff_spec, testbit_ones, Z.bits_0 by done.
      destruct (Z.ltb_spec i t); [by rewrite Hlow by lia|by rewrite !andb_false_r]. }
  unfold wrapping_sub, wrap_u. rewrite Z.mod_small by lia.
  rewrite Z.land_spec, He, Z.lxor_spec, Z.ldiff_spec, Z.pow2_bits_eqb, testbit_ones by done.
  destruct (Z.testbit b j) eqn:Hbj; [|done]. simpl.
  destruct (Z.lt_ge_cases j t); [rewrite Hlow in Hbj by lia; done|].
  rewrite (proj2 (Z.ltb_ge j t)) by lia. rewrite andb_false_r, xorb_false_r. by rewrite Z.eqb_sym.
Qed.

Lemma trailing_zeros_from_spec n i b :
  0 ≤ i →
  let t := trailing_zeros_from n i b in
  i ≤ t ≤ i + Z.of_nat n ∧ (∀ j, i ≤ j < t → Z.testbit b j = false) ∧
  (t < i + Z.of_nat n → Z.testbit b t = true).
Proof.
  revert i. induction n as [|n IH]; intros i Hi; simpl.
  - repeat split; intros; lia.
  - destruct (Z.testbit b i) eqn:Hb.
    + repeat split; intros; try lia. done.
    + destruct (IH (i + 1) ltac:(lia)) as (H1 & H2 & H3). repeat split; try lia.
      * intros j Hj. destruct (decide (j = i)) as [->|]; [done|]. apply H2. lia.
      * intros Hl. apply H3. lia.
Qed.

Lemma filter_seqZ_split (P : Z → Prop) `{∀ i, Decision (P i)} a t n :
  a ≤ t < a + n → P t → (∀ i, a ≤ i < t → ¬ P i) →
  filter P (seqZ a n) = t :: filter (λ i, P i ∧ i ≠ t) (seqZ a n).
Proof.
  intros Ht HP Hlow.
  replace n with ((t - a) + (1 + (n - (t - a) - 1))) by lia.
  rewrite !seqZ_app by lia. replace (a + (t - a)) with t by lia.
  rewrite !filter_app. rewrite (filter_none P (seqZ a (t - a))).
  2: { apply Forall_forall. intros i Hi. apply elem_of_seqZ in Hi. apply Hlow. lia. }
  rewrite (filter_none (λ i, P i ∧ i ≠ t) (seqZ a (t - a))).
  2: { apply Forall_forall. intros i Hi. apply elem_of_seqZ in Hi.
       intros [? _]. by apply (Hlow i); [lia|]. }
  change (seqZ t 1) with [t]. rewrite filter_cons_True by done.
  rewrite filter_cons_False by tauto. simpl. f_equal.
  apply filter_ext_elem. intros i Hi. apply elem_of_seqZ in Hi. split; [|tauto].
  intros; split; [done|lia].
Qed.

Lemma seqZ_sorted a n : StronglySorted Z.lt (seqZ a n).
Proof.
  destruct (decide (0 ≤ n)) as [Hn|Hn]; [|rewrite seqZ_nil by lia; constructor].
  revert a. pattern n. apply natlike_ind; [| |done].
  - intros a. rewrite seqZ_nil by lia. constructor.
  - clear. intros n Hn IH a. rewrite seqZ_cons by lia. constructor.
    + rewrite Z.pred_succ. apply IH.
    + apply Forall_forall. intros x Hx%elem_of_seqZ. lia.
Qed.

Lemma StronglySorted_filter {A} (R : A → A → Prop) (P : A → Prop) `{∀ x, Decision (P x)} l :
  StronglySorted R l → StronglySorted R (filter P l).
Proof.
  induction 1 as [|x l _ IH Hx]; [constructor|]. rewrite filter_cons. case_decide; [|done].
  constructor; [done|]. apply Forall_forall. intros y [_ Hy]%list_elem_of_filter. by apply (Forall_forall (R x) l).
Qed.

(** The indices of the set bits of block [k], and of a list of blocks from
    block [k] on. *)
Definition block_list (k b : Z) : list Z :=
  filter (λ i, Z.testbit b (i - 64 * k) = true) (seqZ (64 * k) 64).
Fixpoint blocks_list (k : Z) (bs : list Z) : list Z :=
  match bs with [] => [] | b :: bs => block_list k b ++ blocks_list (k + 1) bs end.

Definition iter_list (it : IterSet) : list Z :=
  blocks_list (it_block_idx it) (it_curr it :: it_inner it).
Definition iter_ok (it : IterSet) : Prop :=
  in_u 64 (it_curr it) ∧ Forall (in_u 64) (it_inner it) ∧ 0 ≤ it_block_idx it ∧
  it_block_idx it + len (it_inner it) ≤ u16_MAX.

Lemma block_list_empty k b : trailing_zeros b = 64 → block_list k b = [].
Proof.
  intros Ht. destruct (trailing_zeros_from_spec 64 0 b ltac:(lia)) as (_ & Hlow & _).
  fold (trailing_zeros b) in Hlow. rewrite Ht in Hlow.
  apply filter_none, Forall_forall. intros i Hi. apply elem_of_seqZ in Hi.
  rewrite Hlow by lia. done.
Qed.

Lemma block_list_next k b :
  in_u 64 b → trailing_zeros b < 64 →
  block_list k b = k * 64 + trailing_zeros b :: block_list k (Z.land b (wrapping_sub b 1)) ∧
  in_u 64 (Z.land b (wrapping_sub b 1)) ∧ 0 ≤ trailing_zeros b.
Proof.
  intros Hb Ht. destruct (trailing_zeros_from_spec 64 0 b ltac:(lia)) as (Ht0 & Hlow & Hbt).
  fold (trailing_zeros b) in *. set (t := trailing_zeros b) in *.
  specialize (Hbt ltac:(lia)). split; [|split; [|lia]].
  - unfold block_list. rewrite (filter_seqZ_split _ _ (k * 64 + t)).
    + f_equal. apply filter_ext_elem. intros i Hi. apply elem_of_seqZ in Hi.
      rewrite (clear_lowest b t) by (done || lia || (intros; apply Hlow; lia)).
      rewrite andb_true_iff, negb_true_iff, Z.eqb_neq. split; intros [? ?]; split; lia || done.
    + lia.
    + by replace (k * 64 + t - 64 * k) with t by lia.
    + intros i Hi. rewrite Hlow by lia. done.
  - unfold in_u in *. split; [apply Z.land_nonneg; lia|].
    destruct (decide (b = 0)) as [->|]; [by rewrite Z.land_0_l|].
    set (x := Z.land _ _). destruct (decide (x = 0)) as [->|]; [lia|].
    assert (0 ≤ x) by (apply Z.land_nonneg; lia).
    apply Z.log2_lt_pow2; [lia|]. eapply Z.le_lt_trans.
    + apply Z.log2_land; [lia|]. apply Z.mod_pos_bound. lia.
    + eapply Z.le_lt_trans; [apply Z.le_min_l|]. apply Z.log2_lt_pow2; lia.
Qed.

Lemma iter_set_next_loop_spec {E} inner curr k :
  iter_ok {| it_inner := inner; it_curr := curr; it_block_idx := k |} →
  match iter_list {| it_inner := inner; it_curr := curr; it_block_idx := k |} with
  | [] => ∃ it, iter_set_next_loop (E:=E) inner curr k = Ok (None, it)
  | i :: rest => ∃ it, iter_set_next_loop (E:=E) inner curr k = Ok (Some i, it) ∧
      iter_ok it ∧ iter_list it = rest
  end.
Proof.
  revert curr k. induction inner as [|b inner IH]; intros curr k Hok;
    pose proof Hok as (Hc & Hi & Hk & Hl); simpl in Hc, Hi, Hk, Hl;
    unfold len, u16_MAX in Hl; unfold iter_list; simpl.
  all: destruct (Z.ltb_spec (trailing_zeros curr) BITS) as [Ht|Ht].
  1, 3: destruct (block_list_next k curr Hc Ht) as (-> & Hc' & Ht0);
    simpl in Hl; rewrite mul_u_Ok by (unfold BITS; lia); simpl;
    rewrite add_u_Ok by (unfold BITS in *; lia); eexists;
    (split; [done|]); (split; [|done]); repeat split; simpl; unfold in_u, u16_MAX, len in *;
    try done; simpl; lia.
  all: destruct (trailing_zeros_from_spec 64 0 curr ltac:(lia)) as (Ht' & _);
    fold (trailing_zeros curr) in Ht'; rewrite block_list_empty by (unfold BITS in Ht; lia).
  - by eexists.
  - simpl in Hl. rewrite add_u_Ok by lia. simpl. apply Forall_cons in Hi as [Hb Hi].
    apply (IH b (k + 1)). repeat split; simpl; unfold len, u16_MAX; try done; try apply Hb; lia.
Qed.

(** The iterator yields the set bits of its blocks and ends. *)
Lemma iter_set_collect_spec {E} it fuel :
  iter_ok it → (length (iter_list it) < fuel)%nat →
  iter_set_collect (E:=E) fuel it = Ok (iter_list it).
Proof.
  revert it. induction fuel as [|fuel IH]; intros it Hok Hf; [lia|]. simpl.
  unfold iter_set_next. destruct it as [inner curr k]; simpl.
  pose proof (iter_set_next_loop_spec (E:=E) inner curr k Hok) as Hn.
  destruct (iter_list _) as [|i rest] eqn:He.
  - destruct Hn as [it ->]. done.
  - destruct Hn as (it & -> & Hok' & Hr). simpl in *.
    rewrite IH by (done || (rewrite Hr; lia)). by rewrite Hr.
Qed.

Lemma blocks_list_bits s k :
  blocks_list k s =
    filter (λ i, Z.testbit (default 0 (s !! Z.to_nat (i / 64 - k))) (i mod 64) = true)
      (seqZ (64 * k) (64 * len s)).
Proof.
  revert k. induction s as [|b s IH]; intros k; [done|].
  simpl blocks_list. replace (64 * len (b :: s)) with (64 + 64 * len s) by (unfold len; simpl; lia).
  rewrite seqZ_app by (unfold len; lia). rewrite filter_app. f_equal.
  - apply filter_ext_elem. intros i Hi. apply elem_of_seqZ in Hi.
    assert (i / 64 = k) as Hd by (symmetry; apply (Z.div_unique _ _ _ (i - 64 * k)); lia).
    rewrite Hd, Z.sub_diag. simpl. rewrite Z.mod_eq, Hd by lia. done.
  - rewrite IH. replace (64 * (k + 1)) with (64 * k + 64) by lia.
    apply filter_ext_elem. intros i Hi. apply elem_of_seqZ in Hi.
    assert (k + 1 ≤ i / 64) by (apply Z.div_le_lower_bound; lia).
    replace (Z.to_nat (i / 64 - k)) with (S (Z.to_nat (i / 64 - (k + 1)))) by lia. done.
Qed.

Lemma bits_from_0 s : blocks_list 0 s = bits_from s 0.
Proof.
  rewrite blocks_list_bits. unfold bits_from, true_from, bit, bitset_bits, BITS.
  rewrite Z2Nat.id by (unfold len; lia). replace (len s * 64 - 0) with (64 * len s) by lia.
  apply filter_ext_elem. intros i _. by rewrite Z.sub_0_r.
Qed.

Lemma length_bits_from s i : 0 ≤ i → (length (bits_from s i) ≤ Z.to_nat (bitset_bits s))%nat.
Proof.
  intros. unfold bits_from, true_from. etrans; [apply length_filter|].
  rewrite length_seqZ. lia.
Qed.

Lemma elem_of_bits_from s i j :
  0 ≤ i → j ∈ bits_from s i ↔ i ≤ j ∧ bit s j = true.
Proof.
  intros. unfold bits_from, true_from. rewrite list_elem_of_filter, elem_of_seqZ. split.
  - intros [? ?]. split; [lia|done].
  - intros [? Hb]. split; [done|]. destruct (Z.lt_ge_cases j (bitset_bits s)); [lia|].
    by rewrite bit_out in Hb.
Qed.

Lemma sorted_bits_from s i : StronglySorted Z.lt (bits_from s i).
Proof.
  unfold bits_from, true_from, seqZ. generalize (Z.to_nat (Z.of_nat (Z.to_nat (bitset_bits s - i)))).
  intros n. assert (StronglySorted Z.lt ((λ k : nat, Z.add (Z.of_nat k) i) <$> seq 0 n)) as Hs.
  { generalize 0%nat. induction n as [|n IH]; intros m; simpl; [constructor|].
    constructor; [apply IH|]. apply Forall_forall. intros z Hz.
    apply list_elem_of_fmap in Hz as (k & -> & Hk). apply elem_of_seq in Hk. lia. }
  revert Hs. generalize ((λ k : nat, Z.add (Z.of_nat k) i) <$> seq 0 n). intros l.
  induction 1 as [|x l Hl IH Hx]; [constructor|]. rewrite filter_cons. case_decide; [|done].
  constructor; [done|]. rewrite Forall_forall in *. intros y Hy.
  apply list_elem_of_filter in Hy as [_ Hy]. by apply Hx.
Qed.

Lemma iter_set_ok s : blocks_ok s → iter_ok (iter_set s) ∧ iter_list (iter_set s) = bits_from s 0.
Proof.
  intros [Hs Hl]. rewrite <-bits_from_0. unfold iter_list, iter_ok, iter_set.
  destruct s as [|b s]; simpl.
  - repeat split; simpl; try lia; try constructor; vm_compute; discriminate.
  - apply Forall_cons in Hs as [[? ?] ?]. repeat split; simpl; try done.
    unfold len in *. simpl in Hl. lia.
Qed.

(** The mask that clears the bits before [pos]. *)
Lemma testbit_preceding_mask b pos j :
  0 ≤ pos < 64 → 0 ≤ j < 64 →
  Z.testbit (Z.land b (wrapping_sub 0 (Z.shiftl 1 pos))) j = Z.testbit b j && (pos <=? j).
Proof.
  intros Hp Hj. rewrite Z.land_spec. f_equal. unfold wrapping_sub, wrap_u.
  rewrite Z.mod_pow2_bits_low by lia. rewrite Z.shiftl_1_l.
  replace (0 - 2 ^ pos) with (Z.lnot (Z.ones pos)) by (unfold Z.lnot; rewrite Z.ones_equiv; lia).
  rewrite Z.lnot_spec, testbit_ones by lia.
  destruct (Z.leb_spec pos j), (Z.ltb_spec j pos); simpl; try lia;
    by rewrite ?andb_false_r, ?(proj2 (Z.leb_le 0 j)).
Qed.

Lemma iter_set_from_ok {E} s i :
  blocks_ok s → 0 ≤ i ≤ bitset_bits s →
  ∃ it, iter_set_from (E:=E) s i = Ok it ∧ iter_ok it ∧ iter_list it = bits_from s i.
Proof.
  intros [Hs Hl] Hi. unfold iter_set_from, idx_to_pos.
  set (k := i / BITS). set (pos := i mod BITS).
  assert (Hik : i = 64 * k + pos) by (apply (Z.div_mod i BITS); done).
  pose proof (pos_range i) as Hpos. fold pos in Hpos.
  assert (Hk : 0 ≤ k ≤ len s).
  { unfold bitset_bits, BITS in Hi. split; [apply Z.div_pos; unfold BITS; lia|].
    apply Z.div_le_upper_bound; unfold BITS; lia. }
  rewrite (proj2 (Z.leb_le k (len s))) by lia. eexists. split; [done|].
  unfold u16_MAX in Hl. rewrite wrap_u_id by (unfold in_u; lia).
  assert (Hb0 : ∀ i', (len s * 64 - i' ≤ 0) → bits_from s i' = []).
  { intros i' ?. unfold bits_from, true_from, bitset_bits, BITS.
    by replace (Z.to_nat (len s * 64 - i')) with 0%nat by lia. }
  destruct (drop (Z.to_nat k) s) as [|b r] eqn:Hd; simpl.
  - assert (len s ≤ k).
    { apply (f_equal length) in Hd. rewrite length_drop in Hd. unfold len in *. simpl in Hd. lia. }
    rewrite Hb0 by lia. split; [|unfold iter_list; simpl; by rewrite Z.land_0_l, block_list_empty].
    repeat split; simpl; try done; unfold u16_MAX, len in *; simpl; lia.
  - assert (Hbr : Forall (in_u 64) (b :: r)) by (rewrite <-Hd; by apply Forall_drop).
    apply Forall_cons in Hbr as [Hb Hr].
    assert (Hlen : len s = k + 1 + len r).
    { apply (f_equal length) in Hd. rewrite length_drop in Hd. unfold len in *. simpl in Hd. lia. }
    split.
    + repeat split; simpl; try done; try (unfold u16_MAX; lia).
      * apply Z.land_nonneg. destruct Hb. lia.
      * rewrite Z.land_comm. set (m := wrapping_sub _ _).
        assert (in_u 64 m) as [? ?] by (apply wrap_u_range; lia). destruct Hb.
        destruct (decide (Z.land m b = 0)) as [->|]; [lia|].
        assert (0 ≤ Z.land m b) by (apply Z.land_nonneg; lia).
        destruct (decide (m = 0)) as [->|]; [by rewrite Z.land_0_l in *|].
        apply Z.log2_lt_pow2; [lia|]. eapply Z.le_lt_trans; [apply Z.log2_land; lia|].
        eapply Z.le_lt_trans; [apply Z.le_min_l|]. apply Z.log2_lt_pow2; lia.
    + unfold iter_list. simpl. rewrite blocks_list_bits.
      assert (block_list k (Z.land b (wrapping_sub 0 (Z.shiftl 1 pos))) =
        filter (λ j, bit s j = true) (seqZ i (64 - pos))) as ->.
      { unfold block_list. replace 64 with (pos + (64 - pos)) at 2 by lia.
        rewrite seqZ_app, filter_app by lia. rewrite filter_none.
        2: { apply Forall_forall. intros j Hj. apply elem_of_seqZ in Hj.
             rewrite testbit_preceding_mask, (proj2 (Z.leb_gt pos (j - 64 * k))) by lia.
             by rewrite andb_false_r. }
        simpl. rewrite <-Hik. apply filter_ext_elem. intros j Hj. apply elem_of_seqZ in Hj.
        rewrite testbit_preceding_mask, (proj2 (Z.leb_le pos (j - 64 * k))), andb_true_r by lia.
        unfold bit, BITS. assert (j / 64 = k) as Hj64.
        { symmetry. apply (Z.div_unique _ _ _ (j - 64 * k)); lia. }
        rewrite Hj64, Z.mod_eq, Hj64 by lia.
        assert (s !! Z.to_nat k = Some b) as ->; [|done].
        rewrite <-(Nat.add_0_r (Z.to_nat k)), <-lookup_drop, Hd. done. }
      unfold bits_from, true_from, bitset_bits, BITS.
      pose proof (len_nonneg r). rewrite Z2Nat.id by lia.
      replace (len s * 64 - i) with ((64 - pos) + 64 * len r) by lia.
      rewrite seqZ_app, filter_app by lia. f_equal.
      replace (i + (64 - pos)) with (64 * (k + 1)) by lia.
      apply filter_ext_elem. intros j Hj. apply elem_of_seqZ in Hj.
      unfold bit, BITS. assert (k + 1 ≤ j / 64) by (apply Z.div_le_lower_bound; lia).
      replace (Z.to_nat (j / 64)) with (Z.to_nat k + S (Z.to_nat (j / 64 - (k + 1))))%nat by lia.
      rewrite <-lookup_drop, Hd. done.
Qed.

(** Iterating over a bit set from index [i] ends after at most one round
    more than there are bits, and yields exactly the indices not below [i] of
    the bits that are set, in ascending order and each once; from the start
    it yields all of them. *)
Theorem iter_set_correct s i fuel :
  blocks_ok s → 0 ≤ i ≤ bitset_bits s → (Z.to_nat (bitset_bits s) < fuel)%nat →
  ∃ it l l0,
    iter_set_from (E:=unit) s i = Ok it ∧ iter_set_collect (E:=unit) fuel it = Ok l ∧
    iter_set_collect (E:=unit) fuel (iter_set s) = Ok l0 ∧
    StronglySorted Z.lt l ∧ StronglySorted Z.lt l0 ∧
    (∀ j, j ∈ l ↔ i ≤ j < bitset_bits s ∧ bitset_get (E:=unit) s j = Ok true) ∧
    (∀ j, j ∈ l0 ↔ 0 ≤ j < bitset_bits s ∧ bitset_get (E:=unit) s j = Ok true).
Proof.
  intros Hs Hi Hf. destruct (iter_set_from_ok (E:=unit) s i Hs Hi) as (it & Hit & Hok & Hl).
  destruct (iter_set_ok s Hs) as (Hok0 & Hl0).
  pose proof (length_bits_from s i). pose proof (length_bits_from s 0).
  exists it, (bits_from s i), (bits_from s 0). split; [done|].
  assert (Hm : ∀ a j, 0 ≤ a →
    j ∈ bits_from s a ↔ a ≤ j < bitset_bits s ∧ bitset_get (E:=unit) s j = Ok true).
  { intros a j Ha. rewrite elem_of_bits_from by done. split.
    - intros [Haj Hb]. destruct (Z.lt_ge_cases j (bitset_bits s)).
      + rewrite bitset_get_bit by lia. by rewrite Hb.
      + by rewrite bit_out in Hb.
    - intros [Haj Hb]. rewrite bitset_get_bit in Hb by lia. injection Hb. intros. split; [lia|done]. }
  split_and!; try apply sorted_bits_from; try (intros j; apply Hm; lia).
  - rewrite <-Hl. apply iter_set_collect_spec; [done|]. rewrite Hl. lia.
  - rewrite <-Hl0. apply iter_set_collect_spec; [done|]. rewrite Hl0. lia.
Qed.

Lemma iter_set_correct_witness :
  ∃ it l, iter_set_from (E:=unit) [9223372036854775813; 0; 4] 1 = Ok it ∧
    iter_set_collect (E:=unit) 200 it = Ok l ∧ l = [2; 63; 130].
Proof.
  edestruct (iter_set_correct [9223372036854775813; 0; 4] 1 200) as (it & l & l0 & H1 & H2 & _).
  - split; [repeat constructor; unfold in_u; lia|]. vm_compute. discriminate.
  - split; [lia|vm_compute; discriminate].
  - vm_compute. lia.
  - exists it, l. split; [exact H1|]. split; [exact H2|].
    injection H1 as H1. rewrite <-H1 in H2. vm_compute in H2. by injection H2.
Defined.
