(* ===== verification/VarLen.v ===== *)
(** * Var-len objects (crates/table/src/var_len.rs)

    References to var-len objects, the header word of a granule, how many
    granules an object takes, and the interface of the visitors that find the
    references in a row. *)

From Stdlib Require Import ZArith Lia.
From S2P Require Import Prelude Mem Indexes.
Local Open Scope Z_scope.
Local Open Scope result_scope.

(** ** References *)

Record VarLenRef := { length_in_bytes : Z; first_granule : Z }.

#[export] Instance VarLenRef_eq_dec : EqDecision VarLenRef.
Proof. solve_decision. Defined.

Definition LARGE_BLOB_SENTINEL : Z := u16_MAX.
Definition is_large_blob (r : VarLenRef) : bool := length_in_bytes r =? LARGE_BLOB_SENTINEL.
Definition large_blob (first_granule : Z) : VarLenRef :=
  {| length_in_bytes := LARGE_BLOB_SENTINEL; first_granule := first_granule |}.
Definition vlr_is_null (r : VarLenRef) : bool := is_var_len_null (first_granule r).
Definition vlr_NULL : VarLenRef := {| length_in_bytes := 0; first_granule := VAR_LEN_NULL |}.

(** The four bytes of a reference, and the reference at an offset. *)
Definition vlr_bytes (r : VarLenRef) : list byte :=
  le_bytes 2 (length_in_bytes r) ++ le_bytes 2 (first_granule r).
Definition peek_vlr (l : list byte) (a : Z) : VarLenRef :=
  {| length_in_bytes := peek_u16 l a; first_granule := peek_u16 l (a + 2) |}.

(** ** Granule headers: six bits of length, ten of the next offset *)

Definition not_u16 (x : Z) : Z := u16_MAX - x.

Definition GRANULE_HEADER_SIZE : Z := 2.
Definition LEN_BITS : Z := 6.
Definition LEN_BITMASK : Z := Z.shiftl 1 LEN_BITS - 1.
Definition NEXT_BITMASK : Z := not_u16 LEN_BITMASK.

Definition is_granule_offset_aligned (offset : Z) : bool :=
  offset =? Z.land offset NEXT_BITMASK.

(** [VarLenGranuleHeader::len] and [VarLenGranuleHeader::next]. *)
Definition header_len (h : Z) : Z := wrap_u 8 (Z.land h LEN_BITMASK).
Definition header_next (h : Z) : Z := Z.land h NEXT_BITMASK.

(** [with_len], [with_next]: their assertions panic. *)
Definition with_len {E} (h l : Z) : result E Z :=
  let capped_len := Z.land l LEN_BITMASK in
  if capped_len =? l then
    let new := Z.lor (Z.land h (not_u16 LEN_BITMASK)) capped_len in
    if (header_next h =? header_next new) && (header_len new =? capped_len) then Ok new else Panic
  else Panic.

Definition with_next {E} (h next : Z) : result E Z :=
  let aligned_next := Z.land next NEXT_BITMASK in
  if aligned_next =? next then
    let new := Z.lor (Z.land h (not_u16 NEXT_BITMASK)) aligned_next in
    if (header_len h =? header_len new) && (header_next new =? aligned_next) then Ok new else Panic
  else Panic.

Definition header_new {E} (l next : Z) : result E Z :=
  let* h := with_len 0 l in with_next h next.

(** ** Granules *)

(** [VarLenGranule::SIZE] and the other constants. *)
Definition GRANULE_SIZE : Z := 64.
Definition DATA_SIZE : Z := GRANULE_SIZE - GRANULE_HEADER_SIZE.
Definition OBJECT_MAX_GRANULES_BEFORE_BLOB : Z := 16.
Definition OBJECT_SIZE_BLOB_THRESHOLD : Z := DATA_SIZE * OBJECT_MAX_GRANULES_BEFORE_BLOB.

Definition space_to_granules (available_len : Z) : Z := available_len / GRANULE_SIZE.

Definition bytes_to_granules (len_in_bytes : Z) : Z * bool :=
  if OBJECT_SIZE_BLOB_THRESHOLD <? len_in_bytes then (1, true)
  else (div_ceil len_in_bytes DATA_SIZE, false).

(** [VarLenRef::granules_used]. *)
Definition granules_used (r : VarLenRef) : Z := (bytes_to_granules (length_in_bytes r)).1.

(** [slice::chunks]. *)
Fixpoint chunks_of (fuel n : nat) (l : list byte) : list (list byte) :=
  match fuel, l with
  | S fuel, _ :: _ => take n l :: chunks_of fuel n (drop n l)
  | _, _ => []
  end.
Definition chunks (bytes : list byte) : list (list byte) :=
  chunks_of (length bytes) (Z.to_nat DATA_SIZE) bytes.

(** The header of the granule [g], a slice of 64 bytes, and the data of it
    that is in use. *)
Definition granule_header (g : list byte) : Z := peek_u16 g 0.
Definition granule_data {E} (g : list byte) : result E (list byte) :=
  slice (peek g GRANULE_HEADER_SIZE DATA_SIZE) 0 (header_len (granule_header g)).

(** ** Visitors *)

(** [VarLenMembers]: an iterator over the offsets in a row of its var-len
    references.  The iterator reads the row as it is when it is advanced, as
    the mutable iterator does between writes to the references. *)
Class VarLenMembers (V : Type) := {
  vit : Type;
  vit_start : V → vit;
  vit_next : V → vit → list byte → result unit (option Z * vit);
}.

Section visits.
Context {V : Type} `{!VarLenMembers V}.

(** On the rows of [R] alike, the iterator yields the offsets and ends. *)
Inductive visits (v : V) (R : list byte → Prop) : vit → list Z → Prop :=
| visits_nil it :
    (∀ row, R row → ∃ it', vit_next v it row = Ok (None, it')) → visits v R it []
| visits_cons it o it' offs :
    (∀ row, R row → vit_next v it row = Ok (Some o, it')) → visits v R it' offs →
    visits v R it (o :: offs).

Lemma visits_mono (v : V) (R R' : list byte → Prop) it offs :
  (∀ row, R' row → R row) → visits v R it offs → visits v R' it offs.
Proof. intros HR. induction 1; econstructor; eauto. Qed.
End visits.

(** [AlignedVarLenOffsets]: the state of the iterator is [next_offset_idx]. *)
Record AlignedVarLenOffsets := { from_offsets : list Z }.

Definition aligned_next (self : AlignedVarLenOffsets) (next_offset_idx : nat) :
    option Z * nat :=
  if (length (from_offsets self) <=? next_offset_idx)%nat then (None, next_offset_idx)
  else
    let curr_offset_idx := next_offset_idx in
    let next_offset_idx := S next_offset_idx in
    (Some (Z.of_nat curr_offset_idx * 2), next_offset_idx).

#[export] Instance aligned_members : VarLenMembers AlignedVarLenOffsets := {
  vit := nat;
  vit_start _ := 0%nat;
  vit_next v it _ := Ok (aligned_next v it);
}.

(** [NullVarLenVisitor]. *)
Record NullVarLenVisitor := NullVisitor {}.

#[export] Instance null_members : VarLenMembers NullVarLenVisitor := {
  vit := unit;
  vit_start _ := tt;
  vit_next _ it _ := Ok (None, it);
}.

(** ** Lemmas *)

Lemma land_len_mask x : Z.land x LEN_BITMASK = x mod 64.
Proof. change LEN_BITMASK with (Z.ones 6). by rewrite Z.land_ones. Qed.

Lemma land_next_mask x : in_u 16 x → Z.land x NEXT_BITMASK = 64 * (x / 64).
Proof.
  intros [Hx1 Hx2]. change NEXT_BITMASK with (Z.shiftl (Z.ones 10) 6).
  replace (64 * (x / 64)) with (Z.shiftl (Z.shiftr x 6) 6)
    by (rewrite Z.shiftl_mul_pow2, Z.shiftr_div_pow2 by lia; change (2 ^ 6) with 64; lia).
  apply Z.bits_inj'. intros i Hi.
  rewrite Z.land_spec, !Z.shiftl_spec, testbit_ones by lia.
  destruct (Z.lt_ge_cases i 6).
  - rewrite !(Z.testbit_neg_r _ (i - 6)) by lia.
    rewrite (proj2 (Z.leb_gt 0 (i - 6))) by lia. by rewrite andb_false_r.
  - rewrite Z.shiftr_spec, Z.sub_add by lia. rewrite (proj2 (Z.leb_le 0 (i - 6))) by lia. simpl.
    destruct (Z.ltb_spec (i - 6) 10); [apply andb_true_r|]. rewrite andb_false_r.
    destruct (decide (x = 0)) as [->|]; [by rewrite Z.bits_0|].
    rewrite Z.bits_above_log2; [done..|]. apply Z.lt_le_trans with 16; [|lia].
    apply Z.log2_lt_pow2; lia.
Qed.

Lemma lor_low q l : 0 ≤ q → 0 ≤ l < 64 → Z.lor (64 * q) l = 64 * q + l.
Proof.
  intros. rewrite <-(Z.add_lor_land (64 * q) l).
  assert (Z.land (64 * q) l = 0) as ->; [|lia].
  replace l with (Z.land l (Z.ones 6)) by (rewrite Z.land_ones by lia; apply Z.mod_small; lia).
  rewrite Z.land_comm, <-Z.land_assoc, (Z.land_comm _ (64 * q)), Z.land_ones by lia.
  replace ((64 * q) mod 2 ^ 6) with 0; [apply Z.land_0_r|].
  change (2 ^ 6) with 64. symmetry. rewrite Z.mul_comm. apply Z.mod_mul. lia.
Qed.

(** The header packs an aligned offset and a length below 64 without loss. *)
Lemma header_new_ok {E} l next :
  0 ≤ l < 64 → in_u 16 next → next mod 64 = 0 →
  ∃ h, header_new (E:=E) l next = Ok h ∧ in_u 16 h ∧ header_len h = l ∧ header_next h = next.
Proof.
  intros Hl Hn Hm. pose proof (Z.div_mod next 64 ltac:(lia)) as Hdm. set (q := next / 64) in *.
  rewrite Hm, Z.add_0_r in Hdm. unfold in_u in *.
  assert (Hlm : ∀ k, 0 ≤ k → (64 * k + l) mod 64 = l).
  { intros. rewrite (Z.mul_comm 64), Z.add_comm, Z.mod_add by lia. apply Z.mod_small. lia. }
  assert (Hld : ∀ k, 0 ≤ k → (64 * k + l) / 64 = k).
  { intros. rewrite (Z.mul_comm 64), Z.add_comm, Z.div_add, Z.div_small by lia. lia. }
  assert (H0 : with_len (E:=E) 0 l = Ok l).
  { unfold with_len. rewrite land_len_mask, Z.mod_small by lia. rewrite Z.eqb_refl, Z.land_0_l, Z.lor_0_l.
    unfold header_next, header_len, wrap_u. rewrite !land_next_mask by (unfold in_u; lia).
    rewrite land_len_mask, (Z.div_small 0), (Z.div_small l), !(Z.mod_small l) by lia.
    by rewrite !Z.eqb_refl. }
  unfold header_new. rewrite H0. simpl. unfold with_next.
  rewrite land_next_mask by (unfold in_u; lia).
  fold q. rewrite <-Hdm, Z.eqb_refl.
  replace (not_u16 NEXT_BITMASK) with LEN_BITMASK by reflexivity.
  rewrite land_len_mask, (Z.mod_small l) by lia. rewrite Z.lor_comm, Hdm, lor_low by lia.
  unfold header_len, header_next, wrap_u. rewrite land_next_mask by (unfold in_u; lia).
  rewrite !land_len_mask, Hlm, Hld, !(Z.mod_small l) by lia. rewrite !Z.eqb_refl. simpl.
  eexists. split; [done|]. rewrite land_next_mask, land_len_mask, Hld, Hlm, Z.mod_small by (unfold in_u; lia).
  lia.
Qed.

(** *** Chunks *)

Lemma chunks_of_concat fuel n l :
  (0 < n)%nat → (length l ≤ fuel)%nat → concat (chunks_of fuel n l) = l.
Proof.
  intros Hn. revert l. induction fuel as [|fuel IH]; intros [|b l] Hl; simpl in *; try done; [lia|].
  rewrite IH by (rewrite length_drop; simpl; lia). apply take_drop.
Qed.

Lemma concat_chunks bs : concat (chunks bs) = bs.
Proof. apply chunks_of_concat; [vm_compute; lia|done]. Qed.

Lemma chunks_of_lengths fuel n l :
  (0 < n)%nat → Forall (λ c, 0 < length c ≤ n)%nat (chunks_of fuel n l).
Proof.
  intros Hn. revert l. induction fuel as [|fuel IH]; intros [|b l]; simpl; constructor; [|apply IH].
  rewrite length_take. simpl. lia.
Qed.

Lemma chunks_lengths bs : Forall (λ c, 0 < len c ≤ DATA_SIZE) (chunks bs).
Proof.
  eapply Forall_impl; [apply (chunks_of_lengths _ (Z.to_nat DATA_SIZE)); vm_compute; lia|].
  intros c Hc. cbv beta in *. change (Z.to_nat DATA_SIZE) with 62%nat in Hc. unfold len. change DATA_SIZE with 62. lia.
Qed.

Lemma div_ceil_step a b : 0 < b → 0 < a → div_ceil a b = 1 + div_ceil (Z.max 0 (a - b)) b.
Proof.
  intros. unfold div_ceil. destruct (Z.le_ge_cases a b).
  - rewrite Z.max_l by lia. rewrite (Z.div_small (0 + b - 1)) by lia.
    symmetry. apply (Z.div_unique _ _ _ (a - 1)); lia.
  - rewrite Z.max_r by lia. replace (a + b - 1) with (a - b + b - 1 + 1 * b) by lia.
    rewrite Z.div_add by lia. lia.
Qed.

Lemma chunks_of_length fuel n l :
  (0 < n)%nat → (length l ≤ fuel)%nat →
  Z.of_nat (length (chunks_of fuel n l)) = div_ceil (len l) (Z.of_nat n).
Proof.
  intros Hn. revert l. induction fuel as [|fuel IH]; intros [|b l] Hl; simpl in *; try lia.
  1, 2: unfold div_ceil, len; simpl; symmetry; apply Z.div_small; lia.
  rewrite Nat2Z.inj_succ, IH by (rewrite length_drop; simpl; lia).
  rewrite (div_ceil_step (len (b :: l))) by (unfold len; simpl; lia).
  unfold len. rewrite length_drop. simpl length. rewrite Z.add_1_l. do 2 f_equal. lia.
Qed.

Lemma length_chunks bs :
  len bs ≤ OBJECT_SIZE_BLOB_THRESHOLD →
  bytes_to_granules (len bs) = (Z.of_nat (length (chunks bs)), false).
Proof.
  intros. unfold bytes_to_granules, chunks.
  rewrite (proj2 (Z.ltb_ge _ _)) by done. f_equal.
  rewrite chunks_of_length by (done || (vm_compute; lia)). done.
Qed.

(** *** References in a row *)

Lemma len_vlr_bytes r : len (vlr_bytes r) = 4.
Proof. unfold vlr_bytes. rewrite len_app, !len_le_bytes. done. Qed.

Definition vlr_ok (r : VarLenRef) : Prop := in_u 16 (length_in_bytes r) ∧ in_u 16 (first_granule r).

Lemma peek_vlr_bytes l a r :
  0 ≤ a → peek l a 4 = vlr_bytes r → vlr_ok r → peek_vlr l a = r.
Proof.
  intros Ha Hp [H1 H2]. unfold peek_vlr.
  rewrite <-(Z.add_0_r a) at 1. rewrite <-!(peek_u16_peek l a 4) by lia. rewrite Hp.
  unfold vlr_bytes, peek_u16. rewrite peek_app_1, peek_app_2 by by rewrite len_le_bytes.
  rewrite !le_val_le_bytes. destruct r; simpl in *. f_equal; by apply Z.mod_small.
Qed.

Lemma peek_vlr_peek l a n b :
  0 ≤ a → 0 ≤ b → b + 4 ≤ n → peek_vlr (peek l a n) b = peek_vlr l (a + b).
Proof.
  intros. unfold peek_vlr. rewrite !peek_u16_peek by lia. by rewrite Z.add_assoc.
Qed.

(** The demonstration visitor ignores the offsets it is given: with [n]
    of them it visits the references at bytes 0, 2, 4, ..., [2 (n - 1)],
    where the references of any two neighbours overlap. *)
Theorem aligned_ignores_offsets (v : AlignedVarLenOffsets) (R : list byte → Prop) :
  visits v R (vit_start v)
    (map (λ i : nat, 2 * Z.of_nat i) (seq 0 (length (from_offsets v)))).
Proof.
  simpl. set (n := length (from_offsets v)).
  enough (∀ k m, n = (m + k)%nat →
    visits v R m (map (λ i : nat, 2 * Z.of_nat i) (seq m k))) as H by by apply (H n 0%nat).
  intros k. induction k as [|k IH]; intros m Hm; simpl.
  - apply visits_nil. intros row _. simpl. unfold aligned_next. fold n.
    rewrite (proj2 (Nat.leb_le n m)) by lia. by eexists.
  - eapply visits_cons with (it' := S m); [|apply IH; lia].
    intros row _. simpl. unfold aligned_next. fold n. rewrite (proj2 (Nat.leb_gt n m)) by lia.
    do 3 f_equal. lia.
Qed.
