(* ===== verification/BlobStore.v ===== *)
(** * The store of large blobs (crates/table/src/blob_store.rs)

    The interface [BlobStore] with its laws, and the two stores of the
    source.  The laws say that a store is a multiset of byte strings
    addressed by their hash; [HashMapBlobStore] is proved to obey them.  The
    hash function, BLAKE3 in the source, is a parameter of which only the
    length of its results is assumed. *)

From Stdlib Require Import ZArith Lia.
From stdpp Require Import gmap gmultiset.
From S2P Require Import Prelude Mem.
Local Open Scope Z_scope.

#[export] Instance byte_countable : Countable byte.
Proof.
  refine (inj_countable' (λ b, Z.to_N (byte_to_Z b)) (λ n, byte_of_Z (Z.of_N n)) _).
  intros b. pose proof (byte_to_Z_range b). rewrite Z2N.id by lia. apply byte_of_to_Z.
Defined.

(** [BlobHash::SIZE]. *)
Definition BLOB_HASH_SIZE : Z := 32.

(** [blake3::hash]: a digest of 32 bytes. *)
Class Blake3 := {
  blake3 : list byte → list byte;
  blake3_len : ∀ bytes, len (blake3 bytes) = BLOB_HASH_SIZE;
}.

(** [impl TryFrom<&[u8]> for BlobHash]. *)
Definition BlobHash_try_from (data : list byte) : result unit (list byte) :=
  if len data =? BLOB_HASH_SIZE then Ok data else Err tt.

Record NoSuchBlobError := NoSuchBlob {}.

(** [trait BlobStore].  [insert_blob] and [insert_with_uses] do not return
    errors. *)
Class BlobStore (B : Type) := {
  clone_blob : list byte → st B NoSuchBlobError unit;
  insert_blob : list byte → st B Empty_set (list byte);
  insert_with_uses : list byte → Z → list byte → st B Empty_set unit;
  retrieve_blob : B → list byte → result NoSuchBlobError (list byte);
  free_blob : list byte → st B NoSuchBlobError unit;
  iter_blobs : B → result Empty_set (list (list byte * Z * list byte));
}.

(** [bytes_used_by_blobs] and [num_blobs], provided by the trait. *)
Definition bytes_used_by_blobs `{!BlobStore B} (bs : B) : result Empty_set Z :=
  rmap (λ l, foldr Z.add 0 (map (λ '(_, uses, data), len data * uses) l)) (iter_blobs bs).
Definition num_blobs `{!BlobStore B} (bs : B) : result Empty_set Z :=
  rmap (λ l, foldr Z.add 0 (map (λ '(_, uses, _), uses) l)) (iter_blobs bs).

(** ** [NullBlobStore] *)

Record NullBlobStore := NullStore {}.

#[export] Instance null_blob_store : BlobStore NullBlobStore := {
  clone_blob _ := spanic;
  insert_blob _ := spanic;
  insert_with_uses _ _ _ := spanic;
  retrieve_blob _ _ := Panic;
  free_blob _ := spanic;
  iter_blobs _ := Panic;
}.

(** ** [HashMapBlobStore] *)

Record BlobObject := { uses : Z; blob : list byte }.

Abbreviation HashMapBlobStore := (gmap (list byte) BlobObject) (only parsing).

Definition add_uses (n : Z) (o : BlobObject) : BlobObject :=
  {| uses := uses o + n; blob := blob o |}.

Section hash_map.
Context {hash : Blake3}.
Implicit Types (h b : list byte) (s : HashMapBlobStore).

Definition hash_map_clone_blob h : st HashMapBlobStore NoSuchBlobError unit := λ s,
  match s !! h with
  | None => (Err NoSuchBlob, s)
  | Some o => (Ok tt, <[h := add_uses 1 o]> s)
  end.

Definition hash_map_insert_blob b : st HashMapBlobStore Empty_set (list byte) := λ s,
  let h := blake3 b in
  (Ok h, match s !! h with
         | Some o => <[h := add_uses 1 o]> s
         | None => <[h := {| uses := 1; blob := b |}]> s
         end).

Definition hash_map_insert_with_uses h (n : Z) b :
    st HashMapBlobStore Empty_set unit := λ s,
  if bool_decide (h = blake3 b) then
    (Ok tt, match s !! h with
            | Some o => <[h := add_uses n o]> s
            | None => <[h := {| uses := n; blob := b |}]> s
            end)
  else (Panic, s).

Definition hash_map_retrieve_blob s h : result NoSuchBlobError (list byte) :=
  match s !! h with Some o => Ok (blob o) | None => Err NoSuchBlob end.

Definition hash_map_free_blob h : st HashMapBlobStore NoSuchBlobError unit := λ s,
  match s !! h with
  | None => (Err NoSuchBlob, s)
  | Some o =>
      if uses o =? 1 then (Ok tt, delete h s)
      else match sub_u (E:=NoSuchBlobError) (uses o) 1 with
           | Ok n => (Ok tt, <[h := {| uses := n; blob := blob o |}]> s)
           | _ => (Panic, s)
           end
  end.

Definition hash_map_iter_blobs s : list (list byte * Z * list byte) :=
  map (λ '(h, o), (h, uses o, blob o)) (map_to_list s).

#[export] Instance hash_map_blob_store : BlobStore HashMapBlobStore := {
  clone_blob := hash_map_clone_blob;
  insert_blob := hash_map_insert_blob;
  insert_with_uses := hash_map_insert_with_uses;
  retrieve_blob := hash_map_retrieve_blob;
  free_blob := hash_map_free_blob;
  iter_blobs s := Ok (hash_map_iter_blobs s);
}.
End hash_map.

(** ** The contract of a blob store *)

(** No byte string of [m] other than [b] has the hash of [b]. *)
Definition no_collision `{!Blake3} (m : gmultiset (list byte)) (b : list byte) : Prop :=
  ∀ b', b' ∈ m → blake3 b' = blake3 b → b' = b.

(** [holds bs m]: the store holds the byte strings of [m], each with as many
    uses as it has occurrences. *)
Class BlobStoreLaws (B : Type) `{!BlobStore B, !Blake3} := {
  holds : B → gmultiset (list byte) → Prop;
  insert_blob_law bs m b :
    holds bs m → no_collision m b →
    ∃ bs', insert_blob b bs = (Ok (blake3 b), bs') ∧ holds bs' (m ⊎ {[+ b +]});
  insert_with_uses_law bs m b n :
    holds bs m → no_collision m b → (0 < n)%nat →
    ∃ bs', insert_with_uses (blake3 b) (Z.of_nat n) b bs = (Ok tt, bs') ∧
      holds bs' (m ⊎ n *: {[+ b +]});
  retrieve_blob_law bs m b :
    holds bs m → b ∈ m → retrieve_blob bs (blake3 b) = Ok b;
  retrieve_blob_absent bs m h :
    holds bs m → (∀ b, b ∈ m → blake3 b ≠ h) → retrieve_blob bs h = Err NoSuchBlob;
  clone_blob_law bs m b :
    holds bs m → b ∈ m →
    ∃ bs', clone_blob (blake3 b) bs = (Ok tt, bs') ∧ holds bs' (m ⊎ {[+ b +]});
  free_blob_law bs m b :
    holds bs m → b ∈ m →
    ∃ bs', free_blob (blake3 b) bs = (Ok tt, bs') ∧ holds bs' (m ∖ {[+ b +]});
  clone_blob_absent bs m h :
    holds bs m → (∀ b, b ∈ m → blake3 b ≠ h) → clone_blob h bs = (Err NoSuchBlob, bs);
  free_blob_absent bs m h :
    holds bs m → (∀ b, b ∈ m → blake3 b ≠ h) → free_blob h bs = (Err NoSuchBlob, bs);
  num_blobs_law bs m : holds bs m → num_blobs bs = Ok (Z.of_nat (size m));
  bytes_used_law bs m :
    holds bs m → bytes_used_by_blobs bs = Ok (foldr Z.add 0 (map len (elements m)));
}.

(** ** [HashMapBlobStore] obeys the contract *)

(** The multiset a list of entries stands for. *)
Definition entries_bag (l : list (list byte * BlobObject)) : gmultiset (list byte) :=
  foldr (λ '(_, o) acc, Z.to_nat (uses o) *: {[+ blob o +]} ⊎ acc) ∅ l.

Definition store_bag (s : HashMapBlobStore) : gmultiset (list byte) :=
  entries_bag (map_to_list s).

(** Every entry is under the hash of its blob and in use. *)
Definition store_ok `{!Blake3} (s : HashMapBlobStore) : Prop :=
  ∀ h o, s !! h = Some o → h = blake3 (blob o) ∧ 0 < uses o.

Lemma entries_bag_perm l1 l2 : l1 ≡ₚ l2 → entries_bag l1 = entries_bag l2.
Proof.
  induction 1 as [|[h o] l1 l2 _ IH|[h1 o1] [h2 o2] l|]; simpl; [done|by rewrite IH| |by etrans].
  multiset_solver.
Qed.

Lemma store_bag_insert_new s h o :
  s !! h = None → store_bag (<[h := o]> s) = Z.to_nat (uses o) *: {[+ blob o +]} ⊎ store_bag s.
Proof. intros Hs. unfold store_bag. by rewrite (entries_bag_perm _ _ (map_to_list_insert s h o Hs)). Qed.

Lemma store_bag_delete s h o :
  s !! h = Some o → store_bag s = Z.to_nat (uses o) *: {[+ blob o +]} ⊎ store_bag (delete h s).
Proof.
  intros Hs. rewrite <-(insert_delete_id s h o Hs) at 1.
  apply store_bag_insert_new, lookup_delete_eq.
Qed.

Lemma store_bag_update s h o o' :
  s !! h = Some o → 
  store_bag (<[h := o']> s) = Z.to_nat (uses o') *: {[+ blob o' +]} ⊎ store_bag (delete h s).
Proof.
  intros Hs. rewrite <-insert_delete_eq. apply store_bag_insert_new, lookup_delete_eq.
Qed.

Lemma elem_of_entries_bag l b :
  b ∈ entries_bag l → ∃ h o, (h, o) ∈ l ∧ blob o = b.
Proof.
  induction l as [|[h o] l IH]; simpl; [multiset_solver|].
  rewrite gmultiset_elem_of_disj_union, gmultiset_elem_of_scalar_mul, gmultiset_elem_of_singleton.
  intros [[_ ->]|Hb]; [exists h, o; split; [by left|done]|].
  destruct (IH Hb) as (h' & o' & ? & ?). exists h', o'. split; [by right|done].
Qed.

Lemma elem_of_store_bag `{!Blake3} s b :
  store_ok s → b ∈ store_bag s → ∃ o, s !! blake3 b = Some o ∧ blob o = b ∧ 0 < uses o.
Proof.
  intros Hok Hb. apply elem_of_entries_bag in Hb as (h & o & Hin & <-).
  apply elem_of_map_to_list in Hin. destruct (Hok h o Hin) as [-> ?]. eauto.
Qed.

Lemma lookup_store_bag `{!Blake3} s h o :
  store_ok s → s !! h = Some o → blob o ∈ store_bag s.
Proof.
  intros Hok Hs. rewrite (store_bag_delete s h o Hs). destruct (Hok h o Hs).
  rewrite gmultiset_elem_of_disj_union, gmultiset_elem_of_scalar_mul, gmultiset_elem_of_singleton.
  left. split; [lia|done].
Qed.

Lemma store_ok_insert `{!Blake3} s h o :
  store_ok s → h = blake3 (blob o) → 0 < uses o → store_ok (<[h := o]> s).
Proof.
  intros Hok Hh Ho h' o' [[<- <-]|[? ?]]%lookup_insert_Some; [done|by apply Hok].
Qed.

(** More uses of an entry, as the operations that add uses make them. *)
Lemma store_bag_add_uses `{!Blake3} s h o n :
  store_ok s → s !! h = Some o →
  store_ok (<[h := add_uses (Z.of_nat n) o]> s) ∧
  store_bag (<[h := add_uses (Z.of_nat n) o]> s) = store_bag s ⊎ n *: {[+ blob o +]}.
Proof.
  intros Hok Hs. destruct (Hok h o Hs) as [Hh Hu]. split.
  - apply store_ok_insert; simpl; [done..|]. lia.
  - rewrite (store_bag_update s h o) by done. rewrite (store_bag_delete s h o Hs). simpl.
    rewrite Z2Nat.inj_add, Nat2Z.id by lia. multiset_solver.
Qed.

Lemma store_bag_new `{!Blake3} s b n :
  store_ok s → s !! blake3 b = None → (0 < n)%nat →
  let s' := <[blake3 b := {| uses := Z.of_nat n; blob := b |}]> s in
  store_ok s' ∧ store_bag s' = store_bag s ⊎ n *: {[+ b +]}.
Proof.
  intros Hok Hs Hn. split.
  - apply store_ok_insert; simpl; [done..|]. lia.
  - rewrite store_bag_insert_new by done. simpl. rewrite Nat2Z.id. multiset_solver.
Qed.

Lemma store_bag_remove `{!Blake3} s h o :
  store_ok s → s !! h = Some o →
  ∃ s', hash_map_free_blob h s = (Ok tt, s') ∧ store_ok s' ∧ store_bag s' = store_bag s ∖ {[+ blob o +]}.
Proof.
  intros Hok Hs. destruct (Hok h o Hs) as [Hh Hu]. unfold hash_map_free_blob. rewrite Hs.
  rewrite (store_bag_delete s h o Hs). destruct (Z.eqb_spec (uses o) 1) as [H1|H1].
  - eexists. split; [done|]. split; [intros h' o' [? ?]%lookup_delete_Some; by apply Hok|].
    rewrite H1. multiset_solver.
  - rewrite sub_u_Ok by lia. eexists. split; [done|].
    split; [apply store_ok_insert; simpl; [done..|lia]|].
    rewrite (store_bag_update s h o) by done. simpl.
    replace (Z.to_nat (uses o)) with (S (Z.to_nat (uses o - 1))) by lia. multiset_solver.
Qed.

Lemma foldr_add_perm {A} (f : A → Z) (l1 l2 : list A) :
  l1 ≡ₚ l2 → foldr Z.add 0 (map f l1) = foldr Z.add 0 (map f l2).
Proof. induction 1; simpl; lia. Qed.

Lemma foldr_add_app l1 l2 : foldr Z.add 0 (l1 ++ l2) = foldr Z.add 0 l1 + foldr Z.add 0 l2.
Proof. induction l1; simpl; lia. Qed.

(** Sums of a measure of the blobs, each as often as it is used. *)
Lemma entries_bag_sum (f : list byte → Z) (l : list (list byte * BlobObject)) :
  Forall (λ e, 0 < uses e.2) l →
  foldr Z.add 0 (map f (elements (entries_bag l))) =
  foldr Z.add 0 (map (λ e, f (blob e.2) * uses e.2) l).
Proof.
  induction 1 as [|[h o] l Ho _ IH]; [done|]. simpl in *.
  rewrite (foldr_add_perm f _ _ (gmultiset_elements_disj_union _ _)).
  rewrite map_app, foldr_add_app, IH. f_equal.
  replace (f (blob o) * uses o) with (f (blob o) * Z.of_nat (Z.to_nat (uses o))) by lia.
  induction (Z.to_nat (uses o)) as [|n IHn].
  - rewrite gmultiset_scalar_mul_0, gmultiset_elements_empty. simpl. lia.
  - rewrite gmultiset_scalar_mul_S_l, (foldr_add_perm f _ _ (gmultiset_elements_disj_union _ _)).
    rewrite map_app, foldr_add_app, gmultiset_elements_singleton, IHn. simpl. lia.
Qed.

Lemma store_uses `{!Blake3} s :
  store_ok s → Forall (λ e, 0 < uses e.2) (map_to_list s).
Proof.
  intros Hok. apply Forall_forall. intros [h o] Hin. apply elem_of_map_to_list in Hin.
  apply (Hok h o Hin).
Qed.

(** The entry under the hash of a byte string that collides with none. *)
Lemma no_collision_lookup `{!Blake3} s b o :
  store_ok s → no_collision (store_bag s) b → s !! blake3 b = Some o → blob o = b.
Proof.
  intros Hok Hc Hs. apply Hc; [by eapply lookup_store_bag|].
  by destruct (Hok _ _ Hs).
Qed.

Lemma absent_lookup `{!Blake3} s h :
  store_ok s → (∀ b, b ∈ store_bag s → blake3 b ≠ h) → s !! h = None.
Proof.
  intros Hok Hh. destruct (s !! h) as [o|] eqn:Hs; [|done]. exfalso. eapply (Hh (blob o)).
  - by eapply lookup_store_bag.
  - by destruct (Hok _ _ Hs).
Qed.

Lemma hash_map_insert_with_uses_ok `{!Blake3} s b n :
  store_ok s → no_collision (store_bag s) b → (0 < n)%nat →
  ∃ s', hash_map_insert_with_uses (blake3 b) (Z.of_nat n) b s = (Ok tt, s') ∧
    store_ok s' ∧ store_bag s' = store_bag s ⊎ n *: {[+ b +]}.
Proof.
  intros Hok Hc Hn. unfold hash_map_insert_with_uses. rewrite bool_decide_true by done.
  eexists. split; [done|]. destruct (s !! blake3 b) as [o|] eqn:Hs.
  - rewrite <-(no_collision_lookup s b o Hok Hc Hs) at 3. by apply store_bag_add_uses.
  - by apply store_bag_new.
Qed.

#[export] Program Instance hash_map_laws `{!Blake3} : BlobStoreLaws HashMapBlobStore := {
  holds s m := store_ok s ∧ m = store_bag s;
}.
Next Obligation.
  intros ? s ? b [Hok ->] Hc.
  destruct (hash_map_insert_with_uses_ok s b 1 Hok Hc ltac:(lia)) as (s' & He & Hok' & Hbag).
  exists s'. rewrite gmultiset_scalar_mul_1 in Hbag. split; [|done].
  unfold hash_map_insert_with_uses in He. rewrite bool_decide_true in He by done.
  injection He as <-. done.
Qed.
Next Obligation.
  intros ? s ? b n [Hok ->] Hc Hn.
  destruct (hash_map_insert_with_uses_ok s b n Hok Hc Hn) as (s' & ? & ? & ?). eauto.
Qed.
Next Obligation.
  intros ? s ? b [Hok ->] Hb. destruct (elem_of_store_bag s b Hok Hb) as (o & Hs & <- & _).
  simpl. unfold hash_map_retrieve_blob. by rewrite Hs.
Qed.
Next Obligation.
  intros ? s ? h [Hok ->] Hh. simpl. unfold hash_map_retrieve_blob.
  by rewrite (absent_lookup s h Hok Hh).
Qed.
Next Obligation.
  intros ? s ? b [Hok ->] Hb. destruct (elem_of_store_bag s b Hok Hb) as (o & Hs & <- & _).
  simpl. unfold hash_map_clone_blob. rewrite Hs. eexists. split; [done|].
  destruct (store_bag_add_uses s _ o 1 Hok Hs) as [? Hbag].
  by rewrite gmultiset_scalar_mul_1 in Hbag.
Qed.
Next Obligation.
  intros ? s ? b [Hok ->] Hb. destruct (elem_of_store_bag s b Hok Hb) as (o & Hs & <- & _).
  destruct (store_bag_remove s _ o Hok Hs) as (s' & ? & ? & ?). eauto.
Qed.
Next Obligation.
  intros ? s ? h [Hok ->] Hh. simpl. unfold hash_map_clone_blob.
  by rewrite (absent_lookup s h Hok Hh).
Qed.
Next Obligation.
  intros ? s ? h [Hok ->] Hh. simpl. unfold hash_map_free_blob.
  by rewrite (absent_lookup s h Hok Hh).
Qed.
Next Obligation.
  intros ? s ? [Hok ->]. unfold num_blobs. simpl. unfold rmap. simpl. f_equal.
  unfold hash_map_iter_blobs. rewrite map_map.
  replace (Z.of_nat (size (store_bag s))) with
    (foldr Z.add 0 (map (λ _, 1) (elements (store_bag s)))).
  - unfold store_bag. rewrite entries_bag_sum by by apply store_uses. f_equal.
    apply map_ext. intros [h o]. simpl. lia.
  - change (size (store_bag s)) with (length (elements (store_bag s))).
    induction (elements (store_bag s)); simpl in *; lia.
Qed.
Next Obligation.
  intros ? s ? [Hok ->]. unfold bytes_used_by_blobs. simpl. unfold rmap. simpl. f_equal.
  unfold hash_map_iter_blobs, store_bag. rewrite map_map, entries_bag_sum by by apply store_uses.
  f_equal. apply map_ext. by intros [h o].
Qed.

(** ** A store under a sequence of operations *)

(** Operations on a store; those on a hash are given a byte string of that
    hash. *)
Inductive BlobOp :=
| BlobInsert (b : list byte)
| BlobClone (b : list byte)
| BlobFree (b : list byte).

Definition blob_op_bytes (op : BlobOp) : list byte :=
  match op with BlobInsert b | BlobClone b | BlobFree b => b end.

(** Whether the operation succeeds, and the store after it. *)
Definition blob_step `{!BlobStore B, !Blake3} (op : BlobOp) (bs : B) : bool * B :=
  match op with
  | BlobInsert b => let '(r, bs) := insert_blob b bs in (is_ok r, bs)
  | BlobClone b => let '(r, bs) := clone_blob (blake3 b) bs in (is_ok r, bs)
  | BlobFree b => let '(r, bs) := free_blob (blake3 b) bs in (is_ok r, bs)
  end.

(** The same on a multiset. *)
Definition bag_step (op : BlobOp) (m : gmultiset (list byte)) : bool * gmultiset (list byte) :=
  match op with
  | BlobInsert b => (true, m ⊎ {[+ b +]})
  | BlobClone b => if decide (b ∈ m) then (true, m ⊎ {[+ b +]}) else (false, m)
  | BlobFree b => if decide (b ∈ m) then (true, m ∖ {[+ b +]}) else (false, m)
  end.

Fixpoint run_ops {S} (step : BlobOp → S → bool * S) (ops : list BlobOp) (s : S) : list bool * S :=
  match ops with
  | [] => ([], s)
  | op :: ops =>
      let '(r, s) := step op s in
      let '(rs, s) := run_ops step ops s in (r :: rs, s)
  end.

Section run.
Context `{!BlobStore B, !Blake3, !BlobStoreLaws B}.

(** One operation, if no byte string of the store collides with its own. *)
Lemma blob_step_bag op (bs : B) m :
  holds bs m → no_collision m (blob_op_bytes op) →
  ∃ r bs', blob_step op bs = (r, bs') ∧ r = (bag_step op m).1 ∧ holds bs' (bag_step op m).2.
Proof.
  intros Hm Hc.
  assert (Habs : ∀ b, no_collision m b → b ∉ m → ∀ b', b' ∈ m → blake3 b' ≠ blake3 b).
  { intros b Hcb Hb b' Hb' He. by rewrite (Hcb b' Hb' He) in Hb'. }
  destruct op as [b|b|b]; simpl in *; [|case_decide..].
  - destruct (insert_blob_law bs m b Hm Hc) as (bs' & -> & ?). eauto.
  - destruct (clone_blob_law bs m b Hm H0) as (bs' & -> & ?). eauto.
  - rewrite (clone_blob_absent bs m) by eauto. eauto.
  - destruct (free_blob_law bs m b Hm H0) as (bs' & -> & ?). eauto.
  - rewrite (free_blob_absent bs m) by eauto. eauto.
Qed.

Lemma bag_step_subset op m : ∀ b, b ∈ (bag_step op m).2 → b ∈ m ∨ b = blob_op_bytes op.
Proof. intros b. destruct op; simpl; [|case_decide..]; simpl; multiset_solver. Qed.

Lemma run_ops_bag ops : ∀ (bs : B) m,
  holds bs m →
  (∀ b op, b ∈ m → op ∈ ops → blake3 b = blake3 (blob_op_bytes op) → b = blob_op_bytes op) →
  (∀ op1 op2, op1 ∈ ops → op2 ∈ ops →
    blake3 (blob_op_bytes op1) = blake3 (blob_op_bytes op2) →
    blob_op_bytes op1 = blob_op_bytes op2) →
  ∃ bs', run_ops blob_step ops bs = ((run_ops bag_step ops m).1, bs') ∧
    holds bs' (run_ops bag_step ops m).2.
Proof.
  induction ops as [|op ops IH]; intros bs m Hm Hc Hops; [by exists bs|].
  destruct (blob_step_bag op bs m Hm) as (r & bs1 & Hs & Hr & Hm1).
  { intros b Hb. apply Hc; [done|by left]. }
  simpl. rewrite Hs. destruct (bag_step op m) as [r' m1] eqn:Hb. simpl in *. subst r'.
  destruct (IH bs1 m1 Hm1) as (bs2 & Hr2 & Hm2).
  - intros b op' Hbin Hin He. pose proof (bag_step_subset op m b) as Hsub. rewrite Hb in Hsub.
    destruct (Hsub Hbin) as [?| ->]; [by apply Hc; [|right|]|].
    by apply Hops; [left|right|].
  - intros op1 op2 H1 H2. by apply Hops; right.
  - rewrite Hr2. destruct (run_ops bag_step ops m1) as [rs m2]. eauto.
Qed.
End run.

(** C36. Under any sequence of insertions, clones and frees of byte strings of
    which no two different ones have the same hash, [HashMapBlobStore] is the
    multiset of byte strings the operations leave: each operation succeeds
    exactly when it does on the multiset, every member is found under its
    hash, other hashes are not found, and the two counters of the interface
    are the number of members and the sum of their lengths. *)
Theorem blob_store_refines_bag `{!Blake3} (ops : list BlobOp) :
  (∀ op1 op2, op1 ∈ ops → op2 ∈ ops →
    blake3 (blob_op_bytes op1) = blake3 (blob_op_bytes op2) →
    blob_op_bytes op1 = blob_op_bytes op2) →
  let '(rs, s) := run_ops blob_step ops (∅ : HashMapBlobStore) in
  let '(rs', m) := run_ops bag_step ops ∅ in
  rs = rs' ∧
  (∀ b, b ∈ m → retrieve_blob s (blake3 b) = Ok b) ∧
  (∀ h, (∀ b, b ∈ m → blake3 b ≠ h) → retrieve_blob s h = Err NoSuchBlob) ∧
  num_blobs s = Ok (Z.of_nat (size m)) ∧
  bytes_used_by_blobs s = Ok (foldr Z.add 0 (map len (elements m))).
Proof.
  intros Hops. destruct (run_ops_bag (B:=HashMapBlobStore) ops ∅ ∅) as (s & -> & Hm);
    [split; [|done]; intros h o; by rewrite lookup_empty|multiset_solver|done|].
  destruct (run_ops bag_step ops ∅) as [rs m]. cbn [fst snd] in *. split; [done|].
  split_and!; intros.
  - by eapply (retrieve_blob_law (B:=HashMapBlobStore)).
  - by eapply (retrieve_blob_absent (B:=HashMapBlobStore)).
  - by apply (num_blobs_law (B:=HashMapBlobStore)).
  - by apply (bytes_used_law (B:=HashMapBlobStore)).
Qed.

Module Examples.
(** A digest that keeps the last 32 bytes. *)
Definition last32 (b : list byte) : list byte :=
  take 32 (rev b ++ replicate 32 x00).

Lemma last32_len b : len (last32 b) = BLOB_HASH_SIZE.
Proof.
  unfold len, last32. rewrite length_take, length_app, length_replicate. unfold BLOB_HASH_SIZE. lia.
Qed.

#[local] Instance last32_hash : Blake3 := {| blake3 := last32; blake3_len := last32_len |}.

Definition demo_ops : list BlobOp :=
  [BlobInsert [x01]; BlobInsert [x02]; BlobClone [x01]; BlobFree [x02]; BlobFree [x02]].

Lemma demo_bag :
  size (run_ops bag_step demo_ops ∅).2 = 2%nat ∧ multiplicity [x01] (run_ops bag_step demo_ops ∅).2 = 2%nat.
Proof. split; vm_compute; reflexivity. Qed.

Lemma demo_collisions op1 op2 :
  op1 ∈ demo_ops → op2 ∈ demo_ops →
  blake3 (blob_op_bytes op1) = blake3 (blob_op_bytes op2) → blob_op_bytes op1 = blob_op_bytes op2.
Proof.
  unfold demo_ops. rewrite !elem_of_cons, !elem_of_nil.
  intros [->|[->|[->|[->|[->|[]]]]]] [->|[->|[->|[->|[->|[]]]]]]; vm_compute; congruence.
Qed.

Lemma blob_store_refines_bag_witness :
  let '(_, s) := run_ops blob_step demo_ops (∅ : HashMapBlobStore) in
  num_blobs s = Ok 2 ∧ retrieve_blob s (last32 [x01]) = Ok [x01].
Proof.
  pose proof (blob_store_refines_bag demo_ops demo_collisions) as H. pose proof demo_bag as [D1 D2].
  destruct (run_ops blob_step _ _) as [rs s]. destruct (run_ops bag_step _ _) as [rs' m].
  cbn [snd] in D1, D2. destruct H as (_ & H1 & _ & H2 & _). split.
  - rewrite H2, D1. reflexivity.
  - apply H1, elem_of_multiplicity. rewrite D2. lia.
Defined.
End Examples.
