(* ===== verification/Page.v ===== *)
(** * Pages (crates/table/src/page.rs)

    A page holds rows of one fixed size from its start upwards and the
    64-byte granules of their var-len objects from its end downwards, each
    kind with a list of free cells threaded through the free cells
    themselves.  The state of a page is its header and its 65472 bytes.  The
    views into which the source splits a page, the rows below
    [header.fixed.last] and the granules above it, are windows on these
    bytes: an access outside of the window of its view panics.  A loop that
    follows granules through the page has fuel for one more granule than a
    page can hold. *)

From Stdlib Require Import ZArith Lia.
From S2P Require Import Prelude Mem Indexes BitSet VarLen BlobStore.
Local Open Scope Z_scope.

(** ** Headers *)

(** [page::Error]. *)
Inductive PageError :=
| InsufficientVarLenSpace (need have : Z)
| InsufficientFixedLenSpace (need : Z).

(** [FreeCellRef]: the offset of the first free cell. *)
Definition FREE_NIL : Z := PAGE_END.
Definition fcr_has (next : Z) : bool := negb (is_at_end next).

(** [get_ref] and [get_mut] on the window of the page from [lo] to [hi]; the
    page itself is aligned to 64 bytes. *)
Definition get_ref {E} (data : list byte) (lo hi size align offset : Z) : result E (list byte) :=
  if (lo <=? offset) && (offset + size <=? hi) && (offset mod align =? 0)
  then slice data offset size else Panic.
Definition set_ref {E} (data : list byte) (lo hi size align offset : Z) (bs : list byte) :
    result E (list byte) :=
  if (lo <=? offset) && (offset + size <=? hi) && (offset mod align =? 0)
  then slice_write data offset bs else Panic.

Local Open Scope result_scope.

(** The head that was taken, if there was one, and the new head. *)
Definition take_freelist_head {E} (self : Z) (data : list byte) (lo hi : Z) :
    result E (option Z * Z) :=
  if fcr_has self then
    let* next := get_ref data lo hi 2 2 self in
    Ok (Some self, le_val next)
  else Ok (None, self).

(** The new head and the bytes of the page. *)
Definition prepend_freelist {E} (self : Z) (data : list byte) (lo hi new_head : Z) :
    result E (Z * list byte) :=
  let* data := set_ref data lo hi 2 2 new_head (le_bytes 2 self) in
  Ok (new_head, data).

Record FixedHeader := {
  fx_next_free : Z;
  fx_last : Z;
  fx_num_rows : Z;
  fx_present_rows : FixedBitSet;
}.

Definition FixedHeader_new {E} (max_rows_in_page : Z) : result E FixedHeader :=
  let* bits := bitset_new max_rows_in_page in
  Ok {| fx_next_free := FREE_NIL; fx_last := VAR_LEN_NULL; fx_num_rows := 0;
        fx_present_rows := bits |}.

Definition set_row_presence {E} (self : FixedHeader) (offset fixed_row_size : Z) (present : bool) :
    result E FixedHeader :=
  let* i := offset_div offset fixed_row_size in
  let* bits := bitset_set (fx_present_rows self) i present in
  Ok {| fx_next_free := fx_next_free self; fx_last := fx_last self;
        fx_num_rows := fx_num_rows self; fx_present_rows := bits |}.

Definition set_row_present {E} (self : FixedHeader) (offset fixed_row_size : Z) :
    result E FixedHeader :=
  let* self := set_row_presence self offset fixed_row_size true in
  let* n := add_u 16 (fx_num_rows self) 1 in
  Ok {| fx_next_free := fx_next_free self; fx_last := fx_last self;
        fx_num_rows := n; fx_present_rows := fx_present_rows self |}.

Definition is_row_present {E} (self : FixedHeader) (offset fixed_row_size : Z) : result E bool :=
  let* i := offset_div offset fixed_row_size in
  bitset_get (fx_present_rows self) i.

Definition FixedHeader_reset_for {E} (self : FixedHeader) (max_rows_in_page : Z) :
    result E FixedHeader :=
  let* bits := bitset_reset_for (fx_present_rows self) max_rows_in_page in
  Ok {| fx_next_free := FREE_NIL; fx_last := VAR_LEN_NULL; fx_num_rows := 0;
        fx_present_rows := bits |}.

Definition FixedHeader_clear (self : FixedHeader) : FixedHeader :=
  {| fx_next_free := FREE_NIL; fx_last := VAR_LEN_NULL; fx_num_rows := 0;
     fx_present_rows := bitset_clear (fx_present_rows self) |}.

Record VarHeader := {
  vr_next_free : Z;
  vr_freelist_len : Z;
  vr_first : Z;
  vr_num_granules : Z;
}.

Definition VarHeader_default : VarHeader :=
  {| vr_next_free := FREE_NIL; vr_freelist_len := 0; vr_first := PAGE_END; vr_num_granules := 0 |}.

Record PageHeader := {
  hd_fixed : FixedHeader;
  hd_var : VarHeader;
  hd_unmodified_hash : option (list byte);
}.

Definition PageHeader_new {E} (max_rows_in_page : Z) : result E PageHeader :=
  let* fixed := FixedHeader_new max_rows_in_page in
  Ok {| hd_fixed := fixed; hd_var := VarHeader_default; hd_unmodified_hash := None |}.

Definition PageHeader_reset_for {E} (self : PageHeader) (max_rows_in_page : Z) :
    result E PageHeader :=
  let* fixed := FixedHeader_reset_for (hd_fixed self) max_rows_in_page in
  Ok {| hd_fixed := fixed; hd_var := VarHeader_default; hd_unmodified_hash := None |}.

Definition PageHeader_clear (self : PageHeader) : PageHeader :=
  {| hd_fixed := FixedHeader_clear (hd_fixed self); hd_var := VarHeader_default;
     hd_unmodified_hash := None |}.

(** [PageHeader::max_rows_in_page]. *)
Definition header_max_rows (self : PageHeader) : Z := bitset_bits (fx_present_rows (hd_fixed self)).

Record Page := { pg_header : PageHeader; pg_row_data : list byte }.

Definition pg_fixed (p : Page) : FixedHeader := hd_fixed (pg_header p).
Definition pg_var (p : Page) : VarHeader := hd_var (pg_header p).

(** Assignments to the parts of a page. *)
Definition set_fixed (fx : FixedHeader) (p : Page) : Page :=
  {| pg_header := {| hd_fixed := fx; hd_var := pg_var p;
                     hd_unmodified_hash := hd_unmodified_hash (pg_header p) |};
     pg_row_data := pg_row_data p |}.
Definition set_var (vr : VarHeader) (p : Page) : Page :=
  {| pg_header := {| hd_fixed := pg_fixed p; hd_var := vr;
                     hd_unmodified_hash := hd_unmodified_hash (pg_header p) |};
     pg_row_data := pg_row_data p |}.
Definition set_unmodified_hash (h : option (list byte)) (p : Page) : Page :=
  {| pg_header := {| hd_fixed := pg_fixed p; hd_var := pg_var p; hd_unmodified_hash := h |};
     pg_row_data := pg_row_data p |}.
Definition set_row_data (d : list byte) (p : Page) : Page :=
  {| pg_header := pg_header p; pg_row_data := d |}.

(** ** The gap between rows and granules *)

Definition gap_remaining_size {E} (first_var last_fixed : Z) : result E Z :=
  offset_sub first_var last_fixed.

Definition gap_enough_size_for_row {E} (first_var last_fixed fixed_row_size : Z) : result E bool :=
  let* gap := gap_remaining_size first_var last_fixed in
  Ok (fixed_row_size <=? gap).

(** ** Allocating granules ([VarView]) *)

Local Close Scope result_scope.
Local Open Scope st_scope.

(** The number of granules that fit in a page, and one more. *)
Definition granule_fuel : nat := Z.to_nat (PAGE_END / GRANULE_SIZE + 1).

Definition num_granules_available {E} (p : Page) : result E Z :=
  rmap (λ gap, vr_freelist_len (pg_var p) + space_to_granules gap)
    (gap_remaining_size (vr_first (pg_var p)) (fx_last (pg_fixed p))).

(** Granules required, whether there are as many, whether a blob is meant. *)
Definition has_enough_space_for {E} (p : Page) (len_in_bytes : Z) : result E (Z * bool * bool) :=
  let '(num_granules_req, in_blob) := bytes_to_granules len_in_bytes in
  rmap (λ avail, (num_granules_req, num_granules_req <=? avail, in_blob))
    (num_granules_available p).

Definition alloc_from_freelist : st Page PageError (option Z) :=
  let! ' (free, next) := slift (λ p, take_freelist_head (vr_next_free (pg_var p)) (pg_row_data p)
                                  (fx_last (pg_fixed p)) PAGE_END) in
  match free with
  | None => sret None
  | Some free =>
      let! n := slift (λ p, sub_u (vr_freelist_len (pg_var p)) 1) in
      let! _ := smodify (λ p, set_var {| vr_next_free := next; vr_freelist_len := n;
        vr_first := vr_first (pg_var p); vr_num_granules := vr_num_granules (pg_var p) |} p) in
      sret (Some free)
  end.

Definition alloc_from_gap : st Page PageError (option Z) :=
  let! enough := slift (λ p, gap_enough_size_for_row (vr_first (pg_var p)) (fx_last (pg_fixed p))
                              GRANULE_SIZE) in
  if enough then
    let! first := slift (λ p, offset_sub (vr_first (pg_var p)) GRANULE_SIZE) in
    let! _ := smodify (λ p, set_var {| vr_next_free := vr_next_free (pg_var p);
      vr_freelist_len := vr_freelist_len (pg_var p); vr_first := first;
      vr_num_granules := vr_num_granules (pg_var p) |} p) in
    sret (Some first)
  else sret None.

Definition alloc_granule : st Page PageError Z :=
  let! free := alloc_from_freelist in
  let! granule := match free with Some g => sret (Some g) | None => alloc_from_gap end in
  match granule with
  | None => sthrow (InsufficientVarLenSpace 1 0)
  | Some granule =>
      let! _ := sassert (is_granule_offset_aligned granule) in
      let! n := slift (λ p, add_u 16 (vr_num_granules (pg_var p)) 1) in
      let! _ := smodify (λ p, set_var {| vr_next_free := vr_next_free (pg_var p);
        vr_freelist_len := vr_freelist_len (pg_var p); vr_first := vr_first (pg_var p);
        vr_num_granules := n |} p) in
      sret granule
  end.

(** [write_chunk_to_granule]: the header, then the chunk behind it. *)
Definition write_chunk_to_granule (chunk : list byte) (l granule next : Z) :
    st Page PageError unit :=
  let! h := slift (λ _, header_new (wrap_u 8 l) next) in
  let! data := slift (λ p, set_ref (pg_row_data p) (fx_last (pg_fixed p)) PAGE_END GRANULE_SIZE
                             GRANULE_SIZE granule (le_bytes 2 h)) in
  let! _ := smodify (set_row_data data) in
  if len chunk <=? DATA_SIZE then
    let! data := slift (λ p, slice_write (pg_row_data p) (granule + GRANULE_HEADER_SIZE) chunk) in
    smodify (set_row_data data)
  else spanic.

(** The loop of [alloc_for_obj_common]: the granule allocated last points to
    the one before it. *)
Fixpoint alloc_chunks (chunks : list (list byte * Z)) (next : Z) : st Page PageError Z :=
  match chunks with
  | [] => sret next
  | (chunk, l) :: chunks =>
      let! granule := alloc_granule in
      let! _ := write_chunk_to_granule chunk l granule next in
      alloc_chunks chunks granule
  end.

Definition try_into_u16 (n : Z) : Z := if n <=? u16_MAX then n else u16_MAX.

Definition alloc_blob_hash : st Page PageError VarLenRef :=
  let! granule := alloc_granule in sret (large_blob granule).

Definition alloc_for_obj_common (obj_len : Z) (chunks : Z → list (list byte * Z)) :
    st Page PageError (VarLenRef * bool) :=
  let! ' (req_granules, enough_space, in_blob) := slift (λ p, has_enough_space_for p obj_len) in
  if negb enough_space then
    let! have := slift num_granules_available in
    sthrow (InsufficientVarLenSpace (try_into_u16 req_granules) (try_into_u16 have))
  else if in_blob then
    let! vlr := alloc_blob_hash in
    sret (vlr, true)
  else
    let! _ := sassert (obj_len =? foldr Z.add 0 (map snd (chunks req_granules))) in
    let! next := alloc_chunks (chunks req_granules) VAR_LEN_NULL in
    sret ({| length_in_bytes := wrap_u 16 obj_len; first_granule := next |}, false).

(** [alloc_for_slice]: the chunks from the last to the first. *)
Definition alloc_for_slice (slice : list byte) : st Page PageError (VarLenRef * bool) :=
  alloc_for_obj_common (len slice) (λ _, map (λ c, (c, len c)) (rev (chunks slice))).

(** [alloc_for_len]: the lengths of the same chunks, without their bytes. *)
Definition alloc_for_len (obj_len : Z) : st Page PageError (VarLenRef * bool) :=
  alloc_for_obj_common obj_len (λ req_granules,
    let rem := obj_len mod DATA_SIZE in
    map (λ rev_idx, ([], if (rev_idx =? 0) && negb (rem =? 0) then rem else DATA_SIZE))
      (seqZ 0 req_granules)).

(** ** Freeing granules *)

Definition get_granule_ref {E} (p : Page) (offset : Z) : result E (list byte) :=
  get_ref (pg_row_data p) (fx_last (pg_fixed p)) PAGE_END GRANULE_SIZE GRANULE_SIZE offset.

Definition free_granule (offset : Z) : st Page PageError unit :=
  let! fl := slift (λ p, add_u 16 (vr_freelist_len (pg_var p)) 1) in
  let! ng := slift (λ p, sub_u (vr_num_granules (pg_var p)) 1) in
  let! ' (head, data) := slift (λ p, prepend_freelist (vr_next_free (pg_var p)) (pg_row_data p)
                                       (fx_last (pg_fixed p)) PAGE_END offset) in
  let! _ := smodify (λ p, set_var {| vr_next_free := head; vr_freelist_len := fl;
    vr_first := vr_first (pg_var p); vr_num_granules := ng |} p) in
  smodify (set_row_data data).

Fixpoint free_object_loop (fuel : nat) (next_granule : Z) : st Page PageError unit :=
  match fuel with
  | O => λ p, (OutOfFuel, p)
  | S fuel =>
      if is_var_len_null next_granule then sret tt
      else
        let! granule := slift (λ p, get_granule_ref p next_granule) in
        let! _ := free_granule next_granule in
        free_object_loop fuel (header_next (granule_header granule))
  end.

Definition free_object_ignore_blob (var_len_obj : VarLenRef) : st Page PageError unit :=
  free_object_loop granule_fuel (first_granule var_len_obj).

(** ** Operations that also use the blob store *)

Section with_store.
Context {B : Type} `{!BlobStore B}.

(** The calls that only change the page, and the calls of the blob store,
    whose errors the callers unwrap. *)
Definition on_page {E A} (m : st Page E A) : st (Page * B) E A := λ '(p, bs),
  let '(r, p) := m p in (r, (p, bs)).
Definition on_store {E E' A} (m : st B E A) : st (Page * B) E' A := λ '(p, bs),
  let '(r, bs) := m bs in
  (match r with Ok a => Ok a | Err _ | Panic => Panic | OutOfFuel => OutOfFuel end, (p, bs)).

Definition blob_hash {E} (granule : list byte) : result E (list byte) :=
  match granule_data (E:=unit) granule with
  | Ok data => match BlobHash_try_from data with Ok h => Ok h | _ => Panic end
  | _ => Panic
  end.

(** The number of bytes of the blob. *)
Definition write_large_blob_hash_to_granule (var_len_obj : list byte) (vlr : VarLenRef) :
    st (Page * B) PageError Z :=
  let! hash := on_store (insert_blob var_len_obj) in
  let! _ := on_page (write_chunk_to_granule hash (len hash) (first_granule vlr) VAR_LEN_NULL) in
  sret (len var_len_obj).

Definition page_free_blob (offset : Z) : st (Page * B) PageError Z :=
  let! _ := sassert (negb (is_var_len_null offset)) in
  let! granule := slift (λ '(p, _), get_granule_ref p offset) in
  let! hash := slift (λ _, blob_hash granule) in
  let! blob := slift (λ '(_, bs), match retrieve_blob bs hash with Ok b => Ok b | _ => Panic end) in
  let! _ := on_store (free_blob hash) in
  sret (len blob).

(** The number of bytes freed in the blob store. *)
Definition free_object (var_len_obj : VarLenRef) : st (Page * B) PageError Z :=
  let! blob_store_deleted_bytes :=
    if is_large_blob var_len_obj then page_free_blob (first_granule var_len_obj) else sret 0 in
  let! _ := on_page (free_object_ignore_blob var_len_obj) in
  sret blob_store_deleted_bytes.
End with_store.

(** ** Rows *)

Definition page_new_with_max_row_count {E} (max_rows_in_page : Z) : result E Page :=
  rmap (λ h, {| pg_header := h; pg_row_data := replicate (Z.to_nat PAGE_DATA_SIZE) x00 |})
    (PageHeader_new max_rows_in_page).
Definition page_new {E} (fixed_row_size : Z) : result E Page :=
  page_new_with_max_row_count (max_rows_in_page fixed_row_size).

Definition page_num_rows (p : Page) : Z := fx_num_rows (pg_fixed p).
Definition page_num_var_len_granules (p : Page) : Z := vr_num_granules (pg_var p).
Definition page_bytes_used_by_rows (p : Page) (fixed_row_size : Z) : Z :=
  page_num_rows p * fixed_row_size + page_num_var_len_granules p * GRANULE_SIZE.

(** [Page::get_row_data]. *)
Definition page_get_row_data {E} (p : Page) (row size : Z) : result E (list byte) :=
  slice (pg_row_data p) row size.

Definition page_has_row_offset {E} (p : Page) (fixed_row_size offset : Z) : result E bool :=
  if fixed_row_size =? 0 then Panic
  else if offset mod fixed_row_size =? 0 then is_row_present (pg_fixed p) offset fixed_row_size
  else Panic.

(** [FixedView::get_row]. *)
Definition fixed_get_row {E} (p : Page) (start fixed_row_size : Z) : result E (list byte) :=
  if start + fixed_row_size <=? fx_last (pg_fixed p)
  then slice (pg_row_data p) start fixed_row_size else Panic.

(** A write of [bs] at [o] in the row that [FixedView::get_row_mut] gives. *)
Definition fixed_write_row {E} (p : Page) (start fixed_row_size o : Z) (bs : list byte) :
    result E (list byte) :=
  if (start + fixed_row_size <=? fx_last (pg_fixed p)) && (0 <=? o) && (o + len bs <=? fixed_row_size)
  then slice_write (pg_row_data p) (start + o) bs else Panic.

Definition has_space_for_row {E} (p : Page) (fixed_row_size num_granules : Z) : result E bool :=
  rbind (gap_remaining_size (vr_first (pg_var p)) (fx_last (pg_fixed p))) (λ gap_remaining,
    let check gap_avail_for_granules :=
      let gap_in_granules := space_to_granules gap_avail_for_granules in
      let needed_granules_after_freelist :=
        Z.max 0 (num_granules - vr_freelist_len (pg_var p)) in
      needed_granules_after_freelist <=? gap_in_granules in
    if fcr_has (fx_next_free (pg_fixed p)) then Ok (check gap_remaining)
    else if gap_remaining <? fixed_row_size then Ok false
    else Ok (check (gap_remaining - fixed_row_size))).

Definition total_granules_required_for_objects (objects : list (list byte)) : Z :=
  foldr Z.add 0 (map (λ o, (bytes_to_granules (len o)).1) objects).

Definition has_space_for_row_with_objects {E} (p : Page) (fixed_row_size : Z)
    (var_len_objects : list (list byte)) : result E bool :=
  has_space_for_row p fixed_row_size (total_granules_required_for_objects var_len_objects).

Definition page_is_full {E} (p : Page) (fixed_row_size : Z) : result E bool :=
  rmap negb (has_space_for_row p fixed_row_size 0).

Definition alloc_fixed_len_from_freelist (fixed_row_size : Z) : st Page PageError (option Z) :=
  let! ' (free, next) := slift (λ p, take_freelist_head (fx_next_free (pg_fixed p)) (pg_row_data p)
                                  0 PAGE_END) in
  match free with
  | None => sret None
  | Some free =>
      let! fx := slift (λ p, set_row_present {| fx_next_free := next;
        fx_last := fx_last (pg_fixed p); fx_num_rows := fx_num_rows (pg_fixed p);
        fx_present_rows := fx_present_rows (pg_fixed p) |} free fixed_row_size) in
      let! _ := smodify (set_fixed fx) in
      let! _ := smodify (set_unmodified_hash None) in
      sret (Some free)
  end.

Definition alloc_fixed_len_from_gap (fixed_row_size : Z) : st Page PageError (option Z) :=
  let! enough := slift (λ p, gap_enough_size_for_row (vr_first (pg_var p)) (fx_last (pg_fixed p))
                              fixed_row_size) in
  if enough then
    let! _ := smodify (set_unmodified_hash None) in
    let! ptr := sgets (λ p, fx_last (pg_fixed p)) in
    let! last := slift (λ p, offset_add (fx_last (pg_fixed p)) fixed_row_size) in
    let! fx := slift (λ p, set_row_present {| fx_next_free := fx_next_free (pg_fixed p);
      fx_last := last; fx_num_rows := fx_num_rows (pg_fixed p);
      fx_present_rows := fx_present_rows (pg_fixed p) |} ptr fixed_row_size) in
    let! _ := smodify (set_fixed fx) in
    sret (Some ptr)
  else sret None.

Definition alloc_fixed_len (fixed_row_size : Z) : st Page PageError Z :=
  let! free := alloc_fixed_len_from_freelist fixed_row_size in
  let! ptr := match free with
              | Some o => sret (Some o)
              | None => alloc_fixed_len_from_gap fixed_row_size
              end in
  match ptr with
  | Some o => sret o
  | None => sthrow (InsufficientFixedLenSpace fixed_row_size)
  end.

(** [FixedView::free]. *)
Definition fixed_free (row_offset fixed_row_size : Z) : st Page PageError unit :=
  let! ' (head, data) := slift (λ p, prepend_freelist (fx_next_free (pg_fixed p)) (pg_row_data p)
                                       0 (fx_last (pg_fixed p)) row_offset) in
  let! _ := smodify (set_row_data data) in
  let! n := slift (λ p, sub_u (fx_num_rows (pg_fixed p)) 1) in
  let! fx := slift (λ p, set_row_presence {| fx_next_free := head;
    fx_last := fx_last (pg_fixed p); fx_num_rows := n;
    fx_present_rows := fx_present_rows (pg_fixed p) |} row_offset fixed_row_size false) in
  smodify (set_fixed fx).

(** ** Iterators *)

(** The offsets of the references in a row that does not change. *)
Fixpoint visit_all `{!VarLenMembers V} (fuel : nat) (v : V) (it : vit) (row : list byte) :
    result unit (list Z) :=
  match fuel with
  | O => OutOfFuel
  | S fuel =>
      rbind (vit_next v it row) (λ '(o, it),
        match o with
        | None => Ok []
        | Some o => rmap (cons o) (visit_all fuel v it row)
        end)
  end.
Definition visit_var_len `{!VarLenMembers V} {E} (v : V) (row : list byte) : result E (list Z) :=
  match visit_all (S (length row)) v (vit_start v) row with
  | Ok offs => Ok offs | Err _ | Panic => Panic | OutOfFuel => OutOfFuel
  end.

(** The reference an iterator over a row gives. *)
Definition row_vlr {E} (row : list byte) (o : Z) : result E VarLenRef :=
  rmap (λ _, peek_vlr row o) (slice row o 4).

(** [FixedLenRowsIter]: the offset of the row of each index. *)
Fixpoint row_offsets {E} (idxs : list Z) (fixed_row_size : Z) : result E (list Z) :=
  match idxs with
  | [] => Ok []
  | i :: idxs =>
      rbind (mul_u 16 (wrap_u 16 i) fixed_row_size) (λ o, rmap (cons o) (row_offsets idxs fixed_row_size))
  end.

Definition present_fuel (p : Page) : nat := S (Z.to_nat (bitset_bits (fx_present_rows (pg_fixed p)))).

Definition iter_fixed_len {E} (p : Page) (fixed_row_size : Z) : result E (list Z) :=
  rbind (iter_set_collect (present_fuel p) (iter_set (fx_present_rows (pg_fixed p))))
    (λ idxs, row_offsets idxs fixed_row_size).

Definition iter_fixed_len_from {E} (p : Page) (fixed_row_size starting_from : Z) :
    result E (list Z) :=
  rbind (offset_div starting_from fixed_row_size) (λ idx,
  rbind (iter_set_from (fx_present_rows (pg_fixed p)) idx) (λ it,
  rbind (iter_set_collect (present_fuel p) it) (λ idxs, row_offsets idxs fixed_row_size))).

(** [VarLenGranulesIter]. *)
Fixpoint iter_granules {E} (fuel : nat) (p : Page) (next_granule : Z) : result E (list (list byte)) :=
  match fuel with
  | O => OutOfFuel
  | S fuel =>
      if is_var_len_null next_granule then Ok []
      else
        rbind (get_ref (pg_row_data p) 0 PAGE_END GRANULE_SIZE GRANULE_SIZE next_granule) (λ granule,
        rmap (cons granule) (iter_granules fuel p (header_next (granule_header granule))))
  end.
Definition iter_var_len_object {E} (p : Page) (first_granule : Z) : result E (list (list byte)) :=
  iter_granules granule_fuel p first_granule.

Fixpoint granules_data {E} (gs : list (list byte)) : result E (list (list byte)) :=
  match gs with
  | [] => Ok []
  | g :: gs => rbind (granule_data g) (λ d, rmap (cons d) (granules_data gs))
  end.
Definition iter_vlo_data {E} (p : Page) (first_granule : Z) : result E (list (list byte)) :=
  rbind (iter_var_len_object p first_granule) granules_data.

(** ** Inserting, deleting and copying rows *)

Section rows.
Context {B V : Type} `{!BlobStore B, !VarLenMembers V}.

(** The next slot of [visit_var_len_mut] on the row at [row]. *)
Definition next_slot (v : V) (it : vit) (row fixed_row_size : Z) :
    st (Page * B) PageError (option Z * vit) := λ '(p, bs),
  (rbind (fixed_get_row p row fixed_row_size) (λ r,
     match vit_next v it r with
     | Ok x => Ok x | Err _ | Panic => Panic | OutOfFuel => OutOfFuel
     end), (p, bs)).

(** [*var_len_ref_slot = var_len_ref]. *)
Definition write_slot (row fixed_row_size o : Z) (r : VarLenRef) : st Page PageError unit :=
  let! data := slift (λ p, fixed_write_row p row fixed_row_size o (vlr_bytes r)) in
  smodify (set_row_data data).

(** The loop of [insert_row] over slots and objects. *)
Fixpoint insert_objects (v : V) (it : vit) (row fixed_row_size : Z) (objs : list (list byte)) :
    st (Page * B) PageError unit :=
  let! ' (slot, it) := next_slot v it row fixed_row_size in
  match slot, objs with
  | Some o, obj :: objs =>
      let! ' (vlr, in_blob) := on_page (alloc_for_slice obj) in
      let! _ := if in_blob : bool then write_large_blob_hash_to_granule obj vlr else sret 0 in
      let! _ := on_page (write_slot row fixed_row_size o vlr) in
      insert_objects v it row fixed_row_size objs
  | _, _ => sret tt
  end.

Definition insert_row (fixed_row : list byte) (var_len_objects : list (list byte)) (v : V) :
    st (Page * B) PageError Z :=
  let fixed_row_size := wrap_u 16 (len fixed_row) in
  let! fixed_len_offset := on_page (alloc_fixed_len fixed_row_size) in
  let! data := slift (λ '(p, _), fixed_write_row p fixed_len_offset fixed_row_size 0 fixed_row) in
  let! _ := on_page (smodify (set_row_data data)) in
  let! _ := insert_objects v (vit_start v) fixed_len_offset fixed_row_size var_len_objects in
  sret fixed_len_offset.

Fixpoint free_objects (row : list byte) (offs : list Z) : st (Page * B) PageError Z :=
  match offs with
  | [] => sret 0
  | o :: offs =>
      let! vlr := slift (λ _, row_vlr row o) in
      let! n := free_object vlr in
      let! ns := free_objects row offs in
      sret (n + ns)
  end.

(** The number of bytes freed in the blob store. *)
Definition page_delete_row (fixed_row fixed_row_size : Z) (v : V) : st (Page * B) PageError Z :=
  let! _ := on_page (smodify (set_unmodified_hash None)) in
  let! row := slift (λ '(p, _), fixed_get_row p fixed_row fixed_row_size) in
  let! offs := slift (λ _, visit_var_len v row) in
  let! blob_store_deleted_bytes := free_objects row offs in
  let! _ := on_page (fixed_free fixed_row fixed_row_size) in
  sret blob_store_deleted_bytes.

Fixpoint sum_granules {E} (row : list byte) (offs : list Z) : result E Z :=
  match offs with
  | [] => Ok 0
  | o :: offs =>
      rbind (row_vlr row o) (λ r, rmap (λ n, granules_used r + n) (sum_granules row offs))
  end.

Definition row_total_granules {E} (p : Page) (fixed_row_offset fixed_row_size : Z) (v : V) :
    result E Z :=
  rbind (page_get_row_data p fixed_row_offset fixed_row_size) (λ row,
  rbind (visit_var_len v row) (λ offs, sum_granules row offs)).

(** The loop of [copy_var_len_into]: the last granule allocated, and the one
    of the source it is for. *)
Fixpoint copy_granules (dst_chunk : Z) (src_chunk : list byte) (iter : list (list byte)) :
    st Page PageError (Z * list byte) :=
  match iter with
  | [] => sret (dst_chunk, src_chunk)
  | next_src_chunk :: iter =>
      let! next_dst_chunk := alloc_granule in
      let! data := slift (λ _, granule_data src_chunk) in
      let! _ := write_chunk_to_granule data (len data) dst_chunk next_dst_chunk in
      copy_granules next_dst_chunk next_src_chunk iter
  end.

(** [self.copy_var_len_into(src_vlr, dst_var, blob_store)]. *)
Definition copy_var_len_into (self : Page) (src_vlr : VarLenRef) : st (Page * B) PageError VarLenRef :=
  let! iter := slift (λ _, iter_var_len_object self (first_granule src_vlr)) in
  match iter with
  | [] =>
      let! _ := sassert (length_in_bytes src_vlr =? 0) in
      sret vlr_NULL
  | src_chunk :: iter =>
      let! copied_head := on_page alloc_granule in
      let! ' (dst_chunk, src_chunk) := on_page (copy_granules copied_head src_chunk iter) in
      let! data := slift (λ _, granule_data src_chunk) in
      let! _ := on_page (write_chunk_to_granule data (len data) dst_chunk VAR_LEN_NULL) in
      let! _ := if is_large_blob src_vlr then
                  let! h := slift (λ _, blob_hash src_chunk) in
                  on_store (clone_blob h)
                else sret tt in
      sret {| length_in_bytes := length_in_bytes src_vlr; first_granule := copied_head |}
  end.

(** [expect]. *)
Definition expect {S E E' A} (m : st S E A) : st S E' A := λ s,
  match m s with
  | (Ok a, s) => (Ok a, s)
  | (Err _, s) | (Panic, s) => (Panic, s)
  | (OutOfFuel, s) => (OutOfFuel, s)
  end.

(** The loop of [copy_row_into] over the references of the source and the
    slots of the copy. *)
Fixpoint copy_objects (self : Page) (src_row : list byte) (v : V) (it : vit)
    (row fixed_row_size : Z) (src_offs : list Z) : st (Page * B) PageError unit :=
  match src_offs with
  | [] => sret tt
  | src :: src_offs =>
      let! ' (slot, it) := next_slot v it row fixed_row_size in
      match slot with
      | None => sret tt
      | Some o =>
          let! src_vlr := slift (λ _, row_vlr src_row src) in
          let! vlr := expect (copy_var_len_into self src_vlr) in
          let! _ := on_page (write_slot row fixed_row_size o vlr) in
          copy_objects self src_row v it row fixed_row_size src_offs
      end
  end.

(** [self.copy_row_into(row_offset, dst, ...)]: whether the row fits. *)
Definition copy_row_into (self : Page) (row_offset fixed_row_size : Z) (v : V) :
    st (Page * B) PageError bool :=
  let! required_granules := slift (λ _, row_total_granules self row_offset fixed_row_size v) in
  let! space := slift (λ '(dst, _), has_space_for_row dst fixed_row_size required_granules) in
  if negb space then sret false
  else
    let! src_row := slift (λ _, page_get_row_data self row_offset fixed_row_size) in
    let! inserted_offset := expect (on_page (alloc_fixed_len fixed_row_size)) in
    let! data := slift (λ '(p, _), fixed_write_row p inserted_offset fixed_row_size 0 src_row) in
    let! _ := on_page (smodify (set_row_data data)) in
    let! src_offs := slift (λ _, visit_var_len v src_row) in
    let! _ := copy_objects self src_row v (vit_start v) inserted_offset fixed_row_size src_offs in
    sret true.

(** The loop of [copy_filter_into]: the offset of the first row that does not
    fit. *)
Fixpoint copy_rows_into (self : Page) (rows : list Z) (fixed_row_size : Z) (v : V)
    (keep : Page → Z → bool) : st (Page * B) PageError (option Z) :=
  match rows with
  | [] => sret None
  | row_offset :: rows =>
      if keep self row_offset then
        let! copied := copy_row_into self row_offset fixed_row_size v in
        if copied : bool then copy_rows_into self rows fixed_row_size v keep
        else sret (Some row_offset)
      else copy_rows_into self rows fixed_row_size v keep
  end.

(** [copy_filter_into]: [Some] is [ControlFlow::Continue]. *)
Definition copy_filter_into (self : Page) (starting_from fixed_row_size : Z) (v : V)
    (keep : Page → Z → bool) : st (Page * B) PageError (option Z) :=
  let! rows := slift (λ _, iter_fixed_len_from self fixed_row_size starting_from) in
  copy_rows_into self rows fixed_row_size v keep.
End rows.

(** ** Whole pages *)

Definition page_clear (p : Page) : Page :=
  {| pg_header := PageHeader_clear (pg_header p); pg_row_data := pg_row_data p |}.

Definition page_zero_data (p : Page) : Page :=
  set_row_data (replicate (length (pg_row_data p)) x00) p.

Definition page_reset_for {E} (p : Page) (max_rows_in_page : Z) : result E Page :=
  rmap (λ h, {| pg_header := h; pg_row_data := pg_row_data p |})
    (PageHeader_reset_for (pg_header p) max_rows_in_page).

Section content_hash.
Context `{!Blake3}.

(** The hash of everything in the page but the saved hash itself. *)
Definition content_hash (p : Page) : list byte :=
  let fixed := pg_fixed p in
  let var := pg_var p in
  blake3 (pg_row_data p ++
    (le_bytes 2 (fx_next_free fixed) ++ le_bytes 2 (fx_last fixed) ++ le_bytes 2 (fx_num_rows fixed)) ++
    concat (map (le_bytes 8) (fx_present_rows fixed)) ++
    (le_bytes 2 (vr_next_free var) ++ le_bytes 2 (vr_freelist_len var) ++
     le_bytes 2 (vr_first var) ++ le_bytes 2 (vr_num_granules var))).

Definition save_content_hash (p : Page) : Page := set_unmodified_hash (Some (content_hash p)) p.

(** The hash, and the page with it saved. *)
Definition save_or_get_content_hash (p : Page) : list byte * Page :=
  match hd_unmodified_hash (pg_header p) with
  | Some h => (h, p)
  | None => (content_hash p, save_content_hash p)
  end.
End content_hash.
