(* ===== verification/PageInv.v ===== *)
(** * The invariant of a page, and the allocation of rows and granules

    [page_ok] describes the two free lists of a page and the cells in use;
    [granules_at] a chain of granules with the chunks of an object.  The
    lemmas of this file are the effect of the steps [Page.v] is made of. *)

From Stdlib Require Import ZArith Lia.
From stdpp Require Import gmap gmultiset.
From S2P Require Import Prelude Mem Indexes BitSet VarLen BlobStore Page.
Local Open Scope Z_scope.

(** ** Parts of a page after an assignment *)

Definition pg_hash (p : Page) : option (list byte) := hd_unmodified_hash (pg_header p).

Lemma pg_fixed_set_fixed x p : pg_fixed (set_fixed x p) = x.
Proof. done. Qed.
Lemma pg_var_set_fixed x p : pg_var (set_fixed x p) = pg_var p.
Proof. done. Qed.
Lemma pg_hash_set_fixed x p : pg_hash (set_fixed x p) = pg_hash p.
Proof. done. Qed.
Lemma pg_row_data_set_fixed x p : pg_row_data (set_fixed x p) = pg_row_data p.
Proof. done. Qed.
Lemma pg_fixed_set_var x p : pg_fixed (set_var x p) = pg_fixed p.
Proof. done. Qed.
Lemma pg_var_set_var x p : pg_var (set_var x p) = x.
Proof. done. Qed.
Lemma pg_hash_set_var x p : pg_hash (set_var x p) = pg_hash p.
Proof. done. Qed.
Lemma pg_row_data_set_var x p : pg_row_data (set_var x p) = pg_row_data p.
Proof. done. Qed.
Lemma pg_fixed_set_unmodified_hash x p : pg_fixed (set_unmodified_hash x p) = pg_fixed p.
Proof. done. Qed.
Lemma pg_var_set_unmodified_hash x p : pg_var (set_unmodified_hash x p) = pg_var p.
Proof. done. Qed.
Lemma pg_hash_set_unmodified_hash x p : pg_hash (set_unmodified_hash x p) = x.
Proof. done. Qed.
Lemma pg_row_data_set_unmodified_hash x p : pg_row_data (set_unmodified_hash x p) = pg_row_data p.
Proof. done. Qed.
Lemma pg_fixed_set_row_data x p : pg_fixed (set_row_data x p) = pg_fixed p.
Proof. done. Qed.
Lemma pg_var_set_row_data x p : pg_var (set_row_data x p) = pg_var p.
Proof. done. Qed.
Lemma pg_hash_set_row_data x p : pg_hash (set_row_data x p) = pg_hash p.
Proof. done. Qed.
Lemma pg_row_data_set_row_data x p : pg_row_data (set_row_data x p) = x.
Proof. done. Qed.

Create Rewrite HintDb page.
#[export] Hint Rewrite pg_fixed_set_fixed pg_var_set_fixed pg_hash_set_fixed pg_row_data_set_fixed pg_fixed_set_var pg_var_set_var pg_hash_set_var pg_row_data_set_var pg_fixed_set_unmodified_hash pg_var_set_unmodified_hash pg_hash_set_unmodified_hash pg_row_data_set_unmodified_hash pg_fixed_set_row_data pg_var_set_row_data pg_hash_set_row_data pg_row_data_set_row_data : page.

(** Computes the parts of a page that was assigned to. *)
Ltac psimpl := autorewrite with page in *.

(** ** Cells *)

Lemma aligned_disjoint n a b :
  0 < n → a mod n = 0 → b mod n = 0 → a ≠ b → a + n ≤ b ∨ b + n ≤ a.
Proof.
  intros Hn Ha Hb Hne. apply Z.mod_divide in Ha as [x ->]; [|lia].
  apply Z.mod_divide in Hb as [y ->]; [|lia].
  assert (x ≠ y) by congruence. assert (x + 1 ≤ y ∨ y + 1 ≤ x) by lia. nia.
Qed.

(** A multiple of [n] below a bound that is one leaves room for [n]. *)
Lemma aligned_below n a b : 0 < n → a mod n = 0 → b mod n = 0 → a < b → a + n ≤ b.
Proof. intros Hn Ha Hb Hlt. destruct (aligned_disjoint n a b); lia. Qed.

Lemma aligned_sub n a : 0 < n → a mod n = 0 → (a - n) mod n = 0.
Proof.
  intros. replace (a - n) with (a + (-1) * n) by lia. rewrite Z.mod_add; lia.
Qed.

Lemma aligned_add n a : 0 < n → a mod n = 0 → (a + n) mod n = 0.
Proof. intros. replace (a + n) with (a + 1 * n) by lia. rewrite Z.mod_add; lia. Qed.

(** The free cells of a list, threaded through their first two bytes. *)
Fixpoint free_chain (data : list byte) (head : Z) (l : list Z) : Prop :=
  match l with
  | [] => head = PAGE_END
  | o :: l => head = o ∧ free_chain data (peek_u16 data o) l
  end.

Lemma free_chain_frame data data' head l :
  (∀ o, o ∈ l → peek_u16 data' o = peek_u16 data o) →
  free_chain data head l → free_chain data' head l.
Proof.
  revert head. induction l as [|o l IH]; intros head Hf; simpl; [done|].
  intros [-> Hl]. split; [done|]. rewrite Hf by by left.
  apply IH; [|done]. intros o' ?. apply Hf. by right.
Qed.

(** The granules [c] hold the byte strings [chs], each pointing to the next. *)
Definition granule_at (data : list byte) (g : Z) (ch : list byte) (next : Z) : Prop :=
  len ch ≤ 62 ∧ header_len (peek_u16 data g) = len ch ∧ header_next (peek_u16 data g) = next ∧
  peek data (g + 2) (len ch) = ch.

Fixpoint granules_at (data : list byte) (c : list Z) (chs : list (list byte)) : Prop :=
  match c, chs with
  | [], [] => True
  | g :: c, ch :: chs => granule_at data g ch (default 0 (head c)) ∧ granules_at data c chs
  | _, _ => False
  end.

Lemma granule_at_frame data data' g ch next :
  0 ≤ g → peek data' g 64 = peek data g 64 → granule_at data g ch next → granule_at data' g ch next.
Proof.
  intros Hg He (H0 & H1 & H2 & H3). pose proof (len_nonneg ch).
  assert (Hh : peek_u16 data' g = peek_u16 data g).
  { rewrite <-(Z.add_0_r g). rewrite <-!(peek_u16_peek _ g 64) by lia. by rewrite He. }
  split_and!; rewrite ?Hh; try done.
  rewrite <-(peek_peek data' g 64) by lia. rewrite He. by rewrite peek_peek by lia.
Qed.

Lemma granules_at_frame data data' c chs :
  (∀ g, g ∈ c → 0 ≤ g ∧ peek data' g 64 = peek data g 64) →
  granules_at data c chs → granules_at data' c chs.
Proof.
  revert chs. induction c as [|g c IH]; intros [|ch chs] Hf; simpl; try done.
  intros [Hg Hc]. destruct (Hf g ltac:(left)). split.
  - by eapply granule_at_frame.
  - apply IH; [|done]. intros g' ?. apply Hf. by right.
Qed.

Lemma granules_at_length data c chs : granules_at data c chs → length c = length chs.
Proof.
  revert chs. induction c as [|g c IH]; intros [|ch chs]; simpl; try done.
  intros [_ ?]. f_equal. eauto.
Qed.

(** ** The two regions of a page *)

(** The cells for rows of size [rs]: those of [fl] are free, those of [P] are
    in use. *)
Record fixed_ok (rs : Z) (fx : FixedHeader) (data : list byte) (fl : list Z) (P : gset Z) : Prop := {
  fo_last : fx_last fx = (len fl + Z.of_nat (size P)) * rs;
  fo_num : fx_num_rows fx = Z.of_nat (size P);
  fo_blocks : blocks_ok (fx_present_rows fx);
  fo_room : max_rows_in_page rs ≤ bitset_bits (fx_present_rows fx);
  fo_bits : ∀ i, 0 ≤ i → bit (fx_present_rows fx) i = bool_decide (i * rs ∈ P);
  fo_cells : ∀ o, o ∈ fl ∨ o ∈ P ↔ 0 ≤ o < fx_last fx ∧ o mod rs = 0;
  fo_disj : ∀ o, o ∈ fl → o ∉ P;
  fo_nodup : NoDup fl;
  fo_chain : free_chain data (fx_next_free fx) fl;
}.

(** The granules: those of [vl] are free, those of [u] are in use. *)
Record var_ok (vr : VarHeader) (data : list byte) (vl u : list Z) : Prop := {
  vo_free : vr_freelist_len vr = len vl;
  vo_num : vr_num_granules vr = len u;
  vo_first : 64 * (len vl + len u) = PAGE_END - vr_first vr;
  vo_cells : ∀ g, g ∈ vl ∨ g ∈ u ↔ vr_first vr ≤ g < PAGE_END ∧ g mod 64 = 0;
  vo_nodup : NoDup (vl ++ u);
  vo_chain : free_chain data (vr_next_free vr) vl;
}.

Record page_ok (rs : Z) (p : Page) (fl : list Z) (P : gset Z) (vl u : list Z) : Prop := {
  po_len : len (pg_row_data p) = PAGE_END;
  po_fixed : fixed_ok rs (pg_fixed p) (pg_row_data p) fl P;
  po_var : var_ok (pg_var p) (pg_row_data p) vl u;
  po_gap : fx_last (pg_fixed p) ≤ vr_first (pg_var p);
}.

(** Rows are at least two bytes long, of even length, and fit in a page. *)
Record row_size_ok (rs : Z) : Prop := {
  rs_min : 2 ≤ rs;
  rs_max : rs ≤ PAGE_END;
  rs_even : rs mod 2 = 0;
}.

Lemma vo_first_le vr data vl u : var_ok vr data vl u → vr_first vr ≤ PAGE_END.
Proof. intros H. pose proof (vo_first _ _ _ _ H). unfold len in *. lia. Qed.

Lemma vo_first_mod vr data vl u : var_ok vr data vl u → vr_first vr mod 64 = 0.
Proof.
  intros H. pose proof (vo_first _ _ _ _ H) as Hf.
  replace (vr_first vr) with (PAGE_END + (- (len vl + len u)) * 64) by lia.
  rewrite Z.mod_add by lia. done.
Qed.

Lemma var_ok_perm vr data vl u u' : u ≡ₚ u' → var_ok vr data vl u → var_ok vr data vl u'.
Proof.
  intros Hp [H1 H2 H3 H4 H5 H6].
  assert (len u' = len u) as Hl by (unfold len; by rewrite Hp).
  split; rewrite ?Hl; try done.
  - intros g. rewrite <-H4. by rewrite Hp.
  - by rewrite <-Hp.
Qed.

Lemma page_ok_perm rs p fl P vl u u' : u ≡ₚ u' → page_ok rs p fl P vl u → page_ok rs p fl P vl u'.
Proof. intros Hp []. split; try done. by eapply var_ok_perm. Qed.

(** Writing into cells that are not free. *)
Lemma page_ok_data rs p fl P vl u data' :
  len data' = PAGE_END →
  (∀ o, o ∈ fl ∨ o ∈ vl → peek_u16 data' o = peek_u16 (pg_row_data p) o) →
  page_ok rs p fl P vl u → page_ok rs (set_row_data data' p) fl P vl u.
Proof.
  intros Hl Hf [H1 [] [] H4]. split; try done.
  - split; try done. eapply free_chain_frame; [|done]. intros; apply Hf; by left.
  - split; try done. eapply free_chain_frame; [|done]. intros; apply Hf; by right.
Qed.

(** ** Free lists *)

Lemma get_ref_Ok {E} data lo hi size align o :
  lo ≤ o → o + size ≤ hi → o mod align = 0 → 0 ≤ o → 0 ≤ size → o + size ≤ len data →
  get_ref (E:=E) data lo hi size align o = Ok (peek data o size).
Proof.
  intros. unfold get_ref.
  rewrite (proj2 (Z.leb_le lo o)), (proj2 (Z.leb_le (o + size) hi)), (proj2 (Z.eqb_eq _ 0)) by done.
  simpl. by apply slice_Ok.
Qed.

Lemma set_ref_Ok {E} data lo hi size align o bs :
  lo ≤ o → o + size ≤ hi → o mod align = 0 → 0 ≤ o → len bs ≤ size → o + size ≤ len data →
  set_ref (E:=E) data lo hi size align o bs = Ok (poke data o bs).
Proof.
  intros. unfold set_ref.
  rewrite (proj2 (Z.leb_le lo o)), (proj2 (Z.leb_le (o + size) hi)), (proj2 (Z.eqb_eq _ 0)) by done.
  simpl. apply slice_write_Ok; lia.
Qed.

Lemma take_freelist_head_cons {E} data lo hi h o l :
  free_chain data h (o :: l) → lo ≤ o → o + 2 ≤ hi → o mod 2 = 0 → 0 ≤ o → o + 2 ≤ len data →
  o ≠ PAGE_END →
  take_freelist_head (E:=E) h data lo hi = Ok (Some o, peek_u16 data o).
Proof.
  intros [-> _] **. unfold take_freelist_head, fcr_has, is_at_end.
  rewrite (proj2 (Z.eqb_neq o PAGE_END)) by done. simpl.
  by rewrite get_ref_Ok by (done || lia).
Qed.

Lemma take_freelist_head_nil {E} data lo hi h :
  free_chain data h [] → take_freelist_head (E:=E) h data lo hi = Ok (None, h).
Proof. by intros ->. Qed.

(** The list with a cell in front, after its first bytes were written. *)
Lemma free_chain_prepend data h o l :
  0 ≤ o → o + 2 ≤ len data → in_u 16 h →
  (∀ x, x ∈ l → 0 ≤ x ∧ (x + 2 ≤ o ∨ o + 2 ≤ x)) →
  free_chain data h l → free_chain (poke data o (le_bytes 2 h)) o (o :: l).
Proof.
  intros Ho Hl Hh Hd Hc. split; [done|].
  fold (poke_u16 data o h). rewrite peek_poke_u16_eq by done.
  eapply free_chain_frame; [|done]. intros x Hx. destruct (Hd x Hx).
  unfold peek_u16. by rewrite peek_poke_u16_ne by (try lia).
Qed.

(** The head of a list of cells below the end of the page is a [u16]. *)
Lemma free_chain_head data h l :
  free_chain data h l → (∀ o, o ∈ l → 0 ≤ o < PAGE_END) → in_u 16 h.
Proof.
  destruct l as [|o l]; simpl; [by intros ->|]. intros [-> _] Ho.
  destruct (Ho o ltac:(left)). change PAGE_END with 65472 in *. unfold in_u. lia.
Qed.

(** ** Allocating granules *)

Definition avail (p : Page) : Z :=
  vr_freelist_len (pg_var p) + (vr_first (pg_var p) - fx_last (pg_fixed p)) / 64.

Lemma num_granules_available_ok {E} rs p fl P vl u :
  page_ok rs p fl P vl u → num_granules_available (E:=E) p = Ok (avail p).
Proof.
  intros H. unfold num_granules_available, gap_remaining_size, offset_sub.
  rewrite sub_u_Ok by apply (po_gap _ _ _ _ _ _ H). done.
Qed.

(** A granule of the page, free or in use. *)
Lemma granule_cell rs p fl P vl u g :
  page_ok rs p fl P vl u → g ∈ vl ∨ g ∈ u →
  vr_first (pg_var p) ≤ g ∧ fx_last (pg_fixed p) ≤ g ∧ g + 64 ≤ PAGE_END ∧ g mod 64 = 0.
Proof.
  intros H Hg. apply (vo_cells _ _ _ _ (po_var _ _ _ _ _ _ H)) in Hg as [[H1 H2] H3].
  pose proof (po_gap _ _ _ _ _ _ H). split_and!; try done; try lia.
  apply (aligned_below 64); try done.
Qed.

Lemma fixed_last_nonneg rs fx data fl P : 0 < rs → fixed_ok rs fx data fl P → 0 ≤ fx_last fx.
Proof. intros Hrs H. rewrite (fo_last _ _ _ _ _ H). unfold len. nia. Qed.

Lemma mod_2_of_64 g : g mod 64 = 0 → g mod 2 = 0.
Proof.
  intros H. apply Z.mod_divide in H as [k ->]; [|lia].
  replace (k * 64) with (k * 32 * 2) by lia. apply Z.mod_mul. lia.
Qed.

Lemma granule_aligned g : in_u 16 g → g mod 64 = 0 → is_granule_offset_aligned g = true.
Proof.
  intros Hu Hm. unfold is_granule_offset_aligned. rewrite land_next_mask by done.
  apply Z.eqb_eq. pose proof (Z.div_mod g 64 ltac:(lia)). lia.
Qed.

(** What an allocation of the granule [g] changes of the header. *)
Definition took_granule (p p' : Page) (g : Z) : Prop :=
  pg_row_data p' = pg_row_data p ∧ pg_fixed p' = pg_fixed p ∧
  pg_hash p' = pg_hash p.

Lemma alloc_from_freelist_cons rs p fl P g vl u :
  0 < rs → page_ok rs p fl P (g :: vl) u →
  alloc_from_freelist p = (Ok (Some g), set_var {|
    vr_next_free := peek_u16 (pg_row_data p) g; vr_freelist_len := len vl;
    vr_first := vr_first (pg_var p); vr_num_granules := vr_num_granules (pg_var p) |} p).
Proof.
  intros Hrs H. destruct (granule_cell _ _ _ _ _ _ g H ltac:(left; left)) as (H1 & H2 & H3 & H4).
  pose proof (po_len _ _ _ _ _ _ H) as Hl. pose proof (po_var _ _ _ _ _ _ H) as Hv.
  pose proof (fixed_last_nonneg _ _ _ _ _ Hrs (po_fixed _ _ _ _ _ _ H)).
  unfold alloc_from_freelist. unfold sbind at 1, slift at 1.
  rewrite (take_freelist_head_cons _ _ _ _ g vl) by
    (try apply (vo_chain _ _ _ _ Hv); try apply mod_2_of_64; try done; lia).
  simpl. unfold sbind at 1, slift at 1.
  assert (Hn : vr_freelist_len (pg_var p) = len vl + 1)
    by (rewrite (vo_free _ _ _ _ Hv); unfold len; simpl; lia).
  rewrite Hn, sub_u_Ok by (unfold len; lia). rewrite Z.add_simpl_r. done.
Qed.

Lemma alloc_from_freelist_nil rs p fl P u :
  page_ok rs p fl P [] u → alloc_from_freelist p = (Ok None, p).
Proof.
  intros H. unfold alloc_from_freelist, sbind, slift.
  by rewrite (take_freelist_head_nil _ _ _ _ (vo_chain _ _ _ _ (po_var _ _ _ _ _ _ H))).
Qed.

Section alloc.
Context (rs : Z) (Hrs : row_size_ok rs).

Lemma rs_pos : 0 < rs.
Proof using Hrs. destruct Hrs. lia. Qed.

Lemma page_bounds p fl P vl u :
  page_ok rs p fl P vl u →
  0 ≤ fx_last (pg_fixed p) ≤ vr_first (pg_var p) ∧ vr_first (pg_var p) ≤ 65472 ∧
  64 * (len vl + len u) = 65472 - vr_first (pg_var p) ∧ len (pg_row_data p) = 65472.
Proof using Hrs.
  intros H. pose proof (po_var _ _ _ _ _ _ H) as Hv.
  pose proof (fixed_last_nonneg _ _ _ _ _ rs_pos (po_fixed _ _ _ _ _ _ H)).
  pose proof (po_gap _ _ _ _ _ _ H). pose proof (vo_first_le _ _ _ _ Hv).
  pose proof (vo_first _ _ _ _ Hv). pose proof (po_len _ _ _ _ _ _ H).
  change PAGE_END with 65472 in *. lia.
Qed.

(** The end of [alloc_granule], on a page from which [g] was taken. *)
Lemma count_granule_ok p fl P vl u g vr :
  page_ok rs p fl P vl u → g mod 64 = 0 → 0 ≤ g < PAGE_END → vr_num_granules vr = len u →
  ((let! _ := sassert (is_granule_offset_aligned g) in
   let! n := slift (λ p, add_u 16 (vr_num_granules (pg_var p)) 1) in
   let! _ := smodify (λ p, set_var {| vr_next_free := vr_next_free (pg_var p);
     vr_freelist_len := vr_freelist_len (pg_var p); vr_first := vr_first (pg_var p);
     vr_num_granules := n |} p) in
   sret (E:=PageError) g)%st) (set_var vr p) =
  (Ok g, set_var {| vr_next_free := vr_next_free vr; vr_freelist_len := vr_freelist_len vr;
    vr_first := vr_first vr; vr_num_granules := len u + 1 |} p).
Proof using Hrs.
  intros H Hm Hg Hn. unfold sbind at 1, sassert.
  change PAGE_END with 65472 in *. rewrite granule_aligned by (done || (unfold in_u; lia)).
  unfold sbind at 1, slift. psimpl. rewrite Hn.
  pose proof (page_bounds _ _ _ _ _ H). pose proof (len_nonneg vl).
  rewrite add_u_Ok by lia. done.
Qed.

(** Allocating a granule, when one is available and there is a row. *)
Lemma alloc_granule_ok p fl P vl u :
  page_ok rs p fl P vl u → 0 < fx_last (pg_fixed p) → 0 < avail p →
  ∃ g p' vl', alloc_granule p = (Ok g, p') ∧ page_ok rs p' fl P vl' (g :: u) ∧
    took_granule p p' g ∧ (g ∉ u) ∧ avail p' = avail p - 1.
Proof using Hrs.
  intros H Hlast Hav. pose proof (page_bounds _ _ _ _ _ H) as (Hb1 & Hb2 & Hb3 & Hb4).
  pose proof (po_var _ _ _ _ _ _ H) as Hv. unfold alloc_granule.
  destruct vl as [|g vl].
  - rewrite (sbind_Ok _ _ _ p None) by by eapply alloc_from_freelist_nil.
    set (g := vr_first (pg_var p) - 64).
    assert (Hgap : 64 ≤ vr_first (pg_var p) - fx_last (pg_fixed p)).
    { unfold avail in Hav. rewrite (vo_free _ _ _ _ Hv) in Hav. unfold len in Hav. simpl in Hav.
      destruct (Z.lt_ge_cases (vr_first (pg_var p) - fx_last (pg_fixed p)) 64) as [Hlt|]; [|done].
      rewrite Z.div_small in Hav; lia. }
    assert (Hgm : g mod 64 = 0) by (apply aligned_sub; [lia|by eapply vo_first_mod]).
    assert (alloc_from_gap p = (Ok (Some g), set_var {|
      vr_next_free := vr_next_free (pg_var p); vr_freelist_len := vr_freelist_len (pg_var p);
      vr_first := g; vr_num_granules := vr_num_granules (pg_var p) |} p)) as Hgapok.
    { unfold alloc_from_gap, gap_enough_size_for_row, gap_remaining_size, offset_sub.
      unfold sbind at 1, slift at 1. rewrite sub_u_Ok by lia. cbn [rbind].
      change GRANULE_SIZE with 64. rewrite (proj2 (Z.leb_le 64 _)) by lia.
      unfold sbind at 1, slift at 1. by rewrite sub_u_Ok by lia. }
    rewrite (sbind_Ok _ _ _ _ _ Hgapok).
    eexists g, _, []. split; [by eapply count_granule_ok; [..|apply (vo_num _ _ _ _ Hv)];
      change PAGE_END with 65472; try done; lia|].
    assert (Hnot : g ∉ u).
    { intros Hin. destruct (granule_cell _ _ _ _ _ _ g H (or_intror Hin)). lia. }
    split; [|split_and!; try done].
    + destruct H as [H1 [] Hvar H4]. split; psimpl; try done; simpl; [|lia].
      destruct Hvar as [V1 V2 V3 V4 V5 V6]. split; simpl; try done.
      * unfold len. simpl. lia.
      * change PAGE_END with 65472 in *. unfold len in *. simpl in *. lia.
      * intros x. rewrite elem_of_cons. specialize (V4 x). rewrite elem_of_nil in *.
        split.
        -- intros [[]|[->|Hx]]; [split; [change PAGE_END with 65472; lia|done]|].
           destruct (proj1 V4 ltac:(by right)). split; [lia|done].
        -- intros [[Hx1 Hx2] Hx3]. right. destruct (decide (x = g)) as [|Hne]; [by left|].
           right. destruct (aligned_disjoint 64 x g) as [|]; try done; [lia|].
           destruct (proj2 V4 ltac:(split; [lia|done])) as [[]|?]. done.
      * by constructor.
    + unfold avail. psimpl. simpl. subst g.
      replace (vr_first (pg_var p) - 64 - fx_last (pg_fixed p)) with
        (vr_first (pg_var p) - fx_last (pg_fixed p) + (-1) * 64) by lia.
      rewrite Z.div_add by lia. lia.
  - destruct (granule_cell _ _ _ _ _ _ g H ltac:(left; left)) as (G1 & G2 & G3 & G4).
    rewrite (sbind_Ok _ _ _ _ _ (alloc_from_freelist_cons _ _ _ _ _ _ _ rs_pos H)).
    unfold sbind at 1, sret at 1.
    eexists g, _, vl. split; [by eapply count_granule_ok; [..|apply (vo_num _ _ _ _ Hv)];
      change PAGE_END with 65472 in *; try done; lia|].
    destruct Hv as [V1 V2 V3 V4 V5 V6]. simpl in V5. apply NoDup_cons in V5 as [N1 N2].
    rewrite elem_of_app in N1.
    split; [|split_and!; try done; [tauto|]].
    + destruct H as [H1 [] _ H4]. split; try done. split; simpl; try done.
      * unfold len. simpl. lia.
      * unfold len in *. simpl in *. lia.
      * intros x. rewrite <-V4. rewrite !elem_of_cons. tauto.
      * apply NoDup_app in N2 as (N2 & N3 & N4). apply NoDup_app. split_and!; [done| |].
        -- intros x Hx. rewrite elem_of_cons. intros [->|?]; [tauto|by eapply N3].
        -- constructor; [tauto|done].
      * apply V6.
    + unfold avail. psimpl. simpl. rewrite V1. unfold len. simpl. lia.
Qed.

(** ** Writing granules *)

(** An operation on granules that leaves the rows and the granules of [u]
    alone. *)
Record keeps (p p' : Page) (u : list Z) : Prop := {
  kp_fixed : pg_fixed p' = pg_fixed p;
  kp_hash : pg_hash p' = pg_hash p;
  kp_rows a n : 0 ≤ a → a + n ≤ fx_last (pg_fixed p) →
    peek (pg_row_data p') a n = peek (pg_row_data p) a n;
  kp_granules g : g ∈ u → peek (pg_row_data p') g 64 = peek (pg_row_data p) g 64;
}.

Lemma keeps_refl p u : keeps p p u.
Proof. done. Qed.

Lemma keeps_trans p1 p2 p3 u1 u2 :
  (∀ g, g ∈ u1 → g ∈ u2) → keeps p1 p2 u1 → keeps p2 p3 u2 → keeps p1 p3 u1.
Proof.
  intros Hu [A1 A2 A3 A4] [B1 B2 B3 B4]. rewrite A1 in B3.
  split; [congruence|congruence|..].
  - intros. by rewrite B3, A3.
  - intros. rewrite B4, A4; auto.
Qed.

Lemma keeps_weaken p1 p2 u1 u2 : (∀ g, g ∈ u1 → g ∈ u2) → keeps p1 p2 u2 → keeps p1 p2 u1.
Proof. intros Hu [A1 A2 A3 A4]. split; auto. Qed.

Lemma took_keeps p p' g u : took_granule p p' g → keeps p p' u.
Proof. intros (H1 & H2 & H3). split; [done|done|..]; intros; by rewrite H1. Qed.

Lemma write_chunk_ok p g chunk l next :
  len (pg_row_data p) = 65472 → fx_last (pg_fixed p) ≤ g → 0 ≤ g → g + 64 ≤ 65472 → g mod 64 = 0 →
  len chunk ≤ 62 → 0 ≤ l < 64 → in_u 16 next → next mod 64 = 0 →
  ∃ data', write_chunk_to_granule chunk l g next p = (Ok tt, set_row_data data' p) ∧
    len data' = 65472 ∧ header_len (peek_u16 data' g) = l ∧ header_next (peek_u16 data' g) = next ∧
    peek data' (g + 2) (len chunk) = chunk ∧
    ∀ a n, 0 ≤ a → a + n ≤ g ∨ g + 64 ≤ a → peek data' a n = peek (pg_row_data p) a n.
Proof.
  intros Hlen Hlast Hg0 Hg Hgm Hch Hl Hn Hnm.
  destruct (header_new_ok (E:=PageError) l next Hl Hn Hnm) as (h & Hh & Hhu & Hhl & Hhn).
  unfold write_chunk_to_granule. unfold sbind at 1, slift at 1.
  rewrite wrap_u_id by (unfold in_u; lia). rewrite Hh.
  unfold sbind at 1, slift at 1. change GRANULE_SIZE with 64. change PAGE_END with 65472.
  rewrite set_ref_Ok by (rewrite ?len_le_bytes; lia || done).
  fold (poke_u16 (pg_row_data p) g h). set (d1 := poke_u16 (pg_row_data p) g h).
  assert (Hd1 : len d1 = 65472) by (unfold d1; rewrite len_poke_u16; lia).
  unfold sbind at 1, smodify at 1. change DATA_SIZE with 62.
  rewrite (proj2 (Z.leb_le _ 62)) by done.
  unfold sbind at 1, slift. psimpl. change GRANULE_HEADER_SIZE with 2.
  rewrite slice_write_Ok by lia.
  exists (poke d1 (g + 2) chunk). split; [done|].
  assert (Hpu : peek_u16 (poke d1 (g + 2) chunk) g = h).
  { unfold peek_u16. rewrite peek_poke_ne by lia. by apply peek_poke_u16_eq; try lia. }
  rewrite Hpu. split_and!; try done.
  - rewrite len_poke; lia.
  - by apply peek_poke_eq; try lia.
  - intros a n Ha Han. rewrite peek_poke_ne by lia. by apply peek_poke_u16_ne; try lia.
Qed.

(** A change of the bytes of the granule [g] only. *)
Lemma granule_change_ok p fl P vl g u d :
  page_ok rs p fl P vl (g :: u) → len d = len (pg_row_data p) →
  (∀ b n, 0 ≤ b → b + n ≤ g ∨ g + 64 ≤ b → peek d b n = peek (pg_row_data p) b n) →
  page_ok rs (set_row_data d p) fl P vl (g :: u) ∧ keeps p (set_row_data d p) u.
Proof using Hrs.
  intros H D1 D5. pose proof (page_bounds _ _ _ _ _ H) as (Hb1 & Hb2 & Hb3 & Hb4).
  destruct (granule_cell _ _ _ _ _ _ g H ltac:(right; left)) as (G1 & G2 & G3 & G4).
  pose proof (vo_nodup _ _ _ _ (po_var _ _ _ _ _ _ H)) as Hnd.
  apply NoDup_app in Hnd as (_ & Nd1 & Nd2). apply NoDup_cons in Nd2 as [Nd2 _].
  assert (Hother : ∀ x, x ∈ vl ∨ x ∈ u → 0 ≤ x ∧ (x + 64 ≤ g ∨ g + 64 ≤ x)).
  { intros x Hx. destruct (granule_cell _ _ _ _ _ _ x H) as (? & ? & ? & ?);
      [rewrite elem_of_cons; tauto|]. split; [lia|].
    apply aligned_disjoint; [lia|done..|]. intros ->.
    destruct Hx as [Hx|?]; [|done]. apply (Nd1 _ Hx). by left. }
  split.
  - apply page_ok_data; [rewrite D1; by apply (po_len _ _ _ _ _ _ H)| |done]. intros o Ho. unfold peek_u16. rewrite D5; [done|..].
    + destruct Ho as [Ho|Ho]; [|by apply Hother; left].
      apply (fo_cells _ _ _ _ _ (po_fixed _ _ _ _ _ _ H) o). by left.
    + destruct Ho as [Ho|Ho]; [|destruct (Hother o); [by left|lia]].
      destruct (proj1 (fo_cells _ _ _ _ _ (po_fixed _ _ _ _ _ _ H) o) ltac:(by left)) as [O1 O2].
      destruct Hrs as [R1 R2 R3].
      assert (o + rs ≤ fx_last (pg_fixed p)); [|lia].
      apply aligned_below; try done; try lia.
      rewrite (fo_last _ _ _ _ _ (po_fixed _ _ _ _ _ _ H)). apply Z.mod_mul. lia.
  - split; psimpl; try done.
    + intros a n Ha Han. apply D5; lia.
    + intros x Hx. apply D5; destruct (Hother x); try (by right); lia.
Qed.

(** Writing the granule [g] of the page. *)
Lemma write_granule_ok p fl P vl g u chunk l next :
  page_ok rs p fl P vl (g :: u) → len chunk ≤ 62 → 0 ≤ l < 64 → in_u 16 next → next mod 64 = 0 →
  ∃ p', write_chunk_to_granule chunk l g next p = (Ok tt, p') ∧ page_ok rs p' fl P vl (g :: u) ∧
    keeps p p' u ∧ avail p' = avail p ∧ header_len (peek_u16 (pg_row_data p') g) = l ∧
    header_next (peek_u16 (pg_row_data p') g) = next ∧
    peek (pg_row_data p') (g + 2) (len chunk) = chunk.
Proof using Hrs.
  intros H Hch Hl Hn Hnm. pose proof (page_bounds _ _ _ _ _ H) as (Hb1 & Hb2 & Hb3 & Hb4).
  destruct (granule_cell _ _ _ _ _ _ g H ltac:(right; left)) as (G1 & G2 & G3 & G4).
  change PAGE_END with 65472 in G3.
  destruct (write_chunk_ok p g chunk l next) as (d & -> & D1 & D2 & D3 & D4 & D5); try done; try lia.
  destruct (granule_change_ok p fl P vl g u d H) as [H' Hk]; [congruence|intros; by apply D5|].
  eexists. split; [done|]. psimpl. done.
Qed.

(** ** Allocating objects *)

Lemma head_granule p fl P vl c u :
  page_ok rs p fl P vl (c ++ u) → in_u 16 (default 0 (head c)) ∧ default 0 (head c) mod 64 = 0.
Proof using Hrs.
  intros H. destruct c as [|g c]; simpl; [done|].
  destruct (granule_cell _ _ _ _ _ _ g H) as (G1 & G2 & G3 & G4); [right; by left|].
  pose proof (page_bounds _ _ _ _ _ H). change PAGE_END with 65472 in *.
  split; [unfold in_u; lia|done].
Qed.

(** A granule of length [l] that starts with [ch]. *)
Definition starts_with (x : list byte * Z) (ch' : list byte) : Prop :=
  len ch' = x.2 ∧ peek ch' 0 (len x.1) = x.1.

(** Chunks allocated in front of the granules [c]. *)
Lemma alloc_chunks_gen cs : ∀ p fl P vl c u tl,
  page_ok rs p fl P vl (c ++ u) → 0 < fx_last (pg_fixed p) → len cs ≤ avail p →
  Forall (λ x, len x.1 ≤ x.2 ≤ 62) cs → granules_at (pg_row_data p) c tl →
  ∃ c' p' vl' chs,
    alloc_chunks cs (default 0 (head c)) p = (Ok (default 0 (head c')), p') ∧
    page_ok rs p' fl P vl' (c' ++ u) ∧ Forall2 starts_with cs chs ∧
    granules_at (pg_row_data p') c' (rev chs ++ tl) ∧
    keeps p p' u ∧ avail p' = avail p - len cs.
Proof using Hrs.
  induction cs as [|[ch l] cs IH]; intros p fl P vl c u tl H Hlast Hav Hcs Hc.
  - exists c, p, vl, []. split_and!; try done. unfold len. simpl. lia.
  - apply Forall_cons in Hcs as [[Hch Hl] Hcs]. cbn [fst snd] in Hch, Hl.
    assert (Hlen : len ((ch, l) :: cs) = len cs + 1) by (unfold len; simpl; lia). rewrite Hlen in *.
    pose proof (len_nonneg cs) as Hn1. pose proof (len_nonneg ch) as Hn2.
    destruct (alloc_granule_ok _ _ _ _ _ H Hlast) as (g & p1 & vl1 & Hg & H1 & Ht & Hnin & Hav1); [lia|].
    destruct (head_granule _ _ _ _ _ _ H) as [Hh1 Hh2].
    destruct (write_granule_ok p1 fl P vl1 g (c ++ u) ch l (default 0 (head c)))
      as (p2 & Hw & H2 & Hk & Hav2 & Hhl & Hn & Hd); try done; [lia|lia|].
    pose proof (took_keeps _ _ _ (c ++ u) Ht) as Hk1.
    assert (Hk2 : keeps p p2 (c ++ u)) by by eapply keeps_trans.
    destruct (granule_cell _ _ _ _ _ _ g H2 ltac:(right; left)) as (G1 & G2 & G3 & G4).
    pose proof (page_bounds _ _ _ _ _ H2) as (B1 & B2 & B3 & B4). change PAGE_END with 65472 in G3.
    set (ch' := peek (pg_row_data p2) (g + 2) l).
    assert (Hch' : len ch' = l) by (apply len_peek; lia).
    destruct (IH p2 fl P vl1 (g :: c) u (ch' :: tl)) as (c' & p3 & vl3 & chs & Hr & H3 & Hst & Hgr & Hk3 & Hav3);
      try done.
    + by rewrite (kp_fixed _ _ _ Hk2).
    + lia.
    + split; [unfold granule_at; rewrite Hch'; split_and!; try done; lia|].
      eapply granules_at_frame; [|done]. intros x Hx.
      destruct (granule_cell _ _ _ _ _ _ x H) as (X1 & X2 & _); [right; apply elem_of_app; by left|].
      pose proof (page_bounds _ _ _ _ _ H). split; [lia|].
      apply (kp_granules _ _ _ Hk2). apply elem_of_app. by left.
    + exists c', p3, vl3, (ch' :: chs). simpl alloc_chunks.
      rewrite (sbind_Ok _ _ _ _ _ Hg), (sbind_Ok _ _ _ _ _ Hw).
      split_and!; try done.
      * constructor; [|done]. split; [done|]. cbn [fst]. unfold ch'. rewrite peek_peek by lia.
        by rewrite Z.add_0_r.
      * simpl. by rewrite <-app_assoc.
      * eapply keeps_trans; [|eapply keeps_weaken; [|exact Hk2]|exact Hk3]; [done|].
        intros x ?. apply elem_of_app. by right.
      * lia.
Qed.

Lemma alloc_chunks_ok cs p fl P vl c u tl :
  page_ok rs p fl P vl (c ++ u) → 0 < fx_last (pg_fixed p) → len cs ≤ avail p →
  Forall (λ ch, len ch ≤ 62) cs → granules_at (pg_row_data p) c tl →
  ∃ c' p' vl',
    alloc_chunks (map (λ ch, (ch, len ch)) cs) (default 0 (head c)) p =
      (Ok (default 0 (head c')), p') ∧
    page_ok rs p' fl P vl' (c' ++ u) ∧ granules_at (pg_row_data p') c' (rev cs ++ tl) ∧
    keeps p p' u ∧ avail p' = avail p - len cs.
Proof using Hrs.
  intros H Hlast Hav Hcs Hc. assert (Hlen : len (map (λ ch, (ch, len ch)) cs) = len cs).
  { unfold len. by rewrite length_map. }
  destruct (alloc_chunks_gen (map (λ ch, (ch, len ch)) cs) p fl P vl c u tl) as
    (c' & p' & vl' & chs & Hr & H' & Hst & Hgr & Hk & Hav'); try done; [by rewrite Hlen| |].
  { apply Forall_map. eapply Forall_impl; [exact Hcs|]. simpl. intros. lia. }
  assert (chs = cs) as ->.
  { clear -Hst. revert chs Hst. induction cs as [|ch cs IH]; intros chs Hst.
    - by apply Forall2_nil_inv_l in Hst.
    - apply Forall2_cons_inv_l in Hst as (ch' & chs' & [Hl Hp] & Hst & ->). cbn [fst snd] in *. f_equal; [|by apply IH].
      rewrite <-Hl in Hp. by rewrite peek_all in Hp. }
  rewrite Hlen in Hav'. eauto 10.
Qed.

Lemma sum_chunk_lengths cs :
  foldr Z.add 0 (map snd (map (λ c : list byte, (c, len c)) (rev cs))) = len (concat cs).
Proof.
  rewrite map_map. simpl. rewrite <-(rev_involutive cs) at 2.
  induction (rev cs) as [|c l IH]; simpl; [done|].
  rewrite concat_app, len_app, <-IH. simpl. rewrite app_nil_r. lia.
Qed.

(** Allocating an object that is stored in the page. *)
Lemma alloc_for_slice_small p fl P vl u bs :
  page_ok rs p fl P vl u → 0 < fx_last (pg_fixed p) → len bs ≤ 992 →
  (bytes_to_granules (len bs)).1 ≤ avail p →
  ∃ c p' vl',
    alloc_for_slice bs p =
      (Ok ({| length_in_bytes := len bs; first_granule := default 0 (head c) |}, false), p') ∧
    page_ok rs p' fl P vl' (c ++ u) ∧ granules_at (pg_row_data p') c (chunks bs) ∧
    keeps p p' u ∧ avail p' = avail p - (bytes_to_granules (len bs)).1.
Proof using Hrs.
  intros H Hlast Hbs Hav. rewrite length_chunks in * by done. simpl in Hav.
  destruct (alloc_chunks_ok (rev (chunks bs)) p fl P vl [] u []) as (c & p' & vl' & Hr & H' & Hc & Hk & Ha);
    try done.
  - unfold len. rewrite length_rev. lia.
  - apply Forall_rev. eapply Forall_impl; [apply chunks_lengths|].
    intros ch Hch. cbv beta in Hch. change DATA_SIZE with 62 in Hch. lia.
  - rewrite rev_involutive, app_nil_r in Hc. exists c, p', vl'.
    split_and!; try done; [|unfold len in Ha; rewrite length_rev in Ha; simpl; lia].
    unfold alloc_for_slice, alloc_for_obj_common, has_enough_space_for.
    rewrite length_chunks by done. unfold sbind at 1, slift at 1.
    rewrite (num_granules_available_ok rs p fl P vl u) by done. cbn [rmap rbind].
    rewrite (proj2 (Z.leb_le _ (avail p))) by done. cbn [negb].
    unfold sbind at 1, sassert. rewrite sum_chunk_lengths, concat_chunks, Z.eqb_refl.
    rewrite (sbind_Ok _ _ _ _ _ Hr). unfold sret. rewrite wrap_u_id; [done|].
    pose proof (len_nonneg bs). unfold in_u. lia.
Qed.

(** Allocating the granule for the hash of a large blob. *)
Lemma alloc_for_obj_large p fl P vl u n chs :
  page_ok rs p fl P vl u → 0 < fx_last (pg_fixed p) → 992 < n → 1 ≤ avail p →
  ∃ g p' vl',
    alloc_for_obj_common n chs p = (Ok (large_blob g, true), p') ∧
    page_ok rs p' fl P vl' (g :: u) ∧ keeps p p' u ∧ avail p' = avail p - 1.
Proof using Hrs.
  intros H Hlast Hn Hav.
  destruct (alloc_granule_ok _ _ _ _ _ H Hlast) as (g & p1 & vl1 & Hg & H1 & Ht & Hnin & Hav1); [lia|].
  exists g, p1, vl1. split_and!; try done; [|by eapply took_keeps].
  unfold alloc_for_obj_common, has_enough_space_for, bytes_to_granules.
  change OBJECT_SIZE_BLOB_THRESHOLD with 992. rewrite (proj2 (Z.ltb_lt 992 n)) by done.
  unfold sbind at 1, slift at 1.
  rewrite (num_granules_available_ok rs p fl P vl u) by done. cbn [rmap rbind].
  rewrite (proj2 (Z.leb_le 1 (avail p))) by lia. cbn [negb].
  rewrite (sbind_Ok _ _ _ p1 (large_blob g)); [done|].
  unfold alloc_blob_hash. by rewrite (sbind_Ok _ _ _ _ _ Hg).
Qed.

(** ** Allocating and freeing rows *)

Lemma mul_rs_inj i j : i * rs = j * rs → i = j.
Proof using Hrs. intros. pose proof rs_pos. nia. Qed.

(** The index of a row that fits in the page is in the bit set. *)
Lemma row_index_in_bits fx data fl P o :
  fixed_ok rs fx data fl P → 0 ≤ o → o mod rs = 0 → o + rs ≤ 65472 →
  ∃ i, o = i * rs ∧ 0 ≤ i < bitset_bits (fx_present_rows fx).
Proof using Hrs.
  intros H Ho Hm Hle. pose proof rs_pos. apply Z.mod_divide in Hm as [i ->]; [|lia].
  exists i. split; [done|]. split; [nia|].
  eapply Z.lt_le_trans; [|apply (fo_room _ _ _ _ _ H)].
  unfold max_rows_in_page, div_ceil. change PAGE_END with 65472.
  apply Z.lt_le_trans with (i + 1); [lia|]. apply Z.div_le_lower_bound; nia.
Qed.

Lemma set_row_presence_ok {E} fx data fl P i present :
  fixed_ok rs fx data fl P → 0 ≤ i < bitset_bits (fx_present_rows fx) →
  ∃ bits, set_row_presence (E:=E) fx (i * rs) rs present =
      Ok {| fx_next_free := fx_next_free fx; fx_last := fx_last fx;
            fx_num_rows := fx_num_rows fx; fx_present_rows := bits |} ∧
    blocks_ok bits ∧ bitset_bits bits = bitset_bits (fx_present_rows fx) ∧
    ∀ j, 0 ≤ j → bit bits j =
      bool_decide (j * rs ∈ if present then {[i * rs]} ∪ P else P ∖ {[i * rs]}).
Proof using Hrs.
  intros H Hi. pose proof rs_pos. unfold set_row_presence, offset_div.
  rewrite (proj2 (Z.eqb_neq rs 0)) by lia. cbn [rbind]. rewrite Z.div_mul by lia.
  destruct (bitset_set_bit (E:=E) _ i present (fo_blocks _ _ _ _ _ H) Hi) as (bits & -> & Hb1 & Hb2 & Hb3).
  exists bits. split_and!; [done|done|unfold bitset_bits, len; by rewrite Hb2|].
  intros j Hj. rewrite Hb3, (fo_bits _ _ _ _ _ H) by done.
  destruct (decide (j = i)) as [->|Hne]; destruct present; symmetry.
  - apply bool_decide_eq_true. set_solver.
  - apply bool_decide_eq_false. set_solver.
  - apply bool_decide_ext. split; [|set_solver]. intros [?%elem_of_singleton|?]%elem_of_union; [|done].
    exfalso. by apply Hne, mul_rs_inj.
  - apply bool_decide_ext. split; [set_solver|]. intros ?. apply elem_of_difference. split; [done|].
    intros ?%elem_of_singleton. by apply Hne, mul_rs_inj.
Qed.

(** What an allocation of a row leaves of the page. *)
Definition took_row (p p' : Page) : Prop :=
  pg_row_data p' = pg_row_data p ∧ pg_var p' = pg_var p ∧ pg_hash p' = None.

(** Both ways to allocate a row end by marking it as present. *)
Lemma mark_row p fl P vl u fx o fl' :
  page_ok rs p fl P vl u → o ∉ P → 0 ≤ o → o mod rs = 0 → o + rs ≤ fx_last fx →
  fx_num_rows fx = Z.of_nat (size P) → fx_present_rows fx = fx_present_rows (pg_fixed p) →
  fx_last fx = (len fl' + Z.of_nat (size P) + 1) * rs →
  (∀ x, x ∈ fl' ∨ x ∈ {[o]} ∪ P ↔ 0 ≤ x < fx_last fx ∧ x mod rs = 0) →
  (∀ x, x ∈ fl' → x ∉ {[o]} ∪ P) → NoDup fl' →
  free_chain (pg_row_data p) (fx_next_free fx) fl' → fx_last fx ≤ vr_first (pg_var p) →
  ∃ fx', set_row_present (E:=PageError) fx o rs = Ok fx' ∧ fx_last fx' = fx_last fx ∧
    fixed_ok rs fx' (pg_row_data p) fl' ({[o]} ∪ P).
Proof using Hrs.
  intros H Hnin Ho Hm Hle Hnum Hpr Hlast Hcells Hdisj Hnd Hch Hgap. pose proof rs_pos as Hpos.
  pose proof (page_bounds _ _ _ _ _ H) as (Hb1 & Hb2 & Hb3 & Hb4).
  pose proof (po_fixed _ _ _ _ _ _ H) as Hf.
  destruct (row_index_in_bits _ _ _ _ o Hf) as (i & -> & Hi); try done; [lia|].
  rewrite <-Hpr in Hi.
  assert (Hf' : fixed_ok rs {| fx_next_free := fx_next_free (pg_fixed p); fx_last := fx_last (pg_fixed p);
    fx_num_rows := fx_num_rows (pg_fixed p); fx_present_rows := fx_present_rows fx |}
    (pg_row_data p) fl P) by (rewrite Hpr; destruct Hf; split; done).
  unfold set_row_present.
  destruct (set_row_presence_ok (E:=PageError) _ _ _ _ i true Hf' Hi) as (bits & Hs & Hk & Hbb & Hbit).
  unfold set_row_presence in *. simpl in Hs, Hbb.
  destruct (offset_div (i * rs) rs) as [k| | |] eqn:Hk'; try done. cbn [rbind] in *.
  destruct (bitset_set (E:=PageError) (fx_present_rows fx) k true) as [bits'| | |] eqn:Hbs; try done.
  cbn [rbind] in *. injection Hs as <-. cbn [fx_num_rows].
  assert (Hsz : Z.of_nat (size P) + 1 < 65536).
  { assert (2 ≤ rs) by apply Hrs. pose proof (len_nonneg fl'). nia. }
  rewrite Hnum, add_u_Ok by (change (2 ^ 16) with 65536; lia). cbn [rbind].
  eexists. split; [done|]. split; [done|]. split; cbn; try done.
  - rewrite size_union, size_singleton by set_solver. rewrite Hlast. lia.
  - rewrite size_union, size_singleton by set_solver. lia.
  - rewrite Hbb, Hpr. apply (fo_room _ _ _ _ _ Hf).
Qed.

Lemma row_cell p fl P vl u o :
  page_ok rs p fl P vl u → o ∈ fl ∨ o ∈ P →
  0 ≤ o ∧ o + rs ≤ fx_last (pg_fixed p) ∧ o mod rs = 0 ∧ o mod 2 = 0.
Proof using Hrs.
  intros H Ho. pose proof rs_pos. pose proof (po_fixed _ _ _ _ _ _ H) as Hf.
  apply (fo_cells _ _ _ _ _ Hf) in Ho as [[Ho1 Ho2] Hm]. split; [done|].
  assert (fx_last (pg_fixed p) mod rs = 0).
  { rewrite (fo_last _ _ _ _ _ Hf). apply Z.mod_mul. lia. }
  split; [by apply aligned_below|]. split; [done|].
  apply Z.mod_divide in Hm as [k ->]; [|lia].
  pose proof (rs_even _ Hrs) as He. apply Z.mod_divide in He as [m ->]; [|lia].
  rewrite Z.mul_assoc. apply Z.mod_mul. lia.
Qed.

Lemma alloc_fixed_len_freelist p o fl P vl u :
  page_ok rs p (o :: fl) P vl u →
  ∃ p', alloc_fixed_len rs p = (Ok o, p') ∧ page_ok rs p' fl ({[o]} ∪ P) vl u ∧ (o ∉ P) ∧
    took_row p p' ∧ fx_last (pg_fixed p') = fx_last (pg_fixed p).
Proof using Hrs.
  intros H. pose proof (page_bounds _ _ _ _ _ H) as (Hb1 & Hb2 & Hb3 & Hb4).
  pose proof (rs_min _ Hrs). destruct (row_cell _ _ _ _ _ o H ltac:(left; left)) as (O1 & O2 & O3 & O4).
  pose proof (po_fixed _ _ _ _ _ _ H) as Hf. destruct (fo_chain _ _ _ _ _ Hf) as [He Hch].
  pose proof (fo_nodup _ _ _ _ _ Hf) as [Hn1 Hn2]%NoDup_cons.
  assert (Hdis : ∀ x, x ∈ fl → x ∉ {[o]} ∪ P).
  { intros x Hx Hin. apply elem_of_union in Hin as [->%elem_of_singleton|Hin]; [done|].
    by apply (fo_disj _ _ _ _ _ Hf x); [right|]. }
  destruct (mark_row p (o :: fl) P vl u {| fx_next_free := peek_u16 (pg_row_data p) o;
    fx_last := fx_last (pg_fixed p); fx_num_rows := fx_num_rows (pg_fixed p);
    fx_present_rows := fx_present_rows (pg_fixed p) |} o fl) as (fx & Hs & Hfl & Hok); cbn; try done.
  - apply (fo_disj _ _ _ _ _ Hf). by left.
  - apply (fo_num _ _ _ _ _ Hf).
  - rewrite (fo_last _ _ _ _ _ Hf). unfold len. simpl. lia.
  - intros x. rewrite <-(fo_cells _ _ _ _ _ Hf). set_solver.
  - lia.
  - exists (set_unmodified_hash None (set_fixed fx p)). split_and!; psimpl; try done.
    + unfold alloc_fixed_len.
      rewrite (sbind_Ok _ _ _ (set_unmodified_hash None (set_fixed fx p)) (Some o)); [done|].
      unfold alloc_fixed_len_from_freelist. unfold sbind at 1, slift at 1.
      rewrite (take_freelist_head_cons _ _ _ _ o fl) by
        (try apply (fo_chain _ _ _ _ _ Hf); try done; change PAGE_END with 65472; lia).
      unfold sbind at 1, slift at 1. by rewrite Hs.
    + split; psimpl; try done; [apply (po_var _ _ _ _ _ _ H)|].
      cbn in Hfl. lia.
    + apply (fo_disj _ _ _ _ _ Hf). by left.
Qed.

Lemma alloc_fixed_len_gap p P vl u :
  page_ok rs p [] P vl u → rs ≤ vr_first (pg_var p) - fx_last (pg_fixed p) →
  let o := fx_last (pg_fixed p) in
  ∃ p', alloc_fixed_len rs p = (Ok o, p') ∧ page_ok rs p' [] ({[o]} ∪ P) vl u ∧ (o ∉ P) ∧
    took_row p p' ∧ fx_last (pg_fixed p') = fx_last (pg_fixed p) + rs.
Proof using Hrs.
  intros H Hgap o. pose proof (page_bounds _ _ _ _ _ H) as (Hb1 & Hb2 & Hb3 & Hb4). pose proof rs_pos.
  pose proof (po_fixed _ _ _ _ _ _ H) as Hf.
  assert (Hom : o mod rs = 0) by (unfold o; rewrite (fo_last _ _ _ _ _ Hf); apply Z.mod_mul; lia).
  assert (Hnin : o ∉ P).
  { intros Hin. destruct (row_cell _ _ _ _ _ o H ltac:(by right)). lia. }
  destruct (mark_row p [] P vl u {| fx_next_free := fx_next_free (pg_fixed p);
    fx_last := o + rs; fx_num_rows := fx_num_rows (pg_fixed p);
    fx_present_rows := fx_present_rows (pg_fixed p) |} o []) as (fx & Hs & Hfl & Hok); cbn; try done.
  - lia.
  - apply (fo_num _ _ _ _ _ Hf).
  - unfold o. rewrite (fo_last _ _ _ _ _ Hf). unfold len. simpl. lia.
  - intros x. rewrite elem_of_union, elem_of_singleton, elem_of_nil.
    pose proof (fo_cells _ _ _ _ _ Hf x) as Hx. rewrite elem_of_nil in Hx. split.
    + intros [[]|[->|Hin]]; [split; [lia|done]|]. destruct (proj1 Hx ltac:(by right)). split; [lia|done].
    + intros [[X1 X2] X3]. right. destruct (decide (x = o)) as [|Hne]; [by left|]. right.
      destruct (aligned_disjoint rs x o) as [|]; try done; [|lia].
      destruct (proj2 Hx) as [[]|]; [split; [lia|done]|done].
  - intros x Hx. by apply elem_of_nil in Hx.
  - apply NoDup_nil_2.
  - apply (fo_chain _ _ _ _ _ Hf).
  - lia.
  - exists (set_fixed fx (set_unmodified_hash None p)). split_and!; psimpl; try done.
    + unfold alloc_fixed_len. rewrite (sbind_Ok _ _ _ p None).
      2: { unfold alloc_fixed_len_from_freelist, sbind, slift.
           by rewrite (take_freelist_head_nil _ _ _ _ (fo_chain _ _ _ _ _ Hf)). }
      rewrite (sbind_Ok _ _ _ (set_fixed fx (set_unmodified_hash None p)) (Some o)); [done|].
      unfold alloc_fixed_len_from_gap.
      unfold sbind at 1, slift at 1. unfold gap_enough_size_for_row, gap_remaining_size, offset_sub.
      rewrite sub_u_Ok by lia. cbn [rbind]. rewrite (proj2 (Z.leb_le rs _)) by done.
      unfold sbind at 1, smodify at 1. unfold sbind at 1, sgets at 1. unfold sbind at 1, slift at 1.
      psimpl. unfold offset_add. rewrite add_u_Ok by (change (2 ^ 16) with 65536; lia).
      unfold sbind at 1, slift at 1. psimpl. fold o. by rewrite Hs.
    + split; psimpl; try done; [apply (po_var _ _ _ _ _ _ H)|]. cbn in Hfl. lia.
Qed.

Lemma alloc_fixed_len_full p P vl u :
  page_ok rs p [] P vl u → vr_first (pg_var p) - fx_last (pg_fixed p) < rs →
  alloc_fixed_len rs p = (Err (InsufficientFixedLenSpace rs), p).
Proof using Hrs.
  intros H Hgap. pose proof (page_bounds _ _ _ _ _ H). pose proof (po_fixed _ _ _ _ _ _ H) as Hf.
  unfold alloc_fixed_len. rewrite (sbind_Ok _ _ _ p None).
  - unfold alloc_fixed_len_from_gap, gap_enough_size_for_row, gap_remaining_size, offset_sub.
    unfold sbind, slift. rewrite sub_u_Ok by lia. cbn [rbind]. by rewrite (proj2 (Z.leb_gt rs _)).
  - unfold alloc_fixed_len_from_freelist, sbind, slift.
    by rewrite (take_freelist_head_nil _ _ _ _ (fo_chain _ _ _ _ _ Hf)).
Qed.

Lemma u16_cells_disjoint n a b :
  2 ≤ n → a mod n = 0 → b mod n = 0 → a ≠ b → a + 2 ≤ b ∨ b + 2 ≤ a.
Proof. intros Hn Ha Hb Hne. destruct (aligned_disjoint n a b); try done; lia. Qed.

Lemma fixed_free_ok p fl P vl u o :
  page_ok rs p fl P vl u → o ∈ P →
  ∃ p', fixed_free o rs p = (Ok tt, p') ∧ page_ok rs p' (o :: fl) (P ∖ {[o]}) vl u ∧
    pg_var p' = pg_var p ∧ pg_hash p' = pg_hash p ∧
    fx_last (pg_fixed p') = fx_last (pg_fixed p) ∧
    ∀ a n, 0 ≤ a → a + n ≤ o ∨ o + rs ≤ a →
      peek (pg_row_data p') a n = peek (pg_row_data p) a n.
Proof using Hrs.
  intros H Ho. pose proof (page_bounds _ _ _ _ _ H) as (Hb1 & Hb2 & Hb3 & Hb4).
  pose proof (rs_min _ Hrs) as Hmin. pose proof (po_fixed _ _ _ _ _ _ H) as Hf.
  destruct (row_cell _ _ _ _ _ o H ltac:(by right)) as (O1 & O2 & O3 & O4).
  assert (Hfl : ∀ x, x ∈ fl → 0 ≤ x ∧ x < 65472 ∧ (x + 2 ≤ o ∨ o + 2 ≤ x)).
  { intros x Hx. destruct (row_cell _ _ _ _ _ x H ltac:(by left)) as (X1 & X2 & X3 & _).
    split_and!; [done|lia|]. apply (u16_cells_disjoint rs); try done.
    intros ->. by apply (fo_disj _ _ _ _ _ Hf o). }
  assert (Hhd : in_u 16 (fx_next_free (pg_fixed p))).
  { eapply free_chain_head; [apply (fo_chain _ _ _ _ _ Hf)|]. intros x Hx.
    change PAGE_END with 65472. destruct (Hfl x Hx). lia. }
  set (d := poke (pg_row_data p) o (le_bytes 2 (fx_next_free (pg_fixed p)))).
  assert (Hd : ∀ a n, 0 ≤ a → a + n ≤ o ∨ o + rs ≤ a → peek d a n = peek (pg_row_data p) a n).
  { intros a n Ha Han. apply (peek_poke_u16_ne (pg_row_data p) o); lia. }
  assert (Hdlen : len d = 65472) by (unfold d; rewrite len_poke; rewrite ?len_le_bytes; lia).
  destruct (row_index_in_bits _ _ _ _ o Hf) as (i & -> & Hi); try done; [lia|].
  set (fx1 := {| fx_next_free := i * rs; fx_last := fx_last (pg_fixed p);
    fx_num_rows := fx_num_rows (pg_fixed p) - 1; fx_present_rows := fx_present_rows (pg_fixed p) |}).
  destruct (set_row_presence_ok (E:=PageError) _ _ _ _ i false Hf Hi) as (bits & Hs & Hk & Hbb & Hbit).
  assert (Hsz : Z.of_nat (size P) = Z.of_nat (size (P ∖ {[i * rs]})) + 1).
  { rewrite size_difference by set_solver. rewrite size_singleton.
    assert (size P ≠ 0%nat); [|lia]. intros Hz%size_empty_iff. set_solver. }
  exists (set_fixed {| fx_next_free := i * rs; fx_last := fx_last (pg_fixed p);
    fx_num_rows := fx_num_rows (pg_fixed p) - 1; fx_present_rows := bits |} (set_row_data d p)).
  split_and!; psimpl; try done.
  - unfold fixed_free, prepend_freelist. unfold sbind at 1, slift at 1.
    rewrite set_ref_Ok by (rewrite ?len_le_bytes; lia || done). fold d. cbn [rbind].
    unfold sbind at 1, smodify at 1. unfold sbind at 1, slift at 1. psimpl.
    rewrite (fo_num _ _ _ _ _ Hf), sub_u_Ok by lia.
    unfold sbind, slift. psimpl. unfold set_row_presence in Hs |- *.
    destruct (offset_div (i * rs) rs) as [k| | |]; try done. cbn [rbind] in *.
    cbn [fx_present_rows]. destruct (bitset_set _ k false); try done. cbn [rbind] in *.
    by injection Hs as ->.
  - split; psimpl; try done.
    + split; cbn; try done.
      * rewrite (fo_last _ _ _ _ _ Hf), Hsz. unfold len. simpl. lia.
      * rewrite (fo_num _ _ _ _ _ Hf). lia.
      * rewrite Hbb. apply (fo_room _ _ _ _ _ Hf).
      * intros x. rewrite <-(fo_cells _ _ _ _ _ Hf). rewrite elem_of_cons, elem_of_difference, elem_of_singleton.
        destruct (decide (x = i * rs)) as [->|]; [tauto|]. tauto.
      * intros x. rewrite elem_of_cons. intros [->|Hx]; [set_solver|].
        pose proof (fo_disj _ _ _ _ _ Hf x Hx). set_solver.
      * constructor; [|apply (fo_nodup _ _ _ _ _ Hf)]. intros Hx. by apply (fo_disj _ _ _ _ _ Hf (i * rs)).
      * apply (free_chain_prepend (pg_row_data p)); try done; try lia; [|apply (fo_chain _ _ _ _ _ Hf)].
        intros x Hx. destruct (Hfl x Hx) as (? & ? & ?). done.
    + pose proof (po_var _ _ _ _ _ _ H) as []. split; try done.
      eapply free_chain_frame; [|done]. intros g Hg. unfold peek_u16.
      destruct (granule_cell _ _ _ _ _ _ g H ltac:(by left)) as (G1 & G2 & G3 & G4).
      rewrite Hd; [done|lia..].
    + cbn. lia.
Qed.

Lemma free_granule_ok p fl P vl g u :
  page_ok rs p fl P vl (g :: u) →
  ∃ p', free_granule g p = (Ok tt, p') ∧ page_ok rs p' fl P (g :: vl) u ∧ keeps p p' u ∧
    avail p' = avail p + 1.
Proof using Hrs.
  intros H. pose proof (page_bounds _ _ _ _ _ H) as (Hb1 & Hb2 & Hb3 & Hb4).
  destruct (granule_cell _ _ _ _ _ _ g H ltac:(right; left)) as (G1 & G2 & G3 & G4).
  change PAGE_END with 65472 in G3. pose proof (po_var _ _ _ _ _ _ H) as Hv.
  assert (Hu : len (g :: u) = len u + 1) by (unfold len; simpl; lia). rewrite Hu in Hb3.
  pose proof (len_nonneg u). pose proof (len_nonneg vl).
  pose proof (vo_nodup _ _ _ _ Hv) as Hnd.
  apply NoDup_app in Hnd as (Nd0 & Nd1 & Nd2). apply NoDup_cons in Nd2 as [Nd2 Nd3].
  assert (Hother : ∀ x, x ∈ vl ∨ x ∈ u → 0 ≤ x ∧ x < 65472 ∧ (x + 64 ≤ g ∨ g + 64 ≤ x)).
  { intros x Hx. destruct (granule_cell _ _ _ _ _ _ x H) as (? & ? & ? & ?);
      [rewrite elem_of_cons; tauto|]. change PAGE_END with 65472 in *. split_and!; [lia..|].
    apply aligned_disjoint; [lia|done..|]. intros ->.
    destruct Hx as [Hx|?]; [|done]. apply (Nd1 _ Hx). by left. }
  assert (Hhd : in_u 16 (vr_next_free (pg_var p))).
  { eapply free_chain_head; [apply (vo_chain _ _ _ _ Hv)|]. intros x Hx.
    change PAGE_END with 65472. destruct (Hother x ltac:(by left)). lia. }
  set (d := poke (pg_row_data p) g (le_bytes 2 (vr_next_free (pg_var p)))).
  assert (Hd : ∀ a n, 0 ≤ a → a + n ≤ g ∨ g + 64 ≤ a → peek d a n = peek (pg_row_data p) a n).
  { intros a n Ha Han. apply (peek_poke_u16_ne (pg_row_data p) g); lia. }
  assert (Hdlen : len d = 65472) by (unfold d; rewrite len_poke; rewrite ?len_le_bytes; lia).
  exists (set_row_data d (set_var {| vr_next_free := g; vr_freelist_len := len vl + 1;
    vr_first := vr_first (pg_var p); vr_num_granules := len u |} p)).
  split_and!; psimpl.
  - unfold free_granule, prepend_freelist.
    unfold sbind at 1, slift at 1. rewrite (vo_free _ _ _ _ Hv), add_u_Ok by (change (2 ^ 16) with 65536; lia).
    unfold sbind at 1, slift at 1. rewrite (vo_num _ _ _ _ Hv), sub_u_Ok, Hu, Z.add_simpl_r by lia.
    unfold sbind at 1, slift at 1. change PAGE_END with 65472.
    rewrite set_ref_Ok by (rewrite ?len_le_bytes; try apply mod_2_of_64; lia || done). done.
  - destruct (page_ok_data rs p fl P vl (g :: u) d) as [D1 D2 D3 D4]; psimpl; try done.
    { intros x [Hx|Hx]; unfold peek_u16; rewrite Hd; try done.
      - by apply (fo_cells _ _ _ _ _ (po_fixed _ _ _ _ _ _ H) x); left.
      - destruct (row_cell _ _ _ _ _ x H ltac:(by left)) as (? & ? & _). pose proof (rs_min _ Hrs). lia.
      - by apply Hother; left.
      - destruct (Hother x ltac:(by left)) as (? & ? & ?). lia. }
    split; psimpl; try done. split; cbn; try done.
    + unfold len. simpl. lia.
    + change PAGE_END with 65472. unfold len in *. simpl. lia.
    + intros x. rewrite <-(vo_cells _ _ _ _ Hv). rewrite !elem_of_cons. tauto.
    + constructor; [|by apply NoDup_app; split_and!; [done| |done]; intros x Hx Hx';
        apply (Nd1 x Hx); by right].
      rewrite elem_of_app. intros [Hx|?]; [|done]. apply (Nd1 _ Hx). by left.
    + apply (free_chain_prepend (pg_row_data p)); try done; try lia; [|apply (vo_chain _ _ _ _ Hv)].
      intros x Hx. destruct (Hother x ltac:(by left)) as (? & ? & ?). split; [done|lia].
  - split; psimpl; try done; [intros a n Ha Han; apply Hd; lia|].
    intros x Hx. destruct (Hother x ltac:(by right)) as (? & ? & ?). apply Hd; lia.
  - unfold avail. psimpl. cbn. rewrite (vo_free _ _ _ _ Hv). lia.
Qed.

(** Freeing the granules of an object. *)
Lemma free_object_loop_ok c : ∀ p fl P vl u chs fuel,
  page_ok rs p fl P vl (c ++ u) → 0 < fx_last (pg_fixed p) → granules_at (pg_row_data p) c chs →
  (length c < fuel)%nat →
  ∃ p' vl', free_object_loop fuel (default 0 (head c)) p = (Ok tt, p') ∧
    page_ok rs p' fl P vl' u ∧ keeps p p' u ∧ avail p' = avail p + len c.
Proof using Hrs.
  induction c as [|g c IH]; intros p fl P vl u chs fuel H Hlast Hc Hf;
    (destruct fuel as [|fuel]; [simpl in Hf; lia|]).
  - exists p, vl. split_and!; try done. unfold len. simpl. lia.
  - destruct chs as [|ch chs]; [done|]. destruct Hc as [Hg Hc]. simpl app in H.
    destruct (granule_cell _ _ _ _ _ _ g H ltac:(right; left)) as (G1 & G2 & G3 & G4).
    pose proof (page_bounds _ _ _ _ _ H) as (Hb1 & Hb2 & Hb3 & Hb4).
    change PAGE_END with 65472 in G3.
    destruct (free_granule_ok _ _ _ _ _ _ H) as (p1 & Hfg & H1 & Hk & Hav).
    destruct (IH p1 fl P (g :: vl) u chs fuel) as (p2 & vl2 & Hr & H2 & Hk2 & Hav2); try done.
    + by rewrite (kp_fixed _ _ _ Hk).
    + eapply granules_at_frame; [|done]. intros x Hx.
      destruct (granule_cell _ _ _ _ _ _ x H1) as (? & ? & _); [right; apply elem_of_app; by left|].
      rewrite (kp_fixed _ _ _ Hk) in *. split; [lia|].
      apply (kp_granules _ _ _ Hk). apply elem_of_app. by left.
    + simpl in Hf. lia.
    + exists p2, vl2. split_and!; try done.
      * simpl default. cbn [free_object_loop]. unfold is_var_len_null, VAR_LEN_NULL.
        rewrite (proj2 (Z.eqb_neq g 0)) by lia.
        unfold sbind at 1, slift at 1. unfold get_granule_ref.
        change GRANULE_SIZE with 64. change PAGE_END with 65472.
        rewrite get_ref_Ok by (done || lia).
        rewrite (sbind_Ok _ _ _ _ _ Hfg). destruct Hg as (_ & _ & Hn & _).
        unfold granule_header. rewrite peek_u16_peek, Z.add_0_r, Hn by lia. done.
      * eapply keeps_trans; [|eapply keeps_weaken; [|exact Hk]|exact Hk2]; [done|].
        intros x ?. apply elem_of_app. by right.
      * unfold len in *. simpl. lia.
Qed.
End alloc.
