(* ===== verification/PageRows.v ===== *)
(** * Rows of a page

    What a page holds: its rows by their offset, each with the byte strings
    of its var-len objects.  [page_inv] relates this to the bytes of the page
    and to the blob store; insertion and deletion are proved to preserve it
    and to have the effect on the rows that their names promise. *)

From Stdlib Require Import ZArith Lia.
From stdpp Require Import gmap gmultiset.
From S2P Require Import Prelude Mem Indexes BitSet VarLen BlobStore Page PageInv.
Local Open Scope Z_scope.

(** ** Slots *)

(** Slots for references, four bytes each, in a row of [rs] bytes. *)
Definition slot_ok (rs o : Z) : Prop := 0 ≤ o ∧ o + 4 ≤ rs.
Fixpoint slots_ok (rs : Z) (offs : list Z) : Prop :=
  match offs with
  | [] => True
  | o :: offs => slot_ok rs o ∧ Forall (λ o', o + 4 ≤ o' ∨ o' + 4 ≤ o) offs ∧ slots_ok rs offs
  end.

(** Two rows that differ in the slots at most. *)
Definition same_but (offs : list Z) (row row' : list byte) : Prop :=
  len row' = len row ∧
  ∀ i, (∀ o, o ∈ offs → ¬ (o ≤ Z.of_nat i < o + 4)) → row' !! i = row !! i.

Lemma same_but_refl offs row : same_but offs row row.
Proof. done. Qed.

Lemma same_but_trans offs row1 row2 row3 :
  same_but offs row1 row2 → same_but offs row2 row3 → same_but offs row1 row3.
Proof. intros [H1 H2] [H3 H4]. split; [congruence|]. intros i Hi. by rewrite H4, H2. Qed.

Lemma same_but_weaken offs offs' row row' :
  (∀ o, o ∈ offs → o ∈ offs') → same_but offs row row' → same_but offs' row row'.
Proof. intros Ho [H1 H2]. split; [done|]. intros i Hi. apply H2. auto. Qed.

Lemma same_but_poke o row bs :
  0 ≤ o → len bs = 4 → o + 4 ≤ len row → same_but [o] row (poke row o bs).
Proof.
  intros Ho Hb Hl. split; [apply len_poke; lia|]. intros i Hi.
  rewrite lookup_poke by lia. unfold len in Hb. rewrite decide_False; [done|].
  intros ?. apply (Hi o); [by left|lia].
Qed.

(** A range apart from the slots. *)
Lemma same_but_peek offs row row' a n :
  same_but offs row row' → 0 ≤ a → 
  (∀ o, o ∈ offs → a + n ≤ o ∨ o + 4 ≤ a) → peek row' a n = peek row a n.
Proof.
  intros [H1 H2] Ha Ho. apply peek_ext. intros i Hi. apply H2. intros o Hin. destruct (Ho o Hin); lia.
Qed.

Lemma peek_vlr_ext l l' a : peek l' a 4 = peek l a 4 → 0 ≤ a → peek_vlr l' a = peek_vlr l a.
Proof.
  intros H Ha. unfold peek_vlr. rewrite <-(Z.add_0_r a) at 1 3.
  rewrite <-!(peek_u16_peek _ a 4) by lia. by rewrite H.
Qed.

Lemma slots_nodup rs offs : slots_ok rs offs → NoDup offs.
Proof.
  induction offs as [|o offs IH]; simpl; [constructor|]. intros (_ & Hd & Hs).
  constructor; [|auto]. intros Hin. rewrite Forall_forall in Hd. destruct (Hd o Hin); lia.
Qed.

Lemma slots_bounds rs offs o : slots_ok rs offs → o ∈ offs → slot_ok rs o.
Proof.
  induction offs as [|o' offs IH]; simpl; [by rewrite elem_of_nil|].
  intros (Ho & _ & Hs). rewrite elem_of_cons. intros [->|]; auto.
Qed.

(** There are no more slots than bytes. *)
Lemma slots_length rs offs : slots_ok rs offs → Z.of_nat (length offs) ≤ Z.max 0 rs.
Proof.
  intros Hs. assert (offs ⊆+ seqZ 0 rs) as Hsub.
  { apply NoDup_submseteq; [by eapply slots_nodup|]. intros o Ho. apply elem_of_seqZ.
    destruct (slots_bounds _ _ _ Hs Ho). lia. }
  apply submseteq_length in Hsub. rewrite length_seqZ in Hsub. lia.
Qed.

(** What is known of a row: its bytes, its slots, and for each slot the
    granules and the byte string of the object it refers to. *)
Record GRow := {
  gr_fixed : list byte;
  gr_offs : list Z;
  gr_chains : list (list Z);
  gr_objs : list (list byte);
}.

(** The granules of the objects of all rows. *)
Definition row_granules (rows : gmap Z GRow) : list Z :=
  map_to_list rows ≫= λ x, concat (gr_chains x.2).

(** The objects of all rows. *)
Definition row_objects (rows : gmap Z GRow) : list (list byte) :=
  map_to_list rows ≫= λ x, gr_objs x.2.

Lemma row_granules_insert rows o gr :
  rows !! o = None → row_granules (<[o := gr]> rows) ≡ₚ concat (gr_chains gr) ++ row_granules rows.
Proof. intros Ho. unfold row_granules. by rewrite map_to_list_insert. Qed.

Lemma row_objects_insert rows o gr :
  rows !! o = None → row_objects (<[o := gr]> rows) ≡ₚ gr_objs gr ++ row_objects rows.
Proof. intros Ho. unfold row_objects. by rewrite map_to_list_insert. Qed.

Lemma row_granules_delete rows o gr :
  rows !! o = Some gr → row_granules rows ≡ₚ concat (gr_chains gr) ++ row_granules (delete o rows).
Proof.
  intros Ho. rewrite <-(insert_delete_id rows o gr Ho) at 1.
  apply row_granules_insert, lookup_delete_eq.
Qed.

Lemma row_objects_delete rows o gr :
  rows !! o = Some gr → row_objects rows ≡ₚ gr_objs gr ++ row_objects (delete o rows).
Proof.
  intros Ho. rewrite <-(insert_delete_id rows o gr Ho) at 1.
  apply row_objects_insert, lookup_delete_eq.
Qed.

Lemma elem_of_row_granules rows g :
  g ∈ row_granules rows ↔ ∃ o gr, rows !! o = Some gr ∧ g ∈ concat (gr_chains gr).
Proof.
  unfold row_granules. rewrite list_elem_of_bind. split.
  - intros ([o gr] & Hg & Hin). apply elem_of_map_to_list in Hin. eauto.
  - intros (o & gr & Hin & Hg). exists (o, gr). by rewrite elem_of_map_to_list.
Qed.

Section rows.
Context {B V : Type} {BsI : BlobStore B} {HashI : Blake3} {LawI : BlobStoreLaws B} {VisI : VarLenMembers V}.
Context (rs : Z) (Hrs : row_size_ok rs) (v : V).

(** [row] is a row of the type the visitor is for, with slots at [offs],
    whatever the references in them. *)
Record shape (row : list byte) (offs : list Z) : Prop := {
  sh_len : len row = rs;
  sh_slots : slots_ok rs offs;
  sh_visits : visits v (same_but offs row) (vit_start v) offs;
}.

(** ** Objects *)

(** The object [ob] in the granules [c], as the reference [r] describes it. *)
Definition obj_at (data : list byte) (c : list Z) (ob : list byte) (r : VarLenRef) : Prop :=
  if 992 <? len ob then ∃ g, c = [g] ∧ r = large_blob g ∧ granules_at data [g] [blake3 ob]
  else r = {| length_in_bytes := len ob; first_granule := default 0 (head c) |} ∧
       granules_at data c (chunks ob).

Lemma obj_at_frame data data' c ob r :
  (∀ g, g ∈ c → 0 ≤ g ∧ peek data' g 64 = peek data g 64) →
  obj_at data c ob r → obj_at data' c ob r.
Proof.
  intros Hf. unfold obj_at. case_match.
  - intros (g & -> & -> & Hg). exists g. split_and!; try done. by eapply granules_at_frame.
  - intros [-> Hg]. split; [done|]. by eapply granules_at_frame.
Qed.

(** The granules an object takes. *)
Definition obj_granules (ob : list byte) : Z := (bytes_to_granules (len ob)).1.

Lemma obj_at_length data c ob r : obj_at data c ob r → len c = obj_granules ob.
Proof.
  unfold obj_at, obj_granules. destruct (Z.ltb_spec 992 (len ob)).
  - intros (g & -> & _). unfold bytes_to_granules. change OBJECT_SIZE_BLOB_THRESHOLD with 992.
    by rewrite (proj2 (Z.ltb_lt _ _)).
  - intros [_ Hg]. apply granules_at_length in Hg. rewrite length_chunks by done.
    unfold len. by rewrite Hg.
Qed.

(** The objects that are in the blob store. *)
Definition large (obs : list (list byte)) : gmultiset (list byte) :=
  list_to_set_disj (filter (λ ob, 992 < len ob) obs).

(** The number of bytes of them. *)
Definition large_bytes (obs : list (list byte)) : Z :=
  foldr Z.add 0 (map len (filter (λ ob, 992 < len ob) obs)).

Definition total_granules (obs : list (list byte)) : Z := foldr Z.add 0 (map obj_granules obs).

Lemma obj_granules_nonneg ob : 0 ≤ obj_granules ob.
Proof.
  unfold obj_granules, bytes_to_granules. case_match; simpl; [lia|].
  unfold div_ceil. apply Z.div_pos; [|done]. pose proof (len_nonneg ob).
  change DATA_SIZE with 62. lia.
Qed.

Lemma total_granules_nonneg obs : 0 ≤ total_granules obs.
Proof.
  unfold total_granules. induction obs; simpl; [lia|]. pose proof (obj_granules_nonneg a). lia.
Qed.

(** No two different large objects have the same hash. *)
Definition collision_free (m : gmultiset (list byte)) : Prop :=
  ∀ b b', b ∈ m → b' ∈ m → blake3 b = blake3 b' → b = b'.

(** ** Effects on the page *)

(** An operation that leaves the rows other than the one at [o], and the
    granules of [u], alone. *)
Record keeps_row (p p' : Page) (u : list Z) (o : Z) : Prop := {
  kr_fixed : pg_fixed p' = pg_fixed p;
  kr_hash : pg_hash p' = pg_hash p;
  kr_rows a n : 0 ≤ a → a + n ≤ fx_last (pg_fixed p) → a + n ≤ o ∨ o + rs ≤ a →
    peek (pg_row_data p') a n = peek (pg_row_data p) a n;
  kr_granules g : g ∈ u → peek (pg_row_data p') g 64 = peek (pg_row_data p) g 64;
}.

Lemma keeps_row_of p p' u o : keeps p p' u → keeps_row p p' u o.
Proof. intros []. split; auto. Qed.

Lemma keeps_row_trans p1 p2 p3 u1 u2 o :
  (∀ g, g ∈ u1 → g ∈ u2) → keeps_row p1 p2 u1 o → keeps_row p2 p3 u2 o → keeps_row p1 p3 u1 o.
Proof.
  intros Hu [A1 A2 A3 A4] [B1 B2 B3 B4]. rewrite A1 in B3.
  split; [congruence|congruence|..].
  - intros. by rewrite B3, A3.
  - intros. rewrite B4, A4; auto.
Qed.

Lemma keeps_row_weaken p1 p2 u1 u2 o :
  (∀ g, g ∈ u1 → g ∈ u2) → keeps_row p1 p2 u2 o → keeps_row p1 p2 u1 o.
Proof. intros Hu [A1 A2 A3 A4]. split; auto. Qed.

(** Writing [bs] at [k] in the row [o]. *)
Lemma write_row_ok p fl P vl u o k bs :
  page_ok rs p fl P vl u → o ∈ P → 0 ≤ k → k + len bs ≤ rs →
  ∃ data', fixed_write_row (E:=PageError) p o rs k bs = Ok data' ∧
    page_ok rs (set_row_data data' p) fl P vl u ∧
    keeps_row p (set_row_data data' p) u o ∧
    peek data' o rs = poke (peek (pg_row_data p) o rs) k bs.
Proof using Hrs.
  intros H Ho Hk Hkl. pose proof (page_bounds _ Hrs _ _ _ _ _ H) as (Hb1 & Hb2 & Hb3 & Hb4).
  destruct (row_cell _ Hrs _ _ _ _ _ o H ltac:(by right)) as (O1 & O2 & O3 & O4).
  pose proof (len_nonneg bs). pose proof (rs_min _ Hrs).
  unfold fixed_write_row.
  rewrite (proj2 (Z.leb_le (o + rs) _)), (proj2 (Z.leb_le 0 k)), (proj2 (Z.leb_le (k + len bs) rs)) by lia.
  cbn [andb]. rewrite slice_write_Ok by lia.
  set (d := poke (pg_row_data p) (o + k) bs).
  assert (Hd : ∀ a n, 0 ≤ a → a + n ≤ o ∨ o + rs ≤ a → peek d a n = peek (pg_row_data p) a n).
  { intros a n Ha Han. apply peek_poke_ne; lia. }
  exists d. split_and!; [done|..].
  - apply page_ok_data; [unfold d; rewrite len_poke; [by rewrite Hb4|lia..]| |done].
    intros x [Hx|Hx]; unfold peek_u16; rewrite Hd; try done.
    + by apply (row_cell _ Hrs _ _ _ _ _ x H); left.
    + destruct (row_cell _ Hrs _ _ _ _ _ x H ltac:(by left)) as (X1 & X2 & X3 & _).
      destruct (aligned_disjoint rs x o); try done; [lia| |lia..].
      intros ->. by apply (fo_disj _ _ _ _ _ (po_fixed _ _ _ _ _ _ H) o).
    + destruct (granule_cell _ _ _ _ _ _ x H ltac:(by left)). lia.
    + destruct (granule_cell _ _ _ _ _ _ x H ltac:(by left)). lia.
  - split; psimpl; try done; [intros; apply Hd; done|].
    intros g Hg. destruct (granule_cell _ _ _ _ _ _ g H ltac:(by right)). apply Hd; lia.
  - unfold d. rewrite peek_poke_in by lia. f_equal. lia.
Qed.

(** ** Inserting objects *)

Lemma on_page_Ok {E A} (m : st Page E A) p p' (bs : B) a :
  m p = (Ok a, p') → on_page m (p, bs) = (Ok a, (p', bs)).
Proof. intros H. unfold on_page. by rewrite H. Qed.

Lemma on_store_Ok {E E' A} (m : st B E A) (p : Page) bs bs' a :
  m bs = (Ok a, bs') → on_store (E':=E') m (p, bs) = (Ok a, (p, bs')).
Proof. intros H. unfold on_store. by rewrite H. Qed.

Lemma row_last_pos p fl P vl u o : page_ok rs p fl P vl u → o ∈ P → 0 < fx_last (pg_fixed p).
Proof using Hrs.
  intros H Ho. destruct (row_cell _ Hrs _ _ _ _ _ o H ltac:(by right)).
  pose proof (rs_min _ Hrs). lia.
Qed.

Lemma large_cons ob obs : large (ob :: obs) = large [ob] ⊎ large obs.
Proof using Type.
  clear Hrs. unfold large. rewrite !filter_cons. case_decide; simpl; multiset_solver.
Qed.

(** Storing a large object, whose hash goes to the granule [g]. *)
Lemma write_hash_ok p bs fl P vl g u m ob :
  page_ok rs p fl P vl (g :: u) → 992 < len ob → holds bs m → no_collision m ob →
  ∃ p' bs', write_large_blob_hash_to_granule ob (large_blob g) (p, bs) = (Ok (len ob), (p', bs')) ∧
    page_ok rs p' fl P vl (g :: u) ∧ obj_at (pg_row_data p') [g] ob (large_blob g) ∧ keeps p p' u ∧
    avail p' = avail p ∧ holds bs' (m ⊎ {[+ ob +]}).
Proof using Hrs.
  intros H Hl Hm Hc. destruct (insert_blob_law bs m ob Hm Hc) as (bs' & Hb & Hm').
  destruct (write_granule_ok _ Hrs p fl P vl g u (blake3 ob) 32 0 H)
    as (p2 & Hw & H2 & Hk2 & Hav2 & Hl2 & Hn2 & Hd2); try done; [rewrite blake3_len; done|].
  rewrite blake3_len in Hd2. change BLOB_HASH_SIZE with 32 in Hd2.
  exists p2, bs'. split_and!; try done.
  - unfold write_large_blob_hash_to_granule.
    rewrite (sbind_Ok _ _ _ (p, bs') (blake3 ob)) by by apply on_store_Ok.
    rewrite (sbind_Ok _ _ _ (p2, bs') tt); [done|]. apply on_page_Ok. by rewrite blake3_len.
  - unfold obj_at. rewrite (proj2 (Z.ltb_lt _ _)) by done. exists g. split_and!; try done. simpl. split; [|done].
    split_and!; rewrite ?blake3_len; done.
Qed.

(** One object: allocating it, and storing its hash if it is large. *)
Lemma insert_object_ok p bs fl P vl u o m ob :
  page_ok rs p fl P vl u → o ∈ P → obj_granules ob ≤ avail p →
  holds bs m → (992 < len ob → no_collision m ob) →
  ∃ c vlr p1 (p' : Page) in_blob n bs' vl',
    alloc_for_slice ob p = (Ok (vlr, in_blob), p1) ∧
    (if in_blob : bool then write_large_blob_hash_to_granule ob vlr else sret 0) (p1, bs) =
      (Ok n, (p', bs')) ∧ in_blob = (992 <? len ob) ∧
    page_ok rs p' fl P vl' (c ++ u) ∧ obj_at (pg_row_data p') c ob vlr ∧ vlr_ok vlr ∧
    keeps p p' u ∧ avail p' = avail p - obj_granules ob ∧ holds bs' (m ⊎ large [ob]).
Proof using Hrs.
  intros H Ho Hav Hm Hc. pose proof (row_last_pos _ _ _ _ _ _ H Ho) as Hlast.
  pose proof (len_nonneg ob) as Hob. unfold obj_at, large. rewrite filter_cons.
  destruct (Z.ltb_spec 992 (len ob)) as [Hl|Hl].
  - assert (Hg1 : obj_granules ob = 1).
    { unfold obj_granules, bytes_to_granules. change OBJECT_SIZE_BLOB_THRESHOLD with 992.
      by rewrite (proj2 (Z.ltb_lt _ _)). }
    rewrite Hg1 in *. rewrite decide_True by done.
    destruct (alloc_for_obj_large _ Hrs p fl P vl u (len ob)
      (λ _, map (λ c, (c, len c)) (rev (chunks ob))) H Hlast Hl) as (g & p1 & vl' & Ha & H1 & Hk & Hav1); [lia|].
    destruct (write_hash_ok p1 bs fl P vl' g u m ob H1 Hl Hm (Hc Hl)) as (p2 & bs' & Hw & H2 & Hob2 & Hk2 & Hav2 & Hm').
    unfold obj_at in Hob2. rewrite (proj2 (Z.ltb_lt _ _)) in Hob2 by done.
    exists [g], (large_blob g), p1, p2, true, (len ob), bs', vl'. split_and!; try done.
    + destruct (granule_cell _ _ _ _ _ _ g H1 ltac:(right; left)).
      pose proof (page_bounds _ Hrs _ _ _ _ _ H1). change PAGE_END with 65472 in *.
      split; unfold in_u; simpl; [unfold LARGE_BLOB_SENTINEL, u16_MAX|]; lia.
    + by eapply keeps_trans.
    + lia.
    + simpl. by rewrite gmultiset_disj_union_right_id.
  - rewrite decide_False by lia.
    destruct (alloc_for_slice_small _ Hrs p fl P vl u ob H Hlast Hl Hav) as (c & p1 & vl' & Ha & H1 & Hg & Hk & Hav1).
    eexists c, _, p1, p1, false, 0, bs, vl'. split_and!; try done.
    + destruct (head_granule _ Hrs _ _ _ _ _ _ H1). split; simpl; unfold in_u in *; lia.
    + simpl. by rewrite gmultiset_disj_union_right_id.
Qed.

Lemma fixed_get_row_ok {E} p fl P vl u o :
  page_ok rs p fl P vl u → o ∈ P → fixed_get_row (E:=E) p o rs = Ok (peek (pg_row_data p) o rs).
Proof using Hrs.
  intros H Ho. pose proof (page_bounds _ Hrs _ _ _ _ _ H) as (Hb1 & Hb2 & Hb3 & Hb4).
  destruct (row_cell _ Hrs _ _ _ _ _ o H ltac:(by right)) as (O1 & O2 & _). pose proof (rs_min _ Hrs).
  unfold fixed_get_row. rewrite (proj2 (Z.leb_le _ _)) by done. apply slice_Ok; lia.
Qed.

Lemma len_row p fl P vl u o :
  page_ok rs p fl P vl u → o ∈ P → len (peek (pg_row_data p) o rs) = rs.
Proof using Hrs.
  intros H Ho. pose proof (page_bounds _ Hrs _ _ _ _ _ H) as (Hb1 & Hb2 & Hb3 & Hb4).
  destruct (row_cell _ Hrs _ _ _ _ _ o H ltac:(by right)) as (O1 & O2 & _). pose proof (rs_min _ Hrs).
  apply len_peek; lia.
Qed.

(** The references at [offs] of the row describe the objects [objs], in the
    granules [cs]. *)
Definition objs_at (data row : list byte) (offs : list Z) (cs : list (list Z))
    (objs : list (list byte)) : Prop :=
  Forall3 (λ k c ob, obj_at data c ob (peek_vlr row k)) offs cs objs.

(** The effect of filling the slots [offs] of the row [o] with [objs]. *)
Record filled (p p' : Page) (fl : list Z) (P : gset Z) (u : list Z) (o : Z) (offs : list Z)
    (cs : list (list Z)) (objs : list (list byte)) : Prop := {
  fi_page : ∃ vl', page_ok rs p' fl P vl' (concat cs ++ u);
  fi_row : same_but offs (peek (pg_row_data p) o rs) (peek (pg_row_data p') o rs);
  fi_objs : objs_at (pg_row_data p') (peek (pg_row_data p') o rs) offs cs objs;
  fi_keeps : keeps_row p p' u o;
  fi_avail : avail p' = avail p - total_granules objs;
}.

(** Filling the first slot, whose object is in the granules [c], and then the
    others. *)
Lemma fill_slot p p2 fl P vl vl2 u o k c ob vlr :
  page_ok rs p fl P vl u → o ∈ P → slot_ok rs k →
  page_ok rs p2 fl P vl2 (c ++ u) → obj_at (pg_row_data p2) c ob vlr → vlr_ok vlr → keeps p p2 u →
  avail p2 = avail p - obj_granules ob →
  ∃ p3, (∀ bs : B, on_page (write_slot o rs k vlr) (p2, bs) = (Ok tt, (p3, bs))) ∧
    page_ok rs p3 fl P vl2 (c ++ u) ∧ avail p3 = avail p2 ∧
    same_but [k] (peek (pg_row_data p) o rs) (peek (pg_row_data p3) o rs) ∧
    ∀ p4 offs cs objs, Forall (λ o', k + 4 ≤ o' ∨ o' + 4 ≤ k) offs →
      filled p3 p4 fl P (c ++ u) o offs cs objs →
      filled p p4 fl P u o (k :: offs) (c :: cs) (ob :: objs).
Proof using Hrs.
  intros H Ho [Hk1 Hk2] H2 Hob Hvok Hk Hav2. pose proof (len_row _ _ _ _ _ _ H Ho) as Hlr.
  assert (Hrow2 : peek (pg_row_data p2) o rs = peek (pg_row_data p) o rs).
  { apply (kp_rows _ _ _ Hk); destruct (row_cell _ Hrs _ _ _ _ _ o H ltac:(by right)); lia. }
  destruct (write_row_ok p2 fl P vl2 (c ++ u) o k (vlr_bytes vlr) H2 Ho Hk1)
    as (d3 & Hd3 & H3 & Hk3 & Hrow3); [by rewrite len_vlr_bytes|]. rewrite Hrow2 in Hrow3.
  set (p3 := set_row_data d3 p2) in *. set (row := peek (pg_row_data p) o rs) in *.
  assert (Hsb3 : same_but [k] row (peek (pg_row_data p3) o rs)).
  { unfold p3. psimpl. rewrite Hrow3. apply same_but_poke; rewrite ?len_vlr_bytes; lia. }
  exists p3. split_and!; try done.
  - intros bs. apply on_page_Ok. unfold write_slot, sbind, slift. by rewrite Hd3.
  - intros p4 offs cs objs Hkd [[vl4 F1] F2 F3 F4 F5]. split.
    + exists vl4. eapply page_ok_perm; [|exact F1]. simpl. solve_Permutation.
    + eapply same_but_trans; [eapply same_but_weaken; [|exact Hsb3]|eapply same_but_weaken; [|exact F2]];
        set_solver.
    + constructor; [|done].
      assert (peek_vlr (peek (pg_row_data p4) o rs) k = vlr) as ->.
      { apply peek_vlr_bytes; [done| |done].
        rewrite (same_but_peek _ _ _ _ _ F2) by
          (try done; intros o' Ho'; rewrite Forall_forall in Hkd; destruct (Hkd o' Ho'); lia).
        unfold p3. psimpl. rewrite Hrow3. apply peek_poke_eq; rewrite ?len_vlr_bytes; lia. }
      eapply obj_at_frame; [|exact Hob]. intros g Hg.
      destruct (granule_cell _ _ _ _ _ _ g H2) as (G1 & G2 & _); [right; apply elem_of_app; by left|].
      pose proof (page_bounds _ Hrs _ _ _ _ _ H2). split; [lia|].
      rewrite (kr_granules _ _ _ _ F4) by (apply elem_of_app; by left).
      by rewrite (kr_granules _ _ _ _ Hk3) by (apply elem_of_app; by left).
    + eapply (keeps_row_trans _ _ _ u u); [done|by apply keeps_row_of|].
      eapply (keeps_row_trans _ _ _ u u); [done|eapply keeps_row_weaken; [|exact Hk3]|
        eapply keeps_row_weaken; [|exact F4]]; intros; apply elem_of_app; by right.
    + change (avail p3) with (avail p2) in F5. unfold total_granules in *. simpl. lia.
Qed.

Lemma filled_nil p fl P vl u o : page_ok rs p fl P vl u → filled p p fl P u o [] [] [].
Proof.
  intros H. split; try done; [by exists vl|apply Forall3_nil|].
  unfold total_granules. simpl. lia.
Qed.

(** The rest of the slots, once the first is filled. *)
Lemma same_but_rest k offs row row1 (R : list byte → Prop) :
  (∀ row', same_but (k :: offs) row row' → R row') → same_but [k] row row1 →
  ∀ row', same_but offs row1 row' → R row'.
Proof.
  intros HR H1 row' H2. apply HR. eapply same_but_trans.
  - eapply same_but_weaken; [|exact H1]. set_solver.
  - eapply same_but_weaken; [|exact H2]. set_solver.
Qed.

(** The next slot of a row whose visitor yields [k]. *)
Lemma next_slot_ok p (bs : B) fl P vl u o it it' k (R : list byte → Prop) :
  page_ok rs p fl P vl u → o ∈ P → R (peek (pg_row_data p) o rs) →
  (∀ row, R row → vit_next v it row = Ok (k, it')) →
  next_slot v it o rs (p, bs) = (Ok (k, it'), (p, bs)).
Proof using Hrs.
  intros H Ho HR Hn. unfold next_slot. rewrite (fixed_get_row_ok _ _ _ _ _ _ H Ho). cbn [rbind].
  by rewrite Hn.
Qed.

Lemma insert_objects_ok fl P o (offs : list Z) : ∀ objs it p bs vl u m (R : list byte → Prop),
  length objs = length offs → page_ok rs p fl P vl u → o ∈ P → visits v R it offs →
  (∀ row', same_but offs (peek (pg_row_data p) o rs) row' → R row') → slots_ok rs offs →
  total_granules objs ≤ avail p → holds bs m → collision_free (m ⊎ large objs) →
  ∃ p' bs' cs, insert_objects v it o rs objs (p, bs) = (Ok tt, (p', bs')) ∧
    filled p p' fl P u o offs cs objs ∧ holds bs' (m ⊎ large objs).
Proof using Hrs.
  induction offs as [|k offs IH]; intros [|ob objs] it p bs vl u m R Hlen H Ho Hvis HR Hs Hav Hm Hc;
    try done; inversion Hvis as [it0 Hn|it0 o0 it' offs' Hn Hvis']; subst;
    pose proof (HR _ (same_but_refl _ _)) as HRrow.
  - destruct (Hn _ HRrow) as [it' Hn']. exists p, bs, []. split_and!.
    + simpl. unfold sbind, next_slot. rewrite (fixed_get_row_ok _ _ _ _ _ _ H Ho). cbn [rbind].
      by rewrite Hn'.
    + by eapply filled_nil.
    + unfold large. rewrite filter_nil. simpl. by rewrite gmultiset_disj_union_right_id.
  - destruct Hs as (Hk & Hkd & Hs). rewrite large_cons in Hc.
    assert (Htg : total_granules (ob :: objs) = obj_granules ob + total_granules objs) by done.
    pose proof (total_granules_nonneg objs).
    destruct (insert_object_ok p bs fl P vl u o m ob)
      as (c & vlr & p1 & p2 & in_blob & n & bs2 & vl2 & Ha & Hw & _ & H2 & Hob & Hvok & Hkp & Hav2 & Hm2);
      try done; [lia| |].
    { intros Hl b Hb. apply Hc; [multiset_solver|]. unfold large. rewrite filter_cons_True by done.
      simpl. multiset_solver. }
    destruct (fill_slot p p2 fl P vl vl2 u o k c ob vlr) as (p3 & Hws & H3 & Hav3 & Hsb & Hfill); try done.
    destruct (IH objs it' p3 bs2 vl2 (c ++ u) (m ⊎ large [ob]) R) as (p4 & bs4 & cs & Hr & Hf & Hm4); try done.
    + by injection Hlen.
    + by eapply same_but_rest.
    + lia.
    + intros b b' Hb Hb'. apply Hc; multiset_solver.
    + exists p4, bs4, (c :: cs). split_and!.
      * cbn [insert_objects]. rewrite (sbind_Ok _ _ _ _ _ (next_slot_ok _ bs _ _ _ _ _ _ _ _ _ H Ho HRrow Hn)).
        rewrite (sbind_Ok _ _ _ (p1, bs) (vlr, in_blob)) by by apply on_page_Ok.
        rewrite (sbind_Ok _ _ _ _ _ Hw). by rewrite (sbind_Ok _ _ _ _ _ (Hws bs2)).
      * by apply Hfill.
      * rewrite large_cons. by rewrite gmultiset_disj_union_assoc.
Qed.

(** ** The invariant *)

Record row_ok (data : list byte) (o : Z) (gr : GRow) : Prop := {
  ro_bytes : peek data o rs = gr_fixed gr;
  ro_shape : shape (gr_fixed gr) (gr_offs gr);
  ro_objs : objs_at data (gr_fixed gr) (gr_offs gr) (gr_chains gr) (gr_objs gr);
}.

(** The page holds exactly the rows [rows]. *)
Definition page_inv (p : Page) (rows : gmap Z GRow) : Prop :=
  ∃ fl vl u, page_ok rs p fl (dom rows) vl u ∧ u ≡ₚ row_granules rows ∧
    map_Forall (row_ok (pg_row_data p)) rows.

Lemma objs_at_frame data data' row offs cs objs :
  (∀ g, g ∈ concat cs → 0 ≤ g ∧ peek data' g 64 = peek data g 64) →
  objs_at data row offs cs objs → objs_at data' row offs cs objs.
Proof.
  intros Hf. unfold objs_at. induction 1 as [|k c ob offs cs objs Hob _ IH]; [constructor|].
  simpl in Hf. constructor.
  - eapply obj_at_frame; [|done]. intros g Hg. apply Hf, elem_of_app. by left.
  - apply IH. intros g Hg. apply Hf, elem_of_app. by right.
Qed.

Lemma row_ok_frame data data' o gr :
  peek data' o rs = peek data o rs →
  (∀ g, g ∈ concat (gr_chains gr) → 0 ≤ g ∧ peek data' g 64 = peek data g 64) →
  row_ok data o gr → row_ok data' o gr.
Proof. intros Ho Hg [H1 H2 H3]. split; [congruence|done|by eapply objs_at_frame]. Qed.

(** Rows other than the one at [o] after an operation on that one. *)
Lemma rows_ok_frame p p' fl P vl u o rows :
  page_ok rs p fl P vl u → o mod rs = 0 → (∀ g, g ∈ row_granules rows → g ∈ u) →
  dom rows ⊆ P → rows !! o = None →
  (∀ a n, 0 ≤ a → a + n ≤ fx_last (pg_fixed p) → a + n ≤ o ∨ o + rs ≤ a →
    peek (pg_row_data p') a n = peek (pg_row_data p) a n) →
  (∀ g, g ∈ row_granules rows → peek (pg_row_data p') g 64 = peek (pg_row_data p) g 64) →
  map_Forall (row_ok (pg_row_data p)) rows → map_Forall (row_ok (pg_row_data p')) rows.
Proof using Hrs.
  intros H Hom Hu Hdom Hnone Hrows Hgr Hall x gr Hx.
  destruct (row_cell _ Hrs _ _ _ _ _ x H) as (X1 & X2 & X3 & _).
  { right. apply Hdom. by apply elem_of_dom_2 in Hx. }
  eapply row_ok_frame; [| |by apply Hall].
  - apply Hrows; try done. pose proof (rs_min _ Hrs).
    destruct (aligned_disjoint rs x o); try done; [lia|congruence|lia..].
  - intros g Hg. assert (Hg' : g ∈ row_granules rows) by (apply elem_of_row_granules; eauto).
    destruct (granule_cell _ _ _ _ _ _ g H) as (G1 & _); [auto|].
    pose proof (page_bounds _ Hrs _ _ _ _ _ H). split; [lia|auto].
Qed.

(** ** Inserting a row *)

(** Room for a row with [n] granules, by the state of the page. *)
Lemma has_space_spec {E} p fl P vl u n :
  page_ok rs p fl P vl u →
  ∃ b, has_space_for_row (E:=E) p rs n = Ok b ∧
    (b = true ↔ match fl with
     | [] => rs ≤ vr_first (pg_var p) - fx_last (pg_fixed p) ∧
         n ≤ len vl + (vr_first (pg_var p) - fx_last (pg_fixed p) - rs) / 64
     | _ => n ≤ avail p
     end).
Proof using Hrs.
  intros H. pose proof (page_bounds _ Hrs _ _ _ _ _ H) as (Hb1 & Hb2 & Hb3 & Hb4).
  pose proof (po_fixed _ _ _ _ _ _ H) as Hf. pose proof (fo_chain _ _ _ _ _ Hf) as Hch.
  unfold has_space_for_row, gap_remaining_size, offset_sub, avail. rewrite sub_u_Ok by lia. cbn [rbind].
  rewrite (vo_free _ _ _ _ (po_var _ _ _ _ _ _ H)). unfold space_to_granules.
  change GRANULE_SIZE with 64. destruct fl as [|o fl].
  - simpl in Hch. rewrite Hch. change (fcr_has PAGE_END) with false.
    set (gap := vr_first (pg_var p) - fx_last (pg_fixed p)) in *.
    destruct (Z.ltb_spec gap rs) as [Hlt|Hge].
    + eexists. split; [done|]. split; [done|lia].
    + eexists. split; [done|]. rewrite Z.leb_le.
      pose proof (Z.div_pos (gap - rs) 64 ltac:(lia) ltac:(lia)). lia.
  - destruct Hch as [-> _]. destruct (row_cell _ Hrs _ _ _ _ _ o H ltac:(left; left)) as (O1 & O2 & _).
    pose proof (rs_min _ Hrs). unfold fcr_has, is_at_end. change PAGE_END with 65472.
    rewrite (proj2 (Z.eqb_neq o 65472)) by lia. cbn [negb].
    eexists. split; [done|]. rewrite Z.leb_le.
    pose proof (Z.div_pos (vr_first (pg_var p) - fx_last (pg_fixed p)) 64 ltac:(lia) ltac:(lia)). lia.
Qed.

Lemma avail_nonneg p fl P vl u : page_ok rs p fl P vl u → 0 ≤ avail p.
Proof using Hrs.
  intros H. pose proof (page_bounds _ Hrs _ _ _ _ _ H). unfold avail.
  rewrite (vo_free _ _ _ _ (po_var _ _ _ _ _ _ H)). pose proof (len_nonneg vl).
  pose proof (Z.div_pos (vr_first (pg_var p) - fx_last (pg_fixed p)) 64). lia.
Qed.

(** Allocating the row, when there is room for it with [n] granules. *)
Lemma alloc_row_ok p fl P vl u n :
  page_ok rs p fl P vl u → has_space_for_row (E:=PageError) p rs n = Ok true →
  ∃ o p' fl', alloc_fixed_len rs p = (Ok o, p') ∧ page_ok rs p' fl' ({[o]} ∪ P) vl u ∧
    (o ∉ P) ∧ took_row p p' ∧ fx_last (pg_fixed p) ≤ fx_last (pg_fixed p') ∧ n ≤ avail p'.
Proof using Hrs.
  intros H Hsp. destruct (has_space_spec (E:=PageError) p fl P vl u n H) as (b & Hb & Hiff).
  rewrite Hb in Hsp. injection Hsp as ->. pose proof (proj1 Hiff eq_refl) as Hn.
  pose proof (rs_pos _ Hrs). destruct fl as [|o fl].
  - destruct Hn as [Hgap Hn].
    destruct (alloc_fixed_len_gap _ Hrs _ _ _ _ H Hgap) as (p' & Ha & H' & Ho & Ht & Hl).
    eexists _, p', []. split_and!; try done; [lia|]. destruct Ht as (_ & Hv & _).
    unfold avail. rewrite Hl, Hv, (vo_free _ _ _ _ (po_var _ _ _ _ _ _ H)).
    by replace (vr_first (pg_var p) - (fx_last (pg_fixed p) + rs)) with
      (vr_first (pg_var p) - fx_last (pg_fixed p) - rs) by lia.
  - destruct (alloc_fixed_len_freelist _ Hrs _ _ _ _ _ _ H) as (p' & Ha & H' & Ho & Ht & Hl).
    exists o, p', fl. split_and!; try done; [lia|]. destruct Ht as (_ & Hv & _).
    unfold avail in *. by rewrite Hl, Hv.
Qed.

(** A row allocated in the page and filled, joined to the others. *)
Lemma page_inv_insert p p1 p2 fl vl u o gr rows cs :
  page_ok rs p fl (dom rows) vl u → u ≡ₚ row_granules rows →
  map_Forall (row_ok (pg_row_data p)) rows → o ∉ dom rows → o mod rs = 0 → took_row p p1 →
  fx_last (pg_fixed p) ≤ fx_last (pg_fixed p1) →
  keeps_row p1 p2 u o → gr_chains gr = cs → row_ok (pg_row_data p2) o gr →
  (∃ fl' vl', page_ok rs p2 fl' ({[o]} ∪ dom rows) vl' (concat cs ++ u)) →
  page_inv p2 (<[o := gr]> rows).
Proof using Hrs.
  intros H Hu Hall Ho Hom (T1 & T2 & T3) Hlast Hk Hcs Hro (fl' & vl' & H2).
  apply not_elem_of_dom in Ho. exists fl', vl', (concat cs ++ u). split_and!.
  - by rewrite dom_insert_L.
  - rewrite row_granules_insert, Hcs by done. by rewrite Hu.
  - apply map_Forall_insert_2; [done|]. eapply (rows_ok_frame p p2 fl (dom rows) vl u o); try done.
    + intros g Hg. by rewrite Hu.
    + intros a n Ha Han Hd. rewrite (kr_rows _ _ _ _ Hk), T1 by (done || lia). done.
    + intros g Hg. rewrite (kr_granules _ _ _ _ Hk), T1 by by rewrite Hu. done.
Qed.

Lemma insert_row_ok p bs rows m row offs objs :
  page_inv p rows → holds bs m → shape row offs → length objs = length offs →
  has_space_for_row (E:=PageError) p rs (total_granules objs) = Ok true →
  collision_free (m ⊎ large objs) →
  ∃ o p' bs' gr, insert_row row objs v (p, bs) = (Ok o, (p', bs')) ∧ rows !! o = None ∧
    page_inv p' (<[o := gr]> rows) ∧ gr_offs gr = offs ∧ gr_objs gr = objs ∧
    same_but offs row (gr_fixed gr) ∧ holds bs' (m ⊎ large objs) ∧ pg_hash p' = None.
Proof using Hrs.
  intros (fl & vl & u & H & Hu & Hall) Hm Hsh Hlen Hsp Hc.
  destruct (alloc_row_ok p fl (dom rows) vl u _ H Hsp) as (o & p1 & fl1 & Ha & H1 & Ho & Ht & Hl & Hav).
  assert (Hin : o ∈ {[o]} ∪ dom rows) by set_solver.
  pose proof (sh_len _ _ Hsh) as Hrl. pose proof (rs_min _ Hrs) as Hmin. pose proof (rs_max _ Hrs) as Hmax.
  destruct (write_row_ok p1 fl1 _ vl u o 0 row H1 Hin) as (d & Hw & H2 & Hk2 & Hrow2); [lia..|].
  assert (Hrow : peek d o rs = row).
  { rewrite Hrow2. apply poke_all. by rewrite (len_row _ _ _ _ _ _ H1 Hin). }
  set (p2 := set_row_data d p1) in *.
  destruct (insert_objects_ok fl1 ({[o]} ∪ dom rows) o offs objs (vit_start v) p2 bs vl u m (same_but offs row))
    as (p3 & bs3 & cs & Hr & Hf & Hm3); try done.
  - apply (sh_visits _ _ Hsh).
  - unfold p2. psimpl. by rewrite Hrow.
  - apply (sh_slots _ _ Hsh).
  - destruct Hf as [F1 F2 F3 F4 F5]. unfold p2 in F2. psimpl. rewrite Hrow in F2.
    set (gr := {| gr_fixed := peek (pg_row_data p3) o rs; gr_offs := offs; gr_chains := cs; gr_objs := objs |}).
    assert (Hk3 : keeps_row p1 p3 u o) by (eapply (keeps_row_trans _ _ _ u u); done).
    exists o, p3, bs3, gr. split_and!; try done.
    + unfold insert_row. rewrite Hrl, wrap_u_id by (unfold in_u; change PAGE_END with 65472 in *; lia).
      rewrite (sbind_Ok _ _ _ (p1, bs) o) by by apply on_page_Ok.
      unfold sbind at 1, slift. rewrite Hw.
      rewrite (sbind_Ok _ _ _ (p2, bs) tt) by by apply on_page_Ok.
      by rewrite (sbind_Ok _ _ _ _ _ Hr).
    + by apply not_elem_of_dom.
    + eapply (page_inv_insert p p1); try done.
      * by apply (row_cell _ Hrs _ _ _ _ _ o H1); right.
      * split; simpl; [done| |done]. destruct Hsh as [S1 S2 S3].
        destruct F2 as [F2 F2']. split; [congruence|done|].
        eapply visits_mono; [|exact S3]. intros row' Hrow'. eapply same_but_trans; [|exact Hrow'].
        by split.
      * destruct F1 as [vl' F1]. eauto.
    + destruct Ht as (_ & _ & T3). by rewrite (kr_hash _ _ _ _ Hk3).
Qed.

(** ** Deleting a row *)

Lemma visit_all_ok it offs (R : list byte → Prop) row fuel :
  visits v R it offs → R row → (length offs < fuel)%nat → visit_all fuel v it row = Ok offs.
Proof.
  intros Hv Hrow. revert fuel. induction Hv as [it Hn|it o it' offs Hn _ IH]; intros fuel Hf;
    (destruct fuel as [|fuel]; [simpl in Hf; lia|]); simpl.
  - destruct (Hn row Hrow) as [it' ->]. done.
  - rewrite (Hn row Hrow). simpl. rewrite IH; [done|]. simpl in Hf. lia.
Qed.

Lemma visit_var_len_ok {E} row offs :
  shape row offs → visit_var_len (E:=E) v row = Ok offs.
Proof using Hrs.
  intros [S1 S2 S3]. unfold visit_var_len.
  rewrite (visit_all_ok _ offs (same_but offs row)); [done|done|apply same_but_refl|].
  pose proof (slots_length _ _ S2). pose proof (rs_min _ Hrs). unfold len in S1. lia.
Qed.

Lemma granule_fuel_ok p fl P vl c u :
  page_ok rs p fl P vl (c ++ u) → (length c < granule_fuel)%nat.
Proof using Hrs.
  intros H. pose proof (page_bounds _ Hrs _ _ _ _ _ H) as (Hb1 & Hb2 & Hb3 & Hb4).
  rewrite len_app in Hb3. pose proof (len_nonneg vl). pose proof (len_nonneg u).
  change granule_fuel with (Z.to_nat 1024). unfold len in *. lia.
Qed.

Lemma blob_hash_ok {E} data g h next :
  0 ≤ g → g + 64 ≤ len data → len h = 32 → granule_at data g h next →
  blob_hash (E:=E) (peek data g 64) = Ok h.
Proof.
  intros Hg Hl Hh (G1 & G2 & G3 & G4). unfold blob_hash, granule_data, granule_header.
  rewrite peek_u16_peek, Z.add_0_r, G2, Hh by lia.
  change GRANULE_HEADER_SIZE with 2. change DATA_SIZE with 62.
  rewrite peek_peek by lia. rewrite slice_Ok by (rewrite ?len_peek; lia).
  rewrite peek_peek, Z.add_0_r by lia. rewrite Hh in G4. rewrite G4.
  unfold BlobHash_try_from. by rewrite Hh.
Qed.

Lemma free_object_ok p bs fl P vl u o c ob r m :
  page_ok rs p fl P vl (c ++ u) → o ∈ P → obj_at (pg_row_data p) c ob r →
  holds bs (m ⊎ large [ob]) →
  ∃ p' bs' vl', free_object r (p, bs) = (Ok (large_bytes [ob]), (p', bs')) ∧
    page_ok rs p' fl P vl' u ∧ keeps p p' u ∧ avail p' = avail p + obj_granules ob ∧ holds bs' m.
Proof using Hrs.
  intros H Ho Hob Hm. pose proof (row_last_pos _ _ _ _ _ _ H Ho) as Hlast.
  pose proof (obj_at_length _ _ _ _ Hob) as Hlen. pose proof (granule_fuel_ok _ _ _ _ _ _ H) as Hfuel.
  unfold obj_at in Hob. unfold free_object, large_bytes, large in *. rewrite !filter_cons in *.
  destruct (Z.ltb_spec 992 (len ob)) as [Hl|Hl].
  - rewrite decide_True in Hm |- * by done. rewrite filter_nil in *. simpl in Hm |- *.
    rewrite gmultiset_disj_union_right_id in Hm.
    destruct Hob as (g & -> & -> & Hg).
    destruct (free_object_loop_ok _ Hrs [g] p fl P vl u _ granule_fuel H Hlast Hg Hfuel)
      as (p' & vl' & Hf & H' & Hk & Hav).
    destruct (granule_cell _ _ _ _ _ _ g H ltac:(right; left)) as (G1 & G2 & G3 & G4).
    pose proof (page_bounds _ Hrs _ _ _ _ _ H) as (Hb1 & Hb2 & Hb3 & Hb4).
    change PAGE_END with 65472 in G3.
    destruct (free_blob_law bs _ ob Hm) as (bs' & Hfb & Hm'); [multiset_solver|].
    exists p', bs', vl'. split_and!; try done.
    + change (is_large_blob (large_blob g)) with true. cbv iota.
      rewrite (sbind_Ok _ _ _ (p, bs') (len ob)).
      * rewrite (sbind_Ok _ _ _ (p', bs') tt); [by rewrite Z.add_0_r|]. by apply on_page_Ok.
      * unfold page_free_blob. unfold sbind at 1, sassert, is_var_len_null, VAR_LEN_NULL.
        simpl first_granule. rewrite (proj2 (Z.eqb_neq g 0)) by lia. cbn [negb].
        unfold sbind at 1, slift at 1, get_granule_ref. change GRANULE_SIZE with 64.
        change PAGE_END with 65472. rewrite get_ref_Ok by (done || lia).
        unfold sbind at 1, slift at 1.
        rewrite (blob_hash_ok _ g (blake3 ob) 0) by (try apply blake3_len; try apply Hg; lia).
        unfold sbind at 1, slift at 1.
        rewrite (retrieve_blob_law bs _ ob Hm) by multiset_solver.
        by rewrite (sbind_Ok _ _ _ (p, bs') tt) by by apply on_store_Ok.
    + rewrite Hav, Hlen. done.
    + by replace ((m ⊎ {[+ ob +]}) ∖ {[+ ob +]}) with m in Hm' by multiset_solver.
  - rewrite decide_False in Hm |- * by lia. rewrite filter_nil in *. simpl in Hm |- *.
    rewrite gmultiset_disj_union_right_id in Hm. destruct Hob as [-> Hg].
    destruct (free_object_loop_ok _ Hrs c p fl P vl u _ granule_fuel H Hlast Hg Hfuel)
      as (p' & vl' & Hf & H' & Hk & Hav).
    exists p', bs, vl'. split_and!; try done; [|by rewrite Hav, Hlen].
    unfold is_large_blob, LARGE_BLOB_SENTINEL, u16_MAX. simpl length_in_bytes.
    rewrite (proj2 (Z.eqb_neq (len ob) _)) by lia.
    unfold sbind at 1, sret at 1. by rewrite (sbind_Ok _ _ _ (p', bs) tt) by by apply on_page_Ok.
Qed.

Lemma large_bytes_cons ob obs : large_bytes (ob :: obs) = large_bytes [ob] + large_bytes obs.
Proof. unfold large_bytes. rewrite !filter_cons, filter_nil. case_decide; simpl; lia. Qed.

Lemma free_objects_ok fl P o row offs cs objs : ∀ p bs vl u m,
  page_ok rs p fl P vl (concat cs ++ u) → o ∈ P → (∀ k, k ∈ offs → slot_ok (len row) k) → objs_at (pg_row_data p) row offs cs objs →
  holds bs (m ⊎ large objs) →
  ∃ p' bs' vl', free_objects row offs (p, bs) = (Ok (large_bytes objs), (p', bs')) ∧
    page_ok rs p' fl P vl' u ∧ keeps p p' u ∧ holds bs' m.
Proof using Hrs.
  intros p bs vl u m H Ho Hs Hobjs. revert p bs vl u m H Hobjs.
  revert cs objs. induction offs as [|k offs IH]; intros cs objs p bs vl u m H Hobjs Hm;
    inversion Hobjs as [|k' c ob offs' cs' objs' Hob Hobjs' He1 He2 He3]; subst.
  - exists p, bs, vl. unfold large in Hm. rewrite filter_nil in Hm. simpl in Hm.
    rewrite gmultiset_disj_union_right_id in Hm. done.
  - simpl concat in H. rewrite <-app_assoc in H. rewrite large_cons in Hm.
    destruct (free_object_ok p bs fl P vl (concat cs' ++ u) o c ob (peek_vlr row k) (m ⊎ large objs') H Ho Hob)
      as (p1 & bs1 & vl1 & Hf & H1 & Hk & _ & Hm1).
    { by replace (m ⊎ large objs' ⊎ large [ob]) with (m ⊎ (large [ob] ⊎ large objs')) by multiset_solver. }
    destruct (IH ltac:(set_solver) cs' objs' p1 bs1 vl1 u m H1) as (p2 & bs2 & vl2 & Hr & H2 & Hk2 & Hm2).
    + eapply objs_at_frame; [|exact Hobjs']. intros g Hg.
      destruct (granule_cell _ _ _ _ _ _ g H1) as (G1 & _); [right; apply elem_of_app; by left|].
      pose proof (page_bounds _ Hrs _ _ _ _ _ H1). split; [lia|].
      apply (kp_granules _ _ _ Hk), elem_of_app. by left.
    + done.
    + exists p2, bs2, vl2. split_and!; try done.
      * cbn [free_objects]. unfold sbind at 1, slift, row_vlr.
        destruct (Hs k ltac:(left)) as [K1 K2]. rewrite slice_Ok by lia. cbn [rmap rbind].
        rewrite (sbind_Ok _ _ _ _ _ Hf), (sbind_Ok _ _ _ _ _ Hr), (large_bytes_cons ob objs'). done.
      * eapply (keeps_trans _ _ _ u u); [done|eapply keeps_weaken; [|exact Hk]|exact Hk2].
        intros g ?. apply elem_of_app. by right.
Qed.

Lemma delete_row_ok p bs rows m o gr :
  page_inv p rows → rows !! o = Some gr → holds bs (m ⊎ large (gr_objs gr)) →
  ∃ p' bs', page_delete_row o rs v (p, bs) = (Ok (large_bytes (gr_objs gr)), (p', bs')) ∧
    page_inv p' (delete o rows) ∧ holds bs' m ∧ pg_hash p' = None ∧ ∀ E, page_is_full (E:=E) p' rs = Ok false.
Proof using Hrs.
  intros (fl & vl & u & H & Hu & Hall) Ho Hm. destruct (Hall o gr Ho) as [R1 R2 R3].
  assert (Hin : o ∈ dom rows) by by apply elem_of_dom_2 in Ho.
  set (p0 := set_unmodified_hash None p).
  assert (H0 : page_ok rs p0 fl (dom rows) vl u) by (destruct H; split; done).
  apply (page_ok_perm _ _ _ _ _ _ (concat (gr_chains gr) ++ row_granules (delete o rows))) in H0;
    [|by rewrite Hu, (row_granules_delete _ _ _ Ho)].
  destruct (free_objects_ok fl (dom rows) o (gr_fixed gr) (gr_offs gr) (gr_chains gr) (gr_objs gr)
    p0 bs vl (row_granules (delete o rows)) m H0 Hin) as (p1 & bs1 & vl1 & Hf & H1 & Hk & Hm1); try done.
  { intros k. rewrite (sh_len _ _ R2). apply slots_bounds, (sh_slots _ _ R2). }
  destruct (fixed_free_ok _ Hrs p1 fl (dom rows) vl1 _ o H1 Hin) as (p2 & Hff & H2 & Hv2 & Hh2 & Hl2 & Hp2).
  exists p2, bs1. split_and!; try done.
  - unfold page_delete_row. rewrite (sbind_Ok _ _ _ (p0, bs) tt) by by apply on_page_Ok.
    unfold sbind at 1, slift. rewrite (fixed_get_row_ok p0 _ _ _ _ _ H0 Hin).
    change (pg_row_data p0) with (pg_row_data p). rewrite R1.
    unfold sbind at 1, slift. rewrite (visit_var_len_ok _ _ R2).
    rewrite (sbind_Ok _ _ _ _ _ Hf). by rewrite (sbind_Ok _ _ _ (p2, bs1) tt) by by apply on_page_Ok.
  - exists (o :: fl), vl1, (row_granules (delete o rows)). rewrite dom_delete_L. split_and!; try done.
    destruct (row_cell _ Hrs _ _ _ _ _ o H ltac:(by right)) as (O1 & O2 & O3 & _).
    eapply (rows_ok_frame p p2 fl (dom rows) vl u o); try done.
    + intros g Hg. rewrite Hu, (row_granules_delete _ _ _ Ho). apply elem_of_app. by right.
    + rewrite dom_delete_L. set_solver.
    + apply lookup_delete_eq.
    + intros a n Ha Han Hd. rewrite Hp2 by done. by rewrite (kp_rows _ _ _ Hk).
    + intros g Hg. destruct (granule_cell _ _ _ _ _ _ g H1) as (G1 & G2 & _); [by right|].
      rewrite (kp_fixed _ _ _ Hk) in G2. change (pg_fixed p0) with (pg_fixed p) in G2.
      pose proof (rs_min _ Hrs). rewrite Hp2 by lia. by rewrite (kp_granules _ _ _ Hk).
    + by apply map_Forall_delete.
  - rewrite Hh2, (kp_hash _ _ _ Hk). done.
  - intros E. destruct (has_space_spec (E:=E) _ _ _ _ _ 0 H2) as (b & Hb & Hiff).
    unfold page_is_full. rewrite Hb, (proj2 Hiff); [done|]. by eapply avail_nonneg.
Qed.
End rows.
