(* ===== verification/PageRead.v ===== *)
(** * Reading a page

    Empty pages, the rows and objects that reading a page gives, iteration
    over its rows, and its counters, on any page with the invariant of
    [PageRows.v]. *)

From Stdlib Require Import ZArith Lia Sorting.Sorted.
From stdpp Require Import gmap gmultiset.
From S2P Require Import Prelude Mem Indexes BitSet VarLen BlobStore Page PageInv PageRows.
Local Open Scope Z_scope.

(** ** An empty page *)

Lemma blocks_for_rows rs :
  row_size_ok rs → 0 ≤ blocks_for_bits (max_rows_in_page rs) ≤ 512 ∧
  max_rows_in_page rs ≤ blocks_for_bits (max_rows_in_page rs) * 64.
Proof.
  intros [H1 H2 H3]. unfold max_rows_in_page. change PAGE_END with 65472 in *.
  set (n := div_ceil 65472 rs).
  assert (Hn : 0 ≤ n ≤ 32736).
  { unfold n, div_ceil. split; [apply Z.div_pos; lia|].
    enough ((65472 + rs - 1) / rs < 32737) by lia. apply Z.div_lt_upper_bound; lia. }
  unfold blocks_for_bits, div_ceil, BITS. split.
  - split; [apply Z.div_pos; lia|]. enough ((n + 64 - 1) / 64 < 513) by lia.
    apply Z.div_lt_upper_bound; lia.
  - pose proof (Z.div_mod (n + 64 - 1) 64 ltac:(lia)).
    pose proof (Z.mod_pos_bound (n + 64 - 1) 64 ltac:(lia)). lia.
Qed.

Lemma bitset_new_ok {E} rs :
  row_size_ok rs →
  bitset_new (E:=E) (max_rows_in_page rs) =
    Ok (replicate (Z.to_nat (blocks_for_bits (max_rows_in_page rs))) 0).
Proof.
  intros H. destruct (blocks_for_rows rs H). unfold bitset_new, new_for_blocks, from_boxed_slice.
  unfold len. rewrite length_replicate. rewrite (proj2 (Z.leb_le _ _)); [done|].
  unfold u16_MAX. lia.
Qed.

(** A header without rows and granules, whatever the bytes. *)
Lemma page_ok_empty rs p bits :
  row_size_ok rs → len (pg_row_data p) = PAGE_END →
  pg_fixed p = {| fx_next_free := FREE_NIL; fx_last := VAR_LEN_NULL; fx_num_rows := 0;
                  fx_present_rows := bits |} →
  pg_var p = VarHeader_default →
  blocks_ok bits → max_rows_in_page rs ≤ bitset_bits bits → (∀ i, bit bits i = false) →
  page_ok rs p [] ∅ [] [].
Proof.
  intros Hrs Hl Hf Hv Hb1 Hb2 Hb3. split; [done|..]; rewrite ?Hf, ?Hv; [| |done].
  - split; simpl; try done.
    + intros o. rewrite elem_of_nil. unfold VAR_LEN_NULL. split; [set_solver|lia].
    + apply NoDup_nil_2.
  - split; simpl; try done; [|apply NoDup_nil_2].
    intros g. rewrite elem_of_nil. split; [tauto|lia].
Qed.

Section read.
Context {B V : Type} {BsI : BlobStore B} {HashI : Blake3} {LawI : BlobStoreLaws B} {VisI : VarLenMembers V}.
Context (rs : Z) (Hrs : row_size_ok rs) (v : V).

Lemma page_inv_empty p : page_ok rs p [] ∅ [] [] → page_inv rs v p ∅.
Proof. intros H. exists [], [], []. rewrite dom_empty_L. split_and!; try done. Qed.

Lemma page_new_inv {E} :
  ∃ p, page_new (E:=E) rs = Ok p ∧ page_inv rs v p ∅ ∧ pg_hash p = None.
Proof using Hrs.
  unfold page_new, page_new_with_max_row_count, PageHeader_new, FixedHeader_new.
  rewrite bitset_new_ok by done. cbn [rbind rmap]. eexists. split; [done|]. split; [|done].
  destruct (blocks_for_rows rs Hrs). apply page_inv_empty.
  eapply page_ok_empty; try done.
  - apply blocks_ok_replicate. unfold u16_MAX. lia.
  - unfold bitset_bits, BITS, len. rewrite length_replicate. lia.
  - intros. apply bit_replicate.
Qed.

(** A page that is cleared, or reset to its row size, holds no rows. *)
Lemma page_clear_inv p rows : page_inv rs v p rows → page_inv rs v (page_clear p) ∅.
Proof using Hrs.
  intros (fl & vl & u & H & _). apply page_inv_empty.
  pose proof (po_fixed _ _ _ _ _ _ H) as Hf.
  eapply page_ok_empty; try done; [apply (po_len _ _ _ _ _ _ H)|..].
  - apply blocks_ok_replicate. apply (fo_blocks _ _ _ _ _ Hf).
  - unfold bitset_clear, bitset_bits, len. rewrite length_replicate. apply (fo_room _ _ _ _ _ Hf).
  - intros. apply bit_replicate.
Qed.

Lemma page_reset_for_inv {E} p :
  len (pg_row_data p) = PAGE_END → blocks_ok (fx_present_rows (pg_fixed p)) →
  ∃ p', page_reset_for (E:=E) p (max_rows_in_page rs) = Ok p' ∧ page_inv rs v p' ∅.
Proof using Hrs.
  intros Hl Hb. unfold page_reset_for, PageHeader_reset_for, FixedHeader_reset_for, bitset_reset_for.
  destruct (blocks_for_rows rs Hrs). change (hd_fixed (pg_header p)) with (pg_fixed p).
  destruct (Z.eqb_spec (blocks_for_bits (max_rows_in_page rs)) (len (fx_present_rows (pg_fixed p)))) as [He|].
  - cbn [rbind rmap]. eexists. split; [done|]. apply page_inv_empty.
    eapply page_ok_empty; try done.
    + apply blocks_ok_replicate. apply Hb.
    + unfold bitset_clear, bitset_bits, BITS, len in *. rewrite length_replicate. lia.
    + intros. apply bit_replicate.
  - fold (bitset_new (E:=E) (max_rows_in_page rs)). rewrite bitset_new_ok by done. cbn [rbind rmap].
    eexists. split; [done|]. apply page_inv_empty. eapply page_ok_empty; try done.
    + apply blocks_ok_replicate. unfold u16_MAX. lia.
    + unfold bitset_bits, BITS, len. rewrite length_replicate. lia.
    + intros. apply bit_replicate.
Qed.

(** ** Reading *)

Lemma iter_granules_ok {E} p c : ∀ chs fuel,
  len (pg_row_data p) = PAGE_END → (∀ g, g ∈ c → 0 < g ∧ g + 64 ≤ PAGE_END ∧ g mod 64 = 0) →
  granules_at (pg_row_data p) c chs → (length c < fuel)%nat →
  iter_granules (E:=E) fuel p (default 0 (head c)) = Ok (map (λ g, peek (pg_row_data p) g 64) c) ∧
  granules_data (E:=E) (map (λ g, peek (pg_row_data p) g 64) c) = Ok chs.
Proof.
  induction c as [|g c IH]; intros [|ch chs] fuel Hl Hc Hg Hf; try done;
    (destruct fuel as [|fuel]; [simpl in Hf; lia|]).
  - done.
  - destruct Hg as [(G1 & G2 & G3 & G4) Hg]. destruct (Hc g ltac:(left)) as (C1 & C2 & C3).
    destruct (IH chs fuel Hl ltac:(intros; apply Hc; by right) Hg ltac:(simpl in Hf; lia)) as [IH1 IH2].
    change PAGE_END with 65472 in *. pose proof (len_nonneg ch).
    assert (Hh : granule_header (peek (pg_row_data p) g 64) = peek_u16 (pg_row_data p) g).
    { unfold granule_header. by rewrite peek_u16_peek, Z.add_0_r by lia. }
    split.
    + simpl default. cbn [iter_granules map]. unfold is_var_len_null, VAR_LEN_NULL.
      rewrite (proj2 (Z.eqb_neq g 0)) by lia. change GRANULE_SIZE with 64. change PAGE_END with 65472.
      rewrite get_ref_Ok by (done || lia). cbn [rbind]. rewrite Hh, G3, IH1. done.
    + cbn [map granules_data]. unfold granule_data. rewrite Hh, G2.
      change GRANULE_HEADER_SIZE with 2. change DATA_SIZE with 62. rewrite peek_peek by lia.
      rewrite slice_Ok by (rewrite ?len_peek; lia). cbn [rbind].
      rewrite peek_peek, Z.add_0_r, G4 by lia. rewrite IH2. done.
Qed.

(** What the granules of an object hold: the object, or its hash. *)
Definition stored (ob : list byte) : list (list byte) :=
  if 992 <? len ob then [blake3 ob] else chunks ob.

Lemma iter_vlo_data_ok {E} p fl P vl u o c ob r :
  page_ok rs p fl P vl (c ++ u) → o ∈ P → obj_at (pg_row_data p) c ob r →
  iter_vlo_data (E:=E) p (first_granule r) = Ok (stored ob) ∧ is_large_blob r = (992 <? len ob).
Proof using Hrs.
  intros H Ho Hob. pose proof (row_last_pos rs Hrs _ _ _ _ _ _ H Ho) as Hlast.
  pose proof (granule_fuel_ok rs Hrs _ _ _ _ _ _ H) as Hfuel.
  assert (Hc : ∀ g, g ∈ c → 0 < g ∧ g + 64 ≤ PAGE_END ∧ g mod 64 = 0).
  { intros g Hg. destruct (granule_cell _ _ _ _ _ _ g H) as (G1 & G2 & G3 & G4);
      [right; apply elem_of_app; by left|]. split_and!; [lia|done..]. }
  unfold iter_vlo_data, iter_var_len_object, stored. unfold obj_at in Hob.
  destruct (Z.ltb_spec 992 (len ob)) as [Hl|Hl].
  - destruct Hob as (g & -> & -> & Hg).
    destruct (iter_granules_ok (E:=E) p [g] _ granule_fuel (po_len _ _ _ _ _ _ H) Hc Hg Hfuel) as [H1 H2].
    simpl default in H1. simpl first_granule. rewrite H1. done.
  - destruct Hob as [-> Hg].
    destruct (iter_granules_ok (E:=E) p c _ granule_fuel (po_len _ _ _ _ _ _ H) Hc Hg Hfuel) as [H1 H2].
    simpl first_granule. rewrite H1. split; [done|].
    unfold is_large_blob, LARGE_BLOB_SENTINEL, u16_MAX. simpl. apply Z.eqb_neq. lia.
Qed.

(** The granules of one object among those of its row. *)
Lemma concat_lookup (cs : list (list Z)) i c :
  cs !! i = Some c → ∃ l, concat cs ≡ₚ c ++ l.
Proof.
  revert i. induction cs as [|c' cs IH]; intros [|i]; simpl; try done.
  - intros [= ->]. by exists (concat cs).
  - intros Hi. destruct (IH i Hi) as [l Hl]. exists (c' ++ l). rewrite Hl. solve_Permutation.
Qed.

(** A row that is in the page, read back. *)
(** A part of a row. *)
Lemma row_part {E} p rows o gr k n :
  page_inv rs v p rows → rows !! o = Some gr → 0 ≤ k → 0 ≤ n → k + n ≤ rs →
  offset_add (E:=E) o k = Ok (o + k) ∧ page_get_row_data (E:=E) p (o + k) n = Ok (peek (gr_fixed gr) k n).
Proof using Hrs.
  intros (fl & vl & u & H & Hu & Hall) Ho Hk Hn Hl. destruct (Hall o gr Ho) as [R1 R2 R3].
  assert (Hin : o ∈ dom rows) by by apply elem_of_dom_2 in Ho.
  pose proof (page_bounds _ Hrs _ _ _ _ _ H) as (Hb1 & Hb2 & Hb3 & Hb4). pose proof (rs_min _ Hrs).
  destruct (row_cell _ Hrs _ _ _ _ _ o H ltac:(by right)) as (O1 & O2 & _). split.
  - unfold offset_add. apply add_u_Ok. lia.
  - unfold page_get_row_data. rewrite slice_Ok by lia. by rewrite <-R1, peek_peek.
Qed.

Lemma read_row_ok {E} p rows o gr :
  page_inv rs v p rows → rows !! o = Some gr →
  page_get_row_data (E:=E) p o rs = Ok (gr_fixed gr) ∧
  visit_var_len (E:=E) v (gr_fixed gr) = Ok (gr_offs gr) ∧
  Forall2 (λ k ob, row_vlr (E:=E) (gr_fixed gr) k = Ok (peek_vlr (gr_fixed gr) k) ∧
      iter_vlo_data (E:=E) p (first_granule (peek_vlr (gr_fixed gr) k)) = Ok (stored ob) ∧
      is_large_blob (peek_vlr (gr_fixed gr) k) = (992 <? len ob))
    (gr_offs gr) (gr_objs gr).
Proof using Hrs.
  intros (fl & vl & u & H & Hu & Hall) Ho. destruct (Hall o gr Ho) as [R1 R2 R3].
  assert (Hin : o ∈ dom rows) by by apply elem_of_dom_2 in Ho.
  pose proof (page_bounds _ Hrs _ _ _ _ _ H) as (Hb1 & Hb2 & Hb3 & Hb4). pose proof (rs_min _ Hrs).
  destruct (row_cell _ Hrs _ _ _ _ _ o H ltac:(by right)) as (O1 & O2 & _). split_and!.
  - unfold page_get_row_data. rewrite slice_Ok by lia. by rewrite R1.
  - by apply (visit_var_len_ok rs Hrs).
  - apply Forall2_same_length_lookup_2; [by eapply Forall3_length_lr|].
    intros i k ob Hk Hob. unfold objs_at in R3.
    destruct (Forall3_lookup_l _ _ _ _ _ _ R3 Hk) as (c & ob' & Hc & Hob' & Hat).
    assert (ob' = ob) as -> by congruence.
    destruct (concat_lookup _ _ _ Hc) as [l Hl].
    assert (H' : page_ok rs p fl (dom rows) vl (c ++ (l ++ row_granules (delete o rows)))).
    { eapply page_ok_perm; [|exact H]. rewrite Hu, (row_granules_delete _ _ _ Ho), Hl. solve_Permutation. }
    split; [|by eapply iter_vlo_data_ok]. unfold row_vlr.
    destruct (slots_bounds _ _ k (sh_slots _ _ _ _ R2)) as [K1 K2]; [by eapply list_elem_of_lookup_2|].
    rewrite slice_Ok; [done|done|done|]. rewrite (sh_len _ _ _ _ R2). lia.
Qed.

(** ** Iterating over the rows *)

Lemma row_offsets_ok {E} idxs :
  Forall (λ i, 0 ≤ i ∧ i * rs < 65536) idxs →
  row_offsets (E:=E) idxs rs = Ok (map (λ i, i * rs) idxs).
Proof using Hrs.
  pose proof (rs_min _ Hrs). induction 1 as [|i idxs [Hi1 Hi2] _ IH]; [done|].
  simpl. rewrite wrap_u_id by (unfold in_u; change (2 ^ 16) with 65536; nia).
  rewrite mul_u_Ok by done. simpl. rewrite IH. done.
Qed.

Lemma sorted_map_mul idxs : StronglySorted Z.lt idxs → StronglySorted Z.lt (map (λ i, i * rs) idxs).
Proof using Hrs.
  pose proof (rs_pos _ Hrs). induction 1 as [|i idxs _ IH Hi]; simpl; constructor; [done|].
  rewrite Forall_forall in *. intros x Hx. apply list_elem_of_In, in_map_iff in Hx as (j & <- & Hj).
  apply list_elem_of_In in Hj. specialize (Hi j Hj). nia.
Qed.

(** The offsets of the set bits from index [k] on. *)
Lemma bits_offsets p rows k :
  page_inv rs v p rows → 0 ≤ k →
  let idxs := bits_from (fx_present_rows (pg_fixed p)) k in
  Forall (λ i, 0 ≤ i ∧ i * rs < 65536) idxs ∧
  ∀ o, o ∈ map (λ i, i * rs) idxs ↔ o ∈ dom rows ∧ k * rs ≤ o.
Proof using Hrs.
  intros (fl & vl & u & H & _ & _) Hk idxs. pose proof (rs_pos _ Hrs).
  pose proof (po_fixed _ _ _ _ _ _ H) as Hf. pose proof (page_bounds _ Hrs _ _ _ _ _ H).
  assert (Hi : ∀ i, i ∈ idxs ↔ k ≤ i ∧ i * rs ∈ dom rows).
  { intros i. unfold idxs. rewrite elem_of_bits_from by done. split.
    - intros [? Hb]. rewrite (fo_bits _ _ _ _ _ Hf) in Hb by lia. by apply bool_decide_eq_true in Hb.
    - intros [? Hb]. rewrite (fo_bits _ _ _ _ _ Hf) by lia. split; [done|]. by apply bool_decide_eq_true. }
  split.
  - apply Forall_forall. intros i Hin. apply Hi in Hin as [? Hin].
    destruct (row_cell _ Hrs _ _ _ _ _ (i * rs) H ltac:(by right)). split; [lia|]. lia.
  - intros o. rewrite list_elem_of_In, in_map_iff. split.
    + intros (i & <- & Hin). apply list_elem_of_In, Hi in Hin as [? ?]. split; [done|nia].
    + intros [Hd Hle]. destruct (row_cell _ Hrs _ _ _ _ _ o H ltac:(by right)) as (_ & _ & Hm & _).
      apply Z.mod_divide in Hm as [i ->]; [|lia]. exists i. split; [done|].
      apply list_elem_of_In, Hi. split; [nia|done].
Qed.

Lemma iter_fixed_len_ok {E} p rows :
  page_inv rs v p rows →
  ∃ l, iter_fixed_len (E:=E) p rs = Ok l ∧ StronglySorted Z.lt l ∧ ∀ o, o ∈ l ↔ o ∈ dom rows.
Proof using Hrs.
  intros H. destruct (bits_offsets p rows 0 H ltac:(lia)) as [Hf Hin].
  destruct H as (fl & vl & u & H & _ & _). pose proof (po_fixed _ _ _ _ _ _ H) as Hfx.
  destruct (iter_set_ok _ (fo_blocks _ _ _ _ _ Hfx)) as [Hok Hl].
  eexists. split; [|split].
  - unfold iter_fixed_len. rewrite iter_set_collect_spec; [|done|].
    + rewrite Hl. cbn [rbind]. by apply row_offsets_ok.
    + rewrite Hl. unfold present_fuel.
      pose proof (length_bits_from (fx_present_rows (pg_fixed p)) 0). lia.
  - apply sorted_map_mul, sorted_bits_from.
  - intros o. rewrite Hin. split; [tauto|]. intros Ho. split; [done|].
    destruct (row_cell _ Hrs _ _ _ _ _ o H ltac:(by right)). lia.
Qed.

Lemma iter_fixed_len_from_ok {E} p rows o :
  page_inv rs v p rows → o = 0 ∨ o ∈ dom rows →
  ∃ l, iter_fixed_len_from (E:=E) p rs o = Ok l ∧ StronglySorted Z.lt l ∧
    ∀ x, x ∈ l ↔ x ∈ dom rows ∧ o ≤ x.
Proof using Hrs.
  intros H Ho. pose proof (rs_pos _ Hrs). pose proof H as (fl & vl & u & Hp & _ & _).
  pose proof (po_fixed _ _ _ _ _ _ Hp) as Hfx.
  assert (∃ i, o = i * rs ∧ 0 ≤ i ≤ bitset_bits (fx_present_rows (pg_fixed p))) as (i & -> & Hi).
  { destruct Ho as [->|Ho].
    - exists 0. split; [lia|]. unfold bitset_bits, BITS, len. lia.
    - pose proof (page_bounds _ Hrs _ _ _ _ _ Hp).
      destruct (row_cell _ Hrs _ _ _ _ _ o Hp ltac:(by right)) as (O1 & O2 & O3 & _).
      destruct (row_index_in_bits _ Hrs _ _ _ _ o Hfx) as (i & -> & Hi); try done; [lia|].
      exists i. split; [done|lia]. }
  destruct (bits_offsets p rows i H ltac:(lia)) as [Hf Hin].
  destruct (iter_set_from_ok (E:=E) _ i (fo_blocks _ _ _ _ _ Hfx) Hi) as (it & Hit & Hok & Hl).
  eexists. split; [|split].
  - unfold iter_fixed_len_from, offset_div. rewrite (proj2 (Z.eqb_neq rs 0)) by lia. cbn [rbind].
    rewrite Z.div_mul by lia. rewrite Hit. cbn [rbind].
    rewrite iter_set_collect_spec; [|done|].
    + rewrite Hl. cbn [rbind]. by apply row_offsets_ok.
    + rewrite Hl. unfold present_fuel.
      pose proof (length_bits_from (fx_present_rows (pg_fixed p)) i). lia.
  - apply sorted_map_mul, sorted_bits_from.
  - done.
Qed.

Lemma has_row_offset_ok {E} p rows o :
  page_inv rs v p rows → 0 ≤ o → o mod rs = 0 → o + rs ≤ 65472 →
  page_has_row_offset (E:=E) p rs o = Ok (bool_decide (o ∈ dom rows)).
Proof using Hrs.
  intros (fl & vl & u & H & _ & _) Ho Hm Hle. pose proof (rs_pos _ Hrs).
  pose proof (po_fixed _ _ _ _ _ _ H) as Hfx.
  destruct (row_index_in_bits _ Hrs _ _ _ _ o Hfx) as (i & -> & Hi); try done.
  unfold page_has_row_offset, is_row_present, offset_div.
  rewrite (proj2 (Z.eqb_neq rs 0)), (proj2 (Z.eqb_eq _ 0)) by (done || lia). cbn [rbind].
  rewrite Z.div_mul by lia. rewrite bitset_get_bit by done. by rewrite (fo_bits _ _ _ _ _ Hfx) by lia.
Qed.

Lemma row_present {E} p rows o gr :
  page_inv rs v p rows → rows !! o = Some gr → page_has_row_offset (E:=E) p rs o = Ok true.
Proof using Hrs.
  intros Hp Ho. assert (Hin : o ∈ dom rows) by by apply elem_of_dom_2 in Ho.
  pose proof Hp as (fl & vl & u & H & _ & _). pose proof (page_bounds _ Hrs _ _ _ _ _ H) as (Hb1 & Hb2 & Hb3 & Hb4).
  destruct (row_cell _ Hrs _ _ _ _ _ o H ltac:(by right)) as (O1 & O2 & O3).
  rewrite (has_row_offset_ok p rows o Hp) by (done || lia). by rewrite bool_decide_true.
Qed.

(** ** Counters *)

Lemma total_granules_chains data row offs cs objs :
  objs_at data row offs cs objs → len (concat cs) = total_granules objs.
Proof.
  unfold objs_at, total_granules. induction 1 as [|k c ob offs cs objs Hob _ IH]; [done|].
  simpl. by rewrite len_app, IH, (obj_at_length _ _ _ _ Hob).
Qed.

Lemma total_granules_app l1 l2 : total_granules (l1 ++ l2) = total_granules l1 + total_granules l2.
Proof. unfold total_granules. rewrite map_app. apply foldr_add_app. Qed.

Lemma total_granules_perm l1 l2 : l1 ≡ₚ l2 → total_granules l1 = total_granules l2.
Proof. apply foldr_add_perm. Qed.

Lemma row_granules_total data rows :
  map_Forall (row_ok rs v data) rows → len (row_granules rows) = total_granules (row_objects rows).
Proof.
  induction rows as [|o gr rows Ho IH] using map_ind; [done|].
  intros Hall. apply map_Forall_insert in Hall as [[_ _ R3] Hall]; [|done].
  rewrite (total_granules_perm _ _ (row_objects_insert rows o gr Ho)), total_granules_app.
  rewrite <-IH by done. rewrite <-(total_granules_chains _ _ _ _ _ R3). unfold len.
  rewrite (Permutation_length (row_granules_insert rows o gr Ho)), length_app. lia.
Qed.

Lemma page_counters p rows :
  page_inv rs v p rows →
  page_num_rows p = Z.of_nat (size rows) ∧
  page_num_var_len_granules p = total_granules (row_objects rows).
Proof.
  intros (fl & vl & u & H & Hu & Hall). split.
  - unfold page_num_rows. rewrite (fo_num _ _ _ _ _ (po_fixed _ _ _ _ _ _ H)). by rewrite size_dom.
  - unfold page_num_var_len_granules. rewrite (vo_num _ _ _ _ (po_var _ _ _ _ _ _ H)).
    rewrite <-(row_granules_total _ _ Hall). unfold len. by rewrite Hu.
Qed.
End read.
