(* ===== verification/PageCopy.v ===== *)
(** * Copying rows between pages

    [copy_row_into] and [copy_filter_into] of crates/table/src/page.rs on
    pages with the invariant: the rows that are kept arrive in the
    destination with their objects, up to the first one that does not fit. *)

From Stdlib Require Import ZArith Lia Sorting.Sorted.
From stdpp Require Import gmap gmultiset.
From S2P Require Import Prelude Mem Indexes BitSet VarLen BlobStore Page PageInv PageRows PageRead.
Local Open Scope Z_scope.

Section copy.
Context {B V : Type} {BsI : BlobStore B} {HashI : Blake3} {LawI : BlobStoreLaws B} {VisI : VarLenMembers V}.
Context (rs : Z) (Hrs : row_size_ok rs) (v : V).

(** Copying the granules of an object behind [d], which is allocated. *)
Lemma copy_granules_ok fl P iter : ∀ d src ch chs p vl u,
  granule_data (E:=PageError) src = Ok ch → granules_data (E:=PageError) iter = Ok chs →
  Forall (λ c, len c ≤ 62) (ch :: chs) →
  page_ok rs p fl P vl (d :: u) → 0 < fx_last (pg_fixed p) → len iter ≤ avail p →
  ∃ ds ld ls chl p1 p' vl', copy_granules d src iter p = (Ok (ld, ls), p1) ∧
    granule_data (E:=PageError) ls = Ok chl ∧ (iter = [] → ls = src) ∧
    write_chunk_to_granule chl (len chl) ld VAR_LEN_NULL p1 = (Ok tt, p') ∧
    page_ok rs p' fl P vl' ((d :: ds) ++ u) ∧
    granules_at (pg_row_data p') (d :: ds) (ch :: chs) ∧ keeps p p' u ∧
    avail p' = avail p - len iter.
Proof using Hrs.
  induction iter as [|src' iter IH]; intros d src ch chs p vl u Hsrc Hiter Hall H Hlast Hav;
    apply Forall_cons in Hall as [Hch Hall]; pose proof (len_nonneg ch) as Hch0.
  - injection Hiter as <-.
    destruct (write_granule_ok _ Hrs p fl P vl d u ch (len ch) 0 H) as (p' & Hw & H' & Hk & Hav' & Hl & Hn & Hd);
      try done; [lia|].
    exists [], d, src, ch, p, p', vl. split_and!; try done. unfold len. simpl. lia.
  - assert (Hi : len (src' :: iter) = len iter + 1) by (unfold len; simpl; lia). rewrite Hi in *.
    pose proof (len_nonneg iter) as Hin. simpl in Hiter.
    destruct (granule_data src') as [ch'| | |] eqn:Hsrc'; try done. cbn [rbind] in Hiter.
    destruct (granules_data iter) as [chs'| | |] eqn:Hiter'; try done. injection Hiter as <-.
    destruct (alloc_granule_ok _ Hrs _ _ _ _ _ H Hlast) as (nd & p1 & vl1 & Ha & H1 & Ht & Hnin & Hav1); [lia|].
    assert (H1' : page_ok rs p1 fl P vl1 (d :: nd :: u)) by (eapply page_ok_perm; [|exact H1]; solve_Permutation).
    destruct (head_granule _ Hrs _ _ _ _ [nd] (d :: u) H1) as [Hnd1 Hnd2]. simpl in Hnd1, Hnd2.
    destruct (write_granule_ok _ Hrs p1 fl P vl1 d (nd :: u) ch (len ch) nd H1')
      as (p2 & Hw & H2 & Hk2 & Hav2 & Hl & Hn & Hd); try done; [lia|].
    assert (H2' : page_ok rs p2 fl P vl1 (nd :: d :: u)) by (eapply page_ok_perm; [|exact H2]; solve_Permutation).
    pose proof (took_keeps _ _ _ u Ht) as Hkt.
    assert (Hf2 : pg_fixed p2 = pg_fixed p) by (rewrite (kp_fixed _ _ _ Hk2); apply Ht).
    destruct (IH nd src' ch' chs' p2 vl1 (d :: u) Hsrc' eq_refl Hall H2')
      as (ds & ld & ls & chl & p3 & p4 & vl4 & Hc & Hls & Hlast' & Hw4 & H4 & Hg & Hk4 & Hav4); [by rewrite Hf2|lia|].
    exists (nd :: ds), ld, ls, chl, p3, p4, vl4. split_and!; try done.
    + cbn [copy_granules]. rewrite (sbind_Ok _ _ _ _ _ Ha). unfold sbind at 1, slift. rewrite Hsrc.
      by rewrite (sbind_Ok _ _ _ _ _ Hw).
    + eapply page_ok_perm; [|exact H4]. solve_Permutation.
    + split; [|done]. simpl. eapply granule_at_frame; [| |by split_and!].
      * destruct (granule_cell _ _ _ _ _ _ d H ltac:(right; left)) as (G1 & G2 & _). lia.
      * apply (kp_granules _ _ _ Hk4). by left.
    + eapply (keeps_trans _ _ _ u u); [done|exact Hkt|].
      eapply (keeps_trans _ _ _ u u); [done|eapply keeps_weaken; [|exact Hk2]|eapply keeps_weaken; [|exact Hk4]];
        intros; by right.
    + lia.
Qed.

Lemma stored_granules data c ob r :
  obj_at data c ob r → granules_at data c (stored ob) ∧ Forall (λ ch, len ch ≤ 62) (stored ob) ∧
  first_granule r = default 0 (head c).
Proof.
  unfold obj_at, stored. case_match.
  - intros (g & -> & -> & Hg). split_and!; try done. constructor; [|constructor].
    rewrite blake3_len. done.
  - intros [-> Hg]. split_and!; try done. eapply Forall_impl; [apply chunks_lengths|].
    intros ch Hch. cbv beta in Hch. change DATA_SIZE with 62 in Hch. lia.
Qed.

(** The source object [ob], in the page [self]. *)
Record source (self : Page) (c : list Z) (ob : list byte) (r : VarLenRef) : Prop := {
  so_len : len (pg_row_data self) = PAGE_END;
  so_granules : ∀ g, g ∈ c → 0 < g ∧ g + 64 ≤ PAGE_END ∧ g mod 64 = 0;
  so_obj : obj_at (pg_row_data self) c ob r;
  so_fuel : (length c < granule_fuel)%nat;
}.

Lemma copy_var_len_ok self src_c ob r p bs fl P vl u o m :
  source self src_c ob r → page_ok rs p fl P vl u → o ∈ P → obj_granules ob ≤ avail p →
  holds bs m → (992 < len ob → ob ∈ m) →
  ∃ c vlr p' bs' vl',
    copy_var_len_into self r (p, bs) = (Ok vlr, (p', bs')) ∧
    page_ok rs p' fl P vl' (c ++ u) ∧ obj_at (pg_row_data p') c ob vlr ∧ vlr_ok vlr ∧
    keeps p p' u ∧ avail p' = avail p - obj_granules ob ∧ holds bs' (m ⊎ large [ob]).
Proof using Hrs.
  intros [S1 S2 S3 S4] H Ho Hav Hm Hb. pose proof (row_last_pos rs Hrs _ _ _ _ _ _ H Ho) as Hlast.
  destruct (stored_granules _ _ _ _ S3) as (Hst & Hst62 & Hfirst).
  pose proof (obj_at_length _ _ _ _ S3) as Hsl.
  destruct (iter_granules_ok (E:=PageError) self src_c _ granule_fuel S1 S2 Hst S4) as [Hit Hdata].
  unfold copy_var_len_into, iter_var_len_object. unfold sbind at 1, slift at 1. rewrite Hfirst, Hit.
  destruct src_c as [|g c]; simpl map.
  - assert (Hob : ob = []).
    { unfold stored in Hst. destruct (992 <? len ob) eqn:Hl; [by destruct Hst|].
      destruct (chunks ob) as [|] eqn:Hc; [|done]. rewrite <-(concat_chunks ob). by rewrite Hc. }
    subst ob. destruct S3 as [-> _]. exists [], vlr_NULL, p, bs, vl. split_and!; try done.
    + change (obj_granules []) with 0. lia.
    + unfold large. simpl. by rewrite gmultiset_disj_union_right_id.
  - assert (Hlc : len (g :: c) = len c + 1) by (unfold len; simpl; lia).
    rewrite Hlc in Hsl. pose proof (len_nonneg c).
    assert (Hlm : len (map (λ g0, peek (pg_row_data self) g0 64) c) = len c)
      by (unfold len; by rewrite length_map).
    destruct (alloc_granule_ok _ Hrs _ _ _ _ _ H Hlast) as (d & p1 & vl1 & Ha & H1 & Ht & Hnin & Hav1); [lia|].
    destruct (stored ob) as [|ch chs] eqn:Hso; [by destruct Hst|]. simpl in Hdata.
    destruct (granule_data (peek (pg_row_data self) g 64)) as [ch0| | |] eqn:Hg0; try done. cbn [rbind] in Hdata.
    destruct (granules_data (map _ c)) as [chs0| | |] eqn:Hgs; try done. injection Hdata as -> ->.
    destruct (copy_granules_ok fl P _ d _ ch chs p1 vl1 u Hg0 Hgs Hst62 H1)
      as (ds & ld & ls & chl & p2 & p3 & vl3 & Hcp & Hls & Hlast' & Hw & H3 & Hgr & Hk3 & Hav3);
      [by rewrite (proj1 (proj2 Ht))|rewrite Hlm; lia|].
    pose proof (took_keeps _ _ _ u Ht) as Hkt.
    assert (Hk : keeps p p3 u) by by eapply (keeps_trans _ _ _ u u).
    assert (Hd16 : in_u 16 d).
    { by destruct (head_granule _ Hrs _ _ _ _ [d] u H1). }
    cbn [map]. rewrite (sbind_Ok _ _ _ (p1, bs) d) by by apply on_page_Ok.
    rewrite (sbind_Ok _ _ _ (p2, bs) (ld, ls)) by by apply on_page_Ok.
    unfold sbind at 1, slift at 1. rewrite Hls.
    rewrite (sbind_Ok _ _ _ (p3, bs) tt) by by apply on_page_Ok.
    unfold stored, obj_at in *. destruct (992 <? len ob) eqn:Hl; [apply Z.ltb_lt in Hl|apply Z.ltb_ge in Hl].
    + injection Hso as <- <-. destruct S3 as (g' & [= <- ->] & -> & Hgs'). simpl in Hgs, Hlm.
      destruct ds as [|]; [|by destruct Hgr as [_ []]].
      specialize (Hlast' eq_refl). subst ls.
      destruct (clone_blob_law bs m ob Hm (Hb Hl)) as (bs' & Hcl & Hm').
      exists [d], (large_blob d), p3, bs', vl3. split_and!; try done.
      * change (is_large_blob (large_blob g)) with true. cbv iota.
        rewrite (sbind_Ok _ _ _ (p3, bs') tt); [done|].
        unfold sbind at 1, slift at 1. destruct Hgs' as [Hgs' _].
        change PAGE_END with 65472 in *.
        destruct (S2 g ltac:(left)) as (? & ? & ?).
        rewrite (blob_hash_ok _ g (blake3 ob) 0) by (try apply blake3_len; try apply Hgs'; lia).
        by apply on_store_Ok.
      * by exists d.
      * simpl map in Hav3. change (@len (list byte) []) with 0 in *. change (@len Z []) with 0 in *. lia.
      * unfold large. rewrite filter_cons_True by done. rewrite filter_nil. simpl.
        by rewrite gmultiset_disj_union_right_id.
    + destruct S3 as [-> _].
      exists (d :: ds), {| length_in_bytes := len ob; first_granule := d |}, p3, bs, vl3.
      split_and!; try done.
      * unfold is_large_blob, LARGE_BLOB_SENTINEL, u16_MAX. simpl length_in_bytes.
        by rewrite (proj2 (Z.eqb_neq (len ob) _)) by lia.
      * by rewrite Hso.
      * split; simpl; [unfold in_u; pose proof (len_nonneg ob); lia|done].
      * lia.
      * unfold large. rewrite filter_cons_False by lia. rewrite filter_nil. simpl.
        by rewrite gmultiset_disj_union_right_id.
Qed.

Lemma expect_Ok {S E E' A} (m : st S E A) s s' a :
  m s = (Ok a, s') → expect (E':=E') m s = (Ok a, s').
Proof. intros H. unfold expect. by rewrite H. Qed.

Lemma large_members ob objs : 992 < len ob → ob ∈ large (ob :: objs).
Proof. intros. unfold large. rewrite filter_cons_True by done. simpl. multiset_solver. Qed.

Lemma copy_objects_ok self src_row fl P o (offs : list Z) :
  ∀ src_cs objs it p bs vl u m (R : list byte → Prop),
  Forall3 (λ k c ob, source self c ob (peek_vlr src_row k)) offs src_cs objs →
  (∀ k, k ∈ offs → slot_ok (len src_row) k) →
  page_ok rs p fl P vl u → o ∈ P → visits v R it offs →
  (∀ row', same_but offs (peek (pg_row_data p) o rs) row' → R row') → slots_ok rs offs →
  total_granules objs ≤ avail p → holds bs m → (∀ ob, ob ∈ large objs → ob ∈ m) →
  ∃ p' bs' cs, copy_objects self src_row v it o rs offs (p, bs) = (Ok tt, (p', bs')) ∧
    filled rs p p' fl P u o offs cs objs ∧ holds bs' (m ⊎ large objs).
Proof using Hrs.
  induction offs as [|k offs IH]; intros src_cs objs it p bs vl u m R Hsrc Hsl H Ho Hvis HR Hs Hav Hm Hc;
    inversion Hsrc as [|k' c0 ob offs' cs' objs' Hs0 Hsrc' He1 He2 He3]; subst;
    inversion Hvis as [it0 Hn|it0 o0 it' offs' Hn Hvis']; subst.
  - exists p, bs, []. split_and!; [done|by eapply filled_nil|].
    unfold large. rewrite filter_nil. simpl. by rewrite gmultiset_disj_union_right_id.
  - pose proof (HR _ (same_but_refl _ _)) as HRrow. destruct Hs as (Hk & Hkd & Hs).
    assert (Htg : total_granules (ob :: objs') = obj_granules ob + total_granules objs') by done.
    pose proof (total_granules_nonneg objs').
    destruct (copy_var_len_ok self c0 ob (peek_vlr src_row k) p bs fl P vl u o m)
      as (c & vlr & p2 & bs2 & vl2 & Hcp & H2 & Hob & Hvok & Hkp & Hav2 & Hm2);
      try done; [lia|intros; by apply Hc, large_members|].
    destruct (fill_slot (B:=B) rs Hrs p p2 fl P vl vl2 u o k c ob vlr)
      as (p3 & Hws & H3 & Hav3 & Hsb & Hfill); try done.
    destruct (IH cs' objs' it' p3 bs2 vl2 (c ++ u) (m ⊎ large [ob]) R) as (p4 & bs4 & cs & Hr & Hf & Hm4); try done.
    + intros x Hx. apply Hsl. by right.
    + by eapply same_but_rest.
    + lia.
    + intros x Hx. specialize (Hc x). rewrite large_cons in Hc. multiset_solver.
    + exists p4, bs4, (c :: cs). split_and!.
      * cbn [copy_objects].
        rewrite (sbind_Ok _ _ _ _ _ (next_slot_ok rs Hrs v _ bs _ _ _ _ _ _ _ _ _ H Ho HRrow Hn)).
        unfold sbind at 1, slift, row_vlr. destruct (Hsl k ltac:(left)) as [K1 K2].
        rewrite slice_Ok by lia. cbn [rmap rbind].
        rewrite (sbind_Ok _ _ _ (p2, bs2) vlr) by by apply expect_Ok.
        by rewrite (sbind_Ok _ _ _ _ _ (Hws bs2)).
      * by apply Hfill.
      * rewrite (large_cons ob objs'). by rewrite gmultiset_disj_union_assoc.
Qed.

(** The rows of a page as sources. *)
Lemma row_sources self rows so gr :
  page_inv rs v self rows → rows !! so = Some gr →
  Forall3 (λ k c ob, source self c ob (peek_vlr (gr_fixed gr) k))
    (gr_offs gr) (gr_chains gr) (gr_objs gr).
Proof using Hrs.
  intros (fl & vl & u & H & Hu & Hall) Ho. destruct (Hall so gr Ho) as [R1 R2 R3].
  assert (Hin : so ∈ dom rows) by by apply elem_of_dom_2 in Ho.
  pose proof (row_last_pos rs Hrs _ _ _ _ _ _ H Hin) as Hlast. unfold objs_at in R3.
  assert (Hg : ∀ g, g ∈ concat (gr_chains gr) → g ∈ u).
  { intros g Hg. rewrite Hu. apply elem_of_row_granules. eauto. }
  assert (Hpref : ∀ c, c ∈ gr_chains gr → (length c < granule_fuel)%nat).
  { intros c [i Hc]%list_elem_of_lookup. destruct (concat_lookup _ _ _ Hc) as [l Hl].
    eapply (granule_fuel_ok rs Hrs self fl (dom rows) vl c
      (l ++ row_granules (delete so rows))).
    eapply page_ok_perm; [|exact H]. rewrite Hu, (row_granules_delete _ _ _ Ho), Hl. solve_Permutation. }
  clear Ho R1 R2. induction R3 as [|k c ob offs cs objs Hob _ IH]; constructor.
  - split; [apply (po_len _ _ _ _ _ _ H)| |done|apply Hpref; by left].
    intros g Hgc. destruct (granule_cell _ _ _ _ _ _ g H) as (G1 & G2 & G3 & G4).
    { right. apply Hg. simpl. apply elem_of_app. by left. }
    split_and!; [lia|done..].
  - apply IH; [intros g Hgc; apply Hg; simpl; apply elem_of_app; by right|].
    intros c' ?. apply Hpref. by right.
Qed.

Lemma granules_used_obj data c ob r : obj_at data c ob r → granules_used r = obj_granules ob.
Proof.
  unfold obj_at, granules_used, obj_granules. destruct (Z.ltb_spec 992 (len ob)) as [Hl|Hl].
  - intros (g & _ & -> & _). simpl length_in_bytes. unfold bytes_to_granules.
    change OBJECT_SIZE_BLOB_THRESHOLD with 992. by rewrite (proj2 (Z.ltb_lt 992 (len ob))).
  - by intros [-> _].
Qed.

Lemma sum_granules_ok {E} self row offs cs objs :
  Forall3 (λ k c ob, source self c ob (peek_vlr row k)) offs cs objs →
  (∀ k, k ∈ offs → slot_ok (len row) k) →
  sum_granules (E:=E) row offs = Ok (total_granules objs).
Proof.
  induction 1 as [|k c ob offs cs objs [_ _ Hob _] _ IH]; [done|]. intros Hsl.
  simpl. unfold row_vlr. destruct (Hsl k ltac:(left)) as [K1 K2]. rewrite slice_Ok by lia.
  cbn [rmap rbind]. rewrite IH by (intros; apply Hsl; by right). simpl.
  by rewrite (granules_used_obj _ _ _ _ Hob).
Qed.

(** Two rows with the same objects and the same bytes but for the references. *)
Definition like (gr gr' : GRow) : Prop :=
  gr_offs gr' = gr_offs gr ∧ gr_objs gr' = gr_objs gr ∧
  same_but (gr_offs gr) (gr_fixed gr) (gr_fixed gr').

Lemma shape_like row offs row' :
  shape rs v row offs → same_but offs row row' → shape rs v row' offs.
Proof.
  intros [S1 S2 S3] Hsb. split; [destruct Hsb; congruence|done|].
  eapply visits_mono; [|exact S3]. intros x Hx. by eapply same_but_trans.
Qed.

Lemma row_total_granules_ok {E} self rows so gr :
  page_inv rs v self rows → rows !! so = Some gr →
  row_total_granules (E:=E) self so rs v = Ok (total_granules (gr_objs gr)).
Proof using Hrs.
  intros Hs Hso. destruct (read_row_ok (E:=E) rs Hrs v self rows so gr Hs Hso) as (Hget & Hvis & _).
  pose proof (row_sources _ _ _ _ Hs Hso) as Hsrc.
  destruct Hs as (fl & vl & u & _ & _ & Hall). destruct (Hall so gr Hso) as [_ R2 _].
  unfold row_total_granules. rewrite Hget. cbn [rbind]. rewrite Hvis. cbn [rbind].
  eapply sum_granules_ok; [done|]. intros k Hk. rewrite (sh_len _ _ _ _ R2).
  by eapply slots_bounds; [apply (sh_slots _ _ _ _ R2)|].
Qed.

(** Copying one row. *)
Lemma copy_row_into_ok self rows_s so gr p bs rows m :
  page_inv rs v self rows_s → rows_s !! so = Some gr → page_inv rs v p rows → holds bs m →
  (∀ ob, ob ∈ large (gr_objs gr) → ob ∈ m) →
  (has_space_for_row (E:=PageError) p rs (total_granules (gr_objs gr)) = Ok false ∧
    copy_row_into self so rs v (p, bs) = (Ok false, (p, bs))) ∨
  (∃ o p' bs' gr', copy_row_into self so rs v (p, bs) = (Ok true, (p', bs')) ∧
    rows !! o = None ∧ page_inv rs v p' (<[o := gr']> rows) ∧ like gr gr' ∧
    holds bs' (m ⊎ large (gr_objs gr)) ∧ pg_hash p' = None).
Proof using Hrs.
  intros Hself Hso Hp Hm Hb. pose proof (row_sources _ _ _ _ Hself Hso) as Hsrc.
  destruct (read_row_ok (E:=PageError) rs Hrs v _ _ _ _ Hself Hso) as (Hget & Hvis & _).
  pose proof Hself as (_ & _ & _ & _ & _ & Hall). destruct (Hall so gr Hso) as [_ R2 _].
  destruct Hp as (fl & vl & u & H & Hu & Hallp).
  destruct (has_space_spec (E:=PageError) rs Hrs p fl (dom rows) vl u (total_granules (gr_objs gr)) H)
    as ([|] & Hsp & _); [right|left].
  2: { split; [done|]. unfold copy_row_into. unfold sbind at 1, slift at 1.
       rewrite (row_total_granules_ok _ _ _ _ Hself Hso). unfold sbind at 1, slift at 1. by rewrite Hsp. }
  destruct (alloc_row_ok rs Hrs p fl (dom rows) vl u _ H Hsp) as (o & p1 & fl1 & Ha & H1 & Ho & Ht & Hl & Hav).
  assert (Hin : o ∈ {[o]} ∪ dom rows) by set_solver.
  pose proof (sh_len _ _ _ _ R2) as Hrl.
  destruct (write_row_ok rs Hrs p1 fl1 _ vl u o 0 (gr_fixed gr) H1 Hin) as (d & Hw & H2 & Hk2 & Hrow2); [lia..|].
  assert (Hrow : peek d o rs = gr_fixed gr).
  { rewrite Hrow2. apply poke_all. by rewrite (len_row rs Hrs _ _ _ _ _ _ H1 Hin). }
  set (p2 := set_row_data d p1) in *.
  destruct (copy_objects_ok self (gr_fixed gr) fl1 ({[o]} ∪ dom rows) o (gr_offs gr) (gr_chains gr) (gr_objs gr)
    (vit_start v) p2 bs vl u m (same_but (gr_offs gr) (gr_fixed gr)))
    as (p3 & bs3 & cs & Hr & Hf & Hm3); try done.
  - intros k Hk. rewrite Hrl. by eapply slots_bounds; [apply (sh_slots _ _ _ _ R2)|].
  - apply (sh_visits _ _ _ _ R2).
  - unfold p2. psimpl. by rewrite Hrow.
  - apply (sh_slots _ _ _ _ R2).
  - destruct Hf as [F1 F2 F3 F4 F5]. unfold p2 in F2. psimpl. rewrite Hrow in F2.
    set (gr' := {| gr_fixed := peek (pg_row_data p3) o rs; gr_offs := gr_offs gr; gr_chains := cs;
      gr_objs := gr_objs gr |}).
    assert (Hk3 : keeps_row rs p1 p3 u o) by (eapply (keeps_row_trans _ _ _ _ u u); done).
    exists o, p3, bs3, gr'. split_and!; try done.
    + unfold copy_row_into. unfold sbind at 1, slift at 1.
      rewrite (row_total_granules_ok _ _ _ _ Hself Hso). unfold sbind at 1, slift at 1. rewrite Hsp.
      cbn [negb]. unfold sbind at 1, slift at 1. rewrite Hget.
      rewrite (sbind_Ok _ _ _ (p1, bs) o) by by apply expect_Ok, on_page_Ok.
      unfold sbind at 1, slift at 1. rewrite Hw.
      rewrite (sbind_Ok _ _ _ (p2, bs) tt) by by apply on_page_Ok.
      unfold sbind at 1, slift at 1. rewrite Hvis. by rewrite (sbind_Ok _ _ _ _ _ Hr).
    + by apply not_elem_of_dom.
    + eapply (page_inv_insert rs Hrs v p p1); try done.
      * by apply (row_cell _ Hrs _ _ _ _ _ o H1); right.
      * split; simpl; [done| |done]. by eapply shape_like.
      * destruct F1 as [vl' F1]. eauto.
    + destruct Ht as (_ & _ & T3). by rewrite (kr_hash _ _ _ _ _ Hk3).
Qed.

Lemma large_app l1 l2 : large (l1 ++ l2) = large l1 ⊎ large l2.
Proof. unfold large. by rewrite filter_app, list_to_set_disj_app. Qed.

Lemma large_perm l1 l2 : l1 ≡ₚ l2 → large l1 = large l2.
Proof. intros Hp. unfold large. apply list_to_set_disj_perm. by rewrite Hp. Qed.

(** The rows [copied] of the source are in the destination, at [dsts], besides
    the rows [rows] it had before. *)
Record copied_to (rows_s rows rows' : gmap Z GRow) (copied dsts : list Z) : Prop := {
  ct_rows : Forall2 (λ s d, ∃ gr gr', rows_s !! s = Some gr ∧ rows' !! d = Some gr' ∧ like gr gr')
    copied dsts;
  ct_nodup : NoDup dsts;
  ct_fresh : ∀ d, d ∈ dsts → rows !! d = None;
  ct_old : rows ⊆ rows';
  ct_dom : dom rows' = dom rows ∪ list_to_set dsts;
}.

Lemma copied_to_nil rows_s rows : copied_to rows_s rows rows [] [].
Proof. split; try done; [constructor|by intros ? ?%elem_of_nil|set_solver]. Qed.

Lemma copied_to_cons rows_s rows rows' s d gr gr' copied dsts :
  rows_s !! s = Some gr → rows !! d = None → like gr gr' →
  copied_to rows_s (<[d := gr']> rows) rows' copied dsts →
  copied_to rows_s rows rows' (s :: copied) (d :: dsts).
Proof.
  intros Hs Hd Hl [C1 C2 C3 C4 C5]. split.
  - constructor; [|done]. exists gr, gr'. split_and!; try done.
    eapply lookup_weaken; [|exact C4]. apply lookup_insert_eq.
  - constructor; [|done]. intros Hin. specialize (C3 d Hin). by rewrite lookup_insert_eq in C3.
  - intros x. rewrite elem_of_cons. intros [->|Hx]; [done|].
    specialize (C3 x Hx). by apply lookup_insert_None in C3 as [? _].
  - etrans; [|exact C4]. by apply insert_subseteq.
  - rewrite C5, dom_insert_L. simpl. set_solver.
Qed.

(** The objects of some rows of a page. *)
Definition objects_of (rows : gmap Z GRow) (l : list Z) : list (list byte) :=
  l ≫= λ o, match rows !! o with Some gr => gr_objs gr | None => [] end.

(** Copying the rows [l] for which [keep] holds. *)
Lemma copy_rows_into_ok self rows_s keep l : ∀ p bs rows m,
  page_inv rs v self rows_s → (∀ o, o ∈ l → o ∈ dom rows_s) → page_inv rs v p rows → holds bs m →
  (∀ ob, ob ∈ large (row_objects rows_s) → ob ∈ m) →
  ∃ r p' bs' rows' copied rest dsts,
    copy_rows_into self l rs v keep (p, bs) = (Ok r, (p', bs')) ∧ page_inv rs v p' rows' ∧
    filter (λ o, keep self o = true) l = copied ++ rest ∧ r = head rest ∧
    copied_to rows_s rows rows' copied dsts ∧ holds bs' (m ⊎ large (objects_of rows_s copied)) ∧
    (∀ x, r = Some x → ∃ gr, rows_s !! x = Some gr ∧
      has_space_for_row (E:=PageError) p' rs (total_granules (gr_objs gr)) = Ok false).
Proof using Hrs.
  induction l as [|o l IH]; intros p bs rows m Hs Hl Hp Hm Hb.
  - exists None, p, bs, rows, [], [], []. split_and!; try done; [apply copied_to_nil|].
    change (large (objects_of rows_s [])) with (∅ : gmultiset (list byte)).
    by rewrite gmultiset_disj_union_right_id.
  - cbn [copy_rows_into]. destruct (keep self o) eqn:Hkeep.
    2: { rewrite filter_cons_False by congruence. apply IH; try done. intros x ?. apply Hl. by right. }
    rewrite filter_cons_True by done.
    destruct (proj1 (elem_of_dom rows_s o) (Hl o ltac:(left))) as [gr Hgr].
    assert (Hob : ∀ ob, ob ∈ large (gr_objs gr) → ob ∈ m).
    { intros ob Hin. apply Hb. rewrite (large_perm _ _ (row_objects_delete rows_s o gr Hgr)), large_app.
      multiset_solver. }
    destruct (copy_row_into_ok self rows_s o gr p bs rows m Hs Hgr Hp Hm Hob)
      as [[Hsp Hc]|(d & p1 & bs1 & gr' & Hc & Hd & Hp1 & Hlk & Hm1 & _)].
    + exists (Some o), p, bs, rows, [], (o :: filter (λ o, keep self o = true) l), [].
      rewrite (sbind_Ok _ _ _ _ _ Hc). split_and!; try done; [apply copied_to_nil| |].
      * change (large (objects_of rows_s [])) with (∅ : gmultiset (list byte)).
        by rewrite gmultiset_disj_union_right_id.
      * intros x [= <-]. eauto.
    + rewrite (sbind_Ok _ _ _ _ _ Hc).
      destruct (IH p1 bs1 (<[d := gr']> rows) (m ⊎ large (gr_objs gr)))
        as (r & p2 & bs2 & rows2 & copied & rest & dsts & Hr & Hp2 & Hfl & Hhd & Hct & Hm2 & Hfull); try done.
      * intros x ?. apply Hl. by right.
      * intros x Hx. specialize (Hb x Hx). multiset_solver.
      * exists r, p2, bs2, rows2, (o :: copied), rest, (d :: dsts). split_and!; try done.
        -- by rewrite Hfl.
        -- by eapply copied_to_cons.
        -- unfold objects_of in *. simpl. rewrite Hgr, large_app. by rewrite gmultiset_disj_union_assoc.
Qed.

(** [copy_filter_into]: the rows from [start] on for which [keep] holds are
    copied in order, up to the first one for which there is no room. *)
Lemma copy_filter_into_ok self rows_s keep start p bs rows m :
  page_inv rs v self rows_s → start = 0 ∨ start ∈ dom rows_s → page_inv rs v p rows → holds bs m →
  (∀ ob, ob ∈ large (row_objects rows_s) → ob ∈ m) →
  ∃ l r p' bs' rows' copied rest dsts,
    iter_fixed_len_from (E:=PageError) self rs start = Ok l ∧
    copy_filter_into self start rs v keep (p, bs) = (Ok r, (p', bs')) ∧ page_inv rs v p' rows' ∧
    filter (λ o, keep self o = true) l = copied ++ rest ∧ r = head rest ∧
    copied_to rows_s rows rows' copied dsts ∧ holds bs' (m ⊎ large (objects_of rows_s copied)).
Proof using Hrs.
  intros Hs Hst Hp Hm Hb.
  destruct (iter_fixed_len_from_ok (E:=PageError) rs Hrs v self rows_s start Hs Hst) as (l & Hl & _ & Hel).
  destruct (copy_rows_into_ok self rows_s keep l p bs rows m)
    as (r & p' & bs' & rows' & copied & rest & dsts & Hr & Hp' & Hfl & Hhd & Hct & Hm' & _); try done.
  { intros o Ho. by apply Hel. }
  exists l, r, p', bs', rows', copied, rest, dsts. split_and!; try done.
  unfold copy_filter_into. unfold sbind at 1, slift at 1. by rewrite Hl.
Qed.
End copy.
