(* ===== verification/PageThm.v ===== *)
(** * What a page promises

    The theorems on pages after any sequence of operations: a page is a
    finite map from offsets to rows, the row size and the space check decide
    exactly which insertions succeed, and the bytes of the page satisfy the
    invariant of [PageInv.v]. *)

From Stdlib Require Import ZArith Lia Sorting.Sorted.
From stdpp Require Import gmap gmultiset.
From S2P Require Import Prelude Mem Indexes BitSet VarLen BlobStore Page PageInv PageRows PageRead.
Local Open Scope Z_scope.

(** ** Insertions for which there is no room *)

Section full.
Context {B V : Type} {BsI : BlobStore B} {HashI : Blake3} {LawI : BlobStoreLaws B} {VisI : VarLenMembers V}.
Context (rs : Z) (Hrs : row_size_ok rs) (v : V).

Lemma alloc_for_slice_full p fl P vl u ob :
  page_ok rs p fl P vl u → avail p < obj_granules ob →
  ∃ e, alloc_for_slice ob p = (Err e, p).
Proof.
  intros H Hav. unfold alloc_for_slice, alloc_for_obj_common, has_enough_space_for.
  unfold obj_granules in Hav. destruct (bytes_to_granules (len ob)) as [n b]. simpl in Hav.
  unfold sbind at 1, slift at 1. rewrite (num_granules_available_ok rs p fl P vl u) by done.
  cbn [rmap rbind]. rewrite (proj2 (Z.leb_gt n (avail p))) by lia. cbn [negb].
  unfold sbind, slift. rewrite (num_granules_available_ok rs p fl P vl u) by done. by eexists.
Qed.

Lemma insert_objects_full fl P o (offs : list Z) : ∀ objs it p bs vl u m (R : list byte → Prop),
  length objs = length offs → page_ok rs p fl P vl u → o ∈ P → visits v R it offs →
  (∀ row', same_but offs (peek (pg_row_data p) o rs) row' → R row') → slots_ok rs offs →
  avail p < total_granules objs → 0 ≤ avail p → holds bs m → collision_free (m ⊎ large objs) →
  ∃ e s, insert_objects v it o rs objs (p, bs) = (Err e, s).
Proof using Hrs.
  induction offs as [|k offs IH]; intros [|ob objs] it p bs vl u m R Hlen H Ho Hvis HR Hs Hav H0 Hm Hc;
    try done; [change (total_granules []) with 0 in Hav; lia|].
  inversion Hvis as [|it0 o0 it' offs' Hn Hvis']; subst.
  pose proof (HR _ (same_but_refl _ _)) as HRrow. destruct Hs as (Hk & Hkd & Hs).
  rewrite large_cons in Hc.
  assert (Htg : total_granules (ob :: objs) = obj_granules ob + total_granules objs) by done.
  cbn [insert_objects].
  rewrite (sbind_Ok _ _ _ _ _ (next_slot_ok rs Hrs v _ bs _ _ _ _ _ _ _ _ _ H Ho HRrow Hn)).
  destruct (Z.lt_ge_cases (avail p) (obj_granules ob)) as [Hlt|Hge].
  - destruct (alloc_for_slice_full _ _ _ _ _ _ H Hlt) as [e He].
    rewrite (sbind_Err _ _ _ (p, bs) e); [by eauto|]. unfold on_page. by rewrite He.
  - destruct (insert_object_ok rs Hrs p bs fl P vl u o m ob)
      as (c & vlr & p1 & p2 & in_blob & n & bs2 & vl2 & Ha & Hw & _ & H2 & Hob & Hvok & Hkp & Hav2 & Hm2);
      try done.
    { intros Hl b Hb. apply Hc; [multiset_solver|]. unfold large. rewrite filter_cons_True by done.
      simpl. multiset_solver. }
    destruct (fill_slot (B:=B) rs Hrs p p2 fl P vl vl2 u o k c ob vlr) as (p3 & Hws & H3 & Hav3 & Hsb & _);
      try done.
    rewrite (sbind_Ok _ _ _ (p1, bs) (vlr, in_blob)) by by apply on_page_Ok.
    rewrite (sbind_Ok _ _ _ _ _ Hw), (sbind_Ok _ _ _ _ _ (Hws bs2)).
    apply (IH objs it' p3 bs2 vl2 (c ++ u) (m ⊎ large [ob]) R); try done.
    + by injection Hlen.
    + by eapply same_but_rest.
    + lia.
    + lia.
    + intros b b' Hb Hb'. apply Hc; multiset_solver.
Qed.

(** The row is allocated or not, and if it is there are too few granules. *)
Lemma alloc_row_full p fl P vl u n :
  page_ok rs p fl P vl u → has_space_for_row (E:=PageError) p rs n = Ok false →
  alloc_fixed_len rs p = (Err (InsufficientFixedLenSpace rs), p) ∨
  ∃ o p' fl', alloc_fixed_len rs p = (Ok o, p') ∧ page_ok rs p' fl' ({[o]} ∪ P) vl u ∧
    took_row p p' ∧ avail p' < n.
Proof using Hrs.
  intros H Hsp. destruct (has_space_spec (E:=PageError) rs Hrs p fl P vl u n H) as (b & Hb & Hiff).
  rewrite Hb in Hsp. injection Hsp as ->. destruct fl as [|o fl].
  - destruct (Z.lt_ge_cases (vr_first (pg_var p) - fx_last (pg_fixed p)) rs) as [Hlt|Hge].
    + left. by apply (alloc_fixed_len_full rs Hrs p P vl u).
    + right. destruct (alloc_fixed_len_gap _ Hrs _ _ _ _ H Hge) as (p' & Ha & H' & Ho & Ht & Hl).
      eexists _, p', []. split_and!; try done. destruct Ht as (_ & Hv & _).
      unfold avail. rewrite Hl, Hv, (vo_free _ _ _ _ (po_var _ _ _ _ _ _ H)).
      replace (vr_first (pg_var p) - (fx_last (pg_fixed p) + rs)) with
        (vr_first (pg_var p) - fx_last (pg_fixed p) - rs) by lia.
      apply Z.nle_gt. intros Hle. discriminate (proj2 Hiff (conj Hge Hle)).
  - right. destruct (alloc_fixed_len_freelist _ Hrs _ _ _ _ _ _ H) as (p' & Ha & H' & Ho & Ht & Hl).
    exists o, p', fl. split_and!; try done. destruct Ht as (_ & Hv & _).
    unfold avail in *. rewrite Hl, Hv. apply Z.nle_gt. intros Hle. discriminate (proj2 Hiff Hle).
Qed.

Lemma insert_row_full p bs rows m row offs objs :
  page_inv rs v p rows → holds bs m → shape rs v row offs → length objs = length offs →
  has_space_for_row (E:=PageError) p rs (total_granules objs) = Ok false →
  collision_free (m ⊎ large objs) →
  ∃ e s, insert_row row objs v (p, bs) = (Err e, s).
Proof using Hrs.
  intros (fl & vl & u & H & Hu & Hall) Hm Hsh Hlen Hsp Hc.
  pose proof (sh_len _ _ _ _ Hsh) as Hrl. pose proof (rs_min _ Hrs) as Hmin. pose proof (rs_max _ Hrs) as Hmax.
  unfold insert_row. rewrite Hrl, wrap_u_id by (unfold in_u; change PAGE_END with 65472 in *; lia).
  destruct (alloc_row_full _ _ _ _ _ _ H Hsp) as [Ha|(o & p1 & fl1 & Ha & H1 & Ht & Hav)].
  - rewrite (sbind_Err _ _ _ (p, bs) (InsufficientFixedLenSpace rs)); [by eauto|].
    unfold on_page. by rewrite Ha.
  - assert (Hin : o ∈ {[o]} ∪ dom rows) by set_solver.
    destruct (write_row_ok rs Hrs p1 fl1 _ vl u o 0 row H1 Hin) as (d & Hw & H2 & Hk2 & Hrow2); [lia..|].
    assert (Hrow : peek d o rs = row).
    { rewrite Hrow2. apply poke_all. by rewrite (len_row rs Hrs _ _ _ _ _ _ H1 Hin). }
    set (p2 := set_row_data d p1) in *.
    destruct (insert_objects_full fl1 ({[o]} ∪ dom rows) o offs objs (vit_start v) p2 bs vl u m
      (same_but offs row)) as (e & s & He); try done.
    + apply (sh_visits _ _ _ _ Hsh).
    + unfold p2. psimpl. by rewrite Hrow.
    + apply (sh_slots _ _ _ _ Hsh).
    + change (avail p2) with (avail p1). by eapply (avail_nonneg rs Hrs).
    + exists e, s. rewrite (sbind_Ok _ _ _ (p1, bs) o) by by apply on_page_Ok.
      unfold sbind at 1, slift. rewrite Hw.
      rewrite (sbind_Ok _ _ _ (p2, bs) tt) by by apply on_page_Ok.
      by rewrite (sbind_Err _ _ _ _ _ He).
Qed.
End full.

(** ** A page as a map *)

Lemma disj_union_swap (a b c : gmultiset (list byte)) : a ⊎ (b ⊎ c) = a ⊎ c ⊎ b.
Proof. multiset_solver. Qed.

(** A row with its slots blanked: what it is besides its references. *)
Definition blank (offs : list Z) (row : list byte) : list byte :=
  imap (λ i b, if bool_decide (Exists (λ o, o ≤ Z.of_nat i < o + 4) offs) then x00 else b) row.

Lemma blank_same_but offs row row' : same_but offs row row' → blank offs row' = blank offs row.
Proof.
  intros [Hl Hs]. apply list_eq. intros i. unfold blank. rewrite !list_lookup_imap.
  case_bool_decide as Hd.
  - assert (is_Some (row !! i) ↔ is_Some (row' !! i)) as Hi.
    { rewrite !lookup_lt_is_Some. unfold len in Hl. lia. }
    destruct (row !! i), (row' !! i); try done; exfalso.
    + by destruct (proj1 Hi).
    + by destruct (proj2 Hi).
  - rewrite Hs; [done|]. intros o Ho Hin. apply Hd, Exists_exists. eauto.
Qed.

(** An abstract row: its bytes besides the references, and its objects. *)
Definition ARow : Type := list byte * list (list byte).
Definition abs_row (gr : GRow) : ARow := (blank (gr_offs gr) (gr_fixed gr), gr_objs gr).
Definition arow_objects (A : gmap Z ARow) : list (list byte) := map_to_list A ≫= λ x, x.2.2.

Lemma arow_objects_abs rows : arow_objects (abs_row <$> rows) = row_objects rows.
Proof.
  unfold arow_objects, row_objects. rewrite map_to_list_fmap.
  induction (map_to_list rows) as [|[o gr] l IH]; [done|]. cbn. by rewrite IH.
Qed.

Section reach.
Context {B V : Type} {BsI : BlobStore B} {HashI : Blake3} {LawI : BlobStoreLaws B} {VisI : VarLenMembers V}.
Context (rs : Z) (Hrs : row_size_ok rs) (v : V).

(** The byte strings that others keep in the blob store. *)
Context (m0 : gmultiset (list byte)).

(** The pages that the operations lead to, starting from a new one, and the
    rows that they should hold. *)
Inductive page_reach : Page → B → gmap Z ARow → Prop :=
| pr_new p bs : page_new (E:=PageError) rs = Ok p → holds bs m0 → page_reach p bs ∅
| pr_insert p bs A row offs objs o p' bs' :
    page_reach p bs A → shape rs v row offs → length objs = length offs →
    has_space_for_row_with_objects (E:=PageError) p rs objs = Ok true →
    collision_free (m0 ⊎ large (arow_objects A) ⊎ large objs) →
    insert_row row objs v (p, bs) = (Ok o, (p', bs')) →
    page_reach p' bs' (<[o := (blank offs row, objs)]> A)
| pr_delete p bs A o r n p' bs' :
    page_reach p bs A → A !! o = Some r →
    page_delete_row o rs v (p, bs) = (Ok n, (p', bs')) →
    page_reach p' bs' (delete o A)
| pr_save p bs A : page_reach p bs A → page_reach (save_content_hash p) bs A.

(** The saved hash, if there is one, is the hash of the page. *)
Definition hash_ok (p : Page) : Prop := ∀ h, pg_hash p = Some h → h = content_hash p.

(** The rows are in the page, their large objects are in the blob store. *)
Record reach_inv (p : Page) (bs : B) (A : gmap Z ARow) (rows : gmap Z GRow) : Prop := {
  ri_page : page_inv rs v p rows;
  ri_abs : A = abs_row <$> rows;
  ri_store : holds bs (m0 ⊎ large (row_objects rows));
  ri_hash : hash_ok p;
}.

Lemma large_perm' l1 l2 : l1 ≡ₚ l2 → large l1 = large l2.
Proof. intros Hp. unfold large. apply list_to_set_disj_perm. by rewrite Hp. Qed.

Lemma large_app' l1 l2 : large (l1 ++ l2) = large l1 ⊎ large l2.
Proof. unfold large. by rewrite filter_app, list_to_set_disj_app. Qed.

Lemma total_granules_objects objs : total_granules_required_for_objects objs = total_granules objs.
Proof. done. Qed.

Lemma insert_reach_inv p bs A rows row offs objs :
  reach_inv p bs A rows → shape rs v row offs → length objs = length offs →
  has_space_for_row_with_objects (E:=PageError) p rs objs = Ok true →
  collision_free (m0 ⊎ large (arow_objects A) ⊎ large objs) →
  ∃ o p' bs' gr, insert_row row objs v (p, bs) = (Ok o, (p', bs')) ∧ A !! o = None ∧
    reach_inv p' bs' (<[o := (blank offs row, objs)]> A) (<[o := gr]> rows).
Proof using Hrs.
  intros [Hp -> Hm Hh] Hsh Hlen Hsp Hc. rewrite arow_objects_abs in Hc.
  destruct (insert_row_ok rs Hrs v p bs rows _ row offs objs Hp Hm Hsh Hlen Hsp Hc)
    as (o & p' & bs' & gr & Hi & Ho & Hp' & <- & <- & Hsb & Hm' & Hh').
  exists o, p', bs', gr. split_and!; [done|by rewrite lookup_fmap, Ho|]. split.
  - done.
  - rewrite fmap_insert. unfold abs_row at 2. by rewrite (blank_same_but _ _ _ Hsb).
  - rewrite (large_perm' _ _ (row_objects_insert rows o gr Ho)), large_app'.
    by rewrite disj_union_swap.
  - intros h. by rewrite Hh'.
Qed.

Lemma delete_reach_inv p bs A rows o r :
  reach_inv p bs A rows → A !! o = Some r →
  ∃ p' bs', page_delete_row o rs v (p, bs) = (Ok (large_bytes r.2), (p', bs')) ∧
    reach_inv p' bs' (delete o A) (delete o rows).
Proof using Hrs.
  intros [Hp -> Hm Hh] Ho. rewrite lookup_fmap in Ho.
  destruct (rows !! o) as [gr|] eqn:Hgr; [|done]. injection Ho as <-.
  rewrite (large_perm' _ _ (row_objects_delete rows o gr Hgr)), large_app' in Hm.
  destruct (delete_row_ok rs Hrs v p bs rows (m0 ⊎ large (row_objects (delete o rows))) o gr Hp Hgr)
    as (p' & bs' & Hd & Hp' & Hm' & Hh' & _).
  { by rewrite <-disj_union_swap. }
  exists p', bs'. split; [done|]. split; try done; [by rewrite fmap_delete|]. intros h. by rewrite Hh'.
Qed.

Lemma page_reach_inv p bs A : page_reach p bs A → ∃ rows, reach_inv p bs A rows.
Proof using Hrs.
  induction 1 as [p bs Hn Hm|p bs A row offs objs o p' bs' _ [rows IH] Hsh Hlen Hsp Hc Hi
    |p bs A o r n p' bs' _ [rows IH] Ho Hd|p bs A _ [rows [I1 I2 I3 I4]]].
  - destruct (page_new_inv (E:=PageError) rs Hrs v) as (p' & Hn' & Hp & Hh).
    rewrite Hn in Hn'. injection Hn' as <-. exists ∅. split; try done.
    + change (large (row_objects ∅)) with (∅ : gmultiset (list byte)).
      by rewrite gmultiset_disj_union_right_id.
    + intros h. by rewrite Hh.
  - destruct (insert_reach_inv p bs A rows row offs objs IH Hsh Hlen Hsp Hc)
      as (o' & p1 & bs1 & gr & Hi' & Ho & Hinv).
    rewrite Hi in Hi'. injection Hi' as <- <- <-. eauto.
  - destruct (delete_reach_inv p bs A rows o r IH Ho) as (p1 & bs1 & Hd' & Hinv).
    rewrite Hd in Hd'. injection Hd' as -> <- <-. eauto.
  - destruct I1 as (fl & vl & u & [] & Hu & Hall). exists rows. split; [|done..|].
    + exists fl, vl, u. by split_and!.
    + intros h. cbn. by intros [= <-].
Qed.

(** The page invariant.  Whatever rows are inserted and deleted, the rows
    are in the page where they should be, the cells of rows and granules
    partition the used parts of the page in free and occupied ones, the blob
    store counts the large objects of the rows on top of the blobs of others,
    and a saved hash is the hash of the page: it is forgotten whenever the
    page changes. *)
Theorem page_invariant p bs A :
  page_reach p bs A → ∃ rows, reach_inv p bs A rows.
Proof using Hrs. apply page_reach_inv. Qed.

(** The page's sizes.  The counters count the rows and the granules of
    their objects, every row is in the fixed-length part at a multiple of the
    row size, rows and granules together never take more than the page has,
    and the 16-bit header fields do not overflow. *)
Theorem page_sizes p bs A :
  page_reach p bs A →
  page_num_rows p = Z.of_nat (size A) ∧
  page_num_var_len_granules p = total_granules (arow_objects A) ∧
  page_bytes_used_by_rows p rs ≤ fx_last (pg_fixed p) + (PAGE_DATA_SIZE - vr_first (pg_var p)) ∧
  fx_last (pg_fixed p) ≤ vr_first (pg_var p) ≤ PAGE_DATA_SIZE ∧
  (∀ o, is_Some (A !! o) → 0 ≤ o ∧ o + rs ≤ fx_last (pg_fixed p) ∧ o mod rs = 0) ∧
  Forall (in_u 16) [fx_last (pg_fixed p); fx_num_rows (pg_fixed p); vr_first (pg_var p);
    vr_freelist_len (pg_var p); vr_num_granules (pg_var p)].
Proof using Hrs.
  intros [rows [Hp -> _ _]]%page_reach_inv. rewrite arow_objects_abs, map_size_fmap.
  destruct (page_counters _ _ _ _ Hp) as [-> ->]. pose proof Hp as (fl & vl & u & H & _ & _).
  pose proof (page_bounds _ Hrs _ _ _ _ _ H) as (B1 & B2 & B3 & _).
  pose proof (po_fixed _ _ _ _ _ _ H) as Hf. pose proof (po_var _ _ _ _ _ _ H) as Hv.
  pose proof (fo_last _ _ _ _ _ Hf) as L1. pose proof (fo_num _ _ _ _ _ Hf) as L2.
  pose proof (vo_num _ _ _ _ Hv) as L3. pose proof (vo_free _ _ _ _ Hv) as L4.
  pose proof (rs_min _ Hrs). pose proof (len_nonneg fl). pose proof (len_nonneg vl). pose proof (len_nonneg u).
  change PAGE_DATA_SIZE with 65472. split_and!; try done; try lia.
  - unfold page_bytes_used_by_rows, page_num_rows, page_num_var_len_granules, GRANULE_SIZE. nia.
  - intros o [r Ho]. apply elem_of_dom_2 in Ho. rewrite dom_fmap in Ho.
    destruct (row_cell _ Hrs _ _ _ _ _ o H ltac:(by right)) as (O1 & O2 & O3 & _). done.
  - unfold in_u. change (2 ^ 16) with 65536. repeat constructor; nia.
Qed.

(** The objects of a row, read through its references. *)
Definition reads_objects (p : Page) (bs : B) (row : list byte) (offs : list Z) (objs : list (list byte)) : Prop :=
  Forall2 (λ k ob, row_vlr (E:=PageError) row k = Ok (peek_vlr row k) ∧
    iter_vlo_data (E:=PageError) p (first_granule (peek_vlr row k)) =
      Ok (if is_large_blob (peek_vlr row k) then [blake3 ob] else chunks ob) ∧
    (is_large_blob (peek_vlr row k) = true → retrieve_blob bs (blake3 ob) = Ok ob)) offs objs.

Lemma read_objects_ok p bs A rows o gr :
  reach_inv p bs A rows → rows !! o = Some gr →
  reads_objects p bs (gr_fixed gr) (gr_offs gr) (gr_objs gr).
Proof using Hrs.
  intros [Hp _ Hm _] Ho. destruct (read_row_ok (E:=PageError) _ Hrs _ _ _ _ _ Hp Ho) as (_ & _ & H).
  eapply Forall2_same_length_lookup_2; [by eapply Forall2_length|]. intros i k ob Hk Hob.
  destruct (Forall2_lookup_lr _ _ _ _ _ _ H Hk Hob) as (H1 & H2 & H3).
  split; [done|]. split; [by rewrite H2; unfold stored; rewrite H3|].
  rewrite H3, Z.ltb_lt. intros Hl. apply (retrieve_blob_law _ _ _ Hm), gmultiset_elem_of_disj_union. right.
  rewrite (large_perm' _ _ (row_objects_delete rows o gr Ho)), large_app', gmultiset_elem_of_disj_union. left.
  unfold large. apply elem_of_list_to_set_disj, list_elem_of_filter. split; [done|].
  by apply list_elem_of_lookup_2 in Hob.
Qed.

Lemma insert_reach p bs A row offs objs :
  page_reach p bs A → shape rs v row offs → length objs = length offs →
  collision_free (m0 ⊎ large (arow_objects A) ⊎ large objs) →
  ∃ b, has_space_for_row_with_objects (E:=PageError) p rs objs = Ok b ∧
    if b then ∃ o p' bs', insert_row row objs v (p, bs) = (Ok o, (p', bs')) ∧ A !! o = None ∧
        page_reach p' bs' (<[o := (blank offs row, objs)]> A)
    else ∃ e s, insert_row row objs v (p, bs) = (Err e, s).
Proof using Hrs.
  intros Hr Hsh Hlen Hc. destruct (page_reach_inv _ _ _ Hr) as [rows Hinv].
  pose proof (ri_page _ _ _ _ Hinv) as (fl & vl & u & H & _ & _).
  destruct (has_space_spec (E:=PageError) _ Hrs _ _ _ _ _ (total_granules objs) H) as (b & Hb & _).
  exists b. split; [exact Hb|]. destruct b.
  - destruct (insert_reach_inv p bs A rows row offs objs Hinv Hsh Hlen Hb Hc)
      as (o & p' & bs' & gr & Hi & Ho & _). exists o, p', bs'. split_and!; try done. by econstructor.
  - destruct Hinv as [Hp -> Hm _]. rewrite arow_objects_abs in Hc.
    eapply (insert_row_full rs Hrs v p bs rows); eauto.
Qed.

Lemma delete_reach p bs A o r :
  page_reach p bs A → A !! o = Some r →
  ∃ p' bs', page_delete_row o rs v (p, bs) = (Ok (large_bytes r.2), (p', bs')) ∧
    page_reach p' bs' (delete o A).
Proof using Hrs.
  intros Hr Ho. destruct (page_reach_inv _ _ _ Hr) as [rows Hinv].
  destruct (delete_reach_inv p bs A rows o r Hinv Ho) as (p' & bs' & Hd & _).
  exists p', bs'. split; [done|]. by econstructor.
Qed.

(** C22. A page is a map from offsets to rows.  Iterating over the rows gives
    the offsets of the map, in order; the presence bit of a cell says if it is
    in the map; the bytes of a row and of its objects, inline or in the blob
    store, read as they were inserted; inserting a row finds a new offset for
    it if and only if there is space, and fails otherwise; deleting a row
    succeeds and says how many bytes it freed in the blob store. *)
Theorem page_refines_map p bs A :
  page_reach p bs A →
  (∃ l, iter_fixed_len (E:=PageError) p rs = Ok l ∧ StronglySorted Z.lt l ∧ ∀ o, o ∈ l ↔ is_Some (A !! o)) ∧
  (∀ o, 0 ≤ o → o mod rs = 0 → o + rs ≤ PAGE_DATA_SIZE →
    page_has_row_offset (E:=PageError) p rs o = Ok (bool_decide (is_Some (A !! o)))) ∧
  (∀ o r, A !! o = Some r → ∃ row offs,
    page_get_row_data (E:=PageError) p o rs = Ok row ∧ visit_var_len (E:=PageError) v row = Ok offs ∧
    blank offs row = r.1 ∧ reads_objects p bs row offs r.2) ∧
  (∀ row offs objs, shape rs v row offs → length objs = length offs →
    collision_free (m0 ⊎ large (arow_objects A) ⊎ large objs) →
    ∃ b, has_space_for_row_with_objects (E:=PageError) p rs objs = Ok b ∧
      if b then ∃ o p' bs', insert_row row objs v (p, bs) = (Ok o, (p', bs')) ∧ A !! o = None ∧
          page_reach p' bs' (<[o := (blank offs row, objs)]> A)
      else ∃ e s, insert_row row objs v (p, bs) = (Err e, s)) ∧
  (∀ o r, A !! o = Some r → ∃ p' bs',
    page_delete_row o rs v (p, bs) = (Ok (large_bytes r.2), (p', bs')) ∧ page_reach p' bs' (delete o A)).
Proof using Hrs.
  intros Hr. destruct (page_reach_inv _ _ _ Hr) as [rows Hinv].
  pose proof Hinv as [Hp HA _ _]. split_and!.
  - destruct (iter_fixed_len_ok (E:=PageError) _ Hrs _ _ _ Hp) as (l & Hl & Hs & Hin).
    exists l. split_and!; [done|done|]. intros o. rewrite Hin, HA, lookup_fmap, fmap_is_Some. apply elem_of_dom.
  - intros o H1 H2 H3. rewrite (has_row_offset_ok _ Hrs _ _ _ _ Hp H1 H2 H3). f_equal.
    apply bool_decide_ext. by rewrite HA, lookup_fmap, fmap_is_Some, elem_of_dom.
  - intros o r Ho. rewrite HA, lookup_fmap in Ho. destruct (rows !! o) as [gr|] eqn:Hgr; [|done].
    injection Ho as <-. destruct (read_row_ok (E:=PageError) _ Hrs _ _ _ _ _ Hp Hgr) as (R1 & R2 & _).
    exists (gr_fixed gr), (gr_offs gr). split_and!; try done. by eapply read_objects_ok.
  - intros. by apply insert_reach.
  - intros. by apply delete_reach.
Qed.
End reach.

(** ** Examples *)

Module Examples.
(** Rows of four bytes, all a reference. *)
Definition vis : AlignedVarLenOffsets := {| from_offsets := [0] |}.

Lemma row4_ok : row_size_ok 4.
Proof. by split. Qed.

Lemma row4_shape b : shape 4 vis (replicate 4 b) [0].
Proof.
  split; [done|by repeat split|]. eapply visits_cons; [done|]. apply visits_nil. eauto.
Qed.

#[local] Instance last32_hash : Blake3 := BlobStore.Examples.last32_hash.

Definition no_page : Page :=
  {| pg_header := {| hd_fixed := {| fx_next_free := 0; fx_last := 0; fx_num_rows := 0; fx_present_rows := [] |};
                     hd_var := VarHeader_default; hd_unmodified_hash := None |};
     pg_row_data := [] |}.
Definition page0 : Page := match page_new (E:=PageError) 4 with Ok p => p | _ => no_page end.

Lemma page0_reach : page_reach (B:=HashMapBlobStore) 4 vis ∅ page0 ∅ ∅.
Proof.
  constructor; [|by split].
  destruct (page_new_inv (E:=PageError) 4 row4_ok vis) as (p & Hn & _). unfold page0. by rewrite Hn.
Qed.

(** A page with one row, which has an object of two bytes. *)
Definition row : list byte := replicate 4 x00.
Definition objs : list (list byte) := [[x01; x02]].
Definition state1 : Page * HashMapBlobStore := (insert_row row objs vis (page0, ∅)).2.

Lemma state1_offset : (insert_row row objs vis (page0, (∅ : HashMapBlobStore))).1 = Ok 0.
Proof. vm_compute. reflexivity. Qed.

Lemma state1_reach :
  page_reach (B:=HashMapBlobStore) 4 vis ∅ state1.1 state1.2 {[0 := (row, objs)]}.
Proof.
  apply (pr_insert 4 vis ∅ page0 ∅ ∅ row [0] objs 0); [apply page0_reach|apply row4_shape|done|..].
  - vm_compute. reflexivity.
  - change (large objs) with (∅ : gmultiset (list byte)).
    change (large (arow_objects ∅)) with (∅ : gmultiset (list byte)). intros b b' Hb. exfalso. multiset_solver.
  - pose proof state1_offset as H. unfold state1. destruct (insert_row _ _ _ _) as [r [p bs]].
    cbn [fst snd] in *. by rewrite H.
Qed.

Lemma page_invariant_witness : ∃ rows, reach_inv 4 vis ∅ state1.1 state1.2 {[0 := (row, objs)]} rows.
Proof. apply (page_invariant 4 row4_ok vis ∅). apply state1_reach. Defined.

Lemma page_sizes_witness :
  page_num_rows state1.1 = 1 ∧ page_num_var_len_granules state1.1 = 1 ∧
  0 + 4 ≤ fx_last (pg_fixed state1.1).
Proof.
  destruct (page_sizes 4 row4_ok vis ∅ _ _ _ state1_reach) as (H1 & H2 & _ & _ & H3 & _).
  split; [exact H1|]. split; [exact H2|]. apply H3. by eexists.
Defined.

Lemma page_refines_map_witness :
  page_has_row_offset (E:=PageError) state1.1 4 0 = Ok true ∧
  page_has_row_offset (E:=PageError) state1.1 4 4 = Ok false ∧
  (∃ p' bs', page_delete_row 0 4 vis state1 = (Ok 0, (p', bs')) ∧ page_reach 4 vis ∅ p' bs' ∅).
Proof.
  destruct (page_refines_map 4 row4_ok vis ∅ _ _ _ state1_reach) as (_ & H1 & _ & _ & H2).
  split; [by rewrite H1|]. split; [by rewrite H1|].
  destruct (H2 0 (row, objs) eq_refl) as (p' & bs' & Hd & Hr). exists p', bs'. split.
  - destruct state1 as [p bs]. exact Hd.
  - by rewrite delete_singleton_eq in Hr.
Defined.
End Examples.
