(* ===== verification/Pages.v ===== *)
(** * The page manager (crates/table/src/pages.rs, page_pool.rs)

    [Pages] is a vector of pages together with the indices of those that are
    not full; new pages come from a pool of pages that other tables gave back. *)

From Stdlib Require Import ZArith Lia.
From stdpp Require Import list.
From S2P Require Import Prelude Mem Indexes BitSet VarLen BlobStore Page.
Local Open Scope Z_scope.

(** ** The pool of unused pages *)

(** [crossbeam_queue::ArrayQueue], a queue with a fixed capacity: [push] says
    if there was room. *)
Class PageQueue (Q : Type) := {
  queue_push : Q → Page → bool * Q;
  queue_pop : Q → option Page * Q;
}.

Record PagePool (Q : Type) := {
  pool_pages : Q;
  dropped_pages_count : Z;
  new_pages_allocated_count : Z;
  pages_reused_count : Z;
  pages_returned_count : Z;
}.
Arguments pool_pages {Q}.
Arguments dropped_pages_count {Q}.
Arguments new_pages_allocated_count {Q}.
Arguments pages_reused_count {Q}.
Arguments pages_returned_count {Q}.

Section pool.
Context {Q : Type} {QueueI : PageQueue Q}.

Definition pool_new (queue : Q) : PagePool Q :=
  {| pool_pages := queue; dropped_pages_count := 0; new_pages_allocated_count := 0;
     pages_reused_count := 0; pages_returned_count := 0 |}.

Definition pool_put (pool : PagePool Q) (page : Page) : PagePool Q :=
  let '(ok, queue) := queue_push (pool_pages pool) page in
  {| pool_pages := queue;
     dropped_pages_count := dropped_pages_count pool + (if ok : bool then 0 else 1);
     new_pages_allocated_count := new_pages_allocated_count pool;
     pages_reused_count := pages_reused_count pool;
     pages_returned_count := pages_returned_count pool + (if ok : bool then 1 else 0) |}.

Definition pool_put_many (pool : PagePool Q) (pages : list Page) : PagePool Q := fold_left pool_put pages pool.

Definition take_with_max_row_count {E} (max_rows_in_page : Z) : st (PagePool Q) E Page := λ pool,
  let '(popped, queue) := queue_pop (pool_pages pool) in
  match popped with
  | Some page =>
      (page_reset_for page max_rows_in_page,
       {| pool_pages := queue; dropped_pages_count := dropped_pages_count pool;
          new_pages_allocated_count := new_pages_allocated_count pool;
          pages_reused_count := pages_reused_count pool + 1; pages_returned_count := pages_returned_count pool |})
  | None =>
      (page_new_with_max_row_count max_rows_in_page,
       {| pool_pages := queue; dropped_pages_count := dropped_pages_count pool;
          new_pages_allocated_count := new_pages_allocated_count pool + 1;
          pages_reused_count := pages_reused_count pool; pages_returned_count := pages_returned_count pool |})
  end.

Definition take_with_fixed_row_size {E} (fixed_row_size : Z) : st (PagePool Q) E Page :=
  take_with_max_row_count (max_rows_in_page fixed_row_size).
End pool.

(** ** The page manager *)

Inductive PagesError :=
| TooManyPages
| PagesPage (e : PageError).

Record Pages := { pages : list Page; non_full_pages : list Z }.

Definition pages_default : Pages := {| pages := []; non_full_pages := [] |}.

(** [Index<PageIndex>]. *)
Definition get_page {E} (ps : Pages) (pi : Z) : result E Page := vec_get (pages ps) pi.
(** [IndexMut<PageIndex>], at an index in range. *)
Definition set_page (ps : Pages) (pi : Z) (page : Page) : Pages :=
  {| pages := <[Z.to_nat pi := page]> (pages ps); non_full_pages := non_full_pages ps |}.

Definition can_allocate_new_page (ps : Pages) : result PagesError Z :=
  let new_idx := len (pages ps) in
  if new_idx <=? PageIndex_MAX then Ok new_idx else Err TooManyPages.

Definition pages_clear (ps : Pages) : Pages :=
  {| pages := map page_clear (pages ps); non_full_pages := seqZ 0 (len (pages ps)) |}.

Definition get_fixed_len_row {E} (ps : Pages) (row fixed_row_size : Z) : result E (list byte) :=
  rbind (get_page ps (page_index row)) (λ page, page_get_row_data page (page_offset row) fixed_row_size).

Definition mark_page_non_full (idx : Z) (ps : Pages) : Pages :=
  {| pages := pages ps; non_full_pages := non_full_pages ps ++ [idx] |}.

Local Open Scope result_scope.

Definition maybe_mark_page_non_full {E} (page_index fixed_row_size : Z) (ps : Pages) : result E Pages :=
  let* page := get_page ps page_index in
  let* full := page_is_full page fixed_row_size in
  Ok (if full : bool then ps else mark_page_non_full page_index ps).

(** The search of [find_page_with_space_for_row]: the place in the set of the
    page, and the page. *)
Fixpoint find_page_with_space {E} (ps : Pages) (fixed_row_size num_var_len_granules : Z) (page_idx_idx : nat)
    (candidates : list Z) : result E (option (nat * Z)) :=
  match candidates with
  | [] => Ok None
  | page_idx :: candidates =>
      let* page := get_page ps page_idx in
      let* has_space := has_space_for_row page fixed_row_size num_var_len_granules in
      if has_space : bool then Ok (Some (page_idx_idx, page_idx))
      else find_page_with_space ps fixed_row_size num_var_len_granules (S page_idx_idx) candidates
  end.

(** The indices of the pages that are not full. *)
Fixpoint non_full_indices {E} (fixed_row_size : Z) (idx : Z) (ps : list Page) : result E (list Z) :=
  match ps with
  | [] => Ok []
  | page :: ps =>
      let* full := page_is_full page fixed_row_size in
      let* rest := non_full_indices fixed_row_size (idx + 1) ps in
      Ok (if full : bool then rest else idx :: rest)
  end.

Definition set_contents {E} (self : Pages) (new_pages : list Page) (fixed_row_size : Z) : result E Pages :=
  match pages self with
  | [] =>
      let* non_full := non_full_indices fixed_row_size 0 new_pages in
      Ok {| pages := new_pages; non_full_pages := non_full |}
  | _ => Panic
  end.

Local Close Scope result_scope.
Local Open Scope st_scope.

Section pages.
Context {Q B V : Type} {QueueI : PageQueue Q} {BsI : BlobStore B} {VisI : VarLenMembers V}.

(** The page manager, the pool it takes pages from, and the blob store. *)
Abbreviation pages_st := (Pages * PagePool Q * B)%type (only parsing).

(** An operation on the pool. *)
Definition on_pool {E A} (m : st (PagePool Q) E A) : st pages_st E A := λ '(ps, pool, bs),
  let '(r, pool) := m pool in (r, (ps, pool, bs)).
Definition modify_pages {E} (f : Pages → Pages) : st pages_st E unit := smodify (λ '(ps, pool, bs), (f ps, pool, bs)).
Definition lift_pages {E A} (f : Pages → result E A) : st pages_st E A := slift (λ '(ps, _, _), f ps).

Definition allocate_new_page (fixed_row_size : Z) : st pages_st PagesError Z :=
  let! new_idx := lift_pages can_allocate_new_page in
  let! page := on_pool (take_with_fixed_row_size fixed_row_size) in
  let! _ := modify_pages (λ ps, {| pages := pages ps ++ [page]; non_full_pages := non_full_pages ps |}) in
  sret new_idx.

Definition reserve_empty_page (fixed_row_size : Z) : st pages_st PagesError Z :=
  let! idx := allocate_new_page fixed_row_size in
  let! _ := modify_pages (mark_page_non_full idx) in
  sret idx.

Definition find_page_with_space_for_row (fixed_row_size num_var_len_granules : Z) : st pages_st PagesError Z :=
  let! found := lift_pages (λ ps, find_page_with_space ps fixed_row_size num_var_len_granules 0 (non_full_pages ps)) in
  match found with
  | Some (page_idx_idx, page_idx) =>
      let! _ := modify_pages (λ ps, {| pages := pages ps;
                                       non_full_pages := swap_remove page_idx_idx (non_full_pages ps) |}) in
      sret page_idx
  | None => allocate_new_page fixed_row_size
  end.

(** [f] on a page of the manager; its error is a result, not an error. *)
Definition on_one_page {E E' A} (pi : Z) (f : st (Page * B) E' A) : st pages_st E (result E' A) := λ '(ps, pool, bs),
  match get_page ps pi with
  | Ok page =>
      let '(r, (page, bs)) := f (page, bs) in
      (match r with Ok _ | Err _ => Ok r | Panic => Panic | OutOfFuel => OutOfFuel end, (set_page ps pi page, pool, bs))
  | Err e => (Err e, (ps, pool, bs))
  | Panic => (Panic, (ps, pool, bs))
  | OutOfFuel => (OutOfFuel, (ps, pool, bs))
  end.

Definition with_page_to_insert_row {E A} (fixed_row_size num_var_len_granules : Z) (f : st (Page * B) E A) :
    st pages_st PagesError (Z * result E A) :=
  let! page_index := find_page_with_space_for_row fixed_row_size num_var_len_granules in
  let! res := on_one_page page_index f in
  let! ps := lift_pages (maybe_mark_page_non_full page_index fixed_row_size) in
  let! _ := modify_pages (λ _, ps) in
  sret (page_index, res).

Definition pages_insert_row (v : V) (fixed_row_size : Z) (fixed_len : list byte) (var_len : list (list byte)) :
    st pages_st PagesError (Z * Z) :=
  let! _ := sassert (len fixed_len =? fixed_row_size) in
  let! ' (page, res) := with_page_to_insert_row fixed_row_size (total_granules_required_for_objects var_len)
                          (insert_row fixed_len var_len v) in
  match res with
  | Ok offset => sret (page, offset)
  | Err e => sthrow (PagesPage e)
  | Panic | OutOfFuel => spanic
  end.

Definition pages_delete_row (v : V) (fixed_row_size row_ptr : Z) : st pages_st PagesError Z :=
  let! full_before := lift_pages (λ ps, rbind (get_page ps (page_index row_ptr)) (λ page, page_is_full page fixed_row_size)) in
  let! res := on_one_page (page_index row_ptr) (page_delete_row (page_offset row_ptr) fixed_row_size v) in
  let! _ := if full_before : bool then modify_pages (mark_page_non_full (page_index row_ptr)) else sret tt in
  match res with
  | Ok blob_store_deleted_bytes => sret blob_store_deleted_bytes
  | Err e => sthrow (PagesPage e)
  | Panic | OutOfFuel => spanic
  end.

(** ** Copying *)

(** The rounds for one page: the pages filled so far, and the last one.  Each
    round but the first copies a row. *)
Fixpoint copy_page_rows (fuel : nat) (from_page : Page) (v : V) (fixed_row_size : Z) (keep : Page → Z → bool)
    (next_offset : Z) (partial_page : option Page) (copied : list Page) : st B PageError (option Page * list Page) :=
  match fuel with
  | O => λ bs, (OutOfFuel, bs)
  | S fuel =>
      let! to_page := slift (λ _, match partial_page with Some p => Ok p | None => page_new fixed_row_size end) in
      let! ' (continue_point, to_page) := λ bs,
        let '(r, (to_page, bs)) := copy_filter_into from_page next_offset fixed_row_size v keep (to_page, bs) in
        (rmap (λ c, (c, to_page)) r, bs) in
      match continue_point with
      | None => sret (Some to_page, copied)
      | Some next_offset => copy_page_rows fuel from_page v fixed_row_size keep next_offset None (copied ++ [to_page])
      end
  end.

Fixpoint copy_pages (from_pages : list Page) (v : V) (fixed_row_size : Z) (keep : Page → Z → bool)
    (partial_page : option Page) (copied : list Page) : st B PageError (option Page * list Page) :=
  match from_pages with
  | [] => sret (partial_page, copied)
  | from_page :: from_pages =>
      let! ' (partial_page, copied) := copy_page_rows (Z.to_nat (page_num_rows from_page + 2)) from_page v
                                         fixed_row_size keep 0 partial_page copied in
      copy_pages from_pages v fixed_row_size keep partial_page copied
  end.

(** [copy_filter]: the last destination page is not among the copied ones. *)
Definition pages_copy_filter (self : Pages) (v : V) (fixed_row_size : Z) (keep : Page → Z → bool) :
    st B PageError Pages :=
  let! ' (_, copied) := copy_pages (pages self) v fixed_row_size keep None [] in
  sret {| pages := copied; non_full_pages := [] |}.
End pages.
