(* ===== verification/PointerMap.v ===== *)
(** * Pointer maps (crates/table/src/pointer_map.rs)

    A [PointerMap] associates row hashes with row pointers: a pointer inline
    when a hash has one, and a slot of [colliders] when it has several.  The
    theorems show that it is a finite set of pairs of a hash and a pointer. *)

From stdpp Require Import base gmap list sets.
From Stdlib Require Import ZArith Lia.
From S2P Require Import Prelude Mem Indexes.
Local Open Scope Z_scope.
Local Open Scope result_scope.

(** ** Colliders packed in row pointers *)

(** [ColliderSlotIndex::new]; [idx] is the number itself. *)
Definition ColliderSlotIndex_new (idx : Z) : Z := wrap_u 32 idx.

Definition ensure_ptr (rp : Z) : Z := with_reserved_bit rp false.

(** A [PtrOrCollider] is the row pointer it wraps. *)
Definition poc_ptr (rp : Z) : Z := ensure_ptr rp.
Definition poc_collider (c : Z) : Z := RowPointer_new true c VAR_LEN_NULL COMMITTED_STATE.
Definition poc_is_ptr (poc : Z) : bool := negb (reserved_bit poc).
Definition poc_as_collider (poc : Z) : Z := wrap_u 32 (page_index poc).

Inductive MapSlot :=
| Pointer (ptr : Z)
| Collider (ci : Z).

Definition poc_unpack (poc : Z) : MapSlot :=
  if poc_is_ptr poc then Pointer poc else Collider (poc_as_collider poc).

(** ** The map *)

Record PointerMap := {
  pm_map : gmap Z Z;
  pm_colliders : list (list Z);
  pm_emptied : list Z;
}.

Definition pm_default : PointerMap :=
  {| pm_map := ∅; pm_colliders := []; pm_emptied := [] |}.

Definition num_collisions (pm : PointerMap) : Z :=
  foldr Z.add 0 (map len (pm_colliders pm)).

Definition num_non_collisions {E} (pm : PointerMap) : result E Z :=
  let* used := sub_u (len (pm_colliders pm)) (len (pm_emptied pm)) in
  sub_u (Z.of_nat (size (pm_map pm))) used.

Definition pm_len {E} (pm : PointerMap) : result E Z :=
  let* n := num_non_collisions pm in
  Ok (num_collisions pm + n).

Definition pm_is_empty (pm : PointerMap) : bool := Nat.eqb (size (pm_map pm)) 0.

Definition pointers_for {E} (pm : PointerMap) (hash : Z) : result E (list Z) :=
  match pm_map pm !! hash with
  | None => Ok []
  | Some poc =>
      match poc_unpack poc with
      | Pointer ro => Ok [ro]
      | Collider ci => vec_get (pm_colliders pm) ci
      end
  end.

(** A slot for two pointers: a new one, or an emptied one used again. *)
Definition alloc_collider {E} (pm : PointerMap) (ptrs : list Z) :
    result E (Z * list (list Z) * list Z) :=
  match vec_pop (pm_emptied pm) with
  | None =>
      Ok (ColliderSlotIndex_new (len (pm_colliders pm)), pm_colliders pm ++ [ptrs], [])
  | Some (ci, emptied) =>
      let* slot := vec_get (pm_colliders pm) ci in
      Ok (ci, <[Z.to_nat ci := slot ++ ptrs]> (pm_colliders pm), emptied)
  end.

Definition pm_insert {E} (hash ptr : Z) (pm : PointerMap) : result E (bool * PointerMap) :=
  match pm_map pm !! hash with
  | None =>
      Ok (false, {| pm_map := <[hash := poc_ptr ptr]> (pm_map pm);
                    pm_colliders := pm_colliders pm; pm_emptied := pm_emptied pm |})
  | Some v =>
      match poc_unpack v with
      | Pointer existing =>
          if existing =? ptr then Ok (true, pm)
          else
            let* ' (ci, colliders, emptied) :=
              alloc_collider pm [ensure_ptr existing; ensure_ptr ptr] in
            Ok (false, {| pm_map := <[hash := poc_collider ci]> (pm_map pm);
                          pm_colliders := colliders; pm_emptied := emptied |})
      | Collider ci =>
          let ptr := ensure_ptr ptr in
          let* slot := vec_get (pm_colliders pm) ci in
          if bool_decide (ptr ∈ slot) then Ok (true, pm)
          else Ok (false, {| pm_map := pm_map pm;
                             pm_colliders := <[Z.to_nat ci := slot ++ [ptr]]> (pm_colliders pm);
                             pm_emptied := pm_emptied pm |})
      end
  end.

(** An empty slot after the removal is [unreachable_unchecked]. *)
Definition pm_remove {E} (hash ptr : Z) (pm : PointerMap) : result E (bool * PointerMap) :=
  match pm_map pm !! hash with
  | None => Ok (false, pm)
  | Some v =>
      match poc_unpack v with
      | Pointer o =>
          if o =? ptr
          then Ok (true, {| pm_map := delete hash (pm_map pm);
                            pm_colliders := pm_colliders pm; pm_emptied := pm_emptied pm |})
          else Ok (false, pm)
      | Collider ci =>
          let* slot := vec_get (pm_colliders pm) ci in
          match list_find (λ o, o = ptr) slot with
          | None => Ok (false, pm)
          | Some (idx, _) =>
              match swap_remove idx slot with
              | [] => Panic
              | [last] =>
                  Ok (true, {| pm_map := <[hash := poc_ptr last]> (pm_map pm);
                               pm_colliders := <[Z.to_nat ci := []]> (pm_colliders pm);
                               pm_emptied := pm_emptied pm ++ [ci] |})
              | slot =>
                  Ok (true, {| pm_map := pm_map pm;
                               pm_colliders := <[Z.to_nat ci := slot]> (pm_colliders pm);
                               pm_emptied := pm_emptied pm |})
              end
          end
      end
  end.

(** [from_iter]. *)
Fixpoint pm_extend {E} (l : list (Z * Z)) (pm : PointerMap) : result E PointerMap :=
  match l with
  | [] => Ok pm
  | (h, o) :: l => let* ' (_, pm) := pm_insert h o pm in pm_extend l pm
  end.
Definition pm_from_iter {E} (l : list (Z * Z)) : result E PointerMap := pm_extend l pm_default.

(** ** Packing *)

(** The row pointers that the map is used with. *)
Definition ptr_ok (p : Z) : Prop := in_u 64 p ∧ reserved_bit p = false.

Lemma ensure_ptr_id p : ptr_ok p → ensure_ptr p = p.
Proof. intros [H1 H2]. by apply with_reserved_bit_id. Qed.

Lemma unpack_ptr p : ptr_ok p → poc_unpack p = Pointer p.
Proof. intros [_ H]. unfold poc_unpack, poc_is_ptr. by rewrite H. Qed.

Lemma collider_range c : in_u 32 c → in_u 39 c.
Proof. unfold in_u. change (2 ^ 32) with 4294967296. change (2 ^ 39) with 549755813888. lia. Qed.

Lemma as_collider_collider c : in_u 32 c → poc_as_collider (poc_collider c) = c.
Proof.
  intros Hc. unfold poc_as_collider, poc_collider.
  rewrite page_index_new by by apply collider_range. by apply wrap_u_id.
Qed.

Lemma unpack_collider c : in_u 32 c → poc_unpack (poc_collider c) = Collider c.
Proof.
  intros Hc. unfold poc_unpack, poc_is_ptr. rewrite as_collider_collider by done.
  unfold poc_collider. by rewrite reserved_bit_new.
Qed.

Lemma collider_inj c c' : in_u 32 c → in_u 32 c' → poc_collider c = poc_collider c' → c = c'.
Proof. intros Hc Hc' H. by rewrite <-(as_collider_collider c), H, as_collider_collider. Qed.

(** ** Sums of lengths *)

Definition sum_len (l : list (list Z)) : Z := foldr Z.add 0 (map len l).

Lemma sum_len_app l1 l2 : sum_len (l1 ++ l2) = sum_len l1 + sum_len l2.
Proof. induction l1 as [|x l1 IH]; [done|]. unfold sum_len in *. simpl. lia. Qed.

Lemma sum_len_insert l n s s' :
  l !! n = Some s → sum_len (<[n := s']> l) = sum_len l - len s + len s'.
Proof.
  intros H. rewrite insert_take_drop by by eapply lookup_lt_Some.
  rewrite <-(take_drop_middle l n s H) at 3. rewrite !sum_len_app.
  change (sum_len (?x :: ?l)) with (len x + sum_len l). lia.
Qed.

(** ** The invariant *)

(** The pairs of [S] are in the map, and the hashes of [C] have a slot. *)
Record pm_ok (pm : PointerMap) (S : gset (Z * Z)) (C : gset Z) : Prop := {
  ok_none h : pm_map pm !! h = None → ∀ p, (h, p) ∉ S;
  ok_ptr h poc :
    pm_map pm !! h = Some poc → h ∉ C → ptr_ok poc ∧ ∀ p, (h, p) ∈ S ↔ p = poc;
  ok_col h :
    h ∈ C → ∃ n slot, pm_map pm !! h = Some (poc_collider (Z.of_nat n)) ∧
      pm_colliders pm !! n = Some slot ∧ (2 ≤ length slot)%nat ∧ ∀ p, (h, p) ∈ S ↔ p ∈ slot;
  ok_inj h h' : h ∈ C → h' ∈ C → pm_map pm !! h = pm_map pm !! h' → h = h';
  ok_slot n slot : pm_colliders pm !! n = Some slot → NoDup slot ∧ Forall ptr_ok slot;
  ok_emptied ci : ci ∈ pm_emptied pm → ∃ n, ci = Z.of_nat n ∧ pm_colliders pm !! n = Some [];
  ok_nodup : NoDup (pm_emptied pm);
  ok_small : len (pm_colliders pm) ≤ 2 ^ 32;
  ok_used : Z.of_nat (size C) + len (pm_emptied pm) = len (pm_colliders pm);
  ok_len :
    sum_len (pm_colliders pm) + (Z.of_nat (size (pm_map pm)) - Z.of_nat (size C)) = Z.of_nat (size S);
}.

Lemma pm_default_ok : pm_ok pm_default ∅ ∅.
Proof. split; try done; try set_solver. constructor. Qed.

Lemma slot_index pm S C n slot : pm_ok pm S C → pm_colliders pm !! n = Some slot → in_u 32 (Z.of_nat n).
Proof.
  intros H Hn. apply lookup_lt_Some in Hn. pose proof (ok_small _ _ _ H). unfold len, in_u in *. lia.
Qed.

Lemma ok_ptr_ok pm S C h p : pm_ok pm S C → (h, p) ∈ S → ptr_ok p.
Proof.
  intros H Hp. destruct (pm_map pm !! h) as [poc|] eqn:Hh; [|by destruct (ok_none _ _ _ H h Hh p)].
  destruct (decide (h ∈ C)) as [HC|HC].
  - destruct (ok_col _ _ _ H h HC) as (n & slot & _ & Hs & _ & Hin).
    apply Hin in Hp. destruct (ok_slot _ _ _ H n slot Hs) as [_ Hf]. by eapply Forall_forall in Hf.
  - destruct (ok_ptr _ _ _ H h poc Hh HC) as [Hpoc Hin]. apply Hin in Hp. by subst.
Qed.

Lemma pointers_for_ok {E} pm S C h :
  pm_ok pm S C → ∃ l, pointers_for (E:=E) pm h = Ok l ∧ NoDup l ∧ ∀ p, p ∈ l ↔ (h, p) ∈ S.
Proof.
  intros H. unfold pointers_for. destruct (pm_map pm !! h) as [poc|] eqn:Hh.
  - destruct (decide (h ∈ C)) as [HC|HC].
    + destruct (ok_col _ _ _ H h HC) as (n & slot & Hm & Hs & _ & Hin).
      rewrite Hm in Hh. injection Hh as <-. rewrite unpack_collider by by eapply slot_index.
      exists slot. rewrite (vec_get_Ok _ _ slot) by (by rewrite ?Nat2Z.id; try lia).
      split_and!; [done|by eapply ok_slot|]. by intros p; rewrite Hin.
    + destruct (ok_ptr _ _ _ H h poc Hh HC) as [Hpoc Hin]. rewrite unpack_ptr by done.
      exists [poc]. split_and!; [done|apply NoDup_singleton|]. intros p. by rewrite list_elem_of_singleton, Hin.
  - exists []. split_and!; [done|constructor|]. intros p. pose proof (ok_none _ _ _ H h Hh p). set_solver.
Qed.

Lemma pm_len_ok {E} pm S C : pm_ok pm S C → pm_len (E:=E) pm = Ok (Z.of_nat (size S)).
Proof.
  intros H. pose proof (ok_used _ _ _ H). pose proof (ok_len _ _ _ H).
  assert (size C ≤ size (pm_map pm))%nat.
  { rewrite <-size_dom. apply subseteq_size. intros h Hh.
    destruct (ok_col _ _ _ H h Hh) as (n & slot & Hm & _). by eapply elem_of_dom_2. }
  unfold pm_len, num_non_collisions. pose proof (len_nonneg (pm_emptied pm)).
  rewrite sub_u_Ok by lia. cbn [rbind]. rewrite sub_u_Ok by lia. cbn [rbind].
  f_equal. fold (sum_len (pm_colliders pm)) in *. unfold num_collisions, sum_len in *. lia.
Qed.

Lemma pm_is_empty_ok pm S C : pm_ok pm S C → pm_is_empty pm = bool_decide (S = ∅).
Proof.
  intros H. unfold pm_is_empty. destruct (Nat.eqb_spec (size (pm_map pm)) 0) as [Hz|Hz].
  - apply map_size_empty_iff in Hz. rewrite bool_decide_true; [done|].
    apply set_eq. intros [h p]. pose proof (ok_none _ _ _ H h) as Hn. rewrite Hz in Hn. set_solver.
  - rewrite bool_decide_false; [done|]. intros ->.
    destruct (map_choose (pm_map pm)) as (h & poc & Hh); [by intros He; rewrite He in Hz|].
    destruct (decide (h ∈ C)) as [HC|HC].
    + destruct (ok_col _ _ _ H h HC) as (n & [|p slot] & _ & _ & Hl & Hin); [simpl in Hl; lia|].
      specialize (Hin p). set_solver.
    + destruct (ok_ptr _ _ _ H h poc Hh HC) as [_ Hin]. specialize (Hin poc). set_solver.
Qed.

(** ** Insertion *)

Lemma size_insert_pair (S : gset (Z * Z)) x :
  x ∉ S → Z.of_nat (size ({[x]} ∪ S)) = Z.of_nat (size S) + 1.
Proof. intros. rewrite size_union by set_solver. rewrite size_singleton. lia. Qed.

Lemma insert_first pm S C h p :
  pm_ok pm S C → pm_map pm !! h = None → ptr_ok p →
  pm_ok {| pm_map := <[h := p]> (pm_map pm); pm_colliders := pm_colliders pm;
           pm_emptied := pm_emptied pm |} ({[(h, p)]} ∪ S) C.
Proof.
  intros H Hh Hp. pose proof (ok_none _ _ _ H h Hh) as Hno.
  assert (HhC : h ∉ C).
  { intros HC. destruct (ok_col _ _ _ H h HC) as (n & slot & Hm & _). congruence. }
  destruct H as [O1 O2 O3 O4 O5 O6 O7 O8 O9 O10]. split; simpl; try done.
  - intros h' Hh' p'. apply lookup_insert_None in Hh' as [Hn Hne].
    pose proof (O1 h' Hn p'). set_solver.
  - intros h' poc Hh' HC. apply lookup_insert_Some in Hh' as [[<- <-]|[Hne Hh']].
    + split; [done|]. intros p'. set_solver.
    + destruct (O2 h' poc Hh' HC) as [Hok Hin]. split; [done|]. intros p'. rewrite <-Hin. set_solver.
  - intros h' HC. destruct (O3 h' HC) as (n & slot & Hm & Hs & Hl & Hin).
    exists n, slot. rewrite lookup_insert_ne by (intros ->; done). split_and!; try done.
    intros p'. rewrite <-Hin. set_solver.
  - intros h1 h2 HC1 HC2. rewrite !lookup_insert_ne by (intros ->; done). by apply (O4).
  - rewrite map_size_insert_None, size_insert_pair by done. lia.
Qed.

(** What [alloc_collider] gives: a slot [n] that was not in use. *)
Record allocated (pm : PointerMap) (ptrs : list Z) (n : nat) (cs : list (list Z)) (em : list Z) : Prop := {
  al_index : in_u 32 (Z.of_nat n);
  al_slot : cs !! n = Some ptrs;
  al_other m : m ≠ n → cs !! m = pm_colliders pm !! m;
  al_fresh slot : pm_colliders pm !! n = Some slot → slot = [];
  al_not_emptied : Z.of_nat n ∉ em;
  al_emptied ci : ci ∈ em → ci ∈ pm_emptied pm;
  al_nodup : NoDup em;
  al_used : len cs - len em = len (pm_colliders pm) - len (pm_emptied pm) + 1;
  al_sum : sum_len cs = sum_len (pm_colliders pm) + len ptrs;
  al_len : len cs ≤ len (pm_colliders pm) + 1;
}.

Lemma alloc_collider_ok {E} pm S C ptrs :
  pm_ok pm S C → len (pm_colliders pm) < 2 ^ 32 →
  ∃ n cs em, alloc_collider (E:=E) pm ptrs = Ok (Z.of_nat n, cs, em) ∧ allocated pm ptrs n cs em.
Proof.
  intros H Hlt. pose proof (ok_nodup _ _ _ H) as Hnd. pose proof (ok_emptied _ _ _ H) as Hem.
  unfold alloc_collider. destruct (pm_emptied pm) as [|ci em _] eqn:He using rev_ind.
  - assert (Hr : in_u 32 (len (pm_colliders pm))) by (unfold in_u, len in *; lia).
    exists (length (pm_colliders pm)), (pm_colliders pm ++ [ptrs]), [].
    unfold ColliderSlotIndex_new. rewrite wrap_u_id by done. split; [done|].
    split; try done; rewrite ?He; try set_solver.
    + by rewrite lookup_app_r, Nat.sub_diag by lia.
    + intros m Hm. destruct (decide (m < length (pm_colliders pm))%nat); [by rewrite lookup_app_l by lia|].
      rewrite !(proj2 (lookup_ge_None _ _)); [done|lia|rewrite length_app; simpl; lia].
    + intros slot Hs. apply lookup_lt_Some in Hs. lia.
    + rewrite len_app. unfold len. simpl. lia.
    + rewrite sum_len_app. unfold sum_len at 2. simpl. lia.
    + rewrite len_app. unfold len. simpl. lia.
  - rewrite vec_pop_snoc. destruct (Hem ci) as (n & -> & Hn); [set_solver|].
    rewrite (vec_get_Ok _ _ []) by (by rewrite ?Nat2Z.id; try lia). cbn [rbind]. rewrite Nat2Z.id. simpl.
    exists n, (<[n := ptrs]> (pm_colliders pm)), em. split; [done|].
    apply NoDup_app in Hnd as (Hnd & Hdj & _).
    pose proof (lookup_lt_Some _ _ _ Hn). split; try done.
    + by eapply slot_index.
    + by apply list_lookup_insert_eq.
    + intros m Hm. by apply list_lookup_insert_ne.
    + intros slot Hs. congruence.
    + intros Hin. apply (Hdj _ Hin). set_solver.
    + intros ci. rewrite He. set_solver.
    + rewrite He. unfold len. rewrite length_insert, length_app. simpl. lia.
    + rewrite (sum_len_insert _ _ []) by done. unfold len at 1. simpl. lia.
    + unfold len. rewrite length_insert. lia.
Qed.

(** A second pointer for [h]. *)
Lemma insert_second pm S C h e p n cs em :
  pm_ok pm S C → pm_map pm !! h = Some e → h ∉ C → ptr_ok p → e ≠ p →
  allocated pm [e; p] n cs em → len cs ≤ 2 ^ 32 →
  pm_ok {| pm_map := <[h := poc_collider (Z.of_nat n)]> (pm_map pm); pm_colliders := cs; pm_emptied := em |}
    ({[(h, p)]} ∪ S) ({[h]} ∪ C).
Proof.
  intros H Hh HC Hp Hne [A1 A2 A3 A4 A5 A6 A7 A8 A9 A10] Hlen.
  destruct (ok_ptr _ _ _ H h e Hh HC) as [Hok Hin].
  assert (Hcol : ∀ h', h' ∈ C → ∃ n' slot, pm_map pm !! h' = Some (poc_collider (Z.of_nat n')) ∧
    n' ≠ n ∧ in_u 32 (Z.of_nat n') ∧ cs !! n' = Some slot ∧ (2 ≤ length slot)%nat ∧ ∀ p, (h', p) ∈ S ↔ p ∈ slot).
  { intros h' HC'. destruct (ok_col _ _ _ H h' HC') as (n' & slot & Hm & Hs & Hl & Hi).
    assert (n' ≠ n) by (intros ->; apply A4 in Hs; subst; simpl in Hl; lia).
    exists n', slot. rewrite A3 by done. split_and!; try done; by eapply slot_index. }
  split; simpl; try done.
  - intros h' Hh' p'. apply lookup_insert_None in Hh' as [Hn Hne'].
    pose proof (ok_none _ _ _ H h' Hn p'). set_solver.
  - intros h' poc Hh' HC'. rewrite lookup_insert_ne in Hh' by set_solver.
    destruct (ok_ptr _ _ _ H h' poc Hh' ltac:(set_solver)) as [Hok' Hin'].
    split; [done|]. intros p'. rewrite <-Hin'. set_solver.
  - intros h' [->%elem_of_singleton|HC']%elem_of_union.
    + exists n, [e; p]. rewrite lookup_insert_eq. split_and!; [done..|]. intros p'. specialize (Hin p'). set_solver.
    + destruct (Hcol h' HC') as (n' & slot & Hm & _ & _ & Hs & Hl & Hi). exists n', slot.
      rewrite lookup_insert_ne by set_solver. split_and!; try done. intros p'. rewrite <-Hi. set_solver.
  - assert (Hx : ∀ h', h' ∈ C → pm_map pm !! h' ≠ Some (poc_collider (Z.of_nat n))).
    { intros h' HC' Heq. destruct (Hcol h' HC') as (n' & slot & Hm & Hn' & Hr & _).
      rewrite Hm in Heq. injection Heq as Heq. apply collider_inj in Heq; [lia|done..]. }
    intros h1 h2 [->%elem_of_singleton|HC1]%elem_of_union [->%elem_of_singleton|HC2]%elem_of_union; [done|..].
    + rewrite lookup_insert_eq, lookup_insert_ne by set_solver. intros Heq. by destruct (Hx h2 HC2).
    + rewrite lookup_insert_eq, lookup_insert_ne by set_solver. intros Heq. by destruct (Hx h1 HC1).
    + rewrite !lookup_insert_ne by set_solver. by apply (ok_inj _ _ _ H).
  - intros m slot Hs. destruct (decide (m = n)) as [->|Hmn].
    + rewrite A2 in Hs. injection Hs as <-. split; [|by repeat apply Forall_cons_2].
      apply NoDup_cons. split; [set_solver|apply NoDup_singleton].
    + rewrite A3 in Hs by done. by apply (ok_slot _ _ _ H m).
  - intros ci Hci. destruct (ok_emptied _ _ _ H ci (A6 ci Hci)) as (m & -> & Hm). exists m. split; [done|].
    rewrite A3; [done|]. by intros ->.
  - rewrite size_union, size_singleton by set_solver. pose proof (ok_used _ _ _ H). lia.
  - rewrite map_size_insert_Some by eauto. rewrite size_insert_pair by (rewrite Hin; congruence).
    rewrite size_union, size_singleton by set_solver. pose proof (ok_len _ _ _ H).
    change (len [e; p]) with 2 in A9. lia.
Qed.

(** Another list of pointers for a hash that has a slot. *)
Lemma change_slot pm S C h n slot slot' S' :
  pm_ok pm S C → h ∈ C → pm_map pm !! h = Some (poc_collider (Z.of_nat n)) →
  pm_colliders pm !! n = Some slot → NoDup slot' → Forall ptr_ok slot' → (2 ≤ length slot')%nat →
  (∀ h' p, (h', p) ∈ S' ↔ if decide (h' = h) then p ∈ slot' else (h', p) ∈ S) →
  Z.of_nat (size S') = Z.of_nat (size S) - len slot + len slot' →
  pm_ok {| pm_map := pm_map pm; pm_colliders := <[n := slot']> (pm_colliders pm);
           pm_emptied := pm_emptied pm |} S' C.
Proof.
  intros H HC Hm Hs Hnd Hf Hl HS Hsz. pose proof (slot_index _ _ _ _ _ H Hs) as Hn.
  assert (Hother : ∀ n' s, pm_colliders pm !! n' = Some s → n' ≠ n →
    <[n := slot']> (pm_colliders pm) !! n' = Some s).
  { intros n' s Hs' Hne. by rewrite list_lookup_insert_ne. }
  assert (Hle : (2 ≤ length slot)%nat).
  { destruct (ok_col _ _ _ H h HC) as (n' & s & Hm' & Hs' & Hl' & _). rewrite Hm in Hm'.
    injection Hm' as Heq%collider_inj; [|done|by eapply slot_index]. apply Nat2Z.inj in Heq as <-. congruence. }
  pose proof H as [O1 O2 O3 O4 O5 O6 O7 O8 O9 O10]. split; simpl; try done.
  - intros h' Hh' p. rewrite HS. rewrite decide_False by congruence. by apply O1.
  - intros h' poc Hh' HC'. destruct (O2 h' poc Hh' HC') as [Hok Hin]. split; [done|].
    intros p. rewrite HS. by rewrite decide_False by congruence.
  - intros h' HC'. destruct (O3 h' HC') as (n' & s & Hm' & Hs' & Hl' & Hin).
    destruct (decide (h' = h)) as [->|Hne].
    + exists n, slot'. rewrite list_lookup_insert_eq by by eapply lookup_lt_Some. split_and!; try done.
      intros p. rewrite HS. by rewrite decide_True.
    + exists n', s. assert (n' ≠ n) by (intros ->; apply Hne, O4; congruence).
      split_and!; try done; [by apply Hother|]. intros p. rewrite HS. by rewrite decide_False.
  - intros n' s Hs'. apply list_lookup_insert_Some in Hs' as [(-> & <- & _)|[_ Hs']]; [done|]. by apply (O5 n').
  - intros ci Hci. destruct (O6 ci Hci) as (m & -> & Hm'). exists m. split; [done|]. apply Hother; [done|].
    intros ->. rewrite Hs in Hm'. injection Hm' as ->. simpl in Hle. lia.
  - unfold len in *. rewrite length_insert. lia.
  - unfold len in *. rewrite length_insert. lia.
  - rewrite (sum_len_insert _ _ slot) by done. lia.
Qed.

Lemma pm_insert_ok {E} pm S C h p :
  pm_ok pm S C → ptr_ok p → len (pm_colliders pm) < 2 ^ 32 →
  ∃ pm' C', pm_insert (E:=E) h p pm = Ok (bool_decide ((h, p) ∈ S), pm') ∧
    pm_ok pm' ({[(h, p)]} ∪ S) C' ∧ len (pm_colliders pm') ≤ len (pm_colliders pm) + 1.
Proof.
  intros H Hp Hlt. assert (Hsame : (h, p) ∈ S → {[(h, p)]} ∪ S = S) by set_solver.
  unfold pm_insert. destruct (pm_map pm !! h) as [poc|] eqn:Hh.
  - destruct (decide (h ∈ C)) as [HC|HC].
    + destruct (ok_col _ _ _ H h HC) as (n & slot & Hm & Hs & Hl & Hin).
      pose proof (slot_index _ _ _ _ _ H Hs) as Hn. destruct (ok_slot _ _ _ H n slot Hs) as [Hnd Hf].
      rewrite Hm in Hh. injection Hh as <-. rewrite unpack_collider by done.
      rewrite (vec_get_Ok _ _ slot) by (by rewrite ?Nat2Z.id; try lia). cbn [rbind]. rewrite ensure_ptr_id by done.
      rewrite (bool_decide_ext _ _ (Hin p)). case_bool_decide as Hps.
      { exists pm, C. rewrite Hsame by by apply Hin. split_and!; [done|done|lia]. }
      rewrite Nat2Z.id. eexists _, C. split; [done|]. simpl. split; [|unfold len; rewrite length_insert; lia].
      apply (change_slot pm S C h n slot); try done.
      * apply NoDup_app. split_and!; [done| |apply NoDup_singleton]. set_solver.
      * by apply Forall_app_2; [|apply Forall_singleton].
      * rewrite length_app. lia.
      * intros h' p'. destruct (decide (h' = h)) as [->|]; set_solver.
      * rewrite size_insert_pair by by rewrite Hin. rewrite len_app. unfold len at 3. simpl. lia.
    + destruct (ok_ptr _ _ _ H h poc Hh HC) as [Hok Hin]. rewrite unpack_ptr by done.
      rewrite (bool_decide_ext _ _ (Hin p)). destruct (Z.eqb_spec poc p) as [->|Hne].
      { rewrite bool_decide_true by done. exists pm, C. rewrite Hsame by by apply Hin. split_and!; [done|done|lia]. }
      rewrite bool_decide_false by congruence. rewrite !ensure_ptr_id by done.
      destruct (alloc_collider_ok (E:=E) pm S C [poc; p] H Hlt) as (n & cs & em & -> & Hal). cbn [rbind].
      pose proof (al_len _ _ _ _ _ Hal). eexists _, _. split; [done|]. split; [|done].
      apply (insert_second pm S C h poc p n cs em); try done. lia.
  - rewrite bool_decide_false by by apply (ok_none _ _ _ H). eexists _, C. split; [done|]. simpl.
    unfold poc_ptr. rewrite ensure_ptr_id by done. split; [|lia]. by apply insert_first.
Qed.

(** ** Removal *)

Lemma size_remove_pair (S : gset (Z * Z)) x :
  x ∈ S → Z.of_nat (size (S ∖ {[x]})) = Z.of_nat (size S) - 1.
Proof.
  intros. rewrite size_difference by set_solver. rewrite size_singleton.
  assert (size {[x]} ≤ size S)%nat by (apply subseteq_size; set_solver). rewrite size_singleton in *. lia.
Qed.

Lemma remove_last pm S C h p :
  pm_ok pm S C → pm_map pm !! h = Some p → h ∉ C →
  pm_ok {| pm_map := delete h (pm_map pm); pm_colliders := pm_colliders pm;
           pm_emptied := pm_emptied pm |} (S ∖ {[(h, p)]}) C.
Proof.
  intros H Hh HhC. destruct (ok_ptr _ _ _ H h p Hh HhC) as [_ Hp].
  destruct H as [O1 O2 O3 O4 O5 O6 O7 O8 O9 O10]. split; simpl; try done.
  - intros h' Hh' p'. apply lookup_delete_None in Hh' as [<-|Hh'].
    + specialize (Hp p'). set_solver.
    + pose proof (O1 h' Hh' p'). set_solver.
  - intros h' poc Hh' HC. apply lookup_delete_Some in Hh' as [Hne Hh'].
    destruct (O2 h' poc Hh' HC) as [Hok Hin]. split; [done|]. intros p'. rewrite <-Hin. set_solver.
  - intros h' HC. destruct (O3 h' HC) as (n & slot & Hm & Hs & Hl & Hin).
    exists n, slot. rewrite lookup_delete_ne by (intros ->; done). split_and!; try done.
    intros p'. rewrite <-Hin. set_solver.
  - intros h1 h2 HC1 HC2. rewrite !lookup_delete_ne by (intros ->; done). by apply O4.
  - rewrite map_size_delete_Some by eauto. rewrite size_remove_pair by by apply Hp.
    assert (size (pm_map pm) ≠ 0)%nat; [|lia]. intros Hz%map_size_empty_iff. by rewrite Hz in Hh.
Qed.

(** One pointer is left for [h]: its slot is emptied. *)
Lemma remove_second pm S C h n slot p q :
  pm_ok pm S C → h ∈ C → pm_map pm !! h = Some (poc_collider (Z.of_nat n)) →
  pm_colliders pm !! n = Some slot → slot ≡ₚ [p; q] →
  pm_ok {| pm_map := <[h := q]> (pm_map pm); pm_colliders := <[n := []]> (pm_colliders pm);
           pm_emptied := pm_emptied pm ++ [Z.of_nat n] |} (S ∖ {[(h, p)]}) (C ∖ {[h]}).
Proof.
  intros H HC Hm Hs Hpq. pose proof (slot_index _ _ _ _ _ H Hs) as Hn.
  destruct (ok_slot _ _ _ H n slot Hs) as [Hnd Hf]. rewrite Hpq in Hnd, Hf.
  apply NoDup_cons in Hnd as [Hne _]. apply Forall_cons in Hf as [_ [Hq _]%Forall_cons].
  assert (Hin : ∀ p', (h, p') ∈ S ↔ p' = p ∨ p' = q).
  { destruct (ok_col _ _ _ H h HC) as (n' & s & Hm' & Hs' & _ & Hin). rewrite Hm in Hm'.
    injection Hm' as Heq%collider_inj; [|done|by eapply slot_index]. apply Nat2Z.inj in Heq as <-.
    rewrite Hs in Hs'. injection Hs' as <-. intros p'. rewrite Hin, Hpq. set_solver. }
  assert (Hother : ∀ n' s, pm_colliders pm !! n' = Some s → n' ≠ n → <[n := []]> (pm_colliders pm) !! n' = Some s).
  { intros n' s Hs' Hne'. by rewrite list_lookup_insert_ne. }
  assert (Hx : <[n := []]> (pm_colliders pm) !! n = Some []).
  { by apply list_lookup_insert_eq; eapply lookup_lt_Some. }
  assert (Hsz : len slot = 2) by (unfold len; by rewrite Hpq).
  assert (HszC : Z.of_nat (size (C ∖ {[h]})) = Z.of_nat (size C) - 1).
  { rewrite size_difference, size_singleton by set_solver.
    assert (size ({[h]} : gset Z) ≤ size C)%nat by (apply subseteq_size; set_solver). rewrite size_singleton in *. lia. }
  destruct H as [O1 O2 O3 O4 O5 O6 O7 O8 O9 O10]. split; simpl; try done.
  - intros h' Hh' p'. apply lookup_insert_None in Hh' as [Hh' _]. pose proof (O1 h' Hh' p'). set_solver.
  - intros h' poc Hh' HC'. apply lookup_insert_Some in Hh' as [[<- <-]|[Hne' Hh']].
    + split; [done|]. intros p'. rewrite elem_of_difference, Hin, elem_of_singleton. split; [naive_solver|].
      intros ->. split; [by right|]. intros [= ->]. set_solver.
    + destruct (O2 h' poc Hh' ltac:(set_solver)) as [Hok Hi]. split; [done|]. intros p'. rewrite <-Hi. set_solver.
  - intros h' [HC' Hh']%elem_of_difference. rewrite elem_of_singleton in Hh'.
    destruct (O3 h' HC') as (n' & s & Hm' & Hs' & Hl' & Hi).
    exists n', s. rewrite lookup_insert_ne by congruence.
    split_and!; try done; [|intros p'; rewrite <-Hi; set_solver].
    apply Hother; [done|]. intros ->. apply Hh', O4; congruence.
  - intros h1 h2 HC1 HC2. rewrite !lookup_insert_ne by set_solver. apply O4; set_solver.
  - intros n' s Hs'. apply list_lookup_insert_Some in Hs' as [(-> & <- & _)|[_ Hs']]; [|by apply (O5 n')].
    split; constructor.
  - intros ci [Hci| ->%list_elem_of_singleton]%elem_of_app; [|by eauto].
    destruct (O6 ci Hci) as (m & -> & Hm'). exists m. split; [done|]. destruct (decide (m = n)) as [->|]; auto.
  - apply NoDup_app. split_and!; [done| |apply NoDup_singleton]. intros ci Hci ->%list_elem_of_singleton.
    destruct (O6 _ Hci) as (m & Heq%Nat2Z.inj & Hm'). subst m. rewrite Hs in Hm'. injection Hm' as ->. done.
  - unfold len in *. by rewrite length_insert.
  - rewrite len_app, HszC. change (len [Z.of_nat n]) with 1. unfold len in *. rewrite length_insert. lia.
  - rewrite (sum_len_insert _ _ slot), map_size_insert_Some by eauto. rewrite size_remove_pair by (apply Hin; by left).
    change (len (@nil Z)) with 0. lia.
Qed.

Lemma list_find_eq (p : Z) l :
  list_find (λ o, o = p) l = None ∧ p ∉ l ∨ ∃ i, list_find (λ o, o = p) l = Some (i, p) ∧ l !! i = Some p.
Proof.
  destruct (list_find (λ o, o = p) l) as [[i x]|] eqn:Hl.
  - apply list_find_Some in Hl as (Hi & -> & _). right. eauto.
  - apply list_find_None in Hl. left. split; [done|]. intros Hin. rewrite Forall_forall in Hl. by apply (Hl p).
Qed.

Lemma pm_remove_ok {E} pm S C h p :
  pm_ok pm S C →
  ∃ pm' C', pm_remove (E:=E) h p pm = Ok (bool_decide ((h, p) ∈ S), pm') ∧
    pm_ok pm' (S ∖ {[(h, p)]}) C' ∧ len (pm_colliders pm') ≤ len (pm_colliders pm).
Proof.
  intros H. assert (Hsame : (h, p) ∉ S → S ∖ {[(h, p)]} = S) by set_solver.
  assert (Hno : (h, p) ∉ S → bool_decide ((h, p) ∈ S) = false ∧ pm_ok pm (S ∖ {[(h, p)]}) C).
  { intros Hn. rewrite bool_decide_false, Hsame; done. }
  unfold pm_remove. destruct (pm_map pm !! h) as [poc|] eqn:Hh.
  2: { destruct (Hno (ok_none _ _ _ H h Hh p)) as [-> Hok]. exists pm, C. split_and!; [done|done|lia]. }
  destruct (decide (h ∈ C)) as [HC|HC].
  - destruct (ok_col _ _ _ H h HC) as (n & slot & Hm & Hs & Hl & Hin).
    pose proof (slot_index _ _ _ _ _ H Hs) as Hn. destruct (ok_slot _ _ _ H n slot Hs) as [Hnd Hf].
    rewrite Hm in Hh. injection Hh as <-. rewrite unpack_collider by done.
    rewrite (vec_get_Ok _ _ slot) by (by rewrite ?Nat2Z.id; try lia). cbn [rbind]. rewrite Nat2Z.id.
    destruct (list_find_eq p slot) as [[-> Hps]|(i & -> & Hi)].
    { destruct Hno as [-> Hok]; [by rewrite Hin|]. exists pm, C. split_and!; [done|done|lia]. }
    rewrite bool_decide_true by (apply Hin; by eapply list_elem_of_lookup_2).
    pose proof (swap_remove_perm _ _ _ Hi) as Hsp. rewrite <-Hsp in Hnd, Hf, Hl.
    apply NoDup_cons in Hnd as [Hps Hnd]. apply Forall_cons in Hf as [Hp Hf]. simpl in Hl.
    destruct (swap_remove i slot) as [|x [|y rest]] eqn:Hsr; [simpl in Hl; lia|..].
    + eexists _, _. split; [done|]. simpl. split; [|unfold len; rewrite length_insert; lia].
      apply Forall_cons in Hf as [Hx _]. unfold poc_ptr. rewrite ensure_ptr_id by done.
      by apply (remove_second pm S C h n slot p x).
    + eexists _, C. split; [done|]. simpl. split; [|unfold len; rewrite length_insert; lia].
      apply (change_slot pm S C h n slot); try done; [simpl; lia|..].
      * intros h' p'. destruct (decide (h' = h)) as [->|]; [|set_solver].
        rewrite elem_of_difference, Hin, <-Hsp, elem_of_singleton, (elem_of_cons _ p'). naive_solver.
      * rewrite size_remove_pair by (apply Hin; by eapply list_elem_of_lookup_2).
        assert (len slot = len (p :: x :: y :: rest)) as -> by (unfold len; by rewrite Hsp).
        unfold len. simpl. lia.
  - destruct (ok_ptr _ _ _ H h poc Hh HC) as [Hok Hin]. rewrite unpack_ptr by done.
    destruct (Z.eqb_spec poc p) as [->|Hne].
    + rewrite bool_decide_true by by apply Hin. eexists _, C. split; [done|]. simpl. split; [|lia].
      by apply remove_last.
    + destruct Hno as [-> Hok']; [rewrite Hin; congruence|]. exists pm, C. split_and!; [done|done|lia].
Qed.

(** A map that is collected. *)
Lemma pm_extend_ok {E} l : ∀ pm S C,
  pm_ok pm S C → Forall (λ e, ptr_ok e.2) l → len (pm_colliders pm) + len l ≤ 2 ^ 32 →
  ∃ pm' C', pm_extend (E:=E) l pm = Ok pm' ∧ pm_ok pm' (list_to_set l ∪ S) C' ∧ len (pm_colliders pm') ≤ len (pm_colliders pm) + len l.
Proof.
  induction l as [|[h p] l IH]; intros pm S C Hok Hl Hlen.
  { exists pm, C. split_and!; [done|by rewrite list_to_set_nil, (left_id_L ∅ (∪))|unfold len; lia]. }
  apply Forall_cons in Hl as [Hp Hl]. unfold len in *. cbn [length] in Hlen.
  destruct (pm_insert_ok (E:=E) pm S C h p Hok Hp) as (pm1 & C1 & Hi & Hok1 & Hlen1); [unfold len; lia|]. unfold len in Hlen1.
  destruct (IH pm1 _ C1 Hok1 Hl) as (pm2 & C2 & He & Hok2 & Hlen2); [lia|]. exists pm2, C2. split_and!; [|..|cbn [length]; lia].
  - cbn [pm_extend]. by rewrite Hi.
  - rewrite list_to_set_cons. by replace ({[(h, p)]} ∪ list_to_set l ∪ S) with (list_to_set l ∪ ({[(h, p)]} ∪ S)) by set_solver.
Qed.

(** ** A pointer map is a set of pairs *)

Inductive PmOp :=
| PmInsert (hash ptr : Z)
| PmRemove (hash ptr : Z).

Definition pm_step {E} (op : PmOp) (pm : PointerMap) : result E (bool * PointerMap) :=
  match op with PmInsert h p => pm_insert h p pm | PmRemove h p => pm_remove h p pm end.

(** The same on a set: if the pair was in it, and the set afterwards. *)
Definition set_step (op : PmOp) (S : gset (Z * Z)) : bool * gset (Z * Z) :=
  match op with
  | PmInsert h p => (bool_decide ((h, p) ∈ S), {[(h, p)]} ∪ S)
  | PmRemove h p => (bool_decide ((h, p) ∈ S), S ∖ {[(h, p)]})
  end.

Fixpoint pm_run {E} (ops : list PmOp) (pm : PointerMap) : result E (list bool * PointerMap) :=
  match ops with
  | [] => Ok ([], pm)
  | op :: ops =>
      let* ' (b, pm) := pm_step op pm in
      let* ' (bs, pm) := pm_run ops pm in
      Ok (b :: bs, pm)
  end.

Fixpoint set_run (ops : list PmOp) (S : gset (Z * Z)) : list bool * gset (Z * Z) :=
  match ops with
  | [] => ([], S)
  | op :: ops => let '(b, S1) := set_step op S in let '(bs, S2) := set_run ops S1 in (b :: bs, S2)
  end.

Definition op_ok (op : PmOp) : Prop := match op with PmInsert _ p => ptr_ok p | PmRemove _ _ => True end.

Lemma pm_step_ok {E} op pm S C :
  pm_ok pm S C → op_ok op → len (pm_colliders pm) < 2 ^ 32 →
  ∃ pm' C', pm_step (E:=E) op pm = Ok ((set_step op S).1, pm') ∧ pm_ok pm' (set_step op S).2 C' ∧
    len (pm_colliders pm') ≤ len (pm_colliders pm) + 1.
Proof.
  intros H Hop Hlt. destruct op as [h p|h p]; [by apply (pm_insert_ok pm S C)|].
  destruct (pm_remove_ok (E:=E) pm S C h p H) as (pm' & C' & Hr & Hok & Hl).
  exists pm', C'. split_and!; [done|done|lia].
Qed.

Lemma pm_run_ok {E} ops : ∀ pm S C,
  pm_ok pm S C → Forall op_ok ops → len (pm_colliders pm) + len ops ≤ 2 ^ 32 →
  ∃ pm' C', pm_run (E:=E) ops pm = Ok ((set_run ops S).1, pm') ∧ pm_ok pm' (set_run ops S).2 C'.
Proof.
  induction ops as [|op ops IH]; intros pm S C H Hops Hlt; [by exists pm, C|].
  apply Forall_cons in Hops as [Hop Hops]. change (op :: ops) with ([op] ++ ops) in Hlt. rewrite len_app in Hlt.
  change (len [op]) with 1 in Hlt. pose proof (len_nonneg ops).
  destruct (pm_step_ok (E:=E) op pm S C H Hop ltac:(lia)) as (pm1 & C1 & Hs & H1 & Hl1).
  simpl. rewrite Hs. cbn [rbind]. destruct (set_step op S) as [b S1]. simpl in *.
  destruct (IH pm1 S1 C1 H1 Hops ltac:(lia)) as (pm2 & C2 & Hr & H2). rewrite Hr. cbn [rbind].
  destruct (set_run ops S1) as [bs S2]. by exists pm2, C2.
Qed.

(** C30. A pointer map is a finite set of pairs of a hash and a row pointer.
    Whatever is inserted and removed, in any order and with any collisions of
    hashes, no operation panics or reaches the unreachable branch; each says
    if the pair was there before; the pointers of a hash are those of its
    pairs, without duplicates; and the length is the number of pairs.  The
    number of operations is bounded because slot indices have 32 bits. *)
Theorem pointer_map_refines_set ops :
  Forall op_ok ops → len ops ≤ 2 ^ 32 →
  ∃ pm, pm_run (E:=unit) ops pm_default = Ok ((set_run ops ∅).1, pm) ∧
    (∀ h, ∃ l, pointers_for (E:=unit) pm h = Ok l ∧ NoDup l ∧ ∀ p, p ∈ l ↔ (h, p) ∈ (set_run ops ∅).2) ∧
    pm_len (E:=unit) pm = Ok (Z.of_nat (size (set_run ops ∅).2)) ∧
    pm_is_empty pm = bool_decide ((set_run ops ∅).2 = ∅).
Proof.
  intros Hops Hlt. destruct (pm_run_ok (E:=unit) ops pm_default ∅ ∅ pm_default_ok Hops Hlt)
    as (pm & C & Hr & H). exists pm. split_and!; [done|..].
  - intros h. by eapply pointers_for_ok.
  - by eapply pm_len_ok.
  - by eapply pm_is_empty_ok.
Qed.

Module Examples.
(** Three pointers collide; one of them is removed, then another. *)
Definition ops : list PmOp :=
  [PmInsert 7 2; PmInsert 7 4; PmInsert 9 2; PmInsert 7 6; PmInsert 7 4; PmRemove 7 2; PmRemove 7 6].

Lemma pointer_map_refines_set_witness :
  ∃ pm, pm_run (E:=unit) ops pm_default = Ok ([false; false; false; false; true; true; true], pm) ∧
    pm_len (E:=unit) pm = Ok 2 ∧ pm_is_empty pm = false.
Proof.
  destruct (pointer_map_refines_set ops) as (pm & Hr & _ & Hl & He).
  - repeat apply Forall_cons_2; try apply Forall_nil_2; try exact I; (split; [unfold in_u; lia|reflexivity]).
  - vm_compute. discriminate.
  - exists pm. split; [exact Hr|]. split; [exact Hl|exact He].
Defined.
End Examples.
