(* ===== verification/Layout.v ===== *)
(** * Layouts of rows (crates/table/src/layout.rs)

    The types of rows annotated with sizes, alignments and offsets, how they
    are computed from SATS types, and what makes a layout a good one: fields
    are aligned, in order, disjoint and inside of their parent.  The theorems
    show that the layout of every type that fits in 16 bits is good, and what
    happens to one that does not fit. *)

From Stdlib Require Import ZArith Lia Sorting.Sorted.
From stdpp Require Import sets.
From S2P Require Import Prelude Mem Indexes Sats Bsatn VarLen.
Local Open Scope Z_scope.
Local Open Scope result_scope.

(** ** Alignment and sizes *)

Definition align_to (base required_alignment : Z) : Z :=
  if required_alignment =? 0 then base
  else
    let misalignment := base mod required_alignment in
    if misalignment =? 0 then base
    else
      let padding := required_alignment - misalignment in
      base + padding.

Record Layout := { ly_size : Z; ly_align : Z; ly_fixed : bool }.

(** [PrimitiveType]: the integers and the floats, as in SATS types. *)
Inductive PrimitiveType :=
| PBool
| PInt (k : IntTy)
| PFloat (k : FloatTy).

Inductive VarLenType :=
| VlString
| VlArray (ty : AlgebraicType).

(** [SumTypeVariantLayout] and [ProductTypeElementLayout]. *)
Record SumTypeVariantLayout_ (T : Type) := { vl_ty : T; vl_name : option string }.
Arguments vl_ty {T}.
Arguments vl_name {T}.
Record ProductTypeElementLayout_ (T : Type) := { pel_offset : Z; pel_ty : T; pel_name : option string }.
Arguments pel_offset {T}.
Arguments pel_ty {T}.
Arguments pel_name {T}.

(** [AlgebraicTypeLayout], with the fields of [SumTypeLayout] and
    [ProductTypeLayout]. *)
Inductive AlgebraicTypeLayout : Type :=
| LSum (layout : Layout) (variants : list (SumTypeVariantLayout_ AlgebraicTypeLayout)) (payload_offset : Z)
| LProduct (layout : Layout) (elements : list (ProductTypeElementLayout_ AlgebraicTypeLayout))
| LPrimitive (p : PrimitiveType)
| LVarLen (v : VarLenType).

Abbreviation SumTypeVariantLayout := (SumTypeVariantLayout_ AlgebraicTypeLayout).
Abbreviation ProductTypeElementLayout := (ProductTypeElementLayout_ AlgebraicTypeLayout).

Record RowTypeLayout := { row_layout : Layout; row_elements : list ProductTypeElementLayout }.

Definition prim_size (p : PrimitiveType) : Z :=
  match p with
  | PBool => 1
  | PInt k => Z.of_nat (int_size k)
  | PFloat k => Z.of_nat (float_size k)
  end.

(** [HasLayout for PrimitiveType]: the alignment is the size. *)
Definition prim_layout (p : PrimitiveType) : Layout :=
  {| ly_size := prim_size p; ly_align := prim_size p; ly_fixed := true |}.

Definition VAR_LEN_REF_LAYOUT : Layout := {| ly_size := 4; ly_align := 2; ly_fixed := false |}.

(** [HasLayout::layout]. *)
Definition layout (ty : AlgebraicTypeLayout) : Layout :=
  match ty with
  | LSum l _ _ => l
  | LProduct l _ => l
  | LPrimitive p => prim_layout p
  | LVarLen _ => VAR_LEN_REF_LAYOUT
  end.

Definition lt_size (ty : AlgebraicTypeLayout) : Z := ly_size (layout ty).
Definition lt_align (ty : AlgebraicTypeLayout) : Z := ly_align (layout ty).

Definition MIN_ROW_SIZE : Z := 2.
Definition MIN_ROW_ALIGN : Z := 2.

Definition row_size_for_bytes (required_bytes : Z) : Z :=
  if MIN_ROW_SIZE <? required_bytes then wrap_u 16 (align_to required_bytes MIN_ROW_ALIGN)
  else MIN_ROW_SIZE.

(** [RowTypeLayout::size]. *)
Definition row_size (ty : RowTypeLayout) : Z := ly_size (row_layout ty).

(** [RowTypeLayout::product]. *)
Definition row_product (ty : RowTypeLayout) : AlgebraicTypeLayout :=
  LProduct (row_layout ty) (row_elements ty).

(** ** From SATS types *)

(** The closure of [product_type_layout]: the offset after the elements so
    far, their largest alignment, and whether they all are fixed. *)
Fixpoint layout_elements {E} (f : AlgebraicType → result E AlgebraicTypeLayout)
    (elements : list ProductTypeElement) (current_offset max_child_align : Z) (fixed_ : bool) :
    result E (list ProductTypeElementLayout * Z * Z * bool) :=
  match elements with
  | [] => Ok ([], current_offset, max_child_align, fixed_)
  | elem :: elements =>
      let* layout_type := f (el_type elem) in
      let this_offset := align_to current_offset (lt_align layout_type) in
      let* ' (els, current_offset, max_child_align, fixed_) :=
        layout_elements f elements (this_offset + lt_size layout_type)
          (Z.max max_child_align (lt_align layout_type)) (fixed_ && ly_fixed (layout layout_type)) in
      Ok ({| pel_offset := wrap_u 16 this_offset; pel_ty := layout_type; pel_name := el_name elem |} :: els,
          current_offset, max_child_align, fixed_)
  end.

Definition product_type_layout {E} (f : AlgebraicType → result E AlgebraicTypeLayout)
    (elements : list ProductTypeElement) : result E (list ProductTypeElementLayout * Layout) :=
  let* ' (els, current_offset, max_child_align, fixed_) := layout_elements f elements 0 1 true in
  Ok (els, {| ly_align := wrap_u 16 max_child_align;
              ly_size := wrap_u 16 (align_to current_offset max_child_align);
              ly_fixed := fixed_ |}).

(** The closure of the conversion of a [SumType]. *)
Fixpoint layout_variants {E} (f : AlgebraicType → result E AlgebraicTypeLayout)
    (variants : list SumTypeVariant) (max_child_size max_child_align : Z) (fixed_ : bool) :
    result E (list SumTypeVariantLayout * Z * Z * bool) :=
  match variants with
  | [] => Ok ([], max_child_size, max_child_align, fixed_)
  | variant :: variants =>
      let* layout_type := f (var_type variant) in
      let* ' (vars, max_child_size, max_child_align, fixed_) :=
        layout_variants f variants (Z.max max_child_size (lt_size layout_type))
          (Z.max max_child_align (lt_align layout_type)) (fixed_ && ly_fixed (layout layout_type)) in
      Ok ({| vl_ty := layout_type; vl_name := var_name variant |} :: vars,
          max_child_size, max_child_align, fixed_)
  end.

Definition sum_type_layout {E} (f : AlgebraicType → result E AlgebraicTypeLayout)
    (variants : list SumTypeVariant) : result E AlgebraicTypeLayout :=
  let* ' (vars, max_child_size, max_child_align, fixed_) := layout_variants f variants 0 0 true in
  let align_ := Z.max (wrap_u 16 max_child_align) 1 in
  let payload_size := align_to max_child_size max_child_align in
  let* size_ := add_u 16 align_ (wrap_u 16 payload_size) in
  Ok (LSum {| ly_align := align_; ly_size := size_; ly_fixed := fixed_ |} vars align_).

(** [From<AlgebraicType> for AlgebraicTypeLayout]; a reference panics. *)
Fixpoint layout_of {E} (ty : AlgebraicType) : result E AlgebraicTypeLayout :=
  match ty with
  | TSum vs => sum_type_layout layout_of vs
  | TProduct es => let* ' (els, l) := product_type_layout layout_of es in Ok (LProduct l els)
  | TString => Ok (LVarLen VlString)
  | TArray _ => Ok (LVarLen (VlArray ty))
  | TBool => Ok (LPrimitive PBool)
  | TInt k => Ok (LPrimitive (PInt k))
  | TFloat k => Ok (LPrimitive (PFloat k))
  | TRef _ => Panic
  end.

(** [From<ProductType> for RowTypeLayout]. *)
Definition row_type_layout {E} (elements : list ProductTypeElement) : result E RowTypeLayout :=
  let* ' (els, l) := product_type_layout layout_of elements in
  Ok {| row_layout := {| ly_size := row_size_for_bytes (ly_size l); ly_align := ly_align l; ly_fixed := ly_fixed l |};
        row_elements := els |}.

(** ** Back to SATS types *)

Definition prim_type (p : PrimitiveType) : AlgebraicType :=
  match p with PBool => TBool | PInt k => TInt k | PFloat k => TFloat k end.

Definition var_len_type (v : VarLenType) : AlgebraicType :=
  match v with VlString => TString | VlArray ty => ty end.

Fixpoint algebraic_type (ty : AlgebraicTypeLayout) : AlgebraicType :=
  match ty with
  | LPrimitive p => prim_type p
  | LVarLen v => var_len_type v
  | LProduct _ els =>
      TProduct (map (λ e, {| el_name := pel_name e; el_type := algebraic_type (pel_ty e) |}) els)
  | LSum _ vars _ =>
      TSum (map (λ v, {| var_name := vl_name v; var_type := algebraic_type (vl_ty v) |}) vars)
  end.

(** [ProductTypeLayoutView::product_type]. *)
Definition product_type (els : list ProductTypeElementLayout) : list ProductTypeElement :=
  map (λ e, {| el_name := pel_name e; el_type := algebraic_type (pel_ty e) |}) els.

(** [SumTypeVariantLayout::is_unit]. *)
Definition is_unit (v : SumTypeVariantLayout) : bool :=
  match vl_ty v with LProduct _ [] => true | _ => false end.

(** ** Inspecting layouts and values *)

(** [SumTypeLayout::offset_of_variant_data] and [offset_of_tag]. *)
Definition offset_of_variant_data (payload_offset : Z) : Z := payload_offset.
Definition offset_of_tag : Z := 0.

(** [bsatn_len]; the [unwrap] panics on an error. *)
Definition bsatn_len {E} (val : AlgebraicValue) : result E Z :=
  match to_len val with Ok n => Ok n | _ => Panic end.

Definition add_for_bytestring (len_in_bytes count : Z) : Z :=
  count + (bytes_to_granules len_in_bytes).1.

(** [required_var_len_granules_for_row]. *)
Fixpoint traverse_av {E} (val : AlgebraicValue) (count : Z) : result E Z :=
  match val with
  | VProduct val => traverse_product val count
  | VSum (MkSumValue _ value) => traverse_av value count
  | VArray _ => let* n := bsatn_len val in Ok (add_for_bytestring n count)
  | VString val => Ok (add_for_bytestring (len val) count)
  | _ => Ok count
  end
with traverse_product {E} (val : ProductValue) (count : Z) : result E Z :=
  match val with
  | MkProductValue elements =>
      (fix go elements count :=
         match elements with
         | [] => Ok count
         | elt :: elements => let* count := traverse_av elt count in go elements count
         end) elements count
  end.

Definition required_var_len_granules_for_row {E} (val : ProductValue) : result E Z :=
  traverse_product val 0.

(** ** Induction over layouts *)

Section layout_rect.
Variable P : AlgebraicTypeLayout → Prop.
Hypothesis P_sum : ∀ l vs po, Forall (λ v, P (vl_ty v)) vs → P (LSum l vs po).
Hypothesis P_prod : ∀ l es, Forall (λ e, P (pel_ty e)) es → P (LProduct l es).
Hypothesis P_prim : ∀ p, P (LPrimitive p).
Hypothesis P_vl : ∀ v, P (LVarLen v).

Fixpoint layout_nested_ind (t : AlgebraicTypeLayout) : P t :=
  match t with
  | LSum l vs po => P_sum l vs po
      ((fix go vs := match vs return Forall (λ v, P (vl_ty v)) vs with
        | [] => Forall_nil_2 _
        | v :: vs => Forall_cons_2 _ _ _ (layout_nested_ind (vl_ty v)) (go vs)
        end) vs)
  | LProduct l es => P_prod l es
      ((fix go es := match es return Forall (λ e, P (pel_ty e)) es with
        | [] => Forall_nil_2 _
        | e :: es => Forall_cons_2 _ _ _ (layout_nested_ind (pel_ty e)) (go es)
        end) es)
  | LPrimitive p => P_prim p
  | LVarLen v => P_vl v
  end.
End layout_rect.

(** ** Good layouts *)

(** The alignments there are: powers of two up to 32. *)
Definition is_align (a : Z) : Prop := a ∈ [1; 2; 4; 8; 16; 32].

(** The elements start at the first aligned offset after each other, from
    [cur] to [end_]. *)
Fixpoint chained (cur : Z) (es : list ProductTypeElementLayout) (end_ : Z) : Prop :=
  match es with
  | [] => end_ = cur
  | e :: es => pel_offset e = align_to cur (lt_align (pel_ty e)) ∧
      chained (pel_offset e + lt_size (pel_ty e)) es end_
  end.

Fixpoint good (ty : AlgebraicTypeLayout) : Prop :=
  match ty with
  | LSum l vs po =>
      is_align (ly_align l) ∧ po = ly_align l ∧ ly_size l mod ly_align l = 0 ∧
      po ≤ ly_size l < 65536 ∧ ly_fixed l = forallb (λ v, ly_fixed (layout (vl_ty v))) vs ∧
      all_list (λ v, good (vl_ty v) ∧ lt_align (vl_ty v) ≤ ly_align l ∧
                     po + lt_size (vl_ty v) ≤ ly_size l) vs
  | LProduct l es =>
      is_align (ly_align l) ∧ (∃ end_, chained 0 es end_ ∧ ly_size l = align_to end_ (ly_align l)) ∧
      ly_size l < 65536 ∧ ly_fixed l = forallb (λ e, ly_fixed (layout (pel_ty e))) es ∧
      all_list (λ e, good (pel_ty e) ∧ lt_align (pel_ty e) ≤ ly_align l) es
  | LPrimitive _ | LVarLen _ => True
  end.

(** The size and the alignment of a type, without bounds on them. *)
Fixpoint ty_align (ty : AlgebraicType) : Z :=
  match ty with
  | TSum vs => Z.max (foldr Z.max 0 (map (λ v, ty_align (var_type v)) vs)) 1
  | TProduct es => foldr Z.max 1 (map (λ e, ty_align (el_type e)) es)
  | TArray _ | TString => 2
  | TBool => 1
  | TInt k => Z.of_nat (int_size k)
  | TFloat k => Z.of_nat (float_size k)
  | TRef _ => 1
  end.

Fixpoint ty_size (ty : AlgebraicType) : Z :=
  match ty with
  | TSum vs =>
      ty_align ty + align_to (foldr Z.max 0 (map (λ v, ty_size (var_type v)) vs)) (ty_align ty)
  | TProduct es =>
      align_to (fold_left (λ cur e, align_to cur (ty_align (el_type e)) + ty_size (el_type e)) es 0)
        (ty_align ty)
  | TArray _ | TString => 4
  | TBool => 1
  | TInt k => Z.of_nat (int_size k)
  | TFloat k => Z.of_nat (float_size k)
  | TRef _ => 0
  end.

(** No references outside of arrays. *)
Fixpoint no_refs (ty : AlgebraicType) : bool :=
  match ty with
  | TRef _ => false
  | TSum vs => forallb (λ v, no_refs (var_type v)) vs
  | TProduct es => forallb (λ e, no_refs (el_type e)) es
  | _ => true
  end.

(** ** Facts on alignment *)

Lemma is_align_bounds a : is_align a → 1 ≤ a ≤ 32.
Proof. unfold is_align. rewrite !elem_of_cons, elem_of_nil. lia. Qed.

Lemma is_align_divide a b : is_align a → is_align b → a ≤ b → (a | b).
Proof.
  unfold is_align. rewrite !elem_of_cons, !elem_of_nil. intros Ha Hb Hle.
  apply Z.mod_divide; [lia|].
  repeat (destruct Ha as [->|Ha]; [repeat (destruct Hb as [->|Hb]; [try done; lia|]); done|]); done.
Qed.

Lemma align_to_spec base a :
  0 < a → base ≤ align_to base a < base + a ∧ (a | align_to base a).
Proof.
  intros Ha. unfold align_to. rewrite (proj2 (Z.eqb_neq a 0)) by lia.
  pose proof (Z.mod_pos_bound base a Ha). destruct (Z.eqb_spec (base mod a) 0) as [Hz|Hz].
  - split; [lia|]. by apply Z.mod_divide; [lia|].
  - split; [lia|]. exists (base / a + 1). pose proof (Z.div_mod base a). lia.
Qed.

Lemma align_to_id base a : (a | base) → align_to base a = base.
Proof.
  intros Hd. unfold align_to. destruct (Z.eqb_spec a 0) as [->|Ha]; [done|].
  by rewrite (proj2 (Z.mod_divide base a Ha) Hd).
Qed.

(** Aligning relative to an aligned base. *)
Lemma align_to_add base off a : 0 < a → (a | base) → align_to (base + off) a = base + align_to off a.
Proof.
  intros Ha [k ->]. unfold align_to. rewrite (proj2 (Z.eqb_neq a 0)) by lia.
  rewrite (Z.add_comm (k * a) off), Z_mod_plus_full.
  destruct (Z.eqb_spec (off mod a) 0); lia.
Qed.

Lemma is_align_max a b : is_align a → is_align b → is_align (Z.max a b).
Proof. intros. by destruct (Z.max_spec a b) as [[_ ->]|[_ ->]]. Qed.

Lemma foldr_max_pull a b l : foldr Z.max (Z.max a b) l = Z.max b (foldr Z.max a l).
Proof. induction l as [|x l IH]; simpl; lia. Qed.

Lemma foldr_max_ge a l : a ≤ foldr Z.max a l.
Proof. induction l as [|x l IH]; simpl; lia. Qed.

Lemma foldr_max_align a l : is_align a → Forall is_align l → is_align (foldr Z.max a l).
Proof. intros Ha. induction 1; simpl; [done|]. by apply is_align_max. Qed.

Lemma is_align_1 : is_align 1.
Proof. unfold is_align. set_solver. Qed.

Lemma prim_align p : is_align (prim_size p).
Proof. unfold is_align. destruct p as [|[]|[]]; simpl; set_solver. Qed.

Lemma sum_align_ok l : Forall is_align l → is_align (Z.max (foldr Z.max 0 l) 1).
Proof.
  intros H. replace (Z.max (foldr Z.max 0 l) 1) with (foldr Z.max 1 l).
  - by apply foldr_max_align; [apply is_align_1|].
  - rewrite Z.max_comm, <-(foldr_max_pull 0 1). done.
Qed.

Lemma ty_align_ok ty : is_align (ty_align ty).
Proof.
  induction ty as [r|vs IH|es IH|t _| | |k|k] using AlgebraicType_nested_ind; cbn [ty_align];
    try (unfold is_align; set_solver).
  - apply sum_align_ok, Forall_map. exact IH.
  - apply foldr_max_align; [apply is_align_1|]. apply Forall_map. exact IH.
  - apply (prim_align (PInt k)).
  - apply (prim_align (PFloat k)).
Qed.

Lemma ty_align_pos ty : 0 < ty_align ty.
Proof. pose proof (is_align_bounds _ (ty_align_ok ty)). lia. Qed.

(** One step of the offsets of a product. *)
Definition next_offset (cur : Z) (e : ProductTypeElement) : Z :=
  align_to cur (ty_align (el_type e)) + ty_size (el_type e).

Lemma fold_offsets_ge es : Forall (λ e, 0 ≤ ty_size (el_type e)) es → ∀ cur, cur ≤ fold_left next_offset es cur.
Proof.
  induction 1 as [|e es He _ IH]; intros cur; simpl; [lia|]. etrans; [|apply IH].
  unfold next_offset. pose proof (align_to_spec cur _ (ty_align_pos (el_type e))). lia.
Qed.

Lemma ty_size_nonneg ty : 0 ≤ ty_size ty.
Proof.
  induction ty as [r|vs IH|es IH|t _| | |k|k] using AlgebraicType_nested_ind; cbn [ty_size]; try lia.
  - pose proof (ty_align_pos (TSum vs)) as Ha.
    pose proof (foldr_max_ge 0 (map (λ v, ty_size (var_type v)) vs)) as Hm.
    pose proof (align_to_spec (foldr Z.max 0 (map (λ v, ty_size (var_type v)) vs)) _ Ha). lia.
  - pose proof (align_to_spec (fold_left next_offset es 0) _ (ty_align_pos (TProduct es))) as [Ha _].
    pose proof (fold_offsets_ge es IH 0). etrans; [|apply Ha]. done.
Qed.

Lemma fold_offsets_mono es cur : cur ≤ fold_left next_offset es cur.
Proof. apply fold_offsets_ge, Forall_forall. intros. apply ty_size_nonneg. Qed.

(** What the conversion of a type gives. *)
Definition laid_out {E} (ty : AlgebraicType) (r : result E AlgebraicTypeLayout) : Prop :=
  ∃ lt, r = Ok lt ∧ lt_size lt = ty_size ty ∧ lt_align lt = ty_align ty ∧ good lt ∧ algebraic_type lt = ty.

Definition lays_out {E} (f : AlgebraicType → result E AlgebraicTypeLayout) (ty : AlgebraicType) : Prop :=
  no_refs ty = true → ty_size ty < 65536 → laid_out ty (f ty).

Lemma layout_elements_ok {E} (f : AlgebraicType → result E AlgebraicTypeLayout) es :
  Forall (λ e, lays_out f (el_type e)) es → forallb (λ e, no_refs (el_type e)) es = true →
  ∀ cur mca fx, 0 ≤ cur → fold_left next_offset es cur < 65536 →
  let M := foldr Z.max mca (map (λ e, ty_align (el_type e)) es) in
  ∃ els, layout_elements f es cur mca fx =
      Ok (els, fold_left next_offset es cur, M, fx && forallb (λ e, ly_fixed (layout (pel_ty e))) els) ∧
    chained cur els (fold_left next_offset es cur) ∧ product_type els = es ∧
    all_list (λ e, good (pel_ty e) ∧ lt_align (pel_ty e) ≤ M) els.
Proof.
  induction 1 as [|e es He _ IH]; simpl; intros Hnr cur mca fx Hcur Hlt.
  { exists []. by rewrite andb_true_r. }
  apply andb_prop in Hnr as [Hn1 Hn2].
  pose proof (fold_offsets_mono es (next_offset cur e)) as Hmono.
  pose proof (ty_size_nonneg (el_type e)) as Hsz. pose proof (ty_align_pos (el_type e)) as Hap.
  pose proof (align_to_spec cur _ Hap) as [Hal _].
  destruct (He Hn1) as (lt & -> & S1 & S2 & S3 & S4); [unfold next_offset in *; lia|]. cbn [rbind].
  rewrite S1, S2. fold (next_offset cur e).
  destruct (IH Hn2 (next_offset cur e) (Z.max mca (ty_align (el_type e)))
    (fx && ly_fixed (layout lt))) as (els & -> & Hch & Hpt & Hall); [unfold next_offset; lia|done|].
  cbn [rbind]. rewrite foldr_max_pull in *.
  exists ({| pel_offset := align_to cur (ty_align (el_type e)); pel_ty := lt; pel_name := el_name e |} :: els).
  split; [|split; [|split]].
  - rewrite wrap_u_id by (unfold in_u, next_offset in *; lia). simpl. by rewrite andb_assoc.
  - simpl. rewrite S1, S2. done.
  - unfold product_type in *. simpl. rewrite Hpt, S4. by destruct e.
  - simpl. rewrite S2. split; [split; [done|lia]|done].
Qed.

Lemma product_layout_ok {E} (f : AlgebraicType → result E AlgebraicTypeLayout) es :
  Forall (λ e, lays_out f (el_type e)) es → forallb (λ e, no_refs (el_type e)) es = true →
  ty_size (TProduct es) < 65536 →
  ∃ els l, product_type_layout f es = Ok (els, l) ∧ product_type els = es ∧ good (LProduct l els) ∧
    ly_size l = ty_size (TProduct es) ∧ ly_align l = ty_align (TProduct es).
Proof.
  intros IH Hnr Hlt. pose proof (ty_align_ok (TProduct es)) as Ha. pose proof (ty_align_pos (TProduct es)) as Hap.
  change (ty_size (TProduct es)) with
    (align_to (fold_left next_offset es 0) (ty_align (TProduct es))) in *.
  pose proof (align_to_spec (fold_left next_offset es 0) _ Hap) as [Hal _].
  pose proof (fold_offsets_mono es 0) as Hpos. pose proof (is_align_bounds _ Ha) as Hb.
  destruct (layout_elements_ok f es IH Hnr 0 1 true) as (els & Hl & Hch & Hpt & Hall); [lia|lia|].
  unfold product_type_layout. rewrite Hl. cbn [rbind]. clear Hl.
  change (foldr Z.max 1 (map (λ e, ty_align (el_type e)) es)) with (ty_align (TProduct es)) in *.
  rewrite !wrap_u_id by (unfold in_u; lia). eexists els, _. split; [done|].
  split; [done|]. split; [|done]. simpl. split_and!; try done. eauto.
Qed.

Lemma layout_variants_ok {E} (f : AlgebraicType → result E AlgebraicTypeLayout) vs N :
  Forall (λ v, lays_out f (var_type v)) vs → forallb (λ v, no_refs (var_type v)) vs = true →
  ∀ mcs mca fx, foldr Z.max mcs (map (λ v, ty_size (var_type v)) vs) ≤ N < 65536 →
  let M := foldr Z.max mca (map (λ v, ty_align (var_type v)) vs) in
  ∃ vars, layout_variants f vs mcs mca fx =
      Ok (vars, foldr Z.max mcs (map (λ v, ty_size (var_type v)) vs), M,
          fx && forallb (λ v, ly_fixed (layout (vl_ty v))) vars) ∧
    map (λ v, {| var_name := vl_name v; var_type := algebraic_type (vl_ty v) |}) vars = vs ∧
    all_list (λ v, good (vl_ty v) ∧ lt_align (vl_ty v) ≤ M ∧ lt_size (vl_ty v) ≤ N) vars.
Proof.
  induction 1 as [|v vs Hv _ IH]; simpl; intros Hnr mcs mca fx Hlt.
  { exists []. by rewrite andb_true_r. }
  apply andb_prop in Hnr as [Hn1 Hn2].
  destruct (Hv Hn1) as (lt & -> & S1 & S2 & S3 & S4); [lia|]. cbn [rbind]. rewrite S1, S2.
  destruct (IH Hn2 (Z.max mcs (ty_size (var_type v))) (Z.max mca (ty_align (var_type v)))
    (fx && ly_fixed (layout lt))) as (vars & -> & Hvt & Hall); [rewrite foldr_max_pull; lia|].
  cbn [rbind]. rewrite !foldr_max_pull in *.
  exists ({| vl_ty := lt; vl_name := var_name v |} :: vars). split; [|split].
  - simpl. by rewrite andb_assoc.
  - simpl. rewrite Hvt, S4. by destruct v.
  - simpl. rewrite S1, S2. split; [split_and!; [done|lia|lia]|done].
Qed.

Lemma all_list_impl {A} (P Q : A → Prop) l : (∀ x, P x → Q x) → all_list P l → all_list Q l.
Proof. intros HPQ. induction l as [|x l IH]; simpl; naive_solver. Qed.

Lemma sum_layout_ok {E} (f : AlgebraicType → result E AlgebraicTypeLayout) vs :
  Forall (λ v, lays_out f (var_type v)) vs → forallb (λ v, no_refs (var_type v)) vs = true →
  ty_size (TSum vs) < 65536 → laid_out (TSum vs) (sum_type_layout f vs).
Proof.
  intros IH Hnr Hlt. pose proof (ty_align_ok (TSum vs)) as Ha. pose proof (ty_align_pos (TSum vs)) as Hap.
  pose proof (is_align_bounds _ Ha) as Hb. set (ms := foldr Z.max 0 (map (λ v, ty_size (var_type v)) vs)).
  set (ma := foldr Z.max 0 (map (λ v, ty_align (var_type v)) vs)).
  assert (Hma : ty_align (TSum vs) = Z.max ma 1) by done.
  assert (Hsz : ty_size (TSum vs) = ty_align (TSum vs) + align_to ms (ty_align (TSum vs))) by done.
  assert (Hms : 0 ≤ ms) by apply foldr_max_ge. assert (Hma0 : 0 ≤ ma) by apply foldr_max_ge.
  pose proof (align_to_spec ms _ Hap) as [Hal Hdv].
  assert (Hpay : align_to ms ma = align_to ms (ty_align (TSum vs))).
  { rewrite Hma. destruct (decide (ma = 0)) as [->|]; [|by rewrite Z.max_l by lia].
    trans ms; [done|]. symmetry. apply align_to_id, Z.divide_1_l. }
  destruct (layout_variants_ok f vs (align_to ms (ty_align (TSum vs))) IH Hnr 0 0 true)
    as (vars & Hl & Hvt & Hall); [fold ms; lia|].
  unfold sum_type_layout. rewrite Hl. cbn [rbind]. fold ms ma. fold ma in Hall. rewrite Hpay.
  rewrite !wrap_u_id by (unfold in_u; lia). rewrite <-Hma. rewrite add_u_Ok by lia. cbn [rbind].
  eexists. split; [done|]. split; [done|]. split; [done|]. split; [|cbn [algebraic_type]; by rewrite Hvt].
  cbn [good ly_align ly_size ly_fixed]. split_and!; try done; try lia.
  - apply Z.mod_divide; [lia|]. apply Z.divide_add_r; [apply Z.divide_refl|done].
  - eapply all_list_impl; [|exact Hall]. simpl. intros v (G1 & G2 & G3). split_and!; [done|lia|lia].
Qed.

Lemma layout_of_ok {E} ty : lays_out (E:=E) layout_of ty.
Proof.
  induction ty as [r|vs IH|es IH|t _| | |k|k] using AlgebraicType_nested_ind; intros Hnr Hlt;
    try done; try (by eexists).
  - by apply sum_layout_ok.
  - destruct (product_layout_ok (E:=E) layout_of es IH Hnr Hlt) as (els & l & Hp & Hpt & Hg & Hs & Ha).
    exists (LProduct l els). cbn [layout_of]. rewrite Hp. cbn [rbind]. split_and!; try done.
    cbn [algebraic_type]. f_equal. done.
Qed.

(** ** Rows *)

(** A row of which the elements are good, in order and inside of the row. *)
Record good_row (rt : RowTypeLayout) : Prop := {
  gr_min : MIN_ROW_SIZE ≤ row_size rt;
  gr_max : row_size rt < 65536;
  gr_even : row_size rt mod MIN_ROW_ALIGN = 0;
  gr_chained : ∃ end_, chained 0 (row_elements rt) end_ ∧ end_ ≤ row_size rt;
  gr_fixed_flag : ly_fixed (row_layout rt) = forallb (λ e, ly_fixed (layout (pel_ty e))) (row_elements rt);
  gr_elements : Forall (λ e, good (pel_ty e)) (row_elements rt);
  gr_align : is_align (ly_align (row_layout rt));
  gr_aligns : Forall (λ e, lt_align (pel_ty e) ≤ ly_align (row_layout rt)) (row_elements rt);
}.

Lemma row_size_for_bytes_ok n :
  0 ≤ n < 65535 → let m := row_size_for_bytes n in 2 ≤ m < 65536 ∧ n ≤ m ≤ Z.max 2 (n + 1) ∧ m mod 2 = 0.
Proof.
  intros Hn m. subst m. unfold row_size_for_bytes, MIN_ROW_SIZE, MIN_ROW_ALIGN.
  destruct (Z.ltb_spec 2 n); [|split_and!; try lia; done].
  pose proof (align_to_spec n 2 ltac:(lia)) as [H1 H2].
  assert (align_to n 2 < 65536) by lia. rewrite wrap_u_id by (unfold in_u; lia).
  split_and!; try lia. by apply Z.mod_divide in H2.
Qed.

Lemma lt_align_ok ty : good ty → is_align (lt_align ty).
Proof.
  destruct ty as [l vs po|l es|p|v]; unfold lt_align; simpl; try tauto.
  - intros _. apply prim_align.
  - intros _. unfold is_align. set_solver.
Qed.

Lemma chained_ge es end_ :
  Forall (λ e, 0 ≤ lt_size (pel_ty e) ∧ 0 < lt_align (pel_ty e)) es →
  ∀ cur, chained cur es end_ → cur ≤ end_.
Proof.
  induction 1 as [|e es [He Ha] _ IH]; simpl; intros cur; [lia|]. intros [Ho Hch].
  apply IH in Hch. pose proof (align_to_spec cur _ Ha). lia.
Qed.

Lemma all_list_elem {A} (P : A → Prop) l x : all_list P l → x ∈ l → P x.
Proof. intros H. apply all_list_Forall in H. by apply Forall_forall. Qed.

(** The size of a good layout is a multiple of its alignment. *)
Lemma lt_size_aligned ty : good ty → 0 ≤ lt_size ty ∧ (lt_align ty | lt_size ty).
Proof.
  induction ty as [l vs po IH|l es IH|p|v] using layout_nested_ind; intros Hg;
    pose proof (lt_align_ok _ Hg) as Ha; pose proof (is_align_bounds _ Ha) as Hb;
    unfold lt_size, lt_align in *; simpl in *.
  - destruct Hg as (_ & -> & Hm & Hs & _). split; [lia|]. by apply Z.mod_divide; [lia|].
  - destruct Hg as (_ & (end_ & Hch & ->) & _ & _ & Hall).
    pose proof (align_to_spec end_ _ (ltac:(lia) : 0 < ly_align l)) as [H1 H2]. split; [|done].
    assert (0 ≤ end_); [|lia]. eapply chained_ge; [|done]. apply Forall_forall. intros e He.
    destruct (all_list_elem _ _ _ Hall He) as [Hge _]. rewrite Forall_forall in IH.
    split; [by apply IH|]. pose proof (is_align_bounds _ (lt_align_ok _ Hge)). lia.
  - destruct p as [|[]|[]]; simpl; split; try lia; apply Z.divide_refl.
  - split; [lia|]. by exists 2.
Qed.

Lemma row_layout_ok {E} es :
  forallb (λ e, no_refs (el_type e)) es = true → ty_size (TProduct es) < 65535 →
  ∃ rt, row_type_layout (E:=E) es = Ok rt ∧ good_row rt ∧ product_type (row_elements rt) = es ∧
    ty_size (TProduct es) ≤ row_size rt ≤ Z.max 2 (ty_size (TProduct es) + 1).
Proof.
  intros Hnr Hlt. destruct (product_layout_ok (E:=E) layout_of es) as (els & l & Hp & Hpt & Hg & Hs & Ha);
    [apply Forall_forall; intros; apply layout_of_ok|done|lia|].
  unfold row_type_layout. rewrite Hp. cbn [rbind]. eexists. split; [done|].
  pose proof (ty_size_nonneg (TProduct es)). destruct (row_size_for_bytes_ok (ly_size l)) as (R1 & R2 & R3); [lia|].
  destruct Hg as (Hal & (end_ & Hch & Hend) & Hsz & Hfx & Hall). pose proof (is_align_bounds _ Hal).
  pose proof (align_to_spec end_ (ly_align l) ltac:(lia)).
  split; [|split; [done|unfold row_size; cbn [row_layout ly_size]; lia]].
  split; unfold row_size, MIN_ROW_SIZE; cbn [row_layout row_elements ly_size ly_fixed]; try done; try lia.
  - exists end_. split; [done|]. lia.
  - apply all_list_Forall. eapply all_list_impl; [|done]. by intros e [].
  - apply all_list_Forall. eapply all_list_impl; [|done]. by intros e [].
Qed.

(** An element before another, and an element in its place. *)
Definition before (e1 e2 : ProductTypeElementLayout) : Prop :=
  pel_offset e1 + lt_size (pel_ty e1) ≤ pel_offset e2.
Definition in_place (rs : Z) (e : ProductTypeElementLayout) : Prop :=
  0 ≤ pel_offset e ∧ (lt_align (pel_ty e) | pel_offset e) ∧ pel_offset e + lt_size (pel_ty e) ≤ rs.

Lemma chained_placed es end_ : Forall (λ e, good (pel_ty e)) es → ∀ cur,
  0 ≤ cur → chained cur es end_ →
  Forall (λ e, cur ≤ pel_offset e) es ∧ Forall (in_place end_) es ∧ StronglySorted before es ∧ cur ≤ end_.
Proof.
  induction 1 as [|e es Hg _ IH]; simpl; intros cur Hcur.
  { intros ->. split_and!; constructor || lia. }
  intros [Ho Hch]. pose proof (is_align_bounds _ (lt_align_ok _ Hg)) as Hb.
  pose proof (lt_size_aligned _ Hg) as [Hs _]. pose proof (align_to_spec cur _ (ltac:(lia) : 0 < lt_align (pel_ty e))) as [Hal Hd].
  destruct (IH (pel_offset e + lt_size (pel_ty e)) ltac:(lia) Hch) as (H1 & H2 & H3 & H4). split_and!.
  - constructor; [lia|]. eapply Forall_impl; [exact H1|]. simpl. intros. lia.
  - constructor; [|done]. unfold in_place. rewrite Ho in *. split_and!; [lia|done|lia].
  - constructor; [done|]. exact H1.
  - lia.
Qed.

(** C35. Rows are laid out well.  Every product type without references whose
    fixed part has less than 65535 bytes gets a layout: the row size is even,
    at least two and at most one byte more than needed, the fields are at
    offsets aligned for their types, one after another without overlaps and
    inside of the row, the same holds inside of every nested product and sum,
    and the layout determines the type it was made for. *)
Theorem row_layout_good es :
  forallb (λ e, no_refs (el_type e)) es = true → ty_size (TProduct es) < 65535 →
  ∃ rt, row_type_layout (E:=unit) es = Ok rt ∧
    2 ≤ row_size rt < 65536 ∧ row_size rt mod 2 = 0 ∧
    ty_size (TProduct es) ≤ row_size rt ≤ Z.max 2 (ty_size (TProduct es) + 1) ∧
    Forall (in_place (row_size rt)) (row_elements rt) ∧ StronglySorted before (row_elements rt) ∧
    Forall (λ e, good (pel_ty e)) (row_elements rt) ∧ product_type (row_elements rt) = es.
Proof.
  intros Hnr Hlt. destruct (row_layout_ok (E:=unit) es Hnr Hlt) as (rt & Hr & [G1 G2 G3 G4 G5 G6 _ _] & Hpt & Hs).
  destruct G4 as (end_ & Hch & Hend).
  destruct (chained_placed _ _ G6 0 ltac:(lia) Hch) as (_ & P1 & P2 & _).
  exists rt. split_and!; try done; try lia. eapply Forall_impl; [exact P1|].
  intros e (H1 & H2 & H3). split_and!; [done|done|lia].
Qed.

(** 2049 integers of 256 bits. *)
Definition wide_row : list ProductTypeElement := replicate 2049 {| el_name := None; el_type := TInt U256 |}.

Lemma wide_row_layout :
  rmap (λ rt, (row_size rt, pel_offset <$> row_elements rt !! 1%nat,
               pel_offset <$> row_elements rt !! 2048%nat)) (row_type_layout (E:=unit) wide_row) =
  Ok (32, Some 32, Some 0).
Proof. vm_compute. reflexivity. Qed.

(** Sizes above 16 bits are cut off.  The layout of a row of 2049 integers
    of 256 bits has 32 bytes, although its fields are at the offsets from 0
    to 65504 and the last one again at 0: the conversions to [u16] in
    [product_type_layout] do not fail, they drop the high bits. *)
Theorem row_layout_truncates :
  ty_size (TProduct wide_row) = 65568 ∧
  ∃ rt, row_type_layout (E:=unit) wide_row = Ok rt ∧ row_size rt = 32 ∧
    (pel_offset <$> row_elements rt !! 1%nat) = Some 32 ∧
    (pel_offset <$> row_elements rt !! 2048%nat) = Some 0.
Proof.
  split; [vm_compute; reflexivity|]. pose proof wide_row_layout as Hc.
  destruct (row_type_layout wide_row) as [rt| | |]; [|discriminate..].
  exists rt. split; [reflexivity|]. unfold rmap, rbind in Hc. injection Hc as -> -> ->. done.
Qed.

Module Examples.
(** A byte, an optional string, and a list of them. *)
Definition option_ty : AlgebraicType :=
  TSum [{| var_name := Some "some"; var_type := TString |};
        {| var_name := Some "none"; var_type := TProduct [] |}].
Definition row_ty : list ProductTypeElement :=
  [{| el_name := Some "a"; el_type := TInt U8 |}; {| el_name := Some "b"; el_type := option_ty |};
   {| el_name := Some "c"; el_type := TArray option_ty |}; {| el_name := Some "d"; el_type := TInt U64 |}].

Lemma row_layout_good_witness :
  ∃ rt, row_type_layout (E:=unit) row_ty = Ok rt ∧ ty_size (TProduct row_ty) ≤ row_size rt ∧
    product_type (row_elements rt) = row_ty.
Proof.
  destruct (row_layout_good row_ty) as (rt & H1 & _ & _ & [H2 _] & _ & _ & _ & H3);
    [reflexivity|vm_compute; reflexivity|]. exists rt. split; [exact H1|]. split; [exact H2|exact H3].
Defined.
End Examples.
