(* ===== verification/RowTypeVisitor.v ===== *)
(** * Visitors of the var-len references of rows
    (crates/table/src/row_type_visitor.rs)

    The layout of a row type is compiled to a program that finds the
    references to var-len objects in a row: first to a rose tree, then to
    instructions, which an interpreter runs.  The theorem shows that on every
    row the program visits the references that the type and the tags of the
    row determine, in order, each once. *)

From Stdlib Require Import ZArith Lia Sorting.Sorted.
From stdpp Require Import sets list.
From S2P Require Import Prelude Mem Indexes Sats Bsatn VarLen Page PageInv PageRows Layout.
Local Open Scope Z_scope.
Local Open Scope result_scope.

(** ** Rose trees *)

Inductive VarLenRoseTree : Type :=
| RtEmpty
| RtOffset (offset : Z)
| RtProduct (children : list VarLenRoseTree)
| RtSum (tag_offset : Z) (tag_data_processors : list VarLenRoseTree).

(** The derived equality. *)
Definition list_eqb {A} (f : A → A → bool) : list A → list A → bool :=
  fix go l1 l2 :=
    match l1, l2 with
    | [], [] => true
    | x :: l1, y :: l2 => f x y && go l1 l2
    | _, _ => false
    end.

Fixpoint tree_eqb (t1 t2 : VarLenRoseTree) : bool :=
  match t1, t2 with
  | RtEmpty, RtEmpty => true
  | RtOffset o1, RtOffset o2 => o1 =? o2
  | RtProduct l1, RtProduct l2 => list_eqb tree_eqb l1 l2
  | RtSum o1 l1, RtSum o2 l2 => (o1 =? o2) && list_eqb tree_eqb l1 l2
  | _, _ => false
  end.

Definition is_empty_tree (t : VarLenRoseTree) : bool :=
  match t with RtEmpty => true | _ => false end.

(** [Itertools::all_equal]. *)
Definition all_equal (l : list VarLenRoseTree) : bool :=
  match l with [] => true | x :: l => forallb (tree_eqb x) l end.

Section rose_tree.
Variable f : AlgebraicTypeLayout → Z → VarLenRoseTree * Z.

(** The loop of [product_type_to_rose_tree]: the contents and the offset. *)
Fixpoint product_contents (elements : list ProductTypeElementLayout) (current_offset : Z) :
    list VarLenRoseTree * Z :=
  match elements with
  | [] => ([], current_offset)
  | elt :: elements =>
      let '(tree, current_offset) := f (pel_ty elt) current_offset in
      let '(contents, current_offset) := product_contents elements current_offset in
      (match tree with
       | RtEmpty => contents
       | RtProduct children => children ++ contents
       | child => child :: contents
       end, current_offset)
  end.

Definition product_type_to_rose_tree (align : Z) (elements : list ProductTypeElementLayout)
    (current_offset : Z) : VarLenRoseTree * Z :=
  let '(contents, current_offset) := product_contents elements current_offset in
  let current_offset := align_to current_offset align in
  (match contents with
   | [] => RtEmpty
   | [child] => child
   | _ => RtProduct contents
   end, current_offset).

Definition sum_type_to_rose_tree (l : Layout) (vars : list SumTypeVariantLayout) (payload_offset : Z)
    (current_offset : Z) : VarLenRoseTree * Z :=
  let tag_offset := current_offset + offset_of_tag in
  let variants := map (λ variant,
    (f (vl_ty variant) (current_offset + offset_of_variant_data payload_offset)).1) vars in
  let current_offset := current_offset + ly_size l in
  (if forallb is_empty_tree variants then RtEmpty
   else if all_equal variants then
     match vec_pop variants with Some (t, _) => t | None => RtEmpty end
   else RtSum (wrap_u 16 tag_offset) variants, current_offset).
End rose_tree.

Fixpoint algebraic_type_to_rose_tree (ty : AlgebraicTypeLayout) (current_offset : Z) :
    VarLenRoseTree * Z :=
  let current_offset := align_to current_offset (lt_align ty) in
  match ty with
  | LVarLen _ => (RtOffset (wrap_u 16 current_offset), current_offset + lt_size ty)
  | LPrimitive p => (RtEmpty, current_offset + prim_size p)
  | LProduct l elements =>
      product_type_to_rose_tree algebraic_type_to_rose_tree (ly_align l) elements current_offset
  | LSum l vars po => sum_type_to_rose_tree algebraic_type_to_rose_tree l vars po current_offset
  end.

(** ** Programs *)

Inductive Insn :=
| SwitchOnTag (tag_offset : Z) (jump_targets : list Z)
| VisitOffset (offset : Z)
| Goto (target : Z).

Definition FIXUP : Insn := Goto u16_MAX.

Definition is_goto (i : Insn) : bool := match i with Goto _ => true | _ => false end.

(** The loop over the branches: the code, the jump targets, and the places of
    the jumps to the end of the sum. *)
Fixpoint compile_branches (f : VarLenRoseTree → list Insn → list Insn) (branches : list VarLenRoseTree)
    (into : list Insn) : list Insn * list Z * list nat :=
  match branches with
  | [] => (into, [], [])
  | branch :: branches =>
      let jump_target := wrap_u 16 (len into) in
      let into := f branch into in
      let goto_fixup := length into in
      let '(into, jump_targets, fixups) := compile_branches f branches (into ++ [FIXUP]) in
      (into, jump_target :: jump_targets, goto_fixup :: fixups)
  end.

Fixpoint compile_tree (tree : VarLenRoseTree) (into : list Insn) : list Insn :=
  match tree with
  | RtEmpty => into
  | RtOffset offset => into ++ [VisitOffset offset]
  | RtProduct elts => fold_left (λ into elt, compile_tree elt into) elts into
  | RtSum tag_offset tag_data_processors =>
      let dummy_insn := length into in
      let '(into, jump_targets, goto_fixup_locations) :=
        compile_branches compile_tree tag_data_processors (into ++ [FIXUP]) in
      let goto_addr := len into in
      let into := fold_left (λ into idx, <[idx := Goto (wrap_u 16 goto_addr)]> into)
                    goto_fixup_locations into in
      <[dummy_insn := SwitchOnTag tag_offset jump_targets]> into
  end.

(** [remove_trailing_gotos], from the last instruction on. *)
Fixpoint drop_gotos (rev_program : list Insn) : list Insn :=
  match rev_program with
  | Goto _ :: rest => drop_gotos rest
  | _ => rev_program
  end.
Definition remove_trailing_gotos (program : list Insn) : list Insn :=
  reverse (drop_gotos (reverse program)).

Record VarLenVisitorProgram := { insns : list Insn }.

Definition rose_tree_to_visitor_program (tree : VarLenRoseTree) : VarLenVisitorProgram :=
  {| insns := remove_trailing_gotos (compile_tree tree []) |}.

Definition row_type_visitor (ty : RowTypeLayout) : VarLenVisitorProgram :=
  if ly_fixed (row_layout ty) then {| insns := [] |}
  else
    let '(rose_tree, _) := product_type_to_rose_tree algebraic_type_to_rose_tree
                             (ly_align (row_layout ty)) (row_elements ty) 0 in
    rose_tree_to_visitor_program rose_tree.

(** ** The interpreter *)

(** [read_tag]: a read outside of the row is undefined behaviour. *)
Definition visitor_read_tag {E} (row : list byte) (offset : Z) : result E Z :=
  let* b := vec_get row offset in Ok (byte_to_Z b).

(** The loop has at most as many rounds as the program has instructions. *)
Fixpoint next_vlr_offset_loop {E} (fuel : nat) (program : list Insn) (instr_ptr : Z)
    (read_tag : Z → result E Z) : result E (option Z * Z) :=
  match fuel with
  | O => OutOfFuel
  | S fuel =>
      match program !! Z.to_nat instr_ptr with
      | None => Ok (None, instr_ptr)
      | Some (VisitOffset offset) =>
          let* ip := add_u 16 instr_ptr 1 in
          Ok (Some offset, ip)
      | Some (Goto next) => next_vlr_offset_loop fuel program next read_tag
      | Some (SwitchOnTag tag_offset jump_targets) =>
          let* tag := read_tag tag_offset in
          let* go_to := vec_get jump_targets tag in
          next_vlr_offset_loop fuel program go_to read_tag
      end
  end.
Definition next_vlr_offset {E} (program : list Insn) (instr_ptr : Z) (read_tag : Z → result E Z) :
    result E (option Z * Z) :=
  next_vlr_offset_loop (S (length program)) program instr_ptr read_tag.

(** The state of the iterators is the instruction pointer. *)
#[export] Instance program_members : VarLenMembers VarLenVisitorProgram := {
  vit := Z;
  vit_start _ := 0;
  vit_next v ip row := next_vlr_offset (insns v) ip (visitor_read_tag row);
}.

(** ** What there is to visit *)

(** The places of the tags that decide, and of the references. *)
Abbreviation Walk := (option (list Z * list Z)) (only parsing).

Definition walk_app (w1 w2 : Walk) : Walk :=
  match w1, w2 with
  | Some (ts1, os1), Some (ts2, os2) => Some (ts1 ++ ts2, os1 ++ os2)
  | _, _ => None
  end.
Definition walk_tag (t : Z) (w : Walk) : Walk :=
  match w with Some (ts, os) => Some (t :: ts, os) | None => None end.

Definition walk_list {A} (f : A → Walk) : list A → Walk :=
  fix go l := match l with [] => Some ([], []) | x :: l => walk_app (f x) (go l) end.
Definition walk_nth {A} (f : A → Walk) : list A → nat → Walk :=
  fix go l n :=
    match l, n with
    | [], _ => None
    | x :: _, O => f x
    | _ :: l, S n => go l n
    end.

(** The references of a row of type [ty] at [base]. *)
Fixpoint ref_walk (ty : AlgebraicTypeLayout) (base : Z) (row : list byte) : Walk :=
  match ty with
  | LVarLen _ => Some ([], [base])
  | LPrimitive _ => Some ([], [])
  | LProduct _ els => walk_list (λ e, ref_walk (pel_ty e) (base + pel_offset e) row) els
  | LSum _ vars po =>
      match row !! Z.to_nat (base + offset_of_tag) with
      | None => None
      | Some tag =>
          walk_tag (base + offset_of_tag) (walk_nth (λ v, ref_walk (vl_ty v) (base + po) row) vars (Z.to_nat (byte_to_Z tag)))
      end
  end.

(** What a rose tree says. *)
Fixpoint tree_walk (tree : VarLenRoseTree) (row : list byte) : Walk :=
  match tree with
  | RtEmpty => Some ([], [])
  | RtOffset o => Some ([], [o])
  | RtProduct l => walk_list (λ t, tree_walk t row) l
  | RtSum to ps =>
      match row !! Z.to_nat to with
      | None => None
      | Some tag => walk_tag to (walk_nth (λ t, tree_walk t row) ps (Z.to_nat (byte_to_Z tag)))
      end
  end.

Lemma walk_app_Some w1 w2 ts os :
  walk_app w1 w2 = Some (ts, os) →
  ∃ ts1 os1 ts2 os2, w1 = Some (ts1, os1) ∧ w2 = Some (ts2, os2) ∧ ts = ts1 ++ ts2 ∧ os = os1 ++ os2.
Proof. destruct w1 as [[]|], w2 as [[]|]; simpl; try done. intros [= <- <-]. eauto 10. Qed.

Lemma walk_tag_Some t w ts os :
  walk_tag t w = Some (ts, os) → ∃ ts', w = Some (ts', os) ∧ ts = t :: ts'.
Proof. destruct w as [[]|]; simpl; [|done]. intros [= <- <-]. eauto. Qed.

Lemma walk_list_app {A} (f : A → Walk) l1 l2 : walk_list f (l1 ++ l2) = walk_app (walk_list f l1) (walk_list f l2).
Proof.
  induction l1 as [|x l1 IH]; simpl.
  - by destruct (walk_list f l2) as [[]|].
  - rewrite IH. destruct (f x) as [[]|], (walk_list f l1) as [[]|], (walk_list f l2) as [[]|]; simpl;
      by rewrite ?app_assoc.
Qed.

Lemma walk_nth_Some {A} (f : A → Walk) l n w :
  walk_nth f l n = Some w ↔ ∃ x, l !! n = Some x ∧ f x = Some w.
Proof.
  revert n. induction l as [|x l IH]; intros [|n]; simpl; try naive_solver.
Qed.

(** ** Induction over trees *)

Section tree_rect.
Variable P : VarLenRoseTree → Prop.
Hypothesis P_empty : P RtEmpty.
Hypothesis P_offset : ∀ o, P (RtOffset o).
Hypothesis P_product : ∀ l, Forall P l → P (RtProduct l).
Hypothesis P_sum : ∀ o l, Forall P l → P (RtSum o l).

Fixpoint tree_nested_ind (t : VarLenRoseTree) : P t :=
  let go := fix go l := match l return Forall P l with
    | [] => Forall_nil_2 _
    | t :: l => Forall_cons_2 _ _ _ (tree_nested_ind t) (go l)
    end in
  match t with
  | RtEmpty => P_empty
  | RtOffset o => P_offset o
  | RtProduct l => P_product l (go l)
  | RtSum o l => P_sum o l (go l)
  end.
End tree_rect.

Lemma list_eqb_eq {A} (f : A → A → bool) l1 :
  Forall (λ x, ∀ y, f x y = true → x = y) l1 → ∀ l2, list_eqb f l1 l2 = true → l1 = l2.
Proof.
  induction 1 as [|x l1 Hx _ IH]; intros [|y l2]; simpl; try done.
  intros [H1 H2]%andb_prop. f_equal; auto.
Qed.

Lemma tree_eqb_eq t1 : ∀ t2, tree_eqb t1 t2 = true → t1 = t2.
Proof.
  induction t1 as [|o|l IH|o l IH] using tree_nested_ind; intros [|o'|l'|o' l']; cbn [tree_eqb]; try done.
  - by intros ->%Z.eqb_eq.
  - intros H. f_equal. by eapply list_eqb_eq.
  - intros [->%Z.eqb_eq H]%andb_prop. f_equal. by eapply list_eqb_eq.
Qed.

(** ** The trees of layouts *)

Definition walks_as (tree : VarLenRoseTree) (w : list byte → Walk) : Prop :=
  ∀ row ts os, w row = Some (ts, os) → ∃ ts', tree_walk tree row = Some (ts', os) ∧ ∀ t, t ∈ ts' → t ∈ ts.

Definition tree_ok (ty : AlgebraicTypeLayout) : Prop :=
  ∀ cur, good ty → let base := align_to cur (lt_align ty) in
  0 ≤ base → base + lt_size ty < 65536 →
  ∃ tree, algebraic_type_to_rose_tree ty cur = (tree, base + lt_size ty) ∧ walks_as tree (ref_walk ty base).

(** The contents of a product, for elements of a parent at [base]. *)
Lemma product_contents_ok els end_ base M :
  Forall (λ e, tree_ok (pel_ty e)) els → is_align M → (M | base) → 0 ≤ base → base + end_ < 65536 →
  Forall (λ e, good (pel_ty e) ∧ lt_align (pel_ty e) ≤ M) els →
  ∀ cur, 0 ≤ cur → chained cur els end_ →
  ∃ contents, product_contents algebraic_type_to_rose_tree els (base + cur) = (contents, base + end_) ∧
    ∀ row ts os, walk_list (λ e, ref_walk (pel_ty e) (base + pel_offset e) row) els = Some (ts, os) →
      ∃ ts', walk_list (λ t, tree_walk t row) contents = Some (ts', os) ∧ ∀ t, t ∈ ts' → t ∈ ts.
Proof.
  intros IH HM Hbase Hb0 Hlt. induction IH as [|e els He _ IH]; intros Hg cur Hcur Hch; simpl in *.
  { subst. exists []. split; [done|]. intros row ts os [= <- <-]. exists []. split; [done|set_solver]. }
  apply Forall_cons in Hg as [[Hge HaM] Hg]. destruct Hch as [Ho Hch].
  pose proof (lt_align_ok _ Hge) as Ha. pose proof (is_align_bounds _ Ha) as Hab.
  pose proof (lt_size_aligned _ Hge) as [Hs _].
  assert (Hgf : Forall (λ e, good (pel_ty e)) els) by (eapply Forall_impl; [exact Hg|]; by intros ? []).
  pose proof (align_to_spec cur _ (ltac:(lia) : 0 < lt_align (pel_ty e))) as [Hal _].
  destruct (chained_placed _ _ Hgf (pel_offset e + lt_size (pel_ty e)) ltac:(lia) Hch) as (_ & _ & _ & Hend).
  assert (Hdiv : (lt_align (pel_ty e) | base)).
  { trans M; [by apply is_align_divide|done]. }
  assert (Hat : align_to (base + cur) (lt_align (pel_ty e)) = base + pel_offset e).
  { rewrite align_to_add by (done || lia). by rewrite Ho. }
  destruct (He (base + cur) Hge) as (tree & Ht & Hw); [rewrite Hat; lia..|]. rewrite Hat in *. rewrite Ht.
  destruct (IH Hg (pel_offset e + lt_size (pel_ty e)) ltac:(lia) Hch) as (contents & Hc & Hws).
  rewrite Z.add_assoc in Hc. rewrite Hc. eexists. split; [done|].
  intros row ts os (ts1 & os1 & ts2 & os2 & H1 & H2 & -> & ->)%walk_app_Some.
  destruct (Hw row _ _ H1) as (ts1' & Ht1 & Hin1). destruct (Hws row _ _ H2) as (ts2' & Ht2 & Hin2).
  exists (ts1' ++ ts2'). split; [|set_solver]. destruct tree as [|o|l|o l]; simpl in *.
  - injection Ht1 as <- <-. by rewrite Ht2.
  - injection Ht1 as <- <-. by rewrite Ht2.
  - by rewrite walk_list_app, Ht1, Ht2.
  - by rewrite Ht1, Ht2.
Qed.

Lemma product_tree_ok els end_ base M :
  Forall (λ e, tree_ok (pel_ty e)) els → is_align M → (M | base) → 0 ≤ base → base + end_ < 65536 →
  Forall (λ e, good (pel_ty e) ∧ lt_align (pel_ty e) ≤ M) els → chained 0 els end_ →
  ∃ tree, product_type_to_rose_tree algebraic_type_to_rose_tree M els base =
      (tree, base + align_to end_ M) ∧
    walks_as tree (λ row, walk_list (λ e, ref_walk (pel_ty e) (base + pel_offset e) row) els).
Proof.
  intros IH HM Hbase Hb0 Hlt Hg Hch. pose proof (is_align_bounds _ HM).
  destruct (product_contents_ok els end_ base M IH HM Hbase Hb0 Hlt Hg 0 ltac:(lia) Hch) as (contents & Hc & Hw).
  unfold product_type_to_rose_tree. rewrite Z.add_0_r in Hc. rewrite Hc.
  rewrite align_to_add by (done || lia). eexists. split; [done|]. intros row ts os H0.
  destruct (Hw row ts os H0) as (ts' & Ht & Hin). exists ts'. split; [|done].
  destruct contents as [|t [|t' contents]]; [done| |done].
  simpl in Ht. destruct (tree_walk t row) as [[ts1 os1]|]; [|done]. simpl in Ht.
  by rewrite !app_nil_r in Ht.
Qed.

Lemma all_equal_lookup l x y i j : all_equal l = true → l !! i = Some x → l !! j = Some y → x = y.
Proof.
  destruct l as [|z l]; [done|]. simpl. intros Hall.
  assert (Hz : ∀ k w, (z :: l) !! k = Some w → w = z).
  { intros [|k] w; simpl; [by intros [= <-]|]. intros Hk.
    eapply forallb_forall in Hall; [|by eapply list_elem_of_In, list_elem_of_lookup_2].
    by apply tree_eqb_eq in Hall. }
  intros Hi Hj. by rewrite (Hz _ _ Hi), (Hz _ _ Hj).
Qed.

Lemma vec_pop_last {A} (l : list A) i x : l !! i = Some x → ∃ y r, vec_pop l = Some (y, r) ∧ l !! (length l - 1)%nat = Some y.
Proof.
  intros Hi. destruct l as [|y r _] using rev_ind; [done|]. exists y, r. split; [apply vec_pop_snoc|].
  rewrite length_app. simpl. rewrite Nat.add_sub. by rewrite lookup_app_r, Nat.sub_diag.
Qed.

(** Any tree that the processors of a sum agree on stands for the sum. *)
Lemma sum_tree_ok l vars po base :
  Forall (λ v, tree_ok (vl_ty v)) vars → good (LSum l vars po) → (ly_align l | base) → 0 ≤ base →
  base + ly_size l < 65536 →
  ∃ tree, sum_type_to_rose_tree algebraic_type_to_rose_tree l vars po base = (tree, base + ly_size l) ∧
    walks_as tree (ref_walk (LSum l vars po) base).
Proof.
  intros IH (Hal & Hpo & Hmod & Hsz & _ & Hall) Hdiv Hb0 Hlt. pose proof (is_align_bounds _ Hal).
  unfold sum_type_to_rose_tree, offset_of_variant_data, offset_of_tag. rewrite Z.add_0_r.
  set (variants := map (λ v, (algebraic_type_to_rose_tree (vl_ty v) (base + po)).1) vars).
  eexists. split; [done|]. intros row ts os Hw. cbn [ref_walk] in Hw. unfold offset_of_tag in Hw.
  rewrite Z.add_0_r in Hw. destruct (row !! Z.to_nat base) as [tag|] eqn:Htag; [|done].
  apply walk_tag_Some in Hw as (ts1 & (v & Hv & Hw)%walk_nth_Some & ->).
  assert (∃ tree ts', variants !! Z.to_nat (byte_to_Z tag) = Some tree ∧
    tree_walk tree row = Some (ts', os) ∧ ∀ t, t ∈ ts' → t ∈ ts1) as (tree & ts' & Hvt & Ht & Hin).
  { pose proof (list_elem_of_lookup_2 _ _ _ Hv) as Hin. rewrite Forall_forall in IH.
    destruct (all_list_elem _ _ _ Hall Hin) as (Hgv & Hav & Hsv).
    assert (Hat : align_to (base + po) (lt_align (vl_ty v)) = base + po).
    { apply align_to_id. rewrite Hpo. pose proof (is_align_divide _ _ (lt_align_ok _ Hgv) Hal Hav).
      apply Z.divide_add_r; [|done]. by trans (ly_align l). }
    destruct (IH v Hin (base + po) Hgv) as (tree & Hat2 & Hwa); [rewrite Hat; lia..|]. rewrite Hat in *.
    destruct (Hwa row _ _ Hw) as (ts' & Ht & Hts). exists tree, ts'. split; [|done].
    unfold variants. rewrite list_lookup_fmap, Hv. simpl. by rewrite Hat2. }
  destruct (forallb is_empty_tree variants) eqn:He.
  { eapply forallb_forall in He; [|by eapply list_elem_of_In, list_elem_of_lookup_2].
    destruct tree; try done. simpl in *. injection Ht as <- <-. exists []. split; [done|set_solver]. }
  destruct (all_equal variants) eqn:Heq.
  { destruct (vec_pop_last _ _ _ Hvt) as (y & r & -> & Hy). rewrite (all_equal_lookup _ _ _ _ _ Heq Hy Hvt).
    exists ts'. split; [done|set_solver]. }
  exists (base :: ts'). split; [|set_solver]. simpl. rewrite wrap_u_id by (unfold in_u; lia). rewrite Htag.
  by rewrite (proj2 (walk_nth_Some _ _ _ _) (ex_intro _ tree (conj Hvt Ht))).
Qed.

Lemma layout_tree_ok ty : tree_ok ty.
Proof.
  induction ty as [l vs po IH|l es IH|p|v] using layout_nested_ind; intros cur Hg base Hb0 Hlt.
  - cbn [algebraic_type_to_rose_tree]. fold base. unfold lt_size in *. cbn [layout] in *.
    pose proof Hg as (Hal & _). pose proof (is_align_bounds _ Hal).
    apply sum_tree_ok; try done. apply align_to_spec. unfold lt_align. simpl. lia.
  - cbn [algebraic_type_to_rose_tree]. fold base. unfold lt_size in *. cbn [layout] in *.
    pose proof Hg as (Hal & (end_ & Hch & Hend) & _ & _ & Hall). pose proof (is_align_bounds _ Hal).
    pose proof (align_to_spec end_ (ly_align l) ltac:(lia)).
    rewrite Hend in *. apply product_tree_ok; try done; [|lia|by apply all_list_Forall].
    apply align_to_spec. unfold lt_align. simpl. lia.
  - exists RtEmpty. split; [done|]. intros row ts os [= <- <-]. exists []. split; [done|set_solver].
  - change (lt_size (LVarLen v)) with 4 in *. exists (RtOffset base). cbn [algebraic_type_to_rose_tree]. fold base.
    rewrite wrap_u_id by (unfold in_u; lia). split; [done|].
    intros row ts os [= <- <-]. exists []. split; [done|set_solver].
Qed.

(** ** Running programs *)

(** On the rows of [R] alike, the program visits the offsets from [ip] on and
    ends; it only jumps forward. *)
Inductive runs (prog : list Insn) (R : list byte → Prop) : nat → list Z → Prop :=
| runs_end ip : (length prog ≤ ip)%nat → runs prog R ip []
| runs_visit ip o os : prog !! ip = Some (VisitOffset o) → runs prog R (S ip) os → runs prog R ip (o :: os)
| runs_goto ip y os :
    prog !! ip = Some (Goto (Z.of_nat y)) → (ip < y)%nat → runs prog R y os → runs prog R ip os
| runs_switch ip to jts tag y os :
    prog !! ip = Some (SwitchOnTag to jts) → 0 ≤ to →
    (∀ row, R row → row !! Z.to_nat to = Some tag) →
    jts !! Z.to_nat (byte_to_Z tag) = Some (Z.of_nat y) → (ip < y)%nat → runs prog R y os →
    runs prog R ip os.

(** The code from [a] to [b] is in the program. *)
Definition agrees {A} (prog code : list A) (a b : nat) : Prop :=
  ∀ i, (a ≤ i < b)%nat → prog !! i = code !! i.

(** What the code of a tree does. *)
Definition code_runs (t : VarLenRoseTree) (code : list Insn) (a b : nat) : Prop :=
  ∀ prog R row ts os rest,
    agrees prog code a b → Z.of_nat b ≤ u16_MAX → tree_walk t row = Some (ts, os) →
    (∀ x, x ∈ ts → 0 ≤ x ∧ ∀ row', R row' → row' !! Z.to_nat x = row !! Z.to_nat x) →
    runs prog R b rest → runs prog R a (os ++ rest).

Record compiles (t : VarLenRoseTree) : Prop := {
  cp_prefix into i : (i < length into)%nat → compile_tree t into !! i = into !! i;
  cp_length into : (length into ≤ length (compile_tree t into))%nat;
  cp_runs into : code_runs t (compile_tree t into) (length into) (length (compile_tree t into));
}.

Lemma agrees_weaken {A} (prog code : list A) a b a' b' :
  (a ≤ a')%nat → (b' ≤ b)%nat → agrees prog code a b → agrees prog code a' b'.
Proof. intros Ha Hb H i Hi. apply H. lia. Qed.

Lemma compiles_product l : Forall compiles l → compiles (RtProduct l).
Proof.
  intros Hl. cut (∀ into,
    (∀ i, (i < length into)%nat → compile_tree (RtProduct l) into !! i = into !! i) ∧
    (length into ≤ length (compile_tree (RtProduct l) into))%nat ∧
    code_runs (RtProduct l) (compile_tree (RtProduct l) into) (length into)
      (length (compile_tree (RtProduct l) into))).
  { intros H. split; intros; by apply H. }
  induction Hl as [|t l [Hp Hl Hr] _ IH]; intros into.
  { split_and!; [done|done|]. intros prog R row ts os rest _ _ [= <- <-] _ Hrun. done. }
  destruct (IH (compile_tree t into)) as (IH1 & IH2 & IH3).
  change (compile_tree (RtProduct (t :: l)) into) with (compile_tree (RtProduct l) (compile_tree t into)).
  specialize (Hl into). split_and!.
  - intros i Hi. rewrite IH1 by lia. by apply Hp.
  - lia.
  - intros prog R row ts os rest Hag Hb Hw Hts Hrun.
    apply walk_app_Some in Hw as (ts1 & os1 & ts2 & os2 & H1 & H2 & -> & ->). rewrite <-app_assoc.
    eapply (Hr into); [|lia|done| |eapply IH3; [|done|done| |done]].
    + intros i Hi. rewrite Hag by lia. apply IH1. lia.
    + intros x Hx. apply Hts. set_solver.
    + eapply agrees_weaken; [|done|done]. lia.
    + intros x Hx. apply Hts. set_solver.
Qed.

(** ** Branches *)

(** The branch [b] among the code of the branches. *)
Record branch_at (code : list Insn) (fixups : list nat) (lo : nat) (b : VarLenRoseTree) (jt : Z) (e : nat)
    (into : list Insn) : Prop := {
  ba_target : jt = wrap_u 16 (len into);
  ba_end : e = length (compile_tree b into);
  ba_lo : (lo ≤ length into)%nat;
  ba_hi : (e < length code)%nat;
  ba_code : agrees code (compile_tree b into) (length into) e;
  ba_apart : ∀ f, f ∈ fixups → (f < length into)%nat ∨ (e ≤ f)%nat;
}.

Lemma compile_branches_ok bs : Forall compiles bs → ∀ into,
  let '(code, jts, fixups) := compile_branches compile_tree bs into in
  (∀ i, (i < length into)%nat → code !! i = into !! i) ∧ (length into ≤ length code)%nat ∧
  Forall (λ f, length into ≤ f < length code)%nat fixups ∧
  ∀ i b, bs !! i = Some b → ∃ jt e into', jts !! i = Some jt ∧ fixups !! i = Some e ∧
    branch_at code fixups (length into) b jt e into'.
Proof.
  induction 1 as [|b bs [Hp Hl Hr] _ IH]; intros into; simpl.
  { split_and!; [done|done|constructor|]. intros i b Hi. done. }
  specialize (IH (compile_tree b into ++ [FIXUP])).
  destruct (compile_branches compile_tree bs _) as [[code jts] fixups]. destruct IH as (I1 & I2 & I3 & I4).
  rewrite length_app in *. simpl in *. specialize (Hl into).
  assert (Hpre : ∀ i, (i < length (compile_tree b into))%nat → code !! i = compile_tree b into !! i).
  { intros i Hi. rewrite I1 by lia. by rewrite lookup_app_l. }
  split_and!.
  - intros i Hi. rewrite Hpre by lia. by apply Hp.
  - lia.
  - constructor; [lia|]. eapply Forall_impl; [exact I3|]. simpl. lia.
  - intros [|i] b'; simpl.
    + intros [= <-]. eexists _, _, into. split; [done|]. split; [done|]. split; try done; [lia|..].
      * intros i Hi. apply Hpre. lia.
      * intros f [->|Hf]%elem_of_cons; [lia|]. rewrite Forall_forall in I3. specialize (I3 f Hf). lia.
    + intros Hi. destruct (I4 i b' Hi) as (jt & e & into' & J1 & J2 & [B1 B2 B3 B4 B5 B6]).
      exists jt, e, into'. split; [done|]. split; [done|]. split; try done; [lia|].
      intros f [->|Hf]%elem_of_cons; [lia|by apply B6].
Qed.

(** Writing the jumps to the end. *)
Lemma patch_lookup {A} (g : A) fixups : ∀ (code : list A) i,
  fold_left (λ code idx, <[idx := g]> code) fixups code !! i =
    if decide (i ∈ fixups ∧ (i < length code)%nat) then Some g else code !! i.
Proof.
  induction fixups as [|f fixups IH]; intros code i; cbn [fold_left].
  { rewrite decide_False; [done|set_solver]. }
  rewrite IH, length_insert. destruct (decide (i ∈ fixups ∧ (i < length code)%nat)) as [Hd|Hd].
  { rewrite decide_True; [done|]. set_solver. }
  destruct (decide (i = f)) as [->|Hne].
  - destruct (decide (f < length code)%nat) as [Hlt|Hge].
    + rewrite list_lookup_insert_eq by done. rewrite decide_True; [done|]. set_solver.
    + rewrite list_insert_ge by lia. rewrite decide_False; [done|]. naive_solver.
  - rewrite list_lookup_insert_ne by done. rewrite decide_False; [done|]. set_solver.
Qed.

Lemma patch_length {A} (g : A) fixups : ∀ code : list A,
  length (fold_left (λ code idx, <[idx := g]> code) fixups code) = length code.
Proof. induction fixups as [|f fixups IH]; intros code; simpl; [done|]. by rewrite IH, length_insert. Qed.

Lemma compiles_sum to ps : Forall compiles ps → compiles (RtSum to ps).
Proof.
  intros Hps. cut (∀ into,
    (∀ i, (i < length into)%nat → compile_tree (RtSum to ps) into !! i = into !! i) ∧
    (length into ≤ length (compile_tree (RtSum to ps) into))%nat ∧
    code_runs (RtSum to ps) (compile_tree (RtSum to ps) into) (length into)
      (length (compile_tree (RtSum to ps) into))).
  { intros H. split; intros; by apply H. }
  intros into. pose proof (compile_branches_ok ps Hps (into ++ [FIXUP])) as Hb. cbn [compile_tree].
  destruct (compile_branches compile_tree ps _) as [[code jts] fixups]. destruct Hb as (I1 & I2 & I3 & I4).
  rewrite length_app in *. simpl in I1, I2, I3, I4. set (g := Goto (wrap_u 16 (len code))).
  set (patched := fold_left _ _ _).
  assert (Hlen : length patched = length code) by apply patch_length. rewrite length_insert, Hlen.
  assert (Hlk : ∀ i, patched !! i = if decide (i ∈ fixups ∧ (i < length code)%nat) then Some g else code !! i)
    by (intros i; apply patch_lookup).
  rewrite Forall_forall in I3. split_and!.
  - intros i Hi. rewrite list_lookup_insert_ne by lia. rewrite Hlk, decide_False, I1, lookup_app_l by
      (lia || (intros [Hf _]; specialize (I3 _ Hf); lia)). done.
  - lia.
  - intros prog R row ts os rest Hag Hle Hw Hts Hrun. cbn [tree_walk] in Hw.
    destruct (row !! Z.to_nat to) as [tag|] eqn:Htag; [|done].
    apply walk_tag_Some in Hw as (ts1 & (t & Ht & Hw)%walk_nth_Some & ->).
    destruct (I4 _ _ Ht) as (jt & e & into' & J1 & J2 & [B1 B2 B3 B4 B5 B6]).
    rewrite Forall_forall in Hps. destruct (Hps t) as [Cp Cl Cr]; [by eapply list_elem_of_lookup_2|].
    specialize (Cl into'). unfold u16_MAX in Hle. unfold len in B1.
    rewrite wrap_u_id in B1 by (unfold in_u; lia). subst jt.
    destruct (Hts to) as [H0 Hto]; [set_solver|]. rewrite Htag in Hto.
    assert (Hpl : ∀ i, (length into < i < length code)%nat →
      prog !! i = if decide (i ∈ fixups) then Some g else code !! i).
    { intros i Hi. rewrite Hag, list_lookup_insert_ne, Hlk by lia.
      destruct (decide (i ∈ fixups)) as [Hf|Hf]; [by rewrite decide_True by (split; [done|lia])|].
      rewrite decide_False; [done|]. naive_solver. }
    apply (runs_switch prog R _ to jts tag (length into')); [|done..|lia|].
    + rewrite Hag, list_lookup_insert_eq by lia. done.
    + eapply (Cr into'); [|unfold u16_MAX; lia|done| |].
      * intros i Hi. rewrite <-B2 in Hi. rewrite Hpl, decide_False by (lia || (intros Hf; specialize (B6 _ Hf); lia)).
        apply B5. lia.
      * intros x Hx. apply Hts. set_solver.
      * rewrite <-B2. apply (runs_goto prog R e (length code)); [|lia|done].
        rewrite Hpl, decide_True by (lia || by eapply list_elem_of_lookup_2).
        unfold g, len. by rewrite wrap_u_id by (unfold in_u; lia).
Qed.

Lemma tree_compiles t : compiles t.
Proof.
  induction t as [|o|l IH|o l IH] using tree_nested_ind; [..|by apply compiles_product|by apply compiles_sum].
  - split; [done|done|]. intros into prog R row ts os rest _ _ [= <- <-] _ Hrun. done.
  - split; intros into.
    + intros i Hi. simpl. by apply lookup_app_l.
    + simpl. rewrite length_app. lia.
    + intros prog R row ts os rest Hag _ [= <- <-] _. simpl in *. rewrite length_app in *. simpl in *.
      rewrite Nat.add_1_r in *. intros Hrun. constructor; [|done]. rewrite Hag by lia.
      by rewrite lookup_app_r, Nat.sub_diag by lia.
Qed.

(** ** Trailing jumps *)

Lemma drop_gotos_split l : ∃ gs, l = gs ++ drop_gotos l ∧ Forall (λ i, is_goto i = true) gs.
Proof.
  induction l as [|i l (gs & IH & Hg)]; [by exists []|].
  destruct i as [to jts|o|y]; try (by exists []). exists (Goto y :: gs). simpl. rewrite <-IH. split; [done|]. by constructor.
Qed.

Lemma remove_trailing_split prog :
  ∃ gs, prog = remove_trailing_gotos prog ++ gs ∧ Forall (λ i, is_goto i = true) gs.
Proof.
  destruct (drop_gotos_split (reverse prog)) as (gs & H & Hg). exists (reverse gs). split.
  - unfold remove_trailing_gotos. by rewrite <-reverse_app, <-H, reverse_involutive.
  - by apply Forall_reverse.
Qed.

Lemma runs_past q R ip os : runs q R ip os → (length q ≤ ip)%nat → os = [].
Proof. intros Hr Hip. destruct Hr as [|? ? ? Hl|? ? ? Hl|? ? ? ? ? ? Hl]; [done|apply lookup_lt_Some in Hl; lia..]. Qed.

Lemma runs_trim q gs R ip os :
  Forall (λ i, is_goto i = true) gs → runs (q ++ gs) R ip os → runs q R ip os.
Proof.
  intros Hg. rewrite Forall_forall in Hg.
  assert (Hl : ∀ ip i, (q ++ gs) !! ip = Some i → q !! ip = Some i ∨ (length q ≤ ip)%nat ∧ is_goto i = true).
  { intros ip' i [|[Hlt Hi]]%lookup_app_Some; [by left|right]. split; [done|]. apply Hg. by eapply list_elem_of_lookup_2. }
  induction 1 as [ip Hip|ip o os Hi Hr IH|ip y os Hi Hlt Hr IH|ip to jts tag y os Hi H0 Hto Hjt Hlt Hr IH].
  - constructor. rewrite length_app in Hip. lia.
  - destruct (Hl _ _ Hi) as [Hq|[_ ?]]; [|done]. by constructor.
  - destruct (Hl _ _ Hi) as [Hq|[Hq _]]; [by eapply runs_goto|].
    rewrite (runs_past _ _ _ _ IH) by lia. by constructor.
  - destruct (Hl _ _ Hi) as [Hq|[_ ?]]; [|done]. by eapply runs_switch.
Qed.

(** ** The interpreter runs the program *)

Lemma next_vlr_ok prog (R : list byte → Prop) ip os :
  runs prog R ip os → Z.of_nat (length prog) ≤ u16_MAX → ∀ fuel, (length prog - ip < fuel)%nat →
  match os with
  | [] => ∀ row, R row → ∃ it, next_vlr_offset_loop (E:=unit) fuel prog (Z.of_nat ip) (visitor_read_tag row) = Ok (None, it)
  | o :: os => ∃ ip', runs prog R ip' os ∧ ∀ row, R row →
      next_vlr_offset_loop (E:=unit) fuel prog (Z.of_nat ip) (visitor_read_tag row) = Ok (Some o, Z.of_nat ip')
  end.
Proof.
  intros Hr Hlen. unfold u16_MAX in Hlen.
  induction Hr as [ip Hip|ip o os Hi Hr _|ip y os Hi Hlt Hr IH|ip to jts tag y os Hi H0 Hto Hjt Hlt Hr IH];
    intros [|fuel] Hf; try lia.
  - intros row HR. simpl. rewrite Nat2Z.id, (proj2 (lookup_ge_None _ _)) by done. eauto.
  - pose proof (lookup_lt_Some _ _ _ Hi). exists (S ip). split; [done|]. intros row HR. simpl.
    rewrite Nat2Z.id, Hi, add_u_Ok by lia. cbn [rbind]. by rewrite Nat2Z.inj_succ.
  - pose proof (lookup_lt_Some _ _ _ Hi). simpl. rewrite Nat2Z.id, Hi. apply IH. lia.
  - pose proof (lookup_lt_Some _ _ _ Hi). specialize (IH fuel ltac:(lia)).
    assert (Hstep : ∀ row, R row →
      next_vlr_offset_loop (E:=unit) (S fuel) prog (Z.of_nat ip) (visitor_read_tag row) =
      next_vlr_offset_loop fuel prog (Z.of_nat y) (visitor_read_tag row)).
    { intros row HR. simpl. rewrite Nat2Z.id, Hi. unfold visitor_read_tag at 1.
      rewrite (vec_get_Ok _ _ tag) by auto. cbn [rbind].
      rewrite (vec_get_Ok _ _ (Z.of_nat y)); [done|apply byte_to_Z_range|done]. }
    destruct os as [|o os].
    + intros row HR. rewrite Hstep by done. by apply IH.
    + destruct IH as (ip' & Hr' & Hn). exists ip'. split; [done|]. intros row HR. rewrite Hstep by done. by apply Hn.
Qed.

Lemma runs_visits prog (R : list byte → Prop) os : ∀ ip,
  runs prog R ip os → Z.of_nat (length prog) ≤ u16_MAX →
  visits {| insns := prog |} R (Z.of_nat ip) os.
Proof.
  induction os as [|o os IH]; intros ip Hr Hlen;
    pose proof (next_vlr_ok _ _ _ _ Hr Hlen (S (length prog)) ltac:(lia)) as Hn.
  - constructor. exact Hn.
  - destruct Hn as (ip' & Hr' & Hn). eapply visits_cons; [exact Hn|]. by apply IH.
Qed.

(** ** References are in the row and apart *)

Definition slot_before (o o' : Z) : Prop := o + 4 ≤ o'.

(** Tags and references in the bytes from [lo] to [hi], the references in
    order, and no tag inside of a reference. *)
Record apart (lo hi : Z) (ts os : list Z) : Prop := {
  ap_tags : Forall (λ t, lo ≤ t < hi) ts;
  ap_slots : Forall (λ o, lo ≤ o ∧ o + 4 ≤ hi) os;
  ap_sorted : StronglySorted slot_before os;
  ap_disjoint t o : t ∈ ts → o ∈ os → ¬ (o ≤ t < o + 4);
}.

Lemma apart_nil lo hi : apart lo hi [] [].
Proof. split; try constructor. set_solver. Qed.

Lemma apart_weaken lo hi lo' hi' ts os : lo' ≤ lo → hi ≤ hi' → apart lo hi ts os → apart lo' hi' ts os.
Proof.
  intros Hl Hh [H1 H2 H3 H4].
  split; [eapply Forall_impl; [exact H1|]|eapply Forall_impl; [exact H2|]|done..]; simpl; lia.
Qed.

Lemma sorted_app {A} (R : A → A → Prop) l1 l2 :
  StronglySorted R l1 → StronglySorted R l2 → (∀ x y, x ∈ l1 → y ∈ l2 → R x y) → StronglySorted R (l1 ++ l2).
Proof.
  induction 1 as [|x l1 _ IH Hx]; intros H2 H; simpl; [done|]. constructor.
  - apply IH; [done|]. set_solver.
  - apply Forall_app_2; [done|]. apply Forall_forall. set_solver.
Qed.

Lemma apart_app lo mid hi ts1 os1 ts2 os2 :
  apart lo mid ts1 os1 → apart mid hi ts2 os2 → lo ≤ mid ≤ hi → apart lo hi (ts1 ++ ts2) (os1 ++ os2).
Proof.
  intros H1 H2 Hm. pose proof (apart_weaken lo mid lo hi _ _ ltac:(lia) ltac:(lia) H1) as [A1 A2 A3 A4].
  pose proof (apart_weaken mid hi lo hi _ _ ltac:(lia) ltac:(lia) H2) as [B1 B2 B3 B4].
  destruct H1 as [T1 S1 _ _], H2 as [T2 S2 _ _]. rewrite Forall_forall in T1, S1, T2, S2. split.
  - by apply Forall_app_2.
  - by apply Forall_app_2.
  - apply sorted_app; [done|done|]. intros o o' Ho Ho'.
    specialize (S1 _ Ho). specialize (S2 _ Ho'). unfold slot_before. lia.
  - intros t o [Ht|Ht]%elem_of_app [Ho|Ho]%elem_of_app; [by apply A4| | |by apply B4].
    + specialize (T1 _ Ht). specialize (S2 _ Ho). lia.
    + specialize (T2 _ Ht). specialize (S1 _ Ho). lia.
Qed.

Lemma walk_elements_apart els base row end_ :
  Forall (λ e, ∀ base ts os, ref_walk (pel_ty e) base row = Some (ts, os) →
    apart base (base + lt_size (pel_ty e)) ts os) els →
  Forall (λ e, good (pel_ty e)) els → ∀ cur ts os, 0 ≤ cur → chained cur els end_ →
  walk_list (λ e, ref_walk (pel_ty e) (base + pel_offset e) row) els = Some (ts, os) →
  apart (base + cur) (base + end_) ts os.
Proof.
  intros IH Hg. induction IH as [|e els He _ IH]; intros cur ts os Hcur Hch Hw.
  { injection Hw as <- <-. apply apart_nil. }
  apply Forall_cons in Hg as [Hge Hg]. destruct Hch as [Ho Hch].
  apply walk_app_Some in Hw as (ts1 & os1 & ts2 & os2 & H1 & H2 & -> & ->).
  pose proof (lt_size_aligned _ Hge) as [Hs _]. pose proof (is_align_bounds _ (lt_align_ok _ Hge)) as Hab.
  pose proof (align_to_spec cur _ (ltac:(lia) : 0 < lt_align (pel_ty e))) as [Hal _].
  destruct (chained_placed _ _ Hg (pel_offset e + lt_size (pel_ty e)) ltac:(lia) Hch) as (_ & _ & _ & Hend).
  apply (apart_app _ (base + pel_offset e + lt_size (pel_ty e))); [|replace (base + _ + _) with
    (base + (pel_offset e + lt_size (pel_ty e))) by lia|lia].
  - eapply apart_weaken; [| |by apply He]; lia.
  - by apply IH; [|lia|..].
Qed.

Lemma walk_apart ty row : good ty → ∀ base ts os,
  ref_walk ty base row = Some (ts, os) → apart base (base + lt_size ty) ts os.
Proof.
  induction ty as [l vs po IH|l es IH|p|v] using layout_nested_ind; intros Hg base ts os Hw.
  - destruct Hg as (Hal & -> & _ & Hsz & _ & Hall). pose proof (is_align_bounds _ Hal). unfold lt_size. simpl in *.
    unfold offset_of_tag in *. rewrite Z.add_0_r in Hw. destruct (row !! Z.to_nat base) as [tag|]; [|done].
    apply walk_tag_Some in Hw as (ts1 & (v & Hv & Hw)%walk_nth_Some & ->).
    pose proof (list_elem_of_lookup_2 _ _ _ Hv) as Hin.
    rewrite Forall_forall in IH. destruct (all_list_elem _ _ _ Hall Hin) as (Hgv & _ & Hsv).
    apply (IH v Hin Hgv) in Hw. apply (apart_app _ (base + ly_align l) _ [base] []); [|by eapply apart_weaken; [| |done]; lia|lia].
    split; [|constructor..|set_solver]. constructor; [lia|constructor].
  - destruct Hg as (Hal & (end_ & Hch & Hend) & _ & _ & Hall). pose proof (is_align_bounds _ Hal).
    pose proof (align_to_spec end_ (ly_align l) ltac:(lia)). unfold lt_size. simpl in *.
    apply all_list_Forall in Hall. eapply (walk_elements_apart _ _ _ end_) in Hw; [| | |by apply Z.le_refl|done].
    + eapply apart_weaken; [| |done]; lia.
    + apply Forall_forall. intros e He. rewrite Forall_forall in IH, Hall. intros. apply IH; [done| |done]. by apply Hall.
    + eapply Forall_impl; [done|]. by intros ? [].
  - injection Hw as <- <-. apply apart_nil.
  - injection Hw as <- <-. change (lt_size (LVarLen v)) with 4.
    split; [constructor| |repeat constructor|set_solver]. constructor; [lia|constructor].
Qed.

(** Fixed types have no references. *)
Lemma walk_fixed ty : good ty → ly_fixed (layout ty) = true → ∀ base row ts os,
  ref_walk ty base row = Some (ts, os) → os = [].
Proof.
  induction ty as [l vs po IH|l es IH|p|v] using layout_nested_ind; intros Hg Hf base row ts os Hw; [| | |done].
  - destruct Hg as (_ & _ & _ & _ & Hfx & Hall). simpl in *. rewrite Hfx in Hf.
    destruct (row !! _) as [tag|]; [|done].
    apply walk_tag_Some in Hw as (ts1 & (v & Hv & Hw)%walk_nth_Some & ->).
    pose proof (list_elem_of_lookup_2 _ _ _ Hv) as Hin. rewrite Forall_forall in IH.
    eapply IH; [done|by apply (all_list_elem _ _ _ Hall)| |done].
    eapply forallb_forall in Hf; [done|by apply list_elem_of_In].
  - destruct Hg as (_ & _ & _ & Hfx & Hall). simpl in *. rewrite Hfx in Hf. clear Hfx.
    revert ts os Hw. induction IH as [|e es He _ IHes]; intros ts os Hw; [by injection Hw as <- <-|].
    simpl in *. apply andb_prop in Hf as [Hf1 Hf2]. destruct Hall as [[Hge _] Hall].
    apply walk_app_Some in Hw as (ts1 & os1 & ts2 & os2 & H1 & H2 & -> & ->).
    by rewrite (He Hge Hf1 _ _ _ _ H1), (IHes Hall Hf2 _ _ H2).
  - by injection Hw as <- <-.
Qed.

(** ** The visitor of a row type *)

(** The references of a row, as its type and its tags say. *)
Definition row_walk (rt : RowTypeLayout) (row : list byte) : Walk := ref_walk (row_product rt) 0 row.

(** The code before its trailing jumps are removed. *)
Definition visitor_code (rt : RowTypeLayout) : list Insn :=
  compile_tree (product_type_to_rose_tree algebraic_type_to_rose_tree
                  (ly_align (row_layout rt)) (row_elements rt) 0).1 [].

Lemma row_walk_apart rt row ts os :
  good_row rt → row_walk rt row = Some (ts, os) → apart 0 (row_size rt) ts os.
Proof.
  intros [G1 G2 G3 (end_ & Hch & Hend) G5 G6 _ _] Hw.
  eapply (walk_elements_apart (row_elements rt) 0 row end_) in Hw; [| |done|by apply Z.le_refl|done].
  - eapply apart_weaken; [| |done]; lia.
  - eapply Forall_impl; [exact G6|]. intros e He base ts' os'. by apply walk_apart.
Qed.

Lemma sorted_slots rs os :
  Forall (λ o, 0 ≤ o ∧ o + 4 ≤ rs) os → StronglySorted slot_before os → slots_ok rs os.
Proof.
  intros Hf. induction 1 as [|o os _ IH Ho]; simpl; [done|]. apply Forall_cons in Hf as [H1 H2].
  split; [done|]. split; [|by apply IH]. eapply Forall_impl; [exact Ho|]. intros o' H. by left.
Qed.

Lemma row_runs rt row ts os :
  good_row rt → row_walk rt row = Some (ts, os) →
  len (visitor_code rt) ≤ u16_MAX →
  runs (insns (row_type_visitor rt)) (same_but os row) 0 os.
Proof.
  intros Hg Hw Hlen. pose proof (row_walk_apart _ _ _ _ Hg Hw) as [A1 A2 A3 A4].
  destruct Hg as [G1 G2 G3 (end_ & Hch & Hend) G5 G6 HM HaM]. unfold row_type_visitor, visitor_code in *.
  destruct (ly_fixed (row_layout rt)) eqn:Hf.
  { assert (os = []) as ->; [|by constructor]. unfold row_walk, row_product in Hw. cbn [ref_walk] in Hw.
    clear -Hw G5 G6. revert ts os Hw. induction G6 as [|e es He _ IH]; intros ts os Hw; [by injection Hw|].
    cbn in G5. symmetry in G5. apply andb_prop in G5 as [F1 F2].
    apply walk_app_Some in Hw as (ts1 & os1 & ts2 & os2 & H1 & H2 & -> & ->).
    by rewrite (walk_fixed _ He F1 _ _ _ _ H1), (IH (eq_sym F2) _ _ H2). }
  destruct (product_tree_ok (row_elements rt) end_ 0 (ly_align (row_layout rt))) as (tree & Ht & Hwa);
    [apply Forall_forall; intros; apply layout_tree_ok|done|apply Z.divide_0_r|lia|lia| |done|].
  { apply Forall_and. by split. }
  rewrite Ht in *. destruct (Hwa row ts os Hw) as (ts' & Htw & Hin). cbn [insns rose_tree_to_visitor_program fst] in *.
  destruct (remove_trailing_split (compile_tree tree [])) as (gs & Hgs & Hgo).
  eapply (runs_trim _ gs); [done|]. rewrite <-Hgs.
  pose proof (cp_runs _ (tree_compiles tree) [] (compile_tree tree []) (same_but os row) row ts' os []) as Hr.
  rewrite app_nil_r in Hr. apply Hr; [done|done|done| |by constructor].
  rewrite Forall_forall in A1. intros x Hx. apply Hin in Hx. pose proof (A1 x Hx). split; [lia|].
  intros row' [_ Hs]. apply Hs. intros o Ho. rewrite Z2Nat.id by lia. by apply A4.
Qed.

Lemma row_visitor_shape rt row ts os :
  good_row rt → row_walk rt row = Some (ts, os) →
  len (visitor_code rt) ≤ u16_MAX → len row = row_size rt →
  shape (row_size rt) (row_type_visitor rt) row os.
Proof.
  intros Hg Hw Hlen Hrow. pose proof (row_walk_apart _ _ _ _ Hg Hw) as [A1 A2 A3 A4]. split; [done|by apply sorted_slots|].
  pose proof (row_runs rt row ts os Hg Hw Hlen) as Hr.
  destruct (row_type_visitor rt) as [prog] eqn:Hprog. apply (runs_visits prog _ _ 0); [done|].
  unfold row_type_visitor in Hprog. unfold visitor_code, len in Hlen. destruct (ly_fixed (row_layout rt)).
  { injection Hprog as <-. done. }
  destruct (product_type_to_rose_tree _ _ _ _) as [tree cur]. injection Hprog as <-.
  destruct (remove_trailing_split (compile_tree tree [])) as (gs & Hgs & _).
  simpl in Hlen. rewrite Hgs, length_app in Hlen. lia.
Qed.

(** Rows that fit in a page. *)
Lemma good_row_size es rt :
  row_type_layout (E:=unit) es = Ok rt → forallb (λ e, no_refs (el_type e)) es = true →
  ty_size (TProduct es) ≤ PAGE_DATA_SIZE → good_row rt ∧ row_size_ok (row_size rt).
Proof.
  change PAGE_DATA_SIZE with 65472. intros Hrt Hnr Hlt.
  destruct (row_layout_ok (E:=unit) es Hnr ltac:(lia)) as (rt' & Hrt' & Hg & _ & Hs).
  rewrite Hrt in Hrt'. injection Hrt' as <-. split; [done|]. destruct Hg as [G1 G2 G3 _ _ _ _ _].
  unfold MIN_ROW_SIZE, MIN_ROW_ALIGN in *. split; [done| |done]. change PAGE_END with 65472.
  apply Z.mod_divide in G3 as [k Hk]; lia.
Qed.

(** C33. The compiled visitor finds the references.  For every row type whose
    program has at most 65535 instructions and every row of it whose tags
    are valid, the program visits exactly the references that walking the
    layout along the tags gives, whatever the bytes of the references
    themselves are; they are in order, disjoint and inside of the row. *)
Theorem row_visitor_correct es rt row ts os :
  forallb (λ e, no_refs (el_type e)) es = true → ty_size (TProduct es) ≤ PAGE_DATA_SIZE →
  row_type_layout (E:=unit) es = Ok rt → len (visitor_code rt) ≤ u16_MAX →
  len row = row_size rt → row_walk rt row = Some (ts, os) →
  (∀ row', same_but os row row' → visit_var_len (E:=unit) (row_type_visitor rt) row' = Ok os) ∧
  Forall (λ o, 0 ≤ o ∧ o + 4 ≤ row_size rt) os ∧ StronglySorted slot_before os.
Proof.
  intros Hnr Hlt Hrt Hlen Hrow Hw. destruct (good_row_size es rt Hrt Hnr Hlt) as [Hg Hrs].
  pose proof (row_walk_apart _ _ _ _ Hg Hw) as [_ A2 A3 _].
  pose proof (row_visitor_shape rt row ts os Hg Hw Hlen Hrow) as [S1 S2 S3]. split; [|done].
  intros row' Hs. apply (visit_var_len_ok (row_size rt) Hrs). split; [|done|].
  - destruct Hs as [Hl _]. by rewrite Hl.
  - eapply visits_mono; [|exact S3]. intros row'' Hs'. by eapply same_but_trans.
Qed.

Module Examples.
(** The row type of the examples of layouts, with a string present. *)
Definition row_ex : list byte := replicate 24 x00.

Lemma row_visitor_correct_witness :
  ∃ rt, row_type_layout (E:=unit) Layout.Examples.row_ty = Ok rt ∧
    visit_var_len (E:=unit) (row_type_visitor rt) row_ex = Ok [4; 8].
Proof.
  eexists. split; [vm_compute; reflexivity|].
  eapply (row_visitor_correct Layout.Examples.row_ty _ row_ex [2] [4; 8]);
    try (vm_compute; reflexivity); try (vm_compute; discriminate). apply same_but_refl.
Defined.
End Examples.
