(* ===== verification/BflatnTo.v ===== *)
(** * Writing rows to pages (crates/table/src/bflatn_to.rs)

    A row value is written in the BFLATN format: the fixed part in the cell of
    the row, strings and arrays as var-len objects.  On an error the objects
    allocated so far and the cell are given back. *)

From Stdlib Require Import ZArith Lia.
From S2P Require Import Prelude Buffer Sats Bsatn Mem Indexes VarLen BlobStore Page Pages Layout.
Local Open Scope Z_scope.

Inductive BflatnError :=
| BDecode (e : DecodeError)
| WrongType (ty : AlgebraicType) (val : AlgebraicValue)
| BPageError (e : PageError)
| BPagesError (e : PagesError).

(** ** Writing BSATN into granules *)

(** [GranuleBufWriter]: the page that the iterator borrows, the granule being
    written with the number of bytes in it, and the granule that the
    iterator yields next. *)
Record GranuleBufWriter := { gw_page : Page; gw_buf : option (Z * Z); gw_next : Z }.

Local Open Scope result_scope.

(** [GranuleOffsetIter::next]: the granule and the one after it. *)
Definition granule_iter_next {E} (p : Page) (next_granule : Z) : result E (option (Z * Z)) :=
  if is_var_len_null next_granule then Ok None
  else
    let* granule := get_granule_ref p next_granule in
    Ok (Some (next_granule, header_next (granule_header granule))).

(** Where [put_slice] writes next. *)
Definition gw_target {E} (w : GranuleBufWriter) : result E (Z * Z * Z) :=
  let next_target :=
    let* next := granule_iter_next (gw_page w) (gw_next w) in
    match next with
    | Some (offset, next) => Ok (offset, 0, next)
    | None => Panic
    end in
  match gw_buf w with
  | Some (offset, start) => if start <? DATA_SIZE then Ok (offset, start, gw_next w) else next_target
  | None => next_target
  end.

(** Each round writes at least one byte, so the rounds are at most as many as
    the bytes. *)
Fixpoint gw_put_loop {E} (fuel : nat) (w : GranuleBufWriter) (slice : list byte) : result E GranuleBufWriter :=
  match slice, fuel with
  | [], _ => Ok w
  | _, O => OutOfFuel
  | _, S fuel =>
      let* ' (offset, start, next) := gw_target w in
      let capacity_remains := DATA_SIZE - start in
      let extend_len := Z.min capacity_remains (len slice) in
      let extend_with := take (Z.to_nat extend_len) slice in
      let rest := drop (Z.to_nat extend_len) slice in
      let* _ := get_granule_ref (gw_page w) offset in
      let* data := slice_write (pg_row_data (gw_page w)) (offset + GRANULE_HEADER_SIZE + start) extend_with in
      gw_put_loop fuel {| gw_page := set_row_data data (gw_page w);
                          gw_buf := Some (offset, start + extend_len); gw_next := next |} rest
  end.

#[export] Instance granule_writer : BufWriter GranuleBufWriter := λ E w slice,
  gw_put_loop (length slice) w slice.

Local Close Scope result_scope.
Local Open Scope st_scope.

(** ** The buffer of a row *)

(** [BflatnSerializedRowBuffer]: the page it borrows, in which the row has
    its place, the offset in the row, the number of objects allocated, and the
    large blobs to insert at the end. *)
Record SerRow := {
  sr_page : Page;
  sr_curr_offset : Z;
  sr_last_allocated : Z;
  sr_large_blobs : list (VarLenRef * list byte);
}.

Definition sr_set_page (p : Page) (s : SerRow) : SerRow :=
  {| sr_page := p; sr_curr_offset := sr_curr_offset s; sr_last_allocated := sr_last_allocated s;
     sr_large_blobs := sr_large_blobs s |}.
Definition sr_set_offset (o : Z) (s : SerRow) : SerRow :=
  {| sr_page := sr_page s; sr_curr_offset := o; sr_last_allocated := sr_last_allocated s;
     sr_large_blobs := sr_large_blobs s |}.

Abbreviation ser := (st SerRow BflatnError) (only parsing).

(** An operation on the page. *)
Definition on_row_page {A} (m : st Page PageError A) : ser A := λ s,
  let '(r, p) := m (sr_page s) in
  (match r with Ok a => Ok a | Err e => Err (BPageError e) | Panic => Panic | OutOfFuel => OutOfFuel end,
   sr_set_page p s).

Section row.
(** The place of the row. *)
Context (fixed_offset fixed_row_size : Z).

Definition write_bytes (bytes : list byte) : ser unit :=
  let! data := slift (λ s, fixed_write_row (sr_page s) fixed_offset fixed_row_size (sr_curr_offset s) bytes) in
  smodify (λ s, sr_set_offset (sr_curr_offset s + len bytes) (sr_set_page (set_row_data data (sr_page s)) s)).

Definition write_u8 (val : Z) : ser unit := write_bytes [byte_of_Z val].
Definition write_bool (val : bool) : ser unit := write_u8 (if val then 1 else 0).
(** [write_i8] to [write_u256]: the bytes of the two's complement. *)
Definition write_int (k : IntTy) (val : Z) : ser unit :=
  write_bytes (le_bytes (int_size k) (val mod 2 ^ int_bits k)).
(** [write_f32] and [write_f64]. *)
Definition write_float (k : FloatTy) (val : Z) : ser unit := write_bytes (le_bytes (float_size k) val).
Definition write_u16 (val : Z) : ser unit := write_bytes (le_bytes 2 val).

Definition write_var_len_ref (val : VarLenRef) : ser unit :=
  let! _ := write_u16 (length_in_bytes val) in
  let! _ := write_u16 (first_granule val) in
  smodify (λ s, {| sr_page := sr_page s; sr_curr_offset := sr_curr_offset s;
                   sr_last_allocated := sr_last_allocated s + 1; sr_large_blobs := sr_large_blobs s |}).

Definition defer_insert_large_blob (vlr : VarLenRef) (obj_bytes : list byte) : ser unit :=
  smodify (λ s, {| sr_page := sr_page s; sr_curr_offset := sr_curr_offset s;
                   sr_last_allocated := sr_last_allocated s;
                   sr_large_blobs := sr_large_blobs s ++ [(vlr, obj_bytes)] |}).

Definition write_string (val : list byte) : ser unit :=
  let! ' (vlr, in_blob) := on_row_page (alloc_for_slice val) in
  let! _ := if in_blob : bool then defer_insert_large_blob vlr val else sret tt in
  write_var_len_ref vlr.

(** The errors of [to_writer] and [encode] are unwrapped. *)
Definition write_av_bsatn (val : AlgebraicValue) : ser unit :=
  let! len_in_bytes := slift (λ _, bsatn_len val) in
  let! ' (vlr, in_blob) := on_row_page (alloc_for_len len_in_bytes) in
  let! _ := write_var_len_ref vlr in
  if in_blob : bool then
    let! bytes := slift (λ _, match to_vec val with Ok b => Ok b | _ => Panic end) in
    defer_insert_large_blob vlr bytes
  else
    let! w := slift (λ s, match to_writer {| gw_page := sr_page s; gw_buf := None;
                                             gw_next := first_granule vlr |} val with
                          | Ok w => Ok w | Err _ | Panic => Panic | OutOfFuel => OutOfFuel end) in
    smodify (sr_set_page (gw_page w)).

(** [write_value], [write_sum] and [write_product]. *)
Fixpoint write_value (ty : AlgebraicTypeLayout) (val : AlgebraicValue) {struct val} : ser unit :=
  let! curr_offset := sgets sr_curr_offset in
  let! _ := sassert (curr_offset =? align_to curr_offset (lt_align ty)) in
  match ty, val with
  | LSum _ variants payload_offset, VSum val => write_sum variants payload_offset val
  | LProduct _ elements, VProduct val => write_product elements val
  | LPrimitive PBool, VBool val => write_bool val
  | LPrimitive (PInt k), VInt k' val =>
      if decide (k = k') then write_int k val else sthrow (WrongType (algebraic_type ty) (VInt k' val))
  | LPrimitive (PFloat k), VFloat k' val =>
      if decide (k = k') then write_float k val else sthrow (WrongType (algebraic_type ty) (VFloat k' val))
  | LVarLen VlString, VString val => write_string val
  | LVarLen (VlArray _), VArray _ => write_av_bsatn val
  | _, _ => sthrow (WrongType (algebraic_type ty) val)
  end
with write_sum (variants : list SumTypeVariantLayout) (payload_offset : Z) (val : SumValue) {struct val} : ser unit :=
  match val with
  | MkSumValue tag value =>
      let! variant_ty := slift (λ _, vec_get variants tag) in
      let! curr_offset := sgets sr_curr_offset in
      let variant_offset := curr_offset + offset_of_variant_data payload_offset in
      let tag_offset := curr_offset + offset_of_tag in
      let! _ := smodify (sr_set_offset variant_offset) in
      let! _ := write_value (vl_ty variant_ty) value in
      let! _ := smodify (sr_set_offset tag_offset) in
      write_u8 tag
  end
with write_product (elements : list ProductTypeElementLayout) (val : ProductValue) {struct val} : ser unit :=
  match val with
  | MkProductValue vals =>
      if negb (Nat.eqb (length elements) (length vals))
      then sthrow (WrongType (TProduct (product_type elements)) (VProduct (MkProductValue vals)))
      else
        let! base_offset := sgets sr_curr_offset in
        (fix go elements vals {struct vals} : ser unit :=
           match elements, vals with
           | elt_ty :: elements, elt :: vals =>
               let! _ := smodify (sr_set_offset (base_offset + pel_offset elt_ty)) in
               let! _ := write_value (pel_ty elt_ty) elt in
               go elements vals
           | _, _ => sret tt
           end) elements vals
  end.
End row.

(** ** Rows *)

Section rows.
Context {B V : Type} {BsI : BlobStore B} {VisI : VarLenMembers V}.

(** [roll_back_var_len_allocations]: the first [n] references that the visitor
    yields for the row as it is. *)
Fixpoint roll_back (v : V) (it : vit) (row : list byte) (n : nat) : st Page PageError unit :=
  match n with
  | O => sret tt
  | S n =>
      let! ' (slot, it) := slift (λ _, match vit_next v it row with
                                       | Ok x => Ok x | Err _ | Panic => Panic | OutOfFuel => OutOfFuel end) in
      match slot with
      | None => sret tt
      | Some o =>
          let! vlr := slift (λ _, row_vlr row o) in
          let! _ := free_object_ignore_blob vlr in
          roll_back v it row n
      end
  end.

Definition roll_back_var_len_allocations (v : V) (fixed_offset fixed_row_size last_allocated : Z) :
    st Page PageError unit :=
  let! row := slift (λ p, fixed_get_row p fixed_offset fixed_row_size) in
  roll_back v (vit_start v) row (Z.to_nat last_allocated).

(** The number of bytes inserted in the blob store. *)
Fixpoint write_large_blobs (large_blob_insertions : list (VarLenRef * list byte)) : st (Page * B) PageError Z :=
  match large_blob_insertions with
  | [] => sret 0
  | (vlr, value) :: rest =>
      let! n := write_large_blob_hash_to_granule value vlr in
      let! ns := write_large_blobs rest in
      sret (n + ns)
  end.

(** [write_row_to_page]: the offset of the row and the bytes inserted in the
    blob store. *)
Definition lift_page {S A} (m : st S PageError A) : st S BflatnError A := λ s,
  let '(r, s) := m s in
  (match r with Ok a => Ok a | Err e => Err (BPageError e) | Panic => Panic | OutOfFuel => OutOfFuel end, s).

Definition write_row_to_page (v : V) (ty : RowTypeLayout) (val : ProductValue) :
    st (Page * B) BflatnError (Z * Z) :=
  let fixed_row_size := row_size ty in
  let! fixed_offset := lift_page (on_page (alloc_fixed_len fixed_row_size)) in
  λ '(p, bs),
    let '(r, s) := write_product fixed_offset fixed_row_size (row_elements ty) val
      {| sr_page := p; sr_curr_offset := 0; sr_last_allocated := 0; sr_large_blobs := [] |} in
    match r with
    | Ok _ =>
        (let! n := lift_page (write_large_blobs (sr_large_blobs s)) in
         sret (fixed_offset, n)) (sr_page s, bs)
    | Err e =>
        (let! _ := lift_page (on_page (roll_back_var_len_allocations v fixed_offset fixed_row_size (sr_last_allocated s))) in
         let! _ := lift_page (on_page (fixed_free fixed_offset fixed_row_size)) in
         sthrow e) (sr_page s, bs)
    | Panic => (Panic, (sr_page s, bs))
    | OutOfFuel => (OutOfFuel, (sr_page s, bs))
    end.

(** [write_row_to_pages]: the pointer to the row and the bytes inserted in the
    blob store. *)
Definition write_row_to_pages {Q} `{!PageQueue Q} (v : V) (ty : RowTypeLayout) (val : ProductValue)
    (squashed_offset : Z) : st (Pages * PagePool Q * B) BflatnError (Z * Z) :=
  let! num_granules := slift (λ _, required_var_len_granules_for_row val) in
  let! ' (page, res) := λ s,
    let '(r, s) := with_page_to_insert_row (row_size ty) num_granules (write_row_to_page v ty val) s in
    (match r with Ok a => Ok a | Err e => Err (BPagesError e) | Panic => Panic | OutOfFuel => OutOfFuel end, s) in
  match res with
  | Ok (offset, blob_inserted) => sret (RowPointer_new false page offset squashed_offset, blob_inserted)
  | Err e => sthrow e
  | Panic | OutOfFuel => spanic
  end.
End rows.
