(* ===== verification/BflatnFrom.v ===== *)
(** * Reading rows from pages (crates/table/src/bflatn_from.rs)

    The inverse of [BflatnTo.v]: a row of a page is serialized, here with
    [ValueSerializer] (crates/sats/src/algebraic_value/ser.rs), which gives
    the value. *)

From Stdlib Require Import ZArith Lia.
From S2P Require Import Prelude Buffer Sats Bsatn Mem Indexes VarLen BlobStore Page Pages Layout.
Local Open Scope Z_scope.
Local Open Scope result_scope.

(** ** [ValueSerializer] on chunks *)

(** [concat_byte_chunks] and [concat_byte_chunks_buf]: the copy is only defined
    if the chunks have the length that is claimed. *)
Definition concat_byte_chunks {E} (total_len : Z) (chunks : list (list byte)) : result E (list byte) :=
  if total_len =? len (concat chunks) then Ok (concat chunks) else Panic.

(** [serialize_bsatn]: the error is unwrapped without a check. *)
Definition value_of_bsatn {E} (ty : AlgebraicType) (bsatn : list byte) : result E AlgebraicValue :=
  match decode ty bsatn with
  | Ok (v, _) => Ok v
  | Err _ | Panic => Panic
  | OutOfFuel => OutOfFuel
  end.

Definition value_of_bsatn_in_chunks {E} (ty : AlgebraicType) (total_bsatn_len : Z)
    (chunks : list (list byte)) : result E AlgebraicValue :=
  let* bsatn := concat_byte_chunks total_bsatn_len chunks in value_of_bsatn ty bsatn.

Definition value_of_str_in_chunks {E} (total_len : Z) (string : list (list byte)) : result E AlgebraicValue :=
  let* bytes := concat_byte_chunks total_len string in Ok (VString bytes).

(** ** Reading *)

(** [read_from_bytes] of [n] bytes: the bytes and the offset after them. *)
Definition read_from_bytes {E} (bytes : list byte) (curr_offset n : Z) : result E (list byte * Z) :=
  let* b := slice bytes curr_offset n in Ok (b, curr_offset + n).

(** [from_le_bytes] at an integer type. *)
Definition int_from_le_bytes (k : IntTy) (b : list byte) : Z :=
  if int_signed k then wrap_s (int_bits k) (le_val b) else le_val b.

(** [read_tag]: the tag and the type of its variant. *)
Definition read_tag {E} (bytes : list byte) (curr_offset : Z) : result E Z :=
  let* b := vec_get bytes (curr_offset + offset_of_tag) in Ok (byte_to_Z b).

Section reading.
Context {B : Type} {BsI : BlobStore B} {E : Type}.
Context (bytes : list byte) (page : Page) (blob_store : B).

(** [vlr_blob_bytes]: the error of the blob store is unwrapped. *)
Definition vlr_blob_bytes (vlr : VarLenRef) : result E (list byte) :=
  let* var_iter := iter_var_len_object page (first_granule vlr) in
  match var_iter with
  | [] => Panic
  | granule :: _ =>
      let* hash := blob_hash granule in
      match retrieve_blob blob_store hash with Ok b => Ok b | _ => Panic end
  end.

Definition read_vlr (curr_offset : Z) : result E VarLenRef :=
  let* ' (b, _) := read_from_bytes bytes curr_offset 4 in Ok (peek_vlr b 0).

Definition serialize_string (curr_offset : Z) : result E AlgebraicValue :=
  let* vlr := read_vlr curr_offset in
  if is_large_blob vlr then
    let* blob := vlr_blob_bytes vlr in Ok (VString blob)
  else
    let* var_iter := iter_vlo_data page (first_granule vlr) in
    value_of_str_in_chunks (length_in_bytes vlr) var_iter.

Definition serialize_bsatn (ty : AlgebraicType) (curr_offset : Z) : result E AlgebraicValue :=
  let* vlr := read_vlr curr_offset in
  if is_large_blob vlr then
    let* blob := vlr_blob_bytes vlr in value_of_bsatn ty blob
  else
    let* var_iter := iter_vlo_data page (first_granule vlr) in
    value_of_bsatn_in_chunks ty (length_in_bytes vlr) var_iter.

Definition serialize_prim (p : PrimitiveType) (curr_offset : Z) : result E AlgebraicValue :=
  let* ' (b, _) := read_from_bytes bytes curr_offset (prim_size p) in
  Ok (match p with
      | PBool => VBool (negb (le_val b =? 0))
      | PInt k => VInt k (int_from_le_bytes k b)
      | PFloat k => VFloat k (le_val b)
      end).

(** [serialize_value], [serialize_product] and [serialize_sum] at an offset.
    The offset that the code leaves behind is not used: the parent sets it
    again for the next field. *)
Fixpoint serialize_value (ty : AlgebraicTypeLayout) (curr_offset : Z) : result E AlgebraicValue :=
  if negb (curr_offset =? align_to curr_offset (lt_align ty)) then Panic
  else
    match ty with
    | LSum _ variants payload_offset =>
        let* tag := read_tag bytes curr_offset in
        (fix go variants n : result E AlgebraicValue :=
           match variants, n with
           | [], _ => Panic
           | v :: _, O =>
               let* x := serialize_value (vl_ty v) (curr_offset + offset_of_variant_data payload_offset) in
               Ok (VSum (MkSumValue tag x))
           | _ :: variants, S n => go variants n
           end) variants (Z.to_nat tag)
    | LProduct _ elements =>
        let* vals :=
          (fix go elements : result E (list AlgebraicValue) :=
             match elements with
             | [] => Ok []
             | elem_ty :: elements =>
                 let* v := serialize_value (pel_ty elem_ty) (curr_offset + pel_offset elem_ty) in
                 let* vs := go elements in
                 Ok (v :: vs)
             end) elements in
        Ok (VProduct (MkProductValue vals))
    | LPrimitive p => serialize_prim p curr_offset
    | LVarLen VlString => serialize_string curr_offset
    | LVarLen (VlArray ty) => serialize_bsatn ty curr_offset
    end.

Definition serialize_elements : list ProductTypeElementLayout → Z → result E (list AlgebraicValue) :=
  λ elements my_offset,
  (fix go elements : result E (list AlgebraicValue) :=
     match elements with
     | [] => Ok []
     | elem_ty :: elements =>
         let* v := serialize_value (pel_ty elem_ty) (my_offset + pel_offset elem_ty) in
         let* vs := go elements in
         Ok (v :: vs)
     end) elements.
End reading.

(** [serialize_row_from_page]; the row itself is not checked for alignment. *)
Definition serialize_row_from_page {B} `{!BlobStore B} {E} (page : Page) (blob_store : B)
    (fixed_offset : Z) (ty : RowTypeLayout) : result E ProductValue :=
  let* fixed_bytes := page_get_row_data page fixed_offset (row_size ty) in
  let* vals := serialize_elements fixed_bytes page blob_store (row_elements ty) 0 in
  Ok (MkProductValue vals).

(** [try_page_and_offset] and [page_and_offset] of crates/table/src/table.rs,
    on the pages of a table. *)
Definition try_page_and_offset (ps : Pages) (ptr : Z) : option (Page * Z) :=
  match pages ps !! Z.to_nat (page_index ptr) with
  | Some page => Some (page, page_offset ptr)
  | None => None
  end.
Definition page_and_offset {E} (ps : Pages) (ptr : Z) : result E (Page * Z) :=
  match try_page_and_offset ps ptr with Some x => Ok x | None => Panic end.

(** [RowRef::to_product_value]. *)
Definition to_product_value {B} `{!BlobStore B} {E} (ps : Pages) (blob_store : B) (ty : RowTypeLayout) (ptr : Z) :
    result E ProductValue :=
  let* ' (page, offset) := page_and_offset ps ptr in
  serialize_row_from_page page blob_store offset ty.
