(* ===== verification/BflatnWriter.v ===== *)
(** * Writing BSATN into granules

    [GranuleBufWriter] is a lawful writer, so that an array is written to its
    granules as if its BSATN was one slice; and the granules that
    [alloc_for_len] allocates hold it exactly. *)

From Stdlib Require Import ZArith Lia.
From stdpp Require Import gmap gmultiset.
From S2P Require Import Prelude Buffer Mem Indexes BitSet VarLen BlobStore Page PageInv PageRows BflatnTo.
Local Open Scope Z_scope.

(** ** The laws of the writer *)

Lemma poke_app l a x y :
  0 ≤ a → a + len x + len y ≤ len l → poke (poke l a x) (a + len x) y = poke l a (x ++ y).
Proof.
  intros Ha Hl. pose proof (len_nonneg x). pose proof (len_nonneg y). apply list_eq. intros i.
  rewrite !lookup_poke by (rewrite ?len_app, ?len_poke; lia). rewrite length_app.
  rewrite Z2Nat.inj_add by lia. unfold len. rewrite Nat2Z.id.
  repeat case_decide; try lia; try done.
  - rewrite lookup_app_r by lia. f_equal. lia.
  - by rewrite lookup_app_l by lia.
Qed.

Lemma slice_write_app {E} l a x y :
  0 ≤ a → a + len x ≤ len l →
  slice_write (E:=E) l a (x ++ y) = slice_write (poke l a x) (a + len x) y.
Proof.
  intros Ha Hx. unfold slice_write, in_bounds. pose proof (len_nonneg x). pose proof (len_nonneg y).
  rewrite len_poke, len_app by done.
  destruct (Z.leb_spec (a + (len x + len y)) (len l)) as [Hle|Hgt].
  - rewrite (poke_app l a x y) by lia. rewrite !(proj2 (Z.leb_le _ _)) by lia. done.
  - rewrite (proj2 (Z.leb_gt (a + len x + len y) (len l))) by lia. by rewrite !andb_false_r.
Qed.

Lemma gw_target_start {E} w o s n : gw_target (E:=E) w = Ok (o, s, n) → s < 62.
Proof.
  unfold gw_target, granule_iter_next. destruct (gw_buf w) as [[o' s']|].
  - destruct (Z.ltb_spec s' DATA_SIZE) as [Hs|_]; [by intros [= _ <- _]|].
    destruct (is_var_len_null _); simpl; [done|]. destruct (get_granule_ref _ _); simpl; try done.
    intros [= _ <- _]. lia.
  - destruct (is_var_len_null _); simpl; [done|]. destruct (get_granule_ref _ _); simpl; try done.
    intros [= _ <- _]. lia.
Qed.

(** The state after writing [bs] at the target. *)
Definition gw_wrote (w : GranuleBufWriter) (o s n : Z) (data bs : list byte) : GranuleBufWriter :=
  {| gw_page := set_row_data data (gw_page w); gw_buf := Some (o, s + len bs); gw_next := n |}.

Lemma gw_loop_cons {E} fuel w slice :
  slice ≠ [] → (length slice ≤ fuel)%nat →
  gw_put_loop (E:=E) fuel w slice =
    rbind (gw_target w) (λ '(o, s, n),
      rbind (get_granule_ref (gw_page w) o) (λ _,
        let c := Z.to_nat (Z.min (62 - s) (len slice)) in
        rbind (slice_write (pg_row_data (gw_page w)) (o + 2 + s) (take c slice)) (λ data,
          gw_put_loop (Nat.pred fuel) (gw_wrote w o s n data (take c slice)) (drop c slice)))).
Proof.
  intros Hne Hf. destruct slice as [|b slice]; [done|]. destruct fuel as [|fuel]; [simpl in Hf; lia|].
  cbn [gw_put_loop]. destruct (gw_target w) as [[[o s] n]| | |] eqn:Ht; try done. cbn [rbind].
  apply gw_target_start in Ht. unfold DATA_SIZE, GRANULE_HEADER_SIZE. pose proof (len_nonneg (b :: slice)).
  destruct (get_granule_ref (gw_page w) o) as [g| | |]; try done. cbn [rbind].
  destruct (slice_write _ _ _) as [data| | |]; try done. cbn [rbind Nat.pred]. f_equal. unfold gw_wrote. do 3 f_equal.
  unfold len. rewrite length_take. unfold len, GRANULE_SIZE in *. lia.
Qed.

Lemma gw_put_fuel {E} n : ∀ fuel1 fuel2 w slice,
  (length slice ≤ n)%nat → (length slice ≤ fuel1)%nat → (length slice ≤ fuel2)%nat →
  gw_put_loop (E:=E) fuel1 w slice = gw_put_loop fuel2 w slice.
Proof.
  induction n as [|n IH]; intros fuel1 fuel2 w slice Hn H1 H2.
  { destruct slice; [|simpl in Hn; lia]. by destruct fuel1, fuel2. }
  destruct (decide (slice = [])) as [->|Hne]; [by destruct fuel1, fuel2|].
  rewrite !gw_loop_cons by done. destruct (gw_target w) as [[[o s] nx]| | |] eqn:Ht; try done. cbn [rbind].
  apply gw_target_start in Ht. destruct (get_granule_ref _ _); try done. cbn [rbind].
  assert (0 < length slice)%nat by (destruct slice; [done|simpl; lia]).
  destruct (slice_write _ _ _) as [data| | |]; try done. cbn [rbind].
  apply IH; rewrite length_drop; unfold len; lia.
Qed.

Lemma slice_write_cases {E} l a x :
  slice_write (E:=E) l a x = Ok (poke l a x) ∧ 0 ≤ a ∧ a + len x ≤ len l ∨
  slice_write (E:=E) l a x = Panic ∧ ∀ y, slice_write (E:=E) l a (x ++ y) = Panic.
Proof.
  unfold slice_write. destruct (in_bounds l a (len x)) eqn:Hb.
  - apply in_bounds_spec in Hb as (? & ? & ?). by left.
  - right. split; [done|]. intros y. destruct (in_bounds l a (len (x ++ y))) eqn:Hb'; [|done].
    apply in_bounds_spec in Hb' as (? & ? & Hle). rewrite len_app in Hle. pose proof (len_nonneg y).
    rewrite (proj2 (in_bounds_spec l a (len x))) in Hb; [done|]. split_and!; [done|apply len_nonneg|lia].
Qed.

Lemma gw_put_app_full {E} a b w o s n :
  b ≠ [] → gw_target (E:=E) w = Ok (o, s, n) → len a < 62 - s → (∃ g, get_granule_ref (E:=E) (gw_page w) o = Ok g) →
  gw_put_loop (E:=E) (length (a ++ b)) w (a ++ b) =
    rbind (slice_write (pg_row_data (gw_page w)) (o + 2 + s) a) (λ data,
      gw_put_loop (length b) (gw_wrote w o s n data a) b).
Proof.
  intros Hb Ht Hlt [g Hg]. rewrite gw_loop_cons by (try done; intros [_ ?]%app_eq_nil; done).
  rewrite Ht. cbn [rbind]. rewrite Hg. cbn [rbind]. pose proof (len_nonneg a). pose proof (len_nonneg b).
  assert (Hlb : 0 < len b) by (destruct b; [done|unfold len; simpl; lia]).
  set (cb := Z.to_nat (Z.min (62 - (s + len a)) (len b))).
  replace (Z.to_nat (Z.min (62 - s) (len (a ++ b)))) with (length a + cb)%nat by (rewrite len_app; unfold cb, len in *; lia).
  rewrite take_app_add, drop_app_add.
  destruct (slice_write_cases (E:=E) (pg_row_data (gw_page w)) (o + 2 + s) a) as [(-> & H1 & H2)|[-> Hp]].
  2: { by rewrite Hp. }
  cbn [rbind]. rewrite slice_write_app by done. rewrite (gw_loop_cons (length b)) by done.
  set (w1 := gw_wrote w o s n (poke (pg_row_data (gw_page w)) (o + 2 + s) a) a).
  assert (gw_target (E:=E) w1 = Ok (o, s + len a, n)) as ->.
  { unfold gw_target, w1, gw_wrote. cbn [gw_buf gw_next]. by rewrite (proj2 (Z.ltb_lt (s + len a) DATA_SIZE)) by (change DATA_SIZE with 62; lia). }
  cbn [rbind]. assert (∃ g, get_granule_ref (E:=E) (gw_page w1) o = Ok g) as [g' ->].
  { unfold w1, gw_wrote. cbn [gw_page]. unfold get_granule_ref, get_ref in *.
    change (pg_fixed (set_row_data ?d ?p)) with (pg_fixed p). change (pg_row_data (set_row_data ?d ?p)) with d.
    destruct (_ && _); [|done]. unfold slice, in_bounds in *. rewrite len_poke by done. destruct (_ && _); [by eexists|done]. }
  cbn [rbind]. fold cb. unfold w1 at 1. cbn [gw_wrote gw_page].
  change (pg_row_data (set_row_data ?d ?p)) with d. rewrite Z.add_assoc.
  destruct (slice_write _ _ _) as [data| | |]; try done. cbn [rbind].
  assert (gw_wrote w o s n data (a ++ take cb b) = gw_wrote w1 o (s + len a) n data (take cb b)) as ->.
  { unfold gw_wrote, w1. cbn [gw_page gw_wrote]. f_equal. f_equal. f_equal. rewrite len_app. lia. }
  apply (gw_put_fuel (length b)); rewrite ?length_drop, ?length_app; lia.
Qed.

Lemma gw_put_app {E} n : ∀ a b w, (length a ≤ n)%nat →
  gw_put_loop (E:=E) (length (a ++ b)) w (a ++ b) =
    rbind (gw_put_loop (length a) w a) (λ w', gw_put_loop (length b) w' b).
Proof.
  induction n as [|n IH]; intros a b w Hn.
  { destruct a; [done|simpl in Hn; lia]. }
  destruct (decide (a = [])) as [->|Ha]; [done|]. destruct (decide (b = [])) as [->|Hb].
  { rewrite app_nil_r. destruct (gw_put_loop (length a) w a); done. }
  assert (Hla : 0 < len a) by (destruct a; [done|unfold len; simpl; lia]).
  rewrite (gw_loop_cons (length a)) by done.
  destruct (gw_target w) as [[[o s] nx]| | |] eqn:Ht;
    [|rewrite gw_loop_cons by (try done; intros [_ ?]%app_eq_nil; done); by rewrite Ht..].
  pose proof (gw_target_start _ _ _ _ Ht) as Hs. cbn [rbind].
  destruct (get_granule_ref (gw_page w) o) as [g| | |] eqn:Hg;
    [|rewrite gw_loop_cons by (try done; intros [_ ?]%app_eq_nil; done); rewrite Ht; cbn [rbind]; by rewrite Hg..].
  cbn [rbind]. destruct (Z.lt_ge_cases (len a) (62 - s)) as [Hlt|Hge].
  - rewrite (gw_put_app_full a b w o s nx) by eauto. rewrite Z.min_r by lia.
    unfold len at 1 2 3. rewrite !Nat2Z.id, firstn_all, drop_all.
    destruct (slice_write _ _ _); try done. cbn [rbind]. by destruct (Nat.pred (length a)).
  - rewrite gw_loop_cons by (try done; intros [_ ?]%app_eq_nil; done). rewrite Ht. cbn [rbind]. rewrite Hg. cbn [rbind].
    rewrite len_app. pose proof (len_nonneg b). rewrite !Z.min_l by lia. unfold len in *.
    rewrite take_app_le, drop_app_le by lia. destruct (slice_write _ _ _) as [data| | |]; try done. cbn [rbind].
    set (c := Z.to_nat (62 - s)). rewrite (gw_put_fuel (length (a ++ b)) _ (length (drop c a ++ b)))
      by (rewrite ?length_app, ?length_drop; lia).
    rewrite IH by (rewrite length_drop; lia).
    by rewrite (gw_put_fuel (length a) (Nat.pred (length a)) (length (drop c a))) by (rewrite ?length_drop; lia).
Qed.

#[export] Instance granule_writer_laws : BufWriterLaws GranuleBufWriter.
Proof.
  split; [done|]. intros E w a b. unfold put_slice, granule_writer. by rewrite (gw_put_app (length a)).
Qed.

(** ** The lengths of chunks *)

(** All chunks but the last are full. *)
Lemma chunks_of_shape fuel n l :
  (0 < n)%nat → l ≠ [] → (length l ≤ fuel)%nat →
  ∃ k last, map length (chunks_of fuel n l) = replicate k n ++ [last] ∧ (0 < last ≤ n)%nat ∧ length l = (k * n + last)%nat.
Proof.
  intros Hn. revert l. induction fuel as [|fuel IH]; intros l Hne Hf; [destruct l; [done|simpl in Hf; lia]|].
  assert (0 < length l)%nat by (destruct l; [done|simpl; lia]).
  destruct (decide (length l ≤ n)%nat) as [Hle|Hgt].
  - exists 0%nat, (length l). split; [|lia]. destruct l as [|b l]; [done|]. cbn [chunks_of].
    rewrite take_ge, drop_ge by done. by destruct fuel.
  - destruct (IH (drop n l)) as (k & last & Hk & Hl & Hlen).
    { intros Hd%(f_equal length). rewrite length_drop in Hd. simpl in Hd. lia. }
    { rewrite length_drop. lia. }
    exists (S k), last. rewrite length_drop in Hlen. split_and!; [|lia..].
    destruct l as [|b l]; [done|]. cbn [chunks_of map]. rewrite Hk. simpl replicate. cbn [app]. f_equal.
    rewrite length_take. lia.
Qed.

Lemma map_replicate {A C} (f : A → C) y l : Forall (λ x, f x = y) l → map f l = replicate (length l) y.
Proof. induction 1; simpl; congruence. Qed.

(** The lengths that [alloc_for_len] computes are those of the chunks, from the
    last one on. *)
Lemma chunk_lengths bs :
  bs ≠ [] →
  map (λ rev_idx, if (rev_idx =? 0) && negb (len bs mod 62 =? 0) then len bs mod 62 else 62)
    (seqZ 0 (div_ceil (len bs) 62)) = rev (map len (chunks bs)).
Proof.
  intros Hne. destruct (chunks_of_shape (length bs) 62 bs) as (k & last & Hk & Hl & Hlen); [lia|done|done|].
  assert (Hm : map len (chunks bs) = map Z.of_nat (replicate k 62%nat ++ [last])).
  { rewrite <-Hk. unfold chunks, len. by rewrite map_map. }
  rewrite Hm, map_app, rev_app_distr. cbn [map rev app].
  assert (Hc : div_ceil (len bs) 62 = Z.of_nat k + 1).
  { unfold div_ceil, len. rewrite Hlen. symmetry. apply (Z.div_unique _ _ _ (Z.of_nat last - 1)); lia. }
  rewrite Hc. rewrite (seqZ_cons 0) by lia. cbn [map]. f_equal.
  - rewrite Z.eqb_refl. cbn [andb]. unfold len. rewrite Hlen, Nat2Z.inj_add, Nat2Z.inj_mul, Z.add_comm.
    change (Z.of_nat 62) with 62. rewrite Z_mod_plus_full.
    destruct (decide (last = 62%nat)) as [->|]; [done|].
    rewrite Z.mod_small by lia. by rewrite (proj2 (Z.eqb_neq (Z.of_nat last) 0)) by lia.
  - rewrite <-map_rev. replace (Z.pred (Z.of_nat k + 1)) with (Z.of_nat k) by lia.
    rewrite (map_replicate _ 62), (map_replicate Z.of_nat 62).
    + by rewrite length_seqZ, length_rev, length_replicate, Nat2Z.id.
    + apply Forall_rev. apply Forall_replicate. done.
    + apply Forall_forall. intros x Hx%elem_of_seqZ. by rewrite (proj2 (Z.eqb_neq x 0)) by lia.
Qed.

(** ** Allocating and writing an array *)

Section array.
Context (rs : Z) (Hrs : row_size_ok rs).

Lemma alloc_for_len_small p fl P vl u bs :
  page_ok rs p fl P vl u → 0 < fx_last (pg_fixed p) → bs ≠ [] → len bs ≤ 992 →
  (bytes_to_granules (len bs)).1 ≤ avail p →
  ∃ c p' vl' chs,
    alloc_for_len (len bs) p =
      (Ok ({| length_in_bytes := len bs; first_granule := default 0 (head c) |}, false), p') ∧
    page_ok rs p' fl P vl' (c ++ u) ∧ granules_at (pg_row_data p') c chs ∧ map len chs = map len (chunks bs) ∧
    keeps p p' u ∧ avail p' = avail p - (bytes_to_granules (len bs)).1.
Proof using Hrs.
  intros H Hlast Hne Hbs Hav. pose proof (len_nonneg bs) as Hpos.
  set (cs := map (λ l, ([] : list byte, l)) (rev (map len (chunks bs)))).
  assert (Hcl : len cs = Z.of_nat (length (chunks bs))) by (unfold len, cs; by rewrite length_map, length_rev, length_map).
  assert (Hg : bytes_to_granules (len bs) = (len cs, false)) by (rewrite Hcl; by apply length_chunks).
  rewrite Hg in *. cbn [fst] in *.
  destruct (alloc_chunks_gen rs Hrs cs p fl P vl [] u []) as (c & p' & vl' & chs & Hr & H' & Hst & Hc & Hk & Ha); try done.
  { unfold cs. apply Forall_map, Forall_rev, Forall_map. eapply Forall_impl; [apply chunks_lengths|].
    intros ch Hch. cbn [fst snd] in *. change DATA_SIZE with 62 in Hch. unfold len in *. simpl. lia. }
  rewrite app_nil_r in Hc. exists c, p', vl', (rev chs). split_and!; try done.
  - unfold alloc_for_len, alloc_for_obj_common, has_enough_space_for. rewrite Hg.
    unfold sbind at 1, slift at 1. rewrite (num_granules_available_ok rs p fl P vl u) by done. cbn [rmap rbind].
    rewrite (proj2 (Z.leb_le _ (avail p))) by done. cbn [negb].
    assert (Hcs : map (λ rev_idx, ([] : list byte,
      if (rev_idx =? 0) && negb (len bs mod DATA_SIZE =? 0) then len bs mod DATA_SIZE else DATA_SIZE))
      (seqZ 0 (len cs)) = cs).
    { replace (len cs) with (div_ceil (len bs) 62).
      - unfold cs. rewrite <-chunk_lengths by done. by rewrite map_map.
      - unfold bytes_to_granules in Hg. change OBJECT_SIZE_BLOB_THRESHOLD with 992 in Hg.
        rewrite (proj2 (Z.ltb_ge 992 (len bs))) in Hg by done. by injection Hg. }
    rewrite Hcs. unfold sbind at 1, sassert.
    replace (len bs =? foldr Z.add 0 (map snd cs)) with true.
    + rewrite (sbind_Ok _ _ _ _ _ Hr). unfold sret. rewrite wrap_u_id; [done|]. unfold in_u. lia.
    + symmetry. apply Z.eqb_eq. pose proof (sum_chunk_lengths (chunks bs)) as Hs. rewrite concat_chunks in Hs.
      rewrite <-Hs. f_equal. unfold cs. rewrite !map_map, <-map_rev, map_map. done.
  - rewrite map_rev. replace (map len chs) with (rev (map len (chunks bs))); [apply rev_involutive|].
    assert (Hl : map snd cs = map len chs).
    { clear -Hst. induction Hst as [|x ch cs chs [Hx _] _ IH]; simpl; congruence. }
    rewrite <-Hl. unfold cs. rewrite map_map. simpl. by rewrite map_id.
Qed.

(** Writing one chunk to the next granule. *)
Lemma gw_put_chunk p fl P vl g c u ch next w b :
  gw_page w = p → page_ok rs p fl P vl (g :: c ++ u) → granule_at (pg_row_data p) g ch next →
  gw_next w = g → (gw_buf w = None ∨ ∃ o, gw_buf w = Some (o, 62)) → 0 < fx_last (pg_fixed p) → len b = len ch → b ≠ [] →
  ∃ w', (∀ E, put_slice (E:=E) w b = Ok w') ∧ page_ok rs (gw_page w') fl P vl (g :: c ++ u) ∧
    granule_at (pg_row_data (gw_page w')) g b next ∧ keeps p (gw_page w') (c ++ u) ∧ gw_next w' = next ∧
    gw_buf w' = Some (g, len b) ∧ avail (gw_page w') = avail p.
Proof using Hrs.
  intros <- H (Hc1 & Hc2 & Hc3 & Hc4) Hnx Hbuf Hlast Hlen Hne. set (p := gw_page w) in *.
  destruct (granule_cell _ _ _ _ _ _ g H ltac:(right; left)) as (G1 & G2 & G3 & G4).
  pose proof (page_bounds _ Hrs _ _ _ _ _ H) as (B1 & B2 & B3 & B4). change PAGE_END with 65472 in G3.
  assert (Hg : ∀ E, get_granule_ref (E:=E) p g = Ok (peek (pg_row_data p) g 64)).
  { intros E. unfold get_granule_ref. apply get_ref_Ok; change GRANULE_SIZE with 64; change PAGE_END with 65472; try done; lia. }
  assert (Ht : ∀ E, gw_target (E:=E) w = Ok (g, 0, next)).
  { intros E. assert (granule_iter_next (E:=E) p (gw_next w) = Ok (Some (g, next))) as Hn.
    { unfold granule_iter_next, is_var_len_null, VAR_LEN_NULL. rewrite Hnx, (proj2 (Z.eqb_neq g 0)) by lia.
      rewrite Hg. cbn [rbind]. unfold granule_header. rewrite peek_u16_peek, Z.add_0_r by lia. by rewrite Hc3. }
    unfold gw_target. fold p. rewrite Hn. by destruct Hbuf as [->|[o ->]]. }
  pose proof (len_nonneg b). set (d := poke (pg_row_data p) (g + 2) b).
  assert (Hd : len d = len (pg_row_data p)) by (apply len_poke; lia).
  destruct (granule_change_ok rs Hrs p fl P vl g (c ++ u) d H Hd) as [H' Hk].
  { intros a n Ha Han. apply peek_poke_ne; lia. }
  exists (gw_wrote w g 0 next d b). split_and!; try done.
  - intros E. unfold put_slice, granule_writer. rewrite gw_loop_cons by done. rewrite Ht. cbn [rbind]. fold p. rewrite Hg. cbn [rbind].
    rewrite Z.min_r by lia. unfold len at 1 2 3. rewrite Nat2Z.id, firstn_all, drop_all, Z.add_0_r.
    rewrite slice_write_Ok by lia. cbn [rbind]. by destruct (Nat.pred _).
  - change (pg_row_data (gw_page (gw_wrote w g 0 next d b))) with d. unfold granule_at, peek_u16, d.
    rewrite peek_poke_ne by lia. rewrite peek_poke_eq by (done || lia). rewrite Hlen.
    split_and!; try done.
Qed.

(** Chunks of which all but the last are full. *)
Fixpoint full_chunks (bss : list (list byte)) : Prop :=
  match bss with
  | [] => True
  | [b] => b ≠ []
  | b :: bss => len b = 62 ∧ full_chunks bss
  end.

Lemma gw_fill c : ∀ bss chs w fl P vl u,
  page_ok rs (gw_page w) fl P vl (c ++ u) → granules_at (pg_row_data (gw_page w)) c chs → 
  map len chs = map len bss → full_chunks bss → gw_next w = default 0 (head c) →
  (gw_buf w = None ∨ ∃ o, gw_buf w = Some (o, 62)) → 0 < fx_last (pg_fixed (gw_page w)) →
  ∃ w', (∀ E, put_slice (E:=E) w (concat bss) = Ok w') ∧ page_ok rs (gw_page w') fl P vl (c ++ u) ∧
    granules_at (pg_row_data (gw_page w')) c bss ∧ keeps (gw_page w) (gw_page w') u ∧
    avail (gw_page w') = avail (gw_page w).
Proof using Hrs.
  induction c as [|g c IH]; intros [|b bss] [|ch chs] w fl P vl u H Hg Hl Hfull Hnx Hbuf Hlast; try done.
  { exists w. split_and!; try done. }
  injection Hl as Hl1 Hl. destruct Hg as [Hg1 Hg].
  assert (Hb : b ≠ []).
  { destruct bss; [done|]. destruct Hfull as [Hf _]. by intros ->. }
  destruct (gw_put_chunk (gw_page w) fl P vl g c u ch (default 0 (head c)) w b)
    as (w1 & Hw1 & H1 & Hg1' & Hk1 & Hn1 & Hb1 & Ha1); try done.
  assert (Hfix : pg_fixed (gw_page w1) = pg_fixed (gw_page w)) by apply (kp_fixed _ _ _ Hk1).
  assert (Hgc : granules_at (pg_row_data (gw_page w1)) c chs).
  { eapply granules_at_frame; [|exact Hg]. intros x Hx.
    destruct (granule_cell _ _ _ _ _ _ x H) as (X1 & X2 & _); [right; apply elem_of_app; left; by right|].
    split; [lia|]. apply (kp_granules _ _ _ Hk1). apply elem_of_app. by left. }
  assert (Hsp : ∀ E, put_slice (E:=E) w (concat (b :: bss)) = put_slice w1 (concat bss)).
  { intros E. simpl concat. rewrite put_slice_app, Hw1. done. }
  destruct bss as [|b' bss].
  { exists w1. destruct chs; [|done]. destruct c; [|done]. split_and!; try done. }
  destruct Hfull as [Hf62 Hfull].
  destruct (IH (b' :: bss) chs w1 fl P vl (g :: u)) as (w2 & Hw2 & H2 & Hg2 & Hk2 & Ha2); try done.
  - eapply page_ok_perm; [|exact H1]. solve_Permutation.
  - right. exists g. by rewrite Hb1, Hf62.
  - by rewrite Hfix.
  - exists w2. split_and!.
    + intros E. by rewrite Hsp, Hw2.
    + eapply page_ok_perm; [|exact H2]. solve_Permutation.
    + split; [|done]. eapply granule_at_frame; [|by apply (kp_granules _ _ _ Hk2); left|done].
      destruct (granule_cell _ _ _ _ _ _ g H ltac:(right; left)) as (G1 & G2 & _). lia.
    + eapply keeps_trans; [|eapply keeps_weaken; [|exact Hk1]|eapply keeps_weaken; [|exact Hk2]]; [done|..];
        intros x Hx; [apply elem_of_app; by right|by right].
    + lia.
Qed.
End array.
