(* ===== verification/BflatnRepr.v ===== *)
(** * What the bytes of a row say

    [repr] relates the bytes of a row with a value of its type, the places of
    the references in it and the var-len objects they stand for.  A
    row that represents a value is visited as its references say, and reads
    as the value when the objects read as those of the value. *)

From Stdlib Require Import ZArith Lia.
From stdpp Require Import sets list.
From S2P Require Import Prelude Buffer Sats Bsatn Mem Indexes VarLen BlobStore Page Layout RowTypeVisitor BflatnTo BflatnFrom.
Local Open Scope Z_scope.

(** ** Values of a layout *)

(** The bytes of a value of a primitive type. *)
Inductive prim_value : PrimitiveType → AlgebraicValue → list byte → Prop :=
| pv_bool b : prim_value PBool (VBool b) [byte_of_Z (if b then 1 else 0)]
| pv_int k z : int_range k z → prim_value (PInt k) (VInt k z) (le_bytes (int_size k) (z mod 2 ^ int_bits k))
| pv_float k z : float_range k z → prim_value (PFloat k) (VFloat k z) (le_bytes (float_size k) z).

(** The object of a value of a var-len type. *)
Inductive vl_value : VarLenType → AlgebraicValue → list byte → Prop :=
| vv_string s : string_ok s → vl_value VlString (VString s) s
| vv_array t a bs :
    typed [] (TArray t) (VArray a) → contains_refs t = false → bsatn (VArray a) = Some bs →
    vl_value (VlArray (TArray t)) (VArray a) bs.

(** The row represents the value at [base]; its references are at [offs] and
    its objects are [objs]. *)
Inductive repr (row : list byte) : Z → AlgebraicTypeLayout → AlgebraicValue → list Z → list (list byte) → Prop :=
| repr_prim base p v bs : prim_value p v bs → peek row base (prim_size p) = bs → repr row base (LPrimitive p) v [] []
| repr_vl base t v ob : vl_value t v ob → repr row base (LVarLen t) v [base] [ob]
| repr_product base l els vals offs objs :
    reprs row base els vals offs objs → repr row base (LProduct l els) (VProduct (MkProductValue vals)) offs objs
| repr_sum base l vars po tag var v offs objs :
    in_u 8 tag → row !! Z.to_nat base = Some (byte_of_Z tag) → vars !! Z.to_nat tag = Some var →
    repr row (base + po) (vl_ty var) v offs objs →
    repr row base (LSum l vars po) (VSum (MkSumValue tag v)) offs objs
with reprs (row : list byte) : Z → list ProductTypeElementLayout → list AlgebraicValue → list Z → list (list byte) → Prop :=
| reprs_nil base : reprs row base [] [] [] []
| reprs_cons base e els v vals offs1 objs1 offs2 objs2 :
    repr row (base + pel_offset e) (pel_ty e) v offs1 objs1 → reprs row base els vals offs2 objs2 →
    reprs row base (e :: els) (v :: vals) (offs1 ++ offs2) (objs1 ++ objs2).

Scheme repr_mut := Minimality for repr Sort Prop
  with reprs_mut := Minimality for reprs Sort Prop.
Combined Scheme repr_reprs_ind from repr_mut, reprs_mut.

Lemma repr_length row :
  (∀ base ty v offs objs, repr row base ty v offs objs → length offs = length objs) ∧
  (∀ base els vals offs objs, reprs row base els vals offs objs → length offs = length objs).
Proof. apply repr_reprs_ind; intros; try done. rewrite !length_app. congruence. Qed.

(** What is represented has an encoding. *)
Lemma repr_encodes row :
  (∀ base ty v offs objs, repr row base ty v offs objs → is_Some (bsatn v)) ∧
  (∀ base els vals offs objs, reprs row base els vals offs objs → is_Some (bsatn_list bsatn vals)).
Proof.
  apply repr_reprs_ind.
  - intros base p v bs [] _; by eexists.
  - intros base t v ob [s [_ Hs]|]; [|by eexists]. unfold fits_u32 in Hs. cbn. unfold bsatn_bytes, len_prefixed. cbn.
    rewrite (proj2 (Z.leb_le _ _)) by done. by eexists.
  - done.
  - intros base l vars po tag var v offs objs _ _ _ _ [b Hb]. cbn. rewrite Hb. by eexists.
  - by eexists.
  - intros base e els v vals offs1 objs1 offs2 objs2 _ [b1 H1] _ [b2 H2]. cbn. rewrite H1. cbn. rewrite H2. by eexists.
Qed.

(** ** Visiting *)

Lemma repr_walks row :
  (∀ base ty v offs objs, repr row base ty v offs objs → ∃ ts, ref_walk ty base row = Some (ts, offs)) ∧
  (∀ base els vals offs objs, reprs row base els vals offs objs →
    ∃ ts, walk_list (λ e, ref_walk (pel_ty e) (base + pel_offset e) row) els = Some (ts, offs)).
Proof.
  apply repr_reprs_ind.
  - intros. by eexists.
  - intros. by eexists.
  - intros base l els vals offs objs _ [ts Hts]. by exists ts.
  - intros base l vars po tag var v offs objs Htag Hrow Hvar _ [ts Hts].
    exists (base :: ts). simpl. unfold offset_of_tag. rewrite Z.add_0_r, Hrow, byte_to_of_Z.
    rewrite Z.mod_small by exact Htag. by rewrite (proj2 (walk_nth_Some _ _ _ _) (ex_intro _ var (conj Hvar Hts))).
  - intros. by eexists.
  - intros base e els v vals offs1 objs1 offs2 objs2 _ [ts1 H1] _ [ts2 H2].
    exists (ts1 ++ ts2). simpl. by rewrite H1, H2.
Qed.

(** ** Rows that agree on the bytes of the value *)

Definition agree (lo hi : Z) (row row' : list byte) : Prop :=
  ∀ i, lo ≤ Z.of_nat i < hi → row' !! i = row !! i.

Lemma agree_weaken lo hi lo' hi' row row' : lo ≤ lo' → hi' ≤ hi → agree lo hi row row' → agree lo' hi' row row'.
Proof. intros Hl Hh H i Hi. apply H. lia. Qed.

Lemma agree_peek lo hi row row' a n :
  lo ≤ a → a + n ≤ hi → 0 ≤ a → agree lo hi row row' → peek row' a n = peek row a n.
Proof. intros H1 H2 H3 H. apply peek_ext. intros i Hi. apply H. lia. Qed.

Lemma repr_agree row row' :
  (∀ base ty v offs objs, repr row base ty v offs objs → good ty → 0 ≤ base →
    agree base (base + lt_size ty) row row' → repr row' base ty v offs objs) ∧
  (∀ base els vals offs objs, reprs row base els vals offs objs → Forall (λ e, good (pel_ty e)) els → 0 ≤ base →
    ∀ cur end_, 0 ≤ cur → chained cur els end_ → agree (base + cur) (base + end_) row row' →
    reprs row' base els vals offs objs).
Proof.
  apply repr_reprs_ind.
  - intros base p v bs Hp Hb _ H0 Hag. econstructor; [done|]. rewrite <-Hb. eapply (agree_peek base (base + prim_size p)); [lia|lia|done|exact Hag].
  - intros. by constructor.
  - intros base l els vals offs objs _ IH Hg H0 Hag. destruct Hg as (Hal & (end_ & Hch & Hend) & _ & _ & Hall).
    pose proof (is_align_bounds _ Hal). pose proof (align_to_spec end_ (ly_align l) ltac:(lia)).
    constructor. apply (IH ltac:(apply all_list_Forall; eapply all_list_impl; [|exact Hall]; by intros ? [])
      H0 0 end_); [lia|done|]. eapply agree_weaken; [| |exact Hag]; unfold lt_size; simpl; lia.
  - intros base l vars po tag var v offs objs Htag Hrow Hvar _ IH Hg H0 Hag.
    destruct Hg as (Hal & -> & _ & Hsz & _ & Hall). pose proof (is_align_bounds _ Hal).
    destruct (all_list_elem _ _ _ Hall (list_elem_of_lookup_2 _ _ _ Hvar)) as (Hgv & _ & Hsv).
    pose proof (lt_size_aligned _ Hgv) as [Hs0 _].
    unfold lt_size at 1 in Hag. simpl in Hag. econstructor; [done| |done|].
    + rewrite <-Hrow. apply Hag. lia.
    + apply IH; [done|lia|]. eapply agree_weaken; [| |exact Hag]; lia.
  - intros. constructor.
  - intros base e els v vals offs1 objs1 offs2 objs2 _ IH1 _ IH2 Hg H0 cur end_ Hcur [Ho Hch] Hag.
    apply Forall_cons in Hg as [Hge Hg]. pose proof (is_align_bounds _ (lt_align_ok _ Hge)).
    pose proof (lt_size_aligned _ Hge) as [Hs _].
    pose proof (align_to_spec cur _ (ltac:(lia) : 0 < lt_align (pel_ty e))) as [Hal _].
    destruct (chained_placed _ _ Hg (pel_offset e + lt_size (pel_ty e)) ltac:(lia) Hch) as (_ & _ & _ & Hend).
    constructor.
    + apply IH1; [done|lia|]. eapply agree_weaken; [| |exact Hag]; lia.
    + eapply IH2; [done|done| |done|]; [lia|]. eapply agree_weaken; [| |exact Hag]; lia.
Qed.

(** ** Reading *)

(** ** Induction over values in their places *)

Lemma serialize_value_aligned ty base :
  (lt_align ty | base) → (base =? align_to base (lt_align ty)) = true.
Proof. intros Hd. rewrite align_to_id by done. apply Z.eqb_refl. Qed.

Section placed.
Context (row : list byte).
Context (P : Z → AlgebraicTypeLayout → AlgebraicValue → list Z → list (list byte) → Prop).
Context (Ps : Z → list ProductTypeElementLayout → list AlgebraicValue → list Z → list (list byte) → Prop).

(** The value is aligned and inside of the row. *)
Definition placed (base : Z) (ty : AlgebraicTypeLayout) : Prop :=
  0 ≤ base ∧ (base =? align_to base (lt_align ty)) = true ∧ base + lt_size ty ≤ len row.

Context (Hprim : ∀ base p v bs, prim_value p v bs → peek row base (prim_size p) = bs → placed base (LPrimitive p) →
  P base (LPrimitive p) v [] []).
Context (Hvl : ∀ base t v ob, vl_value t v ob → placed base (LVarLen t) → P base (LVarLen t) v [base] [ob]).
Context (Hproduct : ∀ base l els vals offs objs, Ps base els vals offs objs → placed base (LProduct l els) →
  P base (LProduct l els) (VProduct (MkProductValue vals)) offs objs).
Context (Hsum : ∀ base l vars po tag var v offs objs,
  in_u 8 tag → row !! Z.to_nat base = Some (byte_of_Z tag) → vars !! Z.to_nat tag = Some var →
  P (base + po) (vl_ty var) v offs objs → placed base (LSum l vars po) →
  P base (LSum l vars po) (VSum (MkSumValue tag v)) offs objs).
Context (Hnil : ∀ base, Ps base [] [] [] []).
Context (Hcons : ∀ base e els v vals offs1 objs1 offs2 objs2,
  P (base + pel_offset e) (pel_ty e) v offs1 objs1 → Ps base els vals offs2 objs2 → length offs1 = length objs1 →
  Ps base (e :: els) (v :: vals) (offs1 ++ offs2) (objs1 ++ objs2)).

Lemma repr_placed_ind :
  (∀ base ty v offs objs, repr row base ty v offs objs → good ty → 0 ≤ base → (lt_align ty | base) →
    base + lt_size ty ≤ len row → P base ty v offs objs) ∧
  (∀ base els vals offs objs, reprs row base els vals offs objs →
    ∀ M cur end_, Forall (λ e, good (pel_ty e)) els → Forall (λ e, lt_align (pel_ty e) ≤ M) els →
    is_align M → (M | base) → 0 ≤ base → 0 ≤ cur → chained cur els end_ → base + end_ ≤ len row →
    Ps base els vals offs objs).
Proof using Hprim Hvl Hproduct Hsum Hnil Hcons.
  assert (Hpl : ∀ base ty, 0 ≤ base → (lt_align ty | base) → base + lt_size ty ≤ len row → placed base ty).
  { intros base ty H0 Hal Hl. split_and!; [done|by apply serialize_value_aligned|done]. }
  apply repr_reprs_ind.
  - intros base pt v b Hv Hb _ H0 Hal Hl. eapply Hprim; eauto.
  - intros base t v ob Hv _ H0 Hal Hl. apply Hvl; eauto.
  - intros base l els vals offs objs _ IH Hg H0 Hal Hl. apply Hproduct; [|by apply Hpl].
    destruct Hg as (Ha & (end_ & Hch & Hend) & _ & _ & Hall). pose proof (is_align_bounds _ Ha).
    pose proof (align_to_spec end_ (ly_align l) ltac:(lia)). unfold lt_size in Hl. simpl in Hl.
    apply all_list_Forall in Hall. apply (IH (ly_align l) 0 end_); try done; try lia.
    + eapply Forall_impl; [exact Hall|]. by intros ? [].
    + eapply Forall_impl; [exact Hall|]. by intros ? [].
  - intros base l vars po tag var v offs objs Htag Hrow Hvar _ IH Hg H0 Hal Hl. eapply Hsum; try done; [|by apply Hpl].
    destruct Hg as (Ha & -> & _ & Hsz & _ & Hall). pose proof (is_align_bounds _ Ha).
    destruct (all_list_elem _ _ _ Hall (list_elem_of_lookup_2 _ _ _ Hvar)) as (Hgv & Hav & Hsv).
    unfold lt_size in Hl. simpl in Hl. unfold lt_align in Hal. simpl in Hal.
    apply IH; [done|lia| |unfold lt_size in *; lia].
    pose proof (is_align_divide _ _ (lt_align_ok _ Hgv) Ha Hav). apply Z.divide_add_r; [|done]. by trans (ly_align l).
  - intros. apply Hnil.
  - intros base e els v vals offs1 objs1 offs2 objs2 Hrepr IH1 _ IH2 M cur end_ Hg HaM HM HMb H0 Hcur [Ho Hch] Hl.
    apply Forall_cons in Hg as [Hge Hg]. apply Forall_cons in HaM as [Hae HaM].
    pose proof (lt_align_ok _ Hge) as Ha. pose proof (is_align_bounds _ Ha). pose proof (lt_size_aligned _ Hge) as [Hs _].
    pose proof (align_to_spec cur _ (ltac:(lia) : 0 < lt_align (pel_ty e))) as [Hal Hdv].
    destruct (chained_placed _ _ Hg (pel_offset e + lt_size (pel_ty e)) ltac:(lia) Hch) as (_ & _ & _ & Hend).
    apply Hcons; [| |by eapply (proj1 (repr_length row))].
    + apply IH1; [done|lia| |lia]. apply Z.divide_add_r; [|by rewrite Ho]. trans M; [by apply is_align_divide|done].
    + apply (IH2 M (pel_offset e + lt_size (pel_ty e)) end_); try done. lia.
Qed.
End placed.

Section reading.
Context {B : Type} {BsI : BlobStore B} {E : Type}.
Context (row : list byte) (p : Page) (bs : B).

(** The reference at [k] leads to the object. *)
Definition reads_obj (k : Z) (ob : list byte) : Prop :=
  let r := peek_vlr row k in
  if is_large_blob r then vlr_blob_bytes (E:=E) p bs r = Ok ob
  else iter_vlo_data (E:=E) p (first_granule r) = Ok (chunks ob) ∧ length_in_bytes r = len ob.

Lemma prim_value_len p' v b : prim_value p' v b → len b = prim_size p'.
Proof. destruct 1; unfold len; simpl; by rewrite ?length_le_bytes. Qed.

Lemma int_from_le_bytes_ok k z :
  int_range k z → int_from_le_bytes k (le_bytes (int_size k) (z mod 2 ^ int_bits k)) = z.
Proof.
  intros Hz. unfold int_from_le_bytes, int_range, int_bits in *. rewrite le_val_le_bytes, Zmod_mod.
  pose proof (int_size_pos k). destruct (int_signed k).
  - by apply wrap_s_of_mod; [lia|].
  - by apply Z.mod_small.
Qed.

Lemma serialize_prim_ok pt v b base :
  prim_value pt v b → 0 ≤ base → base + prim_size pt ≤ len row → peek row base (prim_size pt) = b →
  serialize_prim (E:=E) row pt base = Ok v.
Proof.
  intros Hv H0 Hl Hb. unfold serialize_prim, read_from_bytes.
  pose proof (is_align_bounds _ (prim_align pt)). rewrite slice_Ok by lia. cbn [rbind]. rewrite Hb.
  destruct Hv as [b'|k z Hz|k z Hz].
  - rewrite le_val_1, byte_to_of_Z. by destruct b'.
  - by rewrite int_from_le_bytes_ok.
  - rewrite le_val_le_bytes, Z.mod_small by exact Hz. done.
Qed.

Lemma concat_byte_chunks_ok ob : concat_byte_chunks (E:=E) (len ob) (chunks ob) = Ok ob.
Proof. unfold concat_byte_chunks. by rewrite concat_chunks, Z.eqb_refl. Qed.

Lemma read_vlr_ok base : 0 ≤ base → base + 4 ≤ len row → read_vlr (E:=E) row base = Ok (peek_vlr row base).
Proof.
  intros H0 Hl. unfold read_vlr, read_from_bytes. rewrite slice_Ok by lia. cbn [rbind].
  by rewrite peek_vlr_peek, Z.add_0_r by lia.
Qed.

Lemma value_of_bsatn_ok t a b :
  typed [] (TArray t) (VArray a) → contains_refs t = false → bsatn (VArray a) = Some b →
  value_of_bsatn (E:=E) (TArray t) b = Ok (VArray a).
Proof.
  intros Ht Hr Hb. pose proof (ev_value (VArray a) [] (TArray t) Ht) as (b' & Hb' & n & Hn).
  rewrite Hb in Hb'. injection Hb' as <-. unfold value_of_bsatn.
  rewrite <-(app_nil_r b). rewrite (decode_enough (TArray t) (VArray a) b [] n); [done|done|].
  intros m rest Hm. by apply Hn.
Qed.

Lemma serialize_vl_ok t v ob base :
  vl_value t v ob → 0 ≤ base → base + 4 ≤ len row → reads_obj base ob →
  match t with
  | VlString => serialize_string (E:=E) row p bs base = Ok v
  | VlArray ty => serialize_bsatn (E:=E) row p bs ty base = Ok v
  end.
Proof.
  intros Hv H0 Hl Hob. unfold reads_obj in Hob.
  destruct Hv as [s Hs|t a b Ht Hr Hb]; unfold serialize_string, serialize_bsatn;
    rewrite read_vlr_ok by lia; cbn [rbind]; destruct (is_large_blob _).
  - by rewrite Hob.
  - destruct Hob as [-> ->]. cbn [rbind]. unfold value_of_str_in_chunks. by rewrite concat_byte_chunks_ok.
  - rewrite Hob. cbn [rbind]. by apply value_of_bsatn_ok.
  - destruct Hob as [-> ->]. cbn [rbind]. unfold value_of_bsatn_in_chunks. rewrite concat_byte_chunks_ok.
    cbn [rbind]. by apply value_of_bsatn_ok.
Qed.

Lemma repr_reads :
  (∀ base ty v offs objs, repr row base ty v offs objs → good ty → 0 ≤ base → (lt_align ty | base) →
    base + lt_size ty ≤ len row → Forall2 reads_obj offs objs →
    serialize_value (E:=E) row p bs ty base = Ok v) ∧
  (∀ base els vals offs objs, reprs row base els vals offs objs →
    ∀ M cur end_, Forall (λ e, good (pel_ty e)) els → Forall (λ e, lt_align (pel_ty e) ≤ M) els →
    is_align M → (M | base) → 0 ≤ base → 0 ≤ cur → chained cur els end_ → base + end_ ≤ len row →
    Forall2 reads_obj offs objs → serialize_elements (E:=E) row p bs els base = Ok vals).
Proof.
  pose proof (repr_placed_ind row
    (λ base ty v offs objs, Forall2 reads_obj offs objs → serialize_value (E:=E) row p bs ty base = Ok v)
    (λ base els vals offs objs, Forall2 reads_obj offs objs → serialize_elements (E:=E) row p bs els base = Ok vals)) as H.
  destruct H as [H1 H2]; [..|split; [intros; by eapply H1|intros; by eapply H2]].
  - intros base pt v b Hv Hb (H0 & Hal & Hl) _. cbn [serialize_value]. rewrite Hal. by eapply serialize_prim_ok.
  - intros base t v ob Hv (H0 & Hal & Hl) [Hob _]%Forall2_cons. cbn [serialize_value]. rewrite Hal.
    cbn [negb]. change (lt_size (LVarLen t)) with 4 in Hl. pose proof (serialize_vl_ok t v ob base Hv H0 Hl Hob). by destruct t.
  - intros base l els vals offs objs IH (H0 & Hal & Hl) Hobs. cbn [serialize_value]. rewrite Hal. cbn [negb].
    specialize (IH Hobs). unfold serialize_elements in IH. by rewrite IH.
  - intros base l vars po tag var v offs objs Htag Hrow Hvar IH (H0 & Hal & Hl) Hobs. cbn [serialize_value]. rewrite Hal.
    cbn [negb]. unfold read_tag, offset_of_tag, offset_of_variant_data.
    rewrite Z.add_0_r, (vec_get_Ok _ _ (byte_of_Z tag)) by done. cbn [rbind].
    rewrite byte_to_of_Z, Z.mod_small by exact Htag. specialize (IH Hobs).
    clear -Hvar IH. revert Hvar. generalize (Z.to_nat tag). induction vars as [|v' vars IHv]; intros [|n]; simpl; try done.
    + intros [= ->]. by rewrite IH.
    + apply IHv.
  - done.
  - intros base e els v vals offs1 objs1 offs2 objs2 IH1 IH2 Hlen Hobs.
    apply Forall2_app_inv in Hobs as [Hob1 Hob2]; [|done]. unfold serialize_elements in *.
    rewrite IH1 by done. cbn [rbind]. by rewrite IH2.
Qed.
End reading.
