(* ===== verification/BflatnWrite.v ===== *)
(** * Writing a row represents its value

    What [write_value] does to the page: the cell of the row represents the
    value, the granules of its objects are allocated and hold them, and the
    rest of the page stays.  Large objects are written at the end. *)

From Stdlib Require Import ZArith Lia.
From stdpp Require Import gmap gmultiset.
From S2P Require Import Prelude Buffer Sats Bsatn Mem Indexes BitSet VarLen BlobStore Page PageInv PageRows PageRead Layout RowTypeVisitor BflatnTo BflatnFrom BflatnWriter BflatnRepr.
Local Open Scope Z_scope.

(** ** Values of a layout, with their objects *)

Inductive has_type : AlgebraicTypeLayout → AlgebraicValue → list (list byte) → Prop :=
| ht_prim p v bs : prim_value p v bs → has_type (LPrimitive p) v []
| ht_vl t v ob : vl_value t v ob → has_type (LVarLen t) v [ob]
| ht_product l els vals objs : has_types els vals objs → has_type (LProduct l els) (VProduct (MkProductValue vals)) objs
| ht_sum l vars po tag var v objs :
    in_u 8 tag → vars !! Z.to_nat tag = Some var → has_type (vl_ty var) v objs →
    has_type (LSum l vars po) (VSum (MkSumValue tag v)) objs
with has_types : list ProductTypeElementLayout → list AlgebraicValue → list (list byte) → Prop :=
| hts_nil : has_types [] [] []
| hts_cons e els v vals objs1 objs2 :
    has_type (pel_ty e) v objs1 → has_types els vals objs2 → has_types (e :: els) (v :: vals) (objs1 ++ objs2).

Scheme has_type_mut := Minimality for has_type Sort Prop
  with has_types_mut := Minimality for has_types Sort Prop.
Combined Scheme has_type_ind' from has_type_mut, has_types_mut.

Lemma has_types_length els vals objs : has_types els vals objs → length els = length vals.
Proof. revert vals objs. induction els as [|e els IH]; inversion 1; subst; simpl; f_equal; eauto. Qed.

(** ** Effects on the page *)

(** An object whose hash, if it is large, is not written yet. *)
Definition pobj_at (data : list byte) (c : list Z) (ob : list byte) (r : VarLenRef) : Prop :=
  if 992 <? len ob then ∃ g, c = [g] ∧ r = large_blob g
  else r = {| length_in_bytes := len ob; first_granule := default 0 (head c) |} ∧
       granules_at data c (chunks ob).

Lemma pobj_at_frame data data' c ob r :
  (∀ g, g ∈ c → 0 ≤ g ∧ peek data' g 64 = peek data g 64) → pobj_at data c ob r → pobj_at data' c ob r.
Proof.
  intros Hf. unfold pobj_at. destruct (992 <? len ob); [done|]. intros [-> Hg]. split; [done|].
  by eapply granules_at_frame.
Qed.

Lemma pobjs_frame data data' row row' offs cs objs :
  (∀ g, g ∈ concat cs → 0 ≤ g ∧ peek data' g 64 = peek data g 64) →
  (∀ k, k ∈ offs → peek_vlr row' k = peek_vlr row k) →
  Forall3 (λ k c ob, pobj_at data c ob (peek_vlr row k)) offs cs objs →
  Forall3 (λ k c ob, pobj_at data' c ob (peek_vlr row' k)) offs cs objs.
Proof.
  intros Hfr Hvlr. induction 1 as [|k c ob offs cs objs Hob _ IH]; [constructor|]. constructor.
  - rewrite Hvlr by set_solver. eapply pobj_at_frame; [|exact Hob]. intros g Hg. apply Hfr. simpl. set_solver.
  - apply IH; [|set_solver]. intros g Hg. apply Hfr. simpl. set_solver.
Qed.

(** The large objects, with their references. *)
Fixpoint deferred (row : list byte) (offs : list Z) (objs : list (list byte)) : list (VarLenRef * list byte) :=
  match offs, objs with
  | k :: offs, ob :: objs =>
      if 992 <? len ob then (peek_vlr row k, ob) :: deferred row offs objs else deferred row offs objs
  | _, _ => []
  end.

Lemma deferred_app row offs1 objs1 offs2 objs2 :
  length offs1 = length objs1 →
  deferred row (offs1 ++ offs2) (objs1 ++ objs2) = deferred row offs1 objs1 ++ deferred row offs2 objs2.
Proof.
  revert objs1. induction offs1 as [|k offs1 IH]; intros [|ob objs1]; simpl; try done.
  intros [= Hl]. rewrite IH by done. by destruct (992 <? len ob).
Qed.

Lemma deferred_ext row row' offs objs :
  (∀ k, k ∈ offs → peek_vlr row' k = peek_vlr row k) → deferred row' offs objs = deferred row offs objs.
Proof.
  revert objs. induction offs as [|k offs IH]; intros [|ob objs] H; simpl; try done.
  rewrite IH by set_solver. by rewrite H by set_solver.
Qed.

Section write.
Context (rs : Z) (Hrs : row_size_ok rs).
(** The place of the row, the free cells and the rows of the page. *)
Context (o : Z) (fl : list Z) (P : gset Z) (Ho : o ∈ P).

Definition row_of (p : Page) : list byte := peek (pg_row_data p) o rs.

(** The bytes of the row from [lo] to [hi] were written. *)
Record wrote (p p' : Page) (u : list Z) (lo hi : Z) (offs : list Z) (cs : list (list Z))
    (objs : list (list byte)) : Prop := {
  wr_page : ∃ vl', page_ok rs p' fl P vl' (concat cs ++ u);
  wr_below : agree 0 lo (row_of p) (row_of p');
  wr_above : agree hi rs (row_of p) (row_of p');
  wr_slots : Forall (λ k, lo ≤ k ∧ k + 4 ≤ hi) offs;
  wr_objs : Forall3 (λ k c ob, pobj_at (pg_row_data p') c ob (peek_vlr (row_of p') k)) offs cs objs;
  wr_keeps : keeps_row rs p p' u o;
  wr_avail : avail p' = avail p - total_granules objs;
}.

Lemma peek_vlr_agree lo hi row row' k :
  lo ≤ k → k + 4 ≤ hi → 0 ≤ k → agree lo hi row row' → peek_vlr row' k = peek_vlr row k.
Proof.
  intros H1 H2 H0 H. unfold peek_vlr, peek_u16.
  by rewrite !(agree_peek lo hi row row') by (lia || done).
Qed.

Lemma wrote_granule p p' u lo hi offs cs objs g :
  wrote p p' u lo hi offs cs objs → g ∈ concat cs ++ u → 0 ≤ g.
Proof using Hrs.
  intros [[vl H] _ _ _ _ _ _] Hg. destruct (granule_cell _ _ _ _ _ _ g H ltac:(by right)) as (G1 & G2 & _).
  pose proof (page_bounds _ Hrs _ _ _ _ _ H). lia.
Qed.

(** Writing disjoint parts one after the other. *)
Lemma wrote_trans p p1 p2 u l1 h1 l2 h2 lo hi offs1 cs1 objs1 offs2 cs2 objs2 :
  wrote p p1 u l1 h1 offs1 cs1 objs1 → wrote p1 p2 (concat cs1 ++ u) l2 h2 offs2 cs2 objs2 →
  0 ≤ lo → lo ≤ l1 ≤ h1 → lo ≤ l2 ≤ h2 → h1 ≤ hi ≤ rs → h2 ≤ hi → h1 ≤ l2 ∨ h2 ≤ l1 →
  wrote p p2 u lo hi (offs1 ++ offs2) (cs1 ++ cs2) (objs1 ++ objs2) ∧ agree l1 h1 (row_of p1) (row_of p2).
Proof using Hrs.
  clear Ho. intros W1 W2 H0 Hl1 Hl2 Hh1 Hh2 Hd. pose proof (λ g, wrote_granule _ _ _ _ _ _ _ _ g W1) as Hg0.
  destruct W1 as [[vl1 P1] B1 A1 S1 O1 K1 V1], W2 as [[vl2 P2] B2 A2 S2 O2 K2 V2].
  assert (Hag : agree l1 h1 (row_of p1) (row_of p2)).
  { destruct Hd as [Hd|Hd]; eapply agree_weaken; [| |exact B2| | |exact A2]; lia. }
  split; [|done]. split.
  - exists vl2. eapply page_ok_perm; [|exact P2]. rewrite concat_app. solve_Permutation.
  - intros i Hi. rewrite B2 by lia. apply B1. lia.
  - intros i Hi. rewrite A2 by lia. apply A1. lia.
  - apply Forall_app_2; [eapply Forall_impl; [exact S1|]|eapply Forall_impl; [exact S2|]]; simpl; lia.
  - apply Forall3_app; [|exact O2].
    eapply pobjs_frame; [| |exact O1].
    + intros g Hg. split; [apply Hg0; set_solver|]. apply (kr_granules _ _ _ _ _ K2). set_solver.
    + intros k Hk. rewrite Forall_forall in S1. specialize (S1 k Hk). eapply peek_vlr_agree; [| | |exact Hag]; lia.
  - eapply (keeps_row_trans _ _ _ _ u u); [done|exact K1|]. eapply keeps_row_weaken; [|exact K2]. set_solver.
  - rewrite total_granules_app. lia.
Qed.

Lemma wrote_nil p vl u lo hi : page_ok rs p fl P vl u → wrote p p u lo hi [] [] [].
Proof.
  intros H. split; try done; [by exists vl|constructor|]. unfold total_granules. simpl. lia.
Qed.

(** ** Bytes *)

Lemma fixed_write_row_any {E E'} p a n k bs d :
  fixed_write_row (E:=E) p a n k bs = Ok d → fixed_write_row (E:=E') p a n k bs = Ok d.
Proof. unfold fixed_write_row, slice_write. destruct (_ && _); [|done]. destruct (in_bounds _ _ _); [|done]. by intros [= <-]. Qed.

Lemma row_of_len p vl u : page_ok rs p fl P vl u → len (row_of p) = rs.
Proof using Hrs Ho. intros H. by eapply len_row. Qed.

Lemma wrote_poke p vl u d k bs :
  page_ok rs p fl P vl u → page_ok rs (set_row_data d p) fl P vl u → keeps_row rs p (set_row_data d p) u o →
  peek d o rs = poke (row_of p) k bs → 0 ≤ k → k + len bs ≤ rs →
  wrote p (set_row_data d p) u k (k + len bs) [] [] [].
Proof using Hrs Ho.
  intros H H' Hk Hd H0 Hl. pose proof (row_of_len p vl u H) as Hrl. pose proof (len_nonneg bs).
  split; try done; [by exists vl| | |constructor|].
  - intros i Hi. unfold row_of at 1. psimpl. rewrite Hd, lookup_poke by lia. rewrite decide_False; [done|]. unfold len in *. lia.
  - intros i Hi. unfold row_of at 1. psimpl. rewrite Hd, lookup_poke by lia. rewrite decide_False; [done|]. unfold len in *. lia.
  - change (avail (set_row_data d p)) with (avail p). unfold total_granules. simpl. lia.
Qed.

Lemma write_bytes_ok s vl u bytes :
  page_ok rs (sr_page s) fl P vl u → 0 ≤ sr_curr_offset s → sr_curr_offset s + len bytes ≤ rs →
  ∃ p', write_bytes o rs bytes s =
      (Ok tt, {| sr_page := p'; sr_curr_offset := sr_curr_offset s + len bytes;
                 sr_last_allocated := sr_last_allocated s; sr_large_blobs := sr_large_blobs s |}) ∧
    page_ok rs p' fl P vl u ∧ wrote (sr_page s) p' u (sr_curr_offset s) (sr_curr_offset s + len bytes) [] [] [] ∧
    peek (row_of p') (sr_curr_offset s) (len bytes) = bytes.
Proof using Hrs Ho.
  intros H H0 Hl. pose proof (row_of_len _ _ _ H) as Hrl.
  destruct (write_row_ok rs Hrs (sr_page s) fl P vl u o (sr_curr_offset s) bytes H Ho H0 Hl)
    as (d & Hd & H' & Hk & Hrow).
  exists (set_row_data d (sr_page s)). split_and!; try done.
  - unfold write_bytes, sbind, slift. by rewrite (fixed_write_row_any _ _ _ _ _ _ Hd).
  - by eapply wrote_poke.
  - unfold row_of. psimpl. rewrite Hrow. by apply peek_poke_eq; [|unfold row_of in Hrl; lia|].
Qed.

(** ** References *)

(** Writing a reference, without counting it. *)
Lemma write_ref_ok s vl u vlr :
  page_ok rs (sr_page s) fl P vl u → 0 ≤ sr_curr_offset s → sr_curr_offset s + 4 ≤ rs → vlr_ok vlr →
  ∃ p', write_var_len_ref o rs vlr s =
      (Ok tt, {| sr_page := p'; sr_curr_offset := sr_curr_offset s + 4;
                 sr_last_allocated := sr_last_allocated s + 1; sr_large_blobs := sr_large_blobs s |}) ∧
    page_ok rs p' fl P vl u ∧ wrote (sr_page s) p' u (sr_curr_offset s) (sr_curr_offset s + 4) [] [] [] ∧
    peek_vlr (row_of p') (sr_curr_offset s) = vlr.
Proof using Hrs Ho.
  intros H H0 Hl [Hv1 Hv2]. set (cur := sr_curr_offset s) in *.
  destruct (write_bytes_ok s vl u (le_bytes 2 (length_in_bytes vlr)) H) as (p1 & W1 & H1 & Wr1 & Pk1);
    [done|rewrite len_le_bytes; unfold cur in *; lia|]. rewrite len_le_bytes in *. fold cur in W1, Wr1, Pk1.
  destruct (write_bytes_ok {| sr_page := p1; sr_curr_offset := cur + 2; sr_last_allocated := sr_last_allocated s;
    sr_large_blobs := sr_large_blobs s |} vl u (le_bytes 2 (first_granule vlr)) H1) as (p2 & W2 & H2 & Wr2 & Pk2);
    cbn [sr_curr_offset] in *; [lia|rewrite len_le_bytes; lia|]. rewrite len_le_bytes in *. cbn [sr_page] in *.
  change (Z.of_nat 2) with 2 in *.
  destruct (wrote_trans _ _ _ _ _ _ _ _ cur (cur + 4) _ _ _ _ _ _ Wr1 Wr2) as [Wr Hag]; try lia.
  exists p2. split_and!; try done.
  - unfold write_var_len_ref, write_u16. rewrite (sbind_Ok _ _ _ _ _ W1), (sbind_Ok _ _ _ _ _ W2).
    unfold smodify. cbn [sr_page sr_curr_offset sr_last_allocated sr_large_blobs].
    by replace (cur + 2 + 2) with (cur + 4) by lia.
  - unfold peek_vlr, peek_u16. rewrite Pk2, (agree_peek cur (cur + 2) (row_of p1)), Pk1 by (lia || done).
    rewrite !le_val_le_bytes, !Z.mod_small by done. by destruct vlr.
Qed.

(** An allocation that was followed by writing the reference to it, and by
    changes of its granules only. *)
Lemma wrote_object p p1 p2 p3 vl1 vl3 u c ob vlr cur :
  page_ok rs p1 fl P vl1 (c ++ u) → keeps p p1 u → avail p1 = avail p - obj_granules ob →
  wrote p1 p2 (c ++ u) cur (cur + 4) [] [] [] → peek_vlr (row_of p2) cur = vlr →
  page_ok rs p2 fl P vl1 (c ++ u) → page_ok rs p3 fl P vl3 (c ++ u) → keeps p2 p3 u → avail p3 = avail p2 →
  pobj_at (pg_row_data p3) c ob vlr → 0 ≤ cur → cur + 4 ≤ rs →
  wrote p p3 u cur (cur + 4) [cur] [c] [ob] ∧ row_of p3 = row_of p2.
Proof using Hrs Ho.
  intros H1 K1 V1 [_ B2 A2 _ _ K2 V2] Hvlr H2 H3 K3 V3 Hob H0 Hl.
  assert (Hr1 : row_of p1 = row_of p).
  { apply (kp_rows _ _ _ K1); destruct (row_cell _ Hrs _ _ _ _ _ o H1 ltac:(by right)) as (? & ? & _); [lia|].
    by rewrite <-(kp_fixed _ _ _ K1). }
  assert (Hr3 : row_of p3 = row_of p2).
  { apply (kp_rows _ _ _ K3); destruct (row_cell _ Hrs _ _ _ _ _ o H2 ltac:(by right)) as (? & ? & _); lia. }
  split; [|done]. split.
  - exists vl3. cbn. by rewrite app_nil_r.
  - by rewrite Hr3, <-Hr1.
  - by rewrite Hr3, <-Hr1.
  - repeat constructor; lia.
  - repeat constructor. by rewrite Hr3, Hvlr.
  - eapply (keeps_row_trans _ _ _ _ u u); [done|by apply keeps_row_of|].
    eapply (keeps_row_trans _ _ _ _ u u); [done|eapply keeps_row_weaken; [|exact K2]; set_solver|by apply keeps_row_of].
  - unfold total_granules in *. simpl in *. lia.
Qed.

(** ** Strings *)

Lemma large_vlr_ok p vl g u : page_ok rs p fl P vl (g :: u) → vlr_ok (large_blob g).
Proof using Hrs.
  intros H. destruct (granule_cell _ _ _ _ _ _ g H ltac:(right; left)) as (G1 & G2 & G3 & _).
  pose proof (page_bounds _ Hrs _ _ _ _ _ H). change PAGE_END with 65472 in *.
  split; unfold in_u; simpl; [unfold LARGE_BLOB_SENTINEL, u16_MAX|]; lia.
Qed.

Lemma small_vlr_ok p vl c u (ob : list byte) :
  page_ok rs p fl P vl (c ++ u) → len ob ≤ 992 →
  vlr_ok {| length_in_bytes := len ob; first_granule := default 0 (head c) |}.
Proof using Hrs.
  intros H Hl. destruct (head_granule _ Hrs _ _ _ _ _ _ H). pose proof (len_nonneg ob).
  split; simpl; unfold in_u in *; lia.
Qed.

Lemma obj_granules_large (ob : list byte) : 992 < len ob → obj_granules ob = 1.
Proof.
  intros Hl. unfold obj_granules, bytes_to_granules. change OBJECT_SIZE_BLOB_THRESHOLD with 992.
  by rewrite (proj2 (Z.ltb_lt _ _)).
Qed.

Lemma alloc_slice_ok p vl u ob :
  page_ok rs p fl P vl u → obj_granules ob ≤ avail p →
  ∃ c p1 vl1 vlr, alloc_for_slice ob p = (Ok (vlr, 992 <? len ob), p1) ∧ page_ok rs p1 fl P vl1 (c ++ u) ∧
    pobj_at (pg_row_data p1) c ob vlr ∧ vlr_ok vlr ∧ keeps p p1 u ∧ avail p1 = avail p - obj_granules ob.
Proof using Hrs Ho.
  intros H Hav. pose proof (row_last_pos _ Hrs _ _ _ _ _ _ H Ho) as Hlast. unfold pobj_at.
  destruct (Z.ltb_spec 992 (len ob)) as [Hl|Hl].
  - rewrite obj_granules_large in * by done.
    destruct (alloc_for_obj_large rs Hrs p fl P vl u (len ob) (λ _, map (λ c, (c, len c)) (rev (chunks ob))) H Hlast Hl)
      as (g & p1 & vl1 & Ha & H1 & Hk & Hav1); [lia|].
    exists [g], p1, vl1, (large_blob g). split_and!; try done; [by eexists|by eapply large_vlr_ok].
  - destruct (alloc_for_slice_small rs Hrs p fl P vl u ob H Hlast Hl Hav) as (c & p1 & vl1 & Ha & H1 & Hg & Hk & Hav1).
    eexists c, p1, vl1, _. split_and!; try done. by eapply small_vlr_ok.
Qed.

(** What writing a value of a var-len type does. *)
Definition wrote_vl (s : SerRow) (m : st SerRow BflatnError unit) (u : list Z) (ob : list byte) : Prop :=
  let cur := sr_curr_offset s in
  ∃ p' c, m s =
      (Ok tt, {| sr_page := p'; sr_curr_offset := cur + 4; sr_last_allocated := sr_last_allocated s + 1;
                 sr_large_blobs := sr_large_blobs s ++ deferred (row_of p') [cur] [ob] |}) ∧
    wrote (sr_page s) p' u cur (cur + 4) [cur] [c] [ob].

Lemma write_string_ok s vl u ob :
  page_ok rs (sr_page s) fl P vl u → 0 ≤ sr_curr_offset s → sr_curr_offset s + 4 ≤ rs →
  obj_granules ob ≤ avail (sr_page s) → wrote_vl s (write_string o rs ob) u ob.
Proof using Hrs Ho.
  intros H H0 Hl Hav. destruct (alloc_slice_ok (sr_page s) vl u ob H Hav) as (c & p1 & vl1 & vlr & Ha & H1 & Hob & Hv & K1 & V1).
  unfold wrote_vl. set (cur := sr_curr_offset s) in *.
  set (s1 := {| sr_page := p1; sr_curr_offset := cur; sr_last_allocated := sr_last_allocated s;
    sr_large_blobs := sr_large_blobs s ++ if 992 <? len ob then [(vlr, ob)] else [] |}).
  destruct (write_ref_ok s1 vl1 (c ++ u) vlr) as (p2 & W2 & H2 & Wr2 & Pk2); try done.
  cbn [sr_page sr_curr_offset sr_last_allocated sr_large_blobs s1] in *.
  destruct (wrote_object (sr_page s) p1 p2 p2 vl1 vl1 u c ob vlr cur) as [Hw _]; try done.
  { eapply pobj_at_frame; [|exact Hob]. intros g Hg. split.
    - destruct (granule_cell _ _ _ _ _ _ g H1) as (G1 & G2 & _); [right; set_solver|].
      pose proof (page_bounds _ Hrs _ _ _ _ _ H1). lia.
    - destruct Wr2 as [_ _ _ _ _ K2 _]. apply (kr_granules _ _ _ _ _ K2). set_solver. }
  exists p2, c. split; [|done]. cbn [deferred]. rewrite Pk2.
  unfold write_string. rewrite (sbind_Ok _ _ _ (sr_set_page p1 s) (vlr, 992 <? len ob)).
  - rewrite (sbind_Ok _ _ _ s1 tt); [exact W2|]. unfold s1, sr_set_page. destruct (992 <? len ob); [done|].
    unfold sret. by rewrite app_nil_r.
  - unfold on_row_page. by rewrite Ha.
Qed.

(** ** Arrays *)

Lemma bsatn_array_nonempty a bs : bsatn (VArray a) = Some bs → bs ≠ [].
Proof.
  intros H ->. assert (Hp : ∀ n b, len_prefixed n b ≠ Some []).
  { intros n [b|]; unfold len_prefixed; simpl; [|done]. by destruct (_ <=? _). }
  destruct a; simpl in H; unfold bsatn_array in H; by apply Hp in H.
Qed.

Lemma to_writer_bsatn {W} {HW : BufWriter W} {HL : BufWriterLaws W} (w : W) v bs : bsatn v = Some bs → to_writer w v = put_slice w bs.
Proof. intros Hb. pose proof (writes_value v) as Hv. unfold writes in Hv. rewrite Hb in Hv. by apply Hv. Qed.

Lemma bsatn_len_ok {E} v bs : bsatn v = Some bs → bsatn_len (E:=E) v = Ok (len bs).
Proof. intros Hb. unfold bsatn_len, to_len. by rewrite (to_writer_bsatn _ v bs Hb). Qed.

Lemma full_chunks_chunks bs : full_chunks (chunks bs).
Proof.
  destruct (decide (bs = [])) as [->|Hne]; [done|].
  destruct (chunks_of_shape (length bs) 62 bs) as (k & last & Hk & Hl & _); [lia|done|done|].
  change (chunks bs) with (chunks_of (length bs) 62 bs). generalize dependent (chunks_of (length bs) 62 bs).
  intros l. revert k. induction l as [|b l IH]; intros k Hk; [done|]. destruct k as [|k]; simpl in Hk.
  - injection Hk as Hb Hl'. destruct l; [|done]. simpl. intros ->. simpl in Hb. lia.
  - injection Hk as Hb Hl'. destruct l as [|b' l]; [by destruct k|]. split; [unfold len; lia|by eapply IH].
Qed.

Lemma write_array_ok s vl u a ob :
  page_ok rs (sr_page s) fl P vl u → 0 ≤ sr_curr_offset s → sr_curr_offset s + 4 ≤ rs →
  bsatn (VArray a) = Some ob → obj_granules ob ≤ avail (sr_page s) →
  wrote_vl s (write_av_bsatn o rs (VArray a)) u ob.
Proof using Hrs Ho.
  intros H H0 Hl Hbs Hav. pose proof (row_last_pos _ Hrs _ _ _ _ _ _ H Ho) as Hlast.
  unfold wrote_vl. set (cur := sr_curr_offset s) in *.
  unfold write_av_bsatn. rewrite (sbind_Ok _ _ _ s (len ob)) by (unfold slift; by rewrite (bsatn_len_ok _ ob Hbs)).
  destruct (Z.le_gt_cases (len ob) 992) as [Hle|Hgt].
  - assert (Hnl : (992 <? len ob) = false) by by apply Z.ltb_ge.
    destruct (alloc_for_len_small rs Hrs (sr_page s) fl P vl u ob H Hlast (bsatn_array_nonempty _ _ Hbs) Hle Hav)
      as (c & p1 & vl1 & chs & Ha & H1 & Hg & Hch & K1 & V1).
    set (vlr := {| length_in_bytes := len ob; first_granule := default 0 (head c) |}) in *.
    destruct (write_ref_ok (sr_set_page p1 s) vl1 (c ++ u) vlr) as (p2 & W2 & H2 & Wr2 & Pk2); try done;
      [by eapply small_vlr_ok|]. cbn [sr_set_page sr_page sr_curr_offset sr_last_allocated sr_large_blobs] in *. fold cur in W2, Wr2, Pk2.
    assert (K2 : keeps_row rs p1 p2 (c ++ u) o) by apply Wr2.
    assert (Hg2 : granules_at (pg_row_data p2) c chs).
    { eapply granules_at_frame; [|exact Hg]. intros g Hgc.
      destruct (granule_cell _ _ _ _ _ _ g H1) as (G1 & G2 & _); [right; set_solver|].
      pose proof (page_bounds _ Hrs _ _ _ _ _ H1). split; [lia|]. apply (kr_granules _ _ _ _ _ K2). set_solver. }
    destruct (gw_fill rs Hrs c (chunks ob) chs {| gw_page := p2; gw_buf := None; gw_next := first_granule vlr |} fl P vl1 u)
      as (w & Hw & H3 & Hg3 & K3 & V3); try done; [apply full_chunks_chunks|by left| |].
    { simpl. by eapply row_last_pos. }
    rewrite concat_chunks in Hw. cbn [gw_page] in *.
    destruct (wrote_object (sr_page s) p1 p2 (gw_page w) vl1 vl1 u c ob vlr cur) as [Hwr Hrow]; try done.
    { unfold pobj_at. by rewrite Hnl. }
    exists (gw_page w), c. split; [|done].
    rewrite (sbind_Ok _ _ _ (sr_set_page p1 s) (vlr, false)) by (unfold on_row_page; by rewrite Ha).
    rewrite (sbind_Ok _ _ _ _ _ W2). cbn [deferred]. rewrite Hnl, app_nil_r.
    erewrite sbind_Ok; [|unfold slift; cbn [sr_page]; rewrite (to_writer_bsatn _ _ _ Hbs), Hw; reflexivity]. done.
  - assert (Hnl : (992 <? len ob) = true) by by apply Z.ltb_lt. rewrite obj_granules_large in Hav by done.
    destruct (alloc_for_obj_large rs Hrs (sr_page s) fl P vl u (len ob) (λ req_granules,
      map (λ rev_idx, ([], if (rev_idx =? 0) && negb (len ob mod DATA_SIZE =? 0) then len ob mod DATA_SIZE else DATA_SIZE))
        (seqZ 0 req_granules)) H Hlast Hgt)
      as (g & p1 & vl1 & Ha & H1 & K1 & V1); [lia|].
    destruct (write_ref_ok (sr_set_page p1 s) vl1 ([g] ++ u) (large_blob g)) as (p2 & W2 & H2 & Wr2 & Pk2); try done;
      [by eapply large_vlr_ok|]. cbn [sr_set_page sr_page sr_curr_offset sr_last_allocated sr_large_blobs] in *. fold cur in W2, Wr2, Pk2.
    destruct (wrote_object (sr_page s) p1 p2 p2 vl1 vl1 u [g] ob (large_blob g) cur) as [Hwr _]; try done.
    { by rewrite obj_granules_large. }
    { unfold pobj_at. rewrite Hnl. by eexists. }
    exists p2, [g]. split; [|done].
    rewrite (sbind_Ok _ _ _ (sr_set_page p1 s) (large_blob g, true)) by (unfold on_row_page, alloc_for_len; by rewrite Ha).
    rewrite (sbind_Ok _ _ _ _ _ W2). cbn [deferred]. rewrite Hnl, Pk2.
    erewrite sbind_Ok; [|unfold slift; rewrite (proj2 (to_vec_bsatn _ _) Hbs); reflexivity]. done.
Qed.

(** ** Values *)

(** What writing a value does. *)
Definition writes_repr (m : st SerRow BflatnError unit) (s : SerRow) (u : list Z) (lo hi : Z)
    (objs : list (list byte)) (R : list byte → list Z → Prop) : Prop :=
  ∃ s' offs cs, m s = (Ok tt, s') ∧ wrote (sr_page s) (sr_page s') u lo hi offs cs objs ∧ R (row_of (sr_page s')) offs ∧
    sr_last_allocated s' = sr_last_allocated s + len offs ∧
    sr_large_blobs s' = sr_large_blobs s ++ deferred (row_of (sr_page s')) offs objs.

Lemma writes_repr_bytes s vl u bytes hi (R : list byte → list Z → Prop) :
  page_ok rs (sr_page s) fl P vl u → 0 ≤ sr_curr_offset s → hi = sr_curr_offset s + len bytes → hi ≤ rs →
  (∀ row, peek row (sr_curr_offset s) (len bytes) = bytes → R row []) →
  writes_repr (write_bytes o rs bytes) s u (sr_curr_offset s) hi [] R.
Proof using Hrs Ho.
  intros H H0 -> Hl HR. destruct (write_bytes_ok s vl u bytes H H0 Hl) as (p' & Hw & H' & Wr & Pk).
  eexists _, [], []. split; [exact Hw|]. cbn [sr_page sr_last_allocated sr_large_blobs].
  split_and!; [done|by apply HR|unfold len; simpl; lia|by rewrite app_nil_r].
Qed.

Lemma write_prim_ok s vl u pt v b :
  page_ok rs (sr_page s) fl P vl u → 0 ≤ sr_curr_offset s → sr_curr_offset s + prim_size pt ≤ rs →
  (prim_size pt | sr_curr_offset s) → prim_value pt v b →
  writes_repr (write_value o rs (LPrimitive pt) v) s u (sr_curr_offset s) (sr_curr_offset s + prim_size pt) []
    (λ row offs, repr row (sr_curr_offset s) (LPrimitive pt) v offs []).
Proof using Hrs Ho.
  intros H H0 Hl Hal Hv. pose proof (prim_value_len _ _ _ Hv) as Hlb.
  assert (Hb : writes_repr (write_bytes o rs b) s u (sr_curr_offset s) (sr_curr_offset s + prim_size pt) []
    (λ row offs, repr row (sr_curr_offset s) (LPrimitive pt) v offs [])).
  { eapply writes_repr_bytes; [done|done|lia|lia|]. intros row Hrow. rewrite Hlb in Hrow. by econstructor. }
  destruct Hb as (s' & offs & cs & Hw & Hrest). exists s', offs, cs. split; [|exact Hrest]. rewrite <-Hw. clear Hw Hrest.
  assert (Has : (sr_curr_offset s =? align_to (sr_curr_offset s) (lt_align (LPrimitive pt))) = true).
  { by apply serialize_value_aligned. }
  destruct Hv as [b'|k z Hz|k z Hz]; cbn [write_value]; unfold sbind at 1, sgets; unfold sbind at 1, sassert; rewrite Has;
    rewrite ?decide_True by done; done.
Qed.

(** One write after another. *)
Lemma writes_repr_bind m1 m2 s u l1 h1 l2 h2 lo hi objs1 objs2 (R1 R2 R : list byte → list Z → Prop) :
  writes_repr m1 s u l1 h1 objs1 R1 →
  (∀ s1 vl u1, page_ok rs (sr_page s1) fl P vl u1 → avail (sr_page s1) = avail (sr_page s) - total_granules objs1 →
    writes_repr m2 s1 u1 l2 h2 objs2 R2) →
  0 ≤ lo → lo ≤ l1 ≤ h1 → lo ≤ l2 ≤ h2 → h1 ≤ hi ≤ rs → h2 ≤ hi → h1 ≤ l2 ∨ h2 ≤ l1 →
  (∀ row row' offs1 offs2, R1 row offs1 → agree l1 h1 row row' → R2 row' offs2 → R row' (offs1 ++ offs2)) →
  writes_repr (sbind m1 (λ _, m2)) s u lo hi (objs1 ++ objs2) R.
Proof using Hrs.
  clear Ho. intros (s1 & offs1 & cs1 & E1 & W1 & HR1 & La1 & Lb1) H2 H0 Hl1 Hl2 Hh1 Hh2 Hd HR.
  destruct (wr_page _ _ _ _ _ _ _ _ W1) as [vl1 P1].
  destruct (H2 s1 vl1 _ P1 (wr_avail _ _ _ _ _ _ _ _ W1)) as (s2 & offs2 & cs2 & E2 & W2 & HR2 & La2 & Lb2).
  destruct (wrote_trans _ _ _ _ _ _ _ _ lo hi _ _ _ _ _ _ W1 W2) as [W Hag]; try done.
  exists s2, (offs1 ++ offs2), (cs1 ++ cs2). split_and!.
  - by rewrite (sbind_Ok _ _ _ _ _ E1).
  - done.
  - by eapply HR.
  - rewrite len_app. lia.
  - pose proof (wr_slots _ _ _ _ _ _ _ _ W1) as Hs. rewrite Forall_forall in Hs.
    assert (Hlen : length offs1 = length objs1).
    { pose proof (wr_objs _ _ _ _ _ _ _ _ W1) as Hf. clear -Hf. induction Hf; simpl; congruence. }
    rewrite Lb2, Lb1, <-app_assoc, deferred_app by done. f_equal. f_equal. symmetry. apply deferred_ext.
    intros k Hk. specialize (Hs k Hk). eapply peek_vlr_agree; [| | |exact Hag]; lia.
Qed.

Lemma writes_repr_ext m s u lo hi lo' hi' objs (R R' : list byte → list Z → Prop) :
  writes_repr m s u lo hi objs R → lo' ≤ lo → hi ≤ hi' → (∀ row offs, R row offs → R' row offs) →
  writes_repr m s u lo' hi' objs R'.
Proof using.
  intros (s' & offs & cs & E & W & HR & Hla & Hlb) Hlo Hhi HRR. exists s', offs, cs. split_and!; auto.
  destruct W as [H1 H2 H3 H4 H5 H6 H7]. split; try done.
  - eapply agree_weaken; [| |exact H2]; lia.
  - eapply agree_weaken; [| |exact H3]; lia.
  - eapply Forall_impl; [exact H4|]. simpl. lia.
Qed.

(** The elements of a product, as [write_product] writes them. *)
Definition write_elements (base : Z) :=
  fix go (elements : list ProductTypeElementLayout) (vals : list AlgebraicValue) {struct vals} :
      st SerRow BflatnError unit :=
  match elements, vals with
  | elt_ty :: elements, elt :: vals =>
      sbind (smodify (sr_set_offset (base + pel_offset elt_ty))) (λ _,
      sbind (write_value o rs (pel_ty elt_ty) elt) (λ _, go elements vals))
  | _, _ => sret tt
  end.

Lemma write_value_start ty v s :
  (lt_align ty | sr_curr_offset s) →
  ∀ m : AlgebraicTypeLayout → AlgebraicValue → st SerRow BflatnError unit,
  sbind (sgets sr_curr_offset) (λ curr_offset,
    sbind (sassert (curr_offset =? align_to curr_offset (lt_align ty))) (λ _, m ty v)) s = m ty v s.
Proof using. intros Hal m. unfold sbind at 1, sgets; unfold sbind at 1, sassert. by rewrite serialize_value_aligned. Qed.

Lemma write_vl_ok s vl u t v ob :
  page_ok rs (sr_page s) fl P vl u → 0 ≤ sr_curr_offset s → sr_curr_offset s + 4 ≤ rs →
  (lt_align (LVarLen t) | sr_curr_offset s) → vl_value t v ob → obj_granules ob ≤ avail (sr_page s) →
  writes_repr (write_value o rs (LVarLen t) v) s u (sr_curr_offset s) (sr_curr_offset s + 4) [ob]
    (λ row offs, repr row (sr_curr_offset s) (LVarLen t) v offs [ob]).
Proof using Hrs Ho.
  intros H H0 Hl Hal Hv Hav.
  assert (Hw : wrote_vl s (write_value o rs (LVarLen t) v) u ob).
  { unfold wrote_vl. destruct Hv as [b|t a b Ht Hr Hb]; cbn [write_value].
    - rewrite (write_value_start (LVarLen VlString) (VString b) s Hal (λ _ _, write_string o rs b)).
      by eapply write_string_ok.
    - rewrite (write_value_start (LVarLen (VlArray (TArray t))) (VArray a) s Hal (λ _ _, write_av_bsatn o rs (VArray a))).
      by eapply write_array_ok. }
  destruct Hw as (p' & c & E & W). eexists _, [_], [c]. split; [exact E|]. cbn [sr_page sr_last_allocated sr_large_blobs].
  split_and!; try done. by constructor.
Qed.

Lemma write_tag_ok s vl u base tag :
  page_ok rs (sr_page s) fl P vl u → 0 ≤ base → base + 1 ≤ rs →
  writes_repr (sbind (smodify (sr_set_offset (base + offset_of_tag))) (λ _, write_u8 o rs tag)) s u base (base + 1) []
    (λ row offs, row !! Z.to_nat base = Some (byte_of_Z tag) ∧ offs = []).
Proof using Hrs Ho.
  intros H H0 Hl. unfold offset_of_tag. rewrite Z.add_0_r.
  change (writes_repr (write_bytes o rs [byte_of_Z tag]) (sr_set_offset base s) u base (base + 1) []
    (λ row offs, row !! Z.to_nat base = Some (byte_of_Z tag) ∧ offs = [])).
  eapply (writes_repr_bytes (sr_set_offset base s)); [exact H|exact H0|done|exact Hl|]. intros row Hrow. cbn [sr_curr_offset sr_set_offset] in Hrow.
  split; [|done]. apply (f_equal (λ l, l !! 0%nat)) in Hrow. rewrite lookup_peek, decide_True in Hrow by (unfold len; simpl; lia).
  by rewrite Nat.add_0_r in Hrow.
Qed.

(** A product, given that its elements can be written. *)
Lemma write_product_ok s u l els vals hi objs (R : list byte → list Z → Prop) :
  (ly_align l | sr_curr_offset s) → length els = length vals →
  writes_repr (write_elements (sr_curr_offset s) els vals) s u (sr_curr_offset s) hi objs R →
  writes_repr (write_value o rs (LProduct l els) (VProduct (MkProductValue vals))) s u (sr_curr_offset s) hi objs R.
Proof using.
  intros Hal Hlen (s' & offs & cs & E & Hrest). exists s', offs, cs. split; [|done]. rewrite <-E. cbn [write_value].
  etrans; [apply (write_value_start (LProduct l els) (VProduct (MkProductValue vals)) s Hal
    (λ _ _, write_product o rs els (MkProductValue vals)))|].
  cbn [write_product]. by rewrite Hlen, Nat.eqb_refl.
Qed.

(** A sum, given that its payload can be written: the tag comes after it. *)
Lemma write_sum_ok s u l vars tag var v objs :
  let base := sr_curr_offset s in
  (ly_align l | base) → 0 ≤ base → 0 ≤ tag → in_u 8 tag → vars !! Z.to_nat tag = Some var → good (vl_ty var) →
  1 ≤ ly_align l → ly_align l + lt_size (vl_ty var) ≤ ly_size l → base + ly_size l ≤ rs →
  writes_repr (write_value o rs (vl_ty var) v) (sr_set_offset (base + ly_align l) s) u (base + ly_align l)
    (base + ly_align l + lt_size (vl_ty var)) objs (λ row offs, repr row (base + ly_align l) (vl_ty var) v offs objs) →
  writes_repr (write_value o rs (LSum l vars (ly_align l)) (VSum (MkSumValue tag v))) s u base (base + ly_size l) objs
    (λ row offs, repr row base (LSum l vars (ly_align l)) (VSum (MkSumValue tag v)) offs objs).
Proof using Hrs Ho.
  intros base Hal H0 Htag0 Htag Hvar Hgv Ha Hsz Hl Hpay. pose proof (lt_size_aligned _ Hgv) as [Hs0 _].
  assert (Hw : writes_repr (sbind (write_value o rs (vl_ty var) v) (λ _,
      sbind (smodify (sr_set_offset (base + offset_of_tag))) (λ _, write_u8 o rs tag)))
    (sr_set_offset (base + ly_align l) s) u base (base + ly_size l) (objs ++ [])
    (λ row offs, repr row base (LSum l vars (ly_align l)) (VSum (MkSumValue tag v)) offs objs)).
  { eapply (writes_repr_bind _ _ _ _ _ _ base (base + 1)); [exact Hpay| |lia..|].
    - intros s1 vl1 u1 Hp1 _. eapply write_tag_ok; [done|lia|lia].
    - intros row row' offs1 offs2 HR1 Hag [Htg ->]. rewrite app_nil_r. econstructor; try done.
      eapply (proj1 (repr_agree row row')); [exact HR1|done|simpl; lia|done]. }
  rewrite app_nil_r in Hw. destruct Hw as (s' & offs & cs & E & Hrest). exists s', offs, cs. split; [|done].
  rewrite <-E. cbn [write_value].
  etrans; [apply (write_value_start (LSum l vars (ly_align l)) (VSum (MkSumValue tag v)) s Hal
    (λ _ _, write_sum o rs vars (ly_align l) (MkSumValue tag v)))|].
  cbn [write_sum]. unfold sbind at 1, slift. by rewrite (vec_get_Ok _ _ var) by done.
Qed.

Lemma write_value_ok :
  (∀ ty v objs, has_type ty v objs → good ty → ∀ s vl u,
    page_ok rs (sr_page s) fl P vl u → 0 ≤ sr_curr_offset s → (lt_align ty | sr_curr_offset s) →
    sr_curr_offset s + lt_size ty ≤ rs → total_granules objs ≤ avail (sr_page s) →
    writes_repr (write_value o rs ty v) s u (sr_curr_offset s) (sr_curr_offset s + lt_size ty) objs
      (λ row offs, repr row (sr_curr_offset s) ty v offs objs)) ∧
  (∀ els vals objs, has_types els vals objs → ∀ M base cur end_,
    Forall (λ e, good (pel_ty e)) els → Forall (λ e, lt_align (pel_ty e) ≤ M) els → is_align M → (M | base) →
    0 ≤ base → 0 ≤ cur → chained cur els end_ → base + end_ ≤ rs → ∀ s vl u,
    page_ok rs (sr_page s) fl P vl u → total_granules objs ≤ avail (sr_page s) →
    writes_repr (write_elements base els vals) s u (base + cur) (base + end_) objs
      (λ row offs, reprs row base els vals offs objs)).
Proof using Hrs Ho.
  apply has_type_ind'.
  - intros pt v b Hv _ s vl u H H0 Hal Hl _. by eapply write_prim_ok.
  - intros t v ob Hv _ s vl u H H0 Hal Hl Hav. eapply write_vl_ok; try done.
    unfold total_granules in Hav. simpl in Hav. lia.
  - intros l els vals objs Hts IH Hg s vl u H H0 Hal Hl Hav.
    destruct Hg as (Ha & (end_ & Hch & Hend) & _ & _ & Hall). pose proof (is_align_bounds _ Ha).
    pose proof (align_to_spec end_ (ly_align l) ltac:(lia)). unfold lt_size in *. simpl in Hl |- *.
    assert (Hw : writes_repr (write_elements (sr_curr_offset s) els vals) s u (sr_curr_offset s + 0) (sr_curr_offset s + end_)
      objs (λ row offs, reprs row (sr_curr_offset s) els vals offs objs)).
    { eapply (IH (ly_align l)); try done; try lia; apply all_list_Forall; (eapply all_list_impl; [|exact Hall]); by intros ? []. }
    apply (writes_repr_ext _ _ _ _ _ (sr_curr_offset s) (sr_curr_offset s + ly_size l) _ _
      (λ row offs, repr row (sr_curr_offset s) (LProduct l els) (VProduct (MkProductValue vals)) offs objs)) in Hw;
      [|lia|lia|intros row offs Hr; by constructor].
    by apply write_product_ok; [|eapply has_types_length|].
  - intros l vars po tag var v objs Htag Hvar _ IH Hg s vl u H H0 Hal Hl Hav.
    destruct Hg as (Ha & -> & _ & Hsz & _ & Hall). pose proof (is_align_bounds _ Ha).
    destruct (all_list_elem _ _ _ Hall (list_elem_of_lookup_2 _ _ _ Hvar)) as (Hgv & Hav' & Hsv).
    unfold lt_size at 1 in Hl. unfold lt_size at 1. unfold lt_align in Hal. simpl in Hl, Hal |- *.
    set (base := sr_curr_offset s) in *. pose proof (lt_size_aligned _ Hgv) as [Hs0 _].
    eapply (write_sum_ok s u l vars tag var); try done; try lia; [by apply Htag|].
    eapply (IH Hgv (sr_set_offset (base + ly_align l) s)); cbn [sr_page sr_curr_offset sr_set_offset]; try done; try lia.
    apply Z.divide_add_r; [trans (ly_align l); [|done]|]; by apply is_align_divide; [by apply lt_align_ok| |].
  - intros M base cur end_ _ _ _ _ _ _ -> _ s vl u H _. exists s, [], []. split; [done|].
    split_and!; [by eapply wrote_nil|constructor|unfold len; simpl; lia|by rewrite app_nil_r].
  - intros e els v vals objs1 objs2 _ IH1 _ IH2 M base cur end_ Hg HaM HM HMb H0 Hcur [Hoff Hch] Hl s vl u H Hav.
    apply Forall_cons in Hg as [Hge Hg]. apply Forall_cons in HaM as [Hae HaM].
    pose proof (lt_align_ok _ Hge) as Ha. pose proof (is_align_bounds _ Ha). pose proof (lt_size_aligned _ Hge) as [Hs _].
    pose proof (align_to_spec cur _ (ltac:(lia) : 0 < lt_align (pel_ty e))) as [Hal Hdv].
    destruct (chained_placed _ _ Hg (pel_offset e + lt_size (pel_ty e)) ltac:(lia) Hch) as (_ & _ & _ & Hend).
    rewrite total_granules_app in Hav. pose proof (total_granules_nonneg objs1). pose proof (total_granules_nonneg objs2).
    change (writes_repr (sbind (write_value o rs (pel_ty e) v) (λ _, write_elements base els vals))
      (sr_set_offset (base + pel_offset e) s) u (base + cur) (base + end_) (objs1 ++ objs2)
      (λ row offs, reprs row base (e :: els) (v :: vals) offs (objs1 ++ objs2))).
    eapply (writes_repr_bind _ _ _ _ (base + pel_offset e) (base + pel_offset e + lt_size (pel_ty e))
      (base + (pel_offset e + lt_size (pel_ty e))) (base + end_)).
    + eapply (IH1 Hge (sr_set_offset (base + pel_offset e) s)); cbn [sr_page sr_curr_offset sr_set_offset]; try done; try lia.
      apply Z.divide_add_r; [|by rewrite Hoff]. trans M; [by apply is_align_divide|done].
    + intros s1 vl1 u1 Hp1 Hav1. cbn [sr_page sr_set_offset] in Hav1.
      eapply (IH2 M base (pel_offset e + lt_size (pel_ty e)) end_); try done; lia.
    + lia. + lia. + lia. + lia. + lia. + lia.
    + intros row row' offs1 offs2 HR1 Hag HR2. constructor; [|done].
      eapply (proj1 (repr_agree row row')); [exact HR1|done|simpl; lia|done].
Qed.
End write.
