(* ===== verification/BflatnThm.v ===== *)
(** * A page stores the values of its row type

    Values of the row type that are written to a page read back as they were,
    until they are deleted.  The granules that a row takes are those that
    [required_var_len_granules_for_row] counts, and with space for them a write
    succeeds. *)

From Stdlib Require Import ZArith Lia Sorting.Sorted.
From stdpp Require Import gmap gmultiset.
From S2P Require Import Prelude Buffer Sats Bsatn Mem Indexes BitSet VarLen BlobStore Page PageInv PageRows PageRead PageThm Layout RowTypeVisitor BflatnTo BflatnFrom BflatnWriter BflatnRepr BflatnWrite.
Local Open Scope Z_scope.

(** ** Typed values *)

Lemma layout_elements_types {E} (f : AlgebraicType → result E AlgebraicTypeLayout) es :
  ∀ cur mca fx els c m b, layout_elements f es cur mca fx = Ok (els, c, m, b) →
  Forall2 (λ e el, f (el_type e) = Ok (pel_ty el)) es els.
Proof.
  induction es as [|e es IH]; intros cur mca fx els c m b; simpl.
  - intros [= <- _ _ _]. constructor.
  - destruct (f (el_type e)) as [lt| | |] eqn:Hf; try done. cbn [rbind].
    destruct (layout_elements f es _ _ _) as [[[[els' c'] m'] b']| | |] eqn:Hl; try done.
    intros [= <- _ _ _]. constructor; [done|]. by eapply IH.
Qed.

Lemma layout_variants_types {E} (f : AlgebraicType → result E AlgebraicTypeLayout) vs :
  ∀ mcs mca fx vars c m b, layout_variants f vs mcs mca fx = Ok (vars, c, m, b) →
  Forall2 (λ v vl, f (var_type v) = Ok (vl_ty vl)) vs vars.
Proof.
  induction vs as [|v vs IH]; intros mcs mca fx vars c m b; simpl.
  - intros [= <- _ _ _]. constructor.
  - destruct (f (var_type v)) as [lt| | |] eqn:Hf; try done. cbn [rbind].
    destruct (layout_variants f vs _ _ _) as [[[[vars' c'] m'] b']| | |] eqn:Hl; try done.
    intros [= <- _ _ _]. constructor; [done|]. by eapply IH.
Qed.

(** The values of a type are those of its layout. *)
Definition typed_has_type (ty : AlgebraicType) : Prop :=
  ∀ lt v, layout_of (E:=unit) ty = Ok lt → contains_refs ty = false → typed [] ty v → ∃ objs, has_type lt v objs.

Lemma typed_has_types es els vals :
  Forall (λ e, typed_has_type (el_type e)) es →
  Forall2 (λ e el, layout_of (E:=unit) (el_type e) = Ok (pel_ty el)) es els →
  existsb (λ e, contains_refs (el_type e)) es = false → all_list2 (λ v e, typed [] (el_type e) v) es vals →
  ∃ objs, has_types els vals objs.
Proof.
  intros Hall H2. revert vals. induction H2 as [|e el es els He _ IH]; intros [|v vals] Hr Ht; try done.
  - exists []. constructor.
  - apply Forall_cons in Hall as [H1 Hall]. simpl in Hr. apply orb_false_iff in Hr as [Hr1 Hr2].
    destruct Ht as [Ht1 Ht2]. destruct (H1 _ _ He Hr1 Ht1) as [objs1 O1].
    destruct (IH Hall vals Hr2 Ht2) as [objs2 O2]. eexists. by constructor.
Qed.

Lemma typed_layout ty : typed_has_type ty.
Proof.
  induction ty as [r|vs IH|es IH|t _| | |k|k] using AlgebraicType_nested_ind; intros lt v Hlt Hr Ht; try done;
    cbn [layout_of] in Hlt; try (injection Hlt as <-).
  all: destruct v as [|[tag v]|[vals]|a|b|k' z|k' z|b|]; cbn [typed] in Ht; destruct Ht as (ty' & Hres & Ht);
    inversion Hres; subst; try done.
  - unfold sum_type_layout in Hlt.
    destruct (layout_variants layout_of vs 0 0 true) as [[[[vars c] m] b]| | |] eqn:Hl; try done. cbn [rbind] in Hlt.
    apply layout_variants_types in Hl. destruct (add_u _ _ _) as [sz| | |]; try done. injection Hlt as <-.
    destruct Ht as (Htag & var & Hvar & Ht).
    destruct (Forall2_lookup_l _ _ _ _ _ Hl Hvar) as (vl & Hvl & Hf). simpl in Hr. apply existsb_false_Forall in Hr.
    rewrite Forall_forall in IH, Hr. apply list_elem_of_lookup_2 in Hvar.
    destruct (IH _ Hvar _ _ Hf (Hr _ Hvar) Ht) as [objs Ho]. exists objs. by econstructor.
  - unfold product_type_layout in Hlt.
    destruct (layout_elements layout_of es 0 1 true) as [[[[els c] m] b]| | |] eqn:Hl; try done. cbn [rbind] in Hlt.
    apply layout_elements_types in Hl. injection Hlt as <-.
    destruct (typed_has_types es els vals IH Hl Hr Ht) as [objs Ho]. exists objs. by constructor.
  - destruct (ev_value (VArray a) [] (TArray t)) as (bs & Hbs & _); [by exists (TArray t)|].
    exists [bs]. constructor. constructor; [by exists (TArray t)|done|done].
  - eexists. constructor. by constructor.
  - eexists. eapply ht_prim. constructor.
  - destruct Ht as [-> Ht]. eexists. eapply ht_prim. by constructor.
  - destruct Ht as [-> Ht]. eexists. eapply ht_prim. by constructor.
Qed.

(** The elements of a product, as [traverse_product] goes over them. *)
Definition traverse_elements {E} :=
  fix go (elements : list AlgebraicValue) (count : Z) : result E Z :=
  match elements with
  | [] => Ok count
  | elt :: elements => rbind (traverse_av elt count) (λ count, go elements count)
  end.

Lemma traverse_ok {E} :
  (∀ ty v objs, has_type ty v objs → ∀ count, traverse_av (E:=E) v count = Ok (count + total_granules objs)) ∧
  (∀ els vals objs, has_types els vals objs → ∀ count,
    traverse_elements (E:=E) vals count = Ok (count + total_granules objs)).
Proof.
  apply has_type_ind'.
  - intros p v b Hv count. change (total_granules []) with 0. rewrite Z.add_0_r. by destruct Hv.
  - intros t v ob Hv count. change (total_granules [ob]) with (obj_granules ob + 0). rewrite Z.add_0_r.
    destruct Hv as [b|t a b Ht Hr Hb]; cbn [traverse_av]; [done|]. by rewrite (bsatn_len_ok _ _ Hb).
  - intros l els vals objs _ IH count. apply IH.
  - intros l vars po tag var v objs _ _ _ IH count. apply IH.
  - intros count. change (total_granules []) with 0. by rewrite Z.add_0_r.
  - intros e els v vals objs1 objs2 _ IH1 _ IH2 count. cbn [traverse_elements]. rewrite IH1. cbn [rbind].
    rewrite total_granules_app, Z.add_assoc. apply IH2.
Qed.

(** The var-len objects of a value. *)
Fixpoint value_objects (val : AlgebraicValue) : list (list byte) :=
  match val with
  | VProduct val => product_objects val
  | VSum (MkSumValue _ value) => value_objects value
  | VArray _ => [default [] (bsatn val)]
  | VString val => [val]
  | _ => []
  end
with product_objects (val : ProductValue) : list (list byte) :=
  match val with
  | MkProductValue elements =>
      (fix go elements := match elements with [] => [] | elt :: elements => value_objects elt ++ go elements end) elements
  end.

Lemma has_type_objects :
  (∀ ty v objs, has_type ty v objs → objs = value_objects v) ∧
  (∀ els vals objs, has_types els vals objs → objs = product_objects (MkProductValue vals)).
Proof.
  apply has_type_ind'.
  - intros p v b Hv. by destruct Hv.
  - intros t v ob Hv. destruct Hv as [|t a b Ht Hr Hb]; [done|]. cbn [value_objects]. by rewrite Hb.
  - done.
  - done.
  - done.
  - intros e els v vals objs1 objs2 _ -> _ ->. done.
Qed.

Lemma repr_objects row :
  (∀ base ty v offs objs, repr row base ty v offs objs → objs = value_objects v) ∧
  (∀ base els vals offs objs, reprs row base els vals offs objs → objs = product_objects (MkProductValue vals)).
Proof.
  apply repr_reprs_ind; try done.
  - intros base p v b Hv _. by destruct Hv.
  - intros base t v ob Hv. destruct Hv as [|t a b Ht Hr Hb]; [done|]. cbn [value_objects]. by rewrite Hb.
  - intros base e els v vals offs1 objs1 offs2 objs2 _ -> _ ->. done.
Qed.

(** The objects of the values of a map. *)
Definition map_objects {K} `{Countable K} (A : gmap K ProductValue) : list (list byte) :=
  map_to_list A ≫= λ x, product_objects x.2.

(** ** Large objects *)

Section large_objects.
Context {B V : Type} {BsI : BlobStore B} {HashI : Blake3} {LawI : BlobStoreLaws B} {VisI : VarLenMembers V}.
Context (rs : Z) (Hrs : row_size_ok rs) (fl : list Z) (P : gset Z) (vl : list Z).

Lemma write_large_blobs_app l1 l2 s s1 s2 n1 n2 :
  write_large_blobs (B:=B) l1 s = (Ok n1, s1) → write_large_blobs l2 s1 = (Ok n2, s2) →
  write_large_blobs (l1 ++ l2) s = (Ok (n1 + n2), s2).
Proof using.
  revert s n1. induction l1 as [|[r ob] l1 IH]; intros s n1 H1 H2; simpl in *.
  - injection H1 as <- <-. by rewrite H2.
  - apply sbind_Ok_inv in H1 as (n & s' & E1 & H1). apply sbind_Ok_inv in H1 as (ns & s'' & E2 & H1).
    injection H1 as <- <-. rewrite (sbind_Ok _ _ _ _ _ E1), (sbind_Ok _ _ _ _ _ (IH _ _ E2 H2)).
    unfold sret. by rewrite Z.add_assoc.
Qed.

(** The object of one reference. *)
Lemma settle_ok p bs c u ob r m :
  pobj_at (pg_row_data p) c ob r → page_ok rs p fl P vl (c ++ u) → holds bs m → collision_free (m ⊎ large [ob]) →
  ∃ p' bs', write_large_blobs (if 992 <? len ob then [(r, ob)] else []) (p, bs) = (Ok (large_bytes [ob]), (p', bs')) ∧
    page_ok rs p' fl P vl (c ++ u) ∧ obj_at (pg_row_data p') c ob r ∧
    keeps p p' u ∧ avail p' = avail p ∧ holds bs' (m ⊎ large [ob]).
Proof using Hrs.
  unfold pobj_at, obj_at, large, large_bytes. rewrite !filter_cons. intros Hob H Hm Hc.
  destruct (Z.ltb_spec 992 (len ob)) as [Hl|Hl].
  - rewrite decide_True in Hc |- * by done. rewrite filter_nil in *. cbn [list_to_set_disj foldr map] in *.
    destruct Hob as (g & -> & ->). rewrite gmultiset_disj_union_right_id in *.
    destruct (write_hash_ok rs Hrs p bs fl P vl g u m ob H Hl Hm) as (p' & bs' & Hw & H' & Ho & Hk & Hv & Hm').
    { intros b Hb. apply Hc; multiset_solver. }
    unfold obj_at in Ho. rewrite (proj2 (Z.ltb_lt _ _)) in Ho by done.
    exists p', bs'. split_and!; try done. cbn [write_large_blobs].
    by rewrite (sbind_Ok _ _ _ _ _ Hw).
  - rewrite decide_False in Hc |- * by lia. rewrite filter_nil in *. cbn [list_to_set_disj foldr map] in *.
    rewrite gmultiset_disj_union_right_id in *. exists p, bs. by destruct Hob; split_and!.
Qed.

(** The references to large objects are written when all of the row is. *)
Lemma large_blobs_ok row offs cs objs : ∀ p bs u m,
  Forall3 (λ k c ob, pobj_at (pg_row_data p) c ob (peek_vlr row k)) offs cs objs →
  page_ok rs p fl P vl (concat cs ++ u) → holds bs m → collision_free (m ⊎ large objs) →
  ∃ p' bs', write_large_blobs (deferred row offs objs) (p, bs) = (Ok (large_bytes objs), (p', bs')) ∧
    page_ok rs p' fl P vl (concat cs ++ u) ∧ objs_at (pg_row_data p') row offs cs objs ∧
    keeps p p' u ∧ avail p' = avail p ∧ holds bs' (m ⊎ large objs).
Proof using Hrs.
  revert cs objs. induction offs as [|k offs IH]; intros cs objs p bs u m Hobs H Hm Hc;
    inversion Hobs as [|? c ob ? cs' objs' Hob Hobs']; subst.
  - exists p, bs. split_and!; try done; [apply Forall3_nil|].
    change (large []) with (∅ : gmultiset (list byte)). by rewrite gmultiset_disj_union_right_id.
  - rewrite large_cons in Hc. simpl concat in H. rewrite <-app_assoc in H.
    destruct (settle_ok p bs c (concat cs' ++ u) ob _ m Hob H Hm) as (p1 & bs1 & W1 & H1 & O1 & K1 & V1 & M1).
    { intros b b' Hb Hb'. apply Hc; multiset_solver. }
    assert (Hg0 : ∀ q g, page_ok rs q fl P vl (c ++ concat cs' ++ u) → g ∈ c ++ concat cs' ++ u → 0 ≤ g).
    { intros q g Hq Hg. destruct (granule_cell _ _ _ _ _ _ g Hq ltac:(by right)) as (G1 & G2 & _).
      pose proof (page_bounds _ Hrs _ _ _ _ _ Hq). lia. }
    assert (H1' : page_ok rs p1 fl P vl (concat cs' ++ c ++ u)).
    { eapply page_ok_perm; [|exact H1]. solve_Permutation. }
    destruct (IH cs' objs' p1 bs1 (c ++ u) (m ⊎ large [ob])) as (p2 & bs2 & W2 & H2 & O2 & K2 & V2 & M2).
    { eapply pobjs_frame; [|done|exact Hobs']. intros g Hg. split; [by eapply Hg0; [exact H|set_solver]|].
      apply (kp_granules _ _ _ K1). set_solver. }
    { done. } { done. } { intros b b' Hb Hb'. apply Hc; multiset_solver. }
    exists p2, bs2. split_and!.
    + rewrite large_bytes_cons. pose proof (write_large_blobs_app _ _ _ _ _ _ _ W1 W2) as W.
      cbn [deferred]. by destruct (992 <? len ob).
    + eapply page_ok_perm; [|exact H2]. simpl. solve_Permutation.
    + constructor; [|done]. eapply obj_at_frame; [|exact O1]. intros g Hg.
      split; [by eapply Hg0; [exact H1|set_solver]|]. apply (kp_granules _ _ _ K2). set_solver.
    + eapply (keeps_trans _ _ _ u u); [done|eapply keeps_weaken; [|exact K1]|eapply keeps_weaken; [|exact K2]]; set_solver.
    + congruence.
    + rewrite large_cons, gmultiset_disj_union_assoc. done.
Qed.
End large_objects.

(** ** Rows *)

Section table_rows.
Context {B : Type} {BsI : BlobStore B} {HashI : Blake3} {LawI : BlobStoreLaws B}.
(** The row type of the table, of which the rows fit in a page. *)
Context (es : list ProductTypeElement) (rt : RowTypeLayout).
Context (Hrt : row_type_layout (E:=unit) es = Ok rt) (Hnr : contains_refs (TProduct es) = false).
Context (Hsize : ty_size (TProduct es) ≤ PAGE_DATA_SIZE) (Hcode : len (visitor_code rt) ≤ u16_MAX).

Local Abbreviation rs := (row_size rt) (only parsing).
Local Abbreviation v := (row_type_visitor rt) (only parsing).

Lemma no_refs_of ty : contains_refs ty = false → no_refs ty = true.
Proof using.
  induction ty as [r|vs IH|es' IH|t _| | |k|k] using AlgebraicType_nested_ind; simpl; intros Hr; try done;
    apply existsb_false_Forall in Hr; apply Is_true_true, forallb_True, Forall_forall; rewrite Forall_forall in IH, Hr;
    intros x Hx; apply Is_true_true; auto.
Qed.

Lemma row_product_type : product_type (row_elements rt) = es.
Proof using Hrt Hnr Hsize.
  change PAGE_DATA_SIZE with 65472 in Hsize.
  destruct (row_layout_ok (E:=unit) es) as (rt' & Hrt' & _ & Hp & _); [by apply (no_refs_of (TProduct es))|lia|].
  rewrite Hrt in Hrt'. by injection Hrt' as <-.
Qed.

Lemma row_good : good_row rt ∧ row_size_ok rs.
Proof using Hrt Hnr Hsize. apply (good_row_size es); [done| |done]. by apply (no_refs_of (TProduct es)). Qed.

Lemma typed_row val : typed [] (TProduct es) (VProduct val) →
  ∃ objs, has_types (row_elements rt) (match val with MkProductValue vals => vals end) objs.
Proof using Hrt Hnr.
  intros (ty' & Hres & Ht). inversion Hres; subst. destruct val as [vals].
  pose proof Hrt as Hrt'. unfold row_type_layout, product_type_layout in Hrt'.
  destruct (layout_elements layout_of es 0 1 true) as [[[[els c] m] b]| | |] eqn:Hl; try done. cbn [rbind] in Hrt'.
  apply layout_elements_types in Hl. apply (f_equal (λ r, match r with Ok rt => row_elements rt | _ => [] end)) in Hrt'.
  cbn in Hrt'. rewrite <-Hrt'. apply (typed_has_types es); try done.
  apply Forall_forall. intros. apply typed_layout.
Qed.

(** The row represents the value. *)
Definition row_repr (gr : GRow) (val : ProductValue) : Prop :=
  match val with MkProductValue vals => reprs (gr_fixed gr) 0 (row_elements rt) vals (gr_offs gr) (gr_objs gr) end.

(** The fixed part of a row, and its objects but for the large ones. *)
Lemma write_fixed_part_ok p o fl P vl u vals objs :
  page_ok rs p fl P vl u → o ∈ P → has_types (row_elements rt) vals objs → total_granules objs ≤ avail p →
  ∃ s' offs cs end_, write_product o rs (row_elements rt) (MkProductValue vals)
      {| sr_page := p; sr_curr_offset := 0; sr_last_allocated := 0; sr_large_blobs := [] |} = (Ok tt, s') ∧
    wrote rs o fl P p (sr_page s') u 0 end_ offs cs objs ∧
    reprs (row_of rs o (sr_page s')) 0 (row_elements rt) vals offs objs ∧
    sr_large_blobs s' = deferred (row_of rs o (sr_page s')) offs objs.
Proof using Hrt Hnr Hsize.
  intros H Ho Ht Hav. destruct row_good as [Hg Hrs].
  destruct Hg as [G1 G2 G3 (end_ & Hch & Hend) G5 G6 HM HaM].
  set (s := {| sr_page := p; sr_curr_offset := 0; sr_last_allocated := 0; sr_large_blobs := [] |}).
  destruct (proj2 (write_value_ok rs Hrs o fl P Ho) _ _ _ Ht (ly_align (row_layout rt)) 0 0 end_ G6 HaM HM
    (Z.divide_0_r _) (Z.le_refl 0) (Z.le_refl 0) Hch Hend s vl u H Hav)
    as (s' & offs & cs & E & W & R & _ & Hd).
  exists s', offs, cs, end_. split_and!; try done. rewrite <-E. cbn [write_product].
  by rewrite (has_types_length _ _ _ Ht), Nat.eqb_refl.
Qed.

Lemma write_row_to_page_ok p bs rows m vals objs :
  page_inv rs v p rows → holds bs m → has_types (row_elements rt) vals objs →
  has_space_for_row (E:=PageError) p rs (total_granules objs) = Ok true → collision_free (m ⊎ large objs) →
  ∃ o p' bs' gr, write_row_to_page v rt (MkProductValue vals) (p, bs) = (Ok (o, large_bytes objs), (p', bs')) ∧
    rows !! o = None ∧ page_inv rs v p' (<[o := gr]> rows) ∧ gr_objs gr = objs ∧
    row_repr gr (MkProductValue vals) ∧ holds bs' (m ⊎ large objs) ∧ pg_hash p' = None.
Proof using Hrt Hnr Hsize Hcode.
  intros (fl & vl & u & H & Hu & Hall) Hm Ht Hsp Hc. destruct row_good as [Hg Hrs].
  destruct (alloc_row_ok rs Hrs p fl (dom rows) vl u _ H Hsp) as (o & p1 & fl1 & Ha & H1 & Ho & Htk & Hl & Hav).
  assert (Hin : o ∈ {[o]} ∪ dom rows) by set_solver.
  destruct (write_fixed_part_ok p1 o fl1 _ vl u vals objs H1 Hin Ht Hav) as (s2 & offs & cs & end_ & E2 & W2 & R2 & D2).
  destruct (wr_page _ _ _ _ _ _ _ _ _ _ _ _ W2) as [vl2 P2].
  destruct (large_blobs_ok rs Hrs fl1 _ vl2 _ offs cs objs (sr_page s2) bs u m (wr_objs _ _ _ _ _ _ _ _ _ _ _ _ W2) P2 Hm Hc)
    as (p3 & bs3 & E3 & P3 & O3 & K3 & _ & M3).
  assert (Hrow : row_of rs o p3 = row_of rs o (sr_page s2)).
  { destruct (row_cell _ Hrs _ _ _ _ _ o P2 ltac:(by right)) as (? & ? & _). apply (kp_rows _ _ _ K3); lia. }
  set (gr := {| gr_fixed := row_of rs o p3; gr_offs := offs; gr_chains := cs; gr_objs := objs |}).
  assert (K13 : keeps_row rs p1 p3 u o).
  { eapply (keeps_row_trans _ _ _ _ u u); [done|by apply (wr_keeps _ _ _ _ _ _ _ _ _ _ _ _ W2)|by apply keeps_row_of]. }
  exists o, p3, bs3, gr. split_and!; try done.
  - unfold write_row_to_page. rewrite (sbind_Ok _ _ _ (p1, bs) o).
    + rewrite E2, D2. erewrite sbind_Ok; [done|]. unfold lift_page. by rewrite E3.
    + unfold lift_page, on_page. by rewrite Ha.
  - by apply not_elem_of_dom.
  - eapply (page_inv_insert rs Hrs v p p1); try done.
    + by apply (row_cell _ Hrs _ _ _ _ _ o H1); right.
    + split; [done| |cbn; by rewrite Hrow]. cbn.
      destruct (proj2 (repr_walks _) _ _ _ _ _ R2) as [ts Hts].
      eapply (row_visitor_shape rt _ ts offs Hg); [|done|].
      * rewrite Hrow. exact Hts.
      * by eapply (len_row rs Hrs _ _ _ _ _ o P3).
    + eauto.
  - cbn. by rewrite Hrow.
  - destruct Htk as (_ & _ & T3). by rewrite (kr_hash _ _ _ _ _ K13).
Qed.

(** ** Reading *)

Lemma reads_obj_ok {E} p (bs : B) fl P vl u o c ob row k :
  page_ok rs p fl P vl (c ++ u) → o ∈ P → obj_at (pg_row_data p) c ob (peek_vlr row k) →
  (992 < len ob → retrieve_blob bs (blake3 ob) = Ok ob) → reads_obj (E:=E) row p bs k ob.
Proof using Hrt Hnr Hsize.
  intros H Ho Hob Hbs. destruct row_good as [_ Hrs].
  destruct (iter_vlo_data_ok (E:=E) rs Hrs p fl P vl u o c ob _ H Ho Hob) as [Hit Hlg].
  unfold reads_obj. rewrite Hlg. unfold stored in Hit. unfold obj_at in Hob.
  destruct (Z.ltb_spec 992 (len ob)) as [Hl|Hl].
  - destruct Hob as (g & -> & Hr & Hg). rewrite Hr. cbn [first_granule].
    destruct (granule_cell _ _ _ _ _ _ g H ltac:(right; left)) as (G1 & G2 & G3 & G4).
    pose proof (row_last_pos rs Hrs _ _ _ _ _ _ H Ho) as Hlast. pose proof (po_len _ _ _ _ _ _ H) as Hlen.
    unfold vlr_blob_bytes, iter_var_len_object.
    destruct (iter_granules_ok (E:=E) p [g] [blake3 ob] granule_fuel Hlen) as [Hi _];
      [|done|by eapply granule_fuel_ok|].
    { intros g' ->%list_elem_of_singleton. lia. }
    cbn [large_blob first_granule]. change (default 0 (head [g])) with g in Hi. rewrite Hi. cbn [rbind map].
    rewrite (blob_hash_ok _ _ (blake3 ob) 0); [|lia|lia|by rewrite blake3_len|by apply Hg].
    cbn [rbind]. by rewrite (Hbs Hl).
  - destruct Hob as [Hr _]. split; [done|]. by rewrite Hr.
Qed.

(** A row of a page, and its objects. *)
Lemma row_reads {E} p bs rows m o gr :
  page_inv rs v p rows → rows !! o = Some gr → holds bs (m ⊎ large (row_objects rows)) →
  page_get_row_data (E:=E) p o rs = Ok (gr_fixed gr) ∧ len (gr_fixed gr) = rs ∧
  Forall2 (reads_obj (E:=E) (gr_fixed gr) p bs) (gr_offs gr) (gr_objs gr).
Proof using Hrt Hnr Hsize.
  intros Hp Ho Hm. destruct row_good as [Hg Hrs].
  destruct (read_row_ok (E:=E) _ Hrs _ _ _ _ _ Hp Ho) as (Hrd & _).
  destruct Hp as (fl & vl & u & H & Hu & Hall). destruct (Hall o gr Ho) as [R1 R2 R3].
  assert (Hin : o ∈ dom rows) by by apply elem_of_dom_2 in Ho.
  split_and!; [done|by apply (sh_len _ _ _ _ R2)|].
  apply Forall2_same_length_lookup_2; [by eapply Forall3_length_lr|]. intros i k ob Hk Hob.
  destruct (Forall3_lookup_l _ _ _ _ _ _ R3 Hk) as (c & ob' & Hc & Hob' & Hat).
  assert (ob' = ob) as -> by congruence. destruct (concat_lookup _ _ _ Hc) as [l Hl].
  eapply (reads_obj_ok p bs fl (dom rows) vl (l ++ row_granules (delete o rows)) o c); try done.
  - eapply page_ok_perm; [|exact H]. rewrite Hu, (row_granules_delete _ _ _ Ho), Hl. solve_Permutation.
  - intros Hlg. apply (retrieve_blob_law _ _ _ Hm), gmultiset_elem_of_disj_union. right.
    apply elem_of_list_to_set_disj, list_elem_of_filter. split; [done|].
    unfold row_objects. apply list_elem_of_bind. exists (o, gr). split; [by apply list_elem_of_lookup_2 in Hob|].
    by apply elem_of_map_to_list.
Qed.

Lemma read_value_ok {E} p bs rows m o gr val :
  page_inv rs v p rows → rows !! o = Some gr → row_repr gr val → holds bs (m ⊎ large (row_objects rows)) →
  serialize_row_from_page (E:=E) p bs o rt = Ok val.
Proof using Hrt Hnr Hsize.
  intros Hp Ho Hr Hm. destruct row_good as [[G1 G2 G3 (end_ & Hch & Hend) G5 G6 HM HaM] _]. unfold serialize_row_from_page.
  destruct (row_reads (E:=E) _ _ _ _ _ _ Hp Ho Hm) as (-> & Hl & Hobs). cbn [rbind]. destruct val as [vals]. cbn in Hr.
  by rewrite (proj2 (repr_reads (E:=E) (gr_fixed gr) p bs) _ _ _ _ _ Hr (ly_align (row_layout rt)) 0 end_)
    by (done || lia || apply Z.divide_0_r).
Qed.

(** ** The rows of a table in a page *)

(** The byte strings that others keep in the blob store. *)
Context (m0 : gmultiset (list byte)).

(** The pages that writing and deleting rows lead to, and the values that
    they should hold. *)
Inductive table_page : Page → B → gmap Z ProductValue → Prop :=
| tp_new p bs : page_new (E:=PageError) rs = Ok p → holds bs m0 → table_page p bs ∅
| tp_write p bs A val g o n p' bs' :
    table_page p bs A → typed [] (TProduct es) (VProduct val) →
    required_var_len_granules_for_row (E:=PageError) val = Ok g → has_space_for_row (E:=PageError) p rs g = Ok true →
    collision_free (m0 ⊎ large (map_objects A) ⊎ large (product_objects val)) →
    write_row_to_page v rt val (p, bs) = (Ok (o, n), (p', bs')) →
    table_page p' bs' (<[o := val]> A)
| tp_delete p bs A o val n p' bs' :
    table_page p bs A → A !! o = Some val →
    page_delete_row o rs v (p, bs) = (Ok n, (p', bs')) →
    table_page p' bs' (delete o A).

Record table_inv (p : Page) (bs : B) (A : gmap Z ProductValue) (rows : gmap Z GRow) : Prop := {
  ti_page : page_inv rs v p rows;
  ti_objs : gr_objs <$> rows = product_objects <$> A;
  ti_repr o gr val : rows !! o = Some gr → A !! o = Some val → row_repr gr val;
  ti_store : holds bs (m0 ⊎ large (row_objects rows));
}.

Lemma table_inv_objects p bs A rows : table_inv p bs A rows → row_objects rows = map_objects A.
Proof using.
  intros [_ H _ _]. unfold row_objects, map_objects.
  assert (Hb : ∀ T (f : T → list (list byte)) (m : gmap Z T),
    map_to_list m ≫= (λ x, f x.2) = map_to_list (f <$> m) ≫= snd).
  { intros T f m. rewrite map_to_list_fmap. induction (map_to_list m) as [|[o x] l IH]; [done|]. cbn. by rewrite IH. }
  by rewrite (Hb GRow), (Hb ProductValue), H.
Qed.

Lemma table_inv_lookup p bs A rows o :
  table_inv p bs A rows → is_Some (rows !! o) ↔ is_Some (A !! o).
Proof using.
  intros [_ H _ _]. rewrite <-(fmap_is_Some gr_objs), <-(fmap_is_Some product_objects), <-!lookup_fmap. by rewrite H.
Qed.

(** The granules that a row of the type takes. *)
Lemma required_granules val :
  typed [] (TProduct es) (VProduct val) →
  ∃ vals, val = MkProductValue vals ∧ has_types (row_elements rt) vals (product_objects val) ∧
    required_var_len_granules_for_row (E:=PageError) val = Ok (total_granules (product_objects val)).
Proof using Hrt Hnr.
  intros Ht. destruct (typed_row val Ht) as [objs Hobjs]. destruct val as [vals]. exists vals. split; [done|].
  assert (objs = product_objects (MkProductValue vals)) as -> by (by eapply (proj2 has_type_objects)).
  split; [done|]. exact (proj2 (traverse_ok (E:=PageError)) _ _ _ Hobjs 0).
Qed.

Lemma write_table_inv p bs A rows val :
  table_inv p bs A rows → typed [] (TProduct es) (VProduct val) →
  has_space_for_row (E:=PageError) p rs (total_granules (product_objects val)) = Ok true →
  collision_free (m0 ⊎ large (map_objects A) ⊎ large (product_objects val)) →
  ∃ o p' bs' gr, write_row_to_page v rt val (p, bs) = (Ok (o, large_bytes (product_objects val)), (p', bs')) ∧
    A !! o = None ∧ table_inv p' bs' (<[o := val]> A) (<[o := gr]> rows).
Proof using Hrt Hnr Hsize Hcode.
  intros Hinv Ht Hsp Hc. rewrite <-(table_inv_objects _ _ _ _ Hinv) in Hc.
  destruct (required_granules val Ht) as (vals & -> & Hts & _). pose proof Hinv as [I1 I2 I3 I4].
  destruct (write_row_to_page_ok p bs rows _ vals _ I1 I4 Hts Hsp Hc)
    as (o & p' & bs' & gr & Hw & Ho & Hp' & Hobjs & Hr & Hm & _).
  assert (HA : A !! o = None).
  { apply eq_None_not_Some. rewrite <-(table_inv_lookup _ _ _ _ o Hinv), Ho. by intros []. }
  exists o, p', bs', gr. split_and!; [done|done|]. split; [done| | |].
  - by rewrite !fmap_insert, I2, Hobjs.
  - intros o' gr' val'. destruct (decide (o = o')) as [<-|Hne].
    + rewrite !lookup_insert_eq. by intros [= <-] [= <-].
    + rewrite !lookup_insert_ne by done. apply I3.
  - rewrite (large_perm' _ _ (row_objects_insert rows o gr Ho)), large_app', Hobjs.
    by rewrite disj_union_swap.
Qed.

Lemma delete_table_inv p bs A rows o val :
  table_inv p bs A rows → A !! o = Some val →
  ∃ p' bs', page_delete_row o rs v (p, bs) = (Ok (large_bytes (product_objects val)), (p', bs')) ∧
    table_inv p' bs' (delete o A) (delete o rows).
Proof using Hrt Hnr Hsize.
  intros Hinv Ho. destruct row_good as [_ Hrs]. destruct (proj2 (table_inv_lookup _ _ _ _ o Hinv)) as [gr Hgr]; [by eexists|].
  destruct Hinv as [I1 I2 I3 I4].
  assert (Hobjs : gr_objs gr = product_objects val).
  { apply (f_equal (lookup o)) in I2. rewrite !lookup_fmap, Hgr, Ho in I2. by injection I2. }
  rewrite (large_perm' _ _ (row_objects_delete rows o gr Hgr)), large_app' in I4.
  destruct (delete_row_ok rs Hrs v p bs rows (m0 ⊎ large (row_objects (delete o rows))) o gr I1 Hgr)
    as (p' & bs' & Hd & Hp' & Hm' & _).
  { by rewrite <-disj_union_swap. }
  rewrite Hobjs in Hd. exists p', bs'. split; [done|]. split; try done.
  - by rewrite !fmap_delete, I2.
  - intros o' gr' val' [_ H1]%lookup_delete_Some [_ H2]%lookup_delete_Some. by eapply I3.
Qed.

Lemma table_page_inv p bs A : table_page p bs A → ∃ rows, table_inv p bs A rows.
Proof using Hrt Hnr Hsize Hcode.
  induction 1 as [p bs Hn Hm|p bs A val g o n p' bs' _ [rows IH] Ht Hreq Hsp Hc Hw
    |p bs A o val n p' bs' _ [rows IH] Ho Hd].
  - destruct row_good as [_ Hrs]. destruct (page_new_inv (E:=PageError) rs Hrs v) as (p' & Hn' & Hp & _).
    rewrite Hn in Hn'. injection Hn' as <-. exists ∅. split; try done.
    change (large (row_objects ∅)) with (∅ : gmultiset (list byte)). by rewrite gmultiset_disj_union_right_id.
  - destruct (required_granules val Ht) as (vals & _ & _ & Hreq'). rewrite Hreq in Hreq'. injection Hreq' as ->.
    destruct (write_table_inv p bs A rows val IH Ht Hsp Hc) as (o' & p1 & bs1 & gr & Hw' & Ho & Hinv).
    rewrite Hw in Hw'. injection Hw' as -> _ -> ->. eauto.
  - destruct (delete_table_inv p bs A rows o val IH Ho) as (p1 & bs1 & Hd' & Hinv).
    rewrite Hd in Hd'. injection Hd' as _ -> ->. eauto.
Qed.

Lemma write_reach p bs A val :
  table_page p bs A → typed [] (TProduct es) (VProduct val) →
  collision_free (m0 ⊎ large (map_objects A) ⊎ large (product_objects val)) →
  ∃ g b, required_var_len_granules_for_row (E:=PageError) val = Ok g ∧
    has_space_for_row (E:=PageError) p rs g = Ok b ∧
    (b = true → ∃ o p' bs', write_row_to_page v rt val (p, bs) = (Ok (o, large_bytes (product_objects val)), (p', bs')) ∧
      A !! o = None ∧ table_page p' bs' (<[o := val]> A)).
Proof using Hrt Hnr Hsize Hcode.
  intros Hr Ht Hc. destruct (table_page_inv _ _ _ Hr) as [rows Hinv]. destruct row_good as [_ Hrs].
  destruct (required_granules val Ht) as (vals & _ & _ & Hreq).
  pose proof (ti_page _ _ _ _ Hinv) as (fl & vl & u & H & _ & _).
  destruct (has_space_spec (E:=PageError) _ Hrs _ _ _ _ _ (total_granules (product_objects val)) H) as (b & Hb & _).
  exists (total_granules (product_objects val)), b. split_and!; [done|done|]. intros ->.
  destruct (write_table_inv p bs A rows val Hinv Ht Hb Hc) as (o & p' & bs' & gr & Hw & Ho & _).
  exists o, p', bs'. split_and!; [done|done|]. by econstructor.
Qed.

(** C21. A page holds the values of the row type that were written to it.
    After any writes and deletions, the row at an offset reads back as the
    value last written there, whatever its strings and arrays and whether they
    are in the page or in the blob store; the offsets are those of the rows
    that were not deleted; a value of the row type is written, to a new
    offset, whenever the page has space for the granules that are computed
    for it beforehand, and the number of bytes it added to the blob store is
    that of its large objects; a row can be deleted, and frees as many. *)
Theorem page_stores_rows p bs A :
  table_page p bs A →
  (∀ o val, A !! o = Some val → serialize_row_from_page (E:=PageError) p bs o rt = Ok val) ∧
  (∃ l, iter_fixed_len (E:=PageError) p rs = Ok l ∧ StronglySorted Z.lt l ∧ ∀ o, o ∈ l ↔ is_Some (A !! o)) ∧
  (∀ val, typed [] (TProduct es) (VProduct val) →
    collision_free (m0 ⊎ large (map_objects A) ⊎ large (product_objects val)) →
    ∃ g b, required_var_len_granules_for_row (E:=PageError) val = Ok g ∧
      has_space_for_row (E:=PageError) p rs g = Ok b ∧
      (b = true → ∃ o p' bs',
        write_row_to_page v rt val (p, bs) = (Ok (o, large_bytes (product_objects val)), (p', bs')) ∧
        A !! o = None ∧ table_page p' bs' (<[o := val]> A))) ∧
  (∀ o val, A !! o = Some val → ∃ p' bs',
    page_delete_row o rs v (p, bs) = (Ok (large_bytes (product_objects val)), (p', bs')) ∧
    table_page p' bs' (delete o A)).
Proof using Hrt Hnr Hsize Hcode.
  intros Hr. destruct (table_page_inv _ _ _ Hr) as [rows Hinv]. destruct row_good as [_ Hrs].
  pose proof Hinv as [I1 I2 I3 I4]. split_and!.
  - intros o val Ho. destruct (proj2 (table_inv_lookup _ _ _ _ o Hinv)) as [gr Hgr]; [by eexists|].
    eapply read_value_ok; eauto.
  - destruct (iter_fixed_len_ok (E:=PageError) _ Hrs _ _ _ I1) as (l & Hl & Hs & Hin).
    exists l. split_and!; [done|done|]. intros o. rewrite Hin, <-(table_inv_lookup _ _ _ _ o Hinv). apply elem_of_dom.
  - intros. by apply write_reach.
  - intros o val Ho. destruct (delete_table_inv p bs A rows o val Hinv Ho) as (p' & bs' & Hd & _).
    exists p', bs'. split; [done|]. by econstructor.
Qed.
End table_rows.

(** ** Examples *)

Module Examples.
#[local] Instance last32_hash : Blake3 := BlobStore.Examples.last32_hash.

Definition col (ty : AlgebraicType) : ProductTypeElement := {| el_name := None; el_type := ty |}.
Definition variant (ty : AlgebraicType) : SumTypeVariant := {| var_name := None; var_type := ty |}.
Definition no_layout : RowTypeLayout :=
  {| row_layout := {| ly_size := 0; ly_align := 1; ly_fixed := true |}; row_elements := [] |}.
Definition layout_ex (es : list ProductTypeElement) : RowTypeLayout :=
  match row_type_layout (E:=unit) es with Ok rt => rt | _ => no_layout end.
Definition page_ex (rt : RowTypeLayout) : Page :=
  match page_new (E:=PageError) (row_size rt) with Ok p => p | _ => PageThm.Examples.no_page end.

(** A number, a string, and an optional array. *)
Definition es : list ProductTypeElement :=
  [col (TInt U32); col TString; col (TSum [variant (TProduct []); variant (TArray (TInt U8))])].
Definition rt : RowTypeLayout := Eval vm_compute in layout_ex es.
Definition val : ProductValue :=
  MkProductValue [VInt U32 7; VString [x68; x69]; VSum (MkSumValue 1 (VArray (AInt U8 [1; 2; 3])))].

Lemma val_typed : typed [] (TProduct es) (VProduct val).
Proof.
  exists (TProduct es). split; [by constructor|]. simpl. split_and!; try done.
  - exists (TInt U32). split; [by constructor|]. split; [done|]. by vm_compute.
  - exists TString. split; [by constructor|]. split; [done|]. unfold fits_u32. by vm_compute.
  - eexists. split; [by constructor|]. split; [by vm_compute|]. eexists. split; [done|].
    eexists. split; [by constructor|]. eexists. split; [by constructor|]. split_and!; try done; by vm_compute.
Qed.

Lemma rt_row : row_type_layout (E:=unit) es = Ok rt.
Proof. vm_compute. reflexivity. Qed.

Lemma rt_code : len (visitor_code rt) ≤ u16_MAX.
Proof. by vm_compute. Qed.

Lemma page_ex_reach : table_page (B:=HashMapBlobStore) es rt ∅ (page_ex rt) ∅ ∅.
Proof.
  constructor; [|by split]. destruct (row_good es rt rt_row) as [_ Hrs]; [done|by vm_compute|].
  destruct (page_new_inv (E:=PageError) _ Hrs (row_type_visitor rt)) as (p & Hn & _). unfold page_ex. by rewrite Hn.
Qed.

Lemma val_no_collision : collision_free (∅ ⊎ large (map_objects (∅ : gmap Z ProductValue)) ⊎ large (product_objects val)).
Proof.
  change (large (product_objects val)) with (∅ : gmultiset (list byte)).
  change (large (map_objects (∅ : gmap Z ProductValue))) with (∅ : gmultiset (list byte)). intros b b' Hb. exfalso. multiset_solver.
Qed.

(** The row is written to a new page, and reads back. *)
Lemma page_stores_rows_witness :
  ∃ o p' bs', write_row_to_page (row_type_visitor rt) rt val (page_ex rt, (∅ : HashMapBlobStore)) =
      (Ok (o, 0), (p', bs')) ∧
    serialize_row_from_page (E:=PageError) p' bs' o rt = Ok val ∧
    table_page es rt ∅ p' bs' {[o := val]}.
Proof.
  assert (H1 : ty_size (TProduct es) ≤ PAGE_DATA_SIZE) by (vm_compute; discriminate).
  destruct (page_stores_rows es rt rt_row eq_refl H1 rt_code ∅ _ _ _ page_ex_reach) as (_ & _ & Hw & _).
  destruct (Hw val val_typed val_no_collision) as (g & b & Hg & Hb & Hwr).
  destruct Hwr as (o & p' & bs' & Hw' & _ & Hr).
  { assert (g = 2) as ->; [vm_compute in Hg; congruence|].
    assert (H2 : has_space_for_row (E:=PageError) (page_ex rt) (row_size rt) 2 = Ok true) by (vm_compute; reflexivity).
    rewrite H2 in Hb. congruence. }
  exists o, p', bs'. split; [exact Hw'|].
  destruct (page_stores_rows es rt rt_row eq_refl H1 rt_code ∅ _ _ _ Hr) as (Hrd & _).
  split; [|exact Hr]. apply Hrd, lookup_insert_eq.
Defined.

(** A byte, or a string with a byte; and a value of which the last byte is
    not one. *)
Definition es_sum : list ProductTypeElement :=
  [col (TSum [variant (TInt U8); variant (TProduct [col TString; col (TInt U8)])])].
Definition rt_sum : RowTypeLayout := Eval vm_compute in layout_ex es_sum.
Definition byte_val : ProductValue := MkProductValue [VSum (MkSumValue 0 (VInt U8 5))].
Definition bad_val : ProductValue :=
  MkProductValue [VSum (MkSumValue 1 (VProduct (MkProductValue [VString [x68]; VBool true])))].
Definition write_ex (val : ProductValue) (s : Page * HashMapBlobStore) : result BflatnError (Z * Z) * (Page * HashMapBlobStore) :=
  write_row_to_page (row_type_visitor rt_sum) rt_sum val s.
Definition new_page : Page * HashMapBlobStore := (page_ex rt_sum, ∅).
Definition delete_first (s : Page * HashMapBlobStore) : Page * HashMapBlobStore :=
  (page_delete_row 0 (row_size rt_sum) (row_type_visitor rt_sum) s).2.
Definition outcome {E A} (r : result E A * (Page * HashMapBlobStore)) : result E A * Z * Z :=
  (r.1, page_num_rows r.2.1, page_num_var_len_granules r.2.1).

(** Rolling back a row whose payload is wrong.  The tag of a sum is written
    after its payload, so that when the payload is rejected the visitor that
    rolls back finds a stale tag: in a new page the granule of the string is
    neither freed nor in a row, and in the cell of a deleted row the tag is a
    byte of the freelist, for which there is no jump target, and the program
    panics. *)
Theorem rollback_stale_tag :
  row_type_layout (E:=unit) es_sum = Ok rt_sum ∧
  outcome (write_ex bad_val new_page) = (Err (WrongType (TInt U8) (VBool true)), 0, 1) ∧
  outcome (write_ex byte_val new_page) = (Ok (0, 0), 1, 0) ∧
  (outcome (write_ex bad_val (delete_first (write_ex byte_val new_page).2))).1.1 = Panic.
Proof. vm_compute. done. Qed.
End Examples.
