(* ===== verification/PagesThm.v ===== *)
(** * What the page manager promises

    The rows that were written to the page manager of a table, and not deleted,
    read back through their pointers; the pages that are not full are known as
    such, so that a row gets a new page only if no page has space for it. *)

From Stdlib Require Import ZArith Lia.
From stdpp Require Import gmap gmultiset.
From S2P Require Import Prelude Buffer Sats Bsatn Mem Indexes BitSet VarLen BlobStore Page PageInv PageRows PageRead PageThm Pages Layout RowTypeVisitor BflatnTo BflatnFrom BflatnRepr BflatnWrite BflatnThm.
Local Open Scope Z_scope.

(** What is relied on of the queue: it is first-in first-out, and [push] may
    refuse a page. *)
Class PageQueueLaws (Q : Type) {QueueI : PageQueue Q} := {
  queued : Q → list Page;
  queue_pop_law q : ∃ q', queue_pop q = (head (queued q), q') ∧ queued q' = tail (queued q);
  queue_push_law q p : ∃ ok q', queue_push q p = (ok, q') ∧
    queued q' = if ok : bool then queued q ++ [p] else queued q;
}.

(** ** Lists *)

Lemma bind_insert_perm {A C} (f : A → list C) (l : list A) i x y k :
  l !! i = Some x → f y ≡ₚ k ++ f x → <[i := y]> l ≫= f ≡ₚ k ++ (l ≫= f).
Proof.
  intros Hi Hf. assert (Hlt : (i < length l)%nat) by by eapply lookup_lt_Some.
  rewrite insert_take_drop by done. rewrite <-(take_drop_middle l i x Hi) at 3.
  rewrite !bind_app. cbn [mbind list_bind]. rewrite Hf. solve_Permutation.
Qed.

Lemma bind_delete_perm {A C} (f : A → list C) (l : list A) i x y k :
  l !! i = Some x → f x ≡ₚ k ++ f y → l ≫= f ≡ₚ k ++ (<[i := y]> l ≫= f).
Proof.
  intros Hi Hf. rewrite <-(bind_insert_perm f (<[i := y]> l) i y x k); [|by apply list_lookup_insert_eq; eapply lookup_lt_Some|done].
  by rewrite list_insert_insert_eq, list_insert_id.
Qed.

Lemma map_objects_insert {K} `{Countable K} (A : gmap K ProductValue) k val :
  A !! k = None → map_objects (<[k := val]> A) ≡ₚ product_objects val ++ map_objects A.
Proof. intros Hk. unfold map_objects. by rewrite map_to_list_insert. Qed.

Lemma map_objects_delete {K} `{Countable K} (A : gmap K ProductValue) k val :
  A !! k = Some val → map_objects A ≡ₚ product_objects val ++ map_objects (delete k A).
Proof. intros Hk. rewrite <-map_objects_insert by apply lookup_delete_eq. by rewrite insert_delete_id. Qed.

(** ** New pages *)

(** A page that was never used since it was allocated or reset. *)
Definition fresh_page (p : Page) : Prop :=
  fx_next_free (pg_fixed p) = FREE_NIL ∧ fx_last (pg_fixed p) = 0 ∧ pg_var p = VarHeader_default.

Section fresh.
Context {Q : Type} {QueueI : PageQueue Q} {QLawI : PageQueueLaws Q} {V : Type} {VisI : VarLenMembers V}.
Context {HashI : Blake3} (rs : Z) (Hrs : row_size_ok rs) (v : V).

(** A page that can be used again, whatever it holds. *)
Definition reusable (p : Page) : Prop :=
  len (pg_row_data p) = PAGE_END ∧ blocks_ok (fx_present_rows (pg_fixed p)).
Definition pool_ok (pool : PagePool Q) : Prop := Forall reusable (queued (pool_pages pool)).

Lemma page_inv_reusable p rows : page_inv rs v p rows → reusable p.
Proof. intros (fl & vl & u & H & _). split; [apply (po_len _ _ _ _ _ _ H)|apply (fo_blocks _ _ _ _ _ (po_fixed _ _ _ _ _ _ H))]. Qed.

Lemma page_new_fresh {E} n p : page_new_with_max_row_count (E:=E) n = Ok p → fresh_page p.
Proof.
  unfold page_new_with_max_row_count, PageHeader_new, FixedHeader_new.
  generalize (replicate (Z.to_nat PAGE_DATA_SIZE) x00). intros d.
  destruct (bitset_new n); try done. by intros [= <-].
Qed.
Lemma page_reset_fresh {E} q n p : page_reset_for (E:=E) q n = Ok p → fresh_page p.
Proof.
  unfold page_reset_for, PageHeader_reset_for, FixedHeader_reset_for.
  destruct (bitset_reset_for _ n); try done. by intros [= <-].
Qed.

Lemma take_page_ok {E} pool :
  pool_ok pool → ∃ p pool', take_with_fixed_row_size (E:=E) rs pool = (Ok p, pool') ∧
    page_inv rs v p ∅ ∧ fresh_page p ∧ pool_ok pool'.
Proof using Hrs.
  intros Hpool. unfold take_with_fixed_row_size, take_with_max_row_count.
  destruct (queue_pop_law (pool_pages pool)) as (q' & -> & Hq'). unfold pool_ok in *.
  destruct (queued (pool_pages pool)) as [|p ps] eqn:Hq; cbn [head].
  - destruct (page_new_inv (E:=E) rs Hrs v) as (p & Hn & Hp & _). unfold page_new in Hn. rewrite Hn.
    eexists p, _. split; [done|]. split_and!; [done|by eapply page_new_fresh|]. cbn [pool_pages]. by rewrite Hq'.
  - apply Forall_cons in Hpool as [[Hl Hb] Hps].
    destruct (page_reset_for_inv (E:=E) rs Hrs v p Hl Hb) as (p' & Hr & Hp').
    rewrite Hr. eexists p', _. split; [done|]. split_and!; [done|by eapply page_reset_fresh|]. cbn [pool_pages]. by rewrite Hq'.
Qed.

(** The granules that a row of a new page can have. *)
Lemma fresh_has_space {E} p n :
  fresh_page p → rs + 64 * n ≤ PAGE_DATA_SIZE → 0 ≤ n → has_space_for_row (E:=E) p rs n = Ok true.
Proof using Hrs.
  intros (F1 & F2 & F3) Hn H0. pose proof (rs_min _ Hrs).
  unfold has_space_for_row, gap_remaining_size, offset_sub. rewrite F1, F2, F3.
  change (vr_first VarHeader_default) with 65472. change (vr_freelist_len VarHeader_default) with 0.
  change PAGE_DATA_SIZE with 65472 in Hn. rewrite sub_u_Ok by lia. cbn [rbind].
  change (fcr_has FREE_NIL) with false. rewrite (proj2 (Z.ltb_ge _ _)) by lia.
  f_equal. apply Z.leb_le. unfold space_to_granules. change GRANULE_SIZE with 64.
  apply Z.le_trans with ((64 * n) / 64); [rewrite Z.mul_comm, Z.div_mul by lia; lia|].
  apply Z.div_le_mono; lia.
Qed.
End fresh.

(** ** The pages of a table *)

Section table_pages.
Context {Q B : Type} {QueueI : PageQueue Q} {QLawI : PageQueueLaws Q}.
Context {BsI : BlobStore B} {HashI : Blake3} {LawI : BlobStoreLaws B}.
Context (es : list ProductTypeElement) (rt : RowTypeLayout).
Context (Hrt : row_type_layout (E:=unit) es = Ok rt) (Hnr : contains_refs (TProduct es) = false).
Context (Hsize : ty_size (TProduct es) ≤ PAGE_DATA_SIZE) (Hcode : len (visitor_code rt) ≤ u16_MAX).
(** The byte strings that others keep in the blob store. *)
Context (m0 : gmultiset (list byte)).

Local Abbreviation rs := (row_size rt) (only parsing).
Local Abbreviation v := (row_type_visitor rt) (only parsing).

(** The set of pages that are not full, but for the page [ex]. *)
Definition non_full_ok (ps : Pages) (ex : option Z) : Prop :=
  NoDup (non_full_pages ps) ∧
  ∀ i, i ∈ non_full_pages ps ↔ Some i ≠ ex ∧ 0 ≤ i ∧
    ∃ p, pages ps !! Z.to_nat i = Some p ∧ page_is_full (E:=PagesError) p rs = Ok false.

Definition row_at (rows : list (gmap Z GRow)) (k : nat * Z) : option GRow := rows !! k.1 ≫= lookup k.2.

(** The rows of the pages represent the values of the map. *)
Record pages_inv (ps : Pages) (bs : B) (A : gmap (nat * Z) ProductValue) (rows : list (gmap Z GRow)) : Prop := {
  pi_pages : Forall2 (page_inv rs v) (pages ps) rows;
  pi_rows k : option_Forall2 (row_repr rt) (row_at rows k) (A !! k);
  pi_objs : rows ≫= row_objects ≡ₚ map_objects A;
  pi_store : holds bs (m0 ⊎ large (rows ≫= row_objects));
  pi_len : len (pages ps) ≤ PageIndex_MAX + 1;
}.

Lemma page_is_full_ok {E} p rows : page_inv rs v p rows → ∃ b, page_is_full (E:=E) p rs = Ok b.
Proof using Hrt Hnr Hsize.
  intros (fl & vl & u & H & _). destruct (row_good es rt Hrt Hnr Hsize) as [_ Hrs].
  destruct (has_space_spec (E:=E) rs Hrs p fl _ vl u 0 H) as (b & Hb & _).
  unfold page_is_full. rewrite Hb. by eexists.
Qed.

(** ** Finding a page *)

Lemma pages_lookup ps bs A rows i :
  pages_inv ps bs A rows → 0 ≤ i < len (pages ps) →
  ∃ p r, get_page (E:=PagesError) ps i = Ok p ∧ pages ps !! Z.to_nat i = Some p ∧ rows !! Z.to_nat i = Some r ∧
    page_inv rs v p r.
Proof using.
  intros [H _ _ _ _] Hi. destruct (lookup_lt_is_Some_2 (pages ps) (Z.to_nat i)) as [p Hp]; [unfold len in Hi; lia|].
  destruct (Forall2_lookup_l _ _ _ _ _ H Hp) as (r & Hr & Hpr). exists p, r. split_and!; try done.
  unfold get_page. by apply vec_get_Ok; [lia|].
Qed.

Lemma find_page_ok ps bs A rows n : ∀ cands k,
  pages_inv ps bs A rows → (∀ i, i ∈ cands → 0 ≤ i < len (pages ps)) →
  ∃ r, find_page_with_space (E:=PagesError) ps rs n k cands = Ok r ∧
    match r with
    | None => ∀ i p, i ∈ cands → pages ps !! Z.to_nat i = Some p → has_space_for_row (E:=PagesError) p rs n = Ok false
    | Some (j, i) => ∃ j', j = (k + j')%nat ∧ cands !! j' = Some i ∧ ∃ p, pages ps !! Z.to_nat i = Some p ∧
        has_space_for_row (E:=PagesError) p rs n = Ok true
    end.
Proof using Hrt Hnr Hsize.
  intros cands k Hinv. destruct (row_good es rt Hrt Hnr Hsize) as [_ Hrs]. revert k.
  induction cands as [|i cands IH]; intros k Hc.
  - exists None. split; [done|]. intros i p Hi. by apply not_elem_of_nil in Hi.
  - destruct (pages_lookup ps bs A rows i Hinv) as (p & r & Hg & Hp & _ & Hpi); [apply Hc; by left|].
    pose proof Hpi as (fl & vl & u & H & _).
    destruct (has_space_spec (E:=PagesError) rs Hrs p fl _ vl u n H) as (b & Hb & _).
    cbn [find_page_with_space]. rewrite Hg. cbn [rbind]. rewrite Hb. cbn [rbind]. destruct b.
    + eexists. split; [done|]. exists 0%nat. split_and!; [lia|done|]. eauto.
    + destruct (IH (S k)) as (res & Hres & Hspec); [intros; apply Hc; by right|]. exists res. split; [done|].
      destruct res as [[j i']|].
      * destruct Hspec as (j' & -> & Hj & Hsp). exists (S j'). split_and!; [lia|done|done].
      * intros i' p' [->|Hi']%elem_of_cons Hp'; [congruence|]. by eapply Hspec.
Qed.

Lemma non_full_bounds ps ex i : non_full_ok ps ex → i ∈ non_full_pages ps → 0 ≤ i < len (pages ps).
Proof using.
  intros [_ H] Hi. apply H in Hi as (_ & Hi & p & Hp & _). apply lookup_lt_Some in Hp. unfold len. lia.
Qed.

(** The page found is taken out of the set. *)
Lemma non_full_take ps i j :
  non_full_ok ps None → non_full_pages ps !! j = Some i →
  non_full_ok {| pages := pages ps; non_full_pages := swap_remove j (non_full_pages ps) |} (Some i).
Proof using.
  intros [Hnd H] Hj. pose proof (swap_remove_perm _ _ _ Hj) as Hp. cbn [pages non_full_pages].
  rewrite <-Hp in Hnd. apply NoDup_cons in Hnd as [Hni Hnd]. split; [done|]. intros k. cbn [non_full_pages pages].
  assert (Hk : k ∈ non_full_pages ps ↔ k = i ∨ k ∈ swap_remove j (non_full_pages ps)).
  { rewrite <-elem_of_cons. assert (Hperm : ∀ l l' : list Z, l ≡ₚ l' → k ∈ l' ↔ k ∈ l) by (by intros l l' ->). by apply Hperm. }
  rewrite H in Hk. split.
  - intros Hin. destruct (proj2 Hk (or_intror Hin)) as (_ & Hr). split; [|done]. intros [= ->]. done.
  - intros (Hne & Hr). destruct (proj1 Hk) as [->|]; [done| |done]. done.
Qed.

(** A new page, which is not in the set yet. *)
Lemma non_full_push ps p :
  non_full_ok ps None →
  non_full_ok {| pages := pages ps ++ [p]; non_full_pages := non_full_pages ps |} (Some (len (pages ps))).
Proof using.
  intros [Hnd H]. split; [done|]. intros k. cbn [non_full_pages pages]. rewrite H. unfold len. split.
  - intros (_ & Hk & q & Hq & Hf). pose proof (lookup_lt_Some _ _ _ Hq). split; [intros [= ->]; lia|]. split; [done|].
    exists q. split; [|done]. by rewrite lookup_app_l.
  - intros (Hne & Hk & q & Hq & Hf). split; [done|]. split; [done|]. exists q. split; [|done].
    apply lookup_app_Some in Hq as [Hq|[Hle Hq]]; [done|]. exfalso. apply Hne.
    destruct (Z.to_nat k - length (pages ps))%nat eqn:Hk'; [|done]. f_equal. lia.
Qed.

Lemma pages_push ps bs A rows p :
  pages_inv ps bs A rows → page_inv rs v p ∅ → len (pages ps) ≤ PageIndex_MAX →
  pages_inv {| pages := pages ps ++ [p]; non_full_pages := non_full_pages ps |} bs A (rows ++ [∅]).
Proof using.
  intros [I1 I2 I3 I4 I5] Hp Hl.
  assert (Hob : (rows ++ [∅]) ≫= row_objects = rows ≫= row_objects).
  { rewrite bind_app. cbn. by rewrite app_nil_r. }
  split; cbn [pages]; rewrite ?Hob; try done.
  - apply Forall2_app; [done|]. by repeat constructor.
  - intros k. assert (row_at (rows ++ [∅]) k = row_at rows k) as ->; [|done].
    unfold row_at. destruct (decide (k.1 < length rows)%nat) as [Hk|Hk]; [by rewrite lookup_app_l|].
    rewrite lookup_app_r, (lookup_ge_None_2 rows) by lia. by destruct (k.1 - length rows)%nat.
  - rewrite len_app. unfold len in *. simpl. lia.
Qed.

(** What [find_page_with_space_for_row] gives. *)
Definition found (s : Pages * PagePool Q * B) (n : Z) (A : gmap (nat * Z) ProductValue) : Prop :=
  let '(ps, pool, bs) := s in
  ∃ i ps' pool' rows' p r, find_page_with_space_for_row rs n (ps, pool, bs) = (Ok i, (ps', pool', bs)) ∧
    0 ≤ i ≤ PageIndex_MAX ∧ pages_inv ps' bs A rows' ∧ non_full_ok ps' (Some i) ∧ pool_ok pool' ∧
    pages ps' !! Z.to_nat i = Some p ∧ rows' !! Z.to_nat i = Some r ∧
    has_space_for_row (E:=PageError) p rs n = Ok true.

Lemma has_space_any {E E'} p n b : has_space_for_row (E:=E) p rs n = Ok b → has_space_for_row (E:=E') p rs n = Ok b.
Proof using.
  unfold has_space_for_row, gap_remaining_size, offset_sub, sub_u. destruct (_ <=? _); [|done]. cbn [rbind].
  destruct (fcr_has _); [by intros [= <-]|]. destruct (_ <? _); by intros [= <-].
Qed.

Lemma find_unfold n ps pool (bs : B) res :
  find_page_with_space (E:=PagesError) ps rs n 0 (non_full_pages ps) = Ok res →
  find_page_with_space_for_row rs n (ps, pool, bs) =
    match res with
    | Some (j, i) => (Ok i, ({| pages := pages ps; non_full_pages := swap_remove j (non_full_pages ps) |}, pool, bs))
    | None => allocate_new_page rs (ps, pool, bs)
    end.
Proof using.
  intros Hres. unfold find_page_with_space_for_row, lift_pages, sbind at 1, slift. rewrite Hres. by destruct res as [[j i]|].
Qed.

Lemma allocate_unfold ps pool pool' (bs : B) p :
  take_with_fixed_row_size (E:=PagesError) rs pool = (Ok p, pool') →
  allocate_new_page rs (ps, pool, bs) =
    if len (pages ps) <=? PageIndex_MAX
    then (Ok (len (pages ps)), ({| pages := pages ps ++ [p]; non_full_pages := non_full_pages ps |}, pool', bs))
    else (Err TooManyPages, (ps, pool, bs)).
Proof using.
  intros Ht. unfold allocate_new_page, lift_pages, sbind at 1, slift, can_allocate_new_page.
  destruct (_ <=? _); [|done]. unfold on_pool, sbind. by rewrite Ht.
Qed.

Lemma find_ok ps pool bs A rows n :
  pages_inv ps bs A rows → non_full_ok ps None → pool_ok pool → rs + 64 * n ≤ PAGE_DATA_SIZE → 0 ≤ n →
  found (ps, pool, bs) n A ∨
  find_page_with_space_for_row rs n (ps, pool, bs) = (Err TooManyPages, (ps, pool, bs)) ∧
    len (pages ps) = PageIndex_MAX + 1.
Proof using Hrt Hnr Hsize.
  intros Hinv Hnf Hpool Hn H0. destruct (row_good es rt Hrt Hnr Hsize) as [_ Hrs]. pose proof (pi_len _ _ _ _ Hinv) as Hl.
  destruct (find_page_ok ps bs A rows n (non_full_pages ps) 0 Hinv) as (res & Hres & Hspec); [by intros i; apply (non_full_bounds ps None)|].
  unfold found. rewrite (find_unfold n ps pool bs res Hres). destruct res as [[j i]|].
  - left. destruct Hspec as (j' & -> & Hj & p & Hp & Hsp).
    destruct (non_full_bounds ps None i Hnf) as [Hi0 Hi1]; [by eapply list_elem_of_lookup_2|].
    destruct (pages_lookup ps bs A rows i Hinv (conj Hi0 Hi1)) as (p' & r & _ & Hp' & Hr & _).
    assert (p' = p) as -> by congruence.
    eexists i, _, pool, rows, p, r. split; [done|]. split_and!; try done; [lia| |by apply non_full_take|by eapply has_space_any].
    destruct Hinv. by split.
  - destruct (take_page_ok (E:=PagesError) rs Hrs v pool Hpool) as (p & pool' & Ht & Hp & Hfr & Hpool').
    rewrite (allocate_unfold ps pool pool' bs p Ht).
    destruct (Z.leb_spec (len (pages ps)) PageIndex_MAX) as [Hle|Hgt]; [left|right; split; [done|lia]].
    eexists _, _, pool', (rows ++ [∅]), p, ∅. split; [done|]. pose proof (len_nonneg (pages ps)) as Hl0.
    assert (length rows = length (pages ps)) as Hlen by (symmetry; eapply Forall2_length, Hinv).
    split_and!; [lia|lia|by apply pages_push|by apply non_full_push|done| | |by apply fresh_has_space].
    + cbn [pages]. rewrite lookup_app_r by (unfold len in *; lia). unfold len. by rewrite Nat2Z.id, Nat.sub_diag.
    + rewrite lookup_app_r by (unfold len in *; lia). unfold len. by rewrite Nat2Z.id, Hlen, Nat.sub_diag.
Qed.

(** ** Changing a page *)

Lemma pages_inv_ext ps ps' bs A rows : pages ps' = pages ps → pages_inv ps bs A rows → pages_inv ps' bs A rows.
Proof using. intros He []. split; by rewrite ?He. Qed.

Lemma row_at_insert rows i r r' k :
  rows !! i = Some r → row_at (<[i := r']> rows) k = if decide (k.1 = i) then r' !! k.2 else row_at rows k.
Proof using.
  intros Hi. unfold row_at. case_decide as Hk.
  - subst i. by rewrite list_lookup_insert_eq by by eapply lookup_lt_Some.
  - by rewrite list_lookup_insert_ne.
Qed.

Lemma pages_write ps bs bs' A rows i r o p' gr val :
  pages_inv ps bs A rows → rows !! i = Some r → r !! o = None → page_inv rs v p' (<[o := gr]> r) →
  row_repr rt gr val → gr_objs gr = product_objects val →
  holds bs' (m0 ⊎ large (rows ≫= row_objects) ⊎ large (product_objects val)) →
  A !! (i, o) = None ∧
  pages_inv (set_page ps (Z.of_nat i) p') bs' (<[(i, o) := val]> A) (<[i := <[o := gr]> r]> rows).
Proof using.
  intros Hinv Hr Ho Hp Hrep Hobjs Hm. pose proof Hinv as [I1 I2 I3 I4 I5].
  assert (Hat : row_at rows (i, o) = None) by (unfold row_at; cbn; by rewrite Hr).
  assert (HA : A !! (i, o) = None) by (specialize (I2 (i, o)); rewrite Hat in I2; by inversion I2).
  split; [done|].
  assert (Hob : <[i := <[o := gr]> r]> rows ≫= row_objects ≡ₚ product_objects val ++ (rows ≫= row_objects)).
  { eapply bind_insert_perm; [done|]. by rewrite row_objects_insert, Hobjs. }
  split.
  - cbn [set_page pages]. rewrite Nat2Z.id. by apply Forall2_insert.
  - intros [i' o']. rewrite (row_at_insert rows i r) by done. cbn [fst snd]. case_decide as Hi.
    + subst i'. destruct (decide (o = o')) as [<-|Hne]; [rewrite !lookup_insert_eq; by constructor|].
      rewrite !lookup_insert_ne by congruence. specialize (I2 (i, o')). unfold row_at in I2. cbn in I2. by rewrite Hr in I2.
    + rewrite lookup_insert_ne by congruence. apply I2.
  - by rewrite Hob, map_objects_insert, I3.
  - rewrite (large_perm' _ _ Hob), large_app'.
    by rewrite disj_union_swap.
  - unfold len. cbn [set_page pages]. by rewrite length_insert.
Qed.

Lemma pages_delete ps bs bs' A rows i r o p' gr val :
  pages_inv ps bs A rows → rows !! i = Some r → r !! o = Some gr → A !! (i, o) = Some val →
  gr_objs gr = product_objects val → page_inv rs v p' (delete o r) →
  holds bs' (m0 ⊎ large (<[i := delete o r]> rows ≫= row_objects)) →
  pages_inv (set_page ps (Z.of_nat i) p') bs' (delete (i, o) A) (<[i := delete o r]> rows).
Proof using.
  intros Hinv Hr Ho HA Hobjs Hp Hm. pose proof Hinv as [I1 I2 I3 I4 I5].
  assert (Hob : rows ≫= row_objects ≡ₚ product_objects val ++ (<[i := delete o r]> rows ≫= row_objects)).
  { eapply bind_delete_perm; [done|]. by rewrite (row_objects_delete r o gr Ho), Hobjs. }
  split.
  - cbn [set_page pages]. rewrite Nat2Z.id. by apply Forall2_insert.
  - intros [i' o']. rewrite (row_at_insert rows i r) by done. cbn [fst snd]. case_decide as Hi.
    + subst i'. destruct (decide (o = o')) as [<-|Hne]; [rewrite !lookup_delete_eq; by constructor|].
      rewrite !lookup_delete_ne by congruence. specialize (I2 (i, o')). unfold row_at in I2. cbn in I2. by rewrite Hr in I2.
    + rewrite lookup_delete_ne by congruence. apply I2.
  - apply (Permutation_app_inv_l (product_objects val)). by rewrite <-Hob, <-map_objects_delete.
  - done.
  - unfold len. cbn [set_page pages]. by rewrite length_insert.
Qed.

Lemma non_full_put ps i p' r' :
  non_full_ok ps (Some i) → 0 ≤ i < len (pages ps) → page_inv rs v p' r' →
  ∃ ps', maybe_mark_page_non_full (E:=PagesError) i rs (set_page ps i p') = Ok ps' ∧
    pages ps' = pages (set_page ps i p') ∧ non_full_ok ps' None.
Proof using Hrt Hnr Hsize.
  intros [Hnd H] Hi Hp. assert (Hlt : (Z.to_nat i < length (pages ps))%nat) by (unfold len in Hi; lia).
  destruct (page_is_full_ok (E:=PagesError) p' r' Hp) as [b Hb].
  assert (Hg : pages (set_page ps i p') !! Z.to_nat i = Some p') by by apply list_lookup_insert_eq.
  unfold maybe_mark_page_non_full, get_page. rewrite (vec_get_Ok _ _ p') by (done || lia). cbn [rbind]. rewrite Hb. cbn [rbind].
  assert (Hother : ∀ k q, k ≠ i → 0 ≤ k → pages (set_page ps i p') !! Z.to_nat k = Some q ↔ pages ps !! Z.to_nat k = Some q).
  { intros k q Hk Hk0. cbn [set_page pages]. by rewrite list_lookup_insert_ne by lia. }
  destruct b; eexists; (split; [done|]); (split; [done|]).
  - split; [done|]. intros k. cbn [set_page non_full_pages]. rewrite H. split.
    + intros (Hne & Hk & q & Hq & Hf). split; [done|]. split; [done|]. exists q. split; [|done]. apply Hother; [congruence|done|done].
    + intros (_ & Hk & q & Hq & Hf). destruct (decide (k = i)) as [->|Hki]; [congruence|].
      split; [congruence|]. split; [done|]. exists q. split; [|done]. by apply Hother in Hq.
  - split.
    + cbn. apply NoDup_app. split_and!; [done| |by apply NoDup_singleton].
      intros k Hk ->%list_elem_of_singleton. apply H in Hk as (Hne & _). done.
    + intros k. cbn [mark_page_non_full non_full_pages set_page]. rewrite elem_of_app, list_elem_of_singleton, H. split.
      * intros [(Hne & Hk & q & Hq & Hf)| ->]; (split; [done|]).
        -- split; [done|]. exists q. split; [|done]. apply Hother; [congruence|done|done].
        -- split; [lia|]. exists p'. done.
      * intros (_ & Hk & q & Hq & Hf). destruct (decide (k = i)) as [->|Hki]; [by right|]. left.
        split; [congruence|]. split; [done|]. exists q. split; [|done]. by apply Hother in Hq.
Qed.

(** ** Writing *)

Lemma on_one_page_Ok {E E' A'} ps (pool : PagePool Q) (bs bs' : B) i p p' (f : st (Page * B) E' A') a :
  0 ≤ i → pages ps !! Z.to_nat i = Some p → f (p, bs) = (Ok a, (p', bs')) →
  on_one_page (E:=E) i f (ps, pool, bs) = (Ok (Ok a), (set_page ps i p', pool, bs')).
Proof using. intros Hi Hp Hf. unfold on_one_page, get_page. rewrite (vec_get_Ok _ _ p) by done. by rewrite Hf. Qed.

Lemma with_page_Ok {E' A'} n ps ps1 ps2 (pool pool1 : PagePool Q) (bs bs' : B) i p p' (f : st (Page * B) E' A') a :
  find_page_with_space_for_row rs n (ps, pool, bs) = (Ok i, (ps1, pool1, bs)) → 0 ≤ i →
  pages ps1 !! Z.to_nat i = Some p → f (p, bs) = (Ok a, (p', bs')) →
  maybe_mark_page_non_full (E:=PagesError) i rs (set_page ps1 i p') = Ok ps2 →
  with_page_to_insert_row rs n f (ps, pool, bs) = (Ok (i, Ok a), (ps2, pool1, bs')).
Proof using.
  intros Hf Hi Hp Hw Hmk. unfold with_page_to_insert_row.
  rewrite (sbind_Ok _ _ _ _ _ Hf), (sbind_Ok _ _ _ _ _ (on_one_page_Ok ps1 pool1 bs bs' i p p' f a Hi Hp Hw)).
  rewrite (sbind_Ok _ _ _ (set_page ps1 i p', pool1, bs') ps2); [done|]. unfold lift_pages, slift. by rewrite Hmk.
Qed.

Lemma row_offset_range p r o gr : page_inv rs v p (<[o := gr]> r) → in_u 16 o.
Proof using Hrt Hnr Hsize.
  intros (fl & vl & u & H & _). destruct (row_good es rt Hrt Hnr Hsize) as [_ Hrs].
  destruct (row_cell _ Hrs _ _ _ _ _ o H) as (O1 & O2 & _); [right; rewrite dom_insert_L; by apply elem_of_union_l, elem_of_singleton|].
  pose proof (page_bounds _ Hrs _ _ _ _ _ H). pose proof (rs_min _ Hrs). change PAGE_END with 65472 in *. unfold in_u. lia.
Qed.

(** A row that fits in an empty page: [write_row_to_pages] stores it, unless
    there are too many pages. *)
Definition fits (val : ProductValue) : Prop := rs + 64 * total_granules (product_objects val) ≤ PAGE_DATA_SIZE.

(** What a function that writes a row to a page must do. *)
Definition stores_row {E' A'} (f : st (Page * B) E' A') (mk : Z → A') (n : Z) (bs : B) (A : gmap (nat * Z) ProductValue) (val : ProductValue) : Prop :=
  ∀ p r, page_inv rs v p r → holds bs (m0 ⊎ large (map_objects A)) → has_space_for_row (E:=PageError) p rs n = Ok true →
  ∃ o p' bs' gr, f (p, bs) = (Ok (mk o), (p', bs')) ∧ r !! o = None ∧ page_inv rs v p' (<[o := gr]> r) ∧
    gr_objs gr = product_objects val ∧ row_repr rt gr val ∧ holds bs' (m0 ⊎ large (map_objects A) ⊎ large (product_objects val)).

Lemma with_page_stores {E' A'} (f : st (Page * B) E' A') mk n ps pool bs A rows val :
  pages_inv ps bs A rows → non_full_ok ps None → pool_ok pool → rs + 64 * n ≤ PAGE_DATA_SIZE → 0 ≤ n →
  stores_row f mk n bs A val →
  (∃ o i ps' pool' bs' rows', with_page_to_insert_row rs n f (ps, pool, bs) = (Ok (Z.of_nat i, Ok (mk o)), (ps', pool', bs')) ∧
    in_u 39 (Z.of_nat i) ∧ in_u 16 o ∧ A !! (i, o) = None ∧
    pages_inv ps' bs' (<[(i, o) := val]> A) rows' ∧ non_full_ok ps' None ∧ pool_ok pool') ∨
  with_page_to_insert_row rs n f (ps, pool, bs) = (Err TooManyPages, (ps, pool, bs)) ∧ len (pages ps) = PageIndex_MAX + 1.
Proof using Hrt Hnr Hsize.
  intros Hinv Hnf Hpool Hn H0 Hstores. destruct (find_ok ps pool bs A rows n Hinv Hnf Hpool Hn H0) as [Hf|[Hf Hl]].
  - left. destruct Hf as (i & ps1 & pool1 & rows1 & p & r & Hf & Hi & Hinv1 & Hnf1 & Hpool1 & Hp & Hr & Hsp).
    pose proof (pi_store _ _ _ _ Hinv1) as Hm. pose proof (large_perm' _ _ (pi_objs _ _ _ _ Hinv1)) as Hob.
    pose proof (Forall2_lookup_lr _ _ _ _ _ _ (pi_pages _ _ _ _ Hinv1) Hp Hr) as Hpi. rewrite Hob in Hm.
    destruct (Hstores p r Hpi Hm Hsp) as (o & p' & bs' & gr & Hw & Ho & Hp' & Hobjs & Hrep & Hm'). rewrite <-Hob in Hm'.
    destruct (pages_write ps1 bs bs' A rows1 (Z.to_nat i) r o p' gr val Hinv1 Hr Ho Hp' Hrep Hobjs Hm') as [HA Hinv2].
    rewrite Z2Nat.id in Hinv2 by lia.
    assert (Hlt : 0 ≤ i < len (pages ps1)) by (apply lookup_lt_Some in Hp; unfold len; lia).
    destruct (non_full_put ps1 i p' _ Hnf1 Hlt Hp') as (ps2 & Hmk & Hpg & Hnf2).
    pose proof (row_offset_range _ _ _ _ Hp') as Hor.
    assert (Hir : in_u 39 i) by (unfold in_u; change PageIndex_MAX with (2 ^ 39 - 1) in Hi; lia).
    exists o, (Z.to_nat i), ps2, pool1, bs', (<[Z.to_nat i := <[o := gr]> r]> rows1).
    rewrite Z2Nat.id by lia. split_and!; try done; [|by apply (pages_inv_ext (set_page ps1 i p'))].
    exact (with_page_Ok n ps ps1 ps2 pool pool1 bs bs' i p p' f (mk o) Hf (proj1 Hi) Hp Hw Hmk).
  - right. split; [|done]. unfold with_page_to_insert_row. by rewrite (sbind_Err _ _ _ _ _ Hf).
Qed.

Lemma write_row_to_pages_ok ps pool bs A rows val sq :
  pages_inv ps bs A rows → non_full_ok ps None → pool_ok pool → in_u 8 sq →
  typed [] (TProduct es) (VProduct val) → fits val →
  collision_free (m0 ⊎ large (map_objects A) ⊎ large (product_objects val)) →
  (∃ ptr i o ps' pool' bs' rows',
    write_row_to_pages v rt val sq (ps, pool, bs) = (Ok (ptr, large_bytes (product_objects val)), (ps', pool', bs')) ∧
    ptr = RowPointer_new false (Z.of_nat i) o sq ∧ page_index ptr = Z.of_nat i ∧ page_offset ptr = o ∧
    squashed_offset ptr = sq ∧ A !! (i, o) = None ∧
    pages_inv ps' bs' (<[(i, o) := val]> A) rows' ∧ non_full_ok ps' None ∧ pool_ok pool') ∨
  write_row_to_pages v rt val sq (ps, pool, bs) = (Err (BPagesError TooManyPages), (ps, pool, bs)) ∧
    len (pages ps) = PageIndex_MAX + 1.
Proof using Hrt Hnr Hsize Hcode.
  intros Hinv Hnf Hpool Hsq Ht Hfits Hc. destruct (required_granules es rt Hrt Hnr val Ht) as (vals & -> & Hts & Hreq).
  set (val := MkProductValue vals) in *. set (n := total_granules (product_objects val)) in *.
  assert (Hreq' : required_var_len_granules_for_row (E:=BflatnError) val = Ok n).
  { exact (proj2 (traverse_ok (E:=BflatnError)) _ _ _ Hts 0). }
  unfold write_row_to_pages. rewrite (sbind_Ok _ _ _ (ps, pool, bs) n) by (unfold slift; by rewrite Hreq').
  destruct (with_page_stores (write_row_to_page v rt val) (λ o, (o, large_bytes (product_objects val))) n ps pool bs A rows val
    Hinv Hnf Hpool Hfits (total_granules_nonneg _))
    as [(o & i & ps' & pool' & bs' & rows' & Hw & Hir & Hor & HA & Hinv' & Hnf' & Hpool')|[Hw Hl]].
  - intros p r Hpi Hm Hsp. destruct (write_row_to_page_ok es rt Hrt Hnr Hsize Hcode p bs r _ vals _ Hpi Hm Hts Hsp Hc)
      as (o & p' & bs' & gr & Hw & Ho & Hp' & Hobjs & Hrep & Hm' & _). by exists o, p', bs', gr.
  - left. exists (RowPointer_new false (Z.of_nat i) o sq), i, o, ps', pool', bs', rows'.
    rewrite page_index_new, page_offset_new, squashed_offset_new by done. split_and!; try done.
    rewrite (sbind_Ok _ _ _ (ps', pool', bs') (Z.of_nat i, Ok (o, large_bytes (product_objects val)))); [done|]. by rewrite Hw.
  - right. split; [|done]. apply sbind_Err. by rewrite Hw.
Qed.

(** ** Deleting *)

Lemma non_full_delete ps i p p' r' b :
  non_full_ok ps None → 0 ≤ i → pages ps !! Z.to_nat i = Some p →
  page_is_full (E:=PagesError) p rs = Ok b → page_is_full (E:=PagesError) p' rs = Ok false → page_inv rs v p' r' →
  non_full_ok (if b then mark_page_non_full i (set_page ps i p') else set_page ps i p') None.
Proof using Hrt Hnr Hsize.
  intros Hnf Hi Hp Hb Hb' Hpi. pose proof (lookup_lt_Some _ _ _ Hp) as Hlt. destruct b.
  - assert (Hex : non_full_ok ps (Some i)).
    { destruct Hnf as [Hnd H]. split; [done|]. intros k. rewrite H. split; [|by intros (_ & Hk)].
      intros (_ & Hk0 & q & Hq & Hf). split; [intros [= ->]; congruence|]. eauto. }
    destruct (non_full_put ps i p' r' Hex) as (ps' & Hmk & _ & Hnf'); [unfold len; lia|done|].
    unfold maybe_mark_page_non_full, get_page in Hmk. rewrite (vec_get_Ok _ _ p') in Hmk by (done || by apply list_lookup_insert_eq).
    cbn [rbind] in Hmk. rewrite Hb' in Hmk. by injection Hmk as <-.
  - destruct Hnf as [Hnd H]. split; [done|]. intros k. cbn [set_page non_full_pages pages]. rewrite H.
    split; intros (_ & Hk0 & q & Hq & Hf); (split; [done|]); (split; [done|]); destruct (decide (k = i)) as [->|Hne].
    + exists p'. by rewrite list_lookup_insert_eq.
    + exists q. by rewrite list_lookup_insert_ne by lia.
    + eauto.
    + exists q. by rewrite list_lookup_insert_ne in Hq by lia.
Qed.

Lemma pages_row ps bs A rows k val :
  pages_inv ps bs A rows → A !! k = Some val →
  ∃ p r gr, pages ps !! k.1 = Some p ∧ rows !! k.1 = Some r ∧ r !! k.2 = Some gr ∧ page_inv rs v p r ∧
    row_repr rt gr val ∧ gr_objs gr = product_objects val.
Proof using.
  intros [I1 I2 I3 I4 I5] HA. specialize (I2 k). rewrite HA in I2. inversion I2 as [gr val' Hrep Hgr|]; subst.
  symmetry in Hgr. unfold row_at in Hgr. destruct (rows !! k.1) as [r|] eqn:Hr; [|done]. cbn in Hgr.
  destruct (Forall2_lookup_r _ _ _ _ _ I1 Hr) as (p & Hp & Hpi). exists p, r, gr. split_and!; try done.
  unfold row_repr in Hrep. destruct val as [vals]. by eapply (proj2 (repr_objects _)).
Qed.

Lemma pages_delete_row_ok ps (pool : PagePool Q) bs A rows ptr val :
  pages_inv ps bs A rows → non_full_ok ps None → A !! (Z.to_nat (page_index ptr), page_offset ptr) = Some val →
  ∃ ps' bs' rows', pages_delete_row v rs ptr (ps, pool, bs) =
      (Ok (large_bytes (product_objects val)), (ps', pool, bs')) ∧
    pages_inv ps' bs' (delete (Z.to_nat (page_index ptr), page_offset ptr) A) rows' ∧ non_full_ok ps' None.
Proof using Hrt Hnr Hsize.
  intros Hinv Hnf HA. destruct (row_good es rt Hrt Hnr Hsize) as [_ Hrs].
  assert (Hi0 : 0 ≤ page_index ptr) by by apply field_range.
  destruct (pages_row _ _ _ _ _ _ Hinv HA) as (p & r & gr & Hp & Hr & Hgr & Hpi & Hrep & Hobjs). cbn [fst snd] in *.
  set (i := page_index ptr) in *. set (o := page_offset ptr) in *.
  assert (Hob : rows ≫= row_objects ≡ₚ gr_objs gr ++ (<[Z.to_nat i := delete o r]> rows ≫= row_objects)).
  { eapply bind_delete_perm; [done|]. by apply row_objects_delete. }
  destruct (delete_row_ok rs Hrs v p bs r (m0 ⊎ large (<[Z.to_nat i := delete o r]> rows ≫= row_objects)) o gr Hpi Hgr)
    as (p' & bs' & Hd & Hp' & Hm' & _ & Hfull').
  { pose proof (pi_store _ _ _ _ Hinv) as Hm. rewrite (large_perm' _ _ Hob), large_app' in Hm.
    by rewrite <-disj_union_swap. }
  pose proof (pages_delete ps bs bs' A rows (Z.to_nat i) r o p' gr val Hinv Hr Hgr HA Hobjs Hp' Hm') as Hinv'.
  rewrite Z2Nat.id in Hinv' by done. destruct (page_is_full_ok (E:=PagesError) p r Hpi) as [b Hb].
  exists (if b then mark_page_non_full i (set_page ps i p') else set_page ps i p'), bs', (<[Z.to_nat i := delete o r]> rows).
  split_and!; [|by destruct b; [eapply (pages_inv_ext (set_page ps i p'))|]|by eapply non_full_delete].
  unfold pages_delete_row. fold i o. rewrite (sbind_Ok _ _ _ (ps, pool, bs) b).
  - rewrite (sbind_Ok _ _ _ _ _ (on_one_page_Ok ps pool bs bs' i p p' _ _ Hi0 Hp Hd)). rewrite <-Hobjs. by destruct b.
  - unfold lift_pages, slift, get_page. rewrite (vec_get_Ok _ _ p) by done. cbn [rbind]. by rewrite Hb.
Qed.

(** ** The rows of a table *)

(** The squashed offset of the table. *)
Context (sq : Z) (Hsq : in_u 8 sq).

Definition ptr_key (ptr : Z) : nat * Z := (Z.to_nat (page_index ptr), page_offset ptr).

(** The states that writing and deleting rows lead to, while others take pages
    from the pool and put back theirs, and the values that are stored. *)
Inductive table_pages : Pages * PagePool Q * B → gmap (nat * Z) ProductValue → Prop :=
| tps_new pool bs : pool_ok pool → holds bs m0 → table_pages (pages_default, pool, bs) ∅
| tps_pool ps pool pool' bs A : table_pages (ps, pool, bs) A → pool_ok pool' → table_pages (ps, pool', bs) A
| tps_write s A val ptr n s' :
    table_pages s A → typed [] (TProduct es) (VProduct val) → fits val →
    collision_free (m0 ⊎ large (map_objects A) ⊎ large (product_objects val)) →
    write_row_to_pages v rt val sq s = (Ok (ptr, n), s') → table_pages s' (<[ptr_key ptr := val]> A)
| tps_delete s A ptr val n s' :
    table_pages s A → A !! ptr_key ptr = Some val → pages_delete_row v rs ptr s = (Ok n, s') →
    table_pages s' (delete (ptr_key ptr) A).

Definition pages_state_inv (s : Pages * PagePool Q * B) (A : gmap (nat * Z) ProductValue) : Prop :=
  let '(ps, pool, bs) := s in
  (∃ rows, pages_inv ps bs A rows) ∧ non_full_ok ps None ∧ pool_ok pool.

Lemma pages_default_inv bs : holds bs m0 → pages_inv pages_default bs ∅ [] ∧ non_full_ok pages_default None.
Proof using.
  intros Hm. split.
  - split; try done.
    + intros k. rewrite lookup_empty. constructor.
    + change (large ([] ≫= row_objects)) with (∅ : gmultiset (list byte)). by rewrite gmultiset_disj_union_right_id.
  - split; [constructor|]. intros i. cbn. split; [by intros ?%elem_of_nil|].
    intros (_ & _ & p & Hp & _). by rewrite lookup_nil in Hp.
Qed.

Lemma table_pages_inv s A : table_pages s A → pages_state_inv s A.
Proof using Hrt Hnr Hsize Hcode Hsq.
  induction 1 as [pool bs Hpool Hm|ps pool pool' bs A _ (? & ? & ?) Hpool|[[ps pool] bs] A val ptr n s' _ IH Ht Hfits Hc Hw
    |[[ps pool] bs] A ptr val n s' _ IH HA Hd].
  - destruct (pages_default_inv bs Hm). split_and!; eauto.
  - done.
  - destruct IH as ([rows Hinv] & Hnf & Hpool).
    destruct (write_row_to_pages_ok ps pool bs A rows val sq Hinv Hnf Hpool Hsq Ht Hfits Hc)
      as [(ptr' & i & o & ps' & pool' & bs' & rows' & Hw' & _ & Hi & Ho & _ & _ & Hinv' & Hnf' & Hpool')|[Hw' _]];
      rewrite Hw in Hw'; [|done].
    injection Hw' as <- _ ->. unfold ptr_key. rewrite Hi, Ho, Nat2Z.id. split_and!; eauto.
  - destruct IH as ([rows Hinv] & Hnf & Hpool).
    destruct (pages_delete_row_ok ps pool bs A rows ptr val Hinv Hnf HA) as (ps' & bs' & rows' & Hd' & Hinv' & Hnf').
    rewrite Hd in Hd'. injection Hd' as _ ->. split_and!; eauto.
Qed.

(** The blob store has the large objects of each page. *)
Lemma pages_page_store ps bs A rows i r :
  pages_inv ps bs A rows → rows !! i = Some r → ∃ m, holds bs (m ⊎ large (row_objects r)).
Proof using.
  intros Hinv Hr. pose proof (bind_delete_perm row_objects rows _ r (∅ : gmap Z GRow) (row_objects r) Hr) as Hob.
  rewrite app_nil_r in Hob. specialize (Hob ltac:(done)). pose proof (pi_store _ _ _ _ Hinv) as Hm.
  rewrite (large_perm' _ _ Hob), large_app', disj_union_swap in Hm. by eexists.
Qed.

Lemma pages_read {E} ps bs A rows ptr val :
  pages_inv ps bs A rows → A !! ptr_key ptr = Some val → to_product_value (E:=E) ps bs rt ptr = Ok val.
Proof using Hrt Hnr Hsize.
  intros Hinv HA. destruct (pages_row _ _ _ _ _ _ Hinv HA) as (p & r & gr & Hp & Hr & Hgr & Hpi & Hrep & Hobjs).
  cbn [ptr_key fst snd] in *. unfold to_product_value, page_and_offset, try_page_and_offset. rewrite Hp. cbn [rbind].
  destruct (pages_page_store _ _ _ _ _ _ Hinv Hr) as [m Hm]. by eapply (read_value_ok es rt Hrt Hnr Hsize).
Qed.

Lemma table_pages_insert ps pool bs A val :
  table_pages (ps, pool, bs) A → typed [] (TProduct es) (VProduct val) → fits val →
  collision_free (m0 ⊎ large (map_objects A) ⊎ large (product_objects val)) →
  (∃ ptr s', write_row_to_pages v rt val sq (ps, pool, bs) = (Ok (ptr, large_bytes (product_objects val)), s') ∧
    A !! ptr_key ptr = None ∧ squashed_offset ptr = sq ∧ table_pages s' (<[ptr_key ptr := val]> A)) ∨
  write_row_to_pages v rt val sq (ps, pool, bs) = (Err (BPagesError TooManyPages), (ps, pool, bs)) ∧
    len (pages ps) = 2 ^ 39.
Proof using Hrt Hnr Hsize Hcode Hsq.
  intros Hr Ht Hfits Hc. destruct (table_pages_inv _ _ Hr) as ([rows Hinv] & Hnf & Hpool).
  destruct (write_row_to_pages_ok ps pool bs A rows val sq Hinv Hnf Hpool Hsq Ht Hfits Hc)
    as [(ptr & i & o & ps' & pool' & bs' & rows' & Hw & _ & Hi & Ho & Hs & HA & _)|[Hw Hl]]; [left|by right].
  exists ptr, (ps', pool', bs'). split; [done|]. split; [unfold ptr_key; by rewrite Hi, Ho, Nat2Z.id|].
  split; [done|]. by econstructor.
Qed.

(** C9. The page manager of a table holds the rows written to it.  After any
    writes and deletions, and whatever pages the pool hands out, a pointer to
    a row that was not deleted reads as the value written; the pages listed as
    not full are exactly those, each once; a value of the row type that fits
    in a page is stored at a new pointer, unless there are [2^39] pages
    already; and a row can be deleted through its pointer. *)
Theorem pages_store_rows ps pool bs A :
  table_pages (ps, pool, bs) A →
  (∀ ptr val, A !! ptr_key ptr = Some val → to_product_value (E:=PagesError) ps bs rt ptr = Ok val) ∧
  NoDup (non_full_pages ps) ∧
  (∀ i, i ∈ non_full_pages ps ↔
    0 ≤ i ∧ ∃ p, pages ps !! Z.to_nat i = Some p ∧ page_is_full (E:=PagesError) p rs = Ok false) ∧
  (∀ val, typed [] (TProduct es) (VProduct val) → fits val →
    collision_free (m0 ⊎ large (map_objects A) ⊎ large (product_objects val)) →
    (∃ ptr s', write_row_to_pages v rt val sq (ps, pool, bs) = (Ok (ptr, large_bytes (product_objects val)), s') ∧
      A !! ptr_key ptr = None ∧ squashed_offset ptr = sq ∧ table_pages s' (<[ptr_key ptr := val]> A)) ∨
    write_row_to_pages v rt val sq (ps, pool, bs) = (Err (BPagesError TooManyPages), (ps, pool, bs)) ∧
      len (pages ps) = 2 ^ 39) ∧
  (∀ ptr val, A !! ptr_key ptr = Some val → ∃ s',
    pages_delete_row v rs ptr (ps, pool, bs) = (Ok (large_bytes (product_objects val)), s') ∧
    table_pages s' (delete (ptr_key ptr) A)).
Proof using Hrt Hnr Hsize Hcode Hsq.
  intros Hr. destruct (table_pages_inv _ _ Hr) as ([rows Hinv] & Hnf & Hpool). split_and!.
  - intros ptr val HA. by eapply pages_read.
  - apply Hnf.
  - intros i. rewrite (proj2 Hnf i). split; [by intros (_ & ?)|by intros ?].
  - intros val Ht Hfits Hc. by apply table_pages_insert.
  - intros ptr val HA. destruct (pages_delete_row_ok ps pool bs A rows ptr val Hinv Hnf HA) as (ps' & bs' & rows' & Hd & _).
    eexists. split; [done|]. by econstructor.
Qed.
End table_pages.

(** ** Examples *)

Module Examples.
#[local] Instance last32_hash : Blake3 := BlobStore.Examples.last32_hash.

(** A queue of at most 128 pages. *)
#[local] Instance list_queue : PageQueue (list Page) := {
  queue_push q p := if (length q <? 128)%nat then (true, q ++ [p]) else (false, q);
  queue_pop q := (head q, tail q);
}.
#[local] Instance list_queue_laws : PageQueueLaws (list Page).
Proof.
  refine {| queued := λ q, q |}.
  - intros q. by exists (tail q).
  - intros q p. cbn [queue_push list_queue]. destruct (length q <? 128)%nat; eauto.
Defined.

Abbreviation es := BflatnThm.Examples.es.
Abbreviation rt := BflatnThm.Examples.rt.
Abbreviation val := BflatnThm.Examples.val.
Definition start : Pages * PagePool (list Page) * HashMapBlobStore := (pages_default, pool_new [], ∅).

Lemma start_reach : table_pages es rt ∅ COMMITTED_STATE start ∅.
Proof. constructor; [constructor|by split]. Qed.

Lemma no_collision :
  collision_free (∅ ⊎ large (map_objects (∅ : gmap (nat * Z) ProductValue)) ⊎ large (product_objects val)).
Proof.
  change (large (product_objects val)) with (∅ : gmultiset (list byte)).
  change (large (map_objects (∅ : gmap (nat * Z) ProductValue))) with (∅ : gmultiset (list byte)).
  intros b b' Hb. exfalso. multiset_solver.
Qed.

Lemma es_size : ty_size (TProduct es) ≤ PAGE_DATA_SIZE.
Proof. vm_compute. discriminate. Qed.
Lemma committed_in_u : in_u 8 COMMITTED_STATE.
Proof. vm_compute. split; [discriminate|reflexivity]. Qed.

(** The table with the row. *)
Lemma inserted :
  ∃ ptr ps' pool' bs', write_row_to_pages (row_type_visitor rt) rt val COMMITTED_STATE start =
      (Ok (ptr, 0), (ps', pool', bs')) ∧ squashed_offset ptr = COMMITTED_STATE ∧
    table_pages es rt ∅ COMMITTED_STATE (ps', pool', bs') {[ptr_key ptr := val]}.
Proof.
  assert (H3 : fits rt val) by (vm_compute; discriminate).
  destruct (table_pages_insert es rt BflatnThm.Examples.rt_row eq_refl es_size BflatnThm.Examples.rt_code ∅
    COMMITTED_STATE committed_in_u _ _ _ _ val start_reach BflatnThm.Examples.val_typed H3 no_collision)
    as [(ptr & [[ps' pool'] bs'] & Hw' & _ & Hsq & Hr)|[_ Hl]]; [|discriminate Hl].
  exists ptr, ps', pool', bs'. split; [exact Hw'|]. split; [exact Hsq|exact Hr].
Qed.

(** A row is written to a table without pages, and reads back. *)
Lemma pages_store_rows_witness :
  ∃ ptr ps' pool' bs', write_row_to_pages (row_type_visitor rt) rt val COMMITTED_STATE start =
      (Ok (ptr, 0), (ps', pool', bs')) ∧
    to_product_value (E:=PagesError) ps' bs' rt ptr = Ok val ∧ squashed_offset ptr = COMMITTED_STATE.
Proof.
  assert (H1 : ty_size (TProduct es) ≤ PAGE_DATA_SIZE) by (vm_compute; discriminate).
  assert (H2 : in_u 8 COMMITTED_STATE) by (vm_compute; split; [discriminate|reflexivity]).
  assert (H3 : fits rt val) by (vm_compute; discriminate).
  destruct (pages_store_rows es rt BflatnThm.Examples.rt_row eq_refl H1 BflatnThm.Examples.rt_code ∅
    COMMITTED_STATE H2 _ _ _ _ start_reach) as (_ & _ & _ & Hw & _).
  destruct (Hw val BflatnThm.Examples.val_typed H3 no_collision)
    as [(ptr & [[ps' pool'] bs'] & Hw' & _ & Hsq & Hr)|[_ Hl]]; [|discriminate Hl].
  exists ptr, ps', pool', bs'. split; [exact Hw'|]. split; [|exact Hsq].
  destruct (pages_store_rows es rt BflatnThm.Examples.rt_row eq_refl H1 BflatnThm.Examples.rt_code ∅
    COMMITTED_STATE H2 _ _ _ _ Hr) as (Hrd & _).
  apply Hrd, lookup_insert_eq.
Defined.

(** Copying a page manager with one row, keeping every row. *)
Definition filled : Pages * PagePool (list Page) * HashMapBlobStore :=
  (write_row_to_pages (row_type_visitor rt) rt val COMMITTED_STATE start).2.
Definition copy : result PageError Pages :=
  (pages_copy_filter filled.1.1 (row_type_visitor rt) (row_size rt) (λ _ _, true) filled.2).1.
Definition row_count (ps : Pages) : Z := foldr Z.add 0 (map page_num_rows (pages ps)).

(** The copy of a page manager loses the last page: [copy_filter] gathers
    the rows in a page that is only added to the copy when it is full, so that
    a view of a single row, all rows kept, is empty. *)
Theorem copy_filter_loses_rows : row_count filled.1.1 = 1 ∧ rmap row_count copy = Ok 0 ∧ rmap pages copy = Ok [].
Proof. vm_compute. done. Qed.
End Examples.
