(* ===== verification/StaticLayout.v ===== *)
(** * Static layouts (crates/table/src/static_layout.rs)

    A row type whose values all have the same length in BSATN, and no var-len
    parts, is converted between BFLATN and BSATN by a few copies of byte
    ranges.  The copies are computed from the layout of the type; the theorem
    shows that they do what the general serializer and writer do, and that
    comparing the ranges of two rows compares their values. *)

From Stdlib Require Import ZArith Lia Sorting.Sorted.
From stdpp Require Import list.
From S2P Require Import Prelude Buffer Sats Bsatn Mem Indexes BitSet VarLen BlobStore Page Layout RowTypeVisitor BflatnTo BflatnFrom BflatnRepr BflatnWrite BflatnThm.
Local Open Scope Z_scope.
Local Open Scope result_scope.

(** ** Copies of ranges *)

(** A range of a BFLATN row without padding, and where it goes in BSATN. *)
Record MemcpyField := { mf_bflatn_offset : Z; mf_bsatn_offset : Z; mf_length : Z }.

#[export] Instance MemcpyField_eq_dec : EqDecision MemcpyField.
Proof. solve_decision. Defined.

Record StaticLayout := { bsatn_length : Z; sl_fields : list MemcpyField }.

#[export] Instance StaticLayout_eq_dec : EqDecision StaticLayout.
Proof. solve_decision. Defined.

(** A buffer of [MaybeUninit<Byte>]: [None] is a byte that was not written. *)
Definition uninit_write {E} (dst : list (option byte)) (a : Z) (bs : list byte) : result E (list (option byte)) :=
  if (0 <=? a) && (a + len bs <=? len dst)
  then Ok (take (Z.to_nat a) dst ++ map Some bs ++ drop (Z.to_nat a + length bs) dst)
  else Panic.

(** [slice_assume_init_ref] or [set_len]: undefined unless all is written. *)
Definition assume_init {E} (buf : list (option byte)) : result E (list byte) :=
  match mapM id buf with Some bs => Ok bs | None => Panic end.

Definition copy_bflatn_to_bsatn {E} (f : MemcpyField) (src : list byte) (dst : list (option byte)) :
    result E (list (option byte)) :=
  let* bs := slice src (mf_bflatn_offset f) (mf_length f) in
  uninit_write dst (mf_bsatn_offset f) bs.

Definition copy_bsatn_to_bflatn {E} (f : MemcpyField) (src dst : list byte) : result E (list byte) :=
  let* bs := slice src (mf_bsatn_offset f) (mf_length f) in
  slice_write dst (mf_bflatn_offset f) bs.

(** [MemcpyField::eq]. *)
Definition mf_eq {E} (f : MemcpyField) (row_a row_b : list byte) : result E bool :=
  let* a := slice row_a (mf_bflatn_offset f) (mf_length f) in
  let* b := slice row_b (mf_bflatn_offset f) (mf_length f) in
  Ok (bool_decide (a = b)).

Definition mf_is_empty (f : MemcpyField) : bool := mf_length f =? 0.

(** ** Operations of a static layout *)

Fixpoint copy_fields {E} (fields : list MemcpyField) (row : list byte) (buf : list (option byte)) :
    result E (list (option byte)) :=
  match fields with
  | [] => Ok buf
  | field :: fields => let* buf := copy_bflatn_to_bsatn field row buf in copy_fields fields row buf
  end.

Definition serialize_row_into {E} (sl : StaticLayout) (buf : list (option byte)) (row : list byte) :
    result E (list (option byte)) :=
  if negb (bsatn_length sl <=? len buf) then Panic else copy_fields (sl_fields sl) row buf.

(** The spare capacity of the new vector is at least [bsatn_length]; the
    bytes after that are not part of the result. *)
Definition serialize_row_into_vec {E} (sl : StaticLayout) (row : list byte) : result E (list byte) :=
  let* sink := serialize_row_into sl (replicate (Z.to_nat (bsatn_length sl)) None) row in
  assume_init sink.

Definition serialize_row_extend {E} (sl : StaticLayout) (buf row : list byte) : result E (list byte) :=
  let* sink := serialize_row_into sl (replicate (Z.to_nat (bsatn_length sl)) None) row in
  let* bs := assume_init sink in
  Ok (buf ++ bs).

Fixpoint uncopy_fields {E} (fields : list MemcpyField) (row buf : list byte) : result E (list byte) :=
  match fields with
  | [] => Ok buf
  | field :: fields => let* buf := copy_bsatn_to_bflatn field row buf in uncopy_fields fields row buf
  end.

Definition deserialize_row_into {E} (sl : StaticLayout) (buf row : list byte) : result E (list byte) :=
  uncopy_fields (sl_fields sl) row buf.

(** [StaticLayout::eq]: the first field that differs ends the comparison. *)
Fixpoint fields_eq {E} (fields : list MemcpyField) (row_a row_b : list byte) : result E bool :=
  match fields with
  | [] => Ok true
  | field :: fields =>
      let* b := mf_eq field row_a row_b in
      if b : bool then fields_eq fields row_a row_b else Ok false
  end.

Definition sl_eq {E} (sl : StaticLayout) (row_a row_b : list byte) : result E bool :=
  fields_eq (sl_fields sl) row_a row_b.

(** ** Building a static layout *)

(** The builder's fields; there is at least one.  Its methods return [None]
    for a type without a static layout: here that is the error. *)
Definition new_builder : list MemcpyField :=
  [{| mf_bflatn_offset := 0; mf_bsatn_offset := 0; mf_length := 0 |}].

Definition current_field (fields : list MemcpyField) : result unit MemcpyField :=
  match last fields with Some f => Ok f | None => Panic end.

Definition build (fields : list MemcpyField) : result unit StaticLayout :=
  let fields := filter (λ f, mf_is_empty f = false) fields in
  let* n := match last fields with
            | Some f => add_u 16 (mf_bsatn_offset f) (mf_length f)
            | None => Ok 0
            end in
  Ok {| bsatn_length := n; sl_fields := fields |}.

Definition next_bflatn_offset (fields : list MemcpyField) : result unit Z :=
  let* f := current_field fields in add_u 16 (mf_bflatn_offset f) (mf_length f).
Definition next_bsatn_offset (fields : list MemcpyField) : result unit Z :=
  let* f := current_field fields in add_u 16 (mf_bsatn_offset f) (mf_length f).

(** [current_field_mut().length += n]. *)
Definition extend_current (n : Z) (fields : list MemcpyField) : result unit (list MemcpyField) :=
  let* f := current_field fields in
  let* l := add_u 16 (mf_length f) n in
  Ok (removelast fields ++ [{| mf_bflatn_offset := mf_bflatn_offset f; mf_bsatn_offset := mf_bsatn_offset f;
                               mf_length := l |}]).

Definition visit_primitive (p : PrimitiveType) (fields : list MemcpyField) : result unit (list MemcpyField) :=
  extend_current (wrap_u 16 (prim_size p)) fields.

(** What [visit_product_element] does before it visits the type: a new field
    if there is padding before the element. *)
Definition start_element (elt_offset product_base_offset : Z) (fields : list MemcpyField) :
    result unit (list MemcpyField) :=
  let* elt_offset := add_u 16 product_base_offset elt_offset in
  let* next := next_bflatn_offset fields in
  if negb (next =? elt_offset) then
    let* bsatn_offset := next_bsatn_offset fields in
    Ok (fields ++ [{| mf_bflatn_offset := elt_offset; mf_bsatn_offset := bsatn_offset; mf_length := 0 |}])
  else Ok fields.

(** [visit_value], [visit_product] and [visit_sum]. *)
Fixpoint visit_value (val : AlgebraicTypeLayout) (fields : list MemcpyField) {struct val} :
    result unit (list MemcpyField) :=
  match val with
  | LSum _ variants payload_offset =>
      match variants with
      | [] => Err tt
      | first_variant :: later_variants =>
          let* first_fields := visit_value (vl_ty first_variant) new_builder in
          let* first_variant_layout := build first_fields in
          let* _ :=
            (fix go variants : result unit unit :=
               match variants with
               | [] => Ok tt
               | v :: variants =>
                   let* fs := visit_value (vl_ty v) new_builder in
                   let* l := build fs in
                   if bool_decide (l ≠ first_variant_layout) then Err tt else go variants
               end) later_variants in
          if bsatn_length first_variant_layout =? 0 then extend_current 1 fields
          else
            let* tag_bflatn_offset := next_bflatn_offset fields in
            let* payload_bflatn_offset := add_u 16 tag_bflatn_offset payload_offset in
            let* tag_bsatn_offset := next_bsatn_offset fields in
            let* payload_bsatn_offset := add_u 16 tag_bsatn_offset 1 in
            let* fields := visit_primitive (PInt U8) fields in
            let fields :=
              if 1 <? payload_offset
              then fields ++ [{| mf_bflatn_offset := payload_bflatn_offset;
                                 mf_bsatn_offset := payload_bsatn_offset; mf_length := 0 |}]
              else fields in
            visit_value (vl_ty first_variant) fields
      end
  | LProduct _ elements =>
      let* base_bflatn_offset := next_bflatn_offset fields in
      (fix go elements fields : result unit (list MemcpyField) :=
         match elements with
         | [] => Ok fields
         | elt :: elements =>
             let* fields := start_element (pel_offset elt) base_bflatn_offset fields in
             let* fields := visit_value (pel_ty elt) fields in
             go elements fields
         end) elements fields
  | LPrimitive prim => visit_primitive prim fields
  | LVarLen _ => Err tt
  end.

(** [StaticLayout::for_row_type]. *)
Definition for_row_type (row_type : RowTypeLayout) : result unit StaticLayout :=
  if negb (ly_fixed (row_layout row_type)) then Err tt
  else
    let* fields := visit_value (row_product row_type) new_builder in
    build fields.

(** ** Live bytes *)

(** The offsets of the bytes of a value that are not padding, in the order of
    BSATN, for a type with a static layout. *)
Fixpoint live (ty : AlgebraicTypeLayout) : list Z :=
  match ty with
  | LPrimitive p => seqZ 0 (prim_size p)
  | LVarLen _ => []
  | LProduct _ els => concat (map (λ e, map (Z.add (pel_offset e)) (live (pel_ty e))) els)
  | LSum _ vs po => 0 :: match vs with [] => [] | v :: _ => map (Z.add po) (live (vl_ty v)) end
  end.

(** All variants of a sum have the same live bytes, and there are no var-len
    parts. *)
Fixpoint static (ty : AlgebraicTypeLayout) : Prop :=
  match ty with
  | LPrimitive _ => True
  | LVarLen _ => False
  | LProduct _ els => all_list (λ e, static (pel_ty e)) els
  | LSum _ vs po => vs ≠ [] ∧ all_list (λ v, static (vl_ty v) ∧ live (LSum (layout ty) vs po) = 0 :: map (Z.add po) (live (vl_ty v))) vs
  end.

(** The bytes that fields copy from. *)
Definition positions (fs : list MemcpyField) : list Z :=
  concat (map (λ f, seqZ (mf_bflatn_offset f) (mf_length f)) fs).

(** The fields write to BSATN one after another from [k] on. *)
Fixpoint fields_from (k : Z) (fs : list MemcpyField) : Prop :=
  match fs with
  | [] => True
  | f :: fs => mf_bsatn_offset f = k ∧ 0 ≤ mf_length f ∧ fields_from (k + mf_length f) fs
  end.

Definition mf_end (f : MemcpyField) : Z := mf_bflatn_offset f + mf_length f.

Lemma positions_app fs fs' : positions (fs ++ fs') = positions fs ++ positions fs'.
Proof. unfold positions. by rewrite map_app, concat_app. Qed.

Lemma positions_single f : positions [f] = seqZ (mf_bflatn_offset f) (mf_length f).
Proof. unfold positions. simpl. by rewrite app_nil_r. Qed.

Lemma fields_from_app k fs fs' :
  fields_from k (fs ++ fs') ↔ fields_from k fs ∧ fields_from (k + len (positions fs)) fs'.
Proof.
  revert k. induction fs as [|f fs IH]; intros k; simpl.
  - change (positions []) with (@nil Z). change (len (@nil Z)) with 0. rewrite Z.add_0_r. tauto.
  - rewrite IH. change (positions (f :: fs)) with (seqZ (mf_bflatn_offset f) (mf_length f) ++ positions fs).
    rewrite len_app. unfold len at 2. rewrite length_seqZ.
    destruct (decide (0 ≤ mf_length f)) as [Hl|Hl]; [|tauto].
    rewrite Z2Nat.id, Z.add_assoc by done. naive_solver.
Qed.

Lemma current_field_snoc pre f : current_field (pre ++ [f]) = Ok f.
Proof. unfold current_field. by rewrite last_snoc. Qed.

Lemma removelast_snoc {A} (l : list A) x : removelast (l ++ [x]) = l.
Proof. rewrite removelast_app by done. apply app_nil_r. Qed.

Lemma add_u_inv {E} w a b c : add_u (E:=E) w a b = Ok c → c = a + b.
Proof. unfold add_u. case_match; congruence. Qed.

Lemma extend_current_ok n pre f fs' :
  0 ≤ n → fields_from 0 (pre ++ [f]) → extend_current n (pre ++ [f]) = Ok fs' →
  ∃ f', fs' = pre ++ [f'] ∧ fields_from 0 fs' ∧ mf_end f' = mf_end f + n ∧
    mf_bsatn_offset f' + mf_length f' = mf_bsatn_offset f + mf_length f + n ∧
    positions fs' = positions (pre ++ [f]) ++ seqZ (mf_end f) n.
Proof.
  intros Hn Hf H. unfold extend_current in H. rewrite current_field_snoc in H. cbn [rbind] in H.
  inv_ok. apply add_u_inv in Hok as ->. rewrite removelast_snoc. apply fields_from_app in Hf as [Hf (Ho & Hl & _)].
  eexists. split_and!; [done| | | |].
  - apply fields_from_app. simpl. intuition lia.
  - unfold mf_end. simpl. lia.
  - simpl. lia.
  - rewrite !positions_app, !positions_single. simpl. rewrite <-app_assoc. f_equal. by rewrite seqZ_app by lia.
Qed.

(** A new field without bytes yet, at any place of the row. *)
Lemma fields_from_push pre f o k :
  fields_from 0 (pre ++ [f]) → k = mf_bsatn_offset f + mf_length f →
  let f' := {| mf_bflatn_offset := o; mf_bsatn_offset := k; mf_length := 0 |} in
  fields_from 0 ((pre ++ [f]) ++ [f']) ∧ mf_end f' = o ∧ positions ((pre ++ [f]) ++ [f']) = positions (pre ++ [f]).
Proof.
  intros Hf -> f'. split_and!.
  - apply fields_from_app. split; [done|]. apply fields_from_app in Hf as [_ (Ho & Hl & _)]. simpl.
    rewrite positions_app, positions_single, len_app. unfold len at 2. rewrite length_seqZ. lia.
  - unfold mf_end. simpl. lia.
  - rewrite (positions_app (pre ++ [f])), positions_single. simpl. apply app_nil_r.
Qed.

Lemma start_element_ok o base pre f fs' :
  fields_from 0 (pre ++ [f]) → start_element o base (pre ++ [f]) = Ok fs' →
  ∃ pre' f', fs' = pre' ++ [f'] ∧ fields_from 0 fs' ∧ mf_end f' = base + o ∧
    positions fs' = positions (pre ++ [f]).
Proof.
  intros Hf H. unfold start_element, next_bflatn_offset, next_bsatn_offset in H.
  rewrite !current_field_snoc in H. cbn [rbind] in H. inv_ok.
  apply add_u_inv in Hok as ->. apply add_u_inv in Hok0 as ->.
  destruct (Z.eqb_spec (mf_bflatn_offset f + mf_length f) (base + o)) as [He|He]; cbn [negb] in H; inv_ok.
  - by exists pre, f.
  - apply add_u_inv in Hok as ->. destruct (fields_from_push pre f (base + o) _ Hf eq_refl) as (H1 & H2 & H3). eauto 10.
Qed.

Lemma positions_filter fs : positions (filter (λ f, mf_is_empty f = false) fs) = positions fs.
Proof.
  induction fs as [|f fs IH]; [done|]. rewrite filter_cons. case_decide as Hd.
  - change (positions (f :: fs)) with (seqZ (mf_bflatn_offset f) (mf_length f) ++ positions fs). by rewrite <-IH.
  - apply not_false_is_true, Z.eqb_eq in Hd. rewrite IH. unfold positions. simpl. by rewrite Hd.
Qed.

Lemma fields_from_filter k fs : fields_from k fs → fields_from k (filter (λ f, mf_is_empty f = false) fs).
Proof.
  revert k. induction fs as [|f fs IH]; intros k; [done|]. intros (Ho & Hl & Hf).
  rewrite filter_cons. case_decide as Hd.
  - split_and!; [done|done|by apply IH].
  - apply not_false_is_true, Z.eqb_eq in Hd. rewrite Hd, Z.add_0_r in Hf. by apply IH.
Qed.

Lemma fields_from_filled k fs :
  fields_from k fs → Forall (λ f, 0 < mf_length f) (filter (λ f, mf_is_empty f = false) fs).
Proof.
  revert k. induction fs as [|f fs IH]; intros k; [by constructor|]. intros (_ & Hl & Hf).
  rewrite filter_cons. case_decide as Hd; [|by eapply IH]. constructor; [|by eapply IH].
  apply Z.eqb_neq in Hd. lia.
Qed.

Lemma build_ok fs l :
  fields_from 0 fs → build fs = Ok l →
  positions (sl_fields l) = positions fs ∧ fields_from 0 (sl_fields l) ∧ bsatn_length l = len (positions fs) ∧
  Forall (λ f, 0 < mf_length f) (sl_fields l).
Proof.
  intros Hf H. unfold build in H. pose proof (fields_from_filter _ _ Hf) as Hf'. pose proof (positions_filter fs) as Hp.
  pose proof (fields_from_filled _ _ Hf) as Hne.
  destruct (filter _ fs) as [|f fs' _] using rev_ind; simpl in *.
  - inv_ok. simpl. by rewrite <-Hp.
  - rewrite last_snoc in H. inv_ok. apply add_u_inv in Hok as ->. simpl. rewrite <-Hp. split_and!; [done|done| |done].
    apply fields_from_app in Hf' as [_ (Ho & Hl & _)]. rewrite positions_app, positions_single, len_app.
    unfold len at 2. rewrite length_seqZ. lia.
Qed.

(** ** The builder and the live bytes *)

Definition visit_elements (base : Z) :=
  fix go (elements : list ProductTypeElementLayout) (fields : list MemcpyField) : result unit (list MemcpyField) :=
  match elements with
  | [] => Ok fields
  | elt :: elements =>
      rbind (start_element (pel_offset elt) base fields) (λ fields,
      rbind (visit_value (pel_ty elt) fields) (λ fields, go elements fields))
  end.

Definition check_variants (first : StaticLayout) :=
  fix go (variants : list SumTypeVariantLayout) : result unit unit :=
  match variants with
  | [] => Ok tt
  | v :: variants =>
      rbind (visit_value (vl_ty v) new_builder) (λ fs,
      rbind (build fs) (λ l, if bool_decide (l ≠ first) then Err tt else go variants))
  end.

(** Visiting a type adds its live bytes behind the current end. *)
Definition visit_adds (ty : AlgebraicTypeLayout) : Prop :=
  good ty → ∀ pre f fs', fields_from 0 (pre ++ [f]) → visit_value ty (pre ++ [f]) = Ok fs' →
  static ty ∧ ∃ pre' f', fs' = pre' ++ [f'] ∧ fields_from 0 fs' ∧
    positions fs' = positions (pre ++ [f]) ++ map (Z.add (mf_end f)) (live ty).

Lemma visit_elements_ok base els :
  Forall (λ e, visit_adds (pel_ty e) ∧ good (pel_ty e)) els →
  ∀ pre f fs', fields_from 0 (pre ++ [f]) → visit_elements base els (pre ++ [f]) = Ok fs' →
  all_list (λ e, static (pel_ty e)) els ∧ ∃ pre' f', fs' = pre' ++ [f'] ∧ fields_from 0 fs' ∧
    positions fs' = positions (pre ++ [f]) ++
      map (Z.add base) (concat (map (λ e, map (Z.add (pel_offset e)) (live (pel_ty e))) els)).
Proof.
  induction 1 as [|e els [He Hg] _ IH]; intros pre f fs' Hf H; simpl in H.
  - injection H as <-. split; [done|]. exists pre, f. by rewrite app_nil_r.
  - inv_ok. destruct (start_element_ok _ _ _ _ _ Hf Hok) as (pre1 & f1 & -> & Hf1 & He1 & Hp1).
    destruct (He Hg _ _ _ Hf1 Hok0) as (Hs & pre2 & f2 & -> & Hf2 & Hp2).
    destruct (IH _ _ _ Hf2 H) as (Hss & pre3 & f3 & -> & Hf3 & Hp3). split; [by split|].
    exists pre3, f3. split_and!; [done|done|]. rewrite Hp3, Hp2, Hp1, <-app_assoc. f_equal. simpl.
    rewrite map_app, map_map. f_equal. apply map_ext. intros x. rewrite He1. lia.
Qed.

Lemma variant_live ty l fs :
  visit_adds ty → good ty → visit_value ty new_builder = Ok fs → build fs = Ok l →
  static ty ∧ positions (sl_fields l) = live ty ∧ bsatn_length l = len (live ty).
Proof.
  intros Hv Hg Hvis Hb. destruct (Hv Hg [] {| mf_bflatn_offset := 0; mf_bsatn_offset := 0; mf_length := 0 |} fs)
    as (Hs & pre & f & -> & Hf & Hp); [by simpl|done|].
  assert (Hp' : positions (pre ++ [f]) = live ty).
  { rewrite Hp. unfold mf_end. simpl. rewrite <-(map_id (live ty)) at 2. by apply map_ext. }
  destruct (build_ok _ _ Hf Hb) as (H1 & _ & H3 & _). by rewrite H1, H3, Hp'.
Qed.

Lemma check_variants_ok first vs :
  Forall (λ v, visit_adds (vl_ty v) ∧ good (vl_ty v)) vs → check_variants first vs = Ok tt →
  all_list (λ v, static (vl_ty v) ∧ live (vl_ty v) = positions (sl_fields first)) vs.
Proof.
  induction 1 as [|v vs [Hv Hg] _ IH]; intros H; [done|]. simpl in H. inv_ok.
  destruct (variant_live _ _ _ Hv Hg Hok Hok0) as (Hs & Hp & _). case_bool_decide as He; [done|].
  subst. split; [by rewrite Hp|by apply IH].
Qed.

Lemma visit_sum_ok l vs po :
  Forall (λ v, visit_adds (vl_ty v)) vs → visit_adds (LSum l vs po).
Proof.
  intros Hvs (Hal & -> & _ & _ & _ & Hall) pre f fs' Hf H. apply all_list_Forall in Hall.
  assert (Hvg : Forall (λ v, visit_adds (vl_ty v) ∧ good (vl_ty v)) vs).
  { apply Forall_and. split; [done|]. eapply Forall_impl; [exact Hall|]. by intros ? []. }
  destruct vs as [|v vs]; [done|]. apply Forall_cons in Hvg as [[Hv Hgv] Hvs'].
  cbn [visit_value] in H. inv_ok. change (check_variants a0 vs = Ok a1) in Hok1.
  destruct a1. destruct (variant_live _ _ _ Hv Hgv Hok Hok0) as (Hs & Hp & Hlen).
  pose proof (check_variants_ok _ _ Hvs' Hok1) as Hrest.
  split.
  { split; [done|]. split; [done|]. eapply all_list_impl; [|exact Hrest]. intros v' [H1 H2]. split; [done|].
    simpl. by rewrite H2, Hp. }
  pose proof (is_align_bounds _ Hal) as Hpo. destruct (Z.eqb_spec (bsatn_length a0) 0) as [Hz|Hz].
  - destruct (extend_current_ok 1 pre f fs' ltac:(lia) Hf H) as (f' & -> & Hf' & _ & _ & Hp').
    exists pre, f'. split_and!; [done|done|]. rewrite Hp'. f_equal. simpl.
    destruct (live (vl_ty v)); [|rewrite Hlen in Hz; done]. simpl. by rewrite Z.add_0_r.
  - unfold next_bflatn_offset, next_bsatn_offset in H. rewrite !current_field_snoc in H. cbn [rbind] in H. inv_ok.
    repeat match goal with Ha : add_u _ _ _ = Ok _ |- _ => apply add_u_inv in Ha as -> end.
    unfold visit_primitive in *. change (wrap_u 16 (prim_size (PInt U8))) with 1 in Hok6.
    destruct (extend_current_ok 1 pre f _ ltac:(lia) Hf Hok6) as (f1 & -> & Hf1 & He1 & Hb1 & Hp1).
    assert (∃ pre2 f2, (if 1 <? ly_align l then (pre ++ [f1]) ++ [{| mf_bflatn_offset := mf_bflatn_offset f + mf_length f + ly_align l;
        mf_bsatn_offset := mf_bsatn_offset f + mf_length f + 1; mf_length := 0 |}] else pre ++ [f1]) = pre2 ++ [f2] ∧
      fields_from 0 (pre2 ++ [f2]) ∧ mf_end f2 = mf_end f + ly_align l ∧ positions (pre2 ++ [f2]) = positions (pre ++ [f1]))
      as (pre2 & f2 & E & Hf2 & He2 & Hp2).
    { destruct (Z.ltb_spec 1 (ly_align l)).
      - destruct (fields_from_push _ _ (mf_end f + ly_align l) _ Hf1 (eq_sym Hb1)) as (F1 & F2 & F3).
        eexists _, _. split; [done|]. unfold mf_end in *. by split_and!.
      - exists pre, f1. split_and!; [done|done|lia|done]. }
    rewrite E in H. apply Forall_cons in Hvs as [_ Hvs].
    destruct (Hv Hgv _ _ _ Hf2 H) as (_ & pre3 & f3 & -> & Hf3 & Hp3). exists pre3, f3. split_and!; [done|done|].
    rewrite Hp3, Hp2, Hp1, <-app_assoc. f_equal. simpl. rewrite Z.add_0_r. f_equal. rewrite map_map. apply map_ext.
    intros x. lia.
Qed.

Lemma visit_ok ty : visit_adds ty.
Proof.
  induction ty as [l vs po IH|l els IH|p|v] using layout_nested_ind.
  - by apply visit_sum_ok.
  - intros (_ & _ & _ & _ & Hall) pre f fs' Hf H. cbn [visit_value] in H. unfold next_bflatn_offset in H.
    rewrite current_field_snoc in H. cbn [rbind] in H. inv_ok. apply add_u_inv in Hok as ->.
    change (visit_elements (mf_end f) els (pre ++ [f]) = Ok fs') in H. apply all_list_Forall in Hall.
    apply (visit_elements_ok (mf_end f) els); [|done|done].
    apply Forall_and. split; [done|]. eapply Forall_impl; [exact Hall|]. by intros ? [].
  - intros _ pre f fs' Hf H. cbn [visit_value] in H. unfold visit_primitive in H.
    assert (Hw : wrap_u 16 (prim_size p) = prim_size p) by by destruct p as [|[]|[]].
    rewrite Hw in H. destruct (extend_current_ok (prim_size p) pre f fs' ltac:(pose proof (is_align_bounds _ (prim_align p)); lia) Hf H)
      as (f1 & -> & Hf1 & _ & _ & Hp1).
    split; [done|]. exists pre, f1. split_and!; [done|done|]. rewrite Hp1. f_equal. simpl.
    symmetry. etrans; [apply fmap_add_seqZ|]. by rewrite Z.add_0_r.
  - intros _ pre f fs' Hf H. done.
Qed.

(** ** Where the live bytes are *)

Ltac forall_lia H := eapply Forall_impl; [exact H|]; intros; simpl in *; lia.

Lemma sorted_app_range (l1 l2 : list Z) m :
  StronglySorted Z.lt l1 → StronglySorted Z.lt l2 → Forall (λ i, i < m) l1 → Forall (λ i, m ≤ i) l2 →
  StronglySorted Z.lt (l1 ++ l2).
Proof.
  intros S1 S2 F1 F2. induction S1 as [|x l1 S1 IH Hx]; [done|]. apply Forall_cons in F1 as [Hm F1]. simpl.
  constructor; [by apply IH|]. apply Forall_app. split; [done|]. forall_lia F2.
Qed.

Lemma sorted_map_add c l : StronglySorted Z.lt l → StronglySorted Z.lt (map (Z.add c) l).
Proof.
  induction 1 as [|x l Hs IH Hx]; simpl; constructor; [done|]. apply Forall_map. forall_lia Hx.
Qed.

(** The live bytes are in order and inside of the value. *)
Definition live_ok (ty : AlgebraicTypeLayout) : Prop :=
  Forall (λ i, 0 ≤ i < lt_size ty) (live ty) ∧ StronglySorted Z.lt (live ty).

Lemma live_elements_ok els :
  Forall (λ e, live_ok (pel_ty e) ∧ good (pel_ty e)) els → ∀ cur end_, 0 ≤ cur → chained cur els end_ →
  let ps := concat (map (λ e, map (Z.add (pel_offset e)) (live (pel_ty e))) els) in
  Forall (λ i, cur ≤ i < end_) ps ∧ StronglySorted Z.lt ps ∧ cur ≤ end_.
Proof.
  induction 1 as [|e els [[Hr Hs] Hg] _ IH]; intros cur end_ Hcur Hch; simpl.
  - simpl in Hch. split_and!; [done|constructor|lia].
  - destruct Hch as [Ho Hch]. pose proof (is_align_bounds _ (lt_align_ok _ Hg)).
    pose proof (lt_size_aligned _ Hg) as [Hsz _].
    pose proof (align_to_spec cur _ (ltac:(lia) : 0 < lt_align (pel_ty e))) as [Hal _].
    destruct (IH (pel_offset e + lt_size (pel_ty e)) end_ ltac:(lia) Hch) as (I1 & I2 & I3).
    split_and!; [| |lia].
    + apply Forall_app. split.
      * apply Forall_map. forall_lia Hr.
      * forall_lia I1.
    + eapply (sorted_app_range _ _ (pel_offset e + lt_size (pel_ty e))); [by apply sorted_map_add|done| |].
      * apply Forall_map. forall_lia Hr.
      * forall_lia I1.
Qed.

Lemma live_range ty : good ty → live_ok ty.
Proof.
  induction ty as [l vs po IH|l els IH|p|v] using layout_nested_ind; intros Hg.
  - destruct Hg as (Hal & -> & _ & Hsz & _ & Hall). pose proof (is_align_bounds _ Hal). unfold live_ok, lt_size. simpl.
    destruct vs as [|v vs]; [split; [constructor; [lia|done]|repeat constructor]|].
    apply Forall_cons in IH as [Hv _]. destruct Hall as [(Hgv & _ & Hsv) _]. destruct (Hv Hgv) as [Hr Hs].
    split.
    + constructor; [lia|]. apply Forall_map. forall_lia Hr.
    + constructor; [by apply sorted_map_add|]. apply Forall_map. forall_lia Hr.
  - destruct Hg as (Hal & (end_ & Hch & Hend) & _ & _ & Hall). apply all_list_Forall in Hall.
    pose proof (is_align_bounds _ Hal). pose proof (align_to_spec end_ _ (ltac:(lia) : 0 < ly_align l)) as [He _].
    destruct (live_elements_ok els) with (cur := 0) (end_ := end_) as (R1 & R2 & _); [|lia|done|].
    { rewrite Forall_forall in IH, Hall |- *. intros e Hin. destruct (Hall e Hin) as [Hge _]. split; [by apply IH|done]. }
    split; [|done]. unfold lt_size. simpl. forall_lia R1.
  - split; [|apply seqZ_sorted]. apply Forall_forall. intros i Hi. by apply elem_of_seqZ in Hi.
  - split; constructor.
Qed.

(** ** Copying *)

Definition pick (row : list byte) (ps : list Z) : list byte := map (λ i, default x00 (row !! Z.to_nat i)) ps.

Lemma pick_app row ps qs : pick row (ps ++ qs) = pick row ps ++ pick row qs.
Proof. apply map_app. Qed.

Lemma len_pick row ps : len (pick row ps) = len ps.
Proof. unfold len, pick. by rewrite length_map. Qed.

Lemma pick_lookup row ps j : pick row ps !! j = (λ i, default x00 (row !! Z.to_nat i)) <$> ps !! j.
Proof. apply list_lookup_fmap. Qed.

Lemma peek_pick row a n : 0 ≤ a → 0 ≤ n → a + n ≤ len row → peek row a n = pick row (seqZ a n).
Proof.
  intros Ha Hn Hl. unfold len in Hl. apply list_eq. intros i. rewrite lookup_peek, pick_lookup. case_decide as Hi.
  - rewrite lookup_seqZ_lt by lia. simpl.
    destruct (lookup_lt_is_Some_2 row (Z.to_nat a + i)) as [x Hx]; [lia|].
    replace (Z.to_nat (a + Z.of_nat i)) with (Z.to_nat a + i)%nat by lia. by rewrite Hx.
  - by rewrite lookup_seqZ_ge by lia.
Qed.

Lemma pick_ext row row' ps :
  Forall (λ i, row !! Z.to_nat i = row' !! Z.to_nat i) ps → pick row ps = pick row' ps.
Proof. intros H. unfold pick. apply map_ext_Forall. eapply Forall_impl; [exact H|]. simpl. by intros ? ->. Qed.

(** The fields of a row of [n] bytes: not empty, inside of the row, and to be
    written one after another from [k] on. *)
Definition copyable (n k : Z) (fs : list MemcpyField) : Prop :=
  fields_from k fs ∧ Forall (λ f, 0 < mf_length f) fs ∧ Forall (λ i, 0 ≤ i < n) (positions fs) ∧
  NoDup (positions fs).

Lemma copyable_cons n k f fs :
  copyable n k (f :: fs) →
  mf_bsatn_offset f = k ∧ 0 < mf_length f ∧ 0 ≤ mf_bflatn_offset f ∧ mf_end f ≤ n ∧ copyable n (k + mf_length f) fs ∧
  ∀ i, i ∈ positions fs → ¬ (mf_bflatn_offset f ≤ i < mf_end f).
Proof.
  intros ((Ho & _ & Hf) & Hl & Hr & Hnd). apply Forall_cons in Hl as [Hl Hls].
  change (positions (f :: fs)) with (seqZ (mf_bflatn_offset f) (mf_length f) ++ positions fs) in *.
  apply Forall_app in Hr as [Hr Hrs]. apply NoDup_app in Hnd as (_ & Hdis & Hnd).
  rewrite Forall_forall in Hr.
  pose proof (Hr (mf_bflatn_offset f) ltac:(apply elem_of_seqZ; lia)).
  pose proof (Hr (mf_end f - 1) ltac:(unfold mf_end; apply elem_of_seqZ; lia)). unfold mf_end in *.
  split_and!; try done; try lia. intros i Hi Hin. apply (Hdis i); [|done]. apply elem_of_seqZ. lia.
Qed.

Lemma copy_fields_ok {E} row fs : ∀ k done,
  copyable (len row) k fs → k = len done →
  copy_fields (E:=E) fs row (map Some done ++ replicate (length (positions fs)) None) =
    Ok (map Some (done ++ pick row (positions fs))).
Proof.
  induction fs as [|f fs IH]; intros k done Hc ->; simpl.
  - by rewrite !app_nil_r.
  - apply copyable_cons in Hc as (Ho & Hl & H0 & He & Hc & _). unfold mf_end in He.
    unfold copy_bflatn_to_bsatn. rewrite slice_Ok by lia. cbn [rbind].
    change (positions (f :: fs)) with (seqZ (mf_bflatn_offset f) (mf_length f) ++ positions fs).
    rewrite length_app, length_seqZ, replicate_add, pick_app, <-peek_pick by lia.
    pose proof (length_peek row (mf_bflatn_offset f) (mf_length f) H0 ltac:(lia) ltac:(lia)) as Hpl.
    unfold uninit_write. rewrite (proj2 (andb_true_iff _ _)).
    2:{ rewrite !Z.leb_le, !len_app. unfold len. rewrite Hpl, !length_replicate, length_map. unfold len in Ho. lia. }
    cbn [rbind]. rewrite Ho. unfold len at 1 2. rewrite Nat2Z.id.
    rewrite take_app_length' by by rewrite length_map.
    rewrite drop_app_ge by (rewrite length_map; lia). rewrite length_map.
    replace (length done + length (peek _ _ _) - length done)%nat with (Z.to_nat (mf_length f)) by lia.
    rewrite drop_app_length' by by rewrite length_replicate.
    rewrite (app_assoc (map Some done)), <-map_app, IH with (k := len done + mf_length f); [by rewrite <-app_assoc|done|].
    rewrite len_app. unfold len at 3. rewrite Hpl. lia.
Qed.

Lemma assume_init_ok {E} bs : assume_init (E:=E) (map Some bs) = Ok bs.
Proof.
  unfold assume_init. assert (mapM id (map Some bs) = Some bs) as ->; [|done].
  apply mapM_Some. induction bs; by constructor.
Qed.

Lemma uncopy_fields_ok {E} row fs : ∀ k buf,
  copyable (len buf) k fs → 0 ≤ k → k + len (positions fs) ≤ len row →
  ∃ buf', uncopy_fields (E:=E) fs row buf = Ok buf' ∧ len buf' = len buf ∧
    pick buf' (positions fs) = peek row k (len (positions fs)) ∧
    ∀ i, 0 ≤ i → i ∉ positions fs → buf' !! Z.to_nat i = buf !! Z.to_nat i.
Proof.
  induction fs as [|f fs IH]; intros k buf Hc Hk Hl; simpl.
  - exists buf. by split_and!.
  - apply copyable_cons in Hc as (Ho & Hlf & H0 & He & Hc & Hdis). unfold mf_end in He, Hdis.
    change (positions (f :: fs)) with (seqZ (mf_bflatn_offset f) (mf_length f) ++ positions fs) in *.
    rewrite len_app in *. change (len (seqZ (mf_bflatn_offset f) (mf_length f))) with (Z.of_nat (length (seqZ (mf_bflatn_offset f) (mf_length f)))) in *.
    rewrite length_seqZ, Z2Nat.id in * by lia. pose proof (len_nonneg (positions fs)).
    unfold copy_bsatn_to_bflatn. rewrite slice_Ok by lia. cbn [rbind].
    pose proof (len_peek row k (mf_length f) ltac:(lia) ltac:(lia) ltac:(lia)) as Hpl. rewrite Ho.
    rewrite slice_write_Ok by lia. cbn [rbind]. set (buf1 := poke buf _ _).
    assert (Hb1 : len buf1 = len buf) by (apply len_poke; lia).
    destruct (IH (k + mf_length f) buf1) as (buf' & -> & Hlb & Hp & Hrest); [by rewrite Hb1|lia|lia|].
    assert (Hsame : ∀ i, 0 ≤ i → i ∉ positions fs → ¬ (mf_bflatn_offset f ≤ i < mf_bflatn_offset f + mf_length f) →
      buf' !! Z.to_nat i = buf !! Z.to_nat i).
    { intros i Hi Hn Hni. rewrite Hrest by done. unfold buf1. rewrite lookup_poke by lia.
      unfold len in Hpl. rewrite decide_False by lia. done. }
    exists buf'. split_and!; [done|lia| |].
    + rewrite pick_app, Hp, (peek_app row k (mf_length f)) by lia. f_equal.
      rewrite <-peek_pick by lia. trans (peek buf1 (mf_bflatn_offset f) (mf_length f)).
      * apply peek_ext. intros i Hi. rewrite <-(Nat2Z.id i). apply Hrest; [lia|]. intros Hin. apply (Hdis _ Hin). lia.
      * apply peek_poke_eq; lia.
    + intros i Hi Hn. rewrite elem_of_app, elem_of_seqZ in Hn. apply Hsame; [done|tauto|tauto].
Qed.

Lemma fields_eq_ok {E} a b n fs : ∀ k,
  copyable n k fs → len a = n → len b = n →
  fields_eq (E:=E) fs a b = Ok (bool_decide (pick a (positions fs) = pick b (positions fs))).
Proof.
  induction fs as [|f fs IH]; intros k Hc Ha Hb; simpl; [done|].
  apply copyable_cons in Hc as (Ho & Hlf & H0 & He & Hc & _). unfold mf_end in He.
  unfold mf_eq. rewrite !slice_Ok by lia. cbn [rbind].
  change (positions (f :: fs)) with (seqZ (mf_bflatn_offset f) (mf_length f) ++ positions fs).
  rewrite !pick_app, <-!peek_pick by lia.
  pose proof (len_peek a (mf_bflatn_offset f) (mf_length f) H0 ltac:(lia) ltac:(lia)) as La.
  pose proof (len_peek b (mf_bflatn_offset f) (mf_length f) H0 ltac:(lia) ltac:(lia)) as Lb. unfold len in La, Lb.
  destruct (bool_decide_reflect (peek a (mf_bflatn_offset f) (mf_length f) = peek b (mf_bflatn_offset f) (mf_length f))) as [Hab|Hab].
  - rewrite (IH _ Hc Ha Hb), Hab. f_equal. apply bool_decide_ext. split; [by intros ->|].
    apply app_inv_head.
  - f_equal. symmetry. apply bool_decide_eq_false_2. intros [Heq _]%app_inj_1; [done|lia].
Qed.

(** ** Live bytes and values *)

Lemma prim_value_bsatn p v b : prim_value p v b → bsatn v = Some b.
Proof.
  destruct 1 as [b|k z Hz|k z Hz]; simpl.
  - unfold bsatn_bool. by destruct b.
  - unfold bsatn_int, int_bits. by rewrite le_bytes_mod.
  - done.
Qed.

Lemma static_sum_live l vs po tag var :
  static (LSum l vs po) → vs !! tag = Some var →
  static (vl_ty var) ∧ live (LSum l vs po) = 0 :: map (Z.add po) (live (vl_ty var)).
Proof.
  intros [_ Hall] Hvar. exact (all_list_elem _ _ _ Hall (list_elem_of_lookup_2 _ _ _ Hvar)).
Qed.

Lemma map_add_add a b l : map (Z.add a) (map (Z.add b) l) = map (Z.add (a + b)) l.
Proof. rewrite map_map. apply map_ext. intros. lia. Qed.

(** The bytes of a value at its live offsets are its BSATN. *)
Lemma repr_live row :
  (∀ base ty v offs objs, repr row base ty v offs objs → good ty → static ty → 0 ≤ base →
    base + lt_size ty ≤ len row →
    offs = [] ∧ objs = [] ∧ bsatn v = Some (pick row (map (Z.add base) (live ty)))) ∧
  (∀ base els vals offs objs, reprs row base els vals offs objs → Forall (λ e, good (pel_ty e)) els →
    all_list (λ e, static (pel_ty e)) els → 0 ≤ base → ∀ cur end_, 0 ≤ cur → chained cur els end_ → base + end_ ≤ len row →
    offs = [] ∧ objs = [] ∧ bsatn_list bsatn vals =
      Some (pick row (map (Z.add base) (concat (map (λ e, map (Z.add (pel_offset e)) (live (pel_ty e))) els))))).
Proof.
  apply repr_reprs_ind.
  - intros base p v bs Hp Hb _ _ H0 Hl. split_and!; [done|done|]. rewrite (prim_value_bsatn _ _ _ Hp), <-Hb. f_equal.
    pose proof (is_align_bounds _ (prim_align p)). change (lt_size (LPrimitive p)) with (prim_size p) in Hl.
    rewrite peek_pick by lia. f_equal. simpl. symmetry. etrans; [apply fmap_add_seqZ|]. by rewrite Z.add_0_r.
  - done.
  - intros base l els vals offs objs _ IH Hg Hs H0 Hl. destruct Hg as (Hal & (end_ & Hch & Hend) & _ & _ & Hall).
    pose proof (is_align_bounds _ Hal). pose proof (align_to_spec end_ (ly_align l) ltac:(lia)).
    unfold lt_size in Hl. simpl in Hl.
    apply (IH ltac:(apply all_list_Forall; eapply all_list_impl; [|exact Hall]; by intros ? []) Hs H0 0 end_); [lia|done|lia].
  - intros base l vars po tag var v offs objs Htag Hrow Hvar _ IH Hg Hs H0 Hl.
    destruct (static_sum_live _ _ _ _ _ Hs Hvar) as [Hsv Hlive].
    destruct Hg as (Hal & -> & _ & Hsz & _ & Hall). pose proof (is_align_bounds _ Hal).
    destruct (all_list_elem _ _ _ Hall (list_elem_of_lookup_2 _ _ _ Hvar)) as (Hgv & _ & Hsv').
    unfold lt_size at 1 in Hl. simpl in Hl. destruct (IH Hgv Hsv ltac:(lia) ltac:(lia)) as (-> & -> & Hb).
    split_and!; [done|done|]. rewrite Hlive. cbn [bsatn bsatn_sum]. rewrite Hb. cbn [mbind option_bind]. f_equal.
    cbn [map pick]. rewrite Z.add_0_r, Hrow, map_add_add. done.
  - done.
  - intros base e els v vals offs1 objs1 offs2 objs2 _ IH1 _ IH2 Hg [Hse Hs] H0 cur end_ Hcur [Ho Hch] Hl.
    apply Forall_cons in Hg as [Hge Hg]. pose proof (is_align_bounds _ (lt_align_ok _ Hge)).
    pose proof (lt_size_aligned _ Hge) as [Hsz _].
    pose proof (align_to_spec cur _ (ltac:(lia) : 0 < lt_align (pel_ty e))) as [Hal _].
    destruct (chained_placed _ _ Hg (pel_offset e + lt_size (pel_ty e)) ltac:(lia) Hch) as (_ & _ & _ & Hend).
    destruct (IH1 Hge Hse ltac:(lia) ltac:(lia)) as (-> & -> & Hb1).
    destruct (IH2 Hg Hs H0 (pel_offset e + lt_size (pel_ty e)) end_ ltac:(lia) Hch Hl) as (-> & -> & Hb2).
    split_and!; [done|done|]. simpl. rewrite Hb1, Hb2. simpl. f_equal.
    by rewrite map_app, pick_app, map_add_add.
Qed.

(** The BSATN of a value of a static layout has as many bytes as the layout. *)
Lemma static_bsatn_length :
  (∀ ty v objs, has_type ty v objs → static ty → ∃ b, bsatn v = Some b ∧ length b = length (live ty)) ∧
  (∀ els vals objs, has_types els vals objs → all_list (λ e, static (pel_ty e)) els → ∃ b, bsatn_list bsatn vals = Some b ∧
    length b = length (concat (map (λ e, map (Z.add (pel_offset e)) (live (pel_ty e))) els))).
Proof.
  apply has_type_ind'.
  - intros p v b Hp _. exists b. split; [by eapply prim_value_bsatn|]. simpl. rewrite length_seqZ.
    pose proof (prim_value_len _ _ _ Hp) as Hl. unfold len in Hl. lia.
  - done.
  - intros l els vals objs _ IH Hs. exact (IH Hs).
  - intros l vars po tag var v objs Htag Hvar _ IH Hs. destruct (static_sum_live _ _ _ _ _ Hs Hvar) as [Hsv ->].
    destruct (IH Hsv) as (b & Hb & Hl). exists (byte_of_Z tag :: b). cbn [bsatn bsatn_sum]. rewrite Hb. split; [done|].
    simpl. by rewrite length_map, Hl.
  - intros _. by exists [].
  - intros e els v vals objs1 objs2 _ IH1 _ IH2 [Hse Hs]. destruct (IH1 Hse) as (b1 & Hb1 & Hl1).
    destruct (IH2 Hs) as (b2 & Hb2 & Hl2). exists (b1 ++ b2). simpl. rewrite Hb1, Hb2. split; [done|].
    rewrite !length_app, length_map. lia.
Qed.

(** A row whose live bytes are the BSATN of a value represents it. *)
Lemma live_repr row :
  (∀ ty v objs, has_type ty v objs → good ty → static ty → ∀ base, 0 ≤ base → base + lt_size ty ≤ len row →
    bsatn v = Some (pick row (map (Z.add base) (live ty))) → repr row base ty v [] []) ∧
  (∀ els vals objs, has_types els vals objs → Forall (λ e, good (pel_ty e)) els →
    all_list (λ e, static (pel_ty e)) els → ∀ base cur end_, 0 ≤ base → 0 ≤ cur → chained cur els end_ →
    base + end_ ≤ len row →
    bsatn_list bsatn vals =
      Some (pick row (map (Z.add base) (concat (map (λ e, map (Z.add (pel_offset e)) (live (pel_ty e))) els)))) →
    reprs row base els vals [] []).
Proof.
  apply has_type_ind'.
  - intros p v bs Hp _ _ base H0 Hl Hb. econstructor; [exact Hp|].
    rewrite (prim_value_bsatn _ _ _ Hp) in Hb. injection Hb as ->.
    pose proof (is_align_bounds _ (prim_align p)). change (lt_size (LPrimitive p)) with (prim_size p) in Hl.
    rewrite peek_pick by lia. f_equal. simpl. symmetry. etrans; [apply fmap_add_seqZ|]. by rewrite Z.add_0_r.
  - done.
  - intros l els vals objs _ IH Hg Hs base H0 Hl Hb. destruct Hg as (Hal & (end_ & Hch & Hend) & _ & _ & Hall).
    pose proof (is_align_bounds _ Hal). pose proof (align_to_spec end_ (ly_align l) ltac:(lia)).
    unfold lt_size in Hl. simpl in Hl. constructor.
    apply (IH ltac:(apply all_list_Forall; eapply all_list_impl; [|exact Hall]; by intros ? []) Hs base 0 end_);
      [done|lia|done|lia|done].
  - intros l vars po tag var v objs Htag Hvar _ IH Hg Hs base H0 Hl Hb.
    destruct (static_sum_live _ _ _ _ _ Hs Hvar) as [Hsv Hlive].
    destruct Hg as (Hal & -> & _ & Hsz & _ & Hall). pose proof (is_align_bounds _ Hal).
    destruct (all_list_elem _ _ _ Hall (list_elem_of_lookup_2 _ _ _ Hvar)) as (Hgv & _ & Hsv').
    unfold lt_size at 1 in Hl. simpl in Hl. rewrite Hlive in Hb. cbn [bsatn bsatn_sum] in Hb.
    destruct (bsatn v) as [b|]; [|done]. cbn [mbind option_bind map pick] in Hb. injection Hb as Htb Hb.
    rewrite Z.add_0_r in Htb. econstructor; [done| |done|].
    + destruct (lookup_lt_is_Some_2 row (Z.to_nat base)) as [x Hx]; [unfold len in Hl; lia|]. rewrite Hx in *. by f_equal.
    + apply IH; [done|done|lia|lia|]. by rewrite Hb, map_add_add.
  - intros. constructor.
  - intros e els v vals objs1 objs2 Hte IH1 _ IH2 Hg [Hse Hs] base cur end_ H0 Hcur [Ho Hch] Hl Hb.
    apply Forall_cons in Hg as [Hge Hg]. pose proof (is_align_bounds _ (lt_align_ok _ Hge)).
    pose proof (lt_size_aligned _ Hge) as [Hsz _].
    pose proof (align_to_spec cur _ (ltac:(lia) : 0 < lt_align (pel_ty e))) as [Hal _].
    destruct (chained_placed _ _ Hg (pel_offset e + lt_size (pel_ty e)) ltac:(lia) Hch) as (_ & _ & _ & Hend).
    destruct (proj1 static_bsatn_length _ _ _ Hte Hse) as (b1 & Hb1 & Hl1). cbn [bsatn_list] in Hb. rewrite Hb1 in *.
    destruct (bsatn_list bsatn vals) as [b2|]; [|done]. cbn [mbind option_bind map concat] in Hb.
    rewrite map_app, pick_app, map_add_add in Hb. injection Hb as Hb.
    apply app_inj_1 in Hb as [-> ->]; [|unfold pick; by rewrite !length_map].
    apply (reprs_cons row base e els v vals [] [] [] []); [apply IH1; [done|done|lia|lia|done]|].
    apply (IH2 Hg Hs base (pel_offset e + lt_size (pel_ty e)) end_); [done|lia|done|done|done].
Qed.

(** ** The builder does not overflow *)

Lemma sorted_NoDup (l : list Z) : StronglySorted Z.lt l → NoDup l.
Proof.
  induction 1 as [|x l _ IH Hx]; constructor; [|done]. intros Hin. rewrite Forall_forall in Hx.
  specialize (Hx x Hin). lia.
Qed.

Lemma NoDup_range_length (l : list Z) n : NoDup l → Forall (λ i, 0 ≤ i < n) l → len l ≤ Z.max 0 n.
Proof.
  intros Hs Hf. assert (Hsub : l ⊆+ seqZ 0 n).
  { apply NoDup_submseteq; [done|]. intros x Hx. rewrite Forall_forall in Hf. apply elem_of_seqZ. specialize (Hf x Hx). lia. }
  apply submseteq_length in Hsub. rewrite length_seqZ in Hsub. unfold len. lia.
Qed.

Lemma sorted_length (l : list Z) n : StronglySorted Z.lt l → Forall (λ i, 0 ≤ i < n) l → len l ≤ Z.max 0 n.
Proof. intros Hs. by apply NoDup_range_length, sorted_NoDup. Qed.

Lemma live_length ty : good ty → len (live ty) ≤ lt_size ty.
Proof.
  intros Hg. destruct (live_range ty Hg) as [Hr Hs]. pose proof (lt_size_aligned _ Hg) as [H0 _].
  pose proof (sorted_length _ _ Hs Hr). lia.
Qed.

Lemma fields_from_end pre f :
  fields_from 0 (pre ++ [f]) → 0 ≤ mf_length f ∧ mf_bsatn_offset f + mf_length f = len (positions (pre ++ [f])).
Proof.
  intros [_ (Ho & Hl & _)]%fields_from_app. rewrite positions_app, positions_single, len_app.
  unfold len at 2. rewrite length_seqZ. lia.
Qed.

(** Visiting a type whose bytes fit in what is left of 16 bits. *)
Definition visit_fits (ty : AlgebraicTypeLayout) : Prop :=
  good ty → ∀ pre f, fields_from 0 (pre ++ [f]) → 0 ≤ mf_bflatn_offset f → mf_end f + lt_size ty < 65536 →
  len (positions (pre ++ [f])) + lt_size ty < 65536 →
  match visit_value ty (pre ++ [f]) with
  | Ok fs' => ∃ pre' f', fs' = pre' ++ [f'] ∧ 0 ≤ mf_bflatn_offset f' ∧ mf_end f' ≤ mf_end f + lt_size ty
  | Err _ => True
  | Panic | OutOfFuel => False
  end.

Lemma extend_current_fits n pre f :
  0 ≤ n → fields_from 0 (pre ++ [f]) → 0 ≤ mf_bflatn_offset f → mf_end f + n < 65536 →
  extend_current n (pre ++ [f]) = Ok (pre ++ [{| mf_bflatn_offset := mf_bflatn_offset f;
    mf_bsatn_offset := mf_bsatn_offset f; mf_length := mf_length f + n |}]).
Proof.
  intros Hn Hf H0 He. unfold extend_current. rewrite current_field_snoc. cbn [rbind]. unfold mf_end in He.
  rewrite add_u_Ok by lia. cbn [rbind]. by rewrite removelast_snoc.
Qed.

Lemma visit_elements_fits base els :
  Forall (λ e, visit_fits (pel_ty e) ∧ good (pel_ty e)) els → 0 ≤ base → ∀ cur end_ pre f, chained cur els end_ →
  0 ≤ cur → base + end_ < 65536 → fields_from 0 (pre ++ [f]) → 0 ≤ mf_bflatn_offset f → mf_end f ≤ base + cur →
  len (positions (pre ++ [f])) + (end_ - cur) < 65536 →
  match visit_elements base els (pre ++ [f]) with
  | Ok fs' => ∃ pre' f', fs' = pre' ++ [f'] ∧ 0 ≤ mf_bflatn_offset f' ∧ mf_end f' ≤ base + end_
  | Err _ => True
  | Panic | OutOfFuel => False
  end.
Proof.
  intros Hels Hbase. induction Hels as [|e els [He Hg] Hels IH]; intros cur end_ pre f Hch Hcur Hend Hf H0 Hf1 Hp; simpl.
  - simpl in Hch. subst. by exists pre, f.
  - destruct Hch as [Ho Hch]. pose proof (is_align_bounds _ (lt_align_ok _ Hg)).
    pose proof (lt_size_aligned _ Hg) as [Hsz _].
    pose proof (align_to_spec cur _ (ltac:(lia) : 0 < lt_align (pel_ty e))) as [Hal _].
    assert (Hgs : Forall (λ e, good (pel_ty e)) els) by (eapply Forall_impl; [exact Hels|]; by intros ? []).
    destruct (chained_placed _ _ Hgs (pel_offset e + lt_size (pel_ty e)) ltac:(lia) Hch) as (_ & _ & _ & Hend').
    destruct (fields_from_end _ _ Hf) as [Hl0 Hb].
    assert (Hst : ∃ fs1, start_element (pel_offset e) base (pre ++ [f]) = Ok fs1 ∧
      ∃ pre1 f1, fs1 = pre1 ++ [f1] ∧ 0 ≤ mf_bflatn_offset f1).
    { unfold start_element, next_bflatn_offset, next_bsatn_offset. rewrite !current_field_snoc. cbn [rbind].
      unfold mf_end in Hf1. rewrite !add_u_Ok by lia. cbn [rbind]. case_match; eexists; (split; [done|]).
      - eexists _, _. split; [done|]. simpl. lia.
      - by exists pre, f. }
    destruct Hst as (fs1 & Hst & pre1 & f1 & -> & H01). rewrite Hst. cbn [rbind].
    destruct (start_element_ok _ _ _ _ _ Hf Hst) as (pre1' & f1' & Heq & Hff1 & He1 & Hp1).
    apply app_inj_2 in Heq as [<- [= <-]]; [|done].
    specialize (He Hg pre1 f1 Hff1 H01 ltac:(lia) ltac:(rewrite Hp1; lia)).
    destruct (visit_value (pel_ty e) (pre1 ++ [f1])) as [fs2| | |] eqn:Hv; try done. cbn [rbind].
    destruct He as (pre2 & f2 & -> & H02 & He2).
    destruct (visit_ok _ Hg _ _ _ Hff1 Hv) as (_ & pre2' & f2' & _ & Hff2 & Hp2).
    eapply (IH (pel_offset e + lt_size (pel_ty e))); try done; try lia.
    rewrite Hp2, Hp1, len_app. unfold len at 2. rewrite length_map. pose proof (live_length _ Hg). unfold len in *. lia.
Qed.

Lemma build_fits fs : fields_from 0 fs → len (positions fs) < 65536 → ∃ l, build fs = Ok l.
Proof.
  intros Hf Hp. unfold build. pose proof (fields_from_filter _ _ Hf) as Hf'. rewrite <-positions_filter in Hp.
  destruct (filter _ fs) as [|f fs' _] using rev_ind; simpl; [by eexists|]. rewrite last_snoc.
  apply fields_from_end in Hf' as [_ He]. rewrite add_u_Ok by lia. by eexists.
Qed.

(** The layout of a variant on its own. *)
Lemma variant_fits ty :
  visit_fits ty → good ty → lt_size ty < 65536 →
  match visit_value ty new_builder with Ok fs => ∃ l, build fs = Ok l | Err _ => True | Panic | OutOfFuel => False end.
Proof.
  intros Hv Hg Hs. set (f0 := {| mf_bflatn_offset := 0; mf_bsatn_offset := 0; mf_length := 0 |}).
  pose proof (Hv Hg [] f0 ltac:(by simpl) ltac:(simpl; lia) ltac:(unfold mf_end; simpl; lia) ltac:(change (len (positions ([] ++ [f0]))) with 0; lia)) as H.
  change ([] ++ [f0]) with new_builder in H. destruct (visit_value ty new_builder) as [fs| | |] eqn:E; try done.
  destruct (visit_ok ty Hg [] f0 fs ltac:(by simpl) E) as (_ & pre & f & -> & Hf & Hp). apply build_fits; [done|].
  rewrite Hp, len_app. change (len (positions ([] ++ [f0]))) with 0. unfold len. rewrite length_map.
  pose proof (live_length _ Hg). unfold len in *. lia.
Qed.

Lemma check_variants_fits first vs :
  Forall (λ v, visit_fits (vl_ty v) ∧ good (vl_ty v) ∧ lt_size (vl_ty v) < 65536) vs →
  returns (check_variants first vs).
Proof.
  induction 1 as [|v vs (Hv & Hg & Hs) _ IH]; [done|]. pose proof (variant_fits _ Hv Hg Hs) as H.
  change (returns (rbind (visit_value (vl_ty v) new_builder) (λ fs, rbind (build fs) (λ l,
    if bool_decide (l ≠ first) then Err tt else check_variants first vs)))).
  destruct (visit_value (vl_ty v) new_builder); try done. destruct H as [l Hl]. cbn [rbind]. rewrite Hl. cbn [rbind]. by case_match.
Qed.

Lemma visit_sum_fits l vs po : Forall (λ v, visit_fits (vl_ty v)) vs → visit_fits (LSum l vs po).
Proof.
  intros Hvs (Hal & -> & _ & Hsz & _ & Hall) pre f Hf H0 He Hp. unfold lt_size in He, Hp |- *. cbn [layout] in *.
  apply all_list_Forall in Hall. pose proof (is_align_bounds _ Hal) as Hpo.
  assert (Hvg : Forall (λ v, visit_fits (vl_ty v) ∧ good (vl_ty v) ∧ lt_size (vl_ty v) < 65536) vs).
  { rewrite Forall_forall in Hvs, Hall |- *. intros v Hin. destruct (Hall v Hin) as (? & ? & ?). split_and!; [by apply Hvs|done|lia]. }
  destruct vs as [|v vs]; [done|]. apply Forall_cons in Hvg as [(Hv & Hgv & Hsv) Hvs'].
  apply Forall_cons in Hall as [(_ & _ & Hfit) _]. cbn [visit_value].
  pose proof (variant_fits _ Hv Hgv Hsv) as H1. destruct (visit_value (vl_ty v) new_builder) as [fs| | |]; try done.
  destruct H1 as [first Hb]. cbn [rbind]. rewrite Hb. cbn [rbind].
  pose proof (check_variants_fits first vs Hvs') as Hc. unfold check_variants in Hc.
  match goal with |- context [rbind ?m _] => destruct m as [[]| | |] end; try done. cbn [rbind].
  destruct (fields_from_end _ _ Hf) as [Hl0 Hbs].
  assert (Hx : 0 ≤ 1 ∧ mf_end f + 1 < 65536) by lia. destruct Hx as [Hx1 Hx2].
  pose proof (extend_current_fits 1 pre f Hx1 Hf H0 Hx2) as Hext.
  destruct (bsatn_length first =? 0).
  - rewrite Hext. eexists _, _. split; [done|]. unfold mf_end in *. simpl. lia.
  - unfold next_bflatn_offset, next_bsatn_offset. rewrite !current_field_snoc. cbn [rbind]. unfold mf_end in *.
    rewrite !add_u_Ok by lia. cbn [rbind]. rewrite !add_u_Ok by lia. cbn [rbind]. unfold visit_primitive.
    change (wrap_u 16 (prim_size (PInt U8))) with 1. rewrite Hext. cbn [rbind].
    destruct (extend_current_ok 1 pre f _ Hx1 Hf Hext) as (f1 & Heq & Hf1 & He1 & Hb1 & Hp1).
    apply app_inj_2 in Heq as [_ [= <-]]; [|done]. set (f1 := {| mf_length := mf_length f + 1 |}) in *.
    assert (Hlen1 : len (positions (pre ++ [f1])) = len (positions (pre ++ [f])) + 1) by (rewrite Hp1, len_app; done).
    destruct (Z.ltb_spec 1 (ly_align l)) as [Hlt|Hge].
    + destruct (fields_from_push _ _ (mf_bflatn_offset f + mf_length f + ly_align l) _ Hf1 (eq_sym Hb1)) as (F1 & F2 & F3).
      specialize (Hv Hgv _ _ F1). unfold mf_end in Hv, F2. cbn [mf_bflatn_offset mf_length] in Hv. rewrite F3, Hlen1 in Hv.
      specialize (Hv ltac:(lia) ltac:(lia) ltac:(lia)). destruct (visit_value (vl_ty v) _); try done.
      destruct Hv as (pre2 & f2 & -> & ? & ?). exists pre2, f2. split_and!; [done|done|lia].
    + specialize (Hv Hgv _ _ Hf1). rewrite Hlen1 in Hv. unfold mf_end in Hv. simpl in Hv.
      specialize (Hv ltac:(lia) ltac:(lia) ltac:(lia)). destruct (visit_value (vl_ty v) _); try done.
      destruct Hv as (pre2 & f2 & -> & ? & ?). exists pre2, f2. split_and!; [done|done|lia].
Qed.

Lemma visit_never_panics ty : visit_fits ty.
Proof.
  induction ty as [l vs po IH|l els IH|p|v] using layout_nested_ind.
  - by apply visit_sum_fits.
  - intros (Hal & (end_ & Hch & Hend) & _ & _ & Hall) pre f Hf H0 He Hp. cbn [visit_value].
    unfold lt_size in He, Hp |- *. cbn [layout] in *. apply all_list_Forall in Hall.
    pose proof (is_align_bounds _ Hal). pose proof (align_to_spec end_ _ (ltac:(lia) : 0 < ly_align l)) as [Ha _].
    assert (Hgs : Forall (λ e, visit_fits (pel_ty e) ∧ good (pel_ty e)) els).
    { apply Forall_and. split; [done|]. eapply Forall_impl; [exact Hall|]. by intros ? []. }
    destruct (chained_placed els end_ ltac:(eapply Forall_impl; [exact Hgs|]; by intros ? []) 0 ltac:(lia) Hch) as (_ & _ & _ & Hend').
    destruct (fields_from_end _ _ Hf) as [Hl0 _]. unfold next_bflatn_offset. rewrite current_field_snoc. cbn [rbind].
    rewrite add_u_Ok by (unfold mf_end in He; lia). cbn [rbind].
    pose proof (visit_elements_fits (mf_end f) els Hgs ltac:(unfold mf_end; lia) 0 end_ pre f Hch ltac:(lia) ltac:(lia) Hf H0 ltac:(lia) ltac:(lia)) as Hv.
    unfold visit_elements, mf_end in *. match goal with |- match ?m with _ => _ end => destruct m end; try done.
    destruct Hv as (pre2 & f2 & -> & ? & ?). exists pre2, f2. split_and!; [done|done|lia].
  - intros _ pre f Hf H0 He Hp. cbn [visit_value]. unfold visit_primitive.
    assert (Hw : wrap_u 16 (prim_size p) = prim_size p) by by destruct p as [|[]|[]]. rewrite Hw.
    change (lt_size (LPrimitive p)) with (prim_size p) in *. pose proof (is_align_bounds _ (prim_align p)).
    rewrite extend_current_fits by (done || lia). eexists _, _. split; [done|]. unfold mf_end. simpl. lia.
  - done.
Qed.

(** ** Rows *)

(** The row represents the value, which has no var-len parts. *)
Definition fixed_row (rt : RowTypeLayout) (row : list byte) (val : ProductValue) : Prop :=
  len row = row_size rt ∧ match val with MkProductValue vals => reprs row 0 (row_elements rt) vals [] [] end.

Section static_rows.
Context (es : list ProductTypeElement) (rt : RowTypeLayout).
Context (Hrt : row_type_layout (E:=unit) es = Ok rt) (Hnr : contains_refs (TProduct es) = false).
Context (Hsize : ty_size (TProduct es) ≤ PAGE_DATA_SIZE).

Local Abbreviation row_live :=
  (concat (map (λ e, map (Z.add (pel_offset e)) (live (pel_ty e))) (row_elements rt))) (only parsing).

Lemma row_visit :
  visit_value (row_product rt) new_builder = visit_elements 0 (row_elements rt) new_builder.
Proof using. done. Qed.

Lemma for_row_type_returns : returns (for_row_type rt).
Proof using Hrt Hnr Hsize.
  destruct (row_good es rt Hrt Hnr Hsize) as [[G1 G2 G3 (end_ & Hch & Hend) G5 G6 HM HaM] _].
  unfold for_row_type. case_match; [done|]. rewrite row_visit.
  set (f0 := {| mf_bflatn_offset := 0; mf_bsatn_offset := 0; mf_length := 0 |}).
  assert (Hgs : Forall (λ e, visit_fits (pel_ty e) ∧ good (pel_ty e)) (row_elements rt)).
  { eapply Forall_impl; [exact G6|]. intros e He. split; [apply visit_never_panics|done]. }
  assert (Hga : Forall (λ e, visit_adds (pel_ty e) ∧ good (pel_ty e)) (row_elements rt)).
  { eapply Forall_impl; [exact G6|]. intros e He. split; [apply visit_ok|done]. }
  assert (Hf0 : fields_from 0 ([] ++ [f0])) by by simpl.
  pose proof (visit_elements_fits 0 _ Hgs ltac:(lia) 0 end_ [] f0 Hch ltac:(lia) ltac:(lia) Hf0
    ltac:(simpl; lia) ltac:(unfold mf_end; simpl; lia) ltac:(change (len (positions ([] ++ [f0]))) with 0; lia)) as Hv.
  change ([] ++ [f0]) with new_builder in Hv.
  destruct (visit_elements 0 (row_elements rt) new_builder) as [fs| | |] eqn:E; try done. cbn [rbind].
  destruct (visit_elements_ok 0 _ Hga [] f0 fs Hf0 E) as (_ & pre & f & -> & Hf & Hp).
  destruct (build_fits _ Hf) as [l ->]; [|done]. rewrite Hp, len_app. change (len (positions ([] ++ [f0]))) with 0.
  destruct (live_elements_ok (row_elements rt)) with (cur := 0) (end_ := end_) as (R1 & R2 & R3); [|lia|done|].
  { eapply Forall_impl; [exact G6|]. intros e He. split; [by apply live_range|done]. }
  pose proof (sorted_length _ _ R2 R1). unfold len in *. rewrite length_map. lia.
Qed.

Context (sl : StaticLayout) (Hsl : for_row_type rt = Ok sl).

Lemma row_static :
  all_list (λ e, static (pel_ty e)) (row_elements rt) ∧ positions (sl_fields sl) = row_live ∧
  copyable (row_size rt) 0 (sl_fields sl) ∧ bsatn_length sl = len (positions (sl_fields sl)).
Proof using Hrt Hnr Hsize Hsl.
  destruct (row_good es rt Hrt Hnr Hsize) as [[G1 G2 G3 (end_ & Hch & Hend) G5 G6 HM HaM] _].
  pose proof Hsl as H. unfold for_row_type in H. inv_ok. destruct (negb _); [done|]. inv_ok. rewrite row_visit in Hok.
  set (f0 := {| mf_bflatn_offset := 0; mf_bsatn_offset := 0; mf_length := 0 |}) in *.
  assert (Hga : Forall (λ e, visit_adds (pel_ty e) ∧ good (pel_ty e)) (row_elements rt)).
  { eapply Forall_impl; [exact G6|]. intros e He. split; [apply visit_ok|done]. }
  destruct (visit_elements_ok 0 _ Hga [] f0 _ ltac:(by simpl) Hok) as (Hs & pre & f & -> & Hf & Hp).
  destruct (build_ok _ _ Hf H) as (B1 & B2 & B3 & B4).
  assert (Hp' : positions (pre ++ [f]) = row_live).
  { rewrite Hp. etrans; [|apply map_id]. by apply map_ext. }
  destruct (live_elements_ok (row_elements rt)) with (cur := 0) (end_ := end_) as (R1 & R2 & R3); [|lia|done|].
  { eapply Forall_impl; [exact G6|]. intros e He. split; [by apply live_range|done]. }
  split_and!; [done|by rewrite B1| |by rewrite B3, B1].
  rewrite <-Hp', <-B1 in R1, R2. split_and!; [done|done|forall_lia R1|by apply sorted_NoDup].
Qed.

Lemma map_add_0 l : map (Z.add 0) l = l.
Proof using. etrans; [|apply map_id]. by apply map_ext. Qed.

(** The BSATN of the value is at the positions of the fields. *)
Lemma fixed_row_bsatn row val :
  fixed_row rt row val → bsatn (VProduct val) = Some (pick row (positions (sl_fields sl))).
Proof using Hrt Hnr Hsize Hsl.
  intros [Hl Hr]. destruct val as [vals]. destruct row_static as (Hs & -> & _ & _).
  destruct (row_good es rt Hrt Hnr Hsize) as [[G1 G2 G3 (end_ & Hch & Hend) G5 G6 HM HaM] _].
  destruct (proj2 (repr_live row) _ _ _ _ _ Hr G6 Hs ltac:(lia) 0 end_ ltac:(lia) Hch ltac:(lia)) as (_ & _ & Hb).
  by rewrite map_add_0 in Hb.
Qed.

(** A row with a static layout has no references. *)
Lemma static_fixed_row row vals offs objs :
  len row = row_size rt → reprs row 0 (row_elements rt) vals offs objs → fixed_row rt row (MkProductValue vals).
Proof using Hrt Hnr Hsize Hsl.
  intros Hl Hr. destruct (row_good es rt Hrt Hnr Hsize) as [[G1 G2 G3 (end_ & Hch & Hend) G5 G6 HM HaM] _].
  destruct row_static as (Hs & _ & _ & _).
  destruct (proj2 (repr_live _) _ _ _ _ _ Hr G6 Hs ltac:(lia) 0 end_ ltac:(lia) Hch ltac:(lia)) as (-> & -> & _).
  done.
Qed.

Lemma serialize_static_row {E} row val bs :
  fixed_row rt row val → bsatn (VProduct val) = Some bs →
  serialize_row_into (E:=E) sl (replicate (Z.to_nat (bsatn_length sl)) None) row = Ok (map Some bs) ∧
  len bs = bsatn_length sl.
Proof using Hrt Hnr Hsize Hsl.
  intros Hf Hb. rewrite (fixed_row_bsatn _ _ Hf) in Hb. injection Hb as <-.
  destruct row_static as (_ & _ & Hc & Hlen). destruct Hf as [Hl _]. rewrite len_pick. split; [|done].
  unfold serialize_row_into. rewrite Hlen, (proj2 (Z.leb_le _ _)).
  - cbn [negb]. rewrite <-Hl in Hc. pose proof (copy_fields_ok (E:=E) row (sl_fields sl) 0 [] Hc eq_refl) as H.
    unfold len. by rewrite Nat2Z.id.
  - unfold len. rewrite length_replicate. lia.
Qed.

Lemma deserialize_static_row {E} val bs buf :
  typed [] (TProduct es) (VProduct val) → bsatn (VProduct val) = Some bs → len buf = row_size rt →
  ∃ row, deserialize_row_into (E:=E) sl buf bs = Ok row ∧ fixed_row rt row val.
Proof using Hrt Hnr Hsize Hsl.
  intros Ht Hb Hl. destruct (typed_row es rt Hrt Hnr val Ht) as [objs Ho]. destruct val as [vals].
  destruct row_static as (Hs & Hp & Hc & Hlen).
  destruct (proj2 static_bsatn_length _ _ _ Ho Hs) as (bs' & Hbs & Hlb).
  change (bsatn (VProduct (MkProductValue vals))) with (bsatn_list bsatn vals) in Hb.
  assert (bs' = bs) as -> by congruence. rewrite <-Hp in Hlb. rewrite <-Hl in Hc.
  destruct (uncopy_fields_ok (E:=E) bs (sl_fields sl) 0 buf Hc ltac:(lia) ltac:(unfold len; lia))
    as (row & Hd & Hlr & Hpk & _).
  exists row. split; [done|]. split; [by rewrite Hlr|].
  destruct (row_good es rt Hrt Hnr Hsize) as [[G1 G2 G3 (end_ & Hch & Hend) G5 G6 HM HaM] _].
  apply (proj2 (live_repr row) _ _ _ Ho G6 Hs 0 0 end_); [lia|lia|done|lia|].
  rewrite map_add_0, <-Hp, Hpk, Hbs. f_equal. symmetry. unfold len at 1.
  rewrite <-Hlb. apply peek_all.
Qed.

Lemma static_rows_eq {E} a b va vb :
  typed [] (TProduct es) (VProduct va) → typed [] (TProduct es) (VProduct vb) →
  fixed_row rt a va → fixed_row rt b vb → ∃ r, sl_eq (E:=E) sl a b = Ok r ∧ (r = true ↔ va = vb).
Proof using Hrt Hnr Hsize Hsl.
  intros Hta Htb Ha Hb. destruct row_static as (_ & _ & Hc & _).
  eexists. split; [by apply (fields_eq_ok a b _ _ _ Hc (proj1 Ha) (proj1 Hb))|]. rewrite bool_decide_eq_true. split.
  - intros He. pose proof (fixed_row_bsatn _ _ Ha) as Ba. pose proof (fixed_row_bsatn _ _ Hb) as Bb. rewrite <-He in Bb.
    pose proof (bsatn_inj _ _ _ _ Hnr Hta Htb Ba Bb). congruence.
  - intros <-. pose proof (fixed_row_bsatn _ _ Ha). pose proof (fixed_row_bsatn _ _ Hb). congruence.
Qed.

(** The general reader reads the value from the row. *)
Lemma fixed_row_reads {E B} {BsI : BlobStore B} row vals p (bs : B) :
  fixed_row rt row (MkProductValue vals) → serialize_elements (E:=E) row p bs (row_elements rt) 0 = Ok vals.
Proof using Hrt Hnr Hsize.
  intros [Hl Hr]. destruct (row_good es rt Hrt Hnr Hsize) as [[G1 G2 G3 (end_ & Hch & Hend) G5 G6 HM HaM] _].
  apply (proj2 (repr_reads (E:=E) row p bs) _ _ _ _ _ Hr (ly_align (row_layout rt)) 0 end_); try done; [apply Z.divide_0_r|lia].
Qed.
End static_rows.

(** C23. The copies of a static layout do what the general code does.  The
    layout is computed for every row type that fits in a page without an
    overflow; when there is one, copying a row to BSATN gives what [to_vec]
    gives for its value, copying BSATN to a row gives a row from which the
    general reader reads the value back, and comparing two rows compares
    their values, whatever their padding. *)
Theorem static_layout_correct es rt :
  row_type_layout (E:=unit) es = Ok rt → contains_refs (TProduct es) = false →
  ty_size (TProduct es) ≤ PAGE_DATA_SIZE →
  returns (for_row_type rt) ∧
  ∀ sl, for_row_type rt = Ok sl →
    (∀ row val buf, typed [] (TProduct es) (VProduct val) → fixed_row rt row val →
      ∃ bs, to_vec (VProduct val) = Ok bs ∧ len bs = bsatn_length sl ∧
        serialize_row_into_vec (E:=unit) sl row = Ok bs ∧ serialize_row_extend (E:=unit) sl buf row = Ok (buf ++ bs)) ∧
    (∀ val bs buf, typed [] (TProduct es) (VProduct val) → to_vec (VProduct val) = Ok bs → len buf = row_size rt →
      ∃ row, deserialize_row_into (E:=unit) sl buf bs = Ok row ∧ fixed_row rt row val ∧
        ∀ B (BsI : BlobStore B) p (store : B),
          rmap MkProductValue (serialize_elements (E:=unit) row p store (row_elements rt) 0) = Ok val) ∧
    (∀ a b va vb, typed [] (TProduct es) (VProduct va) → typed [] (TProduct es) (VProduct vb) →
      fixed_row rt a va → fixed_row rt b vb → ∃ r, sl_eq (E:=unit) sl a b = Ok r ∧ (r = true ↔ va = vb)).
Proof.
  intros Hrt Hnr Hsize. split; [by eapply for_row_type_returns|]. intros sl Hsl. split_and!.
  - intros row val buf Ht Hf. destruct (ev_value _ _ _ Ht) as (bs & Hbs & _).
    destruct (serialize_static_row (E:=unit) es rt Hrt Hnr Hsize sl Hsl row val bs Hf Hbs) as [Hs Hl].
    exists bs. split_and!; [by apply to_vec_bsatn|done| |];
      unfold serialize_row_into_vec, serialize_row_extend; rewrite Hs; cbn [rbind]; by rewrite assume_init_ok.
  - intros val bs buf Ht Hbs%to_vec_bsatn Hl.
    destruct (deserialize_static_row (E:=unit) es rt Hrt Hnr Hsize sl Hsl val bs buf Ht Hbs Hl) as (row & Hd & Hf).
    exists row. split_and!; [done|done|]. intros B BsI p store. destruct val as [vals].
    by rewrite (fixed_row_reads es rt Hrt Hnr Hsize row vals p store Hf).
  - intros a b va vb. by eapply static_rows_eq.
Qed.

Module Examples.
Import BflatnThm.Examples.

(** A row with padding: a 64-bit integer, a flag, and a sum of a signed and an
    unsigned 32-bit integer. *)
Definition static_es : list ProductTypeElement :=
  [col (TInt U64); col TBool; col (TSum [variant (TInt I32); variant (TInt U32)])].
Definition static_rt : RowTypeLayout := Eval vm_compute in layout_ex static_es.
Definition static_sl : StaticLayout := Eval vm_compute in
  match for_row_type static_rt with Ok sl => sl | _ => {| bsatn_length := 0; sl_fields := [] |} end.
Definition static_val : ProductValue :=
  MkProductValue [VInt U64 7; VBool true; VSum (MkSumValue 0 (VInt I32 (-1)))].

Lemma static_val_typed : typed [] (TProduct static_es) (VProduct static_val).
Proof.
  exists (TProduct static_es). split; [by constructor|]. simpl. split_and!; try done.
  - eexists. split; [by constructor|]. split; [done|]. by vm_compute.
  - eexists. by split; [by constructor|].
  - eexists. split; [by constructor|]. split; [by vm_compute|]. eexists. split; [done|].
    eexists. split; [by constructor|]. split; [done|]. by vm_compute.
Qed.

(** A row filled with [ff] takes the value and gives it back as 14 bytes; the
    padding stays. *)
Lemma static_layout_correct_witness :
  ∃ bs row, to_vec (VProduct static_val) = Ok bs ∧ len bs = 14 ∧
    deserialize_row_into (E:=unit) static_sl (replicate 24 xff) bs = Ok row ∧
    serialize_row_into_vec (E:=unit) static_sl row = Ok bs ∧ sl_eq (E:=unit) static_sl row row = Ok true.
Proof.
  assert (H1 : ty_size (TProduct static_es) ≤ PAGE_DATA_SIZE) by (vm_compute; discriminate).
  assert (H2 : row_type_layout (E:=unit) static_es = Ok static_rt) by (vm_compute; reflexivity).
  destruct (static_layout_correct static_es static_rt H2 eq_refl H1) as [_ H].
  destruct (H static_sl ltac:(vm_compute; reflexivity)) as (Hs & Hd & He).
  pose proof static_val_typed as Ht. destruct (to_vec (VProduct static_val)) as [bs| | |] eqn:Hb; [|by vm_compute in Hb..].
  destruct (Hd static_val bs (replicate 24 xff) Ht Hb eq_refl) as (row & Hrow & Hf & _).
  destruct (Hs row static_val [] Ht Hf) as (bs' & Hb' & Hlen & Hser & _). rewrite Hb in Hb'. injection Hb' as <-.
  destruct (He row row static_val static_val Ht Ht Hf Hf) as (r & Hr & Hiff). assert (r = true) as -> by by apply Hiff.
  by exists bs, row.
Defined.
End Examples.
