(* ===== verification/RowEq.v ===== *)
(** * Comparing rows in their pages (crates/table/src/eq.rs)

    Two rows of the same type, possibly in different pages, are compared
    without being read: bytes for primitive values, chunk by chunk for var-len
    objects, by their hash for large ones, and with the static layout when
    there is one.  The theorem shows that this compares the values. *)

From Stdlib Require Import ZArith Lia.
From stdpp Require Import gmap gmultiset.
From S2P Require Import Prelude Buffer Sats Bsatn Mem Indexes BitSet VarLen BlobStore Page PageInv PageRows PageRead PageThm Layout RowTypeVisitor BflatnTo BflatnFrom BflatnWriter BflatnRepr BflatnWrite BflatnThm StaticLayout.
Local Open Scope Z_scope.
Local Open Scope result_scope.

(** ** Comparison *)

Section comparison.
Context {E : Type} (bytes_a : list byte) (page_a : Page) (bytes_b : list byte) (page_b : Page).

Definition eq_byte_array (curr_offset n : Z) : result E bool :=
  let* data_a := slice bytes_a curr_offset n in
  let* data_b := slice bytes_b curr_offset n in
  Ok (bool_decide (data_a = data_b)).

(** [eq_vlo]; the iterators are run to their ends before the comparison. *)
Definition eq_vlo (curr_offset : Z) : result E bool :=
  let* vlr_a := read_vlr bytes_a curr_offset in
  let* vlr_b := read_vlr bytes_b curr_offset in
  if negb (length_in_bytes vlr_a =? length_in_bytes vlr_b) then Ok false
  else
    let* var_iter_a := iter_vlo_data page_a (first_granule vlr_a) in
    let* var_iter_b := iter_vlo_data page_b (first_granule vlr_b) in
    Ok (forallb (λ '(da, db), bool_decide (da = db)) (zip var_iter_a var_iter_b)).

(** [eq_value] and [eq_product] at an offset.  As in [BflatnFrom.v], the
    offset that the code leaves behind is set again by the parent. *)
Fixpoint eq_value (ty : AlgebraicTypeLayout) (curr_offset : Z) : result E bool :=
  if negb (curr_offset =? align_to curr_offset (lt_align ty)) then Panic
  else
    match ty with
    | LSum _ variants payload_offset =>
        let* tag_a := read_tag bytes_a curr_offset in
        let* _ := vec_get variants tag_a in
        let* tag_b := read_tag bytes_b curr_offset in
        let* _ := vec_get variants tag_b in
        if negb (tag_a =? tag_b) then Ok false
        else
          (fix go variants n : result E bool :=
             match variants, n with
             | [], _ => Panic
             | v :: _, O => eq_value (vl_ty v) (curr_offset + offset_of_variant_data payload_offset)
             | _ :: variants, S n => go variants n
             end) variants (Z.to_nat tag_a)
    | LProduct _ elements =>
        (fix go elements : result E bool :=
           match elements with
           | [] => Ok true
           | elem_ty :: elements =>
               let* b := eq_value (pel_ty elem_ty) (curr_offset + pel_offset elem_ty) in
               if b : bool then go elements else Ok false
           end) elements
    | LPrimitive p => eq_byte_array curr_offset (prim_size p)
    | LVarLen _ => eq_vlo curr_offset
    end.

Definition eq_product : list ProductTypeElementLayout → Z → result E bool :=
  λ elements base_offset,
  (fix go elements : result E bool :=
     match elements with
     | [] => Ok true
     | elem_ty :: elements =>
         let* b := eq_value (pel_ty elem_ty) (base_offset + pel_offset elem_ty) in
         if b : bool then go elements else Ok false
     end) elements.
End comparison.

(** [eq_row_in_page]. *)
Definition eq_row_in_page {E} (page_a page_b : Page) (fixed_offset_a fixed_offset_b : Z) (ty : RowTypeLayout)
    (static_layout : option StaticLayout) : result E bool :=
  let* a := page_get_row_data page_a fixed_offset_a (row_size ty) in
  let* b := page_get_row_data page_b fixed_offset_b (row_size ty) in
  match static_layout with
  | None => eq_product a page_a b page_b (row_elements ty) 0
  | Some static_bsatn_layout => sl_eq static_bsatn_layout a b
  end.

(** ** Objects *)

Section equal.
Context {HashI : Blake3} {E : Type} (a : list byte) (pa : Page) (b : list byte) (pb : Page).

(** The reference at [k] leads to the chunks of the object, or to its hash. *)
Definition stores_obj (row : list byte) (p : Page) (k : Z) (ob : list byte) : Prop :=
  let r := peek_vlr row k in
  iter_vlo_data (E:=E) p (first_granule r) = Ok (stored ob) ∧
  length_in_bytes r = if 992 <? len ob then LARGE_BLOB_SENTINEL else len ob.

(** If both objects are large and have the same hash, they are equal. *)
Definition no_collision (x y : list byte) : Prop :=
  992 < len x → 992 < len y → blake3 x = blake3 y → x = y.

Lemma zip_all_eq (l k : list (list byte)) :
  length l = length k → forallb (λ '(da, db), bool_decide (da = db)) (zip l k) = true ↔ l = k.
Proof.
  revert k. induction l as [|x l IH]; intros [|y k] Hl; try done. simpl. rewrite andb_true_iff, bool_decide_eq_true.
  rewrite IH by (simpl in Hl; lia). naive_solver.
Qed.

Lemma chunks_inj (x y : list byte) : chunks x = chunks y → x = y.
Proof. intros H. apply (f_equal (@concat byte)) in H. by rewrite !concat_chunks in H. Qed.

Lemma eq_vlo_ok k x y :
  0 ≤ k → k + 4 ≤ len a → k + 4 ≤ len b → stores_obj a pa k x → stores_obj b pb k y → no_collision x y →
  ∃ r, eq_vlo (E:=E) a pa b pb k = Ok r ∧ (r = true ↔ x = y).
Proof.
  intros H0 Ha Hb [Ia La] [Ib Lb] Hc. unfold eq_vlo. rewrite !read_vlr_ok by done. cbn [rbind].
  rewrite Ia, Ib, La, Lb. cbn [rbind]. unfold stored. change LARGE_BLOB_SENTINEL with 65535.
  destruct (Z.ltb_spec 992 (len x)), (Z.ltb_spec 992 (len y)).
  - rewrite Z.eqb_refl. cbn [negb]. eexists. split; [done|]. rewrite zip_all_eq by done. split; [|by intros ->].
    intros [= He]. by apply Hc.
  - destruct (Z.eqb_spec 65535 (len y)) as [|_]; [lia|]. exists false. split; [done|]. split; [done|]. intros ->. lia.
  - destruct (Z.eqb_spec (len x) 65535) as [|_]; [lia|]. exists false. split; [done|]. split; [done|]. intros ->. lia.
  - destruct (Z.eqb_spec (len x) (len y)) as [Heq|Hne]; cbn [negb].
    + eexists. split; [done|]. rewrite zip_all_eq; [split; [apply chunks_inj|by intros ->]|].
      pose proof (length_chunks x ltac:(done)) as Hx. pose proof (length_chunks y ltac:(done)) as Hy.
      rewrite Heq, Hy in Hx. injection Hx. lia.
    + exists false. split; [done|]. split; [done|]. by intros ->.
Qed.

Lemma vl_value_inj t va vb x y : vl_value t va x → vl_value t vb y → x = y ↔ va = vb.
Proof.
  intros Ha Hb. destruct Ha as [s Hs|t va x Ht Hr Hx]; inversion Hb; subst; [naive_solver|]. split.
  - intros ->. by eapply (bsatn_inj (TArray t)).
  - intros [= ->]. congruence.
Qed.

Lemma prim_value_inj p va vb x y : prim_value p va x → prim_value p vb y → x = y ↔ va = vb.
Proof.
  intros Ha Hb. destruct Ha as [v|k z Hz|k z Hz]; inversion Hb; subst; split; try (by intros [= ->]).
  - destruct v, b0; done.
  - intros He. apply (f_equal (int_from_le_bytes k)) in He. rewrite !int_from_le_bytes_ok in He by done. by subst.
  - intros He. apply (f_equal le_val) in He. rewrite !le_val_le_bytes in He.
    rewrite !Z.mod_small in He by done. by subst.
Qed.

Lemma eq_byte_array_ok k n x y :
  0 ≤ k → 0 ≤ n → k + n ≤ len a → k + n ≤ len b → peek a k n = x → peek b k n = y →
  ∃ r, eq_byte_array (E:=E) a b k n = Ok r ∧ (r = true ↔ x = y).
Proof.
  intros H0 Hn Ha Hb Hx Hy. unfold eq_byte_array. rewrite !slice_Ok by done. cbn [rbind]. rewrite Hx, Hy.
  eexists. split; [done|]. apply bool_decide_eq_true.
Qed.

(** ** Values *)

(** The comparison of two sums, at the variant of their tags. *)
Lemma eq_sum l vars po base ta tb va vb :
  (lt_align (LSum l vars po) | base) → 0 ≤ base → in_u 8 ta → in_u 8 tb →
  a !! Z.to_nat base = Some (byte_of_Z ta) → b !! Z.to_nat base = Some (byte_of_Z tb) →
  vars !! Z.to_nat ta = Some va → vars !! Z.to_nat tb = Some vb →
  eq_value (E:=E) a pa b pb (LSum l vars po) base =
    if ta =? tb then eq_value (E:=E) a pa b pb (vl_ty va) (base + po) else Ok false.
Proof.
  intros Hal H0 Hta Htb Ha Hb Hva Hvb. cbn [eq_value]. rewrite serialize_value_aligned by done. cbn [negb].
  unfold read_tag, offset_of_tag, offset_of_variant_data. rewrite Z.add_0_r.
  rewrite (vec_get_Ok _ _ (byte_of_Z ta)), (vec_get_Ok _ _ (byte_of_Z tb)) by done. cbn [rbind].
  rewrite !byte_to_of_Z, !Z.mod_small by done.
  rewrite (vec_get_Ok _ _ va), (vec_get_Ok _ _ vb) by (done || apply Hta || apply Htb). cbn [rbind].
  destruct (ta =? tb); cbn [negb]; [|done]. clear -Hva. revert Hva. generalize (Z.to_nat ta).
  induction vars as [|v vars IH]; intros [|n]; simpl; try done; [by intros [= ->]|apply IH].
Qed.

Lemma eq_values_ok :
  (∀ base ty va offs objs, repr a base ty va offs objs → ∀ vb offs' objs', repr b base ty vb offs' objs' →
    good ty → 0 ≤ base → (lt_align ty | base) → base + lt_size ty ≤ len a → base + lt_size ty ≤ len b →
    Forall2 (stores_obj a pa) offs objs → Forall2 (stores_obj b pb) offs' objs' →
    (∀ x y, x ∈ objs → y ∈ objs' → no_collision x y) →
    ∃ r, eq_value (E:=E) a pa b pb ty base = Ok r ∧ (r = true ↔ va = vb)) ∧
  (∀ base els vals offs objs, reprs a base els vals offs objs → ∀ vals' offs' objs', reprs b base els vals' offs' objs' →
    ∀ M cur end_, Forall (λ e, good (pel_ty e)) els → Forall (λ e, lt_align (pel_ty e) ≤ M) els →
    is_align M → (M | base) → 0 ≤ base → 0 ≤ cur → chained cur els end_ → base + end_ ≤ len a → base + end_ ≤ len b →
    Forall2 (stores_obj a pa) offs objs → Forall2 (stores_obj b pb) offs' objs' →
    (∀ x y, x ∈ objs → y ∈ objs' → no_collision x y) →
    ∃ r, eq_product (E:=E) a pa b pb els base = Ok r ∧ (r = true ↔ vals = vals')).
Proof.
  apply repr_reprs_ind.
  - intros base p va x Hx Hpa vb offs' objs' Hb _ H0 Hal Hla Hlb _ _ _. cbn [eq_value].
    rewrite serialize_value_aligned by done. cbn [negb]. inversion Hb as [? ? ? y Hy Hpb| | |]; subst.
    pose proof (is_align_bounds _ (prim_align p)). change (lt_size (LPrimitive p)) with (prim_size p) in *.
    destruct (eq_byte_array_ok base (prim_size p) _ _ H0 ltac:(lia) Hla Hlb eq_refl eq_refl) as (r & Hr & Hiff).
    exists r. split; [done|]. rewrite Hiff. by eapply prim_value_inj.
  - intros base t va x Hx vb offs' objs' Hb _ H0 Hal Hla Hlb Hoa Hob Hc. cbn [eq_value].
    rewrite serialize_value_aligned by done. cbn [negb]. inversion Hb as [|? ? ? y Hy| |]; subst.
    apply Forall2_cons in Hoa as [Hoa _], Hob as [Hob _]. change (lt_size (LVarLen t)) with 4 in *.
    destruct (eq_vlo_ok base x y H0 Hla Hlb Hoa Hob) as (r & Hr & Hiff); [apply Hc; left|].
    exists r. split; [done|]. rewrite Hiff. by eapply vl_value_inj.
  - intros base l els vals offs objs _ IH vb offs' objs' Hb Hg H0 Hal Hla Hlb Hoa Hob Hc. cbn [eq_value].
    rewrite serialize_value_aligned by done. cbn [negb]. inversion Hb as [| |? ? ? vals' ? ? Hr|]; subst.
    destruct Hg as (Ha & (end_ & Hch & Hend) & _ & _ & Hall). pose proof (is_align_bounds _ Ha).
    pose proof (align_to_spec end_ (ly_align l) ltac:(lia)). unfold lt_size in Hla, Hlb. simpl in Hla, Hlb.
    destruct (IH vals' offs' objs' Hr (ly_align l) 0 end_) as (r & Her & Hiff); try done; try lia.
    + apply all_list_Forall. eapply all_list_impl; [|exact Hall]. by intros ? [].
    + apply all_list_Forall. eapply all_list_impl; [|exact Hall]. by intros ? [].
    + exists r. split; [exact Her|]. rewrite Hiff. naive_solver.
  - intros base l vars po tag var va offs objs Htag Hrow Hvar _ IH vb offs' objs' Hb Hg H0 Hal Hla Hlb Hoa Hob Hc.
    inversion Hb as [| | |? ? ? ? tag' var' v' ? ? Htag' Hrow' Hvar' Hr]; subst.
    rewrite (eq_sum l vars po base tag tag' var var') by done.
    destruct Hg as (Ha & -> & _ & Hsz & _ & Hall). pose proof (is_align_bounds _ Ha).
    destruct (Z.eqb_spec tag tag') as [<-|Hne]; [|exists false; split; [done|]; naive_solver].
    assert (var' = var) as -> by congruence.
    destruct (all_list_elem _ _ _ Hall (list_elem_of_lookup_2 _ _ _ Hvar)) as (Hgv & Hav & Hsv).
    unfold lt_size in Hla, Hlb. simpl in Hla, Hlb. unfold lt_align in Hal. simpl in Hal.
    destruct (IH v' offs' objs' Hr Hgv ltac:(lia)) as (r & Her & Hiff); try done; try (unfold lt_size in *; lia).
    + pose proof (is_align_divide _ _ (lt_align_ok _ Hgv) Ha Hav). apply Z.divide_add_r; [|done]. by trans (ly_align l).
    + exists r. split; [done|]. rewrite Hiff. naive_solver.
  - intros base vals' offs' objs' Hb. inversion Hb; subst. intros. by exists true.
  - intros base e els v vals offs1 objs1 offs2 objs2 Hr1 IH1 _ IH2 vals' offs' objs' Hb M cur end_ Hg HaM HM HMb H0 Hcur
      [Ho Hch] Hla Hlb Hoa Hob Hc.
    inversion Hb as [|? ? ? v' vals2 o1' ob1' o2' ob2' Hr1' Hr2']; subst.
    apply Forall_cons in Hg as [Hge Hg]. apply Forall_cons in HaM as [Hae HaM].
    pose proof (lt_align_ok _ Hge) as Ha. pose proof (is_align_bounds _ Ha). pose proof (lt_size_aligned _ Hge) as [Hs _].
    pose proof (align_to_spec cur _ (ltac:(lia) : 0 < lt_align (pel_ty e))) as [Hal Hdv].
    destruct (chained_placed _ _ Hg (pel_offset e + lt_size (pel_ty e)) ltac:(lia) Hch) as (_ & _ & _ & Hend).
    apply Forall2_app_inv in Hoa as [Hoa1 Hoa2]; [|by eapply (proj1 (repr_length a))].
    apply Forall2_app_inv in Hob as [Hob1 Hob2]; [|by eapply (proj1 (repr_length b))].
    destruct (IH1 v' o1' ob1' Hr1' Hge ltac:(lia)) as (r1 & He1 & Hi1); try done; try lia.
    { apply Z.divide_add_r; [|by rewrite Ho]. trans M; [by apply is_align_divide|done]. }
    { intros x y Hx Hy. apply Hc; apply elem_of_app; by left. }
    destruct (IH2 vals2 o2' ob2' Hr2' M (pel_offset e + lt_size (pel_ty e)) end_) as (r2 & He2 & Hi2); try done; try lia.
    { intros x y Hx Hy. apply Hc; apply elem_of_app; by right. }
    unfold eq_product in *. rewrite He1. cbn [rbind]. destruct r1; [|exists false; split; [done|]; naive_solver].
    exists r2. split; [done|]. rewrite Hi2. naive_solver.
Qed.
End equal.

(** ** Rows *)

Section rows.
Context {B : Type} {BsI : BlobStore B} {HashI : Blake3} {LawI : BlobStoreLaws B}.
Context (es : list ProductTypeElement) (rt : RowTypeLayout).
Context (Hrt : row_type_layout (E:=unit) es = Ok rt) (Hnr : contains_refs (TProduct es) = false).
Context (Hsize : ty_size (TProduct es) ≤ PAGE_DATA_SIZE) (Hcode : len (visitor_code rt) ≤ u16_MAX).

Local Abbreviation rs := (row_size rt) (only parsing).
Local Abbreviation v := (row_type_visitor rt) (only parsing).

Lemma row_object_large rows o gr (x : list byte) :
  rows !! o = Some gr → x ∈ gr_objs gr → 992 < len x → x ∈ large (row_objects rows).
Proof using.
  intros Ho Hx Hl. apply elem_of_list_to_set_disj, list_elem_of_filter. split; [done|].
  unfold row_objects. apply list_elem_of_bind. exists (o, gr). split; [done|]. by apply elem_of_map_to_list.
Qed.

(** The references of a row lead to its objects. *)
Lemma row_stores {E} p rows o gr val :
  page_inv rs v p rows → rows !! o = Some gr → row_repr rt gr val →
  page_get_row_data (E:=E) p o rs = Ok (gr_fixed gr) ∧ len (gr_fixed gr) = rs ∧
  Forall2 (stores_obj (E:=E) (gr_fixed gr) p) (gr_offs gr) (gr_objs gr).
Proof using Hrt Hnr Hsize.
  intros Hp Ho Hr. destruct (row_good es rt Hrt Hnr Hsize) as [_ Hrs].
  destruct (read_row_ok (E:=E) _ Hrs _ _ _ _ _ Hp Ho) as (Hrd & _ & Hobs). split; [done|].
  destruct Hp as (fl & vl & u & H & Hu & Hall). destruct (Hall o gr Ho) as [R1 R2 R3].
  split; [by apply (sh_len _ _ _ _ R2)|].
  apply Forall2_same_length_lookup_2; [by eapply Forall3_length_lr|]. intros i k ob Hk Hob.
  destruct (Forall2_lookup_lr _ _ _ _ _ _ Hobs Hk Hob) as (_ & Hit & _). split; [done|].
  destruct (Forall3_lookup_l _ _ _ _ _ _ R3 Hk) as (c & ob' & Hc & Hob' & Hat).
  assert (ob' = ob) as -> by congruence. unfold obj_at in Hat. destruct (992 <? len ob).
  - by destruct Hat as (g & -> & -> & _).
  - by destruct Hat as [-> _].
Qed.

(** Comparing two rows of pages, with the static layout of the row type if
    there is one and it is used. *)
Lemma eq_rows_ok {E} pa pb rowsa rowsb oa ob gra grb va vb static_layout :
  page_inv rs v pa rowsa → page_inv rs v pb rowsb → rowsa !! oa = Some gra → rowsb !! ob = Some grb →
  row_repr rt gra va → row_repr rt grb vb → typed [] (TProduct es) (VProduct va) → typed [] (TProduct es) (VProduct vb) →
  (∀ x y, x ∈ gr_objs gra → y ∈ gr_objs grb → no_collision x y) →
  (∀ sl, static_layout = Some sl → for_row_type rt = Ok sl) →
  ∃ r, eq_row_in_page (E:=E) pa pb oa ob rt static_layout = Ok r ∧ (r = true ↔ va = vb).
Proof using Hrt Hnr Hsize.
  intros Hpa Hpb Hoa Hob Hra Hrb Hta Htb Hc Hsl. unfold eq_row_in_page.
  destruct (row_stores (E:=E) _ _ _ _ _ Hpa Hoa Hra) as (-> & Hla & Hsa).
  destruct (row_stores (E:=E) _ _ _ _ _ Hpb Hob Hrb) as (-> & Hlb & Hsb). cbn [rbind].
  destruct (row_good es rt Hrt Hnr Hsize) as [[G1 G2 G3 (end_ & Hch & Hend) G5 G6 HM HaM] _].
  destruct va as [valsa], vb as [valsb]. cbn in Hra, Hrb. destruct static_layout as [sl|].
  - pose proof (Hsl sl eq_refl) as Hsl'. eapply (static_fixed_row es rt Hrt Hnr Hsize sl Hsl') in Hra, Hrb; [|done..].
    by eapply (static_rows_eq es rt Hrt Hnr Hsize sl (Hsl sl eq_refl)).
  - destruct (proj2 (eq_values_ok (E:=E) (gr_fixed gra) pa (gr_fixed grb) pb) _ _ _ _ _ Hra _ _ _ Hrb
      (ly_align (row_layout rt)) 0 end_) as (r & Hr & Hiff); try done; try lia; [apply Z.divide_0_r|].
    exists r. split; [done|]. rewrite Hiff. naive_solver.
Qed.

Context (m0 : gmultiset (list byte)).

Lemma table_page_typed p bs A o val :
  table_page es rt m0 p bs A → A !! o = Some val → typed [] (TProduct es) (VProduct val).
Proof using.
  intros H. revert o val. induction H as [|p bs A val' g o' n p' bs' _ IH Ht _ _ _ _|p bs A o' val' n p' bs' _ IH _ _]; intros o val Ho.
  - done.
  - apply lookup_insert_Some in Ho as [[_ <-]|[_ Ho]]; [done|by eapply IH].
  - apply lookup_delete_Some in Ho as [_ Ho]. by eapply IH.
Qed.

(** C27. Rows are equal in their pages exactly when their values are, floats
    bit for bit.  For two rows that were written to pages of the same row type,
    the same page or two, comparing them in place never fails and decides if
    they have the same value: with and without the static layout, for strings
    and arrays of any length, provided that no two different large objects have
    the same hash.  The values of the model have floats as bit patterns, and
    this is how the code compares them here: two zeros of different sign, or two
    different NaNs, are different, unlike for the equality of [F32] and [F64]
    values in [AlgebraicValue], for which they are equal. *)
Theorem eq_row_correct pa bsa Aa pb bsb Ab oa ob va vb static_layout :
  table_page es rt m0 pa bsa Aa → table_page es rt m0 pb bsb Ab → Aa !! oa = Some va → Ab !! ob = Some vb →
  collision_free (large (map_objects Aa) ⊎ large (map_objects Ab)) →
  (∀ sl, static_layout = Some sl → for_row_type rt = Ok sl) →
  ∃ r, eq_row_in_page (E:=PageError) pa pb oa ob rt static_layout = Ok r ∧ (r = true ↔ va = vb).
Proof using Hrt Hnr Hsize Hcode.
  intros Hpa Hpb Ha Hb Hc Hsl.
  pose proof (table_page_typed _ _ _ _ _ Hpa Ha) as Hta. pose proof (table_page_typed _ _ _ _ _ Hpb Hb) as Htb.
  destruct (table_page_inv es rt Hrt Hnr Hsize Hcode _ _ _ _ Hpa) as [rowsa Ia].
  destruct (table_page_inv es rt Hrt Hnr Hsize Hcode _ _ _ _ Hpb) as [rowsb Ib].
  destruct (proj2 (table_inv_lookup _ _ _ _ _ _ oa Ia) ltac:(by eexists)) as [gra Hgra].
  destruct (proj2 (table_inv_lookup _ _ _ _ _ _ ob Ib) ltac:(by eexists)) as [grb Hgrb].
  eapply (eq_rows_ok pa pb rowsa rowsb oa ob gra grb); try done;
    [apply Ia|apply Ib|by eapply (ti_repr _ _ _ _ _ _ Ia)|by eapply (ti_repr _ _ _ _ _ _ Ib)|].
  rewrite <-(table_inv_objects _ _ _ _ _ _ Ia), <-(table_inv_objects _ _ _ _ _ _ Ib) in Hc.
  intros x y Hx Hy Lx Ly. apply Hc; apply gmultiset_elem_of_disj_union; [left|right]; by eapply row_object_large.
Qed.
End rows.

Module Examples.
#[local] Instance last32_hash : Blake3 := BlobStore.Examples.last32_hash.
Import BflatnThm.Examples.

Lemma val_written : ∃ p bs, table_page es rt ∅ p bs {[0 := val]}.
Proof.
  assert (H : (write_row_to_page (row_type_visitor rt) rt val (page_ex rt, (∅ : HashMapBlobStore))).1 = Ok (0, 0))
    by (vm_compute; reflexivity).
  destruct (write_row_to_page _ _ _ _) as [r [p bs]] eqn:E. simpl in H. subst r. exists p, bs.
  eapply (tp_write es rt ∅ _ _ _ _ 2 _ _ _ _ page_ex_reach val_typed); [by vm_compute|by vm_compute|exact val_no_collision|exact E].
Qed.

(** A row is equal to itself in its page. *)
Lemma eq_row_correct_witness : ∃ p, eq_row_in_page (E:=PageError) p p 0 0 rt None = Ok true.
Proof.
  assert (H1 : ty_size (TProduct es) ≤ PAGE_DATA_SIZE) by (vm_compute; discriminate).
  destruct val_written as (p & bs & Hp). exists p.
  destruct (eq_row_correct es rt rt_row eq_refl H1 rt_code ∅ p bs _ p bs _ 0 0 val val None Hp Hp) as (r & Hr & Hiff).
  - reflexivity.
  - reflexivity.
  - intros b b' Hb. exfalso. vm_compute in Hb. multiset_solver.
  - discriminate.
  - rewrite Hr. f_equal. by apply Hiff.
Defined.
End Examples.
