(* ===== verification/ValueHash.v ===== *)
(** * Hashing values (crates/sats/src/algebraic_value_hash.rs)

    A value is hashed either as a value or, without decoding it, from its
    BSATN.  The theorem shows that both feed the hasher the same.  A hasher is
    any type with the operations of the [Hasher] trait; what the crates of the
    256-bit integers and of totally ordered floats feed to it is part of the
    interface. *)

From Stdlib Require Import ZArith Lia.
From S2P Require Import Prelude Buffer Sats Bsatn Mem.
Local Open Scope Z_scope.
Local Open Scope result_scope.

(** [core::hash::Hasher]: bytes, lengths and integers are written separately.
    [hash_int] at 256 bits and [hash_float] are [Hash] of other crates' types. *)
Class Hasher (H : Type) := {
  hwrite : list byte → H → H;
  hwrite_usize : Z → H → H;
  hash_int : IntTy → Z → H → H;
  hash_float : FloatTy → Z → H → H;
  hfinish : H → Z;
}.

Section hashing.
Context {H : Type} {HasherI : Hasher H}.

(** [Hash for str]: the bytes and a terminator. *)
Definition hash_str (s : list byte) (h : H) : H := hash_int U8 255 (hwrite s h).

(** [Hash for bool]. *)
Definition hash_bool (b : bool) (h : H) : H := hash_int U8 (if b then 1 else 0) h.

Definition hash_len_and_bytes (n : Z) (bytes : list byte) (h : H) : H := hwrite bytes (hwrite_usize n h).

(** [hash_bytes_of] and [unchecked_hash_bytes_of] for integers of a type; the
    bytes are those of the slice in memory. *)
Definition hash_bytes_of (k : IntTy) (slice : list Z) (h : H) : H :=
  hash_len_and_bytes (len slice) (concat (map (le_bytes (int_size k)) slice)) h.

Section values.
Context {E : Type}.

Definition hash_each {A} (f : A → H → result E H) : list A → H → result E H :=
  fix go l h :=
    match l with
    | [] => Ok h
    | x :: l => let* h := f x h in go l h
    end.

(** [Hash for [T]]. *)
Definition hash_slice {A} (f : A → H → result E H) (l : list A) (h : H) : result E H :=
  hash_each f l (hwrite_usize (len l) h).

(** [Hash for AlgebraicValue], [SumValue], [ProductValue] and [ArrayValue]. *)
Fixpoint av_hash (v : AlgebraicValue) (h : H) : result E H :=
  match v with
  | VSum x => sum_hash x h
  | VProduct x => product_hash x h
  | VArray x => array_hash x h
  | VBool x => Ok (hash_bool x h)
  | VInt k x => Ok (hash_int k x h)
  | VFloat k x => Ok (hash_float k x h)
  | VString s => Ok (hash_str s h)
  | VMin | VMax => Panic
  end
with sum_hash (s : SumValue) (h : H) : result E H :=
  match s with MkSumValue tag v => av_hash v (hash_int U8 tag h) end
with product_hash (p : ProductValue) (h : H) : result E H :=
  match p with MkProductValue elements => hash_each av_hash elements h end
with array_hash (a : ArrayValue) (h : H) : result E H :=
  match a with
  | ASum es => hash_slice sum_hash es h
  | AProduct es => hash_slice product_hash es h
  | ABool es => hash_slice (λ b h, Ok (hash_bool b h)) es h
  | AInt k es => Ok (hash_bytes_of k es h)
  | AFloat k es => hash_slice (λ z h, Ok (hash_float k z h)) es h
  | AString es => hash_slice (λ s h, Ok (hash_str s h)) es h
  | AArray es => hash_slice array_hash es h
  end.
End values.

(** ** From BSATN *)

Section bsatn.
Context {R : Type} {ReadI : BufReader R}.
Local Abbreviation HR := (result DecodeError (H * R)).

Definition hash_bsatn_de {A} (de : R → result DecodeError (A * R)) (hash : A → H → H) (state : H) (r : R) : HR :=
  let* '(x, r) := de r in Ok (hash x state, r).

Definition hash_times (elem_hash : H → R → HR) : nat → H → R → HR :=
  fix go n state r :=
    match n with
    | O => Ok (state, r)
    | S n => let* '(state, r) := elem_hash state r in go n state r
    end.

Definition hash_bsatn_seq (elem_hash : H → R → HR) (state : H) (r : R) : HR :=
  let* '(n, r) := deserialize_len r in
  hash_times elem_hash (Z.to_nat n) (hwrite_usize n state) r.

Definition hash_bsatn_int_seq (width : Z) (state : H) (r : R) : HR :=
  let* '(n, r) := deserialize_len r in
  let* '(bytes, r) := get_slice r (n * width) in
  Ok (hash_len_and_bytes n bytes state, r).

(** [hash_bsatn], with [hash_bsatn_sum], [hash_bsatn_prod] and
    [hash_bsatn_array].  The cases of [hash_bsatn_array] but for integers
    hash each element as [hash_bsatn] does at the element type. *)
Fixpoint hash_bsatn (ty : AlgebraicType) (state : H) (r : R) {struct ty} : HR :=
  match ty with
  | TRef _ => Panic
  | TSum variants =>
      let* '(tag, r) := get_u8 r in
      let state := hash_int U8 tag state in
      (fix go variants n : HR :=
         match variants, n with
         | [], _ => Panic
         | v :: _, O => hash_bsatn (var_type v) state r
         | _ :: variants, S n => go variants n
         end) variants (Z.to_nat tag)
  | TProduct elements =>
      (fix go elements state r : HR :=
         match elements with
         | [] => Ok (state, r)
         | f :: elements => let* '(state, r) := hash_bsatn (el_type f) state r in go elements state r
         end) elements state r
  | TArray elem_ty =>
      match elem_ty with
      | TRef _ => Panic
      | TInt k => hash_bsatn_int_seq (Z.of_nat (int_size k)) state r
      | _ => hash_bsatn_seq (hash_bsatn elem_ty) state r
      end
  | TBool => hash_bsatn_de deserialize_bool hash_bool state r
  | TInt k => hash_bsatn_de (deserialize_int k) (hash_int k) state r
  | TFloat k => hash_bsatn_de (deserialize_float k) (hash_float k) state r
  | TString => hash_bsatn_de deserialize_str hash_str state r
  end.
End bsatn.

(** ** Both agree *)

(** Hashing [x] as a value, and from its encoding by [g] at the front of the
    input. *)
Definition hashes_as {A} (f : A → H → result DecodeError H)
    (F : H → list byte → result DecodeError (H * list byte)) (g : A → option (list byte)) (x : A) : Prop :=
  ∃ bs, g x = Some bs ∧ ∀ h, ∃ h', f x h = Ok h' ∧ ∀ rest, F h (bs ++ rest) = Ok (h', rest).

Lemma hashes_leaf {A} (de : list byte → result DecodeError (A * list byte)) hash g x bs :
  g x = Some bs → reads de x bs → hashes_as (λ x h, Ok (hash x h)) (hash_bsatn_de de hash) g x.
Proof.
  intros Hg Hr. exists bs. split; [done|]. intros h. eexists. split; [done|]. intros rest.
  unfold hash_bsatn_de. by rewrite Hr.
Qed.

Lemma hashes_each {A} f F g (l : list A) :
  Forall (hashes_as f F g) l →
  ∃ bs, bsatn_list g l = Some bs ∧
    ∀ h, ∃ h', hash_each f l h = Ok h' ∧ ∀ rest, hash_times F (length l) h (bs ++ rest) = Ok (h', rest).
Proof.
  induction 1 as [|x l (b1 & Hb1 & H1) _ (b2 & Hb2 & H2)].
  - exists []. split; [done|]. intros h. by exists h.
  - exists (b1 ++ b2). simpl. rewrite Hb1. cbn [mbind option_bind]. setoid_rewrite Hb2. split; [done|]. intros h.
    destruct (H1 h) as (h1 & E1 & R1). destruct (H2 h1) as (h2 & E2 & R2). exists h2. rewrite E1. split; [done|].
    intros rest. rewrite <-app_assoc, R1. apply R2.
Qed.

Lemma hashes_slice {A} f F g (l : list A) :
  fits_u32 l → Forall (hashes_as f F g) l → hashes_as (hash_slice f) (hash_bsatn_seq F) (bsatn_array g) l.
Proof.
  intros Hl (bs & Hbs & Hh)%hashes_each. exists (le_bytes 4 (Z.of_nat (length l)) ++ bs). split.
  - unfold bsatn_array, len_prefixed. rewrite Hbs. simpl. by rewrite (proj2 (Z.leb_le _ _)).
  - intros h. destruct (Hh (hwrite_usize (len l) h)) as (h' & E' & R'). exists h'. split; [done|]. intros rest.
    unfold hash_bsatn_seq. rewrite <-app_assoc, reads_len by done. simpl. rewrite Nat2Z.id. apply R'.
Qed.

Lemma resolves_nil t t' : resolves [] t t' → t = t'.
Proof. by destruct 1. Qed.

Lemma hashes_sum vs tag v :
  (∀ ty, contains_refs ty = false → typed [] ty v → hashes_as av_hash (hash_bsatn ty) bsatn v) →
  contains_refs (TSum vs) = false → typed_sum [] vs (MkSumValue tag v) →
  hashes_as sum_hash (hash_bsatn (TSum vs)) bsatn_sum (MkSumValue tag v).
Proof.
  intros IH Hr (Htag & var & Hvar & Hv). simpl in Hr. apply existsb_false_Forall in Hr. rewrite Forall_forall in Hr.
  destruct (IH _ (Hr _ (list_elem_of_lookup_2 _ _ _ Hvar)) Hv) as (bs & Hbs & Hh).
  exists (byte_of_Z tag :: bs). simpl. rewrite Hbs. split; [done|]. intros h.
  destruct (Hh (hash_int U8 tag h)) as (h' & E' & R'). exists h'. split; [done|]. intros rest.
  change (byte_of_Z tag :: bs ++ rest) with ([byte_of_Z tag] ++ bs ++ rest). unfold get_u8.
  rewrite <-le_bytes_1, reads_uint by done. cbn [rbind]. clear -Hvar R'. revert Hvar. generalize (Z.to_nat tag).
  induction vs as [|v' vs IHv]; intros [|n]; simpl; try done; [by intros [= ->]|apply IHv].
Qed.

Lemma hashes_product es l :
  Forall (λ v, ∀ ty, contains_refs ty = false → typed [] ty v → hashes_as av_hash (hash_bsatn ty) bsatn v) l →
  contains_refs (TProduct es) = false → typed_product [] es (MkProductValue l) →
  hashes_as product_hash (hash_bsatn (TProduct es)) bsatn_product (MkProductValue l).
Proof.
  intros IH Hr Ht. simpl in Hr, Ht. apply existsb_false_Forall in Hr.
  revert es Hr Ht. induction IH as [|v l Hv _ IH]; intros [|e es] Hr Ht; try done.
  - exists []. split; [done|]. intros h. by exists h.
  - apply Forall_cons in Hr as [Hre Hr]. destruct Ht as [Hte Ht].
    destruct (Hv _ Hre Hte) as (b1 & Hb1 & H1). destruct (IH es Hr Ht) as (b2 & Hb2 & H2). simpl in Hb2.
    exists (b1 ++ b2). simpl. rewrite Hb1. cbn [mbind option_bind]. setoid_rewrite Hb2. split; [done|]. intros h.
    destruct (H1 h) as (h1 & E1 & R1). destruct (H2 h1) as (h2 & E2 & R2). exists h2. rewrite E1. split; [done|].
    intros rest. rewrite <-app_assoc, R1. apply R2.
Qed.

Lemma bsatn_ints k l : bsatn_list (bsatn_int k) l = Some (concat (map (le_bytes (int_size k)) l)).
Proof. induction l as [|z l IH]; [done|]. simpl. setoid_rewrite IH. done. Qed.

Lemma hashes_ints k l :
  fits_u32 l → hashes_as array_hash (hash_bsatn (TArray (TInt k))) bsatn_array_value (AInt k l).
Proof.
  intros Hl. exists (le_bytes 4 (Z.of_nat (length l)) ++ concat (map (le_bytes (int_size k)) l)). split.
  - simpl. unfold bsatn_array, len_prefixed. rewrite bsatn_ints. simpl. by rewrite (proj2 (Z.leb_le _ _)).
  - intros h. eexists. split; [done|]. intros rest. cbn [hash_bsatn]. unfold hash_bsatn_int_seq.
    rewrite <-app_assoc, reads_len by done. cbn [rbind]. rewrite get_slice_app; [done|].
    rewrite length_concat, map_map. clear. induction l as [|z l IH]; [done|]. simpl. rewrite length_le_bytes. lia.
Qed.

(** An array whose elements are hashed one by one. *)
Lemma hashes_array {A} (c : list A → ArrayValue) (P : A → Prop) f F g t l :
  (∀ h, array_hash (E:=DecodeError) (c l) h = hash_slice f l h) → (∀ h r, hash_bsatn (TArray t) h r = hash_bsatn_seq F h r) →
  bsatn_array_value (c l) = bsatn_array g l → fits_u32 l → all_list P l → (∀ x, x ∈ l → P x → hashes_as f F g x) →
  hashes_as array_hash (hash_bsatn (TArray t)) bsatn_array_value (c l).
Proof.
  intros Hc HF Hg Hl HP Hx. apply all_list_Forall in HP. rewrite Forall_forall in HP.
  destruct (hashes_slice f F g l Hl) as (bs & Hbs & Hh); [apply Forall_forall; auto|].
  exists bs. split; [by rewrite Hg|]. intros h. destruct (Hh h) as (h' & E' & R'). exists h'.
  split; [by rewrite Hc|]. intros rest. by rewrite HF.
Qed.

(** The same hasher receives the same from a value and from its BSATN. *)
Lemma hashes_value v :
  ∀ ty, contains_refs ty = false → typed [] ty v → hashes_as av_hash (hash_bsatn ty) bsatn v.
Proof.
  apply (AlgebraicValue_mut
    (λ v, ∀ ty, contains_refs ty = false → typed [] ty v → hashes_as av_hash (hash_bsatn ty) bsatn v)
    (λ s, ∀ vs, contains_refs (TSum vs) = false → typed_sum [] vs s →
       hashes_as sum_hash (hash_bsatn (TSum vs)) bsatn_sum s)
    (λ p, ∀ es, contains_refs (TProduct es) = false → typed_product [] es p →
       hashes_as product_hash (hash_bsatn (TProduct es)) bsatn_product p)
    (λ a, ∀ t, contains_refs t = false → typed_array [] t a →
       hashes_as array_hash (hash_bsatn (TArray t)) bsatn_array_value a));
    try (by intros; eapply hashes_sum; eauto); try (by intros; eapply hashes_product; eauto); intros;
    first [ match goal with H : typed _ _ _ |- _ => apply typed_unfold in H as (ty' & <-%resolves_nil & Hv) end;
            destruct ty; try done; simpl in Hv
          | match goal with H : typed_array _ _ _ |- _ => apply typed_array_unfold in H as (ty' & <-%resolves_nil & Hv) end;
            destruct t; try done; simpl in Hv ].
  - by eauto.
  - by eauto.
  - by eauto.
  - by apply (hashes_leaf deserialize_bool hash_bool bsatn_bool _ _ eq_refl), reads_bool.
  - destruct Hv as [<- Hv]. apply (hashes_leaf (deserialize_int k) (hash_int k) (bsatn_int k) _ _ eq_refl). by apply reads_int.
  - destruct Hv as [<- Hv]. apply (hashes_leaf (deserialize_float k) (hash_float k) (bsatn_float k) _ _ eq_refl). by apply reads_float.
  - apply (hashes_leaf deserialize_str hash_str bsatn_bytes _ _ (bsatn_bytes_fits _ (proj2 Hv))). by apply reads_str.
  - destruct Hv as [Hf Hl]. apply (hashes_array ASum (typed_sum [] variants) sum_hash (hash_bsatn (TSum variants)) bsatn_sum); try done. rewrite Forall_forall in H0. auto.
  - destruct Hv as [Hf Hl]. apply (hashes_array AProduct (typed_product [] elements) product_hash (hash_bsatn (TProduct elements)) bsatn_product); try done. rewrite Forall_forall in H0. auto.
  - eapply (hashes_array ABool (λ _, True) _ _ bsatn_bool); try done; [by apply all_list_Forall, Forall_true|].
    intros b _ _. by apply (hashes_leaf deserialize_bool hash_bool bsatn_bool _ _ eq_refl), reads_bool.
  - destruct Hv as (<- & Hf & Hl). by apply hashes_ints.
  - destruct Hv as (<- & Hf & Hl). eapply (hashes_array (AFloat k) _ _ _ (bsatn_float k)); try done.
    intros z _ Hz. apply (hashes_leaf (deserialize_float k) (hash_float k) (bsatn_float k) _ _ eq_refl). by apply reads_float.
  - destruct Hv as (Hf & Hl). eapply (hashes_array AString _ _ _ bsatn_bytes); try done.
    intros x _ Hx. apply (hashes_leaf deserialize_str hash_str bsatn_bytes _ _ (bsatn_bytes_fits _ (proj2 Hx))). by apply reads_str.
  - destruct Hv as [Hf Hl]. apply (hashes_array AArray (typed_array [] t) array_hash (hash_bsatn (TArray t)) bsatn_array_value); try done. rewrite Forall_forall in H0. auto.
Qed.

(** Hashing a value without decoding it.  For every type without
    references, every value of it and every hasher, hashing the bytes that
    [to_vec] gives feeds the hasher exactly what hashing the value does, and
    reads exactly these bytes. *)
Theorem bsatn_hash_agrees ty v h :
  contains_refs ty = false → typed [] ty v →
  ∃ bs h', to_vec v = Ok bs ∧ av_hash (E:=DecodeError) v h = Ok h' ∧ ∀ rest, hash_bsatn ty h (bs ++ rest) = Ok (h', rest).
Proof.
  intros Hr Ht. destruct (hashes_value v ty Hr Ht) as (bs & Hbs & Hh). destruct (Hh h) as (h' & E' & R').
  exists bs, h'. split_and!; [by apply to_vec_bsatn|done|done].
Qed.
End hashing.

Module Examples.
(** A hasher that records what it receives. *)
#[local] Instance transcript : Hasher (list byte) := {
  hwrite bytes h := h ++ bytes;
  hwrite_usize n h := h ++ le_bytes 8 n;
  hash_int k z h := h ++ le_bytes (int_size k) z;
  hash_float k z h := h ++ le_bytes (float_size k) z;
  hfinish h := wrap_u 64 (le_val h);
}.

Definition strings : AlgebraicValue := VArray (AString [[x61]; [x62; x63]]).

Lemma strings_typed : typed [] (TArray TString) strings.
Proof.
  exists (TArray TString). split; [by constructor|]. exists TString. split; [by constructor|]. split; [by vm_compute|].
  repeat split; by vm_compute.
Qed.

(** The strings [a] and [bc], as a value and from their BSATN. *)
Lemma bsatn_hash_agrees_witness :
  ∃ bs h, to_vec strings = Ok bs ∧ av_hash (E:=DecodeError) strings [] = Ok h ∧
    hash_bsatn (TArray TString) [] bs = Ok (h, []) ∧ length h = 13%nat.
Proof.
  destruct (bsatn_hash_agrees (TArray TString) strings [] eq_refl strings_typed) as (bs & h & Hbs & Hh & Hr).
  exists bs, h. split; [exact Hbs|]. split; [exact Hh|]. specialize (Hr []). rewrite app_nil_r in Hr.
  split; [exact Hr|]. injection Hh as <-. reflexivity.
Defined.
End Examples.
