(* ===== verification/RowHash.v ===== *)
(** * Hashing rows in their pages (crates/table/src/row_hash.rs)

    The hash of a row is computed in the page, from the layout of its type.
    The theorem shows that it is the hash of the value of the row: it does not
    depend on where the row is, on its padding, or on whether its objects are
    in the page or in the blob store. *)

From Stdlib Require Import ZArith Lia.
From stdpp Require Import gmap gmultiset.
From S2P Require Import Prelude Buffer Sats Bsatn ValueHash Mem Indexes BitSet VarLen BlobStore Page PageInv PageRows PageRead PageThm Pages Layout RowTypeVisitor BflatnTo BflatnFrom BflatnWriter BflatnRepr BflatnWrite BflatnThm PagesThm.
Local Open Scope Z_scope.
Local Open Scope result_scope.

(** [RowHash::hasher_builder]: new hashers all start the same. *)
Class RowHasher (H : Type) := {
  row_hasher :: Hasher H;
  build_hasher : H;
}.

(** ** Hashing *)

Section hashing.
Context {B H : Type} {BsI : BlobStore B} {HasherI : Hasher H} {E : Type}.
Context (bytes : list byte) (page : Page) (blob_store : B).

(** [run_vlo_bytes]: the bytes that are passed to [run]. *)
Definition run_vlo_bytes (curr_offset : Z) : result E (list byte) :=
  let* vlr := read_vlr bytes curr_offset in
  if is_large_blob vlr then vlr_blob_bytes page blob_store vlr
  else
    let* var_iter := iter_vlo_data page (first_granule vlr) in
    concat_byte_chunks (length_in_bytes vlr) var_iter.

Definition hash_prim (p : PrimitiveType) (curr_offset : Z) (hasher : H) : result E H :=
  let* ' (b, _) := read_from_bytes bytes curr_offset (prim_size p) in
  Ok (match p with
      | PBool => hash_int U8 (le_val b) hasher
      | PInt k => hash_int k (int_from_le_bytes k b) hasher
      | PFloat k => hash_float k (le_val b) hasher
      end).

(** [hash_value] and [hash_product] at an offset. *)
Fixpoint hash_value (ty : AlgebraicTypeLayout) (curr_offset : Z) (hasher : H) : result E H :=
  if negb (curr_offset =? align_to curr_offset (lt_align ty)) then Panic
  else
    match ty with
    | LSum _ variants payload_offset =>
        let* tag := read_tag bytes curr_offset in
        let* _ := vec_get variants tag in
        let hasher := hash_int U8 tag hasher in
        (fix go variants n : result E H :=
           match variants, n with
           | [], _ => Panic
           | v :: _, O => hash_value (vl_ty v) (curr_offset + offset_of_variant_data payload_offset) hasher
           | _ :: variants, S n => go variants n
           end) variants (Z.to_nat tag)
    | LProduct _ elements =>
        (fix go elements hasher : result E H :=
           match elements with
           | [] => Ok hasher
           | elem_ty :: elements =>
               let* hasher := hash_value (pel_ty elem_ty) (curr_offset + pel_offset elem_ty) hasher in
               go elements hasher
           end) elements hasher
    | LPrimitive p => hash_prim p curr_offset hasher
    | LVarLen VlString => let* string := run_vlo_bytes curr_offset in Ok (hash_str string hasher)
    | LVarLen (VlArray ty) =>
        let* bsatn := run_vlo_bytes curr_offset in
        match hash_bsatn ty hasher bsatn with
        | Ok (hasher, _) => Ok hasher
        | Err _ | Panic => Panic
        | OutOfFuel => OutOfFuel
        end
    end.

Definition hash_product : list ProductTypeElementLayout → Z → H → result E H :=
  λ elements base_offset,
  (fix go elements hasher : result E H :=
     match elements with
     | [] => Ok hasher
     | elem_ty :: elements =>
         let* hasher := hash_value (pel_ty elem_ty) (base_offset + pel_offset elem_ty) hasher in
         go elements hasher
     end) elements.
End hashing.

Definition hash_row_in_page {B H} `{!BlobStore B} `{!Hasher H} {E} (hasher : H) (page : Page) (blob_store : B)
    (fixed_offset : Z) (ty : RowTypeLayout) : result E H :=
  let* fixed_bytes := page_get_row_data page fixed_offset (row_size ty) in
  hash_product fixed_bytes page blob_store (row_elements ty) 0 hasher.

(** [RowRef::row_hash] of crates/table/src/table.rs, with [Hash for RowRef]. *)
Definition row_hash {B} `{!BlobStore B} (H : Type) `{!RowHasher H} {E} (ps : Pages) (blob_store : B) (ty : RowTypeLayout)
    (ptr : Z) : result E Z :=
  let* ' (page, offset) := page_and_offset ps ptr in
  let* hasher := hash_row_in_page (build_hasher : H) page blob_store offset ty in
  Ok (hfinish hasher).

(** ** The hash of the value *)

Section equal.
Context {B H : Type} {BsI : BlobStore B} {HasherI : Hasher H} {E : Type}.
Context (row : list byte) (p : Page) (bs : B).

Lemma run_vlo_bytes_ok base ob :
  0 ≤ base → base + 4 ≤ len row → reads_obj (E:=E) row p bs base ob →
  run_vlo_bytes (E:=E) row p bs base = Ok ob.
Proof.
  intros H0 Hl Hob. unfold run_vlo_bytes, reads_obj in *. rewrite read_vlr_ok by done. cbn [rbind].
  destruct (is_large_blob _); [done|]. destruct Hob as [-> ->]. cbn [rbind]. apply concat_byte_chunks_ok.
Qed.

Lemma hash_prim_ok pt v b base h :
  prim_value pt v b → 0 ≤ base → base + prim_size pt ≤ len row → peek row base (prim_size pt) = b →
  ∃ h', av_hash (E:=DecodeError) v h = Ok h' ∧ hash_prim (E:=E) row pt base h = Ok h'.
Proof.
  intros Hv H0 Hl Hb. unfold hash_prim, read_from_bytes.
  pose proof (is_align_bounds _ (prim_align pt)). rewrite slice_Ok by lia. cbn [rbind]. rewrite Hb.
  destruct Hv as [b'|k z Hz|k z Hz].
  - rewrite le_val_1, byte_to_of_Z. eexists. split; [done|]. by destruct b'.
  - rewrite int_from_le_bytes_ok by done. by eexists.
  - rewrite le_val_le_bytes, Z.mod_small by exact Hz. by eexists.
Qed.

Lemma hash_vl_ok t v ob base h :
  vl_value t v ob → placed row base (LVarLen t) → reads_obj (E:=E) row p bs base ob →
  ∃ h', av_hash (E:=DecodeError) v h = Ok h' ∧ hash_value (E:=E) row p bs (LVarLen t) base h = Ok h'.
Proof.
  intros Hv (H0 & Hal & Hl) Hob. change (lt_size (LVarLen t)) with 4 in Hl. cbn [hash_value]. rewrite Hal. cbn [negb].
  destruct Hv as [s Hs|t a b Ht Hr Hb]; rewrite (run_vlo_bytes_ok _ _ H0 Hl Hob); cbn [rbind]; [by eexists|].
  destruct (hashes_value (VArray a) (TArray t) Hr Ht) as (b' & Hb' & Hh). rewrite Hb in Hb'. injection Hb' as <-.
  destruct (Hh h) as (h' & E' & R'). exists h'. split; [done|]. specialize (R' []). rewrite app_nil_r in R'. by rewrite R'.
Qed.

Lemma hash_values_ok :
  (∀ base ty v offs objs, repr row base ty v offs objs → good ty → 0 ≤ base → (lt_align ty | base) →
    base + lt_size ty ≤ len row → Forall2 (reads_obj (E:=E) row p bs) offs objs →
    ∀ h, ∃ h', av_hash (E:=DecodeError) v h = Ok h' ∧ hash_value (E:=E) row p bs ty base h = Ok h') ∧
  (∀ base els vals offs objs, reprs row base els vals offs objs →
    ∀ M cur end_, Forall (λ e, good (pel_ty e)) els → Forall (λ e, lt_align (pel_ty e) ≤ M) els →
    is_align M → (M | base) → 0 ≤ base → 0 ≤ cur → chained cur els end_ → base + end_ ≤ len row →
    Forall2 (reads_obj (E:=E) row p bs) offs objs →
    ∀ h, ∃ h', hash_each (E:=DecodeError) av_hash vals h = Ok h' ∧ hash_product (E:=E) row p bs els base h = Ok h').
Proof.
  pose proof (repr_placed_ind row
    (λ base ty v offs objs, Forall2 (reads_obj (E:=E) row p bs) offs objs →
      ∀ h, ∃ h', av_hash (E:=DecodeError) v h = Ok h' ∧ hash_value (E:=E) row p bs ty base h = Ok h')
    (λ base els vals offs objs, Forall2 (reads_obj (E:=E) row p bs) offs objs →
      ∀ h, ∃ h', hash_each (E:=DecodeError) av_hash vals h = Ok h' ∧ hash_product (E:=E) row p bs els base h = Ok h')) as Hi.
  destruct Hi as [H1 H2]; [..|split; [intros; by eapply H1|intros; by eapply H2]].
  - intros base pt v b Hv Hb (H0 & Hal & Hl) _ h. cbn [hash_value]. rewrite Hal. by eapply hash_prim_ok.
  - intros base t v ob Hv Hpl [Hob _]%Forall2_cons h. by apply (hash_vl_ok t v ob).
  - intros base l els vals offs objs IH (H0 & Hal & Hl) Hobs h. cbn [hash_value]. rewrite Hal. by apply IH.
  - intros base l vars po tag var v offs objs Htag Hrow Hvar IH (H0 & Hal & Hl) Hobs h. cbn [hash_value]. rewrite Hal.
    cbn [negb]. unfold read_tag, offset_of_tag, offset_of_variant_data.
    rewrite Z.add_0_r, (vec_get_Ok _ _ (byte_of_Z tag)) by done. cbn [rbind].
    rewrite byte_to_of_Z, Z.mod_small by exact Htag. rewrite (vec_get_Ok _ _ var) by (done || apply Htag). cbn [rbind].
    destruct (IH Hobs (hash_int U8 tag h)) as (h' & E' & R'). exists h'. split; [done|].
    clear -Hvar R'. revert Hvar. generalize (Z.to_nat tag).
    induction vars as [|v' vars IHv]; intros [|n]; simpl; try done; [by intros [= ->]|apply IHv].
  - intros. by eexists.
  - intros base e els v vals offs1 objs1 offs2 objs2 IH1 IH2 Hlen Hobs h.
    apply Forall2_app_inv in Hobs as [Hob1 Hob2]; [|done]. destruct (IH1 Hob1 h) as (h1 & E1 & R1).
    destruct (IH2 Hob2 h1) as (h2 & E2 & R2). exists h2. simpl. rewrite E1. split; [done|].
    unfold hash_product in *. by rewrite R1.
Qed.
End equal.

(** ** Rows of a table *)

Section rows.
Context {Q B H : Type} {QueueI : PageQueue Q} {QLawI : PageQueueLaws Q}.
Context {BsI : BlobStore B} {HashI : Blake3} {LawI : BlobStoreLaws B} {RowHasherI : RowHasher H}.
Context (es : list ProductTypeElement) (rt : RowTypeLayout).
Context (Hrt : row_type_layout (E:=unit) es = Ok rt) (Hnr : contains_refs (TProduct es) = false).
Context (Hsize : ty_size (TProduct es) ≤ PAGE_DATA_SIZE) (Hcode : len (visitor_code rt) ≤ u16_MAX).
Context (m0 : gmultiset (list byte)).

(** The hash of a row of the type. *)
Definition value_hash (val : ProductValue) : Z :=
  match product_hash (E:=DecodeError) val (build_hasher : H) with Ok h => hfinish h | _ => 0 end.

Lemma hash_row_ok {E} p bs rows m o gr val (h : H) :
  page_inv (row_size rt) (row_type_visitor rt) p rows → rows !! o = Some gr → row_repr rt gr val →
  holds bs (m ⊎ large (row_objects rows)) →
  ∃ h', product_hash (E:=DecodeError) val h = Ok h' ∧ hash_row_in_page (E:=E) h p bs o rt = Ok h'.
Proof using Hrt Hnr Hsize.
  intros Hp Ho Hr Hm. destruct (row_good es rt Hrt Hnr Hsize) as [[G1 G2 G3 (end_ & Hch & Hend) G5 G6 HM HaM] _].
  unfold hash_row_in_page. destruct (row_reads (E:=E) es rt Hrt Hnr Hsize _ _ _ _ _ _ Hp Ho Hm) as (-> & Hl & Hobs).
  cbn [rbind]. destruct val as [vals]. cbn in Hr.
  apply (proj2 (hash_values_ok (E:=E) (gr_fixed gr) p bs) _ _ _ _ _ Hr (ly_align (row_layout rt)) 0 end_);
    (done || lia || apply Z.divide_0_r).
Qed.

Lemma pages_hash {E} ps bs A rows ptr val :
  pages_inv rt m0 ps bs A rows → A !! ptr_key ptr = Some val →
  row_hash H (E:=E) ps bs rt ptr = Ok (value_hash val).
Proof using Hrt Hnr Hsize.
  intros Hinv HA. destruct (pages_row _ _ _ _ _ _ _ _ Hinv HA) as (p & r & gr & Hp & Hr & Hgr & Hpi & Hrep & Hobjs).
  cbn [ptr_key fst snd] in *. unfold row_hash, page_and_offset, try_page_and_offset. rewrite Hp. cbn [rbind].
  destruct (pages_page_store _ _ _ _ _ _ _ _ Hinv Hr) as [m Hm].
  destruct (hash_row_ok (E:=E) p bs r m _ gr val build_hasher Hpi Hgr Hrep Hm) as (h' & Hh & ->). cbn [rbind].
  unfold value_hash. by rewrite Hh.
Qed.

(** C29. The hash of a row is the hash of its value.  However the row came to
    be where it is, hashing it in its page gives what hashing the value gives;
    rows with the same value have the same hash. *)
Theorem row_hash_correct sq ps (pool : PagePool Q) bs A ptr val :
  in_u 8 sq → table_pages es rt m0 sq (ps, pool, bs) A → A !! ptr_key ptr = Some val →
  ∃ h, product_hash (E:=DecodeError) val (build_hasher : H) = Ok h ∧
    row_hash H (E:=PagesError) ps bs rt ptr = Ok (hfinish h).
Proof using Hrt Hnr Hsize Hcode.
  intros Hsq Hr HA. destruct (table_pages_inv es rt Hrt Hnr Hsize Hcode m0 sq Hsq _ _ Hr) as ([rows Hinv] & _ & _).
  pose proof (pages_hash (E:=PagesError) _ _ _ _ _ _ Hinv HA) as Hh.
  destruct (pages_row _ _ _ _ _ _ _ _ Hinv HA) as (p & r & gr & Hp & Hr' & Hgr & Hpi & Hrep & Hobjs).
  destruct (pages_page_store _ _ _ _ _ _ _ _ Hinv Hr') as [m Hm].
  destruct (hash_row_ok (E:=PagesError) p bs r m _ gr val build_hasher Hpi Hgr Hrep Hm) as (h & Hv & _).
  exists h. split; [done|]. rewrite Hh. unfold value_hash. by rewrite Hv.
Qed.
End rows.

(** ** Examples *)

Module Examples.
#[local] Instance last32_hash : Blake3 := BlobStore.Examples.last32_hash.
#[local] Existing Instances PagesThm.Examples.list_queue PagesThm.Examples.list_queue_laws.
#[local] Instance transcript_rows : RowHasher (list byte) := {
  row_hasher := ValueHash.Examples.transcript;
  build_hasher := [];
}.

(** The row of the example table is hashed where it was written. *)
Lemma row_hash_correct_witness :
  ∃ ptr ps' pool' bs',
    write_row_to_pages (row_type_visitor PagesThm.Examples.rt) PagesThm.Examples.rt PagesThm.Examples.val
      COMMITTED_STATE PagesThm.Examples.start = (Ok (ptr, 0), (ps', pool', bs')) ∧
    ∃ h, product_hash (E:=DecodeError) PagesThm.Examples.val (build_hasher : list byte) = Ok h ∧
      row_hash (list byte) (E:=PagesError) ps' bs' PagesThm.Examples.rt ptr = Ok (hfinish h).
Proof.
  destruct PagesThm.Examples.inserted as (ptr & ps' & pool' & bs' & Hw' & Hsq & Hr).
  exists ptr, ps', pool', bs'. split; [exact Hw'|].
  apply (row_hash_correct (H:=list byte) PagesThm.Examples.es PagesThm.Examples.rt BflatnThm.Examples.rt_row eq_refl PagesThm.Examples.es_size
    BflatnThm.Examples.rt_code ∅ COMMITTED_STATE ps' pool' bs' _ ptr PagesThm.Examples.val PagesThm.Examples.committed_in_u Hr), lookup_singleton_eq.
Defined.
End Examples.
