(* ===== verification/StaticValidator.v ===== *)
(** * Validating rows in BSATN (crates/table/src/static_bsatn_validator.rs)

    Before a row in BSATN is copied to a page with a static layout, a program
    made for the row type checks it: its length, its flags and its tags.  The
    program is compiled from the layout by way of a rose tree.  The theorem
    shows that it accepts exactly the encodings of the values of the type. *)

From Stdlib Require Import ZArith Lia.
From stdpp Require Import list.
From S2P Require Import Prelude Buffer Sats Bsatn Mem Indexes BitSet Page Layout RowTypeVisitor BflatnRepr BflatnWrite BflatnThm StaticLayout.
Local Open Scope Z_scope.
Local Open Scope result_scope.

(** ** Trees *)

Inductive Tree : Type :=
| TrEmpty
| TrSequence (sub_trees : list Tree)
| TrCheckBool (offset : Z)
| TrCheckTag (tag_offset num_variants : Z)
| TrSum (tag_offset : Z) (tag_data_processors : list Tree).

(** The derived equality. *)
Fixpoint check_tree_eqb (t1 t2 : Tree) : bool :=
  match t1, t2 with
  | TrEmpty, TrEmpty => true
  | TrSequence l1, TrSequence l2 => list_eqb check_tree_eqb l1 l2
  | TrCheckBool o1, TrCheckBool o2 => o1 =? o2
  | TrCheckTag o1 n1, TrCheckTag o2 n2 => (o1 =? o2) && (n1 =? n2)
  | TrSum o1 l1, TrSum o2 l2 => (o1 =? o2) && list_eqb check_tree_eqb l1 l2
  | _, _ => false
  end.

Definition all_equal_trees (l : list Tree) : bool :=
  match l with [] => true | x :: l => forallb (check_tree_eqb x) l end.

Definition sub_trees_to_tree (sub_trees : list Tree) : Tree :=
  match sub_trees with
  | [] => TrEmpty
  | [t] => t
  | _ => TrSequence sub_trees
  end.

(** The offset before a variant is the same for all of them; the offset after
    the sum is that after the last variant. *)
Definition variant_trees (f : AlgebraicTypeLayout → Z → list Tree → result unit (Z * list Tree)) (current_offset : Z) :
    list SumTypeVariantLayout → Z → result unit (Z * list Tree) :=
  fix go vs child_offset :=
    match vs with
    | [] => Ok (child_offset, [])
    | variant :: vs =>
        let* ' (child_offset, sub_trees) := f (vl_ty variant) current_offset [] in
        let* ' (child_offset, trees) := go vs child_offset in
        Ok (child_offset, sub_trees_to_tree sub_trees :: trees)
    end.

(** The elements of [extend_trees_for_product_type]. *)
Definition extend_trees_for_elements (f : AlgebraicTypeLayout → Z → list Tree → result unit (Z * list Tree)) :
    list ProductTypeElementLayout → Z → list Tree → result unit (Z * list Tree) :=
  fix go elements current_offset sub_trees :=
    match elements with
    | [] => Ok (current_offset, sub_trees)
    | elem :: elements =>
        let* ' (current_offset, sub_trees) := f (pel_ty elem) current_offset sub_trees in
        go elements current_offset sub_trees
    end.

(** [extend_trees_for_algebraic_type]; a var-len type is unreachable. *)
Fixpoint extend_trees_for_algebraic_type (ty : AlgebraicTypeLayout) (current_offset : Z) (sub_trees : list Tree) :
    result unit (Z * list Tree) :=
  match ty with
  | LPrimitive PBool => Ok (current_offset + 1, sub_trees ++ [TrCheckBool (wrap_u 16 current_offset)])
  | LPrimitive prim_ty => Ok (current_offset + prim_size prim_ty, sub_trees)
  | LProduct _ elements =>
      extend_trees_for_elements extend_trees_for_algebraic_type elements current_offset sub_trees
  | LSum _ vs _ =>
      let num_variants := wrap_u 8 (len vs) in
      let tag_offset := wrap_u 16 current_offset in
      let current_offset := current_offset + 1 in
      let* ' (child_offset, variants) :=
        variant_trees extend_trees_for_algebraic_type current_offset vs current_offset in
      if all_equal_trees variants then
        Ok (child_offset, sub_trees ++ TrCheckTag tag_offset num_variants ::
          match vec_pop variants with Some (tree, _) => [tree] | None => [] end)
      else Ok (child_offset, sub_trees ++ [TrSum tag_offset variants])
  | LVarLen _ => Panic
  end.

Definition row_type_to_tree (ty : RowTypeLayout) : result unit Tree :=
  let* ' (_, sub_trees) := extend_trees_for_elements extend_trees_for_algebraic_type (row_elements ty) 0 [] in
  Ok (sub_trees_to_tree sub_trees).

(** ** Programs *)

Record CheckTag := { tag_offset : Z; num_variants : Z }.

Inductive Insn :=
| CheckBool (offset : Z)
| ICheckTag (check : CheckTag)
| CheckReadTagRelBranch (check : CheckTag)
| Goto (target : Z).

Definition FIXUP : Insn := Goto u16_MAX.

(** The loop over the branches; [slot] is the place of the jump to the branch. *)
Fixpoint compile_branches (f : Tree → list Insn → list Insn) (branches : list Tree) (slot : nat)
    (into : list Insn) : list Insn * list nat :=
  match branches with
  | [] => (into, [])
  | branch :: branches =>
      let into := <[slot := Goto (wrap_u 16 (len into))]> into in
      let into := f branch into in
      let from_variant_goto := length into in
      let '(into, from_variant_gotos) := compile_branches f branches (S slot) (into ++ [FIXUP]) in
      (into, from_variant_goto :: from_variant_gotos)
  end.

Fixpoint compile_tree (tree : Tree) (into : list Insn) : list Insn :=
  match tree with
  | TrEmpty => into
  | TrCheckBool offset => into ++ [CheckBool offset]
  | TrSequence sub_trees => fold_left (λ into tree, compile_tree tree into) sub_trees into
  | TrCheckTag tag_offset num_variants =>
      into ++ [ICheckTag {| tag_offset := tag_offset; num_variants := num_variants |}]
  | TrSum tag_offset tag_data_processors =>
      let num_variants := length tag_data_processors in
      let into := into ++ [CheckReadTagRelBranch {| tag_offset := tag_offset; num_variants := wrap_u 8 (Z.of_nat num_variants) |}] in
      let to_branches := length into in
      let into := into ++ replicate num_variants FIXUP in
      let '(into, from_variant_gotos) := compile_branches compile_tree tag_data_processors to_branches into in
      let goto_addr := len into in
      fold_left (λ into idx, <[idx := Goto (wrap_u 16 goto_addr)]> into) from_variant_gotos into
  end.

(** [remove_trailing_gotos], from the last instruction on. *)
Fixpoint drop_gotos (rev_program : list Insn) : list Insn :=
  match rev_program with
  | Goto _ :: rest => drop_gotos rest
  | _ => rev_program
  end.
Definition remove_trailing_gotos (program : list Insn) : list Insn :=
  reverse (drop_gotos (reverse program)).

Definition tree_to_insns (tree : Tree) : list Insn := remove_trailing_gotos (compile_tree tree []).

Record StaticBsatnValidator := { validator_insns : list Insn }.

Definition static_bsatn_validator (ty : RowTypeLayout) : result unit StaticBsatnValidator :=
  let* tree := row_type_to_tree ty in
  Ok {| validator_insns := tree_to_insns tree |}.

(** ** The interpreter *)

(** A read outside of the row is undefined behaviour. *)
Definition check_tag (bytes : list byte) (check : CheckTag) : result DecodeError Z :=
  let* b := vec_get bytes (tag_offset check) in
  let tag := byte_to_Z b in
  if tag <? num_variants check then Ok tag else Err (InvalidTag tag None).

Definition check_bool (bytes : list byte) (offset : Z) : result DecodeError unit :=
  let* b := vec_get bytes offset in
  if 1 <? byte_to_Z b then Err (InvalidBool (byte_to_Z b)) else Ok tt.

(** One round of the loop: the next instruction. *)
Definition run_insn (bytes : list byte) (instr_ptr : Z) (i : Insn) : result DecodeError Z :=
  match i with
  | CheckBool offset =>
      let* ip := add_u 16 instr_ptr 1 in
      let* _ := check_bool bytes offset in
      Ok ip
  | Goto new_insn => Ok new_insn
  | ICheckTag check =>
      let* _ := check_tag bytes check in
      add_u 16 instr_ptr 1
  | CheckReadTagRelBranch check =>
      let* tag := check_tag bytes check in
      let* d := add_u 16 tag 1 in
      add_u 16 instr_ptr d
  end.

(** The loop has at most as many rounds as the program has instructions. *)
Fixpoint validate_loop (fuel : nat) (program : list Insn) (bytes : list byte) (instr_ptr : Z) : result DecodeError unit :=
  match fuel with
  | O => OutOfFuel
  | S fuel =>
      match program !! Z.to_nat instr_ptr with
      | None => Ok tt
      | Some i =>
          let* instr_ptr := run_insn bytes instr_ptr i in
          validate_loop fuel program bytes instr_ptr
      end
  end.

Definition validate_bsatn (program : StaticBsatnValidator) (static_layout : StaticLayout) (bytes : list byte) :
    result DecodeError unit :=
  let expected := bsatn_length static_layout in
  let given := len bytes in
  if negb (expected =? given) then Err (InvalidLen expected given)
  else validate_loop (S (length (validator_insns program))) (validator_insns program) bytes 0.

(** ** What a tree checks *)

Definition checks_of {A} (f : A → result DecodeError unit) : list A → result DecodeError unit :=
  fix go l := match l with [] => Ok tt | x :: l => let* _ := f x in go l end.
Definition check_nth {A} (f : A → result DecodeError unit) : list A → nat → result DecodeError unit :=
  fix go l n :=
    match l, n with
    | [], _ => Panic
    | x :: _, O => f x
    | _ :: l, S n => go l n
    end.

Fixpoint tree_check (bytes : list byte) (t : Tree) : result DecodeError unit :=
  match t with
  | TrEmpty => Ok tt
  | TrSequence l => checks_of (tree_check bytes) l
  | TrCheckBool o => check_bool bytes o
  | TrCheckTag o n => let* _ := check_tag bytes {| tag_offset := o; num_variants := n |} in Ok tt
  | TrSum o ps =>
      let* tag := check_tag bytes {| tag_offset := o; num_variants := wrap_u 8 (len ps) |} in
      check_nth (tree_check bytes) ps (Z.to_nat tag)
  end.

Lemma checks_of_app {A} (f : A → result DecodeError unit) l1 l2 :
  checks_of f (l1 ++ l2) = let* _ := checks_of f l1 in checks_of f l2.
Proof. induction l1 as [|x l1 IH]; [done|]. simpl. rewrite IH. by destruct (f x). Qed.

Lemma check_nth_lookup {A} (f : A → result DecodeError unit) l n x : l !! n = Some x → check_nth f l n = f x.
Proof. revert n. induction l as [|y l IH]; intros [|n]; simpl; try done; [by intros [= ->]|apply IH]. Qed.

Section check_tree_rect.
Variable P : Tree → Prop.
Hypothesis P_empty : P TrEmpty.
Hypothesis P_seq : ∀ l, Forall P l → P (TrSequence l).
Hypothesis P_bool : ∀ o, P (TrCheckBool o).
Hypothesis P_tag : ∀ o n, P (TrCheckTag o n).
Hypothesis P_sum : ∀ o l, Forall P l → P (TrSum o l).

Fixpoint check_tree_ind (t : Tree) : P t :=
  let go := fix go l := match l return Forall P l with
    | [] => Forall_nil_2 _
    | t :: l => Forall_cons_2 _ _ _ (check_tree_ind t) (go l)
    end in
  match t with
  | TrEmpty => P_empty
  | TrSequence l => P_seq l (go l)
  | TrCheckBool o => P_bool o
  | TrCheckTag o n => P_tag o n
  | TrSum o l => P_sum o l (go l)
  end.
End check_tree_rect.

Lemma check_tree_eqb_eq t1 : ∀ t2, check_tree_eqb t1 t2 = true → t1 = t2.
Proof.
  induction t1 as [|l IH|o|o n|o l IH] using check_tree_ind; intros [|l'|o'|o' n'|o' l']; cbn [check_tree_eqb]; try done.
  - intros H. f_equal. by eapply list_eqb_eq.
  - by intros ->%Z.eqb_eq.
  - by intros [->%Z.eqb_eq ->%Z.eqb_eq]%andb_prop.
  - intros [->%Z.eqb_eq H]%andb_prop. f_equal. by eapply list_eqb_eq.
Qed.

Lemma sub_trees_check bytes l : tree_check bytes (sub_trees_to_tree l) = checks_of (tree_check bytes) l.
Proof. destruct l as [|t [|t' l]]; try done. simpl. by destruct (tree_check bytes t) as [[]| | |]. Qed.

(** ** Running programs *)

Section run.
Variable bytes : list byte.

(** The program from an instruction on gives the result; it only jumps forward. *)
Inductive execs (prog : list Insn) : nat → result DecodeError unit → Prop :=
| ex_end ip : (length prog ≤ ip)%nat → execs prog ip (Ok tt)
| ex_stop ip i e : prog !! ip = Some i → run_insn bytes (Z.of_nat ip) i = Err e → execs prog ip (Err e)
| ex_next ip i y r :
    prog !! ip = Some i → run_insn bytes (Z.of_nat ip) i = Ok (Z.of_nat y) → (ip < y)%nat → execs prog y r →
    execs prog ip r.

Lemma execs_loop prog ip r : execs prog ip r →
  ∀ fuel, (length prog - ip < fuel)%nat → validate_loop fuel prog bytes (Z.of_nat ip) = r.
Proof.
  induction 1 as [ip Hip|ip i e Hi He|ip i y r Hi Hs Hlt _ IH]; intros [|fuel] Hf; try lia; simpl; rewrite Nat2Z.id.
  - by rewrite (proj2 (lookup_ge_None _ _)) by done.
  - by rewrite Hi, He.
  - pose proof (lookup_lt_Some _ _ _ Hi). rewrite Hi, Hs. cbn [rbind]. apply IH. lia.
Qed.

(** What is left after the checks of a tree. *)
Definition and_then (c r : result DecodeError unit) : result DecodeError unit := let* _ := c in r.

(** What the code of a tree does. *)
Definition code_checks (t : Tree) (code : list Insn) (a b : nat) : Prop :=
  ∀ prog r, agrees prog code a b → Z.of_nat b ≤ u16_MAX → returns (tree_check bytes t) →
    (tree_check bytes t = Ok tt → execs prog b r) → execs prog a (and_then (tree_check bytes t) r).

Record checks_compile (t : Tree) : Prop := {
  cc_prefix into i : (i < length into)%nat → compile_tree t into !! i = into !! i;
  cc_length into : (length into ≤ length (compile_tree t into))%nat;
  cc_runs into : code_checks t (compile_tree t into) (length into) (length (compile_tree t into));
}.

(** One instruction that checks and goes on to the next. *)
Lemma check_insn t i into :
  compile_tree t into = into ++ [i] →
  (∀ ip, ip < u16_MAX → 0 ≤ ip → run_insn bytes ip i = let* _ := tree_check bytes t in Ok (ip + 1)) →
  code_checks t (compile_tree t into) (length into) (length (compile_tree t into)).
Proof.
  intros Hc Hrun prog r Hag Hb Hret Hr. rewrite Hc in *. rewrite length_app in *. simpl in *.
  specialize (Hrun (Z.of_nat (length into)) ltac:(lia) ltac:(lia)).
  assert (Hi : prog !! length into = Some i).
  { rewrite Hag by lia. by rewrite lookup_app_r, Nat.sub_diag by lia. }
  destruct (tree_check bytes t) as [[]| | |]; try done; cbn [and_then rbind] in *.
  - eapply (ex_next _ _ i (length into + 1)); [done|rewrite Hrun; f_equal; lia|lia|by apply Hr].
  - by eapply ex_stop.
Qed.

Lemma checks_compile_seq l : Forall checks_compile l → checks_compile (TrSequence l).
Proof.
  intros Hl. cut (∀ into,
    (∀ i, (i < length into)%nat → compile_tree (TrSequence l) into !! i = into !! i) ∧
    (length into ≤ length (compile_tree (TrSequence l) into))%nat ∧
    code_checks (TrSequence l) (compile_tree (TrSequence l) into) (length into)
      (length (compile_tree (TrSequence l) into))).
  { intros H. split; intros; by apply H. }
  induction Hl as [|t l [Hp Hl Hr] _ IH]; intros into.
  { split_and!; [done|done|]. intros prog r _ _ _ Hrun. by apply Hrun. }
  destruct (IH (compile_tree t into)) as (IH1 & IH2 & IH3).
  change (compile_tree (TrSequence (t :: l)) into) with (compile_tree (TrSequence l) (compile_tree t into)).
  specialize (Hl into). split_and!.
  - intros i Hi. rewrite IH1 by lia. by apply Hp.
  - lia.
  - intros prog r Hag Hb Hret Hrun. cbn [tree_check checks_of] in *.
    assert (Hag1 : agrees prog (compile_tree t into) (length into) (length (compile_tree t into))).
    { intros i Hi. rewrite Hag by lia. apply IH1. lia. }
    specialize (Hr into prog (and_then (tree_check bytes (TrSequence l)) r) Hag1 ltac:(lia)).
    cbn [tree_check] in Hr, IH3. destruct (tree_check bytes t) as [[]| | |] eqn:Ht; try done; [|by apply Hr].
    apply (Hr I). intros _. apply IH3; [|done|done|done]. eapply agrees_weaken; [|done|done]. lia.
Qed.

(** ** Branches *)

(** The branch [b] among the code of the branches. *)
Record check_branch_at (code : list Insn) (fixups : list nat) (lo : nat) (b : Tree) (slot e : nat)
    (into : list Insn) : Prop := {
  cb_target : code !! slot = Some (Goto (wrap_u 16 (len into)));
  cb_end : e = length (compile_tree b into);
  cb_lo : (lo ≤ length into)%nat;
  cb_hi : (e < length code)%nat;
  cb_code : agrees code (compile_tree b into) (length into) e;
  cb_apart : ∀ f, f ∈ fixups → (f < length into)%nat ∨ (e ≤ f)%nat;
}.

Lemma check_branches_ok bs : Forall checks_compile bs → ∀ slot into,
  (slot + length bs ≤ length into)%nat →
  let '(code, fixups) := compile_branches compile_tree bs slot into in
  (∀ i, (i < length into)%nat → ¬ (slot ≤ i < slot + length bs)%nat → code !! i = into !! i) ∧
  (length into ≤ length code)%nat ∧
  Forall (λ f, length into ≤ f < length code)%nat fixups ∧
  ∀ i b, bs !! i = Some b → ∃ e into', fixups !! i = Some e ∧
    check_branch_at code fixups (length into) b (slot + i) e into'.
Proof.
  induction 1 as [|b bs [Hp Hl Hr] _ IH]; intros slot into Hslot; simpl in *.
  { split_and!; [done|done|constructor|]. intros i b Hi. done. }
  set (into1 := <[slot := Goto (wrap_u 16 (len into))]> into).
  assert (Hlen1 : length into1 = length into) by apply length_insert.
  specialize (Hl into1). specialize (IH (S slot) (compile_tree b into1 ++ [FIXUP])). rewrite length_app in IH. simpl in IH.
  destruct (compile_branches compile_tree bs _ _) as [code fixups]. destruct IH as (I1 & I2 & I3 & I4); [lia|].
  assert (Hpre : ∀ i, (i < length (compile_tree b into1))%nat → ¬ (S slot ≤ i < S slot + length bs)%nat →
    code !! i = compile_tree b into1 !! i).
  { intros i Hi Hn. rewrite I1 by (lia || done). by rewrite lookup_app_l. }
  split_and!.
  - intros i Hi Hn. rewrite Hpre, Hp by lia. unfold into1. rewrite list_lookup_insert_ne by lia. done.
  - lia.
  - constructor; [lia|]. eapply Forall_impl; [exact I3|]. simpl. lia.
  - intros [|i] b'; simpl.
    + intros [= <-]. eexists _, into1. split; [done|]. split; try done; [|lia..| |].
      * rewrite Nat.add_0_r, Hpre, Hp by lia. unfold into1, len.
        rewrite list_lookup_insert_eq, length_insert by lia. done.
      * intros i Hi. apply Hpre; lia.
      * intros f [->|Hf]%elem_of_cons; [lia|]. rewrite Forall_forall in I3. specialize (I3 f Hf). lia.
    + intros Hi. destruct (I4 i b' Hi) as (e & into' & J2 & [B1 B2 B3 B4 B5 B6]).
      exists e, into'. split; [done|]. rewrite <-Nat.add_succ_comm. split; try done; [lia|].
      intros f [->|Hf]%elem_of_cons; [lia|by apply B6].
Qed.

Lemma check_tag_below o n tag : check_tag bytes {| tag_offset := o; num_variants := n |} = Ok tag → 0 ≤ tag < n.
Proof.
  unfold check_tag. intros H. inv_ok. cbn [num_variants] in *. pose proof (byte_to_Z_range a).
  apply Z.ltb_lt in Hcond. lia.
Qed.

Lemma checks_compile_sum o ps : (length ps < 256)%nat → Forall checks_compile ps → checks_compile (TrSum o ps).
Proof.
  intros Hn Hps. set (check := {| tag_offset := o; num_variants := wrap_u 8 (len ps) |}).
  cut (∀ into,
    (∀ i, (i < length into)%nat → compile_tree (TrSum o ps) into !! i = into !! i) ∧
    (length into ≤ length (compile_tree (TrSum o ps) into))%nat ∧
    code_checks (TrSum o ps) (compile_tree (TrSum o ps) into) (length into)
      (length (compile_tree (TrSum o ps) into))).
  { intros H. split; intros; by apply H. }
  intros into. pose proof (check_branches_ok ps Hps (length (into ++ [CheckReadTagRelBranch check]))
    ((into ++ [CheckReadTagRelBranch check]) ++ replicate (length ps) FIXUP)) as Hb. cbn [compile_tree]. fold (len ps).
  fold check. destruct (compile_branches compile_tree ps _ _) as [code fixups].
  destruct Hb as (I1 & I2 & I3 & I4); [rewrite (length_app _ (replicate _ _)), length_replicate; lia|].
  rewrite !length_app, length_replicate in *. cbn [length] in *. set (g := Goto (wrap_u 16 (len code))).
  rewrite patch_length. set (patched := fold_left _ _ _).
  assert (Hlk : ∀ i, patched !! i = if decide (i ∈ fixups ∧ (i < length code)%nat) then Some g else code !! i)
    by (intros i; apply patch_lookup).
  rewrite Forall_forall in I3.
  assert (Hlow : ∀ i, (i < length into + 1 + length ps)%nat → patched !! i = code !! i).
  { intros i Hi. rewrite Hlk, decide_False; [done|]. intros [Hf _]. specialize (I3 _ Hf). lia. }
  split_and!.
  - intros i Hi. rewrite Hlow, I1, !lookup_app_l by (rewrite ?length_app; simpl; lia). done.
  - lia.
  - intros prog r Hag Hle Hret Hrun. cbn [tree_check] in *. fold check in Hret, Hrun |- *. unfold u16_MAX in Hle.
    assert (Hi : prog !! length into = Some (CheckReadTagRelBranch check)).
    { rewrite Hag, Hlow, I1, lookup_app_l, lookup_app_r, Nat.sub_diag by (rewrite ?length_app; simpl; lia). done. }
    destruct (check_tag bytes check) as [tag|e| |] eqn:Htag; try done; cbn [rbind and_then] in *.
    2:{ eapply ex_stop; [done|]. cbn [run_insn]. by rewrite Htag. }
    pose proof (check_tag_below _ _ _ Htag) as Hr. rewrite wrap_u_id in Hr by (unfold in_u, len; lia). unfold len in Hr.
    destruct (lookup_lt_is_Some_2 ps (Z.to_nat tag) ltac:(lia)) as [t Ht]. rewrite (check_nth_lookup _ _ _ _ Ht) in *.
    destruct (I4 _ _ Ht) as (e & into' & J2 & [B1 B2 B3 B4 B5 B6]).
    rewrite Forall_forall in Hps. destruct (Hps t) as [Cp Cl Cr]; [by eapply list_elem_of_lookup_2|].
    specialize (Cl into'). unfold len in B1. rewrite wrap_u_id in B1 by (unfold in_u; lia).
    apply (ex_next _ _ (CheckReadTagRelBranch check) (length into + 1 + Z.to_nat tag)); [done| |lia|].
    { cbn [run_insn]. rewrite Htag. cbn [rbind]. rewrite add_u_Ok by lia. cbn [rbind]. rewrite add_u_Ok by lia. f_equal. lia. }
    apply (ex_next _ _ (Goto (Z.of_nat (length into'))) (length into')); [|done|lia|].
    { by rewrite Hag, Hlow by lia. }
    apply (Cr into'); [|unfold u16_MAX; lia|done|].
    + intros i Hi'. rewrite <-B2 in Hi'. rewrite Hag, Hlk, decide_False by (lia || (intros [Hf _]; specialize (B6 _ Hf); lia)).
      apply B5. lia.
    + intros Hok. rewrite <-B2. apply (ex_next _ _ g (length code)); [| |lia|by apply Hrun].
      * rewrite Hag, Hlk by lia. rewrite decide_True; [done|]. split; [by eapply list_elem_of_lookup_2|lia].
      * unfold g, len. cbn [run_insn]. rewrite wrap_u_id by (unfold in_u; lia). done.
Qed.

(** Every sum of the tree has fewer than 256 variants. *)
Fixpoint small_sums (t : Tree) : Prop :=
  match t with
  | TrSequence l => all_list small_sums l
  | TrSum _ ps => (length ps < 256)%nat ∧ all_list small_sums ps
  | _ => True
  end.

Lemma tree_checks_compile t : small_sums t → checks_compile t.
Proof.
  induction t as [|l IH|o|o n|o l IH] using check_tree_ind; intros Hs.
  - split; [done|done|]. intros into prog r _ _ _ Hrun. by apply Hrun.
  - apply checks_compile_seq. apply all_list_Forall in Hs. rewrite Forall_forall in IH, Hs |- *. intros t Ht. by apply IH, Hs.
  - split; intros into; simpl; [intros; by apply lookup_app_l|rewrite length_app; lia|].
    apply (check_insn (TrCheckBool o) (CheckBool o)); [done|]. intros ip H1 H0. cbn [run_insn tree_check].
    unfold u16_MAX in H1. rewrite add_u_Ok by lia. cbn [rbind]. by destruct (check_bool bytes o) as [[]| | |].
  - split; intros into; simpl; [intros; by apply lookup_app_l|rewrite length_app; lia|].
    apply (check_insn (TrCheckTag o n) (ICheckTag {| tag_offset := o; num_variants := n |})); [done|]. intros ip H1 H0. cbn [run_insn tree_check].
    unfold u16_MAX in H1. destruct (check_tag bytes _); [|done..]. cbn [rbind]. by rewrite add_u_Ok by lia.
  - destruct Hs as [Hn Hs]. apply checks_compile_sum; [done|]. apply all_list_Forall in Hs. rewrite Forall_forall in IH, Hs |- *. intros t Ht. by apply IH, Hs.
Qed.

(** ** Trailing jumps *)

Definition is_jump (i : Insn) : bool := match i with Goto _ => true | _ => false end.

Lemma trailing_jumps prog :
  ∃ gs, prog = remove_trailing_gotos prog ++ gs ∧ Forall (λ i, is_jump i = true) gs.
Proof.
  assert (Hd : ∀ l, ∃ gs, l = gs ++ drop_gotos l ∧ Forall (λ i, is_jump i = true) gs).
  { induction l as [|i l (gs & IH & Hg)]; [by exists []|]. destruct i as [| | |y]; try (by exists []).
    exists (Goto y :: gs). simpl. rewrite <-IH. split; [done|]. by constructor. }
  destruct (Hd (reverse prog)) as (gs & H & Hg). exists (reverse gs). split.
  - unfold remove_trailing_gotos. by rewrite <-reverse_app, <-H, reverse_involutive.
  - by apply Forall_reverse.
Qed.

Lemma execs_past q ip r : execs q ip r → (length q ≤ ip)%nat → r = Ok tt.
Proof. intros Hr Hip. destruct Hr as [|? ? ? Hl|? ? ? ? Hl]; [done|apply lookup_lt_Some in Hl; lia..]. Qed.

Lemma execs_trim q gs ip r : Forall (λ i, is_jump i = true) gs → execs (q ++ gs) ip r → execs q ip r.
Proof.
  intros Hg. rewrite Forall_forall in Hg.
  assert (Hl : ∀ ip i, (q ++ gs) !! ip = Some i → q !! ip = Some i ∨ (length q ≤ ip)%nat ∧ is_jump i = true).
  { intros ip' i [|[Hlt Hi]]%lookup_app_Some; [by left|right]. split; [done|]. apply Hg. by eapply list_elem_of_lookup_2. }
  induction 1 as [ip Hip|ip i e Hi He|ip i y r Hi Hs Hlt _ IH].
  - constructor. rewrite length_app in Hip. lia.
  - destruct (Hl _ _ Hi) as [Hq|[_ Hj]]; [by eapply ex_stop|]. by destruct i.
  - destruct (Hl _ _ Hi) as [Hq|[Hq _]]; [by eapply ex_next|]. rewrite (execs_past _ _ _ IH) by lia. by constructor.
Qed.

(** The program does the checks of the tree. *)
Lemma validate_tree t :
  small_sums t → len (compile_tree t []) ≤ u16_MAX → returns (tree_check bytes t) →
  validate_loop (S (length (tree_to_insns t))) (tree_to_insns t) bytes 0 = tree_check bytes t.
Proof.
  intros Hs Hlen Hret. destruct (tree_checks_compile t Hs) as [_ _ Hr].
  specialize (Hr [] (compile_tree t []) (Ok tt) (λ _ _, eq_refl) Hlen Hret). cbn [length] in Hr.
  unfold tree_to_insns. destruct (trailing_jumps (compile_tree t [])) as (gs & Hgs & Hj).
  apply (execs_loop _ 0); [|lia].
  replace (tree_check bytes t) with (and_then (tree_check bytes t) (Ok tt)) by by destruct (tree_check bytes t) as [[]| | |].
  eapply execs_trim; [done|]. rewrite <-Hgs. apply Hr. intros _. by constructor.
Qed.
End run.

(** ** Encodings of a layout *)

Definition encodes (ty : AlgebraicTypeLayout) (b : list byte) : Prop :=
  ∃ v objs, has_type ty v objs ∧ bsatn v = Some b.
Definition encodes_all (els : list ProductTypeElementLayout) (b : list byte) : Prop :=
  ∃ vals objs, has_types els vals objs ∧ bsatn_list bsatn vals = Some b.

Abbreviation lives els := (concat (map (λ e, map (Z.add (pel_offset e)) (live (pel_ty e))) els)) (only parsing).

Lemma encodes_length ty b : static ty → encodes ty b → len b = len (live ty).
Proof.
  intros Hs (v & objs & Ht & Hb). destruct (proj1 static_bsatn_length _ _ _ Ht Hs) as (b' & Hb' & Hl).
  unfold len. congruence.
Qed.

Lemma encodes_prim p b : p ≠ PBool → len b = prim_size p → encodes (LPrimitive p) b.
Proof.
  intros Hp Hl. destruct p as [|k|k]; [done| |].
  - assert (∃ z, deserialize_int k (b ++ []) = Ok (z, [])) as [z Hz].
    { unfold deserialize_int, get_sint, get_uint. assert (length b = int_size k) by (unfold len in Hl; simpl in Hl; lia).
      destruct (int_signed k); rewrite get_int_app by done; cbn [rbind]; eauto. }
    apply accepts_int in Hz as (Hr & b' & Hb' & Heq). rewrite !app_nil_r in Heq. subst b'.
    exists (VInt k z), []. split; [eapply ht_prim; by constructor|done].
  - assert (∃ z, deserialize_float k (b ++ []) = Ok (z, [])) as [z Hz].
    { unfold deserialize_float, get_uint. rewrite get_int_app by (unfold len in Hl; simpl in Hl; lia). cbn [rbind]. eauto. }
    apply accepts_float in Hz as (Hr & b' & Hb' & Heq). rewrite !app_nil_r in Heq. subst b'.
    exists (VFloat k z), []. split; [eapply ht_prim; by constructor|done].
Qed.

Lemma encodes_bool b : encodes (LPrimitive PBool) [b] ↔ byte_to_Z b ≤ 1.
Proof.
  split.
  - intros (v & objs & Ht & Hb). inversion Ht as [p' v' bs Hp| | |]; subst. inversion Hp as [x| |]; subst.
    apply prim_value_bsatn in Hp. rewrite Hb in Hp. injection Hp as ->. by destruct x.
  - intros Hle. pose proof (byte_to_Z_range b). exists (VBool (byte_to_Z b =? 1)), []. split; [eapply ht_prim; by constructor|].
    simpl. unfold bsatn_bool. do 2 f_equal. rewrite <-(byte_of_to_Z b). destruct (Z.eqb_spec (byte_to_Z b) 1) as [->|]; [done|].
    by replace (byte_to_Z b) with 0 by lia.
Qed.

Lemma encodes_cons e els b1 b2 :
  static (pel_ty e) → len b1 = len (live (pel_ty e)) →
  encodes_all (e :: els) (b1 ++ b2) ↔ encodes (pel_ty e) b1 ∧ encodes_all els b2.
Proof.
  intros Hs Hl. split.
  - intros (vals & objs & Ht & Hb). inversion Ht as [|e' els' v vals' o1 o2 Hv Hvs]; subst. cbn [bsatn_list] in Hb.
    destruct (proj1 static_bsatn_length _ _ _ Hv Hs) as (c1 & Hc1 & Hlc). rewrite Hc1 in Hb.
    fold (bsatn_list bsatn) in Hb. cbn [mbind option_bind] in Hb.
    destruct (bsatn_list bsatn vals') as [c2|] eqn:Hc2; [|done]. injection Hb as Hb.
    apply app_inj_1 in Hb as [-> ->]; [|unfold len in Hl; lia]. split; [by exists v, o1|by exists vals', o2].
  - intros [(v & o1 & Hv & Hb1) (vals & o2 & Hvs & Hb2)]. exists (v :: vals), (o1 ++ o2). split; [by constructor|].
    cbn [bsatn_list]. fold (bsatn_list bsatn). by rewrite Hb1, Hb2.
Qed.

Lemma encodes_sum l vs po b rest :
  encodes (LSum l vs po) (b :: rest) ↔
  ∃ var, vs !! Z.to_nat (byte_to_Z b) = Some var ∧ encodes (vl_ty var) rest.
Proof.
  split.
  - intros (v & objs & Ht & Hb). inversion Ht as [| | |? ? ? tag var v' ? Htag Hvar Hv]; subst. cbn [bsatn bsatn_sum] in Hb.
    destruct (bsatn v') as [b'|] eqn:Hb'; [|done]. injection Hb as Hb1 ->.
    exists var. split; [|by exists v', objs]. rewrite <-Hb1, byte_to_of_Z, Z.mod_small by done. done.
  - intros (var & Hvar & v & objs & Hv & Hb). exists (VSum (MkSumValue (byte_to_Z b) v)), objs. split.
    + econstructor; [apply byte_to_Z_range|done|done].
    + cbn [bsatn bsatn_sum]. rewrite Hb. cbn [mbind option_bind]. by rewrite byte_of_to_Z.
Qed.

(** ** The checks of a layout *)

(** Every sum of the type has fewer than 256 variants. *)
Fixpoint few_variants (ty : AlgebraicTypeLayout) : Prop :=
  match ty with
  | LSum _ vs _ => (length vs < 256)%nat ∧ all_list (λ v, few_variants (vl_ty v)) vs
  | LProduct _ els => all_list (λ e, few_variants (pel_ty e)) els
  | _ => True
  end.

(** The trees check that the bytes are an encoding. *)
Definition trees_check (new : list Tree) (cur n : Z) (enc : list byte → Prop) : Prop :=
  all_list small_sums new ∧
  ∀ bytes, cur + n ≤ len bytes →
    returns (checks_of (tree_check bytes) new) ∧
    (checks_of (tree_check bytes) new = Ok tt ↔ enc (peek bytes cur n)).

Definition extends_ok (ty : AlgebraicTypeLayout) : Prop :=
  static ty → few_variants ty → ∀ cur subs, 0 ≤ cur → cur + len (live ty) < 65536 →
  ∃ new, extend_trees_for_algebraic_type ty cur subs = Ok (cur + len (live ty), subs ++ new) ∧
    trees_check new cur (len (live ty)) (encodes ty).

Lemma trees_check_app new1 new2 cur n1 n2 enc1 enc2 enc :
  0 ≤ cur → 0 ≤ n1 → 0 ≤ n2 →
  (∀ b1 b2, len b1 = n1 → enc (b1 ++ b2) ↔ enc1 b1 ∧ enc2 b2) →
  trees_check new1 cur n1 enc1 → trees_check new2 (cur + n1) n2 enc2 → trees_check (new1 ++ new2) cur (n1 + n2) enc.
Proof.
  intros Hc H1 H2 He [Hs1 T1] [Hs2 T2]. split.
  - apply all_list_Forall. apply Forall_app. by rewrite <-!all_list_Forall.
  - intros bytes Hl. rewrite checks_of_app, peek_app, He by (rewrite ?len_peek; lia).
    destruct (T1 bytes ltac:(lia)) as [R1 <-]. destruct (T2 bytes ltac:(lia)) as [R2 <-].
    destruct (checks_of (tree_check bytes) new1) as [[]| | |]; try done; cbn [rbind]; [|by split; [|split; [|intros []]]].
    split; [done|]. naive_solver.
Qed.

Lemma extend_elements_ok els :
  Forall (λ e, extends_ok (pel_ty e)) els → all_list (λ e, static (pel_ty e)) els →
  all_list (λ e, few_variants (pel_ty e)) els → ∀ cur subs, 0 ≤ cur → cur + len (lives els) < 65536 →
  ∃ new, extend_trees_for_elements extend_trees_for_algebraic_type els cur subs = Ok (cur + len (lives els), subs ++ new) ∧
    trees_check new cur (len (lives els)) (encodes_all els).
Proof.
  induction 1 as [|e els He _ IH]; intros Hs Hf cur subs Hc Hl.
  { exists []. simpl. rewrite app_nil_r, Z.add_0_r. split; [done|]. split; [done|]. intros bytes _. split; [done|].
    rewrite peek_0. split; [intros _; exists [], []; by split; [constructor|]|done]. }
  destruct Hs as [Hse Hs], Hf as [Hfe Hf].
  assert (Hn : len (lives (e :: els)) = len (live (pel_ty e)) + len (lives els)).
  { simpl. rewrite len_app. unfold len at 1. by rewrite length_map. }
  rewrite Hn in *. assert (0 ≤ len (lives els)) by (unfold len; lia). assert (0 ≤ len (live (pel_ty e))) by (unfold len; lia).
  destruct (He Hse Hfe cur subs Hc ltac:(lia)) as (new1 & E1 & T1). cbn [extend_trees_for_elements]. rewrite E1. cbn [rbind].
  destruct (IH Hs Hf (cur + len (live (pel_ty e))) (subs ++ new1) ltac:(lia) ltac:(lia)) as (new2 & E2 & T2).
  fold (extend_trees_for_elements extend_trees_for_algebraic_type). rewrite E2.
  exists (new1 ++ new2). split; [by rewrite Z.add_assoc, app_assoc|].
  eapply trees_check_app; [done|done|done| |done|done]. intros b1 b2 Hb1. by apply encodes_cons.
Qed.

(** The tree of a variant. *)
Definition variant_check (cur m : Z) (variant : SumTypeVariantLayout) (t : Tree) : Prop :=
  small_sums t ∧
  ∀ bytes, cur + m ≤ len bytes →
    returns (tree_check bytes t) ∧ (tree_check bytes t = Ok tt ↔ encodes (vl_ty variant) (peek bytes cur m)).

Lemma small_sub_trees l : all_list small_sums l → small_sums (sub_trees_to_tree l).
Proof. destruct l as [|t [|t' l]]; [done|by intros [? _]|done]. Qed.

Lemma variant_trees_ok vs m cur :
  Forall (λ v, extends_ok (vl_ty v)) vs → Forall (λ v, static (vl_ty v) ∧ len (live (vl_ty v)) = m) vs →
  all_list (λ v, few_variants (vl_ty v)) vs → 0 ≤ cur → cur + m < 65536 → ∀ child, (vs = [] → child = cur + m) →
  ∃ trees, variant_trees extend_trees_for_algebraic_type cur vs child = Ok (cur + m, trees) ∧
    Forall2 (variant_check cur m) vs trees.
Proof.
  intros IH. induction IH as [|v vs Hv _ IH]; intros Hs Hf Hc Hl child Hch.
  { exists []. simpl. by rewrite Hch. }
  apply Forall_cons in Hs as [[Hsv Hm] Hs]. destruct Hf as [Hfv Hf]. cbn [variant_trees].
  destruct (Hv Hsv Hfv cur [] Hc ltac:(lia)) as (new & -> & Hnew & Hcheck). cbn [rbind].
  destruct (IH Hs Hf Hc Hl (cur + len (live (vl_ty v))) ltac:(by rewrite Hm)) as (trees & E & T).
  fold (variant_trees extend_trees_for_algebraic_type). rewrite E. cbn [rbind]. eexists. split; [done|].
  constructor; [|done]. split; [by apply small_sub_trees|]. intros bytes Hb. rewrite sub_trees_check, <-Hm.
  apply Hcheck. lia.
Qed.

(** Reading the tag. *)
Lemma check_tag_ok bytes cur b n :
  bytes !! Z.to_nat cur = Some b → 0 ≤ cur < 65536 →
  check_tag bytes {| tag_offset := wrap_u 16 cur; num_variants := n |} =
    if byte_to_Z b <? n then Ok (byte_to_Z b) else Err (InvalidTag (byte_to_Z b) None).
Proof.
  intros Hb Hc. unfold check_tag. cbn [tag_offset]. rewrite wrap_u_id by done. by rewrite (vec_get_Ok _ _ b) by (done || lia).
Qed.

Lemma peek_cons bytes cur m b :
  0 ≤ cur → 0 ≤ m → cur + 1 + m ≤ len bytes → bytes !! Z.to_nat cur = Some b →
  peek bytes cur (1 + m) = b :: peek bytes (cur + 1) m.
Proof.
  intros Hc Hm Hl Hb. rewrite peek_app by lia. change (b :: peek bytes (cur + 1) m) with ([b] ++ peek bytes (cur + 1) m).
  f_equal. apply list_eq. intros [|i]; rewrite lookup_peek; simpl; [by rewrite Nat.add_0_r, Hb|].
  by destruct i.
Qed.

(** Checking the tag, then the variant that it picks. *)
Lemma sum_check l vs po cur m trees t bytes :
  Forall2 (variant_check (cur + 1) m) vs trees → (length vs < 256)%nat → 0 ≤ cur → 0 ≤ m → cur + 1 + m < 65536 →
  cur + (1 + m) ≤ len bytes →
  (∀ tag tree, trees !! tag = Some tree → t (Z.of_nat tag) = tree_check bytes tree) →
  let r := (let* tag := check_tag bytes {| tag_offset := wrap_u 16 cur; num_variants := wrap_u 8 (len vs) |} in t tag) in
  returns r ∧ (r = Ok tt ↔ encodes (LSum l vs po) (peek bytes cur (1 + m))).
Proof.
  intros HF Hn Hc Hm Hl Hb Ht r. destruct (lookup_lt_is_Some_2 bytes (Z.to_nat cur)) as [b Hbyte]; [unfold len in Hb; lia|].
  subst r. rewrite (check_tag_ok _ _ b) by (done || lia). rewrite (peek_cons _ _ _ b) by (done || lia).
  rewrite encodes_sum, wrap_u_id by (unfold in_u, len; lia). pose proof (byte_to_Z_range b). unfold len in *.
  destruct (Z.ltb_spec (byte_to_Z b) (Z.of_nat (length vs))) as [Hlt|Hge]; cbn [rbind].
  - destruct (lookup_lt_is_Some_2 vs (Z.to_nat (byte_to_Z b))) as [var Hvar]; [lia|].
    destruct (Forall2_lookup_l _ _ _ _ _ HF Hvar) as (tree & Htree & _ & Hck).
    specialize (Ht _ _ Htree). rewrite Z2Nat.id in Ht by lia. rewrite Ht. destruct (Hck bytes) as [Hr ->]; [unfold len; lia|].
    split; [done|]. rewrite Hvar. naive_solver.
  - split; [done|]. rewrite lookup_ge_None_2 by lia. naive_solver.
Qed.

Lemma all_equal_trees_lookup l x y i j : all_equal_trees l = true → l !! i = Some x → l !! j = Some y → x = y.
Proof.
  destruct l as [|z l]; [done|]. simpl. intros Hall.
  assert (Hz : ∀ k w, (z :: l) !! k = Some w → w = z).
  { intros [|k] w; simpl; [by intros [= <-]|]. intros Hk.
    eapply forallb_forall in Hall; [|by eapply list_elem_of_In, list_elem_of_lookup_2].
    by apply check_tree_eqb_eq in Hall. }
  intros Hi Hj. by rewrite (Hz _ _ Hi), (Hz _ _ Hj).
Qed.

Lemma extends_sum l vs po : Forall (λ v, extends_ok (vl_ty v)) vs → extends_ok (LSum l vs po).
Proof.
  intros IH Hs [Hn Hf] cur subs Hc Hl. pose proof Hs as [Hne _]. destruct vs as [|v0 vs0] eqn:Evs; [done|]. rewrite <-Evs in *.
  set (m := len (live (vl_ty v0))).
  assert (Hm : len (live (LSum l vs po)) = 1 + m).
  { destruct (static_sum_live _ _ _ 0%nat v0 Hs) as [_ ->]; [by rewrite Evs|]. unfold m, len. simpl. rewrite length_map. lia. }
  assert (0 ≤ m) by (unfold m, len; lia). rewrite Hm in *.
  assert (Hst : Forall (λ v, static (vl_ty v) ∧ len (live (vl_ty v)) = m) vs).
  { apply Forall_lookup. intros i v Hv. destruct (static_sum_live _ _ _ _ _ Hs Hv) as [Hsv Hlv]. split; [done|].
    rewrite Hlv in Hm. unfold len in *. simpl in Hm. rewrite length_map in Hm. lia. }
  destruct (variant_trees_ok vs m (cur + 1) IH Hst Hf ltac:(lia) ltac:(lia) (cur + 1)) as (trees & E & T); [by rewrite Evs|].
  cbn [extend_trees_for_algebraic_type]. rewrite E. cbn [rbind]. pose proof (Forall2_length _ _ _ T) as Hlen.
  rewrite <-Z.add_assoc. assert (Hsm : Forall small_sums trees).
  { apply Forall_lookup. intros i t Ht. destruct (Forall2_lookup_r _ _ _ _ _ T Ht) as (v & _ & ? & _). done. }
  destruct (all_equal_trees trees) eqn:Heq.
  - destruct (vec_pop_last trees 0 (default TrEmpty (trees !! 0%nat))) as (t & r & Hpop & Hlast).
    { destruct trees; [by rewrite Evs in Hlen|done]. }
    rewrite Hpop. eexists. split; [done|]. assert (Hst' : small_sums t).
    { rewrite Forall_forall in Hsm. apply Hsm. by eapply list_elem_of_lookup_2. }
    split; [done|]. intros bytes Hb. cbn [checks_of tree_check].
    pose proof (sum_check l vs po cur m trees (λ _, tree_check bytes t) bytes T Hn Hc ltac:(lia) ltac:(lia) Hb) as [H1 H2].
    { intros tag tree Htree. by rewrite (all_equal_trees_lookup _ _ _ _ _ Heq Htree Hlast). }
    cbv beta in H1, H2. destruct (check_tag bytes _) as [tag| | |]; try done. cbn [rbind] in *.
    destruct (tree_check bytes t) as [[]| | |]; try done.
  - eexists. split; [done|]. split.
    + cbn [all_list small_sums]. rewrite <-Hlen, all_list_Forall. done.
    + intros bytes Hb. cbn [checks_of tree_check].
      pose proof (sum_check l vs po cur m trees (λ tag, check_nth (tree_check bytes) trees (Z.to_nat tag)) bytes T Hn Hc ltac:(lia) ltac:(lia) Hb) as [H1 H2].
      { intros tag tree Htree. rewrite Nat2Z.id. by apply check_nth_lookup. }
      cbv beta in H1, H2. unfold len in H1, H2 |- *. rewrite <-Hlen. 
      destruct (rbind _ _) as [[]| | |]; done.
Qed.

Lemma extends_layout ty : extends_ok ty.
Proof.
  induction ty as [l vs po IH|l es IH|p|v] using layout_nested_ind.
  - by apply extends_sum.
  - intros Hs Hf cur subs Hc Hl. destruct (extend_elements_ok es IH Hs Hf cur subs Hc Hl) as (new & E & T1 & T2).
    exists new. split; [done|]. split; [done|]. intros bytes Hb. destruct (T2 bytes Hb) as [R ->]. split; [done|].
    change (live (LProduct l es)) with (lives es). split.
    + intros (vals & objs & Ht & Hbs). eexists _, objs. split; [by constructor|done].
    + intros (v & objs & Ht & Hbs). inversion Ht as [| |? ? vals ? Hts|]; subst. by exists vals, objs.
  - intros _ _ cur subs Hc Hl. change (live (LPrimitive p)) with (seqZ 0 (prim_size p)) in *.
    pose proof (is_align_bounds _ (prim_align p)).
    assert (Hn : len (seqZ 0 (prim_size p)) = prim_size p) by (unfold len; rewrite length_seqZ; lia). rewrite Hn in *.
    assert (p = PBool ∨ p ≠ PBool) as [->|Hp] by (destruct p; [by left|by right..]).
    + eexists. split; [done|]. split; [done|]. intros bytes Hb. cbn [checks_of tree_check]. unfold check_bool.
      change (prim_size PBool) with 1 in *.
      destruct (lookup_lt_is_Some_2 bytes (Z.to_nat cur)) as [b Hbyte]; [unfold len in Hb; lia|].
      rewrite wrap_u_id by (unfold in_u; lia). rewrite (vec_get_Ok _ _ b) by (done || lia). cbn [rbind].
      pose proof (peek_cons bytes cur 0 b Hc ltac:(lia) ltac:(lia) Hbyte) as Hpk. change (1 + 0) with 1 in Hpk.
      rewrite Hpk, peek_0, encodes_bool.
      destruct (Z.ltb_spec 1 (byte_to_Z b)); simpl; split; try done; split; try done; lia.
    + exists []. rewrite app_nil_r. split; [by destruct p|]. split; [done|]. intros bytes Hb. split; [done|].
      split; [intros _|done]. apply encodes_prim; [done|]. by rewrite len_peek by lia.
  - by intros [].
Qed.

(** ** Rows *)

Lemma has_type_typed :
  (∀ ty v objs, has_type ty v objs → typed [] (algebraic_type ty) v) ∧
  (∀ els vals objs, has_types els vals objs → all_list2 (λ v e, typed [] (el_type e) v) (product_type els) vals).
Proof.
  apply has_type_ind'.
  - intros p v b Hp. apply typed_here; destruct Hp; done.
  - intros t v ob Hv. destruct Hv as [s Hs|t a bs Ha]; [by apply typed_here|done].
  - intros l els vals objs _ IH. by apply typed_here.
  - intros l vars po tag var v objs Htag Hvar _ IH. apply typed_here; [done|]. split; [done|].
    eexists. split; [by rewrite list_lookup_fmap, Hvar|done].
  - done.
  - intros e els v vals o1 o2 _ IH1 _ IH2. by split.
Qed.

Section rows.
Context (es : list ProductTypeElement) (rt : RowTypeLayout).
Context (Hrt : row_type_layout (E:=unit) es = Ok rt) (Hnr : contains_refs (TProduct es) = false).
Context (Hsize : ty_size (TProduct es) ≤ PAGE_DATA_SIZE) (sl : StaticLayout) (Hsl : for_row_type rt = Ok sl).

(** The number of instructions. *)
Definition validator_code : Z :=
  match row_type_to_tree rt with Ok tree => len (compile_tree tree []) | _ => 0 end.

Context (Hfew : all_list (λ e, few_variants (pel_ty e)) (row_elements rt)) (Hcode : validator_code ≤ u16_MAX).

Lemma row_encodes bytes :
  encodes_all (row_elements rt) bytes ↔ ∃ val, typed [] (TProduct es) (VProduct val) ∧ bsatn (VProduct val) = Some bytes.
Proof using Hrt Hnr Hsize.
  assert (Hlt : ty_size (TProduct es) < 65535) by (change PAGE_DATA_SIZE with 65472 in Hsize; lia).
  pose proof (no_refs_of (TProduct es) Hnr) as Hnr'.
  destruct (row_layout_ok (E:=unit) es Hnr' Hlt) as (rt' & Hrt' & _ & Hpt & _). rewrite Hrt in Hrt'. injection Hrt' as <-. split.
  - intros (vals & objs & Ht & Hb). exists (MkProductValue vals). split; [|done]. apply typed_here; [done|].
    pose proof (proj2 has_type_typed _ _ _ Ht) as H. by rewrite Hpt in H.
  - intros ([vals] & Ht & Hb). destruct (typed_row es rt Hrt Hnr _ Ht) as [objs Ho]. by exists vals, objs.
Qed.

Lemma row_tree :
  ∃ tree, row_type_to_tree rt = Ok tree ∧ small_sums tree ∧
    ∀ bytes, len bytes = bsatn_length sl → returns (tree_check bytes tree) ∧
      (tree_check bytes tree = Ok tt ↔ encodes_all (row_elements rt) bytes).
Proof using Hrt Hnr Hsize Hsl Hfew.
  destruct (row_static es rt Hrt Hnr Hsize sl Hsl) as (Hs & Hp & Hc & Hlen). rewrite Hp in Hlen.
  destruct Hc as (_ & _ & Hrange & Hnd). rewrite Hp in Hrange, Hnd.
  destruct (row_good es rt Hrt Hnr Hsize) as [[G1 G2 _ _ _ _ _ _] _]. pose proof (NoDup_range_length _ _ Hnd Hrange).
  destruct (extend_elements_ok (row_elements rt)) with (cur := 0) (subs := @nil Tree) as (new & E & T1 & T2); try done; [|lia|].
  { apply Forall_forall. intros. apply extends_layout. }
  unfold row_type_to_tree. rewrite E. cbn [rbind app]. eexists. split; [done|]. split; [by apply small_sub_trees|].
  intros bytes Hb. rewrite sub_trees_check. destruct (T2 bytes ltac:(lia)) as [R ->]. split; [done|].
  by rewrite <-Hlen, <-Hb, peek_all.
Qed.

Lemma validate_ok :
  ∃ vd, static_bsatn_validator rt = Ok vd ∧
    ∀ bytes, returns (validate_bsatn vd sl bytes) ∧
      (validate_bsatn vd sl bytes = Ok tt ↔
       ∃ val, typed [] (TProduct es) (VProduct val) ∧ to_vec (VProduct val) = Ok bytes).
Proof using Hrt Hnr Hsize Hsl Hfew Hcode.
  destruct row_tree as (tree & Ht & Hs & Hc). unfold validator_code in Hcode. unfold static_bsatn_validator.
  rewrite Ht in *. cbn [rbind]. eexists. split; [done|]. intros bytes. setoid_rewrite to_vec_bsatn.
  rewrite <-row_encodes. unfold validate_bsatn. cbn [validator_insns].
  destruct (Z.eqb_spec (bsatn_length sl) (len bytes)) as [Hlen|Hlen]; cbn [negb].
  - destruct (Hc bytes ltac:(lia)) as [R <-]. by rewrite validate_tree.
  - split; [done|]. split; [done|]. intros (vals & objs & Hts & Hb). exfalso. apply Hlen.
    destruct (row_static es rt Hrt Hnr Hsize sl Hsl) as (Hst & Hp & _ & ->). rewrite Hp.
    destruct (proj2 static_bsatn_length _ _ _ Hts Hst) as (b & Hb' & Hl). unfold len. congruence.
Qed.
End rows.

(** C24. The validator of a static layout accepts exactly the encodings of the
    rows.  For every row type with a static layout whose sums have fewer than
    256 variants, and whose program has addresses of 16 bits, the validator is
    compiled, validating any bytes ends without reading outside of them, and
    it succeeds exactly when they are the BSATN of a value of the row type. *)
Theorem validator_correct es rt sl :
  row_type_layout (E:=unit) es = Ok rt → contains_refs (TProduct es) = false →
  ty_size (TProduct es) ≤ PAGE_DATA_SIZE → for_row_type rt = Ok sl →
  all_list (λ e, few_variants (pel_ty e)) (row_elements rt) → validator_code rt ≤ u16_MAX →
  ∃ vd, static_bsatn_validator rt = Ok vd ∧
    ∀ bytes, returns (validate_bsatn vd sl bytes) ∧
      (validate_bsatn vd sl bytes = Ok tt ↔
       ∃ val, typed [] (TProduct es) (VProduct val) ∧ to_vec (VProduct val) = Ok bytes).
Proof. intros. by apply validate_ok. Qed.

(** ** Examples *)

Module Examples.
Import BflatnThm.Examples StaticLayout.Examples.

(** The 14 bytes of the example row are accepted, and refused when the flag is
    2 or the tag is out of range. *)
Lemma validator_correct_witness :
  ∃ vd bs, static_bsatn_validator static_rt = Ok vd ∧ to_vec (VProduct static_val) = Ok bs ∧
    validate_bsatn vd static_sl bs = Ok tt ∧
    validate_bsatn vd static_sl (<[8%nat := x02]> bs) = Err (InvalidBool 2) ∧
    validate_bsatn vd static_sl (<[9%nat := x02]> bs) = Err (InvalidTag 2 None).
Proof.
  assert (H1 : ty_size (TProduct static_es) ≤ PAGE_DATA_SIZE) by (vm_compute; discriminate).
  assert (H2 : row_type_layout (E:=unit) static_es = Ok static_rt) by (vm_compute; reflexivity).
  assert (H3 : for_row_type static_rt = Ok static_sl) by (vm_compute; reflexivity).
  assert (H4 : all_list (λ e, few_variants (pel_ty e)) (row_elements static_rt)) by (vm_compute; repeat split; lia).
  assert (H5 : validator_code static_rt ≤ u16_MAX) by (vm_compute; discriminate).
  destruct (validator_correct static_es static_rt static_sl H2 eq_refl H1 H3 H4 H5) as (vd & Hvd & Hval).
  destruct (to_vec (VProduct static_val)) as [bs| | |] eqn:Hb; [|by vm_compute in Hb..].
  exists vd, bs. split; [exact Hvd|]. split; [reflexivity|]. destruct (Hval bs) as [_ Hok]. split.
  - apply Hok. exists static_val. split; [exact static_val_typed|exact Hb].
  - vm_compute in Hvd. injection Hvd as <-. vm_compute in Hb. injection Hb as <-. vm_compute. done.
Defined.

(** A choice among 256 units. *)
Definition wide_es : list ProductTypeElement := [col (TSum (replicate 256 (variant (TProduct []))))].
Definition wide_rt : RowTypeLayout := layout_ex wide_es.
Definition wide_validation (tag : Z) : result DecodeError unit :=
  match for_row_type wide_rt, static_bsatn_validator wide_rt with
  | Ok sl, Ok vd => validate_bsatn vd sl [byte_of_Z tag]
  | _, _ => Panic
  end.

(** With 256 variants, the number of variants wraps to zero.  The tag of
    every variant of such a sum fits in its byte and the decoder accepts it,
    but the validator compares it with zero and refuses every row. *)
Theorem validator_refuses_256 tag :
  in_u 8 tag →
  (∃ v, decode (TProduct wide_es) [byte_of_Z tag] = Ok (v, [])) ∧ wide_validation tag = Err (InvalidTag tag None).
Proof.
  intros Ht.
  assert (Hall : forallb (λ tag,
    match decode (TProduct wide_es) [byte_of_Z tag] with Ok (_, []) => true | _ => false end &&
    match wide_validation tag with Err (InvalidTag t None) => t =? tag | _ => false end) (seqZ 0 256) = true)
    by (vm_compute; reflexivity).
  eapply forallb_forall in Hall; [|apply list_elem_of_In, elem_of_seqZ; exact Ht].
  apply andb_prop in Hall as [H1 H2]. revert H1 H2.
  generalize (decode (TProduct wide_es) [byte_of_Z tag]) as r1, (wide_validation tag) as r2. intros r1 r2 H1 H2. split.
  - destruct r1 as [[v []]| | |]; try discriminate. by exists v.
  - destruct r2 as [[]|[| |t [|]| | |]| |]; try discriminate. by apply Z.eqb_eq in H2 as ->.
Qed.

Lemma validator_refuses_256_witness : wide_validation 7 = Err (InvalidTag 7 None).
Proof. apply (validator_refuses_256 7). vm_compute. split; [discriminate|reflexivity]. Defined.
End Examples.
