(* ===== verification/ValueOrd.v ===== *)
(** * The order of values (crates/sats/src/algebraic_value.rs and others)

    Indexes compare keys by the trait [Ord].  Its implementations for values
    are derived: by the position of the variant, then by the contents, and
    lists are compared element by element.  Floats are compared by a type of
    the crate decorum, which is a parameter: any total order, possibly with
    different bit patterns that compare as equal.  The lemmas show that the
    order of values is then total as well. *)

From Stdlib Require Import ZArith Lia.
From S2P Require Import Prelude Sats.
Local Open Scope Z_scope.

(** ** Orders *)

Class Ord (A : Type) := cmp : A → A → comparison.

(** The laws of an order, as seen from one element and among the elements of [P]. *)
Record ord_at {A} (f : A → A → comparison) (P : A → Prop) (x : A) : Prop := {
  oa_refl : f x x = Eq;
  oa_opp y : P y → f y x = CompOpp (f x y);
  oa_trans y z : P y → P z → f x y = Lt → f y z = Lt → f x z = Lt;
  oa_eq_l y z : P y → P z → f x y = Eq → f x z = f y z;
  oa_eq_r y z : P y → P z → f y z = Eq → f x y = f x z;
}.

Class OrdLaws (A : Type) `{!Ord A} := ord_all (x : A) : ord_at cmp (λ _, True) x.

Section laws.
Context {A : Type} {OrdI : Ord A} {LawI : OrdLaws A}.

Lemma cmp_refl (x : A) : cmp x x = Eq.
Proof. apply (oa_refl _ _ _ (ord_all x)). Qed.
Lemma cmp_opp (x y : A) : cmp y x = CompOpp (cmp x y).
Proof. by apply (oa_opp _ _ _ (ord_all x)). Qed.
Lemma cmp_trans (x y z : A) : cmp x y = Lt → cmp y z = Lt → cmp x z = Lt.
Proof. by apply (oa_trans _ _ _ (ord_all x)). Qed.
Lemma cmp_eq_l (x y z : A) : cmp x y = Eq → cmp x z = cmp y z.
Proof. by apply (oa_eq_l _ _ _ (ord_all x)). Qed.
Lemma cmp_eq_r (x y z : A) : cmp y z = Eq → cmp x y = cmp x z.
Proof. by apply (oa_eq_r _ _ _ (ord_all x)). Qed.
Lemma cmp_eq_sym (x y : A) : cmp x y = Eq → cmp y x = Eq.
Proof. intros H. by rewrite cmp_opp, H. Qed.
Lemma cmp_gt_lt (x y : A) : cmp x y = Gt → cmp y x = Lt.
Proof. intros H. by rewrite cmp_opp, H. Qed.
Lemma cmp_lt_gt (x y : A) : cmp x y = Lt → cmp y x = Gt.
Proof. intros H. by rewrite cmp_opp, H. Qed.
End laws.

(** ** Lists *)

(** Slices are compared lexicographically. *)
Definition list_cmp {A} (f : A → A → comparison) : list A → list A → comparison :=
  fix go l1 l2 :=
    match l1, l2 with
    | [], [] => Eq
    | [], _ :: _ => Lt
    | _ :: _, [] => Gt
    | x :: l1, y :: l2 => match f x y with Eq => go l1 l2 | c => c end
    end.

Lemma list_cmp_ord {A} (f : A → A → comparison) (l : list A) :
  Forall (ord_at f (λ _, True)) l → ord_at (list_cmp f) (λ _, True) l.
Proof.
  intros H. split.
  - induction H as [|x l Hx _ IH]; [done|]. simpl. by rewrite (oa_refl _ _ _ Hx).
  - intros y _. revert y. induction H as [|x l Hx _ IH]; intros [|y l2]; try done. simpl.
    rewrite (oa_opp _ _ _ Hx) by done. destruct (f x y); simpl; auto.
  - intros y z _ _. revert y z. induction H as [|x l Hx _ IH]; intros [|y l2] [|z l3]; try done. simpl.
    destruct (f x y) eqn:E1; [| |done].
    + rewrite (oa_eq_l _ _ _ Hx y z) by done. destruct (f y z); eauto.
    + intros _. destruct (f y z) eqn:E2; [| |done].
      * by rewrite <-(oa_eq_r _ _ _ Hx y z), E1.
      * by rewrite (oa_trans _ _ _ Hx y z).
  - intros y z _ _. revert y z. induction H as [|x l Hx _ IH]; intros [|y l2] [|z l3]; try done; simpl.
    destruct (f x y) eqn:E1; [|done..]. intros H2. rewrite (oa_eq_l _ _ _ Hx y z) by done. destruct (f y z); auto.
  - intros y z _ _. revert y z. induction H as [|x l Hx _ IH]; intros [|y l2] [|z l3]; try done; simpl.
    destruct (f y z) eqn:E1; [|done..]. intros H2. rewrite (oa_eq_r _ _ _ Hx y z) by done. destruct (f x z); auto.
Qed.

(** ** Primitive types *)

#[export] Instance Z_ord : Ord Z := Z.compare.
#[export] Instance Z_ord_laws : OrdLaws Z.
Proof.
  intros x. unfold cmp, Z_ord. split.
  - apply Z.compare_refl.
  - intros y _. apply Z.compare_antisym.
  - intros y z _ _. rewrite !Z.compare_lt_iff. lia.
  - intros y z _ _ ->%Z.compare_eq. done.
  - intros y z _ _ ->%Z.compare_eq. done.
Qed.

(** [false] is less than [true]. *)
#[export] Instance bool_ord : Ord bool := λ a b, cmp (Z.b2z a) (Z.b2z b).
#[export] Instance bool_ord_laws : OrdLaws bool.
Proof. intros []; split; intros; repeat match goal with b : bool |- _ => destruct b end; by vm_compute in *. Qed.

#[export] Instance byte_ord : Ord byte := λ a b, cmp (byte_to_Z a) (byte_to_Z b).
#[export] Instance byte_ord_laws : OrdLaws byte.
Proof.
  intros x. unfold cmp, byte_ord.
  split; [apply cmp_refl|intros; apply cmp_opp|intros y z _ _; apply cmp_trans|intros y z _ _; apply cmp_eq_l
    |intros y z _ _; apply cmp_eq_r].
Qed.

(** Strings are compared by their bytes. *)
#[export] Instance list_ord {A} `{!Ord A} : Ord (list A) := list_cmp cmp.
#[export] Instance list_ord_laws {A} `{!Ord A, !OrdLaws A} : OrdLaws (list A).
Proof. intros l. apply list_cmp_ord, Forall_true. apply ord_all. Qed.

(** [decorum::Total]; values are the bits. *)
Class FloatOrd := float_cmp : FloatTy → Z → Z → comparison.
Class FloatOrdLaws `{!FloatOrd} := float_ord k x : ord_at (float_cmp k) (λ _, True) x.

(** ** Values *)

(** The position of a variant. *)
Definition int_rank (k : IntTy) : Z :=
  match k with
  | I8 => 0 | U8 => 1 | I16 => 2 | U16 => 3 | I32 => 4 | U32 => 5
  | I64 => 6 | U64 => 7 | I128 => 8 | U128 => 9 | I256 => 10 | U256 => 11
  end.
Definition float_rank (k : FloatTy) : Z := match k with F32 => 0 | F64 => 1 end.

Definition av_rank (v : AlgebraicValue) : Z :=
  match v with
  | VMin => 0
  | VSum _ => 1
  | VProduct _ => 2
  | VArray _ => 3
  | VBool _ => 4
  | VInt k _ => 5 + int_rank k
  | VFloat k _ => 17 + float_rank k
  | VString _ => 19
  | VMax => 20
  end.

Definition array_rank (a : ArrayValue) : Z :=
  match a with
  | ASum _ => 0
  | AProduct _ => 1
  | ABool _ => 2
  | AInt k _ => 3 + int_rank k
  | AFloat k _ => 15 + float_rank k
  | AString _ => 17
  | AArray _ => 18
  end.

Section values.
Context {FloatI : FloatOrd}.

(** [Ord] for [AlgebraicValue], [SumValue], [ProductValue] and [ArrayValue].
    The last cases are of different variants. *)
Fixpoint av_cmp (v1 v2 : AlgebraicValue) {struct v1} : comparison :=
  match Z.compare (av_rank v1) (av_rank v2) with
  | Eq =>
      match v1, v2 with
      | VSum s1, VSum s2 => sum_cmp s1 s2
      | VProduct p1, VProduct p2 => product_cmp p1 p2
      | VArray a1, VArray a2 => array_cmp a1 a2
      | VBool b1, VBool b2 => cmp b1 b2
      | VInt _ z1, VInt _ z2 => cmp z1 z2
      | VFloat k z1, VFloat _ z2 => float_cmp k z1 z2
      | VString s1, VString s2 => cmp s1 s2
      | _, _ => Eq
      end
  | c => c
  end
with sum_cmp (s1 s2 : SumValue) {struct s1} : comparison :=
  match s1, s2 with
  | MkSumValue tag1 v1, MkSumValue tag2 v2 => match cmp tag1 tag2 with Eq => av_cmp v1 v2 | c => c end
  end
with product_cmp (p1 p2 : ProductValue) {struct p1} : comparison :=
  match p1, p2 with
  | MkProductValue l1, MkProductValue l2 => list_cmp av_cmp l1 l2
  end
with array_cmp (a1 a2 : ArrayValue) {struct a1} : comparison :=
  match Z.compare (array_rank a1) (array_rank a2) with
  | Eq =>
      match a1, a2 with
      | ASum l1, ASum l2 => list_cmp sum_cmp l1 l2
      | AProduct l1, AProduct l2 => list_cmp product_cmp l1 l2
      | ABool l1, ABool l2 => cmp l1 l2
      | AInt _ l1, AInt _ l2 => cmp l1 l2
      | AFloat k l1, AFloat _ l2 => list_cmp (float_cmp k) l1 l2
      | AString l1, AString l2 => cmp l1 l2
      | AArray l1, AArray l2 => list_cmp array_cmp l1 l2
      | _, _ => Eq
      end
  | c => c
  end.
End values.

(** ** The order of values is total *)

(** [derive(Ord)] of an enum: the variants first. *)
Lemma ranked_ord {A} (rank : A → Z) (f g : A → A → comparison) (x : A) :
  (∀ x y, f x y = match Z.compare (rank x) (rank y) with Eq => g x y | c => c end) →
  ord_at g (λ y, rank y = rank x) x → ord_at f (λ _, True) x.
Proof.
  intros Hf [G1 G2 G3 G4 G5]. split.
  - by rewrite Hf, Z.compare_refl.
  - intros y _. rewrite !Hf, (Z.compare_antisym (rank x)). destruct (Z.compare_spec (rank x) (rank y)); try done. by apply G2.
  - intros y z _ _. rewrite !Hf. destruct (Z.compare_spec (rank x) (rank y)), (Z.compare_spec (rank y) (rank z)),
      (Z.compare_spec (rank x) (rank z)); try done; try lia. apply G3; congruence.
  - intros y z _ _. rewrite !Hf. destruct (Z.compare_spec (rank x) (rank y)) as [E| |]; try done.
    rewrite E. destruct (Z.compare_spec (rank y) (rank z)); try done. apply G4; congruence.
  - intros y z _ _. rewrite !Hf. destruct (Z.compare_spec (rank y) (rank z)) as [E| |]; try done.
    rewrite E. destruct (Z.compare_spec (rank x) (rank z)); try done. apply G5; congruence.
Qed.

(** A variant with contents that are compared by [h]. *)
Lemma variant_ord {A B} (c : A → B) (h : A → A → comparison) (g : B → B → comparison) (P : B → Prop) x :
  (∀ b, P b → ∃ a, b = c a) → P (c x) → (∀ a a', g (c a) (c a') = h a a') →
  ord_at h (λ _, True) x → ord_at g P (c x).
Proof.
  intros Hc Hx Hg [H1 H2 H3 H4 H5]. split.
  - by rewrite Hg.
  - intros y [y' ->]%Hc. rewrite !Hg. by apply H2.
  - intros y z [y' ->]%Hc [z' ->]%Hc. rewrite !Hg. by apply H3.
  - intros y z [y' ->]%Hc [z' ->]%Hc. rewrite !Hg. by apply H4.
  - intros y z [y' ->]%Hc [z' ->]%Hc. rewrite !Hg. by apply H5.
Qed.

Lemma int_rank_range k : 0 ≤ int_rank k < 12.
Proof. by destruct k. Qed.
Lemma float_rank_range k : 0 ≤ float_rank k < 2.
Proof. by destruct k. Qed.

Lemma int_rank_inj k k' : int_rank k = int_rank k' → k = k'.
Proof. by destruct k, k'. Qed.
Lemma float_rank_inj k k' : float_rank k = float_rank k' → k = k'.
Proof. by destruct k, k'. Qed.

(** The ranks of the variants are different. *)
Ltac rank_ranges :=
  repeat match goal with
         | k : IntTy |- _ => lazymatch goal with _ : 0 ≤ int_rank k < 12 |- _ => fail | _ => pose proof (int_rank_range k) end
         | k : FloatTy |- _ => lazymatch goal with _ : 0 ≤ float_rank k < 2 |- _ => fail | _ => pose proof (float_rank_range k) end
         end.
Ltac same_variant :=
  let H := fresh "Hrank" in
  intros [] H; unfold av_rank, array_rank in H; rank_ranges; try lia;
  try match type of H with
      | _ + int_rank ?a = _ + int_rank ?b => assert (a = b) as -> by (apply int_rank_inj; lia)
      | _ + float_rank ?a = _ + float_rank ?b => assert (a = b) as -> by (apply float_rank_inj; lia)
      end;
  solve [done|by eexists].

Section value_laws.
Context {FloatI : FloatOrd} {FLawI : FloatOrdLaws}.

Definition av_contents (v1 v2 : AlgebraicValue) : comparison :=
  match v1, v2 with
  | VSum s1, VSum s2 => sum_cmp s1 s2
  | VProduct p1, VProduct p2 => product_cmp p1 p2
  | VArray a1, VArray a2 => array_cmp a1 a2
  | VBool b1, VBool b2 => cmp b1 b2
  | VInt _ z1, VInt _ z2 => cmp z1 z2
  | VFloat k z1, VFloat _ z2 => float_cmp k z1 z2
  | VString s1, VString s2 => cmp s1 s2
  | _, _ => Eq
  end.
Definition array_contents (a1 a2 : ArrayValue) : comparison :=
  match a1, a2 with
  | ASum l1, ASum l2 => list_cmp sum_cmp l1 l2
  | AProduct l1, AProduct l2 => list_cmp product_cmp l1 l2
  | ABool l1, ABool l2 => cmp l1 l2
  | AInt _ l1, AInt _ l2 => cmp l1 l2
  | AFloat k l1, AFloat _ l2 => list_cmp (float_cmp k) l1 l2
  | AString l1, AString l2 => cmp l1 l2
  | AArray l1, AArray l2 => list_cmp array_cmp l1 l2
  | _, _ => Eq
  end.

Lemma av_cmp_ranked v1 v2 :
  av_cmp v1 v2 = match Z.compare (av_rank v1) (av_rank v2) with Eq => av_contents v1 v2 | c => c end.
Proof. by destruct v1. Qed.
Lemma array_cmp_ranked a1 a2 :
  array_cmp a1 a2 = match Z.compare (array_rank a1) (array_rank a2) with Eq => array_contents a1 a2 | c => c end.
Proof. by destruct a1. Qed.

Lemma unit_ord {A} (g : A → A → comparison) (P : A → Prop) x : (∀ y, P y → y = x) → g x x = Eq → ord_at g P x.
Proof.
  intros HP Hg. split; [done|..].
  - intros y ->%HP. by rewrite Hg.
  - intros y z ->%HP ->%HP. by rewrite Hg.
  - intros y z ->%HP ->%HP. by rewrite Hg.
  - intros y z ->%HP ->%HP. by rewrite Hg.
Qed.

Lemma value_ord v : ord_at av_cmp (λ _, True) v.
Proof.
  apply (AlgebraicValue_mut (ord_at av_cmp (λ _, True)) (ord_at sum_cmp (λ _, True))
    (ord_at product_cmp (λ _, True)) (ord_at array_cmp (λ _, True))).
  all: intros; try (eapply ranked_ord; [apply av_cmp_ranked|]); try (eapply ranked_ord; [apply array_cmp_ranked|]).
  - apply unit_ord; [same_variant|done].
  - apply unit_ord; [same_variant|done].
  - apply (variant_ord VSum sum_cmp); [same_variant|done..].
  - apply (variant_ord VProduct product_cmp); [same_variant|done..].
  - apply (variant_ord VArray array_cmp); [same_variant|done..].
  - apply (variant_ord VBool cmp); [same_variant|done..|apply ord_all].
  - apply (variant_ord (VInt k) cmp); [same_variant|done..|apply ord_all].
  - apply (variant_ord (VFloat k) (float_cmp k)); [same_variant|done..|apply float_ord].
  - apply (variant_ord VString cmp); [same_variant|done..|apply ord_all].
  - apply (ranked_ord (λ s, match s with MkSumValue t _ => t end)
      _ (λ s1 s2, match s1, s2 with MkSumValue _ v1, MkSumValue _ v2 => av_cmp v1 v2 end)); [by intros [] []|].
    apply (variant_ord (MkSumValue tag) av_cmp); [|done..]. intros [tag' v'] ->. by eexists.
  - apply (variant_ord MkProductValue (list_cmp av_cmp)); [|done..|by apply list_cmp_ord]. intros [l'] _. by eexists.
  - apply (variant_ord ASum (list_cmp sum_cmp)); [same_variant|done..|by apply list_cmp_ord].
  - apply (variant_ord AProduct (list_cmp product_cmp)); [same_variant|done..|by apply list_cmp_ord].
  - apply (variant_ord ABool cmp); [same_variant|done..|apply ord_all].
  - apply (variant_ord (AInt k) cmp); [same_variant|done..|apply ord_all].
  - apply (variant_ord (AFloat k) (list_cmp (float_cmp k))); [same_variant|done..|].
    apply list_cmp_ord, Forall_true. apply float_ord.
  - apply (variant_ord AString cmp); [same_variant|done..|apply ord_all].
  - apply (variant_ord AArray (list_cmp array_cmp)); [same_variant|done..|by apply list_cmp_ord].
Qed.
End value_laws.

#[export] Instance av_ord `{!FloatOrd} : Ord AlgebraicValue := av_cmp.
#[export] Instance av_ord_laws `{!FloatOrd, !FloatOrdLaws} : OrdLaws AlgebraicValue.
Proof. intros v. apply value_ord. Qed.

Module Examples.
(** The bits as integers: an order on floats, used by examples only. *)
#[local] Instance bits_ord : FloatOrd := λ _, Z.compare.
#[local] Instance bits_ord_laws : FloatOrdLaws.
Proof. intros k x. apply (ord_all x). Qed.
End Examples.
