(* ===== verification/BTreeMap.v ===== *)
(** * Ordered maps

    [std::collections::BTreeMap], which index structures are made of, as a list
    of pairs in the order of the keys.  Keys that compare as equal are the same
    key; the map keeps the one that was inserted first. *)

From Stdlib Require Import ZArith Lia.
From stdpp Require Import sorting list.
From S2P Require Import Prelude ValueOrd.
Local Open Scope Z_scope.

(** [core::ops::Bound]. *)
Inductive Bound (K : Type) :=
| Included (k : K)
| Excluded (k : K)
| Unbounded.
Arguments Included {K} k.
Arguments Excluded {K} k.
Arguments Unbounded {K}.

Definition bound_map {K L} (f : K → L) (b : Bound K) : Bound L :=
  match b with Included k => Included (f k) | Excluded k => Excluded (f k) | Unbounded => Unbounded end.

Section btree.
Context {K V : Type} {OrdI : Ord K}.

Fixpoint bt_get (m : list (K * V)) (k : K) : option V :=
  match m with
  | [] => None
  | (k', v) :: m => match cmp k k' with Lt => None | Eq => Some v | Gt => bt_get m k end
  end.

Fixpoint bt_insert (m : list (K * V)) (k : K) (v : V) : list (K * V) :=
  match m with
  | [] => [(k, v)]
  | (k', v') :: m' =>
      match cmp k k' with
      | Lt => (k, v) :: m
      | Eq => (k', v) :: m'
      | Gt => (k', v') :: bt_insert m' k v
      end
  end.

Fixpoint bt_remove (m : list (K * V)) (k : K) : list (K * V) :=
  match m with
  | [] => []
  | (k', v') :: m' =>
      match cmp k k' with
      | Lt => m
      | Eq => m'
      | Gt => (k', v') :: bt_remove m' k
      end
  end.

(** The keys in a range. *)
Definition above (lo : Bound K) (k : K) : bool :=
  match lo with
  | Unbounded => true
  | Included b => match cmp b k with Gt => false | _ => true end
  | Excluded b => match cmp b k with Lt => true | _ => false end
  end.
Definition below (hi : Bound K) (k : K) : bool :=
  match hi with
  | Unbounded => true
  | Included b => match cmp k b with Gt => false | _ => true end
  | Excluded b => match cmp k b with Lt => true | _ => false end
  end.
Definition in_range (lo hi : Bound K) (k : K) : bool := above lo k && below hi k.

(** The ranges that [BTreeMap::range] panics on. *)
Definition bad_range (lo hi : Bound K) : bool :=
  match lo, hi with
  | Excluded a, Excluded b => match cmp a b with Lt => false | _ => true end
  | Included a, Included b | Included a, Excluded b | Excluded a, Included b => match cmp a b with Gt => true | _ => false end
  | _, _ => false
  end.

Definition bt_range {E} (m : list (K * V)) (lo hi : Bound K) : result E (list (K * V)) :=
  if bad_range lo hi then Panic else Ok (filter (λ e, in_range lo hi e.1 = true) m).

(** ** Laws *)

Definition key_lt (e e' : K * V) : Prop := cmp e.1 e'.1 = Lt.
Definition bt_ok (m : list (K * V)) : Prop := StronglySorted key_lt m.

Context {LawI : OrdLaws K}.

Lemma bt_ok_nil : bt_ok [].
Proof. constructor. Qed.

(** The pair of a key splits the map. *)
Lemma bt_get_split m k v :
  bt_ok m → bt_get m k = Some v →
  ∃ m1 m2 k', m = m1 ++ (k', v) :: m2 ∧ cmp k k' = Eq ∧
    (∀ w, bt_insert m k w = m1 ++ (k', w) :: m2) ∧ bt_remove m k = m1 ++ m2.
Proof using LawI.
  induction 1 as [|[k' v'] m _ IH Hall]; [done|]. simpl. destruct (cmp k k') eqn:Hc; [|done|].
  - intros [= ->]. by exists [], m, k'.
  - intros H. destruct (IH H) as (m1 & m2 & k'' & -> & Hk & Hi & Hr). exists ((k', v') :: m1), m2, k''.
    split_and!; [done|done| |by rewrite Hr]. intros w. by rewrite Hi.
Qed.

(** A key that is not in the map. *)
Lemma bt_get_None m k :
  bt_ok m → bt_get m k = None →
  Forall (λ e, cmp k e.1 ≠ Eq) m ∧
  ∃ m1 m2, m = m1 ++ m2 ∧ Forall (λ e, cmp e.1 k = Lt) m1 ∧ Forall (λ e, cmp k e.1 = Lt) m2 ∧
    (∀ v, bt_insert m k v = m1 ++ (k, v) :: m2) ∧ bt_remove m k = m.
Proof using LawI.
  induction 1 as [|[k' v'] m _ IH Hall].
  { intros _. split; [done|]. by exists [], []. }
  simpl. destruct (cmp k k') eqn:Hc; [done| |].
  - intros _. assert (Hlt : Forall (λ e : K * V, cmp k e.1 = Lt) m).
    { eapply Forall_impl; [exact Hall|]. intros [k'' v''] H. by eapply cmp_trans. }
    split.
    + constructor; [cbn; by rewrite Hc|]. eapply Forall_impl; [exact Hlt|]. by intros ? ->.
    + exists [], ((k', v') :: m). split_and!; try done. by constructor.
  - intros H. destruct (IH H) as (Hne & m1 & m2 & -> & H1 & H2 & Hi & Hr). split; [constructor; [cbn; by rewrite Hc|done]|].
    exists ((k', v') :: m1), m2. split_and!; [done|constructor; [by apply cmp_gt_lt|done]|done| |by rewrite Hr].
    intros v. by rewrite Hi.
Qed.

Lemma bt_ok_app m1 m2 :
  bt_ok (m1 ++ m2) ↔ bt_ok m1 ∧ bt_ok m2 ∧ Forall (λ e, Forall (key_lt e) m2) m1.
Proof.
  unfold bt_ok. induction m1 as [|e m1 IH]; simpl.
  { split; [intros; split_and!; [constructor|done|constructor]|by intros (_ & ? & _)]. }
  split.
  - intros [H1 [H2 H3]%Forall_app]%StronglySorted_inv. apply IH in H1 as (? & ? & ?). split_and!; [by constructor|done|by constructor].
  - intros ([Ha Hb]%StronglySorted_inv & H2 & [Hc Hd]%Forall_cons). constructor; [by apply IH|]. by apply Forall_app.
Qed.

Lemma bt_insert_ok m k v : bt_ok m → bt_ok (bt_insert m k v).
Proof using LawI.
  intros Hm. destruct (bt_get m k) as [w|] eqn:Hg.
  - destruct (bt_get_split m k w Hm Hg) as (m1 & m2 & k' & -> & Hk & -> & _). clear Hg.
    apply bt_ok_app in Hm as (H1 & [H2 H3]%StronglySorted_inv & H4). apply bt_ok_app. split_and!; [done|by constructor|].
    eapply Forall_impl; [exact H4|]. intros e [Ha Hb]%Forall_cons. by constructor.
  - destruct (bt_get_None m k Hm Hg) as (_ & m1 & m2 & -> & H1 & H2 & -> & _). clear Hg.
    apply bt_ok_app in Hm as (O1 & O2 & O3). apply bt_ok_app. split_and!; [done|by constructor|].
    apply Forall_forall. intros e He. constructor; [by apply (proj1 (Forall_forall _ _) H1)|].
    by apply (proj1 (Forall_forall _ _) O3).
Qed.

Lemma bt_remove_ok m k : bt_ok m → bt_ok (bt_remove m k).
Proof using LawI.
  intros Hm. destruct (bt_get m k) as [w|] eqn:Hg.
  - destruct (bt_get_split m k w Hm Hg) as (m1 & m2 & k' & -> & Hk & _ & ->). clear Hg.
    apply bt_ok_app in Hm as (H1 & [H2 H3]%StronglySorted_inv & H4). apply bt_ok_app. split_and!; [done|done|].
    eapply Forall_impl; [exact H4|]. by intros e [Ha Hb]%Forall_cons.
  - by destruct (bt_get_None m k Hm Hg) as (_ & m1 & m2 & _ & _ & _ & _ & ->).
Qed.

(** In a map only the key itself compares as equal to it. *)
Lemma bt_other m1 m2 k v e :
  bt_ok (m1 ++ (k, v) :: m2) → e ∈ m1 ++ m2 → cmp k e.1 ≠ Eq.
Proof using LawI.
  intros (H1 & [H2 H3]%StronglySorted_inv & H4)%bt_ok_app He. apply elem_of_app in He as [He|He].
  - apply (proj1 (Forall_forall _ _) H4), Forall_cons in He as [He _]. apply cmp_lt_gt in He. cbn in He. by rewrite He.
  - apply (proj1 (Forall_forall _ _) H3) in He. cbn in He. unfold key_lt in He. cbn in He. by rewrite He.
Qed.
End btree.
