(* ===== verification/IndexMaps.v ===== *)
(** * The maps of indexes (crates/table/src/table_index)

    The structures that indexes keep their keys in: [MultiMap] and [UniqueMap]
    over ordered maps, and the direct indexes, arrays of pointers by key.  Each
    is shown to be the collection of its pairs of a key and a pointer. *)

From Stdlib Require Import ZArith Lia.
From stdpp Require Import sorting list.
From S2P Require Import Prelude Mem Indexes PointerMap ValueOrd BTreeMap.
Local Open Scope Z_scope.
Local Open Scope result_scope.

(** ** [MultiMap] (multimap.rs) *)

Section multi_map.
Context {K V : Type} {OrdI : Ord K} {EqV : EqDecision V}.

Definition MultiMap : Type := list (K * list V).

Definition mm_insert (m : MultiMap) (key : K) (val : V) : MultiMap :=
  bt_insert m key (default [] (bt_get m key) ++ [val]).

Definition mm_delete (m : MultiMap) (key : K) (val : V) : bool * MultiMap :=
  match bt_get m key with
  | Some vset =>
      match list_find (λ v, v = val) vset with
      | Some (idx, _) => (true, bt_insert m key (swap_remove idx vset))
      | None => (false, m)
      end
  | None => (false, m)
  end.

Definition mm_values_in_point (m : MultiMap) (key : K) : list V := default [] (bt_get m key).

(** [MultiMapRangeIter::next]: the state is what is left of the outer and of the
    inner iterator. *)
Fixpoint mm_next (outer : MultiMap) (inner : option (list V)) : option (V * (MultiMap * option (list V))) :=
  match inner with
  | Some (val :: inner) => Some (val, (outer, Some inner))
  | _ =>
      match outer with
      | [] => None
      | (_, next) :: outer => mm_next outer (Some next)
      end
  end.

(** The iterator, run to its end. *)
Fixpoint mm_collect (fuel : nat) (outer : MultiMap) (inner : option (list V)) : list V :=
  match fuel with
  | O => []
  | S fuel =>
      match mm_next outer inner with
      | None => []
      | Some (val, (outer, inner)) => val :: mm_collect fuel outer inner
      end
  end.

(** The total number of entries. *)
Definition mm_len (m : MultiMap) : Z := foldr Z.add 0 (map (λ e, len e.2) m).
Definition mm_num_keys (m : MultiMap) : Z := len m.

Definition mm_values_in_range {E} (m : MultiMap) (lo hi : Bound K) : result E (list V) :=
  let* outer := bt_range m lo hi in
  Ok (mm_collect (S (Z.to_nat (mm_len outer))) outer None).

Definition mm_clear (m : MultiMap) : MultiMap := [].
End multi_map.
Arguments MultiMap : clear implicits.

(** ** [UniqueMap] (uniquemap.rs) *)

Section unique_map.
Context {K V : Type} {OrdI : Ord K}.

Definition UniqueMap : Type := list (K * V).

(** The error is the value that is there. *)
Definition um_insert (key : K) (val : V) : st UniqueMap V unit := λ m,
  match bt_get m key with
  | None => (Ok tt, bt_insert m key val)
  | Some old => (Err old, m)
  end.

Definition um_delete (m : UniqueMap) (key : K) : bool * UniqueMap :=
  (match bt_get m key with Some _ => true | None => false end, bt_remove m key).

Definition um_values_in_point (m : UniqueMap) (key : K) : list V :=
  match bt_get m key with Some v => [v] | None => [] end.

Definition um_values_in_range {E} (m : UniqueMap) (lo hi : Bound K) : result E (list V) :=
  let* l := bt_range m lo hi in Ok (map snd l).

Definition um_len (m : UniqueMap) : Z := len m.
Definition um_num_keys (m : UniqueMap) : Z := um_len m.
Definition um_clear (m : UniqueMap) : UniqueMap := [].

(** The first key of [other] that is in the map with a value that is not ignored. *)
Fixpoint um_can_merge (m : UniqueMap) (other : list (K * V)) (ignore : V → bool) : result V unit :=
  match other with
  | [] => Ok tt
  | (key, _) :: other =>
      match bt_get m key with
      | Some val => if negb (ignore val) then Err val else um_can_merge m other ignore
      | None => um_can_merge m other ignore
      end
  end.
End unique_map.
Arguments UniqueMap : clear implicits.

(** ** [UniqueDirectIndex] (unique_direct_index.rs) *)

Definition KEYS_PER_INNER : Z := 512.
Definition NONE_PTR : Z := RowPointer_new false 0 0 TX_STATE.

(** Inner indexes have [KEYS_PER_INNER] slots. *)
Record UniqueDirectIndex := { udi_outer : list (option (list Z)); udi_len : Z }.

Definition udi_default : UniqueDirectIndex := {| udi_outer := []; udi_len := 0 |}.
Definition split_key (key : Z) : Z * Z := (key / KEYS_PER_INNER, key mod KEYS_PER_INNER).
(** Allocated as zeros, which are empty slots. *)
Definition inner_new : list Z := replicate (Z.to_nat KEYS_PER_INNER) 0.

(** [Vec::resize] to a length that is not smaller. *)
Definition resize_none (outer : list (option (list Z))) (n : Z) : list (option (list Z)) :=
  outer ++ replicate (Z.to_nat n - length outer) None.

(** The inner array has a slot for every inner key. *)
Definition udi_insert (key val : Z) : st UniqueDirectIndex Z unit := λ u,
  let '(key_outer, key_inner) := split_key key in
  let outer := resize_none (udi_outer u) (Z.max (len (udi_outer u)) (key_outer + 1)) in
  let inner := default inner_new (default None (outer !! Z.to_nat key_outer)) in
  let outer := <[Z.to_nat key_outer := Some inner]> outer in
  match inner !! Z.to_nat key_inner with
  | None => (Panic, u)
  | Some in_slot =>
      if in_slot =? NONE_PTR then
        let inner := <[Z.to_nat key_inner := with_reserved_bit val true]> inner in
        (Ok tt, {| udi_outer := <[Z.to_nat key_outer := Some inner]> outer; udi_len := udi_len u + 1 |})
      else (Err (with_reserved_bit in_slot false), {| udi_outer := outer; udi_len := udi_len u |})
  end.

(** The length after a deletion; the subtraction is checked. *)
Definition udi_delete {E} (key : Z) : st UniqueDirectIndex E bool := λ u,
  let '(key_outer, key_inner) := split_key key in
  match udi_outer u !! Z.to_nat key_outer with
  | Some (Some inner) =>
      match inner !! Z.to_nat key_inner with
      | None => (Panic, u)
      | Some old_val =>
          let deleted := negb (old_val =? NONE_PTR) in
          let outer := <[Z.to_nat key_outer := Some (<[Z.to_nat key_inner := NONE_PTR]> inner)]> (udi_outer u) in
          if udi_len u <? Z.b2z deleted then (Panic, u)
          else (Ok deleted, {| udi_outer := outer; udi_len := udi_len u - Z.b2z deleted |})
      end
  | _ => (Ok false, u)
  end.

(** The slot of a key, if it is not empty. *)
Definition udi_slot (u : UniqueDirectIndex) (key : Z) : option Z :=
  let '(outer_key, inner_key) := split_key key in
  match udi_outer u !! Z.to_nat outer_key with
  | Some (Some inner) =>
      match inner !! Z.to_nat inner_key with
      | Some slot => if slot =? NONE_PTR then None else Some slot
      | None => None
      end
  | _ => None
  end.

(** [UniqueDirectIndexPointIter]. *)
Definition point_iter (point : option Z) : list Z :=
  match point with Some ptr => [with_reserved_bit ptr false] | None => [] end.

Definition udi_seek_point (u : UniqueDirectIndex) (key : Z) : list Z := point_iter (udi_slot u key).

(** [UniqueDirectIndexRangeIter], run to its end.  Each round advances the start. *)
Fixpoint udi_range_iter {E} (fuel : nat) (outer : list (option (list Z))) (start end_ : Z) : result E (list Z) :=
  match fuel with
  | O => OutOfFuel
  | S fuel =>
      if end_ <=? start then Ok []
      else
        let '(outer_key, inner_key) := split_key start in
        let* inner := vec_get outer outer_key in
        match inner with
        | None =>
            let* start := add_u 64 start KEYS_PER_INNER in
            udi_range_iter fuel outer start end_
        | Some inner =>
            let* ptr := vec_get inner inner_key in
            let* start := add_u 64 start 1 in
            let* rest := udi_range_iter fuel outer start end_ in
            Ok (if ptr =? NONE_PTR then rest else with_reserved_bit ptr false :: rest)
        end
  end.

(** The start and the end of a range of keys; [max_key] stands for no bound. *)
Definition range_start {E} (lo : Bound Z) : result E Z :=
  match lo with Included s => Ok s | Excluded s => add_u 64 s 1 | Unbounded => Ok 0 end.
Definition range_end {E} (hi : Bound Z) (max_key : Z) : result E Z :=
  match hi with Included e => add_u 64 e 1 | Excluded e => Ok e | Unbounded => Ok max_key end.

Definition udi_seek_range {E} (u : UniqueDirectIndex) (lo hi : Bound Z) : result E (list Z) :=
  let* max_key := mul_u 64 (len (udi_outer u)) KEYS_PER_INNER in
  let* start := range_start lo in
  let* end_ := range_end hi max_key in
  let end_ := Z.min end_ max_key in
  let start := Z.min start end_ in
  udi_range_iter (S (Z.to_nat (end_ - start))) (udi_outer u) start end_.

Definition udi_clear (u : UniqueDirectIndex) : UniqueDirectIndex := udi_default.

(** The slots of both that are taken, in order. *)
Fixpoint merge_slots (slots_s slots_o : list Z) (ignore : Z → bool) : result Z unit :=
  match slots_s, slots_o with
  | slot_s :: slots_s, slot_o :: slots_o =>
      let ptr_s := with_reserved_bit slot_s false in
      if negb (slot_s =? NONE_PTR) && negb (slot_o =? NONE_PTR) && negb (ignore ptr_s) then Err ptr_s
      else merge_slots slots_s slots_o ignore
  | _, _ => Ok tt
  end.
Fixpoint merge_inners (outer_s outer_o : list (option (list Z))) (ignore : Z → bool) : result Z unit :=
  match outer_s, outer_o with
  | Some inner_s :: outer_s, Some inner_o :: outer_o =>
      let* _ := merge_slots inner_s inner_o ignore in merge_inners outer_s outer_o ignore
  | _ :: outer_s, _ :: outer_o => merge_inners outer_s outer_o ignore
  | _, _ => Ok tt
  end.
Definition udi_can_merge (u other : UniqueDirectIndex) (ignore : Z → bool) : result Z unit :=
  merge_inners (udi_outer u) (udi_outer other) ignore.

(** ** [UniqueDirectFixedCapIndex] (unique_direct_fixed_cap_index.rs) *)

Record UniqueDirectFixedCapIndex := { fci_array : list Z; fci_len : Z }.

Definition fci_new (cap : Z) : UniqueDirectFixedCapIndex :=
  {| fci_array := replicate (Z.to_nat cap) NONE_PTR; fci_len := 0 |}.
Definition fci_clone_structure (f : UniqueDirectFixedCapIndex) : UniqueDirectFixedCapIndex := fci_new (len (fci_array f)).

(** A key beyond the capacity panics. *)
Definition fci_insert (key val : Z) : st UniqueDirectFixedCapIndex Z unit := λ f,
  match fci_array f !! Z.to_nat key with
  | None => (Panic, f)
  | Some in_slot =>
      if in_slot =? NONE_PTR then
        (Ok tt, {| fci_array := <[Z.to_nat key := with_reserved_bit val true]> (fci_array f); fci_len := fci_len f + 1 |})
      else (Err (with_reserved_bit in_slot false), f)
  end.

Definition fci_delete {E} (key : Z) : st UniqueDirectFixedCapIndex E bool := λ f,
  match fci_array f !! Z.to_nat key with
  | None => (Ok false, f)
  | Some old_val =>
      let deleted := negb (old_val =? NONE_PTR) in
      if fci_len f <? Z.b2z deleted then (Panic, f)
      else (Ok deleted, {| fci_array := <[Z.to_nat key := NONE_PTR]> (fci_array f); fci_len := fci_len f - Z.b2z deleted |})
  end.

Definition fci_slot (f : UniqueDirectFixedCapIndex) (key : Z) : option Z :=
  match fci_array f !! Z.to_nat key with
  | Some slot => if slot =? NONE_PTR then None else Some slot
  | None => None
  end.
Definition fci_seek_point (f : UniqueDirectFixedCapIndex) (key : Z) : list Z := point_iter (fci_slot f key).

(** [UniqueDirectFixedCapIndexRangeIter], run to its end. *)
Definition fci_range_iter (slice : list Z) : list Z :=
  map (λ ptr, with_reserved_bit ptr false) (filter (λ slot, slot ≠ NONE_PTR) slice).

(** A range that does not lie in the array gives nothing. *)
Definition fci_seek_range {E} (f : UniqueDirectFixedCapIndex) (lo hi : Bound Z) : result E (list Z) :=
  let* end_ := range_end hi (len (fci_array f)) in
  let* start := range_start lo in
  let start := Z.min start end_ in
  Ok (fci_range_iter
        (if end_ <=? len (fci_array f)
         then take (Z.to_nat (end_ - start)) (drop (Z.to_nat start) (fci_array f)) else [])).

Definition fci_clear (f : UniqueDirectFixedCapIndex) : UniqueDirectFixedCapIndex :=
  {| fci_array := replicate (length (fci_array f)) NONE_PTR; fci_len := 0 |}.
Definition fci_can_merge (f other : UniqueDirectFixedCapIndex) (ignore : Z → bool) : result Z unit :=
  merge_slots (fci_array f) (fci_array other) ignore.

(** ** Entries *)

(** The structures are compared by what can be seen of their pairs: the values
    of the keys that a predicate selects, which does not tell keys apart that
    compare as equal. *)
Section entries.
Context {K V : Type} {OrdI : Ord K} {LawI : OrdLaws K}.
Implicit Types (P : K → bool) (l : list (K * V)).

Definition key_pred P : Prop := ∀ k k', cmp k k' = Eq → P k = P k'.
Definition select P l : list V := map snd (filter (λ e, P e.1 = true) l).
Definition same_entries l1 l2 : Prop := ∀ P, key_pred P → select P l1 ≡ₚ select P l2.

Definition at_key (k k' : K) : bool := match cmp k k' with Eq => true | _ => false end.

(** The values of keys of both. *)
Definition shared_key l1 l2 (w : V) : Prop := ∃ k k' v, (k, w) ∈ l1 ∧ (k', v) ∈ l2 ∧ cmp k' k = Eq.

(** A check finds a value that counts if there is one. *)
Definition finds (r : result V unit) (shared : V → Prop) (ignore : V → bool) : Prop :=
  match r with
  | Ok _ => ∀ w, shared w → ignore w = true
  | Err w => ignore w = false ∧ shared w
  | _ => False
  end.
Lemma finds_iff r shared shared' ignore : (∀ w, shared w ↔ shared' w) → finds r shared ignore → finds r shared' ignore.
Proof. intros H. destruct r as [[]|w| |]; cbn; [|by rewrite H|done..]. intros Hr w Hw. by apply Hr, H. Qed.
Lemma finds_or r (sh1 sh2 : V → Prop) ignore :
  (∀ w, sh1 w → ignore w = true) → finds r sh2 ignore → finds r (λ w, sh1 w ∨ sh2 w) ignore.
Proof. intros H. destruct r as [[]|w| |]; cbn; [|intros [? ?]; by eauto|done..]. intros Hr w [Hw|Hw]; eauto. Qed.

Lemma at_key_pred k : key_pred (at_key k).
Proof using LawI. intros k1 k2 H. unfold at_key. by rewrite (cmp_eq_r k k1 k2 H). Qed.

Lemma in_range_pred lo hi : key_pred (in_range lo hi).
Proof using LawI.
  intros k1 k2 H. unfold in_range. f_equal.
  - destruct lo as [b|b|]; simpl; by rewrite ?(cmp_eq_r b k1 k2 H).
  - destruct hi as [b|b|]; simpl; by rewrite ?(cmp_eq_l k1 k2 b H).
Qed.

Lemma all_pred : key_pred (λ _, true).
Proof. done. Qed.

Lemma select_app P l1 l2 : select P (l1 ++ l2) = select P l1 ++ select P l2.
Proof. unfold select. by rewrite filter_app, map_app. Qed.
Lemma select_cons P k v l : select P ((k, v) :: l) = (if P k then [v] else []) ++ select P l.
Proof. unfold select. rewrite filter_cons. simpl. destruct (P k); [by rewrite decide_True|by rewrite decide_False]. Qed.
Lemma select_all l : select (λ _, true) l = map snd l.
Proof. unfold select. by rewrite filter_all by (apply Forall_true; done). Qed.
Lemma select_none P l : Forall (λ e, P e.1 = false) l → select P l = [].
Proof. intros H. unfold select. rewrite filter_none; [done|]. eapply Forall_impl; [exact H|]. by intros [k v] ->. Qed.
Lemma elem_of_select P l v : v ∈ select P l ↔ ∃ k, (k, v) ∈ l ∧ P k = true.
Proof.
  unfold select. rewrite list_elem_of_fmap. split.
  - intros ([k v'] & -> & [HP Hl]%list_elem_of_filter). by exists k.
  - intros (k & Hl & HP). exists (k, v). split; [done|]. by apply list_elem_of_filter.
Qed.

Lemma select_ext P Q l : (∀ k, P k = Q k) → select P l = select Q l.
Proof. intros H. induction l as [|[k v] l IH]; [done|]. by rewrite !select_cons, H, IH. Qed.

#[export] Instance same_entries_equiv : Equivalence same_entries.
Proof.
  split; [by intros l P HP|intros l1 l2 H P HP; by rewrite (H P HP)|].
  intros l1 l2 l3 H1 H2 P HP. by rewrite (H1 P HP), (H2 P HP).
Qed.
#[export] Instance same_entries_cons k v : Proper (same_entries ==> same_entries) (cons (k, v)).
Proof. intros l1 l2 H P HP. by rewrite !select_cons, (H P HP). Qed.
#[export] Instance same_entries_perm : subrelation (≡ₚ) same_entries.
Proof. intros l1 l2 H P HP. unfold select. by rewrite H. Qed.
#[export] Instance select_proper P : Proper ((≡ₚ) ==> (≡ₚ)) (select P).
Proof. intros l1 l2 H. unfold select. by rewrite H. Qed.
Lemma same_entries_cancel k v l1 l2 : same_entries ((k, v) :: l1) ((k, v) :: l2) → same_entries l1 l2.
Proof. intros H P HP. specialize (H P HP). rewrite !select_cons in H. by apply Permutation_app_inv_l in H. Qed.
Lemma same_entries_length l1 l2 : same_entries l1 l2 → len l1 = len l2.
Proof. intros H. specialize (H _ all_pred). rewrite !select_all in H. apply Permutation_length in H. unfold len. rewrite !length_map in H. lia. Qed.
End entries.
Arguments same_entries {K V OrdI} l1 l2.

(** Keys under another name, in the same order. *)
Section key_map.
Context {K K' V : Type} {OrdI : Ord K} {OrdI' : Ord K'} (f : K → K').
Context (Hf : ∀ k1 k2, cmp (f k1) (f k2) = cmp k1 k2).
Implicit Types l : list (K * V).

Definition map_keys l : list (K' * V) := map (λ e, (f e.1, e.2)) l.

Lemma select_map_keys P l : select P (map_keys l) = select (λ k, P (f k)) l.
Proof. induction l as [|[k v] l IH]; [done|]. cbn [map_keys map fst snd]. by rewrite !select_cons, <-IH. Qed.
Lemma select_at_map_keys k l : select (at_key (f k)) (map_keys l) = select (at_key k) l.
Proof using Hf. rewrite select_map_keys. apply select_ext. intros k'. unfold at_key. by rewrite Hf. Qed.
Lemma map_keys_same l1 l2 : same_entries l1 l2 → same_entries (map_keys l1) (map_keys l2).
Proof using Hf. intros H P HP. rewrite !select_map_keys. apply H. intros k k' Hk. apply HP. by rewrite Hf. Qed.
Lemma bad_range_map lo hi : bad_range (bound_map f lo) (bound_map f hi) = bad_range lo hi.
Proof using Hf. destruct lo, hi; cbn; by rewrite ?Hf. Qed.
Lemma in_range_map lo hi k : in_range (bound_map f lo) (bound_map f hi) (f k) = in_range lo hi k.
Proof using Hf. unfold in_range. f_equal; [destruct lo|destruct hi]; cbn; by rewrite ?Hf. Qed.
Lemma select_range_map lo hi l :
  select (in_range (bound_map f lo) (bound_map f hi)) (map_keys l) = select (in_range lo hi) l.
Proof using Hf. rewrite select_map_keys. apply select_ext. intros k. apply in_range_map. Qed.
Lemma shared_map_keys l1 l2 w : shared_key (map_keys l1) (map_keys l2) w ↔ shared_key l1 l2 w.
Proof using Hf.
  assert (Hin : ∀ l k v, (k, v) ∈ map_keys l ↔ ∃ k0, k = f k0 ∧ (k0, v) ∈ l).
  { intros l k v. unfold map_keys. rewrite list_elem_of_fmap. split.
    - intros ([k0 v0] & [= -> ->] & ?). by eauto.
    - intros (k0 & -> & ?). by exists (k0, v). }
  split.
  - intros (k & k' & v & (k0 & -> & H0)%Hin & (k1 & -> & H1)%Hin & He). exists k0, k1, v. by rewrite Hf in He.
  - intros (k & k' & v & H0 & H1 & He). exists (f k), (f k'), v. rewrite !Hin, Hf. eauto 10.
Qed.
End key_map.

(** ** Maps are their entries *)

Section multi_map_laws.
Context {K V : Type} {OrdI : Ord K} {LawI : OrdLaws K} {EqV : EqDecision V}.
Implicit Types m : MultiMap K V.

Definition mm_entries m : list (K * V) := concat (map (λ e, map (pair e.1) e.2) m).

Lemma select_group P (k : K) (vs : list V) : select P (map (pair k) vs) = if P k then vs else [].
Proof.
  induction vs as [|v vs IH]; [by destruct (P k)|]. simpl. rewrite select_cons, IH. by destruct (P k).
Qed.

Lemma mm_entries_split P m1 k vs m2 :
  select P (mm_entries (m1 ++ (k, vs) :: m2)) ≡ₚ (if P k then vs else []) ++ select P (mm_entries (m1 ++ m2)).
Proof.
  unfold mm_entries. rewrite !map_app, !concat_app, !select_app. simpl. rewrite select_app, select_group.
  rewrite !app_assoc. f_equiv. apply Permutation_app_comm.
Qed.

Lemma elem_of_mm_entries m k v : (k, v) ∈ mm_entries m ↔ ∃ vs, (k, vs) ∈ m ∧ v ∈ vs.
Proof.
  unfold mm_entries. induction m as [|[k' vs] m IH]; simpl.
  { split; [by intros ?%elem_of_nil|by intros (? & ?%elem_of_nil & _)]. }
  rewrite elem_of_app, IH. setoid_rewrite elem_of_cons. rewrite list_elem_of_fmap. naive_solver.
Qed.

Lemma mm_insert_ok m k v :
  bt_ok m → bt_ok (mm_insert m k v) ∧ same_entries (mm_entries (mm_insert m k v)) ((k, v) :: mm_entries m).
Proof using LawI.
  intros Hm. split; [by apply bt_insert_ok|]. intros P HP. rewrite select_cons. unfold mm_insert.
  destruct (bt_get m k) as [vs|] eqn:Hg; simpl.
  - destruct (bt_get_split m k vs Hm Hg) as (m1 & m2 & k' & -> & Hk & -> & _). rewrite !mm_entries_split, (HP k k' Hk).
    destruct (P k'); [|done]. rewrite app_assoc. f_equiv. apply Permutation_app_comm.
  - destruct (bt_get_None m k Hm Hg) as (_ & m1 & m2 & -> & _ & _ & -> & _). by rewrite mm_entries_split.
Qed.

Lemma mm_point_ok m k : bt_ok m → mm_values_in_point m k ≡ₚ select (at_key k) (mm_entries m).
Proof using LawI.
  intros Hm. unfold mm_values_in_point. destruct (bt_get m k) as [vs|] eqn:Hg; simpl.
  - destruct (bt_get_split m k vs Hm Hg) as (m1 & m2 & k' & -> & Hk & _). rewrite mm_entries_split.
    unfold at_key at 1. rewrite Hk. rewrite select_none, app_nil_r; [done|].
    apply Forall_forall. intros [k3 v] (vs' & Hin & _)%elem_of_mm_entries.
    pose proof (bt_other m1 m2 k' vs _ Hm Hin) as Hne. cbn in *. unfold at_key.
    rewrite (cmp_eq_l k k' k3 Hk). by destruct (cmp k' k3).
  - destruct (bt_get_None m k Hm Hg) as (Hne & _). rewrite select_none; [done|].
    apply Forall_forall. intros [k3 v] (vs' & Hin & _)%elem_of_mm_entries.
    apply (proj1 (Forall_forall _ _) Hne) in Hin. cbn in *. unfold at_key. by destruct (cmp k k3).
Qed.

Lemma mm_delete_ok m k v :
  bt_ok m → let '(b, m') := mm_delete m k v in
  bt_ok m' ∧
  if b then same_entries (mm_entries m) ((k, v) :: mm_entries m') else m' = m ∧ v ∉ select (at_key k) (mm_entries m).
Proof using LawI.
  intros Hm. pose proof (mm_point_ok m k Hm) as Hpt. unfold mm_delete, mm_values_in_point in *.
  destruct (bt_get m k) as [vs|] eqn:Hg; simpl in Hpt.
  2: { split; [done|]. split; [done|]. rewrite <-Hpt. apply not_elem_of_nil. }
  destruct (list_find (λ w, w = v) vs) as [[i w]|] eqn:Hf.
  - apply list_find_Some in Hf as (Hi & -> & _). split; [by apply bt_insert_ok|]. intros P HP. rewrite select_cons.
    destruct (bt_get_split m k vs Hm Hg) as (m1 & m2 & k' & -> & Hk & -> & _). rewrite !mm_entries_split, (HP k k' Hk).
    destruct (P k'); [|done]. rewrite app_assoc. f_equiv. symmetry. exact (swap_remove_perm vs i v Hi).
  - split; [done|]. split; [done|]. rewrite <-Hpt. intros Hin. apply list_find_None in Hf.
    by apply (proj1 (Forall_forall _ _) Hf v).
Qed.

Lemma mm_next_ok (outer : MultiMap K V) inner :
  match mm_next outer inner with
  | None => default [] inner ++ concat (map snd outer) = ([] : list V)
  | Some (v, (outer', inner')) => default [] inner ++ concat (map snd outer) = v :: default [] inner' ++ concat (map snd outer')
  end.
Proof.
  revert inner. induction outer as [|[k vs] outer IH]; intros [[|v inner]|]; try done; cbn [mm_next];
    specialize (IH (Some vs)); by destruct (mm_next outer (Some vs)) as [[v' [outer' inner']]|].
Qed.

Lemma mm_collect_ok fuel (outer : MultiMap K V) inner :
  (length (default [] inner ++ concat (map snd outer)) < fuel)%nat →
  mm_collect fuel outer inner = default [] inner ++ concat (map snd outer).
Proof.
  revert outer inner. induction fuel as [|fuel IH]; intros outer inner Hl; [lia|]. simpl.
  pose proof (mm_next_ok outer inner) as Hn. destruct (mm_next outer inner) as [[v [outer' inner']]|]; [|done].
  rewrite Hn in *. simpl in Hl. rewrite IH by lia. done.
Qed.

Lemma mm_len_ok m : mm_len m = len (mm_entries m).
Proof.
  unfold mm_len, mm_entries, len. induction m as [|[k vs] m IH]; [done|]. simpl. rewrite IH, length_app, length_map. simpl. lia.
Qed.

Lemma length_mm_entries m : length (mm_entries m) = length (concat (map snd m)).
Proof.
  unfold mm_entries. induction m as [|[k vs] m IH]; [done|]. cbn [map concat]. by rewrite !length_app, length_map, IH.
Qed.

Lemma select_mm P (m : list (K * list V)) : select P (mm_entries m) = concat (map snd (filter (λ e, P e.1 = true) m)).
Proof.
  unfold mm_entries. induction m as [|[k vs] m IH]; [done|]. rewrite filter_cons. cbn [map concat fst snd].
  rewrite select_app, select_group, IH. destruct (P k); [by rewrite decide_True|by rewrite decide_False].
Qed.

(** A range has its values, in the order of the keys. *)
Lemma mm_range_ok {E} m lo hi :
  bad_range lo hi = false → mm_values_in_range (E:=E) m lo hi = Ok (select (in_range lo hi) (mm_entries m)).
Proof.
  intros Hb. unfold mm_values_in_range, bt_range. rewrite Hb. cbn [rbind]. f_equal. rewrite select_mm.
  rewrite mm_collect_ok; [done|]. rewrite mm_len_ok. unfold len. rewrite Nat2Z.id. cbn [default app].
  rewrite length_mm_entries. lia.
Qed.
End multi_map_laws.

Section unique_map_laws.
Context {K V : Type} {OrdI : Ord K} {LawI : OrdLaws K}.
Implicit Types m : UniqueMap K V.

Lemma um_split_select P m1 (k : K) (v : V) m2 :
  select P (m1 ++ (k, v) :: m2) ≡ₚ select P ((k, v) :: m1 ++ m2).
Proof. by rewrite <-Permutation_middle. Qed.

Lemma um_point_ok m k : bt_ok m → um_values_in_point m k = select (at_key k) m.
Proof using LawI.
  intros Hm. unfold um_values_in_point. destruct (bt_get m k) as [v|] eqn:Hg.
  - destruct (bt_get_split m k v Hm Hg) as (m1 & m2 & k' & -> & Hk & _). symmetry. apply Permutation_singleton_r.
    rewrite um_split_select, select_cons. unfold at_key at 1. rewrite Hk, select_none; [done|].
    apply Forall_forall. intros e He. pose proof (bt_other m1 m2 k' v e Hm He) as Hne. unfold at_key.
    rewrite (cmp_eq_l k k' e.1 Hk). by destruct (cmp k' e.1).
  - destruct (bt_get_None m k Hm Hg) as (Hne & _). rewrite select_none; [done|].
    eapply Forall_impl; [exact Hne|]. intros e He. cbn in He. unfold at_key. by destruct (cmp k e.1).
Qed.

Lemma um_insert_ok m k v :
  bt_ok m →
  (∃ m', um_insert k v m = (Ok tt, m') ∧ bt_ok m' ∧ select (at_key k) m = [] ∧ same_entries m' ((k, v) :: m)) ∨
  (∃ old, um_insert k v m = (Err old, m) ∧ select (at_key k) m = [old]).
Proof using LawI.
  intros Hm. rewrite <-(um_point_ok m k Hm). unfold um_insert, um_values_in_point.
  destruct (bt_get m k) as [old|] eqn:Hg; [right; by exists old|left].
  eexists. split_and!; [done|by apply bt_insert_ok|done|].
  destruct (bt_get_None m k Hm Hg) as (_ & m1 & m2 & -> & _ & _ & -> & _). intros P _. apply um_split_select.
Qed.

Lemma um_delete_ok m k :
  bt_ok m → let '(b, m') := um_delete m k in
  bt_ok m' ∧
  if b then ∃ v, select (at_key k) m = [v] ∧ same_entries m ((k, v) :: m') else m' = m ∧ select (at_key k) m = [].
Proof using LawI.
  intros Hm. rewrite <-(um_point_ok m k Hm). unfold um_delete, um_values_in_point.
  split; [by apply bt_remove_ok|]. destruct (bt_get m k) as [v|] eqn:Hg.
  - exists v. split; [done|]. destruct (bt_get_split m k v Hm Hg) as (m1 & m2 & k' & -> & Hk & _ & ->).
    intros P HP. rewrite um_split_select, !select_cons. by rewrite (HP k k' Hk).
  - split; [|done]. by destruct (bt_get_None m k Hm Hg) as (_ & m1 & m2 & _ & _ & _ & _ & ->).
Qed.

Lemma um_range_ok {E} m lo hi :
  bad_range lo hi = false → um_values_in_range (E:=E) m lo hi = Ok (select (in_range lo hi) m).
Proof. intros Hb. unfold um_values_in_range, bt_range. by rewrite Hb. Qed.

Lemma um_can_merge_ok m other (ignore : V → bool) :
  bt_ok m → finds (um_can_merge m other ignore) (shared_key m other) ignore.
Proof using LawI.
  intros Hm. induction other as [|[k v] other IH].
  { intros w (k & k' & v & _ & Hin & _). by apply elem_of_nil in Hin. }
  pose proof (um_point_ok m k Hm) as Hpt. unfold um_values_in_point in Hpt.
  apply (finds_iff _ (λ w, bt_get m k = Some w ∨ shared_key m other w)).
  { intros w. assert (Hw : bt_get m k = Some w ↔ w ∈ select (at_key k) m).
    { rewrite <-Hpt. destruct (bt_get m k); [rewrite list_elem_of_singleton|rewrite elem_of_nil]; naive_solver. }
    rewrite Hw, elem_of_select. unfold shared_key, at_key. setoid_rewrite elem_of_cons. split.
    - intros [(k1 & Hin & He)|(k1 & k' & v' & ? & ? & ?)]; [|naive_solver]. exists k1, k, v. by destruct (cmp k k1); eauto.
    - intros (k1 & k' & v' & Hin & [[= -> ->]|Ho] & He); [left; exists k1; by rewrite He|right; by eauto 10]. }
  cbn [um_can_merge]. destruct (bt_get m k) as [w|]; [|by apply finds_or].
  destruct (ignore w) eqn:Hi; cbn [negb]; [apply finds_or; [by intros ? [= <-]|done]|]. split; [done|by left].
Qed.
End unique_map_laws.

Section direct_laws.

(** A slot is empty, or a pointer with its reserved bit set. *)
Definition slot_ok (s : Z) : Prop := s = NONE_PTR ∨ in_u 64 s ∧ reserved_bit s = true.

Definition inner_ok (i : option (list Z)) : Prop :=
  match i with None => True | Some l => len l = KEYS_PER_INNER ∧ Forall slot_ok l end.

(** The pairs of the keys below [n] that have a slot. *)
Definition slot_entries (slot : Z → option Z) (n : Z) : list (Z * Z) :=
  omap (λ k, option_map (λ s, (k, with_reserved_bit s false)) (slot k)) (seqZ 0 n).
Definition slots_below (slot : Z → option Z) (n : Z) : Prop := ∀ k s, 0 ≤ k → slot k = Some s → k < n.

Definition udi_entries (u : UniqueDirectIndex) : list (Z * Z) :=
  slot_entries (udi_slot u) (KEYS_PER_INNER * len (udi_outer u)).

Record udi_ok (u : UniqueDirectIndex) : Prop := {
  udi_inners : Forall inner_ok (udi_outer u);
  udi_count : udi_len u = len (udi_entries u);
}.

Lemma with_reserved_bits p : ptr_ok p →
  slot_ok (with_reserved_bit p true) ∧ with_reserved_bit p true ≠ NONE_PTR ∧
  with_reserved_bit (with_reserved_bit p true) false = p.
Proof.
  intros [Hp Hr]. destruct (with_reserved_bit_fields p true Hp) as (H1 & H2 & H3 & H4 & H5).
  split; [by right|]. split; [intros He; by rewrite He in H2|].
  destruct (with_reserved_bit_fields _ false H1) as (G1 & G2 & G3 & G4 & G5).
  pose proof (RowPointer_new_fields p Hp) as E1. pose proof (RowPointer_new_fields _ G1) as E2.
  rewrite G2, G3, G4, G5, H3, H4, H5 in E2. rewrite Hr in E1. by rewrite <-E2.
Qed.

Lemma split_key_range k : 0 ≤ k → 0 ≤ k / KEYS_PER_INNER ∧ 0 ≤ k mod KEYS_PER_INNER < 512 ∧
  k = KEYS_PER_INNER * (k / KEYS_PER_INNER) + k mod KEYS_PER_INNER.
Proof. unfold KEYS_PER_INNER. intros Hk. pose proof (Z.div_mod k 512). pose proof (Z.mod_pos_bound k 512). pose proof (Z.div_pos k 512). lia. Qed.

(** *** Entries of slots *)

Lemma elem_of_slot_entries slot n k p :
  slots_below slot n → (k, p) ∈ slot_entries slot n ↔ 0 ≤ k ∧ ∃ s, slot k = Some s ∧ p = with_reserved_bit s false.
Proof.
  intros Hb. unfold slot_entries. rewrite list_elem_of_omap. setoid_rewrite elem_of_seqZ. split.
  - intros (k' & Hk & He). destruct (slot k') as [s|] eqn:Hs; [|done]. injection He as -> <-. split; [lia|]. eauto.
  - intros (Hk & s & Hs & ->). exists k. pose proof (Hb k s Hk Hs). rewrite Hs. split; [lia|done].
Qed.

Lemma slot_entries_keys slot n : NoDup (slot_entries slot n).*1.
Proof.
  unfold slot_entries. eapply sublist_NoDup; [exact (NoDup_seqZ 0 n)|]. generalize (seqZ 0 n) as l.
  intros l. induction l as [|k l IH]; [constructor|]. cbn. destruct (slot k); cbn; by constructor.
Qed.

(** Two lists of pairs with distinct keys and the same pairs. *)
Lemma keys_perm {A B} (l1 l2 : list (A * B)) :
  NoDup l1.*1 → NoDup l2.*1 → (∀ k v, (k, v) ∈ l1 ↔ (k, v) ∈ l2) → l1 ≡ₚ l2.
Proof.
  intros H1%NoDup_fmap_1 H2%NoDup_fmap_1 H. apply NoDup_Permutation; [done..|]. intros [k v]. apply H.
Qed.

(** One slot more is one entry more. *)
Lemma slot_entries_add slot slot' n n' k s :
  slots_below slot n → slots_below slot' n' → 0 ≤ k → slot k = None →
  (∀ k', 0 ≤ k' → slot' k' = if decide (k' = k) then Some s else slot k') →
  slot_entries slot' n' ≡ₚ (k, with_reserved_bit s false) :: slot_entries slot n.
Proof.
  intros Hb Hb' Hk Hs Hu. apply keys_perm; [apply slot_entries_keys| |].
  { cbn. constructor; [|apply slot_entries_keys]. intros ([k' p'] & -> & He)%list_elem_of_fmap.
    apply elem_of_slot_entries in He as (_ & s' & Hs' & _); [|done]. cbn [fst] in Hs. congruence. }
  intros k' p'. rewrite elem_of_cons, !elem_of_slot_entries by done. split.
  - intros (Hk' & s' & Hs' & ->). rewrite (Hu k' Hk') in Hs'. case_decide as Hd; [|by right; eauto].
    injection Hs' as <-. left. by rewrite Hd.
  - intros [[= -> ->]|(Hk' & s' & Hs' & ->)].
    + split; [done|]. exists s. rewrite (Hu k Hk). by rewrite decide_True.
    + split; [done|]. exists s'. rewrite (Hu k' Hk'). rewrite decide_False; [done|]. intros ->. congruence.
Qed.

(** The pairs of a key where keys are distinct. *)
Lemma select_distinct (l : list (Z * Z)) k p : NoDup l.*1 → (k, p) ∈ l → select (at_key k) l ≡ₚ [p].
Proof.
  intros Hl (l1 & l2 & ->)%list_elem_of_split. rewrite <-Permutation_middle in *. cbn [fmap list_fmap fst] in Hl.
  apply NoDup_cons in Hl as [Hk _]. rewrite select_cons. unfold at_key at 1. rewrite cmp_refl.
  rewrite select_none; [done|]. apply Forall_forall. intros [k' p'] Hin. cbn [fst]. unfold at_key.
  destruct (cmp k k') eqn:He; [|done..]. apply Z.compare_eq in He as <-. exfalso. apply Hk.
  apply list_elem_of_fmap. by exists (k, p').
Qed.

Lemma slot_entries_none slot n : (∀ k, slot k = None) → slot_entries slot n = [].
Proof. intros H. unfold slot_entries. induction (seqZ 0 n) as [|k l IH]; [done|]. cbn. by rewrite H. Qed.

Lemma slot_point slot n k :
  slots_below slot n → 0 ≤ k → point_iter (slot k) ≡ₚ select (at_key k) (slot_entries slot n).
Proof.
  intros Hb Hk. destruct (slot k) as [s|] eqn:Hs; cbn [point_iter].
  - symmetry. apply select_distinct; [apply slot_entries_keys|]. apply elem_of_slot_entries; eauto.
  - rewrite select_none; [done|]. apply Forall_forall. intros [k' p'] He.
    apply elem_of_slot_entries in He as (_ & s & Hs' & _); [|done]. cbn [fst].
    unfold at_key. destruct (cmp k k') eqn:He; [|done..]. apply Z.compare_eq in He as <-. congruence.
Qed.

(** The pointers of the keys of an interval, in order. *)
Definition slots_between (slot : Z → option Z) (start n : Z) : list Z :=
  omap (λ k, option_map (λ s, with_reserved_bit s false) (slot k)) (seqZ start n).

Lemma slots_between_add slot start n m :
  0 ≤ n → 0 ≤ m → slots_between slot start (n + m) = slots_between slot start n ++ slots_between slot (start + n) m.
Proof. intros Hn Hm. unfold slots_between. rewrite seqZ_app by done. apply omap_app. Qed.

Lemma slots_between_1 slot k : slots_between slot k 1 = point_iter (slot k).
Proof.
  unfold slots_between. change 1 with (Z.succ 0). rewrite seqZ_cons, seqZ_nil by lia. cbn. by destruct (slot k).
Qed.

Lemma slots_between_none slot start n :
  (∀ k, start ≤ k < start + n → slot k = None) → slots_between slot start n = [].
Proof.
  intros H. unfold slots_between. assert (Hl : Forall (λ k, slot k = None) (seqZ start n)).
  { apply Forall_forall. intros k Hk%elem_of_seqZ. by apply H. }
  induction Hl as [|k l Hk Hl IH]; [done|]. cbn. by rewrite Hk.
Qed.

Lemma slot_entries_select slot start n m (P : Z → bool) :
  0 ≤ start → 0 ≤ n → start + n ≤ m → (∀ k, 0 ≤ k < m → P k = true ↔ start ≤ k < start + n) →
  select P (slot_entries slot m) = slots_between slot start n.
Proof.
  intros H0 Hn Hm HP. unfold slot_entries, slots_between.
  assert (Hf : ∀ l, select P (omap (λ k, option_map (λ s, (k, with_reserved_bit s false)) (slot k)) l) =
               omap (λ k, option_map (λ s, with_reserved_bit s false) (slot k)) (filter (λ k, P k = true) l)).
  { induction l as [|k l IH]; [done|]. rewrite filter_cons. cbn -[select filter]. destruct (slot k) as [s|] eqn:Hs; cbn -[select filter].
    - rewrite select_cons, IH. destruct (P k) eqn:Hk; [rewrite decide_True by done|by rewrite decide_False].
      cbn. by rewrite Hs.
    - rewrite IH. case_decide; [|done]. cbn. by rewrite Hs. }
  rewrite Hf. f_equal. replace m with (start + (n + (m - start - n))) by lia.
  rewrite !seqZ_app, !filter_app by lia. rewrite (filter_none _ (seqZ 0 start)), (filter_all _ (seqZ _ n)), (filter_none _ (seqZ _ (m - start - n))).
  - by rewrite app_nil_r.
  - apply Forall_forall. intros k Hk%elem_of_seqZ. rewrite HP; lia.
  - apply Forall_forall. intros k Hk%elem_of_seqZ. rewrite HP; lia.
  - apply Forall_forall. intros k Hk%elem_of_seqZ. rewrite HP; lia.
Qed.

(** *** [UniqueDirectIndex] *)

Lemma udi_slots_below u : slots_below (udi_slot u) (KEYS_PER_INNER * len (udi_outer u)).
Proof.
  intros k s Hk. unfold udi_slot, split_key. destruct (udi_outer u !! _) as [[inner|]|] eqn:Ho; [|done..]. intros _.
  apply lookup_lt_Some in Ho. pose proof (split_key_range k Hk). unfold KEYS_PER_INNER, len in *. lia.
Qed.
Lemma udi_point_ok u k : 0 ≤ k → udi_seek_point u k ≡ₚ select (at_key k) (udi_entries u).
Proof. apply slot_point, udi_slots_below. Qed.

Lemma udi_default_ok : udi_ok udi_default.
Proof. split; [constructor|done]. Qed.

Lemma inner_ok_get u key_outer inner :
  Forall inner_ok (udi_outer u) → udi_outer u !! Z.to_nat key_outer = Some (Some inner) → inner_ok (Some inner).
Proof. intros Hu Hl. by apply (proj1 (Forall_lookup _ _) Hu _ _ Hl). Qed.

Lemma resize_lookup outer n i :
  default None (resize_none outer n !! i) = default None (outer !! i).
Proof.
  unfold resize_none. destruct (decide (i < length outer)%nat) as [Hi|Hi].
  - by rewrite lookup_app_l.
  - rewrite lookup_app_r by lia. rewrite (lookup_ge_None_2 outer) by lia.
    destruct (replicate _ None !! _) as [x|] eqn:Hx; [|done]. by apply lookup_replicate in Hx as [-> _].
Qed.

(** The slot of a key, by way of its inner array. *)
Lemma udi_slot_default u k :
  udi_slot u k = match default None (udi_outer u !! Z.to_nat (k / KEYS_PER_INNER)) with
                 | Some inner => match inner !! Z.to_nat (k mod KEYS_PER_INNER) with
                                 | Some slot => if slot =? NONE_PTR then None else Some slot
                                 | None => None
                                 end
                 | None => None
                 end.
Proof. unfold udi_slot, split_key. by destruct (udi_outer u !! _) as [[]|]. Qed.

(** The slots after writing one. *)
Lemma udi_slot_write outer n ko ki (inner : list Z) s cnt k :
  (Z.to_nat ko < length outer)%nat → 0 ≤ ko → 0 ≤ ki < KEYS_PER_INNER → len inner = KEYS_PER_INNER → 0 ≤ k →
  udi_slot {| udi_outer := <[Z.to_nat ko := Some (<[Z.to_nat ki := s]> inner)]> outer; udi_len := cnt |} k =
  if decide (k = KEYS_PER_INNER * ko + ki) then (if s =? NONE_PTR then None else Some s)
  else if decide (k / KEYS_PER_INNER = ko) then
         match inner !! Z.to_nat (k mod KEYS_PER_INNER) with
         | Some slot => if slot =? NONE_PTR then None else Some slot
         | None => None
         end
       else udi_slot {| udi_outer := outer; udi_len := n |} k.
Proof.
  intros Hko Hko0 Hki Hl Hk. pose proof (split_key_range k Hk) as (H1 & H2 & H3). rewrite !udi_slot_default. cbn [udi_outer].
  unfold KEYS_PER_INNER, len in *. case_decide as Hd.
  - assert (k / 512 = ko) as -> by lia. assert (k mod 512 = ki) as -> by lia.
    rewrite list_lookup_insert_eq by done. cbn [default from_option id]. by rewrite list_lookup_insert_eq by lia.
  - case_decide as He.
    + rewrite He, list_lookup_insert_eq by done. cbn [default from_option id]. rewrite list_lookup_insert_ne; [done|]. intros ?. apply Hd.
      assert (k mod 512 = ki) by lia. lia.
    + rewrite list_lookup_insert_ne; [done|]. intros ?. apply He. lia.
Qed.

Lemma none_ptr_zero : NONE_PTR = 0.
Proof. done. Qed.

Lemma inner_new_ok : inner_ok (Some inner_new).
Proof. split; [done|]. apply Forall_replicate. by left. Qed.

(** The inner array of a key, new if there is none. *)
Definition inner_of (u : UniqueDirectIndex) (k : Z) : list Z :=
  default inner_new (default None (udi_outer u !! Z.to_nat (k / KEYS_PER_INNER))).

Lemma inner_of_ok u k :
  Forall inner_ok (udi_outer u) → 0 ≤ k →
  inner_ok (Some (inner_of u k)) ∧ ∃ s, inner_of u k !! Z.to_nat (k mod KEYS_PER_INNER) = Some s ∧
    udi_slot u k = if s =? NONE_PTR then None else Some s.
Proof.
  intros Hu Hk. pose proof (split_key_range k Hk) as (H1 & H2 & H3). unfold inner_of. rewrite udi_slot_default.
  destruct (udi_outer u !! Z.to_nat (k / KEYS_PER_INNER)) as [[inner|]|] eqn:Ho; cbn [default from_option id].
  - pose proof (inner_ok_get _ _ _ Hu Ho) as Hi. split; [done|]. destruct Hi as [Hl _]. unfold len, KEYS_PER_INNER in *.
    destruct (lookup_lt_is_Some_2 inner (Z.to_nat (k mod 512))) as [s Hs]; [lia|]. exists s. by rewrite Hs.
  - split; [apply inner_new_ok|]. exists NONE_PTR. split; [|done]. apply lookup_replicate_2. unfold KEYS_PER_INNER in *. lia.
  - split; [apply inner_new_ok|]. exists NONE_PTR. split; [|done]. apply lookup_replicate_2. unfold KEYS_PER_INNER in *. lia.
Qed.

(** The other slots of the inner array of a key. *)
Lemma inner_of_slot u k k' :
  k' / KEYS_PER_INNER = k / KEYS_PER_INNER → 0 ≤ k' →
  match inner_of u k !! Z.to_nat (k' mod KEYS_PER_INNER) with
  | Some slot => if slot =? NONE_PTR then None else Some slot
  | None => None
  end = udi_slot u k'.
Proof.
  intros He Hk'. pose proof (split_key_range k' Hk') as (_ & H2 & _). rewrite udi_slot_default, He. unfold inner_of.
  destruct (udi_outer u !! Z.to_nat (k / KEYS_PER_INNER)) as [[inner|]|]; cbn [default from_option id]; [done|..];
    unfold inner_new; by rewrite lookup_replicate_2 by (unfold KEYS_PER_INNER in *; lia).
Qed.

Lemma udi_insert_ok u k p :
  udi_ok u → 0 ≤ k → ptr_ok p →
  (udi_seek_point u k = [] ∧ ∃ u', udi_insert k p u = (Ok tt, u') ∧ udi_ok u' ∧ udi_entries u' ≡ₚ (k, p) :: udi_entries u) ∨
  (∃ q, udi_seek_point u k = [q] ∧ udi_insert k p u = (Err q, u)).
Proof.
  intros [Hu Hcnt] Hk Hp. destruct (inner_of_ok u k Hu Hk) as (Hin & s & Hs & Hsl).
  pose proof (split_key_range k Hk) as (H1 & H2 & H3). destruct (with_reserved_bits p Hp) as (P1 & P2 & P3).
  unfold udi_seek_point, udi_insert. cbn [split_key]. set (n := Z.max _ _).
  assert (Hlen : (Z.to_nat (k / KEYS_PER_INNER) < length (resize_none (udi_outer u) n))%nat).
  { unfold resize_none. rewrite length_app, length_replicate. unfold n, len. lia. }
  rewrite resize_lookup. fold (inner_of u k). rewrite Hs, Hsl. destruct (s =? NONE_PTR) eqn:Hn; [left|right].
  - split; [done|]. eexists. split; [done|]. set (u' := {| udi_outer := _; udi_len := _ |}).
    assert (Hslots : ∀ k', 0 ≤ k' → udi_slot u' k' = if decide (k' = k) then Some (with_reserved_bit p true) else udi_slot u k').
    { intros k' Hk'. unfold u'. rewrite (udi_slot_write _ 0); [|by rewrite length_insert|done|done|apply Hin|done].
      rewrite <-H3. case_decide; [by rewrite (proj2 (Z.eqb_neq _ _) P2)|]. case_decide as He; [by apply inner_of_slot|].
      rewrite !udi_slot_default. cbn [udi_outer]. rewrite list_lookup_insert_ne, resize_lookup; [done|].
      intros He'. apply He. pose proof (split_key_range k' Hk'). lia. }
    assert (Hent : udi_entries u' ≡ₚ (k, p) :: udi_entries u).
    { rewrite <-P3. by apply (slot_entries_add _ _ _ _ k _ (udi_slots_below u) (udi_slots_below u')). }
    split; [|done]. split.
    + unfold u'. cbn [udi_outer]. apply Forall_insert; [apply Forall_insert|].
      * unfold resize_none. apply Forall_app. split; [done|]. by apply Forall_replicate.
      * done.
      * destruct Hin as [Hl Hf]. split; [unfold len in *; by rewrite length_insert|by apply Forall_insert].
    + unfold u'. cbn [udi_len]. fold u'. rewrite Hcnt. unfold len. rewrite Hent. cbn [length]. lia.
  - eexists. split; [done|]. f_equal. destruct u as [outer cnt]. cbn [udi_outer udi_len] in *. f_equal.
    rewrite udi_slot_default in Hsl. unfold inner_of in *. cbn [udi_outer] in *. revert Hsl Hs.
    destruct (outer !! Z.to_nat (k / KEYS_PER_INNER)) as [[inner|]|] eqn:Ho; cbn [default from_option id]; try done.
    intros _ _. assert (resize_none outer n = outer) as ->.
    { unfold resize_none, n. apply lookup_lt_Some in Ho. unfold len.
      replace (Z.to_nat _ - length outer)%nat with 0%nat by lia. by rewrite app_nil_r. }
    by rewrite list_insert_id.
Qed.

Lemma udi_delete_ok {E} u k :
  udi_ok u → 0 ≤ k →
  (udi_seek_point u k = [] ∧ udi_delete (E:=E) k u = (Ok false, u)) ∨
  (∃ q u', udi_seek_point u k = [q] ∧ udi_delete (E:=E) k u = (Ok true, u') ∧ udi_ok u' ∧
           udi_entries u ≡ₚ (k, q) :: udi_entries u').
Proof.
  intros [Hu Hcnt] Hk. destruct (inner_of_ok u k Hu Hk) as (Hin & s & Hs & Hsl).
  pose proof (split_key_range k Hk) as (H1 & H2 & H3). unfold udi_seek_point. rewrite Hsl. unfold udi_delete. cbn [split_key].
  destruct (udi_outer u !! Z.to_nat (k / KEYS_PER_INNER)) as [[inner|]|] eqn:Ho.
  2,3: left; rewrite udi_slot_default, Ho in Hsl; cbn [default from_option id] in Hsl; by destruct (s =? NONE_PTR).
  unfold inner_of in *. rewrite Ho in *. cbn [default from_option id] in *. rewrite Hs. destruct (s =? NONE_PTR) eqn:Hn; cbn [negb Z.b2z].
  - left. split; [done|]. apply Z.eqb_eq in Hn as ->.
    destruct (udi_len u <? 0) eqn:Hl; [apply Z.ltb_lt in Hl; rewrite Hcnt in Hl; unfold len in Hl; lia|]. f_equal.
    destruct u as [outer cnt]. cbn [udi_outer udi_len] in *. f_equal; [|lia]. by rewrite (list_insert_id inner), list_insert_id.
  - right. eexists _, _. split; [done|]. set (u' := {| udi_outer := _; udi_len := _ |}).
    assert (Hslots : ∀ k', 0 ≤ k' → udi_slot u' k' = if decide (k' = k) then None else udi_slot u k').
    { intros k' Hk'. unfold u'. rewrite (udi_slot_write _ 0); [|by eapply lookup_lt_Some|done|done|apply Hin|done].
      rewrite <-H3. case_decide; [done|]. case_decide as He; [|by rewrite !udi_slot_default].
      by rewrite udi_slot_default, He, Ho. }
    assert (Hent : udi_entries u ≡ₚ (k, with_reserved_bit s false) :: udi_entries u').
    { apply slot_entries_add; [apply udi_slots_below..|done|rewrite (Hslots k Hk); by rewrite decide_True|]. intros k' Hk'. rewrite (Hslots k' Hk').
      case_decide as He; [by rewrite He|done]. }
    assert (Hl : udi_len u = 1 + len (udi_entries u')) by (rewrite Hcnt; unfold len; rewrite Hent; cbn [length]; lia).
    destruct (udi_len u <? 1) eqn:Hlt; [apply Z.ltb_lt in Hlt; unfold len in Hl; lia|]. split; [done|]. split; [|done]. split.
    + unfold u'. cbn [udi_outer]. apply Forall_insert; [done|]. destruct Hin as [Hl1 Hf].
      split; [unfold len in *; by rewrite length_insert|]. apply Forall_insert; [done|by left].
    + unfold u'. cbn [udi_len]. fold u'. lia.
Qed.


(** Bounds of a range as the first key and the key after the last one. *)
Definition bound_all {K} (P : K → Prop) (b : Bound K) : Prop :=
  match b with Included k | Excluded k => P k | Unbounded => True end.
Definition range_first (lo : Bound Z) : Z := match lo with Included s => s | Excluded s => s + 1 | Unbounded => 0 end.
Definition range_limit (hi : Bound Z) (n : Z) : Z := match hi with Included e => e + 1 | Excluded e => e | Unbounded => n end.
Definition bounds_ok (lo hi : Bound Z) : Prop :=
  bound_all (λ k, 0 ≤ k < u64_MAX) lo ∧ bound_all (λ k, 0 ≤ k < u64_MAX) hi.

Lemma range_start_ok {E} lo hi n : bounds_ok lo hi → 0 ≤ n →
  range_start (E:=E) lo = Ok (range_first lo) ∧ range_end (E:=E) hi n = Ok (range_limit hi n) ∧
  0 ≤ range_first lo ∧ 0 ≤ range_limit hi n.
Proof.
  unfold u64_MAX. intros [Hlo Hhi] Hn. destruct lo as [s|s|], hi as [e|e|]; cbn in *; unfold u64_MAX in *;
    rewrite ?add_u_Ok by lia; repeat split; lia.
Qed.

Lemma in_range_interval lo hi n k :
  0 ≤ k < n → in_range lo hi k = true ↔ range_first lo ≤ k < range_limit hi n.
Proof.
  intros Hk. unfold in_range, above, below, range_first, range_limit, cmp, Z_ord. rewrite andb_true_iff.
  destruct lo as [s|s|], hi as [e|e|]; repeat case Z.compare_spec; intros; lia.
Qed.

(** The starts from which an iteration does not skip keys: the first key of an
    inner array, or a key of an inner array that is allocated. *)
Definition aligned (u : UniqueDirectIndex) (start : Z) : Prop :=
  start mod KEYS_PER_INNER = 0 ∨ ∃ inner, udi_outer u !! Z.to_nat (start / KEYS_PER_INNER) = Some (Some inner).

Lemma aligned_next u start inner :
  0 ≤ start → udi_outer u !! Z.to_nat (start / KEYS_PER_INNER) = Some (Some inner) → aligned u (start + 1).
Proof.
  intros H0 Ho. pose proof (split_key_range start H0). pose proof (split_key_range (start + 1)). unfold aligned, KEYS_PER_INNER in *.
  destruct (decide ((start + 1) mod 512 = 0)); [by left|right]. exists inner.
  replace ((start + 1) / 512) with (start / 512) by lia. done.
Qed.

(** An inner array that is not allocated has no slots. *)
Lemma udi_gap u start k :
  0 ≤ start → start mod KEYS_PER_INNER = 0 → udi_outer u !! Z.to_nat (start / KEYS_PER_INNER) = Some None →
  start ≤ k < start + KEYS_PER_INNER → udi_slot u k = None.
Proof.
  intros H0 Ha Hi Hk. pose proof (split_key_range start H0). pose proof (split_key_range k ltac:(lia)).
  rewrite udi_slot_default. unfold KEYS_PER_INNER in *. replace (k / 512) with (start / 512) by lia. by rewrite Hi.
Qed.

Lemma udi_range_iter_ok {E} fuel u start end_ :
  Forall inner_ok (udi_outer u) → 0 ≤ start → end_ ≤ KEYS_PER_INNER * len (udi_outer u) → end_ ≤ isize_MAX →
  (Z.to_nat (end_ - start) < fuel)%nat →
  ∃ l, udi_range_iter (E:=E) fuel (udi_outer u) start end_ = Ok l ∧
    l `sublist_of` slots_between (udi_slot u) start (end_ - start) ∧
    (aligned u start → l = slots_between (udi_slot u) start (end_ - start)).
Proof.
  intros Hu. revert start. induction fuel as [|fuel IH]; intros start H0 He Hmax Hf; [lia|]. cbn [udi_range_iter].
  destruct (Z.leb_spec end_ start) as [Hle|Hlt].
  { exists []. split; [done|]. unfold slots_between. rewrite seqZ_nil by lia. split; [constructor|done]. }
  pose proof (split_key_range start H0) as (H1 & H2 & H3). cbn [split_key]. unfold KEYS_PER_INNER, isize_MAX in *.
  destruct (lookup_lt_is_Some_2 (udi_outer u) (Z.to_nat (start / 512))) as [i Hi]; [unfold len in *; lia|].
  rewrite (vec_get_Ok _ _ i) by (done || lia). cbn [rbind]. destruct i as [inner|].
  - pose proof (inner_ok_get _ _ _ Hu Hi) as [Hl _]. unfold KEYS_PER_INNER in Hl.
    destruct (lookup_lt_is_Some_2 inner (Z.to_nat (start mod 512))) as [s Hs]; [unfold len in *; lia|].
    rewrite (vec_get_Ok _ _ s) by (done || lia). cbn [rbind]. rewrite add_u_Ok by (unfold in_u; lia). cbn [rbind].
    destruct (IH (start + 1)) as (l & -> & Hsub & Hal); [lia..|]. cbn [rbind].
    specialize (Hal (aligned_next u start inner H0 Hi)). subst l.
    assert (Hb : slots_between (udi_slot u) start (end_ - start) =
      (if s =? NONE_PTR then [] else [with_reserved_bit s false]) ++ slots_between (udi_slot u) (start + 1) (end_ - (start + 1))).
    { replace (end_ - start) with (1 + (end_ - (start + 1))) by lia. rewrite slots_between_add by lia. f_equal.
      rewrite slots_between_1, udi_slot_default. unfold KEYS_PER_INNER. rewrite Hi. cbn [default from_option id]. rewrite Hs. by destruct (s =? NONE_PTR). }
    rewrite Hb. destruct (s =? NONE_PTR); eexists; by split.
  - rewrite add_u_Ok by (unfold in_u; lia). cbn [rbind]. destruct (IH (start + 512)) as (l & -> & Hsub & Hal); [lia..|].
    exists l. split; [done|]. destruct (decide (end_ - start ≤ 512)) as [Hs|Hs].
    + unfold slots_between at 1 in Hsub. rewrite seqZ_nil in Hsub by lia. apply sublist_nil_r in Hsub as ->.
      split; [apply sublist_nil_l|]. intros [Ha|[inner Ha]]; [|unfold KEYS_PER_INNER in Ha; congruence].
      rewrite slots_between_none; [done|]. intros k Hk. apply (udi_gap u start k); [done..|unfold KEYS_PER_INNER; lia].
    + replace (end_ - start) with (512 + (end_ - (start + 512))) by lia. rewrite slots_between_add by lia.
      split; [by apply sublist_inserts_l|]. intros [Ha|[inner Ha]]; [|unfold KEYS_PER_INNER in Ha; congruence].
      rewrite Hal.
      2: { left. unfold KEYS_PER_INNER in *. change (start + 512) with (start + 1 * 512). by rewrite Z.mod_add. }
      rewrite (slots_between_none _ start); [done|]. intros k Hk. apply (udi_gap u start k); [done..|unfold KEYS_PER_INNER; lia].
Qed.

(** A range gives pointers of the range in the order of the keys, and all of
    them from an aligned start. *)
Lemma udi_range_ok {E} u lo hi :
  udi_ok u → KEYS_PER_INNER * len (udi_outer u) ≤ isize_MAX → bounds_ok lo hi →
  ∃ l, udi_seek_range (E:=E) u lo hi = Ok l ∧ l `sublist_of` select (in_range lo hi) (udi_entries u) ∧
    (aligned u (range_first lo) → l = select (in_range lo hi) (udi_entries u)).
Proof.
  intros [Hu _] Hmax Hb. unfold udi_seek_range. set (n := KEYS_PER_INNER * len (udi_outer u)) in *.
  assert (Hn : 0 ≤ n) by (unfold n, KEYS_PER_INNER, len; lia).
  rewrite mul_u_Ok by (unfold isize_MAX in *; lia). cbn [rbind]. replace (len (udi_outer u) * KEYS_PER_INNER) with n by (unfold n; lia).
  destruct (range_start_ok (E:=E) lo hi n Hb Hn) as (-> & -> & Hs & He). cbn [rbind].
  set (end_ := Z.min (range_limit hi n) n). set (start := Z.min (range_first lo) end_).
  destruct (udi_range_iter_ok (E:=E) (S (Z.to_nat (end_ - start))) u start end_) as (l & -> & Hsub & Hal);
    [done|unfold start, end_; lia..|].
  assert (Hsel : select (in_range lo hi) (udi_entries u) = slots_between (udi_slot u) start (end_ - start)).
  { apply slot_entries_select; [unfold start, end_; lia..|]. intros k Hk. rewrite (in_range_interval lo hi n k Hk).
    unfold start, end_. lia. }
  rewrite Hsel. exists l. split; [done|]. split; [done|]. intros Ha.
  destruct (decide (range_first lo ≤ end_)) as [Hd|Hd].
  - apply Hal. unfold start. by rewrite Z.min_l.
  - unfold slots_between in *. rewrite seqZ_nil in * by (unfold start; lia). by apply sublist_nil_r in Hsub.
Qed.

(** *** [UniqueDirectFixedCapIndex] *)

Definition fci_entries (f : UniqueDirectFixedCapIndex) : list (Z * Z) := slot_entries (fci_slot f) (len (fci_array f)).

Record fci_ok (f : UniqueDirectFixedCapIndex) : Prop := {
  fci_slots : Forall slot_ok (fci_array f);
  fci_count : fci_len f = len (fci_entries f);
}.

Lemma fci_slots_below f : slots_below (fci_slot f) (len (fci_array f)).
Proof.
  intros k s Hk. unfold fci_slot. destruct (fci_array f !! _) eqn:Ho; [|done]. intros _.
  apply lookup_lt_Some in Ho. unfold len. lia.
Qed.

Lemma fci_point_ok f k : 0 ≤ k → fci_seek_point f k ≡ₚ select (at_key k) (fci_entries f).
Proof. apply slot_point, fci_slots_below. Qed.

(** An empty array. *)
Lemma fci_empty_ok n : let f := {| fci_array := replicate n NONE_PTR; fci_len := 0 |} in fci_ok f ∧ fci_entries f = [].
Proof.
  intros f. assert (He : fci_entries f = []).
  { apply slot_entries_none. intros k. unfold fci_slot, f. cbn [fci_array].
    destruct (replicate n NONE_PTR !! _) eqn:Hl; [|done]. by apply lookup_replicate in Hl as [-> _]. }
  split; [|done]. split; [apply Forall_replicate; by left|]. by rewrite He.
Qed.

Lemma fci_slot_write arr k s cnt n k' :
  0 ≤ k < len arr → 0 ≤ k' →
  fci_slot {| fci_array := <[Z.to_nat k := s]> arr; fci_len := cnt |} k' =
  if decide (k' = k) then (if s =? NONE_PTR then None else Some s) else fci_slot {| fci_array := arr; fci_len := n |} k'.
Proof.
  unfold len. intros Hk Hk'. unfold fci_slot. cbn [fci_array]. case_decide as Hd.
  - subst. by rewrite list_lookup_insert_eq by lia.
  - by rewrite list_lookup_insert_ne by lia.
Qed.

Lemma fci_insert_ok f k p :
  fci_ok f → 0 ≤ k < len (fci_array f) → ptr_ok p →
  (fci_seek_point f k = [] ∧ ∃ f', fci_insert k p f = (Ok tt, f') ∧ fci_ok f' ∧ len (fci_array f') = len (fci_array f) ∧
     fci_entries f' ≡ₚ (k, p) :: fci_entries f) ∨
  (∃ q, fci_seek_point f k = [q] ∧ fci_insert k p f = (Err q, f)).
Proof.
  intros [Hf Hcnt] Hk Hp. destruct (with_reserved_bits p Hp) as (P1 & P2 & P3). unfold fci_seek_point, fci_insert.
  destruct (lookup_lt_is_Some_2 (fci_array f) (Z.to_nat k)) as [s Hs]; [unfold len in *; lia|]. rewrite Hs.
  assert (Hsl : fci_slot f k = if s =? NONE_PTR then None else Some s) by (unfold fci_slot; by rewrite Hs).
  rewrite Hsl. destruct (s =? NONE_PTR) eqn:Hn; [left|right; by eexists].
  split; [done|]. eexists. split; [done|]. set (f' := {| fci_array := _; fci_len := _ |}).
  assert (Hent : fci_entries f' ≡ₚ (k, p) :: fci_entries f).
  { rewrite <-P3. apply (slot_entries_add _ _ _ _ k _ (fci_slots_below f) (fci_slots_below f')); [lia|done|].
    intros k' Hk'. unfold f'. rewrite (fci_slot_write _ _ _ _ 0) by done. by rewrite (proj2 (Z.eqb_neq _ _) P2). }
  split; [|split; [unfold f', len; cbn [fci_array]; by rewrite length_insert|done]].
  split; [by apply Forall_insert|]. unfold f'. cbn [fci_len]. fold f'. rewrite Hcnt. unfold len. rewrite Hent. cbn [length]. lia.
Qed.

Lemma fci_delete_ok {E} f k :
  fci_ok f → 0 ≤ k →
  (fci_seek_point f k = [] ∧ fci_delete (E:=E) k f = (Ok false, f)) ∨
  (∃ q f', fci_seek_point f k = [q] ∧ fci_delete (E:=E) k f = (Ok true, f') ∧ fci_ok f' ∧
     len (fci_array f') = len (fci_array f) ∧ fci_entries f ≡ₚ (k, q) :: fci_entries f').
Proof.
  intros [Hf Hcnt] Hk. unfold fci_seek_point, fci_delete, fci_slot. destruct (fci_array f !! Z.to_nat k) as [s|] eqn:Hs; [|by left].
  assert (Hlt : 0 ≤ k < len (fci_array f)) by (apply lookup_lt_Some in Hs; unfold len; lia).
  assert (Hsl : fci_slot f k = if s =? NONE_PTR then None else Some s) by (unfold fci_slot; by rewrite Hs).
  destruct (s =? NONE_PTR) eqn:Hn; cbn [negb Z.b2z].
  - left. split; [done|]. apply Z.eqb_eq in Hn as ->.
    destruct (Z.ltb_spec (fci_len f) 0) as [Hl|Hl]; [rewrite Hcnt in Hl; unfold len in Hl; lia|]. f_equal.
    destruct f as [arr cnt]. cbn [fci_array fci_len] in *. f_equal; [by rewrite list_insert_id|lia].
  - right. eexists _, _. split; [done|]. set (f' := {| fci_array := _; fci_len := _ |}).
    assert (Hslots : ∀ k', 0 ≤ k' → fci_slot f' k' = if decide (k' = k) then None else fci_slot f k')
      by (intros k' Hk'; unfold f'; by rewrite (fci_slot_write _ _ _ _ 0)).
    assert (Hent : fci_entries f ≡ₚ (k, with_reserved_bit s false) :: fci_entries f').
    { apply slot_entries_add; [apply fci_slots_below..|done|rewrite (Hslots k Hk); by rewrite decide_True|].
      intros k' Hk'. rewrite (Hslots k' Hk'). case_decide as He; [by rewrite He|done]. }
    assert (Hl : fci_len f = 1 + len (fci_entries f')) by (rewrite Hcnt; unfold len; rewrite Hent; cbn [length]; lia).
    destruct (Z.ltb_spec (fci_len f) 1) as [Hlt'|_]; [unfold len in Hl; lia|]. split; [done|].
    split; [|split; [unfold f', len; cbn [fci_array]; by rewrite length_insert|done]].
    split; [apply Forall_insert; [done|by left]|]. unfold f'. cbn [fci_len]. fold f'. lia.
Qed.

Lemma fci_range_iter_ok f start n :
  (start + n ≤ length (fci_array f))%nat →
  fci_range_iter (take n (drop start (fci_array f))) = slots_between (fci_slot f) (Z.of_nat start) (Z.of_nat n).
Proof.
  revert start. induction n as [|n IH]; intros start Hn.
  { by rewrite take_0. }
  destruct (lookup_lt_is_Some_2 (fci_array f) start) as [s Hs]; [lia|]. erewrite drop_S by exact Hs.
  replace (Z.of_nat (S n)) with (1 + Z.of_nat n) by lia. rewrite slots_between_add, slots_between_1 by lia.
  replace (Z.of_nat start + 1) with (Z.of_nat (S start)) by lia. rewrite <-IH by lia. cbn [take].
  unfold fci_range_iter. rewrite filter_cons. unfold fci_slot. rewrite Nat2Z.id, Hs.
  destruct (Z.eqb_spec s NONE_PTR); [by rewrite decide_False by (intros ?; done)|by rewrite decide_True].
Qed.

(** A range that ends within the array gives its pointers. *)
Lemma fci_range_ok {E} f lo hi :
  bounds_ok lo hi → range_limit hi (len (fci_array f)) ≤ len (fci_array f) →
  fci_seek_range (E:=E) f lo hi = Ok (select (in_range lo hi) (fci_entries f)).
Proof.
  intros Hb Hle. unfold fci_seek_range. set (n := len (fci_array f)) in *.
  destruct (range_start_ok (E:=E) lo hi n Hb ltac:(unfold n, len; lia)) as (-> & -> & Hs & He). cbn [rbind].
  rewrite (proj2 (Z.leb_le _ _) Hle). f_equal. set (start := Z.min (range_first lo) (range_limit hi n)).
  rewrite fci_range_iter_ok by (unfold start, n, len in *; lia).
  rewrite !Z2Nat.id by (unfold start; lia). symmetry. apply slot_entries_select; [unfold start; lia..|].
  intros k Hk. rewrite (in_range_interval lo hi n k Hk). unfold start. lia.
Qed.

Lemma fci_range_sound {E} f lo hi :
  bounds_ok lo hi →
  ∃ l, fci_seek_range (E:=E) f lo hi = Ok l ∧ l `sublist_of` select (in_range lo hi) (fci_entries f).
Proof.
  intros Hb. destruct (decide (range_limit hi (len (fci_array f)) ≤ len (fci_array f))) as [Hle|Hle].
  { rewrite fci_range_ok by done. by eexists. }
  exists []. split; [|apply sublist_nil_l]. unfold fci_seek_range.
  destruct (range_start_ok (E:=E) lo hi (len (fci_array f)) Hb ltac:(unfold len; lia)) as (-> & -> & _). cbn [rbind].
  by rewrite (proj2 (Z.leb_gt _ _)) by lia.
Qed.

(** *** Merging *)

(** Slots of the same position that are both taken. *)
Definition shared_slot (ls lo : list Z) (p : Z) : Prop :=
  ∃ i a b, ls !! i = Some a ∧ lo !! i = Some b ∧ a ≠ NONE_PTR ∧ b ≠ NONE_PTR ∧ p = with_reserved_bit a false.

Lemma merge_slots_ok ls lo ignore : finds (merge_slots ls lo ignore) (shared_slot ls lo) ignore.
Proof.
  revert lo. induction ls as [|a ls IH]; intros [|b lo]; cbn [merge_slots]; [by intros w ([] & ? & ? & ? & ? & _)..|].
  apply (finds_iff _ (λ p, (a ≠ NONE_PTR ∧ b ≠ NONE_PTR ∧ p = with_reserved_bit a false) ∨ shared_slot ls lo p)).
  { intros p. split.
    - intros [?|(i & a' & b' & ?)]; [by exists 0%nat, a, b|by exists (S i), a', b'].
    - intros ([|i] & a' & b' & Ha & Hb & ?); [left; by simplify_eq/=|right; by exists i, a', b']. }
  destruct (Z.eqb_spec a NONE_PTR); cbn [negb andb]; [by apply finds_or; [intros p [? _]|]|].
  destruct (Z.eqb_spec b NONE_PTR); cbn [negb andb]; [by apply finds_or; [intros p (_ & ? & _)|]|].
  destruct (ignore (with_reserved_bit a false)) eqn:Hi; cbn [negb]; [|split; [done|by left]].
  apply finds_or; [by intros p (_ & _ & ->)|done].
Qed.

Definition shared_inner (ls lo : list (option (list Z))) (p : Z) : Prop :=
  ∃ o inner_s inner_o, ls !! o = Some (Some inner_s) ∧ lo !! o = Some (Some inner_o) ∧ shared_slot inner_s inner_o p.

Lemma merge_inners_ok ls lo ignore : finds (merge_inners ls lo ignore) (shared_inner ls lo) ignore.
Proof.
  revert lo. induction ls as [|a ls IH]; intros [|b lo]; cbn [merge_inners];
    [by intros w ([] & ? & ? & ? & ? & _)..|by destruct a; intros w ([] & ? & ? & ? & ? & _)|].
  apply (finds_iff _ (λ p, (∃ inner_s inner_o, a = Some inner_s ∧ b = Some inner_o ∧ shared_slot inner_s inner_o p) ∨ shared_inner ls lo p)).
  { intros p. split.
    - intros [(i1 & i2 & -> & -> & ?)|(o & i1 & i2 & ?)]; [by exists 0%nat, i1, i2|by exists (S o), i1, i2].
    - intros ([|o] & i1 & i2 & Ha & Hb & ?); [left; simplify_eq/=; by eauto|right; by exists o, i1, i2]. }
  destruct a as [a|]; [destruct b as [b|]|]; [|by apply finds_or; [naive_solver|]..].
  pose proof (merge_slots_ok a b ignore) as H. destruct (merge_slots a b ignore) as [[]|w| |]; try done; cbn [rbind].
  - apply finds_or; [|done]. intros p (i1 & i2 & [= <-] & [= <-] & Hs). by apply H.
  - destruct H as [Hw Hs]. split; [done|left; by eauto].
Qed.

Lemma fci_can_merge_ok f other ignore :
  finds (fci_can_merge f other ignore) (shared_key (fci_entries f) (fci_entries other)) ignore.
Proof.
  eapply finds_iff; [|apply merge_slots_ok]. intros w.
  assert (Hin : ∀ g k p, (k, p) ∈ fci_entries g ↔ 0 ≤ k ∧ ∃ s, fci_array g !! Z.to_nat k = Some s ∧ s ≠ NONE_PTR ∧ p = with_reserved_bit s false).
  { intros g k p. unfold fci_entries. rewrite elem_of_slot_entries by apply fci_slots_below. unfold fci_slot.
    destruct (fci_array g !! Z.to_nat k) as [s|]; [|naive_solver]. destruct (Z.eqb_spec s NONE_PTR); naive_solver. }
  split.
  - intros (i & a & b & Ha & Hb & Na & Nb & ->). exists (Z.of_nat i), (Z.of_nat i), (with_reserved_bit b false).
    rewrite !Hin, !Nat2Z.id. split_and!; [lia|by exists a|lia|by exists b|]. apply Z.compare_refl.
  - intros (k & k' & v & (_ & s & H1 & H2 & ->)%Hin & (_ & s' & H3 & H4 & ->)%Hin & <-%Z.compare_eq). by exists (Z.to_nat k'), s, s'.
Qed.

Lemma udi_can_merge_ok u other ignore :
  Forall inner_ok (udi_outer u) →
  finds (udi_can_merge u other ignore) (shared_key (udi_entries u) (udi_entries other)) ignore.
Proof.
  intros Hu. eapply finds_iff; [|apply merge_inners_ok]. intros w.
  assert (Hin : ∀ g k p, (k, p) ∈ udi_entries g ↔ 0 ≤ k ∧ ∃ inner s, udi_outer g !! Z.to_nat (k / KEYS_PER_INNER) = Some (Some inner) ∧
    inner !! Z.to_nat (k mod KEYS_PER_INNER) = Some s ∧ s ≠ NONE_PTR ∧ p = with_reserved_bit s false).
  { intros g k p. unfold udi_entries. rewrite elem_of_slot_entries by apply udi_slots_below. rewrite udi_slot_default.
    destruct (udi_outer g !! _) as [[inner|]|]; cbn [default from_option id]; [|naive_solver..].
    destruct (inner !! _) as [s|] eqn:Hs; [|naive_solver]. destruct (Z.eqb_spec s NONE_PTR); naive_solver. }
  split.
  - intros (o & i1 & i2 & H1 & H2 & i & a & b & Ha & Hb & Na & Nb & ->).
    pose proof (proj1 (Forall_lookup _ _) Hu _ _ H1) as [Hl _]. apply lookup_lt_Some in Ha as Hi. unfold len in Hl.
    set (k := KEYS_PER_INNER * Z.of_nat o + Z.of_nat i). assert (Hk : k / KEYS_PER_INNER = Z.of_nat o ∧ k mod KEYS_PER_INNER = Z.of_nat i).
    { unfold k, KEYS_PER_INNER in *. by rewrite (Z.mul_comm 512), Z.div_add_l, Z.div_small, (Z.add_comm (_ * _)), Z.mod_add, Z.mod_small, Z.add_0_r by lia. }
    destruct Hk as [Hd Hm]. exists k, k, (with_reserved_bit b false). rewrite !Hin, Hd, Hm, !Nat2Z.id.
    split_and!; [unfold k, KEYS_PER_INNER; lia|by exists i1, a|unfold k, KEYS_PER_INNER; lia|by exists i2, b|apply Z.compare_refl].
  - intros (k & k' & v & (_ & i1 & s & H1 & H2 & N1 & ->)%Hin & (_ & i2 & s' & H3 & H4 & N2 & ->)%Hin & <-%Z.compare_eq).
    exists (Z.to_nat (k' / KEYS_PER_INNER)), i1, i2. split_and!; [done..|]. by exists (Z.to_nat (k' mod KEYS_PER_INNER)), s, s'.
Qed.
End direct_laws.

(** ** Examples *)

Module Examples.
Definition ptr1 : Z := RowPointer_new false 0 16 COMMITTED_STATE.
Definition row_at_512 : UniqueDirectIndex := (udi_insert 512 ptr1 udi_default).2.

(** A range of a direct index skips keys: the iterator leaves an inner array
    that is not allocated by adding its length to the key, also when it starts
    in the middle, and so skips the first keys of the next.  A key that is in
    the index, and in the range, is not found. *)
Theorem range_skips_keys :
  (udi_insert 512 ptr1 udi_default).1 = Ok tt ∧ udi_seek_point row_at_512 512 = [ptr1] ∧
  udi_seek_range (E:=unit) row_at_512 (Included 5) Unbounded = Ok [] ∧
  udi_seek_range (E:=unit) row_at_512 (Included 0) Unbounded = Ok [ptr1].
Proof. vm_compute. done. Qed.

(** An excluded bound that is the largest [u64] overflows before it is clamped. *)
Lemma excluded_max_panics :
  udi_seek_range (E:=unit) row_at_512 (Excluded u64_MAX) Unbounded = Panic ∧
  udi_seek_range (E:=unit) row_at_512 Unbounded (Included u64_MAX) = Panic.
Proof. vm_compute. done. Qed.

(** A key without values is still counted: deleting leaves the empty list. *)
Lemma num_keys_counts_deleted :
  let m := mm_insert [] 7 ptr1 in
  let m' := (mm_delete m 7 ptr1).2 in
  (mm_delete m 7 ptr1).1 = true ∧ mm_len m' = 0 ∧ mm_num_keys m' = 1.
Proof. vm_compute. done. Qed.
End Examples.
