(* ===== verification/ColList.v ===== *)
(** * Lists and sets of columns (crates/primitives/src/col_list.rs)

    A list of column ids is a word with a bit for each column, as long as the
    ids are below 63 and in increasing order, and a vector on the heap
    otherwise.  The theorem shows that it behaves as the list of its columns,
    and that the sets made from it are sorted without duplicates. *)

From Stdlib Require Import ZArith Lia.
From stdpp Require Import sorting sets list.
From S2P Require Import Prelude Mem BitSet.
Local Open Scope Z_scope.
Local Open Scope result_scope.

Definition FIRST_HEAP_COL : Z := 63.

(** ** Inline lists *)

(** [ColListInline] is the word: a mark in the lowest bit, then the columns. *)
Definition undo_mark (w : Z) : Z := Z.shiftr w 1.

Definition inline_contains (w needle : Z) : bool :=
  (needle <? FIRST_HEAP_COL) && negb (Z.land (undo_mark w) (wrap_u 64 (Z.shiftl 1 needle)) =? 0).

(** A word has at most 64 set bits. *)
Fixpoint inline_iter_from (fuel : nat) (value : Z) : list Z :=
  match fuel with
  | O => []
  | S fuel =>
      if value =? 0 then []
      else trailing_zeros value :: inline_iter_from fuel (Z.land value (wrapping_sub value 1))
  end.
Definition inline_iter (w : Z) : list Z := inline_iter_from 64 (undo_mark w).

(** [u64::leading_zeros] and [count_ones]. *)
Definition leading_zeros (b : Z) : Z := if b =? 0 then 64 else 63 - Z.log2 b.
Definition count_ones (b : Z) : Z := len (filter (λ i, Z.testbit b i = true) (seqZ 0 64)).

Definition inline_last (w : Z) : option Z :=
  let n := 64 - leading_zeros (undo_mark w) in
  if n <? 1 then None else Some (n - 1).

Definition inline_len (w : Z) : Z := count_ones (undo_mark w).

(** ** Lists on the heap *)

(** [ColListVec]: the columns and the capacity of the allocation. *)
Record ColListVec := { vec_cols : list Z; vec_capacity : Z }.

(** [layout]: the checked addition. *)
Definition vec_layout {E} (cap : Z) : result E unit := if cap + 2 <=? u16_MAX then Ok tt else Panic.

Definition vec_with_capacity {E} (capacity : Z) : result E ColListVec :=
  let* _ := vec_layout capacity in
  Ok {| vec_cols := []; vec_capacity := capacity |}.

(** The capacity after growing the allocation. *)
Definition vec_grow {E} (cap : Z) : result E Z :=
  if cap * 2 <=? u16_MAX then let* _ := vec_layout (cap * 2) in Ok (cap * 2) else Panic.

(** [push]: a write outside of the allocation is undefined behaviour. *)
Definition vec_push {E} (v : ColListVec) (val : Z) : result E ColListVec :=
  let n := len (vec_cols v) in
  let cap := vec_capacity v in
  let* cap := if n =? cap then vec_grow cap else Ok cap in
  if n <? cap then
    let* _ := add_u 16 n 1 in
    Ok {| vec_cols := vec_cols v ++ [val]; vec_capacity := cap |}
  else Panic.

Definition vec_pushes {E} : ColListVec → list Z → result E ColListVec :=
  fix go v cols :=
    match cols with
    | [] => Ok v
    | col :: cols => let* v := vec_push v col in go v cols
    end.

Definition vec_clone {E} (v : ColListVec) : result E ColListVec :=
  let* vec := vec_with_capacity (len (vec_cols v)) in
  vec_pushes vec (vec_cols v).

Definition heapify_and_push {E} (w col : Z) : result E ColListVec :=
  let* n := add_u 16 (inline_len w) 1 in
  let* n := mul_u 16 2 n in
  let* vec := vec_with_capacity n in
  let* vec := vec_pushes vec (inline_iter w) in
  vec_push vec col.

(** ** Lists *)

(** The union [ColList]; the lowest bit of a pointer is not set. *)
Inductive ColList :=
| Inline (w : Z)
| Heap (v : ColListVec).

Definition from_inline {E} (list : Z) : result E ColList :=
  if negb (Z.land list (Z.shiftl 1 FIRST_HEAP_COL) =? 0) then Panic
  else Ok (Inline (Z.lor (wrap_u 64 (Z.shiftl list 1)) 1)).

Definition push_inner {E} (l : ColList) (col : Z) (preserves_set_order : bool) : result E ColList :=
  match (col <? FIRST_HEAP_COL) && preserves_set_order, l with
  | true, Inline w => Ok (Inline (Z.lor w (wrap_u 64 (Z.shiftl 1 (col + 1)))))
  | false, Inline w => let* v := heapify_and_push w col in Ok (Heap v)
  | _, Heap v => let* v := vec_push v col in Ok (Heap v)
  end.

Definition col_list_empty {E} : result E ColList := from_inline 0.

Definition col_list_new {E} (col : Z) : result E ColList :=
  let* list := from_inline 0 in push_inner list col true.

Definition col_list_with_capacity {E} (cap : Z) : result E ColList :=
  if cap <? FIRST_HEAP_COL then from_inline 0
  else let* v := vec_with_capacity cap in Ok (Heap v).

Definition col_list_iter (l : ColList) : list Z :=
  match l with Inline w => inline_iter w | Heap v => vec_cols v end.

Definition as_singleton (l : ColList) : option Z :=
  match col_list_iter l with [h] => Some h | _ => None end.

Definition col_list_head (l : ColList) : option Z := head (col_list_iter l).

Definition col_list_last (l : ColList) : option Z :=
  match l with Inline w => inline_last w | Heap v => last (vec_cols v) end.

Definition col_list_contains (l : ColList) (needle : Z) : bool :=
  match l with Inline w => inline_contains w needle | Heap v => bool_decide (needle ∈ vec_cols v) end.

Definition col_list_len (l : ColList) : Z :=
  match l with Inline w => inline_len w | Heap v => len (vec_cols v) end.

Definition col_list_is_empty (l : ColList) : bool := col_list_len l =? 0.

Definition col_list_push {E} (l : ColList) (col : Z) : result E ColList :=
  push_inner l col (match col_list_last l with None => true | Some x => x <? col end).

Definition col_list_extend {E} : ColList → list Z → result E ColList :=
  fix go l cols :=
    match cols with
    | [] => Ok l
    | col :: cols => let* l := col_list_push l col in go l cols
    end.

(** [FromIterator]: the iterator gives a lower bound of its length. *)
Definition col_list_from_iter {E} (lower_bound : Z) (cols : list Z) : result E ColList :=
  let* list := col_list_with_capacity (wrap_u 16 lower_bound) in
  col_list_extend list cols.

Definition col_list_clone {E} (l : ColList) : result E ColList :=
  match l with
  | Inline w => Ok (Inline w)
  | Heap v => let* v := vec_clone v in Ok (Heap v)
  end.

(** [PartialEq for ColList]: the words, or the slices. *)
Definition col_list_eq (l1 l2 : ColList) : bool :=
  match l1, l2 with
  | Inline w1, Inline w2 => w1 =? w2
  | Heap v1, Heap v2 => bool_decide (vec_cols v1 = vec_cols v2)
  | _, _ => false
  end.

(** [Ord for ColList], with [Iterator::cmp]. *)
Fixpoint cols_cmp (l1 l2 : list Z) : comparison :=
  match l1, l2 with
  | [], [] => Eq
  | [], _ :: _ => Lt
  | _ :: _, [] => Gt
  | x :: l1, y :: l2 => match x ?= y with Eq => cols_cmp l1 l2 | c => c end
  end.
Definition col_list_cmp (l1 l2 : ColList) : comparison := cols_cmp (col_list_iter l1) (col_list_iter l2).

(** ** Sets *)

Fixpoint is_sorted_from (prev : Z) (rest : list Z) : bool :=
  match rest with
  | [] => true
  | elem :: rest => negb (elem <=? prev) && is_sorted_from elem rest
  end.
Definition is_sorted_and_deduped (data : list Z) : bool :=
  match data with [] => true | prev :: rest => is_sorted_from prev rest end.

(** [Itertools::dedup]. *)
Fixpoint dedup_from (prev : Z) (l : list Z) : list Z :=
  match l with
  | [] => []
  | x :: l => if x =? prev then dedup_from prev l else x :: dedup_from x l
  end.
Definition dedup (l : list Z) : list Z := match l with [] => [] | x :: l => x :: dedup_from x l end.

(** [sort_dedup]; the lower bound for the deduplicated iterator is 1, unless it
    is empty. *)
Definition sort_dedup {E} (l : ColList) : result E ColList :=
  match l with
  | Inline w => Ok l
  | Heap v =>
      let sorted := merge_sort Z.le (vec_cols v) in
      let is_deduped := is_sorted_and_deduped sorted in
      let wants_inline := default 0 (last sorted) <? FIRST_HEAP_COL in
      if negb is_deduped || wants_inline then
        col_list_from_iter (if bool_decide (sorted = []) then 0 else 1) (dedup sorted)
      else Ok (Heap {| vec_cols := sorted; vec_capacity := vec_capacity v |})
  end.

(** [ColSet] is a list; [From<ColList> for ColSet]. *)
Definition col_set_from {E} (list : ColList) : result E ColList := sort_dedup list.

(** [slice::binary_search], whether the needle is found between [lo] and [hi]. *)
Fixpoint binary_search (fuel : nat) (l : list Z) (lo hi : nat) (needle : Z) : bool :=
  match fuel with
  | O => false
  | S fuel =>
      if (hi <=? lo)%nat then false
      else
        let mid := ((lo + hi) / 2)%nat in
        match needle ?= default 0 (l !! mid) with
        | Eq => true
        | Lt => binary_search fuel l lo mid needle
        | Gt => binary_search fuel l (S mid) hi needle
        end
  end.

Definition col_set_contains (s : ColList) (needle : Z) : bool :=
  match s with
  | Inline w => inline_contains w needle
  | Heap v => binary_search (S (length (vec_cols v))) (vec_cols v) 0 (length (vec_cols v)) needle
  end.

(** ** The bits of a word *)

Lemma len_cons {A} (x : A) l : len (x :: l) = 1 + len l.
Proof. unfold len. simpl. lia. Qed.

Definition bits (v : Z) : list Z := filter (λ i, Z.testbit v i = true) (seqZ 0 64).

Lemma block_list_bits v : block_list 0 v = bits v.
Proof.
  unfold block_list, bits. change (64 * 0) with 0. apply filter_ext_elem. intros i _. by rewrite Z.sub_0_r.
Qed.

Lemma elem_of_bits v i : i ∈ bits v ↔ 0 ≤ i < 64 ∧ Z.testbit v i = true.
Proof. unfold bits. rewrite list_elem_of_filter, elem_of_seqZ. naive_solver lia. Qed.

Lemma bits_sorted v : StronglySorted Z.lt (bits v).
Proof. apply StronglySorted_filter, seqZ_sorted. Qed.

(** The last bit. *)
Lemma bits_split v c :
  0 ≤ c < 64 → Z.testbit v c = true → (∀ i, c < i < 64 → Z.testbit v i = false) →
  bits v = filter (λ i, Z.testbit v i = true) (seqZ 0 c) ++ [c].
Proof.
  intros Hc Hv Hhi. unfold bits. replace 64 with (c + (1 + (64 - c - 1))) by lia.
  rewrite !seqZ_app by lia. rewrite !filter_app. f_equal. change (seqZ (0 + c) 1) with [c].
  rewrite filter_cons_True by done. rewrite filter_nil. rewrite filter_none; [done|].
  apply Forall_forall. intros i Hi%elem_of_seqZ. rewrite Hhi by lia. done.
Qed.

Lemma bits_zero v : in_u 64 v → (∀ i, 0 ≤ i < 64 → Z.testbit v i = false) → v = 0.
Proof.
  intros Hv H. apply Z.bits_inj'. intros i Hi. rewrite Z.bits_0. destruct (Z.lt_ge_cases i 64); [by apply H|].
  destruct (decide (v = 0)) as [->|]; [apply Z.bits_0|]. unfold in_u in Hv. apply Z.bits_above_log2; [lia|].
  apply Z.log2_lt_pow2; [lia|]. eapply Z.lt_le_trans; [apply Hv|]. apply Z.pow_le_mono_r; lia.
Qed.

Lemma inline_iter_from_ok fuel v :
  in_u 64 v → (length (bits v) ≤ fuel)%nat → inline_iter_from fuel v = bits v.
Proof.
  revert v. induction fuel as [|fuel IH]; intros v Hv Hl; simpl.
  { destruct (bits v); [done|simpl in Hl; lia]. }
  destruct (Z.eqb_spec v 0) as [->|Hne]; [done|]. rewrite <-block_list_bits in *.
  destruct (trailing_zeros_from_spec 64 0 v ltac:(lia)) as (Ht & Hlow & _). fold (trailing_zeros v) in *.
  destruct (decide (trailing_zeros v = 64)) as [He|He].
  { exfalso. apply Hne, bits_zero; [done|]. intros i Hi. apply Hlow. lia. }
  destruct (block_list_next 0 v Hv ltac:(lia)) as (Hn & Hv' & _). rewrite Hn in *. simpl in Hl.
  f_equal. rewrite block_list_bits in *. apply IH; [done|lia].
Qed.

Lemma length_bits v : (length (bits v) ≤ 64)%nat.
Proof. unfold bits. etrans; [apply length_filter|]. done. Qed.

(** ** What a list stands for *)

Definition vec_ok (v : ColListVec) : Prop :=
  len (vec_cols v) ≤ vec_capacity v ∧ 1 ≤ vec_capacity v ≤ 65533 ∧ Forall (in_u 16) (vec_cols v).

Definition col_list_ok (l : ColList) : Prop :=
  match l with
  | Inline w => in_u 64 w ∧ Z.testbit w 0 = true
  | Heap v => vec_ok v
  end.

Lemma undo_mark_range w : in_u 64 w → 0 ≤ undo_mark w < 2 ^ 63.
Proof.
  intros Hw. unfold undo_mark, in_u in *. rewrite Z.shiftr_div_pow2 by lia. change (2 ^ 1) with 2.
  split; [apply Z.div_pos; lia|]. apply Z.div_lt_upper_bound; lia.
Qed.

Lemma undo_mark_in w : in_u 64 w → in_u 64 (undo_mark w).
Proof. intros Hw. pose proof (undo_mark_range w Hw). unfold in_u. lia. Qed.

Lemma inline_iter_ok w : in_u 64 w → inline_iter w = bits (undo_mark w).
Proof. intros Hw. apply inline_iter_from_ok; [by apply undo_mark_in|apply length_bits]. Qed.

Lemma undo_mark_bit w i : 0 ≤ i → Z.testbit (undo_mark w) i = Z.testbit w (i + 1).
Proof. intros. unfold undo_mark. by rewrite Z.shiftr_spec. Qed.

Lemma inline_bound w i : in_u 64 w → i ∈ bits (undo_mark w) → 0 ≤ i < 63.
Proof.
  intros Hw [Hi Hb]%elem_of_bits. pose proof (undo_mark_range w Hw). split; [lia|].
  destruct (Z.lt_ge_cases i 63); [done|]. exfalso. destruct (decide (undo_mark w = 0)) as [He|].
  - by rewrite He, Z.bits_0 in Hb.
  - rewrite Z.bits_above_log2 in Hb; [done|lia|]. apply (Z.log2_lt_pow2 _ i); [lia|].
    eapply Z.lt_le_trans; [apply H|]. apply Z.pow_le_mono_r; lia.
Qed.

Lemma inline_last_ok w : in_u 64 w → inline_last w = last (inline_iter w).
Proof.
  intros Hw. rewrite inline_iter_ok by done. pose proof (undo_mark_range w Hw) as Hr. unfold inline_last, leading_zeros.
  set (v := undo_mark w) in *. destruct (Z.eqb_spec v 0) as [->|Hne]; [done|].
  assert (0 ≤ Z.log2 v < 63) by (split; [apply Z.log2_nonneg|apply Z.log2_lt_pow2; lia]).
  rewrite (proj2 (Z.ltb_ge _ _)) by lia. rewrite (bits_split v (Z.log2 v)); [|lia| |].
  - rewrite last_snoc. f_equal. lia.
  - apply Z.bit_log2. lia.
  - intros i Hi. apply Z.bits_above_log2; lia.
Qed.

Lemma inline_contains_ok w c : in_u 64 w → 0 ≤ c → inline_contains w c = bool_decide (c ∈ inline_iter w).
Proof.
  intros Hw Hc. rewrite inline_iter_ok by done. unfold inline_contains, FIRST_HEAP_COL. apply eq_bool_prop_intro.
  rewrite bool_decide_spec. destruct (Z.ltb_spec c 63) as [Hlt|Hge]; cbn [andb].
  - rewrite wrap_u_id by (rewrite Z.shiftl_1_l; split; [apply Z.pow_nonneg; lia|apply Z.pow_lt_mono_r; lia]).
    rewrite elem_of_bits, Z.shiftl_1_l. destruct (Z.eqb_spec (Z.land (undo_mark w) (2 ^ c)) 0) as [He|Hne]; simpl.
    + split; [done|]. intros [_ Hb]. apply (f_equal (λ z, Z.testbit z c)) in He.
      rewrite Z.land_spec, Z.pow2_bits_true, Hb, Z.bits_0 in He by lia. done.
    + split; [intros _|done]. split; [lia|]. destruct (Z.testbit (undo_mark w) c) eqn:Hb; [done|]. exfalso. apply Hne.
      apply Z.bits_inj'. intros i Hi. rewrite Z.land_spec, Z.bits_0, Z.pow2_bits_eqb by lia.
      destruct (Z.eqb_spec c i) as [<-|]; [by rewrite Hb|by rewrite andb_false_r].
  - split; [done|]. intros Hin. pose proof (inline_bound _ _ Hw Hin). lia.
Qed.

(** ** Pushing *)

Lemma inline_push w c :
  in_u 64 w → Z.testbit w 0 = true → 0 ≤ c < 63 → Forall (λ x, x < c) (bits (undo_mark w)) →
  let w' := Z.lor w (wrap_u 64 (Z.shiftl 1 (c + 1))) in
  in_u 64 w' ∧ Z.testbit w' 0 = true ∧ bits (undo_mark w') = bits (undo_mark w) ++ [c].
Proof.
  intros Hw H0 Hc Hlt w'.
  assert (Hw' : w' = Z.lor w (2 ^ (c + 1))).
  { unfold w'. rewrite wrap_u_id; rewrite Z.shiftl_1_l; [done|].
    split; [apply Z.pow_nonneg; lia|apply Z.pow_lt_mono_r; lia]. }
  assert (Hbit : ∀ i, 0 ≤ i → Z.testbit w' i = Z.testbit w i || (c + 1 =? i)).
  { intros i Hi. by rewrite Hw', Z.lor_spec, Z.pow2_bits_eqb by lia. }
  assert (Hhi : ∀ i, c ≤ i < 64 → Z.testbit (undo_mark w) i = false).
  { intros i Hi. destruct (Z.testbit (undo_mark w) i) eqn:Hb; [|done]. rewrite Forall_forall in Hlt.
    assert (i < c); [|lia]. apply Hlt, elem_of_bits. split; [lia|done]. }
  split_and!.
  - rewrite Hw'. unfold in_u in *. split; [apply Z.lor_nonneg; split; [lia|apply Z.pow_nonneg; lia]|].
    assert (0 < 2 ^ (c + 1) < 2 ^ 64) by (split; [apply Z.pow_pos_nonneg; lia|apply Z.pow_lt_mono_r; lia]).
    assert (w ≠ 0) by (intros ->; by rewrite Z.bits_0 in H0).
    assert (Z.lor w (2 ^ (c + 1)) ≠ 0) by (intros [? _]%Z.lor_eq_0_iff; done).
    assert (0 ≤ Z.lor w (2 ^ (c + 1))) by (apply Z.lor_nonneg; lia).
    apply Z.log2_lt_pow2; [lia|]. rewrite Z.log2_lor by lia.
    apply Z.max_lub_lt; apply Z.log2_lt_pow2; lia.
  - by rewrite Hbit, H0 by lia.
  - rewrite (bits_split (undo_mark w') c); [|lia| |].
    + f_equal. unfold bits. replace 64 with (c + (64 - c)) by lia. rewrite seqZ_app, filter_app by lia.
      rewrite (filter_none _ (seqZ (0 + c) (64 - c))), app_nil_r.
      * apply filter_ext_elem. intros i Hi%elem_of_seqZ. rewrite !undo_mark_bit, Hbit by lia.
        by rewrite (proj2 (Z.eqb_neq (c + 1) (i + 1))), orb_false_r by lia.
      * apply Forall_forall. intros i Hi%elem_of_seqZ. rewrite Hhi by lia. done.
    + rewrite undo_mark_bit, Hbit, Z.eqb_refl by lia. apply orb_true_r.
    + intros i Hi. rewrite undo_mark_bit, Hbit by lia. rewrite <-undo_mark_bit, Hhi by lia. simpl.
      apply Z.eqb_neq. lia.
Qed.

Lemma vec_push_ok {E} v c :
  vec_ok v → in_u 16 c → len (vec_cols v) < 32767 →
  ∃ v', vec_push (E:=E) v c = Ok v' ∧ vec_ok v' ∧ vec_cols v' = vec_cols v ++ [c].
Proof.
  intros (Hl & Hcap & Hf) Hc Hlt. unfold vec_push, vec_ok in *.
  assert (0 ≤ len (vec_cols v)) by (unfold len; lia).
  assert (∃ cap, (if len (vec_cols v) =? vec_capacity v then vec_grow (vec_capacity v) else Ok (vec_capacity v)) = Ok (E:=E) cap ∧
    len (vec_cols v) < cap ≤ 65533) as (cap & -> & Hc').
  { destruct (Z.eqb_spec (len (vec_cols v)) (vec_capacity v)).
    - unfold vec_grow, vec_layout, u16_MAX. rewrite !(proj2 (Z.leb_le _ _)) by lia. cbn [rbind]. eexists. split; [done|]. lia.
    - eexists. split; [done|]. lia. }
  cbn [rbind]. rewrite (proj2 (Z.ltb_lt _ _)), add_u_Ok by lia. cbn [rbind]. eexists. split; [done|]. cbn [vec_cols vec_capacity].
  rewrite len_app. change (len [c]) with 1. split_and!; try done; try lia. apply Forall_app. split; [done|by constructor].
Qed.

Lemma vec_pushes_ok {E} cols : ∀ v,
  vec_ok v → Forall (in_u 16) cols → len (vec_cols v) + len cols ≤ 32767 →
  ∃ v', vec_pushes (E:=E) v cols = Ok v' ∧ vec_ok v' ∧ vec_cols v' = vec_cols v ++ cols.
Proof.
  induction cols as [|c cols IH]; intros v Hv Hf Hl.
  { exists v. by rewrite app_nil_r. }
  apply Forall_cons in Hf as [Hc Hf]. rewrite len_cons in Hl. assert (0 ≤ len cols) by (unfold len; lia).
  destruct (vec_push_ok (E:=E) v c Hv Hc ltac:(lia)) as (v1 & E1 & Hv1 & Hc1). cbn [vec_pushes]. rewrite E1. cbn [rbind].
  destruct (IH v1 Hv1 Hf) as (v2 & E2 & Hv2 & Hc2); [rewrite Hc1, len_app; change (len [c]) with 1; lia|].
  exists v2. split; [exact E2|]. split; [done|]. by rewrite Hc2, Hc1, <-app_assoc.
Qed.

Lemma vec_with_capacity_ok {E} cap :
  1 ≤ cap ≤ 65533 → ∃ v, vec_with_capacity (E:=E) cap = Ok v ∧ vec_ok v ∧ vec_cols v = [].
Proof.
  intros Hc. unfold vec_with_capacity, vec_layout, u16_MAX. rewrite (proj2 (Z.leb_le _ _)) by lia. cbn [rbind].
  eexists. split; [done|]. split; [|done]. split_and!; cbn [vec_cols vec_capacity]; [change (len (@nil Z)) with 0; lia|lia|lia|constructor].
Qed.

Lemma heapify_ok {E} w c :
  in_u 64 w → in_u 16 c →
  ∃ v, heapify_and_push (E:=E) w c = Ok v ∧ vec_ok v ∧ vec_cols v = bits (undo_mark w) ++ [c].
Proof.
  intros Hw Hc. unfold heapify_and_push, inline_len, count_ones. fold (bits (undo_mark w)).
  pose proof (length_bits (undo_mark w)). assert (0 ≤ len (bits (undo_mark w)) ≤ 64) by (unfold len; lia).
  rewrite add_u_Ok by lia. cbn [rbind]. rewrite mul_u_Ok by lia. cbn [rbind].
  destruct (vec_with_capacity_ok (E:=E) (2 * (len (bits (undo_mark w)) + 1)) ltac:(lia)) as (v & -> & Hv & Hcols).
  cbn [rbind]. rewrite inline_iter_ok by done.
  destruct (vec_pushes_ok (E:=E) (bits (undo_mark w)) v Hv) as (v' & -> & Hv' & Hcols').
  { apply Forall_forall. intros i Hi. pose proof (inline_bound _ _ Hw Hi). unfold in_u. lia. }
  { rewrite Hcols. change (len (@nil Z)) with 0. lia. }
  cbn [rbind]. rewrite Hcols in Hcols'. simpl in Hcols'.
  destruct (vec_push_ok (E:=E) v' c Hv' Hc) as (v'' & -> & Hv'' & Hcols''); [rewrite Hcols'; lia|].
  exists v''. by rewrite Hcols'', Hcols'.
Qed.

Lemma col_list_iter_range l : col_list_ok l → Forall (in_u 16) (col_list_iter l).
Proof.
  destruct l as [w|v]; [intros [Hw _]|by intros (_ & _ & ?)]. cbn [col_list_iter]. rewrite inline_iter_ok by done.
  apply Forall_forall. intros i Hi. pose proof (inline_bound _ _ Hw Hi). unfold in_u. lia.
Qed.

Lemma col_list_last_ok l : col_list_ok l → col_list_last l = last (col_list_iter l).
Proof. destruct l as [w|v]; [intros [Hw _]|done]. by apply inline_last_ok. Qed.

Lemma sorted_last (l : list Z) x : StronglySorted Z.lt l → last l = Some x → Forall (λ y, y ≤ x) l.
Proof.
  intros Hs. induction Hs as [|y l Hs IH Hy]; [done|]. destruct l as [|z l]; [intros [= ->]; by repeat constructor|].
  intros Hl. constructor; [|by apply IH]. apply Forall_cons in Hy as [Hyz _].
  specialize (IH Hl). apply Forall_cons in IH as [Hz _]. lia.
Qed.

Lemma inline_below w c :
  match last (bits (undo_mark w)) with None => true | Some x => x <? c end = true →
  Forall (λ x, x < c) (bits (undo_mark w)).
Proof.
  intros Hord. apply Forall_forall. intros x Hx. destruct (last (bits (undo_mark w))) as [y|] eqn:Hy.
  - apply Z.ltb_lt in Hord. pose proof (sorted_last _ _ (bits_sorted _) Hy) as Hle. rewrite Forall_forall in Hle.
    specialize (Hle x Hx). lia.
  - apply last_None in Hy. rewrite Hy in Hx. by apply elem_of_nil in Hx.
Qed.

Lemma push_inner_inline {E} w c :
  in_u 64 w → Z.testbit w 0 = true → in_u 16 c →
  ∃ l', push_inner (E:=E) (Inline w) c (match last (bits (undo_mark w)) with None => true | Some x => x <? c end) = Ok l' ∧
    col_list_ok l' ∧ col_list_iter l' = bits (undo_mark w) ++ [c].
Proof.
  intros Hw H0 Hc. unfold push_inner, FIRST_HEAP_COL. destruct ((c <? 63) && _) eqn:Hb.
  - apply andb_prop in Hb as [Hlt%Z.ltb_lt Hord].
    destruct (inline_push w c Hw H0) as (Hw' & H0' & Hbits); [unfold in_u in Hc; lia|by apply inline_below|].
    eexists. split; [reflexivity|]. split; [split; assumption|]. cbn [col_list_iter]. rewrite inline_iter_ok by assumption.
    exact Hbits.
  - destruct (heapify_ok (E:=E) w c Hw Hc) as (v & -> & Hv & Hcols). exists (Heap v). split_and!; [reflexivity|exact Hv|exact Hcols].
Qed.

Lemma col_list_push_ok {E} l c :
  col_list_ok l → in_u 16 c → len (col_list_iter l) < 32767 →
  ∃ l', col_list_push (E:=E) l c = Ok l' ∧ col_list_ok l' ∧ col_list_iter l' = col_list_iter l ++ [c].
Proof.
  intros Hl Hc Hlen. unfold col_list_push. rewrite col_list_last_ok by done.
  destruct l as [w|v]; cbn [col_list_iter] in *.
  - destruct Hl as [Hw H0]. rewrite inline_iter_ok by exact Hw. by apply push_inner_inline.
  - destruct (vec_push_ok (E:=E) v c Hl Hc Hlen) as (v' & Hp & Hv & Hcols). unfold push_inner. rewrite Hp. exists (Heap v').
    cbn [rbind]. split; [by destruct ((c <? FIRST_HEAP_COL) && _)|]. by split.
Qed.

Lemma col_list_extend_ok {E} cols : ∀ l,
  col_list_ok l → Forall (in_u 16) cols → len (col_list_iter l) + len cols ≤ 32767 →
  ∃ l', col_list_extend (E:=E) l cols = Ok l' ∧ col_list_ok l' ∧ col_list_iter l' = col_list_iter l ++ cols.
Proof.
  induction cols as [|c cols IH]; intros l Hl Hf Hlen.
  { exists l. by rewrite app_nil_r. }
  apply Forall_cons in Hf as [Hc Hf]. rewrite len_cons in Hlen. assert (0 ≤ len cols) by (unfold len; lia).
  destruct (col_list_push_ok (E:=E) l c Hl Hc ltac:(lia)) as (l1 & E1 & Hl1 & Hc1). cbn [col_list_extend]. rewrite E1. cbn [rbind].
  destruct (IH l1 Hl1 Hf) as (l2 & E2 & Hl2 & Hc2); [rewrite Hc1, len_app; change (len [c]) with 1; lia|].
  exists l2. split; [exact E2|]. split; [done|]. by rewrite Hc2, Hc1, <-app_assoc.
Qed.

Lemma with_capacity_ok {E} cap :
  0 ≤ cap ≤ 65533 → ∃ l, col_list_with_capacity (E:=E) cap = Ok l ∧ col_list_ok l ∧ col_list_iter l = [].
Proof.
  intros Hc. unfold col_list_with_capacity, FIRST_HEAP_COL. destruct (Z.ltb_spec cap 63).
  - eexists. split; [done|]. by split.
  - destruct (vec_with_capacity_ok (E:=E) cap ltac:(lia)) as (v & -> & Hv & Hcols). cbn [rbind]. by exists (Heap v).
Qed.

Lemma from_iter_ok {E} hint cols :
  0 ≤ hint ≤ len cols → Forall (in_u 16) cols → len cols ≤ 32767 →
  ∃ l, col_list_from_iter (E:=E) hint cols = Ok l ∧ col_list_ok l ∧ col_list_iter l = cols.
Proof.
  intros Hh Hf Hlen. unfold col_list_from_iter. rewrite wrap_u_id by (unfold in_u; lia).
  destruct (with_capacity_ok (E:=E) hint ltac:(lia)) as (l & -> & Hl & Hn). cbn [rbind].
  destruct (col_list_extend_ok (E:=E) cols l Hl Hf) as (l' & He & Hl' & Hi); [rewrite Hn; change (len (@nil Z)) with 0; lia|].
  exists l'. by rewrite Hi, Hn.
Qed.

(** ** Cloning *)

(** No push of a clone grows the allocation. *)
Lemma vec_pushes_room {E} cols : ∀ v,
  len (vec_cols v) + len cols ≤ vec_capacity v → vec_capacity v ≤ 65533 →
  vec_pushes (E:=E) v cols = Ok {| vec_cols := vec_cols v ++ cols; vec_capacity := vec_capacity v |}.
Proof.
  induction cols as [|c cols IH]; intros v Hl Hcap; cbn [vec_pushes].
  { rewrite app_nil_r. by destruct v. }
  rewrite len_cons in Hl. assert (0 ≤ len cols) by (unfold len; lia). assert (0 ≤ len (vec_cols v)) by (unfold len; lia).
  unfold vec_push at 1. rewrite (proj2 (Z.eqb_neq _ _)) by lia. cbn [rbind]. rewrite (proj2 (Z.ltb_lt _ _)), add_u_Ok by lia.
  cbn [rbind]. fold (vec_pushes (E:=E)). rewrite IH; cbn [vec_cols vec_capacity]; [by rewrite <-app_assoc|rewrite len_app|done].
  change (len [c]) with 1. lia.
Qed.

Lemma col_list_clone_ok {E} l :
  col_list_ok l →
  ∃ l', col_list_clone (E:=E) l = Ok l' ∧ col_list_iter l' = col_list_iter l ∧ (col_list_iter l ≠ [] → col_list_ok l').
Proof.
  destruct l as [w|v]; intros Hl; [by exists (Inline w)|]. destruct Hl as (Hlen & Hcap & Hf).
  unfold col_list_clone, vec_clone, vec_with_capacity, vec_layout, u16_MAX. rewrite (proj2 (Z.leb_le _ _)) by lia. cbn [rbind].
  rewrite vec_pushes_room by (cbn [vec_cols vec_capacity]; change (len (@nil Z)) with 0; lia). cbn [rbind].
  eexists. split; [done|]. split; [done|]. cbn [col_list_iter col_list_ok]. intros Hne. unfold vec_ok. cbn [vec_cols vec_capacity app].
  split_and!; try done; try lia. destruct (vec_cols v); [done|]. rewrite len_cons. unfold len. lia.
Qed.

(** ** Comparing *)

Lemma cols_cmp_eq l1 : ∀ l2, cols_cmp l1 l2 = Eq ↔ l1 = l2.
Proof.
  induction l1 as [|x l1 IH]; intros [|y l2]; simpl; try done.
  destruct (Z.compare_spec x y) as [->|Hlt|Hgt]; [rewrite IH|..]; split; try congruence; intros [= -> ?]; lia.
Qed.

Lemma bits_inj v v' : in_u 64 v → in_u 64 v' → bits v = bits v' → v = v'.
Proof.
  intros Hv Hv' He. assert (Hlow : ∀ i, 0 ≤ i < 64 → Z.testbit v i = Z.testbit v' i).
  { intros i Hi. apply eq_bool_prop_intro. rewrite !Is_true_true. pose proof (elem_of_bits v i). pose proof (elem_of_bits v' i).
    rewrite He in *. naive_solver. }
  assert (Hx : Z.lxor v v' = 0); [|by apply Z.lxor_eq].
  assert (Hhi : ∀ u i, in_u 64 u → 64 ≤ i → Z.testbit u i = false).
  { intros u i Hu Hi. destruct (decide (u = 0)) as [->|]; [apply Z.bits_0|]. unfold in_u in Hu.
    apply Z.bits_above_log2; [lia|]. apply Z.log2_lt_pow2; [lia|].
    eapply Z.lt_le_trans; [apply Hu|]. apply Z.pow_le_mono_r; lia. }
  apply Z.bits_inj'. intros i Hi. rewrite Z.lxor_spec, Z.bits_0. destruct (Z.lt_ge_cases i 64).
  - rewrite Hlow by lia. apply xorb_nilpotent.
  - by rewrite !Hhi by done.
Qed.

(** Lists in the same form are equal when their columns are. *)
Definition same_form (l1 l2 : ColList) : Prop :=
  match l1, l2 with Inline _, Inline _ | Heap _, Heap _ => True | _, _ => False end.

Lemma col_list_eq_ok l1 l2 :
  col_list_ok l1 → col_list_ok l2 →
  col_list_eq l1 l2 = true ↔ same_form l1 l2 ∧ col_list_iter l1 = col_list_iter l2.
Proof.
  intros H1 H2. destruct l1 as [w1|v1], l2 as [w2|v2]; cbn [col_list_eq same_form col_list_iter]; try naive_solver.
  - destruct H1 as [Hw1 Hb1], H2 as [Hw2 Hb2]. rewrite !inline_iter_ok by done. rewrite Z.eqb_eq.
    split; [by intros ->|]. intros [_ He]. apply bits_inj in He; [|by apply undo_mark_in..].
    apply Z.bits_inj'. intros i Hi. destruct (decide (i = 0)) as [->|]; [by rewrite Hb1, Hb2|].
    apply (f_equal (λ z, Z.testbit z (i - 1))) in He. rewrite !undo_mark_bit, Z.sub_add in He by lia. done.
  - rewrite bool_decide_eq_true. naive_solver.
Qed.

(** ** Sets *)

Lemma is_sorted_from_ok l : ∀ x, is_sorted_from x l = true ↔ StronglySorted Z.lt (x :: l).
Proof.
  induction l as [|y l IH]; intros x; simpl.
  - split; [intros _; by repeat constructor|done].
  - rewrite andb_true_iff, negb_true_iff, Z.leb_gt, IH. split.
    + intros [Hlt Hs]. constructor; [done|]. constructor; [done|]. inversion Hs as [|? ? _ Hf]; subst.
      eapply Forall_impl; [exact Hf|]. simpl. lia.
    + intros Hs. inversion Hs as [|? ? Hs' Hf]; subst. apply Forall_cons in Hf as [? _]. done.
Qed.

Lemma is_sorted_ok l : is_sorted_and_deduped l = true ↔ StronglySorted Z.lt l.
Proof. destruct l as [|x l]; [split; [intros _; constructor|done]|apply is_sorted_from_ok]. Qed.

Lemma dedup_from_ok l : ∀ x, StronglySorted Z.le (x :: l) →
  StronglySorted Z.lt (x :: dedup_from x l) ∧ ∀ c, c ∈ x :: dedup_from x l ↔ c ∈ x :: l.
Proof.
  induction l as [|y l IH]; intros x Hs; simpl.
  { split; [by repeat constructor|done]. }
  apply StronglySorted_inv in Hs as [Hs Hf]. apply Forall_cons in Hf as [Hle Hf].
  destruct (Z.eqb_spec y x) as [->|Hne].
  - destruct (IH x Hs) as [I1 I2]. split; [done|]. intros c. rewrite I2. set_solver.
  - destruct (IH y Hs) as [I1 I2]. split.
    + constructor; [done|]. apply StronglySorted_inv in I1 as [_ Hy]. constructor; [lia|].
      eapply Forall_impl; [exact Hy|]. simpl. lia.
    + intros c. rewrite elem_of_cons, I2, !elem_of_cons. tauto.
Qed.

Lemma dedup_ok l : StronglySorted Z.le l → StronglySorted Z.lt (dedup l) ∧ (∀ c, c ∈ dedup l ↔ c ∈ l) ∧
  (length (dedup l) ≤ length l)%nat ∧ (l ≠ [] → dedup l ≠ []).
Proof.
  destruct l as [|x l]; intros Hs; [by split; [constructor|]|]. destruct (dedup_from_ok l x Hs) as [H1 H2].
  split_and!; [done|done| |done]. simpl. apply le_n_S. clear. revert x. induction l as [|y l IH]; intros x; simpl; [done|].
  destruct (y =? x); simpl; [etrans; [apply IH|lia]|apply le_n_S, IH].
Qed.

Lemma merge_sort_ok (l : list Z) : StronglySorted Z.le (merge_sort Z.le l) ∧ merge_sort Z.le l ≡ₚ l.
Proof. split; [apply StronglySorted_merge_sort; [apply _|intros ?; lia]|apply merge_sort_Permutation]. Qed.

Lemma sort_dedup_ok {E} l :
  col_list_ok l → len (col_list_iter l) ≤ 32767 →
  ∃ s, sort_dedup (E:=E) l = Ok s ∧ col_list_ok s ∧ StronglySorted Z.lt (col_list_iter s) ∧
    ∀ c, c ∈ col_list_iter s ↔ c ∈ col_list_iter l.
Proof.
  intros Hl Hlen. destruct l as [w|v]; cbn [col_list_iter] in *.
  { exists (Inline w). split; [done|]. split; [done|]. cbn [col_list_iter]. destruct Hl as [Hw _].
    rewrite inline_iter_ok by done. split; [apply bits_sorted|done]. }
  unfold sort_dedup. destruct (merge_sort_ok (vec_cols v)) as [Hs Hp]. set (sorted := merge_sort Z.le (vec_cols v)) in *.
  destruct Hl as (H1 & H2 & Hf). rewrite <-Hp in Hf. pose proof (Permutation_length Hp) as Hlp.
  destruct (negb (is_sorted_and_deduped sorted) || _) eqn:Hb.
  - destruct (dedup_ok sorted Hs) as (D1 & D2 & D3 & D4). unfold len in *.
    destruct (from_iter_ok (E:=E) (if bool_decide (sorted = []) then 0 else 1) (dedup sorted)) as (s & Hs' & Hok & Hi).
    + unfold len. case_bool_decide as Hn; [lia|]. specialize (D4 Hn). destruct (dedup sorted); [done|]. simpl. lia.
    + apply Forall_forall. intros c Hc%D2. by apply (Forall_forall (in_u 16) sorted).
    + unfold len. lia.
    + exists s. rewrite Hi. split_and!; try done. intros c. by rewrite D2, Hp.
  - apply orb_false_iff in Hb as [Hd%negb_false_iff%is_sorted_ok _]. eexists. split; [done|]. cbn [col_list_ok col_list_iter vec_cols].
    split_and!; [unfold vec_ok, len in *; cbn [vec_cols vec_capacity]; rewrite Hlp; split_and!; done || lia|done|].
    intros c. by rewrite Hp.
Qed.

Lemma sorted_lookup_lt (l : list Z) i j x y :
  StronglySorted Z.lt l → l !! i = Some x → l !! j = Some y → (i < j)%nat → x < y.
Proof.
  intros Hs. revert i j. induction Hs as [|z l Hs IH Hz]; intros [|i] [|j]; simpl; try done; try lia.
  - intros [= ->] Hj _. rewrite Forall_forall in Hz. apply Hz. by eapply list_elem_of_lookup_2.
  - intros Hi Hj Hlt. eapply IH; [done..|]. lia.
Qed.

Lemma binary_search_ok l needle : StronglySorted Z.lt l → ∀ fuel lo hi,
  (hi ≤ length l)%nat → (hi - lo < fuel)%nat →
  binary_search fuel l lo hi needle = true ↔ ∃ i, (lo ≤ i < hi)%nat ∧ l !! i = Some needle.
Proof.
  intros Hs. induction fuel as [|fuel IH]; intros lo hi Hhi Hf; [lia|]. cbn [binary_search].
  destruct (Nat.leb_spec hi lo) as [Hle|Hlt]; [split; [done|intros (i & ? & _); lia]|].
  set (mid := ((lo + hi) / 2)%nat). assert (lo ≤ mid < hi)%nat.
  { unfold mid. split; [apply Nat.div_le_lower_bound; lia|apply Nat.Div0.div_lt_upper_bound; lia]. }
  destruct (lookup_lt_is_Some_2 l mid ltac:(lia)) as [x Hx]. rewrite Hx. change (default 0 (Some x)) with x.
  destruct (Z.compare_spec needle x) as [->|Hlt'|Hgt].
  - split; [intros _; exists mid; split; [lia|done]|by intros].
  - rewrite IH by lia. split; intros (i & Hi & Hn); exists i; (split; [|done]); [lia|].
    destruct (Nat.lt_ge_cases i mid); [lia|]. exfalso. destruct (decide (i = mid)) as [->|]; [simplify_eq; lia|].
    pose proof (sorted_lookup_lt _ _ _ _ _ Hs Hx Hn ltac:(lia)). lia.
  - rewrite IH by lia. split; intros (i & Hi & Hn); exists i; (split; [|done]); [lia|].
    destruct (Nat.lt_ge_cases mid i); [lia|]. exfalso. destruct (decide (i = mid)) as [->|]; [simplify_eq; lia|].
    pose proof (sorted_lookup_lt _ _ _ _ _ Hs Hn Hx ltac:(lia)). lia.
Qed.

Lemma col_set_contains_ok s c :
  col_list_ok s → StronglySorted Z.lt (col_list_iter s) → 0 ≤ c →
  col_set_contains s c = bool_decide (c ∈ col_list_iter s).
Proof.
  intros Hs Hso Hc. destruct s as [w|v]; cbn [col_set_contains col_list_iter] in *.
  - destruct Hs as [Hw _]. by apply inline_contains_ok.
  - apply eq_bool_prop_intro. rewrite Is_true_true, bool_decide_spec, binary_search_ok by (done || lia).
    rewrite list_elem_of_lookup. split; [intros (i & _ & ?); eauto|]. intros [i Hi]. exists i. split; [|done].
    apply lookup_lt_Some in Hi. lia.
Qed.

(** The clone of an empty list on the heap has the capacity zero, which does not
    grow when it is doubled. *)
Lemma push_no_room {E} c : col_list_push (E:=E) (Heap {| vec_cols := []; vec_capacity := 0 |}) c = Panic.
Proof. unfold col_list_push, push_inner. by destruct ((c <? FIRST_HEAP_COL) && _). Qed.

Lemma col_list_clone_cases {E} l :
  col_list_ok l →
  ∃ l', col_list_clone (E:=E) l = Ok l' ∧ col_list_iter l' = col_list_iter l ∧
    (col_list_ok l' ∨ ∃ v, l = Heap v ∧ vec_cols v = [] ∧ ∀ c, col_list_push (E:=E) l' c = Panic).
Proof.
  intros Hl. destruct (col_list_clone_ok (E:=E) l Hl) as (l' & Hc & Hi & Hok). exists l'. split_and!; [done|done|].
  destruct l as [w|[[|c cols] cap]]; [left; by injection Hc as <-| |left; by apply Hok].
  right. eexists. split_and!; [done|done|]. cbn in Hc. injection Hc as <-. apply push_no_room.
Qed.

(** C34. A list of columns is the list of its columns, in either form.  From
    any iterator of at most 32767 columns the list is made with exactly these;
    on every well-formed list of fewer columns a push adds the column at the
    end, the length, the last, the single and the contained columns are those
    of the list, the clone has the same columns and is well-formed again,
    except that of an empty list on the heap, to which a push writes out of
    bounds, comparing gives equality exactly for the same columns, and lists that are equal have the same columns; and the set made
    from the list has its columns in increasing order, each once, and finds
    exactly these. *)
Theorem col_list_refines_list :
  (∀ hint cols, 0 ≤ hint ≤ len cols → Forall (in_u 16) cols → len cols ≤ 32767 →
    ∃ l, col_list_from_iter (E:=unit) hint cols = Ok l ∧ col_list_ok l ∧ col_list_iter l = cols) ∧
  ∀ l, col_list_ok l → len (col_list_iter l) < 32767 →
    (∀ c, in_u 16 c → ∃ l', col_list_push (E:=unit) l c = Ok l' ∧ col_list_ok l' ∧
      col_list_iter l' = col_list_iter l ++ [c]) ∧
    col_list_len l = len (col_list_iter l) ∧ col_list_last l = last (col_list_iter l) ∧
    (∀ c, as_singleton l = Some c ↔ col_list_iter l = [c]) ∧
    (∀ c, 0 ≤ c → col_list_contains l c = bool_decide (c ∈ col_list_iter l)) ∧
    (∃ l', col_list_clone (E:=unit) l = Ok l' ∧ col_list_iter l' = col_list_iter l ∧
      (col_list_ok l' ∨ ∃ v, l = Heap v ∧ vec_cols v = [] ∧ ∀ c, col_list_push (E:=unit) l' c = Panic)) ∧
    (∀ l', col_list_ok l' → (col_list_cmp l l' = Eq ↔ col_list_iter l = col_list_iter l') ∧
      (col_list_eq l l' = true → col_list_iter l = col_list_iter l')) ∧
    ∃ s, col_set_from (E:=unit) l = Ok s ∧ StronglySorted Z.lt (col_list_iter s) ∧
      (∀ c, c ∈ col_list_iter s ↔ c ∈ col_list_iter l) ∧
      ∀ c, 0 ≤ c → col_set_contains s c = bool_decide (c ∈ col_list_iter l).
Proof.
  split; [intros hint cols; apply from_iter_ok|]. intros l Hl Hlen. split_and!.
  - intros c Hc. by apply col_list_push_ok.
  - destruct l as [w|v]; [|done]. destruct Hl as [Hw _]. cbn [col_list_len col_list_iter]. by rewrite inline_iter_ok.
  - by apply col_list_last_ok.
  - intros c. unfold as_singleton. destruct (col_list_iter l) as [|x [|y r]]; naive_solver.
  - intros c Hc. destruct l as [w|v]; [|done]. destruct Hl as [Hw _]. by apply inline_contains_ok.
  - by apply col_list_clone_cases.
  - intros l' Hl'. split; [apply cols_cmp_eq|]. intros He. by apply (col_list_eq_ok l l' Hl Hl') in He as [_ ?].
  - destruct (sort_dedup_ok (E:=unit) l Hl ltac:(lia)) as (s & Hs & Hok & Hso & Hin). exists s. split_and!; try done.
    intros c Hc. rewrite col_set_contains_ok by done. apply bool_decide_ext, Hin.
Qed.

(** ** Examples *)

Module Examples.
(** Columns in order, and then one out of order. *)
Lemma col_list_refines_list_witness :
  ∃ l l' s, col_list_from_iter (E:=unit) 2 [3; 8] = Ok l ∧ col_list_push (E:=unit) l 1 = Ok l' ∧
    col_list_iter l' = [3; 8; 1] ∧ col_set_from (E:=unit) l' = Ok s ∧ col_list_iter s = [1; 3; 8] ∧
    col_set_contains s 8 = true.
Proof.
  destruct col_list_refines_list as [Hfrom Hlist].
  destruct (Hfrom 2 [3; 8]) as (l & Hl & Hok & Hi); [by vm_compute|repeat constructor; by vm_compute|by vm_compute|].
  destruct (Hlist l Hok ltac:(by rewrite Hi)) as [Hpush _].
  destruct (Hpush 1 ltac:(by vm_compute)) as (l' & Hl' & Hok' & Hi'). rewrite Hi in Hi'.
  vm_compute in Hl. injection Hl as <-. vm_compute in Hl'. injection Hl' as <-.
  eexists _, _, _. split; [vm_compute; reflexivity|]. split; [vm_compute; reflexivity|]. split; [exact Hi'|].
  split; [vm_compute; reflexivity|]. by vm_compute.
Defined.

(** The clone of an empty list on the heap. *)
Definition empty_clone : result unit ColList :=
  let* l := col_list_with_capacity 63 in col_list_clone l.

(** Pushing to the clone of an empty list writes outside of its
    allocation: the clone gets the capacity zero. *)
Theorem push_to_empty_clone :
  rmap col_list_iter empty_clone = Ok [] ∧ ∀ c, (let* l := empty_clone in col_list_push l c) = Panic.
Proof.
  split; [by vm_compute|]. intros c. replace empty_clone with (Ok (E:=unit) (Heap {| vec_cols := []; vec_capacity := 0 |}))
    by (by vm_compute).
  cbn [rbind]. apply push_no_room.
Qed.

(** The columns below 63, collected at once and pushed one by one. *)
Definition collected : result unit ColList := col_list_from_iter 63 (seqZ 0 63).
Definition pushed : result unit ColList := let* l := col_list_empty in col_list_extend l (seqZ 0 63).

(** Equality of lists of columns depends on how they were made.  The 63
    columns below 63 collected from an iterator are on the heap, the same
    columns pushed to an empty list are inline; the comparison finds the same
    columns in the same order, but the lists are not equal. *)
Theorem equality_by_form :
  ∃ l1 l2, collected = Ok l1 ∧ pushed = Ok l2 ∧ col_list_iter l1 = seqZ 0 63 ∧ col_list_iter l2 = seqZ 0 63 ∧
    col_list_cmp l1 l2 = Eq ∧ col_list_eq l1 l2 = false.
Proof. eexists _, _. split; [vm_compute; reflexivity|]. split; [vm_compute; reflexivity|]. by vm_compute. Qed.
End Examples.
