(* ===== verification/RowBsatn.v ===== *)
(** * Encoding rows of pages (crates/table/src/bflatn_from.rs at crates/sats/src/bsatn/ser.rs)

    [serialize_row_from_page] with the BSATN [Serializer]: the fields of the
    row are written one after the other, strings and arrays chunk by chunk from
    their granules or from the blob store, without building a value.  The
    theorem shows that this writes the encoding of the value. *)

From Stdlib Require Import ZArith Lia.
From S2P Require Import Prelude Buffer Sats Bsatn Mem Indexes BitSet VarLen BlobStore Page PageInv PageRows PageRead PageThm Pages Layout RowTypeVisitor BflatnTo BflatnFrom BflatnRepr BflatnWrite BflatnThm PagesThm.
Local Open Scope Z_scope.
Local Open Scope result_scope.

(** ** [Serializer] on chunks *)

Section serializer.
Context {W : Type} {WriterI : BufWriter W}.

(** [for chunk in chunks { self.writer.put_slice(chunk) }]. *)
Definition put_chunks {E} : W → list (list byte) → result E W :=
  fix go w chunks {struct chunks} :=
    match chunks with
    | [] => Ok w
    | chunk :: chunks => let* w := put_slice w chunk in go w chunks
    end.

Definition concat_bytes_slow {E} (cap : Z) (chunks : list (list byte)) : result E (list byte) :=
  if len (concat chunks) =? cap then Ok (concat chunks) else Panic.

(** [debug_assert!(AlgebraicValue::decode(ty, &mut bsatn).is_ok())]. *)
Definition assert_decodes {E} (ty : AlgebraicType) (bsatn : list byte) : result E unit :=
  match decode ty bsatn with Ok _ => Ok tt | Err _ | Panic => Panic | OutOfFuel => OutOfFuel end.

(** [Serializer::serialize_bsatn]. *)
Definition ser_bsatn {E} (w : W) (ty : AlgebraicType) (bsatn : list byte) : result E W :=
  let* _ := assert_decodes ty bsatn in put_slice w bsatn.

(** [Serializer::serialize_bsatn_in_chunks]. *)
Definition ser_bsatn_in_chunks {E} (w : W) (ty : AlgebraicType) (total_bsatn_len : Z) (bsatn : list (list byte)) :
    result E W :=
  if isize_MAX <? total_bsatn_len then Panic
  else
    let* bytes := concat_bytes_slow total_bsatn_len bsatn in
    let* _ := assert_decodes ty bytes in
    put_chunks w bsatn.

(** [Serializer::serialize_str_in_chunks]. *)
Definition ser_str_in_chunks (w : W) (total_len : Z) (string : list (list byte)) : result BsatnError W :=
  if isize_MAX <? total_len then Panic
  else
    let* bytes := concat_bytes_slow total_len string in
    if negb (utf8_valid bytes) then Panic
    else
      let* w := put_len w (Z.to_nat total_len) in
      put_chunks w string.

Context {B : Type} {BsI : BlobStore B}.
Context (bytes : list byte) (page : Page) (blob_store : B).

(** ** Fields *)

(** [serialize_string]. *)
Definition row_string (w : W) (curr_offset : Z) : result BsatnError W :=
  let* vlr := read_vlr bytes curr_offset in
  if is_large_blob vlr then
    let* blob := vlr_blob_bytes page blob_store vlr in serialize_str w blob
  else
    let* var_iter := iter_vlo_data page (first_granule vlr) in
    ser_str_in_chunks w (length_in_bytes vlr) var_iter.

(** [serialize_bsatn]. *)
Definition row_bsatn (ty : AlgebraicType) (w : W) (curr_offset : Z) : result BsatnError W :=
  let* vlr := read_vlr bytes curr_offset in
  if is_large_blob vlr then
    let* blob := vlr_blob_bytes page blob_store vlr in ser_bsatn w ty blob
  else
    let* var_iter := iter_vlo_data page (first_granule vlr) in
    ser_bsatn_in_chunks w ty (length_in_bytes vlr) var_iter.

(** The primitive types of [serialize_value]. *)
Definition row_prim (p : PrimitiveType) (w : W) (curr_offset : Z) : result BsatnError W :=
  let* ' (b, _) := read_from_bytes bytes curr_offset (prim_size p) in
  match p with
  | PBool => serialize_bool w (negb (le_val b =? 0))
  | PInt k => serialize_int k w (int_from_le_bytes k b)
  | PFloat k => serialize_float k w (le_val b)
  end.

(** [serialize_value], [serialize_product] and [serialize_sum]. *)
Fixpoint row_value (ty : AlgebraicTypeLayout) (w : W) (curr_offset : Z) : result BsatnError W :=
  if negb (curr_offset =? align_to curr_offset (lt_align ty)) then Panic
  else
    match ty with
    | LSum _ variants payload_offset =>
        let* tag := read_tag bytes curr_offset in
        (fix go variants n : result BsatnError W :=
           match variants, n with
           | [], _ => Panic
           | v :: _, O =>
               let* w := put_u8 w tag in
               row_value (vl_ty v) w (curr_offset + offset_of_variant_data payload_offset)
           | _ :: variants, S n => go variants n
           end) variants (Z.to_nat tag)
    | LProduct _ elements =>
        (fix go elements w : result BsatnError W :=
           match elements with
           | [] => Ok w
           | elem_ty :: elements =>
               let* w := row_value (pel_ty elem_ty) w (curr_offset + pel_offset elem_ty) in
               go elements w
           end) elements w
    | LPrimitive p => row_prim p w curr_offset
    | LVarLen VlString => row_string w curr_offset
    | LVarLen (VlArray ty) => row_bsatn ty w curr_offset
    end.

Definition row_product : list ProductTypeElementLayout → Z → W → result BsatnError W :=
  λ elements my_offset,
  (fix go elements w : result BsatnError W :=
     match elements with
     | [] => Ok w
     | elem_ty :: elements =>
         let* w := row_value (pel_ty elem_ty) w (my_offset + pel_offset elem_ty) in
         go elements w
     end) elements.
End serializer.

(** [serialize_row_from_page] into a writer. *)
Definition row_to_writer {W B} `{!BufWriter W, !BlobStore B} (w : W) (page : Page) (blob_store : B)
    (fixed_offset : Z) (ty : RowTypeLayout) : result BsatnError W :=
  let* fixed_bytes := page_get_row_data page fixed_offset (row_size ty) in
  row_product fixed_bytes page blob_store (row_elements ty) 0 w.

(** ** What is written *)

Section writing.
Context {W B : Type} {WriterI : BufWriter W} {WLawI : BufWriterLaws W} {BsI : BlobStore B}.
Context (row : list byte) (p : Page) (bs : B).

Lemma put_chunks_ok {E} (w : W) l : put_chunks (E:=E) w l = put_slice w (concat l).
Proof using WLawI.
  revert w. induction l as [|c l IH]; intros w; cbn; [by rewrite put_slice_nil|].
  rewrite put_slice_app. destruct (put_slice w c); cbn; auto.
Qed.

Lemma concat_bytes_slow_ok {E} (ob : list byte) :
  concat_bytes_slow (E:=E) (len ob) (chunks ob) = Ok ob.
Proof. unfold concat_bytes_slow. by rewrite concat_chunks, Z.eqb_refl. Qed.

Lemma assert_decodes_ok {E} t a b :
  typed [] (TArray t) (VArray a) → contains_refs t = false → bsatn (VArray a) = Some b →
  assert_decodes (E:=E) (TArray t) b = Ok tt.
Proof.
  intros Ht Hr Hb. pose proof (value_of_bsatn_ok (E:=E) t a b Ht Hr Hb) as Hv.
  unfold value_of_bsatn, assert_decodes in *. by destruct (decode _ b) as [[]| | |].
Qed.

Lemma length_in_bytes_max k (ob : list byte) :
  length_in_bytes (peek_vlr row k) = len ob → (isize_MAX <? len ob) = false.
Proof.
  intros <-. apply Z.ltb_ge. cbn [length_in_bytes peek_vlr]. pose proof (peek_u16_range row k) as [_ H].
  unfold isize_MAX. change (2 ^ 16) with 65536 in H. lia.
Qed.

Lemma row_prim_ok pt v b out base (w : W) :
  prim_value pt v b → bsatn v = Some out → 0 ≤ base → base + prim_size pt ≤ len row →
  peek row base (prim_size pt) = b → row_prim row pt w base = put_slice w out.
Proof using WLawI.
  intros Hv Hout H0 Hl Hb. unfold row_prim, read_from_bytes.
  pose proof (is_align_bounds _ (prim_align pt)). rewrite slice_Ok by lia. cbn [rbind]. rewrite Hb.
  pose proof (writes_value v) as Hw. unfold writes in Hw. rewrite Hout in Hw. rewrite <-(Hw W _ _ w).
  destruct Hv as [b'|k z Hz|k z Hz].
  - rewrite le_val_1, byte_to_of_Z. by destruct b'.
  - by rewrite int_from_le_bytes_ok.
  - rewrite le_val_le_bytes, Z.mod_small by exact Hz. done.
Qed.

Lemma row_vl_ok t v ob out base (w : W) :
  vl_value t v ob → bsatn v = Some out → placed row base (LVarLen t) → reads_obj (E:=BsatnError) row p bs base ob →
  row_value row p bs (LVarLen t) w base = put_slice w out.
Proof using WLawI.
  intros Hv Hout (H0 & Hal & Hl) Hob. change (lt_size (LVarLen t)) with 4 in Hl. cbn [row_value]. rewrite Hal. cbn [negb].
  unfold reads_obj in Hob. destruct Hv as [s [Hu Hf]|t a b Ht Hr Hb]; unfold row_string, row_bsatn;
    rewrite read_vlr_ok by lia; cbn [rbind]; destruct (is_large_blob _).
  - rewrite Hob. cbn [rbind]. pose proof (writes_bytes s) as Hw. unfold writes in Hw.
    change (bsatn (VString s)) with (bsatn_bytes s) in Hout. rewrite Hout in Hw. exact (Hw W _ _ w).
  - destruct Hob as [-> Hl']. rewrite Hl'. cbn [rbind]. unfold ser_str_in_chunks.
    rewrite (length_in_bytes_max _ _ Hl'), concat_bytes_slow_ok. cbn [rbind]. rewrite Hu. cbn [negb].
    cbn in Hout. unfold bsatn_bytes, len_prefixed in Hout. cbn in Hout. unfold len. rewrite Nat2Z.id.
    destruct (Z.leb_spec (Z.of_nat (length s)) u32_MAX); [|done]. injection Hout as <-.
    rewrite put_len_ok, put_slice_app by done. destruct (put_slice w _); cbn; [|done..].
    by rewrite put_chunks_ok, concat_chunks.
  - rewrite Hob. cbn [rbind]. unfold ser_bsatn. rewrite (assert_decodes_ok t a) by done. by simplify_eq.
  - destruct Hob as [-> Hl']. rewrite Hl'. cbn [rbind]. unfold ser_bsatn_in_chunks.
    rewrite (length_in_bytes_max _ _ Hl'), concat_bytes_slow_ok. cbn [rbind]. rewrite (assert_decodes_ok t a) by done.
    cbn [rbind]. rewrite put_chunks_ok, concat_chunks. by simplify_eq.
Qed.

Lemma row_values_ok :
  (∀ base ty v offs objs, repr row base ty v offs objs → good ty → 0 ≤ base → (lt_align ty | base) →
    base + lt_size ty ≤ len row → Forall2 (reads_obj (E:=BsatnError) row p bs) offs objs →
    ∀ out (w : W), bsatn v = Some out → row_value row p bs ty w base = put_slice w out) ∧
  (∀ base els vals offs objs, reprs row base els vals offs objs →
    ∀ M cur end_, Forall (λ e, good (pel_ty e)) els → Forall (λ e, lt_align (pel_ty e) ≤ M) els →
    is_align M → (M | base) → 0 ≤ base → 0 ≤ cur → chained cur els end_ → base + end_ ≤ len row →
    Forall2 (reads_obj (E:=BsatnError) row p bs) offs objs →
    ∀ out (w : W), bsatn_list bsatn vals = Some out → row_product row p bs els base w = put_slice w out).
Proof using WLawI.
  pose proof (repr_placed_ind row
    (λ base ty v offs objs, Forall2 (reads_obj (E:=BsatnError) row p bs) offs objs →
      ∀ out (w : W), bsatn v = Some out → row_value row p bs ty w base = put_slice w out)
    (λ base els vals offs objs, Forall2 (reads_obj (E:=BsatnError) row p bs) offs objs →
      ∀ out (w : W), bsatn_list bsatn vals = Some out → row_product row p bs els base w = put_slice w out)) as Hi.
  destruct Hi as [H1 H2]; [..|split; [intros; by eapply H1|intros; by eapply H2]].
  - intros base pt v b Hv Hb (H0 & Hal & Hl) _ out w Hout. cbn [row_value]. rewrite Hal. by eapply row_prim_ok.
  - intros base t v ob Hv Hpl [Hob _]%Forall2_cons out w Hout. by eapply row_vl_ok.
  - intros base l els vals offs objs IH (H0 & Hal & Hl) Hobs out w Hout. cbn [row_value]. rewrite Hal. by apply IH.
  - intros base l vars po tag var v offs objs Htag Hrow Hvar IH (H0 & Hal & Hl) Hobs out w Hout.
    cbn [row_value]. rewrite Hal. cbn [negb]. unfold read_tag, offset_of_tag, offset_of_variant_data.
    rewrite Z.add_0_r, (vec_get_Ok _ _ (byte_of_Z tag)) by done. cbn [rbind].
    rewrite byte_to_of_Z, Z.mod_small by exact Htag. cbn in Hout.
    destruct (bsatn v) as [b|] eqn:Hb; [|done]. injection Hout as <-. specialize (IH Hobs b).
    change (byte_of_Z tag :: b) with ([byte_of_Z tag] ++ b). rewrite <-le_bytes_1, put_slice_app.
    clear -Hvar IH. revert Hvar. generalize (Z.to_nat tag).
    induction vars as [|v' vars IHv]; intros [|n]; simpl; try done; [|apply IHv].
    intros [= ->]. unfold put_u8, put_uint. destruct (put_slice w _); cbn; [by apply IH|done..].
  - intros base _ out w [= <-]. by rewrite put_slice_nil.
  - intros base e els v vals offs1 objs1 offs2 objs2 IH1 IH2 Hlen Hobs out w Hout.
    apply Forall2_app_inv in Hobs as [Hob1 Hob2]; [|done]. cbn in Hout.
    destruct (bsatn v) as [b1|] eqn:Hb1; [|done]. cbn in Hout.
    destruct (bsatn_list bsatn vals) as [b2|] eqn:Hb2; [|done]. injection Hout as <-.
    rewrite put_slice_app. unfold row_product in *. rewrite (IH1 Hob1 b1) by done.
    destruct (put_slice w b1); cbn; [by apply IH2|done..].
Qed.
End writing.

Section rows.
Context {B : Type} {BsI : BlobStore B} {HashI : Blake3} {LawI : BlobStoreLaws B}.
Context {W : Type} {WriterI : BufWriter W} {WLawI : BufWriterLaws W}.
Context (es : list ProductTypeElement) (rt : RowTypeLayout).
Context (Hrt : row_type_layout (E:=unit) es = Ok rt) (Hnr : contains_refs (TProduct es) = false).
Context (Hsize : ty_size (TProduct es) ≤ PAGE_DATA_SIZE).

(** The row is written as its value is. *)
Lemma row_to_writer_ok p bs rows m o gr val (w : W) :
  page_inv (row_size rt) (row_type_visitor rt) p rows → rows !! o = Some gr → row_repr rt gr val →
  holds bs (m ⊎ large (row_objects rows)) →
  row_to_writer w p bs o rt = to_writer w (VProduct val).
Proof using Hrt Hnr Hsize WLawI LawI.
  intros Hp Ho Hr Hm. destruct (row_good es rt Hrt Hnr Hsize) as [[G1 G2 G3 (end_ & Hch & Hend) G5 G6 HM HaM] _].
  destruct val as [vals]. cbn in Hr. destruct (proj2 (repr_encodes _) _ _ _ _ _ Hr) as [out Hout]. pose proof (writes_value (VProduct (MkProductValue vals))) as Hw.
  unfold writes in Hw. change (bsatn (VProduct _)) with (bsatn_list bsatn vals) in Hw. rewrite Hout in Hw. unfold to_writer. rewrite (Hw W _ _ w).
  unfold row_to_writer. destruct (row_reads (E:=BsatnError) es rt Hrt Hnr Hsize _ _ _ _ _ _ Hp Ho Hm) as (-> & Hl & Hobs).
  cbn [rbind].
  apply (proj2 (row_values_ok (gr_fixed gr) p bs) _ _ _ _ _ Hr (ly_align (row_layout rt)) 0 end_);
    (done || lia || apply Z.divide_0_r).
Qed.
End rows.
