(* ===== verification/RowRef.v ===== *)
(** * References to rows (crates/table/src/table.rs, read_column.rs)

    A reference names a row of a table: the storage of the table, the blob
    store and the pointer.  Columns are read from the page of the row, natively
    for the type that is asked for, and projections put several together.  The
    theorems show that a column reads as that column of the value of the row,
    that projecting the row is projecting the value, and that the row is
    encoded as the value, with or without a static layout. *)

From Stdlib Require Import ZArith Lia.
From stdpp Require Import gmap gmultiset.
From S2P Require Import Prelude Buffer Sats Bsatn Mem Indexes BitSet VarLen BlobStore Page PageInv PageRows PageRead PageThm Pages Layout RowTypeVisitor BflatnTo BflatnFrom BflatnWriter BflatnRepr BflatnWrite BflatnThm PagesThm StaticLayout RowEq StaticValidator ColList RowBsatn.
Local Open Scope Z_scope.
Local Open Scope result_scope.

(** ** Values (crates/sats/src/product_value.rs) *)

(** The name is always [None] here. *)
Record InvalidFieldError := { ife_col_pos : Z }.

Definition pv_elements (p : ProductValue) : list AlgebraicValue := match p with MkProductValue l => l end.

Definition get_field (p : ProductValue) (col_pos : Z) : result InvalidFieldError AlgebraicValue :=
  match pv_elements p !! Z.to_nat col_pos with
  | Some v => Ok v
  | None => Err {| ife_col_pos := col_pos |}
  end.

Definition get_fields (p : ProductValue) : list Z → result InvalidFieldError (list AlgebraicValue) :=
  fix go cols :=
    match cols with
    | [] => Ok []
    | col :: cols => let* v := get_field p col in let* vs := go cols in Ok (v :: vs)
    end.

(** [ProductValue::project]. *)
Definition pv_project (p : ProductValue) (cols : ColList) : result InvalidFieldError AlgebraicValue :=
  match as_singleton cols with
  | Some head => get_field p head
  | None => let* fields := get_fields p (col_list_iter cols) in Ok (VProduct (MkProductValue fields))
  end.

(** ** The storage of a table *)

Record TableInner := {
  ti_row_layout : RowTypeLayout;
  ti_static_layout : option (StaticLayout * StaticBsatnValidator);
  ti_visitor_prog : VarLenVisitorProgram;
  ti_pages : Pages;
}.

(** [TableInner::is_row_present]. *)
Definition inner_is_row_present {E} (t : TableInner) (squashed : Z) (ptr : Z) : result E bool :=
  if negb (squashed =? squashed_offset ptr) then Ok false
  else
    match try_page_and_offset (ti_pages t) ptr with
    | None => Ok false
    | Some (page, offset) => page_has_row_offset page (row_size (ti_row_layout t)) offset
    end.

Record RowRef (B : Type) := { rr_table : TableInner; rr_blob_store : B; rr_pointer : Z }.
Arguments rr_table {B}.
Arguments rr_blob_store {B}.
Arguments rr_pointer {B}.

(** ** Columns *)

(** The types that columns are read at. *)
Inductive ColType :=
| CBool
| CInt (k : IntTy)
| CFloat (k : FloatTy)
| CAV
| CString
| CArray
| CSum
| CProduct
| CSumTag.

Definition native (t : ColType) : Type :=
  match t with
  | CBool => bool
  | CInt _ | CFloat _ | CSumTag => Z
  | CAV => AlgebraicValue
  | CString => list byte
  | CArray => ArrayValue
  | CSum => SumValue
  | CProduct => ProductValue
  end.

(** [ReadColumn::is_compatible_type]. *)
Definition is_compatible_type (t : ColType) (ty : AlgebraicTypeLayout) : bool :=
  match t, ty with
  | CBool, LPrimitive PBool => true
  | CInt k, LPrimitive (PInt k') => bool_decide (k = k')
  | CFloat k, LPrimitive (PFloat k') => bool_decide (k = k')
  | CAV, _ => true
  | CString, LVarLen VlString => true
  | CArray, LVarLen (VlArray _) => true
  | CSum, LSum _ _ _ => true
  | CSumTag, LSum _ _ _ => true
  | CProduct, LProduct _ _ => true
  | _, _ => false
  end.

(** [as_bool], [as_u8], ..., [into_string], ..., and the tag of a sum. *)
Definition as_native (t : ColType) (v : AlgebraicValue) : option (native t) :=
  match t, v with
  | CBool, VBool b => Some b
  | CInt k, VInt k' z => if bool_decide (k = k') then Some z else None
  | CFloat k, VFloat k' z => if bool_decide (k = k') then Some z else None
  | CAV, v => Some v
  | CString, VString s => Some s
  | CArray, VArray a => Some a
  | CSum, VSum s => Some s
  | CProduct, VProduct p => Some p
  | CSumTag, VSum (MkSumValue tag _) => Some tag
  | _, _ => None
  end.

Inductive TypeError :=
| IndexOutOfBounds (desired : Z) (found : list ProductTypeElement)
| WrongType (desired : ColType) (found : AlgebraicType).

(** What a column of a value is at a type: the specification of [read_column]. *)
Definition field_as (t : ColType) (es : list ProductTypeElement) (val : ProductValue) (idx : Z) :
    result TypeError (native t) :=
  match pv_elements val !! Z.to_nat idx, es !! Z.to_nat idx with
  | Some v, Some e =>
      match as_native t v with Some x => Ok x | None => Err (WrongType t (el_type e)) end
  | _, _ => Err (IndexOutOfBounds idx es)
  end.

Section columns.
Context {B : Type} {BsI : BlobStore B}.
Implicit Types r : RowRef B.

Definition rr_row_layout r : RowTypeLayout := ti_row_layout (rr_table r).
Definition rr_page_and_offset {E} r : result E (Page * Z) := page_and_offset (ti_pages (rr_table r)) (rr_pointer r).

(** The bytes of a column of [n] bytes. *)
Definition column_data {E} r (layout : ProductTypeElementLayout) (n : Z) : result E (list byte) :=
  let* ' (page, offset) := rr_page_and_offset r in
  let* col_offset := offset_add offset (pel_offset layout) in
  page_get_row_data page col_offset n.

(** [AlgebraicValue::unchecked_read_column]. *)
Definition read_column_av {E} r (layout : ProductTypeElementLayout) : result E AlgebraicValue :=
  let* ' (page, page_offset) := rr_page_and_offset r in
  let* fixed_bytes := page_get_row_data page page_offset (row_size (rr_row_layout r)) in
  serialize_value fixed_bytes page (rr_blob_store r) (pel_ty layout) (pel_offset layout).

(** Through a value, whose form is not checked. *)
Definition read_column_via_av {E} (t : ColType) r (layout : ProductTypeElementLayout) : result E (native t) :=
  let* av := read_column_av r layout in
  match as_native t av with Some x => Ok x | None => Panic end.

(** [ReadColumn::unchecked_read_column]; the type is asserted to be compatible.
    A byte that is neither 0 nor 1 is no [bool]. *)
Definition unchecked_read_column {E} (t : ColType) r (layout : ProductTypeElementLayout) : result E (native t) :=
  if negb (is_compatible_type t (pel_ty layout)) then Panic
  else
    match t return result E (native t) with
    | CBool =>
        let* data := column_data r layout 1 in
        if le_val data =? 0 then Ok false else if le_val data =? 1 then Ok true else Panic
    | CInt k => let* data := column_data r layout (Z.of_nat (int_size k)) in Ok (int_from_le_bytes k data)
    | CFloat k => let* data := column_data r layout (Z.of_nat (float_size k)) in Ok (le_val data)
    | CSumTag => let* data := column_data r layout 1 in Ok (le_val data)
    | CAV => read_column_av r layout
    | CString => read_column_via_av CString r layout
    | CArray => read_column_via_av CArray r layout
    | CSum => read_column_via_av CSum r layout
    | CProduct => read_column_via_av CProduct r layout
    end.

(** [ReadColumn::read_column], and [RowRef::read_col]. *)
Definition read_column (t : ColType) r (idx : Z) : result TypeError (native t) :=
  match row_elements (rr_row_layout r) !! Z.to_nat idx with
  | None => Err (IndexOutOfBounds idx (product_type (row_elements (rr_row_layout r))))
  | Some col =>
      if negb (is_compatible_type t (pel_ty col)) then Err (WrongType t (algebraic_type (pel_ty col)))
      else unchecked_read_column t r col
  end.

(** [RowRef::read_col] with the error mapped to the column. *)
Definition read_col_or (t : ColType) r (col : Z) : result InvalidFieldError (native t) :=
  match read_column t r col with
  | Ok x => Ok x
  | Err _ => Err {| ife_col_pos := col |}
  | Panic => Panic
  | OutOfFuel => OutOfFuel
  end.

(** The columns of [project]; a [WrongType] is unreachable. *)
Definition read_cols r : list Z → result InvalidFieldError (list AlgebraicValue) :=
  fix go cols :=
    match cols with
    | [] => Ok []
    | col :: cols =>
        let* col_val := match read_column CAV r col with
                        | Ok x => Ok x
                        | Err (WrongType _ _) => Panic
                        | Err (IndexOutOfBounds _ _) => Err {| ife_col_pos := col |}
                        | Panic => Panic
                        | OutOfFuel => OutOfFuel
                        end in
        let* elements := go cols in
        Ok (col_val :: elements)
    end.

Definition project r (cols : ColList) : result InvalidFieldError AlgebraicValue :=
  match as_singleton cols with
  | Some head => read_col_or CAV r head
  | None => let* elements := read_cols r (col_list_iter cols) in Ok (VProduct (MkProductValue elements))
  end.

(** [project_unchecked]: a column that is out of bounds is undefined behaviour. *)
Definition col_layout {E} r (col : Z) : result E ProductTypeElementLayout := vec_get (row_elements (rr_row_layout r)) col.

Definition read_cols_unchecked {E} r : list Z → result E (list AlgebraicValue) :=
  fix go cols :=
    match cols with
    | [] => Ok []
    | col :: cols =>
        let* layout := col_layout r col in
        let* v := unchecked_read_column CAV r layout in
        let* elements := go cols in
        Ok (v :: elements)
    end.

Definition project_unchecked {E} r (cols : ColList) : result E AlgebraicValue :=
  match as_singleton cols with
  | Some head => let* layout := col_layout r head in unchecked_read_column CAV r layout
  | None => let* elements := read_cols_unchecked r (col_list_iter cols) in Ok (VProduct (MkProductValue elements))
  end.

(** ** Rows *)

(** [RowRef::new], with its assertion. *)
Definition row_ref_new {E} (table : TableInner) (blob_store : B) (squashed pointer : Z) : result E (RowRef B) :=
  let* present := inner_is_row_present table squashed pointer in
  if present then Ok {| rr_table := table; rr_blob_store := blob_store; rr_pointer := pointer |} else Panic.

Definition rr_to_product_value {E} r : result E ProductValue :=
  to_product_value (ti_pages (rr_table r)) (rr_blob_store r) (rr_row_layout r) (rr_pointer r).

(** [RowRef::get_row_data] and [static_layout]. *)
Definition rr_get_row_data {E} r : result E (list byte) :=
  let* ' (page, offset) := rr_page_and_offset r in
  page_get_row_data page offset (row_size (rr_row_layout r)).
Definition rr_static_layout r : option StaticLayout := option_map fst (ti_static_layout (rr_table r)).

(** [Serialize for RowRef], into a writer. *)
Definition rr_to_writer {W} `{!BufWriter W} r (w : W) : result BsatnError W :=
  let* ' (page, offset) := rr_page_and_offset r in
  row_to_writer w page (rr_blob_store r) offset (rr_row_layout r).

(** [ToBsatn for RowRef]. *)
Definition to_bsatn_vec r : result BsatnError (list byte) :=
  match rr_static_layout r with
  | Some static_layout => let* row := rr_get_row_data r in serialize_row_into_vec static_layout row
  | None => rr_to_writer r []
  end.

Definition to_bsatn_extend r (buf : list byte) : result BsatnError (list byte) :=
  match rr_static_layout r with
  | Some static_layout => let* row := rr_get_row_data r in serialize_row_extend static_layout buf row
  | None => rr_to_writer r buf
  end.

Definition static_bsatn_size r : option Z := option_map bsatn_length (rr_static_layout r).
End columns.

(** ** Columns of representations *)

Lemma reprs_lookup row base els vals offs objs i el :
  reprs row base els vals offs objs → els !! i = Some el →
  ∃ v offs' objs', vals !! i = Some v ∧ repr row (base + pel_offset el) (pel_ty el) v offs' objs' ∧
    ∀ R : Z → list byte → Prop, Forall2 R offs objs → Forall2 R offs' objs'.
Proof.
  intros H. revert i. induction H as [|base e els v vals offs1 objs1 offs2 objs2 Hr Hrs IH]; intros i Hi; [done|].
  pose proof (proj1 (repr_length row) _ _ _ _ _ Hr) as Hlen. destruct i as [|i]; cbn in Hi.
  - injection Hi as ->. exists v, offs1, objs1. split_and!; try done. by intros R [? _]%Forall2_app_inv.
  - destruct (IH i Hi) as (v' & offs' & objs' & Hv & Hr' & HR). exists v', offs', objs'. split_and!; try done.
    intros R [_ ?]%Forall2_app_inv; eauto.
Qed.

Lemma reprs_vals_length row base els vals offs objs :
  reprs row base els vals offs objs → length vals = length els.
Proof. induction 1; cbn; congruence. Qed.

(** A value has the native form if its type is compatible. *)
Lemma as_native_compatible row base ty v offs objs t :
  repr row base ty v offs objs →
  if is_compatible_type t ty then is_Some (as_native t v) else as_native t v = None.
Proof.
  intros H. destruct H as [base p v bs Hv _|base ty v ob Hv| |]; [destruct Hv|destruct Hv|..];
    destruct t; cbn in *; try done; repeat case_bool_decide; try done; by subst.
Qed.

(** ** What is read *)

Section rows.
Context {B : Type} {BsI : BlobStore B} {HashI : Blake3} {LawI : BlobStoreLaws B}.
Context (es : list ProductTypeElement) (rt : RowTypeLayout).
Context (Hrt : row_type_layout (E:=unit) es = Ok rt) (Hnr : contains_refs (TProduct es) = false).
Context (Hsize : ty_size (TProduct es) ≤ PAGE_DATA_SIZE).
Context (m0 : gmultiset (list byte)).

(** The reference is to a row of a table of the type, and the row has the value. *)
Definition refers (r : RowRef B) (val : ProductValue) : Prop :=
  rr_row_layout r = rt ∧ ∃ A rows,
    pages_inv rt m0 (ti_pages (rr_table r)) (rr_blob_store r) A rows ∧ A !! ptr_key (rr_pointer r) = Some val.

(** The static layout of the table is that of its row type. *)
Definition static_ok (t : TableInner) : Prop :=
  ∀ sl va, ti_static_layout t = Some (sl, va) → for_row_type (ti_row_layout t) = Ok sl.

Lemma refers_row r val :
  refers r val → ∃ p rows m gr,
    page_inv (row_size rt) (row_type_visitor rt) p rows ∧ rows !! page_offset (rr_pointer r) = Some gr ∧
    row_repr rt gr val ∧ holds (rr_blob_store r) (m ⊎ large (row_objects rows)) ∧
    ∀ E, rr_page_and_offset (E:=E) r = Ok (p, page_offset (rr_pointer r)).
Proof using.
  intros (_ & A & rows & Hinv & HA).
  destruct (pages_row _ _ _ _ _ _ _ _ Hinv HA) as (p & ro & gr & Hp & Hr & Hgr & Hpi & Hrep & _).
  destruct (pages_page_store _ _ _ _ _ _ _ _ Hinv Hr) as [m Hm]. exists p, ro, m, gr. split_and!; try done.
  intros E. unfold rr_page_and_offset, page_and_offset, try_page_and_offset. cbn [ptr_key fst] in Hp. by rewrite Hp.
Qed.

Lemma refers_column r vals i el :
  refers r (MkProductValue vals) → row_elements rt !! i = Some el →
  ∃ row v offs objs, vals !! i = Some v ∧ repr row (pel_offset el) (pel_ty el) v offs objs ∧
    (∀ E, read_column_av (E:=E) r el = Ok v) ∧
    (∀ E n, 0 ≤ n ≤ lt_size (pel_ty el) → column_data (E:=E) r el n = Ok (peek row (pel_offset el) n)) ∧
    good (pel_ty el) ∧ 0 ≤ pel_offset el ∧ pel_offset el + lt_size (pel_ty el) ≤ len row.
Proof using Hrt Hnr Hsize LawI.
  intros Hr Hel. destruct (refers_row _ _ Hr) as (p & rows & m & gr & Hp & Ho & Hrep & Hm & Hpo).
  destruct (row_good es rt Hrt Hnr Hsize) as [[G1 G2 G3 (end_ & Hch & Hend) G5 G6 HM HaM] Hrs]. cbn in Hrep.
  destruct (reprs_lookup _ _ _ _ _ _ _ _ Hrep Hel) as (v & offs & objs & Hv & Hrv & HR). rewrite Z.add_0_l in Hrv.
  pose proof (list_elem_of_lookup_2 _ _ _ Hel) as Hin. pose proof (proj1 (Forall_forall _ _) G6 _ Hin) as Hg.
  destruct (chained_placed _ _ G6 0 ltac:(lia) Hch) as (_ & Hpl & _ & _).
  destruct (proj1 (Forall_forall _ _) Hpl _ Hin) as (P1 & P2 & P3).
  destruct (row_reads (E:=unit) es rt Hrt Hnr Hsize _ _ _ _ _ _ Hp Ho Hm) as (_ & Hl & _).
  exists (gr_fixed gr), v, offs, objs. split_and!; [done..| | |done|done|lia].
  - intros E. unfold read_column_av. rewrite Hpo. cbn [rbind]. destruct Hr as (-> & _).
    destruct (row_reads (E:=E) es rt Hrt Hnr Hsize _ _ _ _ _ _ Hp Ho Hm) as (-> & _ & Hobs). cbn [rbind].
    apply (proj1 (repr_reads (E:=E) (gr_fixed gr) p (rr_blob_store r)) _ _ _ _ _ Hrv); (done || lia || by apply HR).
  - intros E n Hn. unfold column_data. rewrite Hpo. cbn [rbind].
    destruct (row_part (E:=E) _ Hrs _ _ _ _ _ (pel_offset el) n Hp Ho) as [-> Hd]; [lia..|]. exact Hd.
Qed.

(** A column is read as the column of the value, at every compatible type. *)
Lemma column_ok {E} t r vals i el :
  refers r (MkProductValue vals) → row_elements rt !! i = Some el → is_compatible_type t (pel_ty el) = true →
  ∃ v x, vals !! i = Some v ∧ as_native t v = Some x ∧ unchecked_read_column (E:=E) t r el = Ok x.
Proof using Hrt Hnr Hsize LawI.
  intros Hr Hel Ht. destruct (refers_column _ _ _ _ Hr Hel) as (row & v & offs & objs & Hv & Hrv & Hav & Hcd & Hg & H0 & Hl).
  pose proof (as_native_compatible _ _ _ _ _ _ t Hrv) as Hx. rewrite Ht in Hx. destruct Hx as [x Hx]. exists v, x. split_and!; [done|done|].
  unfold unchecked_read_column. rewrite Ht. cbn [negb].
  destruct t; unfold read_column_via_av; rewrite ?Hav; cbn [rbind]; rewrite ?Hx; try done.
  4: { by injection Hx as <-. }
  all: destruct Hrv as [base pt v' b Hb Hpk| | |base l vars po tag var v' offs objs Htag Hrow]; [destruct Hb|..]; try done.
  - rewrite Hcd by done. change 1 with (prim_size PBool). rewrite Hpk. cbn in *. injection Hx as <-.
    rewrite le_val_1, byte_to_of_Z. by destruct b.
  - cbn in Ht. apply bool_decide_eq_true in Ht as <-. cbn in Hx. rewrite bool_decide_true in Hx by done. injection Hx as <-.
    rewrite Hcd by (split; [lia|done]). change (Z.of_nat (int_size k)) with (prim_size (PInt k)).
    rewrite Hpk. cbn [rbind]. by rewrite int_from_le_bytes_ok.
  - cbn in Ht. apply bool_decide_eq_true in Ht as <-. cbn in Hx. rewrite bool_decide_true in Hx by done. injection Hx as <-.
    rewrite Hcd by (split; [lia|done]). change (Z.of_nat (float_size k)) with (prim_size (PFloat k)).
    rewrite Hpk. cbn [rbind]. by rewrite le_val_le_bytes, Z.mod_small.
  - cbn in Hx. injection Hx as <-. rewrite Hcd.
    + cbn [rbind]. rewrite (peek_1 _ _ (byte_of_Z tag)) by done. by rewrite le_val_1, byte_to_of_Z, Z.mod_small by exact Htag.
    + destruct Hg as (Ha%is_align_bounds & -> & _ & Hsz & _). unfold lt_size. simpl. lia.
Qed.

Lemma refers_length r vals : refers r (MkProductValue vals) → length vals = length (row_elements rt).
Proof using.
  intros Hr. destruct (refers_row _ _ Hr) as (p & rows & m & gr & _ & _ & Hrep & _). by eapply reprs_vals_length.
Qed.

Lemma read_column_ok t r val idx : refers r val → read_column t r idx = field_as t es val idx.
Proof using Hrt Hnr Hsize LawI.
  intros Hr. destruct val as [vals]. unfold read_column, field_as. rewrite (proj1 Hr). cbn [pv_elements].
  pose proof (row_product_type es rt Hrt Hnr Hsize) as Hpt. rewrite Hpt.
  destruct (row_elements rt !! Z.to_nat idx) as [el|] eqn:Hel.
  - assert (es !! Z.to_nat idx = Some {| el_name := pel_name el; el_type := algebraic_type (pel_ty el) |}) as ->.
    { rewrite <-Hpt. unfold product_type. by rewrite list_lookup_fmap, Hel. }
    destruct (refers_column _ _ _ _ Hr Hel) as (row & v & offs & objs & Hv & Hrv & _).
    pose proof (as_native_compatible _ _ _ _ _ _ t Hrv) as Hx. destruct (is_compatible_type t (pel_ty el)) eqn:Ht; cbn [negb].
    + destruct (column_ok (E:=TypeError) t _ _ _ _ Hr Hel Ht) as (v' & x & -> & -> & Hu). done.
    + by rewrite Hv, Hx.
  - apply lookup_ge_None in Hel. rewrite (lookup_ge_None_2 vals); [done|]. by rewrite (refers_length _ _ Hr).
Qed.

Lemma read_av_ok r val idx :
  refers r val → read_column CAV r idx =
    match pv_elements val !! Z.to_nat idx with Some v => Ok v | None => Err (IndexOutOfBounds idx es) end.
Proof using Hrt Hnr Hsize LawI.
  intros Hr. rewrite (read_column_ok _ _ _ _ Hr). unfold field_as. destruct val as [vals]. cbn [pv_elements].
  pose proof (refers_length _ _ Hr) as Hl. rewrite <-(length_map (λ e, {| el_name := pel_name e; el_type := algebraic_type (pel_ty e) |})) in Hl.
  change (map _ (row_elements rt)) with (product_type (row_elements rt)) in Hl.
  rewrite (row_product_type es rt Hrt Hnr Hsize) in Hl.
  destruct (vals !! Z.to_nat idx) as [v|] eqn:Hv; [|done].
  destruct (es !! Z.to_nat idx) eqn:He; [done|]. apply lookup_ge_None in He. apply lookup_lt_Some in Hv. lia.
Qed.

Lemma project_ok r val cols : refers r val → project r cols = pv_project val cols.
Proof using Hrt Hnr Hsize LawI.
  intros Hr. unfold project, pv_project, read_col_or, get_field. destruct (as_singleton cols) as [c|].
  - rewrite (read_av_ok _ _ _ Hr). by destruct (pv_elements val !! Z.to_nat c).
  - f_equal. induction (col_list_iter cols) as [|c l IH]; [done|]. cbn. rewrite (read_av_ok _ _ _ Hr), IH. unfold get_field.
    by destruct (pv_elements val !! Z.to_nat c).
Qed.

Lemma col_layout_ok {E} r vals c :
  refers r (MkProductValue vals) → 0 ≤ c < len vals →
  (let* layout := col_layout r c in unchecked_read_column CAV r layout : result E AlgebraicValue) =
  match vals !! Z.to_nat c with Some v => Ok v | None => Panic end.
Proof using Hrt Hnr Hsize LawI.
  intros Hr Hc. unfold col_layout. rewrite (proj1 Hr). unfold len in Hc. rewrite (refers_length _ _ Hr) in Hc.
  destruct (lookup_lt_is_Some_2 (row_elements rt) (Z.to_nat c)) as [el Hel]; [lia|].
  rewrite (vec_get_Ok _ _ el) by (done || lia). cbn [rbind].
  destruct (column_ok (E:=E) CAV _ _ _ _ Hr Hel eq_refl) as (v & x & -> & Hx & ->). by injection Hx as <-.
Qed.

Lemma read_cols_unchecked_ok {E} r vals cols :
  refers r (MkProductValue vals) → Forall (λ c, 0 ≤ c < len vals) cols →
  ∃ vs, get_fields (MkProductValue vals) cols = Ok vs ∧ read_cols_unchecked (E:=E) r cols = Ok vs.
Proof using Hrt Hnr Hsize LawI.
  intros Hr. induction 1 as [|c l Hc _ (vs & IH1 & IH2)]; [by eexists|].
  pose proof (col_layout_ok (E:=E) _ _ _ Hr Hc) as Hl. cbn [read_cols_unchecked get_fields]. rewrite IH1, IH2. unfold get_field. cbn [pv_elements].
  destruct (lookup_lt_is_Some_2 vals (Z.to_nat c)) as [v Hv]; [unfold len in *; lia|]. rewrite Hv in *.
  exists (v :: vs). split; [done|]. destruct (col_layout r c); cbn [rbind] in *; try done. by rewrite Hl.
Qed.

Lemma project_unchecked_ok {E} r vals cols :
  refers r (MkProductValue vals) → Forall (λ c, 0 ≤ c < len vals) (col_list_iter cols) →
  ∃ v, pv_project (MkProductValue vals) cols = Ok v ∧ project_unchecked (E:=E) r cols = Ok v.
Proof using Hrt Hnr Hsize LawI.
  intros Hr Hc. destruct (read_cols_unchecked_ok (E:=E) r vals _ Hr Hc) as (vs & H1 & H2).
  unfold project_unchecked, pv_project, as_singleton. rewrite H1, H2. cbn [rbind].
  destruct (col_list_iter cols) as [|c [|c' l]]; [by eexists| |by eexists].
  apply Forall_cons in Hc as [Hc _]. rewrite (col_layout_ok _ _ _ Hr Hc). unfold get_field. cbn [pv_elements].
  destruct (lookup_lt_is_Some_2 vals (Z.to_nat c)) as [v ->]; [unfold len in *; lia|by eexists].
Qed.

Lemma to_bsatn_extend_ok r val buf :
  refers r val → static_ok (rr_table r) → to_bsatn_extend r buf = to_writer buf (VProduct val).
Proof using Hrt Hnr Hsize LawI.
  intros Hr Hs. destruct (refers_row _ _ Hr) as (p & rows & m & gr & Hp & Ho & Hrep & Hm & Hpo).
  unfold to_bsatn_extend, rr_static_layout. destruct (ti_static_layout (rr_table r)) as [[sl va]|] eqn:Hsl; cbn [option_map fst].
  - unfold rr_get_row_data. rewrite Hpo, (proj1 Hr). cbn [rbind].
    destruct (row_reads (E:=BsatnError) es rt Hrt Hnr Hsize _ _ _ _ _ _ Hp Ho Hm) as (-> & Hl & _). cbn [rbind].
    apply Hs in Hsl. change (ti_row_layout (rr_table r)) with (rr_row_layout r) in Hsl. rewrite (proj1 Hr) in Hsl. destruct val as [vals]. cbn in Hrep.
    pose proof (static_fixed_row es rt Hrt Hnr Hsize sl Hsl _ _ _ _ Hl Hrep) as Hf.
    destruct (proj2 (repr_encodes _) _ _ _ _ _ Hrep) as [bs Hbs].
    destruct (serialize_static_row (E:=BsatnError) es rt Hrt Hnr Hsize sl Hsl _ _ bs Hf Hbs) as [Hss _].
    unfold serialize_row_extend. rewrite Hss. cbn [rbind]. rewrite assume_init_ok. cbn [rbind].
    pose proof (writes_value (VProduct (MkProductValue vals))) as Hw. unfold writes in Hw.
    change (bsatn (VProduct _)) with (bsatn_list bsatn vals) in Hw. change (bsatn_list bsatn vals = Some bs) in Hbs.
    rewrite Hbs in Hw. unfold to_writer. by rewrite Hw by apply _.
  - unfold rr_to_writer. rewrite Hpo, (proj1 Hr). cbn [rbind]. by eapply (row_to_writer_ok es rt Hrt Hnr Hsize).
Qed.

Lemma to_bsatn_vec_ok r val : refers r val → static_ok (rr_table r) → to_bsatn_vec r = to_vec (VProduct val).
Proof using Hrt Hnr Hsize LawI.
  intros Hr Hs. transitivity (to_bsatn_extend r []); [|by apply to_bsatn_extend_ok].
  unfold to_bsatn_vec, to_bsatn_extend, serialize_row_into_vec, serialize_row_extend.
  destruct (rr_static_layout r); [|done]. destruct (rr_get_row_data r); [|done..]. cbn [rbind].
  destruct (serialize_row_into _ _ _); [|done..]. cbn [rbind]. by destruct (assume_init _).
Qed.

Lemma row_ref_new_ok {E} t bs sq ptr val :
  let r := {| rr_table := t; rr_blob_store := bs; rr_pointer := ptr |} in
  refers r val → squashed_offset ptr = sq → row_ref_new (E:=E) t bs sq ptr = Ok r.
Proof using Hrt Hnr Hsize.
  intros r Hr Hsq. destruct (refers_row _ _ Hr) as (p & rows & m & gr & Hp & Ho & _ & _ & Hpo).
  unfold row_ref_new, inner_is_row_present. rewrite Hsq, Z.eqb_refl. cbn [negb].
  specialize (Hpo E). unfold rr_page_and_offset, page_and_offset in Hpo. cbn in Hpo.
  destruct (try_page_and_offset (ti_pages t) ptr); [|done]. injection Hpo as ->.
  change (ti_row_layout t) with (rr_row_layout r). rewrite (proj1 Hr).
  destruct (row_good es rt Hrt Hnr Hsize) as [_ Hrs]. change (page_offset ptr) with (page_offset (rr_pointer r)). by rewrite (row_present _ Hrs _ _ _ _ _ Hp Ho).
Qed.
End rows.

Section table_rows.
Context {Q B : Type} {QueueI : PageQueue Q} {QLawI : PageQueueLaws Q}.
Context {BsI : BlobStore B} {HashI : Blake3} {LawI : BlobStoreLaws B}.
Context (es : list ProductTypeElement) (rt : RowTypeLayout).
Context (Hrt : row_type_layout (E:=unit) es = Ok rt) (Hnr : contains_refs (TProduct es) = false).
Context (Hsize : ty_size (TProduct es) ≤ PAGE_DATA_SIZE) (Hcode : len (visitor_code rt) ≤ u16_MAX).
Context (m0 : gmultiset (list byte)).

(** C20. A reference to a row gives its value.  For every row that was written to
    a table: making the reference succeeds; reading a column at any type gives
    that column of the value, or the error for a column that does not exist or
    has another type; projecting the row is projecting the value, also without
    the checks if the columns exist; and the row is encoded as its value,
    whether it is copied with a static layout or written field by field. *)
Theorem row_ref_correct sq t (pool : PagePool Q) bs A ptr val :
  in_u 8 sq → ti_row_layout t = rt → static_ok t →
  table_pages es rt m0 sq (ti_pages t, pool, bs) A → A !! ptr_key ptr = Some val → squashed_offset ptr = sq →
  ∃ r, row_ref_new (E:=PagesError) t bs sq ptr = Ok r ∧
    rr_to_product_value (E:=PagesError) r = Ok val ∧
    (∀ ct idx, read_column ct r idx = field_as ct es val idx) ∧
    (∀ cols, project r cols = pv_project val cols) ∧
    (∀ cols, Forall (λ c, 0 ≤ c < len es) (col_list_iter cols) → project_unchecked r cols = pv_project val cols) ∧
    to_bsatn_vec r = to_vec (VProduct val) ∧
    (∀ buf, to_bsatn_extend r buf = to_writer buf (VProduct val)).
Proof using Hrt Hnr Hsize Hcode.
  intros Hsq Ht Hst Htp HA Hptr. destruct (table_pages_inv es rt Hrt Hnr Hsize Hcode m0 sq Hsq _ _ Htp) as ([rows Hinv] & _ & _).
  set (r := {| rr_table := t; rr_blob_store := bs; rr_pointer := ptr |}).
  assert (Hr : refers rt m0 r val) by (split; eauto). exists r. split_and!.
  - by eapply (row_ref_new_ok es rt Hrt Hnr Hsize).
  - unfold rr_to_product_value, rr_row_layout. cbn. rewrite Ht. by eapply (pages_read es rt Hrt Hnr Hsize).
  - intros. by eapply (read_column_ok es rt Hrt Hnr Hsize).
  - intros. by eapply (project_ok es rt Hrt Hnr Hsize).
  - intros cols Hc. destruct val as [vals].
    edestruct (project_unchecked_ok es rt Hrt Hnr Hsize) as (v & -> & ->); [done| |done].
    pose proof (refers_length _ _ _ _ Hr) as Hl. pose proof (row_product_type es rt Hrt Hnr Hsize) as Hpt.
    assert (length vals = length es) as Hl' by (rewrite Hl, <-Hpt; unfold product_type; by rewrite length_map).
    unfold len in *. by rewrite Hl'.
  - by eapply (to_bsatn_vec_ok es rt Hrt Hnr Hsize).
  - intros. by eapply (to_bsatn_extend_ok es rt Hrt Hnr Hsize).
Qed.
End table_rows.

(** ** Examples *)

Module Examples.
#[local] Instance last32_hash : Blake3 := BlobStore.Examples.last32_hash.
#[local] Existing Instances PagesThm.Examples.list_queue PagesThm.Examples.list_queue_laws.

Definition inner (ps : Pages) : TableInner := {|
  ti_row_layout := PagesThm.Examples.rt;
  ti_static_layout := None;
  ti_visitor_prog := row_type_visitor PagesThm.Examples.rt;
  ti_pages := ps;
|}.

(** The row of the example table is read through a reference. *)
Lemma row_ref_correct_witness :
  ∃ ptr ps' pool' bs' r,
    write_row_to_pages (row_type_visitor PagesThm.Examples.rt) PagesThm.Examples.rt PagesThm.Examples.val
      COMMITTED_STATE PagesThm.Examples.start = (Ok (ptr, 0), (ps', pool', bs')) ∧
    row_ref_new (E:=PagesError) (inner ps') bs' COMMITTED_STATE ptr = Ok r ∧
    read_column CString r 1 = Ok [x68; x69] ∧
    read_column CAV r 7 = Err (IndexOutOfBounds 7 PagesThm.Examples.es) ∧
    to_bsatn_vec r = to_vec (VProduct PagesThm.Examples.val).
Proof.
  destruct PagesThm.Examples.inserted as (ptr & ps' & pool' & bs' & Hw' & Hsq & Hr).
  destruct (row_ref_correct PagesThm.Examples.es PagesThm.Examples.rt BflatnThm.Examples.rt_row eq_refl PagesThm.Examples.es_size
    BflatnThm.Examples.rt_code ∅ COMMITTED_STATE (inner ps') pool' bs' _ ptr PagesThm.Examples.val PagesThm.Examples.committed_in_u eq_refl ltac:(done) Hr)
    as (r & Hnew & _ & Hcol & _ & _ & Hvec & _); [apply lookup_singleton_eq|exact Hsq|].
  exists ptr, ps', pool', bs', r. split_and!; [exact Hw'|exact Hnew| | |exact Hvec].
  - rewrite (Hcol CString 1). reflexivity.
  - rewrite (Hcol CAV 7). reflexivity.
Defined.
End Examples.
