(* ===== verification/TableIndex.v ===== *)
(** * Indexes of tables (crates/table/src/table_index/mod.rs, key_size.rs)

    An index maps the projection of a row to its indexed columns to the
    pointer of the row.  [TypedIndex] chooses the structure by the type of the
    key and the algorithm, and reads keys from rows at their native types;
    [TableIndex] adds the columns and the counters.  The theorems show that an
    index holds exactly the pairs of a key, as a value, and a pointer that were
    inserted and not deleted, and that its counters count them. *)

From Stdlib Require Import ZArith Lia.
From stdpp Require Import sorting gmap gmultiset list.
From S2P Require Import Prelude Buffer Sats Bsatn Mem Indexes PointerMap BlobStore Page Pages Layout RowTypeVisitor BflatnRepr BflatnThm PagesThm ColList RowRef ValueOrd BTreeMap IndexMaps.
Local Open Scope Z_scope.
Local Open Scope result_scope.
Local Open Scope st_scope.

(** ** Types of keys *)

(** [SumType::is_simple_enum] (crates/sats/src/sum_type.rs) and
    [SumTypeVariant::is_unit]. *)
Definition variant_is_unit (v : SumTypeVariant) : bool := match var_type v with TProduct [] => true | _ => false end.
Definition is_simple_enum (variants : list SumTypeVariant) : bool := forallb variant_is_unit variants.

(** [ProductType::project] (crates/sats/src/product_type.rs). *)
Definition get_element (es : list ProductTypeElement) (col_pos : Z) : result InvalidFieldError ProductTypeElement :=
  match es !! Z.to_nat col_pos with Some e => Ok e | None => Err {| ife_col_pos := col_pos |} end.

Definition get_elements (es : list ProductTypeElement) : list Z → result InvalidFieldError (list ProductTypeElement) :=
  fix go cols :=
    match cols with
    | [] => Ok []
    | col :: cols => let* e := get_element es col in let* fields := go cols in Ok (e :: fields)
    end.

Definition type_project (es : list ProductTypeElement) (cols : ColList) : result InvalidFieldError AlgebraicType :=
  match as_singleton cols with
  | Some head => let* f := get_element es head in Ok (el_type f)
  | None => let* fields := get_elements es (col_list_iter cols) in Ok (TProduct fields)
  end.

(** [IndexAlgorithm] (crates/schema/src/def.rs), and its columns as a list. *)
Inductive IndexAlgorithm :=
| BTree (columns : ColList)
| Direct (column : Z).

Definition algo_columns {E} (algo : IndexAlgorithm) : result E ColList :=
  match algo with BTree columns => col_list_clone columns | Direct column => col_list_from_iter 1 [column] end.

(** ** The size of keys (key_size.rs) *)

Definition sum_sizes {A E} (f : A → result E Z) : list A → result E Z :=
  fix go l := match l with [] => Ok 0 | x :: l => let* n := f x in let* m := go l in Ok (n + m) end.

(** [AlgebraicValue::Min] and [Max] are unreachable. *)
Fixpoint av_key_size {E} (v : AlgebraicValue) : result E Z :=
  match v with
  | VBool _ => Ok 1
  | VInt k _ => Ok (Z.of_nat (int_size k))
  | VFloat k _ => Ok (Z.of_nat (float_size k))
  | VString s => Ok (len s)
  | VSum s => sum_key_size s
  | VProduct p => product_key_size p
  | VArray a => array_key_size a
  | VMin | VMax => Panic
  end
with sum_key_size {E} (s : SumValue) : result E Z :=
  match s with MkSumValue _ value => let* n := av_key_size value in Ok (1 + n) end
with product_key_size {E} (p : ProductValue) : result E Z :=
  match p with MkProductValue elements => sum_sizes av_key_size elements end
with array_key_size {E} (a : ArrayValue) : result E Z :=
  match a with
  | ASum l => sum_sizes sum_key_size l
  | AProduct l => sum_sizes product_key_size l
  | ABool l => sum_sizes (λ _, Ok 1) l
  | AInt k l => sum_sizes (λ _, Ok (Z.of_nat (int_size k))) l
  | AFloat k l => sum_sizes (λ _, Ok (Z.of_nat (float_size k))) l
  | AString l => sum_sizes (λ s, Ok (len s)) l
  | AArray l => sum_sizes array_key_size l
  end.

(** ** [TypedIndex] *)

(** The key types of ordered maps.  [KInt] and others stand for a variant of
    [TypedIndex] each. *)
Inductive KeyTy :=
| KBool
| KInt (k : IntTy)
| KString
| KSumTag
| KAV.
#[export] Instance KeyTy_eq_dec : EqDecision KeyTy.
Proof. solve_decision. Defined.

Definition key_col (t : KeyTy) : ColType :=
  match t with KBool => CBool | KInt k => CInt k | KString => CString | KSumTag => CSumTag | KAV => CAV end.
Definition key (t : KeyTy) : Type := native (key_col t).

#[export] Instance key_ord `{!FloatOrd} (t : KeyTy) : Ord (key t) :=
  match t with
  | KBool => bool_ord
  | KInt _ | KSumTag => Z_ord
  | KString => list_ord
  | KAV => av_ord
  end.

(** [BtreeBool], ..., [UniqueBtreeBool], ..., [UniqueDirectU8], ... *)
Inductive TypedIndex :=
| Btree (t : KeyTy) (idx : MultiMap (key t) Z)
| UniqueBtree (t : KeyTy) (idx : UniqueMap (key t) Z)
| UniqueDirect (k : IntTy) (idx : UniqueDirectIndex)
| UniqueDirectSumTag (idx : UniqueDirectFixedCapIndex).

(** The native type of keys of ordered maps. *)
Definition key_ty_of (key_type : AlgebraicType) : KeyTy :=
  match key_type with
  | TBool => KBool
  | TInt k => KInt k
  | TString => KString
  | TSum variants => if is_simple_enum variants then KSumTag else KAV
  | _ => KAV
  end.

Definition typed_new {E} (key_type : AlgebraicType) (index_algo : IndexAlgorithm) (is_unique : bool) : result E TypedIndex :=
  match index_algo with
  | Direct _ =>
      if negb is_unique then Panic
      else
        match key_type with
        | TInt U8 => Ok (UniqueDirect U8 udi_default)
        | TInt U16 => Ok (UniqueDirect U16 udi_default)
        | TInt U32 => Ok (UniqueDirect U32 udi_default)
        | TInt U64 => Ok (UniqueDirect U64 udi_default)
        | TSum variants => if is_simple_enum variants then Ok (UniqueDirectSumTag (fci_new (len variants))) else Panic
        | _ => Panic
        end
  | BTree _ => Ok (if is_unique then UniqueBtree (key_ty_of key_type) [] else Btree (key_ty_of key_type) [])
  end.

Definition typed_clone_structure (ix : TypedIndex) : TypedIndex :=
  match ix with
  | Btree t _ => Btree t []
  | UniqueBtree t _ => UniqueBtree t []
  | UniqueDirect k _ => UniqueDirect k udi_default
  | UniqueDirectSumTag idx => UniqueDirectSumTag (fci_clone_structure idx)
  end.

Definition typed_is_unique (ix : TypedIndex) : bool := match ix with Btree _ _ => false | _ => true end.

Section typed_index.
Context {FloatI : FloatOrd} {B : Type} {BsI : BlobStore B}.
Implicit Types (row_ref : RowRef B) (cols : ColList) (ix : TypedIndex).

Definition key_size {E} (t : KeyTy) : key t → result E Z :=
  match t return key t → result E Z with
  | KBool | KSumTag => λ _, Ok 1
  | KInt k => λ _, Ok (Z.of_nat (int_size k))
  | KString => λ s, Ok (len (s : list byte))
  | KAV => av_key_size
  end.
Definition USIZE_BYTES : Z := 8.

(** A list that is not a singleton is undefined behaviour. *)
Definition project_to_singleton_key {E} (t : ColType) cols row_ref : result E (native t) :=
  match as_singleton cols with
  | None => Panic
  | Some col_pos => let* layout := col_layout row_ref col_pos in unchecked_read_column t row_ref layout
  end.

(** The key of a row, for insertions. *)
Definition insert_key {E} (t : KeyTy) cols row_ref : result E (key t) :=
  match t return result E (key t) with
  | KAV => project_unchecked row_ref cols
  | t => project_to_singleton_key (key_col t) cols row_ref
  end.

Definition mm_insert_at_type (t : KeyTy) cols row_ref : st (MultiMap (key t) Z) Z Z :=
  let! k := sres (insert_key t cols row_ref) in
  let! size := sres (key_size t k) in
  let! _ := smodify (λ idx, mm_insert idx k (rr_pointer row_ref)) in
  sret size.

Definition um_insert_at_type (t : KeyTy) cols row_ref : st (UniqueMap (key t) Z) Z Z :=
  let! k := sres (insert_key t cols row_ref) in
  let! size := sres (key_size t k) in
  let! _ := um_insert k (rr_pointer row_ref) in
  sret size.

(** The size is that of a [usize]. *)
Definition direct_insert_at_type (k : IntTy) cols row_ref : st UniqueDirectIndex Z Z :=
  let! key := sres (project_to_singleton_key (CInt k) cols row_ref) in
  let! _ := udi_insert key (rr_pointer row_ref) in
  sret USIZE_BYTES.

Definition direct_u8_insert_at_type cols row_ref : st UniqueDirectFixedCapIndex Z Z :=
  let! key := sres (project_to_singleton_key CSumTag cols row_ref) in
  let! _ := fci_insert key (rr_pointer row_ref) in
  sret USIZE_BYTES.

(** An operation on the structure of an index. *)
Definition on_idx {S E A} (c : S → TypedIndex) (m : st S E A) (idx : S) : result E A * TypedIndex :=
  let '(r, idx) := m idx in (r, c idx).

(** Returns the size of the key; the error is the row that is already there. *)
Definition typed_insert cols row_ref : st TypedIndex Z Z := λ ix,
  match ix with
  | Btree t idx => on_idx (Btree t) (mm_insert_at_type t cols row_ref) idx
  | UniqueBtree t idx => on_idx (UniqueBtree t) (um_insert_at_type t cols row_ref) idx
  | UniqueDirect k idx => on_idx (UniqueDirect k) (direct_insert_at_type k cols row_ref) idx
  | UniqueDirectSumTag idx => on_idx UniqueDirectSumTag (direct_u8_insert_at_type cols row_ref) idx
  end.

(** The key of a row, for deletions. *)
Definition read_singleton (t : ColType) cols row_ref : result InvalidFieldError (native t) :=
  match as_singleton cols with None => Panic | Some col_pos => read_col_or t row_ref col_pos end.
Definition delete_key (t : KeyTy) cols row_ref : result InvalidFieldError (key t) :=
  match t return result InvalidFieldError (key t) with
  | KAV => project row_ref cols
  | t => read_singleton (key_col t) cols row_ref
  end.

Definition then_some (b : bool) (n : Z) : option Z := if b then Some n else None.

Definition mm_delete_at_type (t : KeyTy) cols row_ref : st (MultiMap (key t) Z) InvalidFieldError (option Z) :=
  let! k := sres (delete_key t cols row_ref) in
  let! size := sres (key_size t k) in
  let! deleted := λ idx, let '(b, idx) := mm_delete idx k (rr_pointer row_ref) in (Ok b, idx) in
  sret (then_some deleted size).

Definition um_delete_at_type (t : KeyTy) cols row_ref : st (UniqueMap (key t) Z) InvalidFieldError (option Z) :=
  let! k := sres (delete_key t cols row_ref) in
  let! size := sres (key_size t k) in
  let! deleted := λ idx, let '(b, idx) := um_delete idx k in (Ok b, idx) in
  sret (then_some deleted size).

Definition direct_delete_at_type (k : IntTy) cols row_ref : st UniqueDirectIndex InvalidFieldError (option Z) :=
  let! key := sres (read_singleton (CInt k) cols row_ref) in
  let! deleted := udi_delete key in
  sret (then_some deleted USIZE_BYTES).

Definition direct_u8_delete_at_type cols row_ref : st UniqueDirectFixedCapIndex InvalidFieldError (option Z) :=
  let! key := sres (read_singleton CSumTag cols row_ref) in
  let! deleted := fci_delete key in
  sret (then_some deleted USIZE_BYTES).

(** Returns the size of the key if the row was present. *)
Definition typed_delete cols row_ref : st TypedIndex InvalidFieldError (option Z) := λ ix,
  match ix with
  | Btree t idx => on_idx (Btree t) (mm_delete_at_type t cols row_ref) idx
  | UniqueBtree t idx => on_idx (UniqueBtree t) (um_delete_at_type t cols row_ref) idx
  | UniqueDirect k idx => on_idx (UniqueDirect k) (direct_delete_at_type k cols row_ref) idx
  | UniqueDirectSumTag idx => on_idx UniqueDirectSumTag (direct_u8_delete_at_type cols row_ref) idx
  end.

(** A value as a native key; one that does not conform panics. *)
Definition expect_native {E} (t : ColType) (v : AlgebraicValue) : result E (native t) :=
  match as_native t v with Some k => Ok k | None => Panic end.

Definition expect_bound {E} (t : ColType) (b : Bound AlgebraicValue) : result E (Bound (native t)) :=
  match b with
  | Included v => let* k := expect_native t v in Ok (Included k)
  | Excluded v => let* k := expect_native t v in Ok (Excluded k)
  | Unbounded => Ok Unbounded
  end.

Definition typed_seek_point {E} ix (v : AlgebraicValue) : result E (list Z) :=
  match ix with
  | Btree t idx => let* k := expect_native (key_col t) v in Ok (mm_values_in_point idx (k : key t))
  | UniqueBtree t idx => let* k := expect_native (key_col t) v in Ok (um_values_in_point idx (k : key t))
  | UniqueDirect k idx => let* k := expect_native (CInt k) v in Ok (udi_seek_point idx k)
  | UniqueDirectSumTag idx => let* k := expect_native CSumTag v in Ok (fci_seek_point idx k)
  end.

Definition typed_seek_range {E} ix (lo hi : Bound AlgebraicValue) : result E (list Z) :=
  match ix with
  | Btree t idx =>
      let* start := expect_bound (key_col t) lo in
      let* end_ := expect_bound (key_col t) hi in
      mm_values_in_range idx (start : Bound (key t)) end_
  | UniqueBtree t idx =>
      let* start := expect_bound (key_col t) lo in
      let* end_ := expect_bound (key_col t) hi in
      um_values_in_range idx (start : Bound (key t)) end_
  | UniqueDirect k idx =>
      let* start := expect_bound (CInt k) lo in
      let* end_ := expect_bound (CInt k) hi in
      udi_seek_range idx start end_
  | UniqueDirectSumTag idx =>
      let* start := expect_bound CSumTag lo in
      let* end_ := expect_bound CSumTag hi in
      fci_seek_range idx start end_
  end.

Definition typed_clear ix : TypedIndex :=
  match ix with
  | Btree t idx => Btree t (mm_clear idx)
  | UniqueBtree t idx => UniqueBtree t (um_clear idx)
  | UniqueDirect k idx => UniqueDirect k (udi_clear idx)
  | UniqueDirectSumTag idx => UniqueDirectSumTag (fci_clear idx)
  end.

Definition typed_len ix : Z :=
  match ix with
  | Btree t idx => mm_len idx
  | UniqueBtree t idx => um_len idx
  | UniqueDirect k idx => udi_len idx
  | UniqueDirectSumTag idx => fci_len idx
  end.

Definition typed_num_keys ix : Z :=
  match ix with
  | Btree t idx => mm_num_keys idx
  | UniqueBtree t idx => um_num_keys idx
  | UniqueDirect k idx => udi_len idx
  | UniqueDirectSumTag idx => fci_len idx
  end.

(** Indexes of different kinds are unreachable. *)
Definition typed_can_merge ix (other : TypedIndex) (ignore : Z → bool) : result Z unit :=
  match ix, other with
  | Btree t _, Btree t' _ => if bool_decide (t = t') then Ok tt else Panic
  | UniqueBtree t idx, UniqueBtree t' other =>
      match decide (t = t') with
      | left H => um_can_merge idx (eq_rect_r (λ t, UniqueMap (key t) Z) other H) ignore
      | right _ => Panic
      end
  | UniqueDirect k idx, UniqueDirect k' other => if bool_decide (k = k') then udi_can_merge idx other ignore else Panic
  | UniqueDirectSumTag idx, UniqueDirectSumTag other => fci_can_merge idx other ignore
  | _, _ => Panic
  end.
End typed_index.

(** ** [TableIndex] *)

Record TableIndex := {
  ix_idx : TypedIndex;
  ix_key_type : AlgebraicType;
  ix_num_rows : Z;
  ix_num_key_bytes : Z;
  ix_indexed_columns : ColList;
}.

Definition table_index_new (row_type : list ProductTypeElement) (index_algo : IndexAlgorithm) (is_unique : bool) :
    result InvalidFieldError TableIndex :=
  let* indexed_columns := algo_columns index_algo in
  let* key_type := type_project row_type indexed_columns in
  let* typed_index := typed_new key_type index_algo is_unique in
  Ok {| ix_idx := typed_index; ix_key_type := key_type; ix_num_rows := 0; ix_num_key_bytes := 0;
        ix_indexed_columns := indexed_columns |}.

Definition ix_clone_structure {E} (t : TableIndex) : result E TableIndex :=
  let* indexed_columns := col_list_clone (ix_indexed_columns t) in
  Ok {| ix_idx := typed_clone_structure (ix_idx t); ix_key_type := ix_key_type t; ix_num_rows := 0;
        ix_num_key_bytes := 0; ix_indexed_columns := indexed_columns |}.

Definition ix_is_unique (t : TableIndex) : bool := typed_is_unique (ix_idx t).

(** A new structure and new counters. *)
Definition ix_with (t : TableIndex) (idx : TypedIndex) (num_rows num_key_bytes : Z) : TableIndex :=
  {| ix_idx := idx; ix_key_type := ix_key_type t; ix_num_rows := num_rows; ix_num_key_bytes := num_key_bytes;
     ix_indexed_columns := ix_indexed_columns t |}.

Section table_index.
Context {FloatI : FloatOrd} {B : Type} {BsI : BlobStore B}.
Implicit Types (row_ref : RowRef B) (t : TableIndex).

Definition ix_on_idx {E A} (m : st TypedIndex E A) : st TableIndex E A := λ t,
  let '(r, idx) := m (ix_idx t) in (r, ix_with t idx (ix_num_rows t) (ix_num_key_bytes t)).
Definition ix_counters {E} (f : Z → Z → result E (Z * Z)) : st TableIndex E unit := λ t,
  match f (ix_num_rows t) (ix_num_key_bytes t) with
  | Ok (num_rows, num_key_bytes) => (Ok tt, ix_with t (ix_idx t) num_rows num_key_bytes)
  | Err e => (Err e, t)
  | Panic => (Panic, t)
  | OutOfFuel => (OutOfFuel, t)
  end.

Definition check_and_insert row_ref : st TableIndex Z unit := λ t,
  (let! key_size := ix_on_idx (typed_insert (ix_indexed_columns t) row_ref) in
   ix_counters (λ num_rows num_key_bytes,
     let* num_rows := add_u 64 num_rows 1 in
     let* num_key_bytes := add_u 64 num_key_bytes key_size in
     Ok (num_rows, num_key_bytes))) t.

Definition ix_delete row_ref : st TableIndex InvalidFieldError bool := λ t,
  (let! deleted := ix_on_idx (typed_delete (ix_indexed_columns t) row_ref) in
   match deleted with
   | Some size_in_bytes =>
       let! _ := ix_counters (λ num_rows num_key_bytes,
         let* num_rows := sub_u num_rows 1 in
         let* num_key_bytes := sub_u num_key_bytes size_in_bytes in
         Ok (num_rows, num_key_bytes)) in
       sret true
   | None => sret false
   end) t.

Definition ix_seek_point {E} t (key : AlgebraicValue) : result E (list Z) := typed_seek_point (ix_idx t) key.
Definition ix_seek_range {E} t (lo hi : Bound AlgebraicValue) : result E (list Z) := typed_seek_range (ix_idx t) lo hi.

Definition contains_any {E} t (value : AlgebraicValue) : result E bool :=
  let* rows := ix_seek_point t value in Ok (match rows with [] => false | _ => true end).
Definition ix_count {E} t (value : AlgebraicValue) : result E (option Z) :=
  let* rows := ix_seek_point t value in Ok (if len rows =? 0 then None else Some (len rows)).

(** The first violation ends the insertions. *)
Fixpoint build_from_rows (rows : list (RowRef B)) : st TableIndex Z unit :=
  match rows with
  | [] => sret tt
  | row_ref :: rows => let! _ := check_and_insert row_ref in build_from_rows rows
  end.

Definition ix_can_merge t (other : TableIndex) (ignore : Z → bool) : result Z unit :=
  typed_can_merge (ix_idx t) (ix_idx other) ignore.

Definition ix_clear t : TableIndex := ix_with t (typed_clear (ix_idx t)) 0 0.
Definition ix_num_keys t : Z := typed_num_keys (ix_idx t).
End table_index.

(** ** Keys as values *)

(** The value that a native key stands for; a simple enum has no payload. *)
Definition key_value (t : KeyTy) : key t → AlgebraicValue :=
  match t return key t → AlgebraicValue with
  | KBool => VBool
  | KInt k => VInt k
  | KString => VString
  | KSumTag => λ tag, VSum (MkSumValue tag (VProduct (MkProductValue [])))
  | KAV => λ v, v
  end.

Lemma as_native_key_value t (k : key t) : as_native (key_col t) (key_value t k) = Some k.
Proof. destruct t; try done. cbn. by rewrite bool_decide_true. Qed.

#[export] Instance key_ord_laws `{!FloatOrd, !FloatOrdLaws} t : OrdLaws (key t).
Proof. destruct t; apply _. Qed.

Lemma key_value_cmp `{!FloatOrd} t (k1 k2 : key t) : cmp (key_value t k1) (key_value t k2) = cmp k1 k2.
Proof.
  destruct t; try done; unfold cmp, av_ord; cbn -[Z.compare Z.add]; rewrite ?Z.compare_refl; try done.
  unfold cmp, Z_ord. by destruct (Z.compare k1 k2).
Qed.

(** ** The size of a value *)

Definition has_size {A} (f : ∀ E, A → result E Z) (x : A) : Prop := ∃ n, 0 ≤ n ∧ ∀ E, f E x = Ok n.

Lemma sum_sizes_ok {A} (f : ∀ E, A → result E Z) l : Forall (has_size f) l → has_size (λ E, sum_sizes (f E)) l.
Proof.
  induction 1 as [|x l (n & Hn & Hx) _ (m & Hm & IH)]; [by exists 0|]. exists (n + m). split; [lia|]. intros E. cbn. by rewrite Hx, IH.
Qed.

(** Elements that satisfy a predicate which gives them a size. *)
Lemma all_list_size {A} (f : ∀ E, A → result E Z) (P : A → Prop) l :
  Forall (λ x, P x → has_size f x) l → all_list P l → has_size (λ E, sum_sizes (f E)) l.
Proof. intros Hl Ha. apply sum_sizes_ok. induction Hl as [|x l Hx _ IH]; constructor; destruct Ha; auto. Qed.

Lemma const_size {A} (f : A → Z) (l : list A) : (∀ x, 0 ≤ f x) → has_size (λ E, sum_sizes (λ x, Ok (f x))) l.
Proof. intros Hf. apply (sum_sizes_ok (λ E x, Ok (f x))), Forall_true. intros x. by exists (f x). Qed.

Lemma typed_size v ts ty : typed ts ty v → has_size (λ E, av_key_size) v.
Proof.
  revert v ts ty. apply (AlgebraicValue_mut
    (λ v, ∀ ts ty, typed ts ty v → has_size (λ E, av_key_size) v)
    (λ s, ∀ ts vs, typed_sum ts vs s → has_size (λ E, sum_key_size) s)
    (λ p, ∀ ts es, typed_product ts es p → has_size (λ E, product_key_size) p)
    (λ a, ∀ ts t, typed_array ts t a → has_size (λ E, array_key_size) a)).
  all: try (intros; by apply const_size; intros; unfold len; lia).
  - intros ts ty (ty' & _ & Hv)%typed_unfold. done.
  - intros ts ty (ty' & _ & Hv)%typed_unfold. done.
  - intros s IH ts ty (ty' & _ & Hv)%typed_unfold. destruct ty'; try done. by eapply IH.
  - intros p IH ts ty (ty' & _ & Hv)%typed_unfold. destruct ty'; try done. by eapply IH.
  - intros a IH ts ty (ty' & _ & Hv)%typed_unfold. destruct ty'; try done. by eapply IH.
  - intros b ts ty _. by exists 1.
  - intros k z ts ty _. eexists. split; [|done]. lia.
  - intros k z ts ty _. eexists. split; [|done]. lia.
  - intros str ts ty _. eexists. split; [|done]. unfold len. lia.
  - intros tag v IH ts vs [_ (var & _ & Hv)]. destruct (IH _ _ Hv) as (n & Hn & He). exists (1 + n). split; [lia|].
    intros E. cbn. by rewrite He.
  - intros l Hl ts es Hv. apply (sum_sizes_ok (λ E, av_key_size)). revert es Hv.
    induction Hl as [|v l Hv _ IH]; intros es Hp; constructor; destruct es; try done; destruct Hp; eauto.
  - intros l Hl ts t (t' & _ & Hv)%typed_array_unfold. destruct t'; try done. destruct Hv as [_ Hv].
    eapply (all_list_size (λ E, sum_key_size)); [|exact Hv]. eapply Forall_impl; [exact Hl|]. eauto.
  - intros l Hl ts t (t' & _ & Hv)%typed_array_unfold. destruct t'; try done. destruct Hv as [_ Hv].
    eapply (all_list_size (λ E, product_key_size)); [|exact Hv]. eapply Forall_impl; [exact Hl|]. eauto.
  - intros l Hl ts t (t' & _ & Hv)%typed_array_unfold. destruct t'; try done. destruct Hv as [_ Hv].
    eapply (all_list_size (λ E, array_key_size)); [|exact Hv]. eapply Forall_impl; [exact Hl|]. eauto.
Qed.

(** Sizes are not negative. *)
Lemma sum_sizes_nonneg {A E} (f : A → result E Z) l n :
  Forall (λ x, ∀ n, f x = Ok n → 0 ≤ n) l → sum_sizes f l = Ok n → 0 ≤ n.
Proof.
  intros Hl. revert n. induction Hl as [|x l Hx _ IH]; intros n; cbn; [by intros [= <-]|].
  destruct (f x) as [a| | |]; try done. cbn [rbind]. destruct (sum_sizes f l) as [b| | |]; try done. intros [= <-].
  specialize (Hx a eq_refl). specialize (IH b eq_refl). lia.
Qed.
Lemma size_nonneg {E} v : ∀ n, av_key_size (E:=E) v = Ok n → 0 ≤ n.
Proof.
  apply (AlgebraicValue_mut (λ v, ∀ n, av_key_size (E:=E) v = Ok n → 0 ≤ n) (λ s, ∀ n, sum_key_size (E:=E) s = Ok n → 0 ≤ n)
    (λ p, ∀ n, product_key_size (E:=E) p = Ok n → 0 ≤ n) (λ a, ∀ n, array_key_size (E:=E) a = Ok n → 0 ≤ n)).
  all: try done.
  all: try (intros l Hl n; by apply sum_sizes_nonneg).
  all: try (intros l n; apply sum_sizes_nonneg, Forall_true; intros x m [= <-]; unfold len; lia).
  all: try (intros k l n; apply sum_sizes_nonneg, Forall_true; intros x m [= <-]; lia).
  - intros b n [= <-]. lia.
  - intros k z n [= <-]. lia.
  - intros k z n [= <-]. lia.
  - intros str n [= <-]. unfold len. lia.
  - intros tag v' IH n. cbn. destruct (av_key_size v') as [m| | |]; try done. intros [= <-]. specialize (IH m eq_refl). lia.
Qed.

(** ** Reading keys *)

Section reading.
Context {B : Type} {BsI : BlobStore B} {HashI : Blake3} {LawI : BlobStoreLaws B}.
Context (es : list ProductTypeElement) (rt : RowTypeLayout).
Context (Hrt : row_type_layout (E:=unit) es = Ok rt) (Hnr : contains_refs (TProduct es) = false).
Context (Hsize : ty_size (TProduct es) ≤ PAGE_DATA_SIZE).
Context (m0 : gmultiset (list byte)).
Implicit Types r : RowRef B.

(** The columns of a projection exist. *)
Lemma get_fields_range vals cols vs :
  Forall (in_u 16) cols → get_fields (MkProductValue vals) cols = Ok vs → Forall (λ c, 0 ≤ c < len vals) cols.
Proof.
  intros Hc. revert vs. induction Hc as [|c l Hc _ IH]; intros vs; [done|]. cbn. unfold get_field. cbn [pv_elements].
  destruct (vals !! Z.to_nat c) as [v|] eqn:Hv; [|done]. cbn [rbind]. destruct (get_fields _ l) as [vs'| | |] eqn:Hg; try done.
  intros _. apply lookup_lt_Some in Hv. unfold in_u, len in *. constructor; [lia|by eapply IH].
Qed.
Definition cols_ok (cols : ColList) : Prop := Forall (in_u 16) (col_list_iter cols).

Lemma project_range vals cols v :
  cols_ok cols → pv_project (MkProductValue vals) cols = Ok v → Forall (λ c, 0 ≤ c < len vals) (col_list_iter cols).
Proof.
  intros Hc. unfold cols_ok, pv_project, as_singleton in *.
  destruct (get_fields _ _) as [vs| | |] eqn:Hg; [by intros _; eapply get_fields_range|..]; destruct (col_list_iter cols) as [|c [|c' l]];
    try done; revert Hg; cbn; unfold get_field; cbn [pv_elements]; by destruct (vals !! Z.to_nat c).
Qed.

(** A native key is read from the only column. *)
Lemma singleton_key {E} t r val cols (k : key t) :
  refers rt m0 r val → cols_ok cols → pv_project val cols = Ok (key_value t k) → t ≠ KAV →
  project_to_singleton_key (E:=E) (key_col t) cols r = Ok k ∧ read_singleton (key_col t) cols r = Ok k.
Proof using Hrt Hnr Hsize LawI.
  intros Hr Hc Hp Ht. destruct val as [vals]. pose proof (project_range _ _ _ Hc Hp) as Hin. revert Hp Hin.
  unfold pv_project, project_to_singleton_key, read_singleton, as_singleton.
  destruct (col_list_iter cols) as [|c [|c' l]].
  1,3: generalize (get_fields (MkProductValue vals)) as f; intros f Hp; exfalso; destruct (f _); try done; by destruct t.
  intros Hp [Hc0 _]%Forall_cons. unfold get_field in Hp. cbn [pv_elements] in Hp.
  destruct (vals !! Z.to_nat c) as [v|] eqn:Hv; [|done]. injection Hp as ->.
  pose proof (read_column_ok es rt Hrt Hnr Hsize m0 (key_col t) r _ c Hr) as Hrc. unfold field_as in Hrc. cbn [pv_elements] in Hrc.
  rewrite Hv, as_native_key_value in Hrc. pose proof (row_product_type es rt Hrt Hnr Hsize) as Hpt.
  pose proof (refers_length rt m0 r vals Hr) as Hl. destruct (lookup_lt_is_Some_2 (row_elements rt) (Z.to_nat c)) as [el Hel].
  { rewrite <-Hl. by eapply lookup_lt_Some. }
  destruct (es !! Z.to_nat c) as [e|] eqn:He.
  2: { apply lookup_ge_None in He. rewrite <-Hpt in He. unfold product_type in He. rewrite length_map in He. apply lookup_lt_Some in Hel. lia. }
  unfold read_col_or. rewrite Hrc. split; [|done]. unfold col_layout. rewrite (proj1 Hr).
  rewrite (vec_get_Ok _ _ el) by (done || lia). cbn [rbind]. revert Hrc. unfold read_column. rewrite (proj1 Hr), Hel.
  destruct (is_compatible_type (key_col t) (pel_ty el)) eqn:Hcp; cbn [negb]; [|done]. intros _.
  destruct (column_ok (E:=E) es rt Hrt Hnr Hsize m0 (key_col t) r vals _ el Hr Hel Hcp) as (v' & x & Hv' & Hx & ->).
  rewrite Hv in Hv'. injection Hv' as <-. rewrite as_native_key_value in Hx. by injection Hx as <-.
Qed.

Lemma key_reads {E} t r val cols (k : key t) :
  refers rt m0 r val → cols_ok cols → pv_project val cols = Ok (key_value t k) →
  insert_key (E:=E) t cols r = Ok k ∧ delete_key t cols r = Ok k.
Proof using Hrt Hnr Hsize LawI.
  intros Hr Hc Hp. destruct (decide (t = KAV)) as [->|Ht].
  - cbn [key_value insert_key delete_key] in *. rewrite (project_ok es rt Hrt Hnr Hsize m0 r val cols Hr). split; [|done].
    destruct val as [vals]. destruct (project_unchecked_ok (E:=E) es rt Hrt Hnr Hsize m0 r vals cols Hr) as (v & H1 & H2);
      [by eapply project_range|]. rewrite Hp in H1. injection H1 as <-. exact H2.
  - destruct (singleton_key (E:=E) t r val cols k Hr Hc Hp Ht) as [H1 H2]. by destruct t.
Qed.
End reading.

(** ** An index is its entries *)

Section typed_laws.
Context {FloatI : FloatOrd} {FLawI : FloatOrdLaws} {B : Type} {BsI : BlobStore B}.
Implicit Types (ix : TypedIndex) (r : RowRef B) (cols : ColList) (v : AlgebraicValue).

Definition ix_ty ix : KeyTy :=
  match ix with
  | Btree t _ | UniqueBtree t _ => t
  | UniqueDirect k _ => KInt k
  | UniqueDirectSumTag _ => KSumTag
  end.

Definition native_entries ix : list (key (ix_ty ix) * Z) :=
  match ix return list (key (ix_ty ix) * Z) with
  | Btree _ idx => mm_entries idx
  | UniqueBtree _ idx => idx
  | UniqueDirect _ idx => udi_entries idx
  | UniqueDirectSumTag idx => fci_entries idx
  end.
Definition typed_entries ix : list (AlgebraicValue * Z) := map_keys (key_value (ix_ty ix)) (native_entries ix).

Definition typed_ok ix : Prop :=
  match ix with
  | Btree _ idx => bt_ok idx
  | UniqueBtree _ idx => bt_ok idx
  | UniqueDirect _ idx => udi_ok idx
  | UniqueDirectSumTag idx => fci_ok idx
  end.

(** The keys that an index has room for. *)
Definition key_fits ix : key (ix_ty ix) → Prop :=
  match ix return key (ix_ty ix) → Prop with
  | Btree _ _ | UniqueBtree _ _ => λ _, True
  | UniqueDirect _ _ => λ k : Z, 0 ≤ k
  | UniqueDirectSumTag idx => λ k : Z, 0 ≤ k < len (fci_array idx)
  end.
Definition conforms ix v : Prop := ∃ k, key_fits ix k ∧ v = key_value (ix_ty ix) k.

Definition is_direct ix : bool := match ix with Btree _ _ | UniqueBtree _ _ => false | _ => true end.
(** The bytes that are counted for a key. *)
Definition value_bytes v : Z := match av_key_size (E:=unit) v with Ok n => n | _ => 0 end.
Definition sized v : Prop := 0 ≤ value_bytes v ∧ ∀ E, av_key_size (E:=E) v = Ok (value_bytes v).
Definition entry_bytes ix v : Z := if is_direct ix then USIZE_BYTES else value_bytes v.

Lemma entry_bytes_nonneg ix v : 0 ≤ entry_bytes ix v.
Proof.
  unfold entry_bytes, value_bytes. destruct (is_direct ix); [done|]. destruct (av_key_size v) as [n| | |] eqn:Hn; try done.
  by eapply size_nonneg.
Qed.

Lemma typed_sized ts ty v : typed ts ty v → sized v.
Proof.
  intros (n & Hn & He)%typed_size. unfold sized, value_bytes. rewrite He. by split.
Qed.

Lemma key_size_value {E} t (k : key t) : key_size (E:=E) t k = av_key_size (key_value t k).
Proof. by destruct t. Qed.

Lemma same_keys t (l1 l2 : list (key t * Z)) :
  l1 ≡ₚ l2 → same_entries (map_keys (key_value t) l1) (map_keys (key_value t) l2).
Proof. intros H. apply (map_keys_same _ (key_value_cmp t)). by rewrite H. Qed.

Lemma direct_point i idx (k : key (KInt i)) : 0 ≤ k → udi_seek_point idx k ≡ₚ select (at_key (OrdI:=key_ord (KInt i)) k) (udi_entries idx).
Proof. apply udi_point_ok. Qed.
Lemma direct_u8_point idx (k : key KSumTag) : 0 ≤ k → fci_seek_point idx k ≡ₚ select (at_key (OrdI:=key_ord KSumTag) k) (fci_entries idx).
Proof. apply fci_point_ok. Qed.

Lemma typed_insert_ok ix cols r v :
  typed_ok ix → conforms ix v → ptr_ok (rr_pointer r) → sized v →
  (∀ k, v = key_value (ix_ty ix) k → insert_key (E:=Z) (ix_ty ix) cols r = Ok k) →
  (∃ ix', typed_insert cols r ix = (Ok (entry_bytes ix v), ix') ∧ typed_ok ix' ∧ typed_clone_structure ix' = typed_clone_structure ix ∧
     same_entries (typed_entries ix') ((v, rr_pointer r) :: typed_entries ix) ∧
     (typed_is_unique ix = true → select (at_key v) (typed_entries ix) = [])) ∨
  (typed_is_unique ix = true ∧ ∃ q, typed_insert cols r ix = (Err q, ix) ∧ select (at_key v) (typed_entries ix) ≡ₚ [q]).
Proof using FLawI.
  intros Hok (k & Hfit & ->) Hp [_ Hs] Hk. specialize (Hk k eq_refl). unfold typed_entries.
  rewrite (select_at_map_keys _ (key_value_cmp _)).
  destruct ix as [t idx|t idx|i idx|idx]; cbn [ix_ty typed_ok key_fits native_entries typed_is_unique typed_insert] in *;
    unfold entry_bytes; cbn [is_direct]; unfold on_idx.
  - left. unfold mm_insert_at_type, sbind, sres. rewrite Hk, key_size_value, Hs. cbn.
    destruct (mm_insert_ok idx k (rr_pointer r) Hok) as [H1 H2]. eexists. split; [done|]. split_and!; [done|done| |done].
    by apply (map_keys_same _ (key_value_cmp t)) in H2.
  - unfold um_insert_at_type, sbind, sres. rewrite Hk, key_size_value, Hs. cbn [rbind].
    destruct (um_insert_ok idx k (rr_pointer r) Hok) as [(idx' & -> & H1 & H2 & H3)|(q & -> & H)]; [left|right].
    + eexists. split; [done|]. split_and!; [done|done| |done]. by apply (map_keys_same _ (key_value_cmp t)) in H3.
    + split; [done|]. exists q. by rewrite H.
  - pose proof (direct_point i idx k Hfit) as Hpt. unfold direct_insert_at_type, sbind, sres. cbn [insert_key key_col] in Hk. rewrite Hk.
    destruct (udi_insert_ok idx k (rr_pointer r) Hok Hfit Hp) as [(H0 & idx' & -> & H1 & H2)|(q & H0 & ->)]; [left|right].
    + eexists. split; [done|]. split_and!; [done|done| |].
      * exact (same_keys (KInt i) _ _ H2).
      * intros _. rewrite H0 in Hpt. by apply Permutation_nil_r.
    + split; [done|]. exists q. split; [done|]. by rewrite H0 in Hpt.
  - pose proof (direct_u8_point idx k (proj1 Hfit)) as Hpt. unfold direct_u8_insert_at_type, sbind, sres. cbn [insert_key key_col] in Hk. rewrite Hk.
    destruct (fci_insert_ok idx k (rr_pointer r) Hok Hfit Hp) as [(H0 & idx' & -> & H1 & Hl & H2)|(q & H0 & ->)]; [left|right].
    + eexists. split; [done|]. split_and!; [done| | |].
      * cbn. unfold fci_clone_structure. by rewrite Hl.
      * exact (same_keys KSumTag _ _ H2).
      * intros _. rewrite H0 in Hpt. by apply Permutation_nil_r.
    + split; [done|]. exists q. split; [done|]. by rewrite H0 in Hpt.
Qed.

(** A unique index has at most one row for a key. *)
Lemma typed_point_ok {E} ix v :
  typed_ok ix → conforms ix v →
  ∃ l, typed_seek_point (E:=E) ix v = Ok l ∧ l ≡ₚ select (at_key v) (typed_entries ix) ∧
    (typed_is_unique ix = true → (length l ≤ 1)%nat).
Proof using FLawI.
  intros Hok (k & Hfit & ->). unfold typed_entries. rewrite (select_at_map_keys _ (key_value_cmp _)).
  destruct ix as [t idx|t idx|i idx|idx]; cbn [ix_ty typed_ok key_fits native_entries typed_is_unique typed_seek_point] in *.
  - unfold expect_native. rewrite as_native_key_value. cbn [rbind]. eexists. split; [done|]. split; [|done]. by apply mm_point_ok.
  - unfold expect_native. rewrite as_native_key_value. cbn [rbind]. eexists. split; [done|].
    rewrite <-(um_point_ok idx k Hok). split; [done|]. intros _. unfold um_values_in_point. destruct (bt_get idx k); cbn; lia.
  - pose proof (direct_point i idx k Hfit) as Hpt. unfold expect_native. cbn [as_native key_value]. rewrite bool_decide_true by done.
    cbn [rbind]. eexists. split; [done|]. split; [exact Hpt|]. intros _. unfold udi_seek_point. destruct (udi_slot idx k); cbn; lia.
  - pose proof (direct_u8_point idx k (proj1 Hfit)) as Hpt. cbn [rbind]. eexists. split; [done|]. split; [exact Hpt|].
    intros _. unfold fci_seek_point. destruct (fci_slot idx k); cbn; lia.
Qed.

Lemma typed_delete_ok ix cols r v :
  typed_ok ix → conforms ix v → sized v →
  (∀ k, v = key_value (ix_ty ix) k → delete_key (ix_ty ix) cols r = Ok k) →
  (rr_pointer r ∈ select (at_key v) (typed_entries ix) →
   ∃ ix', typed_delete cols r ix = (Ok (Some (entry_bytes ix v)), ix') ∧ typed_ok ix' ∧
     typed_clone_structure ix' = typed_clone_structure ix ∧ same_entries (typed_entries ix) ((v, rr_pointer r) :: typed_entries ix')) ∧
  (select (at_key v) (typed_entries ix) = [] → typed_delete cols r ix = (Ok None, ix)).
Proof using FLawI.
  intros Hok (k & Hfit & ->) [_ Hs] Hk. specialize (Hk k eq_refl). unfold typed_entries.
  rewrite (select_at_map_keys _ (key_value_cmp _)).
  destruct ix as [t idx|t idx|i idx|idx]; cbn [ix_ty typed_ok key_fits native_entries typed_is_unique typed_delete] in *;
    unfold entry_bytes; cbn [is_direct]; unfold on_idx.
  - unfold mm_delete_at_type, sbind, sres. rewrite Hk, key_size_value, Hs. cbn [rbind].
    pose proof (mm_delete_ok idx k (rr_pointer r) Hok) as Hd. destruct (mm_delete idx k (rr_pointer r)) as [[] idx'].
    + destruct Hd as [H1 H2]. split.
      * intros _. eexists. split; [done|]. split_and!; [done|done|]. by apply (map_keys_same _ (key_value_cmp t)) in H2.
      * intros He. specialize (H2 _ (at_key_pred k)). rewrite He, select_cons in H2. unfold at_key at 1 in H2.
        rewrite cmp_refl in H2. by apply Permutation_nil_l in H2.
    + destruct Hd as (_ & -> & H2). done.
  - unfold um_delete_at_type, sbind, sres. rewrite Hk, key_size_value, Hs. cbn [rbind].
    pose proof (um_delete_ok idx k Hok) as Hd. destruct (um_delete idx k) as [[] idx'].
    + destruct Hd as (H1 & q & Hq & H2). rewrite Hq. split; [|done].
      intros ->%list_elem_of_singleton. eexists. split; [done|]. split_and!; [done|done|].
      by apply (map_keys_same _ (key_value_cmp t)) in H2.
    + destruct Hd as (_ & -> & ->). split; [by intros ?%elem_of_nil|done].
  - pose proof (direct_point i idx k Hfit) as Hpt. unfold direct_delete_at_type, sbind, sres. cbn [delete_key key_col] in Hk. rewrite Hk.
    destruct (udi_delete_ok (E:=InvalidFieldError) idx k Hok Hfit) as [[H0 ->]|(q & idx' & H0 & -> & H1 & H2)]; rewrite H0 in Hpt.
    + apply Permutation_nil_l in Hpt as Hn. split; [|done]. intros Hin. exfalso. revert Hin. rewrite <-Hn. by intros ?%elem_of_nil.
    + split; [|intros He; rewrite He in Hpt; by apply Permutation_nil_r in Hpt].
      intros Hin. rewrite <-Hpt in Hin. apply list_elem_of_singleton in Hin as ->. eexists. split; [done|]. split_and!; [done|done|].
      exact (same_keys (KInt i) _ _ H2).
  - pose proof (direct_u8_point idx k (proj1 Hfit)) as Hpt. unfold direct_u8_delete_at_type, sbind, sres. cbn [delete_key key_col] in Hk. rewrite Hk.
    destruct (fci_delete_ok (E:=InvalidFieldError) idx k Hok (proj1 Hfit)) as [[H0 ->]|(q & idx' & H0 & -> & H1 & Hl & H2)]; rewrite H0 in Hpt.
    + apply Permutation_nil_l in Hpt as Hn. split; [|done]. intros Hin. exfalso. revert Hin. rewrite <-Hn. by intros ?%elem_of_nil.
    + split; [|intros He; rewrite He in Hpt; by apply Permutation_nil_r in Hpt].
      intros Hin. rewrite <-Hpt in Hin. apply list_elem_of_singleton in Hin as ->. eexists. split; [done|]. split_and!; [done| |].
      * cbn. unfold fci_clone_structure. by rewrite Hl.
      * exact (same_keys KSumTag _ _ H2).
Qed.

(** Bounds of a range that conform are native bounds. *)
Lemma expect_bound_ok {E} t (b : Bound AlgebraicValue) (P : key t → Prop) :
  bound_all (λ v, ∃ k, P k ∧ v = key_value t k) b →
  ∃ b', b = bound_map (key_value t) b' ∧ bound_all P b' ∧ expect_bound (E:=E) (key_col t) b = Ok b'.
Proof.
  destruct b as [v|v|]; cbn.
  - intros (k & Hk & ->). exists (Included k). unfold expect_native. by rewrite as_native_key_value.
  - intros (k & Hk & ->). exists (Excluded k). unfold expect_native. by rewrite as_native_key_value.
  - intros _. by exists Unbounded.
Qed.

(** Direct indexes are arrays in memory; a bound of a range is not the largest
    [u64]. *)
Definition direct_room ix : Prop :=
  match ix with
  | UniqueDirect _ idx => KEYS_PER_INNER * len (udi_outer idx) ≤ isize_MAX
  | UniqueDirectSumTag idx => len (fci_array idx) ≤ isize_MAX
  | _ => True
  end.
Definition not_max v : Prop := ∀ k z, v = VInt k z → z < u64_MAX.

Lemma typed_range_ok {E} ix lo hi :
  typed_ok ix → direct_room ix → bad_range lo hi = false →
  bound_all (λ v, conforms ix v ∧ not_max v) lo → bound_all (λ v, conforms ix v ∧ not_max v) hi →
  ∃ l, typed_seek_range (E:=E) ix lo hi = Ok l ∧
    if is_direct ix then l `sublist_of` select (in_range lo hi) (typed_entries ix)
    else l = select (in_range lo hi) (typed_entries ix).
Proof using FLawI.
  intros Hok Hroom Hbad Hlo Hhi. unfold typed_entries.
  assert (Hb : ∀ b, bound_all (λ v, conforms ix v ∧ not_max v) b →
    ∃ b', b = bound_map (key_value (ix_ty ix)) b' ∧ bound_all (λ k, key_fits ix k ∧ not_max (key_value (ix_ty ix) k)) b' ∧
      expect_bound (E:=E) (key_col (ix_ty ix)) b = Ok b').
  { intros b Hb. apply expect_bound_ok. destruct b as [v|v|]; cbn in *; [destruct Hb as [(k & Hk & ->) ?]; by eauto..|done]. }
  destruct (Hb lo Hlo) as (lo' & -> & Hlo' & Elo). destruct (Hb hi Hhi) as (hi' & -> & Hhi' & Ehi). clear Hlo Hhi Hb.
  rewrite (select_range_map _ (key_value_cmp _)). rewrite (bad_range_map _ (key_value_cmp _)) in Hbad.
  destruct ix as [t idx|t idx|i idx|idx]; cbn [ix_ty typed_ok key_fits native_entries typed_seek_range is_direct direct_room key_col] in *;
    rewrite Elo; cbn [rbind]; rewrite Ehi; cbn [rbind].
  - rewrite mm_range_ok by done. by eexists.
  - rewrite um_range_ok by done. by eexists.
  - destruct (udi_range_ok (E:=E) idx lo' hi' Hok Hroom) as (l & Hl & Hsub & _); [|by exists l].
    split; [destruct lo'|destruct hi']; cbn in *; try done; destruct Hlo' || destruct Hhi'; split; try done; by eapply H0.
  - destruct (fci_range_sound (E:=E) idx lo' hi') as (l & Hl & Hsub); [|by exists l].
    unfold u64_MAX, isize_MAX in *.
    split; [destruct lo'|destruct hi']; cbn in *; try done; destruct Hlo' || destruct Hhi'; unfold u64_MAX; lia.
Qed.

Lemma typed_can_merge_ok ix other ignore :
  typed_ok ix → typed_clone_structure ix = typed_clone_structure other → typed_is_unique ix = true →
  finds (typed_can_merge ix other ignore) (shared_key (typed_entries ix) (typed_entries other)) ignore.
Proof using FLawI.
  intros Hok Hk Hu. unfold typed_entries.
  destruct ix as [t idx|t idx|i idx|idx], other as [t' oth|t' oth|i' oth|oth]; try done; cbn [typed_clone_structure] in Hk;
    cbn [typed_can_merge ix_ty native_entries typed_ok] in *.
  - injection Hk as <-. destruct (decide (t = t)) as [H|?]; [|done]. rewrite (Eqdep_dec.UIP_dec KeyTy_eq_dec H eq_refl). cbn.
    eapply finds_iff; [|by apply um_can_merge_ok]. intros w. symmetry. apply (shared_map_keys _ (key_value_cmp t)).
  - injection Hk as <-. rewrite bool_decide_true by done.
    eapply finds_iff; [|apply udi_can_merge_ok, (udi_inners _ Hok)]. intros w. symmetry.
    apply (shared_map_keys _ (key_value_cmp (KInt i))).
  - eapply finds_iff; [|apply fci_can_merge_ok]. intros w. symmetry. apply (shared_map_keys _ (key_value_cmp KSumTag)).
Qed.

(** *** Empty indexes *)

Lemma clone_ok ix : typed_ok (typed_clone_structure ix) ∧ typed_entries (typed_clone_structure ix) = [].
Proof.
  destruct ix as [t idx|t idx|i idx|idx]; cbn; [by split; [constructor|]..| |].
  - split; [apply udi_default_ok|done].
  - destruct (fci_empty_ok (Z.to_nat (len (fci_array idx)))) as [H1 H2]. split; [done|]. unfold typed_entries. cbn.
    unfold fci_clone_structure, fci_new. by rewrite H2.
Qed.

Lemma clear_ok ix :
  typed_ok (typed_clear ix) ∧ typed_entries (typed_clear ix) = [] ∧
  typed_clone_structure (typed_clear ix) = typed_clone_structure ix.
Proof.
  destruct ix as [t idx|t idx|i idx|idx]; cbn; [by split; [constructor|]..| |].
  - split; [apply udi_default_ok|done].
  - destruct (fci_empty_ok (length (fci_array idx))) as [H1 H2]. split; [done|]. unfold typed_entries. cbn.
    unfold fci_clear. rewrite H2. split; [done|]. unfold fci_clone_structure, fci_new, len. cbn. by rewrite length_replicate.
Qed.

(** Indexes of the same kind have the same keys. *)
Lemma clone_same ix ix' : typed_clone_structure ix' = typed_clone_structure ix →
  typed_is_unique ix' = typed_is_unique ix ∧ is_direct ix' = is_direct ix ∧ ∀ v, conforms ix v → conforms ix' v.
Proof.
  destruct ix as [t idx|t idx|i idx|idx], ix' as [t' idx'|t' idx'|i' idx'|idx']; try done; cbn; intros [= He]; try subst;
    (split; [done|split; [done|]]); intros v (k & Hk & ->); exists k; split; try done.
  cbn in *. apply (f_equal length) in He. rewrite !length_replicate in He. unfold len in *. lia.
Qed.

(** A value of the key type conforms. *)
Lemma typed_inhabits ty v : typed [] ty v → inhabits [] v ty ∧ ∀ n, ty ≠ TRef n.
Proof. intros (ty' & Hr & Hv)%typed_unfold. by destruct Hr as [t Ht|r t t' Hl _]. Qed.

Lemma simple_enum_value vs v :
  is_simple_enum vs = true → typed [] (TSum vs) v → ∃ tag : Z, 0 ≤ tag < len vs ∧ v = key_value KSumTag tag.
Proof.
  intros Hs [Hv _]%typed_inhabits. destruct v as [|s|p|a|b|k z|k z|s|]; try done. destruct s as [tag v].
  destruct Hv as [Htag (var & Hvar & [Hv _]%typed_inhabits)]. exists tag.
  apply lookup_lt_Some in Hvar as Hl. split; [unfold in_u, len in *; lia|].
  pose proof (proj1 (forallb_forall _ _) Hs var ltac:(by apply list_elem_of_In, (list_elem_of_lookup_2 _ _ _ Hvar))) as Hu.
  unfold variant_is_unit in Hu. destruct (var_type var) as [| |[|? ?]| | | | |]; try done.
  destruct v as [|s|[[|? ?]]|a|b|k z|k z|s|]; done.
Qed.

Lemma typed_new_ok {E} key_type algo is_unique ix :
  typed_new (E:=E) key_type algo is_unique = Ok ix →
  typed_ok ix ∧ typed_entries ix = [] ∧ typed_is_unique ix = is_unique ∧ ∀ v, typed [] key_type v → conforms ix v.
Proof.
  unfold typed_new. destruct algo as [cols|col].
  - intros [= <-]. assert (Hc : ∀ v, typed [] key_type v → ∃ k, v = key_value (key_ty_of key_type) k).
    { intros v Hv. destruct key_type as [r|vs|es|t| | |k|k]; cbn [key_ty_of]; try (by eexists).
      - destruct (is_simple_enum vs) eqn:Hs; [|by exists v]. destruct (simple_enum_value vs v Hs Hv) as (tag & _ & ->). by exists tag.
      - apply typed_inhabits in Hv as [Hv _]. destruct v; try done. by eexists.
      - apply typed_inhabits in Hv as [Hv _]. destruct v; try done. by eexists.
      - apply typed_inhabits in Hv as [Hv _]. destruct v; try done. destruct Hv as [<- _]. by eexists. }
    destruct is_unique; (split; [constructor|]; split; [done|]; split; [done|]); intros v (k & ->)%Hc; by exists k.
  - destruct is_unique; [|done]. cbn [negb].
    assert (Hint : ∀ k v, int_signed k = false → typed [] (TInt k) v → conforms (UniqueDirect k udi_default) v).
    { intros k v Hk [Hv _]%typed_inhabits. destruct v; try done. destruct Hv as [<- Hr]. unfold int_range in Hr. rewrite Hk in Hr.
      exists z. split; [apply Hr|done]. }
    destruct key_type as [r|vs|es|t| | |k|k]; try done.
    + destruct (is_simple_enum vs) eqn:Hs; [|done]. intros [= <-].
      destruct (fci_empty_ok (Z.to_nat (len vs))) as [H1 H2]. unfold typed_entries. cbn [native_entries]. unfold fci_new. rewrite H2.
      split_and!; [done|done|done|]. intros v Hv. destruct (simple_enum_value vs v Hs Hv) as (tag & Ht & ->). exists tag.
      split; [|done]. cbn. unfold len in *. rewrite length_replicate. lia.
    + destruct k; try done; intros [= <-]; (split_and!; [apply udi_default_ok|done|done|]); intros v; by apply Hint.
Qed.
End typed_laws.

(** ** Indexes of rows *)

Lemma all_list2_lookup {A C} (P : A → C → Prop) l k i y :
  all_list2 P l k → l !! i = Some y → ∃ x, k !! i = Some x ∧ P x y.
Proof.
  revert l i. induction k as [|x k IH]; intros [|y' l] i; try done. intros [Hx Hl]. destruct i as [|i]; cbn; [|by apply IH].
  intros [= ->]. by exists x.
Qed.

Section index_laws.
Context {FloatI : FloatOrd} {FLawI : FloatOrdLaws}.
Context {B : Type} {BsI : BlobStore B} {HashI : Blake3} {LawI : BlobStoreLaws B}.
Context (es : list ProductTypeElement) (rt : RowTypeLayout).
Context (Hrt : row_type_layout (E:=unit) es = Ok rt) (Hnr : contains_refs (TProduct es) = false).
Context (Hsize : ty_size (TProduct es) ≤ PAGE_DATA_SIZE).
Context (m0 : gmultiset (list byte)).
Implicit Types (t : TableIndex) (C : list (AlgebraicValue * Z)) (r : RowRef B) (val : ProductValue).

(** The key of a row. *)
Definition row_key (cols : ColList) val : AlgebraicValue := match pv_project val cols with Ok v => v | _ => VMin end.

Definition total_bytes (ix : TypedIndex) C : Z := foldr Z.add 0 (map (λ e, entry_bytes ix e.1) C).

Lemma total_bytes_nonneg ix C : 0 ≤ total_bytes ix C.
Proof using. unfold total_bytes. induction C as [|e C IH]; [done|]. cbn. pose proof (entry_bytes_nonneg ix e.1). lia. Qed.

#[export] Instance total_bytes_perm ix : Proper ((≡ₚ) ==> eq) (total_bytes ix).
Proof using. intros C1 C2. unfold total_bytes. induction 1; cbn [map foldr]; lia. Qed.

(** What does not change: the kind, the key type and the columns. *)
Definition ix_shape t : TypedIndex * AlgebraicType * ColList :=
  (typed_clone_structure (ix_idx t), ix_key_type t, ix_indexed_columns t).

(** The index is one of the rows of the table. *)
Record index_for t : Prop := {
  if_cols : cols_ok (ix_indexed_columns t);
  if_type : type_project es (ix_indexed_columns t) = Ok (ix_key_type t);
  if_conforms v : typed [] (ix_key_type t) v → conforms (ix_idx t) v;
}.

(** It holds the pairs [C], and its counters count them. *)
Record index_rel t C : Prop := {
  ir_ok : typed_ok (ix_idx t);
  ir_entries : same_entries (typed_entries (ix_idx t)) C;
  ir_rows : ix_num_rows t = len C;
  ir_bytes : ix_num_key_bytes t = total_bytes (ix_idx t) C;
}.

Lemma index_rel_perm t C C' : C ≡ₚ C' → index_rel t C → index_rel t C'.
Proof using.
  intros Hp [H1 H2 H3 H4]. split; [done| | |].
  - by rewrite H2, Hp.
  - rewrite H3. unfold len. by rewrite Hp.
  - by rewrite H4, Hp.
Qed.

Lemma index_for_shape t t' : ix_shape t' = ix_shape t → index_for t → index_for t'.
Proof using.
  intros [= Hc Hk Hcols] [H1 H2 H3]. split; rewrite ?Hk, ?Hcols; [done..|].
  intros v Hv. eapply (clone_same _ _ Hc). by apply H3.
Qed.

(** The projection of a row has the projected type. *)
Lemma row_key_typed t val :
  index_for t → typed [] (TProduct es) (VProduct val) →
  pv_project val (ix_indexed_columns t) = Ok (row_key (ix_indexed_columns t) val) ∧
  typed [] (ix_key_type t) (row_key (ix_indexed_columns t) val).
Proof using.
  intros [_ Ht _] [Hv _]%typed_inhabits. revert Ht. unfold row_key, pv_project, type_project. destruct val as [vals]. cbn in Hv.
  assert (Hget : ∀ c e, get_element es c = Ok e → ∃ v, get_field (MkProductValue vals) c = Ok v ∧ typed [] (el_type e) v).
  { intros c e. unfold get_element, get_field. cbn [pv_elements]. destruct (es !! Z.to_nat c) as [e'|] eqn:He; [|done].
    intros [= ->]. destruct (all_list2_lookup _ _ _ _ _ Hv He) as (v & -> & ?). by exists v. }
  destruct (as_singleton _) as [c|].
  - destruct (get_element es c) as [e| | |] eqn:He; try done. intros [= <-]. destruct (Hget c e He) as (v & -> & ?). done.
  - assert (Hall : ∀ l fs, get_elements es l = Ok fs → ∃ vs, get_fields (MkProductValue vals) l = Ok vs ∧
      all_list2 (λ v e, typed [] (el_type e) v) fs vs).
    { induction l as [|c l IH]; intros fs; [intros [= <-]; by exists []|]. cbn [get_elements].
      destruct (get_element es c) as [e| | |] eqn:He; try done. cbn [rbind].
      destruct (get_elements es l) as [fs'| | |] eqn:Hg; try done. intros [= <-].
      destruct (Hget c e He) as (v & Hv' & ?), (IH fs' eq_refl) as (vs & Hvs & ?). exists (v :: vs). cbn. by rewrite Hv', Hvs. }
    destruct (get_elements es _) as [fs| | |] eqn:Hg; try done. intros [= <-]. destruct (Hall _ fs Hg) as (vs & -> & Hvs).
    split; [done|]. by apply typed_here.
Qed.

(** A row that is inserted into an index, or violates its constraint. *)
Lemma check_and_insert_ok t C r val :
  index_for t → index_rel t C → refers rt m0 r val → typed [] (TProduct es) (VProduct val) → ptr_ok (rr_pointer r) →
  let v := row_key (ix_indexed_columns t) val in
  len C < u64_MAX → total_bytes (ix_idx t) C + entry_bytes (ix_idx t) v ≤ u64_MAX →
  (∃ t', check_and_insert r t = (Ok tt, t') ∧ index_rel t' ((v, rr_pointer r) :: C) ∧ ix_shape t' = ix_shape t ∧
     (ix_is_unique t = true → select (at_key v) C = [])) ∨
  (ix_is_unique t = true ∧ ∃ q, check_and_insert r t = (Err q, t) ∧ select (at_key v) C ≡ₚ [q]).
Proof using Hrt Hnr Hsize LawI FLawI.
  intros Hfor [Hok Hent Hrows Hbytes] Hr Hty Hp v Hlen Htot. destruct (row_key_typed t val Hfor Hty) as [Hproj Hkty].
  assert (Hkey : ∀ k, v = key_value (ix_ty (ix_idx t)) k → insert_key (E:=Z) (ix_ty (ix_idx t)) (ix_indexed_columns t) r = Ok k).
  { intros k Hk. eapply (key_reads es rt Hrt Hnr Hsize m0); [done|apply Hfor|]. rewrite Hproj. fold v. by rewrite Hk. }
  unfold check_and_insert, sbind, ix_on_idx, ix_is_unique.
  destruct (typed_insert_ok (ix_idx t) (ix_indexed_columns t) r v Hok (if_conforms t Hfor _ Hkty) Hp (typed_sized _ _ _ Hkty) Hkey)
    as [(ix' & -> & Hok' & Hcl & He & Hu)|(Hu & q & -> & Hs)]; [left|right].
  - destruct (clone_same _ _ Hcl) as (_ & Hd & _). unfold ix_counters. cbn [ix_with ix_num_rows ix_num_key_bytes].
    unfold u64_MAX in *. rewrite add_u_Ok by lia. cbn [rbind]. rewrite add_u_Ok by lia. cbn [rbind]. eexists. split; [done|].
    split_and!; [|by unfold ix_shape; cbn; rewrite Hcl|].
    + split; cbn [ix_with ix_idx ix_num_rows ix_num_key_bytes]; [done| |rewrite Hrows; unfold len; cbn [length]; lia|].
      * by rewrite He, Hent.
      * rewrite Hbytes. unfold total_bytes, entry_bytes. cbn [map foldr fst]. rewrite Hd. fold v. lia.
    + intros Hx. specialize (Hu Hx). apply Permutation_nil_r. by rewrite <-(Hent _ (at_key_pred v)), Hu.
  - split; [done|]. exists q. split; [by destruct t|]. by rewrite <-(Hent _ (at_key_pred v)).
Qed.

(** A row that is deleted from an index. *)
Lemma ix_delete_ok t C r val :
  let v := row_key (ix_indexed_columns t) val in
  index_for t → index_rel t ((v, rr_pointer r) :: C) → refers rt m0 r val → typed [] (TProduct es) (VProduct val) →
  ∃ t', ix_delete r t = (Ok true, t') ∧ index_rel t' C ∧ ix_shape t' = ix_shape t.
Proof using Hrt Hnr Hsize LawI FLawI.
  intros v Hfor [Hok Hent Hrows Hbytes] Hr Hty. destruct (row_key_typed t val Hfor Hty) as [Hproj Hkty].
  assert (Hkey : ∀ k, v = key_value (ix_ty (ix_idx t)) k → delete_key (ix_ty (ix_idx t)) (ix_indexed_columns t) r = Ok k).
  { intros k Hk. eapply (key_reads es rt Hrt Hnr Hsize m0 (E:=Z)); [done|apply Hfor|]. rewrite Hproj. fold v. by rewrite Hk. }
  destruct (typed_delete_ok (ix_idx t) (ix_indexed_columns t) r v Hok (if_conforms t Hfor _ Hkty) (typed_sized _ _ _ Hkty) Hkey)
    as [Hdel _]. destruct Hdel as (ix' & Hd & Hok' & Hcl & He).
  { rewrite (Hent _ (at_key_pred v)), select_cons. unfold at_key at 1. rewrite cmp_refl. by apply elem_of_cons; left. }
  destruct (clone_same _ _ Hcl) as (_ & Hdir & _).
  assert (Htb : total_bytes (ix_idx t) ((v, rr_pointer r) :: C) = entry_bytes (ix_idx t) v + total_bytes (ix_idx t) C) by done.
  pose proof (total_bytes_nonneg (ix_idx t) C).
  unfold ix_delete, sbind, ix_on_idx. rewrite Hd. unfold ix_counters. cbn [ix_with ix_num_rows ix_num_key_bytes].
  rewrite Hrows, Hbytes, Htb. rewrite sub_u_Ok by (unfold len; cbn [length]; lia). cbn [rbind]. rewrite sub_u_Ok by lia. cbn [rbind].
  eexists. split; [done|]. split; [|by unfold ix_shape; cbn; rewrite Hcl].
  split; cbn [ix_with ix_idx ix_num_rows ix_num_key_bytes]; [done| |unfold len; cbn [length]; lia|].
  - eapply same_entries_cancel. by rewrite <-He, Hent.
  - unfold total_bytes, entry_bytes. rewrite Hdir. lia.
Qed.

(** The columns of an algorithm that can be used. *)
Definition algo_ok (algo : IndexAlgorithm) : Prop :=
  match algo with BTree cols => col_list_ok cols | Direct col => in_u 16 col end.

Lemma algo_columns_ok {E} algo cols : algo_ok algo → algo_columns (E:=E) algo = Ok cols → cols_ok cols.
Proof using.
  destruct algo as [l|col]; cbn [algo_ok algo_columns].
  - intros Hl Hc. destruct (col_list_clone_ok (E:=E) l Hl) as (l' & Hc' & Hi & _). rewrite Hc in Hc'. injection Hc' as ->.
    unfold cols_ok. rewrite Hi. by apply col_list_iter_range.
  - intros Hcol Hc. destruct (from_iter_ok (E:=E) 1 [col]) as (l' & Hc' & _ & Hi); [done|by constructor|done|].
    rewrite Hc in Hc'. injection Hc' as ->. unfold cols_ok. rewrite Hi. by constructor.
Qed.

Lemma table_index_new_ok algo is_unique t :
  algo_ok algo → table_index_new es algo is_unique = Ok t → index_for t ∧ index_rel t [] ∧ ix_is_unique t = is_unique.
Proof using.
  intros Ha. unfold table_index_new. destruct (algo_columns algo) as [cols| | |] eqn:Hc; try done. cbn [rbind].
  destruct (type_project es cols) as [ty| | |] eqn:Ht; try done. cbn [rbind].
  destruct (typed_new ty algo is_unique) as [ix| | |] eqn:Hn; try done. intros [= <-].
  destruct (typed_new_ok _ _ _ _ Hn) as (H1 & H2 & H3 & H4). split_and!; [|split; cbn; [done|by rewrite H2|done..]|done].
  split; cbn [ix_indexed_columns ix_key_type ix_idx]; [by eapply algo_columns_ok|done..].
Qed.

(** An index without entries of the same shape. *)
Lemma ix_clear_ok t : index_rel (ix_clear t) [] ∧ ix_shape (ix_clear t) = ix_shape t.
Proof using.
  destruct (clear_ok (ix_idx t)) as (H1 & H2 & H3). split; [split; cbn; [done|by rewrite H2|done..]|].
  unfold ix_shape, ix_clear. cbn. by rewrite H3.
Qed.

Lemma ix_clone_ok {E} t : col_list_ok (ix_indexed_columns t) → index_for t →
  ∃ t', ix_clone_structure (E:=E) t = Ok t' ∧ index_rel t' [] ∧ index_for t' ∧ ix_is_unique t' = ix_is_unique t.
Proof using.
  intros Hc [H1 H2 H3]. destruct (col_list_clone_ok (E:=E) _ Hc) as (l' & Hcl & Hi & _). unfold ix_clone_structure. rewrite Hcl.
  cbn [rbind]. destruct (clone_ok (ix_idx t)) as [G1 G2]. eexists. split; [done|].
  assert (Hcc : typed_clone_structure (typed_clone_structure (ix_idx t)) = typed_clone_structure (ix_idx t)).
  { destruct (ix_idx t); try done. cbn. unfold fci_clone_structure, fci_new, len. cbn. by rewrite length_replicate, Nat2Z.id. }
  split_and!; [split; cbn; [done|by rewrite G2|done..]| |by apply (clone_same _ _ Hcc)].
  split; cbn [ix_indexed_columns ix_key_type ix_idx].
  - unfold cols_ok. by rewrite Hi.
  - revert H2. unfold type_project, as_singleton. by rewrite Hi.
  - intros v Hv. apply (clone_same _ _ Hcc). by apply H3.
Qed.

Lemma ix_point_ok {E} t C v :
  index_for t → index_rel t C → typed [] (ix_key_type t) v →
  ∃ l, ix_seek_point (E:=E) t v = Ok l ∧ l ≡ₚ select (at_key v) C ∧ (ix_is_unique t = true → (length l ≤ 1)%nat).
Proof using FLawI.
  intros Hfor [Hok Hent _ _] Hv. destruct (typed_point_ok (E:=E) (ix_idx t) v Hok (if_conforms t Hfor v Hv)) as (l & Hl & Hp & Hu).
  exists l. split; [done|]. split; [|done]. by rewrite Hp, (Hent _ (at_key_pred v)).
Qed.

Lemma ix_range_ok {E} t C lo hi :
  index_for t → index_rel t C → direct_room (ix_idx t) → bad_range lo hi = false →
  bound_all (λ v, typed [] (ix_key_type t) v ∧ not_max v) lo → bound_all (λ v, typed [] (ix_key_type t) v ∧ not_max v) hi →
  ∃ l, ix_seek_range (E:=E) t lo hi = Ok l ∧
    if is_direct (ix_idx t) then l ⊆+ select (in_range lo hi) C else l ≡ₚ select (in_range lo hi) C.
Proof using FLawI.
  intros Hfor [Hok Hent _ _] Hroom Hbad Hlo Hhi.
  assert (Hb : ∀ b, bound_all (λ v, typed [] (ix_key_type t) v ∧ not_max v) b → bound_all (λ v, conforms (ix_idx t) v ∧ not_max v) b).
  { intros [v|v|]; cbn; [intros [? ?]; split; [by apply Hfor|done]..|done]. }
  destruct (typed_range_ok (E:=E) (ix_idx t) lo hi Hok Hroom Hbad (Hb _ Hlo) (Hb _ Hhi)) as (l & Hl & Hs). exists l.
  split; [done|]. pose proof (Hent _ (in_range_pred lo hi)) as Hp. destruct (is_direct (ix_idx t)).
  - rewrite <-Hp. by apply sublist_submseteq.
  - by rewrite Hs.
Qed.

Lemma ix_merge_ok t C t' C' ignore :
  index_rel t C → index_rel t' C' → ix_shape t = ix_shape t' → ix_is_unique t = true →
  finds (ix_can_merge t t' ignore) (λ q, ∃ k, q ∈ select (at_key k) C ∧ select (at_key k) C' ≠ []) ignore.
Proof using FLawI.
  intros [Hok Hent _ _] [_ Hent' _ _] [= Hcl _ _] Hu.
  eapply finds_iff; [|by apply typed_can_merge_ok]. intros q. split.
  - intros (k & k' & p & Hk & Hk' & He). exists k. split.
    + rewrite <-(Hent _ (at_key_pred k)). apply elem_of_select. exists k. unfold at_key. by rewrite cmp_refl.
    + intros Hn. assert (Hp : p ∈ select (at_key k) C').
      { rewrite <-(Hent' _ (at_key_pred k)). apply elem_of_select. exists k'. split; [done|]. unfold at_key.
        by rewrite (cmp_eq_sym _ _ He). }
      rewrite Hn in Hp. by apply elem_of_nil in Hp.
  - intros (k & Hq & Hn). rewrite <-(Hent _ (at_key_pred k)) in Hq. apply elem_of_select in Hq as (k1 & Hin & Hk1).
    destruct (select (at_key k) C') as [|p l] eqn:Hs; [done|]. assert (Hp : p ∈ select (at_key k) C') by (rewrite Hs; by apply elem_of_cons; left).
    rewrite <-(Hent' _ (at_key_pred k)) in Hp. apply elem_of_select in Hp as (k2 & Hin2 & Hk2).
    exists k1, k2, p. split; [done|]. split; [done|]. unfold at_key in *.
    destruct (cmp k k1) eqn:E1; try done. destruct (cmp k k2) eqn:E2; try done.
    rewrite <-(cmp_eq_l k k2 k1 E2). done.
Qed.

(** C15. An index holds the rows inserted into it.  Let an index of a table hold
    the pairs [C] of a key and a pointer.  Inserting a row adds the pair of its
    key, the projection of its value, and its pointer; only for a unique index
    that has the key already, nothing changes and the error is the pointer it
    has.  Deleting a row that is there removes its pair.  Searching for a key
    of the key type gives the pointers of the key, at most one in a unique
    index; a range gives those of the keys in the range, all of them unless
    the index is direct.  Whether two indexes can be merged is decided by the
    keys that both have.  The structure, the native keys and the counters are
    kept up to date. *)
Theorem index_refines_entries t C :
  index_for t → index_rel t C →
  (∀ r val, refers rt m0 r val → typed [] (TProduct es) (VProduct val) → ptr_ok (rr_pointer r) →
    let v := row_key (ix_indexed_columns t) val in
    len C < u64_MAX → total_bytes (ix_idx t) C + entry_bytes (ix_idx t) v ≤ u64_MAX →
    match check_and_insert r t with
    | (Ok _, t') => ix_shape t' = ix_shape t ∧ index_for t' ∧ index_rel t' ((v, rr_pointer r) :: C) ∧
        (ix_is_unique t = true → select (at_key v) C = [])
    | (Err q, t') => t' = t ∧ ix_is_unique t = true ∧ select (at_key v) C ≡ₚ [q]
    | _ => False
    end) ∧
  (∀ r val C', refers rt m0 r val → typed [] (TProduct es) (VProduct val) →
    C ≡ₚ (row_key (ix_indexed_columns t) val, rr_pointer r) :: C' →
    ∃ t', ix_delete r t = (Ok true, t') ∧ ix_shape t' = ix_shape t ∧ index_for t' ∧ index_rel t' C') ∧
  (∀ v, typed [] (ix_key_type t) v →
    ∃ l, ix_seek_point (E:=unit) t v = Ok l ∧ l ≡ₚ select (at_key v) C ∧ (ix_is_unique t = true → (length l ≤ 1)%nat)) ∧
  (∀ lo hi, direct_room (ix_idx t) → bad_range lo hi = false →
    bound_all (λ v, typed [] (ix_key_type t) v ∧ not_max v) lo → bound_all (λ v, typed [] (ix_key_type t) v ∧ not_max v) hi →
    ∃ l, ix_seek_range (E:=unit) t lo hi = Ok l ∧
      if is_direct (ix_idx t) then l ⊆+ select (in_range lo hi) C else l ≡ₚ select (in_range lo hi) C) ∧
  (∀ t' C' ignore, index_rel t' C' → ix_shape t = ix_shape t' → ix_is_unique t = true →
    finds (ix_can_merge t t' ignore) (λ q, ∃ k, q ∈ select (at_key k) C ∧ select (at_key k) C' ≠ []) ignore) ∧
  index_rel (ix_clear t) [].
Proof using Hrt Hnr Hsize LawI FLawI.
  intros Hfor Hrel. split_and!.
  - intros r val Hr Hty Hp v Hlen Htot.
    destruct (check_and_insert_ok t C r val Hfor Hrel Hr Hty Hp Hlen Htot) as [(t' & -> & H1 & H2 & H3)|(Hu & q & -> & Hs)]; [|done].
    split; [done|]. split; [by eapply index_for_shape|done].
  - intros r val C' Hr Hty HC. apply (index_rel_perm t _ _ HC) in Hrel.
    destruct (ix_delete_ok t C' r val Hfor Hrel Hr Hty) as (t' & -> & H1 & H2). exists t'. split; [done|].
    split; [done|]. split; [by eapply index_for_shape|done].
  - intros v. by apply ix_point_ok.
  - intros lo hi. by apply ix_range_ok.
  - intros t' C' ignore Hrel' Hsh Hu. by apply ix_merge_ok.
  - apply ix_clear_ok.
Qed.
End index_laws.

(** ** Examples *)

Module Examples.
#[local] Existing Instances BlobStore.Examples.last32_hash ValueOrd.Examples.bits_ord ValueOrd.Examples.bits_ord_laws.
#[local] Existing Instances PagesThm.Examples.list_queue PagesThm.Examples.list_queue_laws.
Import PagesThm.Examples.

(** A unique index on the first column, a number. *)
Definition by_id : TableIndex := {|
  ix_idx := UniqueBtree (KInt U32) []; ix_key_type := TInt U32; ix_num_rows := 0; ix_num_key_bytes := 0;
  ix_indexed_columns := Inline 3;
|}.
Lemma by_id_new : table_index_new es (BTree (Inline 3)) true = Ok by_id.
Proof. reflexivity. Qed.

Lemma by_id_ok : index_for es by_id ∧ index_rel by_id [].
Proof.
  destruct (table_index_new_ok es (BTree (Inline 3)) true by_id) as (H1 & H2 & _); [|exact by_id_new|done].
  cbn. split; [vm_compute; split; [discriminate|reflexivity]|reflexivity].
Qed.

Lemma id_typed : typed [] (TInt U32) (VInt U32 7).
Proof. apply typed_here; [done|]. by vm_compute. Qed.

(** The row of the example table is found by its number. *)
Lemma index_refines_entries_witness :
  ∃ (r : RowRef HashMapBlobStore) ix, refers rt ∅ r val ∧ check_and_insert r by_id = (Ok tt, ix) ∧
    ix_num_rows ix = 1 ∧ ix_num_key_bytes ix = 4 ∧ ix_seek_point (E:=unit) ix (VInt U32 7) = Ok [rr_pointer r].
Proof.
  destruct inserted as (ptr & ps' & pool' & bs' & Hw' & Hsq & Hr).
  destruct (table_pages_inv es rt BflatnThm.Examples.rt_row eq_refl es_size BflatnThm.Examples.rt_code ∅ COMMITTED_STATE committed_in_u _ _ Hr)
    as ([rows Hinv] & _ & _).
  set (r := {| rr_table := RowRef.Examples.inner ps'; rr_blob_store := bs'; rr_pointer := ptr |}).
  assert (Hrf : refers rt ∅ r val) by (split; [done|]; exists {[ptr_key ptr := val]}, rows; split; [done|apply lookup_singleton_eq]).
  assert (Hp : ptr_ok ptr).
  { apply (f_equal fst) in Hw'. vm_compute in Hw'. injection Hw' as <-. vm_compute. split; [split; [discriminate|reflexivity]|reflexivity]. }
  destruct by_id_ok as [Hf Hrel].
  destruct (index_refines_entries es rt BflatnThm.Examples.rt_row eq_refl es_size ∅ by_id [] Hf Hrel) as (Hins & _).
  specialize (Hins r val Hrf BflatnThm.Examples.val_typed Hp eq_refl ltac:(vm_compute; discriminate)).
  destruct (check_and_insert r by_id) as [[[]|q| |] ix] eqn:Hc; [| |destruct Hins..].
  2: { destruct Hins as (_ & _ & Hs). apply Permutation_nil_l in Hs. discriminate Hs. }
  destruct Hins as (Hsh & Hfor & Hrel' & _). injection Hsh as Hcl Hkt _. destruct (clone_same (ix_idx by_id) _ Hcl) as (_ & Hdir & _).
  destruct (index_refines_entries es rt BflatnThm.Examples.rt_row eq_refl es_size ∅ ix _ Hfor Hrel') as (_ & _ & Hpt & _).
  destruct (Hpt (VInt U32 7)) as (l & Hl & Hperm & _); [rewrite Hkt; exact id_typed|].
  exists r, ix. split; [exact Hrf|]. split; [exact Hc|]. split; [rewrite (ir_rows _ _ Hrel'); reflexivity|].
  split; [rewrite (ir_bytes _ _ Hrel'); unfold total_bytes, entry_bytes; rewrite Hdir; reflexivity|].
  rewrite Hl. f_equal. apply Permutation_singleton_r. exact Hperm.
Defined.
End Examples.
