(* ===== verification/Table.v ===== *)
(** * Tables (crates/table/src/table.rs)

    A table puts the parts together: pages hold the rows, a pointer map finds
    a row by its hash, indexes find rows by their columns, and counters are
    kept.  Rows are inserted optimistically and taken out again when a
    constraint does not hold. *)

From Stdlib Require Import ZArith Lia.
From stdpp Require Import sorting gmap gmultiset list strings.
From S2P Require Import Prelude Buffer Sats Bsatn Mem Indexes VarLen BlobStore Page PageRows PageRead Pages PointerMap Layout RowTypeVisitor BflatnTo BflatnFrom BflatnRepr BflatnThm PagesThm StaticLayout RowEq ValueHash RowHash StaticValidator ColList RowRef ValueOrd BTreeMap IndexMaps TableIndex.
Local Open Scope Z_scope.
Local Open Scope result_scope.
Local Open Scope st_scope.

(** ** The schema (crates/schema/src/schema.rs) *)

(** The fields that tables and transactions read and change. *)
Record IndexSchema := { is_index_id : Z; is_index_name : string }.
Record ConstraintSchema := { ct_constraint_id : Z; ct_constraint_name : string; ct_unique_columns : list Z }.
Record SequenceSchema := { sq_sequence_id : Z; sq_col_pos : Z }.
Inductive StAccess := Public | Private.
Record TableSchema := {
  sch_table_name : string;
  sch_columns : list string;
  sch_indexes : list IndexSchema;
  sch_constraints : list ConstraintSchema;
  sch_sequences : list SequenceSchema;
  sch_table_access : StAccess;
  sch_schedule : bool;
  sch_row_type : list ProductTypeElement;
}.

(** [TableSchema::get_columns], with a column that must exist. *)
Definition get_column_names {E} (schema : TableSchema) : list Z → result E (list string) :=
  fix go cols :=
    match cols with
    | [] => Ok []
    | col :: cols =>
        match sch_columns schema !! Z.to_nat col with
        | Some name => let* names := go cols in Ok (name :: names)
        | None => Panic
        end
    end.

Definition find_remove {A} (predicate : A → bool) : list A → option (A * list A) :=
  fix go l :=
    match l with
    | [] => None
    | x :: l =>
        if predicate x then Some (x, l)
        else match go l with Some (y, l) => Some (y, x :: l) | None => None end
    end.
Definition remove_index (l : list IndexSchema) (index_id : Z) : option (IndexSchema * list IndexSchema) :=
  find_remove (λ x, is_index_id x =? index_id) l.
Definition schema_with_indexes (s : TableSchema) (indexes : list IndexSchema) : TableSchema :=
  {| sch_table_name := sch_table_name s; sch_columns := sch_columns s; sch_indexes := indexes;
     sch_constraints := sch_constraints s; sch_sequences := sch_sequences s; sch_table_access := sch_table_access s;
     sch_schedule := sch_schedule s; sch_row_type := sch_row_type s |}.

(** ** [Table] *)

Record Table := {
  tb_inner : TableInner;
  tb_pointer_map : option PointerMap;
  tb_indexes : list (Z * TableIndex);
  tb_schema : TableSchema;
  tb_squashed_offset : Z;
  tb_row_count : Z;
  tb_blob_store_bytes : Z;
  tb_is_scheduler : bool;
}.

Record UniqueConstraintViolation := {
  ucv_constraint_name : string;
  ucv_table_name : string;
  ucv_cols : list string;
  ucv_value : AlgebraicValue;
}.

Inductive InsertError :=
| Duplicate (existing : Z)
| Bflatn (e : BflatnError)
| IndexError (e : UniqueConstraintViolation).

(** [UniqueConstraintViolation::build] and [build_with_index_schema]. *)
Definition build_with_index_schema {E} (schema : TableSchema) (index : TableIndex) (index_schema : IndexSchema)
    (value : AlgebraicValue) : result E UniqueConstraintViolation :=
  let* cols := get_column_names schema (col_list_iter (ix_indexed_columns index)) in
  Ok {| ucv_constraint_name := is_index_name index_schema; ucv_table_name := sch_table_name schema;
        ucv_cols := cols; ucv_value := value |}.
Definition build_error_unique {E} (t : Table) (index : TableIndex) (index_id : Z) (value : AlgebraicValue) :
    result E UniqueConstraintViolation :=
  match list_find (λ i, is_index_id i = index_id) (sch_indexes (tb_schema t)) with
  | Some (_, index_schema) => build_with_index_schema (tb_schema t) index index_schema value
  | None => Panic
  end.

Definition table_new_raw (schema : TableSchema) (row_layout : RowTypeLayout)
    (static_layout : option (StaticLayout * StaticBsatnValidator)) (visitor_prog : VarLenVisitorProgram)
    (squashed_offset : Z) (pointer_map : option PointerMap) : Table :=
  {| tb_inner := {| ti_row_layout := row_layout; ti_static_layout := static_layout;
                    ti_visitor_prog := visitor_prog; ti_pages := pages_default |};
     tb_is_scheduler := sch_schedule schema;
     tb_schema := schema;
     tb_indexes := [];
     tb_pointer_map := pointer_map;
     tb_squashed_offset := squashed_offset;
     tb_row_count := 0;
     tb_blob_store_bytes := 0 |}.

(** Parts of a table replaced. *)
Definition with_inner_pages (t : Table) (ps : Pages) : Table :=
  {| tb_inner := {| ti_row_layout := ti_row_layout (tb_inner t); ti_static_layout := ti_static_layout (tb_inner t);
                    ti_visitor_prog := ti_visitor_prog (tb_inner t); ti_pages := ps |};
     tb_pointer_map := tb_pointer_map t; tb_indexes := tb_indexes t; tb_schema := tb_schema t;
     tb_squashed_offset := tb_squashed_offset t; tb_row_count := tb_row_count t;
     tb_blob_store_bytes := tb_blob_store_bytes t; tb_is_scheduler := tb_is_scheduler t |}.
Definition with_pointer_map (t : Table) (pm : option PointerMap) : Table :=
  {| tb_inner := tb_inner t; tb_pointer_map := pm; tb_indexes := tb_indexes t; tb_schema := tb_schema t;
     tb_squashed_offset := tb_squashed_offset t; tb_row_count := tb_row_count t;
     tb_blob_store_bytes := tb_blob_store_bytes t; tb_is_scheduler := tb_is_scheduler t |}.
Definition with_indexes (t : Table) (indexes : list (Z * TableIndex)) : Table :=
  {| tb_inner := tb_inner t; tb_pointer_map := tb_pointer_map t; tb_indexes := indexes; tb_schema := tb_schema t;
     tb_squashed_offset := tb_squashed_offset t; tb_row_count := tb_row_count t;
     tb_blob_store_bytes := tb_blob_store_bytes t; tb_is_scheduler := tb_is_scheduler t |}.
Definition with_schema (t : Table) (schema : TableSchema) : Table :=
  {| tb_inner := tb_inner t; tb_pointer_map := tb_pointer_map t; tb_indexes := tb_indexes t; tb_schema := schema;
     tb_squashed_offset := tb_squashed_offset t; tb_row_count := tb_row_count t;
     tb_blob_store_bytes := tb_blob_store_bytes t; tb_is_scheduler := tb_is_scheduler t |}.
Definition with_statistics (t : Table) (row_count blob_store_bytes : Z) : Table :=
  {| tb_inner := tb_inner t; tb_pointer_map := tb_pointer_map t; tb_indexes := tb_indexes t; tb_schema := tb_schema t;
     tb_squashed_offset := tb_squashed_offset t; tb_row_count := row_count;
     tb_blob_store_bytes := blob_store_bytes; tb_is_scheduler := tb_is_scheduler t |}.

Definition table_row_size (t : Table) : Z := row_size (ti_row_layout (tb_inner t)).
Definition table_static_layout (t : Table) : option StaticLayout := option_map fst (ti_static_layout (tb_inner t)).
Definition num_pages (t : Table) : Z := len (pages (ti_pages (tb_inner t))).
Definition num_rows (t : Table) : Z := tb_row_count t.
Definition num_indices (t : Table) : Z := len (tb_indexes t).
Definition num_rows_in_indexes {E} (t : Table) : result E Z := mul_u 64 (num_rows t) (len (tb_indexes t)).
Definition bytes_occupied_overestimate (t : Table) : Z := num_pages t * PAGE_DATA_SIZE + tb_blob_store_bytes t.

(** [Table::is_row_present]. *)
Definition table_is_row_present {E} (t : Table) (ptr : Z) : result E bool :=
  inner_is_row_present (tb_inner t) (tb_squashed_offset t) ptr.

(** The columns are compared as lists of columns are, see [col_list_eq]. *)
Definition get_index_by_id (t : Table) (index_id : Z) : option TableIndex := bt_get (tb_indexes t) index_id.
Definition get_index_by_cols (t : Table) (cols : ColList) : option (Z * TableIndex) :=
  option_map snd (list_find (λ e, col_list_eq (ix_indexed_columns e.2) cols = true) (tb_indexes t)).

Fixpoint sum_key_bytes {E} (l : list (Z * TableIndex)) : result E Z :=
  match l with
  | [] => Ok 0
  | (_, idx) :: l => let* n := sum_key_bytes l in add_u 64 (ix_num_key_bytes idx) n
  end.
Definition bytes_used_by_index_keys {E} (t : Table) : result E Z := sum_key_bytes (tb_indexes t).

(** [Table::new]; a row type without a static layout has no validator. *)
Definition table_new {E} (schema : TableSchema) (squashed_offset : Z) : result E Table :=
  let* row_layout := row_type_layout (sch_row_type schema) in
  let* static_layout :=
    match for_row_type row_layout with
    | Ok sl => match static_bsatn_validator row_layout with Ok va => Ok (Some (sl, va)) | _ => Panic end
    | Err _ => Ok None
    | Panic => Panic
    | OutOfFuel => OutOfFuel
    end in
  Ok (table_new_raw schema row_layout static_layout (row_type_visitor row_layout) squashed_offset (Some pm_default)).

Fixpoint clone_indexes {E} (l : list (Z * TableIndex)) : result E (list (Z * TableIndex)) :=
  match l with
  | [] => Ok []
  | (index_id, index) :: l =>
      let* index := ix_clone_structure index in
      let* l := clone_indexes l in
      Ok ((index_id, index) :: l)
  end.
Definition table_clone_structure {E} (t : Table) (squashed_offset : Z) : result E Table :=
  let inner := tb_inner t in
  let pm := option_map (λ _, pm_default) (tb_pointer_map t) in
  let new := table_new_raw (tb_schema t) (ti_row_layout inner) (ti_static_layout inner) (ti_visitor_prog inner) squashed_offset pm in
  let* indexes := clone_indexes (tb_indexes t) in
  Ok (with_indexes new indexes).

Definition new_index (t : Table) (algo : IndexAlgorithm) (is_unique : bool) : result InvalidFieldError TableIndex :=
  table_index_new (sch_row_type (tb_schema t)) algo is_unique.

(** [add_index]; the pointer map that is removed is returned. *)
Definition add_index (index_id : Z) (index : TableIndex) (t : Table) : option PointerMap * Table :=
  let t' := with_indexes t (bt_insert (tb_indexes t) index_id index) in
  if ix_is_unique index then (tb_pointer_map t, with_pointer_map t' None) else (None, t').

Section operations.
Context {FloatI : FloatOrd} {Q B H : Type} {QueueI : PageQueue Q} {BsI : BlobStore B} {HashI : Blake3} {HasherI : RowHasher H}.

Abbreviation tstate := (Table * PagePool Q * B)%type.

(** Computations on the pages, on the table, and from the table. *)
Definition on_pages {E A} (m : st (Pages * PagePool Q * B) E A) : st tstate E A := λ '(t, pool, bs),
  let '(r, (ps, pool, bs)) := m (ti_pages (tb_inner t), pool, bs) in (r, (with_inner_pages t ps, pool, bs)).
Definition on_table {E A} (m : st Table E A) : st tstate E A := λ '(t, pool, bs),
  let '(r, t) := m t in (r, (t, pool, bs)).
Definition of_table {E A} (f : Table → B → result E A) : st tstate E A := slift (λ '(t, _, bs), f t bs).

(** An error in another type, and one that cannot happen. *)
Definition smap_err {S E E' A} (f : E → E') (m : st S E A) : st S E' A := λ s,
  let '(r, s) := m s in
  (match r with Ok a => Ok a | Err e => Err (f e) | Panic => Panic | OutOfFuel => OutOfFuel end, s).
Definition sunwrap {S E E' A} (m : st S E A) : st S E' A := λ s,
  let '(r, s) := m s in
  (match r with Ok a => Ok a | Err _ | Panic => Panic | OutOfFuel => OutOfFuel end, s).

Definition get_row_ref_unchecked {E} (t : Table) (bs : B) (ptr : Z) : result E (RowRef B) :=
  row_ref_new (tb_inner t) bs (tb_squashed_offset t) ptr.
Definition get_row_ref {E} (t : Table) (bs : B) (ptr : Z) : result E (option (RowRef B)) :=
  let* present := table_is_row_present t ptr in
  if present : bool then let* r := get_row_ref_unchecked t bs ptr in Ok (Some r) else Ok None.

(** [RowRef::row_hash]. *)
Definition rr_row_hash {E} (r : RowRef B) : result E Z :=
  row_hash H (ti_pages (rr_table r)) (rr_blob_store r) (rr_row_layout r) (rr_pointer r).

(** [Table::eq_row_in_page]. *)
Definition table_eq_row {E} (target : Table) (target_ptr : Z) (needle : Table) (needle_ptr : Z) : result E bool :=
  let* ' (target_page, target_offset) := page_and_offset (ti_pages (tb_inner target)) target_ptr in
  let* ' (needle_page, needle_offset) := page_and_offset (ti_pages (tb_inner needle)) needle_ptr in
  eq_row_in_page target_page needle_page target_offset needle_offset (ti_row_layout (tb_inner target)) (table_static_layout target).

(** *** Finding rows *)

Definition table_pointers_for {E} (t : Table) (row_hash : Z) : result E (list Z) :=
  match tb_pointer_map t with Some pm => pointers_for pm row_hash | None => Ok [] end.

(** The first pointer that satisfies a predicate. *)
Fixpoint find_ptr {E} (p : Z → result E bool) (l : list Z) : result E (option Z) :=
  match l with
  | [] => Ok None
  | ptr :: l => let* b := p ptr in if b : bool then Ok (Some ptr) else find_ptr p l
  end.

Definition find_same_row_via_pointer_map {E} (target needle : Table) (needle_bs : B) (needle_ptr : Z) (hash : option Z) :
    result E (Z * option Z) :=
  let* hash := match hash with
               | Some hash => Ok hash
               | None => let* row_ref := get_row_ref_unchecked needle needle_bs needle_ptr in rr_row_hash row_ref
               end in
  let* ptrs := table_pointers_for target hash in
  let* row_ptr := find_ptr (λ target_ptr, table_eq_row target target_ptr needle needle_ptr) ptrs in
  Ok (hash, row_ptr).

(** The unique index with the lowest id. *)
Definition find_same_row_via_unique_index {E} (target needle : Table) (needle_bs : B) (needle_ptr : Z) :
    result E (option Z) :=
  match list_find (λ e, ix_is_unique e.2 = true) (tb_indexes target) with
  | None => Panic
  | Some (_, (_, target_index)) =>
      let* needle_row := get_row_ref_unchecked needle needle_bs needle_ptr in
      match project needle_row (ix_indexed_columns target_index) with
      | Ok key =>
          let* rows := ix_seek_point target_index key in
          match rows with
          | [] => Ok None
          | target_ptr :: _ =>
              let* eq := table_eq_row target target_ptr needle needle_ptr in
              Ok (if eq : bool then Some target_ptr else None)
          end
      | OutOfFuel => OutOfFuel
      | _ => Panic
      end
  end.

Definition find_same_row {E} (target needle : Table) (needle_bs : B) (needle_ptr : Z) (hash : option Z) :
    result E (option Z * option Z) :=
  match tb_pointer_map target with
  | Some _ =>
      let* ' (hash, row_ptr) := find_same_row_via_pointer_map target needle needle_bs needle_ptr hash in
      Ok (Some hash, row_ptr)
  | None =>
      let* row_ptr := find_same_row_via_unique_index target needle needle_bs needle_ptr in
      Ok (hash, row_ptr)
  end.

(** *** Deleting *)

(** The rows of an index: [index.delete(row).unwrap()]. *)
Fixpoint delete_each {E} (row_ref : RowRef B) (l : list (Z * TableIndex)) : result E (list (Z * TableIndex)) :=
  match l with
  | [] => Ok []
  | (index_id, index) :: l =>
      match ix_delete row_ref index with
      | (Ok _, index) => let* l := delete_each row_ref l in Ok ((index_id, index) :: l)
      | (OutOfFuel, _) => OutOfFuel
      | _ => Panic
      end
  end.

(** Both for all indexes and for those with an id below [until]. *)
Definition delete_from_indices {E} (ptr : Z) (until : option Z) : st tstate E unit :=
  let! row_ref := of_table (λ t bs, get_row_ref_unchecked t bs ptr) in
  let! indexes := of_table (λ t _, Ok (tb_indexes t)) in
  let below := match until with
               | None => indexes
               | Some index_id => filter (λ e, e.1 < index_id) indexes
               end in
  let rest := match until with
              | None => []
              | Some index_id => filter (λ e, ¬ e.1 < index_id) indexes
              end in
  let! below := sres (delete_each row_ref below) in
  on_table (smodify (λ t, with_indexes t (below ++ rest))).

Definition delete_internal_skip_pointer_map {E} (ptr : Z) : st tstate E Z :=
  let! present := of_table (λ t _, table_is_row_present t ptr) in
  let! _ := sassert present in
  let! t := of_table (λ t _, Ok t) in
  sunwrap (on_pages (pages_delete_row (ti_visitor_prog (tb_inner t)) (table_row_size t) ptr)).

Definition delete_internal {E} (ptr : Z) : st tstate E Z :=
  let! pointer_map := of_table (λ t _, Ok (tb_pointer_map t)) in
  let! _ :=
    match pointer_map with
    | None => sret tt
    | Some pm =>
        let! hash := of_table (λ t bs, let* row := get_row_ref_unchecked t bs ptr in rr_row_hash row) in
        let! ' (removed, pm) := sres (pm_remove hash ptr pm) in
        let! _ := sassert removed in
        on_table (smodify (λ t, with_pointer_map t (Some pm)))
    end in
  delete_internal_skip_pointer_map ptr.

Definition delete_unchecked {E} (ptr : Z) : st tstate E Z :=
  let! _ := delete_from_indices ptr None in
  delete_internal ptr.

Definition update_statistics_added_row {E} (blob_bytes : Z) : st tstate E unit :=
  let! t := of_table (λ t _, Ok t) in
  let! row_count := sres (add_u 64 (tb_row_count t) 1) in
  on_table (smodify (λ t, with_statistics t row_count (tb_blob_store_bytes t + blob_bytes))).
Definition update_statistics_deleted_row {E} (blob_bytes : Z) : st tstate E unit :=
  let! t := of_table (λ t _, Ok t) in
  let! row_count := sres (sub_u (tb_row_count t) 1) in
  let! bytes := sres (sub_u (tb_blob_store_bytes t) blob_bytes) in
  on_table (smodify (λ t, with_statistics t row_count bytes)).

(** [Table::delete]; [before] sees the row. *)
Definition table_delete {E R} (ptr : Z) (before : RowRef B → R) : st tstate E (option R) :=
  let! present := of_table (λ t _, table_is_row_present t ptr) in
  if present : bool then
    let! row_ref := of_table (λ t bs, get_row_ref_unchecked t bs ptr) in
    let ret := before row_ref in
    let! blob_bytes_deleted := delete_unchecked ptr in
    let! _ := update_statistics_deleted_row blob_bytes_deleted in
    sret (Some ret)
  else sret None.

(** *** Inserting *)

Definition insert_physically_pv (row : ProductValue) : st tstate BflatnError (RowRef B * Z) :=
  let! t := of_table (λ t _, Ok t) in
  let! ' (ptr, blob_bytes) := on_pages (write_row_to_pages (ti_visitor_prog (tb_inner t)) (ti_row_layout (tb_inner t)) row
                                          (tb_squashed_offset t)) in
  let! row_ref := of_table (λ t bs, get_row_ref_unchecked t bs ptr) in
  sret (row_ref, blob_bytes).

(** The error is the row that was already there. *)
Definition insert_into_pointer_map (ptr : Z) : st tstate Z (option Z) :=
  let! pointer_map := of_table (λ t _, Ok (tb_pointer_map t)) in
  match pointer_map with
  | None => sret None
  | Some pm =>
      let! ' (hash, existing_row) := of_table (λ t bs, find_same_row_via_pointer_map t t bs ptr None) in
      match existing_row with
      | Some existing_row =>
          let! t := of_table (λ t _, Ok t) in
          let! _ := sunwrap (on_pages (pages_delete_row (ti_visitor_prog (tb_inner t)) (table_row_size t) ptr)) in
          sthrow existing_row
      | None =>
          let! ' (_, pm) := sres (pm_insert hash ptr pm) in
          let! _ := on_table (smodify (λ t, with_pointer_map t (Some pm))) in
          sret (Some hash)
      end
  end.

(** [try_for_each]: the indexes after the one that is violated are not reached. *)
Fixpoint insert_each (new : result (Z * Z) (RowRef B)) (l : list (Z * TableIndex)) :
    result (Z * Z) unit * list (Z * TableIndex) :=
  match l with
  | [] => (Ok tt, [])
  | (index_id, index) :: l' =>
      match new with
      | Ok row_ref =>
          match check_and_insert row_ref index with
          | (Ok _, index) => let '(r, l') := insert_each new l' in (r, (index_id, index) :: l')
          | (Err old, index) => (Err (index_id, old), (index_id, index) :: l')
          | (Panic, _) => (Panic, l)
          | (OutOfFuel, _) => (OutOfFuel, l)
          end
      | Err e => (Err e, l)
      | Panic => (Panic, l)
      | OutOfFuel => (OutOfFuel, l)
      end
  end.

(** The error for a violation of an index by the row. *)
Definition violation_error {E} (check_same_row : bool) (t : Table) (bs : B) (new index_id old : Z) : result E InsertError :=
  let* same := if check_same_row && (squashed_offset old =? TX_STATE) then table_eq_row t old t new else Ok false in
  if same : bool then Ok (Duplicate old)
  else
    match bt_get (tb_indexes t) index_id with
    | None => Panic
    | Some index =>
        let* row_ref := get_row_ref_unchecked t bs new in
        match project row_ref (ix_indexed_columns index) with
        | Ok value => let* error := build_error_unique t index index_id value in Ok (IndexError error)
        | OutOfFuel => OutOfFuel
        | _ => Panic
        end
    end.

Definition insert_into_indices (check_same_row : bool) (new : Z) : st tstate InsertError unit := λ '(t, pool, bs),
  let '(r, indexes) := insert_each (get_row_ref_unchecked t bs new) (tb_indexes t) in
  let s := (with_indexes t indexes, pool, bs) in
  match r with
  | Ok _ => (Ok tt, s)
  | Err (index_id, old) =>
      (let! error := of_table (λ t bs, violation_error check_same_row t bs new index_id old) in
       let! _ := delete_from_indices new (Some index_id) in
       let! _ := delete_internal new in
       sthrow error) s
  | Panic => (Panic, s)
  | OutOfFuel => (OutOfFuel, s)
  end.

Definition confirm_insertion (check_same_row : bool) (ptr blob_bytes : Z) : st tstate InsertError (option Z * Z) :=
  let! hash := smap_err Duplicate (insert_into_pointer_map ptr) in
  let! _ := insert_into_indices check_same_row ptr in
  let! _ := update_statistics_added_row blob_bytes in
  sret (hash, ptr).

(** [Table::insert]. *)
Definition table_insert (row : ProductValue) : st tstate InsertError (option Z * RowRef B) :=
  let! ' (row_ref, blob_bytes) := smap_err Bflatn (insert_physically_pv row) in
  let! ' (hash, row_ptr) := confirm_insertion true (rr_pointer row_ref) blob_bytes in
  let! row_ref := of_table (λ t bs, get_row_ref_unchecked t bs row_ptr) in
  sret (hash, row_ref).

(** [Table::confirm_update]. *)
Definition confirm_update (new_ptr old_ptr blob_bytes_added : Z) : st tstate InsertError Z :=
  let! _ := delete_from_indices old_ptr None in
  let! res := λ s, let '(r, s) := insert_into_indices true new_ptr s in (Ok r, s) in
  match res with
  | Err e => let! _ := sunwrap (insert_into_indices true old_ptr) in sthrow e
  | Panic => spanic
  | OutOfFuel => sres OutOfFuel
  | Ok _ =>
      let! blob_bytes_removed := delete_internal_skip_pointer_map old_ptr in
      let! _ := update_statistics_deleted_row blob_bytes_removed in
      let! _ := update_statistics_added_row blob_bytes_added in
      sret new_ptr
  end.

(** [Table::delete_equal_row]. *)
Definition delete_equal_row (row : ProductValue) : st tstate BflatnError (option Z) :=
  let! ' (temp_row, _) := insert_physically_pv row in
  let temp_ptr := rr_pointer temp_row in
  let! ' (_, existing_row_ptr) := of_table (λ t bs, find_same_row t t bs temp_ptr None) in
  let! _ :=
    match existing_row_ptr with
    | Some existing_row_ptr =>
        let! blob_bytes_deleted := delete_unchecked existing_row_ptr in
        update_statistics_deleted_row blob_bytes_deleted
    | None => sret tt
    end in
  let! _ := delete_internal_skip_pointer_map temp_ptr in
  sret existing_row_ptr.

(** *** Scanning *)

Fixpoint row_refs {E} (t : Table) (bs : B) (ptrs : list Z) : result E (list (RowRef B)) :=
  match ptrs with
  | [] => Ok []
  | ptr :: ptrs =>
      let* row_ref := get_row_ref_unchecked t bs ptr in
      let* rest := row_refs t bs ptrs in
      Ok (row_ref :: rest)
  end.

(** [TableScanIter], collected: the rows of each page in turn. *)
Fixpoint scan_pages {E} (t : Table) (bs : B) (current_page_idx : Z) (ps : list Page) : result E (list (RowRef B)) :=
  match ps with
  | [] => Ok []
  | next_page :: ps =>
      let* offsets := iter_fixed_len next_page (table_row_size t) in
      let* rows := row_refs t bs (map (λ page_offset,
                     RowPointer_new false current_page_idx page_offset (tb_squashed_offset t)) offsets) in
      let* current_page_idx := add_u 64 current_page_idx 1 in
      let* rest := scan_pages t bs current_page_idx ps in
      Ok (rows ++ rest)
  end.
Definition scan_rows {E} (t : Table) (bs : B) : result E (list (RowRef B)) :=
  scan_pages t bs 0 (pages (ti_pages (tb_inner t))).

(** [TableAndIndex::seek_point] and [seek_range], with the rows of the iterators. *)
Definition table_seek_point {E} (t : Table) (bs : B) (index : TableIndex) (key : AlgebraicValue) :
    result E (list (RowRef B)) :=
  let* ptrs := ix_seek_point index key in row_refs t bs ptrs.
Definition table_seek_range {E} (t : Table) (bs : B) (index : TableIndex) (lo hi : Bound AlgebraicValue) :
    result E (list (RowRef B)) :=
  let* ptrs := ix_seek_range index lo hi in row_refs t bs ptrs.

(** [RowRef::blob_store_bytes]. *)
Definition vlr_blob_len {E} (page : Page) (bs : B) (vlr : VarLenRef) : result E Z :=
  if is_large_blob vlr then let* blob := vlr_blob_bytes page bs vlr in Ok (len blob) else Ok 0.
Fixpoint sum_blob_lens {E} (page : Page) (bs : B) (row : list byte) (offs : list Z) : result E Z :=
  match offs with
  | [] => Ok 0
  | o :: offs =>
      let* vlr := row_vlr row o in
      let* n := vlr_blob_len page bs vlr in
      let* rest := sum_blob_lens page bs row offs in
      Ok (n + rest)
  end.
Definition rr_blob_store_bytes {E} (r : RowRef B) : result E Z :=
  let* row_data := rr_get_row_data r in
  let* ' (page, _) := rr_page_and_offset r in
  let* offs := visit_var_len (ti_visitor_prog (rr_table r)) row_data in
  sum_blob_lens page (rr_blob_store r) row_data offs.

(** *** Rebuilding after a snapshot *)

Fixpoint hash_rows {E} (rows : list (RowRef B)) : result E (list (Z * Z)) :=
  match rows with
  | [] => Ok []
  | row_ref :: rows =>
      let* hash := rr_row_hash row_ref in
      let* rest := hash_rows rows in
      Ok ((hash, rr_pointer row_ref) :: rest)
  end.
Definition rebuild_pointer_map {E} (t : Table) (bs : B) : result E PointerMap :=
  let* rows := scan_rows t bs in
  let* l := hash_rows rows in
  pm_from_iter l.

(** The counter has no type annotation and is an [i32]. *)
Fixpoint count_rows {E} (rows : list (RowRef B)) (row_count blob_store_bytes : Z) : result E (Z * Z) :=
  match rows with
  | [] => Ok (row_count, blob_store_bytes)
  | row :: rows =>
      let* row_count := add_u 31 row_count 1 in
      let* n := rr_blob_store_bytes row in
      count_rows rows row_count (blob_store_bytes + n)
  end.
Definition compute_row_count {E} (t : Table) (bs : B) : result E Table :=
  let* rows := scan_rows t bs in
  let* ' (row_count, blob_store_bytes) := count_rows rows 0 0 in
  Ok (with_statistics t row_count blob_store_bytes).

Definition set_pages {E} (t : Table) (ps : list Page) (bs : B) : result E Table :=
  let* ps := set_contents (ti_pages (tb_inner t)) ps (table_row_size t) in
  let* t := compute_row_count (with_inner_pages t ps) bs in
  let* pm := rebuild_pointer_map t bs in
  Ok (with_pointer_map t (Some pm)).

(** *** Indexes of a table *)

(** [insert_index]: the rows must not violate the constraint. *)
Definition insert_index {E} (index_id : Z) (index : TableIndex) : st tstate E unit :=
  let! rows := of_table scan_rows in
  match build_from_rows rows index with
  | (Ok _, index) => on_table (smodify (λ t, (add_index index_id index t).2))
  | (OutOfFuel, _) => sres OutOfFuel
  | _ => spanic
  end.

(** A table without the index, not yet without its schema. *)
Definition drop_index {E} (bs : B) (index_id : Z) (index : TableIndex) (pointer_map : option PointerMap) (t : Table) :
    result E Table :=
  let t := with_indexes t (bt_remove (tb_indexes t) index_id) in
  if ix_is_unique index && negb (existsb (λ e, ix_is_unique e.2) (tb_indexes t)) then
    let* pm := match pointer_map with Some pm => Ok pm | None => rebuild_pointer_map t bs end in
    Ok (with_pointer_map t (Some pm))
  else Ok t.
Definition delete_index {E} (index_id : Z) (pointer_map : option PointerMap) :
    st tstate E (option (TableIndex * IndexSchema)) := λ '(t, pool, bs),
  match bt_get (tb_indexes t) index_id with
  | None => (Ok None, (t, pool, bs))
  | Some index =>
      (let! t := sres (drop_index bs index_id index pointer_map t) in
       match remove_index (sch_indexes (tb_schema t)) index_id with
       | None => spanic
       | Some (schema, indexes) =>
           let! _ := on_table (λ _, (Ok tt, with_schema t (schema_with_indexes (tb_schema t) indexes))) in
           sret (Some (index, schema))
       end) (t, pool, bs)
  end.

(** *** Constraints and sequences *)

(** [check_unique_constraints]; [indexes] are those that [adapt] leaves. *)
Fixpoint check_unique_constraints {E} (t : Table) (row : RowRef B) (indexes : list (Z * TableIndex))
    (is_deleted : Z → result E bool) : result E (option UniqueConstraintViolation) :=
  match indexes with
  | [] => Ok None
  | (index_id, index) :: rest =>
      if ix_is_unique index then
        let* value := project_unchecked row (ix_indexed_columns index) in
        let* rows := ix_seek_point index value in
        match rows with
        | ptr :: _ =>
            let* deleted := is_deleted ptr in
            if negb deleted then
              let* error := build_error_unique t index index_id value in Ok (Some error)
            else check_unique_constraints t row rest is_deleted
        | [] => check_unique_constraints t row rest is_deleted
        end
      else check_unique_constraints t row rest is_deleted
  end.

(** [AlgebraicValue::is_numeric_zero]; [-0.0] equals [0.0]. *)
Definition is_numeric_zero (v : AlgebraicValue) : bool :=
  match v with
  | VInt _ x => x =? 0
  | VFloat k x => match float_cmp k x 0 with Eq => true | _ => false end
  | _ => false
  end.

Fixpoint triggered {E} (row_ref : RowRef B) (elements : list ProductTypeElementLayout) (sequences : list SequenceSchema) :
    result E (list SequenceSchema) :=
  match sequences with
  | [] => Ok []
  | seq :: sequences =>
      let* elem_ty := vec_get elements (sq_col_pos seq) in
      let* val := unchecked_read_column CAV row_ref elem_ty in
      let* rest := triggered row_ref elements sequences in
      Ok (if is_numeric_zero val then seq :: rest else rest)
  end.
Definition sequence_triggers_for {E} (t : Table) (bs : B) (row : Z) : result E (ColList * list Z) :=
  let* row_ref := get_row_ref_unchecked t bs row in
  let* seqs := triggered row_ref (row_elements (ti_row_layout (tb_inner t))) (sch_sequences (tb_schema t)) in
  let* cols := col_list_from_iter 0 (map sq_col_pos seqs) in
  Ok (cols, map sq_sequence_id seqs).

(** The bytes that [seq_val] has at an integer type. *)
Definition gen_val_bytes (k : IntTy) (seq_val : Z) : list byte :=
  match k with
  | U256 => le_bytes 32 (wrap_u 128 seq_val)
  | _ => le_bytes (int_size k) (wrap_u (int_bits k) seq_val)
  end.
(** [write] into the row that [get_fixed_row_data_mut] gives. *)
Definition write_to_row {E} (p : Page) (start fixed_row_size o : Z) (bytes : list byte) : result E Page :=
  let* dst := slice (pg_row_data p) start fixed_row_size in
  let* dst := slice_write dst o bytes in
  let* data := slice_write (pg_row_data p) start dst in
  Ok (set_row_data data (set_unmodified_hash None p)).
Definition write_gen_val_to_col {E} (col_id ptr seq_val : Z) (t : Table) : result E Table :=
  let row_layout := ti_row_layout (tb_inner t) in
  let* elem_ty := vec_get (row_elements row_layout) col_id in
  match pel_ty elem_ty with
  | LPrimitive (PInt k) =>
      let ps := ti_pages (tb_inner t) in
      let* p := get_page ps (page_index ptr) in
      let* p := write_to_row p (page_offset ptr) (row_size row_layout) (pel_offset elem_ty) (gen_val_bytes k seq_val) in
      Ok (with_inner_pages t (set_page ps (page_index ptr) p))
  | _ => Panic
  end.

Fixpoint sum_row_bytes {E} (row_size : Z) (ps : list Page) : result E Z :=
  match ps with
  | [] => Ok 0
  | page :: ps =>
      let* rest := sum_row_bytes row_size ps in
      add_u 64 (page_bytes_used_by_rows page row_size) rest
  end.
Definition bytes_used_by_rows {E} (t : Table) : result E Z :=
  sum_row_bytes (table_row_size t) (pages (ti_pages (tb_inner t))).
End operations.
