(* ===== verification/TableRows.v ===== *)
(** * Rows of a table

    The invariant of a table, a set of rows kept in pages, a pointer map and
    indexes, and what inserting, deleting and updating rows do to it. *)

From Stdlib Require Import ZArith Lia.
From stdpp Require Import sorting gmap gmultiset list strings.
From S2P Require Import Prelude Buffer Sats Bsatn Mem Indexes VarLen BlobStore Page PageRows PageRead PageThm Pages PointerMap Layout RowTypeVisitor BflatnTo BflatnFrom BflatnRepr BflatnThm PagesThm StaticLayout RowEq ValueHash RowHash StaticValidator ColList RowRef ValueOrd BTreeMap IndexMaps TableIndex Table.
Local Open Scope Z_scope.

(** The indexes before one with a given id. *)
Lemma filter_below {V} l1 i (x : V) l2 : StronglySorted Z.lt (map fst (l1 ++ (i, x) :: l2)) →
  filter (λ e, e.1 < i) (l1 ++ (i, x) :: l2) = l1 ∧ filter (λ e, ¬ e.1 < i) (l1 ++ (i, x) :: l2) = (i, x) :: l2 ∧
  bt_get (l1 ++ (i, x) :: l2) i = Some x.
Proof.
  induction l1 as [|[j y] l1 IH]; cbn [app map fst].
  - intros [_ Hall]%StronglySorted_inv. rewrite !filter_cons. cbn [fst]. rewrite decide_False, decide_True by lia.
    assert (Hge : filter (λ e : Z * V, e.1 < i) l2 = [] ∧ filter (λ e : Z * V, ¬ e.1 < i) l2 = l2).
    { induction l2 as [|e l2 IH]; [done|]. apply Forall_cons in Hall as [He Hall]. destruct (IH Hall) as [IH1 IH2].
      rewrite !filter_cons, decide_False, decide_True by lia. by rewrite IH1, IH2. }
    destruct Hge as [-> ->]. split_and!; [done..|]. cbn. change (cmp i i) with (i ?= i). by rewrite Z.compare_refl.
  - intros [Hs Hall]%StronglySorted_inv. destruct (IH Hs) as (H1 & H2 & H3).
    assert (j < i) by (rewrite Forall_forall in Hall; apply Hall; rewrite map_app; set_solver).
    rewrite !filter_cons. cbn [fst]. rewrite decide_True, decide_False, H1, H2 by lia. split_and!; [done|done|].
    cbn. change (cmp i j) with (i ?= j). by rewrite (proj2 (Z.compare_gt_iff i j)) by lia.
Qed.

Lemma large_bytes_app l l' : large_bytes (l ++ l') = large_bytes l + large_bytes l'.
Proof. induction l as [|x l IH]; [done|]. cbn [app]. rewrite large_bytes_cons, IH, (large_bytes_cons x l). lia. Qed.
#[export] Instance large_bytes_perm : Proper ((≡ₚ) ==> eq) large_bytes.
Proof.
  intros l l'. induction 1 as [|x l l' _ IH|x y l|l1 l2 l3 _ IH1 _ IH2]; [done|..].
  - by rewrite large_bytes_cons, IH, <-large_bytes_cons.
  - rewrite (large_bytes_cons y), (large_bytes_cons x), (large_bytes_cons x (y :: l)), (large_bytes_cons y l). lia.
  - congruence.
Qed.
Lemma large_bytes_nonneg l : 0 ≤ large_bytes l.
Proof. unfold large_bytes. induction l as [|x l IH]; [done|]. rewrite filter_cons. case_decide; [|done]. cbn [map foldr]. unfold len in *. lia. Qed.

Section tables.
Context {FloatI : FloatOrd} {FLawI : FloatOrdLaws}.
Context {Q B H : Type} {QueueI : PageQueue Q} {QLawI : PageQueueLaws Q}.
Context {BsI : BlobStore B} {HashI : Blake3} {LawI : BlobStoreLaws B} {HasherI : RowHasher H}.
Context (es : list ProductTypeElement) (rt : RowTypeLayout).
Context (Hrt : row_type_layout (E:=unit) es = Ok rt) (Hnr : contains_refs (TProduct es) = false).
Context (Hsize : ty_size (TProduct es) ≤ PAGE_DATA_SIZE) (Hcode : len (visitor_code rt) ≤ u16_MAX).
Context (m0 : gmultiset (list byte)) (sq : Z) (Hsq : in_u 8 sq).

Local Abbreviation tstate := (Table * PagePool Q * B)%type.
Implicit Types (t : Table) (pool : PagePool Q) (bs : B) (A : gmap (nat * Z) ProductValue) (k : nat * Z).

(** ** Rows in pages *)

Definition ptr_of k : Z := RowPointer_new false (Z.of_nat k.1) k.2 sq.

(** A place that a pointer can name. *)
Definition key_ok k : Prop :=
  ptr_key (ptr_of k) = k ∧ squashed_offset (ptr_of k) = sq ∧ ptr_ok (ptr_of k).

(** The pages of the table hold exactly the rows [A]. *)
Record phys (i : TableInner) pool bs A : Prop := {
  ph_layout : ti_row_layout i = rt;
  ph_visitor : ti_visitor_prog i = row_type_visitor rt;
  ph_static : static_ok i;
  ph_pages : pages_state_inv rt m0 (ti_pages i, pool, bs) A;
  ph_typed : map_Forall (λ _ val, typed [] (TProduct es) (VProduct val)) A;
  ph_keys : map_Forall (λ k _, key_ok k) A;
}.

(** The reference that the table gives. *)
Definition row_at_key t bs k : RowRef B :=
  {| rr_table := tb_inner t; rr_blob_store := bs; rr_pointer := ptr_of k |}.

Lemma phys_refers t pool bs A k val :
  phys (tb_inner t) pool bs A → A !! k = Some val → refers rt m0 (row_at_key t bs k) val.
Proof using.
  intros [H1 H2 H3 ((rows & Hinv) & _) H5 H6] Hk. split; [exact H1|]. exists A, rows. split; [exact Hinv|].
  cbn. by rewrite (proj1 (H6 k val Hk)).
Qed.

Lemma phys_row_ref {E} t pool bs A k val :
  tb_squashed_offset t = sq → phys (tb_inner t) pool bs A → A !! k = Some val →
  get_row_ref_unchecked (E:=E) t bs (ptr_of k) = Ok (row_at_key t bs k).
Proof using Hrt Hnr Hsize.
  intros Hs Hph Hk. unfold get_row_ref_unchecked. rewrite Hs.
  by apply (row_ref_new_ok es rt Hrt Hnr Hsize m0 _ _ _ _ val); [eapply phys_refers|apply (ph_keys _ _ _ _ Hph k val Hk)].
Qed.

Lemma phys_present {E} t pool bs A k val :
  tb_squashed_offset t = sq → phys (tb_inner t) pool bs A → A !! k = Some val →
  table_is_row_present (E:=E) t (ptr_of k) = Ok true.
Proof using Hrt Hnr Hsize.
  intros Hs Hph Hk. pose proof (phys_row_ref (E:=E) t pool bs A k val Hs Hph Hk) as Hr.
  unfold get_row_ref_unchecked, row_ref_new in Hr. unfold table_is_row_present.
  by destruct (inner_is_row_present _ _ _) as [[]| | |].
Qed.

Lemma phys_hash {E} t pool bs A k val :
  phys (tb_inner t) pool bs A → A !! k = Some val →
  rr_row_hash (H:=H) (E:=E) (row_at_key t bs k) = Ok (value_hash (H:=H) val).
Proof using Hrt Hnr Hsize.
  intros Hph Hk. pose proof Hph as [H1 _ _ ((rows & Hinv) & _) _ H6]. unfold rr_row_hash, rr_row_layout. cbn. rewrite H1.
  eapply (pages_hash es rt Hrt Hnr Hsize); [exact Hinv|]. by rewrite (proj1 (H6 k val Hk)).
Qed.

Lemma map_object_large A k val (x : list byte) :
  A !! k = Some val → x ∈ product_objects val → 992 < len x → x ∈ large (map_objects A).
Proof using.
  intros Hk Hx Hl. apply elem_of_list_to_set_disj, list_elem_of_filter. split; [done|].
  apply list_elem_of_bind. exists (k, val). split; [done|]. by apply elem_of_map_to_list.
Qed.

Lemma phys_eq {E} t pool bs A k k' val val' :
  phys (tb_inner t) pool bs A → A !! k = Some val → A !! k' = Some val' → collision_free (large (map_objects A)) →
  ∃ r, table_eq_row (E:=E) t (ptr_of k) t (ptr_of k') = Ok r ∧ (r = true ↔ val = val').
Proof using Hrt Hnr Hsize.
  intros Hph Hk Hk' Hc. pose proof Hph as [H1 _ H3 ((rows & Hinv) & _) H5 H6].
  destruct (pages_row _ _ _ _ _ _ _ _ Hinv Hk) as (p & r & gr & Hp & Hr & Hgr & Hpi & Hrep & Hobjs).
  destruct (pages_row _ _ _ _ _ _ _ _ Hinv Hk') as (p' & r' & gr' & Hp' & Hr' & Hgr' & Hpi' & Hrep' & Hobjs').
  destruct (eq_rows_ok es rt Hrt Hnr Hsize (E:=E) p p' r r' k.2 k'.2 gr gr' val val' (table_static_layout t)) as (b & Hb & Hiff);
    try done; [by apply (H5 k)|by apply (H5 k')|..].
  - rewrite Hobjs, Hobjs'. intros x y Hx Hy Lx Ly. apply Hc; [by eapply (map_object_large A k)|by eapply (map_object_large A k')].
  - intros sl. unfold table_static_layout. destruct (ti_static_layout _) as [[sl' va]|] eqn:Hsl; [|done].
    intros [= <-]. rewrite <-H1. by eapply H3.
  - exists b. split; [|done]. unfold table_eq_row, page_and_offset, try_page_and_offset.
    pose proof (proj1 (H6 k val Hk)) as He. pose proof (proj1 (H6 k' val' Hk')) as He'. unfold ptr_key in He, He'.
    rewrite <-He in Hp, Hb. rewrite <-He' in Hp', Hb. cbn [fst snd] in *. rewrite Hp, Hp'. cbn [rbind]. by rewrite H1.
Qed.

(** The pages with a row more, and with one less. *)
Lemma inner_pages t ps : tb_inner (with_inner_pages t ps) =
  {| ti_row_layout := ti_row_layout (tb_inner t); ti_static_layout := ti_static_layout (tb_inner t);
     ti_visitor_prog := ti_visitor_prog (tb_inner t); ti_pages := ps |}.
Proof using. done. Qed.

Lemma phys_write t pool bs A val :
  phys (tb_inner t) pool bs A → typed [] (TProduct es) (VProduct val) → fits rt val →
  collision_free (m0 ⊎ large (map_objects A) ⊎ large (product_objects val)) →
  let w := on_pages (write_row_to_pages (ti_visitor_prog (tb_inner t)) (ti_row_layout (tb_inner t)) val sq) (t, pool, bs) in
  (∃ k ps pool' bs', w = (Ok (ptr_of k, large_bytes (product_objects val)), (with_inner_pages t ps, pool', bs')) ∧
     A !! k = None ∧ phys (tb_inner (with_inner_pages t ps)) pool' bs' (<[k := val]> A)) ∨
  w = (Err (BPagesError TooManyPages), (with_inner_pages t (ti_pages (tb_inner t)), pool, bs)) ∧
    num_pages t = PageIndex_MAX + 1.
Proof using Hrt Hnr Hsize Hcode Hsq.
  intros [H1 H2 H3 ((rows & Hinv) & Hnf & Hpool) H5 H6] Ht Hfits Hc. cbv zeta. unfold on_pages. rewrite H1, H2.
  destruct (write_row_to_pages_ok es rt Hrt Hnr Hsize Hcode m0 _ pool bs A rows val sq Hinv Hnf Hpool Hsq Ht Hfits Hc)
    as [(ptr & i & o & ps & pool' & bs' & rows' & -> & Hptr & Hi & Ho & Hs & HA & Hinv' & Hnf' & Hpool')|[-> Hl]]; [left|right; done].
  assert (Hk : key_ok (i, o)).
  { unfold key_ok, ptr_of, ptr_ok, ptr_key. cbn [fst snd]. rewrite <-Hptr, Hi, Ho, Nat2Z.id. split_and!; [done|done|..].
    - subst ptr. apply RowPointer_new_range.
    - subst ptr. apply reserved_bit_new. }
  exists (i, o), ps, pool', bs'. split_and!; [by rewrite Hptr|done|]. split; cbn; try done.
  - split; [by eexists|done].
  - by apply map_Forall_insert.
  - by apply map_Forall_insert.
Qed.

Lemma phys_delete {E} t pool bs A k val :
  phys (tb_inner t) pool bs A → A !! k = Some val →
  ∃ ps bs', sunwrap (E':=E) (on_pages (pages_delete_row (ti_visitor_prog (tb_inner t)) (table_row_size t) (ptr_of k))) (t, pool, bs) =
      (Ok (large_bytes (product_objects val)), (with_inner_pages t ps, pool, bs')) ∧
    phys (tb_inner (with_inner_pages t ps)) pool bs' (delete k A).
Proof using Hrt Hnr Hsize.
  intros [H1 H2 H3 ((rows & Hinv) & Hnf & Hpool) H5 H6] Hk. unfold sunwrap, on_pages, table_row_size. rewrite H1, H2.
  pose proof (proj1 (H6 k val Hk)) as He. unfold ptr_key in He.
  destruct (pages_delete_row_ok es rt Hrt Hnr Hsize m0 _ pool bs A rows (ptr_of k) val Hinv Hnf) as (ps & bs' & rows' & -> & Hinv' & Hnf').
  { by rewrite He. }
  rewrite He in Hinv'. exists ps, bs'. split; [done|]. split; cbn; try done.
  - split; [by eexists|done].
  - by apply map_Forall_delete.
  - by apply map_Forall_delete.
Qed.

(** ** Indexes *)

(** The pairs that an index on the columns has. *)
Definition row_entries (cols : ColList) A : list (AlgebraicValue * Z) :=
  map (λ e, (row_key cols e.2, ptr_of e.1)) (map_to_list A).

(** An index on all the rows. *)
Definition index_ok A (ix : TableIndex) : Prop :=
  index_for es ix ∧ index_rel ix (row_entries (ix_indexed_columns ix) A).

(** The index has room for the row. *)
Definition index_room A (val : ProductValue) (ix : TableIndex) : Prop :=
  total_bytes (ix_idx ix) (row_entries (ix_indexed_columns ix) A) + entry_bytes (ix_idx ix) (row_key (ix_indexed_columns ix) val) ≤ u64_MAX.

(** The same index, with other rows. *)
Definition same_index (e e' : Z * TableIndex) : Prop := e'.1 = e.1 ∧ ix_shape e'.2 = ix_shape e.2.

Lemma entries_insert cols A k val :
  A !! k = None → row_entries cols (<[k := val]> A) ≡ₚ (row_key cols val, ptr_of k) :: row_entries cols A.
Proof using. intros Hk. unfold row_entries. by rewrite map_to_list_insert. Qed.

Lemma entries_delete cols A k val :
  A !! k = Some val → row_entries cols A ≡ₚ (row_key cols val, ptr_of k) :: row_entries cols (delete k A).
Proof using. intros Hk. rewrite <-entries_insert by apply lookup_delete_eq. by rewrite insert_delete_id. Qed.

Lemma length_entries cols A : length (row_entries cols A) = size A.
Proof using. unfold row_entries. by rewrite length_map, length_map_to_list. Qed.

Lemma elem_of_entries cols A v p :
  (v, p) ∈ row_entries cols A ↔ ∃ k val, A !! k = Some val ∧ v = row_key cols val ∧ p = ptr_of k.
Proof using.
  unfold row_entries. rewrite list_elem_of_fmap. split.
  - intros ([k val] & [= -> ->] & Hin%elem_of_map_to_list). by exists k, val.
  - intros (k & val & Hk & -> & ->). exists (k, val). split; [done|]. by apply elem_of_map_to_list.
Qed.

Lemma same_index_refl e : same_index e e.
Proof using. done. Qed.

Lemma same_index_columns e e' : same_index e e' →
  ix_indexed_columns e'.2 = ix_indexed_columns e.2 ∧ ix_is_unique e'.2 = ix_is_unique e.2.
Proof using. intros [_ [= Hc _ Hcols]]. split; [done|]. by apply (clone_same _ _ Hc). Qed.

(** Inserting a row into one index, and deleting one from it. *)
Lemma index_insert r A k val ix :
  index_ok A ix → A !! k = None → refers rt m0 r val → typed [] (TProduct es) (VProduct val) → rr_pointer r = ptr_of k → key_ok k →
  Z.of_nat (size A) < u64_MAX → index_room A val ix →
  (∃ ix', check_and_insert r ix = (Ok tt, ix') ∧ index_ok (<[k := val]> A) ix' ∧ ix_shape ix' = ix_shape ix ∧
    (ix_is_unique ix = true → select (at_key (row_key (ix_indexed_columns ix) val)) (row_entries (ix_indexed_columns ix) A) = [])) ∨
  (ix_is_unique ix = true ∧ ∃ old, check_and_insert r ix = (Err old, ix) ∧
    select (at_key (row_key (ix_indexed_columns ix) val)) (row_entries (ix_indexed_columns ix) A) ≡ₚ [old]).
Proof using Hrt Hnr Hsize LawI FLawI.
  intros [Hfor Hrel] Hk Hr Ht Hp Hok Hn Hroom.
  destruct (check_and_insert_ok es rt Hrt Hnr Hsize m0 ix _ r val Hfor Hrel Hr Ht) as [(ix' & Hc & Hrel' & Hsh & Hu)|Hv].
  - rewrite Hp. apply Hok.
  - unfold len. rewrite length_entries. lia.
  - exact Hroom.
  - left. exists ix'. split_and!; [done| |done|done]. split; [by eapply index_for_shape|].
    pose proof Hsh as Hsh'. injection Hsh' as _ _ Hcols. rewrite Hcols. eapply index_rel_perm; [|exact Hrel'].
    by rewrite entries_insert, Hp.
  - by right.
Qed.

Lemma index_delete r A k val ix :
  index_ok A ix → A !! k = Some val → refers rt m0 r val → typed [] (TProduct es) (VProduct val) → rr_pointer r = ptr_of k →
  ∃ ix', ix_delete r ix = (Ok true, ix') ∧ index_ok (delete k A) ix' ∧ ix_shape ix' = ix_shape ix.
Proof using Hrt Hnr Hsize LawI FLawI.
  intros [Hfor Hrel] Hk Hr Ht Hp. pose proof (index_rel_perm _ _ _ (entries_delete _ _ _ _ Hk) Hrel) as Hrel1.
  rewrite <-Hp in Hrel1. destruct (ix_delete_ok es rt Hrt Hnr Hsize m0 ix _ r val Hfor Hrel1 Hr Ht) as (ix' & Hd & Hrel' & Hsh).
  exists ix'. split_and!; [done| |done]. split; [by eapply index_for_shape|]. pose proof Hsh as Hsh'. injection Hsh' as _ _ Hcols.
  by rewrite Hcols.
Qed.

Abbreviation indexes_ok A l := (Forall (λ e, index_ok A e.2) l).
Abbreviation same_indexes := (Forall2 same_index).

Lemma same_indexes_refl l : same_indexes l l.
Proof using. induction l; by constructor. Qed.

Lemma same_indexes_trans l1 l2 l3 : same_indexes l1 l2 → same_indexes l2 l3 → same_indexes l1 l3.
Proof using.
  intros H12. revert l3. induction H12 as [|e1 e2 l1 l2 [H1 H2] _ IH]; intros l3; inversion 1 as [|? e3 ? l3' [H3 H4] H23]; subst.
  - constructor.
  - constructor; [split; congruence|by apply IH].
Qed.

Lemma same_indexes_ids l l' : same_indexes l l' → map fst l' = map fst l.
Proof using. induction 1 as [|e e' l l' [He _] _ IH]; [done|]. cbn. by rewrite IH, He. Qed.

Lemma delete_each_ok {E} r A k val l :
  indexes_ok A l → A !! k = Some val → refers rt m0 r val → typed [] (TProduct es) (VProduct val) → rr_pointer r = ptr_of k →
  ∃ l', delete_each (E:=E) r l = Ok l' ∧ indexes_ok (delete k A) l' ∧ same_indexes l l'.
Proof using Hrt Hnr Hsize LawI FLawI.
  intros Hl Hk Hr Ht Hp. induction Hl as [|[i ix] l Hix Hl (l' & IH & Hok & Hs)]; [by exists []|]. cbn [snd] in Hix. cbn [delete_each].
  destruct (index_delete r A k val ix Hix Hk Hr Ht Hp) as (ix' & -> & Hix' & Hsh). rewrite IH. cbn [rbind].
  exists ((i, ix') :: l'). split; [done|]. split; by constructor.
Qed.

(** A unique index that has the key of the value for the row at [old]. *)
Definition violates A (val : ProductValue) (ix : TableIndex) (old : Z) : Prop :=
  ix_is_unique ix = true ∧
  select (at_key (row_key (ix_indexed_columns ix) val)) (row_entries (ix_indexed_columns ix) A) ≡ₚ [old].

(** No unique index has the key of the value. *)
Definition unviolated A (val : ProductValue) (l : list (Z * TableIndex)) : Prop :=
  Forall (λ e, ix_is_unique e.2 = true →
    select (at_key (row_key (ix_indexed_columns e.2) val)) (row_entries (ix_indexed_columns e.2) A) = []) l.

Lemma insert_each_ok r A k val l :
  indexes_ok A l → A !! k = None → refers rt m0 r val → typed [] (TProduct es) (VProduct val) → rr_pointer r = ptr_of k → key_ok k →
  Z.of_nat (size A) < u64_MAX → Forall (λ e, index_room A val e.2) l →
  (∃ l', insert_each (Ok r) l = (Ok tt, l') ∧ indexes_ok (<[k := val]> A) l' ∧ same_indexes l l' ∧ unviolated A val l) ∨
  (∃ l1 l1' i ix l2 old, l = l1 ++ (i, ix) :: l2 ∧ insert_each (Ok r) l = (Err (i, old), l1' ++ (i, ix) :: l2) ∧
     indexes_ok (<[k := val]> A) l1' ∧ same_indexes l1 l1' ∧ unviolated A val l1 ∧ violates A val ix old).
Proof using Hrt Hnr Hsize LawI FLawI.
  intros Hl Hk Hr Ht Hp Hok Hn Hroom. induction Hl as [|[i ix] l Hix Hl IH]; [left; exists []; split_and!; by try constructor|].
  apply Forall_cons in Hroom as [Hroom1 Hroom]. cbn [snd] in *. cbn [insert_each].
  destruct (index_insert r A k val ix Hix Hk Hr Ht Hp Hok Hn Hroom1) as [(ix' & -> & Hix' & Hsh & Hu)|(Hu & old & -> & Hsel)].
  - destruct (IH Hroom) as [(l' & -> & Hl' & Hs & Hv)|(l1 & l1' & j & jx & l2 & old & -> & -> & Hl1 & Hs & Hv & Hviol)].
    + left. exists ((i, ix') :: l'). split_and!; [done|by constructor..].
    + right. exists ((i, ix) :: l1), ((i, ix') :: l1'), j, jx, l2, old. split_and!; try done; by constructor.
  - right. exists [], [], i, ix, l, old. split_and!; try done; constructor.
Qed.

(** ** The pointer map *)

Definition hashes A : gset (Z * Z) := list_to_set (map (λ e, (value_hash (H:=H) e.2, ptr_of e.1)) (map_to_list A)).

Definition pm_rel (pm : PointerMap) A : Prop := ∃ C, pm_ok pm (hashes A) C.

Lemma elem_of_hashes A h p : (h, p) ∈ hashes A ↔ ∃ k val, A !! k = Some val ∧ h = value_hash (H:=H) val ∧ p = ptr_of k.
Proof using.
  unfold hashes. rewrite elem_of_list_to_set, list_elem_of_fmap. split.
  - intros ([k val] & [= -> ->] & Hin%elem_of_map_to_list). by exists k, val.
  - intros (k & val & Hk & -> & ->). exists (k, val). split; [done|]. by apply elem_of_map_to_list.
Qed.

Lemma hashes_insert A k val : A !! k = None → hashes (<[k := val]> A) = {[(value_hash (H:=H) val, ptr_of k)]} ∪ hashes A.
Proof using.
  intros Hk. apply set_eq. intros [h p]. rewrite elem_of_union, elem_of_singleton, !elem_of_hashes. split.
  - intros (k' & val' & [[-> ->]|[_ HA]]%lookup_insert_Some & -> & ->); [by left|right; by exists k', val'].
  - intros [[= -> ->]|(k' & val' & HA & -> & ->)]; [exists k, val; by rewrite lookup_insert_eq|].
    exists k', val'. by rewrite lookup_insert_ne by congruence.
Qed.

Lemma key_inj k k' : key_ok k → key_ok k' → ptr_of k = ptr_of k' → k = k'.
Proof using. intros [H1 _] [H2 _] He. by rewrite <-H1, <-H2, He. Qed.

Lemma hashes_delete A k val : map_Forall (λ k _, key_ok k) A → A !! k = Some val →
  hashes (delete k A) = hashes A ∖ {[(value_hash (H:=H) val, ptr_of k)]}.
Proof using.
  intros Hok Hk. rewrite <-(insert_delete_id A k val Hk) at 2. rewrite hashes_insert by apply lookup_delete_eq.
  apply set_eq. intros [h p]. rewrite elem_of_difference, elem_of_union, !elem_of_singleton. split; [|by intros [[] ?]].
  intros Hin. split; [by right|]. intros [= -> ->]. apply elem_of_hashes in Hin as (k' & val' & HA & _ & Hp).
  apply lookup_delete_Some in HA as [Hne HA]. apply Hne. by eapply key_inj; [eapply Hok|eapply Hok|].
Qed.

(** ** Finding rows *)

Lemma find_ptr_ok {E} (p : Z → result E bool) l :
  (∀ x, x ∈ l → ∃ b, p x = Ok b) →
  ∃ o, find_ptr p l = Ok o ∧ match o with Some x => x ∈ l ∧ p x = Ok true | None => ∀ x, x ∈ l → p x = Ok false end.
Proof using.
  induction l as [|x l IH]; intros Hp; [exists None; split; [done|]; by intros x Hx%elem_of_nil|]. cbn.
  destruct (Hp x ltac:(by left)) as [b Hb]. rewrite Hb. cbn [rbind]. destruct b.
  - exists (Some x). split; [done|]. by split; [left|].
  - destruct IH as (o & -> & Ho); [intros y Hy; apply Hp; by right|]. exists o. split; [done|]. destruct o as [y|].
    + destruct Ho. by split; [right|].
    + intros y [->|Hy]%elem_of_cons; [done|by apply Ho].
Qed.

(** The outcome of a search among the rows [A] for a value. *)
Definition found A (val : ProductValue) (o : option Z) : Prop :=
  match o with
  | Some p => ∃ k, A !! k = Some val ∧ p = ptr_of k
  | None => ∀ k, A !! k ≠ Some val
  end.

(** A row with the value, in this table or in another one of the type: what a
    search for it does with it. *)
Record needle {E} t (nt : Table) (nbs : B) (nptr : Z) A (val : ProductValue) : Prop := {
  nd_row : ∃ r, get_row_ref_unchecked (E:=E) nt nbs nptr = Ok r ∧ rr_row_hash (H:=H) (E:=E) r = Ok (value_hash (H:=H) val) ∧
    ∀ ix, index_for es ix → project r (ix_indexed_columns ix) = Ok (row_key (ix_indexed_columns ix) val) ∧
      typed [] (ix_key_type ix) (row_key (ix_indexed_columns ix) val);
  nd_eq k0 val0 : A !! k0 = Some val0 → ∃ b, table_eq_row (E:=E) t (ptr_of k0) nt nptr = Ok b ∧ (b = true ↔ val0 = val);
}.

Lemma find_via_pointer_map_ok {E} t nt nbs nptr A val pm hash :
  needle (E:=E) t nt nbs nptr A val → map_Forall (λ k _, key_ok k) A →
  tb_pointer_map t = Some pm → pm_rel pm A → (∀ h, hash = Some h → h = value_hash (H:=H) val) →
  ∃ o, find_same_row_via_pointer_map (H:=H) (E:=E) t nt nbs nptr hash = Ok (value_hash (H:=H) val, o) ∧ found A val o.
Proof using.
  intros [(r & Hr & Hhash & _) Heq] Hok Hpm [C Hpmok] Hh. unfold find_same_row_via_pointer_map.
  replace (match hash with Some h => _ | None => _ end) with (Ok (E:=E) (value_hash (H:=H) val)).
  2: { destruct hash as [h|]; [by rewrite (Hh h eq_refl)|]. rewrite Hr. cbn [rbind]. by rewrite Hhash. }
  cbn [rbind]. unfold table_pointers_for. rewrite Hpm. destruct (pointers_for_ok (E:=E) pm _ C (value_hash (H:=H) val) Hpmok) as (l & -> & _ & Hl).
  cbn [rbind]. assert (Heq' : ∀ x, x ∈ l → ∃ k0 val0 b, x = ptr_of k0 ∧ A !! k0 = Some val0 ∧
    table_eq_row (E:=E) t x nt nptr = Ok b ∧ (b = true ↔ val0 = val)).
  { intros x (k0 & val0 & HA & _ & ->)%Hl%elem_of_hashes. destruct (Heq k0 val0 HA) as (b & Hb & Hi). by exists k0, val0, b. }
  destruct (find_ptr_ok (λ x, table_eq_row (E:=E) t x nt nptr) l) as (o & -> & Ho).
  { intros x Hx. destruct (Heq' x Hx) as (? & ? & b & _ & _ & Hb & _). by exists b. }
  cbn [rbind]. exists o. split; [done|]. destruct o as [x|]; cbn.
  - destruct Ho as [Hx Ht]. destruct (Heq' x Hx) as (k0 & val0 & b & -> & HA & Hb & Hi). exists k0. split; [|done].
    rewrite Ht in Hb. injection Hb as <-. by rewrite <-(proj1 Hi eq_refl).
  - intros k0 HA. assert (Hx : ptr_of k0 ∈ l) by (apply Hl, elem_of_hashes; by exists k0, val).
    destruct (Heq' _ Hx) as (k1 & val1 & b & Hkk & HA1 & Hb & Hi). rewrite (Ho _ Hx) in Hb. injection Hb as <-.
    assert (k0 = k1) as <- by (eapply key_inj; [by eapply Hok|by eapply Hok|done]).
    rewrite HA in HA1. injection HA1 as <-. by discriminate (proj2 Hi eq_refl).
Qed.

(** A row of the index with the key of the value. *)
Lemma select_key cols A val p :
  p ∈ select (at_key (row_key cols val)) (row_entries cols A) ↔
  ∃ k val', A !! k = Some val' ∧ at_key (row_key cols val) (row_key cols val') = true ∧ p = ptr_of k.
Proof using.
  rewrite elem_of_select. split.
  - intros (v & (k & val' & HA & -> & ->)%elem_of_entries & Hv). by exists k, val'.
  - intros (k & val' & HA & Hv & ->). exists (row_key cols val'). split; [|done]. apply elem_of_entries. by exists k, val'.
Qed.

Lemma project_key {E} t pool bs A k val ix :
  phys (tb_inner t) pool bs A → A !! k = Some val → index_for es ix →
  project (row_at_key t bs k) (ix_indexed_columns ix) = Ok (row_key (ix_indexed_columns ix) val) ∧
  project_unchecked (E:=E) (row_at_key t bs k) (ix_indexed_columns ix) = Ok (row_key (ix_indexed_columns ix) val) ∧
  typed [] (ix_key_type ix) (row_key (ix_indexed_columns ix) val).
Proof using Hrt Hnr Hsize LawI.
  intros Hph Hk Hfor. destruct (row_key_typed es ix val Hfor (ph_typed _ _ _ _ Hph k val Hk)) as [Hp Hty].
  pose proof (phys_refers t pool bs A k val Hph Hk) as Hr. destruct val as [vals].
  destruct (project_unchecked_ok es rt Hrt Hnr Hsize m0 (E:=E) _ vals (ix_indexed_columns ix) Hr) as (v & Hv & Hu).
  { eapply project_range; [apply Hfor|exact Hp]. }
  rewrite Hp in Hv. injection Hv as <-. by rewrite (project_ok es rt Hrt Hnr Hsize m0 _ _ _ Hr).
Qed.

Lemma find_via_unique_index_ok {E} t nt nbs nptr A val :
  needle (E:=E) t nt nbs nptr A val → map_Forall (λ k _, key_ok k) A →
  indexes_ok A (tb_indexes t) → Exists (λ e, ix_is_unique e.2 = true) (tb_indexes t) →
  ∃ o, find_same_row_via_unique_index (E:=E) t nt nbs nptr = Ok o ∧ found A val o.
Proof using FLawI.
  intros [(r & Hr & _ & Hproj) Heq] Hok Hix Hex. unfold find_same_row_via_unique_index. apply Exists_exists in Hex as (e & Hin & Hu).
  destruct (list_find _ (tb_indexes t)) as [[j [i ix]]|] eqn:Hf.
  2: { eapply list_find_None in Hf. rewrite Forall_forall in Hf. by destruct (Hf e Hin). }
  apply list_find_Some in Hf as (Hj & Hux & _). cbn [snd] in Hux. apply list_elem_of_lookup_2 in Hj.
  rewrite Forall_forall in Hix. destruct (Hix _ Hj) as [Hfor Hrel]. cbn [snd] in *.
  rewrite Hr. cbn [rbind]. destruct (Hproj ix Hfor) as (-> & Hty).
  destruct (ix_point_ok (E:=E) es ix _ _ Hfor Hrel Hty) as (l & -> & Hl & Hlen). cbn [rbind]. specialize (Hlen Hux).
  assert (Hself : ∀ k0, A !! k0 = Some val → ptr_of k0 ∈ l).
  { intros k0 HA. rewrite Hl. apply select_key. exists k0, val. unfold at_key. by rewrite cmp_refl. }
  destruct l as [|p [|p' l]]; [|clear Hlen|cbn in Hlen; lia].
  { exists None. split; [done|]. intros k0 HA. by apply Hself, elem_of_nil in HA. }
  assert (Hp : p ∈ [p]) by by apply list_elem_of_singleton. rewrite Hl in Hp. apply select_key in Hp as (k0 & val0 & HA & _ & ->).
  destruct (Heq k0 val0 HA) as (b & -> & Hb). cbn [rbind].
  eexists. split; [done|]. destruct b; [exists k0; by rewrite <-(proj1 Hb eq_refl)|].
  intros k1 HA1. pose proof (Hself k1 HA1) as He%list_elem_of_singleton. apply key_inj in He as ->; [|by eapply Hok..].
  rewrite HA in HA1. injection HA1 as ->. by discriminate (proj2 Hb eq_refl).
Qed.

(** ** The invariant *)

(** Rows are found by the pointer map, or by a unique index if there is one. *)
Definition finder_ok t A : Prop :=
  match tb_pointer_map t with
  | Some pm => pm_rel pm A ∧ Forall (λ e, ix_is_unique e.2 = false) (tb_indexes t)
  | None => Exists (λ e, ix_is_unique e.2 = true) (tb_indexes t)
  end.

Lemma find_same_row_ok {E} t nt nbs nptr A val hash :
  needle (E:=E) t nt nbs nptr A val → map_Forall (λ k _, key_ok k) A → indexes_ok A (tb_indexes t) → finder_ok t A →
  (∀ h, hash = Some h → h = value_hash (H:=H) val) →
  ∃ h o, find_same_row (H:=H) (E:=E) t nt nbs nptr hash = Ok (h, o) ∧ found A val o ∧ ∀ x, h = Some x → x = value_hash (H:=H) val.
Proof using FLawI.
  intros Hn Hok Hix Hf Hh. unfold find_same_row, finder_ok in *. destruct (tb_pointer_map t) as [pm|] eqn:Hpm.
  - destruct Hf as [Hf _]. destruct (find_via_pointer_map_ok (E:=E) t nt nbs nptr A val pm hash Hn Hok Hpm Hf Hh) as (o & -> & Ho).
    eexists _, o. split_and!; [done..|]. by intros x [= <-].
  - destruct (find_via_unique_index_ok (E:=E) t nt nbs nptr A val Hn Hok Hix Hf) as (o & -> & Ho). by exists hash, o.
Qed.

(** A row in the pages of the table is one to search for among some of its rows. *)
Lemma own_needle {E} t pool bs A A' k val :
  phys (tb_inner t) pool bs A' → tb_squashed_offset t = sq → A ⊆ A' → A' !! k = Some val → collision_free (large (map_objects A')) →
  needle (E:=E) t t bs (ptr_of k) A val ∧ map_Forall (λ k _, key_ok k) A.
Proof using Hrt Hnr Hsize LawI.
  intros Hph Hs Hsub Hk Hc. split; [split|].
  - exists (row_at_key t bs k). split; [by eapply phys_row_ref|]. split; [by eapply phys_hash|]. intros ix Hfor.
    by destruct (project_key (E:=E) t pool bs A' k val ix Hph Hk Hfor) as (? & _ & ?).
  - intros k0 val0 HA. eapply (phys_eq t pool bs A'); try done. by eapply lookup_weaken.
  - intros k0 val0 HA. by eapply (ph_keys _ _ _ _ Hph), lookup_weaken.
Qed.

(** What inserting and deleting rows does not touch before it counts. *)
Definition rest t := (tb_schema t, tb_squashed_offset t, tb_row_count t, tb_blob_store_bytes t, tb_is_scheduler t, ti_static_layout (tb_inner t)).

Lemma same_indexes_unique l l' :
  same_indexes l l' →
  (Exists (λ e, ix_is_unique e.2 = true) l → Exists (λ e, ix_is_unique e.2 = true) l') ∧
  (Forall (λ e, ix_is_unique e.2 = false) l → Forall (λ e, ix_is_unique e.2 = false) l').
Proof using.
  induction 1 as [|e e' l l' Hs _ [IH1 IH2]]; [done|]. apply same_index_columns in Hs as [_ Hu]. split.
  - intros [He|Hl]%Exists_cons; apply Exists_cons; [left; by rewrite Hu|right; by apply IH1].
  - intros [He Hl]%Forall_cons. apply Forall_cons. split; [by rewrite Hu|by apply IH2].
Qed.

(** The slots for hashes that more than one row has. *)
Definition colliders t : Z := match tb_pointer_map t with Some pm => len (pm_colliders pm) | None => 0 end.

(** The table after rows were changed: it has the same indexes and schema, and
    at most so many slots more. *)
Record grown (n : Z) t t' : Prop := {
  gr_indexes : same_indexes (tb_indexes t) (tb_indexes t');
  gr_schema : tb_schema t' = tb_schema t;
  gr_scheduler : tb_is_scheduler t' = tb_is_scheduler t;
  gr_static : ti_static_layout (tb_inner t') = ti_static_layout (tb_inner t);
  gr_colliders : colliders t' ≤ colliders t + n;
}.

Lemma grown_refl n t : 0 ≤ n → grown n t t.
Proof using. clear Hsq. intros Hn. split; [apply same_indexes_refl|done|done|done|lia]. Qed.
Lemma grown_pages n t ps : 0 ≤ n → grown n t (with_inner_pages t ps).
Proof using. clear Hsq. intros Hn. split; [apply same_indexes_refl|done|done|done|unfold colliders; cbn; lia]. Qed.
Lemma grown_trans n n' t1 t2 t3 : grown n t1 t2 → grown n' t2 t3 → grown (n + n') t1 t3.
Proof using. clear Hsq. intros [A1 A2 A3 A4 A5] [B1 B2 B3 B4 B5]. split; [by eapply same_indexes_trans|congruence..|lia]. Qed.
Lemma grown_rest n t t' : same_indexes (tb_indexes t) (tb_indexes t') → rest t' = rest t → colliders t' ≤ colliders t + n → grown n t t'.
Proof using. intros Hs [= R1 R2 R3 R4 R5 R6] Hc. by split. Qed.

(** ** Deleting *)

Lemma delete_from_all_ok {E} t pool bs A A' k val :
  phys (tb_inner t) pool bs A' → tb_squashed_offset t = sq → A ⊆ A' → A !! k = Some val → indexes_ok A (tb_indexes t) →
  ∃ l, delete_from_indices (E:=E) (ptr_of k) None (t, pool, bs) = (Ok tt, (with_indexes t l, pool, bs)) ∧
    indexes_ok (delete k A) l ∧ same_indexes (tb_indexes t) l.
Proof using Hrt Hnr Hsize LawI FLawI.
  intros Hph Hs Hsub Hk Hix. assert (Hk' : A' !! k = Some val) by by eapply lookup_weaken.
  destruct (delete_each_ok (E:=E) (row_at_key t bs k) A k val (tb_indexes t) Hix Hk) as (l & Hd & Hl & Hsame);
    [by eapply phys_refers|by apply (ph_typed _ _ _ _ Hph _ _ Hk')|done|].
  exists l. split; [|done]. unfold delete_from_indices, sbind, of_table, slift, sres, on_table, smodify.
  rewrite (phys_row_ref t pool bs A' k val Hs Hph Hk'). by rewrite Hd, app_nil_r.
Qed.

Lemma delete_until_ok {E} t pool bs A A' k val l1 i ix l2 :
  phys (tb_inner t) pool bs A' → tb_squashed_offset t = sq → A ⊆ A' → A !! k = Some val →
  tb_indexes t = l1 ++ (i, ix) :: l2 → StronglySorted Z.lt (map fst (tb_indexes t)) → indexes_ok A l1 →
  ∃ l, delete_from_indices (E:=E) (ptr_of k) (Some i) (t, pool, bs) = (Ok tt, (with_indexes t (l ++ (i, ix) :: l2), pool, bs)) ∧
    indexes_ok (delete k A) l ∧ same_indexes l1 l.
Proof using Hrt Hnr Hsize LawI FLawI.
  intros Hph Hs Hsub Hk Hl Hsort Hix. assert (Hk' : A' !! k = Some val) by by eapply lookup_weaken.
  rewrite Hl in Hsort. destruct (filter_below l1 i ix l2 Hsort) as (F1 & F2 & _).
  destruct (delete_each_ok (E:=E) (row_at_key t bs k) A k val l1 Hix Hk) as (l & Hd & Hl' & Hsame);
    [by eapply phys_refers|by apply (ph_typed _ _ _ _ Hph _ _ Hk')|done|].
  exists l. split; [|done]. unfold delete_from_indices, sbind, of_table, slift, sres, on_table, smodify.
  rewrite (phys_row_ref t pool bs A' k val Hs Hph Hk'). by rewrite Hl, F1, F2, Hd.
Qed.

Lemma delete_skip_ok {E} t pool bs A k val :
  phys (tb_inner t) pool bs A → tb_squashed_offset t = sq → A !! k = Some val →
  ∃ ps bs', delete_internal_skip_pointer_map (E:=E) (ptr_of k) (t, pool, bs) =
      (Ok (large_bytes (product_objects val)), (with_inner_pages t ps, pool, bs')) ∧
    phys (tb_inner (with_inner_pages t ps)) pool bs' (delete k A).
Proof using Hrt Hnr Hsize.
  intros Hph Hs Hk. destruct (phys_delete (E:=E) t pool bs A k val Hph Hk) as (ps & bs' & Hd & Hph').
  exists ps, bs'. split; [|done]. unfold delete_internal_skip_pointer_map, sbind, of_table, slift, sassert.
  by rewrite (phys_present t pool bs A k val Hs Hph Hk).
Qed.

(** The pointer map without the row, if there is one. *)
Definition pm_without t t' A : Prop :=
  match tb_pointer_map t, tb_pointer_map t' with
  | Some pm, Some pm' => pm_rel pm' A ∧ len (pm_colliders pm') ≤ len (pm_colliders pm)
  | None, None => True
  | _, _ => False
  end.

Lemma delete_internal_ok {E} t pool bs A A' k val :
  phys (tb_inner t) pool bs A' → tb_squashed_offset t = sq → A ⊆ A' → A' !! k = Some val →
  (∀ pm, tb_pointer_map t = Some pm → pm_rel pm A ∧ A !! k = Some val) →
  ∃ t' bs', delete_internal (H:=H) (E:=E) (ptr_of k) (t, pool, bs) = (Ok (large_bytes (product_objects val)), (t', pool, bs')) ∧
    phys (tb_inner t') pool bs' (delete k A') ∧ pm_without t t' (delete k A) ∧ tb_indexes t' = tb_indexes t ∧ rest t' = rest t.
Proof using Hrt Hnr Hsize.
  intros Hph Hs Hsub Hk Hpm. unfold delete_internal, pm_without. unfold sbind at 1, of_table at 1, slift at 1.
  destruct (tb_pointer_map t) as [pm|] eqn:Hp.
  - destruct (Hpm pm eq_refl) as [[C Hok] HA]. destruct (pm_remove_ok (E:=E) pm _ C (value_hash (H:=H) val) (ptr_of k) Hok) as (pm' & C' & Hr & Hok' & Hlen).
    rewrite bool_decide_true in Hr by (apply elem_of_hashes; by exists k, val).
    destruct (delete_skip_ok (E:=E) (with_pointer_map t (Some pm')) pool bs A' k val Hph Hs Hk) as (ps & bs' & Hd & Hph').
    exists (with_inner_pages (with_pointer_map t (Some pm')) ps), bs'. split_and!; [|done| |done|done].
    + unfold sbind, of_table, slift, sres, sassert, on_table, smodify. rewrite (phys_row_ref t pool bs A' k val Hs Hph Hk). cbn [rbind].
      rewrite (phys_hash t pool bs A' k val Hph Hk), Hr. exact Hd.
    + cbn. split; [|exact Hlen]. exists C'. rewrite (hashes_delete A k val); [done| |done]. intros j x Hj. by eapply (ph_keys _ _ _ _ Hph), lookup_weaken.
  - destruct (delete_skip_ok (E:=E) t pool bs A' k val Hph Hs Hk) as (ps & bs' & Hd & Hph').
    exists (with_inner_pages t ps), bs'. split_and!; try done. cbn. by rewrite Hp.
Qed.

Lemma finder_delete t t' A A1 :
  finder_ok t A → pm_without t t' A1 → same_indexes (tb_indexes t) (tb_indexes t') → finder_ok t' A1.
Proof using.
  unfold finder_ok, pm_without. intros Hf Hp [H1 H2]%same_indexes_unique.
  destruct (tb_pointer_map t), (tb_pointer_map t'); try done; [|by apply H1]. split; [apply Hp|]. by apply H2, Hf.
Qed.

Lemma delete_unchecked_ok {E} t pool bs A A' k val :
  phys (tb_inner t) pool bs A' → tb_squashed_offset t = sq → A ⊆ A' → A !! k = Some val →
  indexes_ok A (tb_indexes t) → finder_ok t A →
  ∃ t' bs', delete_unchecked (H:=H) (E:=E) (ptr_of k) (t, pool, bs) = (Ok (large_bytes (product_objects val)), (t', pool, bs')) ∧
    phys (tb_inner t') pool bs' (delete k A') ∧ indexes_ok (delete k A) (tb_indexes t') ∧ finder_ok t' (delete k A) ∧
    same_indexes (tb_indexes t) (tb_indexes t') ∧ rest t' = rest t ∧ colliders t' ≤ colliders t.
Proof using Hrt Hnr Hsize LawI FLawI.
  intros Hph Hs Hsub Hk Hix Hf. destruct (delete_from_all_ok (E:=E) t pool bs A A' k val Hph Hs Hsub Hk Hix) as (l & Hd & Hl & Hsame).
  destruct (delete_internal_ok (E:=E) (with_indexes t l) pool bs A A' k val Hph Hs Hsub (lookup_weaken _ _ _ _ Hk Hsub))
    as (t' & bs' & Hd' & Hph' & Hpm & Hi & Hr).
  { cbn. intros pm Hpm. unfold finder_ok in Hf. rewrite Hpm in Hf. by destruct Hf. }
  exists t', bs'. split_and!; [|done|by rewrite Hi| |by rewrite Hi|done|].
  - unfold delete_unchecked. rewrite (sbind_Ok _ _ _ _ _ Hd). exact Hd'.
  - eapply (finder_delete t); [done|exact Hpm|by rewrite Hi].
  - unfold pm_without, colliders in *. cbn in Hpm. destruct (tb_pointer_map t), (tb_pointer_map t'); try done. apply Hpm.
Qed.

(** The index is one of the schema, and its columns have names. *)
Definition described (sch : TableSchema) (e : Z * TableIndex) : Prop :=
  Exists (λ i, is_index_id i = e.1) (sch_indexes sch) ∧
  Forall (λ c, is_Some (sch_columns sch !! Z.to_nat c)) (col_list_iter (ix_indexed_columns e.2)).

(** The table knows the rows [A], no two of them equal. *)
Record logical t A : Prop := {
  tv_sq : tb_squashed_offset t = sq;
  tv_indexes : indexes_ok A (tb_indexes t);
  tv_sorted : StronglySorted Z.lt (map fst (tb_indexes t));
  tv_finder : finder_ok t A;
  tv_set k k' val : A !! k = Some val → A !! k' = Some val → k = k';
  tv_rows : tb_row_count t = Z.of_nat (size A);
  tv_blobs : tb_blob_store_bytes t = large_bytes (map_objects A);
  tv_schema : Forall (described (tb_schema t)) (tb_indexes t);
  tv_row_type : sch_row_type (tb_schema t) = es;
}.

(** They are the rows in the pages. *)
Definition tbl_inv t pool bs A : Prop := phys (tb_inner t) pool bs A ∧ logical t A.

Lemma logical_pages t A ps : logical t A → logical (with_inner_pages t ps) A.
Proof using. by intros []. Qed.

Lemma described_same sch l l' : same_indexes l l' → Forall (described sch) l → Forall (described sch) l'.
Proof using.
  induction 1 as [|e e' l l' Hs _ IH]; [done|]. intros [[H1 H2] Hl]%Forall_cons. apply Forall_cons. split; [|by apply IH].
  split; [by rewrite (proj1 Hs)|]. by rewrite (proj1 (same_index_columns _ _ Hs)).
Qed.

(** A pointer to where a row of the table could be. *)
Definition row_boundary (ptr : Z) : Prop := page_offset ptr mod row_size rt = 0 ∧ page_offset ptr + row_size rt ≤ PAGE_DATA_SIZE.

Lemma phys_absent {E} t pool bs A ptr :
  phys (tb_inner t) pool bs A → row_boundary ptr → A !! ptr_key ptr = None → table_is_row_present (E:=E) t ptr = Ok false.
Proof using Hrt Hnr Hsize.
  intros [H1 _ _ ((rows & Hinv) & _) _ _] [Hb1 Hb2] Hk. unfold table_is_row_present, inner_is_row_present.
  destruct (negb _); [done|]. unfold try_page_and_offset. destruct (pages _ !! _) as [p|] eqn:Hp; [|done].
  destruct (Forall2_lookup_l _ _ _ _ _ (pi_pages _ _ _ _ _ _ Hinv) Hp) as (r & Hr & Hpi).
  destruct (row_good es rt Hrt Hnr Hsize) as [_ Hrs]. rewrite H1, (has_row_offset_ok _ Hrs (row_type_visitor rt) (E:=E) p r); [|done|by apply Z.mod_pos_bound|done|done].
  rewrite bool_decide_false; [done|]. intros [gr Hgr]%elem_of_dom. pose proof (pi_rows _ _ _ _ _ _ Hinv (ptr_key ptr)) as Hrep.
  unfold row_at in Hrep. cbn in Hrep. rewrite Hr in Hrep. cbn in Hrep. rewrite Hgr, Hk in Hrep. inversion Hrep.
Qed.

Lemma ptr_of_key ptr : ptr_ok ptr → squashed_offset ptr = sq → ptr_of (ptr_key ptr) = ptr.
Proof using.
  intros [Hr Hb] Hs. unfold ptr_of, ptr_key. cbn [fst snd]. rewrite Z2Nat.id by by apply field_range.
  rewrite <-Hs, <-Hb at 1. by apply RowPointer_new_fields.
Qed.

Lemma statistics_deleted {E} t pool bs A k val :
  tb_row_count t = Z.of_nat (size A) → tb_blob_store_bytes t = large_bytes (map_objects A) → A !! k = Some val →
  ∃ n b, update_statistics_deleted_row (E:=E) (large_bytes (product_objects val)) (t, pool, bs) = (Ok tt, (with_statistics t n b, pool, bs)) ∧
    n = Z.of_nat (size (delete k A)) ∧ b = large_bytes (map_objects (delete k A)).
Proof using.
  clear -t. intros Hn Hb Hk. assert (Hsz : size A = S (size (delete k A))).
  { rewrite <-(insert_delete_id A k val Hk) at 1. by rewrite map_size_insert_None by apply lookup_delete_eq. }
  rewrite (map_objects_delete A k val Hk), large_bytes_app in Hb. pose proof (large_bytes_nonneg (map_objects (delete k A))).
  unfold update_statistics_deleted_row, sbind, of_table, slift, sres, on_table, smodify.
  rewrite !sub_u_Ok by lia. eexists _, _. split; [done|]. lia.
Qed.

Lemma logical_delete t t' n b A k :
  logical t A → indexes_ok (delete k A) (tb_indexes t') → finder_ok t' (delete k A) →
  same_indexes (tb_indexes t) (tb_indexes t') → rest t' = rest t →
  n = Z.of_nat (size (delete k A)) → b = large_bytes (map_objects (delete k A)) →
  logical (with_statistics t' n b) (delete k A).
Proof using.
  intros [I2 I3 I4 I5 I6 I7 I8 I9 I10] Hix Hf Hs [= R1 R2 R3 R4 R5 R6] Hn Hb. split; cbn; try done.
  - by rewrite R2.
  - by rewrite (same_indexes_ids _ _ Hs).
  - intros k1 k2 x [_ H1]%lookup_delete_Some [_ H2]%lookup_delete_Some. by eapply I6.
  - rewrite R1. by eapply described_same.
  - by rewrite R1.
Qed.

Lemma table_delete_row {E R} t pool bs A k val (before : RowRef B → R) :
  tbl_inv t pool bs A → A !! k = Some val →
  ∃ t' bs', table_delete (H:=H) (E:=E) (ptr_of k) before (t, pool, bs) = (Ok (Some (before (row_at_key t bs k))), (t', pool, bs')) ∧
    tbl_inv t' pool bs' (delete k A) ∧ grown 0 t t'.
Proof using Hrt Hnr Hsize LawI FLawI.
  intros [I1 Hlog] Hk. pose proof Hlog as [I2 I3 I4 I5 I6 I7 I8 I9 I10].
  destruct (delete_unchecked_ok (E:=E) t pool bs A A k val I1 I2 (reflexivity A) Hk I3 I5) as (t' & bs' & Hd & Hph & Hix & Hf & Hs & Hr & Hcol).
  destruct (statistics_deleted (E:=E) t' pool bs' A k val) as (n & b & Hst & Hn & Hb); [by injection Hr as _ _ -> _ _|by injection Hr as _ _ _ -> _|done|].
  exists (with_statistics t' n b), bs'. split_and!.
  - unfold table_delete. unfold sbind at 1, of_table at 1, slift at 1. rewrite (phys_present t pool bs A k val I2 I1 Hk).
    unfold sbind at 1, of_table at 1, slift at 1. rewrite (phys_row_ref t pool bs A k val I2 I1 Hk).
    rewrite (sbind_Ok _ _ _ _ _ Hd), (sbind_Ok _ _ _ _ _ Hst). done.
  - split; [done|]. by eapply (logical_delete t).
  - clear Hsq. injection Hr as R1 _ _ _ R5. split; cbn; try done. unfold colliders in *. cbn. lia.
Qed.

(** ** Inserting *)

Lemma bind_of_table {E X Y} (f : Table → B → result E X) (c : X → st tstate E Y) t pool bs x :
  f t bs = Ok x → sbind (of_table f) c (t, pool, bs) = c x (t, pool, bs).
Proof using. intros Hf. unfold sbind, of_table, slift. by rewrite Hf. Qed.

Lemma with_own_pages t : with_inner_pages t (ti_pages (tb_inner t)) = t.
Proof using. by destruct t as [[]]. Qed.
Lemma with_own_pointer_map t : with_pointer_map t (tb_pointer_map t) = t.
Proof using. by destruct t. Qed.

Lemma insert_physically_ok t pool bs A val :
  phys (tb_inner t) pool bs A → tb_squashed_offset t = sq → typed [] (TProduct es) (VProduct val) → fits rt val →
  collision_free (m0 ⊎ large (map_objects A) ⊎ large (product_objects val)) →
  (∃ k ps pool' bs', insert_physically_pv val (t, pool, bs) =
      (Ok (row_at_key (with_inner_pages t ps) bs' k, large_bytes (product_objects val)), (with_inner_pages t ps, pool', bs')) ∧
     A !! k = None ∧ phys (tb_inner (with_inner_pages t ps)) pool' bs' (<[k := val]> A)) ∨
  insert_physically_pv val (t, pool, bs) = (Err (BPagesError TooManyPages), (t, pool, bs)) ∧ num_pages t = PageIndex_MAX + 1.
Proof using Hrt Hnr Hsize Hcode Hsq.
  intros Hph Hs Ht Hfits Hc. unfold insert_physically_pv. rewrite (bind_of_table _ _ _ _ _ t eq_refl), Hs.
  destruct (phys_write t pool bs A val Hph Ht Hfits Hc) as [(k & ps & pool' & bs' & Hw & Hk & Hph')|[Hw Hl]]; [left|right].
  - exists k, ps, pool', bs'. split; [|done]. rewrite (sbind_Ok _ _ _ _ _ Hw).
    by rewrite (bind_of_table _ _ _ _ _ _ (phys_row_ref (with_inner_pages t ps) pool' bs' _ k val Hs Hph' (lookup_insert_eq _ _ _))).
  - split; [|done]. rewrite with_own_pages in Hw. unfold sbind at 1. by rewrite Hw.
Qed.

(** The map has a free collider. *)
Definition pm_room t : Prop := ∀ pm, tb_pointer_map t = Some pm → len (pm_colliders pm) < 2 ^ 32.

(** The pointer map with the row, whose hash is returned, if there is one. *)
Definition pm_with t pm A A' (val : ProductValue) (h : option Z) : Prop :=
  match tb_pointer_map t, pm with
  | Some pm0, Some pm => pm_rel pm A' ∧ h = Some (value_hash (H:=H) val) ∧ (∀ k, A !! k ≠ Some val) ∧
      len (pm_colliders pm) ≤ len (pm_colliders pm0) + 1
  | None, None => h = None
  | _, _ => False
  end.

Lemma insert_into_pointer_map_ok t pool bs A k val :
  let A' := <[k := val]> A in
  phys (tb_inner t) pool bs A' → tb_squashed_offset t = sq → A !! k = None → collision_free (large (map_objects A')) →
  finder_ok t A → pm_room t →
  (∃ h pm, insert_into_pointer_map (H:=H) (ptr_of k) (t, pool, bs) = (Ok h, (with_pointer_map t pm, pool, bs)) ∧ pm_with t pm A A' val h) ∨
  (∃ k0 ps bs', insert_into_pointer_map (H:=H) (ptr_of k) (t, pool, bs) = (Err (ptr_of k0), (with_inner_pages t ps, pool, bs')) ∧
     A !! k0 = Some val ∧ phys (tb_inner (with_inner_pages t ps)) pool bs' A).
Proof using Hrt Hnr Hsize.
  intros A' Hph Hs Hk Hc Hf Hroom. assert (Hk' : A' !! k = Some val) by apply lookup_insert_eq.
  unfold insert_into_pointer_map, pm_with, finder_ok, pm_room in *. rewrite (bind_of_table _ _ _ _ _ (tb_pointer_map t) eq_refl).
  destruct (tb_pointer_map t) as [pm|] eqn:Hpm.
  2: { left. exists None, None. split; [|done]. by rewrite <-Hpm, with_own_pointer_map. }
  destruct Hf as [Hrel _]. destruct (own_needle (E:=Z) t pool bs A A' k val Hph Hs (insert_subseteq _ _ _ Hk) Hk' Hc) as [Hn Hok].
  destruct (find_via_pointer_map_ok (E:=Z) t t bs (ptr_of k) A val pm None Hn Hok Hpm Hrel ltac:(done)) as (o & Hfind & Ho). clear Hn Hok.
  rewrite (bind_of_table _ _ _ _ _ _ Hfind). destruct o as [p|].
  - destruct Ho as (k0 & HA & ->). right. destruct (phys_delete (E:=Z) t pool bs A' k val Hph Hk') as (ps & bs' & Hd & Hph').
    exists k0, ps, bs'. unfold A' in Hph'. rewrite delete_insert_id in Hph' by done. split; [|done].
    rewrite (bind_of_table _ _ _ _ _ t eq_refl), (sbind_Ok _ _ _ _ _ Hd). done.
  - left. destruct Hrel as [C Hok].
    destruct (pm_insert_ok (E:=Z) pm _ C (value_hash (H:=H) val) (ptr_of k) Hok) as (pm' & C' & Hi & Hok' & Hlen); [apply (ph_keys _ _ _ _ Hph k val Hk')|by apply Hroom|].
    exists (Some (value_hash (H:=H) val)), (Some pm'). split.
    + unfold sbind, sres. by rewrite Hi.
    + split_and!; [|done|done|exact Hlen]. exists C'. unfold A'. by rewrite hashes_insert.
Qed.

(** The error that tells of a violation of an index: which one, and the key. *)
Definition violation_of (sch : TableSchema) A (val : ProductValue) i (ix : TableIndex) (u : UniqueConstraintViolation) : Prop :=
  ix_is_unique ix = true ∧ ucv_table_name u = sch_table_name sch ∧ ucv_value u = row_key (ix_indexed_columns ix) val ∧
  (∃ k0 val0, A !! k0 = Some val0 ∧ at_key (row_key (ix_indexed_columns ix) val) (row_key (ix_indexed_columns ix) val0) = true ∧
    (sq = TX_STATE → val0 ≠ val)) ∧
  (∃ schema, schema ∈ sch_indexes sch ∧ is_index_id schema = i ∧ ucv_constraint_name u = is_index_name schema) ∧
  Forall2 (λ c name, sch_columns sch !! Z.to_nat c = Some name) (col_list_iter (ix_indexed_columns ix)) (ucv_cols u).

(** The error of a row that is already there, or has a key that is. *)
Definition error_of t A (val : ProductValue) (e : InsertError) : Prop :=
  match e with
  | Duplicate p => found A val (Some p)
  | IndexError u => ∃ i ix, (i, ix) ∈ tb_indexes t ∧ violation_of (tb_schema t) A val i ix u
  | Bflatn _ => False
  end.

Lemma column_names_ok {E} sch cols :
  Forall (λ c, is_Some (sch_columns sch !! Z.to_nat c)) cols →
  ∃ names, get_column_names (E:=E) sch cols = Ok names ∧ Forall2 (λ c name, sch_columns sch !! Z.to_nat c = Some name) cols names.
Proof using.
  induction 1 as [|c cols [name Hc] _ (names & IH & Hn)]; [exists []; by split|]. cbn. rewrite Hc, IH. cbn [rbind].
  exists (name :: names). by split; [|constructor].
Qed.

Lemma build_error_ok {E} t i ix v :
  described (tb_schema t) (i, ix) →
  ∃ schema u, build_error_unique (E:=E) t ix i v = Ok u ∧ schema ∈ sch_indexes (tb_schema t) ∧ is_index_id schema = i ∧
    ucv_constraint_name u = is_index_name schema ∧ ucv_table_name u = sch_table_name (tb_schema t) ∧ ucv_value u = v ∧
    Forall2 (λ c name, sch_columns (tb_schema t) !! Z.to_nat c = Some name) (col_list_iter (ix_indexed_columns ix)) (ucv_cols u).
Proof using.
  intros [Hex Hcols]. apply Exists_exists in Hex as (x & Hx & Hid). cbn [fst snd] in *.
  destruct (list_find_elem_of (λ x, is_index_id x = i) _ x Hx Hid) as [[j schema] Hf]. clear x Hx Hid. destruct (column_names_ok (E:=E) _ _ Hcols) as (names & Hn & Hn').
  unfold build_error_unique, build_with_index_schema. rewrite Hf, Hn. cbn [rbind].
  apply list_find_Some in Hf as (Hj & Hid & _). exists schema. eexists. split; [done|]. cbn.
  split_and!; try done. by eapply list_elem_of_lookup_2.
Qed.

Lemma violation_error_ok {E} check t pool bs A A' k val l1 i ix l2 old :
  (check = false → ∀ k0, A !! k0 ≠ Some val) →
  phys (tb_inner t) pool bs A' → tb_squashed_offset t = sq → A ⊆ A' → A' !! k = Some val → collision_free (large (map_objects A')) →
  tb_indexes t = l1 ++ (i, ix) :: l2 → StronglySorted Z.lt (map fst (tb_indexes t)) → index_for es ix →
  described (tb_schema t) (i, ix) → violates A val ix old →
  ∃ e, violation_error (E:=E) check t bs (ptr_of k) i old = Ok e ∧
    match e with Duplicate p => found A val (Some p) | IndexError u => violation_of (tb_schema t) A val i ix u | Bflatn _ => False end.
Proof using Hrt Hnr Hsize LawI.
  intros Hcheck Hph Hs Hsub Hk' Hc Hl Hsort Hfor Hdesc [Hu Hsel].
  assert (Hold : old ∈ [old]) by by apply list_elem_of_singleton. rewrite <-Hsel in Hold. apply select_key in Hold as (k0 & val0 & HA & Hat & ->).
  assert (HA' : A' !! k0 = Some val0) by by eapply lookup_weaken.
  destruct (phys_eq (E:=E) t pool bs A' k0 k val0 val Hph HA' Hk' Hc) as (b & Heq & Hb).
  destruct (build_error_ok (E:=E) t i ix (row_key (ix_indexed_columns ix) val) Hdesc) as (schema & u & Hu1 & Hu2 & Hu3 & Hu4 & Hu5 & Hu6 & Hu7).
  assert (Hget : bt_get (tb_indexes t) i = Some ix) by (rewrite Hl in *; by apply filter_below).
  destruct (project_key (E:=E) t pool bs A' k val ix Hph Hk' Hfor) as (Hproj & _).
  unfold violation_error. rewrite (proj1 (proj2 (ph_keys _ _ _ _ Hph k0 val0 HA'))).
  assert (Hviol : (sq = TX_STATE → val0 ≠ val) → violation_of (tb_schema t) A val i ix u).
  { intros Hne. split_and!; try done; [by exists k0, val0|by exists schema]. }
  destruct (check && _) eqn:Htx.
  - rewrite Heq. cbn [rbind]. destruct b.
    + exists (Duplicate (ptr_of k0)). split; [done|]. exists k0. by rewrite <-(proj1 Hb eq_refl).
    + rewrite Hget, (phys_row_ref t pool bs A' k val Hs Hph Hk'). cbn [rbind]. rewrite Hproj, Hu1. cbn [rbind].
      exists (IndexError u). split; [done|]. apply Hviol. intros _ ->. by discriminate (proj2 Hb eq_refl).
  - cbn [rbind]. rewrite Hget, (phys_row_ref t pool bs A' k val Hs Hph Hk'). cbn [rbind]. rewrite Hproj, Hu1. cbn [rbind].
    exists (IndexError u). split; [done|]. apply Hviol. intros Hsqt ->. rewrite Hsqt, Z.eqb_refl, andb_true_r in Htx. by eapply Hcheck.
Qed.

Lemma insert_into_indices_ok check t pool bs A A' k val :
  (check = false → ∀ k0, A !! k0 ≠ Some val) →
  phys (tb_inner t) pool bs A' → tb_squashed_offset t = sq → A ⊆ A' → A !! k = None → A' !! k = Some val →
  collision_free (large (map_objects A')) →
  indexes_ok A (tb_indexes t) → StronglySorted Z.lt (map fst (tb_indexes t)) → Forall (described (tb_schema t)) (tb_indexes t) →
  (Exists (λ e, ix_is_unique e.2 = true) (tb_indexes t) → tb_pointer_map t = None) →
  Z.of_nat (size A) < u64_MAX → Forall (λ e, index_room A val e.2) (tb_indexes t) →
  (∃ l, insert_into_indices (H:=H) check (ptr_of k) (t, pool, bs) = (Ok tt, (with_indexes t l, pool, bs)) ∧
     indexes_ok (<[k := val]> A) l ∧ same_indexes (tb_indexes t) l ∧ unviolated A val (tb_indexes t)) ∨
  (∃ e t' bs', insert_into_indices (H:=H) check (ptr_of k) (t, pool, bs) = (Err e, (t', pool, bs')) ∧ error_of t A val e ∧
     tb_pointer_map t = None ∧
     phys (tb_inner t') pool bs' (delete k A') ∧ indexes_ok A (tb_indexes t') ∧ same_indexes (tb_indexes t) (tb_indexes t') ∧
     tb_pointer_map t' = None ∧ rest t' = rest t).
Proof using Hrt Hnr Hsize LawI FLawI.
  intros Hcheck Hph Hs Hsub Hk Hk' Hc Hix Hsort Hdesc Hpm Hn Hroom. unfold insert_into_indices.
  rewrite (phys_row_ref t pool bs A' k val Hs Hph Hk').
  destruct (insert_each_ok (row_at_key t bs k) A k val (tb_indexes t) Hix Hk) as
    [(l & -> & Hl & Hsame & Hun)|(l1 & l1' & i & ix & l2 & old & Hl & -> & Hl1 & Hsame & Hun & Hv)];
    [by eapply phys_refers|by apply (ph_typed _ _ _ _ Hph _ _ Hk')|done|by eapply (ph_keys _ _ _ _ Hph)|done|done|left; by exists l|right].
  set (t1 := with_indexes t (l1' ++ (i, ix) :: l2)). rewrite Hl in Hix, Hdesc. apply Forall_app in Hix as [Hix1 [Hix Hix2]%Forall_cons].
  apply Forall_app in Hdesc as [_ [Hd _]%Forall_cons].
  assert (Hsort1 : StronglySorted Z.lt (map fst (tb_indexes t1))).
  { cbn. rewrite map_app, (same_indexes_ids _ _ Hsame), <-map_app, <-Hl. done. }
  destruct (violation_error_ok (E:=InsertError) check t1 pool bs A A' k val l1' i ix l2 old) as (e & He & Herr); try done; [apply Hix|].
  rewrite (bind_of_table _ _ _ _ _ _ He).
  destruct (delete_until_ok (E:=InsertError) t1 pool bs (<[k := val]> A) A' k val l1' i ix l2) as (l & Hdel & Hl' & Hsame'); try done.
  { by apply insert_subseteq_l. }
  { apply lookup_insert_eq. }
  rewrite (sbind_Ok _ _ _ _ _ Hdel), delete_insert_id in * by done.
  assert (Hnone : tb_pointer_map t = None).
  { apply Hpm. rewrite Hl. apply Exists_app. right. apply Exists_cons. left. apply Hv. }
  destruct (delete_internal_ok (E:=InsertError) (with_indexes t1 (l ++ (i, ix) :: l2)) pool bs A A' k val Hph Hs Hsub Hk') as (t' & bs' & Hd' & Hph' & Hpm' & Hi & Hr).
  { cbn. intros pm. by rewrite Hnone. }
  rewrite (sbind_Ok _ _ _ _ _ Hd'). exists e, t', bs'. split; [done|]. unfold pm_without in Hpm'. cbn in Hpm', Hi. rewrite Hnone in Hpm'. rewrite Hi, Hl. split_and!; try done.
  - destruct e; try done. exists i, ix. split; [|done]. rewrite Hl. apply elem_of_app. right. by left.
  - apply Forall_app. split; [done|]. by apply Forall_cons.
  - apply Forall2_app; [by eapply same_indexes_trans|apply same_indexes_refl].
  - by destruct (tb_pointer_map t').
Qed.

(** Counters and indexes have room for the row. *)
Definition room t A (val : ProductValue) : Prop :=
  pm_room t ∧ Z.of_nat (size A) < u64_MAX ∧ Forall (λ e, index_room A val e.2) (tb_indexes t).

Lemma collision_free_weaken m m' : m ⊆ m' → collision_free m' → collision_free m.
Proof using. intros Hsub Hc b b' Hb Hb'. apply Hc; by eapply gmultiset_elem_of_subseteq. Qed.

Lemma collision_free_insert A k val :
  A !! k = None → collision_free (m0 ⊎ large (map_objects A) ⊎ large (product_objects val)) →
  collision_free (large (map_objects (<[k := val]> A))).
Proof using.
  intros Hk. apply collision_free_weaken. rewrite (large_perm' _ _ (map_objects_insert A k val Hk)), large_app'. clear. multiset_solver.
Qed.

Lemma unviolated_absent A val l :
  unviolated A val l → Exists (λ e, ix_is_unique e.2 = true) l → ∀ k, A !! k ≠ Some val.
Proof using FLawI.
  intros Hun (e & Hin & Hu)%Exists_exists k HA. unfold unviolated in Hun. rewrite Forall_forall in Hun. specialize (Hun e Hin Hu).
  assert (Hsel : ptr_of k ∈ select (at_key (row_key (ix_indexed_columns e.2) val)) (row_entries (ix_indexed_columns e.2) A)).
  { apply select_key. exists k, val. unfold at_key. by rewrite cmp_refl. }
  rewrite Hun in Hsel. by apply elem_of_nil in Hsel.
Qed.

Lemma statistics_added {E} t pool bs A k val :
  tb_row_count t = Z.of_nat (size A) → tb_blob_store_bytes t = large_bytes (map_objects A) → A !! k = None →
  Z.of_nat (size A) < u64_MAX →
  ∃ n b, update_statistics_added_row (E:=E) (large_bytes (product_objects val)) (t, pool, bs) = (Ok tt, (with_statistics t n b, pool, bs)) ∧
    n = Z.of_nat (size (<[k := val]> A)) ∧ b = large_bytes (map_objects (<[k := val]> A)).
Proof using.
  clear -t. intros Hn Hb Hk Hlt.
  assert (Hb' : large_bytes (map_objects (<[k := val]> A)) = large_bytes (product_objects val) + large_bytes (map_objects A))
    by by rewrite (map_objects_insert A k val Hk), large_bytes_app.
  unfold update_statistics_added_row, sbind, of_table, slift, sres, on_table, smodify.
  rewrite add_u_Ok by (unfold u64_MAX in *; lia). eexists _, _. split; [done|]. rewrite Hb', map_size_insert_None by done. lia.
Qed.

Lemma logical_insert t t' n b A k val :
  logical t A → A !! k = None → (∀ k', A !! k' ≠ Some val) → indexes_ok (<[k := val]> A) (tb_indexes t') → finder_ok t' (<[k := val]> A) →
  same_indexes (tb_indexes t) (tb_indexes t') → rest t' = rest t →
  n = Z.of_nat (size (<[k := val]> A)) → b = large_bytes (map_objects (<[k := val]> A)) →
  logical (with_statistics t' n b) (<[k := val]> A).
Proof using.
  intros [I2 I3 I4 I5 I6 I7 I8 I9 I10] Hk Hnew Hix Hf Hs [= R1 R2 R3 R4 R5 R6] Hn Hb. split; cbn; try done.
  - by rewrite R2.
  - by rewrite (same_indexes_ids _ _ Hs).
  - intros k1 k2 x [[-> ->]|[_ H1]]%lookup_insert_Some [[-> ?]|[_ H2]]%lookup_insert_Some; subst; try done;
      [by apply Hnew in H2|by apply Hnew in H1|by eapply I6].
  - rewrite R1. by eapply described_same.
  - by rewrite R1.
Qed.

Lemma logical_same t t' A :
  logical t A → indexes_ok A (tb_indexes t') → same_indexes (tb_indexes t) (tb_indexes t') →
  tb_pointer_map t' = tb_pointer_map t → rest t' = rest t → logical t' A.
Proof using.
  intros [I2 I3 I4 I5 I6 I7 I8 I9 I10] Hix Hs Hpm [= R1 R2 R3 R4 R5 R6]. split; try done; try congruence.
  - by rewrite (same_indexes_ids _ _ Hs).
  - unfold finder_ok in *. apply same_indexes_unique in Hs as [H1 H2]. rewrite Hpm. destruct (tb_pointer_map t); [|by apply H1].
    destruct I5. split; [done|by apply H2].
  - rewrite R1. by eapply described_same.
Qed.

Lemma finder_pm_none t A : finder_ok t A → Exists (λ e, ix_is_unique e.2 = true) (tb_indexes t) → tb_pointer_map t = None.
Proof using.
  unfold finder_ok. destruct (tb_pointer_map t); [|done]. intros [_ Hall] (e & Hin & Hu)%Exists_exists.
  rewrite Forall_forall in Hall. by rewrite (Hall e Hin) in Hu.
Qed.

(** The hash that insertion returns. *)
Definition hash_of t (val : ProductValue) : option Z := option_map (λ _, value_hash (H:=H) val) (tb_pointer_map t).

(** A row that is in the pages and no more is confirmed, or taken out again. *)
Lemma confirm_insertion_ok check t pool bs A k val :
  let A' := <[k := val]> A in
  (check = false → ∀ k0, A !! k0 ≠ Some val) →
  phys (tb_inner t) pool bs A' → logical t A → A !! k = None → collision_free (large (map_objects A')) → room t A val →
  (∃ t', confirm_insertion (H:=H) check (ptr_of k) (large_bytes (product_objects val)) (t, pool, bs) =
      (Ok (hash_of t val, ptr_of k), (t', pool, bs)) ∧
     tbl_inv t' pool bs A' ∧ grown 1 t t' ∧ tb_inner t' = tb_inner t ∧ (∀ k', A !! k' ≠ Some val) ∧ unviolated A val (tb_indexes t)) ∨
  (∃ e t' bs', confirm_insertion (H:=H) check (ptr_of k) (large_bytes (product_objects val)) (t, pool, bs) = (Err e, (t', pool, bs')) ∧
     error_of t A val e ∧ tbl_inv t' pool bs' A ∧ grown 1 t t').
Proof using Hrt Hnr Hsize LawI FLawI.
  intros A' Hcheck Hph Hlog Hk Hc (Hr1 & Hr2 & Hr3). pose proof Hlog as [I2 I3 I4 I5 I6 I7 I8 I9 I10]. unfold confirm_insertion.
  destruct (insert_into_pointer_map_ok t pool bs A k val Hph I2 Hk Hc I5 Hr1) as [(h & pm & Hi & Hpm)|(k0 & ps & bs' & Hi & HA & Hph')].
  2: { right. exists (Duplicate (ptr_of k0)), (with_inner_pages t ps), bs'. split_and!; [|by exists k0| |].
       - unfold sbind at 1, smap_err. by rewrite Hi.
       - split; [done|]. by apply logical_pages.
       - by apply grown_pages. }
  rewrite (sbind_Ok _ _ _ (with_pointer_map t pm, pool, bs) h) by (unfold smap_err; by rewrite Hi).
  destruct (insert_into_indices_ok check (with_pointer_map t pm) pool bs A A' k val Hcheck Hph I2 (insert_subseteq _ _ _ Hk) Hk (lookup_insert_eq _ _ _) Hc
    I3 I4 I9) as [(l & Hix & Hl & Hsame & Hun)|(e & t' & bs' & Hix & He & Hnone & Hph' & Hl & Hsame & Hpm' & Hrest)]; [|done|done|left|right].
  { cbn. intros Hex. pose proof (finder_pm_none _ _ I5 Hex) as Hn. unfold pm_with in Hpm. rewrite Hn in Hpm. by destruct pm. }
  - destruct (statistics_added (E:=InsertError) (with_indexes (with_pointer_map t pm) l) pool bs A k val I7 I8 Hk Hr2) as (n & b & Hst & Hn & Hb).
    eexists. rewrite (sbind_Ok _ _ _ _ _ Hix), (sbind_Ok _ _ _ _ _ Hst).
    assert (Hh : h = hash_of t val ∧ (∀ k', A !! k' ≠ Some val) ∧ finder_ok (with_indexes (with_pointer_map t pm) l) A').
    { unfold pm_with, hash_of, finder_ok in *. cbn in *. apply same_indexes_unique in Hsame as [H1 H2].
      destruct (tb_pointer_map t), pm; try done; [destruct Hpm as (? & -> & ? & _), I5; split_and!; try done; by apply H2|].
      split_and!; [done|by eapply unviolated_absent|by apply H1]. }
    destruct Hh as (-> & Hnew & Hfind). split_and!; [done| | |done|done|done].
    + split; [done|]. by apply (logical_insert t (with_indexes (with_pointer_map t pm) l)).
    + split; try done. unfold pm_with, colliders in *. cbn. destruct (tb_pointer_map t), pm; try done. apply Hpm.
  - cbn in Hnone, Hsame, Hrest. subst pm.
    assert (Hnone : tb_pointer_map t = None) by (unfold pm_with in Hpm; by destruct (tb_pointer_map t)).
    exists e, t', bs'. unfold sbind. rewrite Hix. split_and!; [done|done| |].
    + unfold A' in Hph'. rewrite delete_insert_id in Hph' by done. split; [done|]. apply (logical_same t); try done. congruence.
    + apply grown_rest; try done. unfold colliders. by rewrite Hpm', Hnone.
Qed.

Lemma table_insert_cases t pool bs A val :
  tbl_inv t pool bs A → typed [] (TProduct es) (VProduct val) → fits rt val →
  collision_free (m0 ⊎ large (map_objects A) ⊎ large (product_objects val)) → room t A val →
  (∃ k t' pool' bs', table_insert (H:=H) val (t, pool, bs) = (Ok (hash_of t val, row_at_key t' bs' k), (t', pool', bs')) ∧
     tbl_inv t' pool' bs' (<[k := val]> A) ∧ A !! k = None ∧ (∀ k', A !! k' ≠ Some val) ∧ unviolated A val (tb_indexes t) ∧ grown 1 t t') ∨
  (∃ e t' pool' bs', table_insert (H:=H) val (t, pool, bs) = (Err e, (t', pool', bs')) ∧ error_of t A val e ∧ tbl_inv t' pool' bs' A) ∨
  table_insert (H:=H) val (t, pool, bs) = (Err (Bflatn (BPagesError TooManyPages)), (t, pool, bs)) ∧ num_pages t = PageIndex_MAX + 1.
Proof using Hrt Hnr Hsize Hcode Hsq LawI FLawI.
  intros [Hph Hlog] Ht Hfits Hc Hroom. unfold table_insert.
  destruct (insert_physically_ok t pool bs A val Hph (tv_sq _ _ Hlog) Ht Hfits Hc) as [(k & ps & pool' & bs' & Hi & Hk & Hph')|[Hi Hn]].
  2: { right; right. split; [|done]. unfold sbind at 1, smap_err. by rewrite Hi. }
  rewrite (sbind_Ok _ _ _ (with_inner_pages t ps, pool', bs') (row_at_key (with_inner_pages t ps) bs' k, large_bytes (product_objects val)))
    by (unfold smap_err; by rewrite Hi). cbn [row_at_key rr_pointer].
  destruct (confirm_insertion_ok true (with_inner_pages t ps) pool' bs' A k val ltac:(done) Hph' (logical_pages _ _ _ Hlog) Hk (collision_free_insert _ _ _ Hk Hc) Hroom)
    as [(t' & Hconf & Hinv & Hgrow & Hin & Hnew & Hun)|(e & t' & bs2 & Hconf & He & Hinv & _)]; [left|right; left].
  - exists k, t', pool', bs'. split_and!; try done; [|by destruct Hgrow; split]. rewrite (sbind_Ok _ _ _ _ _ Hconf).
    by rewrite (bind_of_table _ _ _ _ _ _ (phys_row_ref t' pool' bs' _ k val (tv_sq _ _ (proj2 Hinv)) (proj1 Hinv) (lookup_insert_eq _ _ _))).
  - exists e, t', pool', bs2. split_and!; try done. unfold sbind. by rewrite Hconf.
Qed.

(** ** Deleting by value *)

Lemma delete_equal_cases t pool bs A val :
  tbl_inv t pool bs A → typed [] (TProduct es) (VProduct val) → fits rt val →
  collision_free (m0 ⊎ large (map_objects A) ⊎ large (product_objects val)) →
  (∃ o t' pool' bs', delete_equal_row (H:=H) val (t, pool, bs) = (Ok o, (t', pool', bs')) ∧ found A val o ∧
     tbl_inv t' pool' bs' (match o with Some p => delete (ptr_key p) A | None => A end)) ∨
  delete_equal_row (H:=H) val (t, pool, bs) = (Err (BPagesError TooManyPages), (t, pool, bs)) ∧ num_pages t = PageIndex_MAX + 1.
Proof using Hrt Hnr Hsize Hcode Hsq LawI FLawI.
  intros [Hph Hlog] Ht Hfits Hc. pose proof Hlog as [I2 I3 I4 I5 I6 I7 I8 I9 I10]. unfold delete_equal_row.
  destruct (insert_physically_ok t pool bs A val Hph I2 Ht Hfits Hc) as [(k & ps & pool' & bs' & Hi & Hk & Hph')|[Hi Hn]].
  2: { right. split; [|done]. unfold sbind at 1. by rewrite Hi. }
  left. rewrite (sbind_Ok _ _ _ _ _ Hi). cbn [row_at_key rr_pointer]. set (A' := <[k := val]> A) in *. set (t1 := with_inner_pages t ps) in *.
  assert (Hsub : A ⊆ A') by by apply insert_subseteq.
  destruct (own_needle (E:=BflatnError) t1 pool' bs' A A' k val Hph' I2 Hsub (lookup_insert_eq _ _ _) (collision_free_insert _ _ _ Hk Hc)) as [Hn Hok].
  destruct (find_same_row_ok (E:=BflatnError) t1 t1 bs' (ptr_of k) A val None Hn Hok I3 I5 ltac:(done)) as (h & o & Hfind & Ho & _). clear Hn Hok.
  rewrite (bind_of_table _ _ _ _ _ _ Hfind). exists o. destruct o as [p|].
  - destruct Ho as (k0 & HA & ->). assert (HA' : A' !! k0 = Some val) by by eapply lookup_weaken.
    destruct (delete_unchecked_ok (E:=BflatnError) t1 pool' bs' A A' k0 val Hph' I2 Hsub HA I3 I5) as (t2 & bs2 & Hd & Hph2 & Hix & Hf & Hs & Hr & _).
    destruct (statistics_deleted (E:=BflatnError) t2 pool' bs2 A k0 val) as (n & b & Hst & Hn & Hb); [by injection Hr as _ _ -> _ _|by injection Hr as _ _ _ -> _|done|].
    assert (Hne : k ≠ k0) by congruence.
    destruct (delete_skip_ok (E:=BflatnError) (with_statistics t2 n b) pool' bs2 (delete k0 A') k val Hph2) as (ps' & bs3 & Hd' & Hph3);
      [injection Hr as _ Hr _ _ _; cbn; congruence|rewrite lookup_delete_ne by done; apply lookup_insert_eq|].
    exists (with_inner_pages (with_statistics t2 n b) ps'), pool', bs3. split_and!; [|by exists k0|].
    + unfold sbind at 1. rewrite (sbind_Ok _ _ _ _ _ Hd), Hst. by rewrite (sbind_Ok _ _ _ _ _ Hd').
    + rewrite (proj1 (ph_keys _ _ _ _ Hph' k0 val HA')). unfold A' in Hph3.
      rewrite delete_delete, delete_insert_id in Hph3 by done. split; [done|]. by eapply logical_pages, (logical_delete t).
  - destruct (delete_skip_ok (E:=BflatnError) t1 pool' bs' A' k val Hph' I2 (lookup_insert_eq _ _ _)) as (ps' & bs2 & Hd & Hph2).
    exists (with_inner_pages t1 ps'), pool', bs2. split_and!; [|done|].
    + rewrite (sbind_Ok _ _ _ (t1, pool', bs') tt) by done. by rewrite (sbind_Ok _ _ _ _ _ Hd).
    + unfold A' in Hph2. rewrite delete_insert_id in Hph2 by done. split; [done|]. by apply logical_pages, logical_pages.
Qed.

(** ** Updating *)

Lemma error_of_same t t' A val e :
  same_indexes (tb_indexes t) (tb_indexes t') → tb_schema t' = tb_schema t → error_of t' A val e → error_of t A val e.
Proof using.
  intros Hs Hsch. destruct e as [p| |u]; try done. intros (i & ix & [n Hin]%list_elem_of_lookup_1 & Hv).
  destruct (Forall2_lookup_r _ _ _ _ _ Hs Hin) as ([i' ix'] & Hin' & Hsame). pose proof (same_index_columns _ _ Hsame) as [Hcols Hu].
  destruct Hsame as [Hi _]. cbn [fst snd] in *. subst i'. exists i, ix'. split; [by eapply list_elem_of_lookup_2|].
  rewrite Hsch in Hv. unfold violation_of in *. by rewrite Hcols, Hu in Hv.
Qed.

(** A row that is taken out of a unique index leaves its key free. *)
Lemma unique_alone A k0 val0 ix :
  index_ok A ix → ix_is_unique ix = true → A !! k0 = Some val0 → typed [] (TProduct es) (VProduct val0) →
  select (at_key (row_key (ix_indexed_columns ix) val0)) (row_entries (ix_indexed_columns ix) (delete k0 A)) = [].
Proof using FLawI.
  intros [Hfor Hrel] Hu HA Ht. destruct (row_key_typed es ix val0 Hfor Ht) as [_ Hty].
  destruct (ix_point_ok (E:=unit) es ix _ _ Hfor Hrel Hty) as (l & _ & Hl & Hlen). specialize (Hlen Hu).
  apply Permutation_length in Hl. rewrite Hl in Hlen. clear Hl. revert Hlen.
  assert (Hp : select (at_key (row_key (ix_indexed_columns ix) val0)) (row_entries (ix_indexed_columns ix) A) ≡ₚ
    ptr_of k0 :: select (at_key (row_key (ix_indexed_columns ix) val0)) (row_entries (ix_indexed_columns ix) (delete k0 A))).
  { unfold select. rewrite (entries_delete _ _ _ _ HA), filter_cons. cbn [fst]. by rewrite decide_True by (unfold at_key; by rewrite cmp_refl). }
  rewrite (Permutation_length Hp). cbn. destruct (select _ (row_entries _ (delete k0 A))); [done|cbn; lia].
Qed.

Lemma unviolated_again A k0 val0 l l' :
  indexes_ok A l → same_indexes l l' → A !! k0 = Some val0 → typed [] (TProduct es) (VProduct val0) → unviolated (delete k0 A) val0 l'.
Proof using FLawI.
  intros Hix Hs HA Ht. induction Hs as [|e e' l l' He _ IH]; [constructor|]. apply Forall_cons in Hix as [Hix1 Hix].
  constructor; [|by apply IH]. apply same_index_columns in He as [-> ->]. intros Hu. by eapply unique_alone.
Qed.

Lemma unviolated_no_error t A val e :
  unviolated A val (tb_indexes t) → Exists (λ e, ix_is_unique e.2 = true) (tb_indexes t) → ¬ error_of t A val e.
Proof using FLawI.
  intros Hun Hex. destruct e as [p| |u]; [|by intros []|]; cbn.
  - intros (k & HA & _). by eapply unviolated_absent.
  - intros (i & ix & Hin & Hu & _ & _ & (k0 & val0 & HA & Hat & _) & _). unfold unviolated in Hun. rewrite Forall_forall in Hun.
    specialize (Hun _ Hin Hu). cbn in Hun.
    assert (Hsel : ptr_of k0 ∈ select (at_key (row_key (ix_indexed_columns ix) val)) (row_entries (ix_indexed_columns ix) A))
      by (apply select_key; by exists k0, val0).
    rewrite Hun in Hsel. by apply elem_of_nil in Hsel.
Qed.

Lemma index_room_delete A k0 val0 ix :
  A !! k0 = Some val0 → total_bytes (ix_idx ix) (row_entries (ix_indexed_columns ix) A) =
    entry_bytes (ix_idx ix) (row_key (ix_indexed_columns ix) val0) + total_bytes (ix_idx ix) (row_entries (ix_indexed_columns ix) (delete k0 A)).
Proof using.
  intros HA. by rewrite (entries_delete (ix_indexed_columns ix) A k0 val0 HA).
Qed.

Lemma index_room_same A val e e' : same_index e e' → index_room A val e.2 → index_room A val e'.2.
Proof using.
  intros [_ [= Hc _ Hcols]]. destruct (clone_same _ _ Hc) as (_ & Hd & _). unfold index_room, total_bytes, entry_bytes.
  by rewrite Hcols, Hd.
Qed.

(** Room for another row is room for one row in place of another, and back. *)
Lemma room_update A k0 val0 val l l' :
  A !! k0 = Some val0 → Forall (λ e, index_room A val e.2) l → same_indexes l l' →
  Forall (λ e, index_room (delete k0 A) val e.2) l' ∧ Forall (λ e, index_room (delete k0 A) val0 e.2) l'.
Proof using.
  intros HA Hl Hs. induction Hs as [|e e' l l' He _ IH]; [by split|]. apply Forall_cons in Hl as [Hroom Hl]. destruct (IH Hl) as [IH1 IH2].
  assert (index_room (delete k0 A) val e.2 ∧ index_room (delete k0 A) val0 e.2) as [H1 H2].
  { revert Hroom. unfold index_room. rewrite (index_room_delete A k0 val0 e.2 HA).
    pose proof (entry_bytes_nonneg (ix_idx e.2) (row_key (ix_indexed_columns e.2) val)).
    pose proof (entry_bytes_nonneg (ix_idx e.2) (row_key (ix_indexed_columns e.2) val0)). lia. }
  split; constructor; try done; by eapply index_room_same.
Qed.

(** The old row goes back into the indexes. *)
Lemma reinsert_ok t t' pool bs A k0 val0 :
  logical t A → phys (tb_inner t') pool bs A → A !! k0 = Some val0 → collision_free (large (map_objects A)) →
  Exists (λ e, ix_is_unique e.2 = true) (tb_indexes t) → Z.of_nat (size A) < u64_MAX →
  Forall (λ e, index_room (delete k0 A) val0 e.2) (tb_indexes t') →
  indexes_ok (delete k0 A) (tb_indexes t') → same_indexes (tb_indexes t) (tb_indexes t') → tb_pointer_map t' = None → rest t' = rest t →
  ∃ l, insert_into_indices (H:=H) true (ptr_of k0) (t', pool, bs) = (Ok tt, (with_indexes t' l, pool, bs)) ∧
    tbl_inv (with_indexes t' l) pool bs A ∧ same_indexes (tb_indexes t') l.
Proof using Hrt Hnr Hsize LawI FLawI.
  intros Hlog Hph HA Hc Hex Hn Hroom Hix Hs Hpm Hrest. pose proof Hlog as [I2 I3 I4 I5 I6 I7 I8 I9 I10].
  pose proof (ph_typed _ _ _ _ Hph _ _ HA) as Ht. pose proof (unviolated_again A k0 val0 _ _ I3 Hs HA Ht) as Hun.
  destruct (insert_into_indices_ok true t' pool bs (delete k0 A) A k0 val0 ltac:(done) Hph) as [(l & Hi & Hl & Hsame & _)|(e & t2 & bs2 & _ & He & _)];
    try done.
  - injection Hrest as _ -> _ _ _. done.
  - apply delete_subseteq.
  - apply lookup_delete_eq.
  - by rewrite (same_indexes_ids _ _ Hs).
  - injection Hrest as -> _ _ _ _. by eapply described_same.
  - rewrite map_size_delete_Some by by exists val0. lia.
  - rewrite insert_delete_id in Hl by done. exists l. split; [done|]. split; [|done]. split; [done|].
    apply (logical_same t); try done; [by eapply same_indexes_trans|]. cbn. rewrite Hpm. symmetry. by eapply finder_pm_none.
  - exfalso. eapply unviolated_no_error; [exact Hun| |exact He]. by apply (same_indexes_unique _ _ Hs).
Qed.

Lemma confirm_update_ok t pool bs A k k0 val val0 :
  let A' := <[k := val]> A in let A2 := delete k0 A in
  phys (tb_inner t) pool bs A' → logical t A → A !! k = None → A !! k0 = Some val0 → collision_free (large (map_objects A')) →
  Exists (λ e, ix_is_unique e.2 = true) (tb_indexes t) → room t A val →
  (∃ t' bs', confirm_update (H:=H) (ptr_of k) (ptr_of k0) (large_bytes (product_objects val)) (t, pool, bs) = (Ok (ptr_of k), (t', pool, bs')) ∧
     tbl_inv t' pool bs' (<[k := val]> A2) ∧ grown 0 t t') ∨
  (∃ e t' bs', confirm_update (H:=H) (ptr_of k) (ptr_of k0) (large_bytes (product_objects val)) (t, pool, bs) = (Err e, (t', pool, bs')) ∧
     error_of t A2 val e ∧ tbl_inv t' pool bs' A ∧ grown 0 t t').
Proof using Hrt Hnr Hsize LawI FLawI.
  intros A' A2 Hph Hlog Hk HA Hc Hex (_ & Hn & Hroom). pose proof Hlog as [I2 I3 I4 I5 I6 I7 I8 I9 I10]. pose proof (finder_pm_none _ _ I5 Hex) as Hnone.
  assert (Hsub : A ⊆ A') by by apply insert_subseteq. assert (Hk2 : A2 !! k = None) by by apply lookup_delete_None; right.
  assert (Hn2 : Z.of_nat (size A2) < u64_MAX) by (unfold A2; rewrite map_size_delete_Some by (by exists val0); lia).
  unfold confirm_update. destruct (delete_from_all_ok (E:=InsertError) t pool bs A A' k0 val0 Hph I2 Hsub HA I3) as (l & Hd & Hl & Hsame).
  rewrite (sbind_Ok _ _ _ _ _ Hd). set (t1 := with_indexes t l). pose proof (room_update A k0 val0 val _ _ HA Hroom Hsame) as [Hrl _].
  destruct (insert_into_indices_ok true t1 pool bs A2 A' k val ltac:(done) Hph I2) as
    [(l2 & Hi & Hl2 & Hsame2 & Hun)|(e & t2 & bs2 & Hi & He & _ & Hph2 & Hl2 & Hsame2 & Hpm2 & Hrest)]; try done.
  { etrans; [apply delete_subseteq|done]. }
  { apply lookup_insert_eq. }
  { cbn. by rewrite (same_indexes_ids _ _ Hsame). }
  { cbn. by eapply described_same. }
  - left. rewrite (sbind_Ok _ _ _ (with_indexes t1 l2, pool, bs) (Ok tt)) by by rewrite Hi.
    assert (HA' : A' !! k0 = Some val0) by by eapply lookup_weaken.
    destruct (delete_skip_ok (E:=InsertError) (with_indexes t1 l2) pool bs A' k0 val0 Hph I2 HA') as (ps & bs' & Hd' & Hph').
    rewrite (sbind_Ok _ _ _ _ _ Hd'). set (t3 := with_inner_pages _ ps) in *.
    destruct (statistics_deleted (E:=InsertError) t3 pool bs' A k0 val0 I7 I8 HA) as (n & b & Hst & Hn1 & Hb1). rewrite (sbind_Ok _ _ _ _ _ Hst).
    destruct (statistics_added (E:=InsertError) (with_statistics t3 n b) pool bs' A2 k val Hn1 Hb1 Hk2 Hn2) as (n' & b' & Hst' & Hn' & Hb').
    rewrite (sbind_Ok _ _ _ _ _ Hst'). assert (Hs2 : same_indexes (tb_indexes t) l2) by by eapply same_indexes_trans.
    eexists _, bs'. split; [done|]. split; [split|by split; [..|unfold colliders; cbn; rewrite Hnone]].
    + unfold A' in Hph'. rewrite delete_insert_ne in Hph' by congruence. exact Hph'.
    + apply (logical_insert (with_statistics t1 n b)); try done.
      * apply (logical_delete t); try done. unfold finder_ok. cbn. rewrite Hnone. by apply (same_indexes_unique _ _ Hsame).
      * apply (unviolated_absent A2 val l Hun). by apply (same_indexes_unique _ _ Hsame).
      * unfold finder_ok. cbn. rewrite Hnone. by apply (same_indexes_unique _ _ Hs2).
  - right. rewrite (sbind_Ok _ _ _ (t2, pool, bs2) (Err e)) by by rewrite Hi.
    assert (Hs2 : same_indexes (tb_indexes t) (tb_indexes t2)) by by eapply same_indexes_trans.
    unfold A' in Hph2. rewrite delete_insert_id in Hph2 by done.
    destruct (reinsert_ok t t2 pool bs2 A k0 val0) as (l3 & Hi3 & Hinv & Hs3); try done.
    { eapply collision_free_weaken; [|exact Hc]. unfold A'. rewrite (large_perm' _ _ (map_objects_insert A k val Hk)), large_app'. clear. multiset_solver. }
    { by apply (room_update A k0 val0 val _ _ HA Hroom Hs2). }
    exists e, (with_indexes t2 l3), bs2. split_and!; [|by eapply (error_of_same t t1)|done|].
    2: { apply grown_rest; [|done|unfold colliders; cbn; by rewrite Hpm2, Hnone]. by eapply same_indexes_trans. }
    rewrite (sbind_Ok _ _ _ (with_indexes t2 l3, pool, bs2) tt) by (unfold sunwrap; by rewrite Hi3). done.
Qed.
End tables.
