(* ===== verification/TableThm.v ===== *)
(** * What tables do

    Scanning a table, adding and removing indexes, and the theorems on the
    operations of table.rs. *)

From Stdlib Require Import ZArith Lia.
From stdpp Require Import sorting gmap gmultiset list strings.
From S2P Require Import Prelude Buffer Sats Bsatn Mem Indexes VarLen BlobStore Page PageRows PageRead PageThm Pages PointerMap Layout RowTypeVisitor BflatnTo BflatnFrom BflatnRepr BflatnThm PagesThm StaticLayout RowEq ValueHash RowHash StaticValidator ColList RowRef ValueOrd BTreeMap IndexMaps TableIndex Table TableRows.
Local Open Scope Z_scope.

Section tables.
Context {FloatI : FloatOrd} {FLawI : FloatOrdLaws}.
Context {Q B H : Type} {QueueI : PageQueue Q} {QLawI : PageQueueLaws Q}.
Context {BsI : BlobStore B} {HashI : Blake3} {LawI : BlobStoreLaws B} {HasherI : RowHasher H}.
Context (es : list ProductTypeElement) (rt : RowTypeLayout).
Context (Hrt : row_type_layout (E:=unit) es = Ok rt) (Hnr : contains_refs (TProduct es) = false).
Context (Hsize : ty_size (TProduct es) ≤ PAGE_DATA_SIZE) (Hcode : len (visitor_code rt) ≤ u16_MAX).
Context (m0 : gmultiset (list byte)) (sq : Z) (Hsq : in_u 8 sq).

Local Abbreviation tstate := (Table * PagePool Q * B)%type.
Local Abbreviation phys := (phys es rt m0 sq) (only parsing).
Local Abbreviation tbl_inv := (tbl_inv (H:=H) es rt m0 sq) (only parsing).
Local Abbreviation row_at_key := (row_at_key sq) (only parsing).
Local Abbreviation ptr_of := (ptr_of sq) (only parsing).
Local Abbreviation index_ok := (index_ok es sq) (only parsing).
Local Abbreviation row_entries := (row_entries sq) (only parsing).
Local Abbreviation room := (room sq) (only parsing).
Local Abbreviation found := (found sq) (only parsing).
Local Abbreviation error_of := (error_of sq) (only parsing).
Implicit Types (t : Table) (pool : PagePool Q) (bs : B) (A : gmap (nat * Z) ProductValue) (k : nat * Z).

(** ** Scanning *)

Lemma row_refs_ok {E} t pool bs A ks :
  phys (tb_inner t) pool bs A → tb_squashed_offset t = sq → Forall (λ k, k ∈ dom A) ks →
  row_refs (E:=E) t bs (map ptr_of ks) = Ok (map (row_at_key t bs) ks).
Proof using Hrt Hnr Hsize.
  intros Hph Hs. induction 1 as [|k ks [val Hk]%elem_of_dom _ IH]; [done|]. cbn.
  by rewrite (phys_row_ref es rt Hrt Hnr Hsize m0 sq t pool bs A k val Hs Hph Hk), IH.
Qed.

(** The rows of the pages from the one with index [i] on. *)
Definition rows_from (i : nat) (rows : list (gmap Z GRow)) k : Prop :=
  ∃ j r, rows !! j = Some r ∧ k.1 = (i + j)%nat ∧ k.2 ∈ dom r.

Lemma scan_pages_ok {E} t pool bs A ps rows :
  phys (tb_inner t) pool bs A → tb_squashed_offset t = sq →
  Forall2 (page_inv (row_size rt) (row_type_visitor rt)) ps rows → ∀ i,
  (∀ k, rows_from i rows k → k ∈ dom A) → Z.of_nat (i + length ps) < 2 ^ 64 →
  ∃ ks, scan_pages (E:=E) t bs (Z.of_nat i) ps = Ok (map (row_at_key t bs) ks) ∧ NoDup ks ∧ ∀ k, k ∈ ks ↔ rows_from i rows k.
Proof using Hrt Hnr Hsize.
  clear Hsq. intros Hph Hs. induction 1 as [|p r ps rows Hp _ IH]; intros i Hdom Hi.
  { exists []. split_and!; [done|constructor|]. intros k. split; [by intros ?%elem_of_nil|]. by intros (j & r & ? & _). }
  destruct (row_good es rt Hrt Hnr Hsize) as [_ Hrs].
  destruct (iter_fixed_len_ok (row_size rt) Hrs (row_type_visitor rt) (E:=E) p r Hp) as (l & Hl & Hsort & Hin).
  assert (Hhd : ∀ k, k ∈ map (pair i) l ↔ k.1 = i ∧ k.2 ∈ dom r).
  { intros [a b]. rewrite list_elem_of_fmap. cbn. rewrite <-Hin. naive_solver. }
  destruct (IH (S i)) as (ks & Hks & Hnd & Hel).
  { intros k (j & r' & Hj & Hk1 & Hk2). apply Hdom. exists (S j), r'. split_and!; [done|lia|done]. }
  { cbn in Hi. lia. }
  exists (map (pair i) l ++ ks). split_and!.
  - cbn [scan_pages]. unfold table_row_size. rewrite (ph_layout _ _ _ _ _ _ _ _ Hph), Hl, Hs. cbn [rbind].
    replace (map (λ o, RowPointer_new false (Z.of_nat i) o sq) l) with (map ptr_of (map (pair i) l)) by (by rewrite map_map).
    rewrite (row_refs_ok t pool bs A); [|done|done|].
    2: { apply Forall_forall. intros k [Hk1 Hk2]%Hhd. apply Hdom. exists 0%nat, r. split_and!; [done|lia|done]. }
    cbn [rbind]. rewrite add_u_Ok by (cbn in Hi; lia). cbn [rbind]. replace (Z.of_nat i + 1) with (Z.of_nat (S i)) by lia. rewrite Hks. cbn [rbind]. by rewrite map_app.
  - apply NoDup_app. split_and!; [|intros k [Hk1 _]%Hhd (j & r' & _ & Hk & _)%Hel; lia|done].
    apply NoDup_fmap; [intros ? ?; congruence|]. by apply sorted_NoDup.
  - intros k. rewrite elem_of_app, Hhd, Hel. split.
    + intros [[Hk1 Hk2]|(j & r' & Hj & Hk1 & Hk2)]; [exists 0%nat, r; split_and!; [done|lia|done]|exists (S j), r'; split_and!; [done|lia|done]].
    + intros ([|j] & r' & Hj & Hk1 & Hk2); [left; injection Hj as ->; split; [lia|done]|right; exists j, r'; split_and!; [done|lia|done]].
Qed.

(** A scan gives every row once. *)
Lemma scan_rows_ok {E} t pool bs A :
  phys (tb_inner t) pool bs A → tb_squashed_offset t = sq →
  ∃ ks, scan_rows (E:=E) t bs = Ok (map (row_at_key t bs) ks) ∧ NoDup ks ∧ ∀ k, k ∈ ks ↔ k ∈ dom A.
Proof using Hrt Hnr Hsize.
  clear Hsq. intros Hph Hs. pose proof Hph as [_ _ _ ((rows & Hinv) & _) _ _].
  assert (Hiff : ∀ k, rows_from 0 rows k ↔ k ∈ dom A).
  { intros k. rewrite elem_of_dom. pose proof (pi_rows _ _ _ _ _ _ Hinv k) as Hr. unfold row_at in Hr. split.
    - intros (j & r & Hj & Hk1 & [gr Hgr]%elem_of_dom). cbn in Hk1. subst j. rewrite Hj in Hr. cbn in Hr. rewrite Hgr in Hr. by inversion Hr.
    - intros [val Hval]. rewrite Hval in Hr. destruct (rows !! k.1) as [r|] eqn:Hj; [|by inversion Hr]. cbn in Hr.
      exists k.1, r. split_and!; [done|done|]. apply elem_of_dom. by inversion Hr. }
  destruct (scan_pages_ok (E:=E) t pool bs A _ rows Hph Hs (pi_pages _ _ _ _ _ _ Hinv) 0) as (ks & Hks & Hnd & Hel).
  - intros k. by rewrite Hiff.
  - pose proof (pi_len _ _ _ _ _ _ Hinv). unfold len in *. change (PageIndex_MAX + 1) with (2 ^ 39) in *. lia.
  - exists ks. split_and!; [done|done|]. intros k. by rewrite Hel, Hiff.
Qed.

(** ** Rebuilding the pointer map *)

Lemma hash_rows_ok {E} t pool bs A ks :
  phys (tb_inner t) pool bs A → Forall (λ k, k ∈ dom A) ks →
  ∃ l, hash_rows (H:=H) (E:=E) (map (row_at_key t bs) ks) = Ok l ∧
    Forall2 (λ k e, ∃ val, A !! k = Some val ∧ e = (value_hash (H:=H) val, ptr_of k)) ks l.
Proof using Hrt Hnr Hsize.
  intros Hph. induction 1 as [|k ks [val Hk]%elem_of_dom _ (l & IH & Hl)]; [by exists []|]. cbn.
  rewrite (phys_hash es rt Hrt Hnr Hsize m0 sq t pool bs A k val Hph Hk), IH. cbn [rbind]. eexists. split; [done|].
  constructor; [by exists val|done].
Qed.

Lemma rebuild_pointer_map_ok {E} t pool bs A :
  phys (tb_inner t) pool bs A → tb_squashed_offset t = sq → Z.of_nat (size A) ≤ 2 ^ 32 →
  ∃ pm, rebuild_pointer_map (H:=H) (E:=E) t bs = Ok pm ∧ pm_rel (H:=H) sq pm A.
Proof using Hrt Hnr Hsize.
  intros Hph Hs Hn. destruct (scan_rows_ok (E:=E) t pool bs A Hph Hs) as (ks & Hks & Hnd & Hel).
  destruct (hash_rows_ok (E:=E) t pool bs A ks Hph) as (l & Hl & Hf); [apply Forall_forall; intros k; apply Hel|].
  assert (Hlen : length l = size A).
  { rewrite <-(Forall2_length _ _ _ Hf), <-size_dom, <-(size_list_to_set (C:=gset (nat * Z)) ks) by done. f_equal. apply set_eq. intros k. by rewrite elem_of_list_to_set, Hel. }
  assert (Hin : ∀ e, e ∈ l ↔ e ∈ hashes (H:=H) sq A).
  { intros [h p]. rewrite elem_of_hashes. split.
    - intros [j Hj]%list_elem_of_lookup_1. destruct (Forall2_lookup_r _ _ _ _ _ Hf Hj) as (k & _ & val & Hk & [= -> ->]). by exists k, val.
    - intros (k & val & Hk & -> & ->). assert (Hkk : k ∈ ks) by (apply Hel; by apply elem_of_dom_2 in Hk).
      apply list_elem_of_lookup_1 in Hkk as [j Hj]. destruct (Forall2_lookup_l _ _ _ _ _ Hf Hj) as (e & He & val' & Hk' & ->).
      rewrite Hk in Hk'. injection Hk' as <-. by eapply list_elem_of_lookup_2. }
  destruct (pm_extend_ok (E:=E) l pm_default ∅ ∅ pm_default_ok) as (pm & C & He & Hok & _).
  - apply Forall_forall. intros [h p] (k & val & Hk & _ & ->)%Hin%elem_of_hashes. apply (ph_keys _ _ _ _ _ _ _ _ Hph k val Hk).
  - unfold len. rewrite Hlen. cbn. lia.
  - exists pm. split; [unfold rebuild_pointer_map; rewrite Hks; cbn [rbind]; rewrite Hl; exact He|]. exists C.
    replace (hashes (H:=H) sq A) with (list_to_set l ∪ ∅ : gset (Z * Z)); [done|]. apply set_eq. intros e. rewrite (right_id_L ∅ (∪)), elem_of_list_to_set. apply Hin.
Qed.

(** ** Indexes of a table *)

Lemma total_bytes_mono ix cols A A' : A ⊆ A' → total_bytes ix (row_entries cols A) ≤ total_bytes ix (row_entries cols A').
Proof using.
  intros Hsub%map_to_list_submseteq. apply submseteq_Permutation in Hsub as [l Hl].
  assert (Hp : row_entries cols A' ≡ₚ row_entries cols A ++ map (λ e, (row_key cols e.2, ptr_of e.1)) l).
  { unfold TableRows.row_entries. by rewrite Hl, map_app. }
  rewrite Hp. clear. set (C := map _ l). induction (row_entries cols A) as [|e C' IH]; [apply total_bytes_nonneg|].
  cbn [app]. unfold total_bytes in *. cbn [map foldr]. lia.
Qed.

(** Two rows with the same key. *)
Definition clash (cols : ColList) A : Prop :=
  ∃ k k' val val', k ≠ k' ∧ A !! k = Some val ∧ A !! k' = Some val' ∧ at_key (row_key cols val) (row_key cols val') = true.

Lemma build_from_rows_ok t pool bs A ks : phys (tb_inner t) pool bs A → NoDup ks → Forall (λ k, k ∈ dom A) ks → ∀ A0 ix,
  index_ok A0 ix → A0 ⊆ A → (∀ k, k ∈ ks → k ∉ dom A0) → Z.of_nat (size A) ≤ u64_MAX →
  total_bytes (ix_idx ix) (row_entries (ix_indexed_columns ix) A) ≤ u64_MAX →
  (∃ A1 ix', build_from_rows (map (row_at_key t bs) ks) ix = (Ok tt, ix') ∧ index_ok A1 ix' ∧ ix_shape ix' = ix_shape ix ∧
     A1 ⊆ A ∧ dom A1 = dom A0 ∪ list_to_set ks) ∨
  (∃ old ix', build_from_rows (map (row_at_key t bs) ks) ix = (Err old, ix') ∧ ix_is_unique ix = true ∧ clash (ix_indexed_columns ix) A).
Proof using Hrt Hnr Hsize LawI FLawI.
  clear Hsq Hcode. intros Hph. induction 1 as [|k ks Hnin Hnd IH]; intros Hks A0 ix Hix Hsub Hdis Hn Hb.
  { left. exists A0, ix. split_and!; try done. set_solver. }
  apply Forall_cons in Hks as [[val Hk]%elem_of_dom Hks]. assert (Hk0 : A0 !! k = None) by (apply not_elem_of_dom, Hdis; by left).
  pose proof (insert_subseteq_l _ _ _ _ Hk Hsub) as Hsub'.
  assert (Hn0 : (size A0 < size A)%nat).
  { apply (Nat.lt_le_trans _ (size (<[k := val]> A0))); [rewrite map_size_insert_None by done; lia|]. by apply map_subseteq_size. }
  destruct (index_insert es rt Hrt Hnr Hsize m0 sq (row_at_key t bs k) A0 k val ix Hix Hk0) as [(ix1 & Hc & Hix1 & Hsh & _)|(Hu & old & Hc & Hsel)].
  - by eapply phys_refers.
  - by apply (ph_typed _ _ _ _ _ _ _ _ Hph _ _ Hk).
  - done.
  - by apply (ph_keys _ _ _ _ _ _ _ _ Hph _ _ Hk).
  - lia.
  - unfold index_room. pose proof (total_bytes_mono (ix_idx ix) (ix_indexed_columns ix) _ _ Hsub') as Hm.
    rewrite (entries_insert sq (ix_indexed_columns ix) A0 k val Hk0) in Hm. unfold total_bytes in *. cbn [map foldr fst] in Hm. lia.
  - destruct (same_index_columns (0, ix) (0, ix1)) as [Hcols Huq]; [by split|]. cbn [snd] in *. injection Hsh as Hcl Hkt _.
    destruct (clone_same _ _ Hcl) as (_ & Hdir & _).
    destruct (IH Hks (<[k := val]> A0) ix1 Hix1 Hsub') as [(A1 & ix' & Hb' & Hix' & Hsh' & Hsub1 & Hdom)|(old & ix' & Hb' & Hu & Hcl')].
    + intros k' Hk'. rewrite dom_insert. set_solver.
    + done.
    + rewrite Hcols. revert Hb. unfold total_bytes, entry_bytes. by rewrite Hdir.
    + left. exists A1, ix'. cbn [map build_from_rows]. rewrite (sbind_Ok _ _ _ _ _ Hc), Hb'. split_and!; try done; [|set_solver].
      rewrite Hsh'. unfold ix_shape. by rewrite Hcl, Hkt, Hcols.
    + right. exists old, ix'. cbn [map build_from_rows]. rewrite (sbind_Ok _ _ _ _ _ Hc), Hb'. by rewrite <-Hcols, <-Huq.
  - right. exists old, ix. split_and!; [cbn [map build_from_rows]; unfold sbind; by rewrite Hc|done|].
    assert (Ho : old ∈ [old]) by by apply list_elem_of_singleton. rewrite <-Hsel in Ho.
    apply select_key in Ho as (k' & val' & HA & Hat & _). exists k, k', val, val'. split_and!; [congruence|done|by eapply lookup_weaken|done].
Qed.

Lemma insert_sorted l i (ix : TableIndex) :
  StronglySorted Z.lt (map fst l) → i ∉ map fst l →
  ∃ l1 l2, l = l1 ++ l2 ∧ bt_insert l i ix = l1 ++ (i, ix) :: l2 ∧ StronglySorted Z.lt (map fst (l1 ++ (i, ix) :: l2)).
Proof using.
  clear. induction l as [|[j jx] l IH]; cbn [map fst]; intros Hs Hn.
  { exists [], []. split_and!; try done. by repeat constructor. }
  apply StronglySorted_inv in Hs as [Hs Hall]. cbn [bt_insert]. change (cmp i j) with (i ?= j).
  destruct (Z.compare_spec i j) as [->|Hlt|Hgt]; [by destruct Hn; left|..].
  - exists [], ((j, jx) :: l). split_and!; try done. cbn. constructor; [by constructor|]. constructor; [done|].
    eapply Forall_impl; [exact Hall|]. cbn. lia.
  - destruct IH as (l1 & l2 & -> & Hi & Hs'); [done|by intros ?; apply Hn; right|]. exists ((j, jx) :: l1), l2. rewrite Hi. split_and!; [done..|].
    cbn. constructor; [done|]. rewrite map_app in *. cbn in *. apply Forall_app in Hall as [H1 H2]. apply Forall_app. split; [done|]. by constructor.
Qed.

(** A new index on the rows of the table. *)
Lemma insert_index_ok {E} t pool bs A i ix :
  tbl_inv t pool bs A → index_for es ix → index_rel ix [] → i ∉ map fst (tb_indexes t) → described (tb_schema t) (i, ix) →
  Z.of_nat (size A) ≤ u64_MAX → total_bytes (ix_idx ix) (row_entries (ix_indexed_columns ix) A) ≤ u64_MAX →
  (∃ t' ix', insert_index (E:=E) i ix (t, pool, bs) = (Ok tt, (t', pool, bs)) ∧ tbl_inv t' pool bs A ∧
     tb_indexes t' = bt_insert (tb_indexes t) i ix' ∧ ix_shape ix' = ix_shape ix) ∨
  insert_index (E:=E) i ix (t, pool, bs) = (Panic, (t, pool, bs)) ∧ ix_is_unique ix = true ∧ clash (ix_indexed_columns ix) A.
Proof using Hrt Hnr Hsize LawI FLawI.
  intros [Hph Hlog] Hfor Hrel Hi Hdesc Hn Hb. pose proof Hlog as [I2 I3 I4 I5 I6 I7 I8 I9 I10].
  destruct (scan_rows_ok (E:=E) t pool bs A Hph I2) as (ks & Hks & Hnd & Hel).
  unfold insert_index. rewrite (bind_of_table _ _ _ _ _ _ Hks).
  destruct (build_from_rows_ok t pool bs A ks Hph Hnd) with (A0 := ∅ : gmap (nat * Z) ProductValue) (ix := ix)
    as [(A1 & ix' & -> & Hix & Hsh & Hsub & Hdom)|(old & ix' & -> & Hu & Hcl)]; try done.
  { apply Forall_forall. intros k. apply Hel. }
  { apply map_empty_subseteq. }
  2: by right.
  left. assert (A1 = A) as ->.
  { apply (anti_symm (⊆)); [done|]. apply map_subseteq_spec. intros k val Hk. assert (Hk1 : k ∈ dom A1).
    { rewrite Hdom, elem_of_union, elem_of_list_to_set. right. apply Hel. by apply elem_of_dom_2 in Hk. }
    apply elem_of_dom in Hk1 as [val' Hk1]. pose proof (lookup_weaken _ _ _ _ Hk1 Hsub). congruence. }
  destruct (insert_sorted (tb_indexes t) i ix' I4 Hi) as (l1 & l2 & Hl & Hins & Hsort).
  assert (Hdesc' : described (tb_schema t) (i, ix')).
  { destruct Hdesc as [D1 D2]. split; [done|]. injection Hsh as _ _ Hcols. cbn [snd] in *. by rewrite Hcols. }
  eexists _, ix'. split; [done|]. unfold add_index. split_and!; [|by destruct (ix_is_unique ix')|done].
  split; [by destruct (ix_is_unique ix')|]. rewrite Hl in I3, I9. apply Forall_app in I3 as [J1 J2], I9 as [K1 K2].
  assert (Hall : Forall (λ e, index_ok A e.2) (l1 ++ (i, ix') :: l2) ∧ Forall (described (tb_schema t)) (l1 ++ (i, ix') :: l2)).
  { split; (apply Forall_app; split; [done|]; by apply Forall_cons). }
  destruct Hall as [H1 H2]. destruct (ix_is_unique ix') eqn:Hu; split; cbn; rewrite ?Hins; try done; unfold finder_ok in *; cbn; rewrite ?Hins.
  - apply Exists_app. right. apply Exists_cons. by left.
  - destruct (tb_pointer_map t) as [pm|].
    + destruct I5 as [I5 I5']. split; [done|]. rewrite Hl in I5'. apply Forall_app in I5' as [F1 F2]. apply Forall_app. split; [done|]. by apply Forall_cons.
    + rewrite Hl in I5. apply Exists_app in I5. apply Exists_app. destruct I5; [by left|right; apply Exists_cons; by right].
Qed.

Lemma sorted_bt_ok (l : list (Z * TableIndex)) : StronglySorted Z.lt (map fst l) → bt_ok l.
Proof using.
  clear. induction l as [|e l IH]; cbn; [constructor|]. intros [Hs Hall]%StronglySorted_inv. constructor; [by apply IH|].
  change (map fst l) with (fst <$> l) in Hall. apply (Forall_fmap fst) in Hall. eapply Forall_impl; [exact Hall|]. intros e' He. by apply Z.compare_lt_iff.
Qed.

Lemma sorted_split l i (ix : TableIndex) :
  StronglySorted Z.lt (map fst l) → bt_get l i = Some ix → ∃ l1 l2, l = l1 ++ (i, ix) :: l2 ∧ bt_remove l i = l1 ++ l2.
Proof using.
  clear. intros Hs Hg. destruct (bt_get_split l i ix (sorted_bt_ok l Hs) Hg) as (l1 & l2 & i' & Hl & Hi & _ & Hr).
  change (cmp i i') with (i ?= i') in Hi. apply Z.compare_eq in Hi as <-. by exists l1, l2.
Qed.

Lemma sorted_remove (l1 : list Z) x l2 : StronglySorted Z.lt (l1 ++ x :: l2) → StronglySorted Z.lt (l1 ++ l2).
Proof using.
  clear. induction l1 as [|y l1 IH]; cbn; intros [Hs Hall]%StronglySorted_inv; [done|]. constructor; [by apply IH|].
  apply Forall_app in Hall as [H1 [_ H2]%Forall_cons]. by apply Forall_app.
Qed.

Lemma remove_index_ok (l : list IndexSchema) i :
  Exists (λ x, is_index_id x = i) l →
  ∃ x l', remove_index l i = Some (x, l') ∧ x ∈ l ∧ is_index_id x = i ∧
    ∀ j, j ≠ i → Exists (λ x, is_index_id x = j) l → Exists (λ x, is_index_id x = j) l'.
Proof using.
  clear. unfold remove_index. induction l as [|y l IH]; cbn [find_remove]; [by intros ?%Exists_nil|]. destruct (Z.eqb_spec (is_index_id y) i) as [<-|Hne].
  - intros _. exists y, l. split_and!; [done|by left|done|]. by intros j Hj [|]%Exists_cons.
  - intros [|Hl]%Exists_cons; [done|]. destruct (IH Hl) as (x & l' & -> & Hx & Hid & Hj).
    exists x, (y :: l'). split_and!; [done|by right|done|]. intros j Hji [He|He]%Exists_cons; apply Exists_cons; [by left|right; by apply Hj].
Qed.

(** Without a unique index the pointer map is there again. *)
Lemma drop_index_ok {E} t pool bs A l1 i ix l2 pointer_map :
  phys (tb_inner t) pool bs A → tb_squashed_offset t = sq → finder_ok (H:=H) sq t A → tb_indexes t = l1 ++ (i, ix) :: l2 →
  bt_remove (tb_indexes t) i = l1 ++ l2 → Z.of_nat (size A) ≤ 2 ^ 32 → (∀ pm, pointer_map = Some pm → pm_rel (H:=H) sq pm A) →
  let t1 := with_indexes t (l1 ++ l2) in
  ∃ pm, drop_index (H:=H) (E:=E) bs i ix pointer_map t = Ok (with_pointer_map t1 pm) ∧ finder_ok (H:=H) sq (with_pointer_map t1 pm) A.
Proof using Hrt Hnr Hsize.
  intros Hph Hs Hf Hl Hrm Hn Hpm t1. unfold drop_index. rewrite Hrm. fold t1. cbn [tb_indexes t1 with_indexes].
  destruct (rebuild_pointer_map_ok (E:=E) t1 pool bs A Hph Hs Hn) as (pm & Hpm1 & Hpm2).
  unfold finder_ok in Hf. rewrite Hl in Hf. destruct (ix_is_unique ix) eqn:Hu; cbn [andb].
  - destruct (existsb _ (l1 ++ l2)) eqn:Hex; cbn [negb].
    + exists (tb_pointer_map t). split; [by rewrite <-(with_own_pointer_map t1) at 1|]. unfold finder_ok. cbn.
      apply existsb_exists in Hex as (e & Hin & He). rewrite <-list_elem_of_In in Hin.
      destruct (tb_pointer_map t); [|apply Exists_exists; by exists e]. destruct Hf as [_ [_ [Hf _]%Forall_cons]%Forall_app].
      cbn in Hf. by rewrite Hu in Hf.
    + assert (Hall : Forall (λ e, ix_is_unique e.2 = false) (l1 ++ l2)).
      { apply Forall_forall. intros e Hin. destruct (ix_is_unique e.2) eqn:He; [|done]. apply not_true_iff_false in Hex. destruct Hex.
        apply existsb_exists. exists e. by rewrite <-list_elem_of_In. }
      destruct pointer_map as [pm'|]; [exists (Some pm')|exists (Some pm); rewrite Hpm1]; (split; [done|]); (split; [|done]); [by apply Hpm|done].
  - exists (tb_pointer_map t). split; [by rewrite <-(with_own_pointer_map t1) at 1|]. unfold finder_ok. cbn.
    destruct (tb_pointer_map t).
    + destruct Hf as [Hf [F1 [_ F2]%Forall_cons]%Forall_app]. split; [done|]. by apply Forall_app.
    + apply Exists_app in Hf as [He|[He|He]%Exists_cons]; [apply Exists_app; by left|cbn in He; by rewrite Hu in He|apply Exists_app; by right].
Qed.

Lemma delete_index_ok {E} t pool bs A i ix pointer_map :
  tbl_inv t pool bs A → bt_get (tb_indexes t) i = Some ix → Z.of_nat (size A) ≤ 2 ^ 32 →
  (∀ pm, pointer_map = Some pm → pm_rel (H:=H) sq pm A) →
  ∃ t' schema, delete_index (H:=H) (E:=E) i pointer_map (t, pool, bs) = (Ok (Some (ix, schema)), (t', pool, bs)) ∧
    schema ∈ sch_indexes (tb_schema t) ∧ is_index_id schema = i ∧ tbl_inv t' pool bs A ∧ tb_indexes t' = bt_remove (tb_indexes t) i.
Proof using Hrt Hnr Hsize.
  intros [Hph Hlog] Hget Hn Hpm. pose proof Hlog as [I2 I3 I4 I5 I6 I7 I8 I9 I10].
  destruct (sorted_split _ _ _ I4 Hget) as (l1 & l2 & Hl & Hrm). unfold delete_index. rewrite Hget.
  pose proof (drop_index_ok (E:=E) t pool bs A l1 i ix l2 pointer_map Hph I2 I5 Hl Hrm Hn Hpm) as Hdrop. cbv zeta in Hdrop.
  destruct Hdrop as (pm & Hdrop & Hfind). unfold sbind at 1, sres. rewrite Hdrop. cbn [tb_schema with_pointer_map with_indexes].
  rewrite Hl in I3, I4, I9. apply Forall_app in I3 as [J1 [_ J2]%Forall_cons], I9 as [K1 [K K2]%Forall_cons].
  destruct (remove_index_ok (sch_indexes (tb_schema t)) i (proj1 K)) as (schema & l' & -> & Hin & Hid & Hrest).
  eexists _, schema. split; [done|]. split_and!; [done|done| |done]. split; [exact Hph|]. split; try done.
  - by apply Forall_app.
  - cbn. rewrite map_app in *. eapply sorted_remove. exact I4.
  - cbn. assert (Hne : ∀ e, e ∈ l1 ++ l2 → e.1 ≠ i).
    { intros e He <-. apply sorted_NoDup in I4. rewrite map_app in I4. cbn in I4. rewrite NoDup_app, NoDup_cons in I4.
      destruct I4 as (_ & Hd & Hd' & _). apply elem_of_app in He as [He|He]; [apply (Hd e.1); [by apply list_elem_of_fmap_2|by left]|].
      by apply Hd', list_elem_of_fmap_2. }
    apply Forall_forall. intros e He. assert (He' : described (tb_schema t) e).
    { assert (Hk : Forall (described (tb_schema t)) (l1 ++ l2)) by by apply Forall_app. rewrite Forall_forall in Hk. by apply Hk. }
    destruct He' as [D1 D2]. split; [|done]. cbn. by apply Hrest; [apply Hne|].
Qed.

(** ** New tables *)

Lemma table_new_parts schema t :
  table_new (E:=unit) schema sq = Ok t → sch_row_type schema = es →
  ti_row_layout (tb_inner t) = rt ∧ ti_visitor_prog (tb_inner t) = row_type_visitor rt ∧ static_ok (tb_inner t) ∧
  ti_pages (tb_inner t) = pages_default ∧ tb_indexes t = [] ∧ logical (H:=H) es sq t ∅.
Proof using Hrt.
  intros Hnew Hes. unfold table_new in Hnew. rewrite Hes, Hrt in Hnew. cbn [rbind] in Hnew.
  assert (∃ sl, t = table_new_raw schema rt sl (row_type_visitor rt) sq (Some pm_default) ∧
    ∀ s v, sl = Some (s, v) → for_row_type rt = Ok s) as (sl & -> & Hsl).
  { destruct (for_row_type rt) as [sl|e| |]; try done; [|injection Hnew as <-; exists None; by split].
    destruct (static_bsatn_validator rt) as [va|e| |]; try done. injection Hnew as <-. exists (Some (sl, va)). split; [done|]. by intros s v [= <- <-]. }
  split_and!; try done. split; cbn; try done; [constructor|]. split; [|done]. exists ∅. exact pm_default_ok.
Qed.

Lemma table_new_ok schema t pool bs :
  table_new (E:=unit) schema sq = Ok t → sch_row_type schema = es → pool_ok pool → holds bs m0 → tbl_inv t pool bs ∅.
Proof using Hrt.
  intros Hnew Hes Hpool Hm. destruct (table_new_parts schema t Hnew Hes) as (N1 & N2 & N3 & N4 & N5 & N6).
  destruct (pages_default_inv rt m0 bs Hm) as [Hp1 Hp2]. split; [|done]. split; try done. rewrite N4. split_and!; [by eexists|done|done].
Qed.

(** ** Restoring a table from its pages *)

Lemma sum_blob_lens_ok {E} p bs row offs objs :
  Forall2 (λ o ob, row_vlr (E:=E) row o = Ok (peek_vlr row o) ∧ is_large_blob (peek_vlr row o) = (992 <? len ob) ∧
    reads_obj (E:=E) row p bs o ob) offs objs →
  sum_blob_lens (E:=E) p bs row offs = Ok (large_bytes objs).
Proof using.
  clear. induction 1 as [|o ob offs objs (H1 & H2 & H3) _ IH]; [done|]. cbn [sum_blob_lens]. rewrite H1, IH. cbn [rbind].
  unfold vlr_blob_len, reads_obj in *. rewrite H2 in *. rewrite large_bytes_cons. unfold large_bytes at 2. rewrite filter_cons, filter_nil.
  destruct (Z.ltb_spec 992 (len ob)); [rewrite H3, decide_True by done|rewrite decide_False by lia]; cbn; f_equal; lia.
Qed.

Lemma blob_store_bytes_ok {E} t pool bs A k val :
  phys (tb_inner t) pool bs A → A !! k = Some val →
  rr_blob_store_bytes (E:=E) (row_at_key t bs k) = Ok (large_bytes (product_objects val)).
Proof using Hrt Hnr Hsize.
  intros [H1 H2 _ ((rows & Hinv) & _) _ H6] Hk.
  destruct (pages_row _ _ _ _ _ _ _ _ Hinv Hk) as (p & r & gr & Hp & Hr & Hgr & Hpi & Hrep & Hobjs).
  destruct (pages_page_store _ _ _ _ _ _ _ _ Hinv Hr) as [m Hm]. destruct (row_good es rt Hrt Hnr Hsize) as [_ Hrs].
  destruct (read_row_ok (E:=E) _ Hrs _ _ _ _ _ Hpi Hgr) as (Hrd & Hvis & Ho1).
  destruct (row_reads (E:=E) es rt Hrt Hnr Hsize _ _ _ _ _ _ Hpi Hgr Hm) as (_ & _ & Ho2).
  pose proof (proj1 (H6 k val Hk)) as He. unfold ptr_key in He. rewrite <-He in Hp, Hrd. cbn [fst snd] in *.
  unfold rr_blob_store_bytes, rr_get_row_data, rr_page_and_offset, page_and_offset, try_page_and_offset, rr_row_layout. cbn.
  rewrite H1, H2, Hp. cbn [rbind]. rewrite Hrd. cbn [rbind]. rewrite Hvis. cbn [rbind]. rewrite <-Hobjs. apply sum_blob_lens_ok.
  clear -Ho1 Ho2. revert Ho2. induction Ho1 as [|o ob offs objs (E1 & _ & E2) _ IH]; [constructor|].
  intros [? ?]%Forall2_cons. constructor; [done|by apply IH].
Qed.

Lemma count_rows_ok {E} t pool bs A (l : list ((nat * Z) * ProductValue)) :
  phys (tb_inner t) pool bs A → Forall (λ e, A !! e.1 = Some e.2) l → ∀ c b, 0 ≤ c → c + len l < 2 ^ 31 →
  count_rows (E:=E) (map (row_at_key t bs) (map fst l)) c b = Ok (c + len l, b + large_bytes (l ≫= λ e, product_objects e.2)).
Proof using Hrt Hnr Hsize.
  clear Hsq Hcode. intros Hph. induction 1 as [|[k val] l Hk _ IH]; intros c b Hc Hl; unfold len in *; cbn [length] in Hl.
  { cbn. do 2 f_equal; lia. }
  cbn [map count_rows fst]. rewrite add_u_Ok by lia. cbn [rbind]. rewrite (blob_store_bytes_ok t pool bs A k val Hph Hk). cbn [rbind].
  rewrite IH by lia. cbn [length mbind list_bind snd]. rewrite large_bytes_app. do 2 f_equal; lia.
Qed.

Lemma non_full_indices_ok ps rows :
  Forall2 (page_inv (row_size rt) (row_type_visitor rt)) ps rows → ∀ i,
  ∃ l, non_full_indices (E:=PagesError) (row_size rt) i ps = Ok l ∧ NoDup l ∧
    ∀ j, j ∈ l ↔ i ≤ j ∧ ∃ p, ps !! Z.to_nat (j - i) = Some p ∧ page_is_full (E:=PagesError) p (row_size rt) = Ok false.
Proof using Hrt Hnr Hsize.
  clear Hsq Hcode. induction 1 as [|p r ps rows Hp _ IH]; intros i.
  { exists []. split_and!; [done|constructor|]. intros j. split; [by intros ?%elem_of_nil|]. by intros (_ & p & ? & _). }
  destruct (page_is_full_ok es rt Hrt Hnr Hsize (E:=PagesError) p r Hp) as [b Hb]. destruct (IH (i + 1)) as (l & Hl & Hnd & Hel).
  assert (Hi : ∀ j, j ∈ l → i ≠ j) by (intros j [Hj _]%Hel; lia).
  assert (Hshift : ∀ j, (∃ q, (p :: ps) !! Z.to_nat (j - i) = Some q ∧ page_is_full (E:=PagesError) q (row_size rt) = Ok false) ∧ i ≤ j ↔
    (j = i ∧ b = false) ∨ j ∈ l).
  { intros j. rewrite Hel. split.
    - intros [(q & Hq & Hf) Hj]. destruct (decide (j = i)) as [->|Hne].
      + left. rewrite Z.sub_diag in Hq. injection Hq as <-. split; [done|]. rewrite Hb in Hf. by injection Hf.
      + right. split; [lia|]. exists q. split; [|done]. replace (Z.to_nat (j - i)) with (S (Z.to_nat (j - (i + 1)))) in Hq by lia. done.
    - intros [[-> ->]|(Hj & q & Hq & Hf)]; [split; [|lia]; exists p; by rewrite Z.sub_diag|]. split; [|lia]. exists q. split; [|done].
      replace (Z.to_nat (j - i)) with (S (Z.to_nat (j - (i + 1)))) by lia. done. }
  exists (if b then l else i :: l). cbn [non_full_indices]. rewrite Hb. cbn [rbind]. rewrite Hl. split; [done|]. split.
  - destruct b; [done|]. constructor; [|done]. intros Hin. by apply (Hi i Hin).
  - intros j. rewrite (comm (∧) (i ≤ j)), Hshift. destruct b; [naive_solver|]. rewrite elem_of_cons. naive_solver.
Qed.

(** A table without rows and indexes is given the pages of another one. *)
Lemma set_pages_ok schema t0 t pool bs A :
  table_new (E:=unit) schema sq = Ok t0 → sch_row_type schema = es → tbl_inv t pool bs A → Z.of_nat (size A) < 2 ^ 31 →
  ∃ t', set_pages (H:=H) (E:=PagesError) t0 (pages (ti_pages (tb_inner t))) bs = Ok t' ∧ tbl_inv t' pool bs A.
Proof using Hrt Hnr Hsize.
  clear Hsq Hcode. intros Hnew Hes [[P1 P2 P3 ((rows & Hinv) & Hnf & Hpool) P6 P7] Hlog] Hn.
  destruct (table_new_parts schema t0 Hnew Hes) as (Q1 & Q2 & Q3 & Hemp & Hix0 & Hlog0). unfold set_pages, set_contents. rewrite Hemp. cbn [pages pages_default]. unfold table_row_size. rewrite Q1. destruct (non_full_indices_ok _ _ (pi_pages _ _ _ _ _ _ Hinv) 0) as (l & Hl & Hnd & Hel).
  rewrite Hl. cbn [rbind]. set (t1 := with_inner_pages t0 _). assert (Hph : phys (tb_inner t1) pool bs A).
  { split; try done. split_and!; [exists rows; apply (pages_inv_ext rt m0 (ti_pages (tb_inner t))); [reflexivity|exact Hinv]|split; [exact Hnd|]|done]. intros i. cbn. rewrite Hel, Z.sub_0_r. naive_solver. }
  destruct (scan_rows_ok (E:=PagesError) t1 pool bs A Hph (tv_sq _ _ _ _ Hlog0)) as (ks & Hks & Hndk & Hkel).
  assert (Hperm : ks ≡ₚ map fst (map_to_list A)).
  { apply NoDup_Permutation; [done|apply NoDup_fst_map_to_list|]. intros k. rewrite Hkel, elem_of_dom, list_elem_of_fmap. split.
    - intros [val Hk]. exists (k, val). split; [done|]. by apply elem_of_map_to_list.
    - intros ([k' val] & -> & Hk%elem_of_map_to_list). by exists val. }
  destruct (Permutation_map_inv _ _ Hperm) as (m & -> & Hm).
  unfold compute_row_count. rewrite Hks. cbn [rbind]. rewrite (count_rows_ok t1 pool bs A m Hph); [|..|lia|].
  2: { apply Forall_forall. intros [k val] Hk. rewrite <-Hm in Hk. by apply elem_of_map_to_list in Hk. }
  2: { unfold len. rewrite <-Hm, length_map_to_list. lia. }
  cbn [rbind]. set (t2 := with_statistics t1 _ _).
  destruct (rebuild_pointer_map_ok (E:=PagesError) t2 pool bs A Hph (tv_sq _ _ _ _ Hlog0)) as (pm & Hpm & Hrel); [lia|].
  rewrite Hpm. cbn [rbind]. eexists. split; [done|]. split; [exact Hph|]. destruct Hlog0 as [I2 I3 I4 I5 I6 I7 I8 I9 I10], Hlog.
  split; cbn; rewrite ?Hix0; try done; try constructor; try done.
  - unfold len. by rewrite <-Hm, length_map_to_list.
  - by rewrite <-Hm.
Qed.

(** ** Reachable tables *)

(** The value can be a row: it has the type, fits in a page, and its large
    objects collide with no other. *)
Definition insertable A (val : ProductValue) : Prop :=
  typed [] (TProduct es) (VProduct val) ∧ fits rt val ∧ collision_free (m0 ⊎ large (map_objects A) ⊎ large (product_objects val)).

(** The map after an operation that returned. *)
Definition after_insert {X} (r : result InsertError (X * RowRef B)) (val : ProductValue) A : gmap (nat * Z) ProductValue :=
  match r with Ok (_, row) => <[ptr_key (rr_pointer row) := val]> A | _ => A end.
Definition after_delete (r : result BflatnError (option Z)) A : gmap (nat * Z) ProductValue :=
  match r with Ok (Some p) => delete (ptr_key p) A | _ => A end.
Definition after_update (r : result InsertError Z) (old : Z) (val : ProductValue) A : gmap (nat * Z) ProductValue :=
  match r with Ok p => <[ptr_key p := val]> (delete (ptr_key old) A) | _ => A end.

(** An update: the new row is written, then takes the place of the old one. *)
Definition table_update (old : Z) (val : ProductValue) : st tstate InsertError Z :=
  sbind (smap_err Bflatn (insert_physically_pv val)) (λ '(row, blob_bytes), confirm_update (H:=H) (rr_pointer row) old blob_bytes).

(** A table that was made new and then used; [A] has its rows by place. *)
Inductive table_reach : tstate → gmap (nat * Z) ProductValue → Prop :=
| tr_new schema t pool bs :
    table_new (E:=unit) schema sq = Ok t → sch_row_type schema = es → pool_ok pool → holds bs m0 → table_reach (t, pool, bs) ∅
| tr_pool t pool pool' bs A : table_reach (t, pool, bs) A → pool_ok pool' → table_reach (t, pool', bs) A
| tr_insert t pool bs A val r s :
    table_reach (t, pool, bs) A → insertable A val → room t A val →
    table_insert (H:=H) val (t, pool, bs) = (r, s) → table_reach s (after_insert r val A)
| tr_delete t pool bs A ptr r s :
    table_reach (t, pool, bs) A → ptr_ok ptr → squashed_offset ptr = sq → row_boundary rt ptr →
    table_delete (H:=H) (E:=unit) ptr (λ _, tt) (t, pool, bs) = (r, s) → table_reach s (delete (ptr_key ptr) A)
| tr_delete_equal t pool bs A val r s :
    table_reach (t, pool, bs) A → insertable A val →
    delete_equal_row (H:=H) val (t, pool, bs) = (r, s) → table_reach s (after_delete r A)
| tr_update t pool bs A old val0 val r s :
    table_reach (t, pool, bs) A → insertable A val → room t A val → ptr_ok old → squashed_offset old = sq →
    A !! ptr_key old = Some val0 → Exists (λ e, ix_is_unique e.2 = true) (tb_indexes t) →
    table_update old val (t, pool, bs) = (r, s) → table_reach s (after_update r old val A)
| tr_insert_index t pool bs A algo is_unique i ix s :
    table_reach (t, pool, bs) A → algo_ok algo → new_index t algo is_unique = Ok ix →
    i ∉ map fst (tb_indexes t) → described (tb_schema t) (i, ix) →
    Z.of_nat (size A) ≤ u64_MAX → total_bytes (ix_idx ix) (row_entries (ix_indexed_columns ix) A) ≤ u64_MAX →
    insert_index (E:=unit) i ix (t, pool, bs) = (Ok tt, s) → table_reach s A
| tr_delete_index t pool bs A i r s :
    table_reach (t, pool, bs) A → Z.of_nat (size A) ≤ 2 ^ 32 →
    delete_index (H:=H) (E:=unit) i None (t, pool, bs) = (r, s) → table_reach s A
| tr_restore schema t0 t pool bs A t' :
    table_reach (t, pool, bs) A → Z.of_nat (size A) < 2 ^ 31 → table_new (E:=unit) schema sq = Ok t0 → sch_row_type schema = es →
    set_pages (H:=H) (E:=PagesError) t0 (pages (ti_pages (tb_inner t))) bs = Ok t' → table_reach (t', pool, bs) A.

Lemma table_delete_cases {E R} t pool bs A ptr (before : RowRef B → R) :
  tbl_inv t pool bs A → ptr_ok ptr → squashed_offset ptr = sq → row_boundary rt ptr →
  ∃ r t' bs', table_delete (H:=H) (E:=E) ptr before (t, pool, bs) = (Ok r, (t', pool, bs')) ∧ tbl_inv t' pool bs' (delete (ptr_key ptr) A) ∧
    r = option_map (λ _, before (row_at_key t bs (ptr_key ptr))) (A !! ptr_key ptr).
Proof using Hrt Hnr Hsize LawI FLawI.
  intros Hinv Hp Hs Hb. destruct (A !! ptr_key ptr) as [val|] eqn:Hk.
  - destruct (table_delete_row es rt Hrt Hnr Hsize m0 sq (E:=E) t pool bs A (ptr_key ptr) val before Hinv Hk) as (t' & bs' & Hd & Hinv' & _).
    rewrite (ptr_of_key sq ptr Hp Hs) in Hd. eexists _, t', bs'. by split_and!.
  - exists None, t, bs. rewrite delete_id by done. split_and!; [|done|done].
    unfold table_delete. by rewrite (bind_of_table (λ t _, table_is_row_present t ptr) _ _ _ _ _ (phys_absent es rt Hrt Hnr Hsize m0 sq (E:=E) t pool bs A ptr (proj1 Hinv) Hb Hk)).
Qed.

Lemma table_update_cases t pool bs A old val0 val :
  tbl_inv t pool bs A → insertable A val → room t A val → ptr_ok old → squashed_offset old = sq →
  A !! ptr_key old = Some val0 → Exists (λ e, ix_is_unique e.2 = true) (tb_indexes t) →
  (∃ k t' pool' bs', table_update old val (t, pool, bs) = (Ok (ptr_of k), (t', pool', bs')) ∧ A !! k = None ∧ key_ok sq k ∧
     tbl_inv t' pool' bs' (<[k := val]> (delete (ptr_key old) A))) ∨
  (∃ e t' pool' bs', table_update old val (t, pool, bs) = (Err e, (t', pool', bs')) ∧
     error_of t (delete (ptr_key old) A) val e ∧ tbl_inv t' pool' bs' A) ∨
  table_update old val (t, pool, bs) = (Err (Bflatn (BPagesError TooManyPages)), (t, pool, bs)) ∧ num_pages t = PageIndex_MAX + 1.
Proof using Hrt Hnr Hsize Hcode Hsq LawI FLawI.
  intros [Hph Hlog] (Ht & Hfits & Hc) Hroom Hp Hs HA Hex. unfold table_update.
  destruct (insert_physically_ok es rt Hrt Hnr Hsize Hcode m0 sq Hsq t pool bs A val Hph (tv_sq _ _ _ _ Hlog) Ht Hfits Hc)
    as [(k & ps & pool' & bs' & Hi & Hk & Hph')|[Hi Hn]].
  2: { right; right. split; [|done]. unfold sbind at 1, smap_err. by rewrite Hi. }
  rewrite (sbind_Ok _ _ _ (with_inner_pages t ps, pool', bs') (row_at_key (with_inner_pages t ps) bs' k, large_bytes (product_objects val)))
    by (unfold smap_err; by rewrite Hi). cbn [TableRows.row_at_key rr_pointer].
  destruct (confirm_update_ok es rt Hrt Hnr Hsize m0 sq (with_inner_pages t ps) pool' bs' A k (ptr_key old) val val0 Hph'
    (logical_pages _ _ _ _ _ Hlog) Hk HA (collision_free_insert _ _ _ _ Hk Hc) Hex Hroom) as [(t' & bs2 & Hu & Hinv & _)|(e & t' & bs2 & Hu & He & Hinv & _)];
    rewrite (ptr_of_key sq old Hp Hs) in Hu; [left|right; left].
  - exists k, t', pool', bs2. split_and!; try done. apply (ph_keys _ _ _ _ _ _ _ _ Hph' k val (lookup_insert_eq _ _ _)).
  - by exists e, t', pool', bs2.
Qed.

(** What the caller does with the row does not change the table. *)
Lemma table_delete_before {E R R'} ptr (before : RowRef B → R) (before' : RowRef B → R') (s : tstate) :
  (table_delete (H:=H) (E:=E) ptr before s).2 = (table_delete (H:=H) (E:=E) ptr before' s).2.
Proof using.
  unfold table_delete, sbind. destruct (of_table _ s) as [[[]| | |] s1]; try done.
  destruct (of_table _ s1) as [[row| | |] s2]; try done. destruct (delete_unchecked ptr s2) as [[n| | |] s3]; try done.
  by destruct (update_statistics_deleted_row n s3) as [[]].
Qed.

Lemma table_reach_inv s A : table_reach s A → tbl_inv s.1.1 s.1.2 s.2 A.
Proof using Hrt Hnr Hsize Hcode Hsq LawI FLawI.
  induction 1 as [schema t pool bs Hnew Hes Hpool Hm|t pool pool' bs A _ IH Hp|t pool bs A val r s _ IH Hv Hroom Hi|t pool bs A ptr r s _ IH Hp Hs Hb Hd
    |t pool bs A val r s _ IH Hv Hd|t pool bs A old val0 val r s _ IH Hv Hroom Hp Hs HA Hex Hu|t pool bs A algo u i ix s _ IH Ha Hix Hi Hdesc Hn Hb Hins
    |t pool bs A i r s _ IH Hn Hd|schema t0 t pool bs A t' _ IH Hn Hnew Hes Hset]; cbn [fst snd] in *.
  - by eapply table_new_ok.
  - destruct IH as [[P1 P2 P3 (P4 & P5 & _) P6 P7] IH]. split; [|done]. by split.
  - destruct Hv as (Ht & Hf & Hc).
    destruct (table_insert_cases es rt Hrt Hnr Hsize Hcode m0 sq Hsq t pool bs A val IH Ht Hf Hc Hroom)
      as [(k & t' & pool' & bs' & He & Hinv & _)|[(e & t' & pool' & bs' & He & _ & Hinv)|[He _]]]; rewrite He in Hi; injection Hi as <- <-; try done.
    cbn. by rewrite (proj1 (ph_keys _ _ _ _ _ _ _ _ (proj1 Hinv) k val (lookup_insert_eq _ _ _))).
  - destruct (table_delete_cases (E:=unit) t pool bs A ptr (λ _, tt) IH Hp Hs Hb) as (r' & t' & bs' & He & Hinv & _). rewrite He in Hd. by injection Hd as <- <-.
  - destruct Hv as (Ht & Hf & Hc). destruct (delete_equal_cases es rt Hrt Hnr Hsize Hcode m0 sq Hsq t pool bs A val IH Ht Hf Hc)
      as [(o & t' & pool' & bs' & He & _ & Hinv)|[He _]]; rewrite He in Hd; injection Hd as <- <-; [|done]. by destruct o.
  - destruct (table_update_cases t pool bs A old val0 val IH Hv Hroom Hp Hs HA Hex)
      as [(k & t' & pool' & bs' & He & _ & Hk & Hinv)|[(e & t' & pool' & bs' & He & _ & Hinv)|[He _]]]; rewrite He in Hu; injection Hu as <- <-; try done.
    cbn. by rewrite (proj1 Hk).
  - unfold new_index in Hix. rewrite (tv_row_type _ _ _ _ (proj2 IH)) in Hix.
    destruct (table_index_new_ok es algo u ix Ha Hix) as (Hfor & Hrel & _).
    destruct (insert_index_ok (E:=unit) t pool bs A i ix IH Hfor Hrel Hi Hdesc Hn Hb) as [(t' & ix' & He & Hinv & _)|[He _]]; rewrite He in Hins; [|done].
    by injection Hins as <-.
  - destruct (bt_get (tb_indexes t) i) as [ix|] eqn:Hg; [|unfold delete_index in Hd; rewrite Hg in Hd; by injection Hd as <- <-].
    destruct (delete_index_ok (E:=unit) t pool bs A i ix None IH Hg Hn ltac:(done)) as (t' & schema & He & _ & _ & Hinv & _).
    rewrite He in Hd. by injection Hd as <- <-.
  - destruct (set_pages_ok schema t0 t pool bs A Hnew Hes IH Hn) as (t2 & He & Hinv). rewrite He in Hset. by injection Hset as <-.
Qed.

Lemma phys_read {E} t pool bs A k val :
  phys (tb_inner t) pool bs A → A !! k = Some val → rr_to_product_value (E:=E) (row_at_key t bs k) = Ok val.
Proof using Hrt Hnr Hsize.
  intros [H1 _ _ ((rows & Hinv) & _) _ H6] Hk. unfold rr_to_product_value, rr_row_layout. cbn. rewrite H1.
  eapply (pages_read es rt Hrt Hnr Hsize); [exact Hinv|]. by rewrite (proj1 (H6 k val Hk)).
Qed.

(** ** The theorems *)

(** C8. Inserting has set semantics and checks the unique constraints.  In
    every table that was reached through its operations, inserting a value
    either adds a row at a place that was free, and then no row had the value
    and no unique index its key; or reports the row that has the value; or
    the violated constraint, with the index, its columns and the key that
    another row has; or that the table has all its 2^39 pages.  It does not
    panic. *)
Theorem table_insert_correct t pool bs A val :
  table_reach (t, pool, bs) A → insertable A val → room t A val →
  let '(r, (t', pool', bs')) := table_insert (H:=H) val (t, pool, bs) in
  match r with
  | Ok (hash, row) =>
      A !! ptr_key (rr_pointer row) = None ∧ get_row_ref (E:=unit) t' bs' (rr_pointer row) = Ok (Some row) ∧
      rr_to_product_value (E:=unit) row = Ok val ∧ hash = hash_of (H:=H) t val ∧
      (∀ k, A !! k ≠ Some val) ∧ unviolated sq A val (tb_indexes t)
  | Err (Duplicate p) => found A val (Some p)
  | Err (IndexError u) => ∃ i ix, (i, ix) ∈ tb_indexes t ∧ violation_of sq (tb_schema t) A val i ix u
  | Err (Bflatn e) => e = BPagesError TooManyPages ∧ num_pages t = 2 ^ 39
  | Panic | OutOfFuel => False
  end.
Proof using Hrt Hnr Hsize Hcode Hsq LawI FLawI.
  intros Hr (Ht & Hf & Hc) Hroom. pose proof (table_reach_inv _ _ Hr) as Hinv. cbn [fst snd] in Hinv.
  destruct (table_insert_cases es rt Hrt Hnr Hsize Hcode m0 sq Hsq t pool bs A val Hinv Ht Hf Hc Hroom)
    as [(k & t' & pool' & bs' & -> & Hinv' & Hk & Hnew & Hun & _)|[(e & t' & pool' & bs' & -> & He & _)|[-> Hn]]]; [|by destruct e|by split].
  pose proof (lookup_insert_eq A k val) as Hk'. pose proof Hinv' as [Hph Hlog]. cbn [TableRows.row_at_key rr_pointer].
  rewrite (proj1 (ph_keys _ _ _ _ _ _ _ _ Hph k val Hk')). split_and!; try done.
  - unfold get_row_ref. rewrite (phys_present es rt Hrt Hnr Hsize m0 sq t' pool' bs' _ k val (tv_sq _ _ _ _ Hlog) Hph Hk'). cbn [rbind].
    by rewrite (phys_row_ref es rt Hrt Hnr Hsize m0 sq t' pool' bs' _ k val (tv_sq _ _ _ _ Hlog) Hph Hk').
  - by eapply phys_read.
Qed.

(** C13. Deleting a row by its pointer shows the row to the caller first and
    removes it; a pointer to a place without a row deletes nothing.  Deleting
    by value removes the row that has the value, and says if there was one. *)
Theorem table_delete_correct {R} t pool bs A (before : RowRef B → R) :
  table_reach (t, pool, bs) A →
  (∀ ptr, ptr_ok ptr → squashed_offset ptr = sq → row_boundary rt ptr →
     ∃ s, table_delete (H:=H) (E:=unit) ptr before (t, pool, bs) =
       (Ok (option_map (λ _, before (row_at_key t bs (ptr_key ptr))) (A !! ptr_key ptr)), s) ∧
     table_reach s (delete (ptr_key ptr) A)) ∧
  (∀ val, insertable A val →
     let '(r, s) := delete_equal_row (H:=H) val (t, pool, bs) in
     match r with
     | Ok o => found A val o ∧ table_reach s (match o with Some p => delete (ptr_key p) A | None => A end)
     | Err e => e = BPagesError TooManyPages ∧ num_pages t = 2 ^ 39 ∧ s = (t, pool, bs)
     | Panic | OutOfFuel => False
     end).
Proof using Hrt Hnr Hsize Hcode Hsq LawI FLawI.
  intros Hr. pose proof (table_reach_inv _ _ Hr) as Hinv. cbn [fst snd] in Hinv. split.
  - intros ptr Hp Hs Hb. destruct (table_delete_cases (E:=unit) t pool bs A ptr before Hinv Hp Hs Hb) as (r & t' & bs' & He & _ & ->).
    eexists. split; [exact He|]. destruct (table_delete_cases (E:=unit) t pool bs A ptr (λ _, tt) Hinv Hp Hs Hb) as (r & t2 & bs2 & He2 & _ & ->).
    assert (Hsame : (t2, pool, bs2) = (t', pool, bs')).
    { apply (f_equal snd) in He, He2. cbn [snd] in He, He2. rewrite <-He, <-He2. apply table_delete_before. }
    rewrite <-Hsame. by eapply tr_delete.
  - intros val Hv. pose proof Hv as (Ht & Hf & Hc).
    destruct (delete_equal_cases es rt Hrt Hnr Hsize Hcode m0 sq Hsq t pool bs A val Hinv Ht Hf Hc) as [(o & t' & pool' & bs' & He & Ho & _)|[He Hn]];
      rewrite He; [|done]. split; [done|]. pose proof (tr_delete_equal _ _ _ _ _ _ _ Hr Hv He) as Hr'. by destruct o.
Qed.

(** C16. Updating replaces a row of a table with a unique index.  Where the new
    row violates a constraint against the other rows, the error says so, and
    the table is as before. *)
Theorem table_update_correct t pool bs A old val0 val :
  table_reach (t, pool, bs) A → insertable A val → room t A val → ptr_ok old → squashed_offset old = sq →
  A !! ptr_key old = Some val0 → Exists (λ e, ix_is_unique e.2 = true) (tb_indexes t) →
  let '(r, s) := table_update old val (t, pool, bs) in
  match r with
  | Ok p => A !! ptr_key p = None ∧ table_reach s (<[ptr_key p := val]> (delete (ptr_key old) A))
  | Err (Bflatn e) => e = BPagesError TooManyPages ∧ num_pages t = 2 ^ 39 ∧ s = (t, pool, bs)
  | Err e => error_of t (delete (ptr_key old) A) val e ∧ table_reach s A
  | Panic | OutOfFuel => False
  end.
Proof using Hrt Hnr Hsize Hcode Hsq LawI FLawI.
  intros Hr Hv Hroom Hp Hs HA Hex. pose proof (table_reach_inv _ _ Hr) as Hinv. cbn [fst snd] in Hinv.
  destruct (table_update_cases t pool bs A old val0 val Hinv Hv Hroom Hp Hs HA Hex)
    as [(k & t' & pool' & bs' & He & Hk & Hok & _)|[(e & t' & pool' & bs' & He & Herr & _)|[He Hn]]];
    pose proof (tr_update _ _ _ _ _ _ _ _ _ Hr Hv Hroom Hp Hs HA Hex He) as Hr'; rewrite He; [|by destruct e|done].
  cbn in Hr'. by rewrite (proj1 Hok) in *.
Qed.

(** The rows of the entries that were selected in an index. *)
Lemma selected_rows {E} t pool bs A cols (f : AlgebraicValue → bool) l :
  phys (tb_inner t) pool bs A → tb_squashed_offset t = sq → l ≡ₚ select f (row_entries cols A) →
  ∃ ks, row_refs (E:=E) t bs l = Ok (map (row_at_key t bs) ks) ∧ length ks = length l ∧
    NoDup ks ∧ ∀ k, k ∈ ks ↔ ∃ val, A !! k = Some val ∧ f (row_key cols val) = true.
Proof using Hrt Hnr Hsize.
  clear Hsq. intros Hph Hs Hp. set (sel := filter (λ e : (nat * Z) * ProductValue, f (row_key cols e.2) = true) (map_to_list A)).
  assert (Hsel : select f (row_entries cols A) = map (λ e, ptr_of e.1) sel).
  { unfold select, TableRows.row_entries, sel. induction (map_to_list A) as [|e m IH]; [done|]. cbn [map]. rewrite !filter_cons. cbn [fst].
    destruct (decide _); cbn [map snd]; by rewrite IH. }
  rewrite Hsel in Hp. destruct (Permutation_map_inv _ _ Hp) as (sel' & -> & Hp').
  assert (Helem : ∀ k val, (k, val) ∈ sel' ↔ A !! k = Some val ∧ f (row_key cols val) = true).
  { intros k val. rewrite <-Hp'. unfold sel. rewrite list_elem_of_filter, elem_of_map_to_list. cbn. naive_solver. }
  exists (map fst sel'). split_and!.
  - rewrite <-(map_map fst ptr_of). rewrite (row_refs_ok t pool bs A); [done|done|done|].
    apply Forall_forall. intros k Hk. apply list_elem_of_fmap in Hk as ([k' val] & -> & [HA _]%Helem). by apply elem_of_dom_2 in HA.
  - by rewrite !length_map.
  - change (NoDup (fst <$> sel')). rewrite <-Hp'. unfold sel. apply (sublist_NoDup _ (map_to_list A).*1); [apply NoDup_fst_map_to_list|].
    apply fmap_sublist, sublist_filter.
  - intros k. rewrite list_elem_of_fmap. split.
    + intros ([k' val] & -> & Hk%Helem). by exists val.
    + intros (val & Hk). exists (k, val). split; [done|]. by apply Helem.
Qed.

Lemma seek_point_ok {E} t pool bs A i ix v :
  tbl_inv t pool bs A → (i, ix) ∈ tb_indexes t → typed [] (ix_key_type ix) v →
  ∃ ks, table_seek_point (E:=E) t bs ix v = Ok (map (row_at_key t bs) ks) ∧ (ix_is_unique ix = true → (length ks ≤ 1)%nat) ∧
    NoDup ks ∧ ∀ k, k ∈ ks ↔ ∃ val, A !! k = Some val ∧ at_key v (row_key (ix_indexed_columns ix) val) = true.
Proof using Hrt Hnr Hsize FLawI.
  intros [Hph Hlog] Hin Hv. pose proof (tv_indexes _ _ _ _ Hlog) as Hix. rewrite Forall_forall in Hix. destruct (Hix _ Hin) as [Hfor Hrel].
  destruct (ix_point_ok (E:=E) es ix _ v Hfor Hrel Hv) as (l & Hl & Hp & Hu). cbn [snd] in *.
  destruct (selected_rows (E:=E) t pool bs A _ _ l Hph (tv_sq _ _ _ _ Hlog) Hp) as (ks & Hr & Hlen & Hn & Hk). exists ks.
  unfold table_seek_point. rewrite Hl. cbn [rbind]. rewrite Hlen. by split_and!.
Qed.

(** A range of an index that is a tree. *)
Lemma seek_range_ok {E} t pool bs A i ix lo hi :
  tbl_inv t pool bs A → (i, ix) ∈ tb_indexes t → is_direct (ix_idx ix) = false → bad_range lo hi = false →
  bound_all (λ v, typed [] (ix_key_type ix) v ∧ not_max v) lo → bound_all (λ v, typed [] (ix_key_type ix) v ∧ not_max v) hi →
  ∃ ks, table_seek_range (E:=E) t bs ix lo hi = Ok (map (row_at_key t bs) ks) ∧
    NoDup ks ∧ ∀ k, k ∈ ks ↔ ∃ val, A !! k = Some val ∧ in_range lo hi (row_key (ix_indexed_columns ix) val) = true.
Proof using Hrt Hnr Hsize FLawI.
  intros [Hph Hlog] Hin Hd Hbad Hlo Hhi. pose proof (tv_indexes _ _ _ _ Hlog) as Hix. rewrite Forall_forall in Hix. destruct (Hix _ Hin) as [Hfor Hrel].
  cbn [snd] in *. destruct (ix_range_ok (E:=E) es ix _ lo hi Hfor Hrel) as (l & Hl & Hp); try done; [by destruct (ix_idx ix)|]. rewrite Hd in Hp.
  destruct (selected_rows (E:=E) t pool bs A _ _ l Hph (tv_sq _ _ _ _ Hlog) Hp) as (ks & Hr & _ & Hrest). exists ks.
  unfold table_seek_range. rewrite Hl. by split.
Qed.

(** C3. A table is the set of its rows.  A scan gives every row once, with the
    value that was inserted; a pointer gives the row at its place, if there is
    one; no two rows are equal; each index finds exactly the rows with the key
    asked for, at most one if it is unique; the counters count rows and blob
    bytes.  There is a pointer map exactly if there is no unique index. *)
Theorem table_refines_set t pool bs A :
  table_reach (t, pool, bs) A →
  (∃ ks, scan_rows (E:=unit) t bs = Ok (map (row_at_key t bs) ks) ∧ NoDup ks ∧ ∀ k, k ∈ ks ↔ k ∈ dom A) ∧
  (∀ k val, A !! k = Some val → rr_to_product_value (E:=unit) (row_at_key t bs k) = Ok val) ∧
  (∀ ptr, ptr_ok ptr → squashed_offset ptr = sq → row_boundary rt ptr →
     get_row_ref (E:=unit) t bs ptr = Ok (option_map (λ _, row_at_key t bs (ptr_key ptr)) (A !! ptr_key ptr))) ∧
  (∀ k k' val, A !! k = Some val → A !! k' = Some val → k = k') ∧
  (∀ i ix v, (i, ix) ∈ tb_indexes t → typed [] (ix_key_type ix) v →
     ∃ ks, table_seek_point (E:=unit) t bs ix v = Ok (map (row_at_key t bs) ks) ∧ (ix_is_unique ix = true → (length ks ≤ 1)%nat) ∧
       NoDup ks ∧ ∀ k, k ∈ ks ↔ ∃ val, A !! k = Some val ∧ at_key v (row_key (ix_indexed_columns ix) val) = true) ∧
  num_rows t = Z.of_nat (size A) ∧ tb_blob_store_bytes t = large_bytes (map_objects A) ∧
  (tb_pointer_map t = None ↔ Exists (λ e, ix_is_unique e.2 = true) (tb_indexes t)).
Proof using Hrt Hnr Hsize Hcode Hsq LawI FLawI.
  intros Hr. pose proof (table_reach_inv _ _ Hr) as Hinv. cbn [fst snd] in Hinv. pose proof Hinv as [Hph Hlog].
  pose proof Hlog as [I2 I3 I4 I5 I6 I7 I8 I9 I10]. split_and!; try done.
  - by eapply scan_rows_ok.
  - intros k val. by apply (phys_read t pool).
  - intros ptr Hp Hs Hb. unfold get_row_ref. destruct (A !! ptr_key ptr) as [val|] eqn:Hk.
    + pose proof (phys_present es rt Hrt Hnr Hsize m0 sq (E:=unit) t pool bs A _ val I2 Hph Hk) as H1.
      pose proof (phys_row_ref es rt Hrt Hnr Hsize m0 sq (E:=unit) t pool bs A _ val I2 Hph Hk) as H2.
      rewrite (ptr_of_key sq ptr Hp Hs) in H1, H2. rewrite H1. cbn [rbind]. by rewrite H2.
    + by rewrite (phys_absent es rt Hrt Hnr Hsize m0 sq t pool bs A ptr Hph Hb Hk).
  - intros i ix v. by apply (seek_point_ok t pool).
  - unfold finder_ok in I5. split; [intros Hn; by rewrite Hn in I5|]. by apply (finder_pm_none (H:=H) sq t A).
Qed.

Lemma unique_no_clash A ix pool bs t :
  index_ok A ix → ix_is_unique ix = true → clash (ix_indexed_columns ix) A → phys (tb_inner t) pool bs A → False.
Proof using FLawI.
  intros Hix Hu (k & k' & val & val' & Hne & Hk & Hk' & Hat) Hph.
  pose proof (unique_alone es sq A k val ix Hix Hu Hk (ph_typed _ _ _ _ _ _ _ _ Hph k val Hk)) as Hsel.
  assert (Hin : ptr_of k' ∈ select (at_key (row_key (ix_indexed_columns ix) val)) (row_entries (ix_indexed_columns ix) (delete k A))).
  { apply select_key. exists k', val'. by rewrite lookup_delete_ne. }
  rewrite Hsel in Hin. by apply elem_of_nil in Hin.
Qed.

(** C17. Indexes come and go.  Inserting a new index puts all rows of the table in
    it; it panics exactly if the index is unique and two rows have the same
    key.  Deleting an index returns it with its schema, and the pointer map is
    rebuilt with the last unique index. *)
Theorem table_indexes_correct t pool bs A :
  table_reach (t, pool, bs) A → Z.of_nat (size A) ≤ 2 ^ 32 →
  (∀ algo is_unique i ix, algo_ok algo → new_index t algo is_unique = Ok ix → i ∉ map fst (tb_indexes t) → described (tb_schema t) (i, ix) →
     total_bytes (ix_idx ix) (row_entries (ix_indexed_columns ix) A) ≤ u64_MAX →
     (∃ s ix', insert_index (E:=unit) i ix (t, pool, bs) = (Ok tt, s) ∧ table_reach s A ∧ tb_indexes s.1.1 = bt_insert (tb_indexes t) i ix' ∧
        ix_shape ix' = ix_shape ix ∧ ¬ (is_unique = true ∧ clash (ix_indexed_columns ix) A)) ∨
     insert_index (E:=unit) i ix (t, pool, bs) = (Panic, (t, pool, bs)) ∧ is_unique = true ∧ clash (ix_indexed_columns ix) A) ∧
  (∀ i, match bt_get (tb_indexes t) i with
        | None => delete_index (H:=H) (E:=unit) i None (t, pool, bs) = (Ok None, (t, pool, bs))
        | Some ix => ∃ s schema, delete_index (H:=H) (E:=unit) i None (t, pool, bs) = (Ok (Some (ix, schema)), s) ∧ is_index_id schema = i ∧
            table_reach s A ∧ tb_indexes s.1.1 = bt_remove (tb_indexes t) i
        end).
Proof using Hrt Hnr Hsize Hcode Hsq LawI FLawI.
  intros Hr Hn. pose proof (table_reach_inv _ _ Hr) as Hinv. cbn [fst snd] in Hinv. split.
  - intros algo is_unique i ix Ha Hix Hi Hdesc Hb. pose proof Hix as Hnew. unfold new_index in Hnew. rewrite (tv_row_type _ _ _ _ (proj2 Hinv)) in Hnew.
    destruct (table_index_new_ok es algo is_unique ix Ha Hnew) as (Hfor & Hrel & <-).
    assert (Hn' : Z.of_nat (size A) ≤ u64_MAX) by (etrans; [exact Hn|done]).
    destruct (insert_index_ok (E:=unit) t pool bs A i ix Hinv Hfor Hrel Hi Hdesc Hn' Hb) as [(t' & ix' & He & Hinv' & Hl & Hsh)|(He & Hu & Hc)]; [left|by right].
    exists (t', pool, bs), ix'. split_and!; [done|by eapply tr_insert_index|done|done|]. intros [Hu Hc].
    destruct (same_index_columns (i, ix) (i, ix')) as [Hcols Huq]; [by split|]. cbn [snd] in *.
    destruct (insert_sorted (tb_indexes t) i ix' (tv_sorted _ _ _ _ (proj2 Hinv)) Hi) as (l1 & l2 & _ & Hins & _).
    pose proof (tv_indexes _ _ _ _ (proj2 Hinv')) as Hall. rewrite Hl, Hins in Hall. apply Forall_app in Hall as [_ [Hok _]%Forall_cons].
    apply (unique_no_clash A ix' pool bs t); [done|by rewrite Huq|by rewrite Hcols|apply Hinv].
  - intros i. destruct (bt_get (tb_indexes t) i) as [ix|] eqn:Hg; [|unfold delete_index; by rewrite Hg].
    destruct (delete_index_ok (E:=unit) t pool bs A i ix None Hinv Hg Hn ltac:(done)) as (t' & schema & He & _ & Hid & _ & Hl).
    exists (t', pool, bs), schema. split_and!; [done|done|by eapply tr_delete_index|done].
Qed.

(** C25. A table can be restored from its pages.  The new table has the same rows,
    and counters and the pointer map are those that a scan gives, provided
    there are less than 2^31 rows. *)
Theorem table_restore_correct schema t0 t pool bs A :
  table_reach (t, pool, bs) A → Z.of_nat (size A) < 2 ^ 31 → table_new (E:=unit) schema sq = Ok t0 → sch_row_type schema = es →
  ∃ t', set_pages (H:=H) (E:=PagesError) t0 (pages (ti_pages (tb_inner t))) bs = Ok t' ∧ table_reach (t', pool, bs) A ∧
    num_rows t' = num_rows t ∧ tb_blob_store_bytes t' = tb_blob_store_bytes t ∧ is_Some (tb_pointer_map t').
Proof using Hrt Hnr Hsize Hcode Hsq LawI FLawI.
  intros Hr Hn Hnew Hes. pose proof (table_reach_inv _ _ Hr) as Hinv. cbn [fst snd] in Hinv.
  destruct (set_pages_ok schema t0 t pool bs A Hnew Hes Hinv Hn) as (t' & He & Hinv'). exists t'. split; [exact He|].
  split; [by eapply tr_restore|]. destruct Hinv as [_ [_ _ _ _ _ R1 R2 _ _]], Hinv' as [_ [_ _ _ _ _ R1' R2' _ _]].
  unfold num_rows. split_and!; [congruence..|]. unfold set_pages in He.
  repeat match type of He with context [rbind ?m _] => destruct m; [|done..]; cbn [rbind] in He end. by injection He as <-.
Qed.

(** The rows that a constraint is checked against. *)
Definition holds_key A (val : ProductValue) (ix : TableIndex) k : Prop :=
  ix_is_unique ix = true ∧ ∃ val', A !! k = Some val' ∧
    at_key (row_key (ix_indexed_columns ix) val) (row_key (ix_indexed_columns ix) val') = true.

Lemma check_constraints_ok {E} m1 t pool bs A row val deleted is_deleted l :
  tbl_inv t pool bs A → (∀ k val', A !! k = Some val' → deleted (ptr_of k) = Ok (is_deleted (ptr_of k))) → refers rt m1 row val → typed [] (TProduct es) (VProduct val) →
  Forall (λ e, index_ok A e.2) l → Forall (described (tb_schema t)) l →
  ∃ o, check_unique_constraints (E:=E) t row l deleted = Ok o ∧
    match o with
    | None => ∀ i ix k, (i, ix) ∈ l → holds_key A val ix k → is_deleted (ptr_of k) = true
    | Some u => ∃ i ix k schema, (i, ix) ∈ l ∧ holds_key A val ix k ∧ is_deleted (ptr_of k) = false ∧
        ucv_value u = row_key (ix_indexed_columns ix) val ∧
        schema ∈ sch_indexes (tb_schema t) ∧ is_index_id schema = i ∧ ucv_constraint_name u = is_index_name schema
    end.
Proof using Hrt Hnr Hsize LawI FLawI.
  intros Hinv Hdel Hrow Ht Hix Hd. induction Hix as [|[i ix] l [Hfor Hrel] _ IH]; [exists None; split; [done|]; by intros ? ? ? ?%elem_of_nil|].
  apply Forall_cons in Hd as [Hd1 Hd]. destruct (IH Hd) as (o & Ho & Hspec). cbn [check_unique_constraints snd] in *.
  assert (Hnext : (∀ k, holds_key A val ix k → is_deleted (ptr_of k) = true) → match o with
    | None => ∀ i' ix' k, (i', ix') ∈ (i, ix) :: l → holds_key A val ix' k → is_deleted (ptr_of k) = true
    | Some u => ∃ i' ix' k schema, (i', ix') ∈ (i, ix) :: l ∧ holds_key A val ix' k ∧ is_deleted (ptr_of k) = false ∧
        ucv_value u = row_key (ix_indexed_columns ix') val ∧
        schema ∈ sch_indexes (tb_schema t) ∧ is_index_id schema = i' ∧ ucv_constraint_name u = is_index_name schema end).
  { intros Hk. destruct o as [u|].
    - destruct Hspec as (i' & ix' & k & schema & Hin & Hs). exists i', ix', k, schema. split; [by right|done].
    - intros i' ix' k [[= -> ->]|Hin]%elem_of_cons; [apply Hk|by apply (Hspec i')]. }
  destruct (ix_is_unique ix) eqn:Hu; [|exists o; split; [done|]; apply Hnext; intros k [Hk _]; congruence].
  destruct (row_key_typed es ix val Hfor Ht) as [Hp Hty]. destruct val as [vals].
  destruct (project_unchecked_ok es rt Hrt Hnr Hsize m1 (E:=E) row vals (ix_indexed_columns ix) Hrow) as (v & Hv & ->).
  { eapply project_range; [apply Hfor|exact Hp]. }
  rewrite Hp in Hv. injection Hv as <-. cbn [rbind]. destruct (ix_point_ok (E:=E) es ix _ _ Hfor Hrel Hty) as (ptrs & -> & Hptrs & Hlen). cbn [rbind].
  specialize (Hlen Hu). assert (Hel : ∀ p, p ∈ ptrs ↔ ∃ k, holds_key A (MkProductValue vals) ix k ∧ p = ptr_of k).
  { intros p. rewrite Hptrs, select_key. unfold holds_key. naive_solver. }
  destruct ptrs as [|p [|p' ptrs]]; [|clear Hlen|cbn in Hlen; lia].
  { exists o. split; [done|]. apply Hnext. intros k Hk. destruct (proj1 (elem_of_nil (ptr_of k))). apply Hel. by exists k. }
  destruct (proj1 (Hel p) ltac:(by left)) as (k & Hk & ->). destruct Hk as [Hk1 (val' & HA & Hk2)] eqn:He. clear He.
  rewrite (Hdel k val' HA). cbn [rbind]. destruct (is_deleted (ptr_of k)) eqn:Hdk; cbn [negb].
  - exists o. split; [done|]. apply Hnext. intros k' Hk'. assert (Hkk : ptr_of k' ∈ [ptr_of k]) by (apply Hel; by exists k').
    apply list_elem_of_singleton in Hkk as ->. done.
  - destruct (build_error_ok (E:=E) t i ix (row_key (ix_indexed_columns ix) (MkProductValue vals)) Hd1) as (schema & u & -> & S1 & S2 & S3 & _ & S4 & _).
    cbn [rbind]. exists (Some u). split; [done|]. exists i, ix, k, schema. split_and!; try done. by left.
Qed.

(** C31. Checking the constraints of a table for a row of another one: there is an
    error exactly if a unique index has the key of the row for one that is not
    to be ignored, and it names the index and the key. *)
Theorem check_constraints_correct m1 t pool bs A row val is_deleted :
  table_reach (t, pool, bs) A → refers rt m1 row val → typed [] (TProduct es) (VProduct val) →
  ∃ o, check_unique_constraints (E:=unit) t row (tb_indexes t) (λ p, Ok (is_deleted p)) = Ok o ∧
    match o with
    | None => ∀ i ix k, (i, ix) ∈ tb_indexes t → holds_key A val ix k → is_deleted (ptr_of k) = true
    | Some u => ∃ i ix k schema, (i, ix) ∈ tb_indexes t ∧ holds_key A val ix k ∧ is_deleted (ptr_of k) = false ∧
        ucv_value u = row_key (ix_indexed_columns ix) val ∧
        schema ∈ sch_indexes (tb_schema t) ∧ is_index_id schema = i ∧ ucv_constraint_name u = is_index_name schema
    end.
Proof using Hrt Hnr Hsize Hcode Hsq LawI FLawI.
  intros Hr Hrow Ht. pose proof (table_reach_inv _ _ Hr) as Hinv. cbn [fst snd] in Hinv.
  apply (check_constraints_ok m1 t pool bs A); try done; apply Hinv.
Qed.

(** The counter of a restored table is an [i32]. *)
Lemma count_rows_overflow {E} (rows : list (RowRef B)) b :
  (∀ r, r ∈ rows → ∃ n, rr_blob_store_bytes (E:=E) r = Ok n) → 2 ^ 31 ≤ len rows → count_rows (E:=E) rows 0 b = Panic.
Proof using.
  clear. intros Hb Hl. assert (Hgen : ∀ c b, 0 ≤ c → c < 2 ^ 31 → 2 ^ 31 ≤ c + len rows → count_rows (E:=E) rows c b = Panic); [|apply Hgen; lia].
  clear Hl b. unfold len. induction rows as [|r rows IH]; intros c b Hc Hlt Hl; cbn [length count_rows] in *; [lia|].
  destruct (Hb r ltac:(by left)) as [n Hn]. unfold add_u. destruct (Z.ltb_spec (c + 1) (2 ^ 31)); [|done]. cbn [rbind]. rewrite Hn. cbn [rbind].
  apply IH; [|lia..]. intros r' Hr'. apply Hb. by right.
Qed.
End tables.

Module Examples.
#[local] Existing Instances BlobStore.Examples.last32_hash ValueOrd.Examples.bits_ord ValueOrd.Examples.bits_ord_laws.
#[local] Existing Instances PagesThm.Examples.list_queue PagesThm.Examples.list_queue_laws RowHash.Examples.transcript_rows.
Import PagesThm.Examples.

Local Abbreviation H := (list byte) (only parsing).
Local Abbreviation reach := (table_reach (H:=H) es rt ∅ COMMITTED_STATE) (only parsing).
Local Abbreviation laws f := (f es rt BflatnThm.Examples.rt_row eq_refl es_size BflatnThm.Examples.rt_code ∅ COMMITTED_STATE committed_in_u) (only parsing).

(** A table of numbers, names and payloads with a unique index on the number. *)
Definition schema : TableSchema := {|
  sch_table_name := "users"; sch_columns := ["id"; "name"; "payload"]%string;
  sch_indexes := [{| is_index_id := 1; is_index_name := "by_id" |}];
  sch_constraints := []; sch_sequences := []; sch_table_access := Public; sch_schedule := false; sch_row_type := es;
|}.
Definition empty : Table :=
  table_new_raw schema rt None (row_type_visitor rt) COMMITTED_STATE (Some pm_default).
Definition users : Table := with_pointer_map (with_indexes empty [(1, TableIndex.Examples.by_id)]) None.
Local Abbreviation pool0 := (pool_new ([] : list Page)) (only parsing).
Local Abbreviation store := (∅ : HashMapBlobStore) (only parsing).

Lemma empty_new : table_new (E:=unit) schema COMMITTED_STATE = Ok empty.
Proof. vm_compute. reflexivity. Qed.
Lemma empty_reach : reach (empty, pool0, store) ∅.
Proof. eapply tr_new; [exact empty_new|done|constructor|by split]. Qed.

Lemma by_id_described : described schema (1, TableIndex.Examples.by_id).
Proof. split; [by constructor|]. vm_compute. constructor; [by eexists|constructor]. Qed.

Lemma by_id_inserted : insert_index (E:=unit) 1 TableIndex.Examples.by_id (empty, pool0, store) = (Ok tt, (users, pool0, store)).
Proof. vm_compute. reflexivity. Qed.
Lemma users_reach : reach (users, pool0, store) ∅.
Proof.
  eapply (tr_insert_index _ _ _ _ empty pool0 store ∅ (BTree (Inline 3)) true 1 TableIndex.Examples.by_id); [exact empty_reach| |reflexivity| |exact by_id_described| | |exact by_id_inserted].
  - split; [vm_compute; split; [discriminate|reflexivity]|reflexivity].
  - cbn. by intros ?%elem_of_nil.
  - vm_compute. discriminate.
  - vm_compute. discriminate.
Qed.

Lemma val_insertable : insertable es rt ∅ ∅ val.
Proof. split; [exact BflatnThm.Examples.val_typed|]. split; [vm_compute; discriminate|exact no_collision]. Qed.
Lemma users_room : room COMMITTED_STATE users ∅ val.
Proof. split; [done|]. split; [reflexivity|]. constructor; [vm_compute; discriminate|constructor]. Qed.

Lemma users_index : Exists (λ e : Z * TableIndex, ix_is_unique e.2 = true) (tb_indexes users).
Proof. by constructor. Qed.

(** The first row of the table, and the index with it. *)
Definition out := table_insert (H:=H) val (users, pool0, store).
Definition stored : TableIndex := {|
  ix_idx := UniqueBtree (KInt U32) [(7, 72057594037927936)]; ix_key_type := TInt U32; ix_num_rows := 1; ix_num_key_bytes := 4;
  ix_indexed_columns := Inline 3;
|}.
Definition place : nat * Z := (0%nat, 0).
Lemma out_index :
  (tb_indexes out.2.1.1, tb_pointer_map out.2.1.1, num_pages out.2.1.1, match out.1 with Ok (_, row) => rr_pointer row | _ => 0 end) =
  ([(1, stored)], None, 1, 72057594037927936).
Proof. vm_compute. reflexivity. Qed.

Lemma first_row : ∃ t pool bs, table_insert (H:=H) val (users, pool0, store) = (Ok (None, row_at_key COMMITTED_STATE t bs place), (t, pool, bs)) ∧
  reach (t, pool, bs) {[place := val]} ∧ tb_indexes t = [(1, stored)] ∧ tb_pointer_map t = None ∧ num_pages t = 1.
Proof.
  destruct (laws table_insert_cases users pool0 store ∅ val) as [(k & t & pool & bs & Hi & Hinv & _)|[(e & t & pool & bs & _ & He & _)|[_ Hn]]].
  - apply (laws table_reach_inv _ _ users_reach).
  - apply val_insertable.
  - apply val_insertable.
  - apply val_insertable.
  - exact users_room.
  - pose proof (ph_keys _ _ _ _ _ _ _ _ (proj1 Hinv) k val (lookup_insert_eq _ _ _)) as Hk.
    pose proof out_index as Ho. unfold out in Ho. rewrite Hi in Ho. injection Ho as Hix Hpm Hpg Hptr. cbn [row_at_key rr_pointer] in Hptr.
    assert (k = place) as -> by (rewrite <-(proj1 Hk), Hptr; reflexivity).
    exists t, pool, bs. split; [exact Hi|]. split; [|split; [exact Hix|split; [exact Hpm|exact Hpg]]].
    pose proof (tr_insert _ _ _ _ _ _ _ _ _ _ _ users_reach val_insertable users_room Hi) as Hr. cbn [after_insert row_at_key rr_pointer] in Hr.
    rewrite (proj1 Hk) in Hr. exact Hr.
  - exfalso. destruct e as [p| |u]; [destruct He as (k & Hk & _)|destruct He|destruct He as (i & ix & _ & _ & _ & _ & (k & v & Hk & _) & _)];
      rewrite lookup_empty in Hk; discriminate Hk.
  - discriminate Hn.
Qed.

Lemma val_insertable_again : insertable es rt ∅ {[place := val]} val.
Proof.
  split; [exact BflatnThm.Examples.val_typed|]. split; [vm_compute; discriminate|].
  change (large (product_objects val)) with (∅ : gmultiset (list byte)). unfold map_objects. rewrite map_to_list_singleton.
  change (large _) with (∅ : gmultiset (list byte)). intros b b' Hb. exfalso. multiset_solver.
Qed.
Lemma room_again t : tb_indexes t = [(1, stored)] → tb_pointer_map t = None → room COMMITTED_STATE t {[place := val]} val.
Proof.
  intros Hix Hpm. split; [intros pm; by rewrite Hpm|]. split; [by rewrite map_size_singleton|]. rewrite Hix. constructor; [|constructor].
  unfold index_room, row_entries. rewrite map_to_list_singleton. vm_compute. discriminate.
Qed.
Lemma place_ok : ptr_ok 72057594037927936 ∧ squashed_offset 72057594037927936 = COMMITTED_STATE ∧ row_boundary rt 72057594037927936.
Proof. vm_compute. split_and!; (done || discriminate). Qed.

(** A row is inserted into the table. *)
Lemma table_insert_correct_witness :
  ∃ row t pool bs, table_insert (H:=H) val (users, pool0, store) = (Ok (None, row), (t, pool, bs)) ∧
    rr_to_product_value (E:=unit) row = Ok val ∧ get_row_ref (E:=unit) t bs (rr_pointer row) = Ok (Some row).
Proof.
  destruct first_row as (t & pool & bs & Hi & _ & _).
  pose proof (laws table_insert_correct users pool0 store ∅ val users_reach val_insertable users_room) as Hc. rewrite Hi in Hc.
  destruct Hc as (_ & Hg & Hrd & _). exists (row_at_key COMMITTED_STATE t bs place), t, pool, bs. split; [exact Hi|]. split; [exact Hrd|exact Hg].
Defined.

(** It is found by a scan and by its number. *)
Lemma table_refines_set_witness :
  ∃ t pool bs, table_insert (H:=H) val (users, pool0, store) = (Ok (None, row_at_key COMMITTED_STATE t bs place), (t, pool, bs)) ∧
    num_rows t = 1 ∧ rr_to_product_value (E:=unit) (row_at_key COMMITTED_STATE t bs place) = Ok val ∧
    ∃ ks, table_seek_point (E:=unit) t bs stored (VInt U32 7) = Ok (map (row_at_key COMMITTED_STATE t bs) ks) ∧ place ∈ ks.
Proof.
  destruct first_row as (t & pool & bs & Hi & Hr & Hix & _).
  destruct (laws table_refines_set t pool bs _ Hr) as (_ & Hrd & _ & _ & Hseek & Hn & _).
  destruct (Hseek 1 stored (VInt U32 7)) as (ks & Hks & _ & _ & Hel).
  { rewrite Hix. by left. }
  { exact TableIndex.Examples.id_typed. }
  exists t, pool, bs. split; [exact Hi|]. split; [rewrite Hn, map_size_singleton; reflexivity|].
  split; [apply Hrd, lookup_singleton_eq|]. exists ks. split; [exact Hks|]. apply Hel. exists val. split; [apply lookup_singleton_eq|reflexivity].
Defined.

(** It is deleted by its pointer and by its value. *)
Lemma table_delete_correct_witness :
  ∃ t pool bs, table_insert (H:=H) val (users, pool0, store) = (Ok (None, row_at_key COMMITTED_STATE t bs place), (t, pool, bs)) ∧
    (∃ s, table_delete (H:=H) (E:=unit) 72057594037927936 rr_pointer (t, pool, bs) = (Ok (Some 72057594037927936), s) ∧ reach s ∅) ∧
    ∃ s, (delete_equal_row (H:=H) val (t, pool, bs)).2 = s ∧ reach s ∅.
Proof.
  destruct first_row as (t & pool & bs & Hi & Hr & Hix & _ & Hpg). exists t, pool, bs. split; [exact Hi|].
  destruct (laws table_delete_correct t pool bs _ rr_pointer Hr) as [Hd He]. destruct place_ok as (P1 & P2 & P3). split.
  - destruct (Hd 72057594037927936 P1 P2 P3) as (s & Hs & Hrs). exists s.
    change (ptr_key 72057594037927936) with place in *. rewrite lookup_singleton_eq in Hs. rewrite delete_singleton_eq in Hrs.
    split; [exact Hs|exact Hrs].
  - specialize (He val val_insertable_again). destruct (delete_equal_row val (t, pool, bs)) as [[o|e| |] s]; [|destruct He as (_ & Hn & _)|destruct He..].
    + destruct He as [Ho Hrs]. exists s. split; [reflexivity|]. destruct o as [p|]; [|destruct (Ho place); apply lookup_singleton_eq].
      destruct Ho as (k & [<- _]%lookup_singleton_Some & ->). change (ptr_key (ptr_of COMMITTED_STATE place)) with place in Hrs.
      rewrite delete_singleton_eq in Hrs. exact Hrs.
    + exfalso. rewrite Hpg in Hn. discriminate Hn.
Defined.

(** It is replaced by a row with the same number. *)
Lemma table_update_correct_witness :
  ∃ t pool bs, table_insert (H:=H) val (users, pool0, store) = (Ok (None, row_at_key COMMITTED_STATE t bs place), (t, pool, bs)) ∧
    ∃ p s, table_update (H:=H) 72057594037927936 val (t, pool, bs) = (Ok p, s) ∧ reach s {[ptr_key p := val]}.
Proof.
  destruct first_row as (t & pool & bs & Hi & Hr & Hix & Hpm & Hpg). exists t, pool, bs. split; [exact Hi|].
  destruct place_ok as (P1 & P2 & _).
  pose proof (laws table_update_correct t pool bs _ 72057594037927936 val val Hr val_insertable_again (room_again t Hix Hpm) P1 P2) as Hu.
  change (ptr_key 72057594037927936) with place in Hu. specialize (Hu (lookup_singleton_eq _ _)). rewrite delete_singleton_eq in Hu.
  rewrite Hix in Hu. specialize (Hu ltac:(by constructor)).
  destruct (table_update 72057594037927936 val (t, pool, bs)) as [[p|e| |] s]; [|exfalso|destruct Hu..].
  - exists p, s. split; [reflexivity|]. apply Hu.
  - destruct e as [p|e|u].
    + destruct Hu as [(k & Hk & _) _]. rewrite lookup_empty in Hk. discriminate Hk.
    + destruct Hu as (_ & Hn & _). rewrite Hpg in Hn. discriminate Hn.
    + destruct Hu as [(i & ix & _ & _ & _ & _ & (k & v & Hk & _) & _) _]. rewrite lookup_empty in Hk. discriminate Hk.
Defined.

(** The index is dropped, and the table has a pointer map again. *)
Lemma table_indexes_correct_witness :
  ∃ t pool bs s schema, table_insert (H:=H) val (users, pool0, store) = (Ok (None, row_at_key COMMITTED_STATE t bs place), (t, pool, bs)) ∧
    delete_index (H:=H) (E:=unit) 1 None (t, pool, bs) = (Ok (Some (stored, schema)), s) ∧ reach s {[place := val]} ∧ tb_indexes s.1.1 = [].
Proof.
  destruct first_row as (t & pool & bs & Hi & Hr & Hix & _).
  destruct (laws table_indexes_correct t pool bs _ Hr) as [_ Hd]; [rewrite map_size_singleton; discriminate|].
  specialize (Hd 1). rewrite Hix in Hd. destruct Hd as (s & sch & Hd & _ & Hrs & Hl). exists t, pool, bs, s, sch.
  split; [exact Hi|]. split; [exact Hd|]. split; [exact Hrs|exact Hl].
Defined.

(** The table is restored from its page, without its index. *)
Lemma table_restore_correct_witness :
  ∃ t pool bs t', table_insert (H:=H) val (users, pool0, store) = (Ok (None, row_at_key COMMITTED_STATE t bs place), (t, pool, bs)) ∧
    set_pages (H:=H) (E:=PagesError) empty (pages (ti_pages (tb_inner t))) bs = Ok t' ∧ num_rows t' = num_rows t.
Proof.
  destruct first_row as (t & pool & bs & Hi & Hr & _).
  destruct (laws table_restore_correct schema empty t pool bs _ Hr) as (t' & Hs & _ & Hn & _); [rewrite map_size_singleton; reflexivity|exact empty_new|reflexivity|].
  exists t, pool, bs, t'. split; [exact Hi|]. split; [exact Hs|exact Hn].
Defined.

(** The row itself has its number, unless it is to be ignored. *)
Lemma check_constraints_correct_witness :
  ∃ t pool bs, table_insert (H:=H) val (users, pool0, store) = (Ok (None, row_at_key COMMITTED_STATE t bs place), (t, pool, bs)) ∧
    ∃ u, check_unique_constraints (E:=unit) t (row_at_key COMMITTED_STATE t bs place) (tb_indexes t) (λ _, Ok false) = Ok (Some u) ∧
      ucv_value u = VInt U32 7.
Proof.
  destruct first_row as (t & pool & bs & Hi & Hr & Hix & _). exists t, pool, bs. split; [exact Hi|].
  assert (Hrow : refers rt ∅ (row_at_key COMMITTED_STATE t bs place) val).
  { pose proof (laws table_reach_inv _ _ Hr) as [Hph _]. eapply phys_refers; [exact Hph|apply lookup_singleton_eq]. }
  destruct (laws check_constraints_correct ∅ t pool bs _ _ val (λ _, false) Hr Hrow BflatnThm.Examples.val_typed) as (o & Ho & Hs).
  destruct o as [u|].
  - exists u. split; [exact Ho|]. destruct Hs as (i & ix & k & sch & Hin & _ & _ & Hv & _). rewrite Hv. rewrite Hix in Hin.
    apply list_elem_of_singleton in Hin. injection Hin as _ ->. reflexivity.
  - exfalso. discriminate (Hs 1 stored place). { rewrite Hix. by left. } split; [reflexivity|]. exists val. split; [apply lookup_singleton_eq|reflexivity].
Defined.

(** A row that the table already has is reported as a violation of its unique
    index, and not as a duplicate, when the table is in the committed state. *)
Definition out_again : result InsertError (option Z * RowRef HashMapBlobStore) := (table_insert (H:=H) val out.2).1.
Lemma committed_duplicate_is_violation :
  match out_again with Err (IndexError u) => ucv_constraint_name u = "by_id"%string ∧ ucv_value u = VInt U32 7 | _ => False end.
Proof. vm_compute. split; reflexivity. Qed.
End Examples.
