(* ===== verification/DeleteTable.v ===== *)
(** * Deleted rows (crates/core/src/db/datastore/locking_tx_datastore/delete_table.rs)

    A transaction marks the committed rows that it deletes in a delete table:
    for each page that has one, a bit per row.  The table is a set of places
    in pages. *)

From Stdlib Require Import ZArith Lia.
From stdpp Require Import sorting gmap list.
From S2P Require Import Prelude Mem Indexes BitSet PagesThm TableRows.
Local Open Scope Z_scope.
Local Open Scope result_scope.

(** ** [DeleteTable] *)

Record DeleteTable := { dt_deleted : list (option FixedBitSet); dt_len : Z; dt_fixed_row_size : Z }.

(** [DeleteTable::new]. *)
Definition delete_table_new (fixed_row_size : Z) : DeleteTable :=
  {| dt_deleted := []; dt_len := 0; dt_fixed_row_size := fixed_row_size |}.

Definition dt_contains {E} (dt : DeleteTable) (ptr : Z) : result E bool :=
  match dt_deleted dt !! Z.to_nat (page_index ptr) with
  | Some (Some set) => let* idx := offset_div (page_offset ptr) (dt_fixed_row_size dt) in bitset_get set idx
  | _ => Ok false
  end.

(** The closure [new_set] of [insert]. *)
Definition new_set {E} (fixed_row_size bitset_idx : Z) : result E FixedBitSet :=
  let* bs := bitset_new (max_rows_in_page fixed_row_size) in
  bitset_set bs bitset_idx true.

(** The table with other sets and another count. *)
Definition with_deleted (dt : DeleteTable) (deleted : list (option FixedBitSet)) (n : Z) : DeleteTable :=
  {| dt_deleted := deleted; dt_len := n; dt_fixed_row_size := dt_fixed_row_size dt |}.

Definition dt_insert {E} (ptr : Z) (dt : DeleteTable) : result E (bool * DeleteTable) :=
  let fixed_row_size := dt_fixed_row_size dt in
  let page_idx := Z.to_nat (page_index ptr) in
  let* bitset_idx := offset_div (page_offset ptr) fixed_row_size in
  match dt_deleted dt !! page_idx with
  | Some (Some set) =>
      let* present := bitset_get set bitset_idx in
      let added := negb present in
      let* set := bitset_set set bitset_idx true in
      let* n := if added then add_u 64 (dt_len dt) 1 else Ok (dt_len dt) in
      Ok (added, with_deleted dt (<[page_idx := Some set]> (dt_deleted dt)) n)
  | Some None =>
      let* set := new_set fixed_row_size bitset_idx in
      let* n := add_u 64 (dt_len dt) 1 in
      Ok (true, with_deleted dt (<[page_idx := Some set]> (dt_deleted dt)) n)
  | None =>
      let pages := length (dt_deleted dt) in
      let* set := new_set fixed_row_size bitset_idx in
      let* n := add_u 64 (dt_len dt) 1 in
      Ok (true, with_deleted dt (dt_deleted dt ++ replicate (page_idx - pages) None ++ [Some set]) n)
  end.

Definition dt_remove {E} (ptr : Z) (dt : DeleteTable) : result E (bool * DeleteTable) :=
  let fixed_row_size := dt_fixed_row_size dt in
  let page_idx := Z.to_nat (page_index ptr) in
  let* bitset_idx := offset_div (page_offset ptr) fixed_row_size in
  match dt_deleted dt !! page_idx with
  | Some (Some set) =>
      let* removed := bitset_get set bitset_idx in
      let* n := if removed : bool then sub_u (dt_len dt) 1 else Ok (dt_len dt) in
      let* set := bitset_set set bitset_idx false in
      Ok (removed, with_deleted dt (<[page_idx := Some set]> (dt_deleted dt)) n)
  | _ => Ok (false, dt)
  end.

(** [iter], collected: the pointers of one page, and of the pages from [pi] on. *)
Fixpoint deleted_in_page {E} (fixed_row_size pi : Z) (idxs : list Z) : result E (list Z) :=
  match idxs with
  | [] => Ok []
  | idx :: idxs =>
      let* po := mul_u 16 (wrap_u 16 idx) fixed_row_size in
      let* rest := deleted_in_page fixed_row_size pi idxs in
      Ok (RowPointer_new false pi po COMMITTED_STATE :: rest)
  end.
Fixpoint deleted_from {E} (fixed_row_size pi : Z) (deleted : list (option FixedBitSet)) : result E (list Z) :=
  match deleted with
  | [] => Ok []
  | None :: deleted => deleted_from fixed_row_size (pi + 1) deleted
  | Some set :: deleted =>
      let* idxs := iter_set_collect (S (Z.to_nat (bitset_bits set))) (iter_set set) in
      let* ptrs := deleted_in_page fixed_row_size pi idxs in
      let* rest := deleted_from fixed_row_size (pi + 1) deleted in
      Ok (ptrs ++ rest)
  end.
Definition dt_iter {E} (dt : DeleteTable) : result E (list Z) :=
  deleted_from (dt_fixed_row_size dt) 0 (dt_deleted dt).

Definition dt_is_empty (dt : DeleteTable) : bool := dt_len dt =? 0.

(** ** The set of places *)

Section delete_table.
Context (rs : Z) (Hrs : 2 ≤ rs ≤ PAGE_END).
Implicit Types (dt : DeleteTable) (D : gset (nat * Z)) (k : nat * Z).

(** A place where a row of the table starts. *)
Definition slot_ok k : Prop := Z.of_nat k.1 < 2 ^ 39 ∧ 0 ≤ k.2 < PAGE_END ∧ k.2 mod rs = 0.

(** A pointer to such a place. *)
Definition slot_ptr (ptr : Z) : Prop := slot_ok (ptr_key ptr).

(** The bit of a row. *)
Definition bit_at dt (i : nat) (idx : Z) : bool :=
  match dt_deleted dt !! i with Some (Some set) => bit set idx | _ => false end.

(** A set for the rows of a page. *)
Definition page_set (set : FixedBitSet) : Prop := blocks_ok set ∧ len set = blocks_for_bits (max_rows_in_page rs).

(** The table marks exactly the places [D]. *)
Record dt_rep dt D : Prop := {
  dr_size : dt_fixed_row_size dt = rs;
  dr_sets : ∀ i set, dt_deleted dt !! i = Some (Some set) → page_set set;
  dr_bits : ∀ i idx, 0 ≤ idx → bit_at dt i idx = true ↔ (i, idx * rs) ∈ D;
  dr_slots : ∀ k, k ∈ D → slot_ok k;
  dr_len : dt_len dt = Z.of_nat (size D);
}.

Lemma slot_offset k : slot_ok k → k.2 = (k.2 / rs) * rs ∧ 0 ≤ k.2 / rs < max_rows_in_page rs.
Proof using Hrs.
  intros (_ & Hk & Hm). pose proof (Z.div_mod k.2 rs ltac:(lia)). split; [lia|]. split; [apply Z.div_pos; lia|].
  unfold max_rows_in_page, div_ceil. pose proof (Z.div_mod (PAGE_END + rs - 1) rs ltac:(lia)).
  pose proof (Z.mod_pos_bound (PAGE_END + rs - 1) rs ltac:(lia)). nia.
Qed.

Lemma slot_key_ok k : slot_ok k → key_ok COMMITTED_STATE k.
Proof using.
  intros (H1 & H2 & _). rewrite PAGE_END_val in H2. unfold key_ok, ptr_of, ptr_key, PointerMap.ptr_ok.
  assert (in_u 39 (Z.of_nat k.1)) by (unfold in_u; lia). assert (in_u 16 k.2) by (unfold in_u; lia).
  assert (in_u 8 COMMITTED_STATE) by (unfold in_u, COMMITTED_STATE; lia).
  rewrite page_index_new, page_offset_new, squashed_offset_new by done. split_and!; [by rewrite Nat2Z.id; destruct k|done|..].
  - by apply RowPointer_new_range.
  - apply reserved_bit_new.
Qed.

(** There are fewer places than a counter can count. *)
Lemma slots_bound D : (∀ k, k ∈ D → slot_ok k) → Z.of_nat (size D) ≤ 2 ^ 55.
Proof using.
  clear Hrs. intros HD. set (f := λ k : nat * Z, Z.of_nat k.1 * 65536 + k.2).
  assert (Hf : NoDup (f <$> elements D)).
  { apply NoDup_fmap_2_strong; [|apply NoDup_elements]. intros [i o] [i' o'] Hk%elem_of_elements%HD Hk'%elem_of_elements%HD He.
    unfold slot_ok, f in *. rewrite PAGE_END_val in *. cbn in *. assert (i = i') by lia. subst. f_equal. lia. }
  eapply NoDup_submseteq with (k := seqZ 0 (2 ^ 55)) in Hf.
  - apply submseteq_length in Hf. rewrite length_fmap, length_seqZ in Hf. unfold size, set_size. cbn. lia.
  - intros x (k & -> & Hk%elem_of_elements%HD)%list_elem_of_fmap. apply elem_of_seqZ. unfold slot_ok, f in *.
    rewrite PAGE_END_val in Hk. lia.
Qed.

Lemma new_set_ok {E} idx : 0 ≤ idx < max_rows_in_page rs →
  ∃ set, new_set (E:=E) rs idx = Ok set ∧ page_set set ∧ ∀ j, 0 ≤ j → bit set j = bool_decide (j = idx).
Proof using Hrs.
  intros Hi. unfold new_set, bitset_new, new_for_blocks, from_boxed_slice.
  set (n := blocks_for_bits (max_rows_in_page rs)).
  assert (Hm : max_rows_in_page rs ≤ 32736).
  { unfold max_rows_in_page, div_ceil. rewrite PAGE_END_val in *.
    enough ((65472 + rs - 1) / rs < 32737) by lia. apply Z.div_lt_upper_bound; lia. }
  assert (Hn : max_rows_in_page rs ≤ 64 * n ∧ 0 ≤ n ≤ 512).
  { unfold n, blocks_for_bits, div_ceil, BITS. pose proof (Z.div_mod (max_rows_in_page rs + 64 - 1) 64 ltac:(lia)).
    pose proof (Z.mod_pos_bound (max_rows_in_page rs + 64 - 1) 64 ltac:(lia)). lia. }
  assert (Hl : len (replicate (Z.to_nat n) 0) = n) by (unfold len; rewrite length_replicate; lia).
  rewrite Hl, (proj2 (Z.leb_le n u16_MAX)) by (unfold u16_MAX; lia). cbn [rbind].
  destruct (bitset_set_bit (E:=E) (replicate (Z.to_nat n) 0) idx true) as (set & -> & Hok & Hlen & Hb).
  - apply blocks_ok_replicate. unfold u16_MAX. lia.
  - unfold bitset_bits, BITS. rewrite Hl. lia.
  - exists set. split_and!; [done| |].
    + split; [done|]. unfold len in *. by rewrite Hlen.
    + intros j Hj. rewrite Hb by done. rewrite bit_replicate. by case_decide; case_bool_decide.
Qed.

Lemma set_index set k : page_set set → slot_ok k → 0 ≤ k.2 / rs < bitset_bits set.
Proof using Hrs.
  intros [_ Hl] [_ Hi]%slot_offset. unfold bitset_bits. rewrite Hl. unfold blocks_for_bits, div_ceil, BITS.
  pose proof (Z.div_mod (max_rows_in_page rs + 64 - 1) 64 ltac:(lia)).
  pose proof (Z.mod_pos_bound (max_rows_in_page rs + 64 - 1) 64 ltac:(lia)). lia.
Qed.

Lemma slot_bit dt D k : dt_rep dt D → slot_ok k → bit_at dt k.1 (k.2 / rs) = bool_decide (k ∈ D).
Proof using Hrs.
  intros H Hk. destruct (slot_offset k Hk) as [He Hi]. pose proof (dr_bits _ _ H k.1 (k.2 / rs) ltac:(lia)) as Hb.
  rewrite <-He in Hb. destruct k as [i o]. cbn [fst snd] in *. destruct (bit_at _ _ _), (bool_decide _) eqn:Hd; try done.
  - apply bool_decide_eq_false in Hd. by destruct Hd; apply Hb.
  - apply bool_decide_eq_true in Hd. by apply Hb in Hd.
Qed.

(** A set of the page [i] replaced, with one bit changed. *)
Lemma rep_update dt D D' k deleted set v n :
  dt_rep dt D → slot_ok k → page_set set → deleted !! k.1 = Some (Some set) →
  (∀ i, i ≠ k.1 → default None (deleted !! i) = default None (dt_deleted dt !! i)) →
  (∀ j, 0 ≤ j → bit set j = if decide (j = k.2 / rs) then v else bit_at dt k.1 j) →
  D' = (if v then {[k]} ∪ D else D ∖ {[k]}) → n = Z.of_nat (size D') →
  dt_rep (with_deleted dt deleted n) D'.
Proof using Hrs.
  intros H Hk Hset Hd Hother Hbits -> ->. destruct (slot_offset k Hk) as [He Hi]. split; cbn; try done.
  - apply (dr_size _ _ H).
  - intros i set' Hi'. destruct (decide (i = k.1)) as [->|Hne]; [rewrite Hd in Hi'; by injection Hi' as <-|].
    pose proof (Hother i Hne) as Ho. rewrite Hi' in Ho. cbn in Ho. apply (dr_sets _ _ H i).
    destruct (dt_deleted dt !! i) as [[]|]; cbn in Ho; congruence.
  - intros i idx Hidx. unfold bit_at. cbn. destruct (decide (i = k.1)) as [->|Hne].
    + rewrite Hd, Hbits by done. pose proof (dr_bits _ _ H k.1 idx Hidx) as Hb. case_decide as Hc.
      * subst idx. rewrite <-He. destruct k as [i o]. cbn [fst snd] in *. destruct v; set_solver.
      * assert ((k.1, idx * rs) ≠ k) by (intros Hk'; apply Hc; rewrite <-Hk'; cbn; symmetry; apply Z.div_mul; lia).
        rewrite Hb. destruct v; set_solver.
    + pose proof (Hother i Hne) as Ho. pose proof (dr_bits _ _ H i idx Hidx) as Hb. unfold bit_at in Hb.
      assert ((i, idx * rs) ≠ k) by (intros Hk'; apply Hne; by rewrite <-Hk').
      destruct (deleted !! i) as [[]|], (dt_deleted dt !! i) as [[]|]; cbn in Ho; simplify_eq;
        rewrite Hb; destruct v; set_solver.
  - intros k' Hk'. destruct v; [|apply (dr_slots _ _ H); set_solver].
    apply elem_of_union in Hk' as [->%elem_of_singleton|]; [done|by apply (dr_slots _ _ H)].
Qed.

Lemma dt_new_ok : dt_rep (delete_table_new rs) ∅.
Proof using. split; done. Qed.

Lemma dt_contains_ok {E} dt D ptr : dt_rep dt D → slot_ptr ptr →
  dt_contains (E:=E) dt ptr = Ok (bool_decide (ptr_key ptr ∈ D)).
Proof using Hrs.
  intros H Hk. rewrite <-(slot_bit dt D _ H Hk). unfold dt_contains, bit_at. cbn [ptr_key fst snd].
  destruct (dt_deleted dt !! _) as [[set|]|] eqn:Hd; [|done..]. pose proof (dr_sets _ _ H _ _ Hd) as Hset.
  unfold offset_div. rewrite (dr_size _ _ H), (proj2 (Z.eqb_neq rs 0)) by lia. cbn [rbind].
  by rewrite bitset_get_bit by exact (set_index set _ Hset Hk).
Qed.

(** A table with a bit more counts one place more. *)
Lemma len_add {E} dt D k : dt_rep dt D → slot_ok k → k ∉ D →
  add_u (E:=E) 64 (dt_len dt) 1 = Ok (Z.of_nat (size ({[k]} ∪ D))).
Proof using Hrs.
  intros H Hk Hn. rewrite (dr_len _ _ H), size_union, size_singleton by set_solver.
  pose proof (slots_bound D (dr_slots _ _ H)). rewrite add_u_Ok by lia. f_equal. lia.
Qed.

Lemma dt_insert_ok {E} dt D ptr : dt_rep dt D → slot_ptr ptr →
  ∃ dt', dt_insert (E:=E) ptr dt = Ok (bool_decide (ptr_key ptr ∉ D), dt') ∧ dt_rep dt' ({[ptr_key ptr]} ∪ D).
Proof using Hrs.
  intros H Hk. unfold slot_ptr in Hk. pose proof (slot_bit dt D _ H Hk) as Hbit. destruct (slot_offset _ Hk) as [_ Hi].
  unfold dt_insert, offset_div. rewrite (dr_size _ _ H), (proj2 (Z.eqb_neq rs 0)) by lia. cbn [rbind].
  set (k := ptr_key ptr) in *. change (page_offset ptr) with k.2. change (Z.to_nat (page_index ptr)) with k.1.
  unfold bit_at in Hbit. destruct (dt_deleted dt !! k.1) as [[set|]|] eqn:Hd.
  - pose proof (dr_sets _ _ H _ _ Hd) as Hset. pose proof (set_index set k Hset Hk) as Hin.
    rewrite bitset_get_bit by done. cbn [rbind]. rewrite Hbit, <-bool_decide_not.
    destruct (bitset_set_bit (E:=E) set (k.2 / rs) true) as (set' & -> & Hok & Hlen & Hb); [apply Hset|done|]. cbn [rbind].
    assert (Hn : (if bool_decide (k ∉ D) then add_u (E:=E) 64 (dt_len dt) 1 else Ok (dt_len dt)) = Ok (Z.of_nat (size ({[k]} ∪ D)))).
    { clear Hbit. case_bool_decide; [by apply len_add|]. rewrite (dr_len _ _ H). do 3 f_equal. apply leibniz_equiv. set_solver. }
    rewrite Hn. cbn [rbind]. eexists. split; [done|]. eapply (rep_update dt D _ k _ set' true); try done.
    + split; [done|]. unfold len. rewrite Hlen. apply Hset.
    + apply list_lookup_insert_eq. by eapply lookup_lt_Some.
    + intros i Hne. by rewrite list_lookup_insert_ne.
    + intros j Hj. rewrite Hb by done. unfold bit_at. by rewrite Hd.
  - assert (k ∉ D) by (intros Hc; by rewrite bool_decide_true in Hbit).
    destruct (new_set_ok (E:=E) (k.2 / rs) Hi) as (set & -> & Hset & Hb). cbn [rbind].
    rewrite (len_add dt D k) by done. cbn [rbind]. rewrite bool_decide_true by done.
    eexists. split; [done|]. eapply (rep_update dt D _ k _ set true); try done.
    + apply list_lookup_insert_eq. by eapply lookup_lt_Some.
    + intros i Hne. by rewrite list_lookup_insert_ne.
    + intros j Hj. rewrite Hb by done. unfold bit_at. rewrite Hd. by case_decide; case_bool_decide.
  - assert (k ∉ D) by (intros Hc; by rewrite bool_decide_true in Hbit).
    destruct (new_set_ok (E:=E) (k.2 / rs) Hi) as (set & -> & Hset & Hb). cbn [rbind].
    rewrite (len_add dt D k) by done. cbn [rbind]. rewrite bool_decide_true by done.
    eexists. split; [done|]. pose proof (lookup_ge_None_1 _ _ Hd) as Hge. eapply (rep_update dt D _ k _ set true); try done.
    + rewrite lookup_app_r, lookup_app_r; rewrite ?length_replicate; try lia.
      by replace (k.1 - length (dt_deleted dt) - (k.1 - length (dt_deleted dt)))%nat with 0%nat by lia.
    + intros i Hne. destruct (decide (i < length (dt_deleted dt))%nat) as [Hlt|Hlt].
      * by rewrite lookup_app_l.
      * rewrite (lookup_ge_None_2 (dt_deleted dt)), lookup_app_r by lia. cbn.
        change (Z.to_nat (page_index ptr)) with k.1. destruct (decide (i < k.1)%nat).
        -- by rewrite lookup_app_l, lookup_replicate_2 by (rewrite ?length_replicate; lia).
        -- by rewrite lookup_ge_None_2 by (rewrite length_app, length_replicate; change (length [Some set]) with 1%nat; lia).
    + intros j Hj. rewrite Hb by done. unfold bit_at. rewrite Hd. by case_decide; case_bool_decide.
Qed.

Lemma dt_remove_ok {E} dt D ptr : dt_rep dt D → slot_ptr ptr →
  ∃ dt', dt_remove (E:=E) ptr dt = Ok (bool_decide (ptr_key ptr ∈ D), dt') ∧ dt_rep dt' (D ∖ {[ptr_key ptr]}).
Proof using Hrs.
  intros H Hk. unfold slot_ptr in Hk. pose proof (slot_bit dt D _ H Hk) as Hbit.
  unfold dt_remove, offset_div. rewrite (dr_size _ _ H), (proj2 (Z.eqb_neq rs 0)) by lia. cbn [rbind].
  set (k := ptr_key ptr) in *. change (page_offset ptr) with k.2. change (Z.to_nat (page_index ptr)) with k.1.
  rewrite <-Hbit. unfold bit_at in *. destruct (dt_deleted dt !! k.1) as [[set|]|] eqn:Hd.
  - pose proof (dr_sets _ _ H _ _ Hd) as Hset. pose proof (set_index set k Hset Hk) as Hin.
    rewrite bitset_get_bit by done. cbn [rbind].
    assert (Hn : (if bit set (k.2 / rs) then sub_u (E:=E) (dt_len dt) 1 else Ok (dt_len dt)) = Ok (Z.of_nat (size (D ∖ {[k]})))).
    { rewrite Hbit, (dr_len _ _ H). clear Hbit. case_bool_decide as Hkd; [|do 3 f_equal; set_solver].
      pose proof (size_union_alt {[k]} D) as Hs. rewrite size_singleton in Hs. replace ({[k]} ∪ D) with D in Hs by set_solver.
      rewrite sub_u_Ok by lia. f_equal. lia. }
    rewrite Hn. cbn [rbind].
    destruct (bitset_set_bit (E:=E) set (k.2 / rs) false) as (set' & -> & Hok & Hlen & Hb); [apply Hset|done|]. cbn [rbind].
    eexists. split; [done|]. eapply (rep_update dt D _ k _ set' false); try done.
    + split; [done|]. unfold len. rewrite Hlen. apply Hset.
    + apply list_lookup_insert_eq. by eapply lookup_lt_Some.
    + intros i Hne. by rewrite list_lookup_insert_ne.
    + intros j Hj. rewrite Hb by done. unfold bit_at. by rewrite Hd.
  - exists dt. split; [done|]. replace (D ∖ {[k]}) with D; [done|]. symmetry in Hbit. apply bool_decide_eq_false in Hbit. set_solver.
  - exists dt. split; [done|]. replace (D ∖ {[k]}) with D; [done|]. symmetry in Hbit. apply bool_decide_eq_false in Hbit. set_solver.
Qed.

(** *** Iteration *)

(** The places that the sets from page [i] on mark, in order. *)
Fixpoint places_from (i : nat) (deleted : list (option FixedBitSet)) : list (nat * Z) :=
  match deleted with
  | [] => []
  | None :: deleted => places_from (S i) deleted
  | Some set :: deleted => map (λ idx, (i, idx * rs)) (bits_from set 0) ++ places_from (S i) deleted
  end.

Lemma deleted_in_page_ok {E} (i : nat) idxs :
  Forall (λ idx, 0 ≤ idx ∧ idx * rs < PAGE_END) idxs →
  deleted_in_page (E:=E) rs (Z.of_nat i) idxs = Ok (map (ptr_of COMMITTED_STATE) (map (λ idx, (i, idx * rs)) idxs)).
Proof using Hrs.
  induction 1 as [|idx idxs [Hi Hm] _ IH]; [done|]. cbn [deleted_in_page map]. rewrite PAGE_END_val in Hm.
  rewrite wrap_u_id by (unfold in_u; nia). rewrite mul_u_Ok by lia. cbn [rbind]. by rewrite IH.
Qed.

Lemma deleted_from_ok {E} (i : nat) deleted :
  (∀ j set, deleted !! j = Some (Some set) → page_set set ∧ ∀ idx, 0 ≤ idx → bit set idx = true → idx * rs < PAGE_END) →
  deleted_from (E:=E) rs (Z.of_nat i) deleted = Ok (map (ptr_of COMMITTED_STATE) (places_from i deleted)).
Proof using Hrs.
  revert i. induction deleted as [|[set|] deleted IH]; intros i Hd; [done|..];
    cbn [deleted_from places_from]; replace (Z.of_nat i + 1) with (Z.of_nat (S i)) by lia.
  - destruct (Hd 0%nat set eq_refl) as [[Hok _] Hb]. destruct (iter_set_ok set Hok) as [Hit Hl].
    rewrite iter_set_collect_spec; [|done|rewrite Hl; pose proof (length_bits_from set 0); lia]. cbn [rbind]. rewrite Hl.
    rewrite deleted_in_page_ok.
    + cbn [rbind]. rewrite IH by (intros j; apply (Hd (S j))). cbn [rbind]. by rewrite map_app.
    + apply Forall_forall. intros idx [Hi Hbi]%elem_of_bits_from; [|done]. auto.
  - apply IH. intros j. apply (Hd (S j)).
Qed.

Lemma elem_of_places i deleted k :
  k ∈ places_from i deleted ↔ ∃ j set idx, deleted !! j = Some (Some set) ∧ 0 ≤ idx ∧ bit set idx = true ∧ k = ((i + j)%nat, idx * rs).
Proof using.
  clear Hrs. revert i. induction deleted as [|[set|] deleted IH]; intros i; cbn [places_from].
  - split; [by intros ?%elem_of_nil|]. by intros (j & set & idx & Hj & _).
  - rewrite elem_of_app, IH, list_elem_of_fmap. split.
    + intros [(idx & -> & [H1 H2]%elem_of_bits_from)|(j & set' & idx & H1 & H2 & H3 & ->)]; [|done|].
      * exists 0%nat, set, idx. by rewrite Nat.add_0_r.
      * exists (S j), set', idx. split_and!; try done. f_equal. lia.
    + intros ([|j] & set' & idx & Hj & H2 & H3 & ->).
      * left. injection Hj as <-. exists idx. rewrite Nat.add_0_r. split; [done|]. by apply elem_of_bits_from.
      * right. exists j, set', idx. split_and!; try done. f_equal. lia.
  - rewrite IH. split; intros (j & set' & idx & Hj & H2 & H3 & ->).
    + exists (S j), set', idx. split_and!; try done. f_equal. lia.
    + destruct j as [|j]; [done|]. exists j, set', idx. split_and!; try done. f_equal. lia.
Qed.

(** The order of the places: by page, then by offset. *)
Definition place_before k k' : Prop := (k.1 < k'.1)%nat ∨ k.1 = k'.1 ∧ k.2 < k'.2.

Lemma places_sorted i deleted : StronglySorted place_before (places_from i deleted).
Proof using Hrs.
  revert i. induction deleted as [|[set|] deleted IH]; intros i; cbn [places_from]; [constructor| |apply IH].
  assert (Hrest : ∀ k, k ∈ places_from (S i) deleted → (i < k.1)%nat).
  { intros k (j & ? & ? & _ & _ & _ & ->)%elem_of_places. cbn. lia. }
  induction (sorted_bits_from set 0) as [|idx l _ IHl Hall]; [apply IH|]. cbn [map app]. constructor; [done|].
  apply Forall_app. split; apply Forall_forall.
  - intros k (idx' & -> & Hin)%list_elem_of_fmap. right. split; [done|]. cbn. rewrite Forall_forall in Hall.
    specialize (Hall _ Hin). nia.
  - intros k Hk%Hrest. by left.
Qed.

Lemma dt_iter_ok {E} dt D : dt_rep dt D →
  ∃ ks, dt_iter (E:=E) dt = Ok (map (ptr_of COMMITTED_STATE) ks) ∧ StronglySorted place_before ks ∧ ks ≡ₚ elements D.
Proof using Hrs.
  intros H. exists (places_from 0 (dt_deleted dt)). split_and!.
  - unfold dt_iter. rewrite (dr_size _ _ H). apply (deleted_from_ok 0). intros j set Hj. split; [by eapply (dr_sets _ _ H)|].
    intros idx Hi Hb. pose proof (proj1 (dr_bits _ _ H j idx Hi)) as Hin. unfold bit_at in Hin. rewrite Hj in Hin.
    apply (dr_slots _ _ H) in Hin as (_ & ? & _); [|done]. cbn in *. lia.
  - apply places_sorted.
  - apply NoDup_Permutation; [|apply NoDup_elements|].
    + pose proof (places_sorted 0 (dt_deleted dt)) as Hs. induction Hs as [|k ks _ IH Hall]; [constructor|]. constructor; [|done].
      intros Hin. rewrite Forall_forall in Hall. destruct (Hall _ Hin); lia.
    + intros k. rewrite elem_of_places, elem_of_elements. split.
      * intros (j & set & idx & Hj & Hi & Hb & ->). apply (dr_bits _ _ H j idx Hi). unfold bit_at. by rewrite Hj.
      * intros Hk. pose proof (dr_slots _ _ H k Hk) as Hs. destruct (slot_offset k Hs) as [He Hi].
        pose proof (slot_bit dt D k H Hs) as Hb. rewrite bool_decide_true in Hb by done. unfold bit_at in Hb.
        destruct (dt_deleted dt !! k.1) as [[set|]|] eqn:Hd; [|done..]. exists k.1, set, (k.2 / rs).
        rewrite <-He. split_and!; [done|lia|done|by destruct k].
Qed.

Lemma dt_is_empty_ok dt D : dt_rep dt D → dt_is_empty dt = bool_decide (D = ∅).
Proof using.
  clear Hrs. intros H. unfold dt_is_empty. rewrite (dr_len _ _ H). case_bool_decide as Hd.
  - subst. by rewrite size_empty.
  - apply Z.eqb_neq. intros Hs. apply Hd, leibniz_equiv, size_empty_inv. lia.
Qed.
End delete_table.

(** ** Sequences of operations *)

Inductive DeleteOp := OpInsert (ptr : Z) | OpRemove (ptr : Z).

Definition op_ptr (op : DeleteOp) : Z := match op with OpInsert ptr | OpRemove ptr => ptr end.

Fixpoint dt_run {E} (ops : list DeleteOp) (dt : DeleteTable) : result E (list bool * DeleteTable) :=
  match ops with
  | [] => Ok ([], dt)
  | op :: ops =>
      let* ' (b, dt) := match op with OpInsert ptr => dt_insert ptr dt | OpRemove ptr => dt_remove ptr dt end in
      let* ' (bs, dt) := dt_run ops dt in
      Ok (b :: bs, dt)
  end.

(** The same operations on a set of places. *)
Fixpoint set_run (ops : list DeleteOp) (D : gset (nat * Z)) : list bool * gset (nat * Z) :=
  match ops with
  | [] => ([], D)
  | op :: ops =>
      let k := ptr_key (op_ptr op) in
      let '(b, D) := match op with
                     | OpInsert _ => (bool_decide (k ∉ D), {[k]} ∪ D)
                     | OpRemove _ => (bool_decide (k ∈ D), D ∖ {[k]})
                     end in
      let '(bs, D) := set_run ops D in
      (b :: bs, D)
  end.

Lemma dt_run_ok {E} rs ops dt D : 2 ≤ rs ≤ PAGE_END → dt_rep rs dt D → Forall (λ op, slot_ptr rs (op_ptr op)) ops →
  ∃ dt', dt_run (E:=E) ops dt = Ok ((set_run ops D).1, dt') ∧ dt_rep rs dt' (set_run ops D).2.
Proof.
  intros Hrs H Hops. revert dt D H. induction Hops as [|op ops Hop Hops IH]; intros dt D H; [by exists dt|]. cbn [dt_run set_run].
  assert (∃ dt1, match op with OpInsert ptr => dt_insert (E:=E) ptr dt | OpRemove ptr => dt_remove ptr dt end =
    Ok (match op with OpInsert _ => bool_decide (ptr_key (op_ptr op) ∉ D) | OpRemove _ => bool_decide (ptr_key (op_ptr op) ∈ D) end, dt1) ∧
    dt_rep rs dt1 (match op with OpInsert _ => {[ptr_key (op_ptr op)]} ∪ D | OpRemove _ => D ∖ {[ptr_key (op_ptr op)]} end))
    as (dt1 & -> & H1).
  { destruct op as [ptr|ptr]; [by apply dt_insert_ok|by apply dt_remove_ok]. }
  cbn [rbind]. destruct (IH dt1 _ H1) as (dt2 & -> & H2). cbn [rbind]. exists dt2.
  by destruct op; cbn [op_ptr] in *; destruct (set_run ops _).
Qed.

(** C26. A delete table is the set of the places that were marked and not unmarked: for rows of any size that fits
    a page, each operation of a sequence answers as the set does, and afterwards the table contains, counts and yields,
    in the order of pages and offsets, exactly the places of the set, each once. *)
Theorem delete_table_refines_set rs ops :
  2 ≤ rs ≤ PAGE_END → Forall (λ op, slot_ptr rs (op_ptr op)) ops →
  let D := (set_run ops ∅).2 in
  ∃ dt ks, dt_run (E:=unit) ops (delete_table_new rs) = Ok ((set_run ops ∅).1, dt) ∧
    (∀ ptr, slot_ptr rs ptr → dt_contains (E:=unit) dt ptr = Ok (bool_decide (ptr_key ptr ∈ D))) ∧
    dt_len dt = Z.of_nat (size D) ∧ dt_is_empty dt = bool_decide (D = ∅) ∧
    dt_iter (E:=unit) dt = Ok (map (ptr_of COMMITTED_STATE) ks) ∧ StronglySorted place_before ks ∧ ks ≡ₚ elements D.
Proof.
  intros Hrs Hops D. destruct (dt_run_ok (E:=unit) rs ops _ ∅ Hrs (dt_new_ok rs) Hops) as (dt & Hrun & H). fold D in H.
  destruct (dt_iter_ok (E:=unit) rs Hrs dt D H) as (ks & Hit & Hs & Hp). exists dt, ks.
  split_and!; [done| |by apply (dr_len rs)|by eapply dt_is_empty_ok|done..]. intros ptr. by apply dt_contains_ok.
Qed.

Lemma delete_table_refines_set_witness :
  let p i o := RowPointer_new false i o COMMITTED_STATE in
  let ops := [OpInsert (p 2 48); OpInsert (p 2 48); OpInsert (p 0 24); OpInsert (p 2 0); OpRemove (p 2 48); OpRemove (p 1 0)] in
  ∃ dt, dt_run (E:=unit) ops (delete_table_new 24) = Ok ([true; false; true; true; true; false], dt) ∧
    dt_iter (E:=unit) dt = Ok [p 0 24; p 2 0] ∧ dt_len dt = 2 ∧ dt_contains (E:=unit) dt (p 2 48) = Ok false.
Proof.
  intros p ops. destruct (delete_table_refines_set 24 ops) as (dt & ks & H1 & H2 & H3 & _ & H5 & _).
  - rewrite PAGE_END_val. lia.
  - repeat constructor; vm_compute; done.
  - exists dt. vm_compute in H1. injection H1 as <-. split_and!; vm_compute; reflexivity.
Defined.
