(* ===== verification/Sequence.v ===== *)
(** * Sequences (crates/core/src/db/datastore/locking_tx_datastore/sequence.rs)

    A sequence steps through the values between a minimum and a maximum and
    wraps around.  It hands out only values below an allocation, which is
    stored in a system table by the transaction that raises it, and from which
    the sequence goes on after a restart. *)

From Stdlib Require Import ZArith Lia.
From stdpp Require Import sorting gmap list relations.
From S2P Require Import Prelude.
Local Open Scope Z_scope.
Local Open Scope result_scope.

(** ** Arithmetic on [i128], a panic on overflow *)

Definition i128_MAX : Z := 2 ^ 127 - 1.
Definition i128_MIN : Z := - 2 ^ 127.
Definition i128 {E} (z : Z) : result E Z := if decide (in_s 128 z) then Ok z else Panic.
Definition i128_add {E} (a b : Z) : result E Z := i128 (a + b).
Definition i128_sub {E} (a b : Z) : result E Z := i128 (a - b).
(** [%]: the remainder has the sign of the dividend. *)
Definition i128_rem {E} (a b : Z) : result E Z :=
  if (b =? 0) || ((a =? i128_MIN) && (b =? -1)) then Panic else Ok (Z.rem a b).

(** ** [Sequence] *)

(** The bounds of [SequenceSchema] (crates/schema/src/schema.rs). *)
Record Sequence := {
  sq_id : Z;
  sq_increment : Z;
  sq_start : Z;
  sq_min_value : Z;
  sq_max_value : Z;
  sq_allocated : Z;
  sq_value : Z;
}.

(** [Sequence::new]: the value is the start. *)
Definition sequence_new (id increment start min_value max_value allocated : Z) : Sequence :=
  {| sq_id := id; sq_increment := increment; sq_start := start; sq_min_value := min_value; sq_max_value := max_value;
     sq_allocated := allocated; sq_value := start |}.

Definition with_value (s : Sequence) (value : Z) : Sequence :=
  {| sq_id := sq_id s; sq_increment := sq_increment s; sq_start := sq_start s; sq_min_value := sq_min_value s;
     sq_max_value := sq_max_value s; sq_allocated := sq_allocated s; sq_value := value |}.
Definition set_allocation (s : Sequence) (allocated : Z) : Sequence :=
  {| sq_id := sq_id s; sq_increment := sq_increment s; sq_start := sq_start s; sq_min_value := sq_min_value s;
     sq_max_value := sq_max_value s; sq_allocated := allocated; sq_value := sq_value s |}.

Definition next_in_sequence {E} (min max increment value : Z) : result E Z :=
  let* next := i128_add value increment in
  if 0 <? increment then
    if max <? next then
      let* d := i128_sub next max in
      let* d := i128_sub d 1 in
      let* n := i128_sub max min in
      let* n := i128_add n 1 in
      let* r := i128_rem d n in
      i128_add min r
    else Ok next
  else if next <? min then
    let* d := i128_sub min next in
    let* d := i128_sub d 1 in
    let* n := i128_sub max min in
    let* n := i128_add n 1 in
    let* r := i128_rem d n in
    i128_sub max r
  else Ok next.

Fixpoint nth_from {E} (s : Sequence) (n : nat) (value : Z) : result E Z :=
  match n with
  | O => Ok value
  | S n =>
      let* value := next_in_sequence (sq_min_value s) (sq_max_value s) (sq_increment s) value in
      nth_from s n value
  end.
Definition nth_value {E} (s : Sequence) (n : nat) : result E Z := nth_from s n (sq_value s).
Definition next_value {E} (s : Sequence) : result E Z := nth_value s 1.

Definition needs_allocation (s : Sequence) : bool := sq_allocated s <=? sq_value s.

Definition gen_next_value {E} (s : Sequence) : result E (option Z * Sequence) :=
  if needs_allocation s then Ok (None, s)
  else
    let value := sq_value s in
    let* next := next_value s in
    Ok (Some value, with_value s next).

(** ** [SequencesState] *)

Abbreviation SequencesState := (gmap Z Sequence) (only parsing).
Definition seqs_insert (seq : Sequence) (state : SequencesState) : SequencesState := <[sq_id seq := seq]> state.
Definition seqs_remove (seq_id : Z) (state : SequencesState) : option Sequence * SequencesState :=
  (state !! seq_id, delete seq_id state).

(** One row of [build_sequence_state] (committed_state.rs): a sequence that
    was stored starts after its allocation. *)
Definition restored_sequence {E} (seq : Sequence) : result E Sequence :=
  let* after := i128_add (sq_allocated seq) 1 in
  Ok (if sq_value seq <? after then with_value seq after else seq).

(** [SEQUENCE_ALLOCATION_STEP] (crates/lib/src/db/raw_def/v8.rs). *)
Definition SEQUENCE_ALLOCATION_STEP : nat := 4096.

(** The allocation of [get_next_sequence_value] (mut_tx.rs): the sequence
    with the allocation that is stored for it. *)
Definition allocate {E} (s : Sequence) : result E Sequence :=
  let* allocated := nth_value s SEQUENCE_ALLOCATION_STEP in
  Ok (set_allocation s allocated).

(** ** Stepping *)

(** The value reached when the values from [min] to [max] are in a circle. *)
Definition cycle (min max x : Z) : Z := min + (x - min) mod (max - min + 1).

Lemma i128_Ok {E} z : in_s 128 z → i128 (E:=E) z = Ok z.
Proof. intros. unfold i128. by rewrite decide_True. Qed.

Lemma i128_rem_Ok {E} a b : 0 ≤ a → 0 < b → i128_rem (E:=E) a b = Ok (a mod b).
Proof.
  intros. unfold i128_rem. rewrite (proj2 (Z.eqb_neq b 0)), (proj2 (Z.eqb_neq b (-1))), andb_false_r by lia. cbn.
  by rewrite Z.rem_mod_nonneg by lia.
Qed.

(** The bounds of a sequence: they are at most half of [i128] apart. *)
Definition bounds_ok (min max increment : Z) : Prop :=
  in_s 128 min ∧ in_s 128 max ∧ min ≤ max ∧ max - min + 1 ≤ i128_MAX ∧ i128_MIN < increment ≤ i128_MAX.

Lemma cycle_range min max x : min ≤ max → min ≤ cycle min max x ≤ max.
Proof. intros. unfold cycle. pose proof (Z.mod_pos_bound (x - min) (max - min + 1) ltac:(lia)). lia. Qed.

Lemma cycle_id min max x : min ≤ x ≤ max → cycle min max x = x.
Proof. intros. unfold cycle. rewrite Z.mod_small by lia. lia. Qed.

Lemma cycle_add min max x y : min ≤ max → cycle min max (cycle min max x + y) = cycle min max (x + y).
Proof.
  intros. unfold cycle. f_equal. replace (min + (x - min) mod (max - min + 1) + y - min) with ((x - min) mod (max - min + 1) + y) by lia.
  rewrite Z.add_mod_idemp_l by lia. f_equal. lia.
Qed.

Lemma next_in_sequence_ok {E} min max increment value :
  bounds_ok min max increment → min ≤ value ≤ max → in_s 128 (value + increment) →
  next_in_sequence (E:=E) min max increment value = Ok (cycle min max (value + increment)).
Proof.
  intros (H1 & H2 & H3 & H4 & H5) Hv Hn. unfold i128_MAX, i128_MIN, in_s in *. unfold next_in_sequence, i128_add, i128_sub.
  rewrite (i128_Ok (value + increment)) by done. cbn [rbind]. set (n := max - min + 1) in *.
  assert (Hmod : ∀ x, cycle min max x = min + (x - min) mod n) by done.
  destruct (Z.ltb_spec 0 increment).
  - destruct (Z.ltb_spec max (value + increment)); [|by rewrite cycle_id by lia].
    rewrite (i128_Ok (_ - max)) by (unfold in_s; lia). cbn [rbind]. rewrite (i128_Ok (_ - 1)) by (unfold in_s; lia). cbn [rbind].
    rewrite (i128_Ok (max - min)) by (unfold in_s; lia). cbn [rbind]. fold n. rewrite (i128_Ok n) by (unfold in_s; lia). cbn [rbind].
    rewrite i128_rem_Ok by lia. cbn [rbind]. pose proof (Z.mod_pos_bound (value + increment - max - 1) n ltac:(lia)).
    rewrite i128_Ok by (unfold in_s; lia). rewrite Hmod.
    replace (value + increment - min) with (value + increment - max - 1 + 1 * n) by lia. by rewrite Z.mod_add by lia.
  - destruct (Z.ltb_spec (value + increment) min); [|by rewrite cycle_id by lia].
    rewrite (i128_Ok (min - _)) by (unfold in_s; lia). cbn [rbind]. rewrite (i128_Ok (_ - 1)) by (unfold in_s; lia). cbn [rbind].
    rewrite (i128_Ok (max - min)) by (unfold in_s; lia). cbn [rbind]. fold n. rewrite (i128_Ok n) by (unfold in_s; lia). cbn [rbind].
    rewrite i128_rem_Ok by lia. cbn [rbind]. set (d := min - (value + increment) - 1).
    pose proof (Z.mod_pos_bound d n ltac:(lia)). rewrite i128_Ok by (unfold in_s; lia). rewrite Hmod. f_equal.
    pose proof (Z.div_mod d n ltac:(lia)) as Hd.
    rewrite <-(Z.mod_unique (value + increment - min) n (- (d / n) - 1) (n - 1 - d mod n)); [lia|left; lia|]. unfold d in *. lia.
Qed.

(** The value after some steps, while no step leaves [i128]. *)
Lemma nth_from_ok {E} s n value :
  bounds_ok (sq_min_value s) (sq_max_value s) (sq_increment s) → sq_min_value s ≤ value ≤ sq_max_value s →
  (∀ v, sq_min_value s ≤ v ≤ sq_max_value s → in_s 128 (v + sq_increment s)) →
  nth_from (E:=E) s n value = Ok (cycle (sq_min_value s) (sq_max_value s) (value + Z.of_nat n * sq_increment s)).
Proof.
  intros Hb Hv Hr. pose proof Hb as (_ & _ & Hle & _). revert value Hv. induction n as [|n IH]; intros value Hv; cbn [nth_from].
  - by rewrite Z.add_0_r, cycle_id.
  - rewrite next_in_sequence_ok by auto. cbn [rbind]. rewrite IH by by apply cycle_range. f_equal. rewrite cycle_add by done.
    f_equal. lia.
Qed.

(** The steps that stay between the bounds need no room. *)
Lemma nth_from_within {E} s n value :
  bounds_ok (sq_min_value s) (sq_max_value s) (sq_increment s) → sq_min_value s ≤ value ≤ sq_max_value s →
  sq_min_value s ≤ value + Z.of_nat n * sq_increment s ≤ sq_max_value s →
  nth_from (E:=E) s n value = Ok (value + Z.of_nat n * sq_increment s).
Proof.
  intros Hb. pose proof Hb as (H1 & H2 & _). unfold in_s in *. revert value. induction n as [|n IH]; intros value Hv Hn; cbn [nth_from].
  - f_equal. lia.
  - assert (sq_min_value s ≤ value + sq_increment s ≤ sq_max_value s) by nia.
    rewrite next_in_sequence_ok by (done || (unfold in_s; lia)). cbn [rbind]. rewrite cycle_id by done.
    rewrite IH by (done || lia). f_equal. lia.
Qed.

Lemma gen_next_within {E} s :
  bounds_ok (sq_min_value s) (sq_max_value s) (sq_increment s) → sq_min_value s ≤ sq_value s ≤ sq_max_value s →
  sq_min_value s ≤ sq_value s + sq_increment s ≤ sq_max_value s → sq_value s < sq_allocated s →
  gen_next_value (E:=E) s = Ok (Some (sq_value s), with_value s (sq_value s + sq_increment s)).
Proof.
  intros Hb Hv Hn Ha. unfold gen_next_value, needs_allocation. rewrite (proj2 (Z.leb_gt _ _)) by done.
  pose proof (nth_from_within (E:=E) s 1 (sq_value s) Hb Hv) as Hnth. rewrite Z.mul_1_l in Hnth.
  unfold next_value, nth_value. by rewrite Hnth.
Qed.

(** A sequence goes around in a circle: after any number of steps from a value between its bounds it is at the value
    that lies as many increments further, counted modulo the number of values between the bounds; increments of
    either sign and of any size are covered, and no step overflows when a single one cannot. *)
Theorem sequence_cycles s n :
  bounds_ok (sq_min_value s) (sq_max_value s) (sq_increment s) → sq_min_value s ≤ sq_value s ≤ sq_max_value s →
  (∀ v, sq_min_value s ≤ v ≤ sq_max_value s → in_s 128 (v + sq_increment s)) →
  let min := sq_min_value s in let max := sq_max_value s in
  ∃ v, nth_value (E:=unit) s n = Ok v ∧ min ≤ v ≤ max ∧
    v = min + (sq_value s - min + Z.of_nat n * sq_increment s) mod (max - min + 1).
Proof.
  intros Hb Hv Hr min max. eexists. split; [by apply nth_from_ok|]. pose proof Hb as (_ & _ & Hle & _).
  split; [by apply cycle_range|]. unfold cycle. fold min max. do 2 f_equal. lia.
Qed.

Lemma sequence_cycles_witness : nth_value (E:=unit) (sequence_new 1 (-3) 4 1 10 0) 3 = Ok 5.
Proof.
  destruct (sequence_cycles (sequence_new 1 (-3) 4 1 10 0) 3) as (v & Hv & _ & ->).
  - unfold bounds_ok, in_s, i128_MAX, i128_MIN. cbn. lia.
  - cbn. lia.
  - cbn. unfold in_s. lia.
  - rewrite Hv. reflexivity.
Defined.

(** ** Handing out values *)

(** What [get_next_sequence_value] (mut_tx.rs) does to the sequence: the value,
    the sequence after it and, if there was one, the new allocation. *)
Definition seq_next {E} (s : Sequence) : result E (option Z * Sequence * option Z) :=
  let* '(value, s) := gen_next_value s in
  match value with
  | Some value => Ok (Some value, s, None)
  | None =>
      let* s := allocate s in
      let allocated := sq_allocated s in
      let* '(value, s) := gen_next_value s in
      Ok (value, s, Some allocated)
  end.

(** The sequence in memory, its allocation in the committed row of
    [st_sequence], and in the row that the running transaction has written, if
    it has; the values that committed transactions and the running one were
    given, the last first. *)
Record SeqState := {
  ss_memory : Sequence;
  ss_stored : Z;
  ss_pending : option Z;
  ss_committed : list Z;
  ss_running : list Z;
}.
Definition seq_start (s0 : Sequence) : SeqState :=
  {| ss_memory := s0; ss_stored := sq_allocated s0; ss_pending := None; ss_committed := []; ss_running := [] |}.

(** The sequence that is built from the system table at a restart. *)
Definition restarted {E} (st : SeqState) : result E Sequence :=
  let s := ss_memory st in
  restored_sequence (sequence_new (sq_id s) (sq_increment s) (sq_start s) (sq_min_value s) (sq_max_value s) (ss_stored st)).

Definition no_wrap (s : Sequence) : Prop :=
  sq_value s + Z.of_nat SEQUENCE_ALLOCATION_STEP * sq_increment s ≤ sq_max_value s.

(** The transaction is given a value; it commits; it rolls back, which leaves
    the sequence in memory as it is; and the program restarts, whereby the
    running transaction is lost. *)
Definition seq_give (st : SeqState) (v : Z) (s : Sequence) (alloc : option Z) : SeqState :=
  {| ss_memory := s; ss_stored := ss_stored st; ss_pending := alloc ∪ ss_pending st;
     ss_committed := ss_committed st; ss_running := v :: ss_running st |}.
Definition seq_commit (st : SeqState) : SeqState :=
  {| ss_memory := ss_memory st; ss_stored := default (ss_stored st) (ss_pending st); ss_pending := None;
     ss_committed := ss_running st ++ ss_committed st; ss_running := [] |}.
Definition seq_rollback (st : SeqState) : SeqState :=
  {| ss_memory := ss_memory st; ss_stored := ss_stored st; ss_pending := None;
     ss_committed := ss_committed st; ss_running := [] |}.
Definition seq_restart (st : SeqState) (s : Sequence) : SeqState :=
  {| ss_memory := s; ss_stored := ss_stored st; ss_pending := None;
     ss_committed := ss_committed st; ss_running := [] |}.

(** Values are allocated while the sequence does not wrap around, and the
    transactions that have allocated values do not roll back. *)
Inductive seq_step : SeqState → SeqState → Prop :=
| sr_next st v s alloc :
    seq_next (E:=unit) (ss_memory st) = Ok (Some v, s, alloc) → (alloc ≠ None → no_wrap (ss_memory st)) →
    seq_step st (seq_give st v s alloc)
| sr_commit st : seq_step st (seq_commit st)
| sr_rollback st : ss_pending st = None → seq_step st (seq_rollback st)
| sr_restart st s : restarted (E:=unit) st = Ok s → seq_step st (seq_restart st s).

Section handing_out.
Context (s0 : Sequence) (Hb : bounds_ok (sq_min_value s0) (sq_max_value s0) (sq_increment s0)) (Hinc : 0 < sq_increment s0).
Context (Hstart : sq_min_value s0 ≤ sq_start s0 ≤ sq_max_value s0 ∧ sq_value s0 = sq_start s0 ∧ sq_allocated s0 ≤ sq_start s0).

(** The sequence in memory, of which values below the allocation are left. *)
Record seq_ok (s : Sequence) : Prop := {
  so_same : s = with_value (set_allocation s0 (sq_allocated s)) (sq_value s);
  so_min : sq_min_value s0 ≤ sq_value s;
  so_phase : sq_value s < sq_allocated s → ∃ j, 0 < j ∧ sq_allocated s = sq_value s + j * sq_increment s0;
  so_max : sq_allocated s ≤ sq_max_value s0;
}.

(** What stays true: the values are below the allocation and the next one. *)
Record seq_inv (st : SeqState) : Prop := {
  si_memory : seq_ok (ss_memory st);
  si_alloc : sq_allocated (ss_memory st) = default (ss_stored st) (ss_pending st);
  si_stored : ss_stored st ≤ sq_allocated (ss_memory st);
  si_running : Forall (λ v, v < sq_value (ss_memory st) ∧ v < sq_allocated (ss_memory st)) (ss_running st);
  si_committed : Forall (λ v, v < sq_value (ss_memory st) ∧ v < ss_stored st) (ss_committed st);
  si_sorted : StronglySorted Z.gt (ss_running st ++ ss_committed st);
}.

Lemma seq_ok_fields s : seq_ok s →
  sq_min_value s = sq_min_value s0 ∧ sq_max_value s = sq_max_value s0 ∧ sq_increment s = sq_increment s0 ∧ sq_start s = sq_start s0 ∧ sq_id s = sq_id s0.
Proof using. by intros [-> _ _ _]. Qed.

Lemma gen_next_ok {E} s : seq_ok s →
  if sq_allocated s <=? sq_value s then gen_next_value (E:=E) s = Ok (None, s)
  else gen_next_value (E:=E) s = Ok (Some (sq_value s), with_value s (sq_value s + sq_increment s0)) ∧
    seq_ok (with_value s (sq_value s + sq_increment s0)).
Proof using Hb Hinc.
  clear Hstart. intros Hs. pose proof (seq_ok_fields s Hs) as (Emin & Emax & Einc & _). destruct Hs as [Hsame Hmin Hph Hmax].
  destruct (Z.leb_spec (sq_allocated s) (sq_value s)) as [Hle|Hlt].
  { unfold gen_next_value, needs_allocation. by rewrite (proj2 (Z.leb_le _ _)). }
  destruct (Hph Hlt) as (j & Hj & Hst). split.
  - rewrite gen_next_within; rewrite ?Emin, ?Emax, ?Einc; done || nia.
  - split; cbn; try done.
    + by rewrite Hsame at 1.
    + lia.
    + intros Hlt'. exists (j - 1). split; nia.
Qed.

Lemma allocate_ok {E} s : seq_ok s → sq_allocated s ≤ sq_value s → no_wrap s →
  ∃ s', allocate (E:=E) s = Ok s' ∧ seq_ok s' ∧ sq_value s' = sq_value s ∧ sq_value s < sq_allocated s'.
Proof using Hb Hinc.
  clear Hstart. intros Hs Hle Hw. pose proof (seq_ok_fields s Hs) as (Emin & Emax & Einc & _). destruct Hs as [Hsame Hmin Hph Hmax].
  assert (0 < Z.of_nat SEQUENCE_ALLOCATION_STEP) by done. unfold allocate, nth_value, no_wrap in *.
  set (step := SEQUENCE_ALLOCATION_STEP) in *. rewrite Emax, Einc in Hw.
  rewrite nth_from_within by (rewrite ?Emin, ?Emax, ?Einc; done || nia). cbn [rbind]. eexists. split; [done|].
  cbn [set_allocation sq_value sq_allocated]. rewrite Einc. split; [|split; [done|nia]]. split; cbn; try done.
  - by rewrite Hsame at 1.
  - intros _. by exists (Z.of_nat step).
Qed.

(** A value is handed out from those that are left, or after an allocation. *)
Lemma seq_next_ok {E} s v s' alloc : seq_ok s → seq_next (E:=E) s = Ok (Some v, s', alloc) → (alloc ≠ None → no_wrap s) →
  seq_ok s' ∧ v = sq_value s ∧ v < sq_value s' ∧ v < sq_allocated s' ∧
  match alloc with Some a => sq_allocated s' = a ∧ sq_allocated s ≤ v | None => sq_allocated s' = sq_allocated s end.
Proof using Hb Hinc.
  clear Hstart. intros Hs Hn Hw. unfold seq_next in Hn. pose proof (gen_next_ok (E:=E) s Hs) as Hg.
  destruct (Z.leb_spec (sq_allocated s) (sq_value s)) as [Hle|Hlt].
  - rewrite Hg in Hn. cbn [rbind] in Hn. assert (no_wrap s) as Hnw.
    { apply Hw. intros ->. destruct (allocate s) as [s1| | |]; cbn [rbind] in Hn; try done.
      by destruct (gen_next_value s1) as [[? ?]| | |]. }
    destruct (allocate_ok (E:=E) s Hs Hle Hnw) as (s1 & Ha & Hs1 & Hv1 & Hlt1). rewrite Ha in Hn. cbn [rbind] in Hn.
    pose proof (gen_next_ok (E:=E) s1 Hs1) as Hg1. rewrite (proj2 (Z.leb_gt _ _)) in Hg1 by lia. destruct Hg1 as [Hg1 Hok].
    rewrite Hg1 in Hn. cbn [rbind] in Hn. injection Hn as <- <- <-. rewrite Hv1 in *. cbn. split_and!; done || lia.
  - destruct Hg as [Hg Hok]. rewrite Hg in Hn. cbn [rbind] in Hn. injection Hn as <- <- <-. cbn. split_and!; done || lia.
Qed.

Lemma seq_step_inv st st' : seq_inv st → seq_step st st' → seq_inv st'.
Proof using Hb Hinc Hstart.
  intros [Hm Ha Hs Hr Hc Hso] Hstep. destruct Hstep as [st v s alloc Hn Hw|st|st Hp|st s Hre].
  - destruct (seq_next_ok _ _ _ _ Hm Hn Hw) as (Hok & -> & Hv & Hva & Hal).
    assert (sq_allocated (ss_memory st) ≤ sq_allocated s) by (destruct alloc; lia).
    split; cbn [seq_give ss_memory ss_stored ss_pending ss_running ss_committed]; try done.
    + destruct alloc as [a|]; [destruct Hal as [-> _]|rewrite Hal, Ha]; by destruct (ss_pending st).
    + lia.
    + constructor; [lia|]. eapply Forall_impl; [exact Hr|]. cbn. lia.
    + eapply Forall_impl; [exact Hc|]. cbn. lia.
    + cbn [app]. constructor; [done|]. apply Forall_app. split; [eapply Forall_impl; [exact Hr|]|eapply Forall_impl; [exact Hc|]]; cbn; lia.
  - split; cbn [seq_commit ss_memory ss_stored ss_pending ss_running ss_committed default]; try done; rewrite <-Ha; try done.
    apply Forall_app. split; [done|]. eapply Forall_impl; [exact Hc|]. cbn. lia.
  - split; cbn [seq_rollback ss_memory ss_stored ss_pending ss_running ss_committed]; try done.
    + by rewrite Ha, Hp.
    + clear -Hso. cbn [app]. induction (ss_running st) as [|v l IH]; [done|]. apply IH. by inversion Hso.
  - pose proof (seq_ok_fields _ Hm) as (Emin & Emax & Einc & Est & Eid). pose proof (so_max _ Hm) as Hmax.
    unfold restarted, restored_sequence in Hre. cbn in Hre. unfold i128_add, i128 in Hre. case_decide; [|done]. cbn in Hre.
    rewrite Emin, Emax, Einc, Est, Eid in Hre. injection Hre as <-.
    set (x := if sq_start s0 <? ss_stored st + 1 then ss_stored st + 1 else sq_start s0).
    replace (if _ <? _ then _ else _) with (with_value (set_allocation s0 (ss_stored st)) x)
      by (unfold x; by destruct (sq_start s0 <? ss_stored st + 1)).
    assert (ss_stored st < x ∧ sq_min_value s0 ≤ x) by (unfold x; destruct (Z.ltb_spec (sq_start s0) (ss_stored st + 1)); lia).
    split; cbn; try done.
    + split; cbn; done || lia.
    + eapply Forall_impl; [exact Hc|]. cbn. lia.
    + clear -Hso. induction (ss_running st) as [|v l IH]; [done|]. apply IH. by inversion Hso.
Qed.

Lemma seq_run_inv st : rtc seq_step (seq_start s0) st → seq_inv st.
Proof using Hb Hinc Hstart.
  assert (Hi : seq_inv (seq_start s0)).
  { split; cbn; try done; [|constructor]. split; try lia. by destruct s0. }
  intros Hr. remember (seq_start s0) as st0 eqn:E. clear E. induction Hr as [|st1 st2 st3 Hs _ IH]; [done|].
  by apply IH, (seq_step_inv st1).
Qed.
End handing_out.

(** C28. An ascending sequence does not repeat itself.  Its values are handed
    out to transactions, which commit, or roll back if they have not allocated
    values, and the program restarts at any point, whereby the running
    transaction is lost; values are allocated while the sequence does not wrap
    around.  All values that committed transactions were given are different,
    and different from those of the running one; each is greater than those
    before it, and a restart goes on above all that were committed.  When a
    transaction that has allocated values rolls back, this fails
    ([rollback_repeats_values]), and a descending sequence cannot allocate
    ([sequence_descending_stuck]). *)
Theorem sequence_never_repeats s0 st :
  bounds_ok (sq_min_value s0) (sq_max_value s0) (sq_increment s0) → 0 < sq_increment s0 →
  sq_min_value s0 ≤ sq_start s0 ≤ sq_max_value s0 → sq_value s0 = sq_start s0 → sq_allocated s0 ≤ sq_start s0 →
  rtc seq_step (seq_start s0) st →
  let given := ss_running st ++ ss_committed st in
  StronglySorted Z.gt given ∧ NoDup given ∧
  ∀ s, restarted (E:=unit) st = Ok s → Forall (λ v, v < sq_value s) (ss_committed st).
Proof.
  intros Hb Hi Hs Hv Ha Hr given. pose proof (conj Hs (conj Hv Ha)) as Hstart.
  pose proof (seq_run_inv s0 Hb Hi Hstart st Hr) as Hinv. pose proof (si_sorted _ _ Hinv) as Hso. split_and!.
  - done.
  - fold given in Hso. clear -Hso. induction Hso as [|v l _ IH Hall]; constructor; [|done]. intros Hin. rewrite Forall_forall in Hall.
    specialize (Hall _ Hin). lia.
  - intros s Hrs. pose proof (seq_step_inv s0 Hb Hi Hstart st _ Hinv (sr_restart st s Hrs)) as Hinv'.
    eapply Forall_impl; [apply (si_committed _ _ Hinv')|]. by intros v [? _].
Qed.

(** Two transactions with a value each, a restart, and a third one. *)
Definition ids : Sequence := sequence_new 1 1 1 1 i128_MAX 0.
Definition seq_given (st : SeqState) : SeqState :=
  match seq_next (E:=unit) (ss_memory st) with Ok (Some v, s, alloc) => seq_give st v s alloc | _ => st end.
Definition seq_restarted (st : SeqState) : SeqState :=
  match restarted (E:=unit) st with Ok s => seq_restart st s | _ => st end.
Definition three_values : SeqState :=
  seq_given (seq_restarted (seq_commit (seq_given (seq_commit (seq_given (seq_start ids)))))).

Lemma sequence_never_repeats_witness :
  ss_running three_values ++ ss_committed three_values = [4098; 2; 1] ∧ NoDup (ss_running three_values ++ ss_committed three_values).
Proof.
  split; [vm_compute; reflexivity|]. apply (sequence_never_repeats ids three_values).
  - cbn. unfold bounds_ok, in_s, i128_MAX, i128_MIN. lia.
  - cbn. lia.
  - cbn. unfold i128_MAX. lia.
  - reflexivity.
  - cbn. lia.
  - assert (Hw : ∀ st, sq_value (ss_memory st) ≤ 5000 → sq_increment (ss_memory st) = 1 → sq_max_value (ss_memory st) = i128_MAX →
      no_wrap (ss_memory st)) by (intros st H1 H2 H3; unfold no_wrap; rewrite H2, H3; unfold i128_MAX, SEQUENCE_ALLOCATION_STEP; lia).
    eapply rtc_l; [eapply (sr_next _ 1); [vm_compute; reflexivity|intros _; by apply Hw]|].
    eapply rtc_l; [apply sr_commit|]. eapply rtc_l; [eapply (sr_next _ 2); [vm_compute; reflexivity|intros _; by apply Hw]|].
    eapply rtc_l; [apply sr_commit|]. eapply rtc_l; [eapply (sr_restart _); vm_compute; reflexivity|].
    eapply rtc_l; [eapply (sr_next _ 4098); [vm_compute; reflexivity|intros _; by apply Hw]|].
    vm_compute. apply rtc_refl.
Defined.

(** The transaction that allocates rolls back, the next one commits the value
    2, and the program restarts: the values from 1 on are handed out again. *)
Definition rolled_back : SeqState := seq_commit (seq_given (seq_rollback (seq_given (seq_start ids)))).
Example rollback_repeats_values :
  ss_committed rolled_back = [2] ∧
  ss_committed (seq_commit (seq_given (seq_given (seq_restarted rolled_back)))) = [2; 1; 2].
Proof. split; vm_compute; reflexivity. Qed.

(** A descending sequence hands out no value at all: the allocation that is made for it is below its value, so that it
    needs an allocation again. *)
Theorem sequence_descending_stuck s :
  bounds_ok (sq_min_value s) (sq_max_value s) (sq_increment s) → sq_min_value s ≤ sq_value s ≤ sq_max_value s →
  sq_increment s < 0 → sq_min_value s ≤ sq_value s + Z.of_nat SEQUENCE_ALLOCATION_STEP * sq_increment s →
  sq_allocated s ≤ sq_value s →
  gen_next_value (E:=unit) s = Ok (None, s) ∧
  ∃ s', allocate (E:=unit) s = Ok s' ∧ sq_allocated s' < sq_value s' ∧ gen_next_value (E:=unit) s' = Ok (None, s').
Proof.
  intros Hb Hv Hi Hn Ha. assert (0 < Z.of_nat SEQUENCE_ALLOCATION_STEP) by done.
  unfold allocate, nth_value. set (step := SEQUENCE_ALLOCATION_STEP) in *. split.
  - unfold gen_next_value, needs_allocation. by rewrite (proj2 (Z.leb_le _ _)) by done.
  - rewrite nth_from_within by (done || nia). cbn [rbind]. eexists. split; [done|]. cbn [set_allocation sq_allocated sq_value].
    split; [nia|]. unfold gen_next_value, needs_allocation. cbn [set_allocation sq_allocated sq_value].
    by rewrite (proj2 (Z.leb_le _ _)) by nia.
Qed.

Lemma sequence_descending_stuck_witness :
  let s := sequence_new 1 (-1) 10000 1 10000 0 in
  ∃ s', allocate (E:=unit) s = Ok s' ∧ sq_allocated s' = 5904 ∧ gen_next_value (E:=unit) s' = Ok (None, s').
Proof.
  intros s. destruct (sequence_descending_stuck s) as (_ & s' & H1 & _ & H2).
  - unfold bounds_ok, in_s, i128_MAX, i128_MIN. cbn. lia.
  - cbn. lia.
  - cbn. lia.
  - vm_compute. discriminate.
  - cbn. lia.
  - exists s'. split; [exact H1|]. split; [|exact H2]. vm_compute in H1. by injection H1 as <-.
Defined.

(** The examples of [next_in_sequence]; the first is said to give 1. *)
Example next_in_sequence_examples :
  map (λ '(min, max, increment, value), next_in_sequence (E:=unit) min max increment value)
    [(1, 10, 1, 9); (1, 10, 20, 5); (1, 10, 3, 5); (1, 10, 3, 9); (1, 10, -3, 4); (1, 10, -3, 1)] =
  [Ok 10; Ok 5; Ok 8; Ok 2; Ok 1; Ok 8].
Proof. reflexivity. Qed.
