(* ===== verification/RowInsert.v ===== *)
(** * Inserting rows from BSATN (crates/table/src/layout.rs, bflatn_to.rs, table.rs)

    A row that arrives as BSATN is validated and copied to its place when its
    type has a static layout.  Otherwise it is decoded, following the layout
    of the row type, and the value is written. *)

From Stdlib Require Import ZArith Lia.
From stdpp Require Import sorting gmap gmultiset list strings.
From S2P Require Import Prelude Buffer Sats Bsatn Mem Indexes VarLen BlobStore Page PageInv PageRows PageRead Pages PointerMap Layout RowTypeVisitor BflatnTo BflatnFrom BflatnRepr BflatnThm PagesThm StaticLayout StaticValidator RowEq ValueHash RowHash ColList RowRef ValueOrd BTreeMap IndexMaps TableIndex Table TableRows.
Local Open Scope Z_scope.
Local Open Scope result_scope.
Local Open Scope st_scope.

(** ** Decoding by layout *)

Section decode.
Context {R : Type} `{BufReader R}.
Local Abbreviation reads_as A := (result DecodeError (A * R)).

(** [SumVisitor] and [VariantVisitor] for [SumTypeLayout]. *)
Definition visit_sum_layout (f : AlgebraicTypeLayout → R → reads_as AlgebraicValue) (vars : list SumTypeVariantLayout) (r : R) :
    reads_as SumValue :=
  let* '(tag, r) := get_u8 r in
  (fix nth vars n :=
     match vars with
     | [] => Err (InvalidTag tag None)
     | var :: vars =>
         match n with
         | O => let* '(v, r) := f (vl_ty var) r in Ok (MkSumValue tag v, r)
         | S n => nth vars n
         end
     end) vars (Z.to_nat tag).

(** [ProductVisitor::visit_seq_product] for [ProductTypeLayoutView]. *)
Definition visit_elements_layout (f : AlgebraicTypeLayout → R → reads_as AlgebraicValue) :
    list ProductTypeElementLayout → R → reads_as (list AlgebraicValue) :=
  fix go els r :=
    match els with
    | [] => Ok ([], r)
    | e :: els => let* '(v, r) := f (pel_ty e) r in let* '(l, r) := go els r in Ok (v :: l, r)
    end.
Definition visit_product_layout (f : AlgebraicTypeLayout → R → reads_as AlgebraicValue) (els : list ProductTypeElementLayout) (r : R) :
    reads_as ProductValue :=
  let* '(l, r) := visit_elements_layout f els r in Ok (MkProductValue l, r).

(** [DeserializeSeed] for [AlgebraicTypeLayout]. *)
Fixpoint decode_layout (ty : AlgebraicTypeLayout) (r : R) {struct ty} : reads_as AlgebraicValue :=
  match ty with
  | LSum _ vars _ => rmapfst VSum (visit_sum_layout decode_layout vars r)
  | LProduct _ els => rmapfst VProduct (visit_product_layout decode_layout els r)
  | LPrimitive PBool => rmapfst VBool (deserialize_bool r)
  | LPrimitive (PInt k) => rmapfst (VInt k) (deserialize_int k r)
  | LPrimitive (PFloat k) => rmapfst (VFloat k) (deserialize_float k r)
  | LVarLen (VlArray ty) => decode ty r
  | LVarLen VlString => rmapfst VString (deserialize_str r)
  end.

(** [ty.product().deserialize(..)]. *)
Definition decode_row (ty : RowTypeLayout) (r : R) : reads_as ProductValue :=
  visit_product_layout decode_layout (row_elements ty) r.
End decode.

(** ** Inserting *)

Section insert.
Context {FloatI : FloatOrd} {Q B H : Type} {QueueI : PageQueue Q} {BsI : BlobStore B} {HashI : Blake3} {HasherI : RowHasher H}.
Local Abbreviation tstate := (Table * PagePool Q * B)%type.

(** What is left of the bytes is ignored. *)
Definition write_row_to_pages_bsatn (v : VarLenVisitorProgram) (ty : RowTypeLayout) (bytes : list byte) (squashed_offset : Z) :
    st (Pages * PagePool Q * B) BflatnError (Z * Z) :=
  let! ' (val, _) := smap_err BDecode (sres (decode_row ty bytes)) in
  write_row_to_pages v ty val squashed_offset.

(** The closure that [insert_physically_bsatn] runs on a page. *)
Definition copy_row_to_page (sl : StaticLayout) (fixed_row_size : Z) (row : list byte) : st (Page * B) BflatnError Z :=
  let! fixed_offset := lift_page (on_page (alloc_fixed_len fixed_row_size)) in
  let! fixed_buf := slift (λ '(p, _), fixed_get_row p fixed_offset fixed_row_size) in
  let! fixed_buf := sres (deserialize_row_into sl fixed_buf row) in
  let! data := slift (λ '(p, _), fixed_write_row p fixed_offset fixed_row_size 0 fixed_buf) in
  let! _ := on_page (smodify (set_row_data data)) in
  sret fixed_offset.

(** The fast path of [insert_physically_bsatn]. *)
Definition write_static_row (sl : StaticLayout) (va : StaticBsatnValidator) (ty : RowTypeLayout) (row : list byte) (squashed_offset : Z) :
    st (Pages * PagePool Q * B) BflatnError (Z * Z) :=
  let! _ := smap_err BDecode (sres (validate_bsatn va sl row)) in
  let fixed_row_size := row_size ty in
  let! ' (page, res) := smap_err BPagesError (with_page_to_insert_row fixed_row_size 0 (copy_row_to_page sl fixed_row_size row)) in
  match res with
  | Ok offset => sret (RowPointer_new false page offset squashed_offset, 0)
  | Err e => sthrow e
  | Panic | OutOfFuel => spanic
  end.

Definition insert_physically_bsatn (row : list byte) : st tstate BflatnError (RowRef B * Z) :=
  let! t := of_table (λ t _, Ok t) in
  let layout := ti_row_layout (tb_inner t) in
  let! ' (ptr, blob_bytes) := on_pages
    match ti_static_layout (tb_inner t) with
    | Some (static_layout, static_validator) => write_static_row static_layout static_validator layout row (tb_squashed_offset t)
    | None => write_row_to_pages_bsatn (ti_visitor_prog (tb_inner t)) layout row (tb_squashed_offset t)
    end in
  let! row_ref := of_table (λ t bs, get_row_ref_unchecked t bs ptr) in
  sret (row_ref, blob_bytes).
End insert.

(** ** Decoding by layout is decoding at the type *)

Lemma deserialize_depth ty fuel (r : list byte) :
  contains_refs ty = false → (type_depth ty ≤ fuel)%nat → deserialize fuel [] ty r = decode ty r.
Proof.
  intros Hr Hle. destruct (deserialize_more (R:=list byte) _ _ [] Hle ty r) as [[Ho|He] _]; [|done].
  destruct (deserialize_returns [] ty (type_depth ty) Hr (le_n _)) as [Hret _]. specialize (Hret r). by rewrite Ho in Hret.
Qed.

(** One variant, and the elements in turn. *)
Lemma visit_sum_layout_ok f g vars (r : list byte) :
  Forall (λ v, ∀ r, f (vl_ty v) r = g (algebraic_type (vl_ty v)) r) vars →
  visit_sum_layout f vars r =
  Bsatn.visit_sum g (map (λ v, {| var_name := vl_name v; var_type := algebraic_type (vl_ty v) |}) vars) r.
Proof.
  intros Hf. unfold visit_sum_layout, Bsatn.visit_sum. destruct (get_u8 r) as [[tag r']| | |]; [|done..]. cbn [rbind].
  generalize (Z.to_nat tag) as n. induction Hf as [|v vars Hv _ IH]; intros n; [done|].
  destruct n as [|n]; [|apply IH]. cbn. by rewrite Hv.
Qed.

Lemma visit_elements_layout_ok f g els (r : list byte) :
  Forall (λ e, ∀ r, f (pel_ty e) r = g (algebraic_type (pel_ty e)) r) els →
  visit_elements_layout f els r = Bsatn.visit_elements g (product_type els) r.
Proof.
  intros Hf. revert r. induction Hf as [|e els He _ IH]; intros r; [done|]. cbn. rewrite He.
  destruct (g _ r) as [[v r']| | |]; [|done..]. cbn. by rewrite IH.
Qed.

Lemma decode_layout_ok ty : contains_refs (algebraic_type ty) = false → ∀ fuel (r : list byte),
  (type_depth (algebraic_type ty) ≤ fuel)%nat → decode_layout ty r = deserialize fuel [] (algebraic_type ty) r.
Proof.
  induction ty as [l vars po IH|l els IH|p|v] using layout_nested_ind; intros Hnr fuel r Hd.
  - cbn in Hnr, Hd. destruct fuel as [|fuel]; [lia|]. apply le_S_n, max_list_with_le in Hd. cbn [decode_layout algebraic_type deserialize].
    f_equal. apply visit_sum_layout_ok. apply existsb_false_Forall in Hnr. apply Forall_map in Hnr. change (map ?f vars) with (f <$> vars) in Hd.
    rewrite Forall_fmap in Hd. rewrite Forall_forall in *. intros v Hv r'. by apply IH; [|apply Hnr|apply Hd].
  - cbn in Hnr, Hd. destruct fuel as [|fuel]; [lia|]. apply le_S_n, max_list_with_le in Hd. cbn [decode_layout algebraic_type deserialize].
    unfold visit_product_layout, Bsatn.visit_seq_product. change (map ?f els) with (product_type els). erewrite visit_elements_layout_ok; [done|].
    apply existsb_false_Forall in Hnr. apply Forall_map in Hnr. change (map ?f els) with (f <$> els) in Hd.
    rewrite Forall_fmap in Hd. rewrite Forall_forall in *. intros v Hv r'. by apply IH; [|apply Hnr|apply Hd].
  - destruct fuel as [|fuel]; [by destruct p; cbn in Hd; lia|]. by destruct p.
  - destruct v as [|t]; [by destruct fuel as [|fuel]; [cbn in Hd; lia|]|]. cbn in *. by rewrite deserialize_depth.
Qed.

Lemma decode_row_eq es rt (bytes : list byte) :
  row_type_layout (E:=unit) es = Ok rt → contains_refs (TProduct es) = false → ty_size (TProduct es) ≤ PAGE_DATA_SIZE →
  rmapfst VProduct (decode_row rt bytes) = decode (TProduct es) bytes.
Proof.
  intros Hrt Hnr Hsize. destruct (row_layout_ok (E:=unit) es) as (rt' & Hrt' & _ & Hes & _).
  { by apply (no_refs_of (TProduct es)). }
  { unfold PAGE_DATA_SIZE, PAGE_SIZE, PAGE_HEADER_SIZE, u16_MAX in Hsize. lia. }
  assert (rt' = rt) as -> by congruence. pose proof (decode_layout_ok (row_product rt)) as H.
  unfold row_product in H. cbn [algebraic_type] in H. change (map _ (row_elements rt)) with (product_type (row_elements rt)) in H.
  rewrite Hes in H. by apply H.
Qed.

(** Decoding a row by the layout of its type gives exactly what decoding it at the type gives, for any bytes: the same
    value with the same bytes left, or the same error. *)
Theorem decode_row_is_decode es rt (bytes : list byte) :
  row_type_layout (E:=unit) es = Ok rt → contains_refs (TProduct es) = false → ty_size (TProduct es) ≤ PAGE_DATA_SIZE →
  rmapfst VProduct (decode_row rt bytes) = decode (TProduct es) bytes.
Proof. apply decode_row_eq. Qed.

(** ** Inserting *)

Section rows.
Context {FloatI : FloatOrd} {FLawI : FloatOrdLaws}.
Context {Q B H : Type} {QueueI : PageQueue Q} {QLawI : PageQueueLaws Q}.
Context {BsI : BlobStore B} {HashI : Blake3} {LawI : BlobStoreLaws B} {HasherI : RowHasher H}.
Context (es : list ProductTypeElement) (rt : RowTypeLayout).
Context (Hrt : row_type_layout (E:=unit) es = Ok rt) (Hnr : contains_refs (TProduct es) = false).
Context (Hsize : ty_size (TProduct es) ≤ PAGE_DATA_SIZE) (Hcode : len (visitor_code rt) ≤ u16_MAX).
Context (m0 : gmultiset (list byte)) (sq : Z) (Hsq : in_u 8 sq).
Local Abbreviation rs := (row_size rt).
Local Abbreviation v := (row_type_visitor rt).
Local Abbreviation tstate := (Table * PagePool Q * B)%type.
Implicit Types (t : Table) (pool : PagePool Q) (bs : B) (A : gmap (nat * Z) ProductValue) (k : nat * Z).

(** A row of a type with a static layout has no var-len objects. *)
Lemma fixed_row_objects row val : fixed_row rt row val → product_objects val = [].
Proof using. intros [_ Hr]. destruct val as [vals]. symmetry. by eapply (proj2 (repr_objects row)). Qed.

Lemma static_objects sl val bytes :
  for_row_type rt = Ok sl → typed [] (TProduct es) (VProduct val) → to_vec (VProduct val) = Ok bytes → product_objects val = [].
Proof using Hrt Hnr Hsize.
  intros Hsl Ht Hb%to_vec_bsatn. destruct (row_good es rt Hrt Hnr Hsize) as [_ Hrs]. pose proof (rs_min _ Hrs) as Hmin.
  destruct (deserialize_static_row (E:=unit) es rt Hrt Hnr Hsize sl Hsl val bytes (replicate (Z.to_nat rs) x00) Ht Hb) as (row & _ & Hrow).
  - unfold len. rewrite length_replicate. clear -Hmin. lia.
  - by eapply fixed_row_objects.
Qed.

Lemma copy_row_to_page_ok sl p bs rows val bytes :
  for_row_type rt = Ok sl → typed [] (TProduct es) (VProduct val) → to_vec (VProduct val) = Ok bytes →
  page_inv rs v p rows → has_space_for_row (E:=PageError) p rs 0 = Ok true →
  ∃ o p' gr, copy_row_to_page sl rs bytes (p, bs) = (Ok o, (p', bs)) ∧
    rows !! o = None ∧ page_inv rs v p' (<[o := gr]> rows) ∧ gr_objs gr = [] ∧ row_repr rt gr val ∧ product_objects val = [].
Proof using Hrt Hnr Hsize Hcode.
  clear Hsq FLawI. intros Hsl Ht Hb%to_vec_bsatn (fl & vl & u & Hp & Hu & Hall) Hsp. destruct (row_good es rt Hrt Hnr Hsize) as [Hg Hrs].
  destruct (alloc_row_ok rs Hrs p fl (dom rows) vl u _ Hp Hsp) as (o & p1 & fl1 & Ha & H1 & Ho & Htk & Hl & _).
  assert (Hin : o ∈ {[o]} ∪ dom rows) by set_solver. pose proof (len_row rs Hrs _ _ _ _ _ o H1 Hin) as Hlr.
  destruct (deserialize_static_row (E:=BflatnError) es rt Hrt Hnr Hsize sl Hsl val bytes _ Ht Hb Hlr) as (row & Hd & Hrow).
  pose proof (fixed_row_objects row val Hrow) as Hobjs. destruct Hrow as [Hlen Hrep]. destruct val as [vals].
  destruct (write_row_ok rs Hrs p1 fl1 _ vl u o 0 row H1 Hin ltac:(lia) ltac:(lia)) as (data & Hw & H2 & Hk & Hpk).
  rewrite poke_all in Hpk by lia. set (gr := {| gr_fixed := row; gr_offs := []; gr_chains := []; gr_objs := [] |}).
  exists o, (set_row_data data p1), gr. split_and!; try done; [|by apply not_elem_of_dom|].
  - unfold copy_row_to_page. rewrite (sbind_Ok _ _ _ (p1, bs) o) by (unfold lift_page, on_page; by rewrite Ha).
    rewrite (sbind_Ok _ _ _ (p1, bs) (peek (pg_row_data p1) o rs)) by (unfold slift; by rewrite (fixed_get_row_ok rs Hrs _ _ _ _ _ _ H1 Hin)).
    rewrite (sbind_Ok _ _ _ (p1, bs) row) by (unfold sres; by rewrite Hd).
    rewrite (sbind_Ok _ _ _ (p1, bs) data); [done|]. unfold slift. revert Hw. unfold fixed_write_row.
    destruct (_ && _ && _); [|done]. unfold slice_write. destruct (in_bounds _ _ _); [|done]. by intros [= ->].
  - eapply (page_inv_insert rs Hrs v p p1 _ fl vl u o gr rows []); try done.
    + by apply (row_cell _ Hrs _ _ _ _ _ o H1); right.
    + split; [done| |constructor]. destruct (proj2 (repr_walks _) _ _ _ _ _ Hrep) as [ts Hts].
      by eapply (row_visitor_shape rt _ ts [] Hg).
    + eauto.
Qed.

(** The pages after a row was written to them. *)
Lemma stored_phys t pool bs A val i o ps rows :
  phys es rt m0 sq (tb_inner t) pool bs A → typed [] (TProduct es) (VProduct val) → in_u 39 (Z.of_nat i) → in_u 16 o →
  ∀ pool' bs', pages_inv rt m0 ps bs' (<[(i, o) := val]> A) rows → non_full_ok rt ps None → pool_ok pool' →
  phys es rt m0 sq (tb_inner (with_inner_pages t ps)) pool' bs' (<[(i, o) := val]> A).
Proof using Hsq.
  intros [H1 H2 H3 _ H5 H6] Ht Hi Ho pool' bs' Hinv Hnf Hpool. split; cbn; try done.
  - split; [by exists rows|done].
  - by apply map_Forall_insert_2.
  - apply map_Forall_insert_2; [|done]. unfold key_ok, ptr_of, ptr_key, ptr_ok. cbn [fst snd].
    rewrite page_index_new, page_offset_new, squashed_offset_new by done. split_and!; [by rewrite Nat2Z.id|done|..].
    + by apply RowPointer_new_range.
    + apply reserved_bit_new.
Qed.

(** The bytes of a row: its BSATN, or anything that starts with it when there is no static layout. *)
Definition row_bytes (i : TableInner) (bytes : list byte) (val : ProductValue) : Prop :=
  typed [] (TProduct es) (VProduct val) ∧
  match ti_static_layout i with
  | Some _ => to_vec (VProduct val) = Ok bytes
  | None => ∃ rest, decode (TProduct es) bytes = Ok (VProduct val, rest)
  end.

(** The validator of the static layout was made for the row type. *)
Definition validator_ok (i : TableInner) : Prop :=
  ∀ sl va, ti_static_layout i = Some (sl, va) → static_bsatn_validator (ti_row_layout i) = Ok va.

Context (Hfew : all_list (λ e, few_variants (pel_ty e)) (row_elements rt)) (Hvcode : validator_code rt ≤ u16_MAX).

Lemma write_static_ok t pool bs A bytes sl va :
  phys es rt m0 sq (tb_inner t) pool bs A → for_row_type rt = Ok sl → static_bsatn_validator rt = Ok va →
  (∃ val, typed [] (TProduct es) (VProduct val) ∧ to_vec (VProduct val) = Ok bytes ∧
    ((∃ k ps pool' bs', on_pages (write_static_row sl va rt bytes sq) (t, pool, bs) =
        (Ok (ptr_of sq k, large_bytes (product_objects val)), (with_inner_pages t ps, pool', bs')) ∧
       A !! k = None ∧ phys es rt m0 sq (tb_inner (with_inner_pages t ps)) pool' bs' (<[k := val]> A)) ∨
     on_pages (write_static_row sl va rt bytes sq) (t, pool, bs) = (Err (BPagesError TooManyPages), (t, pool, bs)) ∧
       num_pages t = PageIndex_MAX + 1)) ∨
  (∃ e, on_pages (write_static_row sl va rt bytes sq) (t, pool, bs) = (Err (BDecode e), (t, pool, bs)) ∧
    ∀ val, typed [] (TProduct es) (VProduct val) → to_vec (VProduct val) = Ok bytes → False).
Proof using Hrt Hnr Hsize Hcode Hsq Hfew Hvcode.
  intros Hph Hsl Hva. destruct (validate_ok es rt Hrt Hnr Hsize sl Hsl Hfew Hvcode) as (va' & Hva' & Hval).
  rewrite Hva in Hva'. injection Hva' as <-. destruct (Hval bytes) as [Hret Hiff]. unfold on_pages, write_static_row.
  destruct (validate_bsatn va sl bytes) as [[]|e| |] eqn:Hv; [left| |done|done].
  2: { right. exists e. unfold sbind at 1, smap_err at 1, sres at 1. split; [by rewrite with_own_pages|].
       intros val Ht Hb. by discriminate (proj2 Hiff (ex_intro _ val (conj Ht Hb))). }
  destruct (proj1 Hiff eq_refl) as (val & Ht & Hb). exists val. split_and!; [done..|].
  rewrite (sbind_Ok _ _ _ (ti_pages (tb_inner t), pool, bs) tt) by done.
  pose proof Hph as [H1 H2 H3 ((rows & Hinv) & Hnf & Hpool) H5 H6]. destruct (row_good es rt Hrt Hnr Hsize) as [_ Hrs].
  destruct (with_page_stores es rt Hrt Hnr Hsize m0 (copy_row_to_page sl rs bytes) id 0 _ pool bs A rows val Hinv Hnf Hpool)
    as [(o & i & ps & pool' & bs' & rows' & Hw & Hi & Ho & HA & Hinv' & Hnf' & Hpool')|[Hw Hl]].
  - pose proof (rs_max _ Hrs) as Hmax. change PAGE_END with PAGE_DATA_SIZE in Hmax. clear -Hmax. lia.
  - done.
  - intros p r Hpi Hm Hsp. destruct (copy_row_to_page_ok sl p bs r val bytes Hsl Ht Hb Hpi Hsp)
      as (o & p' & gr & Hw & Ho & Hp' & Hobjs & Hrep & Hobj). exists o, p', bs, gr. split_and!; try done; [congruence|].
    rewrite Hobj. change (large []) with (∅ : gmultiset (list byte)). by rewrite gmultiset_disj_union_right_id.
  - left. exists (i, o), ps, pool', bs'. split_and!; [|done|by eapply stored_phys].
    rewrite (sbind_Ok _ _ _ (ps, pool', bs') (Z.of_nat i, Ok o)) by (unfold smap_err; by rewrite Hw). cbn.
    by rewrite (static_objects sl val bytes Hsl Ht Hb).
  - right. unfold sbind at 1, smap_err at 1. rewrite Hw. by rewrite with_own_pages.
Qed.

(** The outcome of writing a row to the pages. *)
Definition written {X} (m : st tstate BflatnError X) (mk : Table → B → nat * Z → ProductValue → X) t pool bs A val : Prop :=
  (∃ k ps pool' bs', m (t, pool, bs) = (Ok (mk (with_inner_pages t ps) bs' k val), (with_inner_pages t ps, pool', bs')) ∧
     A !! k = None ∧ phys es rt m0 sq (tb_inner (with_inner_pages t ps)) pool' bs' (<[k := val]> A)) ∨
  m (t, pool, bs) = (Err (BPagesError TooManyPages), (t, pool, bs)) ∧ num_pages t = PageIndex_MAX + 1.

(** The pointer and the bytes that the writers return. *)
Local Abbreviation mk_ptr := (λ (_ : Table) (_ : B) k val, (ptr_of sq k, large_bytes (product_objects val))).
Local Abbreviation mk_ref := (λ t bs k val, (row_at_key sq t bs k, large_bytes (product_objects val))).

Lemma decode_row_cases (bytes : list byte) :
  (∃ val rest, decode_row rt bytes = Ok (val, rest) ∧ decode (TProduct es) bytes = Ok (VProduct val, rest)) ∨
  ∃ e, decode_row rt bytes = Err e ∧ decode (TProduct es) bytes = Err e.
Proof using Hrt Hnr Hsize.
  pose proof (decode_row_eq es rt bytes Hrt Hnr Hsize) as He. pose proof (deserialize_returns [] _ _ Hnr (le_n _)) as [Hret _].
  specialize (Hret bytes). change (deserialize _ _ _ _) with (decode (TProduct es) bytes) in Hret. rewrite <-He in *.
  destruct (decode_row rt bytes) as [[val rest]|e| |]; [left; by exists val, rest|right; by exists e|done..].
Qed.

Lemma write_bsatn_ok t pool bs A bytes :
  phys es rt m0 sq (tb_inner t) pool bs A → ti_static_layout (tb_inner t) = None →
  let w := on_pages (write_row_to_pages_bsatn (ti_visitor_prog (tb_inner t)) (ti_row_layout (tb_inner t)) bytes sq) in
  (∃ val, row_bytes (tb_inner t) bytes val ∧
    (fits rt val → collision_free (m0 ⊎ large (map_objects A) ⊎ large (product_objects val)) → written w mk_ptr t pool bs A val)) ∨
  (∃ e, w (t, pool, bs) = (Err (BDecode e), (t, pool, bs)) ∧ ∀ val, ¬ row_bytes (tb_inner t) bytes val).
Proof using Hrt Hnr Hsize Hcode Hsq.
  intros Hph Hsl w. unfold row_bytes. rewrite Hsl. pose proof (ph_layout _ _ _ _ _ _ _ _ Hph) as Hl.
  destruct (decode_row_cases bytes) as [(val & rest & Hd & Hdec)|(e & Hd & Hdec)].
  - left. exists val. pose proof Hdec as Hdec'. apply accepts_deserialize in Hdec' as (Ht & _). split_and!; [done|by exists rest|].
    intros Hfits Hc. unfold written. assert (Hw : w (t, pool, bs) =
      on_pages (write_row_to_pages (ti_visitor_prog (tb_inner t)) (ti_row_layout (tb_inner t)) val sq) (t, pool, bs)).
    { subst w. unfold on_pages, write_row_to_pages_bsatn. rewrite Hl. unfold sbind at 1, smap_err at 1, sres at 1. by rewrite Hd. }
    rewrite Hw. destruct (phys_write es rt Hrt Hnr Hsize Hcode m0 sq Hsq t pool bs A val Hph Ht Hfits Hc)
      as [(k & ps & pool' & bs' & He & HA & Hph')|[He Hn]]; [left; by exists k, ps, pool', bs'|right]. by rewrite with_own_pages in He.
  - right. exists e. split; [|intros val (_ & rest & Hv); congruence].
    subst w. unfold on_pages, write_row_to_pages_bsatn. rewrite Hl. unfold sbind at 1, smap_err at 1, sres at 1. rewrite Hd.
    by rewrite with_own_pages.
Qed.

Lemma insert_physically_bsatn_ok t pool bs A bytes :
  phys es rt m0 sq (tb_inner t) pool bs A → tb_squashed_offset t = sq → validator_ok (tb_inner t) →
  (∃ val, row_bytes (tb_inner t) bytes val ∧
    (fits rt val → collision_free (m0 ⊎ large (map_objects A) ⊎ large (product_objects val)) →
     written (insert_physically_bsatn bytes) mk_ref t pool bs A val)) ∨
  (∃ e, insert_physically_bsatn bytes (t, pool, bs) = (Err (BDecode e), (t, pool, bs)) ∧ ∀ val, ¬ row_bytes (tb_inner t) bytes val).
Proof using Hrt Hnr Hsize Hcode Hsq Hfew Hvcode.
  intros Hph Hs Hva. set (w := on_pages match ti_static_layout (tb_inner t) with
    | Some (sl, va) => write_static_row sl va (ti_row_layout (tb_inner t)) bytes sq
    | None => write_row_to_pages_bsatn (ti_visitor_prog (tb_inner t)) (ti_row_layout (tb_inner t)) bytes sq
    end : st tstate BflatnError (Z * Z)).
  assert (Hw : insert_physically_bsatn bytes (t, pool, bs) =
    sbind w (λ '(ptr, n), sbind (of_table (λ t bs, get_row_ref_unchecked t bs ptr)) (λ r, sret (r, n))) (t, pool, bs)).
  { unfold insert_physically_bsatn. rewrite (bind_of_table _ _ _ _ _ t eq_refl), Hs. done. }
  assert (Hcases : (∃ val, row_bytes (tb_inner t) bytes val ∧
    (fits rt val → collision_free (m0 ⊎ large (map_objects A) ⊎ large (product_objects val)) → written w mk_ptr t pool bs A val)) ∨
    (∃ e, w (t, pool, bs) = (Err (BDecode e), (t, pool, bs)) ∧ ∀ val, ¬ row_bytes (tb_inner t) bytes val)).
  { subst w. destruct (ti_static_layout (tb_inner t)) as [[sl va]|] eqn:Hsl; [|by apply write_bsatn_ok].
    pose proof Hph as [H1 _ H3 _ _ _]. pose proof (H3 sl va Hsl) as Hsl'. pose proof (Hva sl va Hsl) as Hva'. unfold row_bytes.
    rewrite H1, Hsl in *. destruct (write_static_ok t pool bs A bytes sl va Hph Hsl' Hva') as [(val & Ht & Hb & Hcase)|(e & He & Hno)].
    - left. exists val. split; [done|]. intros _ _. exact Hcase.
    - right. exists e. split; [done|]. intros val [Ht Hb]. by eapply Hno. }
  destruct Hcases as [(val & Hrow & Hok)|(e & He & Hno)]; [left|right].
  - exists val. split; [done|]. intros Hfits Hc. unfold written. rewrite Hw.
    destruct (Hok Hfits Hc) as [(k & ps & pool' & bs' & He & HA & Hph')|[He Hn]]; [left|right].
    + exists k, ps, pool', bs'. split_and!; [|done..]. rewrite (sbind_Ok _ _ _ _ _ He).
      by rewrite (bind_of_table _ _ _ _ _ _ (phys_row_ref es rt Hrt Hnr Hsize m0 sq (with_inner_pages t ps) pool' bs' _ k val Hs Hph' (lookup_insert_eq _ _ _))).
    + split; [|done]. by apply sbind_Err.
  - exists e. split; [|done]. rewrite Hw. by apply sbind_Err.
Qed.
End rows.

(** A row followed by more bytes is taken when the row type has no static layout, and refused when it has one. *)
Theorem trailing_bytes_accepted es (i : TableInner) val bs rest :
  contains_refs (TProduct es) = false → typed [] (TProduct es) (VProduct val) → to_vec (VProduct val) = Ok bs → rest ≠ [] →
  (∃ val', row_bytes es i (bs ++ rest) val') ↔ ti_static_layout i = None.
Proof.
  intros Hnr Ht Hb Hrest. pose proof Ht as (bs' & Hbs & n & Hn)%ev_value.
  assert (bs' = bs) as -> by (apply to_vec_bsatn in Hb; congruence).
  assert (Hdec : ∀ rest, decode (TProduct es) (bs ++ rest) = Ok (VProduct val, rest)).
  { intros rest'. eapply decode_enough; [done|]. intros m r Hm. by apply Hn. }
  unfold row_bytes. destruct (ti_static_layout i) as [sl|]; split; try done.
  - intros (val' & Ht' & Hb'). exfalso. pose proof Ht' as (bs' & Hbs' & n' & Hn')%ev_value.
    assert (bs' = bs ++ rest) as -> by (apply to_vec_bsatn in Hb'; congruence).
    assert (Hdec' : decode (TProduct es) ((bs ++ rest) ++ []) = Ok (VProduct val', [])).
    { eapply decode_enough; [done|]. intros m r Hm. by apply Hn'. }
    rewrite app_nil_r, Hdec in Hdec'. by injection Hdec' as _ ->.
  - intros _. exists val. split; [done|]. by exists rest.
Qed.
