(* ===== verification/TxState.v ===== *)
(** * The states of transactions (crates/core/src/db/datastore/locking_tx_datastore/{tx_state,committed_state}.rs)

    A transaction keeps the rows that it inserts in tables of its own, with
    their own blob store, and marks the committed rows that it deletes.  When
    it commits, the deletions and then the insertions are applied to the
    committed state; when it is rolled back, the changes that were made to the
    schemas of the committed tables are undone. *)

From Stdlib Require Import ZArith Lia String.
From stdpp Require Import sorting gmap gmultiset list strings.
From S2P Require Import Prelude Buffer Sats Bsatn Mem Indexes VarLen BlobStore Page Pages PointerMap Layout BflatnTo BflatnFrom RowHash ValueHash ColList RowRef ValueOrd BTreeMap IndexMaps TableIndex Table DeleteTable Sequence.
Local Open Scope Z_scope.
Local Open Scope result_scope.
Local Open Scope st_scope.

(** ** Changes of a schema (crates/schema/src/schema.rs) *)

(** [update_index] and the like: the first one with the id is replaced. *)
Definition find_update {A} (predicate : A → bool) (new : A) : list A → list A :=
  fix go l :=
    match l with
    | [] => [new]
    | x :: l => if predicate x then new :: l else x :: go l
    end.
Definition find_removed {A} (predicate : A → bool) (l : list A) : list A :=
  match find_remove predicate l with Some (_, l) => l | None => l end.

Definition schema_with_constraints (s : TableSchema) (constraints : list ConstraintSchema) : TableSchema :=
  {| sch_table_name := sch_table_name s; sch_columns := sch_columns s; sch_indexes := sch_indexes s;
     sch_constraints := constraints; sch_sequences := sch_sequences s; sch_table_access := sch_table_access s;
     sch_schedule := sch_schedule s; sch_row_type := sch_row_type s |}.
Definition schema_with_sequences (s : TableSchema) (sequences : list SequenceSchema) : TableSchema :=
  {| sch_table_name := sch_table_name s; sch_columns := sch_columns s; sch_indexes := sch_indexes s;
     sch_constraints := sch_constraints s; sch_sequences := sequences; sch_table_access := sch_table_access s;
     sch_schedule := sch_schedule s; sch_row_type := sch_row_type s |}.
Definition schema_with_access (s : TableSchema) (access : StAccess) : TableSchema :=
  {| sch_table_name := sch_table_name s; sch_columns := sch_columns s; sch_indexes := sch_indexes s;
     sch_constraints := sch_constraints s; sch_sequences := sch_sequences s; sch_table_access := access;
     sch_schedule := sch_schedule s; sch_row_type := sch_row_type s |}.

Definition schema_update_index (new : IndexSchema) (s : TableSchema) : TableSchema :=
  schema_with_indexes s (find_update (λ x, is_index_id x =? is_index_id new) new (sch_indexes s)).
Definition schema_remove_index (index_id : Z) (s : TableSchema) : TableSchema :=
  schema_with_indexes s (find_removed (λ x, is_index_id x =? index_id) (sch_indexes s)).
Definition schema_update_constraint (new : ConstraintSchema) (s : TableSchema) : TableSchema :=
  schema_with_constraints s (find_update (λ x, ct_constraint_id x =? ct_constraint_id new) new (sch_constraints s)).
Definition schema_remove_constraint (constraint_id : Z) (s : TableSchema) : TableSchema :=
  schema_with_constraints s (find_removed (λ x, ct_constraint_id x =? constraint_id) (sch_constraints s)).
Definition schema_update_sequence (new : SequenceSchema) (s : TableSchema) : TableSchema :=
  schema_with_sequences s (find_update (λ x, sq_sequence_id x =? sq_sequence_id new) new (sch_sequences s)).
Definition schema_remove_sequence (sequence_id : Z) (s : TableSchema) : TableSchema :=
  schema_with_sequences s (find_removed (λ x, sq_sequence_id x =? sequence_id) (sch_sequences s)).

(** [Table::with_mut_schema]. *)
Definition with_mut_schema (f : TableSchema → TableSchema) (t : Table) : Table := with_schema t (f (tb_schema t)).

(** ** The record of a transaction (crates/core/src/db/datastore/traits.rs) *)

Record TxData := {
  td_inserts : list (Z * list ProductValue);
  td_deletes : list (Z * list ProductValue);
  td_tables : gmap Z string;
  td_tx_offset : option Z;
}.
Definition tx_data_default : TxData := {| td_inserts := []; td_deletes := []; td_tables := ∅; td_tx_offset := None |}.
Definition entry_or_insert {V} (m : gmap Z V) (k : Z) (v : V) : gmap Z V := match m !! k with Some _ => m | None => <[k := v]> m end.
Definition set_inserts_for_table (table_id : Z) (table_name : string) (rows : list ProductValue) (d : TxData) : TxData :=
  {| td_inserts := bt_insert (td_inserts d) table_id rows; td_deletes := td_deletes d;
     td_tables := entry_or_insert (td_tables d) table_id table_name; td_tx_offset := td_tx_offset d |}.
Definition set_deletes_for_table (table_id : Z) (table_name : string) (rows : list ProductValue) (d : TxData) : TxData :=
  {| td_inserts := td_inserts d; td_deletes := bt_insert (td_deletes d) table_id rows;
     td_tables := entry_or_insert (td_tables d) table_id table_name; td_tx_offset := td_tx_offset d |}.
Definition set_tx_offset (tx_offset : Z) (d : TxData) : TxData :=
  {| td_inserts := td_inserts d; td_deletes := td_deletes d; td_tables := td_tables d; td_tx_offset := Some tx_offset |}.

(** [str::strip_prefix]. *)
Fixpoint strip_prefix (prefix s : string) : option string :=
  match prefix, s with
  | EmptyString, _ => Some s
  | String a prefix, String b s => if Ascii.eqb a b then strip_prefix prefix s else None
  | _, EmptyString => None
  end.
Definition non_empty {A} (e : Z * list A) : bool := match e.2 with [] => false | _ => true end.
(** The reducer, if there is one, is given by its name. *)
Definition has_rows_or_connect_disconnect (d : TxData) (reducer : option string) : bool :=
  existsb non_empty (td_inserts d) || existsb non_empty (td_deletes d) ||
  match option_map (strip_prefix "__identity_") reducer with
  | Some (Some name) => String.eqb name "connected__" || String.eqb name "disconnected__"
  | _ => false
  end.

(** ** The states *)

Section states.
Context {FloatI : FloatOrd} {Q B H : Type} {QueueI : PageQueue Q} {BsI : BlobStore B} {HashI : Blake3} {HasherI : RowHasher H}.
Local Abbreviation tstate := (Table * PagePool Q * B)%type.

Inductive PendingSchemaChange :=
| IndexRemoved (table_id index_id : Z) (table_index : TableIndex) (index_schema : IndexSchema)
| IndexAdded (table_id index_id : Z) (pointer_map : option PointerMap)
| TableRemoved (table_id : Z) (table : Table)
| TableAdded (table_id : Z)
| TableAlterAccess (table_id : Z) (access : StAccess)
| ConstraintRemoved (table_id : Z) (constraint_schema : ConstraintSchema)
| ConstraintAdded (table_id constraint_id : Z)
| SequenceRemoved (table_id : Z) (seq : Sequence) (schema : SequenceSchema)
| SequenceAdded (table_id sequence_id : Z).

Record TxState := {
  ts_insert_tables : list (Z * Table);
  ts_delete_tables : list (Z * DeleteTable);
  ts_blob_store : B;
  ts_pending_schema_changes : list PendingSchemaChange;
}.

Record CommittedState := {
  cs_next_tx_offset : Z;
  cs_tables : gmap Z Table;
  cs_blob_store : B;
  cs_index_id_map : gmap Z Z;
  cs_page_pool : PagePool Q;
}.

(** [TxState::default]: the blob store is an empty one. *)
Definition tx_state_default (empty : B) : TxState :=
  {| ts_insert_tables := []; ts_delete_tables := []; ts_blob_store := empty; ts_pending_schema_changes := [] |}.

Definition ts_with_insert_tables (s : TxState) (l : list (Z * Table)) : TxState :=
  {| ts_insert_tables := l; ts_delete_tables := ts_delete_tables s; ts_blob_store := ts_blob_store s;
     ts_pending_schema_changes := ts_pending_schema_changes s |}.
Definition ts_with_delete_tables (s : TxState) (l : list (Z * DeleteTable)) : TxState :=
  {| ts_insert_tables := ts_insert_tables s; ts_delete_tables := l; ts_blob_store := ts_blob_store s;
     ts_pending_schema_changes := ts_pending_schema_changes s |}.
Definition ts_with_blob_store (s : TxState) (bs : B) : TxState :=
  {| ts_insert_tables := ts_insert_tables s; ts_delete_tables := ts_delete_tables s; ts_blob_store := bs;
     ts_pending_schema_changes := ts_pending_schema_changes s |}.

Definition cs_with_tables (s : CommittedState) (tables : gmap Z Table) : CommittedState :=
  {| cs_next_tx_offset := cs_next_tx_offset s; cs_tables := tables; cs_blob_store := cs_blob_store s;
     cs_index_id_map := cs_index_id_map s; cs_page_pool := cs_page_pool s |}.
Definition cs_with_stores (s : CommittedState) (bs : B) (pool : PagePool Q) : CommittedState :=
  {| cs_next_tx_offset := cs_next_tx_offset s; cs_tables := cs_tables s; cs_blob_store := bs;
     cs_index_id_map := cs_index_id_map s; cs_page_pool := pool |}.
Definition cs_with_index_id_map (s : CommittedState) (m : gmap Z Z) : CommittedState :=
  {| cs_next_tx_offset := cs_next_tx_offset s; cs_tables := cs_tables s; cs_blob_store := cs_blob_store s;
     cs_index_id_map := m; cs_page_pool := cs_page_pool s |}.
Definition cs_with_next_tx_offset (s : CommittedState) (n : Z) : CommittedState :=
  {| cs_next_tx_offset := n; cs_tables := cs_tables s; cs_blob_store := cs_blob_store s;
     cs_index_id_map := cs_index_id_map s; cs_page_pool := cs_page_pool s |}.

(** ** [TxState] *)

(** The rows inserted, if there is a table for them, and those deleted. *)
Definition ts_table_row_count (s : TxState) (table_id : Z) : option Z * Z :=
  (option_map tb_row_count (bt_get (ts_insert_tables s) table_id),
   match bt_get (ts_delete_tables s) table_id with Some dt => dt_len dt | None => 0 end).

Definition ts_get {E} (s : TxState) (table_id row_ptr : Z) : result E (RowRef B) :=
  if is_tx_state (squashed_offset row_ptr) then
    match bt_get (ts_insert_tables s) table_id with
    | None => Panic
    | Some table =>
        let* row := get_row_ref table (ts_blob_store s) row_ptr in
        match row with Some row => Ok row | None => Panic end
    end
  else Panic.

Definition ts_is_deleted {E} (s : TxState) (table_id row_ptr : Z) : result E bool :=
  if is_committed_state (squashed_offset row_ptr) then
    match bt_get (ts_delete_tables s) table_id with Some dt => dt_contains dt row_ptr | None => Ok false end
  else Panic.

Definition get_delete_table (s : TxState) (table_id : Z) : option DeleteTable :=
  match bt_get (ts_delete_tables s) table_id with
  | Some dt => if dt_is_empty dt then None else Some dt
  | None => None
  end.

(** The delete tables with one for the table. *)
Definition get_delete_table_mut (delete_tables : list (Z * DeleteTable)) (table_id : Z) (table : Table) : list (Z * DeleteTable) :=
  match bt_get delete_tables table_id with
  | Some _ => delete_tables
  | None => bt_insert delete_tables table_id (delete_table_new (table_row_size table))
  end.

(** [get_table_and_blob_store_or_create_from]: the state with an insert table and a delete table. *)
Definition create_from {E} (table_id : Z) (template : Table) (s : TxState) : result E TxState :=
  let* ' (table, insert_tables) :=
    match bt_get (ts_insert_tables s) table_id with
    | Some table => Ok (table, ts_insert_tables s)
    | None =>
        let* new_table := table_clone_structure template TX_STATE in
        Ok (new_table, bt_insert (ts_insert_tables s) table_id new_table)
    end in
  let s := ts_with_insert_tables s insert_tables in
  Ok (ts_with_delete_tables s (get_delete_table_mut (ts_delete_tables s) table_id table)).

(** ** [CommittedState] *)

Definition cs_get {E} (s : CommittedState) (table_id row_ptr : Z) : result E (RowRef B) :=
  if is_committed_state (squashed_offset row_ptr) then
    match cs_tables s !! table_id with
    | None => Panic
    | Some table =>
        let* row := get_row_ref table (cs_blob_store s) row_ptr in
        match row with Some row => Ok row | None => Panic end
    end
  else Panic.

Definition get_table_for_index (s : CommittedState) (index_id : Z) : option Z := cs_index_id_map s !! index_id.

(** A computation on a table of the committed state, which must exist. *)
Definition on_commit_table {E A} (table_id : Z) (m : st tstate E A) : st CommittedState E A := λ s,
  match cs_tables s !! table_id with
  | None => (Panic, s)
  | Some t =>
      let '(r, (t, pool, bs)) := m (t, cs_page_pool s, cs_blob_store s) in
      (r, cs_with_stores (cs_with_tables s (<[table_id := t]> (cs_tables s))) bs pool)
  end.

(** *** Merging *)

(** The rows are deleted and collected. *)
Fixpoint delete_rows {E} (row_ptrs : list Z) : st tstate E (list ProductValue) :=
  match row_ptrs with
  | [] => sret []
  | row_ptr :: row_ptrs =>
      let! deleted := table_delete (H:=H) row_ptr (rr_to_product_value (E:=E)) in
      match deleted with
      | None => spanic
      | Some pv =>
          let! pv := sres pv in
          let! deletes := delete_rows row_ptrs in
          sret (pv :: deletes)
      end
  end.

Fixpoint merge_apply_deletes {E} (delete_tables : list (Z * DeleteTable)) (tx_data : TxData) : st CommittedState E TxData :=
  match delete_tables with
  | [] => sret tx_data
  | (table_id, row_ptrs) :: delete_tables =>
      let! s := sgets id in
      match cs_tables s !! table_id with
      | Some table =>
          let! ptrs := sres (dt_iter row_ptrs) in
          let! deletes := on_commit_table table_id (delete_rows ptrs) in
          merge_apply_deletes delete_tables
            match deletes with
            | [] => tx_data
            | _ => set_deletes_for_table table_id (sch_table_name (tb_schema table)) deletes tx_data
            end
      | None => if dt_is_empty row_ptrs then merge_apply_deletes delete_tables tx_data else spanic
      end
  end.

Definition get_table_and_blob_store_or_create {E} (table_id : Z) (schema : TableSchema) : st CommittedState E unit :=
  let! s := sgets id in
  match cs_tables s !! table_id with
  | Some _ => sret tt
  | None =>
      let! table := sres (table_new schema COMMITTED_STATE) in
      smodify (λ s, cs_with_tables s (<[table_id := table]> (cs_tables s)))
  end.

(** The rows are inserted and collected. *)
Fixpoint insert_rows {E} (row_refs : list (RowRef B)) : st tstate E (list ProductValue) :=
  match row_refs with
  | [] => sret []
  | row_ref :: row_refs =>
      let! pv := sres (rr_to_product_value row_ref) in
      let! _ := sunwrap (table_insert (H:=H) pv) in
      let! inserts := insert_rows row_refs in
      sret (pv :: inserts)
  end.

Fixpoint merge_apply_inserts {E} (insert_tables : list (Z * Table)) (tx_blob_store : B) (tx_data : TxData) : st CommittedState E TxData :=
  match insert_tables with
  | [] => sret tx_data
  | (table_id, tx_table) :: insert_tables =>
      let! _ := get_table_and_blob_store_or_create table_id (tb_schema tx_table) in
      let! row_refs := sres (scan_rows tx_table tx_blob_store) in
      let! inserts := on_commit_table table_id (insert_rows row_refs) in
      let! table_name := on_commit_table table_id (of_table (λ t _, Ok (sch_table_name (tb_schema t)))) in
      let! _ := on_commit_table table_id (on_table (smodify (λ t, with_schema t (tb_schema tx_table)))) in
      let! _ := smodify (λ s, cs_with_stores s (cs_blob_store s)
                               (pool_put_many (cs_page_pool s) (pages (ti_pages (tb_inner tx_table))))) in
      merge_apply_inserts insert_tables tx_blob_store
        match inserts with
        | [] => tx_data
        | _ => set_inserts_for_table table_id table_name inserts tx_data
        end
  end.

Definition tx_consumes_offset (tx_data : TxData) (reducer : option string) : bool :=
  has_rows_or_connect_disconnect tx_data reducer.

Definition merge {E} (tx_state : TxState) (reducer : option string) : st CommittedState E TxData :=
  let! tx_data := merge_apply_deletes (ts_delete_tables tx_state) tx_data_default in
  let! tx_data := merge_apply_inserts (ts_insert_tables tx_state) (ts_blob_store tx_state) tx_data in
  if tx_consumes_offset tx_data reducer then
    let! offset := sgets cs_next_tx_offset in
    let! next := sres (add_u 64 offset 1) in
    let! _ := smodify (λ s, cs_with_next_tx_offset s next) in
    sret (set_tx_offset offset tx_data)
  else sret tx_data.

(** *** Rolling back *)

(** Changes of the schema of a table, if it exists. *)
Definition alter_schema {E} (table_id : Z) (f : TableSchema → TableSchema) : st (CommittedState * SequencesState) E unit :=
  smodify (λ '(s, seqs), (cs_with_tables s (alter (with_mut_schema f) table_id (cs_tables s)), seqs)).

Definition rollback_pending_schema_change {E} (change : PendingSchemaChange) : st (CommittedState * SequencesState) E unit := λ '(s, seqs),
  match change with
  | IndexRemoved table_id index_id table_index index_schema =>
      match cs_tables s !! table_id with
      | None => (Ok tt, (s, seqs))
      | Some table =>
          let table := with_mut_schema (schema_update_index index_schema) (add_index index_id table_index table).2 in
          let s := cs_with_tables s (<[table_id := table]> (cs_tables s)) in
          (Ok tt, (cs_with_index_id_map s (<[index_id := table_id]> (cs_index_id_map s)), seqs))
      end
  | IndexAdded table_id index_id pointer_map =>
      match cs_tables s !! table_id with
      | None => (Ok tt, (s, seqs))
      | Some table =>
          (let! _ := λ '(s, seqs), let '(r, s) := on_commit_table table_id (delete_index (H:=H) index_id pointer_map) s in (r, (s, seqs)) in
           let! _ := alter_schema table_id (schema_remove_index index_id) in
           smodify (λ '(s, seqs), (cs_with_index_id_map s (delete index_id (cs_index_id_map s)), seqs))) (s, seqs)
      end
  | TableRemoved table_id table => (Ok tt, (cs_with_tables s (<[table_id := table]> (cs_tables s)), seqs))
  | TableAdded table_id => (Ok tt, (cs_with_tables s (delete table_id (cs_tables s)), seqs))
  | TableAlterAccess table_id access => alter_schema table_id (λ sch, schema_with_access sch access) (s, seqs)
  | ConstraintRemoved table_id constraint_schema => alter_schema table_id (schema_update_constraint constraint_schema) (s, seqs)
  | ConstraintAdded table_id constraint_id => alter_schema table_id (schema_remove_constraint constraint_id) (s, seqs)
  | SequenceRemoved table_id seq schema =>
      match cs_tables s !! table_id with
      | None => (Ok tt, (s, seqs))
      | Some _ =>
          (let! _ := alter_schema table_id (schema_update_sequence schema) in
           smodify (λ '(s, seqs), (s, seqs_insert seq seqs))) (s, seqs)
      end
  | SequenceAdded table_id sequence_id =>
      match cs_tables s !! table_id with
      | None => (Ok tt, (s, seqs))
      | Some _ =>
          (let! _ := alter_schema table_id (schema_remove_sequence sequence_id) in
           smodify (λ '(s, seqs), (s, (seqs_remove sequence_id seqs).2))) (s, seqs)
      end
  end.

Fixpoint rollback_changes {E} (changes : list PendingSchemaChange) : st (CommittedState * SequencesState) E unit :=
  match changes with
  | [] => sret tt
  | change :: changes => let! _ := rollback_pending_schema_change change in rollback_changes changes
  end.
(** The last change is undone first. *)
Definition cs_rollback {E} (tx_state : TxState) : st (CommittedState * SequencesState) E unit :=
  rollback_changes (rev (ts_pending_schema_changes tx_state)).
End states.
