(* ===== verification/MutTx.v ===== *)
(** * Transactions (crates/core/src/db/datastore/locking_tx_datastore/{mut_tx,state_view}.rs)

    A transaction inserts, updates and deletes rows of tables, generates the
    values of sequences, and reads the rows as they are after its changes. *)

From Stdlib Require Import ZArith Lia String.
From stdpp Require Import sorting gmap gmultiset list strings.
From S2P Require Import Prelude Buffer Sats Bsatn Mem Indexes VarLen BlobStore Page Pages PointerMap Layout BflatnTo BflatnFrom RowHash ValueHash ColList RowRef ValueOrd BTreeMap IndexMaps TableIndex Table RowInsert DeleteTable Sequence TxState.
Local Open Scope Z_scope.
Local Open Scope result_scope.
Local Open Scope st_scope.

(** [DatastoreError], with the errors of tables, indexes and sequences that occur here. *)
Inductive DatastoreError :=
| TableIdNotFound (table_id : Z)
| TableIdNotFoundState (table_id : Z)
| TableBflatn (e : BflatnError)
| TableDuplicate (existing : Z)
| IndexNotFound (index_id : Z)
| IndexNotUnique (index_id : Z)
| IndexKeyNotFound (index_id : Z) (key : AlgebraicValue)
| IndexViolation (e : UniqueConstraintViolation)
| SequenceNotFound (sequence_id : Z)
| SequenceUnableToAllocate (sequence_id : Z)
| ReadViaBsatnError.

(** [From<InsertError>]. *)
Definition of_insert_error (e : InsertError) : DatastoreError :=
  match e with
  | Duplicate existing => TableDuplicate existing
  | Bflatn e => TableBflatn e
  | IndexError e => IndexViolation e
  end.

(** ** Rows of [st_sequence] (crates/core/src/db/datastore/system_tables.rs) *)

Definition ST_SEQUENCE_ID : Z := 3.
Record StSequenceRow := {
  sr_sequence_id : Z;
  sr_sequence_name : list byte;
  sr_table_id : Z;
  sr_col_pos : Z;
  sr_increment : Z;
  sr_start : Z;
  sr_min_value : Z;
  sr_max_value : Z;
  sr_allocated : Z;
}.
(** Its derived [SpacetimeType], [Serialize] and [Deserialize]. *)
Definition st_sequence_type : list ProductTypeElement :=
  map (λ '(name, ty), {| el_name := Some name; el_type := ty |})
    [("sequence_id", TInt U32); ("sequence_name", TString); ("table_id", TInt U32); ("col_pos", TInt U16); ("increment", TInt I128);
     ("start", TInt I128); ("min_value", TInt I128); ("max_value", TInt I128); ("allocated", TInt I128)]%string.
Definition st_sequence_value (r : StSequenceRow) : ProductValue :=
  MkProductValue [VInt U32 (sr_sequence_id r); VString (sr_sequence_name r); VInt U32 (sr_table_id r); VInt U16 (sr_col_pos r);
                      VInt I128 (sr_increment r); VInt I128 (sr_start r); VInt I128 (sr_min_value r); VInt I128 (sr_max_value r);
                      VInt I128 (sr_allocated r)].
Definition st_sequence_of (v : AlgebraicValue) : option StSequenceRow :=
  match v with
  | VProduct (MkProductValue [VInt _ id; VString name; VInt _ table; VInt _ col; VInt _ increment; VInt _ start; VInt _ mn; VInt _ mx; VInt _ allocated]) =>
      Some {| sr_sequence_id := id; sr_sequence_name := name; sr_table_id := table; sr_col_pos := col; sr_increment := increment;
              sr_start := start; sr_min_value := mn; sr_max_value := mx; sr_allocated := allocated |}
  | _ => None
  end.
Definition with_allocated (r : StSequenceRow) (allocated : Z) : StSequenceRow :=
  {| sr_sequence_id := sr_sequence_id r; sr_sequence_name := sr_sequence_name r; sr_table_id := sr_table_id r;
     sr_col_pos := sr_col_pos r; sr_increment := sr_increment r; sr_start := sr_start r; sr_min_value := sr_min_value r;
     sr_max_value := sr_max_value r; sr_allocated := allocated |}.

Section transactions.
Context {FloatI : FloatOrd} {Q B H : Type} {QueueI : PageQueue Q} {BsI : BlobStore B} {HashI : Blake3} {HasherI : RowHasher H}.
Local Abbreviation tstate := (Table * PagePool Q * B)%type.

(** [StSequenceRow::try_from], through [read_via_bsatn]. *)
Definition read_st_sequence (row : RowRef B) : result DatastoreError StSequenceRow :=
  match to_bsatn_extend row [] with
  | Ok buf =>
      match decode (TProduct st_sequence_type) buf with
      | Ok (v, _) => match st_sequence_of v with Some r => Ok r | None => Panic end
      | Err _ => Err ReadViaBsatnError
      | Panic => Panic
      | OutOfFuel => OutOfFuel
      end
  | Err _ => Err ReadViaBsatnError
  | Panic => Panic
  | OutOfFuel => OutOfFuel
  end.

(** ** A row that is in the pages of the insert table *)

(** The parts of a transaction on a table: the insert table, the pool of
    pages, the blob store and the delete table. *)
Definition TxParts : Type := Table * PagePool Q * B * DeleteTable.

Definition with_table {E A} (m : st tstate E A) : st TxParts E A := λ '(t, pool, bs, dt),
  let '(r, (t, pool, bs)) := m (t, pool, bs) in (r, (t, pool, bs, dt)).
Definition with_deletes {E A} (m : DeleteTable → result E (A * DeleteTable)) : st TxParts E A := λ '(t, pool, bs, dt),
  match m dt with
  | Ok (a, dt) => (Ok a, (t, pool, bs, dt))
  | Err e => (Err e, (t, pool, bs, dt))
  | Panic => (Panic, (t, pool, bs, dt))
  | OutOfFuel => (OutOfFuel, (t, pool, bs, dt))
  end.

Inductive RowRefInsertion :=
| Inserted (row_ref : RowRef B)
| Existed (row_ref : RowRef B).

(** The result of a computation, to be looked at. *)
Definition sresult {S E E' A} (m : st S E A) : st S E' (result E A) := λ s, let '(r, s) := m s in (Ok r, s).
Definition of_tx_table {E A} (f : Table → B → result E A) : st TxParts E A := with_table (of_table f).

(** The row is in the committed state, where it may be marked as deleted: the
    new one is taken out of the insert table. *)
Definition undelete (commit_table : Table) (commit_blob_store : B) (tx_row_ptr commit_ptr : Z) : st TxParts DatastoreError (RowRef B) :=
  let! deleted := with_table (table_delete (H:=H) tx_row_ptr (λ _, tt)) in
  let! _ := sassert (match deleted with Some _ => true | None => false end) in
  let! _ := with_deletes (dt_remove commit_ptr) in
  sres (get_row_ref_unchecked commit_table commit_blob_store commit_ptr).

(** [insert], from the confirmation of the row on. *)
Definition confirm_tx_insertion (commit_table : Table) (commit_blob_store : B) (tx_row_ptr blob_bytes : Z) :
    st TxParts DatastoreError RowRefInsertion :=
  let! res := sresult (with_table (confirm_insertion (H:=H) true tx_row_ptr blob_bytes)) in
  match res with
  | Ok (tx_row_hash, tx_row_ptr) =>
      let! ' (_, same) := of_tx_table (λ tx_table tx_blob_store,
        find_same_row (H:=H) commit_table tx_table tx_blob_store tx_row_ptr tx_row_hash) in
      match same with
      | Some commit_ptr =>
          let! row_ref := undelete commit_table commit_blob_store tx_row_ptr commit_ptr in
          sret (Existed row_ref)
      | None =>
          let! tx_row_ref := of_tx_table (λ tx_table tx_blob_store, get_row_ref_unchecked tx_table tx_blob_store tx_row_ptr) in
          let! delete_table := sgets snd in
          let! violation := sres (check_unique_constraints commit_table tx_row_ref (tb_indexes commit_table) (dt_contains delete_table)) in
          match violation with
          | Some e =>
              let! _ := with_table (table_delete (H:=H) tx_row_ptr (λ _, tt)) in
              sthrow (IndexViolation e)
          | None =>
              let! row_ref := of_tx_table (λ tx_table tx_blob_store, get_row_ref_unchecked tx_table tx_blob_store tx_row_ptr) in
              sret (Inserted row_ref)
          end
      end
  | Err (Duplicate ptr) =>
      let! row_ref := of_tx_table (λ tx_table tx_blob_store, get_row_ref_unchecked tx_table tx_blob_store ptr) in
      sret (Existed row_ref)
  | Err (IndexError e) => sthrow (IndexViolation e)
  | Err (Bflatn e) => sthrow (TableBflatn e)
  | Panic => spanic
  | OutOfFuel => sres OutOfFuel
  end.

(** [update] after the physical insertion, up to the end of the block
    ['error]: [inr] is a result, [inl] is an error that is thrown inside of
    it. *)
Definition inserted_row (tx_row_ptr : Z) : st TxParts DatastoreError (DatastoreError + RowRefInsertion) :=
  let! row_ref := of_tx_table (λ tx_table tx_blob_store, get_row_ref_unchecked tx_table tx_blob_store tx_row_ptr) in
  sret (inr (Inserted row_ref)).

(** The old row was found in the committed state. *)
Definition replace_committed (commit_table : Table) (commit_blob_store : B) (old_ptr tx_row_ptr blob_bytes : Z) :
    st TxParts DatastoreError (DatastoreError + RowRefInsertion) :=
  let! same := of_tx_table (λ tx_table _, table_eq_row commit_table old_ptr tx_table tx_row_ptr) in
  if same : bool then
    let! _ := with_table (delete_internal_skip_pointer_map tx_row_ptr) in
    let! row_ref := sres (get_row_ref_unchecked commit_table commit_blob_store old_ptr) in
    sret (inr (Existed row_ref))
  else
    let! ' (_, tx_row_ptr) := smap_err of_insert_error (with_table (confirm_insertion (H:=H) false tx_row_ptr blob_bytes)) in
    let! _ := with_deletes (dt_insert old_ptr) in
    inserted_row tx_row_ptr.

(** The deleted row, if there is one and it is equal to the new one, takes its place. *)
Definition undelete_equal (commit_table : Table) (commit_blob_store : B) (old_commit_del_ptr : option Z) (tx_row_ptr : Z) :
    st TxParts DatastoreError (DatastoreError + RowRefInsertion) :=
  match old_commit_del_ptr with
  | None => inserted_row tx_row_ptr
  | Some old_commit_del_ptr =>
      let! same := of_tx_table (λ tx_table _, table_eq_row commit_table old_commit_del_ptr tx_table tx_row_ptr) in
      if same : bool then
        let! row_ref := undelete commit_table commit_blob_store tx_row_ptr old_commit_del_ptr in
        sret (inr (Existed row_ref))
      else inserted_row tx_row_ptr
  end.

(** The old row is searched for in the insert table; [old_commit_del_ptr] is a
    deleted row of the committed state with the key. *)
Definition replace_inserted (commit_table : Table) (commit_blob_store : B) (index_id : Z) (index_key : AlgebraicValue)
    (old_commit_del_ptr : option Z) (tx_row_ptr blob_bytes : Z) : st TxParts DatastoreError (DatastoreError + RowRefInsertion) :=
  let! old := of_tx_table (λ tx_table _,
    match get_index_by_id tx_table index_id with
    | None => Ok None
    | Some index => let* ptrs := ix_seek_point index index_key in Ok (head ptrs)
    end) in
  match old with
  | None => sret (inl (IndexKeyNotFound index_id index_key))
  | Some old_ptr =>
      let! tx_row_ptr := smap_err of_insert_error (with_table (confirm_update (H:=H) tx_row_ptr old_ptr blob_bytes)) in
      undelete_equal commit_table commit_blob_store old_commit_del_ptr tx_row_ptr
  end.

(** The committed row that was found is one to replace, or a deleted one. *)
Definition committed_old (del_table : DeleteTable) (found : list Z) : result DatastoreError (option Z * option Z) :=
  match found with
  | [] => Ok (None, None)
  | ptr :: _ => let* deleted := dt_contains del_table ptr in
                Ok (if deleted : bool then (None, Some ptr) else (Some ptr, None))
  end.

Definition replace_row (commit_table : Table) (commit_blob_store : B) (index_id tx_row_ptr blob_bytes : Z) :
    st TxParts DatastoreError (DatastoreError + RowRefInsertion) :=
  match get_index_by_id commit_table index_id with
  | None => sret (inl (IndexNotFound index_id))
  | Some commit_index =>
      if negb (ix_is_unique commit_index) then sret (inl (IndexNotUnique index_id))
      else
        let! tx_row_ref := of_tx_table (λ tx_table tx_blob_store, get_row_ref_unchecked tx_table tx_blob_store tx_row_ptr) in
        let! index_key := sres (project_unchecked tx_row_ref (ix_indexed_columns commit_index)) in
        let! del_table := sgets snd in
        let! found := sres (ix_seek_point commit_index index_key) in
        let! ' (commit_old_ptr, old_commit_del_ptr) := sres (committed_old del_table found) in
        let is_deleted commit_ptr :=
          if match commit_old_ptr with Some old_ptr => old_ptr =? commit_ptr | None => false end then Ok true
          else dt_contains del_table commit_ptr in
        let! violation := sres (check_unique_constraints commit_table tx_row_ref
                                  (filter (λ e, e.1 ≠ index_id) (tb_indexes commit_table)) is_deleted) in
        match violation with
        | Some e => sret (inl (IndexViolation e))
        | None =>
            match commit_old_ptr with
            | Some old_ptr => replace_committed commit_table commit_blob_store old_ptr tx_row_ptr blob_bytes
            | None => replace_inserted commit_table commit_blob_store index_id index_key old_commit_del_ptr tx_row_ptr blob_bytes
            end
        end
  end.

(** [update], with what is done after an error. *)
Definition confirm_tx_update (commit_table : Table) (commit_blob_store : B) (index_id tx_row_ptr blob_bytes : Z) :
    st TxParts DatastoreError RowRefInsertion :=
  let! res := replace_row commit_table commit_blob_store index_id tx_row_ptr blob_bytes in
  match res with
  | inr row_ref => sret row_ref
  | inl err =>
      let! _ := with_table (delete_internal_skip_pointer_map tx_row_ptr) in
      sthrow err
  end.

(** ** The transaction *)

(** The locks are held for the whole transaction. *)
Record MutTxId := {
  mt_tx_state : @TxState B;
  mt_committed_state : @CommittedState Q B;
  mt_sequence_state : SequencesState;
}.
Definition with_tx_state (s : MutTxId) (tx : @TxState B) : MutTxId :=
  {| mt_tx_state := tx; mt_committed_state := mt_committed_state s; mt_sequence_state := mt_sequence_state s |}.
Definition with_page_pool (s : MutTxId) (pool : PagePool Q) : MutTxId :=
  {| mt_tx_state := mt_tx_state s;
     mt_committed_state := cs_with_stores (mt_committed_state s) (cs_blob_store (mt_committed_state s)) pool;
     mt_sequence_state := mt_sequence_state s |}.
Definition with_sequence_state (s : MutTxId) (seqs : SequencesState) : MutTxId :=
  {| mt_tx_state := mt_tx_state s; mt_committed_state := mt_committed_state s; mt_sequence_state := seqs |}.

(** The insert table and the delete table are there. *)
Definition on_tx_parts {E A} (table_id : Z) (m : st TxParts E A) : st MutTxId E A := λ s,
  let tx := mt_tx_state s in
  match bt_get (ts_insert_tables tx) table_id, bt_get (ts_delete_tables tx) table_id with
  | Some tx_table, Some delete_table =>
      let '(r, (tx_table, pool, bs, delete_table)) :=
        m (tx_table, cs_page_pool (mt_committed_state s), ts_blob_store tx, delete_table) in
      (r, with_page_pool (with_tx_state s
            {| ts_insert_tables := bt_insert (ts_insert_tables tx) table_id tx_table;
               ts_delete_tables := bt_insert (ts_delete_tables tx) table_id delete_table;
               ts_blob_store := bs; ts_pending_schema_changes := ts_pending_schema_changes tx |}) pool)
  | _, _ => (Panic, s)
  end.

(** [get_table_and_blob_store]. *)
Definition get_commit_table (table_id : Z) : st MutTxId DatastoreError (Table * B) := λ s,
  let cs := mt_committed_state s in
  (match cs_tables cs !! table_id with Some table => Ok (table, cs_blob_store cs) | None => Err (TableIdNotFoundState table_id) end, s).
Definition ensure_tx_table {E} (table_id : Z) (commit_table : Table) : st MutTxId E unit := λ s,
  match create_from table_id commit_table (mt_tx_state s) with
  | Ok tx => (Ok tt, with_tx_state s tx)
  | Err e => (Err e, s)
  | Panic => (Panic, s)
  | OutOfFuel => (OutOfFuel, s)
  end.

(** *** Inserting *)

Fixpoint gen_values (next_value : Z → st MutTxId DatastoreError Z) (seqs : list Z) : st MutTxId DatastoreError (list Z) :=
  match seqs with
  | [] => sret []
  | sequence_id :: seqs =>
      let! val := next_value sequence_id in
      let! vals := gen_values next_value seqs in
      sret (val :: vals)
  end.
Fixpoint write_gen_vals {E} (ptr : Z) (cols_vals : list (Z * Z)) (t : Table) : result E Table :=
  match cols_vals with
  | [] => Ok t
  | (col_id, seq_val) :: cols_vals => let* t := write_gen_val_to_col col_id ptr seq_val t in write_gen_vals ptr cols_vals t
  end.

(** The next value of a sequence is an argument, since to get it a row is inserted. *)
Definition generate_cols (next_value : Z → st MutTxId DatastoreError Z) (table_id tx_row_ptr : Z) : st MutTxId DatastoreError ColList :=
  let! ' (cols_to_gen, seqs_to_use) := on_tx_parts table_id (of_tx_table (λ tx_table tx_blob_store,
    sequence_triggers_for tx_table tx_blob_store tx_row_ptr)) in
  let! seq_vals := gen_values next_value seqs_to_use in
  let! tx_table := on_tx_parts table_id (of_tx_table (λ tx_table _,
    write_gen_vals tx_row_ptr (zip (col_list_iter cols_to_gen) seq_vals) tx_table)) in
  let! _ := on_tx_parts table_id (with_table (on_table (λ _, (Ok tt, tx_table)))) in
  sret cols_to_gen.

Definition insert_physically_maybe_generate (next_value : Z → st MutTxId DatastoreError Z) (generate : bool) (table_id : Z) (row : list byte) :
    st MutTxId DatastoreError (Z * ColList * Z * (Table * B)) :=
  let! commit_parts := get_commit_table table_id in
  let! _ := ensure_tx_table table_id commit_parts.1 in
  let! ' (tx_row_ref, blob_bytes) := smap_err TableBflatn (on_tx_parts table_id (with_table (insert_physically_bsatn row))) in
  let tx_row_ptr := rr_pointer tx_row_ref in
  let! gen_cols := if generate then generate_cols next_value table_id tx_row_ptr else sres (from_inline 0) in
  sret (tx_row_ptr, gen_cols, blob_bytes, commit_parts).

(** [insert]; the flag tells of a scheduler table. *)
Definition insert_with (next_value : Z → st MutTxId DatastoreError Z) (generate : bool) (table_id : Z) (row : list byte) :
    st MutTxId DatastoreError (ColList * RowRefInsertion * bool) :=
  let! ' (tx_row_ptr, gen_cols, blob_bytes, (commit_table, commit_blob_store)) :=
    insert_physically_maybe_generate next_value generate table_id row in
  let! is_scheduler_table := on_tx_parts table_id (of_tx_table (λ tx_table _, Ok (tb_is_scheduler tx_table))) in
  let! row_ref := on_tx_parts table_id (confirm_tx_insertion commit_table commit_blob_store tx_row_ptr blob_bytes) in
  sret (gen_cols, row_ref, is_scheduler_table).

(** *** Deleting *)

Definition tx_delete (table_id row_pointer : Z) : st MutTxId DatastoreError bool := λ s,
  let tx := mt_tx_state s in
  let sq := squashed_offset row_pointer in
  if sq =? TX_STATE then
    match bt_get (ts_insert_tables tx) table_id with
    | None => (Err (TableIdNotFoundState table_id), s)
    | Some table =>
        let '(r, (table, pool, bs)) :=
          table_delete (H:=H) row_pointer (λ _, tt) (table, cs_page_pool (mt_committed_state s), ts_blob_store tx) in
        let tx := ts_with_blob_store (ts_with_insert_tables tx (bt_insert (ts_insert_tables tx) table_id table)) bs in
        ((let* deleted := r in Ok (match deleted with Some _ => true | None => false end)), with_page_pool (with_tx_state s tx) pool)
    end
  else if sq =? COMMITTED_STATE then
    match cs_tables (mt_committed_state s) !! table_id with
    | None => (Panic, s)
    | Some commit_table =>
        let delete_tables := get_delete_table_mut (ts_delete_tables tx) table_id commit_table in
        match bt_get delete_tables table_id with
        | None => (Panic, s)
        | Some dt =>
            match dt_insert row_pointer dt with
            | Ok (deleted, dt) => (Ok deleted, with_tx_state s (ts_with_delete_tables tx (bt_insert delete_tables table_id dt)))
            | Err e => (Err e, s)
            | Panic => (Panic, s)
            | OutOfFuel => (OutOfFuel, s)
            end
        end
    end
  else (Panic, s).

(** The row to delete: one of the committed state, or else one that was inserted. *)
Definition find_to_delete (commit_table : Table) (temp_ptr : Z) : st TxParts DatastoreError (option Z) :=
  let! ' (hash, to_delete) := of_tx_table (λ tx_table tx_blob_store,
    find_same_row (H:=H) commit_table tx_table tx_blob_store temp_ptr None) in
  match to_delete with
  | Some to_delete => sret (Some to_delete)
  | None =>
      let! ' (_, to_delete) := of_tx_table (λ tx_table tx_blob_store,
        find_same_row (H:=H) tx_table tx_table tx_blob_store temp_ptr hash) in
      sret to_delete
  end.
Definition find_by_value (commit_table : Table) (rel : ProductValue) : st TxParts DatastoreError (option Z) :=
  let! ' (temp_row_ref, _) := smap_err TableBflatn (with_table (insert_physically_pv rel)) in
  let temp_ptr := rr_pointer temp_row_ref in
  let! to_delete := find_to_delete commit_table temp_ptr in
  let! _ := with_table (delete_internal_skip_pointer_map temp_ptr) in
  sret to_delete.
Definition delete_by_row_value (table_id : Z) (rel : ProductValue) : st MutTxId DatastoreError bool :=
  let! ' (commit_table, _) := get_commit_table table_id in
  let! _ := ensure_tx_table table_id commit_table in
  let! to_delete := on_tx_parts table_id (find_by_value commit_table rel) in
  match to_delete with
  | Some to_delete => tx_delete table_id to_delete
  | None => sret false
  end.

(** *** Reading *)

(** [IterMutTx] and [FilterDeleted], collected. *)
Fixpoint filter_deleted {E} (deletes : DeleteTable) (rows : list (RowRef B)) : result E (list (RowRef B)) :=
  match rows with
  | [] => Ok []
  | row :: rows =>
      let* deleted := dt_contains deletes (rr_pointer row) in
      let* rows := filter_deleted deletes rows in
      Ok (if deleted : bool then rows else row :: rows)
  end.
Definition not_deleted {E} (deletes : option DeleteTable) (rows : list (RowRef B)) : result E (list (RowRef B)) :=
  match deletes with Some deletes => filter_deleted deletes rows | None => Ok rows end.

Definition tx_iter (s : MutTxId) (table_id : Z) : result DatastoreError (list (RowRef B)) :=
  let cs := mt_committed_state s in
  let tx := mt_tx_state s in
  match cs_tables cs !! table_id with
  | None => Err (TableIdNotFound table_id)
  | Some commit_table =>
      let* rows := scan_rows commit_table (cs_blob_store cs) in
      let* rows := not_deleted (get_delete_table tx table_id) rows in
      match bt_get (ts_insert_tables tx) table_id with
      | Some insert_table =>
          let* inserted := scan_rows insert_table (ts_blob_store tx) in
          Ok (rows ++ inserted)
      | None => Ok rows
      end
  end.

(** [index_seek] and [index_seek_by_cols]. *)
Definition index_seek_by_cols {E} (table : option Table) (bs : B) (cols : ColList) (lo hi : Bound AlgebraicValue) :
    result E (option (list (RowRef B))) :=
  match table with
  | None => Ok None
  | Some table =>
      match get_index_by_cols table cols with
      | None => Ok None
      | Some (_, index) => let* rows := table_seek_range table bs index lo hi in Ok (Some rows)
      end
  end.

(** The inserted rows come first. *)
Definition combine_range_index_iters {E} (delete_table : option DeleteTable) (tx_iter : option (list (RowRef B)))
    (commit_iter : list (RowRef B)) : result E (list (RowRef B)) :=
  let* commit_iter := not_deleted delete_table commit_iter in
  Ok (match tx_iter with Some tx_iter => tx_iter ++ commit_iter | None => commit_iter end).

(** [ScanIterByColRangeMutTx]. *)
Fixpoint scan_by_col_range {E} (cols : ColList) (lo hi : Bound AlgebraicValue) (rows : list (RowRef B)) : result E (list (RowRef B)) :=
  match rows with
  | [] => Ok []
  | row :: rows =>
      match project row cols with
      | Ok value =>
          let* rows := scan_by_col_range cols lo hi rows in
          Ok (if in_range lo hi value then row :: rows else rows)
      | OutOfFuel => OutOfFuel
      | _ => Panic
      end
  end.

Definition iter_by_col_range (s : MutTxId) (table_id : Z) (cols : ColList) (lo hi : Bound AlgebraicValue) :
    result DatastoreError (list (RowRef B)) :=
  let cs := mt_committed_state s in
  let tx := mt_tx_state s in
  let* commit_iter := index_seek_by_cols (cs_tables cs !! table_id) (cs_blob_store cs) cols lo hi in
  match commit_iter with
  | Some commit_iter =>
      let* tx_iter := index_seek_by_cols (bt_get (ts_insert_tables tx) table_id) (ts_blob_store tx) cols lo hi in
      combine_range_index_iters (get_delete_table tx table_id) tx_iter commit_iter
  | None =>
      let* rows := tx_iter s table_id in
      scan_by_col_range cols lo hi rows
  end.
Definition iter_by_col_eq (s : MutTxId) (table_id : Z) (cols : ColList) (value : AlgebraicValue) :
    result DatastoreError (list (RowRef B)) :=
  iter_by_col_range s table_id cols (Included value) (Included value).

Definition tx_table_row_count {E} (s : MutTxId) (table_id : Z) : result E (option Z) :=
  let commit_count := option_map tb_row_count (cs_tables (mt_committed_state s) !! table_id) in
  let '(tx_ins_count, tx_del_count) := ts_table_row_count (mt_tx_state s) table_id in
  match commit_count with
  | Some cc =>
      let* cc := sub_u cc tx_del_count in
      match tx_ins_count with
      | Some ic => let* n := add_u 64 cc ic in Ok (Some n)
      | None => Ok (Some cc)
      end
  | None => Ok tx_ins_count
  end.

Definition tx_get (s : MutTxId) (table_id row_ptr : Z) : result DatastoreError (option (RowRef B)) :=
  match cs_tables (mt_committed_state s) !! table_id with
  | None => Err (TableIdNotFound table_id)
  | Some _ =>
      let sq := squashed_offset row_ptr in
      if sq =? TX_STATE then let* row := ts_get (mt_tx_state s) table_id row_ptr in Ok (Some row)
      else if sq =? COMMITTED_STATE then
        let* deleted := ts_is_deleted (mt_tx_state s) table_id row_ptr in
        if deleted : bool then Ok None
        else let* row := cs_get (mt_committed_state s) table_id row_ptr in Ok (Some row)
      else Panic
  end.

(** *** Sequences *)

Definition get_sequence (seq_id : Z) : st MutTxId DatastoreError Sequence := λ s,
  (match mt_sequence_state s !! seq_id with Some seq => Ok seq | None => Err (SequenceNotFound seq_id) end, s).
Definition put_sequence (seq_id : Z) (seq : Sequence) : st MutTxId DatastoreError unit :=
  smodify (λ s, with_sequence_state s (<[seq_id := seq]> (mt_sequence_state s))).
Definition gen_next (seq_id : Z) : st MutTxId DatastoreError (option Z) :=
  let! sequence := get_sequence seq_id in
  let! ' (value, sequence) := sres (gen_next_value sequence) in
  let! _ := put_sequence seq_id sequence in
  sret value.

(** No values are generated when a row of [st_sequence] is replaced. *)
Definition insert_no_generate : Z → list byte → st MutTxId DatastoreError (ColList * RowRefInsertion * bool) :=
  insert_with (λ _, spanic) false.

Definition get_next_sequence_value (seq_id : Z) : st MutTxId DatastoreError Z :=
  let! value := gen_next seq_id in
  match value with
  | Some value => sret value
  | None =>
      let! rows := slift (λ s, let* cols := col_list_new 0 in iter_by_col_eq s ST_SEQUENCE_ID cols (VInt U32 seq_id)) in
      let! old_seq_row_ref := match last rows with Some row => sret row | None => spanic end in
      let! seq_row := sres (read_st_sequence old_seq_row_ref) in
      let! sequence := get_sequence seq_id in
      let! sequence := sres (allocate sequence) in
      let! _ := put_sequence seq_id sequence in
      let seq_row := with_allocated seq_row (sq_allocated sequence) in
      let! _ := tx_delete ST_SEQUENCE_ID (rr_pointer old_seq_row_ref) in
      let! buf := sunwrap (sres (to_vec (VProduct (st_sequence_value seq_row)))) in
      let! _ := insert_no_generate ST_SEQUENCE_ID buf in
      let! value := gen_next seq_id in
      match value with
      | Some value => sret value
      | None => sthrow (SequenceUnableToAllocate seq_id)
      end
  end.

(** [MutTxId::insert] and [MutTxId::update]. *)
Definition tx_insert (table_id : Z) (row : list byte) : st MutTxId DatastoreError (ColList * RowRefInsertion * bool) :=
  insert_with get_next_sequence_value true table_id row.
Definition tx_update (table_id index_id : Z) (row : list byte) : st MutTxId DatastoreError (ColList * RowRefInsertion * bool) :=
  let! ' (tx_row_ptr, cols_to_gen, blob_bytes, (commit_table, commit_blob_store)) :=
    insert_physically_maybe_generate get_next_sequence_value true table_id row in
  let! is_scheduler_table := on_tx_parts table_id (of_tx_table (λ tx_table _, Ok (tb_is_scheduler tx_table))) in
  let! row_ref := on_tx_parts table_id (confirm_tx_update commit_table commit_blob_store index_id tx_row_ptr blob_bytes) in
  sret (cols_to_gen, row_ref, is_scheduler_table).

(** *** The end of a transaction *)

(** [begin_mut_tx]: the transaction starts with empty tables. *)
Definition begin_mut_tx (empty : B) (cs : @CommittedState Q B) (seqs : SequencesState) : MutTxId :=
  {| mt_tx_state := tx_state_default empty; mt_committed_state := cs; mt_sequence_state := seqs |}.
Definition tx_commit {E} (reducer : option string) (s : MutTxId) : result E TxData * (@CommittedState Q B * SequencesState) :=
  let '(r, cs) := merge (H:=H) (mt_tx_state s) reducer (mt_committed_state s) in (r, (cs, mt_sequence_state s)).
Definition tx_rollback {E} (s : MutTxId) : result E unit * (@CommittedState Q B * SequencesState) :=
  cs_rollback (H:=H) (mt_tx_state s) (mt_committed_state s, mt_sequence_state s).
End transactions.
