(* ===== verification/TxSequence.v ===== *)
(** * Sequences in a transaction

    What [get_next_sequence_value] (mut_tx.rs) does to the sequences in memory:
    the steps of [Sequence], in which the row of [st_sequence] that it replaces
    has no part. *)

From Stdlib Require Import ZArith Lia.
From stdpp Require Import gmap list.
From S2P Require Import Prelude Buffer Sats Bsatn Mem Indexes VarLen BlobStore Page Pages PointerMap Layout BflatnTo BflatnFrom RowHash ValueHash ColList RowRef ValueOrd BTreeMap IndexMaps TableIndex Table RowInsert DeleteTable Sequence TxState MutTx.
Local Open Scope Z_scope.

Section sequences.
Context {FloatI : FloatOrd} {Q B H : Type} {QueueI : PageQueue Q} {BsI : BlobStore B} {HashI : Blake3} {HasherI : RowHasher H}.
Local Abbreviation tx := (@MutTxId Q B) (only parsing).
Implicit Types (s : tx).

(** Computations that leave the sequences as they are. *)
Definition keeps_sequences {E A} (m : st tx E A) : Prop := ∀ s, mt_sequence_state (m s).2 = mt_sequence_state s.

Lemma keeps_sbind {E A A'} (m : st tx E A) (k : A → st tx E A') :
  keeps_sequences m → (∀ a, keeps_sequences (k a)) → keeps_sequences (sbind m k).
Proof using.
  intros Hm Hk s. unfold sbind. specialize (Hm s). destruct (m s) as [[a| | |] s1]; cbn in *; try done. by rewrite Hk.
Qed.
Lemma keeps_sres {E A} (r : result E A) : keeps_sequences (sres r).
Proof using. done. Qed.
Lemma keeps_smap_err {E E' A} (f : E → E') (m : st tx E A) : keeps_sequences m → keeps_sequences (smap_err f m).
Proof using. intros Hm s. unfold smap_err. specialize (Hm s). by destruct (m s) as [[| | |] ?]. Qed.
Lemma keeps_on_tx_parts {E A} tid (m : st TxParts E A) : keeps_sequences (on_tx_parts tid m).
Proof using.
  intros s. unfold on_tx_parts. destruct (bt_get _ tid); [|done]. destruct (bt_get _ tid); [|done]. by destruct (m _) as [? [[[? ?] ?] ?]].
Qed.
Lemma keeps_ensure {E} tid ct : keeps_sequences (ensure_tx_table (E:=E) tid ct).
Proof using. intros s. unfold ensure_tx_table. by destruct (create_from _ _ _). Qed.
#[local] Hint Resolve keeps_sbind keeps_sres keeps_smap_err keeps_on_tx_parts keeps_ensure : core.

Lemma keeps_insert tid row : keeps_sequences (insert_no_generate (H:=H) tid row).
Proof using.
  unfold insert_no_generate, insert_with, insert_physically_maybe_generate. apply keeps_sbind.
  - apply keeps_sbind; [done|]. intros cp. apply keeps_sbind; [auto|]. intros _. apply keeps_sbind; [auto|]. intros [row_ref bytes]. by apply keeps_sbind.
  - intros [[[ptr cols] bytes] [ct cbs]]. apply keeps_sbind; [auto|]. intros sched. apply keeps_sbind; [auto|]. done.
Qed.
Lemma keeps_delete tid ptr : keeps_sequences (tx_delete (H:=H) tid ptr).
Proof using.
  intros s. unfold tx_delete. repeat (case_match; try done).
Qed.

Lemma gen_next_memory seq_id s q : mt_sequence_state s !! seq_id = Some q →
  gen_next seq_id s = match gen_next_value q with
    | Ok (v, q') => (Ok v, with_sequence_state s (<[seq_id := q']> (mt_sequence_state s)))
    | Err e => (Err e, s) | Panic => (Panic, s) | OutOfFuel => (OutOfFuel, s) end.
Proof using.
  intros Hq. unfold gen_next, get_sequence, sbind, sres. rewrite Hq. by destruct (gen_next_value q) as [[v q']| | |].
Qed.

(** The next value of a sequence, and the sequence in memory after it. *)
Lemma get_next_sequence_value_memory seq_id s v s' q :
  mt_sequence_state s !! seq_id = Some q → get_next_sequence_value (H:=H) seq_id s = (Ok v, s') →
  ∃ q' alloc, seq_next (E:=DatastoreError) q = Ok (Some v, q', alloc) ∧ mt_sequence_state s' = <[seq_id := q']> (mt_sequence_state s).
Proof using.
  intros Hq (v1 & s1 & Hg & Hn)%sbind_Ok_inv. rewrite (gen_next_memory _ _ _ Hq) in Hg. unfold seq_next.
  destruct (gen_next_value q) as [[v0 q1]| | |]; try done. injection Hg as <- <-. cbn [rbind]. destruct v0 as [v0|].
  { injection Hn as <- <-. by exists q1, None. }
  set (s1 := with_sequence_state s _) in *.
  apply sbind_Ok_inv in Hn as (rows & sa & [= _ <-] & Hn). apply sbind_Ok_inv in Hn as (row & sb & Hrow & Hn).
  assert (sb = s1) as -> by (destruct (last rows); [by injection Hrow|done]).
  apply sbind_Ok_inv in Hn as (seq_row & sc & [= _ <-] & Hn). apply sbind_Ok_inv in Hn as (q2 & sd & Hs & Hn).
  unfold get_sequence in Hs. cbn in Hs. rewrite lookup_insert_eq in Hs. injection Hs as <- <-.
  apply sbind_Ok_inv in Hn as (q3 & se & [= Ha <-] & Hn). rewrite Ha. cbn [rbind].
  apply sbind_Ok_inv in Hn as ([] & sf & [= <-] & Hn). set (s2 := with_sequence_state s1 _) in *.
  apply sbind_Ok_inv in Hn as (b & sg & Hd & Hn). apply sbind_Ok_inv in Hn as (buf & sh & Hbuf & Hn).
  apply sbind_Ok_inv in Hn as (ins & si & Hi & Hn). apply sbind_Ok_inv in Hn as (v2 & sj & Hg & Hn).
  assert (Hseq : mt_sequence_state si = <[seq_id := q3]> (mt_sequence_state s)).
  { pose proof (keeps_insert ST_SEQUENCE_ID buf sh) as K1. rewrite Hi in K1. cbn [snd] in K1. rewrite K1.
    assert (sh = sg) as -> by (unfold sunwrap, sres in Hbuf; destruct (to_vec _); by inversion Hbuf).
    pose proof (keeps_delete ST_SEQUENCE_ID (rr_pointer row) s2) as K2. rewrite Hd in K2. cbn [snd] in K2. rewrite K2. cbn. by rewrite insert_insert_eq. }
  rewrite (gen_next_memory seq_id si q3) in Hg by (rewrite Hseq; apply lookup_insert_eq).
  destruct (gen_next_value q3) as [[v3 q4]| | |]; try done. injection Hg as <- <-. destruct v3 as [v3|]; [|done]. injection Hn as <- <-.
  exists q4, (Some (sq_allocated q3)). split; [done|]. cbn. by rewrite Hseq, insert_insert_eq.
Qed.
End sequences.
