(* ===== verification/TxTable.v ===== *)
(** * A table in a transaction

    The committed table and the insert table of a transaction, which has the
    same structure: searching in one of them for a row of the other, and making
    the insert table. *)

From Stdlib Require Import ZArith Lia.
From stdpp Require Import sorting gmap gmultiset list strings.
From S2P Require Import Prelude Buffer Sats Bsatn Mem Indexes VarLen BlobStore Page PageInv PageRows PageRead PageThm Pages PointerMap Layout RowTypeVisitor BflatnTo BflatnFrom BflatnRepr BflatnThm PagesThm StaticLayout RowEq ValueHash RowHash StaticValidator ColList RowRef ValueOrd BTreeMap IndexMaps TableIndex Table TableRows TableThm RowInsert DeleteTable Sequence TxState MutTx.
Local Open Scope Z_scope.

(** ** Indexes of the same structure *)

(** A list of columns without the capacity of its allocation. *)
Definition plain (l : ColList) : ColList :=
  match l with Inline w => Inline w | Heap v => Heap {| vec_cols := vec_cols v; vec_capacity := 0 |} end.

Lemma plain_iter l : col_list_iter (plain l) = col_list_iter l.
Proof. by destruct l. Qed.
Lemma plain_eq l l' : col_list_eq (plain l) l' = col_list_eq l l'.
Proof. by destruct l, l'. Qed.
Lemma row_key_plain cols cols' val : plain cols = plain cols' → row_key cols val = row_key cols' val.
Proof.
  intros Hp. unfold row_key, pv_project, as_singleton.
  by rewrite <-(plain_iter cols), <-(plain_iter cols'), Hp.
Qed.

(** The index of another table of the type. *)
Definition twin (e e' : Z * TableIndex) : Prop :=
  e'.1 = e.1 ∧ typed_clone_structure (ix_idx e'.2) = typed_clone_structure (ix_idx e.2) ∧
  ix_key_type e'.2 = ix_key_type e.2 ∧ plain (ix_indexed_columns e'.2) = plain (ix_indexed_columns e.2).
Abbreviation twins := (Forall2 twin).

Lemma twin_same e e1 e' e1' : same_index e e1 → same_index e' e1' → twin e e' → twin e1 e1'.
Proof.
  intros [A1 [= A2 A3 A4]] [B1 [= B2 B3 B4]] (H1 & H2 & H3 & H4). unfold twin. rewrite A1, B1, A2, B2, A3, B3, A4, B4. done.
Qed.
Lemma twins_same l l1 l' l1' : Forall2 same_index l l1 → Forall2 same_index l' l1' → twins l l' → twins l1 l1'.
Proof.
  intros Hl Hl' Ht. revert l1 l1' Hl Hl'. induction Ht as [|e e' l l' He _ IH]; intros l1 l1' Hl Hl'; inversion Hl; inversion Hl'; subst; constructor.
  - by eapply twin_same.
  - by apply IH.
Qed.
Lemma twin_facts e e' : twin e e' →
  ix_is_unique e'.2 = ix_is_unique e.2 ∧ ∀ val, row_key (ix_indexed_columns e'.2) val = row_key (ix_indexed_columns e.2) val.
Proof. intros (_ & Hc & _ & Hp). split; [by apply (clone_same _ _ Hc)|]. intros val. by apply row_key_plain. Qed.

(** ** Rows of two tables *)

Section rows.
Context {FloatI : FloatOrd} {FLawI : FloatOrdLaws}.
Context {Q B H : Type} {QueueI : PageQueue Q} {QLawI : PageQueueLaws Q}.
Context {BsI : BlobStore B} {HashI : Blake3} {LawI : BlobStoreLaws B} {HasherI : RowHasher H}.
Context (es : list ProductTypeElement) (rt : RowTypeLayout).
Context (Hrt : row_type_layout (E:=unit) es = Ok rt) (Hnr : contains_refs (TProduct es) = false).
Context (Hsize : ty_size (TProduct es) ≤ PAGE_DATA_SIZE).
Implicit Types (t : Table) (pool : PagePool Q) (bs : B) (A C I : gmap (nat * Z) ProductValue) (D : gset (nat * Z)) (k : nat * Z).

(** The pages of a table do not depend on what else is in the blob store. *)
Lemma phys_frame m m' sq i pool pool' bs bs' A :
  phys es rt m sq i pool bs A → pool_ok pool' → holds bs' (m' ⊎ large (map_objects A)) → phys es rt m' sq i pool' bs' A.
Proof using.
  intros [H1 H2 H3 ((rows & [P1 P2 P3 P4 P5]) & Hnf & _) H5 H6] Hpool Hh. split; try done. split; [|done].
  exists rows. split; try done. by rewrite (large_perm' _ _ P3).
Qed.

Lemma phys_holds m sq i pool bs A : phys es rt m sq i pool bs A → holds bs (m ⊎ large (map_objects A)) ∧ pool_ok pool.
Proof using. intros [_ _ _ ((rows & [P1 P2 P3 P4 P5]) & _ & Hpool) _ _]. split; [|done]. by rewrite <-(large_perm' _ _ P3). Qed.

(** Comparing a row of one table with one of the other. *)
Lemma cross_eq {E} m m' sq sq' t t' pool pool' bs bs' A A' k k' val val' :
  phys es rt m sq (tb_inner t) pool bs A → phys es rt m' sq' (tb_inner t') pool' bs' A' →
  A !! k = Some val → A' !! k' = Some val' → collision_free (large (map_objects A) ⊎ large (map_objects A')) →
  ∃ r, table_eq_row (E:=E) t (ptr_of sq k) t' (ptr_of sq' k') = Ok r ∧ (r = true ↔ val = val').
Proof using Hrt Hnr Hsize.
  intros [H1 _ H3 ((rows & Hinv) & _) H5 H6] [H1' _ _ ((rows' & Hinv') & _) H5' H6'] Hk Hk' Hc.
  destruct (pages_row _ _ _ _ _ _ _ _ Hinv Hk) as (p & r & gr & Hp & Hr & Hgr & Hpi & Hrep & Hobjs).
  destruct (pages_row _ _ _ _ _ _ _ _ Hinv' Hk') as (p' & r' & gr' & Hp' & Hr' & Hgr' & Hpi' & Hrep' & Hobjs').
  destruct (eq_rows_ok es rt Hrt Hnr Hsize (E:=E) p p' r r' k.2 k'.2 gr gr' val val' (table_static_layout t)) as (b & Hb & Hiff);
    try done; [by apply (H5 k)|by apply (H5' k')|..].
  - rewrite Hobjs, Hobjs'. intros x y Hx Hy Lx Ly. apply Hc; apply gmultiset_elem_of_disj_union;
      [left; by eapply (map_object_large A k)|right; by eapply (map_object_large A' k')].
  - intros sl. unfold table_static_layout. destruct (ti_static_layout _) as [[sl' va]|] eqn:Hsl; [|done].
    intros [= <-]. rewrite <-H1. by eapply H3.
  - exists b. split; [|done]. unfold table_eq_row, page_and_offset, try_page_and_offset.
    pose proof (proj1 (H6 k val Hk)) as He. pose proof (proj1 (H6' k' val' Hk')) as He'. unfold ptr_key in He, He'.
    rewrite <-He in Hp, Hb. rewrite <-He' in Hp', Hb. cbn [fst snd] in *. rewrite Hp, Hp'. cbn [rbind]. by rewrite H1.
Qed.

(** A row of the other table is one to search for. *)
Lemma cross_needle {E} m m' sq sq' t t' pool pool' bs bs' A A' k val :
  phys es rt m sq (tb_inner t) pool bs A → phys es rt m' sq' (tb_inner t') pool' bs' A' → tb_squashed_offset t' = sq' →
  A' !! k = Some val → collision_free (large (map_objects A) ⊎ large (map_objects A')) →
  needle (H:=H) es sq (E:=E) t t' bs' (ptr_of sq' k) A val.
Proof using Hrt Hnr Hsize LawI.
  intros Hph Hph' Hs Hk Hc. split.
  - exists (row_at_key sq' t' bs' k). split; [by eapply (phys_row_ref es rt Hrt Hnr Hsize)|]. split; [by eapply (phys_hash es rt Hrt Hnr Hsize)|].
    intros ix Hfor. by destruct (project_key es rt Hrt Hnr Hsize m' sq' (E:=E) t' pool' bs' A' k val ix Hph' Hk Hfor) as (? & _ & ?).
  - intros k0 val0 HA. by eapply (cross_eq m m').
Qed.

(** The place of a row is one that a delete table can mark. *)
Lemma phys_slot m sq i pool bs A k val : phys es rt m sq i pool bs A → A !! k = Some val → slot_ok (row_size rt) k.
Proof using Hrt Hnr Hsize.
  intros [_ _ _ ((rows & Hinv) & _) _ _] Hk. destruct (row_good es rt Hrt Hnr Hsize) as [_ Hrs].
  destruct (pages_row _ _ _ _ _ _ _ _ Hinv Hk) as (p & r & gr & Hp & Hr & Hgr & (fl & vl & u & Hok & _) & _).
  destruct (row_cell _ Hrs _ _ _ _ _ k.2 Hok) as (O1 & O2 & O3 & _); [right; by eapply elem_of_dom_2|].
  pose proof (page_bounds _ Hrs _ _ _ _ _ Hok). pose proof (rs_min _ Hrs). pose proof (pi_len _ _ _ _ _ _ Hinv) as Hl.
  apply lookup_lt_Some in Hp. change (PageIndex_MAX + 1) with (2 ^ 39) in Hl. unfold slot_ok, len in *. rewrite PAGE_END_val. lia.
Qed.

Lemma row_size_range : 2 ≤ row_size rt ≤ PAGE_END.
Proof using Hrt Hnr Hsize. destruct (row_good es rt Hrt Hnr Hsize) as [_ [H1 H2 _]]. by split. Qed.

(** *** Making the insert table *)

Lemma clone_indexes_ok {E} l :
  Forall (λ e, col_list_ok (ix_indexed_columns e.2) ∧ index_for es e.2) l →
  ∃ l', clone_indexes (E:=E) l = Ok l' ∧ twins l l' ∧ Forall (λ e, index_for es e.2 ∧ index_rel e.2 []) l'.
Proof using.
  induction 1 as [|[i ix] l [Hc Hfor] _ (l' & IH & Ht & Hl')]; [by exists []|]. cbn [clone_indexes snd] in *.
  destruct (ix_clone_ok (E:=E) es ix Hc Hfor) as (ix' & Hix & Hrel & Hfor' & _). rewrite Hix. cbn [rbind]. rewrite IH. cbn [rbind].
  exists ((i, ix') :: l'). split_and!; [done| |by constructor]. constructor; [|done]. revert Hix. unfold ix_clone_structure.
  destruct (col_list_clone (E:=E) _) as [cols| | |] eqn:Hcl; try done. intros [= <-]. split_and!; cbn; try done.
  - destruct (ix_idx ix); try done. cbn. unfold fci_clone_structure, fci_new, len. cbn. by rewrite length_replicate, Nat2Z.id.
  - destruct (ix_indexed_columns ix) as [w|v]; cbn in Hcl; [by injection Hcl as <-|].
    destruct (vec_clone v) as [v'| | |] eqn:Hv; try done. injection Hcl as <-. cbn. f_equal. f_equal.
    destruct Hc as (Hlen & Hcap & Hf). revert Hv. unfold vec_clone, vec_with_capacity, vec_layout, u16_MAX.
    rewrite (proj2 (Z.leb_le _ _)) by lia. cbn [rbind].
    rewrite vec_pushes_room by (cbn [vec_cols vec_capacity]; change (len (@nil Z)) with 0; lia). by intros [= <-].
Qed.

Lemma twins_described sch l l' : twins l l' → Forall (described sch) l → Forall (described sch) l'.
Proof using.
  induction 1 as [|e e' l l' (He & _ & _ & Hp) _ IH]; [done|]. intros [[H1 H2] Hl]%Forall_cons. apply Forall_cons. split; [|by apply IH].
  split; [by rewrite He|]. by rewrite <-(plain_iter (ix_indexed_columns e'.2)), Hp, plain_iter.
Qed.
Lemma twins_unique l l' : twins l l' →
  (Exists (λ e, ix_is_unique e.2 = true) l ↔ Exists (λ e, ix_is_unique e.2 = true) l') ∧
  (Forall (λ e, ix_is_unique e.2 = false) l → Forall (λ e, ix_is_unique e.2 = false) l').
Proof using.
  induction 1 as [|e e' l l' [Hu _]%twin_facts _ [IH1 IH2]]; [by rewrite !Exists_nil|]. rewrite !Exists_cons, !Forall_cons, Hu, IH1. tauto.
Qed.
Lemma twins_ids l l' : twins l l' → map fst l' = map fst l.
Proof using. induction 1 as [|e e' l l' He _ IH]; [done|]. cbn. by rewrite (proj1 He), IH. Qed.

Lemma clone_structure_ok {E} m m' sq sq' t pool pool' bs bs' A :
  tbl_inv (H:=H) es rt m sq t pool bs A → Forall (λ e, col_list_ok (ix_indexed_columns e.2)) (tb_indexes t) →
  pool_ok pool' → holds bs' m' →
  ∃ t', table_clone_structure (E:=E) t sq' = Ok t' ∧ tbl_inv (H:=H) es rt m' sq' t' pool' bs' ∅ ∧
    twins (tb_indexes t) (tb_indexes t') ∧ tb_schema t' = tb_schema t ∧ colliders t' = 0.
Proof using.
  intros [[H1 H2 H3 _ _ _] [I2 I3 I4 I5 I6 I7 I8 I9 I10]] Hcols Hpool Hh. unfold table_clone_structure.
  destruct (clone_indexes_ok (E:=E) (tb_indexes t)) as (l & -> & Htw & Hl).
  { apply Forall_and. split; [done|]. eapply Forall_impl; [exact I3|]. by intros e []. }
  cbn [rbind]. eexists. split; [done|]. destruct (pages_default_inv rt m' bs' Hh) as [Hinv Hnf]. split_and!; [split|done|done|].
  - split; cbn; try done. split; [by eexists|done].
  - split; cbn; try done.
    + by rewrite (twins_ids _ _ Htw).
    + unfold finder_ok in *. cbn. destruct (tb_pointer_map t) as [pm|]; cbn.
      * split; [|by apply (twins_unique _ _ Htw), I5]. exists ∅. apply pm_default_ok.
      * by apply (twins_unique _ _ Htw).
    + by apply (twins_described _ _ _ Htw).
  - unfold colliders. cbn. by destruct (tb_pointer_map t).
Qed.
End rows.
