(* ===== verification/TxRows.v ===== *)
(** * Rows in a transaction

    What a transaction does to one table: the committed rows [C], the places
    [D] of those that it deleted and the rows [I] that it inserted. *)

From Stdlib Require Import ZArith Lia.
From stdpp Require Import sorting gmap gmultiset list strings.
From S2P Require Import Prelude Buffer Sats Bsatn Mem Indexes VarLen BlobStore Page PageInv PageRows PageRead PageThm Pages PointerMap Layout RowTypeVisitor BflatnTo BflatnFrom BflatnRepr BflatnThm PagesThm StaticLayout RowEq ValueHash RowHash StaticValidator ColList RowRef ValueOrd BTreeMap IndexMaps TableIndex Table TableRows TableThm RowInsert DeleteTable Sequence TxState MutTx TxTable.
Local Open Scope Z_scope.

Section rows.
Context {FloatI : FloatOrd} {FLawI : FloatOrdLaws}.
Context {Q B H : Type} {QueueI : PageQueue Q} {QLawI : PageQueueLaws Q}.
Context {BsI : BlobStore B} {HashI : Blake3} {LawI : BlobStoreLaws B} {HasherI : RowHasher H}.
Context (es : list ProductTypeElement) (rt : RowTypeLayout).
Context (Hrt : row_type_layout (E:=unit) es = Ok rt) (Hnr : contains_refs (TProduct es) = false).
Context (Hsize : ty_size (TProduct es) ≤ PAGE_DATA_SIZE) (Hcode : len (visitor_code rt) ≤ u16_MAX).
Context (mC mT : gmultiset (list byte)).
Implicit Types (t ct tx_t : Table) (pool : PagePool Q) (bs cbs tbs : B) (dt : DeleteTable).
Implicit Types (A C I P : gmap (nat * Z) ProductValue) (D : gset (nat * Z)) (k : nat * Z) (val : ProductValue).

(** ** Keys *)

(** The values have different keys in every unique index. *)
Definition apart (l : list (Z * TableIndex)) val val' : Prop :=
  Forall (λ e, ix_is_unique e.2 = true →
    at_key (row_key (ix_indexed_columns e.2) val) (row_key (ix_indexed_columns e.2) val') = false) l.

Lemma at_key_sym (a b : AlgebraicValue) : at_key a b = at_key b a.
Proof using FLawI. unfold at_key. rewrite (cmp_opp a b). by destruct (cmp a b). Qed.
Lemma apart_sym l val val' : apart l val val' → apart l val' val.
Proof using FLawI. intros Hl. eapply Forall_impl; [exact Hl|]. intros e He Hu. rewrite at_key_sym. by apply He. Qed.
Lemma apart_twins l l' val val' : twins l l' → apart l' val val' ↔ apart l val val'.
Proof using.
  unfold apart. induction 1 as [|e e' l l' [Hu Hk]%twin_facts _ IH]; [done|]. rewrite !Forall_cons, IH, Hu, !Hk. done.
Qed.
Lemma unviolated_apart sq A val l : unviolated sq A val l ↔ ∀ k val', A !! k = Some val' → apart l val val'.
Proof using.
  unfold unviolated, apart. split.
  - intros Hl k val' HA. eapply Forall_impl; [exact Hl|]. intros e He Hu. apply not_true_is_false. intros Hat.
    assert (Hin : ptr_of sq k ∈ select (at_key (row_key (ix_indexed_columns e.2) val)) (row_entries sq (ix_indexed_columns e.2) A))
      by (apply select_key; by exists k, val'). rewrite (He Hu) in Hin. by apply elem_of_nil in Hin.
  - intros Hl. apply Forall_forall. intros e Hin Hu. destruct (select _ _) as [|p ps] eqn:Hs; [done|].
    assert (Hp : p ∈ select (at_key (row_key (ix_indexed_columns e.2) val)) (row_entries sq (ix_indexed_columns e.2) A))
      by (rewrite Hs; by left). apply select_key in Hp as (k & val' & HA & Hat & _).
    specialize (Hl k val' HA). rewrite Forall_forall in Hl. by rewrite (Hl e Hin Hu) in Hat.
Qed.

(** ** The state *)

Local Abbreviation cinv := (tbl_inv (H:=H) es rt mC COMMITTED_STATE) (only parsing).
Local Abbreviation tphys := (phys es rt mT TX_STATE) (only parsing).
Local Abbreviation tlog := (logical (H:=H) es TX_STATE) (only parsing).
Local Abbreviation parts := (@TxParts Q B) (only parsing).

(** A value that the transaction sees: it is committed and was not deleted, or
    it was inserted. *)
Definition sees C D I val : Prop := (∃ k, C !! k = Some val ∧ k ∉ D) ∨ (∃ k, I !! k = Some val).

(** The parts of the transaction on the table; [P] are the rows in the pages
    of the insert table, [I] those that it knows.  A row that was inserted is
    not one of the committed rows, deleted or not, and has other keys than
    those that were not deleted. *)
Record tx_inv P ct cbs (s : parts) C D I : Prop := {
  xi_commit : cinv ct s.1.1.2 cbs C;
  xi_phys : tphys (tb_inner s.1.1.1) s.1.1.2 s.1.2 P;
  xi_log : tlog s.1.1.1 I;
  xi_deletes : dt_rep (row_size rt) s.2 D;
  xi_deleted : D ⊆ dom C;
  xi_new : ∀ k k' val, C !! k = Some val → I !! k' ≠ Some val;
  xi_unique : ∀ k k' val val', C !! k = Some val → k ∉ D → I !! k' = Some val' → apart (tb_indexes ct) val' val;
  xi_twins : twins (tb_indexes ct) (tb_indexes s.1.1.1);
  xi_schema : tb_schema s.1.1.1 = tb_schema ct;
}.

(** A violation of the constraint of an index of the table by one of the others. *)
Definition violated ct (others : ProductValue → Prop) val (u : UniqueConstraintViolation) : Prop :=
  ∃ i ix schema, (i, ix) ∈ tb_indexes ct ∧ ix_is_unique ix = true ∧
    schema ∈ sch_indexes (tb_schema ct) ∧ is_index_id schema = i ∧ ucv_constraint_name u = is_index_name schema ∧
    ucv_value u = row_key (ix_indexed_columns ix) val ∧
    ∃ val0, others val0 ∧ at_key (row_key (ix_indexed_columns ix) val) (row_key (ix_indexed_columns ix) val0) = true.

(** The value may become a row. *)
Definition tx_insertable C I val : Prop :=
  typed [] (TProduct es) (VProduct val) ∧ fits rt val ∧
  collision_free (mC ⊎ large (map_objects C) ⊎ (mT ⊎ large (map_objects I) ⊎ large (product_objects val))).

Lemma insertable_free C I k val : I !! k = None → tx_insertable C I val →
  collision_free (large (map_objects (<[k := val]> I))) ∧
  collision_free (large (map_objects C) ⊎ large (map_objects (<[k := val]> I))) ∧
  collision_free (mT ⊎ large (map_objects I) ⊎ large (product_objects val)).
Proof using.
  intros Hk (_ & _ & Hc). rewrite (large_perm' _ _ (map_objects_insert I k val Hk)), large_app'.
  split_and!; (eapply collision_free_weaken; [|exact Hc]); clear; multiset_solver.
Qed.

(** *** Inserting *)

Lemma with_table_eq {E X} (m : st (Table * PagePool Q * B) E X) tx_t pool tbs dt r tx_t' pool' tbs' :
  m (tx_t, pool, tbs) = (r, (tx_t', pool', tbs')) → with_table m (tx_t, pool, tbs, dt) = (r, (tx_t', pool', tbs', dt)).
Proof using. intros Hm. unfold with_table. by rewrite Hm. Qed.
Lemma sresult_eq {S E E' X} (m : st S E X) s r s' : m s = (r, s') → sresult (E':=E') m s = (Ok r, s').
Proof using. intros Hm. unfold sresult. by rewrite Hm. Qed.
Lemma of_tx_table_eq {E X} (f : Table → B → result E X) tx_t pool tbs dt r :
  f tx_t tbs = r → of_tx_table f (tx_t, pool, tbs, dt) = (r, (tx_t, pool, tbs, dt)).
Proof using. intros <-. done. Qed.

(** A violation in the insert table is one of the table. *)
Lemma violated_tx P ct cbs s C D I I0 (others : ProductValue → Prop) val u i ix :
  tx_inv P ct cbs s C D I → (i, ix) ∈ tb_indexes s.1.1.1 → violation_of TX_STATE (tb_schema s.1.1.1) I0 val i ix u →
  (∀ k0 val0, I0 !! k0 = Some val0 → val0 ≠ val → others val0) → violated ct others val u.
Proof using.
  intros Hinv Hin (Hu & _ & Hv & (k0 & val0 & HI & Hat & Hne) & (schema & Hs1 & Hs2 & Hs3) & _) Hothers.
  apply list_elem_of_lookup_1 in Hin as [n Hn]. destruct (Forall2_lookup_r _ _ _ _ _ (xi_twins _ _ _ _ _ _ _ Hinv) Hn) as ([i' ix'] & Hn' & Htw).
  pose proof (twin_facts _ _ Htw) as [Hun Hkey]. destruct Htw as [Hi _]. cbn [fst snd] in *. subst i'. rewrite !Hkey in *. rewrite Hun in Hu.
  rewrite (xi_schema _ _ _ _ _ _ _ Hinv) in Hs1. exists i, ix', schema. split_and!; try done; [by eapply list_elem_of_lookup_2|].
  exists val0. split; [|done]. by eapply Hothers, Hne.
Qed.

(** The insert table has other rows. *)
Lemma tx_inv_rows n P ct cbs tx_t pool tbs dt C D I tx_t' tbs' I' :
  tx_inv P ct cbs (tx_t, pool, tbs, dt) C D I → tbl_inv (H:=H) es rt mT TX_STATE tx_t' pool tbs' I' → grown n tx_t tx_t' →
  (∀ k' val, I' !! k' = Some val → (∃ k, I !! k = Some val) ∨
     (∀ k, C !! k ≠ Some val) ∧ ∀ k val0, C !! k = Some val0 → k ∉ D → apart (tb_indexes ct) val val0) →
  tx_inv I' ct cbs (tx_t', pool, tbs', dt) C D I'.
Proof using.
  intros [X1 X2 X3 X4 X5 X6 X7 X8 X9] [Hph Hlog] [G1 G2 G3 G4] HI. cbn in *. split; cbn; try done.
  - intros k k' val HC HI'. destruct (HI k' val HI') as [[k0 H0]|[Hn _]]; [by eapply X6|by eapply Hn].
  - intros k k' val val' HC HD HI'. destruct (HI k' val' HI') as [[k0 H0]|[_ Ha]]; [by eapply X7|by eapply Ha].
  - eapply twins_same; [|exact G1|exact X8]. apply Forall_Forall2_diag, Forall_forall. intros e _. by split.
  - congruence.
Qed.

(** Other rows are marked as deleted. *)
Lemma tx_inv_marks P ct cbs s C D I dt D' :
  tx_inv P ct cbs s C D I → dt_rep (row_size rt) dt D' → D' ⊆ dom C →
  (∀ k k' val val', C !! k = Some val → k ∈ D → k ∉ D' → I !! k' = Some val' → apart (tb_indexes ct) val' val) →
  tx_inv P ct cbs (s.1, dt) C D' I.
Proof using.
  intros [X1 X2 X3 X4 X5 X6 X7 X8 X9] Hdt HD Hap. split; cbn; try done.
  intros k k' val val' HC Hk HI. destruct (decide (k ∈ D)); [by eapply Hap|by eapply X7].
Qed.

(** The mark of a committed row: looking at it, setting it and taking it away. *)
Lemma mark_ok ct cbs pool C dt D k val :
  cinv ct pool cbs C → dt_rep (row_size rt) dt D → C !! k = Some val → let p := ptr_of COMMITTED_STATE k in
  dt_contains (E:=DatastoreError) dt p = Ok (bool_decide (k ∈ D)) ∧
  (∃ dt', dt_insert (E:=DatastoreError) p dt = Ok (bool_decide (k ∉ D), dt') ∧ dt_rep (row_size rt) dt' ({[k]} ∪ D)) ∧
  (∃ dt', dt_remove (E:=DatastoreError) p dt = Ok (bool_decide (k ∈ D), dt') ∧ dt_rep (row_size rt) dt' (D ∖ {[k]})).
Proof using Hrt Hnr Hsize.
  intros [Hph _] Hdt HC p. pose proof (row_size_range es rt Hrt Hnr Hsize) as Hrs.
  pose proof (proj1 (ph_keys _ _ _ _ _ _ _ _ Hph k val HC)) as Hkey. fold p in Hkey.
  assert (Hslot : slot_ptr (row_size rt) p) by (unfold slot_ptr; rewrite Hkey; by eapply (phys_slot es rt Hrt Hnr Hsize mC)).
  pose proof (dt_contains_ok (E:=DatastoreError) _ Hrs dt D p Hdt Hslot) as H1.
  pose proof (dt_insert_ok (E:=DatastoreError) _ Hrs dt D p Hdt Hslot) as H2.
  pose proof (dt_remove_ok (E:=DatastoreError) _ Hrs dt D p Hdt Hslot) as H3. by rewrite Hkey in *.
Qed.

Lemma with_deletes_eq {E X} (m : DeleteTable → result E (X * DeleteTable)) tx_t pool tbs dt x dt' :
  m dt = Ok (x, dt') → with_deletes m (tx_t, pool, tbs, dt) = (Ok x, (tx_t, pool, tbs, dt')).
Proof using. intros Hm. unfold with_deletes. by rewrite Hm. Qed.

(** Different rows of a table have different keys. *)
Lemma rows_apart m sq t pool bs A k k' val val' :
  tbl_inv (H:=H) es rt m sq t pool bs A → A !! k = Some val → A !! k' = Some val' → k' ≠ k → apart (tb_indexes t) val val'.
Proof using FLawI.
  intros [Hph Hlog] HA HA' Hne.
  assert (Hun : unviolated sq (delete k A) val (tb_indexes t)).
  { eapply (unviolated_again es sq A); [apply Hlog|apply same_indexes_refl|done|by apply (ph_typed _ _ _ _ _ _ _ _ Hph k)]. }
  eapply (proj1 (unviolated_apart _ _ _ _) Hun k'). by rewrite lookup_delete_ne.
Qed.

(** Checking a row against the committed rows that are not deleted. *)
Lemma check_tx_ok ct cbs pool C dt D row val l (del : nat * Z → bool) is_deleted :
  cinv ct pool cbs C → dt_rep (row_size rt) dt D → Forall (λ e, e ∈ tb_indexes ct) l →
  (∀ k val', C !! k = Some val' → is_deleted (ptr_of COMMITTED_STATE k) = Ok (del k)) →
  refers rt mT row val → typed [] (TProduct es) (VProduct val) →
  ∃ o, check_unique_constraints (E:=DatastoreError) ct row l is_deleted = Ok o ∧
    match o with
    | None => ∀ k val', C !! k = Some val' → del k = false → apart l val val'
    | Some u => ∃ i ix schema k val', (i, ix) ∈ l ∧ ix_is_unique ix = true ∧
        schema ∈ sch_indexes (tb_schema ct) ∧ is_index_id schema = i ∧ ucv_constraint_name u = is_index_name schema ∧
        ucv_value u = row_key (ix_indexed_columns ix) val ∧ C !! k = Some val' ∧ del k = false ∧
        at_key (row_key (ix_indexed_columns ix) val) (row_key (ix_indexed_columns ix) val') = true
    end.
Proof using Hrt Hnr Hsize LawI FLawI.
  intros Hinv Hdt Hl Hdel Hrow Ht. pose proof Hinv as [Hph Hlog].
  destruct (check_constraints_ok es rt Hrt Hnr Hsize mC COMMITTED_STATE (E:=DatastoreError) mT ct pool cbs C row val is_deleted (λ p, del (ptr_key p)) l)
    as (o & Ho & Hspec); try done.
  - intros k val' HC. rewrite (proj1 (ph_keys _ _ _ _ _ _ _ _ Hph k val' HC)). by eapply Hdel.
  - eapply Forall_impl; [exact Hl|]. intros e He. pose proof (tv_indexes _ _ _ _ Hlog) as Hix. rewrite Forall_forall in Hix. by apply Hix.
  - eapply Forall_impl; [exact Hl|]. intros e He. pose proof (tv_schema _ _ _ _ Hlog) as Hd. rewrite Forall_forall in Hd. by apply Hd.
  - exists o. split; [done|]. destruct o as [u|].
    + destruct Hspec as (i & ix & k & schema & Hin & (Hu & val' & HC & Hat) & Hd & Hv & Hs).
      rewrite (proj1 (ph_keys _ _ _ _ _ _ _ _ Hph k val' HC)) in Hd. exists i, ix, schema, k, val'. naive_solver.
    + intros k val' HC Hd. apply Forall_forall. intros [i ix] Hin Hu. apply not_true_is_false. intros Hat.
      pose proof (Hspec i ix k Hin (conj Hu (ex_intro _ val' (conj HC Hat)))) as Hk.
      rewrite (proj1 (ph_keys _ _ _ _ _ _ _ _ Hph k val' HC)) in Hk. congruence.
Qed.

Lemma undelete_ok ct cbs tx_t pool tbs dt C D I k k0 val :
  cinv ct pool cbs C → tbl_inv (H:=H) es rt mT TX_STATE tx_t pool tbs (<[k := val]> I) → dt_rep (row_size rt) dt D →
  I !! k = None → C !! k0 = Some val →
  ∃ tx_t' tbs' dt', undelete (H:=H) ct cbs (ptr_of TX_STATE k) (ptr_of COMMITTED_STATE k0) (tx_t, pool, tbs, dt) =
      (Ok (row_at_key COMMITTED_STATE ct cbs k0), (tx_t', pool, tbs', dt')) ∧
    tbl_inv (H:=H) es rt mT TX_STATE tx_t' pool tbs' I ∧ grown 0 tx_t tx_t' ∧ dt_rep (row_size rt) dt' (D ∖ {[k0]}).
Proof using Hrt Hnr Hsize LawI FLawI.
  intros Hc Hinv Hdt Hk HC. unfold undelete.
  destruct (table_delete_row es rt Hrt Hnr Hsize mT TX_STATE (E:=DatastoreError) tx_t pool tbs _ k val (λ _, tt) Hinv (lookup_insert_eq _ _ _))
    as (t2 & tbs2 & Hd & Hinv2 & Hg2).
  rewrite delete_insert_id in Hinv2 by done. destruct (mark_ok ct cbs pool C dt D k0 val Hc Hdt HC) as (_ & _ & (dt' & Hrm & Hdt')).
  exists t2, tbs2, dt'. split_and!; try done.
  rewrite (sbind_Ok _ _ _ _ _ (with_table_eq _ _ _ _ dt _ _ _ _ Hd)), (sbind_Ok (sassert _) _ _ (t2, pool, tbs2, dt) tt) by done.
  rewrite (sbind_Ok _ _ _ _ _ (with_deletes_eq _ _ _ _ _ _ _ Hrm)). unfold sres. destruct Hc as [Hph Hlog].
  by rewrite (phys_row_ref es rt Hrt Hnr Hsize mC COMMITTED_STATE ct pool cbs C k0 val (tv_sq _ _ _ _ Hlog) Hph HC).
Qed.

(** A row that is in the pages of the insert table and no more. *)
Lemma confirm_tx_insertion_ok ct cbs tx_t pool tbs dt C D I k val :
  tx_inv (<[k := val]> I) ct cbs (tx_t, pool, tbs, dt) C D I → I !! k = None → tx_insertable C I val → room TX_STATE tx_t I val →
  let out := confirm_tx_insertion (H:=H) ct cbs (ptr_of TX_STATE k) (large_bytes (product_objects val)) (tx_t, pool, tbs, dt) in
  (∃ tx_t', out = (Ok (Inserted (row_at_key TX_STATE tx_t' tbs k)), (tx_t', pool, tbs, dt)) ∧ ¬ sees C D I val ∧
     (∀ val0, sees C D I val0 → apart (tb_indexes ct) val val0) ∧ grown 1 tx_t tx_t' ∧
     tx_inv (<[k := val]> I) ct cbs (tx_t', pool, tbs, dt) C D (<[k := val]> I)) ∨
  (∃ k0 tx_t' tbs', out = (Ok (Existed (row_at_key TX_STATE tx_t' tbs' k0)), (tx_t', pool, tbs', dt)) ∧ I !! k0 = Some val ∧
     grown 1 tx_t tx_t' ∧ tx_inv I ct cbs (tx_t', pool, tbs', dt) C D I) ∨
  (∃ k0 tx_t' tbs' dt', out = (Ok (Existed (row_at_key COMMITTED_STATE ct cbs k0)), (tx_t', pool, tbs', dt')) ∧ C !! k0 = Some val ∧
     (∀ val0, sees C D I val0 → val0 = val ∨ apart (tb_indexes ct) val val0) ∧ grown 1 tx_t tx_t' ∧
     tx_inv I ct cbs (tx_t', pool, tbs', dt') C (D ∖ {[k0]}) I) ∨
  (∃ u tx_t' tbs', out = (Err (IndexViolation u), (tx_t', pool, tbs', dt)) ∧ violated ct (λ v, sees C D I v ∧ v ≠ val) val u ∧
     grown 1 tx_t tx_t' ∧ tx_inv I ct cbs (tx_t', pool, tbs', dt) C D I).
Proof using Hrt Hnr Hsize LawI FLawI.
  intros Hinv Hk Hins Hroom out. destruct (insertable_free C I k val Hk Hins) as (Hc1 & Hc2 & _). destruct Hins as (Ht & _ & _).
  pose proof Hinv as [X1 X2 X3 X4 X5 X6 X7 X8 X9]. cbn [fst snd] in *. unfold out, confirm_tx_insertion. clear out.
  destruct (confirm_insertion_ok es rt Hrt Hnr Hsize mT TX_STATE true tx_t pool tbs I k val ltac:(done) X2 X3 Hk Hc1 Hroom)
    as [(t1 & Hconf & Hinv1 & Hg & Hin & Hnew & Hun)|(e & t1 & tbs1 & Hconf & He & Hinv1 & Hg)];
    rewrite (sbind_Ok _ _ _ _ _ (sresult_eq (E':=DatastoreError) _ _ _ _ (with_table_eq _ _ _ _ dt _ _ _ _ Hconf))).
  2: { pose proof (tx_inv_rows 1 _ _ _ _ _ _ _ _ _ _ t1 tbs1 I Hinv Hinv1 Hg ltac:(eauto)) as Hinv2. destruct e as [p|e|u]; [|done|].
       - right; left. destruct He as (k0 & HI & ->). exists k0, t1, tbs1. split_and!; try done.
         rewrite (sbind_Ok _ _ _ _ _ (of_tx_table_eq _ _ _ _ _ _ (phys_row_ref es rt Hrt Hnr Hsize mT TX_STATE t1 pool tbs1 I k0 val
           (tv_sq _ _ _ _ (proj2 Hinv1)) (proj1 Hinv1) HI))). done.
       - right; right; right. destruct He as (i & ix & Hix & Hv). exists u, t1, tbs1. split_and!; try done. eapply (violated_tx _ _ _ (tx_t, pool, tbs, dt)); [done|done|done|].
         intros k0 val0 HI Hne. split; [|done]. right. by exists k0. }
  pose proof Hinv1 as [Hph1 Hlog1]. pose proof X1 as [Hphc Hlogc].
  assert (Hk1 : <[k := val]> I !! k = Some val) by apply lookup_insert_eq.
  pose proof (proj1 (unviolated_apart _ _ _ _) Hun) as Hap.
  assert (Hap' : ∀ k' val', I !! k' = Some val' → apart (tb_indexes ct) val val') by (intros k' val' HI; by eapply (apart_twins _ _ _ _ X8), Hap).
  destruct (find_same_row_ok (E:=DatastoreError) es COMMITTED_STATE ct t1 tbs (ptr_of TX_STATE k) C val (hash_of (H:=H) tx_t val)) as (h & o & Hfind & Ho & _).
  { eapply (cross_needle es rt Hrt Hnr Hsize mC mT); [exact Hphc|exact Hph1|apply Hlog1|done|done]. }
  { apply (ph_keys _ _ _ _ _ _ _ _ Hphc). }
  { apply Hlogc. } { apply Hlogc. }
  { unfold hash_of. intros x. by destruct (tb_pointer_map tx_t); intros [= <-]. }
  rewrite (sbind_Ok _ _ _ _ _ (of_tx_table_eq _ _ _ _ dt _ Hfind)). destruct o as [p|].
  - right; right; left. destruct Ho as (k0 & HC & ->).
    destruct (undelete_ok ct cbs t1 pool tbs dt C D I k k0 val X1 Hinv1 X4 Hk HC) as (t2 & tbs2 & dt' & Hd & Hinv2 & Hg2 & Hdt').
    rewrite (sbind_Ok _ _ _ _ _ Hd). exists k0, t2, tbs2, dt'. split_and!; try done.
    + intros val0 [(k1 & HC1 & _)|(k1 & HI1)]; [|right; by eapply Hap'].
      destruct (decide (k1 = k0)) as [->|Hne]; [left; congruence|right]. by eapply (rows_apart mC COMMITTED_STATE ct pool cbs C k0 k1).
    + apply (grown_trans 1 0 _ t1); done.
    + apply (tx_inv_marks I ct cbs (t2, pool, tbs2, dt) C D I dt' (D ∖ {[k0]})); [|done|clear -X5; set_solver|].
      * eapply (tx_inv_rows 1); [exact Hinv|done|by apply (grown_trans 1 0 _ t1)|eauto].
      * intros k1 k' val1 val' HC1 Hk1D Hk1D' HI'. destruct (decide (k1 = k0)) as [->|Hne].
        2: { destruct Hk1D'. by apply elem_of_difference; split; [|by apply not_elem_of_singleton]. }
        rewrite HC in HC1. injection HC1 as <-.
        apply apart_sym. by eapply Hap'.
  - rewrite (sbind_Ok _ _ _ _ _ (of_tx_table_eq _ _ _ _ dt _ (phys_row_ref es rt Hrt Hnr Hsize mT TX_STATE t1 pool tbs _ k val
      (tv_sq _ _ _ _ Hlog1) Hph1 Hk1))), (sbind_Ok (sgets snd) _ _ (t1, pool, tbs, dt) dt) by done.
    destruct (check_tx_ok ct cbs pool C dt D (row_at_key TX_STATE t1 tbs k) val (tb_indexes ct) (λ k, bool_decide (k ∈ D)) (dt_contains dt)) as (v & Hv & Hspec);
      try done; [by apply Forall_forall| |by eapply (phys_refers es rt mT TX_STATE)|].
    { intros k0 val0 HC0. by apply (mark_ok ct cbs pool C dt D k0 val0 X1 X4 HC0). }
    rewrite (sbind_Ok _ _ _ (t1, pool, tbs, dt) v) by (unfold sres; by rewrite Hv). destruct v as [u|].
    + right; right; right.
      destruct (table_delete_row es rt Hrt Hnr Hsize mT TX_STATE (E:=DatastoreError) t1 pool tbs _ k val (λ _, tt) Hinv1 Hk1) as (t2 & tbs2 & Hd & Hinv2 & Hg2).
      rewrite delete_insert_id in Hinv2 by done. rewrite (sbind_Ok _ _ _ _ _ (with_table_eq _ _ _ _ dt _ _ _ _ Hd)).
      exists u, t2, tbs2. split_and!; try done; [|by apply (grown_trans 1 0 _ t1)|].
      * destruct Hspec as (i & ix & schema & k0 & val0 & Hix & Hu & Hs1 & Hs2 & Hs3 & Hs4 & HC0 & HD & Hat).
        apply bool_decide_eq_false in HD. exists i, ix, schema. split_and!; try done. exists val0. split_and!; [left; by exists k0| |done].
        intros ->. by eapply Ho.
      * eapply (tx_inv_rows 1); [exact Hinv|done|by apply (grown_trans 1 0 _ t1)|eauto].
    + left. rewrite (sbind_Ok _ _ _ _ _ (of_tx_table_eq _ _ _ _ dt _ (phys_row_ref es rt Hrt Hnr Hsize mT TX_STATE t1 pool tbs _ k val
        (tv_sq _ _ _ _ Hlog1) Hph1 Hk1))).
      assert (Hapc : ∀ k0 val0, C !! k0 = Some val0 → k0 ∉ D → apart (tb_indexes ct) val val0).
      { intros k0 val0 HC0 HD. apply (Hspec k0 val0 HC0). by apply bool_decide_eq_false. }
      exists t1. split_and!; try done.
      * intros [(k0 & HC0 & _)|(k0 & HI0)]; [by eapply Ho|by eapply Hnew].
      * intros val0 [(k0 & HC0 & HD)|(k0 & HI0)]; [by eapply Hapc|by eapply Hap'].
      * eapply (tx_inv_rows 1); [exact Hinv|done|done|]. intros k' val' [[<- <-]|[_ HI']]%lookup_insert_Some; [right|left; by exists k'].
        split; [exact Ho|exact Hapc].
Qed.

(** Rows are written to the pages of the insert table, or taken out of them. *)
Lemma tx_inv_pages P P' ct cbs tx_t pool tbs dt C D I ps pool' tbs' :
  tx_inv P ct cbs (tx_t, pool, tbs, dt) C D I → tphys (tb_inner (with_inner_pages tx_t ps)) pool' tbs' P' →
  tx_inv P' ct cbs (with_inner_pages tx_t ps, pool', tbs', dt) C D I.
Proof using.
  intros [[X1 X1'] X2 X3 X4 X5 X6 X7 X8 X9] Hph. cbn in *. split; cbn; try done.
  - split; [|done]. destruct (phys_holds _ _ _ _ _ _ _ _ X1) as [Hh _]. destruct (phys_holds _ _ _ _ _ _ _ _ Hph) as [_ Hp].
    by eapply phys_frame.
  - by apply logical_pages.
Qed.

(** A row that is only in the pages is taken out. *)
Lemma tx_drop_ok ct cbs tx_t pool tbs dt C D I k val :
  tx_inv (<[k := val]> I) ct cbs (tx_t, pool, tbs, dt) C D I → I !! k = None →
  ∃ ps tbs', with_table (delete_internal_skip_pointer_map (E:=DatastoreError) (ptr_of TX_STATE k)) (tx_t, pool, tbs, dt) =
      (Ok (large_bytes (product_objects val)), (with_inner_pages tx_t ps, pool, tbs', dt)) ∧
    tx_inv I ct cbs (with_inner_pages tx_t ps, pool, tbs', dt) C D I.
Proof using Hrt Hnr Hsize.
  intros Hinv Hk. destruct (delete_skip_ok es rt Hrt Hnr Hsize mT TX_STATE (E:=DatastoreError) tx_t pool tbs _ k val
    (xi_phys _ _ _ _ _ _ _ Hinv) (tv_sq _ _ _ _ (xi_log _ _ _ _ _ _ _ Hinv)) (lookup_insert_eq _ _ _)) as (ps & tbs' & Hd & Hph).
  rewrite delete_insert_id in Hph by done. exists ps, tbs'. split; [by apply with_table_eq|]. by eapply tx_inv_pages.
Qed.

(** *** Finding by value *)

Definition at_place C I p val : Prop :=
  (∃ k, p = ptr_of COMMITTED_STATE k ∧ C !! k = Some val) ∨ (∃ k, p = ptr_of TX_STATE k ∧ I !! k = Some val).

Lemma find_to_delete_ok ct cbs tx_t pool tbs dt C D I k val :
  tx_inv (<[k := val]> I) ct cbs (tx_t, pool, tbs, dt) C D I → I !! k = None →
  collision_free (large (map_objects (<[k := val]> I))) →
  collision_free (large (map_objects C) ⊎ large (map_objects (<[k := val]> I))) →
  ∃ o, find_to_delete (H:=H) ct (ptr_of TX_STATE k) (tx_t, pool, tbs, dt) = (Ok o, (tx_t, pool, tbs, dt)) ∧
    match o with Some p => at_place C I p val | None => ∀ p, ¬ at_place C I p val end.
Proof using Hrt Hnr Hsize LawI FLawI.
  intros [[Xc Xl] X2 X3 X4 X5 X6 X7 X8 X9] Hk Hc1 Hc2. cbn [fst snd] in *. unfold find_to_delete.
  assert (Hk1 : <[k := val]> I !! k = Some val) by apply lookup_insert_eq.
  destruct (find_same_row_ok (E:=DatastoreError) es COMMITTED_STATE ct tx_t tbs (ptr_of TX_STATE k) C val None) as (h & o & Hfind & Ho & Hh); try done.
  { eapply (cross_needle es rt Hrt Hnr Hsize mC mT); [exact Xc|exact X2|apply X3|done|done]. }
  { apply (ph_keys _ _ _ _ _ _ _ _ Xc). }
  { apply Xl. } { apply Xl. }
  rewrite (sbind_Ok _ _ _ _ _ (of_tx_table_eq _ _ _ _ dt _ Hfind)). destruct o as [p|].
  { exists (Some p). split; [done|]. left. destruct Ho as (k0 & HC & ->). by exists k0. }
  destruct (own_needle es rt Hrt Hnr Hsize mT TX_STATE (E:=DatastoreError) (H:=H) tx_t pool tbs I _ k val X2 (tv_sq _ _ _ _ X3) (insert_subseteq _ _ _ Hk) Hk1 Hc1) as [Hn Hok].
  destruct (find_same_row_ok (E:=DatastoreError) es TX_STATE tx_t tx_t tbs (ptr_of TX_STATE k) I val h Hn Hok (tv_indexes _ _ _ _ X3) (tv_finder _ _ _ _ X3) Hh)
    as (h' & o & Hfind' & Ho' & _).
  rewrite (sbind_Ok _ _ _ _ _ (of_tx_table_eq _ _ _ _ dt _ Hfind')). exists o. split; [done|]. destruct o as [p|].
  - right. destruct Ho' as (k0 & HI & ->). by exists k0.
  - intros p [(k0 & _ & HC)|(k0 & _ & HI)]; [by eapply Ho|by eapply Ho'].
Qed.

Lemma find_by_value_ok ct cbs tx_t pool tbs dt C D I val :
  tx_inv I ct cbs (tx_t, pool, tbs, dt) C D I → tx_insertable C I val →
  (∃ o ps pool' tbs', find_by_value (H:=H) ct val (tx_t, pool, tbs, dt) = (Ok o, (with_inner_pages tx_t ps, pool', tbs', dt)) ∧
     tx_inv I ct cbs (with_inner_pages tx_t ps, pool', tbs', dt) C D I ∧
     match o with Some p => at_place C I p val | None => ∀ p, ¬ at_place C I p val end) ∨
  find_by_value (H:=H) ct val (tx_t, pool, tbs, dt) = (Err (TableBflatn (BPagesError TooManyPages)), (tx_t, pool, tbs, dt)) ∧
    num_pages tx_t = PageIndex_MAX + 1.
Proof using Hrt Hnr Hsize Hcode LawI FLawI.
  intros Hinv Hins. pose proof Hinv as [X1 X2 X3 X4 X5 X6 X7 X8 X9]. cbn [fst snd] in *. unfold find_by_value.
  destruct Hins as (Ht & Hfits & Hc) eqn:HI. clear HI. destruct (insert_physically_ok es rt Hrt Hnr Hsize Hcode mT TX_STATE ltac:(done) tx_t pool tbs I val X2 (tv_sq _ _ _ _ X3) Ht Hfits)
    as [(k & ps & pool' & tbs' & Hi & Hk & Hph)|[Hi Hn]].
  { eapply collision_free_weaken; [|exact Hc]. clear. multiset_solver. }
  2: { right. split; [|done]. unfold sbind at 1, smap_err, with_table. by rewrite Hi. }
  left. set (t1 := with_inner_pages tx_t ps) in *. destruct (insertable_free C I k val Hk (conj Ht (conj Hfits Hc))) as (Hc1 & Hc2 & _).
  rewrite (sbind_Ok _ _ _ (t1, pool', tbs', dt) (row_at_key TX_STATE t1 tbs' k, large_bytes (product_objects val)))
    by (unfold smap_err, with_table; by rewrite Hi). cbn [row_at_key rr_pointer].
  pose proof (tx_inv_pages _ _ _ _ _ _ _ _ _ _ _ _ _ _ Hinv Hph) as Hinv1. fold t1 in Hinv1.
  destruct (tx_drop_ok ct cbs t1 pool' tbs' dt C D I k val Hinv1 Hk) as (ps2 & tbs2 & Hd & Hinv2).
  assert (∃ o, find_to_delete (H:=H) ct (ptr_of TX_STATE k) (t1, pool', tbs', dt) = (Ok o, (t1, pool', tbs', dt)) ∧
    match o with Some p => at_place C I p val | None => ∀ p, ¬ at_place C I p val end) as (o & Ho & Hspec).
  { by apply find_to_delete_ok with cbs D. }
  rewrite (sbind_Ok _ _ _ _ _ Ho), (sbind_Ok _ _ _ _ _ Hd). by exists o, ps2, pool', tbs2.
Qed.

(** ** Places *)

(** The row at a pointer that the transaction sees. *)
Definition sees_at C D I p val : Prop :=
  (∃ k, p = ptr_of COMMITTED_STATE k ∧ C !! k = Some val ∧ k ∉ D) ∨ (∃ k, p = ptr_of TX_STATE k ∧ I !! k = Some val).

Lemma sees_place C D I val : sees C D I val ↔ ∃ p, sees_at C D I p val.
Proof using. unfold sees, sees_at. naive_solver. Qed.

Definition places_ok C I : Prop := map_Forall (λ k _, key_ok COMMITTED_STATE k) C ∧ map_Forall (λ k _, key_ok TX_STATE k) I.

Lemma ptr_of_inj sq sq' k k' : key_ok sq k → key_ok sq' k' → ptr_of sq k = ptr_of sq' k' → sq = sq' ∧ k = k'.
Proof using. intros (K1 & K2 & _) (K1' & K2' & _) He. rewrite He in K1, K2. split; congruence. Qed.
Lemma states_differ k k' : key_ok COMMITTED_STATE k → key_ok TX_STATE k' → ptr_of COMMITTED_STATE k ≠ ptr_of TX_STATE k'.
Proof using. intros H1 H2 He. by destruct (ptr_of_inj _ _ _ _ H1 H2 He). Qed.

Lemma sees_insert C D I k val p v : I !! k = None →
  sees_at C D (<[k := val]> I) p v ↔ p = ptr_of TX_STATE k ∧ v = val ∨ sees_at C D I p v.
Proof using.
  intros Hk. unfold sees_at. split.
  - intros [H1|(k' & -> & [[<- <-]|[_ HI]]%lookup_insert_Some)]; [by right; left|by left|]. right; right. by exists k'.
  - intros [[-> ->]|[H1|(k' & -> & HI)]]; [right; exists k; by rewrite lookup_insert_eq|by left|]. right. exists k'. split; [done|].
    rewrite lookup_insert_ne; [done|]. congruence.
Qed.
Lemma sees_delete C D I k val p v : places_ok C I → I !! k = Some val →
  sees_at C D (delete k I) p v ↔ p ≠ ptr_of TX_STATE k ∧ sees_at C D I p v.
Proof using.
  intros [PC PI] Hk. pose proof (PI k val Hk) as Kk. unfold sees_at. split.
  - intros [(k' & -> & HC & HD)|(k' & -> & [Hne HI]%lookup_delete_Some)].
    + split; [by apply states_differ; [apply (PC k' v)|]|]. left. by exists k'.
    + split; [|right; by exists k']. intros He. by destruct (ptr_of_inj _ _ _ _ (PI k' v HI) Kk He).
  - intros [Hp [H1|(k' & -> & HI)]]; [by left|]. right. exists k'. split; [done|]. rewrite lookup_delete_ne; [done|]. by intros ->.
Qed.
Lemma sees_mark C D I k val p v : places_ok C I → C !! k = Some val →
  sees_at C ({[k]} ∪ D) I p v ↔ p ≠ ptr_of COMMITTED_STATE k ∧ sees_at C D I p v.
Proof using.
  intros [PC PI] Hk. pose proof (PC k val Hk) as Kk. unfold sees_at. split.
  - intros [(k' & -> & HC & HD)|(k' & -> & HI)].
    + apply not_elem_of_union in HD as [Hne HD]. rewrite not_elem_of_singleton in Hne. split; [|left; by exists k'].
      intros He. by destruct (ptr_of_inj _ _ _ _ (PC k' v HC) Kk He).
    + split; [|right; by exists k']. apply not_eq_sym. apply states_differ; [done|by apply (PI k' v)].
  - intros [Hp [(k' & -> & HC & HD)|H1]]; [|by right]. left. exists k'. split_and!; [done..|].
    apply not_elem_of_union. split; [|done]. apply not_elem_of_singleton. by intros ->.
Qed.
Lemma sees_unmark C D I k val p v : C !! k = Some val →
  sees_at C (D ∖ {[k]}) I p v ↔ p = ptr_of COMMITTED_STATE k ∧ v = val ∨ sees_at C D I p v.
Proof using.
  intros Hk. unfold sees_at. split.
  - intros [(k' & -> & HC & HD)|H1]; [|by right; right]. destruct (decide (k' = k)) as [->|Hne]; [left; split; congruence|].
    right; left. exists k'. split_and!; [done..|]. intros HD'. apply HD, elem_of_difference. by rewrite not_elem_of_singleton.
  - intros [[-> ->]|[(k' & -> & HC & HD)|H1]]; [| |by right]; left; [exists k|exists k']; (split_and!; [done..|]).
    + intros [_ Hk']%elem_of_difference. by apply Hk', elem_of_singleton.
    + by intros [? _]%elem_of_difference.
Qed.

Lemma tx_places P ct cbs s C D I : tx_inv P ct cbs s C D I → I ⊆ P → places_ok C I.
Proof using.
  intros Hinv Hsub. split; [apply (ph_keys _ _ _ _ _ _ _ _ (proj1 (xi_commit _ _ _ _ _ _ _ Hinv)))|].
  intros k val HI. eapply (ph_keys _ _ _ _ _ _ _ _ (xi_phys _ _ _ _ _ _ _ Hinv)), lookup_weaken; [exact HI|done].
Qed.
Lemma tx_places_new ct cbs s C D I k val : tx_inv (<[k := val]> I) ct cbs s C D I → I !! k = None → places_ok C I.
Proof using. intros Hinv Hk. eapply tx_places; [exact Hinv|]. by apply insert_subseteq. Qed.

(** ** Outcomes *)

Definition row_of (r : RowRefInsertion (B:=B)) : RowRef B := match r with Inserted r | Existed r => r end.
Definition is_new (r : RowRefInsertion (B:=B)) : bool := match r with Inserted _ => true | Existed _ => false end.

(** An insertion that succeeded: the row that is returned has the value, and it
    is the only one that was not seen before, if it is new. *)
Lemma tx_insertion_ok ct cbs tx_t pool tbs dt C D I k val :
  tx_inv (<[k := val]> I) ct cbs (tx_t, pool, tbs, dt) C D I → I !! k = None → tx_insertable C I val → room TX_STATE tx_t I val →
  let out := confirm_tx_insertion (H:=H) ct cbs (ptr_of TX_STATE k) (large_bytes (product_objects val)) (tx_t, pool, tbs, dt) in
  (∃ r tx_t' tbs' dt' D' I', out = (Ok r, (tx_t', pool, tbs', dt')) ∧ tx_inv I' ct cbs (tx_t', pool, tbs', dt') C D' I' ∧ grown 1 tx_t tx_t' ∧
     rr_to_product_value (E:=unit) (row_of r) = Ok val ∧
     (∀ p v, sees_at C D' I' p v ↔ p = rr_pointer (row_of r) ∧ v = val ∨ sees_at C D I p v) ∧
     (∀ p v, sees_at C D I p v → v = val ∨ apart (tb_indexes ct) val v) ∧
     (is_new r = true → ∀ p, ¬ sees_at C D I p val)) ∨
  (∃ u tx_t' tbs', out = (Err (IndexViolation u), (tx_t', pool, tbs', dt)) ∧ violated ct (λ v, sees C D I v ∧ v ≠ val) val u ∧ grown 1 tx_t tx_t' ∧
     tx_inv I ct cbs (tx_t', pool, tbs', dt) C D I).
Proof using Hrt Hnr Hsize LawI FLawI.
  intros Hinv Hk Hins Hroom. cbv zeta.
  destruct (confirm_tx_insertion_ok ct cbs tx_t pool tbs dt C D I k val Hinv Hk Hins Hroom)
    as [(t1 & -> & Hnew & Hap & Hg & Hinv')|[(k0 & t1 & tbs1 & -> & HI & Hg & Hinv')|[(k0 & t1 & tbs1 & dt1 & -> & HC & Hap & Hg & Hinv')|Herr]]];
    [left..|by right].
  - eexists _, t1, tbs, dt, D, (<[k := val]> I). split_and!; [done|done|done| | | |].
    + apply (phys_read es rt Hrt Hnr Hsize mT TX_STATE t1 pool tbs _ k val (xi_phys _ _ _ _ _ _ _ Hinv')), lookup_insert_eq.
    + intros p v. by apply sees_insert.
    + intros p v Hs. right. apply Hap, sees_place. by exists p.
    + intros _ p Hs. apply Hnew, sees_place. by exists p.
  - eexists _, t1, tbs1, dt, D, I. split_and!; [done|done|done| | | |done].
    + by apply (phys_read es rt Hrt Hnr Hsize mT TX_STATE t1 pool tbs1 _ k0 val (xi_phys _ _ _ _ _ _ _ Hinv')).
    + intros p v. split; [by right|]. intros [[-> ->]|Hs]; [|done]. right. by exists k0.
    + intros p v [(k1 & -> & HC & HD)|(k1 & -> & HI1)]; [right; by eapply (xi_unique _ _ _ _ _ _ _ Hinv')|].
      destruct (decide (k1 = k0)) as [->|Hne]; [left; congruence|right].
      apply (apart_twins _ _ _ _ (xi_twins _ _ _ _ _ _ _ Hinv')). by eapply (rows_apart mT TX_STATE t1 pool tbs1 I k0 k1);
        [split; [apply (xi_phys _ _ _ _ _ _ _ Hinv')|apply (xi_log _ _ _ _ _ _ _ Hinv')]|..].
  - eexists _, t1, tbs1, dt1, (D ∖ {[k0]}), I. split_and!; [done|done|done| | | |done].
    + destruct (xi_commit _ _ _ _ _ _ _ Hinv') as [Hph _]. by apply (phys_read es rt Hrt Hnr Hsize mC COMMITTED_STATE ct pool cbs C k0 val Hph).
    + intros p v. by apply sees_unmark.
    + intros p v Hs. apply Hap, sees_place. by exists p.
Qed.
End rows.
