(* ===== verification/TxUpdate.v ===== *)
(** * Updates in a transaction

    Replacing the row that has the key of a new row in a unique index: the old
    row is a committed one, which is then marked as deleted, or one that the
    transaction inserted. *)

From Stdlib Require Import ZArith Lia.
From stdpp Require Import sorting gmap gmultiset list strings.
From S2P Require Import Prelude Buffer Sats Bsatn Mem Indexes VarLen BlobStore Page PageInv PageRows PageRead PageThm Pages PointerMap Layout RowTypeVisitor BflatnTo BflatnFrom BflatnRepr BflatnThm PagesThm StaticLayout RowEq ValueHash RowHash StaticValidator ColList RowRef ValueOrd BTreeMap IndexMaps TableIndex Table TableRows TableThm RowInsert DeleteTable Sequence TxState MutTx TxTable TxRows.
Local Open Scope Z_scope.

Section rows.
Context {FloatI : FloatOrd} {FLawI : FloatOrdLaws}.
Context {Q B H : Type} {QueueI : PageQueue Q} {QLawI : PageQueueLaws Q}.
Context {BsI : BlobStore B} {HashI : Blake3} {LawI : BlobStoreLaws B} {HasherI : RowHasher H}.
Context (es : list ProductTypeElement) (rt : RowTypeLayout).
Context (Hrt : row_type_layout (E:=unit) es = Ok rt) (Hnr : contains_refs (TProduct es) = false).
Context (Hsize : ty_size (TProduct es) ≤ PAGE_DATA_SIZE) (Hcode : len (visitor_code rt) ≤ u16_MAX).
Context (mC mT : gmultiset (list byte)).
Implicit Types (t ct tx_t : Table) (pool : PagePool Q) (bs cbs tbs : B) (dt : DeleteTable).
Implicit Types (A C I P : gmap (nat * Z) ProductValue) (D : gset (nat * Z)) (k : nat * Z) (val : ProductValue).

Local Abbreviation cinv := (tbl_inv (H:=H) es rt mC COMMITTED_STATE) (only parsing).
Local Abbreviation tphys := (phys es rt mT TX_STATE) (only parsing).
Local Abbreviation tlog := (logical (H:=H) es TX_STATE) (only parsing).
Local Abbreviation parts := (@TxParts Q B) (only parsing).

Local Abbreviation tx_inv := (tx_inv (H:=H) es rt mC mT) (only parsing).
Local Abbreviation tx_insertable := (tx_insertable es rt mC mT) (only parsing).

(** ** Keys of one row *)

(** A unique index finds the only row with the key, if there is one. *)
Lemma unique_seek_ok {E} sq t A i ix val :
  logical (H:=H) es sq t A → map_Forall (λ k _, key_ok sq k) A → (i, ix) ∈ tb_indexes t → ix_is_unique ix = true → typed [] (TProduct es) (VProduct val) →
  let same v := at_key (row_key (ix_indexed_columns ix) val) (row_key (ix_indexed_columns ix) v) in
  ∃ l, ix_seek_point (E:=E) ix (row_key (ix_indexed_columns ix) val) = Ok l ∧
    (l = [] ∧ (∀ k v, A !! k = Some v → same v = false) ∨
     ∃ k0 val0, l = [ptr_of sq k0] ∧ A !! k0 = Some val0 ∧ same val0 = true ∧ ∀ k v, A !! k = Some v → same v = true → k = k0).
Proof using FLawI.
  intros Hlog Hkeys Hin Hu Ht same. pose proof (tv_indexes _ _ _ _ Hlog) as Hix. rewrite Forall_forall in Hix. destruct (Hix _ Hin) as [Hfor Hrel].
  destruct (row_key_typed es ix val Hfor Ht) as [_ Hty]. destruct (ix_point_ok (E:=E) es ix _ _ Hfor Hrel Hty) as (l & Hl & Hp & Hlen).
  specialize (Hlen Hu). exists l. split; [done|]. cbn [snd] in *.
  assert (Hel : ∀ k v, A !! k = Some v → same v = true → ptr_of sq k ∈ l) by (intros k v HA Hs; rewrite Hp; apply select_key; by exists k, v).
  destruct l as [|p [|p' l]]; [left|right|cbn in Hlen; lia].
  - split; [done|]. intros k v HA. apply not_true_is_false. intros Hs. by apply (Hel k v HA), elem_of_nil in Hs.
  - assert (Hin' : p ∈ [p]) by by left. rewrite Hp in Hin'. apply select_key in Hin' as (k0 & val0 & HA & Hs & ->). exists k0, val0. split_and!; try done.
    intros k v HA' Hs'. pose proof (Hel k v HA' Hs') as He%list_elem_of_singleton.
    eapply (key_inj sq); [by apply (Hkeys k v)|by apply (Hkeys k0 val0)|done].
Qed.

(** The row that is returned has the value and takes the place of another one with its key. *)
Definition replaced ct cbs ix (s : parts) C D I val r : Prop :=
  ∃ D' I' oldp old, tx_inv I' ct cbs s C D' I' ∧ rr_to_product_value (E:=unit) (row_of r) = Ok val ∧
    sees_at C D I oldp old ∧ at_key (row_key (ix_indexed_columns ix) val) (row_key (ix_indexed_columns ix) old) = true ∧
    ∀ p v, sees_at C D' I' p v ↔ p = rr_pointer (row_of r) ∧ v = val ∨ p ≠ oldp ∧ sees_at C D I p v.

(** Rows that are not to be replaced. *)
Definition other_rows ix C D I val v : Prop :=
  sees C D I v ∧ at_key (row_key (ix_indexed_columns ix) val) (row_key (ix_indexed_columns ix) v) = false.

Lemma inserted_row_ok tx_t pool tbs dt A k val :
  tbl_inv (H:=H) es rt mT TX_STATE tx_t pool tbs A → A !! k = Some val →
  inserted_row (ptr_of TX_STATE k) (tx_t, pool, tbs, dt) = (Ok (inr (Inserted (row_at_key TX_STATE tx_t tbs k))), (tx_t, pool, tbs, dt)).
Proof using Hrt Hnr Hsize.
  intros [Hph Hlog] Hk. unfold inserted_row.
  by rewrite (sbind_Ok _ _ _ _ _ (of_tx_table_eq _ _ _ _ dt _ (phys_row_ref es rt Hrt Hnr Hsize mT TX_STATE tx_t pool tbs _ k val (tv_sq _ _ _ _ Hlog) Hph Hk))).
Qed.

Lemma apart_key l i ix val val' : apart l val val' → (i, ix) ∈ l → ix_is_unique ix = true →
  at_key (row_key (ix_indexed_columns ix) val) (row_key (ix_indexed_columns ix) val') = false.
Proof using. unfold apart. rewrite Forall_forall. intros Ha Hin Hu. exact (Ha _ Hin Hu). Qed.
Lemma at_key_trans (v1 v2 v3 : AlgebraicValue) : at_key v1 v2 = true → at_key v2 v3 = true → at_key v1 v3 = true.
Proof using FLawI.
  unfold at_key. destruct (cmp v1 v2) eqn:H1; [|done..]. by rewrite (cmp_eq_l _ _ v3 H1).
Qed.
Lemma at_key_refl (v : AlgebraicValue) : at_key v v = true.
Proof using FLawI. unfold at_key. by rewrite cmp_refl. Qed.

Lemma replace_committed_ok ct cbs tx_t pool tbs dt C D I k k0 val val0 i ix :
  tx_inv (<[k := val]> I) ct cbs (tx_t, pool, tbs, dt) C D I → I !! k = None → tx_insertable C I val → room TX_STATE tx_t I val →
  (i, ix) ∈ tb_indexes ct → ix_is_unique ix = true → C !! k0 = Some val0 → k0 ∉ D →
  let same v := at_key (row_key (ix_indexed_columns ix) val) (row_key (ix_indexed_columns ix) v) in
  same val0 = true → (∀ k1 v, C !! k1 = Some v → same v = true → k1 = k0) →
  (∀ k1 v, C !! k1 = Some v → k1 ≠ k0 → k1 ∉ D → apart (tb_indexes ct) val v) →
  let out := replace_committed (H:=H) ct cbs (ptr_of COMMITTED_STATE k0) (ptr_of TX_STATE k) (large_bytes (product_objects val)) (tx_t, pool, tbs, dt) in
  (∃ r s', out = (Ok (inr r), s') ∧ replaced ct cbs ix s' C D I val r ∧ grown 1 tx_t s'.1.1.1) ∨
  (∃ u s', out = (Err (IndexViolation u), s') ∧ violated ct (other_rows ix C D I val) val u ∧ tx_inv I ct cbs s' C D I ∧ grown 1 tx_t s'.1.1.1).
Proof using Hrt Hnr Hsize LawI FLawI.
  intros Hinv Hk Hins Hroom Hix Hu HC HD same Hsame Honly Hapc. cbv zeta. destruct (insertable_free es rt mC mT C I k val Hk Hins) as (Hc1 & Hc2 & _).
  pose proof Hinv as [X1 X2 X3 X4 X5 X6 X7 X8 X9]. cbn [fst snd] in *. pose proof X1 as [Xc Xl]. unfold replace_committed.
  destruct (cross_eq es rt Hrt Hnr Hsize (E:=DatastoreError) mC mT COMMITTED_STATE TX_STATE ct tx_t pool pool cbs tbs C _ k0 k val0 val Xc X2 HC (lookup_insert_eq _ _ _) Hc2)
    as (b & Hb & Hiff).
  rewrite (sbind_Ok _ _ _ _ _ (of_tx_table_eq (λ tx_table _, table_eq_row ct _ tx_table _) _ _ _ dt _ Hb)).
  pose proof (tx_places_new es rt mC mT _ _ _ _ _ _ _ _ Hinv Hk) as Hpl. destruct b.
  - left. pose proof (proj1 Hiff eq_refl) as ->. destruct (tx_drop_ok es rt Hrt Hnr Hsize mC mT ct cbs tx_t pool tbs dt C D I k val Hinv Hk) as (ps & tbs' & Hd & Hinv').
    rewrite (sbind_Ok _ _ _ _ _ Hd), (sbind_Ok (sres _) _ _ (with_inner_pages tx_t ps, pool, tbs', dt) (row_at_key COMMITTED_STATE ct cbs k0)).
    2: { unfold sres. by rewrite (phys_row_ref es rt Hrt Hnr Hsize mC COMMITTED_STATE ct pool cbs C k0 val (tv_sq _ _ _ _ Xl) Xc HC). }
    eexists _, _. split; [done|]. split; [|by apply grown_pages]. exists D, I, (ptr_of COMMITTED_STATE k0), val. split_and!; [done| | |done|].
    + by apply (phys_read es rt Hrt Hnr Hsize mC COMMITTED_STATE ct pool cbs C k0 val Xc).
    + left. by exists k0.
    + intros p v. rewrite <-(sees_mark C D I k0 val p v Hpl HC). rewrite <-(sees_unmark C ({[k0]} ∪ D) I k0 val p v HC).
      replace (({[k0]} ∪ D) ∖ {[k0]}) with D; [done|]. clear -HD. set_solver.
  - assert (Hne : val0 ≠ val) by (intros He; by discriminate (proj2 Hiff He)).
    assert (Hno : ∀ k', I !! k' ≠ Some val).
    { intros k' HI. pose proof (apart_key _ i ix _ _ (X7 k0 k' val0 val HC HD HI) Hix Hu) as Hf. unfold same in Hsame. congruence. }
    destruct (confirm_insertion_ok es rt Hrt Hnr Hsize mT TX_STATE false tx_t pool tbs I k val ltac:(done) X2 X3 Hk Hc1 Hroom)
      as [(t1 & Hconf & Hinv1 & Hg & _ & _ & Hun)|(e & t1 & tbs1 & Hconf & He & Hinv1 & Hg)]; [left|right].
    + rewrite (sbind_Ok _ _ _ (t1, pool, tbs, dt) (hash_of (H:=H) tx_t val, ptr_of TX_STATE k)) by (unfold smap_err, with_table; by rewrite Hconf).
      destruct (mark_ok es rt Hrt Hnr Hsize mC ct cbs pool C dt D k0 val0 X1 X4 HC) as (_ & (dt' & Hmk & Hdt') & _).
      rewrite (sbind_Ok _ _ _ _ _ (with_deletes_eq _ _ _ _ _ _ _ Hmk)), (inserted_row_ok t1 pool tbs dt' _ k val Hinv1 (lookup_insert_eq _ _ _)).
      eexists _, _. split; [done|]. split; [|exact Hg]. exists ({[k0]} ∪ D), (<[k := val]> I), (ptr_of COMMITTED_STATE k0), val0. split_and!; [| | |done|].
      * eapply (tx_inv_rows es rt mC mT 1 _ _ _ tx_t _ tbs); [|done|exact Hg|].
        -- apply (tx_inv_marks es rt mC mT _ _ _ _ _ _ _ dt' ({[k0]} ∪ D) Hinv Hdt'); [|clear; set_solver].
           apply union_subseteq. split; [|done]. apply singleton_subseteq_l. by eapply elem_of_dom_2.
        -- intros k' v [[<- <-]|[_ HI]]%lookup_insert_Some; [right|left; by exists k']. split.
           ++ intros k1 HC1. assert (k1 = k0) as -> by (apply (Honly k1 val HC1), at_key_refl). congruence.
           ++ intros k1 v1 HC1 Hn. apply not_elem_of_union in Hn as [Hn1%not_elem_of_singleton Hn2]. by eapply Hapc.
      * by apply (phys_read es rt Hrt Hnr Hsize mT TX_STATE t1 pool tbs _ k val (proj1 Hinv1)), lookup_insert_eq.
      * left. by exists k0.
      * intros p v. by rewrite (sees_insert _ _ _ _ _ _ _ Hk), (sees_mark C D I k0 val0 p v Hpl HC).
    + pose proof (tx_inv_rows es rt mC mT 1 _ _ _ _ _ _ _ _ _ _ t1 tbs1 I Hinv Hinv1 Hg ltac:(eauto)) as Hinv2.
      destruct e as [p|e|u]; [destruct He as (k1 & HI & _); by destruct (Hno k1)|done|].
      exists u, (t1, pool, tbs1, dt). split_and!; try done; [unfold sbind, smap_err, with_table; by rewrite Hconf|].
      destruct He as (j & jx & Hj & Hv). eapply (violated_tx es rt mC mT _ _ _ (tx_t, pool, tbs, dt)); [exact Hinv|exact Hj|exact Hv|].
      intros k1 v1 HI1 Hne1. split; [right; by exists k1|]. apply not_true_is_false. intros Hs1.
      pose proof (apart_key _ i ix _ _ (X7 k0 k1 val0 v1 HC HD HI1) Hix Hu) as Hf.
      rewrite at_key_sym in Hs1. by rewrite (at_key_trans _ _ _ Hs1 Hsame) in Hf.
Qed.

(** The same index of the other table. *)
Lemma twins_get l l' i ix : twins l l' → bt_get l i = Some ix → ∃ ix', bt_get l' i = Some ix' ∧ twin (i, ix) (i, ix').
Proof using.
  induction 1 as [|[j jx] [j' jx'] l l' Htw _ IH]; [done|]. pose proof Htw as [Hj _]. cbn in Hj |- *. subst j'.
  destruct (cmp i j) eqn:Hc; [|done|done]. apply Z.compare_eq in Hc as ->. intros [= ->]. by exists jx'.
Qed.
Lemma get_index_in {V} (l : list (Z * V)) i x : bt_get l i = Some x → (i, x) ∈ l.
Proof using.
  induction l as [|[j y] l IH]; [done|]. cbn. destruct (cmp i j) eqn:Hc; [|done|by right; apply IH].
  apply Z.compare_eq in Hc as ->. intros [= ->]. by left.
Qed.

(** Deleting a row of the insert table and inserting another one. *)
Lemma sees_swap C D I k k1 val val1 p v : places_ok C I → I !! k = None → I !! k1 = Some val1 →
  sees_at C D (<[k := val]> (delete k1 I)) p v ↔ p = ptr_of TX_STATE k ∧ v = val ∨ p ≠ ptr_of TX_STATE k1 ∧ sees_at C D I p v.
Proof using.
  intros Hpl Hk HI. rewrite sees_insert by (by apply lookup_delete_None; right). by rewrite (sees_delete _ _ _ _ _ _ _ Hpl HI).
Qed.

Lemma insertable_less C I k1 val1 val : I !! k1 = Some val1 → tx_insertable C I val → tx_insertable C (delete k1 I) val.
Proof using.
  intros HI (Ht & Hf & Hc). split_and!; [done..|]. eapply collision_free_weaken; [|exact Hc].
  rewrite (large_perm' _ _ (map_objects_delete I k1 val1 HI)), large_app'. clear. multiset_solver.
Qed.

Lemma undelete_equal_ok ct cbs tx_t pool tbs dt C D I k k1 val val1 ix o t1 tbs1 P :
  tx_inv P ct cbs (tx_t, pool, tbs, dt) C D I → places_ok C I → tx_insertable C I val → I !! k = None → I !! k1 = Some val1 →
  at_key (row_key (ix_indexed_columns ix) val) (row_key (ix_indexed_columns ix) val1) = true →
  tbl_inv (H:=H) es rt mT TX_STATE t1 pool tbs1 (<[k := val]> (delete k1 I)) → grown 0 tx_t t1 →
  (∀ k0, C !! k0 = Some val → o = Some k0) → (∀ k0, o = Some k0 → is_Some (C !! k0)) →
  (∀ k0 v, C !! k0 = Some v → k0 ∉ D → apart (tb_indexes ct) val v) →
  ∃ r s', undelete_equal (H:=H) ct cbs (ptr_of COMMITTED_STATE <$> o) (ptr_of TX_STATE k) (t1, pool, tbs1, dt) = (Ok (inr r), s') ∧
    replaced ct cbs ix s' C D I val r ∧ grown 0 tx_t s'.1.1.1.
Proof using Hrt Hnr Hsize LawI FLawI.
  intros Hinv Hpl Hins Hk HI1 Hs1 Hinv1 Hg Ho Ho' Hapc. pose proof Hinv as [X1 X2 X3 X4 X5 X6 X7 X8 X9]. cbn [fst snd] in *. pose proof X1 as [Xc Xl].
  assert (Hk1 : delete k1 I !! k = None) by by apply lookup_delete_None; right.
  pose proof (insertable_less C I k1 val1 val HI1 Hins) as Hins1. destruct (insertable_free es rt mC mT C _ k val Hk1 Hins1) as (_ & Hc2 & _).
  assert (Hless : ∀ k' v, delete k1 I !! k' = Some v → ∃ k0, I !! k0 = Some v) by (intros k' v [_ HI]%lookup_delete_Some; by exists k').
  assert (Hold : sees_at C D I (ptr_of TX_STATE k1) val1) by (right; by exists k1).
  assert (Hkeep : (∀ k0, C !! k0 ≠ Some val) → replaced ct cbs ix (t1, pool, tbs1, dt) C D I val (Inserted (row_at_key TX_STATE t1 tbs1 k))).
  { intros Hnew. exists D, (<[k := val]> (delete k1 I)), (ptr_of TX_STATE k1), val1. split_and!; [| |done|done|].
    - eapply (tx_inv_rows es rt mC mT 0); [exact Hinv|done|done|].
      intros k' v [[<- <-]|[_ HI]]%lookup_insert_Some; [by right|left; by eapply Hless].
    - apply (phys_read es rt Hrt Hnr Hsize mT TX_STATE t1 pool tbs1 _ k val (proj1 Hinv1)), lookup_insert_eq.
    - intros p v. by eapply sees_swap. }
  unfold undelete_equal. destruct o as [k0|]; cbn [fmap option_fmap option_map].
  2: { rewrite (inserted_row_ok t1 pool tbs1 dt _ k val Hinv1 (lookup_insert_eq _ _ _)). eexists _, _. split; [done|]. split; [|done].
       apply Hkeep. intros k0 HC. by specialize (Ho k0 HC). }
  destruct (Ho' k0 eq_refl) as [val0 HC].
  destruct (cross_eq es rt Hrt Hnr Hsize (E:=DatastoreError) mC mT COMMITTED_STATE TX_STATE ct t1 pool pool cbs tbs1 C _ k0 k val0 val Xc (proj1 Hinv1) HC
    (lookup_insert_eq _ _ _) Hc2) as (b & Hb & Hiff).
  rewrite (sbind_Ok _ _ _ _ _ (of_tx_table_eq (λ tx_table _, table_eq_row ct _ tx_table _) _ _ _ dt _ Hb)). destruct b.
  - pose proof (proj1 Hiff eq_refl) as ->.
    destruct (undelete_ok es rt Hrt Hnr Hsize mC mT ct cbs t1 pool tbs1 dt C D (delete k1 I) k k0 val X1 Hinv1 X4 Hk1 HC)
      as (t2 & tbs2 & dt' & Hd & Hinv2 & Hg2 & Hdt').
    rewrite (sbind_Ok _ _ _ _ _ Hd). pose proof (grown_trans 0 0 _ _ _ Hg Hg2) as Hg'. eexists _, _. split; [done|]. split; [|exact Hg'].
    exists (D ∖ {[k0]}), (delete k1 I), (ptr_of TX_STATE k1), val1. split_and!; [| |done|done|].
    + apply (tx_inv_marks es rt mC mT (delete k1 I) ct cbs (t2, pool, tbs2, dt) C D _ dt' (D ∖ {[k0]})); [|done|clear -X5; set_solver|].
      * eapply (tx_inv_rows es rt mC mT 0); [exact Hinv|done|done|]. intros k' v HI. left. by eapply Hless.
      * intros k2 k' v2 v' HC2 Hk2 Hk2' HI'. destruct (decide (k2 = k0)) as [->|Hne].
        2: { destruct Hk2'. by apply elem_of_difference; split; [|by apply not_elem_of_singleton]. }
        rewrite HC in HC2. injection HC2 as <-. apply apart_sym.
        apply (apart_twins _ _ _ _ (twins_same _ _ _ _ (same_indexes_refl _) (gr_indexes _ _ _ Hg) X8)).
        eapply (rows_apart es rt mT TX_STATE t1 pool tbs1 _ k k' _ _ Hinv1 (lookup_insert_eq _ _ _)); [|by intros ->; rewrite Hk1 in HI'].
        rewrite lookup_insert_ne; [done|]. by intros ->; rewrite Hk1 in HI'.
    + by apply (phys_read es rt Hrt Hnr Hsize mC COMMITTED_STATE ct pool cbs C k0 val Xc).
    + intros p v. by rewrite (sees_unmark _ _ _ _ _ _ _ HC), (sees_delete _ _ _ _ _ _ _ Hpl HI1).
  - rewrite (inserted_row_ok t1 pool tbs1 dt _ k val Hinv1 (lookup_insert_eq _ _ _)). eexists _, _. split; [done|]. split; [|done].
    apply Hkeep. intros k2 HC2. pose proof (Ho k2 HC2) as [= <-]. rewrite HC in HC2. injection HC2 as ->. by discriminate (proj2 Hiff eq_refl).
Qed.

Lemma replace_inserted_ok ct cbs tx_t pool tbs dt C D I k val i ix o :
  let same v := at_key (row_key (ix_indexed_columns ix) val) (row_key (ix_indexed_columns ix) v) in
  tx_inv (<[k := val]> I) ct cbs (tx_t, pool, tbs, dt) C D I → I !! k = None → tx_insertable C I val → room TX_STATE tx_t I val →
  get_index_by_id ct i = Some ix → ix_is_unique ix = true →
  (∀ k0 v, C !! k0 = Some v → same v = true → o = Some k0 ∧ k0 ∈ D) → (∀ k0, o = Some k0 → is_Some (C !! k0)) →
  (∀ k0 v, C !! k0 = Some v → k0 ∉ D → apart (tb_indexes ct) val v) →
  let out := replace_inserted (H:=H) ct cbs i (row_key (ix_indexed_columns ix) val) (ptr_of COMMITTED_STATE <$> o) (ptr_of TX_STATE k)
               (large_bytes (product_objects val)) (tx_t, pool, tbs, dt) in
  (∃ r s', out = (Ok (inr r), s') ∧ replaced ct cbs ix s' C D I val r ∧ grown 0 tx_t s'.1.1.1) ∨
  (out = (Ok (inl (IndexKeyNotFound i (row_key (ix_indexed_columns ix) val))), (tx_t, pool, tbs, dt)) ∧ ∀ v, sees C D I v → same v = false) ∨
  (∃ u s', out = (Err (IndexViolation u), s') ∧ violated ct (other_rows ix C D I val) val u ∧ tx_inv I ct cbs s' C D I ∧ grown 0 tx_t s'.1.1.1).
Proof using Hrt Hnr Hsize LawI FLawI.
  intros same Hinv Hk Hins Hroom Hget Hu Ho Ho' Hapc. cbv zeta. destruct (insertable_free es rt mC mT C I k val Hk Hins) as (Hc1 & Hc2 & _).
  pose proof Hinv as [X1 X2 X3 X4 X5 X6 X7 X8 X9]. cbn [fst snd] in *. pose proof X1 as [Xc Xl].
  pose proof (tx_places_new es rt mC mT _ _ _ _ _ _ _ _ Hinv Hk) as Hpl. pose proof (get_index_in _ _ _ Hget) as Hix.
  destruct (twins_get _ _ _ _ X8 Hget) as (ix' & Hget' & Htw). destruct (twin_facts _ _ Htw) as [Hu' Hrk]. cbn [snd] in Hu', Hrk.
  pose proof (get_index_in _ _ _ Hget') as Hix'. unfold replace_inserted.
  destruct (unique_seek_ok (E:=DatastoreError) TX_STATE tx_t I i ix' val X3 (proj2 Hpl) Hix' ltac:(congruence) (proj1 Hins)) as (l & Hl & Hcase).
  rewrite Hrk in Hl. rewrite (sbind_Ok _ _ _ (tx_t, pool, tbs, dt) (head l)); [|apply of_tx_table_eq; unfold get_index_by_id; by rewrite Hget', Hl].
  destruct Hcase as [[-> Hno]|(k1 & val1 & -> & HI1 & Hs1 & Honly)]; [right; left|].
  { split; [done|]. intros v [(k0 & HC & HD)|(k0 & HI)].
    - apply not_true_is_false. intros Hs. by apply HD, (Ho k0 v HC Hs).
    - specialize (Hno k0 v HI). by rewrite !Hrk in Hno. }
  cbn [head].
  assert (Honly' : ∀ k' v, I !! k' = Some v → same v = true → k' = k1) by (intros k' v HI Hs; apply (Honly k' v HI); by rewrite !Hrk).
  assert (Hex : Exists (λ e, ix_is_unique e.2 = true) (tb_indexes tx_t)) by (apply Exists_exists; exists (i, ix'); split; [done|]; cbn; congruence).
  destruct (confirm_update_ok es rt Hrt Hnr Hsize mT TX_STATE tx_t pool tbs I k k1 val val1 X2 X3 Hk HI1 Hc1 Hex Hroom)
    as [(t1 & tbs1 & Hconf & Hinv1 & Hg)|(e & t1 & tbs1 & Hconf & He & Hinv1 & Hg)]; [left|right; right].
  - rewrite (sbind_Ok _ _ _ (t1, pool, tbs1, dt) (ptr_of TX_STATE k)) by (unfold smap_err, with_table; by rewrite Hconf).
    apply (undelete_equal_ok ct cbs tx_t pool tbs dt C D I k k1 val val1 ix o t1 tbs1 _ Hinv); try done; [by rewrite <-!Hrk|].
    intros k0 HC. by apply (Ho k0 val HC), at_key_refl.
  - pose proof (tx_inv_rows es rt mC mT 0 _ _ _ _ _ _ _ _ _ _ t1 tbs1 I Hinv Hinv1 Hg ltac:(eauto)) as Hinv2.
    assert (Hne : ∀ k' v, delete k1 I !! k' = Some v → same v = false).
    { intros k' v [Hne HI]%lookup_delete_Some. apply not_true_is_false. intros Hs. by destruct Hne; rewrite (Honly' k' v HI Hs). }
    destruct e as [p|e|u]; [|done|].
    { destruct He as (k' & HI' & _). specialize (Hne k' val HI'). unfold same in Hne. by rewrite at_key_refl in Hne. }
    exists u, (t1, pool, tbs1, dt). split_and!; try done; [unfold sbind, smap_err, with_table; by rewrite Hconf|].
    destruct He as (j & jx & Hj & Hv). eapply (violated_tx es rt mC mT _ _ _ (tx_t, pool, tbs, dt)); [exact Hinv|exact Hj|exact Hv|].
    intros k' v HI' _. split; [|by eapply Hne]. apply lookup_delete_Some in HI' as [_ HI']. right. by exists k'.
Qed.

(** ** The whole update *)

Lemma sorted_get {V} (l : list (Z * V)) i x : StronglySorted Z.lt (map fst l) → (i, x) ∈ l → bt_get l i = Some x.
Proof using.
  induction l as [|[j y] l IH]; [by intros _ ?%elem_of_nil|]. cbn [map fst]. intros [Hs Hall]%StronglySorted_inv [[= -> ->]|Hin]%elem_of_cons; cbn.
  - by rewrite cmp_refl.
  - rewrite Forall_forall in Hall. assert (j < i) by (apply Hall, list_elem_of_fmap; by exists (i, x)).
    replace (cmp i j) with Gt by (symmetry; apply Z.compare_gt_iff; lia). by apply IH.
Qed.

(** The errors say what is wrong. *)
Definition update_error ct C D I i val (e : DatastoreError) : Prop :=
  match e with
  | IndexNotFound j => j = i ∧ get_index_by_id ct i = None
  | IndexNotUnique j => j = i ∧ ∃ ix, get_index_by_id ct i = Some ix ∧ ix_is_unique ix = false
  | IndexKeyNotFound j key => j = i ∧ ∃ ix, get_index_by_id ct i = Some ix ∧ key = row_key (ix_indexed_columns ix) val ∧
      ∀ v, sees C D I v → at_key (row_key (ix_indexed_columns ix) val) (row_key (ix_indexed_columns ix) v) = false
  | IndexViolation u => ∃ ix, get_index_by_id ct i = Some ix ∧ violated ct (other_rows ix C D I val) val u
  | _ => False
  end.

(** Rows with another key in the index and in the others. *)
Lemma apart_rest ct i ix val v : StronglySorted Z.lt (map fst (tb_indexes ct)) → get_index_by_id ct i = Some ix →
  apart (filter (λ e, e.1 ≠ i) (tb_indexes ct)) val v →
  at_key (row_key (ix_indexed_columns ix) val) (row_key (ix_indexed_columns ix) v) = false → apart (tb_indexes ct) val v.
Proof using.
  intros Hs Hget Ha Hf. unfold apart in *. rewrite Forall_forall in Ha |- *. intros [j jx] Hin Hu. destruct (decide (j = i)) as [->|Hne].
  - pose proof (sorted_get _ _ _ Hs Hin) as Hj. unfold get_index_by_id in Hget. rewrite Hj in Hget. by injection Hget as ->.
  - apply (Ha (j, jx)); [|done]. by apply list_elem_of_filter.
Qed.

(** The committed row with the key: none, one to replace, or a deleted one. *)
Lemma committed_old_ok ct cbs pool C dt D i ix val :
  cinv ct pool cbs C → dt_rep (row_size rt) dt D → get_index_by_id ct i = Some ix → ix_is_unique ix = true → typed [] (TProduct es) (VProduct val) →
  let same v := at_key (row_key (ix_indexed_columns ix) val) (row_key (ix_indexed_columns ix) v) in
  ∃ l o o', ix_seek_point (E:=DatastoreError) ix (row_key (ix_indexed_columns ix) val) = Ok l ∧
    committed_old dt l = Ok (ptr_of COMMITTED_STATE <$> o, ptr_of COMMITTED_STATE <$> o') ∧
    (∀ k0 v, C !! k0 = Some v → same v = true → o = Some k0 ∧ k0 ∉ D ∨ o = None ∧ o' = Some k0 ∧ k0 ∈ D) ∧
    (∀ k0, o = Some k0 → ∃ v, C !! k0 = Some v ∧ same v = true ∧ k0 ∉ D) ∧ (∀ k0, o' = Some k0 → is_Some (C !! k0)).
Proof using Hrt Hnr Hsize LawI FLawI.
  intros Hinv Hdt Hget Hu Ht same. pose proof Hinv as [Hph Hlog].
  destruct (unique_seek_ok (E:=DatastoreError) COMMITTED_STATE ct C i ix val Hlog (ph_keys _ _ _ _ _ _ _ _ Hph) (get_index_in _ _ _ Hget) Hu Ht)
    as (l & Hl & [[-> Hno]|(k1 & v1 & -> & HC & Hs & Honly)]).
  - exists [], None, None. split_and!; try done. intros k0 v HC Hs. specialize (Hno k0 v HC). unfold same in Hs. congruence.
  - exists [ptr_of COMMITTED_STATE k1]. destruct (mark_ok es rt Hrt Hnr Hsize mC ct cbs pool C dt D k1 v1 Hinv Hdt HC) as (Hc & _ & _).
    destruct (decide (k1 ∈ D)) as [HD|HD]; [exists None, (Some k1)|exists (Some k1), None]; (split_and!; [done|..]).
    all: try (unfold committed_old; rewrite Hc; cbn [rbind]; first [by rewrite bool_decide_true|by rewrite bool_decide_false]).
    all: try done.
    + intros k0 v HC0 Hs0. right. by rewrite (Honly k0 v HC0 Hs0).
    + intros k0 [= <-]. by exists v1.
    + intros k0 v HC0 Hs0. left. by rewrite (Honly k0 v HC0 Hs0).
    + intros k0 [= <-]. by exists v1.
Qed.

Lemma replace_row_ok ct cbs tx_t pool tbs dt C D I k val i :
  let s := (tx_t, pool, tbs, dt) in
  tx_inv (<[k := val]> I) ct cbs s C D I → I !! k = None → tx_insertable C I val → room TX_STATE tx_t I val →
  let out := replace_row (H:=H) ct cbs i (ptr_of TX_STATE k) (large_bytes (product_objects val)) s in
  (∃ r s' ix, out = (Ok (inr r), s') ∧ get_index_by_id ct i = Some ix ∧ ix_is_unique ix = true ∧
     replaced ct cbs ix s' C D I val r ∧ grown 1 tx_t s'.1.1.1) ∨
  (∃ e, out = (Ok (inl e), s) ∧ update_error ct C D I i val e) ∨
  (∃ e s', out = (Err e, s') ∧ update_error ct C D I i val e ∧ tx_inv I ct cbs s' C D I ∧ grown 1 tx_t s'.1.1.1).
Proof using Hrt Hnr Hsize LawI FLawI.
  intros s Hinv Hk Hins Hroom. subst s. cbv zeta. unfold replace_row.
  destruct (get_index_by_id ct i) as [ix|] eqn:Hget; [|right; left; by eexists]. destruct (ix_is_unique ix) eqn:Hu; cbn [negb].
  2: { right; left. eexists. split; [done|]. split; [done|]. by exists ix. }
  pose proof Hinv as [X1 X2 X3 X4 X5 X6 X7 X8 X9]. cbn [fst snd] in *. pose proof X1 as [Xc Xl]. pose proof (get_index_in _ _ _ Hget) as Hix.
  rewrite (sbind_Ok _ _ _ _ _ (of_tx_table_eq _ _ _ _ dt _ (phys_row_ref es rt Hrt Hnr Hsize mT TX_STATE tx_t pool tbs _ k val
    (tv_sq _ _ _ _ X3) X2 (lookup_insert_eq _ _ _)))).
  pose proof (tv_indexes _ _ _ _ Xl) as Hfor. rewrite Forall_forall in Hfor. specialize (Hfor _ Hix) as [Hfor _]. cbn [snd] in Hfor.
  destruct (project_key es rt Hrt Hnr Hsize mT TX_STATE (E:=DatastoreError) tx_t pool tbs _ k val ix X2 (lookup_insert_eq _ _ _) Hfor) as (_ & Hp & _).
  rewrite (sbind_Ok (sres _) _ _ (tx_t, pool, tbs, dt) (row_key (ix_indexed_columns ix) val)) by (unfold sres; by rewrite Hp).
  rewrite (sbind_Ok (sgets snd) _ _ (tx_t, pool, tbs, dt) dt) by done.
  destruct (committed_old_ok ct cbs pool C dt D i ix val X1 X4 Hget Hu (proj1 Hins)) as (l & o & o' & Hl & Hold & Ho1 & Ho2 & Ho3).
  rewrite (sbind_Ok (sres _) _ _ (tx_t, pool, tbs, dt) l) by (unfold sres; by rewrite Hl).
  rewrite (sbind_Ok (sres _) _ _ (tx_t, pool, tbs, dt) (ptr_of COMMITTED_STATE <$> o, ptr_of COMMITTED_STATE <$> o')) by (unfold sres; by rewrite Hold).
  set (del := λ k0, bool_decide (o = Some k0) || bool_decide (k0 ∈ D)).
  match goal with |- context [check_unique_constraints ct ?row ?l' ?d] =>
    destruct (check_tx_ok es rt Hrt Hnr Hsize mC mT ct cbs pool C dt D row val l' del d) as (vi & Hv & Hspec);
      [done|done|apply Forall_forall; intros e He; apply list_elem_of_filter in He; apply He| |by eapply (phys_refers es rt mT TX_STATE), lookup_insert_eq|apply Hins|] end.
  { intros k0 v HC. unfold del. destruct o as [k1|]; cbn [fmap option_fmap option_map].
    2: { rewrite bool_decide_false by done. by apply (mark_ok es rt Hrt Hnr Hsize mC ct cbs pool C dt D k0 v X1 X4 HC). }
    destruct (decide (k1 = k0)) as [->|Hne]; [by rewrite Z.eqb_refl, bool_decide_true|]. destruct (Ho2 k1 eq_refl) as (v1 & HC1 & _ & _).
    rewrite bool_decide_false by congruence. replace (_ =? _) with false; [by apply (mark_ok es rt Hrt Hnr Hsize mC ct cbs pool C dt D k0 v X1 X4 HC)|].
    symmetry. apply Z.eqb_neq. intros He. apply Hne. eapply (key_inj COMMITTED_STATE); [by eapply (ph_keys _ _ _ _ _ _ _ _ Xc)..|exact He]. }
  assert (Hother : ∀ k0 v, C !! k0 = Some v → del k0 = false →
    (k0 ∉ D) ∧ at_key (row_key (ix_indexed_columns ix) val) (row_key (ix_indexed_columns ix) v) = false).
  { intros k0 v HC [Hd1%bool_decide_eq_false Hd2%bool_decide_eq_false]%orb_false_iff. split; [done|]. apply not_true_is_false. intros Hs.
    by destruct (Ho1 k0 v HC Hs) as [[? _]|(_ & _ & ?)]. }
  rewrite (sbind_Ok (sres _) _ _ (tx_t, pool, tbs, dt) vi) by (unfold sres; by rewrite Hv). destruct vi as [u|].
  - right; left. eexists. split; [done|]. exists ix. split; [done|].
    destruct Hspec as (j & jx & schema & k0 & v & Hj & Hju & Hs1 & Hs2 & Hs3 & Hs4 & HC & Hd & Hat). destruct (Hother k0 v HC Hd) as [HD Hf].
    apply list_elem_of_filter in Hj as [_ Hj]. exists j, jx, schema. split_and!; try done. exists v. split; [|done]. split; [|done]. left. by exists k0.
  - assert (Hapc : ∀ k0 v, C !! k0 = Some v → del k0 = false → apart (tb_indexes ct) val v).
    { intros k0 v HC Hd. apply (apart_rest ct i ix val v (tv_sorted _ _ _ _ Xl) Hget (Hspec k0 v HC Hd)). by apply (Hother k0 v HC Hd). }
    destruct o as [k0|]; cbn [fmap option_fmap option_map].
    + destruct (Ho2 k0 eq_refl) as (val0 & HC & Hs & HD).
      destruct (replace_committed_ok ct cbs tx_t pool tbs dt C D I k k0 val val0 i ix Hinv Hk Hins Hroom Hix Hu HC HD Hs)
        as [(r & s' & Hout & Hr & Hg)|(u & s' & Hout & Hv' & Hi & Hg)].
      * intros k1 v HC1 Hs1. by destruct (Ho1 k1 v HC1 Hs1) as [[[= ->] _]|[? _]].
      * intros k1 v HC1 Hne HD1. apply (Hapc k1 v HC1). unfold del. rewrite !bool_decide_false by congruence. done.
      * left. by exists r, s', ix.
      * right; right. exists (IndexViolation u), s'. split_and!; [done| |done|done]. by exists ix.
    + destruct (replace_inserted_ok ct cbs tx_t pool tbs dt C D I k val i ix o' Hinv Hk Hins Hroom Hget Hu)
        as [(r & s' & Hout & Hr & Hg)|[[Hout Hno]|(u & s' & Hout & Hv' & Hi & Hg)]].
      * intros k0 v HC Hs. by destruct (Ho1 k0 v HC Hs) as [[? _]|(_ & ? & ?)].
      * exact Ho3.
      * intros k0 v HC HD. apply (Hapc k0 v HC). unfold del. by rewrite !bool_decide_false.
      * left. exists r, s', ix. split_and!; try done. by apply (grown_trans 0 1 _ _ _ Hg), grown_refl.
      * right; left. eexists. split; [exact Hout|]. split; [done|]. by exists ix.
      * right; right. exists (IndexViolation u), s'. split_and!; [done|by exists ix|done|]. by apply (grown_trans 0 1 _ _ _ Hg), grown_refl.
Qed.

(** The outcome of an update. *)
Lemma confirm_tx_update_ok ct cbs tx_t pool tbs dt C D I k val i :
  let s := (tx_t, pool, tbs, dt) in
  tx_inv (<[k := val]> I) ct cbs s C D I → I !! k = None → tx_insertable C I val → room TX_STATE tx_t I val →
  let out := confirm_tx_update (H:=H) ct cbs i (ptr_of TX_STATE k) (large_bytes (product_objects val)) s in
  (∃ r s' ix, out = (Ok r, s') ∧ get_index_by_id ct i = Some ix ∧ ix_is_unique ix = true ∧
     replaced ct cbs ix s' C D I val r ∧ grown 1 tx_t s'.1.1.1) ∨
  (∃ e s', out = (Err e, s') ∧ update_error ct C D I i val e ∧ tx_inv I ct cbs s' C D I ∧ grown 1 tx_t s'.1.1.1).
Proof using Hrt Hnr Hsize LawI FLawI.
  intros s Hinv Hk Hins Hroom. subst s. cbv zeta. unfold confirm_tx_update.
  destruct (replace_row_ok ct cbs tx_t pool tbs dt C D I k val i Hinv Hk Hins Hroom)
    as [(r & s' & ix & Hout & Hr)|[(e & Hout & He)|(e & s' & Hout & He)]].
  - left. exists r, s', ix. by rewrite (sbind_Ok _ _ _ _ _ Hout).
  - right. destruct (tx_drop_ok es rt Hrt Hnr Hsize mC mT ct cbs tx_t pool tbs dt C D I k val Hinv Hk) as (ps & tbs' & Hd & Hinv').
    rewrite (sbind_Ok _ _ _ _ _ Hout), (sbind_Ok _ _ _ _ _ Hd). eexists _, _. split_and!; [done|done|done|]. by apply grown_pages.
  - right. exists e, s'. by rewrite (sbind_Err _ _ _ _ _ Hout).
Qed.
End rows.
