(* ===== verification/TxThm.v ===== *)
(** * Transactions

    What the operations of a transaction do to the rows of a table that it
    sees. *)

From Stdlib Require Import ZArith Lia.
From stdpp Require Import sorting gmap gmultiset list strings.
From S2P Require Import Prelude Buffer Sats Bsatn Mem Indexes VarLen BlobStore Page PageInv PageRows PageRead PageThm Pages PointerMap Layout RowTypeVisitor BflatnTo BflatnFrom BflatnRepr BflatnThm PagesThm StaticLayout RowEq ValueHash RowHash StaticValidator ColList RowRef ValueOrd BTreeMap IndexMaps TableIndex Table TableRows TableThm RowInsert DeleteTable Sequence TxState MutTx TxTable TxRows TxUpdate.
Local Open Scope Z_scope.

Section rows.
Context {FloatI : FloatOrd} {FLawI : FloatOrdLaws}.
Context {Q B H : Type} {QueueI : PageQueue Q} {QLawI : PageQueueLaws Q}.
Context {BsI : BlobStore B} {HashI : Blake3} {LawI : BlobStoreLaws B} {HasherI : RowHasher H}.
Context (es : list ProductTypeElement) (rt : RowTypeLayout).
Context (Hrt : row_type_layout (E:=unit) es = Ok rt) (Hnr : contains_refs (TProduct es) = false).
Context (Hsize : ty_size (TProduct es) ≤ PAGE_DATA_SIZE) (Hcode : len (visitor_code rt) ≤ u16_MAX).
Context (Hfew : all_list (λ e, few_variants (pel_ty e)) (row_elements rt)) (Hvcode : validator_code rt ≤ u16_MAX).
Context (mC mT : gmultiset (list byte)).
Implicit Types (t ct tx_t : Table) (pool : PagePool Q) (bs cbs tbs : B) (dt : DeleteTable).
Implicit Types (A C I P : gmap (nat * Z) ProductValue) (D : gset (nat * Z)) (k : nat * Z) (val : ProductValue).

Local Abbreviation cinv := (tbl_inv (H:=H) es rt mC COMMITTED_STATE) (only parsing).
Local Abbreviation tphys := (phys es rt mT TX_STATE) (only parsing).
Local Abbreviation tlog := (logical (H:=H) es TX_STATE) (only parsing).
Local Abbreviation parts := (@TxParts Q B) (only parsing).

Local Abbreviation tx_inv := (tx_inv (H:=H) es rt mC mT) (only parsing).
Local Abbreviation tx_insertable := (tx_insertable es rt mC mT) (only parsing).
Local Abbreviation tx := (@MutTxId Q B) (only parsing).
Implicit Types (s : tx) (tid : Z).

(** ** The state *)

(** The insert table of the transaction, new if there is none yet. *)
Definition insert_table tid s ct t : Prop :=
  match bt_get (ts_insert_tables (mt_tx_state s)) tid with
  | Some t' => t = t'
  | None => table_clone_structure (E:=DatastoreError) ct TX_STATE = Ok t
  end.
Definition delete_table tid s dt : Prop :=
  match bt_get (ts_delete_tables (mt_tx_state s)) tid with
  | Some dt' => dt = dt'
  | None => dt = delete_table_new (row_size rt)
  end.

(** The transaction on a table with the committed rows [C], which are in
    [ct]: those in [D] are deleted and the rows [I] are inserted. *)
Record tx_view tid s ct C D I : Prop := {
  tw_table : cs_tables (mt_committed_state s) !! tid = Some ct;
  tw_parts : ∃ t dt, insert_table tid s ct t ∧ delete_table tid s dt ∧
    tx_inv I ct (cs_blob_store (mt_committed_state s)) (t, cs_page_pool (mt_committed_state s), ts_blob_store (mt_tx_state s), dt) C D I ∧
    ti_static_layout (tb_inner t) = ti_static_layout (tb_inner ct);
  tw_no_inserts : bt_get (ts_insert_tables (mt_tx_state s)) tid = None → I = ∅;
  tw_no_deletes : bt_get (ts_delete_tables (mt_tx_state s)) tid = None → D = ∅;
  tw_cols : Forall (λ e, col_list_ok (ix_indexed_columns e.2)) (tb_indexes ct);
  tw_valid : validator_ok (tb_inner ct);
  tw_fits : map_Forall (λ _ val, fits rt val) I;
}.

(** Both tables are there. *)
Record opened tid s ct (q : parts) : Prop := {
  op_table : cs_tables (mt_committed_state s) !! tid = Some ct;
  op_insert : bt_get (ts_insert_tables (mt_tx_state s)) tid = Some q.1.1.1;
  op_pool : cs_page_pool (mt_committed_state s) = q.1.1.2;
  op_store : ts_blob_store (mt_tx_state s) = q.1.2;
  op_delete : bt_get (ts_delete_tables (mt_tx_state s)) tid = Some q.2;
}.

Lemma get_insert {V} (l : list (Z * V)) i x : bt_get (bt_insert l i x) i = Some x.
Proof using.
  induction l as [|[j y] l IH]; cbn; [by rewrite cmp_refl|]. destruct (cmp i j) eqn:Hc; cbn.
  - by rewrite Hc.
  - by rewrite cmp_refl.
  - by rewrite Hc.
Qed.
Lemma get_insert_ne {V} (l : list (Z * V)) i j x : j ≠ i → bt_get (bt_insert l i x) j = bt_get l j.
Proof using.
  intros Hne. assert (Hj : cmp j i ≠ Eq) by by intros ->%Z.compare_eq. induction l as [|[k y] l IH]; cbn; [by destruct (cmp j i)|].
  destruct (cmp i k) eqn:Hc; cbn.
  - by rewrite <-(cmp_eq_r j _ _ Hc); destruct (cmp j i).
  - destruct (cmp j i) eqn:Hji; [done| |done]. by rewrite (cmp_trans _ _ _ Hji Hc).
  - by rewrite IH.
Qed.

Lemma insert_twice {V} (l : list (Z * V)) i x y : bt_insert (bt_insert l i x) i y = bt_insert l i y.
Proof using.
  induction l as [|[j z] l IH]; cbn; [by rewrite cmp_refl|]. destruct (cmp i j) eqn:Hc; cbn.
  - by rewrite Hc.
  - by rewrite cmp_refl.
  - by rewrite Hc, IH.
Qed.

(** What the operations on a table leave as it is: the committed rows, and the
    tables of the transaction for other ones. *)
Record kept tid s s' : Prop := {
  kp_tables : cs_tables (mt_committed_state s') = cs_tables (mt_committed_state s);
  kp_store : cs_blob_store (mt_committed_state s') = cs_blob_store (mt_committed_state s);
  kp_sequences : mt_sequence_state s' = mt_sequence_state s;
  kp_schema : ts_pending_schema_changes (mt_tx_state s') = ts_pending_schema_changes (mt_tx_state s);
  kp_inserts : ∀ j, j ≠ tid → bt_get (ts_insert_tables (mt_tx_state s')) j = bt_get (ts_insert_tables (mt_tx_state s)) j;
  kp_deletes : ∀ j, j ≠ tid → bt_get (ts_delete_tables (mt_tx_state s')) j = bt_get (ts_delete_tables (mt_tx_state s)) j;
  kp_inserts_ok : bt_ok (ts_insert_tables (mt_tx_state s)) → bt_ok (ts_insert_tables (mt_tx_state s'));
  kp_deletes_ok : bt_ok (ts_delete_tables (mt_tx_state s)) → bt_ok (ts_delete_tables (mt_tx_state s'));
}.

Lemma kept_trans tid s1 s2 s3 : kept tid s1 s2 → kept tid s2 s3 → kept tid s1 s3.
Proof using.
  intros [A1 A2 A3 A4 A5 A6 A7 A8] [B1 B2 B3 B4 B5 B6 B7 B8]. split; [congruence..| | |auto|auto].
  - intros j Hj. by rewrite B5, A5.
  - intros j Hj. by rewrite B6, A6.
Qed.

(** Parts that are put back, or made. *)
Lemma kept_put tid s s' l l' :
  cs_tables (mt_committed_state s') = cs_tables (mt_committed_state s) → cs_blob_store (mt_committed_state s') = cs_blob_store (mt_committed_state s) →
  mt_sequence_state s' = mt_sequence_state s → ts_pending_schema_changes (mt_tx_state s') = ts_pending_schema_changes (mt_tx_state s) →
  ts_insert_tables (mt_tx_state s') = l → ts_delete_tables (mt_tx_state s') = l' →
  l = ts_insert_tables (mt_tx_state s) ∨ (∃ t, l = bt_insert (ts_insert_tables (mt_tx_state s)) tid t) →
  l' = ts_delete_tables (mt_tx_state s) ∨ (∃ dt, l' = bt_insert (ts_delete_tables (mt_tx_state s)) tid dt) → kept tid s s'.
Proof using.
  intros Hc Hb Hq Hp Hi Hd Hl Hl'. split; try done; rewrite ?Hi, ?Hd; try done.
  - destruct Hl as [->|[t ->]]; [done|]. intros j Hj. by apply get_insert_ne.
  - destruct Hl' as [->|[dt ->]]; [done|]. intros j Hj. by apply get_insert_ne.
  - destruct Hl as [->|[t ->]]; [done|]. apply bt_insert_ok.
  - destruct Hl' as [->|[dt ->]]; [done|]. apply bt_insert_ok.
Qed.

Lemma on_parts_ok {E X} tid s ct q (m : st parts E X) r q' :
  opened tid s ct q → m q = (r, q') → ∃ s', on_tx_parts tid m s = (r, s') ∧ opened tid s' ct q' ∧ kept tid s s'.
Proof using.
  intros [O1 O2 O3 O4 O5] Hm. destruct q as [[[t pool] tbs] dt], q' as [[[t' pool'] tbs'] dt']. cbn in *. eexists. unfold on_tx_parts.
  rewrite O2, O3, O4, O5, Hm. split_and!; [done| |by eapply kept_put; eauto]. split; cbn; rewrite ?get_insert; done.
Qed.

Lemma insert_row_size ct t pool cbs tbs dt C D I :
  tx_inv I ct cbs (t, pool, tbs, dt) C D I → table_row_size t = row_size rt.
Proof using. intros [_ X2 _ _ _ _ _ _ _]. cbn in X2. unfold table_row_size. by rewrite (ph_layout _ _ _ _ _ _ _ _ X2). Qed.

(** The tables are made, if they are not there. *)
Lemma ensure_ok tid s ct C D I : tx_view tid s ct C D I →
  ∃ s' q, ensure_tx_table (E:=DatastoreError) tid ct s = (Ok tt, s') ∧ opened tid s' ct q ∧ kept tid s s' ∧ insert_table tid s ct q.1.1.1 ∧
    tx_inv I ct (cs_blob_store (mt_committed_state s)) q C D I ∧ ti_static_layout (tb_inner q.1.1.1) = ti_static_layout (tb_inner ct).
Proof using.
  intros [W1 (t & dt & Ht & Hdt & Hinv & Hst) _ _ _ _ _]. unfold ensure_tx_table, create_from, get_delete_table_mut.
  pose proof (insert_row_size _ _ _ _ _ _ _ _ _ Hinv) as Hrs. unfold insert_table, delete_table in *.
  destruct (bt_get (ts_insert_tables (mt_tx_state s)) tid) as [t'|] eqn:Hi; [subst t'|rewrite Ht]; cbn [rbind ts_delete_tables ts_with_insert_tables];
    (destruct (bt_get (ts_delete_tables (mt_tx_state s)) tid) as [dt'|] eqn:Hd; [subst dt'|rewrite Hrs, <-Hdt]); eexists _, (t, _, _, dt);
    (split; [done|]; split; [split; cbn; rewrite ?get_insert; try done|split; [by eapply kept_put; eauto|done]]).
Qed.

Lemma view_of_opened tid s ct q C D I :
  opened tid s ct q → tx_inv I ct (cs_blob_store (mt_committed_state s)) q C D I → ti_static_layout (tb_inner q.1.1.1) = ti_static_layout (tb_inner ct) →
  Forall (λ e, col_list_ok (ix_indexed_columns e.2)) (tb_indexes ct) → validator_ok (tb_inner ct) → map_Forall (λ _ val, fits rt val) I →
  tx_view tid s ct C D I.
Proof using.
  intros [O1 O2 O3 O4 O5] Hinv Hst Hcols Hva Hf. destruct q as [[[t pool] tbs] dt]. cbn in *. split; try done; [|congruence..].
  exists t, dt. unfold insert_table, delete_table. by rewrite O2, O5, O3, O4.
Qed.

(** A transaction begins with nothing inserted or deleted. *)
Lemma tx_begin_ok tid ct cs seqs empty C :
  cs_tables cs !! tid = Some ct → cinv ct (cs_page_pool cs) (cs_blob_store cs) C →
  Forall (λ e, col_list_ok (ix_indexed_columns e.2)) (tb_indexes ct) → validator_ok (tb_inner ct) → holds empty mT →
  tx_view tid (begin_mut_tx empty cs seqs) ct C ∅ ∅.
Proof using Hrt Hnr Hsize.
  intros Hct Hinv Hcols Hva Hh. destruct (phys_holds _ _ _ _ _ _ _ _ (proj1 Hinv)) as [_ Hpool].
  destruct (clone_structure_ok (E:=DatastoreError) es rt mC mT COMMITTED_STATE TX_STATE ct _ _ _ empty C Hinv Hcols Hpool Hh)
    as (t & Ht & [Hph Hlog] & Htw & Hsch & _).
  split; try done. exists t, (delete_table_new (row_size rt)). split_and!; [done|done| |].
  - split; cbn; done.
  - unfold table_clone_structure in Ht. destruct (clone_indexes _); [|done..]. by injection Ht as <-.
Qed.

(** ** Writing a row *)

Lemma row_bytes_same i i' bytes val : ti_static_layout i' = ti_static_layout i → row_bytes es i' bytes val ↔ row_bytes es i bytes val.
Proof using. intros He. unfold row_bytes. by rewrite He. Qed.

(** No values are generated for a table without sequences. *)
Lemma no_triggers {E} t pool tbs dt P k val : tphys (tb_inner t) pool tbs P → tb_squashed_offset t = TX_STATE → P !! k = Some val →
  sch_sequences (tb_schema t) = [] →
  ∃ cols, of_tx_table (E:=E) (λ t bs, sequence_triggers_for t bs (ptr_of TX_STATE k)) (t, pool, tbs, dt) = (Ok (cols, []), (t, pool, tbs, dt)).
Proof using Hrt Hnr Hsize.
  intros Hph Hs Hk Hseq. eexists. apply of_tx_table_eq. unfold sequence_triggers_for.
  rewrite (phys_row_ref es rt Hrt Hnr Hsize mT TX_STATE t pool tbs P k val Hs Hph Hk). cbn [rbind]. by rewrite Hseq.
Qed.

(** The row is in the pages of the insert table, or the state is the one before. *)
Lemma tx_physical_ok next generate tid row s ct C D I :
  tx_view tid s ct C D I → (generate = true → sch_sequences (tb_schema ct) = []) →
  let out := insert_physically_maybe_generate next generate tid row s in
  (∃ val, row_bytes es (tb_inner ct) row val ∧ (tx_insertable C I val →
     (∃ k cols s' q t ps, out = (Ok (ptr_of TX_STATE k, cols, large_bytes (product_objects val), (ct, cs_blob_store (mt_committed_state s))), s') ∧
        opened tid s' ct q ∧ kept tid s s' ∧ I !! k = None ∧ tx_inv (<[k := val]> I) ct (cs_blob_store (mt_committed_state s)) q C D I ∧
        insert_table tid s ct t ∧ q.1.1.1 = with_inner_pages t ps ∧ ti_static_layout (tb_inner t) = ti_static_layout (tb_inner ct)) ∨
     (∃ s' t, out = (Err (TableBflatn (BPagesError TooManyPages)), s') ∧ tx_view tid s' ct C D I ∧ kept tid s s' ∧
        insert_table tid s ct t ∧ num_pages t = PageIndex_MAX + 1))) ∨
  (∃ e s', out = (Err (TableBflatn (BDecode e)), s') ∧ tx_view tid s' ct C D I ∧ kept tid s s' ∧ ∀ val, ¬ row_bytes es (tb_inner ct) row val).
Proof using Hrt Hnr Hsize Hcode Hfew Hvcode.
  intros Hv Hseq. cbv zeta. unfold insert_physically_maybe_generate.
  rewrite (sbind_Ok (get_commit_table tid) _ s s (ct, cs_blob_store (mt_committed_state s)))
    by (unfold get_commit_table; by rewrite (tw_table _ _ _ _ _ _ Hv)).
  destruct (ensure_ok tid s ct C D I Hv) as (s1 & [[[t pool] tbs] dt] & Hen & Hop & Hkept & Hit & Hinv & Hst). cbn [fst snd] in *.
  rewrite (sbind_Ok _ _ _ _ _ Hen). pose proof Hinv as [X1 X2 X3 X4 X5 X6 X7 X8 X9]. cbn [fst snd] in *.
  assert (Hback : ∀ s2 q, opened tid s2 ct q → q = (t, pool, tbs, dt) → kept tid s1 s2 → tx_view tid s2 ct C D I ∧ kept tid s s2).
  { intros s2 q Hop2 -> Hk2. pose proof (kept_trans _ _ _ _ Hkept Hk2) as Hk. split; [|done].
    eapply view_of_opened; [exact Hop2| |done|by eapply tw_cols|by eapply tw_valid|by eapply tw_fits]. by rewrite (kp_store _ _ _ Hk). }
  assert (Hval : validator_ok (tb_inner t)).
  { unfold validator_ok. rewrite Hst, (ph_layout _ _ _ _ _ _ _ _ X2), <-(ph_layout _ _ _ _ _ _ _ _ (proj1 X1)). by apply (tw_valid _ _ _ _ _ _ Hv). }
  destruct (insert_physically_bsatn_ok es rt Hrt Hnr Hsize Hcode mT TX_STATE ltac:(done) Hfew Hvcode t pool tbs I row X2 (tv_sq _ _ _ _ X3) Hval)
    as [(val & Hrow & Hw)|(e & He & Hno)]; [left|right].
  2: { destruct (on_parts_ok tid s1 ct _ _ _ _ Hop (with_table_eq _ _ _ _ dt _ _ _ _ He)) as (s2 & Ho2 & Hop2 & Hk2).
       destruct (Hback _ _ Hop2 eq_refl Hk2) as [Hv2 Hkk]. exists e, s2. split_and!; [|done|done|].
       - unfold sbind at 1, smap_err. by rewrite Ho2.
       - intros val Hrow. by apply (Hno val), (row_bytes_same _ _ _ _ Hst). }
  exists val. split; [by apply (row_bytes_same _ _ _ _ Hst)|]. intros Hins.
  destruct Hw as [(k & ps & pool' & tbs' & Hi & Hk & Hph)|[Hi Hn]]; [apply Hins|..].
  { eapply collision_free_weaken; [|apply Hins]. clear. multiset_solver. }
  2: { right. destruct (on_parts_ok tid s1 ct _ _ _ _ Hop (with_table_eq _ _ _ _ dt _ _ _ _ Hi)) as (s2 & Ho2 & Hop2 & Hk2).
       destruct (Hback _ _ Hop2 eq_refl Hk2) as [Hv2 Hkk]. exists s2, t. split_and!; try done. unfold sbind at 1, smap_err. by rewrite Ho2. }
  left. destruct (on_parts_ok tid s1 ct _ _ _ _ Hop (with_table_eq _ _ _ _ dt _ _ _ _ Hi)) as (s2 & Ho2 & Hop2 & Hk2).
  set (t1 := with_inner_pages t ps) in *. pose proof (kept_trans _ _ _ _ Hkept Hk2) as Hk12.
  pose proof (tx_inv_pages es rt mC mT _ _ _ _ _ _ _ _ _ _ _ _ _ _ Hinv Hph) as Hinv1. fold t1 in Hinv1.
  rewrite (sbind_Ok _ _ _ s2 (row_at_key TX_STATE t1 tbs' k, large_bytes (product_objects val))) by (unfold smap_err; by rewrite Ho2).
  cbn [row_at_key rr_pointer].
  assert (∃ cols s3, (if generate then generate_cols next tid (ptr_of TX_STATE k) else sres (from_inline 0)) s2 = (Ok cols, s3) ∧ opened tid s3 ct (t1, pool', tbs', dt) ∧ kept tid s2 s3)
    as (cols & s3 & Hg & Hop3 & Hk3).
  { destruct generate; [|by eexists _, s2]. unfold generate_cols. pose proof (xi_log _ _ _ _ _ _ _ _ _ _ _ Hinv1) as Hlog1.
    destruct (no_triggers (E:=DatastoreError) t1 pool' tbs' dt _ k val Hph (tv_sq _ _ _ _ Hlog1) (lookup_insert_eq _ _ _)) as (cols & Htr).
    { cbn. rewrite X9. by apply Hseq. }
    destruct (on_parts_ok tid s2 ct _ _ _ _ Hop2 Htr) as (s3 & Ho3 & Hop3 & Hk3). rewrite (sbind_Ok _ _ _ _ _ Ho3).
    rewrite (sbind_Ok (gen_values next []) _ s3 s3 []) by done. replace (zip (col_list_iter cols) []) with (@nil (Z * Z)) by by destruct (col_list_iter cols).
    destruct (on_parts_ok tid s3 ct _ (of_tx_table (E:=DatastoreError) (λ tx_table _, write_gen_vals (ptr_of TX_STATE k) [] tx_table)) (Ok t1) _ Hop3 eq_refl)
      as (s4 & Ho4 & Hop4 & Hk4). rewrite (sbind_Ok _ _ _ _ _ Ho4).
    destruct (on_parts_ok tid s4 ct _ (with_table (on_table (E:=DatastoreError) (λ _, (Ok tt, t1)))) (Ok tt) _ Hop4 eq_refl) as (s5 & Ho5 & Hop5 & Hk5).
    rewrite (sbind_Ok _ _ _ _ _ Ho5). exists cols, s5. split_and!; [done|done|]. by eapply kept_trans; [eapply kept_trans; [exact Hk3|exact Hk4]|]. }
  rewrite (sbind_Ok _ _ _ _ _ Hg). exists k, cols, s3, (t1, pool', tbs', dt), t, ps. split_and!; try done. by eapply kept_trans.
Qed.

(** ** Inserting and updating *)

(** The insert table has room for a row. *)
Definition tx_room tid s ct I val : Prop := ∀ t, insert_table tid s ct t → room TX_STATE t I val.

(** Why a row was not written: it is not one of the type of the table, there
    are too many pages, or it was refused. *)
Definition write_error tid s ct (row : list byte) (refused : ProductValue → DatastoreError → Prop) (e : DatastoreError) : Prop :=
  match e with
  | TableBflatn (BDecode _) => ∀ val, ¬ row_bytes es (tb_inner ct) row val
  | TableBflatn (BPagesError TooManyPages) => ∃ t, insert_table tid s ct t ∧ num_pages t = PageIndex_MAX + 1
  | _ => ∃ val, row_bytes es (tb_inner ct) row val ∧ refused val e
  end.

Lemma write_error_cases tid s ct row refused e : write_error tid s ct row refused e →
  (∀ val, ¬ row_bytes es (tb_inner ct) row val) ∨ (∃ t, insert_table tid s ct t ∧ num_pages t = PageIndex_MAX + 1) ∨
  (∃ val, row_bytes es (tb_inner ct) row val ∧ refused val e).
Proof using. unfold write_error. repeat case_match; naive_solver. Qed.

Lemma fits_after C D I D' I' val :
  places_ok C I → places_ok C I' → (∀ p v, sees_at C D' I' p v → v = val ∨ sees_at C D I p v) → fits rt val →
  map_Forall (λ _ v, fits rt v) I → map_Forall (λ _ v, fits rt v) I'.
Proof using.
  intros [HC _] [_ HI'] Hsee Hv HI k v Hk. destruct (Hsee (ptr_of TX_STATE k) v) as [->|[(k0 & Hp & HCk & _)|(k0 & _ & HIk)]]; [|done| |by eapply HI].
  - right. by exists k.
  - exfalso. symmetry in Hp. by eapply (states_differ k0 k); [by eapply HC|by eapply HI'|].
Qed.

(** What was done to the parts, in the state. *)
Lemma view_after tid s s1 ct q' C D I D' I' val t ps :
  tx_view tid s ct C D I → kept tid s s1 → opened tid s1 ct q' → tx_inv I' ct (cs_blob_store (mt_committed_state s)) q' C D' I' →
  grown 1 (with_inner_pages t ps) q'.1.1.1 → ti_static_layout (tb_inner t) = ti_static_layout (tb_inner ct) →
  places_ok C I → (∀ p v, sees_at C D' I' p v → v = val ∨ sees_at C D I p v) → fits rt val → tx_view tid s1 ct C D' I'.
Proof using.
  intros Hv Hcb%kp_store Hop Hinv Hg Hst Hpl Hsee Hf. eapply view_of_opened; [exact Hop|by rewrite Hcb| |by eapply tw_cols|by eapply tw_valid|].
  - by rewrite (gr_static _ _ _ Hg).
  - eapply fits_after; [exact Hpl|by eapply tx_places|exact Hsee|done|by eapply tw_fits].
Qed.

(** A row is written to the insert table, and then something is done to the parts. *)
Definition write_row (m : Table → B → Z → Z → st parts DatastoreError (RowRefInsertion (B:=B))) tid (row : list byte) :
    st tx DatastoreError (ColList * RowRefInsertion * bool) :=
  sbind (insert_physically_maybe_generate (get_next_sequence_value (H:=H)) true tid row) (λ '(ptr, cols, blob_bytes, (ct, cbs)),
  sbind (on_tx_parts tid (of_tx_table (λ t _, Ok (tb_is_scheduler t)))) (λ sched,
  sbind (on_tx_parts tid (m ct cbs ptr blob_bytes)) (λ r, sret (cols, r, sched)))).

Lemma tx_write_ok m refused tid row s ct C D I :
  tx_view tid s ct C D I → sch_sequences (tb_schema ct) = [] →
  (∀ val, row_bytes es (tb_inner ct) row val → tx_insertable C I val ∧ tx_room tid s ct I val) →
  (∃ val k t ps pool tbs dt, let q := (with_inner_pages t ps, pool, tbs, dt) in row_bytes es (tb_inner ct) row val ∧ tx_insertable C I val ∧
     room TX_STATE (with_inner_pages t ps) I val ∧ tx_inv (<[k := val]> I) ct (cs_blob_store (mt_committed_state s)) q C D I ∧ I !! k = None ∧
     places_ok C I ∧ ti_static_layout (tb_inner t) = ti_static_layout (tb_inner ct) ∧
     ∃ cols sched, ∀ r q', m ct (cs_blob_store (mt_committed_state s)) (ptr_of TX_STATE k) (large_bytes (product_objects val)) q = (r, q') →
       ∃ s', write_row m tid row s = (rbind r (λ r, Ok (cols, r, sched)), s') ∧ opened tid s' ct q' ∧ kept tid s s') ∨
  (∃ e s', write_row m tid row s = (Err e, s') ∧ tx_view tid s' ct C D I ∧ kept tid s s' ∧ write_error tid s ct row refused e).
Proof using Hrt Hnr Hsize Hcode Hfew Hvcode.
  intros Hv Hseq Hrow. unfold write_row.
  destruct (tx_physical_ok (get_next_sequence_value (H:=H)) true tid row s ct C D I Hv (λ _, Hseq)) as [(val & Hb & Hw)|(e & s1 & He & Hv1 & Hk1 & Hno)].
  2: { right. exists (TableBflatn (BDecode e)), s1. by rewrite (sbind_Err _ _ _ _ _ He). }
  destruct (Hrow val Hb) as [Hins Hroom].
  destruct (Hw Hins) as [(k & cols & s1 & q & t & ps & Ho & Hop & Hk1 & Hk & Hinv & Hit & Hq & Hst)|(s1 & t & He & Hv1 & Hk1 & Hit & Hn)].
  2: { right. exists (TableBflatn (BPagesError TooManyPages)), s1. rewrite (sbind_Err _ _ _ _ _ He). split_and!; try done. by exists t. }
  left. destruct q as [[[tx_t pool] tbs] dt]. cbn in Hq. subst tx_t. exists val, k, t, ps, pool, tbs, dt.
  do 2 (split; [done|]). split; [exact (Hroom t Hit)|]. do 2 (split; [done|]). split; [by eapply tx_places_new|]. split; [done|]. eexists cols, _. intros r q' Hm. rewrite (sbind_Ok _ _ _ _ _ Ho).
  destruct (on_parts_ok tid s1 ct _ (of_tx_table (E:=DatastoreError) (λ tx_table _, Ok (tb_is_scheduler tx_table))) _ _ Hop eq_refl) as (s2 & Ho2 & Hop2 & Hk2).
  rewrite (sbind_Ok _ _ _ _ _ Ho2). destruct (on_parts_ok tid s2 ct _ _ _ _ Hop2 Hm) as (s3 & Ho3 & Hop3 & Hk3).
  exists s3. split_and!; [|done|by eapply kept_trans; [eapply kept_trans; [exact Hk1|exact Hk2]|]]. unfold sbind. rewrite Ho3. by destruct r.
Qed.

(** A row is refused for another one that the transaction sees. *)
Definition insert_error ct C D I val (e : DatastoreError) : Prop :=
  ∃ u, e = IndexViolation u ∧ violated ct (λ v, sees C D I v ∧ v ≠ val) val u.

(** What an insertion does. *)
Lemma tx_insert_ok tid row s ct C D I :
  tx_view tid s ct C D I → sch_sequences (tb_schema ct) = [] →
  (∀ val, row_bytes es (tb_inner ct) row val → tx_insertable C I val ∧ tx_room tid s ct I val) →
  (∃ val cols r sched s' D' I', tx_insert (H:=H) tid row s = (Ok (cols, r, sched), s') ∧ row_bytes es (tb_inner ct) row val ∧
     tx_view tid s' ct C D' I' ∧ kept tid s s' ∧ rr_to_product_value (E:=unit) (row_of r) = Ok val ∧
     (∀ p v, sees_at C D' I' p v ↔ p = rr_pointer (row_of r) ∧ v = val ∨ sees_at C D I p v) ∧
     (∀ p v, sees_at C D I p v → v = val ∨ apart (tb_indexes ct) val v) ∧ (is_new r = true → ∀ p, ¬ sees_at C D I p val)) ∨
  (∃ e s', tx_insert (H:=H) tid row s = (Err e, s') ∧ tx_view tid s' ct C D I ∧ kept tid s s' ∧
     write_error tid s ct row (insert_error ct C D I) e).
Proof using Hrt Hnr Hsize Hcode Hfew Hvcode LawI FLawI.
  intros Hv Hseq Hrow. change (tx_insert (H:=H) tid row) with (write_row (confirm_tx_insertion (H:=H)) tid row).
  destruct (tx_write_ok (confirm_tx_insertion (H:=H)) (insert_error ct C D I) tid row s ct C D I Hv Hseq Hrow)
    as [(val & k & t & ps & pool & tbs & dt & Hb & Hins & Hroom & Hinv & Hk & Hpl & Hst & cols & sched & Hout)|Herr]; [|right; exact Herr].
  destruct (tx_insertion_ok es rt Hrt Hnr Hsize mC mT ct _ _ pool tbs dt C D I k val Hinv Hk Hins Hroom)
    as [(r & t' & tbs' & dt' & D' & I' & Hc & Hinv' & Hg & Hval & Hsee & Hap & Hnew)|(u & t' & tbs' & Hc & Hviol & Hg & Hinv')];
    destruct (Hout _ _ Hc) as (s1 & Ho & Hop & Hk1).
  - left. exists val, cols, r, sched, s1, D', I'. split_and!; try done.
    eapply (view_after _ _ _ _ _ _ _ _ _ _ val); try done; [intros p v [[_ ->]|?]%Hsee; auto|apply Hins].
  - right. exists (IndexViolation u), s1. split_and!; try done.
    + eapply (view_after _ _ _ _ _ _ _ _ _ _ val); try done; [auto|apply Hins].
    + exists val. split; [done|]. by exists u.
Qed.

(** C4. Inserting a row into a table without sequences, whichever its bytes
    are: the transaction sees a row with the value that the bytes encode at the
    place that is returned, and the rows that it saw before, and nothing else;
    no other row that it sees has a key of it in a unique index.  An error
    leaves the rows that it sees as they are, and tells what is wrong: the bytes
    are not those of a row, the table has the most pages that it can have, or a
    row that the transaction sees violates the constraint that is named. *)
Theorem tx_insert_view tid row s ct C D I :
  tx_view tid s ct C D I → sch_sequences (tb_schema ct) = [] →
  (∀ val, row_bytes es (tb_inner ct) row val → tx_insertable C I val ∧ tx_room tid s ct I val) →
  (∃ val cols r sched s' D' I', tx_insert (H:=H) tid row s = (Ok (cols, r, sched), s') ∧ row_bytes es (tb_inner ct) row val ∧
     tx_view tid s' ct C D' I' ∧ kept tid s s' ∧ rr_to_product_value (E:=unit) (row_of r) = Ok val ∧
     (∀ p v, sees_at C D' I' p v ↔ p = rr_pointer (row_of r) ∧ v = val ∨ sees_at C D I p v) ∧
     (∀ p v, sees_at C D I p v → v = val ∨ apart (tb_indexes ct) val v) ∧ (is_new r = true → ∀ p, ¬ sees_at C D I p val)) ∨
  (∃ e s', tx_insert (H:=H) tid row s = (Err e, s') ∧ tx_view tid s' ct C D I ∧ kept tid s s' ∧
     write_error tid s ct row (insert_error ct C D I) e).
Proof using Hrt Hnr Hsize Hcode Hfew Hvcode LawI FLawI. apply tx_insert_ok. Qed.

(** What an update does. *)
Lemma tx_update_ok tid i row s ct C D I :
  tx_view tid s ct C D I → sch_sequences (tb_schema ct) = [] →
  (∀ val, row_bytes es (tb_inner ct) row val → tx_insertable C I val ∧ tx_room tid s ct I val) →
  (∃ val cols r sched s' D' I' ix oldp old, tx_update (H:=H) tid i row s = (Ok (cols, r, sched), s') ∧ row_bytes es (tb_inner ct) row val ∧
     get_index_by_id ct i = Some ix ∧ ix_is_unique ix = true ∧ sees_at C D I oldp old ∧
     at_key (row_key (ix_indexed_columns ix) val) (row_key (ix_indexed_columns ix) old) = true ∧
     tx_view tid s' ct C D' I' ∧ kept tid s s' ∧ rr_to_product_value (E:=unit) (row_of r) = Ok val ∧
     (∀ p v, sees_at C D' I' p v ↔ p = rr_pointer (row_of r) ∧ v = val ∨ p ≠ oldp ∧ sees_at C D I p v)) ∨
  (∃ e s', tx_update (H:=H) tid i row s = (Err e, s') ∧ tx_view tid s' ct C D I ∧ kept tid s s' ∧
     write_error tid s ct row (update_error ct C D I i) e).
Proof using Hrt Hnr Hsize Hcode Hfew Hvcode LawI FLawI.
  intros Hv Hseq Hrow. set (m := λ ct cbs, confirm_tx_update (Q:=Q) (H:=H) ct cbs i). change (tx_update (H:=H) tid i row) with (write_row m tid row).
  destruct (tx_write_ok m (update_error ct C D I i) tid row s ct C D I Hv Hseq Hrow)
    as [(val & k & t & ps & pool & tbs & dt & Hb & Hins & Hroom & Hinv & Hk & Hpl & Hst & cols & sched & Hout)|Herr]; [|right; exact Herr].
  destruct (confirm_tx_update_ok es rt Hrt Hnr Hsize mC mT ct _ _ pool tbs dt C D I k val i Hinv Hk Hins Hroom)
    as [(r & q & ix & Hc & Hix & Hu & (D' & I' & oldp & old & Hinv' & Hval & Hold & Hsame & Hsee) & Hg)|(e & q & Hc & He & Hinv' & Hg)];
    destruct (Hout _ _ Hc) as (s1 & Ho & Hop & Hk1).
  - left. exists val, cols, r, sched, s1, D', I', ix, oldp, old. split_and!; try done.
    eapply (view_after _ _ _ _ _ _ _ _ _ _ val); try done; [intros p v [[_ ->]|[_ ?]]%Hsee; auto|apply Hins].
  - right. exists e, s1. split_and!; try done.
    + eapply (view_after _ _ _ _ _ _ _ _ _ _ val); try done; [auto|apply Hins].
    + destruct e; try done; by exists val.
Qed.

(** C5. Updating by a unique index, in a table without sequences: a row that the
    transaction saw and that has the key of the new row in the index is
    replaced; the transaction then sees the new value at the place that is
    returned and all other rows that it saw.  An error leaves the rows that
    it sees as they are, and tells what is wrong: there is no such index or it
    is not unique, no row that the transaction sees has the key, or a row with
    another key in the index violates the constraint that is named. *)
Theorem tx_update_view tid i row s ct C D I :
  tx_view tid s ct C D I → sch_sequences (tb_schema ct) = [] →
  (∀ val, row_bytes es (tb_inner ct) row val → tx_insertable C I val ∧ tx_room tid s ct I val) →
  (∃ val cols r sched s' D' I' ix oldp old, tx_update (H:=H) tid i row s = (Ok (cols, r, sched), s') ∧ row_bytes es (tb_inner ct) row val ∧
     get_index_by_id ct i = Some ix ∧ ix_is_unique ix = true ∧ sees_at C D I oldp old ∧
     at_key (row_key (ix_indexed_columns ix) val) (row_key (ix_indexed_columns ix) old) = true ∧
     tx_view tid s' ct C D' I' ∧ kept tid s s' ∧ rr_to_product_value (E:=unit) (row_of r) = Ok val ∧
     (∀ p v, sees_at C D' I' p v ↔ p = rr_pointer (row_of r) ∧ v = val ∨ p ≠ oldp ∧ sees_at C D I p v)) ∨
  (∃ e s', tx_update (H:=H) tid i row s = (Err e, s') ∧ tx_view tid s' ct C D I ∧ kept tid s s' ∧
     write_error tid s ct row (update_error ct C D I i) e).
Proof using Hrt Hnr Hsize Hcode Hfew Hvcode LawI FLawI. apply tx_update_ok. Qed.

(** ** Deleting *)

Lemma ptr_state sq k : key_ok sq k → squashed_offset (ptr_of sq k) = sq.
Proof using. intros (_ & H2 & _). exact H2. Qed.

(** The view with other inserted rows, or other marks. *)
Lemma delete_inserted_ok tid s ct C D I k val : tx_view tid s ct C D I → I !! k = Some val →
  ∃ s', tx_delete (H:=H) tid (ptr_of TX_STATE k) s = (Ok true, s') ∧ tx_view tid s' ct C D (delete k I) ∧ kept tid s s'.
Proof using Hrt Hnr Hsize LawI FLawI.
  intros Hv HI. pose proof Hv as [W1 (t & dt & Ht & Hdt & Hinv & Hst) W3 W4 W5 W6 W7].
  pose proof Hinv as [X1 X2 X3 X4 X5 X6 X7 X8 X9]. cbn [fst snd] in *.
  destruct (table_delete_row es rt Hrt Hnr Hsize mT TX_STATE (E:=DatastoreError) t _ _ I k val (λ _, tt) (conj X2 X3) HI) as (t' & tbs' & Hd & Hinv1 & Hg).
  unfold insert_table in Ht. destruct (bt_get (ts_insert_tables (mt_tx_state s)) tid) as [t0|] eqn:Hi; [subst t0|by rewrite W3 in HI].
  eexists. unfold tx_delete. rewrite (ptr_state TX_STATE k) by (by eapply (ph_keys _ _ _ _ _ _ _ _ X2)). rewrite Z.eqb_refl, Hi, Hd. cbn [rbind].
  split_and!; [done| |by eapply kept_put; eauto]. split; cbn; try done.
  - exists t', dt. unfold insert_table. cbn. rewrite get_insert. split_and!; [done|done| |].
    + eapply (tx_inv_rows es rt mC mT 0); [exact Hinv|done|done|]. intros k' v [_ Hk']%lookup_delete_Some. left. by exists k'.
    + by rewrite (gr_static _ _ _ Hg).
  - by rewrite get_insert.
  - intros k' v [_ Hk']%lookup_delete_Some. by eapply W7.
Qed.

Lemma delete_committed_ok tid s ct C D I k val : tx_view tid s ct C D I → C !! k = Some val →
  ∃ s', tx_delete (H:=H) tid (ptr_of COMMITTED_STATE k) s = (Ok (bool_decide (k ∉ D)), s') ∧ tx_view tid s' ct C ({[k]} ∪ D) I ∧ kept tid s s'.
Proof using Hrt Hnr Hsize.
  intros Hv HC. pose proof Hv as [W1 (t & dt & Ht & Hdt & Hinv & Hst) W3 W4 W5 W6 W7].
  pose proof Hinv as [X1 X2 X3 X4 X5 X6 X7 X8 X9]. cbn [fst snd] in *.
  destruct (mark_ok es rt Hrt Hnr Hsize mC ct _ _ C dt D k val X1 X4 HC) as (_ & (dt' & Hmk & Hdt') & _).
  assert (Hget : bt_get (get_delete_table_mut (ts_delete_tables (mt_tx_state s)) tid ct) tid = Some dt).
  { unfold get_delete_table_mut, delete_table in *. destruct (bt_get (ts_delete_tables (mt_tx_state s)) tid) as [dt0|] eqn:Hi; [by rewrite Hi, Hdt|].
    unfold table_row_size. by rewrite get_insert, Hdt, (ph_layout _ _ _ _ _ _ _ _ (proj1 X1)). }
  assert (Hput : bt_insert (get_delete_table_mut (ts_delete_tables (mt_tx_state s)) tid ct) tid dt' = bt_insert (ts_delete_tables (mt_tx_state s)) tid dt').
  { unfold get_delete_table_mut. destruct (bt_get (ts_delete_tables (mt_tx_state s)) tid); [reflexivity|]. apply insert_twice. }
  eexists. unfold tx_delete. rewrite (ptr_state COMMITTED_STATE k) by (by eapply (ph_keys _ _ _ _ _ _ _ _ (proj1 X1))).
  change (COMMITTED_STATE =? TX_STATE) with false. rewrite Z.eqb_refl, W1, Hget, Hmk. cbv iota.
  split_and!; [done| |by eapply kept_put; eauto]. split; cbn; try done.
  - exists t, dt'. unfold delete_table. cbn. rewrite get_insert. split_and!; [done|done| |done].
    apply (tx_inv_marks es rt mC mT _ _ _ _ _ _ _ dt' ({[k]} ∪ D) Hinv Hdt'); [|clear; set_solver].
    apply union_subseteq. split; [|done]. apply singleton_subseteq_l. by eapply elem_of_dom_2.
  - by rewrite get_insert.
Qed.

(** Deleting a row that the transaction sees: it is no longer seen, and all
    others are; deleting a committed row that was deleted changes nothing. *)
Theorem tx_delete_view tid p s ct C D I :
  tx_view tid s ct C D I →
  (∀ val, sees_at C D I p val → ∃ s' D' I', tx_delete (H:=H) tid p s = (Ok true, s') ∧ tx_view tid s' ct C D' I' ∧ kept tid s s' ∧
     ∀ p' v, sees_at C D' I' p' v ↔ p' ≠ p ∧ sees_at C D I p' v) ∧
  (∀ k, p = ptr_of COMMITTED_STATE k → k ∈ D → ∃ s', tx_delete (H:=H) tid p s = (Ok false, s') ∧ tx_view tid s' ct C D I ∧ kept tid s s').
Proof using Hrt Hnr Hsize LawI FLawI.
  intros Hv. pose proof (tw_parts _ _ _ _ _ _ Hv) as (t & dt & _ & _ & Hinv & _). pose proof (tx_places es rt mC mT _ _ _ _ _ _ _ Hinv (reflexivity I)) as Hpl.
  split; [intros val [(k & -> & HC & HD)|(k & -> & HI)]|intros k -> HD].
  - destruct (delete_committed_ok tid s ct C D I k val Hv HC) as (s' & Hd & Hv' & Hk). rewrite bool_decide_true in Hd by done.
    exists s', ({[k]} ∪ D), I. split_and!; try done. intros p' v. by eapply sees_mark.
  - destruct (delete_inserted_ok tid s ct C D I k val Hv HI) as (s' & Hd & Hv' & Hk).
    exists s', D, (delete k I). split_and!; try done. intros p' v. by eapply sees_delete.
  - destruct (proj1 (elem_of_dom C k) (xi_deleted _ _ _ _ _ _ _ _ _ _ _ Hinv k HD)) as [val HC].
    destruct (delete_committed_ok tid s ct C D I k val Hv HC) as (s' & Hd & Hv' & Hk). rewrite bool_decide_false in Hd by (by intros Hn; apply Hn).
    exists s'. split_and!; try done. replace ({[k]} ∪ D) with D in Hv' by (clear -HD; set_solver). done.
Qed.

(** A value is at one place. *)
Lemma place_unique tid s ct C D I p p' val : tx_view tid s ct C D I → at_place C I p val → at_place C I p' val → p = p'.
Proof using.
  intros [_ (t & dt & _ & _ & [X1 X2 X3 X4 X5 X6 X7 X8 X9] & _) _ _ _ _ _]. cbn in *.
  intros [(k & -> & Hk)|(k & -> & Hk)] [(k' & -> & Hk')|(k' & -> & Hk')].
  - by rewrite (tv_set _ _ _ _ (proj2 X1) k k' val Hk Hk').
  - by destruct (X6 k k' val Hk).
  - by destruct (X6 k' k val Hk').
  - by rewrite (tv_set _ _ _ _ X3 k k' val Hk Hk').
Qed.
Lemma place_value C I p v v' : places_ok C I → at_place C I p v → at_place C I p v' → v = v'.
Proof using.
  intros [HC HI] [(k & -> & Hk)|(k & -> & Hk)] [(k' & Hp & Hk')|(k' & Hp & Hk')].
  - destruct (ptr_of_inj _ _ _ _ (HC _ _ Hk) (HC _ _ Hk') Hp) as [_ ->]. congruence.
  - by destruct (states_differ _ _ (HC _ _ Hk) (HI _ _ Hk')).
  - by destruct (states_differ _ _ (HC _ _ Hk') (HI _ _ Hk)).
  - destruct (ptr_of_inj _ _ _ _ (HI _ _ Hk) (HI _ _ Hk') Hp) as [_ ->]. congruence.
Qed.
Lemma seen_at_place C D I p val : sees_at C D I p val → at_place C I p val.
Proof using. intros [(k & -> & Hk & _)|(k & -> & Hk)]; [left|right]; by exists k. Qed.

(** What deleting by value does. *)
Lemma delete_by_row_value_ok tid val s ct C D I :
  tx_view tid s ct C D I → tx_insertable C I val →
  (∃ b s' D' I', delete_by_row_value (H:=H) tid val s = (Ok b, s') ∧ tx_view tid s' ct C D' I' ∧ kept tid s s' ∧ (b = true ↔ sees C D I val) ∧
     ∀ p v, sees_at C D' I' p v ↔ v ≠ val ∧ sees_at C D I p v) ∨
  (∃ s' t, delete_by_row_value (H:=H) tid val s = (Err (TableBflatn (BPagesError TooManyPages)), s') ∧ tx_view tid s' ct C D I ∧ kept tid s s' ∧
     insert_table tid s ct t ∧ num_pages t = PageIndex_MAX + 1).
Proof using Hrt Hnr Hsize Hcode LawI FLawI.
  intros Hv Hins. unfold delete_by_row_value.
  rewrite (sbind_Ok (get_commit_table tid) _ s s (ct, cs_blob_store (mt_committed_state s)))
    by (unfold get_commit_table; by rewrite (tw_table _ _ _ _ _ _ Hv)).
  destruct (ensure_ok tid s ct C D I Hv) as (s1 & [[[t pool] tbs] dt] & Hen & Hop & Hk1 & Hit & Hinv & Hst). cbn [fst snd] in *.
  rewrite (sbind_Ok _ _ _ _ _ Hen).
  assert (Hback : ∀ s2 q, opened tid s2 ct q → kept tid s1 s2 → tx_inv I ct (cs_blob_store (mt_committed_state s)) q C D I →
    ti_static_layout (tb_inner q.1.1.1) = ti_static_layout (tb_inner ct) → tx_view tid s2 ct C D I ∧ kept tid s s2).
  { intros s2 q Hop2 Hk2 Hinv2 Hst2. pose proof (kept_trans _ _ _ _ Hk1 Hk2) as Hk. split; [|done].
    eapply view_of_opened; [exact Hop2| |done|by eapply tw_cols|by eapply tw_valid|by eapply tw_fits]. by rewrite (kp_store _ _ _ Hk). }
  destruct (find_by_value_ok es rt Hrt Hnr Hsize Hcode mC mT ct _ t pool tbs dt C D I val Hinv Hins)
    as [(o & ps & pool' & tbs' & Hf & Hinv2 & Ho)|[Hf Hn]]; destruct (on_parts_ok tid s1 ct _ _ _ _ Hop Hf) as (s2 & Ho2 & Hop2 & Hk2).
  2: { right. destruct (Hback _ _ Hop2 Hk2 Hinv Hst) as [Hv2 Hkk]. exists s2, t. by rewrite (sbind_Err _ _ _ _ _ Ho2). }
  left. destruct (Hback _ _ Hop2 Hk2 Hinv2 Hst) as [Hv2 Hkk]. rewrite (sbind_Ok _ _ _ _ _ Ho2). clear Hback.
  pose proof (tx_places es rt mC mT _ _ _ _ _ _ _ Hinv (reflexivity I)) as Hpl. destruct o as [p|].
  2: { exists false, s2, D, I. split_and!; try done.
       - split; [done|]. intros [p Hs]%sees_place. by destruct (Ho p (seen_at_place _ _ _ _ _ Hs)).
       - intros p v. split; [|by intros [_ ?]]. intros Hs. split; [|done]. intros ->. by eapply Ho, seen_at_place. }
  assert (Hsees : ∀ p' v, p' ≠ p ∧ sees_at C D I p' v ↔ v ≠ val ∧ sees_at C D I p' v).
  { intros p' v. split; intros [Hne Hs]; (split; [|done]); intros ->; apply Hne.
    - by eapply (place_unique tid s2); [done|by eapply seen_at_place|].
    - by eapply place_value; [exact Hpl|by eapply seen_at_place|]. }
  pose proof Ho as [(k & -> & HC)|(k & -> & HI)].
  - destruct (delete_committed_ok tid s2 ct C D I k val Hv2 HC) as (s3 & Hd & Hv3 & Hk3). exists (bool_decide (k ∉ D)), s3, ({[k]} ∪ D), I.
    split_and!; [done|done|by eapply kept_trans| |intros p v; by rewrite (sees_mark C D I k val p v Hpl HC)].
    rewrite bool_decide_eq_true. split; [intros HD; left; by exists k|]. intros [(k' & HC' & HD)|(k' & HI')].
    + by rewrite (tv_set _ _ _ _ (proj2 (xi_commit _ _ _ _ _ _ _ _ _ _ _ Hinv)) k k' val HC HC').
    + by destruct (xi_new _ _ _ _ _ _ _ _ _ _ _ Hinv k k' val HC).
  - destruct (delete_inserted_ok tid s2 ct C D I k val Hv2 HI) as (s3 & Hd & Hv3 & Hk3). exists true, s3, D, (delete k I).
    split_and!; [done|done|by eapply kept_trans| |intros p v; by rewrite (sees_delete C D I k val p v Hpl HI)].
    split; [|done]. intros _. right. by exists k.
Qed.

(** C12. Deleting by value: the row with the value is no longer seen, if there
    was one, which is what is returned, and all others are.  The only error is
    that the table has the most pages that it can have, and nothing is changed then. *)
Theorem delete_by_row_value_view tid val s ct C D I :
  tx_view tid s ct C D I → tx_insertable C I val →
  (∃ b s' D' I', delete_by_row_value (H:=H) tid val s = (Ok b, s') ∧ tx_view tid s' ct C D' I' ∧ kept tid s s' ∧ (b = true ↔ sees C D I val) ∧
     ∀ p v, sees_at C D' I' p v ↔ v ≠ val ∧ sees_at C D I p v) ∨
  (∃ s' t, delete_by_row_value (H:=H) tid val s = (Err (TableBflatn (BPagesError TooManyPages)), s') ∧ tx_view tid s' ct C D I ∧ kept tid s s' ∧
     insert_table tid s ct t ∧ num_pages t = PageIndex_MAX + 1).
Proof using Hrt Hnr Hsize Hcode LawI FLawI. apply delete_by_row_value_ok. Qed.
End rows.

(** ** Examples *)

Module Examples.
#[local] Existing Instances BlobStore.Examples.last32_hash ValueOrd.Examples.bits_ord ValueOrd.Examples.bits_ord_laws.
#[local] Existing Instances PagesThm.Examples.list_queue PagesThm.Examples.list_queue_laws RowHash.Examples.transcript_rows.
Import PagesThm.Examples TableThm.Examples.

Local Abbreviation H := (list byte) (only parsing).
Local Abbreviation pool0 := (pool_new ([] : list Page)) (only parsing).
Local Abbreviation store := (∅ : HashMapBlobStore) (only parsing).
Local Abbreviation view := (tx_view (H:=H) es rt ∅ ∅) (only parsing).

Lemma rt_few : all_list (λ e, few_variants (pel_ty e)) (row_elements rt).
Proof. vm_compute. repeat split; lia. Qed.
Lemma rt_vcode : validator_code rt ≤ u16_MAX.
Proof. vm_compute. discriminate. Qed.
Local Abbreviation laws f := (f es rt BflatnThm.Examples.rt_row eq_refl es_size BflatnThm.Examples.rt_code rt_few rt_vcode ∅ ∅) (only parsing).

(** A database with one table. *)
Definition state_of (t : Table) (pool : PagePool (list Page)) (bs : HashMapBlobStore) : CommittedState :=
  {| cs_next_tx_offset := 0; cs_tables := {[1 := t]}; cs_blob_store := bs; cs_index_id_map := ∅; cs_page_pool := pool |}.
Definition begun t pool bs : MutTxId := begin_mut_tx store (state_of t pool bs) ∅.

Definition bytes : list byte := match to_vec (VProduct val) with Ok b => b | _ => [] end.
Lemma bytes_decode : decode (TProduct es) bytes = Ok (VProduct val, []).
Proof. vm_compute. reflexivity. Qed.
Lemma bytes_row i v : ti_static_layout i = None → row_bytes es i bytes v ↔ v = val.
Proof.
  intros Hi. unfold row_bytes. rewrite Hi, bytes_decode. split; [by intros [_ [rest [= ->]]]|intros ->; split; [exact BflatnThm.Examples.val_typed|by exists []]].
Qed.

(** The table is empty, or has the row. *)
Lemma empty_view : ∃ t pool bs ix, view 1 (begun t pool bs) t ∅ ∅ ∅ ∧ tb_indexes t = [(1, ix)] ∧ ix_shape ix = ix_shape stored ∧ tb_schema t = schema ∧
  ti_static_layout (tb_inner t) = None ∧ tb_pointer_map t = None.
Proof.
  exists users, pool0, store, TableIndex.Examples.by_id. split; [|split; [reflexivity|split; [reflexivity|split; [reflexivity|split; reflexivity]]]].
  apply tx_begin_ok; [exact BflatnThm.Examples.rt_row|reflexivity|exact es_size|apply lookup_singleton_eq| | | |by split].
  - exact (table_reach_inv es rt BflatnThm.Examples.rt_row eq_refl es_size BflatnThm.Examples.rt_code ∅ COMMITTED_STATE committed_in_u _ _ users_reach).
  - constructor; [|constructor]. vm_compute. split; [split; [discriminate|reflexivity]|reflexivity].
  - intros sl va Hs. discriminate Hs.
Qed.

Lemma out_rest : (tb_schema out.2.1.1, ti_static_layout (tb_inner out.2.1.1)) = (schema, None).
Proof. vm_compute. reflexivity. Qed.

Lemma row_view : ∃ t pool bs, view 1 (begun t pool bs) t {[place := val]} ∅ ∅ ∧ tb_indexes t = [(1, stored)] ∧ tb_schema t = schema ∧
  ti_static_layout (tb_inner t) = None ∧ tb_pointer_map t = None ∧ num_pages t = 1.
Proof.
  destruct first_row as (t & pool & bs & Hi & Hr & Hix & Hpm & Hn). pose proof out_rest as Ho. unfold out in Ho. rewrite Hi in Ho. injection Ho as Hsch Hst.
  exists t, pool, bs. split; [|split; [exact Hix|split; [exact Hsch|split; [exact Hst|split; [exact Hpm|exact Hn]]]]].
  apply tx_begin_ok; [exact BflatnThm.Examples.rt_row|reflexivity|exact es_size|apply lookup_singleton_eq| | | |by split].
  - exact (table_reach_inv es rt BflatnThm.Examples.rt_row eq_refl es_size BflatnThm.Examples.rt_code ∅ COMMITTED_STATE committed_in_u _ _ Hr).
  - rewrite Hix. constructor; [|constructor]. vm_compute. split; [split; [discriminate|reflexivity]|reflexivity].
  - intros sl va Hs. rewrite Hst in Hs. discriminate Hs.
Qed.

(** The insert table of the table is new. *)
Lemma insertable_rows (C : gmap (nat * Z) ProductValue) : C = ∅ ∨ C = {[place := val]} → tx_insertable es rt ∅ ∅ C ∅ val.
Proof.
  intros HC. split; [exact BflatnThm.Examples.val_typed|]. split; [vm_compute; discriminate|].
  assert (He : large (map_objects C) = ∅) by (destruct HC as [->| ->]; [reflexivity|unfold map_objects; rewrite map_to_list_singleton; reflexivity]).
  rewrite He. change (large (product_objects val)) with (∅ : gmultiset (list byte)).
  change (large (map_objects (∅ : gmap (nat * Z) ProductValue))) with (∅ : gmultiset (list byte)). intros b b' Hb. exfalso. multiset_solver.
Qed.

Lemma clone_facts t t' ix : tb_indexes t = [(1, ix)] → ix_shape ix = ix_shape stored → tb_pointer_map t = None →
  table_clone_structure (E:=DatastoreError) t TX_STATE = Ok t' → room TX_STATE t' ∅ val ∧ num_pages t' = 0.
Proof.
  intros Hix Hsh Hpm. unfold table_clone_structure. rewrite Hix, Hpm. cbn [option_map clone_indexes]. unfold ix_clone_structure.
  injection Hsh as Hc Hk Hcols. rewrite Hc, Hk, Hcols. cbn. intros [= <-]. split; [|reflexivity]. split; [intros pm Hp; discriminate Hp|]. split; [reflexivity|].
  constructor; [|constructor]. vm_compute. discriminate.
Qed.

Lemma new_room t pool bs ix : tb_indexes t = [(1, ix)] → ix_shape ix = ix_shape stored → tb_pointer_map t = None →
  tx_room 1 (begun t pool bs) t ∅ val.
Proof. intros Hix Hsh Hpm t' Ht. exact (proj1 (clone_facts t t' ix Hix Hsh Hpm Ht)). Qed.

(** The row is inserted into the empty table, and seen. *)
Lemma tx_insert_view_witness : ∃ t pool bs cols r sched s' D I,
  tx_insert (H:=H) 1 bytes (begun t pool bs) = (Ok (cols, r, sched), s') ∧ view 1 s' t ∅ D I ∧ sees_at ∅ D I (rr_pointer (row_of r)) val.
Proof.
  destruct empty_view as (t & pool & bs & ix & Hv & Hix & Hsh & Hsch & Hst & Hpm). exists t, pool, bs.
  destruct (laws tx_insert_view 1 bytes (begun t pool bs) t ∅ ∅ ∅ Hv)
    as [(v & cols & r & sched & s' & D & I & Hi & Hb & Hv' & _ & _ & Hsee & _)|(e & s' & _ & _ & _ & He)].
  - rewrite Hsch. reflexivity.
  - intros v Hb. apply bytes_row in Hb as ->; [|exact Hst]. split; [apply insertable_rows; by left|]. by apply (new_room t pool bs ix).
  - apply bytes_row in Hb as ->; [|exact Hst]. exists cols, r, sched, s', D, I. split; [exact Hi|]. split; [exact Hv'|]. apply Hsee. by left.
  - exfalso. apply write_error_cases in He as [Hno|[(t' & Ht & Hn)|(v & _ & u & _ & Hviol)]].
    + by apply (Hno val), bytes_row.
    + by rewrite (proj2 (clone_facts t t' ix Hix Hsh Hpm Ht)) in Hn.
    + destruct Hviol as (_ & _ & _ & _ & _ & _ & _ & _ & _ & v0 & [[(k & Hk & _)|(k & Hk)] _] & _); rewrite lookup_empty in Hk; discriminate Hk.
Defined.

(** The row is replaced, by its number. *)
Lemma tx_update_view_witness : ∃ t pool bs cols r sched s' D I,
  tx_update (H:=H) 1 1 bytes (begun t pool bs) = (Ok (cols, r, sched), s') ∧ view 1 s' t {[place := val]} D I ∧
  ∀ p v, sees_at {[place := val]} D I p v ↔ p = rr_pointer (row_of r) ∧ v = val.
Proof.
  destruct row_view as (t & pool & bs & Hv & Hix & Hsch & Hst & Hpm & _). exists t, pool, bs.
  assert (Hsees : ∀ v, sees {[place := val]} ∅ ∅ v → v = val)
    by (intros v [(k & [_ <-]%lookup_singleton_Some & _)|(k & Hk)]; [reflexivity|rewrite lookup_empty in Hk; discriminate Hk]).
  assert (Hget : get_index_by_id t 1 = Some stored) by (unfold get_index_by_id; rewrite Hix; reflexivity).
  destruct (laws tx_update_view 1 1 bytes (begun t pool bs) t {[place := val]} ∅ ∅ Hv)
    as [(v & cols & r & sched & s' & D & I & ix & oldp & old & Hu & Hb & _ & _ & Hold & _ & Hv' & _ & _ & Hsee)|(e & s' & _ & _ & _ & He)].
  - rewrite Hsch. reflexivity.
  - intros v Hb. apply bytes_row in Hb as ->; [|exact Hst]. split; [apply insertable_rows; by right|]. by apply (new_room t pool bs stored).
  - apply bytes_row in Hb as ->; [|exact Hst]. exists cols, r, sched, s', D, I. split; [exact Hu|]. split; [exact Hv'|]. intros p v. rewrite Hsee.
    split; [|by left]. intros [?|[Hne Hs]]; [done|]. exfalso. apply Hne.
    destruct Hs as [(k & -> & [<- _]%lookup_singleton_Some & _)|(k & _ & Hk)]; [|rewrite lookup_empty in Hk; discriminate Hk].
    destruct Hold as [(k & -> & [<- _]%lookup_singleton_Some & _)|(k & _ & Hk)]; [reflexivity|rewrite lookup_empty in Hk; discriminate Hk].
  - exfalso. apply write_error_cases in He as [Hno|[(t' & Ht & Hn)|(v & Hb & He)]].
    + by apply (Hno val), bytes_row.
    + by rewrite (proj2 (clone_facts t t' stored Hix eq_refl Hpm Ht)) in Hn.
    + apply bytes_row in Hb as ->; [|exact Hst]. assert (Hval : sees {[place := val]} ∅ ∅ val)
        by (left; exists place; split; [apply lookup_singleton_eq|apply not_elem_of_empty]).
      destruct e; try done; cbn in He; rewrite Hget in He.
      * by destruct He as [_ He].
      * destruct He as (_ & ix & [= <-] & Hu). discriminate Hu.
      * destruct He as (_ & ix & [= <-] & _ & Hno). specialize (Hno val Hval). by rewrite at_key_refl in Hno.
      * destruct He as (ix & [= <-] & _ & _ & _ & _ & _ & _ & _ & _ & _ & v0 & [->%Hsees Hno] & _). by rewrite at_key_refl in Hno.
Defined.

(** The row is deleted by its value. *)
Lemma delete_by_row_value_view_witness : ∃ t pool bs s' D I,
  delete_by_row_value (H:=H) 1 val (begun t pool bs) = (Ok true, s') ∧ view 1 s' t {[place := val]} D I ∧ ∀ p v, ¬ sees_at {[place := val]} D I p v.
Proof.
  destruct row_view as (t & pool & bs & Hv & Hix & Hsch & Hst & Hpm & _). exists t, pool, bs.
  destruct (delete_by_row_value_view es rt BflatnThm.Examples.rt_row eq_refl es_size BflatnThm.Examples.rt_code ∅ ∅ 1 val (begun t pool bs) t {[place := val]} ∅ ∅ Hv)
    as [(b & s' & D & I & Hd & Hv' & _ & Hb & Hsee)|(s' & t' & _ & _ & _ & Ht & Hn)].
  - apply insertable_rows. by right.
  - exists s', D, I. rewrite Hd, (proj2 Hb). 2: { left; exists place; split; [apply lookup_singleton_eq|apply not_elem_of_empty]. }
    split; [reflexivity|]. split; [exact Hv'|]. intros p v [Hne Hs]%Hsee. apply Hne.
    destruct Hs as [(k & _ & [_ <-]%lookup_singleton_Some & _)|(k & _ & Hk)]; [reflexivity|rewrite lookup_empty in Hk; discriminate Hk].
  - exfalso. by rewrite (proj2 (clone_facts t t' stored Hix eq_refl Hpm Ht)) in Hn.
Defined.
End Examples.
