(* ===== verification/TxRead.v ===== *)
(** * Reads of a transaction

    A scan, a search by columns, a count and a lookup by pointer show the rows
    that the transaction sees. *)

From Stdlib Require Import ZArith Lia.
From stdpp Require Import sorting gmap gmultiset list strings.
From S2P Require Import Prelude Buffer Sats Bsatn Mem Indexes VarLen BlobStore Page PageInv PageRows PageRead PageThm Pages PointerMap Layout RowTypeVisitor BflatnTo BflatnFrom BflatnRepr BflatnThm PagesThm StaticLayout RowEq ValueHash RowHash StaticValidator ColList RowRef ValueOrd BTreeMap IndexMaps TableIndex Table TableRows TableThm RowInsert DeleteTable Sequence TxState MutTx TxTable TxRows TxUpdate TxThm.
Local Open Scope Z_scope.

Section rows.
Context {FloatI : FloatOrd} {FLawI : FloatOrdLaws}.
Context {Q B H : Type} {QueueI : PageQueue Q} {QLawI : PageQueueLaws Q}.
Context {BsI : BlobStore B} {HashI : Blake3} {LawI : BlobStoreLaws B} {HasherI : RowHasher H}.
Context (es : list ProductTypeElement) (rt : RowTypeLayout).
Context (Hrt : row_type_layout (E:=unit) es = Ok rt) (Hnr : contains_refs (TProduct es) = false).
Context (Hsize : ty_size (TProduct es) ≤ PAGE_DATA_SIZE) (Hcode : len (visitor_code rt) ≤ u16_MAX).
Context (Hfew : all_list (λ e, few_variants (pel_ty e)) (row_elements rt)) (Hvcode : validator_code rt ≤ u16_MAX).
Context (mC mT : gmultiset (list byte)).
Implicit Types (t ct tx_t : Table) (pool : PagePool Q) (bs cbs tbs : B) (dt : DeleteTable).
Implicit Types (A C I P : gmap (nat * Z) ProductValue) (D : gset (nat * Z)) (k : nat * Z) (val : ProductValue).

Local Abbreviation cinv := (tbl_inv (H:=H) es rt mC COMMITTED_STATE) (only parsing).
Local Abbreviation tphys := (phys es rt mT TX_STATE) (only parsing).
Local Abbreviation tlog := (logical (H:=H) es TX_STATE) (only parsing).
Local Abbreviation parts := (@TxParts Q B) (only parsing).

Local Abbreviation tx_inv := (tx_inv (H:=H) es rt mC mT) (only parsing).
Local Abbreviation tx_insertable := (tx_insertable es rt mC mT) (only parsing).
Local Abbreviation tx_view := (tx_view (H:=H) es rt mC mT) (only parsing).
Local Abbreviation tx := (@MutTxId Q B) (only parsing).
Implicit Types (s : tx) (tid : Z).

(** ** The rows that were not deleted *)

Lemma filter_deleted_ok {E} ct pool cbs C dt D ks :
  cinv ct pool cbs C → dt_rep (row_size rt) dt D → (∀ k, k ∈ ks → k ∈ dom C) →
  filter_deleted (E:=E) dt (map (row_at_key COMMITTED_STATE ct cbs) ks) = Ok (map (row_at_key COMMITTED_STATE ct cbs) (filter (λ k, k ∉ D) ks)).
Proof using Hrt Hnr Hsize.
  intros [Hph _] Hdt. induction ks as [|k ks IH]; intros Hin; [done|]. destruct (proj1 (elem_of_dom C k) (Hin k ltac:(by left))) as [val HC].
  pose proof (proj1 (ph_keys _ _ _ _ _ _ _ _ Hph k val HC)) as Hkey. cbn [map filter_deleted row_at_key rr_pointer].
  rewrite (dt_contains_ok (E:=E) _ (row_size_range es rt Hrt Hnr Hsize) dt D (ptr_of COMMITTED_STATE k) Hdt).
  2: { unfold slot_ptr. rewrite Hkey. by eapply (phys_slot es rt Hrt Hnr Hsize mC). }
  rewrite Hkey. cbn [rbind]. rewrite IH by (intros k' Hk'; apply Hin; by right). cbn [rbind]. rewrite filter_cons.
  destruct (decide (k ∈ D)) as [HD|HD]; [rewrite bool_decide_true, decide_False by (done || by intros Hn; apply Hn)|rewrite bool_decide_false, decide_True by done]; done.
Qed.

(** There may be no delete table. *)
Lemma not_deleted_ok {E} tid s ct C D I ks : tx_view tid s ct C D I → (∀ k, k ∈ ks → k ∈ dom C) →
  let row := row_at_key COMMITTED_STATE ct (cs_blob_store (mt_committed_state s)) in
  not_deleted (E:=E) (get_delete_table (mt_tx_state s) tid) (map row ks) = Ok (map row (filter (λ k, k ∉ D) ks)).
Proof using Hrt Hnr Hsize.
  intros Hv Hks row. pose proof Hv as [W1 (t & dt & Ht & Hdt & Hinv & Hst) W3 W4 W5 W6 W7].
  pose proof (xi_commit _ _ _ _ _ _ _ _ _ _ _ Hinv) as Hc. pose proof (xi_deletes _ _ _ _ _ _ _ _ _ _ _ Hinv) as Hrep. cbn [fst snd] in *.
  assert (Hall : D = ∅ → filter (λ k, k ∉ D) ks = ks) by (intros ->; apply filter_all, Forall_forall; intros k _; apply not_elem_of_empty).
  unfold get_delete_table, delete_table in *. destruct (bt_get (ts_delete_tables (mt_tx_state s)) tid) as [dt0|].
  - subst dt0. rewrite (dt_is_empty_ok _ _ _ Hrep). case_bool_decide as HD; cbn [not_deleted]; [by rewrite Hall|]. by eapply filter_deleted_ok.
  - cbn [not_deleted]. by rewrite Hall by by apply W4.
Qed.

(** ** What a list of rows shows *)

(** The rows are those that the transaction sees and that were asked for, each once. *)
Definition shows C D I (asked : ProductValue → Prop) (rows : list (RowRef B)) : Prop :=
  NoDup (map rr_pointer rows) ∧
  ∀ p v, sees_at C D I p v ∧ asked v ↔ ∃ r, r ∈ rows ∧ rr_pointer r = p ∧ rr_to_product_value (E:=unit) r = Ok v.

Lemma row_shown m sq t pool bs A k val v : phys es rt m sq (tb_inner t) pool bs A → A !! k = Some val →
  rr_to_product_value (E:=unit) (row_at_key sq t bs k) = Ok v ↔ val = v.
Proof using Hrt Hnr Hsize LawI.
  intros Hph Hk. rewrite (phys_read es rt Hrt Hnr Hsize m sq t pool bs A k val Hph Hk). split; [by intros [= ->]|by intros ->].
Qed.

Lemma pointers_unique m sq t pool bs A ks : phys es rt m sq (tb_inner t) pool bs A → NoDup ks → (∀ k, k ∈ ks → k ∈ dom A) →
  NoDup (map rr_pointer (map (row_at_key sq t bs) ks)).
Proof using.
  intros Hph Hnd Hks. rewrite map_map. induction Hnd as [|k ks Hk _ IH]; cbn; constructor.
  - intros (k' & He & Hk')%list_elem_of_fmap. destruct (proj1 (elem_of_dom A k) (Hks k ltac:(by left))) as [v Hv].
    destruct (proj1 (elem_of_dom A k') (Hks k' ltac:(by right))) as [v' Hv'].
    by rewrite (key_inj sq k k' (ph_keys _ _ _ _ _ _ _ _ Hph k v Hv) (ph_keys _ _ _ _ _ _ _ _ Hph k' v' Hv') He) in Hk.
  - apply IH. intros k' Hk'. apply Hks. by right.
Qed.

Lemma shows_rows ct pool cbs t tbs C D I asked ks ks' rows :
  cinv ct pool cbs C → tphys (tb_inner t) pool tbs I → NoDup ks → NoDup ks' →
  (∀ k, k ∈ ks ↔ ∃ v, C !! k = Some v ∧ (k ∉ D) ∧ asked v) → (∀ k, k ∈ ks' ↔ ∃ v, I !! k = Some v ∧ asked v) →
  rows ≡ₚ map (row_at_key COMMITTED_STATE ct cbs) ks ++ map (row_at_key TX_STATE t tbs) ks' → shows C D I asked rows.
Proof using Hrt Hnr Hsize LawI.
  intros [Hc _] Ht Hn Hn' Hks Hks' Hp. split.
  - rewrite Hp, map_app. apply NoDup_app. split_and!.
    + eapply pointers_unique; [exact Hc|done|]. intros k (v & HC & _)%Hks. by eapply elem_of_dom_2.
    + intros p. rewrite !map_map. intros (k & -> & (v & HC & _)%Hks)%list_elem_of_fmap (k' & He & (v' & HI & _)%Hks')%list_elem_of_fmap.
      eapply states_differ; [by eapply (ph_keys _ _ _ _ _ _ _ _ Hc)|by eapply (ph_keys _ _ _ _ _ _ _ _ Ht)|exact He].
    + eapply pointers_unique; [exact Ht|done|]. intros k (v & HI & _)%Hks'. by eapply elem_of_dom_2.
  - intros p v. setoid_rewrite Hp. setoid_rewrite elem_of_app. setoid_rewrite list_elem_of_fmap. split.
    + intros [[(k & -> & HC & HD)|(k & -> & HI)] Ha].
      * eexists. split; [left; exists k; split; [done|apply Hks; by exists v]|]. split; [done|]. by apply (row_shown mC COMMITTED_STATE ct pool cbs C k v v Hc HC).
      * eexists. split; [right; exists k; split; [done|apply Hks'; by exists v]|]. split; [done|]. by apply (row_shown mT TX_STATE t pool tbs I k v v Ht HI).
    + intros (r & [(k & -> & (v' & HC & HD & Ha)%Hks)|(k & -> & (v' & HI & Ha)%Hks')] & <- & Hr).
      * apply (row_shown mC COMMITTED_STATE ct pool cbs C k v' v Hc HC) in Hr as <-. split; [|done]. left. by exists k.
      * apply (row_shown mT TX_STATE t pool tbs I k v' v Ht HI) in Hr as <-. split; [|done]. right. by exists k.
Qed.

(** ** Scanning *)

(** The rows that are not deleted, and how many they are. *)
Lemma left_rows C D (ks : list (nat * Z)) : D ⊆ dom C → NoDup ks → (∀ k, k ∈ ks ↔ k ∈ dom C) →
  let ks' := filter (λ k, k ∉ D) ks in
  NoDup ks' ∧ (∀ k, k ∈ ks' ↔ ∃ v, C !! k = Some v ∧ (k ∉ D) ∧ True) ∧ (length ks' + size D = size C)%nat.
Proof using.
  intros Hsub Hnd Hks ks'. assert (Hnd' : NoDup ks') by by apply NoDup_filter.
  assert (Hel : ∀ k, k ∈ ks' ↔ k ∈ dom C ∖ D) by (intros k; unfold ks'; rewrite list_elem_of_filter, elem_of_difference, Hks; naive_solver).
  split_and!; [done| |].
  - intros k. rewrite Hel, elem_of_difference, elem_of_dom. unfold is_Some. naive_solver.
  - assert (Hp : ks' ≡ₚ elements (dom C ∖ D)) by (apply NoDup_Permutation; [done|apply NoDup_elements|intros k; by rewrite Hel, elem_of_elements]).
    rewrite Hp. change (length (elements (dom C ∖ D))) with (size (dom C ∖ D)). pose proof (subseteq_size _ _ Hsub).
    rewrite size_difference by done. rewrite <-(size_dom C). lia.
Qed.

Lemma tx_iter_ok tid s ct C D I : tx_view tid s ct C D I →
  let cs := mt_committed_state s in
  ∃ t ks ks', tx_iter s tid = Ok (map (row_at_key COMMITTED_STATE ct (cs_blob_store cs)) ks ++
                                  map (row_at_key TX_STATE t (ts_blob_store (mt_tx_state s))) ks') ∧
    tphys (tb_inner t) (cs_page_pool cs) (ts_blob_store (mt_tx_state s)) I ∧
    NoDup ks ∧ (∀ k, k ∈ ks ↔ ∃ v, C !! k = Some v ∧ (k ∉ D) ∧ True) ∧ (length ks + size D = size C)%nat ∧
    NoDup ks' ∧ (∀ k, k ∈ ks' ↔ ∃ v, I !! k = Some v ∧ True) ∧ length ks' = size I.
Proof using Hrt Hnr Hsize.
  intros Hv cs. subst cs. pose proof Hv as [W1 (t & dt & Ht & Hdt & [X1 X2 X3 X4 X5 X6 X7 X8 X9] & Hst) W3 W4 W5 W6 W7]. cbn [fst snd] in *. pose proof X1 as [Xc Xl].
  unfold tx_iter. rewrite W1.
  destruct (scan_rows_ok es rt Hrt Hnr Hsize mC COMMITTED_STATE (E:=DatastoreError) ct _ _ C Xc (tv_sq _ _ _ _ Xl)) as (ks & -> & Hnd & Hks). cbn [rbind].
  rewrite (not_deleted_ok tid s ct C D I ks Hv) by (intros k; by rewrite Hks). cbn [rbind].
  destruct (left_rows C D ks X5 Hnd Hks) as (L1 & L2 & L3). exists t, (filter (λ k, k ∉ D) ks).
  assert (Hins : ∃ ks', match bt_get (ts_insert_tables (mt_tx_state s)) tid with
      | Some t => scan_rows (E:=DatastoreError) t (ts_blob_store (mt_tx_state s)) | None => Ok [] end =
    Ok (map (row_at_key TX_STATE t (ts_blob_store (mt_tx_state s))) ks') ∧ NoDup ks' ∧ ∀ k, k ∈ ks' ↔ k ∈ dom I).
  { unfold insert_table in Ht. destruct (bt_get (ts_insert_tables (mt_tx_state s)) tid) as [t0|].
    - subst t0. by apply (scan_rows_ok es rt Hrt Hnr Hsize mT TX_STATE t _ _ I X2), X3.
    - exists []. rewrite (W3 eq_refl), dom_empty_L. split_and!; [done|constructor|]. intros k. by rewrite elem_of_nil, elem_of_empty. }
  destruct Hins as (ks' & Hs & Hnd' & Hks'). exists ks'. split_and!; try done.
  - destruct (bt_get _ _) as [t0|]; [by rewrite Hs|]. destruct ks'; [|done]. cbn [map]. by rewrite app_nil_r.
  - intros k. rewrite Hks', elem_of_dom. unfold is_Some. naive_solver.
  - assert (Hp : ks' ≡ₚ elements (dom I)) by (apply NoDup_Permutation; [done|apply NoDup_elements|intros k; by rewrite Hks', elem_of_elements]).
    rewrite Hp. by rewrite <-(size_dom I).
Qed.

Lemma get_row_ref_found {E} m sq t pool bs A k val : phys es rt m sq (tb_inner t) pool bs A → tb_squashed_offset t = sq → A !! k = Some val →
  get_row_ref (E:=E) t bs (ptr_of sq k) = Ok (Some (row_at_key sq t bs k)).
Proof using Hrt Hnr Hsize.
  intros Hph Hs Hk. unfold get_row_ref. rewrite (phys_present es rt Hrt Hnr Hsize m sq t pool bs A k val Hs Hph Hk). cbn [rbind].
  by rewrite (phys_row_ref es rt Hrt Hnr Hsize m sq t pool bs A k val Hs Hph Hk).
Qed.

Lemma is_deleted_ok {E} tid s ct C D I k val : tx_view tid s ct C D I → C !! k = Some val →
  ts_is_deleted (E:=E) (mt_tx_state s) tid (ptr_of COMMITTED_STATE k) = Ok (bool_decide (k ∈ D)).
Proof using Hrt Hnr Hsize.
  intros [W1 (t & dt & Ht & Hdt & [[Xc _] X2 X3 X4 X5 X6 X7 X8 X9] & Hst) W3 W4 W5 W6 W7] HC. cbn [fst snd] in *.
  pose proof (ph_keys _ _ _ _ _ _ _ _ Xc k val HC) as Hok. unfold ts_is_deleted, is_committed_state. rewrite (ptr_state COMMITTED_STATE k Hok), Z.eqb_refl.
  unfold delete_table in Hdt. destruct (bt_get _ tid) as [dt0|]; [|by rewrite W4].
  subst dt0. rewrite (dt_contains_ok (E:=E) _ (row_size_range es rt Hrt Hnr Hsize) dt D (ptr_of COMMITTED_STATE k) X4).
  - by rewrite (proj1 Hok).
  - unfold slot_ptr. rewrite (proj1 Hok). by eapply (phys_slot es rt Hrt Hnr Hsize mC).
Qed.

Lemma tx_get_committed tid s ct C D I k val : tx_view tid s ct C D I → C !! k = Some val →
  tx_get s tid (ptr_of COMMITTED_STATE k) =
    Ok (if bool_decide (k ∈ D) then None else Some (row_at_key COMMITTED_STATE ct (cs_blob_store (mt_committed_state s)) k)).
Proof using Hrt Hnr Hsize.
  intros Hv HC. pose proof Hv as [W1 (t & dt & Ht & Hdt & [[Xc Xl] X2 X3 X4 X5 X6 X7 X8 X9] & Hst) W3 W4 W5 W6 W7]. cbn [fst snd] in *.
  pose proof (ph_keys _ _ _ _ _ _ _ _ Xc k val HC) as Hok. unfold tx_get, cs_get, is_committed_state. rewrite W1, (ptr_state COMMITTED_STATE k Hok).
  change (COMMITTED_STATE =? TX_STATE) with false. rewrite Z.eqb_refl. cbv zeta iota. rewrite (is_deleted_ok tid s ct C D I k val Hv HC). cbn [rbind].
  case_bool_decide; [done|]. by rewrite (get_row_ref_found mC COMMITTED_STATE ct _ _ C k val Xc (tv_sq _ _ _ _ Xl) HC).
Qed.

(** C6. Reading in a transaction: a scan shows every row that the transaction
    sees, once, with its value, and the count is how many they are; a pointer to
    one of them gives the row with its value, and one to a row that was
    deleted gives nothing.  The view of the table is one of a transaction in
    which no generation of a sequence value for the table failed; after such a
    failure a scan shows a row that the count leaves out
    ([failed_generation_leaves_row]). *)
Theorem tx_read_view tid s ct C D I :
  tx_view tid s ct C D I → Z.of_nat (size C) + Z.of_nat (size I) ≤ u64_MAX →
  (∃ rows, tx_iter s tid = Ok rows ∧ shows C D I (λ _, True) rows ∧ tx_table_row_count (E:=unit) s tid = Ok (Some (len rows))) ∧
  (∀ p v, sees_at C D I p v → ∃ r, tx_get s tid p = Ok (Some r) ∧ rr_pointer r = p ∧ rr_to_product_value (E:=unit) r = Ok v) ∧
  (∀ k, k ∈ D → tx_get s tid (ptr_of COMMITTED_STATE k) = Ok None).
Proof using Hrt Hnr Hsize LawI.
  intros Hv Hcount. pose proof Hv as [W1 (t & dt & Ht & Hdt & [X1 X2 X3 X4 X5 X6 X7 X8 X9] & Hst) W3 W4 W5 W6 W7]. cbn [fst snd] in *. pose proof X1 as [Xc Xl].
  split_and!.
  - destruct (tx_iter_ok tid s ct C D I Hv) as (t' & ks & ks' & Hi & Hph & N1 & K1 & L1 & N2 & K2 & L2). eexists. split; [exact Hi|]. split.
    { by eapply shows_rows; [exact X1|exact Hph|exact N1|exact N2|exact K1|exact K2|]. }
    unfold tx_table_row_count, ts_table_row_count. rewrite W1. cbn [option_map]. rewrite (tv_rows _ _ _ _ Xl).
    assert (Hdl : match bt_get (ts_delete_tables (mt_tx_state s)) tid with Some dt => dt_len dt | None => 0 end = Z.of_nat (size D)).
    { unfold delete_table in Hdt. destruct (bt_get _ tid) as [dt0|]; [subst dt0; by apply (dr_len _ _ _ X4)|by rewrite W4]. }
    rewrite Hdl. cbv zeta. rewrite sub_u_Ok by lia. cbn [rbind]. unfold insert_table, len in *. rewrite length_app, !length_map.
    destruct (bt_get (ts_insert_tables (mt_tx_state s)) tid) as [t0|]; cbn [option_map].
    + subst t0. rewrite (tv_rows _ _ _ _ X3). rewrite add_u_Ok by (unfold in_u, u64_MAX in *; lia). cbn [rbind]. do 2 f_equal. lia.
    + rewrite (W3 eq_refl), map_size_empty in L2. do 2 f_equal. lia.
  - intros p v [(k & -> & HC & HD)|(k & -> & HI)].
    + rewrite (tx_get_committed tid s ct C D I k v Hv HC), bool_decide_false by done. eexists. split; [done|]. split; [done|].
      by apply (row_shown mC COMMITTED_STATE ct _ _ C k v v Xc HC).
    + pose proof (ph_keys _ _ _ _ _ _ _ _ X2 k v HI) as Hok. unfold tx_get, ts_get, is_tx_state. rewrite W1, (ptr_state TX_STATE k Hok), Z.eqb_refl. cbv zeta iota.
      unfold insert_table in Ht. destruct (bt_get (ts_insert_tables (mt_tx_state s)) tid) as [t0|]; [subst t0|by rewrite W3 in HI].
      rewrite (get_row_ref_found mT TX_STATE t _ _ I k v X2 (tv_sq _ _ _ _ X3) HI). cbn [rbind]. eexists. split; [done|]. split; [done|].
      by apply (row_shown mT TX_STATE t _ _ I k v v X2 HI).
  - intros k HD. destruct (proj1 (elem_of_dom C k) (X5 k HD)) as [v HC]. by rewrite (tx_get_committed tid s ct C D I k v Hv HC), bool_decide_true.
Qed.

(** ** Columns *)

(** A projection of a row. *)
Lemma project_row m sq t pool bs A k val cols : phys es rt m sq (tb_inner t) pool bs A → A !! k = Some val →
  Forall (λ c, 0 ≤ c < len es) (col_list_iter cols) → project (row_at_key sq t bs k) cols = Ok (row_key cols val).
Proof using Hrt Hnr Hsize LawI.
  intros Hph Hk Hc. pose proof (phys_refers es rt m sq t pool bs A k val Hph Hk) as Hr. destruct val as [vals].
  assert (Hlen : len vals = len es).
  { pose proof (ph_typed _ _ _ _ _ _ _ _ Hph k _ Hk) as [Hv _]%typed_inhabits. cbn in Hv. unfold len. clear -Hv.
    revert es Hv. induction vals as [|v vals IH]; intros [|e es]; cbn; try done. intros [_ Hv]. rewrite !Nat2Z.inj_succ. f_equal. by apply IH. }
  destruct (project_unchecked_ok es rt Hrt Hnr Hsize m (E:=unit) _ vals cols Hr) as (v & Hv & _); [by rewrite Hlen|].
  rewrite (project_ok es rt Hrt Hnr Hsize m _ _ _ Hr). unfold row_key. by rewrite Hv.
Qed.

Lemma scan_by_col_range_ok {E} m sq t pool bs A cols lo hi ks rows out :
  phys es rt m sq (tb_inner t) pool bs A → (∀ k, k ∈ ks → k ∈ dom A) → Forall (λ c, 0 ≤ c < len es) (col_list_iter cols) →
  scan_by_col_range (E:=E) cols lo hi rows = Ok out →
  ∃ ks', scan_by_col_range (E:=E) cols lo hi (map (row_at_key sq t bs) ks ++ rows) = Ok (map (row_at_key sq t bs) ks' ++ out) ∧
    (NoDup ks → NoDup ks') ∧ ∀ k, k ∈ ks' ↔ k ∈ ks ∧ ∃ v, A !! k = Some v ∧ in_range lo hi (row_key cols v) = true.
Proof using Hrt Hnr Hsize LawI.
  intros Hph Hks Hc Hout. induction ks as [|k ks IH].
  - exists []. split_and!; [done|done|]. intros k. rewrite elem_of_nil. naive_solver.
  - destruct IH as (ks' & IH & Hnd & Hel); [intros k' Hk'; apply Hks; by right|]. destruct (proj1 (elem_of_dom A k) (Hks k ltac:(by left))) as [v Hv].
    cbn [map app scan_by_col_range]. rewrite (project_row m sq t pool bs A k v cols Hph Hv Hc), IH. cbn [rbind].
    exists (if in_range lo hi (row_key cols v) then k :: ks' else ks'). destruct (in_range lo hi (row_key cols v)) eqn:Hin; (split_and!; [done|..]).
    + intros [Hn1 Hn2]%NoDup_cons. constructor; [|by apply Hnd]. intros [? _]%Hel. done.
    + intros k'. rewrite !elem_of_cons, Hel. split; [intros [->|[? ?]]; [split; [by left|by exists v]|split; [by right|done]]|].
      intros [[->|Hk'] (v' & Hv' & Hr)]; [by left|right]. split; [done|]. by exists v'.
    + intros [Hn1 Hn2]%NoDup_cons. by apply Hnd.
    + intros k'. rewrite elem_of_cons, Hel. split; [intros [? ?]; split; [by right|done]|].
      intros [[->|Hk'] (v' & Hv' & Hr)]; [congruence|]. split; [done|]. by exists v'.
Qed.

(** The index of the columns in both tables. *)
Lemma twins_by_cols t t' cols : twins (tb_indexes t) (tb_indexes t') →
  match get_index_by_cols t cols, get_index_by_cols t' cols with
  | Some e, Some e' => twin e e' ∧ e ∈ tb_indexes t ∧ e' ∈ tb_indexes t' ∧ col_list_eq (ix_indexed_columns e.2) cols = true
  | None, None => True
  | _, _ => False
  end.
Proof using.
  unfold get_index_by_cols. generalize (tb_indexes t) (tb_indexes t'). induction 1 as [|e e' l l' Htw _ IH]; [done|]. cbn.
  pose proof Htw as (_ & _ & _ & Hp).
  assert (Hc : col_list_eq (ix_indexed_columns e'.2) cols = col_list_eq (ix_indexed_columns e.2) cols) by (by rewrite <-plain_eq, Hp, plain_eq).
  destruct (decide (col_list_eq (ix_indexed_columns e.2) cols = true)) as [He|He].
  - rewrite decide_True by congruence. cbn. split_and!; [done|by left|by left|done].
  - rewrite decide_False by congruence.
    destruct (list_find _ l) as [[j x]|]; destruct (list_find _ l') as [[j' x']|]; cbn in *; try done. destruct IH as (? & ? & ? & ?). split_and!; [done|by right|by right|done].
Qed.

Lemma row_key_eq cols cols' val : col_list_ok cols → col_list_ok cols' → col_list_eq cols cols' = true → row_key cols val = row_key cols' val.
Proof using.
  intros H1 H2 [_ He]%(col_list_eq_ok _ _ H1 H2). unfold row_key, pv_project, as_singleton. by rewrite He.
Qed.
Lemma twin_direct e e' : twin e e' → is_direct (ix_idx e'.2) = is_direct (ix_idx e.2).
Proof using. intros (_ & He & _). destruct (ix_idx e'.2), (ix_idx e.2); cbn in He; done. Qed.

(** The search in the insert table, if there is one. *)
Lemma seek_inserted tid s ct C D I t cols i ix lo hi :
  let tbs := ts_blob_store (mt_tx_state s) in
  tx_view tid s ct C D I → insert_table tid s ct t → tbl_inv (H:=H) es rt mT TX_STATE t (cs_page_pool (mt_committed_state s)) tbs I →
  get_index_by_cols t cols = Some (i, ix) → (i, ix) ∈ tb_indexes t → is_direct (ix_idx ix) = false → bad_range lo hi = false →
  bound_all (λ v, typed [] (ix_key_type ix) v ∧ not_max v) lo → bound_all (λ v, typed [] (ix_key_type ix) v ∧ not_max v) hi →
  ∃ o ks, index_seek_by_cols (E:=DatastoreError) (bt_get (ts_insert_tables (mt_tx_state s)) tid) tbs cols lo hi = Ok o ∧
    (∀ rows, match o with Some inserted => inserted ++ rows | None => rows end = map (row_at_key TX_STATE t tbs) ks ++ rows) ∧
    NoDup ks ∧ ∀ k, k ∈ ks ↔ ∃ v, I !! k = Some v ∧ in_range lo hi (row_key (ix_indexed_columns ix) v) = true.
Proof using Hrt Hnr Hsize FLawI.
  intros tbs Hv Ht Hinv Hg Hin Hd Hbad Hlo Hhi. unfold insert_table in Ht. unfold index_seek_by_cols.
  destruct (bt_get (ts_insert_tables (mt_tx_state s)) tid) as [t0|] eqn:Hi.
  - subst t0. rewrite Hg. destruct (seek_range_ok es rt Hrt Hnr Hsize mT TX_STATE (E:=DatastoreError) t _ _ I i ix lo hi Hinv Hin Hd Hbad Hlo Hhi)
      as (ks & -> & Hnd & Hks). by eexists _, ks.
  - exists None, []. split_and!; [done|done|constructor|]. rewrite (tw_no_inserts _ _ _ _ _ _ _ _ _ _ Hv Hi). intros k. rewrite elem_of_nil.
    setoid_rewrite lookup_empty. naive_solver.
Qed.

(** C10. Reading by columns in a transaction: the rows are those that it sees and
    whose projection is in the range, each once, by a scan when no index has
    these columns, and otherwise by the index when it is a tree, the bounds are
    of its key type and not the greatest value there is, and the range is not
    inverted.  A direct index leaves keys out
    ([range_skips_keys]), and an inverted range of a tree panics. *)
Theorem iter_by_col_range_view tid s ct C D I cols lo hi :
  tx_view tid s ct C D I → col_list_ok cols → Forall (λ c, 0 ≤ c < len es) (col_list_iter cols) →
  (∀ i ix, get_index_by_cols ct cols = Some (i, ix) → is_direct (ix_idx ix) = false ∧ bad_range lo hi = false ∧
     bound_all (λ v, typed [] (ix_key_type ix) v ∧ not_max v) lo ∧ bound_all (λ v, typed [] (ix_key_type ix) v ∧ not_max v) hi) →
  ∃ rows, iter_by_col_range s tid cols lo hi = Ok rows ∧ shows C D I (λ v, in_range lo hi (row_key cols v) = true) rows.
Proof using Hrt Hnr Hsize LawI FLawI.
  intros Hv Hok Hc Hix. pose proof Hv as [W1 (t & dt & Ht & Hdt & [X1 X2 X3 X4 X5 X6 X7 X8 X9] & Hst) W3 W4 W5 W6 W7]. cbn [fst snd] in *. pose proof X1 as [Xc Xl].
  assert (W5' : ∀ ix i, (i, ix) ∈ tb_indexes ct → col_list_ok (ix_indexed_columns ix)) by (intros ix i Hin; rewrite Forall_forall in W5; exact (W5 _ Hin)).
  unfold iter_by_col_range. unfold index_seek_by_cols at 1. rewrite W1. pose proof (twins_by_cols _ _ cols X8) as Htw.
  destruct (get_index_by_cols ct cols) as [[i ix]|]; cbn [rbind].
  - destruct (get_index_by_cols t cols) as [[i' ix']|] eqn:Hg; [|done]. destruct Htw as (Htw & Hin & Hin' & Heq). cbn [snd] in Heq.
    destruct (Hix i ix eq_refl) as (Hd & Hbad & Hlo & Hhi).
    destruct (seek_range_ok es rt Hrt Hnr Hsize mC COMMITTED_STATE (E:=DatastoreError) ct _ _ C i ix lo hi X1 Hin Hd Hbad Hlo Hhi) as (ks & -> & Hnd & Hks).
    cbn [rbind]. assert (Hkt : ix_key_type ix' = ix_key_type ix) by apply Htw.
    destruct (seek_inserted tid s ct C D I t cols i' ix' lo hi) as (o & ks' & -> & Ho & Hnd' & Hks'); try done;
      [exact (eq_trans (twin_direct _ _ Htw) Hd)|by rewrite Hkt..|].
    cbn [rbind]. unfold combine_range_index_iters. rewrite (not_deleted_ok tid s ct C D I ks Hv); [|intros k (v & HC & _)%Hks; by eapply elem_of_dom_2].
    cbn [rbind]. eexists. split; [done|]. eapply (shows_rows ct _ _ t _ C D I _ (filter (λ k, k ∉ D) ks) ks');
      [exact X1|exact X2|by apply NoDup_filter|done| | |].
    + intros k. rewrite list_elem_of_filter, Hks. setoid_rewrite (row_key_eq _ _ _ (W5' ix i Hin) Hok Heq). naive_solver.
    + intros k. rewrite Hks'. destruct (twin_facts _ _ Htw) as [_ Hrk]. cbn [snd] in Hrk. setoid_rewrite Hrk.
      by setoid_rewrite (row_key_eq _ _ _ (W5' ix i Hin) Hok Heq).
    + rewrite Ho. apply Permutation_app_comm.
  - destruct (tx_iter_ok tid s ct C D I Hv) as (t' & ks & ks' & -> & Hph & N1 & K1 & _ & N2 & K2 & _). cbn [rbind].
    destruct (scan_by_col_range_ok (E:=DatastoreError) mT TX_STATE t' _ _ I cols lo hi ks' [] [] Hph) as (kt & Hkt & Ht1 & Ht2); [|done|done|].
    { intros k (v & HI & _)%K2. by eapply elem_of_dom_2. }
    rewrite !app_nil_r in Hkt.
    assert (Hdom : ∀ k, k ∈ ks → k ∈ dom C) by (intros k (v & HC & _)%K1; by eapply elem_of_dom_2).
    destruct (scan_by_col_range_ok (E:=DatastoreError) mC COMMITTED_STATE ct _ _ C cols lo hi ks _ _ Xc Hdom Hc Hkt) as (kc & Hkc & Hc1 & Hc2).
    rewrite Hkc. eexists. split; [done|]. eapply (shows_rows ct _ _ t' _ C D I _ kc kt); [exact X1|exact Hph|by apply Hc1|by apply Ht1| | |done].
    + intros k. rewrite Hc2, K1. naive_solver.
    + intros k. rewrite Ht2, K2. naive_solver.
Qed.
End rows.

(** ** Examples *)

Module Examples.
#[local] Existing Instances BlobStore.Examples.last32_hash ValueOrd.Examples.bits_ord ValueOrd.Examples.bits_ord_laws.
#[local] Existing Instances PagesThm.Examples.list_queue PagesThm.Examples.list_queue_laws RowHash.Examples.transcript_rows.
Import PagesThm.Examples TableThm.Examples TxThm.Examples.

Local Abbreviation H := (list byte) (only parsing).
Local Abbreviation laws f := (f es rt BflatnThm.Examples.rt_row eq_refl es_size ∅ ∅) (only parsing).

Lemma row_seen p v : sees_at {[place := val]} ∅ ∅ p v ↔ p = ptr_of COMMITTED_STATE place ∧ v = val.
Proof.
  split.
  - intros [(k & -> & [<- <-]%lookup_singleton_Some & _)|(k & _ & Hk)]; [done|]. by rewrite lookup_empty in Hk.
  - intros [-> ->]. left. exists place. split; [done|]. split; [apply lookup_singleton_eq|apply not_elem_of_empty].
Qed.

(** The committed row is read. *)
Lemma tx_read_view_witness : ∃ t pool bs r, let s := begun t pool bs in
  tx_get s 1 (ptr_of COMMITTED_STATE place) = Ok (Some r) ∧ rr_to_product_value (E:=unit) r = Ok val ∧
  ∃ rows, tx_iter s 1 = Ok rows ∧ shows {[place := val]} ∅ ∅ (λ _, True) rows.
Proof.
  destruct row_view as (t & pool & bs & Hv & _). exists t, pool, bs.
  destruct (laws tx_read_view 1 (begun t pool bs) t {[place := val]} ∅ ∅ Hv) as ((rows & Hi & Hs & _) & Hg & _).
  - rewrite map_size_singleton, map_size_empty. vm_compute. discriminate.
  - destruct (Hg (ptr_of COMMITTED_STATE place) val) as (r & Hr & _ & Hval); [by apply row_seen|]. exists r. split; [exact Hr|]. split; [exact Hval|].
    exists rows. split; [exact Hi|exact Hs].
Defined.

(** It is found by its number, in the index. *)
Lemma iter_by_col_range_view_witness : ∃ t pool bs r, let s := begun t pool bs in
  ∃ rows, iter_by_col_eq s 1 (Inline 3) (VInt U32 7) = Ok rows ∧ r ∈ rows ∧ rr_to_product_value (E:=unit) r = Ok val.
Proof.
  destruct row_view as (t & pool & bs & Hv & Hix & _). exists t, pool, bs.
  destruct (laws iter_by_col_range_view 1 (begun t pool bs) t {[place := val]} ∅ ∅ (Inline 3) (Included (VInt U32 7)) (Included (VInt U32 7)) Hv)
    as (rows & Hi & _ & Hs).
  - vm_compute. split; [split; [discriminate|reflexivity]|reflexivity].
  - vm_compute. constructor; [split; [discriminate|reflexivity]|constructor].
  - intros i ix Hg. unfold get_index_by_cols in Hg. rewrite Hix in Hg. injection Hg as <- <-. split; [reflexivity|]. split; [reflexivity|].
    assert (Hb : typed [] (TInt U32) (VInt U32 7) ∧ not_max (VInt U32 7)) by (split; [exact TableIndex.Examples.id_typed|intros k z [= <- <-]; reflexivity]).
    split; exact Hb.
  - destruct (proj1 (Hs (ptr_of COMMITTED_STATE place) val)) as (r & Hr & _ & Hval); [split; [by apply row_seen|reflexivity]|].
    exists r, rows. split; [exact Hi|]. split; [exact Hr|exact Hval].
Defined.

(** When no value can be generated for the row, it stays in the pages of the
    insert table: it is not counted and in no index, but it is read. *)
Definition numbered : Table := with_schema users (schema_with_sequences schema [{| sq_sequence_id := 9; sq_col_pos := 0 |}]).
Definition zero_row : list byte :=
  match to_vec (VProduct (MkProductValue [VInt U32 0; VString []; VSum (MkSumValue 0 (VProduct (MkProductValue [])))])) with Ok b => b | _ => [] end.
Lemma failed_generation_leaves_row :
  let '(r, s) := tx_insert (H:=H) 1 zero_row (begun numbered (pool_new ([] : list Page)) (∅ : HashMapBlobStore)) in
  (match r with Err e => Some e | _ => None end, match tx_iter s 1 with Ok rows => Some (length rows) | _ => None end, tx_table_row_count (E:=unit) s 1) =
  (Some (SequenceNotFound 9), Some 1%nat, Ok (Some 0)).
Proof. vm_compute. reflexivity. Qed.
End Examples.
