(* ===== verification/TxCommit.v ===== *)
(** * Commits

    The changes of a transaction become part of the committed state: the rows
    that it deleted are deleted, and those that it inserted are inserted.  This
    is shown for one table, and then for all tables of the database. *)

From Stdlib Require Import ZArith Lia.
From stdpp Require Import sorting gmap gmultiset list strings.
From S2P Require Import Prelude Buffer Sats Bsatn Mem Indexes VarLen BlobStore Page PageInv PageRows PageRead PageThm Pages PointerMap Layout RowTypeVisitor BflatnTo BflatnFrom BflatnRepr BflatnThm PagesThm StaticLayout RowEq ValueHash RowHash StaticValidator ColList RowRef ValueOrd BTreeMap IndexMaps TableIndex Table TableRows TableThm RowInsert DeleteTable Sequence TxState MutTx TxTable TxRows TxUpdate TxThm TxRead.
Local Open Scope Z_scope.

Section rows.
Context {FloatI : FloatOrd} {FLawI : FloatOrdLaws}.
Context {Q B H : Type} {QueueI : PageQueue Q} {QLawI : PageQueueLaws Q}.
Context {BsI : BlobStore B} {HashI : Blake3} {LawI : BlobStoreLaws B} {HasherI : RowHasher H}.
Context (es : list ProductTypeElement) (rt : RowTypeLayout).
Context (Hrt : row_type_layout (E:=unit) es = Ok rt) (Hnr : contains_refs (TProduct es) = false).
Context (Hsize : ty_size (TProduct es) ≤ PAGE_DATA_SIZE) (Hcode : len (visitor_code rt) ≤ u16_MAX).
Context (mC : gmultiset (list byte)).
Implicit Types (t ct tx_t : Table) (pool : PagePool Q) (bs cbs tbs : B) (dt : DeleteTable).
Implicit Types (A C I P : gmap (nat * Z) ProductValue) (D : gset (nat * Z)) (k : nat * Z) (val : ProductValue).
Local Abbreviation cinv := (tbl_inv (H:=H) es rt mC COMMITTED_STATE) (only parsing).

(** ** The rows of a table *)

(** The table has room for all the rows. *)
Definition key_bytes (vals : list ProductValue) (ix : TableIndex) : Z :=
  foldr Z.add 0 (map (λ v, entry_bytes (ix_idx ix) (row_key (ix_indexed_columns ix) v)) vals).
Definition rows_room t A (vals : list ProductValue) : Prop :=
  colliders t + len vals ≤ 2 ^ 32 ∧ Z.of_nat (size A) + len vals ≤ u64_MAX ∧
  Forall (λ e, total_bytes (ix_idx e.2) (row_entries COMMITTED_STATE (ix_indexed_columns e.2) A) + key_bytes vals e.2 ≤ u64_MAX) (tb_indexes t).

Lemma key_bytes_nonneg vals ix : 0 ≤ key_bytes vals ix.
Proof using.
  clear Hcode Hsize. unfold key_bytes. induction vals as [|v vals IH]; [done|]. cbn. pose proof (entry_bytes_nonneg (ix_idx ix) (row_key (ix_indexed_columns ix) v)). lia.
Qed.

Lemma rows_room_first t A v vals : rows_room t A (v :: vals) → room COMMITTED_STATE t A v.
Proof using.
  clear Hcode Hsize. unfold rows_room, room, len. cbn [length]. intros (H1 & H2 & H3). split_and!; [|lia|].
  - intros pm Hpm. unfold colliders, len in *. rewrite Hpm in H1. lia.
  - eapply Forall_impl; [exact H3|]. intros e. unfold index_room, key_bytes. cbn. pose proof (key_bytes_nonneg vals e.2). unfold key_bytes in *. lia.
Qed.

Lemma rows_room_insert t t' A k v vals : grown 1 t t' → A !! k = None → rows_room t A (v :: vals) → rows_room t' (<[k := v]> A) vals.
Proof using.
  clear Hcode Hsize. unfold rows_room, len. cbn [length]. intros [G1 G2 G3 G4 G5] Hk (H1 & H2 & H3). split_and!; [lia|rewrite map_size_insert_None by done; lia|].
  eapply Forall2_Forall_r; [exact G1|]. eapply Forall_impl; [exact H3|]. intros e He e' [_ [= Hc _ Hcols]]. destruct (clone_same _ _ Hc) as (_ & Hd & _).
  rewrite (entries_insert COMMITTED_STATE _ A k v Hk). revert He. unfold key_bytes, total_bytes, entry_bytes. cbn. rewrite Hcols, Hd. cbn. lia.
Qed.

Lemma rows_room_delete t t' A k v vals : grown 0 t t' → A !! k = Some v → rows_room t A vals → rows_room t' (delete k A) vals.
Proof using.
  clear Hcode Hsize. unfold rows_room. intros [G1 G2 G3 G4 G5] Hk (H1 & H2 & H3). split_and!; [lia|rewrite map_size_delete_Some by (by exists v); lia|].
  eapply Forall2_Forall_r; [exact G1|]. eapply Forall_impl; [exact H3|]. intros e He e' [_ [= Hc _ Hcols]]. destruct (clone_same _ _ Hc) as (_ & Hd & _).
  cbn beta in He. rewrite (index_room_delete COMMITTED_STATE A k v e.2 Hk) in He. pose proof (entry_bytes_nonneg (ix_idx e.2) (row_key (ix_indexed_columns e.2) v)) as Hn.
  revert He. unfold key_bytes, total_bytes, entry_bytes in *. rewrite Hcols, Hd. lia.
Qed.

Lemma delete_rows_ok {E} ct pool cbs C ks :
  cinv ct pool cbs C → NoDup ks → (∀ k, k ∈ ks → k ∈ dom C) →
  ∃ vals ct' cbs' C', delete_rows (H:=H) (E:=E) (map (ptr_of COMMITTED_STATE) ks) (ct, pool, cbs) = (Ok vals, (ct', pool, cbs')) ∧
    cinv ct' pool cbs' C' ∧ grown 0 ct ct' ∧ C' = filter (λ e, e.1 ∉ ks) C ∧ Forall2 (λ k v, C !! k = Some v) ks vals ∧
    (∀ news, rows_room ct C news → rows_room ct' C' news).
Proof using Hrt Hnr Hsize LawI FLawI.
  intros Hinv Hnd. revert ct cbs C Hinv. induction Hnd as [|k ks Hk _ IH]; intros ct cbs C Hinv Hks.
  - exists [], ct, cbs, C. split_and!; [done|done|by apply grown_refl| |constructor|done].
    symmetry. apply map_filter_id. intros k v _. apply not_elem_of_nil.
  - destruct (proj1 (elem_of_dom C k) (Hks k ltac:(by left))) as [v Hv]. cbn [map delete_rows].
    destruct (table_delete_row es rt Hrt Hnr Hsize mC COMMITTED_STATE (E:=E) ct pool cbs C k v (rr_to_product_value (E:=E)) Hinv Hv)
      as (t1 & bs1 & Hd & Hinv1 & Hg). rewrite (sbind_Ok _ _ _ _ _ Hd).
    rewrite (sbind_Ok (sres _) _ _ (t1, pool, bs1) v) by (unfold sres; by rewrite (phys_read es rt Hrt Hnr Hsize mC COMMITTED_STATE ct pool cbs C k v (proj1 Hinv) Hv)).
    destruct (IH t1 bs1 (delete k C) Hinv1) as (vals & ct' & cbs' & C' & Hr & Hinv' & Hg' & -> & Hvals & Hroom).
    { intros k' Hk'. rewrite dom_delete_L. apply elem_of_difference. split; [apply Hks; by right|]. intros ->%elem_of_singleton. done. }
    rewrite (sbind_Ok _ _ _ _ _ Hr). eexists _, ct', cbs', _. split; [done|]. split; [exact Hinv'|]. split; [exact (grown_trans 0 0 _ _ _ Hg Hg')|]. split_and!.
    + apply map_eq. intros j. apply option_eq. intros x. rewrite !map_lookup_filter_Some, lookup_delete_Some, not_elem_of_cons. cbn. naive_solver.
    + constructor; [done|]. eapply Forall2_impl; [exact Hvals|]. by intros j x [_ Hx]%lookup_delete_Some.
    + intros news Hn. by eapply Hroom, rows_room_delete.
Qed.

(** The rows that are inserted are new, and have other keys than all others. *)
Definition new_rows ct C (vals : list ProductValue) : Prop :=
  NoDup vals ∧ (∀ v, v ∈ vals → typed [] (TProduct es) (VProduct v) ∧ fits rt v) ∧
  (∀ k v, v ∈ vals → C !! k ≠ Some v) ∧ (∀ k v v', v ∈ vals → C !! k = Some v' → apart (tb_indexes ct) v v') ∧
  (∀ v v', v ∈ vals → v' ∈ vals → v ≠ v' → apart (tb_indexes ct) v v').

Lemma apart_same l l' val val' : Forall2 same_index l l' → apart l val val' → apart l' val val'.
Proof using.
  intros Hs Ha. unfold apart in *. eapply Forall2_Forall_r; [exact Hs|]. eapply Forall_impl; [exact Ha|].
  intros e He e' [_ [= Hc _ Hcols]]. destruct (clone_same _ _ Hc) as (Hu & _). unfold ix_is_unique in *. rewrite Hu, Hcols. exact He.
Qed.

Lemma insert_rows_ok {E} ct pool cbs C (rows : list (RowRef B)) vals :
  cinv ct pool cbs C → Forall2 (λ r v, rr_to_product_value (E:=E) r = Ok v) rows vals → new_rows ct C vals → rows_room ct C vals →
  collision_free (mC ⊎ large (map_objects C) ⊎ large (concat (map product_objects vals))) →
  (∃ ct' pool' cbs' C', insert_rows (H:=H) (E:=E) rows (ct, pool, cbs) = (Ok vals, (ct', pool', cbs')) ∧
     cinv ct' pool' cbs' C' ∧ grown (len vals) ct ct' ∧ C ⊆ C' ∧ map_objects C' ≡ₚ map_objects C ++ concat (map product_objects vals) ∧
     (∀ v, (∃ k, C' !! k = Some v) ↔ (∃ k, C !! k = Some v) ∨ v ∈ vals)) ∨
  (∃ s, insert_rows (H:=H) (E:=E) rows (ct, pool, cbs) = (Panic, s) ∧ num_pages s.1.1 = PageIndex_MAX + 1).
Proof using Hrt Hnr Hsize Hcode LawI FLawI.
  intros Hinv Hrows. revert ct pool cbs C Hinv. induction Hrows as [|r v rows vals Hr _ IH]; intros ct pool cbs C Hinv Hnew Hroom Hfree.
  - left. exists ct, pool, cbs, C. split_and!; [done|done|by apply grown_refl|done|by rewrite app_nil_r|]. intros v. rewrite elem_of_nil. naive_solver.
  - cbn [insert_rows]. rewrite (sbind_Ok (sres _) _ _ (ct, pool, cbs) v) by (unfold sres; by rewrite Hr).
    pose proof Hnew as (N1 & N2 & N3 & N4 & N5). apply NoDup_cons in N1 as [Hv N1]. destruct (N2 v ltac:(by left)) as [Ht Hf].
    destruct (table_insert_cases es rt Hrt Hnr Hsize Hcode mC COMMITTED_STATE ltac:(done) ct pool cbs C v Hinv Ht Hf)
      as [(k & t1 & pool1 & bs1 & Hi & Hinv1 & Hk & _ & _ & Hg)|[(e & t1 & pool1 & bs1 & _ & He & _)|[Hi Hn]]].
    { eapply collision_free_weaken; [|exact Hfree]. cbn [map concat]. rewrite large_app'. clear. multiset_solver. }
    { by eapply rows_room_first. }
    + rewrite (sbind_Ok _ _ _ (t1, pool1, bs1) (hash_of (H:=H) ct v, row_at_key COMMITTED_STATE t1 bs1 k)) by (unfold sunwrap; by rewrite Hi).
      assert (Hap : ∀ w w', apart (tb_indexes ct) w w' → apart (tb_indexes t1) w w') by (intros w w'; apply apart_same, Hg).
      assert (Hobj : map_objects (<[k := v]> C) ≡ₚ map_objects C ++ product_objects v) by (rewrite map_objects_insert by done; apply Permutation_app_comm).
      destruct (IH t1 pool1 bs1 (<[k := v]> C) Hinv1) as [(ct' & pool' & cbs' & C' & Hrs & Hinv' & Hg' & Hsub & Hobj' & Hel)|(s & Hrs & Hn)].
      * split_and!; [done|intros w Hw; apply N2; by right| | |].
        -- intros k' w Hw [[_ ->]|[_ HC]]%lookup_insert_Some; [done|]. by eapply N3; [right|].
        -- intros k' w w' Hw [[_ ->]|[_ HC]]%lookup_insert_Some; apply Hap; [apply N5; [by right|by left|by intros ->]|eapply N4; [by right|done]].
        -- intros w w' Hw Hw' Hne. apply Hap, N5; [by right|by right|done].
      * by eapply rows_room_insert.
      * eapply collision_free_weaken; [|exact Hfree]. rewrite (large_perm' _ _ Hobj). cbn [map concat]. rewrite !large_app'. clear. multiset_solver.
      * left. rewrite (sbind_Ok _ _ _ _ _ Hrs). exists ct', pool', cbs', C'. split_and!; [done|done| | | |].
        -- replace (len (v :: vals)) with (1 + len vals) by (unfold len; cbn [length]; lia). by eapply grown_trans.
        -- etrans; [by apply insert_subseteq|done].
        -- rewrite Hobj', Hobj. cbn [map concat]. by rewrite app_assoc.
        -- intros w. rewrite Hel, elem_of_cons. split.
           ++ intros [(k' & [[_ ->]|[_ HC]]%lookup_insert_Some)|Hw]; [right; by left|left; by exists k'|right; by right].
           ++ intros [(k' & HC)|[->|Hw]]; [left; exists k'; rewrite lookup_insert_ne; [done|congruence]|left; exists k; apply lookup_insert_eq|by right].
      * right. exists s. split; [|done]. unfold sbind at 1. by rewrite Hrs.
    + exfalso. destruct e as [p|e|u]; [|done|].
      * destruct He as (k & Hk & _). by eapply (N3 k v); [left|].
      * destruct He as (i & ix & Hin & Hu & _ & _ & (k & v' & Hk & Hat & _) & _).
        pose proof (N4 k v v' ltac:(by left) Hk) as Ha. unfold apart in Ha. rewrite Forall_forall in Ha. specialize (Ha _ Hin Hu). cbn [snd] in Ha. congruence.
    + right. exists (ct, pool, cbs). split; [|done]. unfold sbind at 1, sunwrap. by rewrite Hi.
Qed.

(** ** The rows of a transaction *)

Lemma key_bytes_perm vals vals' ix : vals ≡ₚ vals' → key_bytes vals ix = key_bytes vals' ix.
Proof using. clear Hcode Hsize. unfold key_bytes. induction 1; cbn; lia. Qed.
Lemma rows_room_perm t A vals vals' : vals ≡ₚ vals' → rows_room t A vals → rows_room t A vals'.
Proof using.
  intros Hp (H1 & H2 & H3). unfold rows_room, len in *. rewrite <-Hp. split_and!; [done|done|]. eapply Forall_impl; [exact H3|]. intros e.
  cbn beta. by rewrite (key_bytes_perm _ _ e.2 Hp).
Qed.

(** The values of the rows, in an order. *)
Lemma values_of (I : gmap (nat * Z) ProductValue) ks : NoDup ks → (∀ k, k ∈ ks ↔ k ∈ dom I) →
  ∃ vals, Forall2 (λ k v, I !! k = Some v) ks vals ∧ vals ≡ₚ map snd (map_to_list I).
Proof using.
  intros Hnd Hks. assert (∃ vals, Forall2 (λ k v, I !! k = Some v) ks vals) as [vals Hv].
  { clear Hnd. assert (Hsub : ∀ k, k ∈ ks → k ∈ dom I) by (intros k; by apply Hks). clear Hks. induction ks as [|k ks IH]; [by exists []; constructor|].
    destruct (proj1 (elem_of_dom I k) (Hsub k ltac:(by left))) as [v Hk]. destruct IH as [vals IH]; [intros k' Hk'; apply Hsub; by right|].
    exists (v :: vals). by constructor. }
  exists vals. split; [done|]. assert (Hz : zip ks vals ≡ₚ map_to_list I).
  { apply NoDup_Permutation; [|apply NoDup_map_to_list|].
    - apply (NoDup_fmap_1 fst). by rewrite fst_zip by (by rewrite (Forall2_length _ _ _ Hv)).
    - intros [k v]. rewrite elem_of_map_to_list. split.
      + intros (j & Hj)%list_elem_of_lookup. apply lookup_zip_Some in Hj as [Hj1 Hj2]. eapply (Forall2_lookup_lr _ _ _ j _ _ Hv); done.
      + intros Hk. assert (Hin : k ∈ ks) by by apply Hks; eapply elem_of_dom_2. apply list_elem_of_lookup in Hin as [j Hj].
        destruct (Forall2_lookup_l _ _ _ _ _ Hv Hj) as (v' & Hv' & Hk'). apply list_elem_of_lookup. exists j. apply lookup_zip_Some. split; [done|congruence]. }
  rewrite <-Hz. change (map snd (zip ks vals)) with (snd <$> zip ks vals). by rewrite snd_zip by (by rewrite (Forall2_length _ _ _ Hv)).
Qed.

Lemma new_rows_ok mT ct cbs t pool tbs dt C D I ks ct1 vals :
  tx_inv (H:=H) es rt mC mT I ct cbs (t, pool, tbs, dt) C D I → map_Forall (λ _ v, fits rt v) I → grown 0 ct ct1 →
  NoDup ks → Forall2 (λ k v, I !! k = Some v) ks vals → new_rows ct1 (filter (λ e, e.1 ∉ D) C) vals.
Proof using FLawI.
  intros Hinv Hf Hg Hnd Hv. pose proof Hinv as [X1 X2 X3 X4 X5 X6 X7 X8 X9]. cbn [fst snd] in *.
  assert (Hel : ∀ v, v ∈ vals → ∃ k, I !! k = Some v) by (intros v Hin; apply list_elem_of_lookup in Hin as [j Hj]; destruct (Forall2_lookup_r _ _ _ _ _ Hv Hj) as (k & _ & ?); by exists k).
  assert (Hap : ∀ w w', apart (tb_indexes ct) w w' → apart (tb_indexes ct1) w w') by (intros w w'; apply apart_same, Hg).
  split_and!.
  - apply NoDup_alt. intros i j v Hi Hj. destruct (Forall2_lookup_r _ _ _ _ _ Hv Hi) as (k & Hk & HI). destruct (Forall2_lookup_r _ _ _ _ _ Hv Hj) as (k' & Hk' & HI').
    rewrite (tv_set _ _ _ _ X3 k k' v HI HI') in Hk. by eapply NoDup_lookup.
  - intros v (k & HI)%Hel. split; [by apply (ph_typed _ _ _ _ _ _ _ _ X2 k)|by eapply Hf].
  - intros k v (k' & HI)%Hel [HC _]%map_lookup_filter_Some. by eapply X6.
  - intros k v v' (k' & HI)%Hel [HC HD]%map_lookup_filter_Some. apply Hap. by eapply X7.
  - intros v v' (k & HI)%Hel (k' & HI')%Hel Hne. apply Hap, (apart_twins _ _ _ _ X8).
    eapply (rows_apart es rt mT TX_STATE t pool tbs I k k'); [by split|done|done|]. intros ->. congruence.
Qed.
End rows.
