(* ===== verification/TxDb.v ===== *)
(** * The database

    The tables of a database with the changes of one transaction to each of
    them: what is done to one table leaves the others as they are, and a commit
    makes all changes. *)

From Stdlib Require Import ZArith Lia.
From stdpp Require Import sorting gmap gmultiset list strings.
From S2P Require Import Prelude Buffer Sats Bsatn Mem Indexes VarLen BlobStore Page PageInv PageRows PageRead PageThm Pages PointerMap Layout RowTypeVisitor BflatnTo BflatnFrom BflatnRepr BflatnThm PagesThm StaticLayout RowEq ValueHash RowHash StaticValidator ColList RowRef ValueOrd BTreeMap IndexMaps TableIndex Table TableRows TableThm RowInsert DeleteTable Sequence TxState MutTx TxTable TxRows TxUpdate TxThm TxRead TxCommit.
Local Open Scope Z_scope.

Section database.
Context {FloatI : FloatOrd} {FLawI : FloatOrdLaws}.
Context {Q B H : Type} {QueueI : PageQueue Q} {QLawI : PageQueueLaws Q}.
Context {BsI : BlobStore B} {HashI : Blake3} {LawI : BlobStoreLaws B} {HasherI : RowHasher H}.
Local Abbreviation tx := (@MutTxId Q B) (only parsing).
Local Abbreviation committed := (@CommittedState Q B) (only parsing).
Local Abbreviation rows := (gmap (nat * Z) ProductValue) (only parsing).
Implicit Types (s : tx) (cs : committed) (tid : Z).

Lemma no_key_none {V} (l : list (Z * V)) j : j ∉ map fst l → bt_get l j = None.
Proof using.
  intros Hn. destruct (bt_get l j) as [x|] eqn:Hg; [|done]. destruct Hn. apply list_elem_of_fmap. exists (j, x). split; [done|]. by apply get_index_in.
Qed.

(** ** Tables *)

(** What is asked of the type of the rows. *)
Record type_ok (es : list ProductTypeElement) (rt : RowTypeLayout) : Prop := {
  ty_layout : row_type_layout (E:=unit) es = Ok rt;
  ty_no_refs : contains_refs (TProduct es) = false;
  ty_small : ty_size (TProduct es) ≤ PAGE_DATA_SIZE;
  ty_code : len (visitor_code rt) ≤ u16_MAX;
  ty_few : all_list (λ e, few_variants (pel_ty e)) (row_elements rt);
  ty_vcode : validator_code rt ≤ u16_MAX;
}.

(** A table, its committed rows, and the changes of the transaction. *)
Record TableView := {
  vw_es : list ProductTypeElement;
  vw_rt : RowTypeLayout;
  vw_table : Table;
  vw_rows : rows;
  vw_deletes : gset (nat * Z);
  vw_inserts : rows;
}.
Definition with_changes (v : TableView) D I : TableView :=
  {| vw_es := vw_es v; vw_rt := vw_rt v; vw_table := vw_table v; vw_rows := vw_rows v; vw_deletes := D; vw_inserts := I |}.
Implicit Types (db : gmap Z TableView) (v : TableView).

(** The large objects in the rows of all tables, and in those of the others. *)
Definition objects {V} (f : V → rows) (db : gmap Z V) : list (list byte) := map_to_list db ≫= λ e, map_objects (f e.2).
Definition others {V} (f : V → rows) (db : gmap Z V) tid : gmultiset (list byte) := large (objects f (delete tid db)).

Lemma objects_insert {V} (f : V → rows) (db : gmap Z V) tid x : db !! tid = None →
  objects f (<[tid := x]> db) ≡ₚ map_objects (f x) ++ objects f db.
Proof using. intros Hn. unfold objects. by rewrite map_to_list_insert. Qed.

Lemma others_total {V} (f : V → rows) (db : gmap Z V) tid x : db !! tid = Some x →
  others f db tid ⊎ large (map_objects (f x)) = large (objects f db).
Proof using.
  intros Hx. unfold others. rewrite <-(insert_delete_id db tid x Hx) at 2.
  rewrite (large_perm' _ _ (objects_insert f (delete tid db) tid x (lookup_delete_eq _ _))), large_app'. clear. multiset_solver.
Qed.
Lemma others_insert {V} (f : V → rows) (db : gmap Z V) tid x : others f (<[tid := x]> db) tid = others f db tid.
Proof using. unfold others. by rewrite delete_insert_eq. Qed.
Lemma objects_change {V} (f : V → rows) (db : gmap Z V) tid x y : db !! tid = Some x → f y = f x → objects f (<[tid := y]> db) ≡ₚ objects f db.
Proof using.
  intros Hx Hy. rewrite <-(insert_delete_eq db tid y), objects_insert, Hy by apply lookup_delete_eq.
  rewrite <-objects_insert by apply lookup_delete_eq. by rewrite insert_delete_id.
Qed.
Lemma others_same {V} (f : V → rows) (db : gmap Z V) tid x y j : db !! tid = Some x → f y = f x → others f (<[tid := y]> db) j = others f db j.
Proof using.
  intros Hx Hy. destruct (decide (j = tid)) as [->|Hne]; [apply others_insert|]. unfold others. rewrite delete_insert_ne by done.
  apply large_perm', (objects_change f _ tid x y); [by rewrite lookup_delete_ne|done].
Qed.

(** ** Transactions *)

Local Abbreviation view_of db tid s v C D I :=
  (tx_view (H:=H) (vw_es v) (vw_rt v) (others vw_rows db tid) (others vw_inserts db tid) tid s (vw_table v) C D I) (only parsing).

(** The transaction has changed tables of the database only, as their views say. *)
Record tx_db s db : Prop := {
  xd_inserts_ok : bt_ok (ts_insert_tables (mt_tx_state s));
  xd_deletes_ok : bt_ok (ts_delete_tables (mt_tx_state s));
  xd_inserts : ∀ j, is_Some (bt_get (ts_insert_tables (mt_tx_state s)) j) → is_Some (db !! j);
  xd_deletes : ∀ j, is_Some (bt_get (ts_delete_tables (mt_tx_state s)) j) → is_Some (db !! j);
  xd_types : ∀ tid v, db !! tid = Some v → type_ok (vw_es v) (vw_rt v);
  xd_views : ∀ tid v, db !! tid = Some v → view_of db tid s v (vw_rows v) (vw_deletes v) (vw_inserts v);
}.

(** What is done to one table leaves the view of another as it is. *)
Lemma tx_view_frame es rt mC mT mT' tid j s s' ct C D I :
  tx_view (H:=H) es rt mC mT j s ct C D I → kept tid s s' → j ≠ tid →
  pool_ok (cs_page_pool (mt_committed_state s')) → holds (ts_blob_store (mt_tx_state s')) (mT' ⊎ large (map_objects I)) →
  tx_view (H:=H) es rt mC mT' j s' ct C D I.
Proof using.
  intros [W1 (t & dt & Ht & Hdt & [[Xc Xl] X2 X3 X4 X5 X6 X7 X8 X9] & Hst) W3 W4 W5 W6 W7] [K1 K2 K3 K4 K5 K6 K7 K8] Hj Hpool Hh.
  cbn [fst snd] in *. split; rewrite ?K1, ?K5, ?K6 by done; try done.
  exists t, dt. unfold insert_table, delete_table in *. rewrite K5, K6, K2 by done. split_and!; [done|done| |done]. split; cbn; try done.
  - split; [|done]. destruct (phys_holds _ _ _ _ _ _ _ _ Xc) as [Hc _]. by eapply phys_frame.
  - by eapply phys_frame.
Qed.

(** One of the tables is changed. *)
Lemma tx_db_step s s' db tid v D I :
  tx_db s db → db !! tid = Some v → kept tid s s' → view_of db tid s' v (vw_rows v) D I → tx_db s' (<[tid := with_changes v D I]> db).
Proof using.
  intros [X1 X2 X3 X4 X5 X6] Hv Hk Hview. set (v' := with_changes v D I). set (db' := <[tid := v']> db).
  assert (Hdom : ∀ j, is_Some (db !! j) → is_Some (db' !! j)) by (intros j; unfold db'; rewrite lookup_insert_is_Some; destruct (decide (tid = j)); auto).
  assert (Hc : ∀ j, others vw_rows db' j = others vw_rows db j) by (intros j; by eapply others_same).
  pose proof Hview as [_ (t & dt & _ & _ & [_ Hph _ _ _ _ _ _ _] & _) _ _ _ _ _]. cbn [fst snd] in Hph.
  destruct (phys_holds _ _ _ _ _ _ _ _ Hph) as [Hh Hpool].
  assert (Htot : others vw_inserts db tid ⊎ large (map_objects I) = large (objects vw_inserts db')).
  { rewrite <-(others_total vw_inserts db' tid v') by apply lookup_insert_eq. by unfold db'; rewrite others_insert. }
  split.
  - by apply (kp_inserts_ok _ _ _ Hk).
  - by apply (kp_deletes_ok _ _ _ Hk).
  - intros j Hj. destruct (decide (j = tid)) as [->|Hne]; [unfold db'; rewrite lookup_insert_eq; by eexists|]. apply Hdom, X3. by rewrite (kp_inserts _ _ _ Hk) in Hj.
  - intros j Hj. destruct (decide (j = tid)) as [->|Hne]; [unfold db'; rewrite lookup_insert_eq; by eexists|]. apply Hdom, X4. by rewrite (kp_deletes _ _ _ Hk) in Hj.
  - intros j w [[<- <-]|[_ Hw]]%lookup_insert_Some; [by apply (X5 tid v)|by eapply X5].
  - intros j w [[<- <-]|[Hne Hw]]%lookup_insert_Some.
    + rewrite Hc. unfold db'. rewrite others_insert. exact Hview.
    + rewrite Hc. eapply tx_view_frame; [by apply X6|exact Hk|done|done|].
      rewrite (others_total vw_inserts db' j w) by (unfold db'; by rewrite lookup_insert_ne). by rewrite <-Htot.
Qed.

(** The operation returns, also on an error, and afterwards all tables have
    views again, of which that of the table at hand has other changes. *)
Definition keeps_db {A} s db tid v (m : st tx DatastoreError A) : Prop :=
  ∃ r s' D I, m s = (r, s') ∧ returns r ∧ tx_db s' (<[tid := with_changes v D I]> db).

Lemma keeps_db_intro {A} s db tid v (m : st tx DatastoreError A) r s' D I :
  tx_db s db → db !! tid = Some v → m s = (r, s') → returns r → view_of db tid s' v (vw_rows v) D I → kept tid s s' → keeps_db s db tid v m.
Proof using. intros Hdb Hv Hm Hr Hview Hk. exists r, s', D, I. split_and!; [done|done|]. by apply (tx_db_step s). Qed.

(** C7. The operations of a transaction keep its database: they return, with a
    result or an error, and afterwards all tables have views again, of which
    only that of the table at hand has other changes.  This is so for insertions
    and updates of a table without sequences, with any bytes, and for deletions
    from any table, by value or of a row that is seen.  The decoded row, or the
    value to be deleted, must fit a page, and the counters of the insert table
    must have room for the row.  An insertion that fails to generate the value of
    a sequence is not among them: it leaves the row in the insert table only
    ([failed_generation_leaves_row]). *)
Theorem tx_db_kept s db tid v :
  tx_db s db → db !! tid = Some v →
  let insertable := tx_insertable (vw_es v) (vw_rt v) (others vw_rows db tid) (others vw_inserts db tid) (vw_rows v) (vw_inserts v) in
  (∀ row, sch_sequences (tb_schema (vw_table v)) = [] →
     (∀ val, row_bytes (vw_es v) (tb_inner (vw_table v)) row val → insertable val ∧ tx_room tid s (vw_table v) (vw_inserts v) val) →
     keeps_db s db tid v (tx_insert (H:=H) tid row) ∧ ∀ index_id, keeps_db s db tid v (tx_update (H:=H) tid index_id row)) ∧
  (∀ val, insertable val → keeps_db s db tid v (delete_by_row_value (H:=H) tid val)) ∧
  (∀ p val, sees_at (vw_rows v) (vw_deletes v) (vw_inserts v) p val → keeps_db s db tid v (tx_delete (H:=H) tid p)).
Proof using FLawI QLawI LawI.
  intros Hdb Hv ?. destruct (xd_types _ _ Hdb _ _ Hv) as [H1 H2 H3 H4 H5 H6]. pose proof (xd_views _ _ Hdb _ _ Hv) as Hview.
  split_and!; [intros row Hseq Hrow; split; [|intros i]|intros val Hval|intros p val Hp].
  - destruct (tx_insert_ok _ _ H1 H2 H3 H4 H5 H6 _ _ tid row s _ _ _ _ Hview Hseq Hrow) as [(?&?&?&?&s'&D&I&Hm&?&?&?&_)|(?&s'&Hm&?&?&_)]; by eapply keeps_db_intro.
  - destruct (tx_update_ok _ _ H1 H2 H3 H4 H5 H6 _ _ tid i row s _ _ _ _ Hview Hseq Hrow) as [(?&?&?&?&s'&D&I&?&?&?&Hm&?&?&?&?&?&?&?&_)|(?&s'&Hm&?&?&_)]; by eapply keeps_db_intro.
  - destruct (delete_by_row_value_ok _ _ H1 H2 H3 H4 _ _ tid val s _ _ _ _ Hview Hval) as [(?&s'&D&I&Hm&?&?&_)|(s'&?&Hm&?&?&_)]; by eapply keeps_db_intro.
  - destruct (proj1 (tx_delete_view _ _ H1 H2 H3 _ _ tid p s _ _ _ _ Hview) val Hp) as (s'&D&I&Hm&?&?&_). by eapply keeps_db_intro.
Qed.

(** A transaction begins with the committed rows. *)
Record cs_db cs db : Prop := {
  cd_types : ∀ tid v, db !! tid = Some v → type_ok (vw_es v) (vw_rt v);
  cd_tables : ∀ tid v, db !! tid = Some v → cs_tables cs !! tid = Some (vw_table v) ∧
    tbl_inv (H:=H) (vw_es v) (vw_rt v) (others vw_rows db tid) COMMITTED_STATE (vw_table v) (cs_page_pool cs) (cs_blob_store cs) (vw_rows v) ∧
    Forall (λ e, col_list_ok (ix_indexed_columns e.2)) (tb_indexes (vw_table v)) ∧ validator_ok (tb_inner (vw_table v));
}.

Lemma others_empty db tid : (∀ j v, db !! j = Some v → vw_inserts v = ∅) → others vw_inserts db tid = ∅.
Proof using.
  intros Hdb. unfold others, objects.
  assert (Hall : ∀ e, e ∈ map_to_list (delete tid db) → map_objects (vw_inserts e.2) = []).
  { intros [j v] [_ Hj]%elem_of_map_to_list%lookup_delete_Some. cbn. by rewrite (Hdb j v Hj). }
  replace (_ ≫= _) with (@nil (list byte)); [done|]. symmetry. revert Hall. induction (map_to_list (delete tid db)) as [|e l IH]; intros Hall; [done|].
  cbn. rewrite (Hall e) by by left. apply IH. intros e' He'. apply Hall. by right.
Qed.

Lemma tx_db_begin cs db seqs empty : cs_db cs db → (∀ tid v, db !! tid = Some v → vw_deletes v = ∅ ∧ vw_inserts v = ∅) → holds empty ∅ →
  tx_db (begin_mut_tx empty cs seqs) db.
Proof using.
  intros [C1 C2] Hno Hh. split; cbn; try (by constructor) || (by intros j [? ?]).
  - exact C1.
  - intros tid v Hv. destruct (C2 tid v Hv) as (Ht & Hinv & Hcols & Hva). destruct (C1 tid v Hv). destruct (Hno tid v Hv) as [-> ->].
    apply tx_begin_ok; try done. rewrite others_empty; [done|]. intros j w Hw. by apply (Hno j w Hw).
Qed.

(** ** Committed states *)

Local Abbreviation progress := (gmap Z (TableView * rows)) (only parsing).
Implicit Types (st : progress) (P : Z → TableView → rows → Table → Prop).

(** The tables with the rows that they have at a point of the commit. *)
Definition cs_inv P cs st : Prop := ∀ tid v A, st !! tid = Some (v, A) → type_ok (vw_es v) (vw_rt v) ∧
  ∃ ct, cs_tables cs !! tid = Some ct ∧ P tid v A ct ∧
    tbl_inv (H:=H) (vw_es v) (vw_rt v) (others snd st tid) COMMITTED_STATE ct (cs_page_pool cs) (cs_blob_store cs) A.

Lemma cs_inv_step P P' cs cs' st tid v A A' ct ct' :
  cs_inv P cs st → st !! tid = Some (v, A) → cs_tables cs !! tid = Some ct → cs_tables cs' = <[tid := ct']> (cs_tables cs) →
  tbl_inv (H:=H) (vw_es v) (vw_rt v) (others snd st tid) COMMITTED_STATE ct' (cs_page_pool cs') (cs_blob_store cs') A' →
  P' tid v A' ct' → (∀ j w A ct, j ≠ tid → P j w A ct → P' j w A ct) → cs_inv P' cs' (<[tid := (v, A')]> st).
Proof using.
  intros Hinv Hst Hct Htabs Hinv' HP' HP j w A0 [[<- [= <- <-]]|[Hne Hj]]%lookup_insert_Some.
  - split; [by apply (Hinv tid v A)|]. exists ct'. rewrite Htabs, lookup_insert_eq, others_insert. done.
  - destruct (Hinv j w A0 Hj) as (Hty & ctj & Hctj & HPj & Hph & Hlog). split; [done|]. exists ctj.
    split; [by rewrite Htabs, lookup_insert_ne|]. split; [by apply HP|]. split; [|done].
    destruct (phys_holds _ _ _ _ _ _ _ _ (proj1 Hinv')) as [Hh Hpool]. eapply phys_frame; [exact Hph|done|].
    rewrite (others_total snd (<[tid := (v, A')]> st) j (w, A0)) by by rewrite lookup_insert_ne.
    rewrite <-(others_total snd (<[tid := (v, A')]> st) tid (v, A')) by apply lookup_insert_eq. by rewrite others_insert.
Qed.

(** Only the pool is changed. *)
Lemma cs_inv_pool P cs st pool : cs_inv P cs st → pool_ok pool → cs_inv P (cs_with_stores cs (cs_blob_store cs) pool) st.
Proof using.
  intros Hinv Hpool tid v A Hst. destruct (Hinv tid v A Hst) as (Hty & ct & Hct & HP & Hph & Hlog). split; [done|]. exists ct. split_and!; [done|done|].
  split; [|done]. destruct (phys_holds _ _ _ _ _ _ _ _ Hph) as [Hh _]. by eapply phys_frame.
Qed.

Lemma on_commit_ok {E X} tid (m : st (Table * PagePool Q * B) E X) cs ct r ct' pool bs :
  cs_tables cs !! tid = Some ct → m (ct, cs_page_pool cs, cs_blob_store cs) = (r, (ct', pool, bs)) →
  on_commit_table tid m cs = (r, cs_with_stores (cs_with_tables cs (<[tid := ct']> (cs_tables cs))) bs pool).
Proof using. intros Hct Hm. unfold on_commit_table. by rewrite Hct, Hm. Qed.

(** ** Deletes *)

Definition after_deletes v : rows := filter (λ e, e.1 ∉ vw_deletes v) (vw_rows v).

(** The tables in [l] still have their committed rows, the others have none of
    those that were deleted. *)
Definition deleting (l : list (Z * DeleteTable)) tid v A ct : Prop :=
  grown 0 (vw_table v) ct ∧ A = (if decide (tid ∈ map fst l) then vw_rows v else after_deletes v) ∧
  ∀ news, rows_room (vw_table v) (vw_rows v) news → rows_room ct A news.

(** The rows that were recorded for a table. *)
Definition recorded (l : list (Z * list ProductValue)) tid (asked : ProductValue → Prop) : Prop :=
  ∀ x, x ∈ default [] (bt_get l tid) ↔ asked x.
Definition deleted_row v x : Prop := ∃ k, k ∈ vw_deletes v ∧ vw_rows v !! k = Some x.


(** The rows of one table more are recorded. *)
Lemma recorded_step db (asked : TableView → ProductValue → Prop) (tids : list Z) tid v vals l :
  db !! tid = Some v → tid ∉ tids → (∀ x, x ∈ vals ↔ asked v x) →
  (∀ j w, db !! j = Some w → recorded l j (λ x, (j ∉ tid :: tids) ∧ asked w x)) →
  ∀ j w, db !! j = Some w → recorded (match vals with [] => l | _ => bt_insert l tid vals end) j (λ x, (j ∉ tids) ∧ asked w x).
Proof using.
  intros Hv Hnew Hvals Hrec j w Hw x. pose proof (Hrec j w Hw x : _ ↔ (j ∉ tid :: tids) ∧ asked w x) as Hx.
  rewrite not_elem_of_cons in Hx. destruct (decide (j = tid)) as [->|Hj].
  - assert (w = v) as -> by congruence. transitivity (x ∈ vals); [|rewrite Hvals; naive_solver].
    destruct vals as [|y vals]; [|by rewrite get_insert]. rewrite Hx, elem_of_nil. naive_solver.
  - transitivity (x ∈ default [] (bt_get l j)); [destruct vals; by rewrite ?get_insert_ne|]. rewrite Hx. naive_solver.
Qed.

Lemma Forall2_elem_r {A X} (f : A → option X) (ks : list A) vals x :
  Forall2 (λ k y, f k = Some y) ks vals → x ∈ vals ↔ ∃ k, k ∈ ks ∧ f k = Some x.
Proof using.
  induction 1 as [|k y ks vals Hk _ IH]; [setoid_rewrite elem_of_nil; naive_solver|]. rewrite elem_of_cons, IH. setoid_rewrite elem_of_cons. split.
  - intros [->|(k' & ? & ?)]; [by exists k; split; [left|]|exists k'; auto].
  - intros (k' & [->|?] & Hk'); [left; congruence|right; by exists k'].
Qed.

Lemma merge_deletes_ok {E} l s db d cs st :
  tx_db s db → NoDup (map fst l) → (∀ j dt, (j, dt) ∈ l → bt_get (ts_delete_tables (mt_tx_state s)) j = Some dt) →
  cs_inv (deleting l) cs st → fst <$> st = db →
  (∀ j v, db !! j = Some v → recorded (td_deletes d) j (λ x, (j ∉ map fst l) ∧ deleted_row v x)) →
  ∃ d' cs' st', merge_apply_deletes (H:=H) (E:=E) l d cs = (Ok d', cs') ∧ cs_inv (deleting []) cs' st' ∧ fst <$> st' = db ∧
    (∀ j v, db !! j = Some v → recorded (td_deletes d') j (deleted_row v)) ∧ td_inserts d' = td_inserts d ∧ td_tx_offset d' = td_tx_offset d ∧
    cs_next_tx_offset cs' = cs_next_tx_offset cs.
Proof using LawI FLawI.
  intros Hdb. revert d cs st. induction l as [|[tid dt] l IH]; intros d cs st Hnd Hl Hinv Hst Hrec.
  - exists d, cs, st. split_and!; try done. intros j v Hv x. rewrite (Hrec j v Hv x). split; [by intros [_ ?]|]. intros Hx. split; [apply not_elem_of_nil|done].
  - cbn [map fst] in Hnd. apply NoDup_cons in Hnd as [Hnew Hnd]. pose proof (Hl tid dt ltac:(by left)) as Hdt.
    destruct (xd_deletes _ _ Hdb tid ltac:(by eexists)) as [v Hv]. pose proof Hv as Hv'. rewrite <-Hst in Hv'. apply lookup_fmap_Some in Hv' as ([v0 A] & Hv0 & Hst'). cbn in Hv0. subst v0.
    destruct (Hinv tid v A Hst') as ([T1 T2 T3 T4 T5 T6] & ct & Hct & (Hg & HA & Hroom) & Hcinv). rewrite decide_True in HA by by left. subst A.
    pose proof (xd_views _ _ Hdb tid v Hv) as Hview. pose proof Hview as [_ (t & dt' & _ & Hdt' & Htx & _) _ _ _ _ _].
    unfold delete_table in Hdt'. rewrite Hdt in Hdt'. subst dt'. pose proof (xi_deletes _ _ _ _ _ _ _ _ _ _ _ Htx) as Hrep. cbn [fst snd] in Hrep.
    pose proof (xi_deleted _ _ _ _ _ _ _ _ _ _ _ Htx) as Hsub.
    destruct (dt_iter_ok (E:=E) _ (row_size_range _ _ T1 T2 T3) dt _ Hrep) as (ks & Hks & _ & Hp).
    assert (Hel : ∀ k, k ∈ ks ↔ k ∈ vw_deletes v) by (intros k; by rewrite Hp, elem_of_elements).
    destruct (delete_rows_ok (E:=E) _ _ T1 T2 T3 _ ct _ _ (vw_rows v) ks Hcinv) as (vals & ct' & cbs' & C' & Hd & Hcinv' & Hg' & HC' & Hvals & Hroom').
    { rewrite Hp. apply NoDup_elements. }
    { intros k Hk. by apply Hsub, Hel. }
    cbn [merge_apply_deletes]. rewrite (sbind_Ok (sgets id) _ cs cs cs) by done. rewrite Hct.
    rewrite (sbind_Ok (sres _) _ cs cs (map (ptr_of COMMITTED_STATE) ks)) by (unfold sres; by rewrite Hks).
    rewrite (sbind_Ok _ _ _ _ _ (on_commit_ok tid _ cs ct _ _ _ _ Hct Hd)).
    assert (Hin : ∀ x, x ∈ vals ↔ deleted_row v x).
    { intros x. unfold deleted_row. setoid_rewrite <-Hel. by apply (Forall2_elem_r (λ k, vw_rows v !! k)). }
    set (d1 := match vals with [] => d | _ => set_deletes_for_table tid (sch_table_name (tb_schema ct)) vals d end).
    assert (Hd1 : (td_inserts d1 = td_inserts d ∧ td_tx_offset d1 = td_tx_offset d) ∧ td_deletes d1 = match vals with [] => td_deletes d | _ => bt_insert (td_deletes d) tid vals end)
      by by subst d1; destruct vals.
    destruct (IH d1 (cs_with_stores (cs_with_tables cs (<[tid := ct']> (cs_tables cs))) cbs' (cs_page_pool cs)) (<[tid := (v, C')]> st) Hnd)
      as (d' & cs' & st' & Hm & Hi & Hs & Hr & Hins & Hofs & Hoff).
    + intros j dt0 Hj. apply Hl. by right.
    + eapply (cs_inv_step (deleting ((tid, dt) :: l))); [exact Hinv|exact Hst'|exact Hct|done|exact Hcinv'| |].
      * split; [exact (grown_trans 0 0 _ _ _ Hg Hg')|]. rewrite decide_False by done. split; [|intros news Hn; by apply Hroom', Hroom].
        rewrite HC'. unfold after_deletes. apply map_filter_ext. intros k x _. cbn. by rewrite Hel.
      * intros j w A0 ct0 Hj (G1 & G2 & G3). split; [done|]. split; [|done]. rewrite G2. cbn [map fst].
        destruct (decide (j ∈ map fst l)) as [Hj1|Hj1]; [by rewrite decide_True by by right|]. rewrite decide_False; [done|].
        by intros [->|?]%elem_of_cons.
    + rewrite fmap_insert, Hst. by apply insert_id.
    + destruct Hd1 as [_ ->]. by apply (recorded_step db deleted_row (map fst l) tid v).
    + destruct Hd1 as [[D1 D2] _]. exists d', cs', st'. split_and!; try done; congruence.
Qed.

(** ** Inserts *)

Definition view_sees v x : Prop := sees (vw_rows v) (vw_deletes v) (vw_inserts v) x.
Definition new_row v x : Prop := ∃ k, vw_inserts v !! k = Some x.

(** The tables in [l] have the committed rows that were not deleted, the others
    have those that the transaction sees. *)
Definition inserting (l : list (Z * Table)) tid v A ct : Prop :=
  if decide (tid ∈ map fst l) then
    grown 0 (vw_table v) ct ∧ A = after_deletes v ∧ ∀ news, rows_room (vw_table v) (vw_rows v) news → rows_room ct A news
  else (∃ n, grown n (vw_table v) ct) ∧ ∀ x, (∃ k, A !! k = Some x) ↔ view_sees v x.

Lemma after_deletes_sees v x : (∃ k, after_deletes v !! k = Some x) → view_sees v x.
Proof using. intros (k & [HC HD]%map_lookup_filter_Some). left. by exists k. Qed.

Lemma inserting_sees l tid v A ct k x : inserting l tid v A ct → A !! k = Some x → view_sees v x.
Proof using.
  unfold inserting. destruct (decide _); [intros (_ & -> & _) Hk; apply after_deletes_sees; by exists k|intros [_ Hx] Hk]. apply Hx. by exists k.
Qed.

(** A commit of the inserts starts when the deletes are done. *)
Lemma deleting_inserting s db tid v A ct : tx_db s db → db !! tid = Some v →
  deleting [] tid v A ct → inserting (ts_insert_tables (mt_tx_state s)) tid v A ct.
Proof using.
  intros Hdb Hv (Hg & HA & Hroom). rewrite decide_False in HA by apply not_elem_of_nil. unfold inserting. destruct (decide _) as [Hin|Hin]; [done|].
  split; [by exists 0|]. intros x. split; [rewrite HA; apply after_deletes_sees|].
  assert (HI : vw_inserts v = ∅).
  { apply (tw_no_inserts _ _ _ _ _ _ _ _ _ _ (xd_views _ _ Hdb tid v Hv)). by apply no_key_none. }
  unfold view_sees, sees. rewrite HI. intros [(k & HC & HD)|(k & Hk)]; [|done]. exists k. rewrite HA. by apply map_lookup_filter_Some.
Qed.

(** The large objects are those of committed and of inserted rows. *)
Lemma elem_objects {V} (f : V → rows) (db : gmap Z V) b :
  b ∈ large (objects f db) ↔ 992 < len b ∧ ∃ tid x k val, db !! tid = Some x ∧ f x !! k = Some val ∧ b ∈ product_objects val.
Proof using.
  unfold large, objects, map_objects. rewrite elem_of_list_to_set_disj, list_elem_of_filter, list_elem_of_bind. split.
  - intros (Hl & [tid x] & Hb & Hx). apply elem_of_map_to_list in Hx. apply list_elem_of_bind in Hb as ([k val] & Hb & Hk).
    apply elem_of_map_to_list in Hk. split; [done|]. by exists tid, x, k, val.
  - intros [Hl (tid & x & k & val & Hx & Hk & Hb)]. split; [done|]. exists (tid, x). split; [|by apply elem_of_map_to_list].
    apply list_elem_of_bind. exists (k, val). split; [done|by apply elem_of_map_to_list].
Qed.

Definition db_objects db : gmultiset (list byte) := large (objects vw_rows db) ⊎ large (objects vw_inserts db).

Lemma seen_objects db tid v x b : db !! tid = Some v → view_sees v x → b ∈ product_objects x → 992 < len b → b ∈ db_objects db.
Proof using.
  intros Hv Hx Hb Hl. unfold db_objects. rewrite gmultiset_elem_of_disj_union, !elem_objects.
  destruct Hx as [(k & HC & _)|(k & HI)]; [left|right]; split; [done| |done|]; by exists tid, v, k, x.
Qed.

Lemma inserting_free l cs st db tid v A vals :
  cs_inv (inserting l) cs st → fst <$> st = db → st !! tid = Some (v, A) → (∀ x, x ∈ vals → new_row v x) → collision_free (db_objects db) →
  collision_free (others snd st tid ⊎ large (map_objects A) ⊎ large (concat (map product_objects vals))).
Proof using.
  intros Hinv Hst Htid Hvals Hfree. assert (Hmem : ∀ b, b ∈ others snd st tid ⊎ large (map_objects A) ⊎ large (concat (map product_objects vals)) → b ∈ db_objects db).
  { intros b. change A with ((v, A).2) at 1. rewrite (others_total snd st tid (v, A) Htid), gmultiset_elem_of_disj_union, elem_objects.
    intros [[Hl (j & [w A0] & k & val & Hj & Hk & Hb)]|Hb].
    - destruct (Hinv j w A0 Hj) as (_ & ct & _ & HP & _). eapply (seen_objects db j w); [|by eapply inserting_sees|done|done].
      by rewrite <-Hst, lookup_fmap, Hj.
    - unfold large in Hb. rewrite elem_of_list_to_set_disj, list_elem_of_filter in Hb. destruct Hb as [Hl Hb].
      apply list_elem_of_In, in_concat in Hb as (objs & Hin%list_elem_of_In & Hb%list_elem_of_In). apply list_elem_of_fmap in Hin as (x & -> & Hx). destruct (Hvals x Hx) as [k Hk].
      eapply (seen_objects db tid v x); [by rewrite <-Hst, lookup_fmap, Htid|right; by exists k|done|done]. }
  intros b b' Hb Hb'. apply Hfree; by apply Hmem.
Qed.

Lemma with_own_schema t : with_schema t (tb_schema t) = t.
Proof using. by destruct t. Qed.

(** The pages of the insert tables are used again. *)
Lemma pool_put_many_ok (pool : PagePool Q) ps : pool_ok pool → Forall reusable ps → pool_ok (pool_put_many pool ps).
Proof using.
  unfold pool_put_many. intros Hpool Hps. revert pool Hpool. induction Hps as [|p ps Hp _ IH]; intros pool Hpool; [done|]. cbn. apply IH.
  unfold pool_put, pool_ok in *. destruct (queue_push_law (pool_pages pool) p) as (ok & q & -> & Hq). cbn [pool_pages]. rewrite Hq.
  destruct ok; [|done]. apply Forall_app. split; [done|]. by constructor.
Qed.
Lemma table_pages_reusable es rt m sq i (pool : PagePool Q) (bs : B) A : phys es rt m sq i pool bs A → Forall reusable (pages (ti_pages i)).
Proof using.
  intros [_ _ _ ((rows & [P1 _ _ _ _]) & _) _ _]. apply Forall_forall. intros p Hp. apply list_elem_of_lookup in Hp as [j Hj].
  destruct (Forall2_lookup_l _ _ _ _ _ P1 Hj) as (r & _ & Hr). by eapply page_inv_reusable.
Qed.

(** The last steps for a table, when its rows are inserted. *)
Lemma finish_table_ok {E X} tid tx_table cs ct (k : string → st committed E X) : cs_tables cs !! tid = Some ct → tb_schema tx_table = tb_schema ct →
  let cs' := cs_with_stores cs (cs_blob_store cs) (pool_put_many (cs_page_pool cs) (pages (ti_pages (tb_inner tx_table)))) in
  sbind (on_commit_table tid (of_table (λ t _, Ok (sch_table_name (tb_schema t))))) (λ name,
  sbind (on_commit_table tid (on_table (smodify (λ t, with_schema t (tb_schema tx_table))))) (λ _,
  sbind (smodify (λ cs, cs_with_stores cs (cs_blob_store cs) (pool_put_many (cs_page_pool cs) (pages (ti_pages (tb_inner tx_table)))))) (λ _,
  k name))) cs = k (sch_table_name (tb_schema ct)) cs'.
Proof using.
  intros Hct Hs cs'. assert (Hsame : cs_with_stores (cs_with_tables cs (<[tid := ct]> (cs_tables cs))) (cs_blob_store cs) (cs_page_pool cs) = cs)
    by (rewrite (insert_id _ _ _ Hct); by destruct cs).
  rewrite (sbind_Ok _ _ _ _ _ (on_commit_ok tid (of_table (λ t _, Ok (sch_table_name (tb_schema t)))) cs ct _ ct _ _ Hct eq_refl)), Hsame.
  rewrite (sbind_Ok _ _ _ _ _ (on_commit_ok tid (on_table (smodify (λ t, with_schema t (tb_schema tx_table)))) cs ct _ _ _ _ Hct eq_refl)).
  by rewrite Hs, with_own_schema, Hsame.
Qed.

(** The rows of an insert table are new to the committed table. *)
Lemma insert_table_rows {E} s db tid v t :
  tx_db s db → db !! tid = Some v → bt_get (ts_insert_tables (mt_tx_state s)) tid = Some t →
  ∃ rs vals, scan_rows (E:=E) t (ts_blob_store (mt_tx_state s)) = Ok rs ∧ Forall2 (λ r x, rr_to_product_value (E:=E) r = Ok x) rs vals ∧
    vals ≡ₚ map snd (map_to_list (vw_inserts v)) ∧ (∀ x, x ∈ vals ↔ new_row v x) ∧
    (∀ ct, grown 0 (vw_table v) ct → new_rows (vw_es v) (vw_rt v) ct (after_deletes v) vals) ∧
    tb_schema t = tb_schema (vw_table v) ∧ Forall reusable (pages (ti_pages (tb_inner t))).
Proof using LawI FLawI.
  intros Hdb Hv Ht. destruct (xd_types _ _ Hdb tid v Hv) as [T1 T2 T3 T4 T5 T6].
  pose proof (xd_views _ _ Hdb tid v Hv) as [_ (t' & dt & Ht' & _ & Htx & _) _ _ _ _ Hfits].
  assert (t' = t) as -> by (unfold insert_table in Ht'; by rewrite Ht in Ht'). pose proof Htx as [X1 X2 X3 X4 X5 X6 X7 X8 X9]. cbn [fst snd] in *.
  destruct (scan_rows_ok _ _ T1 T2 T3 _ TX_STATE (E:=E) t _ _ _ X2 (tv_sq _ _ _ _ X3)) as (ks & Hscan & Hks & Hel).
  destruct (values_of (vw_inserts v) ks Hks Hel) as (vals & Hvals & Hp). eexists _, vals. split; [exact Hscan|]. split_and!; try done.
  - clear -Hvals X2 T1 T2 T3 LawI. induction Hvals as [|k x ks vals Hk _ IH]; cbn; constructor; [|done].
    by apply (phys_read _ _ T1 T2 T3 _ TX_STATE t _ _ _ k x X2).
  - intros x. unfold new_row. rewrite (Forall2_elem_r (λ k, vw_inserts v !! k) ks vals x Hvals). split; [intros (k & _ & ?); by exists k|].
    intros (k & Hk). exists k. split; [|done]. apply Hel. by eapply elem_of_dom_2.
  - intros ct Hg. eapply new_rows_ok; [exact Htx|done|done|done|done].
  - by eapply table_pages_reusable.
Qed.

Lemma merge_inserts_ok {E} l s db d cs st :
  tx_db s db → NoDup (map fst l) → (∀ j t, (j, t) ∈ l → bt_get (ts_insert_tables (mt_tx_state s)) j = Some t) →
  cs_inv (inserting l) cs st → fst <$> st = db → collision_free (db_objects db) →
  (∀ j v, db !! j = Some v → rows_room (vw_table v) (vw_rows v) (map snd (map_to_list (vw_inserts v)))) →
  (∀ j v, db !! j = Some v → recorded (td_inserts d) j (λ x, (j ∉ map fst l) ∧ new_row v x)) →
  (∃ d' cs' st', merge_apply_inserts (H:=H) (E:=E) l (ts_blob_store (mt_tx_state s)) d cs = (Ok d', cs') ∧
     cs_inv (inserting []) cs' st' ∧ fst <$> st' = db ∧
     (∀ j v, db !! j = Some v → recorded (td_inserts d') j (new_row v)) ∧ td_deletes d' = td_deletes d ∧ td_tx_offset d' = td_tx_offset d ∧
     cs_next_tx_offset cs' = cs_next_tx_offset cs) ∨
  (∃ cs' tid ct, merge_apply_inserts (H:=H) (E:=E) l (ts_blob_store (mt_tx_state s)) d cs = (Panic, cs') ∧
     cs_tables cs' !! tid = Some ct ∧ num_pages ct = PageIndex_MAX + 1).
Proof using LawI FLawI.
  intros Hdb. revert d cs st. induction l as [|[tid t] l IH]; intros d cs st Hnd Hl Hinv Hst Hfree Hrooms Hrec.
  - left. exists d, cs, st. split_and!; try done. intros j v Hv x. rewrite (Hrec j v Hv x). split; [by intros [_ ?]|]. intros Hx. split; [apply not_elem_of_nil|done].
  - cbn [map fst] in Hnd. apply NoDup_cons in Hnd as [Hnew Hnd]. pose proof (Hl tid t ltac:(by left)) as Ht.
    destruct (xd_inserts _ _ Hdb tid ltac:(by eexists)) as [v Hv]. pose proof Hv as Hv'. rewrite <-Hst in Hv'.
    apply lookup_fmap_Some in Hv' as ([v0 A] & Hv0 & Hst'). cbn in Hv0. subst v0.
    destruct (Hinv tid v A Hst') as ([T1 T2 T3 T4 T5 T6] & ct & Hct & HP & Hcinv). unfold inserting in HP. rewrite decide_True in HP by by left. destruct HP as (Hg & HA & Hroom).
    destruct (insert_table_rows (E:=E) s db tid v t Hdb Hv Ht) as (rs & vals & Hscan & Hread & Hp & Hin & Hnews & Hsch & Hpages).
    cbn [merge_apply_inserts]. rewrite (sbind_Ok (get_table_and_blob_store_or_create _ _) _ cs cs tt).
    2: { unfold get_table_and_blob_store_or_create. rewrite (sbind_Ok (sgets id) _ cs cs cs) by done. by rewrite Hct. }
    rewrite (sbind_Ok (sres _) _ cs cs _) by (unfold sres; by rewrite Hscan).
    destruct (insert_rows_ok (E:=E) _ _ T1 T2 T3 T4 _ ct _ _ A rs vals Hcinv Hread)
      as [(ct' & pool' & cbs' & C' & Hi & Hcinv' & Hg' & _ & _ & Hels)|([[ct' pool'] cbs'] & Hi & Hn)].
    + rewrite HA. by apply Hnews.
    + apply Hroom. eapply rows_room_perm; [symmetry; exact Hp|by eapply Hrooms].
    + eapply inserting_free; [exact Hinv|exact Hst|exact Hst'|intros x; apply Hin|exact Hfree].
    + rewrite (sbind_Ok _ _ _ _ _ (on_commit_ok tid _ cs ct _ _ _ _ Hct Hi)). set (cs1 := cs_with_stores _ cbs' pool').
      rewrite (finish_table_ok tid t cs1 ct') by (first [by apply lookup_insert_eq|by rewrite Hsch, (gr_schema _ _ _ Hg'), (gr_schema _ _ _ Hg)]).
      set (d1 := match vals with [] => d | _ => set_inserts_for_table tid (sch_table_name (tb_schema ct')) vals d end).
      assert (Hd1 : (td_deletes d1 = td_deletes d ∧ td_tx_offset d1 = td_tx_offset d) ∧ td_inserts d1 = match vals with [] => td_inserts d | _ => bt_insert (td_inserts d) tid vals end)
        by by subst d1; destruct vals.
      set (cs2 := cs_with_stores cs1 _ _).
      assert (Hinv2 : cs_inv (inserting l) cs2 (<[tid := (v, C')]> st)).
      { apply cs_inv_pool; [|apply pool_put_many_ok; [by apply (phys_holds _ _ _ _ _ _ _ _ (proj1 Hcinv'))|done]].
        eapply (cs_inv_step (inserting ((tid, t) :: l))); [exact Hinv|exact Hst'|exact Hct|done|exact Hcinv'| |].
        - unfold inserting. rewrite decide_False by done. split; [exists (0 + len vals); by eapply grown_trans|]. intros x. rewrite Hels, HA, Hin.
          unfold view_sees, sees, new_row, after_deletes. setoid_rewrite map_lookup_filter_Some. done.
        - intros j w A0 ct0 Hj. unfold inserting. cbn [map fst]. by rewrite (decide_ext (j ∈ tid :: map fst l) (j ∈ map fst l)) by (rewrite elem_of_cons; naive_solver). }
      destruct (IH d1 cs2 (<[tid := (v, C')]> st) Hnd) as [(d' & cs' & st' & Hm & Hi' & Hs' & Hr' & Hd' & Hofs & Hoff)|(cs' & j & ctj & Hm & Hj)]; try done.
      * intros j t0 Hj. apply Hl. by right.
      * rewrite fmap_insert, Hst. by apply insert_id.
      * destruct Hd1 as [_ ->]. by apply (recorded_step db new_row (map fst l) tid v).
      * destruct Hd1 as [[D1 D2] _]. left. exists d', cs', st'. split_and!; try done; congruence.
      * right. by exists cs', j, ctj.
    + right. unfold sbind at 1. rewrite (on_commit_ok tid _ cs ct _ _ _ _ Hct Hi). eexists _, tid, ct'. split; [done|]. split; [|done].
      cbn. apply lookup_insert_eq.
Qed.

(** ** Committing *)

(** The committed database, with the tables as they are. *)
Definition committed_view cs tid (p : TableView * rows) : TableView :=
  {| vw_es := vw_es p.1; vw_rt := vw_rt p.1; vw_table := default (vw_table p.1) (cs_tables cs !! tid); vw_rows := p.2;
     vw_deletes := ∅; vw_inserts := ∅ |}.
Definition committed_db cs st : gmap Z TableView := map_imap (λ tid p, Some (committed_view cs tid p)) st.

Lemma committed_db_lookup cs st tid : committed_db cs st !! tid = committed_view cs tid <$> st !! tid.
Proof using. unfold committed_db. rewrite map_lookup_imap. by destruct (st !! tid). Qed.

Lemma committed_objects cs st : objects vw_rows (committed_db cs st) ≡ₚ objects snd st.
Proof using.
  induction st as [|tid p st Hn IH] using map_ind; [done|].
  assert (He : committed_db cs (<[tid := p]> st) = <[tid := committed_view cs tid p]> (committed_db cs st)).
  { apply map_eq. intros j. rewrite committed_db_lookup, !lookup_insert. destruct (decide (tid = j)) as [->|]; [done|]. by rewrite committed_db_lookup. }
  rewrite He, !objects_insert by (by rewrite ?committed_db_lookup, ?Hn). by rewrite IH.
Qed.
Lemma committed_others cs st tid : others vw_rows (committed_db cs st) tid = others snd st tid.
Proof using.
  unfold others. apply large_perm'. rewrite <-(committed_objects cs). replace (delete tid (committed_db cs st)) with (committed_db cs (delete tid st)); [done|].
  apply map_eq. intros j. rewrite committed_db_lookup, !lookup_delete. destruct (decide (tid = j)) as [->|]; [done|]. by rewrite committed_db_lookup.
Qed.

(** A commit starts with the committed rows. *)
Definition start_of db : progress := (λ v, (v, vw_rows v)) <$> db.

Lemma start_others db tid : others snd (start_of db) tid = others vw_rows db tid.
Proof using.
  unfold others, start_of. rewrite <-fmap_delete. apply large_perm'. unfold objects. rewrite map_to_list_fmap.
  induction (map_to_list (delete tid db)) as [|e l IH]; [done|]. cbn. by apply Permutation_app_head.
Qed.

Lemma start_inv s db : tx_db s db → cs_inv (deleting (ts_delete_tables (mt_tx_state s))) (mt_committed_state s) (start_of db).
Proof using.
  intros Hdb tid v A Hst. unfold start_of in Hst. rewrite lookup_fmap in Hst. destruct (db !! tid) as [v'|] eqn:Hv; [|done]. injection Hst as -> <-.
  pose proof (xd_views _ _ Hdb tid v Hv) as [W1 (t & dt & _ & _ & [X1 _ _ _ _ _ _ _ _] & _) _ W4 _ _ _]. cbn [fst snd] in X1.
  split; [by eapply xd_types|]. exists (vw_table v). split; [done|]. split; [|by rewrite start_others]. split; [by apply grown_refl|]. split; [|done].
  destruct (decide _) as [|Hn]; [done|]. unfold after_deletes. symmetry. apply map_filter_id. intros k x _. rewrite W4; [apply not_elem_of_empty|].
  by apply no_key_none.
Qed.

Lemma sorted_keys {V} (l : list (Z * V)) : bt_ok l → NoDup (map fst l) ∧ ∀ j x, (j, x) ∈ l → bt_get l j = Some x.
Proof using.
  intros Hok. assert (Hs : StronglySorted Z.lt (map fst l)).
  { induction Hok as [|e l _ IH Hall]; cbn; constructor; [done|]. rewrite Forall_fmap. eapply Forall_impl; [exact Hall|]. intros e' He. by apply Z.compare_lt_iff. }
  split; [|intros j x; by apply sorted_get]. clear Hok. induction Hs as [|z l' _ IH Hall]; constructor; [|done].
  intros Hin. rewrite Forall_forall in Hall. specialize (Hall _ Hin). lia.
Qed.

(** The tables after the commit are those of a database. *)
Lemma committed_db_ok s db cs st : tx_db s db → cs_inv (inserting []) cs st → fst <$> st = db → cs_db cs (committed_db cs st).
Proof using.
  intros Hdb Hinv Hst. split; intros tid w; rewrite committed_db_lookup; destruct (st !! tid) as [[v A]|] eqn:Hp; try done; intros [= <-];
    destruct (Hinv tid v A Hp) as (Hty & ct & Hct & HP & Hcinv); [done|].
  unfold inserting in HP. rewrite decide_False in HP by apply not_elem_of_nil. destruct HP as [[n Hg] _].
  assert (Hv : db !! tid = Some v) by (by rewrite <-Hst, lookup_fmap, Hp). pose proof (xd_views _ _ Hdb tid v Hv) as [_ (t & dt & _ & _ & [X1 _ _ _ _ _ _ _ _] & _) _ _ W5 W6 _].
  cbn [committed_view vw_table vw_es vw_rt vw_rows fst snd]. rewrite Hct, committed_others. cbn [from_option id]. split; [done|]. split; [exact Hcinv|]. split.
  - eapply Forall2_Forall_r; [apply Hg|]. eapply Forall_impl; [exact W5|]. intros e He e' [_ [= _ _ Hcols]]. by rewrite Hcols.
  - intros sl va. rewrite (gr_static _ _ _ Hg), (ph_layout _ _ _ _ _ _ _ _ (proj1 Hcinv)). pose proof (W6 sl va) as Hva.
    by rewrite (ph_layout _ _ _ _ _ _ _ _ (proj1 X1)) in Hva.
Qed.

Lemma no_rows_recorded (l : list (Z * list ProductValue)) tid asked x : recorded l tid asked → existsb non_empty l = false → ¬ asked x.
Proof using.
  intros Hr Hl Hx. apply Hr in Hx. destruct (bt_get l tid) as [vals|] eqn:Hg; cbn in Hx; [|by apply elem_of_nil in Hx]. apply get_index_in in Hg.
  assert (Ht : existsb non_empty l = true); [|congruence]. apply existsb_exists. exists (tid, vals). split; [by apply list_elem_of_In|]. by destruct vals; [apply elem_of_nil in Hx|].
Qed.

(** What a commit makes of the database: every table has the rows that the
    transaction saw, and those that were deleted and inserted are recorded. *)
Record committed_as db data cs db' : Prop := {
  ca_db : cs_db cs db';
  ca_dom : dom db' = dom db;
  ca_rows tid v v' : db !! tid = Some v → db' !! tid = Some v' → vw_es v' = vw_es v ∧ vw_deletes v' = ∅ ∧ vw_inserts v' = ∅ ∧
    ∀ x, (∃ k, vw_rows v' !! k = Some x) ↔ view_sees v x;
  ca_deletes tid v : db !! tid = Some v → recorded (td_deletes data) tid (deleted_row v);
  ca_inserts tid v : db !! tid = Some v → recorded (td_inserts data) tid (new_row v);
}.

Lemma committed_as_ok s db d data cs cs' st :
  tx_db s db → cs_inv (inserting []) cs st → fst <$> st = db →
  cs_tables cs' = cs_tables cs → cs_blob_store cs' = cs_blob_store cs → cs_page_pool cs' = cs_page_pool cs →
  td_deletes data = td_deletes d → td_inserts data = td_inserts d →
  (∀ j v, db !! j = Some v → recorded (td_deletes d) j (deleted_row v)) → (∀ j v, db !! j = Some v → recorded (td_inserts d) j (new_row v)) →
  committed_as db data cs' (committed_db cs st).
Proof using.
  intros Hdb Hinv Hst E1 E2 E3 E4 E5 Hd Hi. destruct (committed_db_ok s db cs st Hdb Hinv Hst) as [C1 C2]. split; rewrite ?E4, ?E5; try done.
  - split; [exact C1|]. rewrite E1, E2, E3. exact C2.
  - rewrite <-Hst. apply set_eq. intros tid. by rewrite !elem_of_dom, committed_db_lookup, lookup_fmap, !fmap_is_Some.
  - intros tid v v'. rewrite <-Hst, lookup_fmap, committed_db_lookup. destruct (st !! tid) as [[w A]|] eqn:Hp; [|done]. intros [= ->] [= <-]. split_and!; [done..|].
    destruct (Hinv tid v A Hp) as (_ & ct & _ & HP & _). unfold inserting in HP. rewrite decide_False in HP by apply not_elem_of_nil. apply HP.
Qed.

(** All deletions of the transaction are made. *)
Lemma commit_deletes_ok {E} s db : tx_db s db →
  ∃ d cs st, merge_apply_deletes (H:=H) (E:=E) (ts_delete_tables (mt_tx_state s)) tx_data_default (mt_committed_state s) = (Ok d, cs) ∧
    cs_inv (deleting []) cs st ∧ fst <$> st = db ∧ (∀ j v, db !! j = Some v → recorded (td_deletes d) j (deleted_row v)) ∧
    td_inserts d = [] ∧ td_tx_offset d = None ∧ cs_next_tx_offset cs = cs_next_tx_offset (mt_committed_state s).
Proof using LawI FLawI.
  intros Hdb. destruct (sorted_keys _ (xd_deletes_ok _ _ Hdb)) as [Hnd Hgd].
  assert (Hstart : fst <$> start_of db = db) by (unfold start_of; rewrite <-map_fmap_compose; apply map_fmap_id).
  apply (merge_deletes_ok (E:=E) _ s db tx_data_default _ _ Hdb Hnd Hgd (start_inv s db Hdb) Hstart).
  intros j v Hv x. cbn. rewrite elem_of_nil. split; [done|]. intros [Hn (k & HD & _)].
  rewrite (tw_no_deletes _ _ _ _ _ _ _ _ _ _ (xd_views _ _ Hdb j v Hv)) in HD by (by apply no_key_none). by apply not_elem_of_empty in HD.
Qed.

(** C2. A commit makes the changes of the transaction to all tables of the
    database: each then has the rows that the transaction saw, a transaction
    can begin with them, and the rows that were deleted and inserted are
    recorded.  The transaction takes the next offset, unless it recorded
    nothing.  There is no other outcome unless a table has the most pages
    that it can have, and then the commit panics.  This is for a transaction in
    which no generation of a sequence value failed: all tables have views
    ([tx_db]), as they have when the transaction begins ([tx_db_begin]) and after
    each operation ([tx_db_kept]), but a failed generation leaves a row that no
    index knows ([failed_generation_leaves_row]), and a commit inserts it. *)
Theorem tx_commit_view {E} s db reducer :
  tx_db s db → collision_free (db_objects db) →
  (∀ tid v, db !! tid = Some v → rows_room (vw_table v) (vw_rows v) (map snd (map_to_list (vw_inserts v)))) →
  cs_next_tx_offset (mt_committed_state s) < u64_MAX →
  (∃ data cs db', tx_commit (H:=H) (E:=E) reducer s = (Ok data, (cs, mt_sequence_state s)) ∧ committed_as db data cs db' ∧
     match td_tx_offset data with
     | Some n => n = cs_next_tx_offset (mt_committed_state s) ∧ cs_next_tx_offset cs = n + 1
     | None => cs_next_tx_offset cs = cs_next_tx_offset (mt_committed_state s) ∧
         ∀ tid v x, db !! tid = Some v → ¬ deleted_row v x ∧ ¬ new_row v x
     end) ∨
  (∃ cs tid ct, tx_commit (H:=H) (E:=E) reducer s = (Panic, (cs, mt_sequence_state s)) ∧ cs_tables cs !! tid = Some ct ∧ num_pages ct = PageIndex_MAX + 1).
Proof using LawI FLawI.
  intros Hdb Hfree Hroom Hoff. destruct (sorted_keys _ (xd_inserts_ok _ _ Hdb)) as [Hni Hgi].
  destruct (commit_deletes_ok (E:=E) s db Hdb) as (d1 & cs1 & st1 & Hm1 & Hi1 & Hs1 & Hr1 & Hn1 & Ht1 & Ho1).
  destruct (merge_inserts_ok (E:=E) (ts_insert_tables (mt_tx_state s)) s db d1 cs1 st1 Hdb Hni Hgi) as [(d2 & cs2 & st2 & Hm2 & Hi2 & Hs2 & Hr2 & Hd2 & Ht2 & Ho2)|(cs2 & j & ct & Hm2 & Hct)]; try done.
  { intros tid v A Hst. destruct (Hi1 tid v A Hst) as (Hty & ct & Hct & HP & Hc). split; [done|]. exists ct. split; [done|]. split; [|done].
    eapply deleting_inserting; [exact Hdb| |done]. by rewrite <-Hs1, lookup_fmap, Hst. }
  { intros j v Hv x. rewrite Hn1. cbn. rewrite elem_of_nil. split; [done|]. intros [Hn (k & HI)].
    by rewrite (tw_no_inserts _ _ _ _ _ _ _ _ _ _ (xd_views _ _ Hdb j v Hv)) in HI by (by apply no_key_none). }
  - left. unfold tx_commit, merge.
    rewrite (sbind_Ok _ _ _ _ _ Hm1), (sbind_Ok _ _ _ _ _ Hm2). destruct (tx_consumes_offset d2 reducer) eqn:Hc.
    + rewrite (sbind_Ok (sgets cs_next_tx_offset) _ cs2 cs2 (cs_next_tx_offset cs2)) by done.
      rewrite (sbind_Ok (sres _) _ cs2 cs2 (cs_next_tx_offset cs2 + 1)) by (unfold sres; by rewrite add_u_Ok by (unfold u64_MAX in *; lia)).
      eexists _, _, (committed_db cs2 st2). split; [done|]. split; [|cbn; split; congruence].
      eapply (committed_as_ok s db d2); try done. by rewrite Hd2.
    + eexists _, _, (committed_db cs2 st2). split; [done|]. assert (Hrd : ∀ j v, db !! j = Some v → recorded (td_deletes d2) j (deleted_row v)) by by rewrite Hd2.
      split; [by eapply (committed_as_ok s db d2)|]. rewrite Ht2, Ht1. cbn [td_tx_offset tx_data_default]. split; [congruence|].
      unfold tx_consumes_offset, has_rows_or_connect_disconnect in Hc. apply orb_false_iff in Hc as [[Hc1 Hc2]%orb_false_iff _].
      intros j v x Hv. split; [by eapply (no_rows_recorded (td_deletes d2) j); [apply Hrd|]|by eapply (no_rows_recorded (td_inserts d2) j); [apply Hr2|]].
  - right. exists cs2, j, ct. split; [|done]. unfold tx_commit, merge. rewrite (sbind_Ok _ _ _ _ _ Hm1). unfold sbind at 1. by rewrite Hm2.
Qed.
(** A rollback of a transaction that did not change a schema leaves the rows
    that were there when it began, and the sequences as they are: values that
    were allocated stay so in memory, although their row of [st_sequence] is
    not committed. *)
Lemma tx_rollback_ok {E} s db : tx_db s db → ts_pending_schema_changes (mt_tx_state s) = [] →
  tx_rollback (H:=H) (E:=E) s = (Ok tt, (mt_committed_state s, mt_sequence_state s)) ∧
  cs_db (mt_committed_state s) ((λ v, with_changes v ∅ ∅) <$> db).
Proof using.
  intros Hdb Hno. unfold tx_rollback, cs_rollback. rewrite Hno. split; [done|].
  assert (Ho : ∀ tid, others vw_rows ((λ v, with_changes v ∅ ∅) <$> db) tid = others vw_rows db tid).
  { intros tid. unfold others. rewrite <-fmap_delete. apply large_perm'. unfold objects. rewrite map_to_list_fmap.
    induction (map_to_list (delete tid db)) as [|e l IH]; [done|]. cbn. by apply Permutation_app_head. }
  split; intros tid w; rewrite lookup_fmap; destruct (db !! tid) as [v|] eqn:Hv; try done; intros [= <-]; [by apply (xd_types _ _ Hdb tid v)|].
  pose proof (xd_views _ _ Hdb tid v Hv) as [W1 (t & dt & _ & _ & [X1 _ _ _ _ _ _ _ _] & _) _ _ W5 W6 _]. rewrite Ho. by split_and!.
Qed.
End database.

(** ** Examples *)

Module Examples.
#[local] Existing Instances BlobStore.Examples.last32_hash ValueOrd.Examples.bits_ord ValueOrd.Examples.bits_ord_laws.
#[local] Existing Instances PagesThm.Examples.list_queue PagesThm.Examples.list_queue_laws RowHash.Examples.transcript_rows.
Import PagesThm.Examples TableThm.Examples TxThm.Examples.

Local Abbreviation H := (list byte) (only parsing).

(** A database with one table, which has one row; a transaction deletes it. *)
Definition one_row (t : Table) (D : gset (nat * Z)) : TableView :=
  {| vw_es := es; vw_rt := rt; vw_table := t; vw_rows := {[place := val]}; vw_deletes := D; vw_inserts := ∅ |}.
Definition deleted (t : Table) (pool : PagePool (list Page)) (bs : HashMapBlobStore) : MutTxId :=
  snd (tx_delete (H:=H) 1 (ptr_of COMMITTED_STATE place) (begun t pool bs)).

Lemma others_one (f : TableView → gmap (nat * Z) ProductValue) v : others f {[1 := v]} 1 = ∅.
Proof. unfold others. rewrite delete_singleton_eq. reflexivity. Qed.

Lemma row_type_ok : type_ok es rt.
Proof. split; [exact BflatnThm.Examples.rt_row|reflexivity|exact es_size|exact BflatnThm.Examples.rt_code|exact rt_few|exact rt_vcode]. Qed.

Lemma deleted_parts t pool bs : mt_committed_state (deleted t pool bs) = state_of t pool bs ∧ ts_insert_tables (mt_tx_state (deleted t pool bs)) = [].
Proof.
  unfold deleted, tx_delete. change (squashed_offset (ptr_of COMMITTED_STATE place)) with COMMITTED_STATE. change (COMMITTED_STATE =? TX_STATE) with false.
  rewrite Z.eqb_refl. destruct (cs_tables _ !! 1) as [ct|]; [|by split]. destruct (bt_get _ 1) as [dt|]; [|by split]. by destruct (dt_insert _ dt) as [[b dt']| | |].
Qed.

Lemma begun_db t pool bs : tx_view (H:=H) es rt ∅ ∅ 1 (begun t pool bs) t {[place := val]} ∅ ∅ → tx_db (H:=H) (begun t pool bs) {[1 := one_row t ∅]}.
Proof.
  intros Hv. split; [constructor|constructor|by intros j [? ?]|by intros j [? ?]|intros tid v [<- <-]%lookup_singleton_Some; exact row_type_ok|].
  intros tid v [<- <-]%lookup_singleton_Some. rewrite !others_one. exact Hv.
Qed.

(** The row is written again, replaced and deleted; the database is kept. *)
Lemma tx_db_kept_witness : ∃ t pool bs, let s := begun t pool bs in let v := one_row t ∅ in let db := {[1 := v]} in
  (keeps_db (H:=H) s db 1 v (tx_insert (H:=H) 1 bytes) ∧ ∀ index_id, keeps_db (H:=H) s db 1 v (tx_update (H:=H) 1 index_id bytes)) ∧
  keeps_db (H:=H) s db 1 v (delete_by_row_value (H:=H) 1 val) ∧ keeps_db (H:=H) s db 1 v (tx_delete (H:=H) 1 (ptr_of COMMITTED_STATE place)).
Proof.
  destruct row_view as (t & pool & bs & Hv & Hix & Hsch & Hst & Hpm & _). exists t, pool, bs. cbv zeta.
  destruct (tx_db_kept (H:=H) _ _ 1 (one_row t ∅) (begun_db t pool bs Hv) (lookup_singleton_eq _ _)) as (Hw & Hd & Hp).
  split; [|split].
  - apply Hw; [cbn [vw_table one_row]; rewrite Hsch; reflexivity|]. intros v Hb. apply bytes_row in Hb as ->; [|exact Hst].
    split; [rewrite !others_one; apply insertable_rows; by right|exact (new_room t pool bs stored Hix eq_refl Hpm)].
  - apply Hd. rewrite !others_one. apply insertable_rows. by right.
  - apply (Hp _ val). left. exists place. split; [reflexivity|]. split; [apply lookup_singleton_eq|apply not_elem_of_empty].
Defined.

Lemma deleted_db : ∃ t pool bs, tx_db (H:=H) (deleted t pool bs) {[1 := one_row t {[place]}]} ∧ tb_indexes t = [(1, stored)] ∧ tb_pointer_map t = None.
Proof.
  destruct row_view as (t & pool & bs & Hv & Hix & _ & _ & Hpm & _). exists t, pool, bs. split; [|split; [exact Hix|exact Hpm]].
  destruct (delete_committed_ok es rt BflatnThm.Examples.rt_row eq_refl es_size ∅ ∅ 1 _ t {[place := val]} ∅ ∅ place val Hv) as (s' & Hd & Hv' & Hk); [apply lookup_singleton_eq|].
  unfold deleted. rewrite Hd. cbn [snd]. rewrite union_empty_r_L in Hv'.
  rewrite <-(insert_singleton_eq 1 (one_row t {[place]}) (one_row t ∅)).
  eapply (tx_db_step _ _ _ 1 (one_row t ∅)); [exact (begun_db t pool bs Hv)|apply lookup_singleton_eq|exact Hk|].
  rewrite !others_one. exact Hv'.
Qed.

(** The deletion is committed: the table is empty, and the row is recorded. *)
Lemma tx_commit_view_witness : ∃ t pool bs data cs db', let db := {[1 := one_row t {[place]}]} in
  tx_commit (H:=H) (E:=unit) None (deleted t pool bs) = (Ok data, (cs, mt_sequence_state (deleted t pool bs))) ∧ committed_as (H:=H) db data cs db' ∧
  td_tx_offset data = Some 0 ∧ ∀ v k, db' !! 1 = Some v → vw_rows v !! k = None.
Proof.
  destruct deleted_db as (t & pool & bs & Hdb & Hix & Hpm). destruct (deleted_parts t pool bs) as [Hcs Hins]. exists t, pool, bs.
  assert (Hone : ∀ D, ({[1 := one_row t D]} : gmap Z TableView) !! 1 = Some (one_row t D)) by (intros D; apply lookup_singleton_eq).
  assert (Hdel : deleted_row (one_row t {[place]}) val) by (exists place; split; [exact (proj2 (elem_of_singleton place place) eq_refl)|apply lookup_singleton_eq]).
  destruct (tx_commit_view (H:=H) (E:=unit) (deleted t pool bs) {[1 := one_row t {[place]}]} None Hdb) as [(data & cs & db' & Hc & Hca & Hoff)|(cs & j & ct & Hc & _)].
  - assert (He : db_objects {[1 := one_row t {[place]}]} = ∅).
    { unfold db_objects, objects. rewrite map_to_list_singleton. cbn [mbind list_bind]. rewrite !app_nil_r. cbn [vw_rows vw_inserts one_row snd].
      unfold map_objects at 1. rewrite map_to_list_singleton. reflexivity. }
    rewrite He. clear. intros b b' Hb. exfalso. multiset_solver.
  - intros j v [<- <-]%lookup_singleton_Some. unfold rows_room, colliders. cbn [vw_table vw_rows vw_inserts one_row]. rewrite Hix, Hpm, map_size_singleton.
    split; [vm_compute; discriminate|]. split; [vm_compute; discriminate|]. constructor; [|constructor].
    unfold row_entries. rewrite map_to_list_singleton. vm_compute. discriminate.
  - rewrite Hcs. reflexivity.
  - exists data, cs, db'. split; [exact Hc|]. split; [exact Hca|]. rewrite Hcs in Hoff. split.
    + destruct (td_tx_offset data) as [n|]; [by destruct Hoff as [-> _]|]. by destruct (proj1 (proj2 Hoff 1 _ val (Hone _))).
    + intros v k Hv. destruct (ca_rows _ _ _ _ Hca 1 _ v (Hone _) Hv) as (_ & _ & _ & Hx). destruct (vw_rows v !! k) as [x|] eqn:Hk; [|reflexivity]. exfalso.
      destruct (proj1 (Hx x) (ex_intro _ k Hk)) as [(k' & Hk' & Hn)|(k' & Hn)]; [|cbn in Hn; rewrite lookup_empty in Hn; discriminate Hn].
      apply (lookup_singleton_Some (M:=gmap (nat * Z)) place k' val x) in Hk' as [<- _]. exact (Hn (proj2 (elem_of_singleton place place) eq_refl)).
  - exfalso. destruct (commit_deletes_ok (H:=H) (E:=unit) _ _ Hdb) as (d & cs1 & st & Hm & _ & _ & _ & _ & _ & Hn). rewrite Hcs in Hn.
    unfold tx_commit, merge in Hc. rewrite (sbind_Ok _ _ _ _ _ Hm), Hins in Hc. cbn [merge_apply_inserts] in Hc.
    rewrite (sbind_Ok (sret d) _ cs1 cs1 d eq_refl) in Hc. destruct (tx_consumes_offset d None); [|discriminate Hc].
    rewrite (sbind_Ok (sgets cs_next_tx_offset) _ cs1 cs1 0) in Hc by (unfold sgets; by rewrite Hn). discriminate Hc.
Defined.
End Examples.
